(* ===== verification/_CoqProject ===== *)
-Q . S2P
Prelude.v
PyCollections.v
KVCache.v
KVCacheProps.v
KVCacheSwap.v
Sequence.v
Batch.v
BatchProps.v
ServingScheduler.v
ServingSchedulerProps.v
ServingSchedulerStep.v
ServingSchedule.v
ServingLifecycle.v
ServingTheorems.v
Sampler.v
Engine.v
EngineProps.v
OffloadingPolicy.v
OffloadingPolicyProps.v
BlockPool.v
BlockPoolProps.v
CPUBlockCache.v
KVCacheManager.v
KVCacheManagerProps.v
EngineTypes.v
EngineScheduler.v
EngineSchedulerProps.v
TransferScheduler.v
TransferSchedulerProps.v
GenerationLoop.v
PrefixCache.v
OffloadCoordinators.v
ContextPilot.v
ModelRunner.v
ModelRunnerProps.v
CudaGraph.v
Json.v
JsonProps.v
Stream.v
StreamProps.v
Recording.v
Validation.v
ApiResults.v
ApiAuth.v
CPMiddleware.v
Watchdog.v
ApiServer.v
ApiServerProps.v
ApiResponse.v
MemoryManager.v
ExpertDispatch.v
ExpertPrefetch.v
Distributed.v
HfConfig.v
Quantization.v
ModelTopology.v
OffloadEngine.v
LoadingSupport.v
EngineSetup.v
ModelLoading.v
Tensor.v
Mxfp4Gemm.v
PagedAttention.v
PagedAttentionProps.v
DeepseekStore.v
DeepseekExperts.v
DeepseekShards.v
FusedSoftmax.v
FusedDecode.v
FusedProjections.v
Marlin.v
ModelAttention.v
ExpertTracing.v
ExpertTracingProps.v
MoeBlocks.v
MoeBlocksProps.v
OffloadHooks.v
OffloadHooksProps.v
BigModeling.v
BigModelingProps.v
