(* ===== verification/Prelude.v ===== *)
(** * MoE-Infinity: a verification development of the serving runtime

    ** The program

    MoE-Infinity serves mixture-of-experts language models on GPUs that cannot
    hold all the experts and all the keys and values of the requests they work
    on.  Its Python code (under [src/moe_infinity/]) decides which request runs
    in the next step, where the keys and values of each token live, what is
    moved between GPU and CPU and what is evicted; the arithmetic is done by
    torch, by kernels and by a C++ engine.  This development models the code
    that decides, and the kernels and model wrappers that are written in Python.
    There are two engines, a server, the code that places experts, and the code
    that computes with them:

    - the continuous-batching engine of [serving/]: [engine.py] owns a
      [Scheduler] ([scheduler.py]), which moves [SequenceGroup]s
      ([sequence.py]) between the queues waiting, running and swapped and drives
      a [PagedKVCache] ([kv_cache.py]); a step builds a packed batch
      ([batch.py]), runs the model, samples ([sampler.py]), records the tokens
      and updates the scheduler.  The model is run by [model_runner.py], for
      decode steps through captured graphs ([cuda_graph.py]).  Around it:
      [prefix_cache.py], [memory_manager.py], [watchdog.py], [health.py], and the
      context-pilot parts [contextpilot_circuit_breaker.py], [eviction_sync.py],
      [cp_kv_interface.py] and [contextpilot_middleware.py];
    - in front of that engine, the HTTP server [entrypoints/openai/api_server_v2.py]
      with [serving/validation.py] and [serving/stream.py]: it authenticates and
      validates requests, adds them to the engine, drives it from a loop and turns
      its outputs into responses or event streams;
    - the offline engine of [engine/]: [scheduler.py] schedules [Request]s
      ([types.py], [request_manager.py]) over the two-tier [KVCacheManager] of
      [memory/kv_cache_manager.py], which sits on two [BlockPool]s
      ([memory/block_pool.py]); preempted requests are copied by a worker thread
      ([unified_transfer_scheduler.py]) through the handlers of
      [kv_cache_offload_coordinator.py] and [expert_offload_coordinator.py];
      [generation_loop.py] generates for a single request.  The CPU tier can be
      a [CPUBlockCache] ([memory/cpu_block_cache.py]) with the replacement
      policies of [memory/offloading_policy.py];
    - below both, the experts: [serving/expert_batch.py] routes tokens to experts,
      [distributed/expert_executor.py] dispatches them to the C++ engine,
      [memory/expert_prefetcher.py] and [serving/expert_prefetch_coordinator.py]
      decide what to fetch ahead, and [runtime/model_offload.py] with [utils/]
      numbers the tensors of a checkpoint, groups them into stages, stores them in an
      offload directory, patches torch and transformers while a model is loaded, and
      puts hooks around every module that fetch and release its tensors.
      [entrypoints/big_modeling.py] puts a model and the offline engine together;
    - the computation: the mixture-of-experts blocks and the attention of [models/],
      the attention backends of [runtime/attention_backend.py], the Triton kernels of
      [kernel/] with their launchers, and the DeepSeek-V4 code of
      [models/deepseek_v4/].

    ** How it is modelled

    A method is a function in the state-and-exception monad [M] of this file:
    [M S A = S -> res A * S].  An exception is a value of [exn] and keeps the
    state changes made before it was raised, as in Python.  Objects that several
    components share (sequences, requests, blocks) live in a store and are
    referred to by id, so a change through one reference is seen by the others.
    Python's [int] is unbounded and is [Z]; the rational value of a [float] is
    [Q]; dicts are [gmap]s where only lookups matter and association lists where
    insertion order does; a KV block is a value of an abstract type [V], since
    the code only copies blocks.  Kernels and model code compute with exact
    rationals ([Qc]) on tensors that are nested lists or, where a kernel uses
    pointers and strides, flat memories; a conversion to a shorter floating-point
    type is an argument, so the theorems are about which numbers are combined and
    not about rounding.  The programs of a kernel's grid run in any order.

    Code outside the repository's Python sources is a parameter: the model's
    forward pass (which may raise), the tokenizer, the
    tensor operations of the sampler (with what torch documents of argmax, topk,
    sort, softmax and multinomial as the hypothesis [tensor_ops_ok], which the
    concrete [ref_argmax], [ref_topk], ... satisfy),
    Python's [hash], sha256, the prefix-reuse predictor, clocks and uuids, the
    handlers of transfers and the outcome of waiting for them.  Callbacks that clients
    register with the engine are taken to return.  Of the C++ engine two parts are
    modelled because Python relies on what they do: where a tensor is stored in an offload
    directory ([ModelLoading]) and how the outputs of experts are added ([MoeBlocks]).

    Methods that hold a lock are atomic steps; where a component has a thread of
    its own ([TransferScheduler]) its steps interleave with those of the clients.

    ** Files

    - [Prelude] (this file): lists and integers as Python has them, exceptions,
      the monad with its triples, tactics and hints.  [PyCollections]: [heapq],
      [OrderedDict], stable sorting.
    - [KVCache]: [BlockAllocator], [BlockTable] and [PagedKVCache]
      (serving/kv_cache.py).  [KVCacheProps]: which blocks are free and which
      are owned, per method and on every outcome.  [KVCacheSwap]: contents
      under swapping, histories of calls, and the theorems.
    - [Sequence] (serving/sequence.py): the status machine.
    - [Batch], [BatchProps] (serving/batch.py): building, splitting and
      recombining batches.
    - [ServingScheduler] (serving/scheduler.py); [ServingSchedulerProps] (the
      invariant), [ServingSchedulerStep] (its preservation by preemption,
      recovery and reordering), [ServingSchedule] (by [schedule]),
      [ServingLifecycle] (by [update_after_step] and [abort_request]),
      [ServingTheorems] (over whole histories).
    - [Sampler] (serving/sampler.py), [Engine] and [EngineProps]
      (serving/engine.py): the step, the recording of tokens, the loop.
    - [OffloadingPolicy]: the class [CachePolicy] with [LRUPolicy] and
      [ARCPolicy]; [OffloadingPolicyProps]: both satisfy [CachePolicyLaws], and
      what clients get.
    - [BlockPool], [BlockPoolProps] (memory/block_pool.py): the linked free
      queue, and that it refines a pool whose free blocks are a list; the lemmas
      [view_allocate], [view_free], [view_get_cached] and [view_cache_full] are
      the interface the clients are proved against.
    - [CPUBlockCache] (memory/cpu_block_cache.py): generic in the policy.
    - [KVCacheManager], [KVCacheManagerProps] (memory/kv_cache_manager.py):
      reference counts and the two-phase swap.
    - [EngineTypes] (engine/types.py, engine/request_manager.py),
      [EngineScheduler], [EngineSchedulerProps] (engine/scheduler.py).
    - [TransferScheduler], [TransferSchedulerProps] (engine/transfer_types.py,
      engine/unified_transfer_scheduler.py); [OffloadCoordinators] (the
      handlers).
    - [GenerationLoop] (engine/generation_loop.py).
    - [PrefixCache] (serving/prefix_cache.py); [ContextPilot] (modules [Breaker],
      [Eviction], [CPKV]); [CPMiddleware] (serving/contextpilot_middleware.py).
    - [ModelRunner], [ModelRunnerProps] (serving/model_runner.py): padding, slot
      mapping, packing of logits; [CudaGraph] (serving/cuda_graph.py).
    - [Json], [JsonProps]: [json.dumps] and [json.loads].  [Stream], [StreamProps]
      (serving/stream.py and the event generators of the server, as steps of the
      producer, the worker threads and the consumer).  [Recording] (modules [Writer]
      and [Profiler]: serving/incremental_writer.py, profiling/io_profiler.py).
    - [Validation] (serving/validation.py), [ApiResults] (results of non-streaming
      requests), [ApiAuth] (authentication, rate limits), [ApiServer],
      [ApiServerProps], [ApiResponse] (the handlers, the engine loop, start-up and
      shutdown, over the class [ServingEngine] of engines).  [EngineSetup]: the
      constructor of the serving engine and the configuration the server gives it.
    - [Watchdog] (serving/watchdog.py, serving/health.py); [MemoryManager] (modules
      [Budget], [Adaptive], [Coordinator]: serving/memory_manager.py,
      memory/memory_coordinator.py and the ratios of utils/config.py).
    - [ExpertDispatch] (serving/expert_batch.py); [ExpertPrefetch] (modules
      [PrefetchCoordinator], [Prefetch], [Executor]); [Distributed] (prefetching and
      dispatch over processes); [ExpertTracing], [ExpertTracingProps]
      (memory/expert_tracer.py, expert_predictor.py, expert_priority_score.py).
    - [HfConfig] (utils/hf_config.py, common/constants.py); [Quantization]
      (utils/quantization.py, gptq.py, mxfp4.py); of runtime/model_offload.py:
      [ModelTopology], [OffloadEngine] (modules [Patching], [Signature],
      [KVCapture]), [ModelLoading] (the offload directory, with the places of tensors from
      core/aio/archer_tensor_handle.cpp) and [OffloadHooks],
      [OffloadHooksProps] (the forward hooks); [LoadingSupport] (runtime/hooks.py,
      utils/checkpoints.py); [BigModeling], [BigModelingProps]
      (entrypoints/big_modeling.py).
    - [Tensor]: tensors, flat memories and sums.  [PagedAttention],
      [PagedAttentionProps] (runtime/attention_backend.py,
      kernel/paged_attention_ops.py); [ModelAttention] (models/model_utils.py,
      models/qwen3_paged_attention.py); [MoeBlocks], [MoeBlocksProps] (the blocks of
      models/).  Kernels: [Mxfp4Gemm], [FusedSoftmax] (with the class of numbers a
      softmax needs), [FusedDecode], [FusedProjections], [Marlin].
    - DeepSeek-V4: [DeepseekStore] (tensors of experts and their caches),
      [DeepseekExperts] (quantised experts, routing, executors over the class
      [ExpertProvider]), [DeepseekShards] (tensor-parallel shards).

    ** What the theorems show

    - KV memory of the serving engine.  In every reachable state no block is
      owned twice or owned and free ([kv_reachable_safe]); unless an allocation
      of a sequence raised, none is lost ([kv_reachable_conserved]); the contents
      of a preempted sequence come back, in order, whatever other sequences did
      meanwhile ([swap_round_trip]).  Two failure paths do lose something:
      [swap_in_failure_loses_contents], [allocate_sequence_failure_leaks].
    - Serving scheduler.  An invariant ties queues, statuses, maps and block
      tables together after any history of calls, also of calls that raise
      ([scheduler_invariant]); [schedule] never raises and stays within its
      budgets ([schedule_total_within_budget]); aborting and completing release
      what a request held ([abort_request_releases],
      [update_after_step_completes]).
    - Batches and sampling.  [builder_rows], [split_recombine],
      [sample_row_sound].
    - Engine.  [run_until_done_terminates]: the loop returns or raises within
      as many steps as tokens may still be generated; [generation_bounded]: no
      sequence exceeds its [max_tokens], except by one token for a step that raised.
    - Caches.  Both policies answer with the latest value of a key
      ([policies_return_latest]); ARC keeps its size bounds ([arc_invariant]);
      LRU holds the most recently used keys ([lru_keeps_most_recent]); the
      linked pool refines the abstract one ([block_pool_refines]); the CPU cache
      neither leaks nor confuses blocks ([cpu_cache_accounts],
      [cpu_cache_store_load]); prefix lookups return what was inserted
      ([prefix_lookup_sound]).
    - Offline engine.  Allocation is all or nothing
      ([allocate_blocks_all_or_nothing]); [schedule] never raises, respects its
      limits and loses no request ([engine_schedule_total]); reference counts are
      the number of holders ([engine_blocks_accounted]); [generate] frees what
      it took on every path ([generate_restores]); as long as ids are
      not reused too early no transfer is lost and the worker drains its queue in order of priority ([transfers_not_lost],
      [worker_drains_in_order]).
    - Running the model.  Every token of a batch gets its own cache slot
      ([batch_slots_distinct]), as in the other engine ([slot_mappings_agree]);
      the logits returned are those of the tokens, in order
      ([execute_packs_rows]); replaying a graph is running the model
      ([replay_equals_eager]).
    - The server.  It adds only admissible requests to the engine
      ([only_admissible_requests]); streams deliver every event once and in order
      under any interleaving ([stream_delivers_in_order]) and are read back from
      their bytes ([stream_roundtrip]); responses report what the engine produced
      ([collected_results], [select_best_spec], [completion_response_shape]); rate
      limits hold for any minute ([rate_limit_respected]); the watchdog fires
      exactly when it should ([decode_watchdog_exact]).
    - Memory and experts.  Budgets fit the device ([memory_budget_fits],
      [memory_ratios_agree]), the adaptive batch size keeps its bounds
      ([adaptive_batch_bounds]); routing marks the top experts and normalises their
      weights ([routing_row]); every selected expert is dispatched once
      ([dispatch_local_exact]); experts are ranked by demand
      ([priority_experts_spec]); stages partition the tensors
      ([topology_partitions]), ids do not clash ([expert_tensors_distinct]), names
      are parsed back ([expert_name_roundtrip]), packed tensors are never converted
      ([packed_tensors_kept]), an offload directory accepts its own model only
      ([signature_guards_cache]), captured keys and values come back
      ([kv_capture_roundtrip]); predictions weigh the layers ahead by distance
      ([prediction_weights], [priority_score_covers]); over several processes each
      rank fetches what lies on it ([distributed_prefetch_exact]).
    - Loading and running a model.  A start from the offload directory gives the
      tensors of the start that filled it ([warm_start_equals_cold]), and every tensor of
      the checkpoint reads back byte for byte ([first_load_roundtrip]); while a model is built
      torch.nn makes empty parameters, and afterwards it does not
      ([empty_init_restored]); the files of a checkpoint are found
      ([checkpoint_files_exact]); hooks fetch every tensor before it is used and
      release it as often as it was fetched ([hooks_bracket]); generation with cached
      keys and values samples from the model's answer on the whole text
      ([native_generate_exact]); the server's engine gets a cache that fits
      ([server_engine_built]).
    - Attention and experts.  Writing into the paged cache refines a map from slots
      ([write_kv_refines]); what a batch wrote is gathered back
      ([prefill_then_gather]); the attention module gives the backend every token in
      order ([paged_forward_exact]); rotary embeddings depend on relative positions
      ([rotary_relative_positions]); all blocks compute the mixture of their experts
      for any order of completion ([moe_blocks_exact], [gated_blocks_exact]).
    - Kernels.  The tiled or fused kernels equal their definitions for every tile
      width and order of programs: [fused_gemm_equals_reference],
      [fused_decode_exact], [softmax_rows_exact], [router_selects_top_k],
      [fused_ffn_exact], [fused_qkv_exact]; packing loses nothing
      ([marlin_pack_roundtrip]) and quantisation at most half a step
      ([marlin_quantize_error]).
    - DeepSeek-V4.  The store serves what the checkpoint holds
      ([store_serves_checkpoint]), both executors agree ([executors_agree]), ranks
      add up to the whole ([ranks_add_up]), shards are slices that fit together
      ([load_sharded_exact], [shards_reassemble]).
    - Files.  Saved records are recovered ([saved_records_recovered]); events are
      written once and in order ([events_written_once]).
    - Behaviour that is not what the code means to do is stated as a theorem, about
      a concrete history or in general: [schedule_preempts_what_it_admitted],
      [update_after_step_raises_when_full], [swap_in_reads_another_sequence],
      [stale_cancel_drops_transfer], [prefix_cache_ignores_prefix],
      [engine_swap_in_restores_nothing], [decode_position_off_by_one],
      [poll_timeout_breaks_stream], [empty_prompt_stops_server],
      [correction_skips_layer], [registered_but_unsupported],
      [patching_leaves_traces], [layers_share_one_cache],
      [decode_tokens_never_cached], [block_tables_unused],
      [predictions_never_use_traces],
      [mixtral_uses_two_experts], [gpt_oss_mxfp4_raises], [deepseek_shadowed],
      [post_hook_raises], [resumed_load_corrupts], [dispatch_raises],
      [reference_dequant_raises], [single_scales_lost],
      [torn_line_blocks_recovery], [inherited_init_not_restored].

    ** Bounds and fuel

    Loops over a queue that only shrinks recurse on the queue.  Where the
    recursion is not structural there is fuel, and a theorem that it is enough:
    [run_until_done] gets [budget], the number of tokens the registered
    sequences may still generate ([run_until_done_terminates]); the ghost trimming of ARC the total length of
    the ghost lists ([trim_both_spec]); the eviction loop of the CPU cache the
    length of the policy plus one ([evict_spec], [drain_spec]); the admission
    and preemption loops of the offline scheduler the lengths of their queues
    ([admit_spec], [make_room_spec]); the transfer worker three steps per queued
    request ([run_worker_spec]).

    ** Not modelled

    The C++ and CUDA engine under [core/] but for the two parts named above; the
    wrap-around of 32-bit offsets in kernels; rounding in floating point; the constructors of torch modules and the
    forward passes of the models around the replaced blocks; the building and loading
    of extension modules ([kernel/_loader.py], [kernel/__init__.py], [setup.py],
    [scripts/compile_kernels.py], [docker/verify_build.py]), which run compilers;
    command-line arguments, the schemas of requests beyond what the handlers read, and
    the server's metrics, reload and listing endpoints, which only print state; device
    names, tracing ranges for profilers, log messages and counters that nothing
    reads. *)

From stdpp Require Export base numbers list gmap strings sorting.
From Stdlib Require Export ZArith Lia.
Open Scope Z_scope.

(** ** Integers and lists *)

(** Python's [len]. *)
Definition zlen {A} (l : list A) : Z := Z.of_nat (length l).

(** Python's [sum] of integers. *)
Definition zsum (l : list Z) : Z := foldr Z.add 0 l.

Lemma zlen_nil {A} : zlen ([] : list A) = 0.
Proof. done. Qed.
Lemma zlen_cons {A} (x : A) l : zlen (x :: l) = zlen l + 1.
Proof. unfold zlen. simpl. lia. Qed.
Lemma zlen_app {A} (l1 l2 : list A) : zlen (l1 ++ l2) = zlen l1 + zlen l2.
Proof. unfold zlen. rewrite length_app. lia. Qed.
Lemma zlen_nonneg {A} (l : list A) : 0 ≤ zlen l.
Proof. unfold zlen. lia. Qed.
Lemma zsum_app l1 l2 : zsum (l1 ++ l2) = zsum l1 + zsum l2.
Proof. induction l1; simpl; [done|]. unfold zsum in *. simpl. lia. Qed.

Create HintDb moe.
Create Rewrite HintDb zlen.
#[export] Hint Resolve zlen_nonneg : moe.
#[export] Hint Rewrite @zlen_nil @zlen_cons @zlen_app zsum_app : zlen.

(** Python's [l[a:b]]: negative bounds count from the end, bounds out of range
    are clamped. *)
Definition py_bound (n i : Z) : Z := if i <? 0 then Z.max 0 (i + n) else Z.min i n.
Definition py_slice {A} (l : list A) (a b : Z) : list A :=
  let a' := py_bound (zlen l) a in
  let b' := py_bound (zlen l) b in
  take (Z.to_nat (b' - a')) (drop (Z.to_nat a') l).

Lemma py_slice_mid {A} (l1 l2 l3 : list A) :
  py_slice (l1 ++ l2 ++ l3) (zlen l1) (zlen l1 + zlen l2) = l2.
Proof.
  unfold py_slice, py_bound, zlen. rewrite !length_app.
  rewrite !(proj2 (Z.ltb_ge _ _)) by lia. rewrite !Z.min_l by lia.
  rewrite Nat2Z.id, drop_app_length.
  replace (Z.to_nat _) with (length l2) by lia. apply take_app_length.
Qed.

Lemma py_slice_prefix {A} (l : list A) n : 0 ≤ n → py_slice l 0 n = take (Z.to_nat n) l.
Proof.
  intros Hn. unfold py_slice, py_bound. rewrite (proj2 (Z.ltb_ge n 0)), (proj2 (Z.ltb_ge 0 0)) by lia.
  assert (0 ≤ zlen l) by (unfold zlen; lia). rewrite (Z.min_l 0) by lia. cbn [Z.to_nat drop]. rewrite Z.sub_0_r.
  destruct (Z.le_ge_cases n (zlen l)); [by rewrite Z.min_l|]. rewrite Z.min_r by lia.
  unfold zlen in *. rewrite Nat2Z.id, firstn_all, take_ge by lia. done.
Qed.

(** Filtering for a single value *)
Lemma filter_none {A} `{EqDecision A} (x : A) l : x ∉ l → filter (λ y, y = x) l = [].
Proof. induction l as [|y l IH]; intros Hx; [done|]. rewrite filter_cons, decide_False by set_solver. apply IH. set_solver. Qed.
Lemma filter_unique {A} `{EqDecision A} (x : A) l : NoDup l → x ∈ l → filter (λ y, y = x) l = [x].
Proof.
  intros Hnd. induction Hnd as [|y l Hy Hnd IH]; intros Hx; [by apply not_elem_of_nil in Hx|].
  rewrite filter_cons. case_decide as E.
  - subst y. f_equal. by apply filter_none.
  - apply elem_of_cons in Hx as [->|Hx]; [done|]. by apply IH.
Qed.

Lemma sorted_take_drop {A} (R : relation A) (l : list A) k a b :
  StronglySorted R l → a ∈ take k l → b ∈ drop k l → R a b.
Proof.
  intros Hs. rewrite <- (take_drop k l) in Hs. revert Hs. generalize (take k l) as l1, (drop k l) as l2.
  intros l1 l2 Hs Ha Hb. induction l1 as [|x l1 IH]; [by apply not_elem_of_nil in Ha|].
  apply StronglySorted_inv in Hs as [Hs Hx]. apply elem_of_cons in Ha as [->|Ha]; [|by apply IH].
  rewrite Forall_forall in Hx. apply Hx. set_solver.
Qed.

(** ** Exceptions and results *)

(** The Python exception classes that the modelled code raises.  The message
    of an exception is not modelled: no modelled handler inspects it. *)
Inductive exn : Type :=
  | ValueError
  | RuntimeError
  | KeyError
  | IndexError
  | AssertionError
  | TypeError
  | AttributeError
  | ZeroDivisionError
  | ImportError
  | NotImplementedError
  | HTTPException (status_code : Z)
  | InvalidRequestError (param : string)          (** serving/validation.py *)
  | ContextLengthExceededError.

(** The outcome of a Python call: a value or a raised exception. *)
Inductive res (A : Type) : Type :=
  | Ok (a : A)
  | Err (e : exn).
Arguments Ok {A} _.
Arguments Err {A} _.

#[export] Instance exn_eq_dec : EqDecision exn.
Proof. solve_decision. Defined.

#[export] Instance res_eq_dec {A} `{EqDecision A} : EqDecision (res A).
Proof. solve_decision. Defined.

Definition is_ok {A} (r : res A) : bool :=
  match r with Ok _ => true | Err _ => false end.

(** ** The state-and-exception monad

    A Python method that mutates an object of type [S] and returns an [A] is a
    function from the state before the call to the outcome and the state after
    it.  The state is kept when the call raises: mutations made before the
    [raise] stay, which several theorems below depend on. *)
Definition M (S A : Type) : Type := S → res A * S.

#[export] Instance M_ret {S} : MRet (M S) := λ A a s, (Ok a, s).
#[export] Instance M_bind {S} : MBind (M S) := λ A B k m s,
  match m s with
  | (Ok a, s') => k a s'
  | (Err e, s') => (Err e, s')
  end.

Section monad_ops.
Context {S : Type}.

Definition get : M S S := λ s, (Ok s, s).
Definition gets {A} (f : S → A) : M S A := λ s, (Ok (f s), s).
Definition modify (f : S → S) : M S unit := λ s, (Ok tt, f s).
Definition raise {A} (e : exn) : M S A := λ s, (Err e, s).

(** [if cond: raise e] *)
Definition raise_if (cond : bool) (e : exn) : M S unit :=
  if cond then raise e else mret tt.

(** [if cond: body] *)
Definition when (cond : bool) (body : M S unit) : M S unit :=
  if cond then body else mret tt.

(** [try: body / except E: pass] for the exceptions [handled] accepts. *)
Definition try_pass (handled : exn → bool) (body : M S unit) : M S unit := λ s,
  match body s with
  | (Ok _, s') => (Ok tt, s')
  | (Err e, s') => if handled e then (Ok tt, s') else (Err e, s')
  end.

(** [for x in xs: body(x)] *)
Fixpoint for_each {A} (xs : list A) (body : A → M S unit) : M S unit :=
  match xs with
  | [] => mret tt
  | x :: xs' => body x ≫= λ _, for_each xs' body
  end.

(** Repeat [body] [n] times: [for _ in range(n): body]. *)
Fixpoint repeat_m (n : nat) (body : M S unit) : M S unit :=
  match n with
  | O => mret tt
  | Datatypes.S n' => body ≫= λ _, repeat_m n' body
  end.
End monad_ops.

(** Run a method of a component on the part of the state that holds it. *)
Definition zoom {S T A} (view : S → T) (upd : T → S → S) (m : M T A) : M S A :=
  λ s, let '(r, t) := m (view s) in (r, upd t s).

(** Expose the state passing of a monadic program. *)
Ltac munfold :=
  cbv beta iota delta [mbind M_bind mret M_ret get gets modify raise raise_if when zoom].
Tactic Notation "munfold" "in" hyp(H) :=
  cbv beta iota delta [mbind M_bind mret M_ret get gets modify raise raise_if when zoom] in H.

Lemma for_each_app {S A} (xs ys : list A) (body : A → M S unit) s :
  for_each (xs ++ ys) body s = (for_each xs body ≫= λ _, for_each ys body) s.
Proof.
  revert s. induction xs as [|x xs IH]; intros s; simpl; [done|].
  munfold. destruct (body x s) as [[a|e] s']; [|done]. rewrite IH. by munfold.
Qed.

(** ** Hoare triples for the monad

    [triple P m Q]: from a state satisfying [P], running [m] gives an outcome
    and a state satisfying [Q].  [Q] speaks about both outcomes. *)
Definition triple {S A} (P : S → Prop) (m : M S A) (Q : res A → S → Prop) : Prop :=
  ∀ s, P s → Q (m s).1 (m s).2.

Section triples.
Context {S : Type}.
Implicit Types P I : S → Prop.

Lemma triple_ret {A} P (a : A) : triple P (mret a : M S A) (λ r s, r = Ok a ∧ P s).
Proof. intros s Hs; split; done. Qed.

Lemma triple_conseq {A} P P' (m : M S A) Q Q' :
  triple P' m Q' → (∀ s, P s → P' s) → (∀ r s, Q' r s → Q r s) → triple P m Q.
Proof. intros Hm HP HQ s Hs. by apply HQ, Hm, HP. Qed.

Lemma triple_bind {A B} P (m : M S A) (k : A → M S B) R Q :
  triple P m R →
  (∀ a, triple (R (Ok a)) (k a) Q) →
  (∀ e s, R (Err e) s → Q (Err e) s) →
  triple P (m ≫= k) Q.
Proof.
  intros Hm Hk He s Hs. specialize (Hm s Hs). unfold mbind, M_bind.
  destruct (m s) as [[a|e] s'] eqn:E; simpl in *; [by apply Hk | by apply He].
Qed.

(** A loop keeps an invariant when its body keeps it, whether the body
    returns or raises. *)
Lemma triple_for_each {A} I (xs : list A) (body : A → M S unit) :
  (∀ x, x ∈ xs → triple I (body x) (λ _ s, I s)) →
  triple I (for_each xs body) (λ _ s, I s).
Proof.
  induction xs as [|x xs IH]; intros Hb; simpl; [intros s Hs; done|].
  eapply triple_bind; [apply Hb; set_solver| |done].
  intros ?. apply IH. intros y Hy. apply Hb. set_solver.
Qed.

(** A loop whose body never raises under the invariant never raises. *)
Lemma triple_for_each_ok {A} I (xs : list A) (body : A → M S unit) :
  (∀ x, x ∈ xs → triple I (body x) (λ r s, r = Ok tt ∧ I s)) →
  triple I (for_each xs body) (λ r s, r = Ok tt ∧ I s).
Proof.
  induction xs as [|x xs IH]; intros Hb; simpl; [intros s Hs; done|].
  eapply triple_bind; [apply Hb; set_solver| |by intros e s [? ?]].
  intros []. intros s [_ Hs]. apply IH; [|done].
  intros y Hy. apply Hb. set_solver.
Qed.
End triples.

(** ** Relations between the state before and after a call

    [preserves R m]: whatever the outcome of [m], the states before and after
    it are related by the preorder [R]. *)
Section preserves.
Context {S : Type} (R : S → S → Prop) `{!PreOrder R}.

Definition preserves {A} (m : M S A) : Prop := ∀ s, R s (m s).2.

Lemma preserves_ret {A} (a : A) : preserves (mret a).
Proof. intros s. reflexivity. Qed.

Lemma preserves_get : preserves get.
Proof. intros s. reflexivity. Qed.

Lemma preserves_raise {A} e : preserves (raise e : M S A).
Proof. intros s. reflexivity. Qed.

Lemma preserves_modify f : (∀ s, R s (f s)) → preserves (modify f).
Proof. intros Hf s. apply Hf. Qed.

Lemma preserves_bind {A B} (m : M S A) (k : A → M S B) :
  preserves m → (∀ a, preserves (k a)) → preserves (m ≫= k).
Proof.
  intros Hm Hk s. specialize (Hm s). unfold mbind, M_bind. destruct (m s) as [[a|e] s']; [|done].
  etrans; [done|]. apply Hk.
Qed.

(** A continuation that inspects the current state. *)
Lemma preserves_get_bind {B} (k : S → M S B) :
  (∀ s, R s (k s s).2) → preserves (get ≫= k).
Proof. intros Hk s. apply Hk. Qed.

Lemma preserves_when b (m : M S unit) : preserves m → preserves (when b m).
Proof. intros Hm. destruct b; [done|]. apply preserves_ret. Qed.

Lemma preserves_try_pass h (m : M S unit) : preserves m → preserves (try_pass h m).
Proof.
  intros Hm s. specialize (Hm s). unfold try_pass. destruct (m s) as [[a|e] s']; [done|].
  by destruct (h e).
Qed.

Lemma preserves_for_each {A} (xs : list A) (body : A → M S unit) :
  (∀ x, x ∈ xs → preserves (body x)) → preserves (for_each xs body).
Proof.
  induction xs as [|x xs IH]; intros Hb; simpl; [apply preserves_ret|].
  apply preserves_bind; [apply Hb; set_solver|]. intros _. apply IH. intros y Hy. apply Hb. set_solver.
Qed.
End preserves.
