(* ===== verification/PyCollections.v ===== *)
(** * Python's containers

    The parts of [heapq], [collections.OrderedDict] and [sorted] that the
    modelled code uses: a heap is the ascending list of its elements (the code
    only pushes, pops the least element and takes the length), an ordered dict
    is an association list in insertion order, and a sort is a stable
    insertion sort. *)
From S2P Require Import Prelude.

(** ** heapq *)
Module Heapq.
Section heapq.
Context {A : Type} (le : A → A → bool).

(** [heapq.heappush(h, x)] *)
Fixpoint heappush (x : A) (h : list A) : list A :=
  match h with
  | [] => [x]
  | y :: h' => if le x y then x :: h else y :: heappush x h'
  end.

(** [heapq.heapify(l)] *)
Fixpoint heapify (l : list A) : list A :=
  match l with
  | [] => []
  | x :: l' => heappush x (heapify l')
  end.

(** [heapq.heappop(h)]: the least element and the rest; [None] on an empty
    heap, where Python raises [IndexError]. *)
Definition heappop (h : list A) : option (A * list A) :=
  match h with
  | [] => None
  | x :: h' => Some (x, h')
  end.

Definition heap_ok (h : list A) : Prop := StronglySorted (λ x y, le x y = true) h.

Lemma heappush_perm x h : heappush x h ≡ₚ x :: h.
Proof.
  induction h as [|y h IH]; simpl; [done|].
  destruct (le x y); [done|]. rewrite IH. constructor.
Qed.

Lemma heapify_perm l : heapify l ≡ₚ l.
Proof. induction l as [|x l IH]; simpl; [done|]. by rewrite heappush_perm, IH. Qed.

Context (le_total : ∀ x y, le x y = true ∨ le y x = true).
Context (le_trans : ∀ x y z, le x y = true → le y z = true → le x z = true).

Lemma heappush_ok x h : heap_ok h → heap_ok (heappush x h).
Proof.
  unfold heap_ok. induction 1 as [|y h Hh IH Hy]; simpl; [repeat constructor|].
  destruct (le x y) eqn:E.
  - constructor; [by constructor|]. constructor; [done|].
    eapply Forall_impl; [exact Hy|]. simpl; eauto.
  - constructor; [done|]. rewrite heappush_perm. constructor; [|done].
    destruct (le_total x y); congruence.
Qed.

Lemma heapify_ok l : heap_ok (heapify l).
Proof. induction l; simpl; [constructor|]. by apply heappush_ok. Qed.

Lemma heappop_least h x h' :
  heap_ok h → heappop h = Some (x, h') →
  h ≡ₚ x :: h' ∧ heap_ok h' ∧ ∀ y, y ∈ h' → le x y = true.
Proof.
  intros Hh Heq. destruct h as [|z h]; [done|]. simplify_eq/=.
  apply StronglySorted_inv in Hh as [Hh Hx]. split_and!; [done..|].
  by apply Forall_forall.
Qed.

Lemma heapify_sorted l : heap_ok l → heapify l = l.
Proof.
  unfold heap_ok. induction 1 as [|x l Hl IH Hx]; simpl; [done|]. rewrite IH.
  destruct l as [|y l]; [done|]. simpl.
  apply Forall_cons in Hx as [Hxy _]. by rewrite Hxy.
Qed.
End heapq.

(** Integers as heap elements. *)
Lemma Zleb_total x y : (x <=? y) = true ∨ (y <=? x) = true.
Proof. lia. Qed.
Lemma Zleb_trans x y z : (x <=? y) = true → (y <=? z) = true → (x <=? z) = true.
Proof. lia. Qed.
#[export] Hint Resolve Zleb_total Zleb_trans : core.
End Heapq.

(** ** collections.OrderedDict *)
Module OrderedDict.
Section od.
Context {K V : Type} `{EqDecision K}.
Implicit Types (d : list (K * V)) (k : K) (v : V).

Definition keys d : list K := d.*1.

(** [d.get(k)] *)
Fixpoint od_get k d : option V :=
  match d with
  | [] => None
  | (k', v) :: d' => if decide (k = k') then Some v else od_get k d'
  end.

(** [k in d] *)
Definition od_mem k d : bool := bool_decide (is_Some (od_get k d)).

(** [d[k] = v]: an existing key keeps its position. *)
Fixpoint od_set k v d : list (K * V) :=
  match d with
  | [] => [(k, v)]
  | (k', v') :: d' => if decide (k = k') then (k, v) :: d' else (k', v') :: od_set k v d'
  end.

(** [d.pop(k, None)], the remaining dict. *)
Fixpoint od_del k d : list (K * V) :=
  match d with
  | [] => []
  | (k', v') :: d' => if decide (k = k') then d' else (k', v') :: od_del k d'
  end.

(** [d.move_to_end(k)] on a present key ([KeyError] otherwise). *)
Definition od_move_to_end k d : list (K * V) :=
  match od_get k d with
  | Some v => od_del k d ++ [(k, v)]
  | None => d
  end.

(** [d.popitem(last=False)]: the oldest entry; [None] where Python raises. *)
Definition od_popfirst d : option (K * V * list (K * V)) :=
  match d with
  | [] => None
  | kv :: d' => Some (kv, d')
  end.

Definition od_ok d : Prop := NoDup (keys d).

Lemma od_get_None k d : od_get k d = None ↔ k ∉ keys d.
Proof.
  unfold keys. induction d as [|[k' v'] d IH]; simpl; [set_solver|].
  case_decide; set_solver.
Qed.

Lemma od_get_Some_mem k v d : od_get k d = Some v → k ∈ keys d.
Proof.
  intros H. destruct (decide (k ∈ keys d)) as [|Hn]; [done|].
  apply od_get_None in Hn. congruence.
Qed.

Lemma od_mem_true k d : od_mem k d = true ↔ k ∈ keys d.
Proof.
  unfold od_mem. rewrite bool_decide_eq_true. split.
  - intros [v Hv]. by eapply od_get_Some_mem.
  - intros Hk. destruct (od_get k d) eqn:E; [eauto|]. by apply od_get_None in E.
Qed.

Lemma od_mem_false k d : od_mem k d = false ↔ k ∉ keys d.
Proof. rewrite <- od_mem_true. by destruct (od_mem k d). Qed.

Lemma od_get_Some_elem k v d : od_get k d = Some v → (k, v) ∈ d.
Proof.
  induction d as [|[k' v'] d IH]; simpl; [done|].
  case_decide; intros; simplify_eq; [left|right; auto].
Qed.

Lemma od_set_fresh k v d : k ∉ keys d → od_set k v d = d ++ [(k, v)].
Proof.
  unfold keys. induction d as [|[k' v'] d IH]; simpl; intros Hk; [done|].
  rewrite decide_False by set_solver. f_equal. apply IH. set_solver.
Qed.

Lemma od_get_set_eq k v d : od_get k (od_set k v d) = Some v.
Proof.
  induction d as [|[k' v'] d IH]; simpl; [by rewrite decide_True|].
  case_decide; simpl; [by rewrite decide_True | by rewrite decide_False].
Qed.

Lemma od_get_set_ne k k' v d : k ≠ k' → od_get k (od_set k' v d) = od_get k d.
Proof.
  intros Hne. induction d as [|[k'' v''] d IH]; simpl; [by rewrite decide_False|].
  repeat (case_decide; simpl in *); simplify_eq; congruence.
Qed.

Lemma od_keys_set k v d :
  keys (od_set k v d) = if decide (k ∈ keys d) then keys d else keys d ++ [k].
Proof.
  case_decide as Hk; [|unfold keys; rewrite od_set_fresh by done; by rewrite fmap_app].
  unfold keys in *. induction d as [|[k' v'] d IH]; simpl in *; [set_solver|].
  case_decide; subst; simpl; [done|]. f_equal. apply IH. set_solver.
Qed.

Lemma od_set_ok k v d : od_ok d → od_ok (od_set k v d).
Proof.
  unfold od_ok. rewrite od_keys_set. case_decide; [done|].
  intros. apply NoDup_app. set_solver by (eauto using NoDup_singleton).
Qed.

Lemma od_del_fresh k d : k ∉ keys d → od_del k d = d.
Proof.
  unfold keys. induction d as [|[k' v'] d IH]; simpl; intros Hk; [done|].
  rewrite decide_False by set_solver. f_equal. apply IH. set_solver.
Qed.

Lemma od_del_perm k v d : od_get k d = Some v → d ≡ₚ (k, v) :: od_del k d.
Proof.
  induction d as [|[k' v'] d IH]; simpl; [done|].
  case_decide; intros; simplify_eq; [done|]. rewrite (IH H0) at 1. constructor.
Qed.

Lemma od_keys_del_perm k d : k ∈ keys d → keys d ≡ₚ k :: keys (od_del k d).
Proof.
  intros Hk. apply od_mem_true in Hk. unfold od_mem in Hk.
  apply bool_decide_eq_true in Hk as [v Hv].
  unfold keys. by rewrite (od_del_perm _ _ _ Hv) at 1.
Qed.

Lemma od_length_del k d : k ∈ keys d → length d = S (length (od_del k d)).
Proof.
  intros Hk. apply od_keys_del_perm, Permutation_length in Hk.
  unfold keys in Hk. simpl in Hk. by rewrite !length_fmap in Hk.
Qed.

Lemma od_del_sublist k d : od_del k d `sublist_of` d.
Proof.
  induction d as [|[k' v'] d IH]; simpl; [done|].
  case_decide; [by apply sublist_cons | by apply sublist_skip].
Qed.

Lemma od_keys_del_not_in k d : od_ok d → k ∉ keys (od_del k d).
Proof.
  intros Hd Hk. destruct (decide (k ∈ keys d)) as [Hin|Hin].
  - unfold od_ok in Hd. rewrite (od_keys_del_perm _ _ Hin), NoDup_cons in Hd. tauto.
  - rewrite od_del_fresh in Hk; done.
Qed.

Lemma od_del_ok k d : od_ok d → od_ok (od_del k d).
Proof.
  intros Hd. destruct (decide (k ∈ keys d)) as [Hin|Hin].
  - unfold od_ok in Hd. rewrite (od_keys_del_perm _ _ Hin), NoDup_cons in Hd. tauto.
  - by rewrite od_del_fresh.
Qed.

Lemma od_move_to_end_perm k d : od_move_to_end k d ≡ₚ d.
Proof.
  unfold od_move_to_end. destruct (od_get k d) as [v|] eqn:E; [|done].
  rewrite (od_del_perm _ _ _ E) at 2. by rewrite Permutation_app_comm.
Qed.

Lemma od_ok_perm d d' : d ≡ₚ d' → od_ok d → od_ok d'.
Proof. unfold od_ok, keys. intros Hp. by rewrite Hp. Qed.

Lemma od_get_perm k d d' : d ≡ₚ d' → od_ok d → od_get k d = od_get k d'.
Proof.
  intros Hp Hd. assert (Hd' := od_ok_perm _ _ Hp Hd).
  assert (∀ d1 d2 v, d1 ≡ₚ d2 → od_ok d2 → od_get k d1 = Some v → od_get k d2 = Some v) as Haux.
  { intros d1 d2 v Hp12 Hd2 Hv. apply od_get_Some_elem in Hv. rewrite Hp12 in Hv.
    clear -Hv Hd2. induction d2 as [|[k' v'] d2 IH]; [set_solver|].
    unfold od_ok, keys in *. simpl in *. apply NoDup_cons in Hd2 as [Hk' Hd2].
    case_decide; subst.
    - apply elem_of_cons in Hv as [?|Hv]; [congruence|].
      destruct Hk'. apply (list_elem_of_fmap_2 fst) in Hv. done.
    - apply IH; [done|]. set_solver. }
  destruct (od_get k d) as [v|] eqn:E1; [symmetry; eauto|].
  destruct (od_get k d') as [v|] eqn:E2; [|done].
  apply (Haux d' d v) in E2; [congruence|by symmetry|done].
Qed.
End od.
End OrderedDict.
