(* ===== verification/KVCache.v ===== *)
(** * The paged KV cache of the serving engine (serving/kv_cache.py)

    [BlockAllocator], [BlockTable] and [PagedKVCache] with the methods that
    change their state, and the page metadata computed for FlashInfer.  A
    block of the KV tensor (all layers, keys and values) is a value of an
    abstract type [V]: the code only copies blocks. *)
From S2P Require Import Prelude PyCollections.
Import Heapq.

(** [math.ceil(a / b)] for [b > 0]. *)
Definition ceil_div (a b : Z) : Z := - ((- a) / b).

(** A device as far as the code inspects it ([device.type]). *)
Inductive Device := Cpu | Cuda.

(** [_resolve_device] *)
Definition resolve_device (cuda_available : bool) (d : option Device) : Device :=
  match d with
  | None => if cuda_available then Cuda else Cpu
  | Some Cuda => if cuda_available then Cuda else Cpu
  | Some Cpu => Cpu
  end.

(** ** BlockAllocator *)
Module Alloc.

Record BlockAllocator := mkBA {
  ba_num_blocks : Z;
  ba_block_size : Z;
  ba_device : Device;
  ba_free_heap : list Z;
  ba_free_set : gset Z
}.

Definition ba_set_free (h : list Z) (s : gset Z) (a : BlockAllocator) : BlockAllocator :=
  mkBA (ba_num_blocks a) (ba_block_size a) (ba_device a) h s.

(** [BlockAllocator.__post_init__] *)
Definition ba_init (cuda_available : bool) (num_blocks block_size : Z) (device : Device)
    : res BlockAllocator :=
  if num_blocks <=? 0 then Err ValueError
  else if block_size <=? 0 then Err ValueError
  else
    let heap := heapify Z.leb (seqZ 0 num_blocks) in
    Ok (mkBA num_blocks block_size (resolve_device cuda_available (Some device))
          heap (list_to_set heap)).

Definition num_free_blocks (a : BlockAllocator) : Z := Z.of_nat (length (ba_free_heap a)).

(** One iteration of the loop of [allocate]: pop the least free block, then
    [_free_block_set.remove], which raises [KeyError] on an absent element. *)
Definition pop_block : M BlockAllocator Z :=
  a ← get;
  match heappop (ba_free_heap a) with
  | None => raise IndexError
  | Some (b, h) =>
      modify (ba_set_free h (ba_free_set a)) ≫= λ _,
      raise_if (bool_decide (b ∉ ba_free_set a)) KeyError ≫= λ _,
      modify (ba_set_free h (ba_free_set a ∖ {[b]})) ≫= λ _,
      mret b
  end.

Fixpoint allocate_loop (n : nat) (allocated : list Z) : M BlockAllocator (list Z) :=
  match n with
  | O => mret allocated
  | S n' => pop_block ≫= λ b, allocate_loop n' (allocated ++ [b])
  end.

(** [BlockAllocator.allocate] *)
Definition allocate (num_blocks : Z) : M BlockAllocator (list Z) :=
  raise_if (num_blocks <? 0) ValueError ≫= λ _,
  if num_blocks =? 0 then mret []
  else
    a ← get;
    raise_if (num_free_blocks a <? num_blocks) RuntimeError ≫= λ _,
    allocate_loop (Z.to_nat num_blocks) [].

(** The body of the loop of [free]. *)
Definition free_block (b : Z) : M BlockAllocator unit :=
  a ← get;
  raise_if (negb ((0 <=? b) && (b <? ba_num_blocks a))) ValueError ≫= λ _,
  raise_if (bool_decide (b ∈ ba_free_set a)) ValueError ≫= λ _,
  modify (ba_set_free (heappush Z.leb b (ba_free_heap a)) ({[b]} ∪ ba_free_set a)).

(** [BlockAllocator.free] *)
Definition free (block_ids : list Z) : M BlockAllocator unit :=
  for_each block_ids free_block.

(** Well-formedness: the heap is ordered, duplicate free and in range, and the
    set holds exactly its elements. *)
Record ba_wf (a : BlockAllocator) : Prop := {
  wf_num_blocks : 0 < ba_num_blocks a;
  wf_block_size : 0 < ba_block_size a;
  wf_heap : heap_ok Z.leb (ba_free_heap a);
  wf_nodup : NoDup (ba_free_heap a);
  wf_range : ∀ b, b ∈ ba_free_heap a → 0 ≤ b < ba_num_blocks a;
  wf_set : ba_free_set a = list_to_set (ba_free_heap a)
}.

(** The allocator after its [k] least free blocks were taken. *)
Definition ba_pop (k : nat) (a : BlockAllocator) : BlockAllocator :=
  ba_set_free (drop k (ba_free_heap a))
    (ba_free_set a ∖ list_to_set (take k (ba_free_heap a))) a.

Lemma ba_pop_0 a : ba_pop 0 a = a.
Proof. destruct a as [n bs d h s]; unfold ba_pop, ba_set_free; simpl. f_equal. set_solver. Qed.

Lemma ba_pop_add j k a : ba_pop k (ba_pop j a) = ba_pop (j + k) a.
Proof.
  unfold ba_pop, ba_set_free; simpl. f_equal; [by rewrite drop_drop|].
  rewrite <- (take_take_drop (ba_free_heap a) j k), list_to_set_app_L. set_solver.
Qed.

Lemma ba_pop_wf k a : ba_wf a → ba_wf (ba_pop k a).
Proof.
  intros [Hn Hb Hh Hd Hr Hs]. constructor; simpl; [done|done|..].
  - rewrite <- (take_drop k (ba_free_heap a)) in Hh.
    by apply StronglySorted_app in Hh as (?&?&?).
  - by eapply sublist_NoDup; [|apply sublist_drop].
  - intros b Hin. apply Hr. by eapply subseteq_drop.
  - rewrite Hs. rewrite <- (take_drop k (ba_free_heap a)) in Hd.
    apply NoDup_app in Hd as (Hd1 & Hd12 & Hd2).
    rewrite <- (take_drop k (ba_free_heap a)) at 1. rewrite list_to_set_app_L. set_solver.
Qed.

Lemma pop_block_cons a b h :
  ba_wf a → ba_free_heap a = b :: h → pop_block a = (Ok b, ba_pop 1 a).
Proof.
  intros Hwf Hh. unfold pop_block, ba_pop. unfold mbind, M_bind, get. rewrite Hh. simpl.
  rewrite bool_decide_eq_false_2; [|rewrite (wf_set _ Hwf), Hh; set_solver].
  simpl. unfold ba_set_free; simpl. do 3 f_equal. set_solver.
Qed.

Lemma allocate_loop_spec n a acc :
  ba_wf a → (n ≤ length (ba_free_heap a))%nat →
  allocate_loop n acc a = (Ok (acc ++ take n (ba_free_heap a)), ba_pop n a).
Proof.
  revert a acc. induction n as [|n IH]; intros a acc Hwf Hn; simpl.
  { by rewrite ba_pop_0, take_0, app_nil_r. }
  destruct (ba_free_heap a) as [|b h] eqn:Hh; simpl in *; [lia|].
  unfold mbind, M_bind. rewrite (pop_block_cons a b h) by done.
  rewrite IH; [|by apply ba_pop_wf|simpl; rewrite Hh; simpl; rewrite drop_0; lia].
  simpl. rewrite Hh. simpl. rewrite drop_0, <- app_assoc.
  f_equal. by rewrite (ba_pop_add 1 n).
Qed.

(** [allocate] hands out the least free blocks when there are enough. *)
Lemma allocate_ok n a :
  ba_wf a → 0 ≤ n ≤ num_free_blocks a →
  allocate n a = (Ok (take (Z.to_nat n) (ba_free_heap a)), ba_pop (Z.to_nat n) a).
Proof.
  intros Hwf [Hn0 Hn]. unfold num_free_blocks in Hn.
  unfold allocate, raise_if. rewrite (proj2 (Z.ltb_ge _ _)) by lia.
  unfold mbind, M_bind, mret, M_ret, get. simpl.
  destruct (Z.eqb_spec n 0) as [->|Hne].
  { by rewrite ba_pop_0, take_0. }
  unfold num_free_blocks. rewrite (proj2 (Z.ltb_ge _ _)) by lia.
  rewrite allocate_loop_spec by (done || lia). done.
Qed.

Lemma allocate_negative n a : n < 0 → allocate n a = (Err ValueError, a).
Proof. intros Hn. unfold allocate, raise_if. rewrite (proj2 (Z.ltb_lt _ _)) by lia. done. Qed.

Lemma allocate_exhausted n a :
  num_free_blocks a < n → allocate n a = (Err RuntimeError, a).
Proof.
  intros Hn. assert (0 ≤ num_free_blocks a) by (unfold num_free_blocks; lia).
  unfold allocate, raise_if. rewrite (proj2 (Z.ltb_ge _ _)) by lia.
  unfold mbind, M_bind, mret, M_ret, get. simpl.
  destruct (Z.eqb_spec n 0); [lia|]. rewrite (proj2 (Z.ltb_lt _ _)) by lia. done.
Qed.

(** The allocator after [free] of blocks it does not hold. *)
Definition ba_push (ids : list Z) (a : BlockAllocator) : BlockAllocator :=
  foldl (λ a b, ba_set_free (heappush Z.leb b (ba_free_heap a)) ({[b]} ∪ ba_free_set a) a) a ids.

Lemma ba_push_perm ids a : ba_free_heap (ba_push ids a) ≡ₚ ids ++ ba_free_heap a.
Proof.
  revert a. induction ids as [|b ids IH]; intros a; simpl; [done|].
  unfold ba_push in *; simpl. rewrite IH. simpl. rewrite heappush_perm.
  by rewrite Permutation_middle.
Qed.

Lemma ba_push_num_blocks ids a : ba_num_blocks (ba_push ids a) = ba_num_blocks a.
Proof. revert a. induction ids as [|b ids IH]; intros a; simpl; [done|]. by rewrite IH. Qed.

Lemma ba_push_block_size ids a : ba_block_size (ba_push ids a) = ba_block_size a.
Proof. revert a. induction ids as [|b ids IH]; intros a; simpl; [done|]. by rewrite IH. Qed.

Lemma ba_push1_wf b a :
  ba_wf a → 0 ≤ b < ba_num_blocks a → b ∉ ba_free_heap a → ba_wf (ba_push [b] a).
Proof.
  intros [Hn Hb Hh Hd Hr Hs] Hrange Hnin. constructor; simpl; [done|done|..].
  - by apply heappush_ok; eauto.
  - rewrite heappush_perm. by constructor.
  - intros c. rewrite heappush_perm. intros [->|?]%elem_of_cons; auto.
  - rewrite heappush_perm, Hs. done.
Qed.

(** [free] returns distinct, in-range, allocated blocks to the heap. *)
Lemma free_ok ids a :
  ba_wf a → NoDup (ids ++ ba_free_heap a) → (∀ b, b ∈ ids → 0 ≤ b < ba_num_blocks a) →
  free ids a = (Ok tt, ba_push ids a) ∧ ba_wf (ba_push ids a).
Proof.
  revert a. induction ids as [|b ids IH]; intros a Hwf Hd Hr; [done|].
  simpl in Hd. apply NoDup_cons in Hd as [Hb Hd].
  assert (Hb1 : b ∉ ba_free_heap a) by set_solver.
  assert (Hbr : 0 ≤ b < ba_num_blocks a) by (apply Hr; set_solver).
  destruct (IH (ba_push [b] a)) as [IH1 IH2].
  - by apply ba_push1_wf.
  - rewrite ba_push_perm. simpl. rewrite <- Permutation_middle. by apply NoDup_cons.
  - intros c Hc. rewrite ba_push_num_blocks. apply Hr. set_solver.
  - split; [|exact IH2]. unfold free in *. cbn [for_each].
    unfold mbind, M_bind at 1. unfold free_block at 1. unfold mbind, M_bind, get, raise_if.
    replace (negb _) with false by lia. cbn [mret M_ret].
    unfold mret, M_ret. rewrite bool_decide_eq_false_2; [|rewrite (wf_set _ Hwf); set_solver].
    cbn. exact IH1.
Qed.

(** Whatever it is given, [free] keeps the allocator well formed: an invalid
    id stops it after the valid prefix was freed. *)
Lemma free_wf ids : triple ba_wf (free ids) (λ _ a, ba_wf a).
Proof.
  apply triple_for_each. intros b _ a Hwf.
  unfold free_block, mbind, M_bind, get, raise_if.
  destruct ((0 <=? b) && (b <? ba_num_blocks a)) eqn:E; [|exact Hwf]. simpl.
  unfold mret, M_ret. case_bool_decide as Hin; [exact Hwf|]. simpl.
  rewrite (wf_set _ Hwf) in Hin. apply (ba_push1_wf b a); [done|lia|set_solver].
Qed.

Lemma ba_init_wf cuda nb bs d a : ba_init cuda nb bs d = Ok a → ba_wf a.
Proof.
  unfold ba_init. destruct (Z.leb_spec nb 0); [done|]. destruct (Z.leb_spec bs 0); [done|].
  intros [= <-]. constructor; simpl; [done|done|..].
  - by apply heapify_ok; eauto.
  - rewrite heapify_perm. apply NoDup_seqZ.
  - intros b. rewrite heapify_perm, elem_of_seqZ. lia.
  - done.
Qed.

Lemma ba_init_num_blocks cuda nb bs d a : ba_init cuda nb bs d = Ok a → ba_num_blocks a = nb.
Proof.
  unfold ba_init. destruct (nb <=? 0); [done|]. destruct (bs <=? 0); [done|]. by intros [= <-].
Qed.

Lemma ba_init_free cuda nb bs d a : ba_init cuda nb bs d = Ok a → ba_free_heap a ≡ₚ seqZ 0 nb.
Proof.
  unfold ba_init. destruct (Z.leb_spec nb 0); [done|]. destruct (Z.leb_spec bs 0); [done|].
  intros [= <-]. simpl. apply heapify_perm.
Qed.
End Alloc.

(** ** BlockTable *)
Module Table.
Import Alloc.

Record BlockTable := mkBT { bt_block_ids : list Z; bt_num_tokens : Z }.

Definition bt_empty : BlockTable := mkBT [] 0.

(** A table holds a reference to the allocator it shares with every other
    table, so its methods run on the pair of the two. *)
Definition T (A : Type) : Type := M (BlockAllocator * BlockTable) A.

Definition on_alloc {A} (m : M BlockAllocator A) : T A :=
  zoom fst (λ a s, (a, s.2)) m.
Definition modify_table (f : BlockTable → BlockTable) : T unit := modify (λ s, (s.1, f s.2)).

(** [BlockTable.append_token] *)
Definition append_token : T unit :=
  s ← get;
  when (bt_num_tokens s.2 mod ba_block_size s.1 =? 0)
    (new_block_ids ← on_alloc (allocate 1);
     match new_block_ids with
     | b :: _ => modify_table (λ t, mkBT (bt_block_ids t ++ [b]) (bt_num_tokens t))
     | [] => raise IndexError
     end) ≫= λ _,
  modify_table (λ t, mkBT (bt_block_ids t) (bt_num_tokens t + 1)).

Definition get_block_ids (t : BlockTable) : list Z := bt_block_ids t.
Definition num_computed_tokens (t : BlockTable) : Z := bt_num_tokens t.
Definition has_blocks (t : BlockTable) : bool :=
  match bt_block_ids t with [] => false | _ => true end.

(** [BlockTable.restore_blocks] *)
Definition restore_blocks (block_ids : list Z) (num_tokens : Z) : BlockTable :=
  mkBT block_ids num_tokens.

(** [BlockTable.release] *)
Definition release : T unit :=
  s ← get;
  when (has_blocks s.2) (on_alloc (free (bt_block_ids s.2))) ≫= λ _,
  modify_table (λ _, bt_empty).

(** [BlockTable.release_blocks_only] *)
Definition release_blocks_only (t : BlockTable) : BlockTable := mkBT [] (bt_num_tokens t).

(** A table whose blocks are exactly those its tokens need. *)
Definition bt_tight (bs : Z) (t : BlockTable) : Prop :=
  0 ≤ bt_num_tokens t ∧ Z.of_nat (length (bt_block_ids t)) = ceil_div (bt_num_tokens t) bs.

Lemma ceil_div_succ n bs : 0 < bs → 0 ≤ n →
  ceil_div (n + 1) bs = ceil_div n bs + (if n mod bs =? 0 then 1 else 0).
Proof.
  intros Hbs Hn. unfold ceil_div.
  pose proof (Z.div_mod n bs ltac:(lia)) as Hdm.
  pose proof (Z.mod_pos_bound n bs Hbs) as Hmb.
  revert Hdm Hmb. generalize (n / bs), (n mod bs). intros q r Hdm Hmb.
  destruct (Z.eqb_spec r 0) as [E|E].
  - replace (-(n + 1)) with ((-q - 1) * bs + (bs - 1)) by lia.
    replace (- n) with (-q * bs) by lia.
    rewrite Z.div_add_l, Z.div_small, Z.div_mul by lia. lia.
  - replace (-(n + 1)) with ((-q - 1) * bs + (bs - r - 1)) by lia.
    replace (- n) with ((-q - 1) * bs + (bs - r)) by lia.
    rewrite !Z.div_add_l, !Z.div_small by lia. lia.
Qed.

Lemma ceil_div_mono n m bs : 0 < bs → n ≤ m → ceil_div n bs ≤ ceil_div m bs.
Proof. intros. unfold ceil_div. apply -> Z.opp_le_mono. apply Z.div_le_mono; lia. Qed.

Lemma ceil_div_0 bs : ceil_div 0 bs = 0.
Proof. done. Qed.

Lemma ceil_div_bounds n bs : 0 < bs → 0 ≤ n →
  n ≤ ceil_div n bs * bs < n + bs.
Proof.
  intros Hbs Hn. unfold ceil_div.
  pose proof (Z.div_mod (- n) bs ltac:(lia)). pose proof (Z.mod_pos_bound (- n) bs Hbs). nia.
Qed.

(** The effect of one [append_token], by cases. *)
Lemma append_token_inside a t :
  bt_num_tokens t mod ba_block_size a ≠ 0 →
  append_token (a, t) = (Ok tt, (a, mkBT (bt_block_ids t) (bt_num_tokens t + 1))).
Proof.
  intros H. unfold append_token, when, mbind, M_bind, get. simpl.
  by rewrite (proj2 (Z.eqb_neq _ _)).
Qed.

Lemma append_token_boundary a t b h :
  ba_wf a → ba_free_heap a = b :: h → bt_num_tokens t mod ba_block_size a = 0 →
  append_token (a, t) =
    (Ok tt, (ba_pop 1 a, mkBT (bt_block_ids t ++ [b]) (bt_num_tokens t + 1))).
Proof.
  intros Hwf Hh H. unfold append_token, when, mbind, M_bind, get. simpl.
  rewrite (proj2 (Z.eqb_eq _ _)) by done.
  unfold on_alloc, zoom. cbn [fst snd].
  rewrite allocate_ok; [|done|unfold num_free_blocks; rewrite Hh; simpl; lia].
  rewrite Hh. done.
Qed.

Lemma append_token_exhausted a t :
  ba_free_heap a = [] → bt_num_tokens t mod ba_block_size a = 0 →
  append_token (a, t) = (Err RuntimeError, (a, t)).
Proof.
  intros Hh H. unfold append_token, when, mbind, M_bind, get. simpl.
  rewrite (proj2 (Z.eqb_eq _ _)) by done.
  unfold on_alloc, zoom. cbn [fst snd].
  rewrite allocate_exhausted; [done|]. unfold num_free_blocks. rewrite Hh. done.
Qed.

(** Appending tokens to a tight table: it takes exactly the missing blocks, in
    ascending order, and succeeds iff the allocator has that many. *)
Lemma append_tokens_enough n a t :
  ba_wf a → bt_tight (ba_block_size a) t →
  let need := ceil_div (bt_num_tokens t + Z.of_nat n) (ba_block_size a)
              - ceil_div (bt_num_tokens t) (ba_block_size a) in
  need ≤ num_free_blocks a →
  repeat_m n append_token (a, t) =
    (Ok tt, (ba_pop (Z.to_nat need) a,
             mkBT (bt_block_ids t ++ take (Z.to_nat need) (ba_free_heap a))
                  (bt_num_tokens t + Z.of_nat n))).
Proof.
  revert a t. induction n as [|n IH]; intros a t Hwf [Ht0 Ht] need Hneed.
  { subst need. rewrite Z.add_0_r, Z.sub_diag. simpl.
    rewrite ba_pop_0, app_nil_r. by destruct t. }
  pose proof (wf_block_size _ Hwf) as Hbs.
  assert (Hmono : ceil_div (bt_num_tokens t + 1) (ba_block_size a)
            ≤ ceil_div (bt_num_tokens t + Z.of_nat (S n)) (ba_block_size a))
    by (apply ceil_div_mono; lia).
  pose proof (ceil_div_succ (bt_num_tokens t) _ Hbs Ht0) as Hsucc.
  assert (Hshift : bt_num_tokens t + 1 + Z.of_nat n = bt_num_tokens t + Z.of_nat (S n)) by lia.
  simpl. unfold mbind, M_bind.
  destruct (Z.eqb_spec (bt_num_tokens t mod ba_block_size a) 0) as [E|E].
  - destruct (ba_free_heap a) as [|b h] eqn:Hh.
    { unfold num_free_blocks in Hneed. rewrite Hh in Hneed. simpl in Hneed. lia. }
    rewrite (append_token_boundary a t b h) by done.
    rewrite (IH (ba_pop 1 a)); simpl.
    + rewrite Hh, Hshift. simpl. rewrite drop_0, Hsucc, ba_pop_add, <- app_assoc. simpl.
      assert (Z.to_nat need = S (Z.to_nat (need - 1))) as -> by lia.
      subst need. simpl. do 4 f_equal; [f_equal; lia|]. do 3 f_equal. lia.
    + by apply ba_pop_wf.
    + split; simpl; [lia|]. rewrite length_app. simpl. lia.
    + rewrite Hshift, Hsucc. unfold num_free_blocks in *. simpl. rewrite Hh in *. simpl in *.
      rewrite drop_0. lia.
  - rewrite append_token_inside by done. rewrite IH; simpl; rewrite ?Hshift.
    + by rewrite Hsucc, Z.add_0_r.
    + done.
    + split; simpl; lia.
    + rewrite Hsucc, Z.add_0_r. exact Hneed.
Qed.

Lemma append_tokens_short n a t :
  ba_wf a → bt_tight (ba_block_size a) t →
  num_free_blocks a < ceil_div (bt_num_tokens t + Z.of_nat n) (ba_block_size a)
                      - ceil_div (bt_num_tokens t) (ba_block_size a) →
  ∃ k, repeat_m n append_token (a, t) =
    (Err RuntimeError, (ba_pop (length (ba_free_heap a)) a,
                        mkBT (bt_block_ids t ++ ba_free_heap a) k)).
Proof.
  revert a t. induction n as [|n IH]; intros a t Hwf [Ht0 Ht] Hneed.
  { rewrite Z.add_0_r, Z.sub_diag in Hneed. unfold num_free_blocks in Hneed. lia. }
  pose proof (wf_block_size _ Hwf) as Hbs.
  pose proof (ceil_div_succ (bt_num_tokens t) _ Hbs Ht0) as Hsucc.
  assert (Hshift : bt_num_tokens t + 1 + Z.of_nat n = bt_num_tokens t + Z.of_nat (S n)) by lia.
  simpl. unfold mbind, M_bind.
  destruct (Z.eqb_spec (bt_num_tokens t mod ba_block_size a) 0) as [E|E].
  - destruct (ba_free_heap a) as [|b h] eqn:Hh.
    { rewrite append_token_exhausted by done. exists (bt_num_tokens t).
      rewrite ba_pop_0, app_nil_r. by destruct t. }
    rewrite (append_token_boundary a t b h) by done.
    destruct (IH (ba_pop 1 a) (mkBT (bt_block_ids t ++ [b]) (bt_num_tokens t + 1))) as [k Hk];
      simpl.
    + by apply ba_pop_wf.
    + split; simpl; [lia|]. rewrite length_app. simpl. lia.
    + rewrite Hshift, Hsucc. unfold num_free_blocks in *. simpl. rewrite Hh in *. simpl in *.
      rewrite drop_0. lia.
    + exists k. rewrite Hk. simpl. rewrite Hh. simpl. rewrite drop_0, ba_pop_add, <- app_assoc. done.
  - rewrite append_token_inside by done.
    destruct (IH a (mkBT (bt_block_ids t) (bt_num_tokens t + 1))) as [k Hk]; simpl.
    + done.
    + split; simpl; lia.
    + rewrite Hshift, Hsucc. lia.
    + exists k. rewrite Hk. done.
Qed.

(** Whatever the outcome, appending moves blocks from the head of the heap to
    the end of the table and nothing else. *)
Definition moved (s s' : BlockAllocator * BlockTable) : Prop :=
  ∃ k, s'.1 = ba_pop k s.1 ∧ (k ≤ length (ba_free_heap s.1))%nat ∧
       bt_block_ids s'.2 = bt_block_ids s.2 ++ take k (ba_free_heap s.1).

Lemma append_token_moved a t : ba_wf a →
  moved (a, t) (append_token (a, t)).2 ∧
  (num_free_blocks a - 1 ≤ num_free_blocks (append_token (a, t)).2.1) ∧
  (0 < num_free_blocks a → (append_token (a, t)).1 = Ok tt).
Proof.
  intros Hwf. unfold moved, num_free_blocks.
  destruct (Z.eqb_spec (bt_num_tokens t mod ba_block_size a) 0) as [E|E].
  - destruct (ba_free_heap a) as [|b h] eqn:Hh.
    + rewrite append_token_exhausted by done. simpl. rewrite Hh. split_and!; [|simpl; lia..].
      exists 0%nat. by rewrite ba_pop_0, app_nil_r.
    + rewrite (append_token_boundary a t b h) by done. simpl. rewrite Hh. simpl.
      rewrite drop_0. split_and!; [|lia|done]. exists 1%nat. simpl. split_and!; [done|lia|done].
  - rewrite append_token_inside by done. simpl. split_and!; [|lia|done].
    exists 0%nat. rewrite ba_pop_0, take_0, app_nil_r. split_and!; [done|lia|done].
Qed.
End Table.

(** ** PagedKVCache *)
Module Paged.
Import Alloc Table.

(** Calls made to the optional context-pilot manager.  Both call sites wrap
    the call in [try ... except Exception: pass], so whatever the manager does
    it cannot affect the cache. *)
Inductive cp_call :=
  | notify_blocks_allocated (seq_id : Z) (block_hashes : list Z)
  | notify_blocks_freed (seq_id : Z) (block_hashes : list Z).

Section paged.
Context {V : Type}.

Record PagedKVCache := mkKV {
  kv_num_layers : Z;
  kv_num_heads : Z;
  kv_head_dim : Z;
  kv_device : Device;
  block_allocator : BlockAllocator;
  sequence_tables : gmap Z BlockTable;
  swapped_cpu_buffers : gmap Z (list V);
  swapped_num_tokens : gmap Z Z;
  swapped_out_sequences : gset Z;
  kv_cache : list V;               (** block [b] of the tensor is entry [b] *)
  cp_kv_manager : bool;            (** whether a manager was set *)
  cp_calls : list cp_call
}.

Definition set_alloc (a : BlockAllocator) (c : PagedKVCache) : PagedKVCache :=
  mkKV (kv_num_layers c) (kv_num_heads c) (kv_head_dim c) (kv_device c) a (sequence_tables c)
    (swapped_cpu_buffers c) (swapped_num_tokens c) (swapped_out_sequences c) (kv_cache c)
    (cp_kv_manager c) (cp_calls c).
Definition set_tables (t : gmap Z BlockTable) (c : PagedKVCache) : PagedKVCache :=
  mkKV (kv_num_layers c) (kv_num_heads c) (kv_head_dim c) (kv_device c) (block_allocator c) t
    (swapped_cpu_buffers c) (swapped_num_tokens c) (swapped_out_sequences c) (kv_cache c)
    (cp_kv_manager c) (cp_calls c).
Definition set_swapped (b : gmap Z (list V)) (n : gmap Z Z) (o : gset Z) (c : PagedKVCache)
    : PagedKVCache :=
  mkKV (kv_num_layers c) (kv_num_heads c) (kv_head_dim c) (kv_device c) (block_allocator c)
    (sequence_tables c) b n o (kv_cache c) (cp_kv_manager c) (cp_calls c).
Definition set_kv (k : list V) (c : PagedKVCache) : PagedKVCache :=
  mkKV (kv_num_layers c) (kv_num_heads c) (kv_head_dim c) (kv_device c) (block_allocator c)
    (sequence_tables c) (swapped_cpu_buffers c) (swapped_num_tokens c)
    (swapped_out_sequences c) k (cp_kv_manager c) (cp_calls c).
Definition set_cp (m : bool) (l : list cp_call) (c : PagedKVCache) : PagedKVCache :=
  mkKV (kv_num_layers c) (kv_num_heads c) (kv_head_dim c) (kv_device c) (block_allocator c)
    (sequence_tables c) (swapped_cpu_buffers c) (swapped_num_tokens c)
    (swapped_out_sequences c) (kv_cache c) m l.

(** [PagedKVCache.__post_init__]; [zero] is a block of zeros. *)
Definition kv_init (zero : V) (cuda_available : bool)
    (num_blocks block_size num_layers num_heads head_dim : Z) (device : option Device)
    : res PagedKVCache :=
  if num_layers <=? 0 then Err ValueError
  else if num_heads <=? 0 then Err ValueError
  else if head_dim <=? 0 then Err ValueError
  else
    let d := resolve_device cuda_available device in
    match ba_init cuda_available num_blocks block_size d with
    | Err e => Err e
    | Ok a => Ok (mkKV num_layers num_heads head_dim d a ∅ ∅ ∅ ∅
                    (replicate (Z.to_nat num_blocks) zero) false [])
    end.

Definition block_size (c : PagedKVCache) : Z := ba_block_size (block_allocator c).

(** [if self._cp_kv_manager is not None: try: notify(...)] *)
Definition notify (call : cp_call) : M PagedKVCache unit :=
  modify (λ c, set_cp (cp_kv_manager c) (if cp_kv_manager c then cp_calls c ++ [call] else cp_calls c) c).

(** [_require_sequence] *)
Definition require_sequence (seq_id : Z) : M PagedKVCache BlockTable :=
  c ← get;
  match sequence_tables c !! seq_id with
  | None => raise KeyError
  | Some t => mret t
  end.

(** Run a [BlockTable] method on a table that is not in the dict: the
    allocator keeps its changes even when the method raises, the table is
    returned only when it succeeds. *)
Definition on_local_table (t : BlockTable) (m : T unit) : M PagedKVCache BlockTable :=
  λ c, match m (block_allocator c, t) with
       | (Ok _, (a, t')) => (Ok t', set_alloc a c)
       | (Err e, (a, _)) => (Err e, set_alloc a c)
       end.

(** Run a [BlockTable] method on the table stored under [seq_id]: the dict
    holds the same object, so it sees the changes even when the method raises. *)
Definition on_table (seq_id : Z) (t : BlockTable) (m : T unit) : M PagedKVCache unit :=
  λ c, let '(r, (a, t')) := m (block_allocator c, t) in
       (r, set_tables (<[seq_id := t']> (sequence_tables c)) (set_alloc a c)).

(** [PagedKVCache.allocate_sequence] *)
Definition allocate_sequence (seq_id num_tokens : Z) : M PagedKVCache unit :=
  c ← get;
  raise_if (bool_decide (is_Some (sequence_tables c !! seq_id))) ValueError ≫= λ _,
  raise_if (num_tokens <? 0) ValueError ≫= λ _,
  block_table ← on_local_table bt_empty (repeat_m (Z.to_nat num_tokens) append_token);
  modify (λ c, set_tables (<[seq_id := block_table]> (sequence_tables c)) c) ≫= λ _,
  notify (notify_blocks_allocated seq_id (get_block_ids block_table)).

(** [PagedKVCache.append_tokens] *)
Definition append_tokens (seq_id num_new_tokens : Z) : M PagedKVCache unit :=
  raise_if (num_new_tokens <? 0) ValueError ≫= λ _,
  block_table ← require_sequence seq_id;
  on_table seq_id block_table (repeat_m (Z.to_nat num_new_tokens) append_token).

(** [PagedKVCache.free_sequence] *)
Definition free_sequence (seq_id : Z) : M PagedKVCache unit :=
  c ← get;
  match sequence_tables c !! seq_id with
  | None => mret tt
  | Some block_table =>
      modify (set_tables (delete seq_id (sequence_tables c))) ≫= λ _,
      notify (notify_blocks_freed seq_id (get_block_ids block_table)) ≫= λ _,
      on_local_table block_table release ≫= λ _,
      modify (λ c, set_swapped (delete seq_id (swapped_cpu_buffers c))
                     (delete seq_id (swapped_num_tokens c))
                     (swapped_out_sequences c ∖ {[seq_id]}) c)
  end.

(** [PagedKVCache.set_cp_kv_manager] *)
Definition set_cp_kv_manager : M PagedKVCache unit :=
  modify (λ c, set_cp true (cp_calls c) c).

(** [PagedKVCache.free_gpu_blocks] *)
Definition free_gpu_blocks (seq_id : Z) : M PagedKVCache unit :=
  c ← get;
  match sequence_tables c !! seq_id with
  | None => mret tt
  | Some block_table =>
      match get_block_ids block_table with
      | [] => mret tt
      | block_ids =>
          zoom block_allocator set_alloc (free block_ids) ≫= λ _,
          modify (λ c, set_tables
                    (<[seq_id := release_blocks_only block_table]> (sequence_tables c)) c)
      end
  end.

(** [PagedKVCache.get_block_table] *)
Definition get_block_table (seq_id : Z) : M PagedKVCache (list Z) :=
  block_table ← require_sequence seq_id; mret (get_block_ids block_table).

(** A position of a dimension of size [n]: torch counts negative ones from the
    end and rejects the others. *)
Definition torch_index (n : nat) (i : Z) : option nat :=
  if (0 <=? i) && (i <? Z.of_nat n) then Some (Z.to_nat i)
  else if (- Z.of_nat n <=? i) && (i <? 0) then Some (Z.to_nat (i + Z.of_nat n))
  else None.

(** [kv[:, block_ids, ...]] *)
Definition gather (kv : list V) (block_ids : list Z) : option (list V) :=
  mapM (λ b, torch_index (length kv) b ≫= λ i, kv !! i) block_ids.

Definition write_all (kv : list V) (ws : list (nat * V)) : list V :=
  foldl (λ kv w, <[w.1 := w.2]> kv) kv ws.

(** [kv[:, block_ids, ...] = buf]: shapes must agree, a single block is
    broadcast. *)
Definition scatter (kv : list V) (block_ids : list Z) (buf : list V) : res (list V) :=
  match mapM (torch_index (length kv)) block_ids with
  | None => Err IndexError
  | Some idxs =>
      if (length buf =? length block_ids)%nat then Ok (write_all kv (zip idxs buf))
      else match buf with
           | [v] => Ok (write_all kv ((λ i, (i, v)) <$> idxs))
           | _ => Err RuntimeError
           end
  end.

(** [PagedKVCache.swap_out] *)
Definition swap_out (seq_id : Z) : M PagedKVCache unit :=
  block_table ← require_sequence seq_id;
  c ← get;
  if bool_decide (seq_id ∈ swapped_out_sequences c) then mret tt
  else
    modify (λ c, set_swapped (swapped_cpu_buffers c)
              (<[seq_id := num_computed_tokens block_table]> (swapped_num_tokens c))
              (swapped_out_sequences c) c) ≫= λ _,
    match get_block_ids block_table with
    | [] => mret tt
    | block_ids =>
        match gather (kv_cache c) block_ids with
        | None => raise IndexError
        | Some buf =>
            modify (λ c, set_swapped (<[seq_id := buf]> (swapped_cpu_buffers c))
                      (swapped_num_tokens c) (swapped_out_sequences c) c)
        end
    end ≫= λ _,
    modify (λ c, set_swapped (swapped_cpu_buffers c) (swapped_num_tokens c)
              ({[seq_id]} ∪ swapped_out_sequences c) c).

(** The write-back of [swap_in], for the table in its final state. *)
Definition swap_in_copy (block_ids : list Z) (cpu_buffer : list V) : M PagedKVCache unit :=
  match block_ids with
  | [] => mret tt
  | _ =>
      c ← get;
      match scatter (kv_cache c) block_ids cpu_buffer with
      | Err e => raise e
      | Ok kv => modify (set_kv kv)
      end
  end.

(** [PagedKVCache.swap_in] *)
Definition swap_in (seq_id : Z) : M PagedKVCache unit :=
  block_table ← require_sequence seq_id;
  c ← get;
  if bool_decide (seq_id ∉ swapped_out_sequences c) then mret tt
  else
    let cpu_buffer := swapped_cpu_buffers c !! seq_id in
    let saved_num_tokens := default 0 (swapped_num_tokens c !! seq_id) in
    modify (λ c, set_swapped (delete seq_id (swapped_cpu_buffers c))
              (delete seq_id (swapped_num_tokens c)) (swapped_out_sequences c) c) ≫= λ _,
    match cpu_buffer with
    | None => mret tt
    | Some buf =>
        block_table' ←
          (if has_blocks block_table then mret block_table
           else
             restored_block_ids ←
               zoom block_allocator set_alloc (allocate (Z.of_nat (length buf)));
             let t := restore_blocks restored_block_ids saved_num_tokens in
             modify (λ c, set_tables (<[seq_id := t]> (sequence_tables c)) c) ≫= λ _,
             mret t);
        swap_in_copy (get_block_ids block_table') buf
    end ≫= λ _,
    modify (λ c, set_swapped (swapped_cpu_buffers c) (swapped_num_tokens c)
              (swapped_out_sequences c ∖ {[seq_id]}) c).

(** [torch.arange(start, stop, step)] for [step > 0]. *)
Definition arange (start stop step : Z) : list Z :=
  (λ i, start + i * step) <$> seqZ 0 (ceil_div (stop - start) step).

(** [_build_qo_indptr] *)
Definition build_qo_indptr (batch_size query_tokens : Z) : list Z :=
  if 0 <? batch_size
  then 0 :: arange query_tokens (query_tokens * (batch_size + 1)) query_tokens
  else replicate (Z.to_nat (batch_size + 1)) 0.

(** [_build_flashinfer_paged_metadata]: page counts, page ids and the number
    of tokens on the last page. *)
Definition build_flashinfer_paged_metadata (batch_size kv_tokens block_size : Z)
    : list Z * list Z * list Z :=
  let num_pages := Z.max ((Z.max kv_tokens 1 + block_size - 1) / block_size) 1 in
  let kv_indptr := (λ idx, idx * num_pages) <$> seqZ 0 (batch_size + 1) in
  let kv_indices := mjoin (replicate (Z.to_nat batch_size) (seqZ 0 num_pages)) in
  let rem := kv_tokens mod block_size in
  let last_page_len := if (rem =? 0) && (0 <? kv_tokens) then block_size else Z.max rem 1 in
  (kv_indptr, kv_indices, replicate (Z.to_nat batch_size) last_page_len).
End paged.
Arguments PagedKVCache V : clear implicits.
End Paged.
