(* ===== verification/KVCacheProps.v ===== *)
(** * Ownership of KV blocks (serving/kv_cache.py)

    The invariant of [PagedKVCache]: no block is at once free and owned by a
    sequence, or owned twice ([kv_safe]), and no block is lost
    ([kv_conserved]); what each method does to it, on every outcome. *)
From S2P Require Import Prelude PyCollections KVCache.
Import Heapq Alloc Table Paged.

Section ownership.
Context {V : Type}.
Implicit Types (c : PagedKVCache V) (m : gmap Z BlockTable) (t : BlockTable).

(** All block ids held by the tables of [m]. *)
Definition owned m : list Z := map_to_list m ≫= λ p, bt_block_ids p.2.

(** Free and owned blocks together. *)
Definition pool c : list Z := ba_free_heap (block_allocator c) ++ owned (sequence_tables c).

Record kv_safe c : Prop := {
  safe_wf : ba_wf (block_allocator c);
  safe_nodup : NoDup (pool c);
  safe_range : ∀ b, b ∈ owned (sequence_tables c) → 0 ≤ b < ba_num_blocks (block_allocator c);
  safe_len : Z.of_nat (length (kv_cache c)) = ba_num_blocks (block_allocator c)
}.

(** Every block of the cache is free or owned by exactly one sequence. *)
Definition kv_conserved c : Prop :=
  kv_safe c ∧ pool c ≡ₚ seqZ 0 (ba_num_blocks (block_allocator c)).

Lemma owned_insert m k t : m !! k = None → owned (<[k:=t]> m) ≡ₚ bt_block_ids t ++ owned m.
Proof. intros Hk. unfold owned. by rewrite map_to_list_insert. Qed.

Lemma owned_delete m k t : m !! k = Some t → owned m ≡ₚ bt_block_ids t ++ owned (delete k m).
Proof.
  intros Hk. rewrite <- (insert_delete_id m k t) at 1 by done.
  apply owned_insert, lookup_delete_eq.
Qed.

Lemma owned_update m k t t' :
  m !! k = Some t → owned (<[k:=t']> m) ≡ₚ bt_block_ids t' ++ owned (delete k m).
Proof.
  intros Hk. rewrite <- insert_delete_eq. apply owned_insert, lookup_delete_eq.
Qed.

(** The part of a state change every ownership argument needs. *)
Record kv_step c c' : Prop := {
  step_wf : ba_wf (block_allocator c');
  step_num : ba_num_blocks (block_allocator c') = ba_num_blocks (block_allocator c);
  step_bs : block_size c' = block_size c;
  step_len : length (kv_cache c') = length (kv_cache c);
  step_pool : pool c' ⊆+ pool c
}.

Definition kv_exact c c' : Prop := kv_step c c' ∧ pool c' ≡ₚ pool c.

Lemma kv_step_safe c c' : kv_step c c' → kv_safe c → kv_safe c'.
Proof.
  intros [Hwf Hnum _ Hlen Hpool] [Hwf0 Hnd Hr Hl].
  apply submseteq_Permutation in Hpool as [k Hk].
  constructor; [done|..].
  - rewrite Hk in Hnd. by apply NoDup_app in Hnd as (?&?&?).
  - intros b Hb. rewrite Hnum.
    assert (b ∈ pool c) as [Hf|Ho]%elem_of_app.
    { rewrite Hk. unfold pool. set_solver. }
    + by apply (wf_range _ Hwf0).
    + by apply Hr.
  - congruence.
Qed.

Lemma kv_exact_conserved c c' : kv_exact c c' → kv_conserved c → kv_conserved c'.
Proof.
  intros [Hs Hp] [Hsafe Hc]. split; [by eapply kv_step_safe|].
  by rewrite Hp, (step_num _ _ Hs).
Qed.

Lemma kv_exact_refl c : kv_safe c → kv_exact c c.
Proof. intros [? ? ? ?]. split; [by constructor|done]. Qed.

Lemma kv_step_trans c1 c2 c3 : kv_step c1 c2 → kv_step c2 c3 → kv_step c1 c3.
Proof. intros [] []. constructor; [done|congruence|congruence|congruence|by etrans]. Qed.

Lemma kv_exact_trans c1 c2 c3 : kv_exact c1 c2 → kv_exact c2 c3 → kv_exact c1 c3.
Proof. intros [? ?] [? ?]. split; [by eapply kv_step_trans|by etrans]. Qed.

(** A change of the swap bookkeeping, the tensor contents or the manager's
    call log does not touch ownership. *)
Lemma kv_exact_same c c' :
  kv_safe c → block_allocator c' = block_allocator c →
  sequence_tables c' = sequence_tables c → length (kv_cache c') = length (kv_cache c) →
  kv_exact c c'.
Proof.
  intros [? ? ? ?] Ha Ht Hl.
  assert (pool c' = pool c) as Hp by (unfold pool; congruence).
  split; [|by rewrite Hp]. constructor; rewrite ?Ha, ?Hp; try done.
  unfold block_size. by rewrite Ha.
Qed.

(** Blocks moved from the head of the heap to a table. *)
Lemma kv_exact_moved c c' seq t t' k :
  kv_safe c → sequence_tables c !! seq = Some t →
  block_allocator c' = ba_pop k (block_allocator c) →
  sequence_tables c' = <[seq := t']> (sequence_tables c) →
  bt_block_ids t' = bt_block_ids t ++ take k (ba_free_heap (block_allocator c)) →
  length (kv_cache c') = length (kv_cache c) → kv_exact c c'.
Proof.
  intros [Hwf _ _ _] Ht Ha Hm Hids Hl.
  assert (pool c' ≡ₚ pool c) as Hp.
  { unfold pool. rewrite Ha, Hm, (owned_update _ _ _ _ Ht), (owned_delete _ _ _ Ht), Hids. simpl.
    rewrite <- (take_drop k (ba_free_heap (block_allocator c))) at 3. solve_Permutation. }
  split; [|done]. constructor; rewrite ?Ha; [by apply ba_pop_wf|done| |done|by rewrite Hp].
  unfold block_size. by rewrite Ha.
Qed.

(** Blocks of a table returned to the heap. *)
Lemma kv_exact_freed c c' seq t :
  kv_safe c → sequence_tables c !! seq = Some t →
  block_allocator c' = ba_push (bt_block_ids t) (block_allocator c) →
  ba_wf (block_allocator c') →
  owned (sequence_tables c') ≡ₚ owned (delete seq (sequence_tables c)) →
  length (kv_cache c') = length (kv_cache c) → kv_exact c c'.
Proof.
  intros [Hwf _ _ _] Ht Ha Hwf' Hm Hl.
  assert (pool c' ≡ₚ pool c) as Hp.
  { unfold pool. rewrite Ha, Hm, ba_push_perm, (owned_delete _ _ _ Ht). solve_Permutation. }
  split; [|done].
  constructor; [done|by rewrite Ha, ba_push_num_blocks| |done|by rewrite Hp].
  unfold block_size. by rewrite Ha, ba_push_block_size.
Qed.

(** The blocks of a table can be freed. *)
Lemma free_owned c seq t :
  kv_safe c → sequence_tables c !! seq = Some t →
  free (bt_block_ids t) (block_allocator c) =
    (Ok tt, ba_push (bt_block_ids t) (block_allocator c)) ∧
  ba_wf (ba_push (bt_block_ids t) (block_allocator c)).
Proof.
  intros [Hwf Hnd Hr Hl] Ht. apply free_ok; [done|..].
  - unfold pool in Hnd. rewrite (owned_delete _ _ _ Ht) in Hnd.
    rewrite app_assoc in Hnd. apply NoDup_app in Hnd as (Hnd & _ & _).
    by rewrite Permutation_app_comm.
  - intros b Hb. apply Hr. rewrite (owned_delete _ _ _ Ht). set_solver.
Qed.

(** ** What each method does *)

Lemma moved_refl (s : BlockAllocator * BlockTable) : moved s s.
Proof.
  exists 0%nat. rewrite ba_pop_0, take_0, app_nil_r. split_and!; [done|lia|done].
Qed.

Lemma moved_trans (s1 s2 s3 : BlockAllocator * BlockTable) :
  moved s1 s2 → moved s2 s3 → moved s1 s3.
Proof.
  intros (k1 & Ha1 & Hk1 & Ht1) (k2 & Ha2 & Hk2 & Ht2). exists (k1 + k2)%nat.
  rewrite Ha2, Ha1, ba_pop_add, Ht2, Ht1, Ha1. split_and!; [done|..].
  - rewrite Ha1 in Hk2. simpl in Hk2. rewrite length_drop in Hk2. lia.
  - simpl. rewrite <- app_assoc. f_equal. apply take_take_drop.
Qed.

Lemma moved_wf (s s' : BlockAllocator * BlockTable) : moved s s' → ba_wf s.1 → ba_wf s'.1.
Proof. intros (k & -> & _ & _). apply ba_pop_wf. Qed.

Lemma repeat_append_moved n a t : ba_wf a → moved (a, t) (repeat_m n append_token (a, t)).2.
Proof.
  revert a t. induction n as [|n IH]; intros a t Hwf; simpl; [apply moved_refl|].
  unfold mbind, M_bind. destruct (append_token_moved a t Hwf) as (Hm & _ & _).
  destruct (append_token (a, t)) as [[[]|e] [a' t']] eqn:E; simpl in *; [|done].
  eapply moved_trans; [exact Hm|]. apply IH. by apply (moved_wf _ _ Hm).
Qed.

(** [append_tokens] only moves free blocks into the table of the sequence. *)
Lemma append_tokens_exact seq n c : kv_safe c → kv_exact c (append_tokens seq n c).2.
Proof.
  intros Hs. unfold append_tokens, require_sequence. munfold.
  destruct (n <? 0); [by apply kv_exact_refl|].
  destruct (sequence_tables c !! seq) as [t|] eqn:Ht; [|by apply kv_exact_refl].
  simpl. unfold on_table.
  pose proof (repeat_append_moved (Z.to_nat n) (block_allocator c) t (safe_wf _ Hs)) as Hm.
  destruct (repeat_m _ _ _) as [r [a t']]. simpl in *. destruct Hm as (k & Ha & _ & Hids).
  by eapply kv_exact_moved.
Qed.

Lemma append_tokens_one seq c t :
  kv_safe c → sequence_tables c !! seq = Some t →
  num_free_blocks (block_allocator c) - 1 ≤
    num_free_blocks (block_allocator (append_tokens seq 1 c).2) ∧
  (0 < num_free_blocks (block_allocator c) → (append_tokens seq 1 c).1 = Ok tt).
Proof.
  intros Hs Ht. unfold append_tokens, require_sequence. munfold. simpl. rewrite Ht.
  unfold on_table.
  destruct (append_token_moved (block_allocator c) t (safe_wf _ Hs)) as (_ & Hf & Hok).
  change (repeat_m (Pos.to_nat 1) append_token)
    with (append_token ≫= λ _, mret tt : T unit).
  unfold mbind, M_bind. destruct (append_token _) as [[[]|e] [a t']] eqn:E; simpl in *;
    split; [done|done|done|]. intros H. by specialize (Hok H).
Qed.

Definition is_member {A} (o : option A) : bool := match o with Some _ => true | None => false end.

(** The state after a successful [allocate_sequence]. *)
Definition kv_allocated (seq n : Z) c : PagedKVCache V :=
  let need := Z.to_nat (ceil_div n (block_size c)) in
  let ids := take need (ba_free_heap (block_allocator c)) in
  (notify (notify_blocks_allocated seq ids)
     (set_tables (<[seq := mkBT ids n]> (sequence_tables c))
        (set_alloc (ba_pop need (block_allocator c)) c))).2.

Lemma allocate_sequence_ok seq n c :
  kv_safe c → sequence_tables c !! seq = None → 0 ≤ n →
  ceil_div n (block_size c) ≤ num_free_blocks (block_allocator c) →
  allocate_sequence seq n c = (Ok tt, kv_allocated seq n c).
Proof.
  intros Hs Ht Hn Hfree. unfold allocate_sequence, raise_if, mbind, M_bind, get. rewrite Ht.
  rewrite bool_decide_eq_false_2 by (intros [? ?]; done).
  unfold mret, M_ret. rewrite (proj2 (Z.ltb_ge _ _)) by lia. unfold on_local_table.
  pose proof (append_tokens_enough (Z.to_nat n) (block_allocator c) bt_empty (safe_wf _ Hs))
    as Happ. simpl in Happ. rewrite ceil_div_0, Z.sub_0_r, Z2Nat.id in Happ by lia.
  rewrite Happ; [|by split; simpl|done]. done.
Qed.

(** Without enough free blocks it raises after it has taken all of them, and
    no table holds them. *)
Lemma allocate_sequence_short seq n c :
  kv_safe c → sequence_tables c !! seq = None → 0 ≤ n →
  num_free_blocks (block_allocator c) < ceil_div n (block_size c) →
  allocate_sequence seq n c =
    (Err RuntimeError,
     set_alloc (ba_pop (length (ba_free_heap (block_allocator c))) (block_allocator c)) c).
Proof.
  intros Hs Ht Hn Hfree. unfold allocate_sequence, raise_if, mbind, M_bind, get. rewrite Ht.
  rewrite bool_decide_eq_false_2 by (intros [? ?]; done).
  unfold mret, M_ret. rewrite (proj2 (Z.ltb_ge _ _)) by lia. unfold on_local_table.
  destruct (append_tokens_short (Z.to_nat n) (block_allocator c) bt_empty (safe_wf _ Hs))
    as [k Hk]; [by split|simpl; rewrite ceil_div_0, Z2Nat.id, Z.add_0_l by lia; unfold block_size in *; lia|].
  by rewrite Hk.
Qed.

Lemma kv_allocated_exact seq n c :
  kv_safe c → sequence_tables c !! seq = None →
  kv_exact c (kv_allocated seq n c).
Proof.
  intros Hs Ht. unfold kv_allocated. simpl.
  set (need := Z.to_nat (ceil_div n (block_size c))).
  assert (pool (kv_allocated seq n c) ≡ₚ pool c) as Hp.
  { unfold kv_allocated, pool. simpl. fold need. rewrite owned_insert by done. simpl.
    rewrite <- (take_drop need (ba_free_heap (block_allocator c))) at 3. solve_Permutation. }
  unfold kv_allocated in Hp. simpl in Hp. fold need in Hp.
  split; [|exact Hp]. constructor; simpl; [apply ba_pop_wf, Hs|done|done|done|].
  by rewrite Hp.
Qed.

Lemma allocate_sequence_step seq n c : kv_safe c → kv_step c (allocate_sequence seq n c).2.
Proof.
  intros Hs. destruct (sequence_tables c !! seq) as [t|] eqn:Ht.
  { unfold allocate_sequence, raise_if, mbind, M_bind, get.
    rewrite Ht, bool_decide_eq_true_2 by eauto. by apply kv_exact_refl. }
  destruct (Z.ltb_spec n 0) as [Hn|Hn].
  { unfold allocate_sequence, raise_if, mbind, M_bind, get.
    rewrite Ht, bool_decide_eq_false_2 by (intros [? ?]; done).
    unfold mret, M_ret. rewrite (proj2 (Z.ltb_lt _ _)) by lia. by apply kv_exact_refl. }
  destruct (Z.le_gt_cases (ceil_div n (block_size c)) (num_free_blocks (block_allocator c))).
  - rewrite allocate_sequence_ok by done. by apply kv_allocated_exact.
  - rewrite allocate_sequence_short by done. simpl. constructor; simpl; try done.
    + apply ba_pop_wf, Hs.
    + unfold pool. simpl. rewrite drop_all. apply submseteq_inserts_l. done.
Qed.

(** [free_sequence] always succeeds, returns the sequence's blocks and forgets
    everything about it. *)
Lemma free_sequence_spec seq c :
  kv_safe c →
  (free_sequence seq c).1 = Ok tt ∧ kv_exact c (free_sequence seq c).2 ∧
  sequence_tables (free_sequence seq c).2 = delete seq (sequence_tables c) ∧
  kv_cache (free_sequence seq c).2 = kv_cache c.
Proof.
  intros Hs. unfold free_sequence, mbind, M_bind, get.
  destruct (sequence_tables c !! seq) as [t|] eqn:Ht; simpl.
  2: { split_and!; [done|by apply kv_exact_refl| |done]. by rewrite delete_id. }
  destruct (free_owned c seq t Hs Ht) as [Hfree Hwf].
  unfold on_local_table. simpl.
  assert (release (block_allocator c, t) =
          (Ok tt, (ba_push (bt_block_ids t) (block_allocator c), bt_empty))) as Hrel.
  { unfold release, has_blocks, on_alloc. munfold. cbn [fst snd].
    destruct (bt_block_ids t) as [|b ids] eqn:Hids; [done|]. cbn [fst]. by rewrite Hfree. }
  unfold T in *. rewrite Hrel. simpl. split_and!; [done| |done|done].
  by eapply kv_exact_freed.
Qed.

Lemma free_gpu_blocks_spec seq c :
  kv_safe c →
  (free_gpu_blocks seq c).1 = Ok tt ∧ kv_exact c (free_gpu_blocks seq c).2 ∧
  sequence_tables (free_gpu_blocks seq c).2 = alter release_blocks_only seq (sequence_tables c) ∧
  kv_cache (free_gpu_blocks seq c).2 = kv_cache c.
Proof.
  intros Hs. unfold free_gpu_blocks, mbind, M_bind, get.
  destruct (sequence_tables c !! seq) as [t|] eqn:Ht; simpl.
  2: { split_and!; [done|by apply kv_exact_refl| |done].
       symmetry. apply map_eq. intros i. rewrite lookup_alter. case_decide; subst; [|done].
       by rewrite Ht. }
  assert (alter release_blocks_only seq (sequence_tables c) =
          <[seq := release_blocks_only t]> (sequence_tables c)) as ->.
  { apply map_eq. intros i. rewrite lookup_alter, lookup_insert. case_decide; subst; [|done].
    by rewrite Ht. }
  destruct (free_owned c seq t Hs Ht) as [Hfree Hwf].
  unfold get_block_ids. destruct (bt_block_ids t) as [|b ids] eqn:Hids.
  { simpl. split_and!; [done|by apply kv_exact_refl| |done].
    rewrite insert_id; [done|]. rewrite Ht. unfold release_blocks_only. by destruct t; simplify_eq/=. }
  unfold zoom. rewrite Hfree. simpl. split_and!; [done| |done|done].
  eapply (kv_exact_freed _ _ seq t); simpl; rewrite ?Hids; try done.
  by rewrite (owned_update _ _ _ _ Ht).
Qed.
End ownership.
