(* ===== verification/KVCacheSwap.v ===== *)
(** * Swapping sequences out of and into the KV cache (serving/kv_cache.py)

    The contents of a preempted sequence survive until it is swapped in again,
    whatever happens to other sequences in between; the invariant of
    [KVCacheProps] holds in every state the cache can reach. *)
From S2P Require Import Prelude PyCollections KVCache KVCacheProps.
Import Heapq Alloc Table Paged.

Section tensor.
Context {V : Type}.
Implicit Types (kv buf : list V) (ids : list Z).

Definition in_range (n : nat) ids : Prop := ∀ b, b ∈ ids → 0 ≤ b < Z.of_nat n.

Lemma torch_index_in_range n b : 0 ≤ b < Z.of_nat n → torch_index n b = Some (Z.to_nat b).
Proof.
  intros H. unfold torch_index. by replace ((0 <=? b) && (b <? Z.of_nat n)) with true by lia.
Qed.

Lemma gather_cons kv b ids :
  gather kv (b :: ids) =
    (v ← torch_index (length kv) b ≫= λ i, kv !! i; vs ← gather kv ids; Some (v :: vs)).
Proof. done. Qed.

Lemma gather_total kv ids :
  in_range (length kv) ids → ∃ buf, gather kv ids = Some buf ∧ length buf = length ids.
Proof.
  induction ids as [|b ids IH]; intros Hr; [by exists []|].
  destruct IH as (buf & Hbuf & Hlen); [intros c Hc; apply Hr; set_solver|].
  assert (0 ≤ b < Z.of_nat (length kv)) as Hb by (apply Hr; set_solver).
  destruct (lookup_lt_is_Some_2 kv (Z.to_nat b)) as [v Hv]; [lia|].
  exists (v :: buf). rewrite gather_cons, torch_index_in_range by done. simpl.
  rewrite Hv, Hbuf. simpl. by rewrite Hlen.
Qed.

(** Reading blocks that were not written. *)
Lemma gather_ext kv kv' ids :
  length kv = length kv' → in_range (length kv) ids →
  (∀ b, b ∈ ids → kv !! Z.to_nat b = kv' !! Z.to_nat b) → gather kv ids = gather kv' ids.
Proof.
  intros Hl. induction ids as [|b ids IH]; intros Hr He; [done|].
  rewrite !gather_cons, IH;
    [|intros c Hc; apply Hr; set_solver|intros c Hc; apply He; set_solver].
  rewrite <- Hl, torch_index_in_range by (apply Hr; set_solver). simpl.
  by rewrite He by set_solver.
Qed.

Lemma length_write_all kv ws : length (write_all kv ws) = length kv.
Proof.
  revert kv. induction ws as [|w ws IH]; intros kv; simpl; [done|].
  unfold write_all in *. simpl. by rewrite IH, length_insert.
Qed.

Lemma write_all_other kv ws i : i ∉ ws.*1 → write_all kv ws !! i = kv !! i.
Proof.
  revert kv. induction ws as [|w ws IH]; intros kv Hi; simpl in *; [done|].
  unfold write_all in *. simpl. rewrite IH by set_solver.
  apply list_lookup_insert_ne. set_solver.
Qed.

Definition nat_ids ids : list nat := Z.to_nat <$> ids.

Lemma mapM_torch_index n ids : in_range n ids → mapM (torch_index n) ids = Some (nat_ids ids).
Proof.
  induction ids as [|b ids IH]; intros Hr; [done|]. simpl.
  rewrite torch_index_in_range by (apply Hr; set_solver). simpl.
  rewrite IH; [done|]. intros c Hc. apply Hr. set_solver.
Qed.

Lemma nat_ids_elem n ids b : in_range n ids → 0 ≤ b → Z.to_nat b ∈ nat_ids ids → b ∈ ids.
Proof.
  intros Hr Hb. unfold nat_ids. rewrite list_elem_of_fmap. intros (c & Heq & Hc).
  specialize (Hr c Hc). assert (b = c) by lia. by subst.
Qed.

Lemma write_all_gather kv ids buf :
  NoDup ids → in_range (length kv) ids → length buf = length ids →
  gather (write_all kv (zip (nat_ids ids) buf)) ids = Some buf.
Proof.
  revert kv buf. induction ids as [|b ids IH]; intros kv buf Hnd Hr Hl.
  { by destruct buf. }
  destruct buf as [|v buf]; [done|]. apply NoDup_cons in Hnd as [Hb Hnd].
  assert (0 ≤ b < Z.of_nat (length kv)) as Hbr by (apply Hr; set_solver).
  assert (in_range (length kv) ids) as Hr' by (intros c Hc; apply Hr; set_solver).
  change (write_all kv (zip (nat_ids (b :: ids)) (v :: buf)))
    with (write_all (<[Z.to_nat b:=v]> kv) (zip (nat_ids ids) buf)).
  rewrite gather_cons, length_write_all, length_insert, torch_index_in_range by done. simpl.
  rewrite write_all_other.
  2: { rewrite fst_zip by (unfold nat_ids; rewrite length_fmap; simpl in Hl; lia).
       intros Hin. by apply (nat_ids_elem (length kv)) in Hin; [|done|lia]. }
  rewrite list_lookup_insert_eq by lia. simpl. rewrite IH; [done|done| |simpl in Hl; lia].
  by rewrite length_insert.
Qed.

(** Writing a buffer of the right shape. *)
Lemma scatter_ok kv ids buf :
  NoDup ids → in_range (length kv) ids → length buf = length ids →
  ∃ kv', scatter kv ids buf = Ok kv' ∧ length kv' = length kv ∧ gather kv' ids = Some buf ∧
    ∀ b, 0 ≤ b → b ∉ ids → kv' !! Z.to_nat b = kv !! Z.to_nat b.
Proof.
  intros Hnd Hr Hl. unfold scatter. rewrite mapM_torch_index by done.
  rewrite (proj2 (Nat.eqb_eq _ _)) by done. eexists; split_and!; [done|..].
  - apply length_write_all.
  - by apply write_all_gather.
  - intros b Hb Hnb. apply write_all_other.
    rewrite fst_zip by (unfold nat_ids; rewrite length_fmap; lia).
    intros Hin. by apply (nat_ids_elem (length kv)) in Hin.
Qed.

Lemma scatter_length kv ids buf kv' : scatter kv ids buf = Ok kv' → length kv' = length kv.
Proof.
  unfold scatter. destruct (mapM _ _); [|done].
  destruct (_ =? _)%nat; [intros [= <-]; apply length_write_all|].
  destruct buf as [|v [|]]; [done| |done]. intros [= <-]. apply length_write_all.
Qed.
End tensor.

Section swap.
Context {V : Type}.
Implicit Types (c : PagedKVCache V) (t : BlockTable) (buf : list V).

Lemma owned_in_range c seq t :
  kv_safe c → sequence_tables c !! seq = Some t → in_range (length (kv_cache c)) (bt_block_ids t).
Proof.
  intros [_ _ Hr Hl] Ht b Hb. rewrite Hl. apply Hr. rewrite (owned_delete _ _ _ Ht). set_solver.
Qed.

Lemma owned_nodup c seq t :
  kv_safe c → sequence_tables c !! seq = Some t → NoDup (bt_block_ids t).
Proof.
  intros [_ Hnd _ _] Ht. unfold pool in Hnd. rewrite (owned_delete _ _ _ Ht) in Hnd.
  apply NoDup_app in Hnd as (_ & _ & Hnd). by apply NoDup_app in Hnd as (?&?&?).
Qed.

Lemma owned_disjoint c seq seq' t t' b :
  kv_safe c → seq ≠ seq' → sequence_tables c !! seq = Some t →
  sequence_tables c !! seq' = Some t' → b ∈ bt_block_ids t → b ∉ bt_block_ids t'.
Proof.
  intros [_ Hnd _ _] Hne Ht Ht' Hb Hb'. unfold pool in Hnd.
  rewrite (owned_delete _ _ _ Ht), (owned_delete _ seq' t') in Hnd
    by (by rewrite lookup_delete_ne).
  apply NoDup_app in Hnd as (_ & _ & Hnd). apply NoDup_app in Hnd as (_ & Hd & _).
  by apply (Hd b Hb), elem_of_app; left.
Qed.

(** [swap_out] of a resident sequence saves a copy of its blocks. *)
Lemma swap_out_ok seq c t :
  kv_safe c → sequence_tables c !! seq = Some t → seq ∉ swapped_out_sequences c →
  ∃ buf, gather (kv_cache c) (bt_block_ids t) = Some buf ∧
    length buf = length (bt_block_ids t) ∧
    swap_out seq c =
      (Ok tt, set_swapped
                (if has_blocks t then <[seq := buf]> (swapped_cpu_buffers c)
                 else swapped_cpu_buffers c)
                (<[seq := bt_num_tokens t]> (swapped_num_tokens c))
                ({[seq]} ∪ swapped_out_sequences c) c).
Proof.
  intros Hs Ht Hout.
  destruct (gather_total (kv_cache c) (bt_block_ids t)) as (buf & Hg & Hl);
    [by eapply owned_in_range|].
  exists buf. split_and!; [done..|]. unfold swap_out, require_sequence. munfold.
  rewrite Ht, bool_decide_eq_false_2 by done. unfold get_block_ids, has_blocks.
  destruct (bt_block_ids t) as [|b ids]; [done|]. by rewrite Hg.
Qed.

Lemma swap_out_missing seq c :
  sequence_tables c !! seq = None → swap_out seq c = (Err KeyError, c).
Proof. intros Ht. unfold swap_out, require_sequence. munfold. by rewrite Ht. Qed.

Lemma swap_out_again seq c t :
  sequence_tables c !! seq = Some t → seq ∈ swapped_out_sequences c →
  swap_out seq c = (Ok tt, c).
Proof.
  intros Ht Hin. unfold swap_out, require_sequence. munfold.
  by rewrite Ht, bool_decide_eq_true_2.
Qed.

(** Only the swap bookkeeping changes. *)
Lemma swap_out_bookkeeping seq c :
  kv_safe c → ∃ b n o, (swap_out seq c).2 = set_swapped b n o c ∧
    ((swap_out seq c).1 = Ok tt ∨ (swap_out seq c).1 = Err KeyError).
Proof.
  intros Hs.
  assert (c = set_swapped (swapped_cpu_buffers c) (swapped_num_tokens c)
                (swapped_out_sequences c) c) as Hid by by destruct c.
  destruct (sequence_tables c !! seq) as [t|] eqn:Ht.
  - destruct (decide (seq ∈ swapped_out_sequences c)) as [Hin|Hin].
    + rewrite (swap_out_again seq c t) by done. simpl. eauto 10.
    + destruct (swap_out_ok seq c t Hs Ht Hin) as (buf & _ & _ & ->). simpl. eauto 10.
  - rewrite swap_out_missing by done. simpl. eauto 10.
Qed.

Lemma swap_out_exact seq c : kv_safe c → kv_exact c (swap_out seq c).2.
Proof.
  intros Hs. destruct (swap_out_bookkeeping seq c Hs) as (b & n & o & -> & _).
  by apply kv_exact_same.
Qed.

Lemma free_gpu_blocks_bookkeeping seq c :
  swapped_cpu_buffers (free_gpu_blocks seq c).2 = swapped_cpu_buffers c ∧
  swapped_num_tokens (free_gpu_blocks seq c).2 = swapped_num_tokens c ∧
  swapped_out_sequences (free_gpu_blocks seq c).2 = swapped_out_sequences c.
Proof. unfold free_gpu_blocks. munfold. by repeat (case_match; simplify_eq/=). Qed.

(** The bookkeeping of [swap_in] once the saved entries were popped. *)
Definition popped (seq : Z) c : PagedKVCache V :=
  set_swapped (delete seq (swapped_cpu_buffers c)) (delete seq (swapped_num_tokens c))
    (swapped_out_sequences c) c.
Definition unmarked (seq : Z) c : PagedKVCache V :=
  set_swapped (swapped_cpu_buffers c) (swapped_num_tokens c)
    (swapped_out_sequences c ∖ {[seq]}) c.

Lemma swap_in_missing seq c :
  sequence_tables c !! seq = None → swap_in seq c = (Err KeyError, c).
Proof. intros Ht. unfold swap_in, require_sequence. munfold. by rewrite Ht. Qed.

Lemma swap_in_resident seq c t :
  sequence_tables c !! seq = Some t → seq ∉ swapped_out_sequences c → swap_in seq c = (Ok tt, c).
Proof.
  intros Ht Hin. unfold swap_in, require_sequence. munfold.
  by rewrite Ht, bool_decide_eq_true_2.
Qed.

(** With no saved buffer it reports success and restores nothing. *)
Lemma swap_in_no_buffer seq c t :
  sequence_tables c !! seq = Some t → seq ∈ swapped_out_sequences c →
  swapped_cpu_buffers c !! seq = None →
  swap_in seq c = (Ok tt, unmarked seq (popped seq c)).
Proof.
  intros Ht Hin Hb. unfold swap_in, require_sequence. munfold.
  rewrite Ht, bool_decide_eq_false_2, Hb by (by intros H). done.
Qed.

(** Without enough free blocks it raises after the saved buffer was popped. *)
Lemma swap_in_no_blocks seq c t buf :
  sequence_tables c !! seq = Some t → seq ∈ swapped_out_sequences c →
  swapped_cpu_buffers c !! seq = Some buf → bt_block_ids t = [] →
  num_free_blocks (block_allocator c) < Z.of_nat (length buf) →
  swap_in seq c = (Err RuntimeError, popped seq c).
Proof.
  intros Ht Hin Hb Hids Hfree. unfold swap_in, require_sequence. munfold.
  rewrite Ht, bool_decide_eq_false_2, Hb by (by intros H).
  unfold has_blocks. rewrite Hids. simpl. rewrite allocate_exhausted by done. by destruct c.
Qed.

(** With enough free blocks it restores the saved contents. *)
Lemma swap_in_restores seq c t buf :
  kv_safe c → sequence_tables c !! seq = Some t → seq ∈ swapped_out_sequences c →
  swapped_cpu_buffers c !! seq = Some buf → bt_block_ids t = [] → buf ≠ [] →
  Z.of_nat (length buf) ≤ num_free_blocks (block_allocator c) →
  let ids := take (length buf) (ba_free_heap (block_allocator c)) in
  let t' := mkBT ids (default 0 (swapped_num_tokens c !! seq)) in
  ∃ kv', scatter (kv_cache c) ids buf = Ok kv' ∧ gather kv' ids = Some buf ∧
    length kv' = length (kv_cache c) ∧
    (∀ b, 0 ≤ b → b ∉ ids → kv' !! Z.to_nat b = kv_cache c !! Z.to_nat b) ∧
    swap_in seq c =
      (Ok tt, unmarked seq (set_kv kv'
                (set_tables (<[seq := t']> (sequence_tables c))
                  (set_alloc (ba_pop (length buf) (block_allocator c)) (popped seq c))))).
Proof.
  intros Hs Ht Hin Hb Hids Hne Hfree ids t'. destruct Hs as [Hwf Hnd Hr Hl].
  destruct (scatter_ok (kv_cache c) ids buf) as (kv' & Hsc & Hlen & Hg & Ho).
  - apply (sublist_NoDup _ (ba_free_heap (block_allocator c))); [apply Hwf|apply sublist_take].
  - intros b Hbin. rewrite Hl. apply (wf_range _ Hwf). by eapply subseteq_take.
  - unfold ids. rewrite length_take. unfold num_free_blocks in Hfree. lia.
  - exists kv'. split_and!; [done..|]. unfold swap_in, require_sequence, swap_in_copy. munfold.
    rewrite Ht, bool_decide_eq_false_2, Hb by (by intros H).
    unfold has_blocks. rewrite Hids. cbn [block_allocator popped set_swapped].
    rewrite allocate_ok by (done || lia). rewrite Nat2Z.id. fold ids.
    assert (ids ≠ []) as Hidsne.
    { unfold ids. unfold num_free_blocks in Hfree.
      destruct buf, (ba_free_heap (block_allocator c)); simpl in *; done || lia. }
    unfold t', restore_blocks, get_block_ids. clear t'. clearbody ids. simpl.
    destruct ids as [|b ids']; [done|]. cbn [kv_cache set_tables set_alloc set_swapped]. by rewrite Hsc.
Qed.

(** Whatever the outcome, [swap_in] only moves free blocks into the table. *)
Lemma swap_in_exact seq c : kv_safe c → kv_exact c (swap_in seq c).2.
Proof.
  intros Hs. destruct (sequence_tables c !! seq) as [t|] eqn:Ht.
  2: { rewrite swap_in_missing by done. by apply kv_exact_refl. }
  destruct (decide (seq ∈ swapped_out_sequences c)) as [Hin|Hin].
  2: { rewrite (swap_in_resident seq c t) by done. by apply kv_exact_refl. }
  destruct (swapped_cpu_buffers c !! seq) as [buf|] eqn:Hb.
  2: { rewrite (swap_in_no_buffer seq c t) by done. by apply kv_exact_same. }
  unfold swap_in, require_sequence, swap_in_copy. munfold.
  rewrite Ht, bool_decide_eq_false_2, Hb by (by intros H).
  unfold has_blocks, get_block_ids. destruct (bt_block_ids t) as [|b ids] eqn:Hids.
  - destruct (Z.le_gt_cases (Z.of_nat (length buf)) (num_free_blocks (block_allocator c))) as [Hf|Hf].
    + simpl. rewrite allocate_ok by (apply Hs || lia). rewrite Nat2Z.id. simpl.
      set (ids := take (length buf) (ba_free_heap (block_allocator c))).
      destruct ids as [|b' ids'] eqn:Eids; [|destruct (scatter _ _ _) as [kv'|e] eqn:Esc]; simpl;
        (eapply (kv_exact_moved _ _ seq t _ (length buf)); simpl;
         [done|done|done|done|by rewrite Hids|]); try done.
      by apply scatter_length in Esc.
    + simpl. rewrite allocate_exhausted by done. simpl. by apply kv_exact_same.
  - rewrite Hids. destruct (scatter _ _ _) as [kv'|e] eqn:Esc; simpl; apply kv_exact_same; try done.
    by apply scatter_length in Esc.
Qed.
End swap.

(** ** Histories of method calls *)
Section histories.
Context {V : Type}.
Implicit Types (c : PagedKVCache V) (t : BlockTable).

(** A call a client can make; [CmdWrite] is a kernel writing a block of the
    tensor that [get_kv_cache_tensors] hands out. *)
Inductive kv_cmd :=
  | CmdAllocate (seq n : Z)
  | CmdAppend (seq n : Z)
  | CmdFree (seq : Z)
  | CmdFreeGpu (seq : Z)
  | CmdSwapOut (seq : Z)
  | CmdSwapIn (seq : Z)
  | CmdWrite (b : Z) (v : V)
  | CmdSetManager.

Definition run_cmd (cmd : kv_cmd) : M (PagedKVCache V) unit :=
  match cmd with
  | CmdAllocate seq n => allocate_sequence seq n
  | CmdAppend seq n => append_tokens seq n
  | CmdFree seq => free_sequence seq
  | CmdFreeGpu seq => free_gpu_blocks seq
  | CmdSwapOut seq => swap_out seq
  | CmdSwapIn seq => swap_in seq
  | CmdWrite b v => modify (λ c, set_kv (<[Z.to_nat b := v]> (kv_cache c)) c)
  | CmdSetManager => set_cp_kv_manager
  end.

(** The sequence a call is about. *)
Definition cmd_seq (cmd : kv_cmd) : option Z :=
  match cmd with
  | CmdAllocate seq _ | CmdAppend seq _ | CmdFree seq | CmdFreeGpu seq | CmdSwapOut seq
  | CmdSwapIn seq => Some seq
  | CmdWrite _ _ | CmdSetManager => None
  end.

(** The state after a history; a client that catches an exception goes on. *)
Fixpoint run_all (cmds : list kv_cmd) c : PagedKVCache V :=
  match cmds with
  | [] => c
  | cmd :: cmds' => run_all cmds' (run_cmd cmd c).2
  end.

(** No [allocate_sequence] of the history raised. *)
Fixpoint allocs_ok (cmds : list kv_cmd) c : bool :=
  match cmds with
  | [] => true
  | cmd :: cmds' =>
      match cmd with CmdAllocate _ _ => is_ok (run_cmd cmd c).1 | _ => true end
      && allocs_ok cmds' (run_cmd cmd c).2
  end.

Lemma run_cmd_step cmd c : kv_safe c → kv_step c (run_cmd cmd c).2.
Proof.
  intros Hs. destruct cmd; simpl.
  - by apply allocate_sequence_step.
  - by apply append_tokens_exact.
  - by apply free_sequence_spec.
  - by apply free_gpu_blocks_spec.
  - by apply swap_out_exact.
  - by apply swap_in_exact.
  - apply kv_exact_same; simpl; [done..|]. apply length_insert.
  - by apply kv_exact_same.
Qed.

Lemma run_cmd_exact cmd c :
  kv_safe c → match cmd with CmdAllocate _ _ => is_ok (run_cmd cmd c).1 = true | _ => True end →
  kv_exact c (run_cmd cmd c).2.
Proof.
  intros Hs Hok. destruct cmd as [seq n| | | | | | |]; simpl.
  - destruct (sequence_tables c !! seq) as [t|] eqn:Ht.
    { exfalso. revert Hok. simpl. unfold allocate_sequence. munfold.
      by rewrite Ht, bool_decide_eq_true_2 by eauto. }
    destruct (Z.ltb_spec n 0) as [Hn|Hn].
    { exfalso. revert Hok. simpl. unfold allocate_sequence. munfold.
      rewrite Ht, bool_decide_eq_false_2 by (intros [? ?]; done).
      by rewrite (proj2 (Z.ltb_lt _ _)). }
    destruct (Z.le_gt_cases (ceil_div n (block_size c)) (num_free_blocks (block_allocator c))).
    + rewrite allocate_sequence_ok by done. by apply kv_allocated_exact.
    + exfalso. revert Hok. simpl. by rewrite allocate_sequence_short.
  - by apply append_tokens_exact.
  - by apply free_sequence_spec.
  - by apply free_gpu_blocks_spec.
  - by apply swap_out_exact.
  - by apply swap_in_exact.
  - apply kv_exact_same; simpl; [done..|]. apply length_insert.
  - by apply kv_exact_same.
Qed.

Lemma run_all_safe cmds c : kv_safe c → kv_safe (run_all cmds c).
Proof.
  revert c. induction cmds as [|cmd cmds IH]; intros c Hs; simpl; [done|].
  apply IH. eapply kv_step_safe; [|done]. by apply run_cmd_step.
Qed.

Lemma run_all_conserved cmds c :
  kv_conserved c → allocs_ok cmds c = true → kv_conserved (run_all cmds c).
Proof.
  revert c. induction cmds as [|cmd cmds IH]; intros c Hs Hok; simpl in *; [done|].
  apply andb_true_iff in Hok as [Hok1 Hok2]. apply IH; [|done].
  eapply kv_exact_conserved; [|done]. apply run_cmd_exact; [apply Hs|by destruct cmd].
Qed.

Lemma kv_init_conserved (zero : V) cuda nb bs nl nh hd d c :
  kv_init zero cuda nb bs nl nh hd d = Ok c → kv_conserved c.
Proof.
  unfold kv_init. repeat (case_match; [done|]).
  destruct (ba_init _ _ _ _) as [a|e] eqn:Ha; [|done]. intros [= <-].
  pose proof (ba_init_wf _ _ _ _ _ Ha) as Hwf. pose proof (ba_init_free _ _ _ _ _ Ha) as Hfr.
  pose proof (ba_init_num_blocks _ _ _ _ _ Ha) as Hnb.
  assert (pool (mkKV nl nh hd (resolve_device cuda d) a ∅ ∅ ∅ ∅
            (replicate (Z.to_nat nb) zero) false []) = ba_free_heap a) as Hp.
  { unfold pool, owned. simpl. by rewrite map_to_list_empty, app_nil_r. }
  split; [constructor|]; simpl; rewrite ?Hp; try done.
  - apply Hwf.
  - unfold owned. rewrite map_to_list_empty. set_solver.
  - rewrite length_replicate. pose proof (wf_num_blocks _ Hwf). lia.
  - by rewrite Hnb.
Qed.

Lemma kv_init_num_blocks (zero : V) cuda nb bs nl nh hd d c :
  kv_init zero cuda nb bs nl nh hd d = Ok c → ba_num_blocks (block_allocator c) = nb.
Proof.
  unfold kv_init. repeat (case_match; [done|]).
  destruct (ba_init _ _ _ _) as [a|e] eqn:Ha; [|done]. intros [= <-].
  by apply ba_init_num_blocks in Ha.
Qed.

Lemma run_all_num_blocks cmds c :
  kv_safe c →
  ba_num_blocks (block_allocator (run_all cmds c)) = ba_num_blocks (block_allocator c).
Proof.
  revert c. induction cmds as [|cmd cmds IH]; intros c Hs; simpl; [done|].
  pose proof (run_cmd_step cmd c Hs) as Hst.
  rewrite IH by (by eapply kv_step_safe). by rewrite (step_num _ _ Hst).
Qed.

(** What the cache records about one sequence. *)
Definition seq_view (seq : Z) c : option BlockTable * option (list V) * option Z * bool :=
  (sequence_tables c !! seq, swapped_cpu_buffers c !! seq, swapped_num_tokens c !! seq,
   bool_decide (seq ∈ swapped_out_sequences c)).

Local Ltac view_done :=
  unfold seq_view; simpl; rewrite ?lookup_insert_ne, ?lookup_delete_ne by congruence;
  repeat f_equal; try (apply bool_decide_ext; set_solver); done.

(** A call about another sequence leaves that record alone. *)
Lemma run_cmd_frame seq cmd c :
  cmd_seq cmd ≠ Some seq → seq_view seq (run_cmd cmd c).2 = seq_view seq c.
Proof.
  intros Hne. destruct cmd; simpl in *.
  - unfold allocate_sequence, on_local_table, notify. munfold.
    repeat (case_match; simplify_eq/=); view_done.
  - unfold append_tokens, require_sequence, on_table. munfold.
    repeat (case_match; simplify_eq/=); view_done.
  - unfold free_sequence, on_local_table, notify. munfold.
    repeat (case_match; simplify_eq/=); view_done.
  - unfold free_gpu_blocks. munfold. repeat (case_match; simplify_eq/=); view_done.
  - unfold swap_out, require_sequence. munfold.
    repeat (case_match; simplify_eq/=); view_done.
  - unfold swap_in, require_sequence, swap_in_copy. munfold.
    repeat (case_match; simplify_eq/=); view_done.
  - view_done.
  - view_done.
Qed.

Lemma run_all_frame seq cmds c :
  Forall (λ cmd, cmd_seq cmd ≠ Some seq) cmds → seq_view seq (run_all cmds c) = seq_view seq c.
Proof.
  intros Hf. revert c. induction Hf as [|cmd cmds Hcmd Hf IH]; intros c; simpl; [done|].
  by rewrite IH, run_cmd_frame.
Qed.
End histories.

(** ** A small cache for concrete runs: 4 blocks of 2 tokens *)
Definition demo0 : PagedKVCache Z :=
  mkKV 1 1 1 Cpu (mkBA 4 2 Cpu [0; 1; 2; 3] (list_to_set [0; 1; 2; 3])) ∅ ∅ ∅ ∅
    [0; 0; 0; 0] false [].

Lemma demo0_init : kv_init 0 false 4 2 1 1 1 None = Ok demo0.
Proof. reflexivity. Qed.

Lemma demo0_conserved : kv_conserved demo0.
Proof. apply (kv_init_conserved 0 false 4 2 1 1 1 None), demo0_init. Qed.

(** Sequence 7 holds 3 tokens in two blocks, with known contents. *)
Definition demo1 : PagedKVCache Z := run_all [CmdAllocate 7 3; CmdWrite 0 10; CmdWrite 1 11] demo0.

Lemma demo1_conserved : kv_conserved demo1.
Proof. apply run_all_conserved; [apply demo0_conserved|reflexivity]. Qed.

(** ** The properties of the cache *)
Section kv_claims.
Context {V : Type}.
Implicit Types (c : PagedKVCache V).

(** C1: In every state the KV cache can reach from its constructor by any
    sequence of method calls and tensor writes (whether calls raise or not), no
    block is owned by two sequences, no owned block is on the free heap, every
    owned id is a valid block, and the allocator's heap and set agree. *)
Theorem kv_reachable_safe (zero : V) cuda nb bs nl nh hd d c cmds :
  kv_init zero cuda nb bs nl nh hd d = Ok c → kv_safe (run_all cmds c).
Proof. intros Hc. apply run_all_safe. by apply kv_init_conserved in Hc as [? _]. Qed.

(** C4: As long as no [allocate_sequence] raised, no block is lost: the free
    heap and the tables together hold each of the blocks [0 .. num_blocks-1]
    exactly once, after any history. *)
Theorem kv_reachable_conserved (zero : V) cuda nb bs nl nh hd d c cmds :
  kv_init zero cuda nb bs nl nh hd d = Ok c → allocs_ok cmds c = true →
  pool (run_all cmds c) ≡ₚ seqZ 0 nb.
Proof.
  intros Hc Hok. pose proof (kv_init_conserved _ _ _ _ _ _ _ _ _ Hc) as Hcons.
  destruct (run_all_conserved cmds c Hcons Hok) as [_ Hp].
  by rewrite Hp, run_all_num_blocks, (kv_init_num_blocks _ _ _ _ _ _ _ _ _ Hc) by apply Hcons.
Qed.

(** [allocate_sequence] of a new sequence takes exactly
    [ceil(num_tokens / block_size)] blocks, the least free ones in ascending
    order, whenever that many are free; and raises [RuntimeError] otherwise. *)
Theorem allocate_sequence_blocks seq n c :
  kv_safe c → sequence_tables c !! seq = None → 0 ≤ n →
  let need := ceil_div n (block_size c) in
  let heap := ba_free_heap (block_allocator c) in
  if need <=? num_free_blocks (block_allocator c)
  then (allocate_sequence seq n c).1 = Ok tt ∧
       sequence_tables (allocate_sequence seq n c).2 !! seq =
         Some (mkBT (take (Z.to_nat need) heap) n) ∧
       ba_free_heap (block_allocator (allocate_sequence seq n c).2) = drop (Z.to_nat need) heap
  else (allocate_sequence seq n c).1 = Err RuntimeError.
Proof.
  intros Hs Ht Hn need heap.
  destruct (Z.leb_spec need (num_free_blocks (block_allocator c))) as [Hle|Hgt].
  - rewrite allocate_sequence_ok by done. simpl. by rewrite lookup_insert_eq.
  - by rewrite allocate_sequence_short.
Qed.

(** When [allocate_sequence] runs out of blocks it raises with every
    remaining free block taken and recorded in no table: those blocks are lost
    to the cache. *)
Theorem allocate_sequence_failure_leaks seq n c :
  kv_safe c → sequence_tables c !! seq = None → 0 ≤ n →
  num_free_blocks (block_allocator c) < ceil_div n (block_size c) →
  num_free_blocks (block_allocator (allocate_sequence seq n c).2) = 0 ∧
  sequence_tables (allocate_sequence seq n c).2 = sequence_tables c ∧
  Z.of_nat (length (pool (allocate_sequence seq n c).2)) =
    Z.of_nat (length (pool c)) - num_free_blocks (block_allocator c).
Proof.
  intros Hs Ht Hn Hgt. rewrite allocate_sequence_short by done. simpl.
  unfold num_free_blocks, pool. simpl. rewrite drop_all, !length_app. simpl.
  split_and!; [done|done|lia].
Qed.

(** C2: Preemption keeps the KV contents: a resident sequence is swapped out
    and its GPU blocks are freed, then any history of calls about other
    sequences and any tensor writes run; if enough blocks are free afterwards,
    [swap_in] succeeds and the sequence has its token count and the contents of
    all its blocks back, in order, in blocks of its own. *)
Theorem swap_round_trip seq t c cmds :
  kv_safe c → sequence_tables c !! seq = Some t → seq ∉ swapped_out_sequences c →
  bt_block_ids t ≠ [] →
  Forall (λ cmd, cmd_seq cmd ≠ Some seq) cmds →
  let d := run_all cmds (free_gpu_blocks seq (swap_out seq c).2).2 in
  Z.of_nat (length (bt_block_ids t)) ≤ num_free_blocks (block_allocator d) →
  ∃ d' t', swap_in seq d = (Ok tt, d') ∧ kv_safe d' ∧
    sequence_tables d' !! seq = Some t' ∧ bt_num_tokens t' = bt_num_tokens t ∧
    (seq ∉ swapped_out_sequences d') ∧
    gather (kv_cache d') (bt_block_ids t') = gather (kv_cache c) (bt_block_ids t).
Proof.
  intros Hs Ht Hout Hne Hcmds d Hfree.
  destruct (swap_out_ok seq c t Hs Ht Hout) as (buf & Hg & Hl & Hso).
  assert (kv_safe (swap_out seq c).2) as Hs1 by (eapply kv_step_safe; [by apply swap_out_exact|done]).
  destruct (free_gpu_blocks_spec seq _ Hs1) as (_ & Hex & Htab & _).
  assert (kv_safe d) as Hsd.
  { apply run_all_safe. eapply kv_step_safe; [apply Hex|done]. }
  assert (seq_view seq d = (Some (mkBT [] (bt_num_tokens t)), Some buf, Some (bt_num_tokens t), true))
    as Hview.
  { unfold d. rewrite run_all_frame by done. unfold seq_view. rewrite Htab.
    destruct (free_gpu_blocks_bookkeeping seq (swap_out seq c).2) as (-> & -> & ->).
    rewrite lookup_alter, decide_True, Hso by done. simpl. rewrite Ht. simpl.
    unfold has_blocks. destruct (bt_block_ids t) as [|b ids]; [done|].
    rewrite !lookup_insert_eq. do 2 f_equal. apply bool_decide_eq_true_2. set_solver. }
  unfold seq_view in Hview. injection Hview as Hv1 Hv2 Hv3 Hv4.
  apply bool_decide_eq_true in Hv4.
  destruct (swap_in_restores seq d (mkBT [] (bt_num_tokens t)) buf) as (kv' & _ & Hg' & _ & _ & Hsi);
    try done; [by intros ->; destruct (bt_block_ids t)|by rewrite Hl|].
  pose proof (swap_in_exact seq d Hsd) as [Hst _]. rewrite Hsi in Hst. simpl in Hst.
  eexists _, _. split_and!; [exact Hsi|by eapply kv_step_safe|simpl; by rewrite lookup_insert_eq|..].
  - simpl. by rewrite Hv3.
  - simpl. set_solver.
  - simpl. by rewrite Hg, Hg'.
Qed.

(** When [swap_in] finds too few free blocks it raises, but it has already
    dropped the saved copy: a later [swap_in], with any number of free blocks,
    reports success and leaves the sequence with an empty block table. *)
Theorem swap_in_failure_loses_contents seq t buf c cmds :
  sequence_tables c !! seq = Some t → seq ∈ swapped_out_sequences c →
  swapped_cpu_buffers c !! seq = Some buf → bt_block_ids t = [] →
  num_free_blocks (block_allocator c) < Z.of_nat (length buf) →
  Forall (λ cmd, cmd_seq cmd ≠ Some seq) cmds →
  (swap_in seq c).1 = Err RuntimeError ∧
  ∃ d', swap_in seq (run_all cmds (swap_in seq c).2) = (Ok tt, d') ∧
    sequence_tables d' !! seq = Some t ∧
    swapped_cpu_buffers d' !! seq = None ∧ seq ∉ swapped_out_sequences d'.
Proof.
  intros Ht Hin Hb Hids Hfree Hcmds. rewrite (swap_in_no_blocks seq c t buf) by done.
  split; [done|]. set (d := run_all cmds (Err RuntimeError : res (), popped seq c).2).
  assert (seq_view seq d = (Some t, None, None, true)) as Hview.
  { unfold d. rewrite run_all_frame by done. unfold seq_view. simpl.
    rewrite Ht, !lookup_delete_eq. do 2 f_equal. by apply bool_decide_eq_true_2. }
  unfold seq_view in Hview. injection Hview as Hv1 Hv2 Hv3 Hv4.
  apply bool_decide_eq_true in Hv4. rewrite (swap_in_no_buffer seq d t) by done.
  eexists. split_and!; [done|done|simpl|simpl; set_solver]. by rewrite lookup_delete_eq.
Qed.

(** The page metadata for FlashInfer covers the KV length: full pages
    before the last one plus the tokens of the last page give
    [max(kv_tokens, 1)], the last page holds between 1 and [block_size] tokens,
    and there are [num_pages] page ids per sequence of the batch. *)
Theorem flashinfer_metadata_covers batch_size kv_tokens bs :
  0 < bs → 0 ≤ kv_tokens → 0 < batch_size →
  ∃ num_pages last,
    build_flashinfer_paged_metadata batch_size kv_tokens bs =
      ((λ i : Z, (i * num_pages)%Z) <$> seqZ 0 (batch_size + 1),
       mjoin (replicate (Z.to_nat batch_size) (seqZ 0 num_pages)),
       replicate (Z.to_nat batch_size) last) ∧
    0 < num_pages ∧ 1 ≤ last ≤ bs ∧ (num_pages - 1) * bs + last = Z.max kv_tokens 1.
Proof.
  intros Hbs Hk Hb. unfold build_flashinfer_paged_metadata. eexists _, _. split; [reflexivity|].
  pose proof (Z.div_mod kv_tokens bs ltac:(lia)) as Hdm.
  pose proof (Z.mod_pos_bound kv_tokens bs Hbs) as Hmb.
  revert Hdm Hmb. generalize (kv_tokens / bs), (kv_tokens mod bs). intros q r Hdm Hmb.
  destruct (Z.ltb_spec 0 kv_tokens) as [Hpos|Hz].
  - rewrite (Z.max_l kv_tokens) by lia. destruct (Z.eqb_spec r 0) as [E|E]; simpl.
    + replace ((kv_tokens + bs - 1) / bs) with q by (apply (Z.div_unique_pos _ _ _ (bs - 1)); lia).
      assert (0 < q) by nia. lia.
    + replace ((kv_tokens + bs - 1) / bs) with (q + 1)
        by (apply (Z.div_unique_pos _ _ _ (r - 1)); lia).
      assert (0 ≤ q) by nia. lia.
  - assert (kv_tokens = 0) as -> by lia. rewrite (Z.max_r 0) by lia.
    replace ((1 + bs - 1) / bs) with 1 by (apply (Z.div_unique_pos _ _ _ 0); lia).
    assert (q = 0) as -> by (destruct (Z.lt_trichotomy q 0) as [|[|]]; nia).
    assert (r = 0) as -> by lia. simpl. lia.
Qed.
End kv_claims.

(** *** Witnesses *)
Lemma kv_reachable_safe_witness :
  kv_safe (run_all [CmdAllocate 7 3; CmdAllocate 8 100; CmdFree 7] demo0).
Proof. apply (kv_reachable_safe 0 false 4 2 1 1 1 None). reflexivity. Defined.

Lemma kv_reachable_conserved_witness :
  pool (run_all [CmdAllocate 7 3; CmdAppend 7 2; CmdSwapOut 7] demo0) ≡ₚ seqZ 0 4.
Proof.
  apply (kv_reachable_conserved 0 false 4 2 1 1 1 None); [reflexivity|vm_compute; reflexivity].
Defined.

Lemma allocate_sequence_blocks_witness :
  (allocate_sequence 9 5 demo0).1 = Ok tt ∧
  sequence_tables (allocate_sequence 9 5 demo0).2 !! 9 = Some (mkBT [0; 1; 2] 5) ∧
  ba_free_heap (block_allocator (allocate_sequence 9 5 demo0).2) = [3].
Proof.
  apply (allocate_sequence_blocks 9 5 demo0); [apply demo0_conserved|reflexivity|lia].
Defined.

Lemma allocate_sequence_failure_leaks_witness :
  num_free_blocks (block_allocator (allocate_sequence 9 9 demo0).2) = 0 ∧
  sequence_tables (allocate_sequence 9 9 demo0).2 = ∅ ∧
  Z.of_nat (length (pool (allocate_sequence 9 9 demo0).2)) = 4 - 4.
Proof.
  apply (allocate_sequence_failure_leaks 9 9 demo0); [apply demo0_conserved|done|lia|done].
Defined.

Lemma swap_round_trip_witness :
  ∃ d' t',
    swap_in 7 (run_all [CmdAllocate 8 4; CmdWrite 0 99; CmdWrite 1 98]
                 (free_gpu_blocks 7 (swap_out 7 demo1).2).2) = (Ok tt, d') ∧ kv_safe d' ∧
    sequence_tables d' !! 7 = Some t' ∧ bt_num_tokens t' = 3 ∧
    (7 ∉ swapped_out_sequences d') ∧
    gather (kv_cache d') (bt_block_ids t') = Some [10; 11].
Proof.
  apply (swap_round_trip 7 (mkBT [0; 1] 3) demo1); [apply demo1_conserved|reflexivity| |done| |].
  - apply (bool_decide_eq_false_1 (7 ∈ swapped_out_sequences demo1)). reflexivity.
  - repeat constructor; discriminate.
  - vm_compute. discriminate.
Defined.

Lemma swap_in_failure_loses_contents_witness :
  let c := run_all [CmdSwapOut 7; CmdFreeGpu 7; CmdAllocate 8 6] demo1 in
  (swap_in 7 c).1 = Err RuntimeError ∧
  ∃ d', swap_in 7 (run_all [CmdFree 8] (swap_in 7 c).2) = (Ok tt, d') ∧
    sequence_tables d' !! 7 = Some (mkBT [] 3) ∧
    swapped_cpu_buffers d' !! 7 = None ∧ 7 ∉ swapped_out_sequences d'.
Proof.
  intros c. apply (swap_in_failure_loses_contents 7 (mkBT [] 3) [10; 11] c [CmdFree 8]).
  - reflexivity.
  - apply (bool_decide_eq_true_1 (7 ∈ swapped_out_sequences c)). reflexivity.
  - reflexivity.
  - reflexivity.
  - vm_compute. reflexivity.
  - repeat constructor; discriminate.
Defined.

Lemma flashinfer_metadata_covers_witness :
  ∃ num_pages last,
    build_flashinfer_paged_metadata 2 33 16 =
      ((λ i, i * num_pages) <$> seqZ 0 3, mjoin (replicate 2 (seqZ 0 num_pages)),
       replicate 2 last) ∧
    0 < num_pages ∧ 1 ≤ last ≤ 16 ∧ (num_pages - 1) * 16 + last = 33.
Proof. apply (flashinfer_metadata_covers 2 33 16); lia. Defined.
