(* ===== verification/Sequence.v ===== *)
(** * Sequences and sequence groups (serving/sequence.py) *)
From S2P Require Import Prelude.
From Stdlib Require Import QArith.
Open Scope Z_scope.

(** ** Status machine *)
Inductive SequenceStatus := WAITING | PREFILL | DECODE | FINISHED | SWAPPED | CANCELLED.

#[export] Instance SequenceStatus_eq_dec : EqDecision SequenceStatus.
Proof. solve_decision. Defined.

(** Float fields hold the rational value of the Python float. *)
Record SamplingParams := mkSP {
  temperature : Q;
  top_k : Z;
  top_p : Q;
  logprobs : Z;
  max_tokens : Z;
  stop : list string;
  repetition_penalty : Q
}.

Definition default_sampling_params : SamplingParams := mkSP 1 (-1) 1 0 256 [] 1.

Record SequenceData := mkSeq {
  seq_id : Z;
  prompt_token_ids : list Z;
  sampling_params : SamplingParams;
  output_token_ids : list Z;
  status : SequenceStatus;
  num_computed : Z          (** the field [num_computed_tokens] *)
}.

(** A freshly constructed [SequenceData]. *)
Definition new_sequence (id : Z) (prompt : list Z) (sp : SamplingParams) : SequenceData :=
  mkSeq id prompt sp [] WAITING 0.

Definition with_status (st : SequenceStatus) (s : SequenceData) : SequenceData :=
  mkSeq (seq_id s) (prompt_token_ids s) (sampling_params s) (output_token_ids s) st
    (num_computed s).

(** The table [allowed_transitions] of [_validate_transition]. *)
Definition allowed_transitions (st : SequenceStatus) : list SequenceStatus :=
  match st with
  | WAITING => [PREFILL; SWAPPED; CANCELLED]
  | PREFILL => [DECODE; FINISHED; SWAPPED; CANCELLED]
  | DECODE => [FINISHED; SWAPPED; CANCELLED]
  | SWAPPED => [WAITING; PREFILL; DECODE; FINISHED; CANCELLED]
  | FINISHED => []
  | CANCELLED => []
  end.

(** [_validate_transition] *)
Definition validate_transition (new_status : SequenceStatus) (s : SequenceData) : res unit :=
  if decide (status s = new_status) then Ok tt
  else if decide (new_status ∈ allowed_transitions (status s)) then Ok tt
  else Err ValueError.

(** [SequenceData.set_status] *)
Definition set_status (new_status : SequenceStatus) : M SequenceData unit :=
  s ← get;
  match validate_transition new_status s with
  | Err e => raise e
  | Ok _ => modify (with_status new_status)
  end.

Definition is_terminal (st : SequenceStatus) : bool :=
  match st with FINISHED | CANCELLED => true | _ => false end.

Definition prompt_length (s : SequenceData) : Z := zlen (prompt_token_ids s).

Definition total_token_ids (s : SequenceData) : list Z :=
  prompt_token_ids s ++ output_token_ids s.

(** [SequenceData.append_output_token] *)
Definition append_output_token (token_id : Z) : M SequenceData unit :=
  s ← get;
  raise_if (is_terminal (status s)) RuntimeError ≫= λ _,
  modify (λ s,
    let out := output_token_ids s ++ [token_id] in
    mkSeq (seq_id s) (prompt_token_ids s) (sampling_params s) out (status s)
      (zlen (prompt_token_ids s) + zlen out)).

(** A group refers to its sequences by [seq_id]: the sequence objects
    themselves live in a store shared by the scheduler and the engine. *)
Record SequenceGroup := mkGroup {
  request_id : string;
  group_seqs : list Z
}.

#[export] Instance SequenceGroup_eq_dec : EqDecision SequenceGroup.
Proof. solve_decision. Defined.

(** [SequenceGroup.get_sequence] in a store of sequences. *)
Definition get_sequence (store : gmap Z SequenceData) (g : SequenceGroup) (id : Z)
    : option SequenceData :=
  if decide (id ∈ group_seqs g) then store !! id else None.

(** ** Facts *)
Lemma set_status_ok st s :
  status s = st ∨ st ∈ allowed_transitions (status s) →
  set_status st s = (Ok tt, with_status st s).
Proof.
  intros H. unfold set_status, validate_transition. munfold.
  repeat (case_decide; [done|]). tauto.
Qed.

Lemma set_status_err st s :
  status s ≠ st → st ∉ allowed_transitions (status s) →
  set_status st s = (Err ValueError, s).
Proof.
  intros H1 H2. unfold set_status, validate_transition. munfold.
  by rewrite decide_False, decide_False by done.
Qed.

(** One legal status change of a sequence. *)
Inductive status_step : SequenceStatus → SequenceStatus → Prop :=
  | status_step_set s s' st :
      set_status st s = (Ok tt, s') → status_step (status s) (status s').

Lemma status_step_iff st st' :
  status_step st st' ↔ st = st' ∨ st' ∈ allowed_transitions st.
Proof.
  split.
  - intros [s s' st0 H]. unfold set_status, validate_transition in H. munfold in H.
    repeat case_decide; simplify_eq/=; auto.
  - intros H. pose (s := with_status st (new_sequence 0 [] default_sampling_params)).
    apply (status_step_set s (with_status st' s) st'). by apply set_status_ok.
Qed.

(** [FINISHED] and [CANCELLED] are absorbing and the only absorbing states:
    a sequence in a terminal state never leaves it through [set_status], and
    from every other state some sequence of status changes finishes it. *)
Theorem terminal_states_absorbing st :
  (is_terminal st = true ↔ ∀ st', rtc status_step st st' → st' = st) ∧
  (is_terminal st = false → rtc status_step st FINISHED ∧ rtc status_step st CANCELLED).
Proof.
  assert (Hstep : ∀ a b, b ∈ allowed_transitions a → status_step a b)
    by (intros a b Hab; apply status_step_iff; auto).
  assert (is_terminal st = false → rtc status_step st FINISHED ∧ rtc status_step st CANCELLED) as Hlive.
  { destruct st; try done; intros _; (split; [|apply rtc_once, Hstep; set_solver]);
      try (apply rtc_once, Hstep; set_solver).
    eapply rtc_l; [apply (Hstep _ PREFILL); set_solver|apply rtc_once, Hstep; set_solver]. }
  split; [split|done].
  - intros Ht st' Hrtc. induction Hrtc as [|a b c Hab Hbc IH]; [done|].
    apply status_step_iff in Hab as [->|Hab]; [by apply IH|].
    destruct a; try done; set_solver.
  - intros Habs. destruct (is_terminal st) eqn:E; [done|].
    destruct (Hlive eq_refl) as [Hf _]. apply Habs in Hf. by subst.
Qed.

(** Appending an output token to a live sequence records the token at the
    end and makes [num_computed_tokens] the length of prompt plus output; a
    terminal sequence raises [RuntimeError] and is unchanged. *)
Lemma append_output_token_counts tok s :
  (append_output_token tok s).1 = (if is_terminal (status s) then Err RuntimeError else Ok tt) ∧
  (is_terminal (status s) = false →
     total_token_ids (append_output_token tok s).2 = total_token_ids s ++ [tok] ∧
     num_computed (append_output_token tok s).2 = zlen (total_token_ids (append_output_token tok s).2)) ∧
  (is_terminal (status s) = true → (append_output_token tok s).2 = s).
Proof.
  unfold append_output_token. munfold. destruct (is_terminal (status s)); simpl;
    split_and!; try done. intros _. unfold total_token_ids, zlen. simpl.
  rewrite !length_app. split; [by rewrite app_assoc|simpl; lia].
Qed.
