(* ===== verification/Batch.v ===== *)
(** * Batches (serving/batch.py)

    Building the packed batch of one engine step, splitting it into its
    prefill and decode parts and putting the outputs of the parts back
    together. *)
From S2P Require Import Prelude PyCollections KVCache Sequence.
Import Alloc Table Paged.

Record SchedulerOutput := mkSO {
  prefill_seq_ids : list Z;
  decode_seq_ids : list Z;
  preempted_seq_ids : list Z;
  num_prefill_tokens : Z;
  num_decode_tokens : Z
}.

Definition empty_output : SchedulerOutput := mkSO [] [] [] 0 0.

Record BatchMetadata := mkBM {
  seq_ids : list Z;
  input_token_ids : list Z;
  seq_lengths : list Z;
  context_lengths : list Z;
  is_prefill : list bool;
  block_tables : list (list Z);
  token_offsets : list Z;
  bm_sampling_params : list SamplingParams
}.

(** The loop of [__post_init__] over [enumerate(self.seq_lengths)]: [Ok] of the
    final running total.  [offs] are the entries of [token_offsets] from index
    [idx + 1] on; the length check before the loop makes them available. *)
Fixpoint check_offsets (lens offs : list Z) (running_total : Z) : res Z :=
  match lens with
  | [] => Ok running_total
  | length :: lens' =>
      let running_total := running_total + length in
      match offs with
      | [] => Err IndexError
      | o :: offs' =>
          if o =? running_total then check_offsets lens' offs' running_total
          else Err ValueError
      end
  end.

(** [BatchMetadata.__post_init__] *)
Definition bm_post_init (b : BatchMetadata) : res BatchMetadata :=
  let expected := zlen (seq_ids b) in
  if negb (zlen (seq_lengths b) =? expected) then Err ValueError
  else if negb (zlen (context_lengths b) =? expected) then Err ValueError
  else if negb (zlen (is_prefill b) =? expected) then Err ValueError
  else if negb (zlen (block_tables b) =? expected) then Err ValueError
  else if negb (zlen (bm_sampling_params b) =? expected) then Err ValueError
  else if negb (zlen (token_offsets b) =? expected + 1) then Err ValueError
  else if decide (take 1 (token_offsets b) = [0]) then
    match check_offsets (seq_lengths b) (drop 1 (token_offsets b)) 0 with
    | Err e => Err e
    | Ok running_total =>
        if negb (running_total =? zlen (input_token_ids b)) then Err ValueError else Ok b
    end
  else Err ValueError.

Definition total_tokens (b : BatchMetadata) : Z := zlen (input_token_ids b).

(** [token_offsets] as the builders compute it: a running sum. *)
Fixpoint running_offsets (acc : Z) (lens : list Z) : list Z :=
  match lens with
  | [] => [acc]
  | l :: lens' => acc :: running_offsets (acc + l) lens'
  end.

(** The loop of [_slice_batch]: token slices and offsets of the chosen
    sequences. *)
Fixpoint slice_tokens (b : BatchMetadata) (idxs : list nat) (tokens offsets : list Z) (last : Z)
    : option (list Z * list Z) :=
  match idxs with
  | [] => Some (tokens, offsets)
  | i :: idxs' =>
      start ← token_offsets b !! i;
      stop ← token_offsets b !! S i;
      let toks := py_slice (input_token_ids b) start stop in
      let last' := last + zlen toks in
      slice_tokens b idxs' (tokens ++ toks) (offsets ++ [last']) last'
  end.

(** [_slice_batch]; an index out of range raises [IndexError]. *)
Definition slice_batch (b : BatchMetadata) (seq_indices : list nat) : res BatchMetadata :=
  match seq_indices with
  | [] => Err ValueError
  | _ =>
      let r :=
        ids ← mapM (λ i, seq_ids b !! i) seq_indices;
        lens ← mapM (λ i, seq_lengths b !! i) seq_indices;
        ctxs ← mapM (λ i, context_lengths b !! i) seq_indices;
        pres ← mapM (λ i, is_prefill b !! i) seq_indices;
        tabs ← mapM (λ i, block_tables b !! i) seq_indices;
        sps ← mapM (λ i, bm_sampling_params b !! i) seq_indices;
        to ← slice_tokens b seq_indices [] [0] 0;
        Some (mkBM ids to.1 lens ctxs pres tabs to.2 sps) in
      match r with
      | None => Err IndexError
      | Some b' => bm_post_init b'
      end
  end.

Record SplitBatchMetadata := mkSplit {
  original_batch : BatchMetadata;
  prefill_batch : option BatchMetadata;
  decode_batch : option BatchMetadata;
  prefill_indices : list nat;
  decode_indices : list nat
}.

(** [[idx for idx, p in enumerate(flags) if p == want]] *)
Definition indices_where (want : bool) (flags : list bool) : list nat :=
  filter (λ i, flags !! i = Some want) (seq 0 (length flags)).

(** [_slice_batch(batch, idxs) if idxs else None] *)
Definition slice_if_any (b : BatchMetadata) (idxs : list nat) : res (option BatchMetadata) :=
  match idxs with
  | [] => Ok None
  | _ => match slice_batch b idxs with Ok b' => Ok (Some b') | Err e => Err e end
  end.

(** [split_prefill_decode_batch] *)
Definition split_prefill_decode_batch (b : BatchMetadata) : res SplitBatchMetadata :=
  let pi := indices_where true (is_prefill b) in
  let di := indices_where false (is_prefill b) in
  match slice_if_any b pi with
  | Err e => Err e
  | Ok pb =>
      match slice_if_any b di with
      | Err e => Err e
      | Ok db => Ok (mkSplit b pb db pi di)
      end
  end.

(** ** Putting outputs back together *)
Section recombine.
Context {R : Type}.

(** [result[a:b] = rows] for [0 <= a <= b <= len(result)]; torch broadcasts a
    single row and rejects other mismatches. *)
Definition assign_rows (result : list (option R)) (a b : Z) (rows : list R)
    : res (list (option R)) :=
  let n := Z.to_nat (b - a) in
  let put (rs : list R) := take (Z.to_nat a) result ++ (Some <$> rs : list (option R)) ++ drop (Z.to_nat b) result in
  if (length rows =? n)%nat then Ok (put rows)
  else match rows with
       | [r] => Ok (put (replicate n r))
       | _ => Err RuntimeError
       end.

(** The state of the copy loop: output rows, [prefill_cursor] and
    [decode_cursor].  [torch.empty] leaves rows uninitialised ([None]). *)
Definition copy_state : Type := list (option R) * Z * Z.

(** The body of the copy loop for sequence [i]. *)
Definition copy_seq (b : BatchMetadata) (prefill_outputs decode_outputs : option (list R))
    (i : nat) : M copy_state unit :=
  match token_offsets b !! i, token_offsets b !! S i, (is_prefill b !! i : option bool) with
  | Some seq_start, Some seq_end, Some p =>
      let seq_len := seq_end - seq_start in
      if seq_len =? 0 then mret tt
      else
        st ← get;
        let '(result, pc, dc) := st in
        match (if p then prefill_outputs else decode_outputs) with
        | None => raise ValueError
        | Some outs =>
            let cursor := if p then pc else dc in
            let upd := if p then (pc + seq_len, dc) else (pc, dc + seq_len) in
            match assign_rows result seq_start seq_end (py_slice outs cursor (cursor + seq_len)) with
            | Err e => raise e
            | Ok result' => modify (λ _, (result', upd.1, upd.2))
            end
        end
  | _, _, _ => raise IndexError
  end.

(** The checks on one of the two outputs. *)
Definition check_outputs (batch : option BatchMetadata) (outputs : option (list R)) : bool :=
  match batch, outputs with
  | Some _, None => false
  | Some pb, Some o => zlen o =? total_tokens pb
  | None, Some o => zlen o =? 0
  | None, None => true
  end.

(** [SplitBatchMetadata.recombine_outputs] *)
Definition recombine_outputs (s : SplitBatchMetadata)
    (prefill_outputs decode_outputs : option (list R)) : res (list (option R)) :=
  if negb (check_outputs (prefill_batch s) prefill_outputs) then Err ValueError
  else if negb (check_outputs (decode_batch s) decode_outputs) then Err ValueError
  else
    match prefill_outputs, decode_outputs with
    | None, None => Ok []
    | _, _ =>
        let b := original_batch s in
        let result := replicate (length (input_token_ids b)) None in
        match for_each (seq 0 (length (seq_ids b))) (copy_seq b prefill_outputs decode_outputs)
                (result, 0, 0) with
        | (Err e, _) => Err e
        | (Ok _, (result', _, _)) => Ok result'
        end
    end.
End recombine.

(** ** BatchBuilder *)

(** The columns of the batch that the two loops of [from_scheduler_output]
    append to. *)
Record columns := mkCols {
  c_tokens : list Z;
  c_lens : list Z;
  c_ctx : list Z;
  c_prefill : list bool;
  c_tables : list (list Z);
  c_sps : list SamplingParams
}.

Definition no_columns : columns := mkCols [] [] [] [] [] [].

Definition add_row (s : SequenceData) (tokens : list Z) (prefill : bool) (table : list Z)
    (c : columns) : columns :=
  mkCols (c_tokens c ++ tokens) (c_lens c ++ [zlen tokens]) (c_ctx c ++ [num_computed s])
    (c_prefill c ++ [prefill]) (c_tables c ++ [table]) (c_sps c ++ [sampling_params s]).

Section builder.
Context {V : Type} (sequences : gmap Z SequenceData) (kv : PagedKVCache V).

(** The body of either loop: [sequences[seq_id]] and [get_block_table] raise
    [KeyError] on an unknown id. *)
Definition build_row (prefill : bool) (id : Z) : M columns unit :=
  match sequences !! id with
  | None => raise KeyError
  | Some s =>
      let tokens :=
        if prefill then py_slice (prompt_token_ids s) (num_computed s) (zlen (prompt_token_ids s))
        else py_slice (total_token_ids s) (-1) (zlen (total_token_ids s)) in
      match (get_block_table id kv).1 with
      | Err e => raise e
      | Ok table => modify (add_row s tokens prefill table)
      end
  end.

(** [BatchBuilder.from_scheduler_output] *)
Definition from_scheduler_output (out : SchedulerOutput) : res BatchMetadata :=
  let ids := prefill_seq_ids out ++ decode_seq_ids out in
  match (for_each (prefill_seq_ids out) (build_row true) ≫= λ _,
         for_each (decode_seq_ids out) (build_row false)) no_columns with
  | (Err e, _) => Err e
  | (Ok _, c) =>
      bm_post_init (mkBM ids (c_tokens c) (c_lens c) (c_ctx c) (c_prefill c) (c_tables c)
                      (running_offsets 0 (c_lens c)) (c_sps c))
  end.
End builder.
