(* ===== verification/BatchProps.v ===== *)
(** * Properties of batch construction, splitting and recombination *)
From S2P Require Import Prelude PyCollections KVCache Sequence Batch.
Import Alloc Table Paged.

(** ** Slices *)
Lemma py_slice_tail {A} (l : list A) n :
  0 ≤ n → py_slice l n (zlen l) = drop (Z.to_nat n) l.
Proof.
  intros Hn. unfold py_slice, py_bound. pose proof (zlen_nonneg l).
  rewrite !(proj2 (Z.ltb_ge _ _)), Z.min_id by lia.
  destruct (Z.leb_spec n (zlen l)) as [Hle|Hgt].
  - rewrite Z.min_l by lia. rewrite take_ge; [done|]. rewrite length_drop. unfold zlen in *. lia.
  - rewrite Z.min_r, Z.sub_diag by lia. unfold zlen in *. rewrite (drop_ge l (Z.to_nat n)); [done|lia].
Qed.

Lemma py_slice_last {A} (l : list A) x : py_slice (l ++ [x]) (-1) (zlen (l ++ [x])) = [x].
Proof.
  unfold py_slice, py_bound. rewrite zlen_app. change (zlen [x]) with 1.
  pose proof (zlen_nonneg l). replace (zlen l + 1 <? 0) with false by lia. simpl.
  rewrite Z.max_r, Z.min_id by lia. replace (Z.to_nat (-1 + _)) with (length l) by (unfold zlen; lia).
  rewrite drop_app_length. rewrite take_ge; [done|simpl; lia].
Qed.

(** ** Offsets *)
Lemma length_running_offsets acc lens : length (running_offsets acc lens) = S (length lens).
Proof. revert acc. induction lens as [|l lens IH]; intros acc; simpl; [done|]. by rewrite IH. Qed.

Lemma check_running_offsets acc lens :
  check_offsets lens (drop 1 (running_offsets acc lens)) acc = Ok (acc + zsum lens).
Proof.
  revert acc. induction lens as [|l lens IH]; intros acc; simpl; [f_equal; lia|].
  specialize (IH (acc + l)).
  destruct lens as [|l' lens]; simpl in *; rewrite Z.eqb_refl; [by f_equal; lia|].
  rewrite drop_0 in IH. rewrite IH. f_equal. lia.
Qed.

Lemma check_offsets_inv lens offs acc tot :
  check_offsets lens offs acc = Ok tot → length offs = length lens →
  acc :: offs = running_offsets acc lens ∧ tot = acc + zsum lens.
Proof.
  revert offs acc. induction lens as [|l lens IH]; intros offs acc Hc Hl; simpl in *.
  { destruct offs; [|done]. simplify_eq. split; [done|lia]. }
  destruct offs as [|o offs]; [done|]. destruct (Z.eqb_spec o (acc + l)) as [->|]; [|done].
  destruct (IH offs (acc + l) Hc) as [H1 H2]; [by injection Hl|].
  split; [by rewrite H1|]. unfold zsum in *. simpl. lia.
Qed.

Lemma running_offsets_lookup acc lens i :
  (i ≤ length lens)%nat → running_offsets acc lens !! i = Some (acc + zsum (take i lens)).
Proof.
  revert acc i. induction lens as [|l lens IH]; intros acc [|i] Hi; simpl in *;
    [f_equal; lia|lia|f_equal; lia|].
  rewrite IH by lia. f_equal. unfold zsum. simpl. lia.
Qed.

(** What a batch that passed [__post_init__] satisfies. *)
Record bm_valid (b : BatchMetadata) : Prop := {
  bv_lens : length (seq_lengths b) = length (seq_ids b);
  bv_ctx : length (context_lengths b) = length (seq_ids b);
  bv_prefill : length (is_prefill b) = length (seq_ids b);
  bv_tables : length (block_tables b) = length (seq_ids b);
  bv_sps : length (bm_sampling_params b) = length (seq_ids b);
  bv_offsets : token_offsets b = running_offsets 0 (seq_lengths b);
  bv_total : zsum (seq_lengths b) = total_tokens b
}.

Lemma bm_post_init_spec b : bm_post_init b = Ok b ↔ bm_valid b.
Proof.
  unfold bm_post_init, zlen, total_tokens, zlen. split.
  - do 6 (match goal with |- context [?x =? ?y] => destruct (Z.eqb_spec x y) as [?Hl|?] end;
          cbn [negb]; [|done]).
    case_decide as Ht; [|done].
    destruct (check_offsets _ _ _) as [tot|e] eqn:Hc; [|done].
    destruct (Z.eqb_spec tot (Z.of_nat (length (input_token_ids b)))) as [Htot|]; cbn [negb]; [|done].
    intros _. destruct (token_offsets b) as [|o offs] eqn:Ho; [done|].
    injection Ht as ->. simpl in *. rewrite drop_0 in Hc.
    apply check_offsets_inv in Hc as [Hc1 Hc2]; [|lia].
    constructor; unfold total_tokens, zlen; try lia. by rewrite Ho.
  - intros [H1 H2 H3 H4 H5 H6 H7]. rewrite H1, H2, H3, H4, H5, !Z.eqb_refl. simpl.
    rewrite H6, length_running_offsets, H1.
    rewrite (proj2 (Z.eqb_eq (Z.of_nat (S _)) _)) by lia. simpl.
    rewrite decide_True by (by destruct (seq_lengths b)).
    rewrite check_running_offsets. unfold total_tokens, zlen in H7. rewrite H7, Z.add_0_l, Z.eqb_refl.
    done.
Qed.

(** ** BatchBuilder builds valid batches *)
Definition cols_ok (n : nat) (c : columns) : Prop :=
  length (c_lens c) = n ∧ length (c_ctx c) = n ∧ length (c_prefill c) = n ∧
  length (c_tables c) = n ∧ length (c_sps c) = n ∧ zsum (c_lens c) = zlen (c_tokens c).

Lemma add_row_ok n s toks p t c : cols_ok n c → cols_ok (S n) (add_row s toks p t c).
Proof.
  intros (?&?&?&?&?&?). unfold add_row, cols_ok. simpl. rewrite !length_app.
  autorewrite with zlen. simpl. split_and!; try lia.
Qed.

Section builder_props.
Context {V : Type} (sequences : gmap Z SequenceData) (kv : PagedKVCache V).

(** The ids a batch can be built from. *)
Definition known (ids : list Z) : Prop :=
  ∀ id, id ∈ ids → is_Some (sequences !! id) ∧ is_Some (sequence_tables kv !! id).

(** The tokens of one row: the part of the prompt that is not computed yet, or
    the last token of the sequence. *)
Definition row_spec (p : bool) (id : Z) (row : list Z) : Prop :=
  ∃ s, sequences !! id = Some s ∧
    if p then 0 ≤ num_computed s → row = drop (Z.to_nat (num_computed s)) (prompt_token_ids s)
    else ∀ l t, total_token_ids s = l ++ [t] → row = [t].

Definition table_spec (id : Z) (table : list Z) : Prop :=
  ∃ t, sequence_tables kv !! id = Some t ∧ table = bt_block_ids t.

Lemma build_row_ok p id c :
  is_Some (sequences !! id) → is_Some (sequence_tables kv !! id) →
  ∃ s table toks, row_spec p id toks ∧ table_spec id table ∧
    build_row sequences kv p id c = (Ok tt, add_row s toks p table c).
Proof.
  intros [s Hs] [t Ht]. unfold build_row, get_block_table, require_sequence. rewrite Hs.
  munfold. rewrite Ht. eexists s, _, _. split_and!; [|by exists t|done].
  exists s. split; [done|]. destruct p; [intros Hn; by apply py_slice_tail|].
  intros l tok ->. apply py_slice_last.
Qed.

Lemma build_rows_ok p ids n c :
  known ids → cols_ok n c →
  ∃ c' rows tabs, for_each ids (build_row sequences kv p) c = (Ok tt, c') ∧
    cols_ok (n + length ids) c' ∧ c_prefill c' = c_prefill c ++ replicate (length ids) p ∧
    Forall2 (row_spec p) ids rows ∧ Forall2 table_spec ids tabs ∧
    c_tokens c' = c_tokens c ++ concat rows ∧ c_tables c' = c_tables c ++ tabs ∧
    c_lens c' = c_lens c ++ (zlen <$> rows).
Proof.
  revert n c. induction ids as [|id ids IH]; intros n c Hk Hc; simpl.
  { exists c, [], []. rewrite Nat.add_0_r. simpl. rewrite !app_nil_r. done. }
  destruct (Hk id) as [Hs Ht]; [set_solver|].
  destruct (build_row_ok p id c Hs Ht) as (s & table & toks & Hrow & Htab & Hb).
  munfold. rewrite Hb.
  destruct (IH (S n) (add_row s toks p table c))
    as (c' & rows & tabs & Hf & Hc' & Hp & Hr & Htabs & Ht1 & Ht2 & Ht3).
  - intros id' ?. apply Hk. set_solver.
  - by apply add_row_ok.
  - exists c', (toks :: rows), (table :: tabs).
    rewrite Hp, Ht1, Ht2, Ht3, Nat.add_succ_r. simpl. rewrite <- !app_assoc. simpl.
    split_and!; try done; by constructor.
Qed.

Lemma from_scheduler_output_valid out :
  known (prefill_seq_ids out ++ decode_seq_ids out) →
  ∃ b prows drows, from_scheduler_output sequences kv out = Ok b ∧ bm_valid b ∧
    seq_ids b = prefill_seq_ids out ++ decode_seq_ids out ∧
    is_prefill b = replicate (length (prefill_seq_ids out)) true
                   ++ replicate (length (decode_seq_ids out)) false ∧
    Forall2 (row_spec true) (prefill_seq_ids out) prows ∧
    Forall2 (row_spec false) (decode_seq_ids out) drows ∧
    input_token_ids b = concat (prows ++ drows) ∧
    seq_lengths b = zlen <$> (prows ++ drows) ∧
    Forall2 table_spec (seq_ids b) (block_tables b).
Proof.
  intros Hk. unfold from_scheduler_output. munfold.
  destruct (build_rows_ok true (prefill_seq_ids out) 0 no_columns)
    as (c1 & r1 & t1 & H1 & Hc1 & Hp1 & Hr1 & Ht1 & Ha1 & Hb1 & Hl1).
  { intros id ?. apply Hk. set_solver. }
  { by repeat constructor. }
  rewrite H1.
  destruct (build_rows_ok false (decode_seq_ids out) (length (prefill_seq_ids out)) c1)
    as (c2 & r2 & t2 & H2 & Hc2 & Hp2 & Hr2 & Ht2 & Ha2 & Hb2 & Hl2); [|done|].
  { intros id ?. apply Hk. set_solver. }
  rewrite H2. destruct Hc2 as (?&?&?&?&?&?).
  assert (bm_valid (mkBM (prefill_seq_ids out ++ decode_seq_ids out) (c_tokens c2) (c_lens c2)
    (c_ctx c2) (c_prefill c2) (c_tables c2) (running_offsets 0 (c_lens c2)) (c_sps c2))) as Hv.
  { constructor; simpl; rewrite ?length_app; try lia; done. }
  eexists _, r1, r2. split; [by apply bm_post_init_spec|]. simpl.
  rewrite Hp2, Hp1, Ha2, Ha1, Hl2, Hl1, Hb2, Hb1, concat_app, fmap_app.
  rewrite Hp2, Hp1, Ha2, Ha1, Hl2, Hl1, Hb2, Hb1 in Hv.
  split_and!; try done. simpl. by apply Forall2_app.
Qed.
End builder_props.

(** ** Splitting a batch by phase *)

(** The items of the sequences in the wanted phase, in batch order. *)
Definition select {A} (want : bool) (flags : list bool) (rows : list A) : list A :=
  omap (λ i, rows !! i) (indices_where want flags).

Lemma zsum_rows {A} (rows : list (list A)) : zsum (zlen <$> rows) = zlen (concat rows).
Proof.
  induction rows as [|r rows IH]; [done|]. simpl. rewrite zlen_app, <- IH. done.
Qed.

Lemma indices_where_lt want flags i : i ∈ indices_where want flags → (i < length flags)%nat.
Proof. unfold indices_where. rewrite list_elem_of_filter, elem_of_seq. lia. Qed.

Lemma mapM_lookup_omap {A} (l : list A) (idxs : list nat) :
  (∀ i, i ∈ idxs → (i < length l)%nat) →
  mapM (λ i, l !! i) idxs = Some (omap (λ i, l !! i) idxs) ∧
  length (omap (λ i, l !! i) idxs) = length idxs.
Proof.
  induction idxs as [|i idxs IH]; intros Hlt; [done|]. simpl.
  destruct (lookup_lt_is_Some_2 l i) as [x Hx]; [apply Hlt; set_solver|].
  destruct IH as [IH1 IH2]; [intros j Hj; apply Hlt; set_solver|].
  rewrite Hx. simpl. rewrite IH1. simpl. auto.
Qed.

Lemma omap_lookup_fmap {A B} (f : A → B) (l : list A) (idxs : list nat) :
  omap (λ i, (f <$> l) !! i) idxs = f <$> omap (λ i, l !! i) idxs.
Proof.
  induction idxs as [|i idxs IH]; [done|]. cbn [omap list_omap]. rewrite list_lookup_fmap.
  destruct (l !! i); cbn; f_equal; apply IH.
Qed.

(** The consistency of a batch with the rows its tokens consist of. *)
Definition rows_of {A} (b : BatchMetadata) (rows : list (list A)) : Prop :=
  zlen <$> rows = seq_lengths b.

Lemma rows_of_length {A} b (rows : list (list A)) :
  bm_valid b → rows_of b rows → length rows = length (seq_ids b).
Proof. intros Hv Hr. rewrite <- (bv_lens b Hv), <- Hr. by rewrite length_fmap. Qed.

Lemma rows_of_offset {A} b (rows : list (list A)) i :
  bm_valid b → rows_of b rows → (i ≤ length rows)%nat →
  token_offsets b !! i = Some (zlen (concat (take i rows))).
Proof.
  intros Hv Hr Hi. rewrite (bv_offsets b Hv), <- Hr, running_offsets_lookup by (by rewrite length_fmap).
  rewrite <- fmap_take, zsum_rows. done.
Qed.

Lemma concat_split_at {A} (rows : list (list A)) i r :
  rows !! i = Some r →
  concat rows = concat (take i rows) ++ r ++ concat (drop (S i) rows) ∧
  concat (take (S i) rows) = concat (take i rows) ++ r.
Proof.
  intros Hi. split.
  - rewrite <- (take_drop_middle rows i r Hi) at 1. by rewrite concat_app.
  - rewrite (take_S_r _ _ _ Hi), concat_app. simpl. by rewrite app_nil_r.
Qed.

Lemma slice_tokens_spec b trows idxs toks offs last :
  bm_valid b → rows_of b trows → concat trows = input_token_ids b →
  (∀ i, i ∈ idxs → (i < length trows)%nat) →
  let rs := omap (λ i, trows !! i) idxs in
  slice_tokens b idxs toks (offs ++ [last]) last =
    Some (toks ++ concat rs, offs ++ running_offsets last (zlen <$> rs)).
Proof.
  intros Hv Hr Hc. revert toks offs last.
  induction idxs as [|i idxs IH]; intros toks offs last Hlt; simpl; [by rewrite app_nil_r|].
  destruct (lookup_lt_is_Some_2 trows i) as [r Hi]; [apply Hlt; set_solver|].
  destruct (concat_split_at trows i r Hi) as [E1 E2].
  assert (i < length trows)%nat by (apply Hlt; set_solver).
  rewrite (rows_of_offset b trows i), (rows_of_offset b trows (S i)) by (done || lia). simpl.
  rewrite <- Hc, E2, E1, zlen_app, py_slice_mid.
  rewrite IH by (intros j Hj; apply Hlt; set_solver).
  rewrite Hi. simpl. by rewrite <- !app_assoc.
Qed.

Lemma slice_batch_ok b trows idxs :
  bm_valid b → rows_of b trows → concat trows = input_token_ids b →
  (∀ i, i ∈ idxs → (i < length (seq_ids b))%nat) → idxs ≠ [] →
  ∃ b', slice_batch b idxs = Ok b' ∧ bm_valid b' ∧
    input_token_ids b' = concat (omap (λ i, trows !! i) idxs) ∧
    seq_ids b' = omap (λ i, seq_ids b !! i) idxs ∧
    is_prefill b' = omap (λ i, is_prefill b !! i) idxs ∧
    block_tables b' = omap (λ i, block_tables b !! i) idxs.
Proof.
  intros Hv Hr Hc Hlt Hne. pose proof (rows_of_length b trows Hv Hr) as Hlen.
  pose proof Hv as [V1 V2 V3 V4 V5 V6 V7]. unfold slice_batch.
  destruct idxs as [|i0 idxs0]; [done|]. set (idxs := i0 :: idxs0) in *. clearbody idxs.
  assert (∀ A (l : list A), length l = length (seq_ids b) →
    mapM (λ i, l !! i) idxs = Some (omap (λ i, l !! i) idxs) ∧
    length (omap (λ i, l !! i) idxs) = length idxs) as Hm.
  { intros A l Hl. apply mapM_lookup_omap. intros i Hi. rewrite Hl. auto. }
  rewrite (proj1 (Hm _ (seq_ids b) eq_refl)), (proj1 (Hm _ _ V1)), (proj1 (Hm _ _ V2)),
    (proj1 (Hm _ _ V3)), (proj1 (Hm _ _ V4)), (proj1 (Hm _ _ V5)).
  pose proof (slice_tokens_spec b trows idxs [] [] 0 Hv Hr Hc) as Hs. simpl app in Hs.
  cbn [mbind option_bind]. rewrite Hs by (intros i Hi; rewrite Hlen; auto).
  cbn [mbind option_bind fst snd].
  eexists. split; [apply bm_post_init_spec|split; [|split_and!; reflexivity]].
  all: constructor; cbn [seq_ids seq_lengths context_lengths is_prefill block_tables
    bm_sampling_params token_offsets]; rewrite ?(proj2 (Hm _ (seq_ids b) eq_refl));
    try (by apply Hm).
  all: rewrite <- Hr, omap_lookup_fmap; try done; apply zsum_rows.
Qed.

(** ** Recombination *)
Section recombine_props.
Context {R : Type} (b : BatchMetadata) (rows : list (list R)).
Context (Hv : bm_valid b) (Hr : rows_of b rows).

(** The rows of the wanted phase among the first [n] sequences. *)
Definition sel (want : bool) (n : nat) : list R :=
  concat (omap (λ i, rows !! i) (filter (λ i, is_prefill b !! i = Some want) (seq 0 n))).

(** The outputs of the model for one phase: absent when the batch has no
    sequence in that phase. *)
Definition part (want : bool) : option (list R) :=
  match indices_where want (is_prefill b) with
  | [] => None
  | _ => Some (sel want (length rows))
  end.

(** The state of the copy loop before sequence [i]. *)
Definition loop_state (i : nat) : @copy_state R :=
  ((Some <$> concat (take i rows)) ++ replicate (length (concat (drop i rows))) None,
   zlen (sel true i), zlen (sel false i)).

Lemma rows_prefill_length : length (is_prefill b) = length rows.
Proof. by rewrite (bv_prefill b Hv), (rows_of_length b rows Hv Hr). Qed.

Lemma sel_S want i p r :
  is_prefill b !! i = Some p → rows !! i = Some r →
  sel want (S i) = sel want i ++ (if decide (want = p) then r else []).
Proof.
  intros Hp Hi. unfold sel. rewrite seq_S, filter_app, omap_app, concat_app. f_equal. simpl.
  case_decide as Hd; rewrite filter_cons.
  - subst p. rewrite decide_True by done. simpl. rewrite Hi. simpl. by rewrite app_nil_r.
  - rewrite decide_False by congruence. done.
Qed.

Lemma sel_prefix want i : (i ≤ length rows)%nat → ∃ tl, sel want (length rows) = sel want i ++ tl.
Proof.
  intros Hi. unfold sel. replace (length rows) with (i + (length rows - i))%nat by lia.
  rewrite seq_app, filter_app, omap_app, concat_app. eauto.
Qed.

Lemma part_Some want i :
  is_prefill b !! i = Some want → part want = Some (sel want (length rows)).
Proof.
  intros Hi. unfold part. destruct (indices_where want (is_prefill b)) eqn:E; [|done].
  assert (i ∈ indices_where want (is_prefill b)) as Hin; [|rewrite E in Hin; set_solver].
  unfold indices_where. rewrite list_elem_of_filter, elem_of_seq. split; [done|].
  apply lookup_lt_Some in Hi. lia.
Qed.

Lemma assign_rows_mid (pre r : list R) n :
  assign_rows ((Some <$> pre) ++ replicate (length r + n) None) (zlen pre) (zlen pre + zlen r) r =
  Ok ((Some <$> pre ++ r) ++ replicate n None).
Proof.
  unfold assign_rows, zlen.
  replace (Z.to_nat (_ - _)) with (length r) by lia. rewrite Nat.eqb_refl. f_equal.
  replace (Z.to_nat (_ + _)) with (length pre + length r)%nat by lia. rewrite Nat2Z.id.
  rewrite take_app_length' by (by rewrite length_fmap).
  rewrite drop_app_ge by (rewrite length_fmap; lia).
  rewrite length_fmap, drop_replicate, fmap_app, <- app_assoc. by do 3 f_equal; lia.
Qed.

Lemma copy_seq_step i :
  (i < length rows)%nat →
  copy_seq b (part true) (part false) i (loop_state i) = (Ok tt, loop_state (S i)).
Proof.
  intros Hi. destruct (lookup_lt_is_Some_2 rows i Hi) as [r Hri].
  destruct (lookup_lt_is_Some_2 (is_prefill b) i) as [p Hp]; [by rewrite rows_prefill_length|].
  destruct (concat_split_at rows i r Hri) as [_ E].
  unfold copy_seq, loop_state.
  rewrite (rows_of_offset b rows i), (rows_of_offset b rows (S i)) by (done || lia).
  rewrite Hp, E, zlen_app, (drop_S _ _ _ Hri), !(sel_S _ i p r) by done.
  cbn [concat]. rewrite length_app.
  replace (zlen (concat (take i rows)) + zlen r - zlen (concat (take i rows))) with (zlen r) by lia.
  destruct (Z.eqb_spec (zlen r) 0) as [H0|Hne].
  { destruct r; [|rewrite zlen_cons in H0; pose proof (zlen_nonneg r0); lia].
    simpl. rewrite !app_nil_r. munfold. by repeat case_decide; rewrite !app_nil_r. }
  munfold. destruct (sel_prefix p i) as [tl Htl]; [lia|].
  destruct (sel_prefix p (S i)) as [tl' Htl']; [lia|].
  rewrite (sel_S _ i p r), decide_True in Htl' by done.
  destruct p; rewrite (part_Some _ i Hp), Htl', <- app_assoc, py_slice_mid, assign_rows_mid; simpl;
    repeat case_decide; try done; by rewrite ?app_nil_r, ?zlen_app.
Qed.

Lemma copy_loop i :
  (i ≤ length rows)%nat →
  for_each (seq 0 i) (copy_seq b (part true) (part false)) (loop_state 0) = (Ok tt, loop_state i).
Proof.
  induction i as [|i IH]; intros Hi; [done|].
  rewrite seq_S, for_each_app. munfold. rewrite IH by lia. simpl. munfold.
  by rewrite copy_seq_step by lia.
Qed.
End recombine_props.

Lemma check_part {R} b (rows : list (list R)) (trows : list (list Z)) pb want :
  rows_of b rows → rows_of b trows →
  total_tokens pb = zlen (concat (select want (is_prefill b) trows)) →
  zlen (concat (select want (is_prefill b) rows)) = total_tokens pb.
Proof.
  intros Hr Ht ->. rewrite <- !zsum_rows. unfold select. rewrite <- !omap_lookup_fmap.
  by rewrite Hr, Ht.
Qed.

Lemma sel_select {R} b (rows : list (list R)) want :
  bm_valid b → rows_of b rows →
  sel b rows want (length rows) = concat (select want (is_prefill b) rows).
Proof. intros Hv Hr. unfold sel, select, indices_where. by rewrite (rows_prefill_length b rows Hv Hr). Qed.

(** What [split_prefill_decode_batch] returns for one phase. *)
Definition phase_ok (b : BatchMetadata) (trows : list (list Z)) (want : bool)
    (ob : option BatchMetadata) : Prop :=
  match ob with
  | None => indices_where want (is_prefill b) = []
  | Some pb =>
      bm_valid pb ∧ input_token_ids pb = concat (select want (is_prefill b) trows) ∧
      seq_ids pb = select want (is_prefill b) (seq_ids b) ∧
      block_tables pb = select want (is_prefill b) (block_tables b) ∧
      Forall (λ p, p = want) (is_prefill pb)
  end.

Lemma select_flags want flags : Forall (λ p, p = want) (select want flags flags).
Proof.
  unfold select. apply Forall_forall. intros p Hp. apply list_elem_of_omap in Hp as (i & Hi & Hp).
  unfold indices_where in Hi. apply list_elem_of_filter in Hi as [Hi _]. congruence.
Qed.

Lemma slice_if_any_ok b trows want :
  bm_valid b → rows_of b trows → concat trows = input_token_ids b →
  ∃ ob, slice_if_any b (indices_where want (is_prefill b)) = Ok ob ∧ phase_ok b trows want ob ∧
    (ob = None ↔ indices_where want (is_prefill b) = []).
Proof.
  intros Hv Hr Hc. unfold slice_if_any, phase_ok.
  destruct (indices_where want (is_prefill b)) as [|i l] eqn:E; [by exists None|].
  destruct (slice_batch_ok b trows (i :: l)) as (b' & Hb & Hv' & Ht & Hi & Hp & Htab); try done.
  { intros j Hj. rewrite <- E in Hj. apply indices_where_lt in Hj.
    by rewrite <- (bv_prefill b Hv). }
  exists (Some b'). rewrite Hb. split_and!; try done; unfold select; rewrite ?E; try done.
  rewrite Hp, <- E. apply select_flags.
Qed.

(** C23: Splitting a valid batch by phase always succeeds and gives valid
    batches with exactly the tokens, ids and block tables of the prefill and of
    the decode sequences in order; recombining per-token outputs computed for
    the two parts restores, in the order of the original batch, one output for
    every token of it. *)
Theorem split_recombine {R} b (trows : list (list Z)) (rows : list (list R)) :
  bm_post_init b = Ok b → rows_of b trows → concat trows = input_token_ids b → rows_of b rows →
  ∃ s, split_prefill_decode_batch b = Ok s ∧
    phase_ok b trows true (prefill_batch s) ∧ phase_ok b trows false (decode_batch s) ∧
    recombine_outputs s (part b rows true) (part b rows false) = Ok (Some <$> concat rows).
Proof.
  intros Hv%bm_post_init_spec Ht Hc Hr. unfold split_prefill_decode_batch.
  destruct (slice_if_any_ok b trows true Hv Ht Hc) as (pb & -> & Hpb & Hpn).
  destruct (slice_if_any_ok b trows false Hv Ht Hc) as (db & -> & Hdb & Hdn).
  eexists. split; [done|]. split_and!; [done|done|].
  unfold recombine_outputs. cbn [prefill_batch decode_batch original_batch].
  assert (∀ want ob, phase_ok b trows want ob → (ob = None ↔ indices_where want (is_prefill b) = []) →
    check_outputs ob (part b rows want) = true) as Hchk.
  { intros want ob Hp Hn. unfold part. destruct ob as [pb'|]; simpl.
    - destruct (indices_where want (is_prefill b)) eqn:E; [by destruct Hn as [_ Hn]; discriminate Hn|].
      rewrite sel_select by done. apply Z.eqb_eq, (check_part b rows trows); [done|done|].
      unfold total_tokens. by destruct Hp as (_ & -> & _).
    - by destruct Hn as [-> _]. }
  rewrite (Hchk true pb), (Hchk false db) by done. cbn [negb].
  pose proof (copy_loop b rows Hv Hr (length rows) (le_n _)) as Hloop.
  rewrite (rows_of_length b rows Hv Hr) in Hloop at 1.
  assert (loop_state b rows 0 = (replicate (length (input_token_ids b)) None, 0, 0)) as H0.
  { assert (zlen (concat rows) = zlen (concat trows)) as Hz by (by rewrite <- !zsum_rows, Hr, Ht).
    apply Nat2Z.inj in Hz. unfold loop_state. by rewrite <- Hc, drop_0, Hz. }
  rewrite H0 in Hloop. rewrite Hloop. unfold loop_state. rewrite drop_ge, firstn_all by done. simpl.
  rewrite app_nil_r. destruct (part b rows true) eqn:E1; [done|]. destruct (part b rows false) eqn:E2; [done|].
  destruct rows as [|r rs]; [done|].
  destruct (lookup_lt_is_Some_2 (is_prefill b) 0) as [p Hp].
  { rewrite (rows_prefill_length b (r :: rs) Hv Hr). simpl. lia. }
  assert (is_Some (part b (r :: rs) p)) as [? Hpart] by (eexists; by eapply part_Some).
  destruct p; congruence.
Qed.

(** A batch of one prefill row with two tokens and two decode rows. *)
Definition demo_batch : BatchMetadata :=
  mkBM [7; 8; 9] [11; 12; 21; 31] [2; 1; 1] [0; 4; 5] [true; false; false]
    [[0]; [1]; [2]] [0; 2; 3; 4]
    [default_sampling_params; default_sampling_params; default_sampling_params].

Lemma split_recombine_witness :
  ∃ s, split_prefill_decode_batch demo_batch = Ok s ∧
    phase_ok demo_batch [[11; 12]; [21]; [31]] true (prefill_batch s) ∧
    phase_ok demo_batch [[11; 12]; [21]; [31]] false (decode_batch s) ∧
    recombine_outputs s (part demo_batch [[1%nat; 2%nat]; [3%nat]; [4%nat]] true)
      (part demo_batch [[1%nat; 2%nat]; [3%nat]; [4%nat]] false) =
    Ok (Some <$> [1%nat; 2%nat; 3%nat; 4%nat]).
Proof.
  apply (split_recombine demo_batch [[11; 12]; [21]; [31]] [[1%nat; 2%nat]; [3%nat]; [4%nat]]);
    reflexivity.
Defined.

(** When every scheduled id has a sequence and a block table,
    [BatchBuilder.from_scheduler_output] builds a batch that passes its own
    validation, lists the prefill rows before the decode rows with the matching
    phase flags, and packs for each row exactly the uncomputed part of the
    prompt (prefill) or the last token (decode), with the row's block ids. *)
Theorem builder_rows {V} sequences (kv : PagedKVCache V) out :
  known sequences kv (prefill_seq_ids out ++ decode_seq_ids out) →
  ∃ b prows drows, from_scheduler_output sequences kv out = Ok b ∧ bm_post_init b = Ok b ∧
    seq_ids b = prefill_seq_ids out ++ decode_seq_ids out ∧
    is_prefill b = replicate (length (prefill_seq_ids out)) true
                   ++ replicate (length (decode_seq_ids out)) false ∧
    Forall2 (row_spec sequences true) (prefill_seq_ids out) prows ∧
    Forall2 (row_spec sequences false) (decode_seq_ids out) drows ∧
    input_token_ids b = concat (prows ++ drows) ∧
    seq_lengths b = zlen <$> (prows ++ drows) ∧
    Forall2 (table_spec kv) (seq_ids b) (block_tables b).
Proof.
  intros Hk. destruct (from_scheduler_output_valid sequences kv out Hk)
    as (b & prows & drows & H & Hv & Hrest).
  exists b, prows, drows. split_and!; [done|by apply bm_post_init_spec|apply Hrest..].
Qed.

(** A cache in which sequence 7 holds the blocks of a prompt of three tokens. *)
Definition demo_kv : PagedKVCache Z :=
  match kv_init 0 false 4 2 1 1 1 None with
  | Ok kv => (allocate_sequence 7 3 kv).2
  | Err _ => mkKV 0 0 0 Cpu (mkBA 0 0 Cpu [] ∅) ∅ ∅ ∅ ∅ [] false []
  end.

Lemma builder_rows_witness :
  let sequences := {[7 := new_sequence 7 [1; 2; 3] default_sampling_params]} in
  ∃ b prows drows, from_scheduler_output sequences demo_kv (mkSO [7] [] [] 3 0) = Ok b ∧
    bm_post_init b = Ok b ∧
    seq_ids b = [7] ∧ is_prefill b = [true] ∧
    Forall2 (row_spec sequences true) [7] prows ∧ Forall2 (row_spec sequences false) [] drows ∧
    input_token_ids b = concat (prows ++ drows) ∧ seq_lengths b = zlen <$> (prows ++ drows) ∧
    Forall2 (table_spec demo_kv) (seq_ids b) (block_tables b).
Proof.
  intros sequences. apply (builder_rows sequences demo_kv (mkSO [7] [] [] 3 0)).
  intros id Hid. apply list_elem_of_singleton in Hid as ->.
  split; apply (bool_decide_unpack _); vm_compute; exact I.
Defined.
