(* ===== verification/ServingScheduler.v ===== *)
(** * The continuous-batching scheduler (serving/scheduler.py)

    The scheduler owns three queues of sequence groups and the index of the
    sequences it knows; it drives the paged KV cache.  Sequence objects are
    shared between the scheduler, its groups and the engine: they live in
    [store], keyed by [seq_id], and groups refer to them by id. *)
From S2P Require Import Prelude PyCollections KVCache Sequence Batch.
From Stdlib Require Import QArith.
Import Alloc Table Paged.
Open Scope Z_scope.

(** [predict_prefix_reuse] of the optional context-pilot manager. *)
Definition predictor : Type := string → list Z → Q.

Record Scheduler (V : Type) := mkSched {
  kv : PagedKVCache V;
  max_batch_size : Z;
  max_tokens_per_step : Z;
  waiting : list SequenceGroup;
  running : list SequenceGroup;
  swapped : list SequenceGroup;
  sequence_map : gset Z;                  (** the keys of [_sequence_map] *)
  request_map : gmap string SequenceGroup;
  sched_cp : option predictor;            (** [_cp_kv_manager] *)
  store : gmap Z SequenceData
}.
Arguments mkSched {V}. Arguments kv {V}. Arguments max_batch_size {V}.
Arguments max_tokens_per_step {V}. Arguments waiting {V}. Arguments running {V}.
Arguments swapped {V}. Arguments sequence_map {V}. Arguments request_map {V}.
Arguments sched_cp {V}. Arguments store {V}.

Section scheduler.
Context {V : Type}.
Local Abbreviation Sch := (Scheduler V).
Implicit Types s : Sch.

Definition set_kv_cache (c : PagedKVCache V) s : Sch :=
  mkSched c (max_batch_size s) (max_tokens_per_step s) (waiting s) (running s) (swapped s)
    (sequence_map s) (request_map s) (sched_cp s) (store s).
Definition set_queues (w r x : list SequenceGroup) s : Sch :=
  mkSched (kv s) (max_batch_size s) (max_tokens_per_step s) w r x
    (sequence_map s) (request_map s) (sched_cp s) (store s).
Definition set_maps (sm : gset Z) (rm : gmap string SequenceGroup) s : Sch :=
  mkSched (kv s) (max_batch_size s) (max_tokens_per_step s) (waiting s) (running s) (swapped s)
    sm rm (sched_cp s) (store s).
Definition set_store (h : gmap Z SequenceData) s : Sch :=
  mkSched (kv s) (max_batch_size s) (max_tokens_per_step s) (waiting s) (running s) (swapped s)
    (sequence_map s) (request_map s) (sched_cp s) h.

(** [Scheduler.__init__] *)
Definition sched_init (c : PagedKVCache V) (batch tokens : Z) : res Sch :=
  if batch <=? 0 then Err ValueError
  else if tokens <=? 0 then Err ValueError
  else Ok (mkSched c batch tokens [] [] [] ∅ ∅ None ∅).

(** [Scheduler.set_cp_kv_manager] *)
Definition sched_set_cp (p : predictor) : M Sch unit :=
  modify (λ s, mkSched (kv s) (max_batch_size s) (max_tokens_per_step s) (waiting s) (running s)
                 (swapped s) (sequence_map s) (request_map s) (Some p) (store s)).

(** A call to a method of the cache. *)
Definition on_kv {A} (m : M (PagedKVCache V) A) : M Sch A := zoom kv set_kv_cache m.

(** A call to a method of the sequence object [id]. *)
Definition on_seq {A} (id : Z) (m : M SequenceData A) : M Sch A := λ s,
  match store s !! id with
  | None => (Err KeyError, s)
  | Some d => let '(r, d') := m d in (r, set_store (<[id := d']> (store s)) s)
  end.

(** [sequence.status] of the object [id]. *)
Definition status_of (h : gmap Z SequenceData) (id : Z) : option SequenceStatus :=
  status <$> h !! id.

Definition has_status (h : gmap Z SequenceData) (sts : list SequenceStatus) (id : Z) : bool :=
  match status_of h id with
  | None => false
  | Some st => bool_decide (st ∈ sts)
  end.

Definition active_kv : list SequenceStatus := [PREFILL; DECODE].
Definition terminal_statuses : list SequenceStatus := [FINISHED; CANCELLED].

(** ** Admission of requests *)

(** The body of the loop of [add_request] for one sequence object. *)
Definition register_sequence (sequence : SequenceData) : M Sch unit :=
  s ← get;
  let id := seq_id sequence in
  if bool_decide (id ∈ sequence_map s) then raise ValueError
  else
    match (if bool_decide (status sequence = WAITING) then (Ok tt, sequence)
           else set_status WAITING sequence) with
    | (Err e, _) => raise e
    | (Ok _, sequence') =>
        modify (λ s, set_maps ({[id]} ∪ sequence_map s) (request_map s)
                       (set_store (<[id := sequence']> (store s)) s))
    end.

(** [Scheduler.add_request] of the group [SequenceGroup(rid, sequences)]. *)
Definition add_request (rid : string) (sequences : list SequenceData) : M Sch unit :=
  s ← get;
  if bool_decide (is_Some (request_map s !! rid)) then raise ValueError
  else
    for_each sequences register_sequence ≫= λ _,
    let g := mkGroup rid (seq_id <$> sequences) in
    modify (λ s, set_maps (sequence_map s) (<[rid := g]> (request_map s)) s) ≫= λ _,
    modify (λ s, set_queues (waiting s ++ [g]) (running s) (swapped s) s).

(** ** Preemption and recovery *)

(** The loop of [_preempt_oldest_running_group] over one group's sequences:
    the ids it preempted. *)
Fixpoint preempt_sequences (ids : list Z) : M Sch (list Z) :=
  match ids with
  | [] => mret []
  | id :: ids' =>
      s ← get;
      if negb (has_status (store s) active_kv id) then preempt_sequences ids'
      else
        try_pass (λ e, bool_decide (e = KeyError)) (on_kv (swap_out id)) ≫= λ _,
        on_kv (free_gpu_blocks id) ≫= λ _,
        on_seq id (set_status SWAPPED) ≫= λ _,
        rest ← preempt_sequences ids';
        mret (id :: rest)
  end.

(** [while self._running: ...]; [queue] is the value of [_running]. *)
Fixpoint preempt_loop (queue : list SequenceGroup) : M Sch (list Z) :=
  match queue with
  | [] => mret []
  | group :: queue' =>
      modify (λ s, set_queues (waiting s) queue' (swapped s) s) ≫= λ _,
      preempted_seq_ids ← preempt_sequences (group_seqs group);
      match preempted_seq_ids with
      | [] => preempt_loop queue'
      | _ =>
          modify (λ s, set_queues (waiting s) (running s) (swapped s ++ [group]) s) ≫= λ _,
          mret preempted_seq_ids
      end
  end.

(** [_preempt_oldest_running_group] *)
Definition preempt_oldest_running_group : M Sch (list Z) :=
  s ← get; preempt_loop (running s).

(** [self._swapped.remove(group)]: the first equal element. *)
Fixpoint remove_first (g : SequenceGroup) (l : list SequenceGroup) : list SequenceGroup :=
  match l with
  | [] => []
  | x :: l' => if decide (x = g) then l' else x :: remove_first g l'
  end.

(** The [swap_in] loop of [_recover_swapped_groups]: every exception ends the
    loop with [recovered = False]. *)
Fixpoint swap_in_all (ids : list Z) : M Sch bool :=
  match ids with
  | [] => mret true
  | id :: ids' => λ s,
      match on_kv (swap_in id) s with
      | (Err _, s') => (Ok false, s')
      | (Ok _, s') => swap_in_all ids' s'
      end
  end.

(** The body of the loop of [_recover_swapped_groups]. *)
Definition recover_group (group : SequenceGroup) : M Sch unit :=
  s ← get;
  if negb (bool_decide (group ∈ swapped s)) then mret tt
  else
    match filter (has_status (store s) [SWAPPED]) (group_seqs group) with
    | [] => modify (λ s, set_queues (waiting s) (running s) (remove_first group (swapped s)) s)
    | swapped_sequences =>
        recovered ← swap_in_all swapped_sequences;
        if (recovered : bool) then
          for_each swapped_sequences (λ id, on_seq id (set_status DECODE)) ≫= λ _,
          modify (λ s, set_queues (waiting s) (group :: running s)
                         (remove_first group (swapped s)) s)
        else mret tt
    end.

(** [_recover_swapped_groups] *)
Definition recover_swapped_groups (swapped_groups : list SequenceGroup) : M Sch unit :=
  s ← get;
  if num_free_blocks (block_allocator (kv s)) <=? 0 then mret tt
  else for_each swapped_groups recover_group.

(** ** One scheduling step *)

(** [_required_blocks] *)
Definition required_blocks (block_size : Z) (d : SequenceData) : Z :=
  if prompt_length d =? 0 then 0 else ceil_div (prompt_length d) block_size.

(** [_num_prefill_tokens] (the method; [num_prefill_tokens] is the field of
    [SchedulerOutput]) *)
Definition seq_prefill_tokens (d : SequenceData) : Z :=
  Z.max 0 (prompt_length d - num_computed d).

(** [_group_token_ids] *)
Definition group_token_ids (h : gmap Z SequenceData) (g : SequenceGroup) : list Z :=
  group_seqs g ≫= λ id, match h !! id with Some d => prompt_token_ids d | None => [] end.

(** [sum(f(sequence) for sequence in next_seqs)] *)
Definition sum_seqs (f : SequenceData → Z) (h : gmap Z SequenceData) (ids : list Z) : Z :=
  zsum ((λ id, match h !! id with Some d => f d | None => 0 end) <$> ids).

(** [scored.sort(key=lambda x: x[0], reverse=True)]: a stable sort, larger
    scores first. *)
Fixpoint insert_desc (x : Q * SequenceGroup) (l : list (Q * SequenceGroup))
    : list (Q * SequenceGroup) :=
  match l with
  | [] => [x]
  | y :: l' => if Qle_bool (fst y) (fst x) then x :: l else y :: insert_desc x l'
  end.
Definition sort_desc (l : list (Q * SequenceGroup)) : list (Q * SequenceGroup) :=
  foldr insert_desc [] l.

(** The reordering of the waiting queue by predicted prefix reuse. *)
Definition order_waiting : M Sch unit :=
  modify (λ s,
    match sched_cp s with
    | Some p =>
        if 1 <? zlen (waiting s) then
          let scored := (λ g, (p (request_id g) (group_token_ids (store s) g), g)) <$> waiting s in
          set_queues (sort_desc scored).*2 (running s) (swapped s) s
        else s
    | None => s
    end).

(** Admission of one sequence of a waiting group. *)
Definition admit_sequence (id : Z) : M Sch unit :=
  s ← get;
  match store s !! id with
  | None => raise KeyError
  | Some d =>
      on_kv (allocate_sequence id (prompt_length d)) ≫= λ _,
      on_seq id (set_status PREFILL)
  end.

(** The locals of [schedule]: [output], [scheduled_seqs], [scheduled_tokens]. *)
Definition progress : Type := SchedulerOutput * Z * Z.

Definition add_preempted (ids : list Z) (o : SchedulerOutput) : SchedulerOutput :=
  mkSO (prefill_seq_ids o) (decode_seq_ids o) (preempted_seq_ids o ++ ids)
    (num_prefill_tokens o) (num_decode_tokens o).
Definition add_prefill (ids : list Z) (toks : Z) (o : SchedulerOutput) : SchedulerOutput :=
  mkSO (prefill_seq_ids o ++ ids) (decode_seq_ids o) (preempted_seq_ids o)
    (num_prefill_tokens o + toks) (num_decode_tokens o).
Definition add_decode (id : Z) (o : SchedulerOutput) : SchedulerOutput :=
  mkSO (prefill_seq_ids o) (decode_seq_ids o ++ [id]) (preempted_seq_ids o)
    (num_prefill_tokens o) (num_decode_tokens o + 1).

(** The test for [required] free blocks with the preemption it triggers:
    whether the group fits now, and the ids that were preempted for it. *)
Definition make_room (required : Z) : M Sch (bool * list Z) :=
  s ← get;
  if num_free_blocks (block_allocator (kv s)) <? required then
    ids ← preempt_oldest_running_group;
    match ids with
    | [] => mret (false, [])
    | _ =>
        s' ← get;
        mret (negb (num_free_blocks (block_allocator (kv s')) <? required), ids)
    end
  else mret (true, []).

(** The [while self._waiting and not waiting_blocked] loop; [queue] is the
    value of [_waiting], which the loop only pops from. *)
Fixpoint waiting_loop (queue : list SequenceGroup) (p : progress) : M Sch progress :=
  match queue with
  | [] => mret p
  | next_group :: queue' =>
      s ← get;
      let '(output, scheduled_seqs, scheduled_tokens) := p in
      let popleft := modify (λ s, set_queues queue' (running s) (swapped s) s) in
      match filter (has_status (store s) [WAITING]) (group_seqs next_group) with
      | [] => popleft ≫= λ _, waiting_loop queue' p
      | next_seqs =>
          let prefill_tokens := sum_seqs seq_prefill_tokens (store s) next_seqs in
          if max_batch_size s <? scheduled_seqs + zlen next_seqs then mret p
          else if max_tokens_per_step s <? scheduled_tokens + prefill_tokens then mret p
          else
            let required := sum_seqs (required_blocks (block_size (kv s))) (store s) next_seqs in
            room ← make_room required;
            let '(fits, preempted) := (room : bool * list Z) in
            let output := add_preempted preempted output in
            if negb fits then mret (output, scheduled_seqs, scheduled_tokens)
            else
              popleft ≫= λ _,
              modify (λ s, set_queues (waiting s) (running s ++ [next_group]) (swapped s) s) ≫= λ _,
              for_each next_seqs admit_sequence ≫= λ _,
              waiting_loop queue'
                (add_prefill next_seqs prefill_tokens output,
                 scheduled_seqs + zlen next_seqs, scheduled_tokens + prefill_tokens)
      end
  end.

(** The two nested loops over the running groups' sequences; both [return]
    statements leave with the output so far. *)
Fixpoint decode_loop (h : gmap Z SequenceData) (batch tokens : Z) (ids : list Z) (p : progress)
    : SchedulerOutput :=
  match ids with
  | [] => p.1.1
  | id :: ids' =>
      let '(output, scheduled_seqs, scheduled_tokens) := p in
      if negb (has_status h [DECODE] id) then decode_loop h batch tokens ids' p
      else if batch <=? scheduled_seqs then output
      else if tokens <=? scheduled_tokens then output
      else decode_loop h batch tokens ids'
             (add_decode id output, scheduled_seqs + 1, scheduled_tokens + 1)
  end.

(** [Scheduler.schedule] *)
Definition schedule : M Sch SchedulerOutput :=
  s ← get;
  recover_swapped_groups (swapped s) ≫= λ _,
  order_waiting ≫= λ _,
  s ← get;
  p ← waiting_loop (waiting s) (empty_output, 0, 0);
  s ← get;
  mret (decode_loop (store s) (max_batch_size s) (max_tokens_per_step s)
          (running s ≫= group_seqs) p).

(** ** After a step *)

(** [_drop_request_metadata] *)
Definition drop_request_metadata (g : SequenceGroup) : M Sch unit :=
  modify (λ s, set_maps (sequence_map s ∖ list_to_set (group_seqs g))
                 (delete (request_id g) (request_map s)) s).

Definition group_active (h : gmap Z SequenceData) (g : SequenceGroup) : bool :=
  existsb (λ id, negb (has_status h terminal_statuses id)) (group_seqs g).

Definition in_requests (rm : gmap string SequenceGroup) (g : SequenceGroup) : bool :=
  bool_decide (is_Some (rm !! request_id g)).

(** [_prune_finished_and_cancelled_requests] *)
Definition prune_finished_and_cancelled_requests : M Sch unit :=
  s ← get;
  let groups := (map_to_list (request_map s)).*2 in
  let active_requests : gmap string SequenceGroup :=
    list_to_map ((λ g, (request_id g, g)) <$> filter (group_active (store s)) groups) in
  for_each (filter (λ g, negb (group_active (store s) g)) groups) drop_request_metadata ≫= λ _,
  modify (λ s, set_maps (sequence_map s) active_requests s) ≫= λ _,
  modify (λ s, set_queues (filter (in_requests (request_map s)) (waiting s))
                 (filter (in_requests (request_map s)) (running s))
                 (filter (in_requests (request_map s)) (swapped s)) s).

(** [dict.fromkeys(l)]: first occurrences, in order. *)
Fixpoint fromkeys (l : list Z) : list Z :=
  match l with
  | [] => []
  | x :: l' => x :: filter (λ y, y ≠ x) (fromkeys l')
  end.

(** The body of the first loop of [update_after_step]. *)
Definition advance_decode (completed : list Z) (id : Z) : M Sch unit :=
  s ← get;
  if bool_decide (id ∉ sequence_map s) || bool_decide (id ∈ completed) then mret tt
  else
    when (has_status (store s) [PREFILL] id) (on_seq id (set_status DECODE)) ≫= λ _,
    s ← get;
    when (has_status (store s) [DECODE] id)
      (try_pass (λ e, bool_decide (e = KeyError)) (on_kv (append_tokens id 1))).

(** The body of the second loop. *)
Definition complete_sequence (id : Z) : M Sch unit :=
  s ← get;
  if bool_decide (id ∉ sequence_map s) then mret tt
  else
    when (has_status (store s) [WAITING; PREFILL; DECODE; SWAPPED] id)
      (on_seq id (set_status FINISHED)) ≫= λ _,
    on_kv (free_sequence id).

(** [Scheduler.update_after_step]; [order] is the order in which the set of
    [completed_seq_ids] is iterated. *)
Definition update_after_step (order completed_seq_ids new_decode_seq_ids : list Z) : M Sch unit :=
  for_each (fromkeys new_decode_seq_ids) (advance_decode completed_seq_ids) ≫= λ _,
  for_each order complete_sequence ≫= λ _,
  prune_finished_and_cancelled_requests.

(** The body of the loop of [abort_request]. *)
Definition cancel_sequence (id : Z) : M Sch unit :=
  s ← get;
  when (negb (has_status (store s) terminal_statuses id)) (on_seq id (set_status CANCELLED)) ≫= λ _,
  on_kv (free_sequence id).

(** [Scheduler.abort_request] *)
Definition abort_request (rid : string) : M Sch unit :=
  s ← get;
  match request_map s !! rid with
  | None => mret tt
  | Some group =>
      for_each (group_seqs group) cancel_sequence ≫= λ _,
      let other (g : SequenceGroup) := negb (bool_decide (request_id g = rid)) in
      modify (λ s, set_queues (filter other (waiting s)) (filter other (running s))
                     (filter other (swapped s)) s) ≫= λ _,
      drop_request_metadata group ≫= λ _,
      prune_finished_and_cancelled_requests
  end.

(** [has_work], [num_waiting] and [get_running_seq_ids] *)
Definition has_work s : bool :=
  match waiting s, running s with [], [] => false | _, _ => true end.
Definition num_waiting s : Z := zlen (waiting s).
Definition get_running_seq_ids s : list Z :=
  filter (has_status (store s) active_kv) (running s ≫= group_seqs).
End scheduler.
