(* ===== verification/ServingSchedulerProps.v ===== *)
(** * Properties of the serving scheduler: its invariant *)
From S2P Require Import Prelude PyCollections KVCache KVCacheProps KVCacheSwap.
From S2P Require Import Sequence Batch BatchProps ServingScheduler.
Import Alloc Table Paged.

(** ** What cache calls do to the set of sequences that have a table *)
Section kv_dom.
Context {V : Type}.
Implicit Types c : PagedKVCache V.

Definition tabled c : gset Z := dom (sequence_tables c).

(** A cache call that keeps all blocks accounted for and the block size. *)
Definition kv_keeps c c' : Prop := kv_exact c c' ∧ tabled c' = tabled c.

Lemma kv_keeps_refl c : kv_conserved c → kv_keeps c c.
Proof. intros [Hs _]. split; [by apply kv_exact_refl|done]. Qed.

Lemma kv_keeps_trans c1 c2 c3 : kv_keeps c1 c2 → kv_keeps c2 c3 → kv_keeps c1 c3.
Proof. intros [H1 E1] [H2 E2]. split; [by eapply kv_exact_trans|congruence]. Qed.

Lemma kv_keeps_conserved c c' : kv_keeps c c' → kv_conserved c → kv_conserved c'.
Proof. intros [H _]. by apply kv_exact_conserved. Qed.

Lemma kv_keeps_bs c c' : kv_keeps c c' → block_size c' = block_size c.
Proof. intros [[Hs _] _]. apply (step_bs _ _ Hs). Qed.

Lemma swap_out_keeps id c : kv_conserved c →
  kv_keeps c (swap_out id c).2 ∧
  ((swap_out id c).1 = Ok tt ∨ (swap_out id c).1 = Err KeyError).
Proof.
  intros [Hs _]. destruct (swap_out_bookkeeping id c Hs) as (b & n & o & E & Hr).
  split; [|done]. split; [by apply swap_out_exact|]. by rewrite E.
Qed.

Lemma free_gpu_blocks_keeps id c : kv_conserved c →
  kv_keeps c (free_gpu_blocks id c).2 ∧ (free_gpu_blocks id c).1 = Ok tt.
Proof.
  intros [Hs _]. destruct (free_gpu_blocks_spec id c Hs) as (Hr & He & Ht & _).
  split; [|done]. split; [done|]. unfold tabled. rewrite Ht. apply dom_alter_L.
Qed.

Lemma swap_in_keeps id c : kv_conserved c → kv_keeps c (swap_in id c).2.
Proof.
  intros [Hs _]. split; [by apply swap_in_exact|]. unfold tabled.
  destruct (sequence_tables c !! id) as [t|] eqn:Ht; [|by rewrite swap_in_missing].
  assert (id ∈ dom (sequence_tables c)) as Hd by (by apply elem_of_dom_2 in Ht).
  unfold swap_in, swap_in_copy, require_sequence. munfold. rewrite Ht.
  repeat (case_match; simplify_eq/=; try done); rewrite dom_insert_L; set_solver.
Qed.

Lemma append_tokens_missing id c :
  sequence_tables c !! id = None → append_tokens id 1 c = (Err KeyError, c).
Proof. intros Ht. unfold append_tokens, require_sequence. munfold. simpl. by rewrite Ht. Qed.

Lemma append_tokens_present id c t :
  sequence_tables c !! id = Some t →
  append_tokens id 1 c =
    let '(r, (a, t')) := append_token (block_allocator c, t) in
    (r, set_tables (<[id := t']> (sequence_tables c)) (set_alloc a c)).
Proof.
  intros Ht. unfold append_tokens, require_sequence. munfold. simpl. rewrite Ht. unfold on_table.
  change (repeat_m (Pos.to_nat 1) append_token)
    with (append_token ≫= λ _, mret tt : T unit).
  unfold mbind, M_bind. by destruct (append_token _) as [[[]|e] [a t']].
Qed.

Lemma append_tokens_keeps id c : kv_conserved c →
  kv_keeps c (append_tokens id 1 c).2 ∧
  (append_tokens id 1 c).1 ∈ [Ok tt; Err KeyError; Err RuntimeError].
Proof.
  intros [Hs _]. pose proof (append_tokens_exact id 1 c Hs) as He.
  destruct (sequence_tables c !! id) as [t|] eqn:Ht.
  2: { rewrite append_tokens_missing by done. split; [split; [by apply kv_exact_refl|done]|set_solver]. }
  split; [split; [done|]|].
  - rewrite (append_tokens_present id c t) by done. destruct (append_token _) as [r [a t']].
    unfold tabled. simpl. rewrite dom_insert_L. apply elem_of_dom_2 in Ht. set_solver.
  - rewrite (append_tokens_present id c t) by done.
    destruct (Z.eqb_spec (bt_num_tokens t mod ba_block_size (block_allocator c)) 0) as [E|E].
    + destruct (ba_free_heap (block_allocator c)) as [|b h] eqn:Hh.
      * rewrite append_token_exhausted by done. set_solver.
      * rewrite (append_token_boundary _ t b h) by (done || apply Hs). set_solver.
    + rewrite append_token_inside by done. set_solver.
Qed.

Lemma free_sequence_keeps id c : kv_conserved c →
  kv_exact c (free_sequence id c).2 ∧ (free_sequence id c).1 = Ok tt ∧
  tabled (free_sequence id c).2 = tabled c ∖ {[id]}.
Proof.
  intros [Hs _]. destruct (free_sequence_spec id c Hs) as (Hr & He & Ht & _).
  split_and!; [done|done|]. unfold tabled. rewrite Ht. apply dom_delete_L.
Qed.
End kv_dom.

(** ** The invariant *)
Section invariant.
Context {V : Type}.
Implicit Types s : Scheduler V.
Implicit Types g : SequenceGroup.

Definition queues s : list SequenceGroup := waiting s ++ running s ++ swapped s.

(** [g] is a registered request. *)
Definition member s g : Prop := request_map s !! request_id g = Some g.

(** The queue a group is in while one of its sequences has status [st]. *)
Definition placed s g (st : SequenceStatus) : Prop :=
  match st with
  | WAITING => g ∈ waiting s
  | PREFILL | DECODE => g ∈ running s
  | SWAPPED => g ∈ swapped s
  | FINISHED | CANCELLED => True
  end.

(** The statuses in which a sequence has a block table. *)
Definition holds_table (st : SequenceStatus) : bool :=
  match st with PREFILL | DECODE | SWAPPED => true | _ => false end.

Record sched_inv s : Prop := {
  inv_kv : kv_conserved (kv s);
  inv_req : ∀ r g, request_map s !! r = Some g → request_id g = r ∧ NoDup (group_seqs g);
  inv_disj : ∀ g1 g2 id, member s g1 → member s g2 →
    id ∈ group_seqs g1 → id ∈ group_seqs g2 → g1 = g2;
  inv_seqs : ∀ g id, member s g → id ∈ group_seqs g → id ∈ sequence_map s ∧ is_Some (store s !! id);
  inv_nodup : NoDup (queues s);
  inv_queued : ∀ g, g ∈ queues s → member s g;
  inv_place : ∀ g id st, member s g → id ∈ group_seqs g →
    status_of (store s) id = Some st → placed s g st;
  inv_tables : ∀ id, id ∈ tabled (kv s) ↔
    ∃ g st, member s g ∧ id ∈ group_seqs g ∧ status_of (store s) id = Some st ∧ holds_table st = true
}.

Lemma status_of_Some (h : gmap Z SequenceData) id :
  is_Some (h !! id) ↔ is_Some (status_of h id).
Proof. unfold status_of. by rewrite fmap_is_Some. Qed.

Lemma has_status_iff (h : gmap Z SequenceData) sts id :
  has_status h sts id = true ↔ ∃ st, status_of h id = Some st ∧ st ∈ sts.
Proof.
  unfold has_status. destruct (status_of h id) as [st|]; [|naive_solver].
  rewrite bool_decide_eq_true. naive_solver.
Qed.

Lemma tabled_member s g id st :
  sched_inv s → member s g → id ∈ group_seqs g → status_of (store s) id = Some st →
  id ∈ tabled (kv s) ↔ holds_table st = true.
Proof.
  intros Hi Hm Hid Hst. rewrite (inv_tables s Hi). split; [|by eauto 6].
  intros (g' & st' & _ & _ & Hst' & Hh). congruence.
Qed.

(** The general form of a change to one group: its queue, the statuses of its
    sequences and their tables. *)
Lemma inv_change s s' g :
  sched_inv s → member s g →
  request_map s' = request_map s → sequence_map s' = sequence_map s →
  kv_conserved (kv s') → NoDup (queues s') →
  (∀ g', g' ∈ queues s' → g' ∈ queues s ∨ g' = g) →
  (∀ g' st, g' ≠ g → placed s g' st → placed s' g' st) →
  (∀ id, id ∉ group_seqs g → status_of (store s') id = status_of (store s) id ∧
     (id ∈ tabled (kv s') ↔ id ∈ tabled (kv s))) →
  (∀ id, id ∈ group_seqs g → ∃ st, status_of (store s') id = Some st ∧ placed s' g st ∧
     (id ∈ tabled (kv s') ↔ holds_table st = true)) →
  sched_inv s'.
Proof.
  intros Hi Hg Hrm Hsm Hkv Hnd Hq Hp Ho Hin. pose proof Hi as [_ I2 I3 I4 I5 I6 I7 I8].
  assert (∀ g', member s' g' ↔ member s g') as Hmem by (intros; unfold member; by rewrite Hrm).
  constructor; try done.
  - by rewrite Hrm.
  - intros g1 g2 id. rewrite !Hmem. apply I3.
  - intros g' id. rewrite Hmem, Hsm, status_of_Some. intros Hm Hid.
    destruct (I4 g' id Hm Hid) as [Hs1 Hs2]. split; [done|].
    destruct (decide (id ∈ group_seqs g)) as [Hd|Hd].
    + destruct (Hin id Hd) as (st & -> & _). eauto.
    + destruct (Ho id Hd) as [-> _]. by apply status_of_Some.
  - intros g' Hg'. apply Hmem. destruct (Hq g' Hg') as [?| ->]; auto.
  - intros g' id st. rewrite Hmem. intros Hm Hid Hst.
    destruct (decide (id ∈ group_seqs g)) as [Hd|Hd].
    + assert (g' = g) as -> by eauto. destruct (Hin id Hd) as (st' & Hst' & Hpl & _). congruence.
    + apply Hp; [by intros ->|]. apply (I7 g' id st Hm Hid). destruct (Ho id Hd). congruence.
  - intros id. destruct (decide (id ∈ group_seqs g)) as [Hd|Hd].
    + destruct (Hin id Hd) as (st & Hst & _ & ->). split.
      * intros Hh. exists g, st. by rewrite Hmem.
      * intros (g' & st' & _ & _ & Hst' & Hh). congruence.
    + destruct (Ho id Hd) as [Hst ->]. rewrite I8.
      by setoid_rewrite Hmem; setoid_rewrite Hst.
Qed.

(** A change to one sequence, with the queues kept. *)
Lemma inv_change1 s s' id :
  sched_inv s →
  request_map s' = request_map s → sequence_map s' = sequence_map s →
  waiting s' = waiting s → running s' = running s → swapped s' = swapped s →
  kv_conserved (kv s') →
  (∀ id', id' ≠ id → status_of (store s') id' = status_of (store s) id' ∧
     (id' ∈ tabled (kv s') ↔ id' ∈ tabled (kv s))) →
  (∀ st, status_of (store s) id = Some st → ∃ st', status_of (store s') id = Some st' ∧
     ((∃ g, member s g ∧ id ∈ group_seqs g) →
      (∀ g, placed s g st → placed s g st') ∧
      (id ∈ tabled (kv s') ↔ holds_table st' = true))) →
  (id ∈ tabled (kv s') → id ∈ tabled (kv s)) →
  sched_inv s'.
Proof.
  intros Hi Hrm Hsm Hw Hr Hx Hkv Ho Hin Ht. pose proof Hi as [_ I2 I3 I4 I5 I6 I7 I8].
  assert (∀ g', member s' g' ↔ member s g') as Hmem by (intros; unfold member; by rewrite Hrm).
  assert (∀ g' st, placed s' g' st ↔ placed s g' st) as Hpl
    by (intros g' []; simpl; by rewrite ?Hw, ?Hr, ?Hx).
  constructor; try done.
  - by rewrite Hrm.
  - intros g1 g2 i. rewrite !Hmem. apply I3.
  - intros g i. rewrite Hmem, Hsm, status_of_Some. intros Hm Hid.
    destruct (I4 g i Hm Hid) as [Hs1 Hs2]. split; [done|]. apply status_of_Some in Hs2 as [st Hst].
    destruct (decide (i = id)) as [->|Hne].
    + destruct (Hin st Hst) as (st' & -> & _). eauto.
    + destruct (Ho i Hne) as [-> _]. eauto.
  - unfold queues. by rewrite Hw, Hr, Hx.
  - intros g Hg. apply Hmem, I6. revert Hg. unfold queues. by rewrite Hw, Hr, Hx.
  - intros g i st. rewrite Hmem, Hpl. intros Hm Hid Hst.
    destruct (decide (i = id)) as [->|Hne].
    + destruct (I4 g id Hm Hid) as [_ Hs2]. apply status_of_Some in Hs2 as [st0 Hst0].
      destruct (Hin st0 Hst0) as (st' & Hst' & Hf). destruct Hf as [Hf _]; [eauto|].
      assert (st' = st) as -> by congruence. eauto.
    + destruct (Ho i Hne) as [Hs _]. apply (I7 g i st Hm Hid). congruence.
  - intros i. destruct (decide (i = id)) as [->|Hne].
    + setoid_rewrite Hmem. split.
      * intros Hd. destruct (proj1 (I8 id) (Ht Hd)) as (g & st & Hm & Hid & Hst & _).
        destruct (Hin st Hst) as (st' & Hst' & Hf). destruct Hf as [_ Hf]; [eauto|].
        exists g, st'. by rewrite <- Hf.
      * intros (g & st' & Hm & Hid & Hst' & Hh). destruct (I4 g id Hm Hid) as [_ Hs2].
        apply status_of_Some in Hs2 as [st Hst]. destruct (Hin st Hst) as (st2 & Hst2 & Hf).
        destruct Hf as [_ Hf]; [eauto|]. apply Hf. congruence.
    + destruct (Ho i Hne) as [Hst ->]. rewrite I8.
      by setoid_rewrite Hmem; setoid_rewrite Hst.
Qed.
End invariant.
