(* ===== verification/ServingSchedulerStep.v ===== *)
(** * Properties of the serving scheduler: its operations *)
From S2P Require Import Prelude PyCollections KVCache KVCacheProps KVCacheSwap.
From S2P Require Import Sequence Batch BatchProps ServingScheduler ServingSchedulerProps.
Import Alloc Table Paged.

Lemma list_filter_iff' {A} (p q : A → bool) (l : list A) :
  (∀ x, x ∈ l → p x = q x) → filter p l = filter q l.
Proof.
  induction l as [|x l IH]; intros He; [done|]. rewrite !filter_cons.
  rewrite IH by (intros y Hy; apply He; set_solver).
  specialize (He x ltac:(set_solver)). destruct (p x), (q x); done.
Qed.

Section effects.
Context {V : Type}.
Implicit Types s : Scheduler V.
Implicit Types h : gmap Z SequenceData.

(** [h'] is [h] with the status of the sequences [ids] set to [st]. *)
Definition restatus (st : SequenceStatus) (ids : list Z) h h' : Prop :=
  ∀ id, h' !! id = if decide (id ∈ ids) then with_status st <$> h !! id else h !! id.

Lemma restatus_nil st h : restatus st [] h h.
Proof. intros id. by rewrite decide_False by set_solver. Qed.

Lemma with_status_twice st st' d : with_status st (with_status st' d) = with_status st d.
Proof. done. Qed.

Lemma restatus_cons st id ids h h' d :
  h !! id = Some d → restatus st ids (<[id := with_status st d]> h) h' →
  restatus st (id :: ids) h h'.
Proof.
  intros Hd Hr i. rewrite Hr. destruct (decide (i = id)) as [->|Hne].
  - rewrite lookup_insert_eq, (decide_True (P := id ∈ id :: ids)), Hd by set_solver.
    by case_decide.
  - rewrite lookup_insert_ne by done.
    destruct (decide (i ∈ ids)); [rewrite decide_True by set_solver|rewrite decide_False by set_solver];
      done.
Qed.

Lemma restatus_status st ids h h' id :
  restatus st ids h h' →
  status_of h' id = if decide (id ∈ ids) then (λ _, st) <$> h !! id else status_of h id.
Proof.
  intros Hr. unfold status_of. rewrite Hr. case_decide; [|done]. by destruct (h !! id).
Qed.

Lemma status_of_restatus h h' st ids id :
  restatus st ids h h' → id ∈ ids → is_Some (h !! id) → status_of h' id = Some st.
Proof.
  intros Hr Hid [d Hd]. rewrite (restatus_status _ _ _ _ _ Hr), decide_True, Hd by done. done.
Qed.

Lemma status_of_restatus_ne h h' st ids id :
  restatus st ids h h' → id ∉ ids → status_of h' id = status_of h id.
Proof. intros Hr Hid. by rewrite (restatus_status _ _ _ _ _ Hr), decide_False. Qed.

Lemma on_seq_status id st d s :
  store s !! id = Some d → (status d = st ∨ st ∈ allowed_transitions (status d)) →
  on_seq id (set_status st) s = (Ok tt, set_store (<[id := with_status st d]> (store s)) s).
Proof. intros Hd Hst. unfold on_seq. by rewrite Hd, set_status_ok. Qed.

(** ** Admission of a group *)
Lemma required_blocks_eq bs d : 0 < bs → required_blocks bs d = ceil_div (prompt_length d) bs.
Proof.
  intros Hbs. unfold required_blocks. destruct (Z.eqb_spec (prompt_length d) 0) as [->|]; [|done].
  by rewrite ceil_div_0.
Qed.

Lemma ceil_div_nonneg n bs : 0 < bs → 0 ≤ n → 0 ≤ ceil_div n bs.
Proof. intros Hbs Hn. rewrite <- (ceil_div_0 bs). by apply ceil_div_mono. Qed.

Lemma kv_bs_pos (c : PagedKVCache V) : kv_conserved c → 0 < block_size c.
Proof. intros [Hs _]. apply (safe_wf _ Hs). Qed.

Lemma sum_seqs_cons f h id ids d :
  h !! id = Some d → sum_seqs f h (id :: ids) = f d + sum_seqs f h ids.
Proof. intros Hd. unfold sum_seqs. simpl. by rewrite Hd. Qed.

Lemma zsum_cons x l : zsum (x :: l) = x + zsum l.
Proof. done. Qed.

Lemma sum_seqs_nonneg f h ids : (∀ d, 0 ≤ f d) → 0 ≤ sum_seqs f h ids.
Proof.
  intros Hf. unfold sum_seqs. induction ids as [|id ids IH]; [done|].
  rewrite fmap_cons, zsum_cons.
  destruct (h !! id) as [d|]; [specialize (Hf d)|]; lia.
Qed.

Lemma sum_seqs_ext f h h' ids :
  (∀ id, id ∈ ids → f <$> h !! id = f <$> h' !! id) → sum_seqs f h ids = sum_seqs f h' ids.
Proof.
  unfold sum_seqs. intros He. f_equal. apply list_fmap_ext. intros i id Hid.
  apply list_elem_of_lookup_2 in Hid. specialize (He id Hid).
  destruct (h !! id), (h' !! id); simplify_eq/=; done.
Qed.

Lemma kv_allocated_view (c : PagedKVCache V) id n :
  kv_conserved c → sequence_tables c !! id = None → 0 ≤ n →
  ceil_div n (block_size c) ≤ num_free_blocks (block_allocator c) →
  tabled (kv_allocated id n c) = {[id]} ∪ tabled c ∧
  num_free_blocks (block_allocator (kv_allocated id n c)) =
    num_free_blocks (block_allocator c) - ceil_div n (block_size c).
Proof.
  intros Hc Ht Hn Hfree. pose proof (kv_bs_pos c Hc).
  unfold kv_allocated, notify, tabled, num_free_blocks in *. simpl. split; [apply dom_insert_L|].
  rewrite length_drop. assert (0 ≤ ceil_div n (block_size c)) by (by apply ceil_div_nonneg). lia.
Qed.

Lemma admit_all ids s :
  NoDup ids → kv_conserved (kv s) →
  (∀ id, id ∈ ids → status_of (store s) id = Some WAITING ∧ id ∉ tabled (kv s)) →
  sum_seqs (required_blocks (block_size (kv s))) (store s) ids
    ≤ num_free_blocks (block_allocator (kv s)) →
  ∃ c' h', for_each ids admit_sequence s = (Ok tt, set_kv_cache c' (set_store h' s)) ∧
    kv_exact (kv s) c' ∧ tabled c' = list_to_set ids ∪ tabled (kv s) ∧
    restatus PREFILL ids (store s) h'.
Proof.
  intros Hnd. revert s. induction Hnd as [|id ids Hni Hnd IH]; intros s Hc Hst Hsum.
  { exists (kv s), (store s). simpl. rewrite union_empty_l_L.
    split_and!; [by destruct s|apply kv_exact_refl, Hc|done|apply restatus_nil]. }
  destruct (Hst id) as [Hw Ht]; [set_solver|]. unfold status_of in Hw.
  destruct (store s !! id) as [d|] eqn:Hd; [|done]. injection Hw as Hw.
  pose proof (kv_bs_pos _ Hc) as Hbs. rewrite (sum_seqs_cons _ _ _ _ d Hd) in Hsum.
  rewrite required_blocks_eq in Hsum by done.
  assert (0 ≤ sum_seqs (required_blocks (block_size (kv s))) (store s) ids) as Hge.
  { apply sum_seqs_nonneg. intros d'. rewrite required_blocks_eq by done. apply ceil_div_nonneg; [done|apply zlen_nonneg]. }
  assert (sequence_tables (kv s) !! id = None) as Hnone by (by apply not_elem_of_dom).
  assert (0 ≤ prompt_length d) as Hpl by apply zlen_nonneg.
  destruct (kv_allocated_view (kv s) id (prompt_length d)) as [Htab Hfree]; [done..|lia|].
  pose proof (kv_allocated_exact id (prompt_length d) (kv s) (proj1 Hc) Hnone) as Hex.
  set (c1 := kv_allocated id (prompt_length d) (kv s)) in *.
  set (s1 := set_store (<[id := with_status PREFILL d]> (store s)) (set_kv_cache c1 s)).
  assert (admit_sequence id s = (Ok tt, s1)) as Hone.
  { unfold admit_sequence, on_kv. munfold. rewrite Hd, allocate_sequence_ok by (done || apply Hc || lia).
    fold c1. simpl. rewrite (on_seq_status id PREFILL d); [done|done|].
    rewrite Hw. right. set_solver. }
  assert (block_size c1 = block_size (kv s)) as Hb by apply (step_bs _ _ (proj1 Hex)).
  destruct (IH s1) as (c' & h' & Hf & Hex' & Htab' & Hr).
  - by eapply kv_exact_conserved.
  - intros i Hi. destruct (Hst i) as [Hw' Ht']; [set_solver|]. unfold s1. simpl.
    unfold status_of. rewrite lookup_insert_ne by (intros ->; done). split; [done|]. set_solver.
  - unfold s1. cbn [kv store set_store set_kv_cache]. rewrite Hb, Hfree. erewrite (sum_seqs_ext _ _ (store s)); [lia|].
    intros i Hi. by rewrite lookup_insert_ne by (intros ->; done).
  - exists c', h'. simpl. munfold. rewrite Hone, Hf. split_and!.
    + done.
    + by eapply kv_exact_trans.
    + rewrite Htab'. unfold s1. simpl. rewrite Htab. set_solver.
    + by eapply restatus_cons.
Qed.

(** ** Preemption of a group *)
Lemma try_swap_out id s : kv_conserved (kv s) →
  ∃ c', try_pass (λ e, bool_decide (e = KeyError)) (on_kv (swap_out id)) s =
    (Ok tt, set_kv_cache c' s) ∧ kv_keeps (kv s) c'.
Proof.
  intros Hc. destruct (swap_out_keeps id (kv s) Hc) as [Hk Hr].
  exists (swap_out id (kv s)).2. split; [|done]. unfold try_pass, on_kv, zoom.
  destruct (swap_out id (kv s)) as [[[]|e] c']; simpl in *; [done|].
  destruct Hr as [?|[= ->]]; done.
Qed.

Lemma active_swappable st : st ∈ active_kv → SWAPPED ∈ allowed_transitions st.
Proof. unfold active_kv. destruct st; set_solver. Qed.

Lemma preempt_all ids s :
  NoDup ids → kv_conserved (kv s) →
  ∃ c' h', preempt_sequences ids s =
      (Ok (filter (has_status (store s) active_kv) ids), set_kv_cache c' (set_store h' s)) ∧
    kv_keeps (kv s) c' ∧
    restatus SWAPPED (filter (has_status (store s) active_kv) ids) (store s) h'.
Proof.
  intros Hnd. revert s. induction Hnd as [|id ids Hni Hnd IH]; intros s Hc.
  { exists (kv s), (store s). simpl.
    split_and!; [by destruct s|by apply kv_keeps_refl|apply restatus_nil]. }
  cbn [preempt_sequences]. munfold. rewrite filter_cons.
  destruct (has_status (store s) active_kv id) eqn:Hact; cbn [negb].
  2: { rewrite decide_False by (by intros []). apply (IH s Hc). }
  rewrite decide_True by exact I.
  apply has_status_iff in Hact as (st & Hst & Hin). unfold status_of in Hst.
  destruct (store s !! id) as [d|] eqn:Hd; [|done]. injection Hst as Hst.
  destruct (try_swap_out id s Hc) as (c1 & -> & Hk1).
  pose proof (kv_keeps_conserved _ _ Hk1 Hc) as Hc1.
  destruct (free_gpu_blocks_keeps id c1 Hc1) as [Hk2 Hok].
  unfold on_kv, zoom. simpl. destruct (free_gpu_blocks id c1) as [r c2]. simpl in *. subst r.
  rewrite (on_seq_status id SWAPPED d); [|done|right; rewrite Hst; by apply active_swappable].
  cbn [kv store set_store set_kv_cache].
  set (s1 := set_store _ _).
  assert (filter (has_status (store s1) active_kv) ids = filter (has_status (store s) active_kv) ids)
    as Hf.
  { apply list_filter_iff'. intros i Hi. assert (id ≠ i) by (intros ?; by subst i).
    unfold has_status, status_of, s1. simpl. by rewrite lookup_insert_ne. }
  destruct (IH s1) as (c' & h' & Hp & Hk & Hr).
  { exact (kv_keeps_conserved _ _ Hk2 Hc1). }
  rewrite Hp. exists c', h'. rewrite Hf in *. split_and!; [done| |].
  - exact (kv_keeps_trans _ _ _ Hk1 (kv_keeps_trans _ _ _ Hk2 Hk)).
  - by eapply restatus_cons.
Qed.

(** ** Recovery of a group *)
Lemma swap_in_all_keeps ids s : kv_conserved (kv s) →
  ∃ b c', swap_in_all ids s = (Ok b, set_kv_cache c' s) ∧ kv_keeps (kv s) c'.
Proof.
  revert s. induction ids as [|id ids IH]; intros s Hc; simpl.
  { exists true, (kv s). split; [by destruct s|by apply kv_keeps_refl]. }
  pose proof (swap_in_keeps id (kv s) Hc) as Hk. unfold on_kv, zoom.
  destruct (swap_in id (kv s)) as [[[]|e] c1]; simpl in Hk; [|by eauto].
  destruct (IH (set_kv_cache c1 s)) as (b & c' & -> & Hk'); [by eapply kv_keeps_conserved|].
  exists b, c'. split; [done|]. by eapply kv_keeps_trans.
Qed.

Lemma set_all_status st ids s :
  NoDup ids →
  (∀ id, id ∈ ids → ∃ d, store s !! id = Some d ∧ st ∈ allowed_transitions (status d)) →
  ∃ h', for_each ids (λ id, on_seq id (set_status st)) s = (Ok tt, set_store h' s) ∧
    restatus st ids (store s) h'.
Proof.
  intros Hnd. revert s. induction Hnd as [|id ids Hni Hnd IH]; intros s Hall.
  { exists (store s). split; [by destruct s|apply restatus_nil]. }
  destruct (Hall id) as (d & Hd & Hst); [set_solver|]. simpl. munfold.
  rewrite (on_seq_status id st d) by auto.
  destruct (IH (set_store (<[id := with_status st d]> (store s)) s)) as (h' & -> & Hr).
  { intros i Hi. simpl. rewrite lookup_insert_ne by (intros ->; done). apply Hall. set_solver. }
  exists h'. split; [done|]. by eapply restatus_cons.
Qed.
End effects.

Section preservation.
Context {V : Type}.
Implicit Types s : Scheduler V.
Implicit Types g : SequenceGroup.

(** What a call of the scheduler leaves alone. *)
Record same_setup s s' : Prop := {
  setup_batch : max_batch_size s' = max_batch_size s;
  setup_tokens : max_tokens_per_step s' = max_tokens_per_step s;
  setup_rm : request_map s' = request_map s;
  setup_sm : sequence_map s' = sequence_map s;
  setup_bs : block_size (kv s') = block_size (kv s)
}.

Lemma same_setup_refl s : same_setup s s.
Proof. by constructor. Qed.

Lemma same_setup_trans s1 s2 s3 : same_setup s1 s2 → same_setup s2 s3 → same_setup s1 s3.
Proof. intros [] []. constructor; congruence. Qed.

Lemma same_setup_member s s' g : same_setup s s' → member s' g ↔ member s g.
Proof. intros H. unfold member. by rewrite (setup_rm _ _ H). Qed.

Lemma member_status s g id :
  sched_inv s → member s g → id ∈ group_seqs g → ∃ st, status_of (store s) id = Some st.
Proof. intros Hi Hm Hid. apply status_of_Some, (inv_seqs s Hi g id Hm Hid). Qed.

Lemma member_nodup s g : sched_inv s → member s g → NoDup (group_seqs g).
Proof. intros Hi Hm. by apply (inv_req s Hi) in Hm as [_ Hm]. Qed.

(** A group whose sequences in statuses [from] all take status [st'], with
    table sets and queues following. *)
Lemma inv_restatus s s' g ids (from : list SequenceStatus) st' :
  sched_inv s → member s g → same_setup s s' → kv_conserved (kv s') → NoDup (queues s') →
  (∀ g', g' ∈ queues s' → g' ∈ queues s ∨ g' = g) →
  (∀ g' st, g' ≠ g → placed s g' st → placed s' g' st) →
  ids = filter (has_status (store s) from) (group_seqs g) →
  restatus st' ids (store s) (store s') →
  (∀ id, id ∈ tabled (kv s') ↔
     if decide (id ∈ ids) then holds_table st' = true else id ∈ tabled (kv s)) →
  (ids ≠ [] → placed s' g st') →
  (∀ st, st ∉ from → placed s g st → placed s' g st) →
  sched_inv s'.
Proof.
  intros Hi Hm Hset Hkv Hnd Hq Hp Hids Hr Ht Hpl Hpo.
  assert (∀ id, id ∈ ids ↔ id ∈ group_seqs g ∧
    ∃ st, status_of (store s) id = Some st ∧ st ∈ from) as Hmem.
  { intros id. rewrite Hids, list_elem_of_filter, Is_true_true, has_status_iff. tauto. }
  eapply (inv_change s s' g); try done.
  - apply (setup_rm _ _ Hset).
  - apply (setup_sm _ _ Hset).
  - intros id Hid. assert (id ∉ ids) as Hn by (rewrite Hmem; tauto).
    rewrite (status_of_restatus_ne _ _ _ _ _ Hr Hn). split; [done|]. by rewrite Ht, decide_False.
  - intros id Hid. destruct (member_status s g id Hi Hm Hid) as [st Hst].
    destruct (decide (id ∈ ids)) as [Hd|Hd].
    + exists st'. rewrite (status_of_restatus _ _ _ _ _ Hr Hd) by (apply status_of_Some; eauto).
      split_and!; [done| |by rewrite Ht, decide_True]. apply Hpl. intros ->. set_solver.
    + exists st. rewrite (status_of_restatus_ne _ _ _ _ _ Hr Hd). split_and!; [done| |].
      * apply Hpo; [|by eapply inv_place]. intros Hf. apply Hd, Hmem. eauto.
      * rewrite Ht, decide_False by done. by eapply tabled_member.
Qed.

Lemma queues_pop s g r' :
  sched_inv s → running s = g :: r' →
  member s g ∧ (g ∉ waiting s) ∧ (g ∉ r') ∧ (g ∉ swapped s) ∧ NoDup (waiting s ++ r' ++ swapped s).
Proof.
  intros Hi Hr. pose proof (inv_nodup s Hi) as Hnd. unfold queues in Hnd. rewrite Hr in Hnd.
  assert ((g :: (waiting s ++ r' ++ swapped s)) ≡ₚ (waiting s ++ (g :: r') ++ swapped s)) as Hp
    by (by rewrite (Permutation_middle (waiting s) (r' ++ swapped s) g)).
  rewrite <- Hp in Hnd. apply NoDup_cons in Hnd as [Hn Hnd].
  split_and!; [|set_solver..]. apply (inv_queued s Hi). unfold queues. rewrite Hr. set_solver.
Qed.

Lemma preempt_loop_inv queue s :
  sched_inv s → running s = queue →
  ∃ ids s', preempt_loop queue s = (Ok ids, s') ∧ sched_inv s' ∧ same_setup s s' ∧
    waiting s' = waiting s ∧ restatus SWAPPED ids (store s) (store s') ∧
    (∀ id, id ∈ ids → has_status (store s) active_kv id = true) .
Proof.
  revert s. induction queue as [|g r' IH]; intros s Hi Hr; simpl.
  { exists [], s. split_and!; [done|done|apply same_setup_refl|done|apply restatus_nil|set_solver]. }
  destruct (queues_pop s g r' Hi Hr) as (Hm & Hnw & Hnr & Hns & Hnd).
  munfold. set (s1 := set_queues (waiting s) r' (swapped s) s).
  destruct (preempt_all (group_seqs g) s1) as (c' & h' & Hp & Hk & Hrs).
  { by eapply member_nodup. } { apply (inv_kv s Hi). }
  rewrite Hp. change (store s1) with (store s) in *. change (kv s1) with (kv s) in *.
  set (ids := filter (has_status (store s) active_kv) (group_seqs g)) in *.
  assert (kv_conserved c') as Hc' by (eapply kv_keeps_conserved; [done|apply (inv_kv s Hi)]).
  assert (∀ x, same_setup s (set_queues (waiting s) r' x (set_kv_cache c' (set_store h' s1)))) as Hset.
  { intros x. constructor; try done. by apply kv_keeps_bs. }
  assert (∀ x (Hx : x = swapped s ∨ x = swapped s ++ [g]), (ids ≠ [] → g ∈ x) →
    sched_inv (set_queues (waiting s) r' x (set_kv_cache c' (set_store h' s1)))) as Hinv.
  { intros x Hx Hgx. apply (inv_restatus s _ g ids active_kv SWAPPED); try done.
    - unfold queues. simpl. destruct Hx as [->| ->]; [done|].
      rewrite !app_assoc. apply NoDup_app. split; [by rewrite <- app_assoc|].
      split; [set_solver|apply NoDup_singleton].
    - intros g'. unfold queues. simpl. rewrite Hr. destruct Hx as [->| ->]; set_solver.
    - intros g' st Hne. destruct st; simpl; rewrite ?Hr; destruct Hx as [->| ->]; set_solver.
    - intros id. simpl. rewrite (proj2 Hk). case_decide as Hd; [|done]. split; [done|]. intros _.
      unfold ids in Hd. apply list_elem_of_filter in Hd as [Hd Hin].
      apply Is_true_true, has_status_iff in Hd as (st & Hst & Hact).
      apply (tabled_member s g id st Hi Hm Hin Hst). unfold active_kv in Hact.
      destruct st; set_solver.
    - intros st Hst. unfold active_kv in Hst. destruct st; simpl; rewrite ?Hr;
        destruct Hx as [->| ->]; set_solver. }
  destruct ids as [|i ids'] eqn:Hids.
  - specialize (Hinv (swapped s) (or_introl eq_refl) ltac:(done)).
    destruct (IH (set_kv_cache c' (set_store h' s1)) Hinv eq_refl)
      as (ids2 & s' & Hrun & Hi' & Hs' & Hw' & Hr' & Ha').
    assert (h' = store s) as ->.
    { apply map_eq. intros id. rewrite Hrs. by rewrite decide_False by set_solver. }
    exists ids2, s'. split_and!; try done. eapply same_setup_trans; [apply (Hset (swapped s))|done].
  - exists (i :: ids'). eexists. split; [done|]. split_and!; try done.
    + apply Hinv; [by right|]. intros _. set_solver.
    + intros id Hid. rewrite <- Hids in Hid. apply list_elem_of_filter in Hid as [Hid _].
      by apply Is_true_true in Hid.
Qed.

(** ** Recovery keeps the invariant *)
Lemma remove_first_perm g l : g ∈ l → l ≡ₚ g :: remove_first g l.
Proof.
  induction l as [|x l IH]; intros Hin; [set_solver|]. simpl.
  case_decide as Hd; [by subst|]. rewrite Permutation_swap. f_equiv. apply IH. set_solver.
Qed.

Lemma inv_kv_keeps s c' : sched_inv s → kv_keeps (kv s) c' → sched_inv (set_kv_cache c' s).
Proof.
  intros Hi Hk. pose proof Hi as [I1 I2 I3 I4 I5 I6 I7 I8]. constructor; try done; simpl.
  - by eapply kv_keeps_conserved.
  - intros id. rewrite (proj2 Hk). apply I8.
Qed.

(** The queues after a swapped group left the swapped queue. *)
Lemma queues_unswap s g r' :
  sched_inv s → g ∈ swapped s → r' = running s ∨ r' = g :: running s →
  member s g ∧ NoDup (waiting s ++ r' ++ remove_first g (swapped s)) ∧
  (g ∉ remove_first g (swapped s)) ∧
  (∀ g', g' ≠ g → g' ∈ swapped s → g' ∈ remove_first g (swapped s)) ∧
  (∀ g', g' ∈ remove_first g (swapped s) → g' ∈ swapped s).
Proof.
  intros Hi Hg Hr. pose proof (remove_first_perm g (swapped s) Hg) as Hp.
  pose proof (inv_nodup s Hi) as Hnd. unfold queues in Hnd. rewrite Hp in Hnd.
  assert (waiting s ++ running s ++ g :: remove_first g (swapped s) ≡ₚ
    waiting s ++ (g :: running s) ++ remove_first g (swapped s)) as Hp2
    by (f_equiv; simpl; by rewrite Permutation_middle).
  rewrite Hp2 in Hnd. split_and!.
  - apply (inv_queued s Hi). unfold queues. set_solver.
  - destruct Hr as [->| ->]; [|done].
    apply NoDup_app in Hnd as (H1 & H2 & H3). apply NoDup_app. split_and!; [done|set_solver|].
    simpl in H3. by apply NoDup_cons in H3 as [_ H3].
  - apply NoDup_app in Hnd as (_ & _ & H3). simpl in H3. apply NoDup_cons in H3 as [H3 _]. set_solver.
  - intros g' Hne. rewrite Hp at 1. set_solver.
  - intros g' Hin. rewrite Hp. set_solver.
Qed.

Lemma recover_group_inv g s :
  sched_inv s → ∃ s', recover_group g s = (Ok tt, s') ∧ sched_inv s' ∧ same_setup s s' ∧
    waiting s' = waiting s.
Proof.
  intros Hi. unfold recover_group. munfold.
  destruct (bool_decide_reflect (g ∈ swapped s)) as [Hg|Hg]; cbn [negb];
    [|by exists s; split_and!; [done|done|apply same_setup_refl|done]].
  destruct (queues_unswap s g (running s) Hi Hg) as (Hm & Hnd & Hgn & Hq1 & Hq2); [by left|].
  destruct (queues_unswap s g (g :: running s) Hi Hg) as (_ & Hnd' & _ & _ & _); [by right|].
  destruct (filter _ _) as [|i0 l0] eqn:Hids.
  - eexists. split_and!; [done| |by constructor|done].
    apply (inv_restatus s _ g [] [SWAPPED] SWAPPED); try done.
    + apply (inv_kv s Hi).
    + intros g'. unfold queues. simpl. set_solver.
    + intros g' st Hne. destruct st; simpl; set_solver.
    + intros st Hst. destruct st; simpl; set_solver.
  - set (ids := i0 :: l0) in *.
    destruct (swap_in_all_keeps ids s (inv_kv s Hi)) as (b & c' & -> & Hk).
    assert (same_setup s (set_kv_cache c' s)) as Hset0 by (constructor; try done; by apply kv_keeps_bs).
    destruct b; [|eexists; split_and!; [done|by apply inv_kv_keeps|done|done]].
    destruct (set_all_status DECODE ids (set_kv_cache c' s)) as (h' & -> & Hr).
    { rewrite <- Hids. apply NoDup_filter. by eapply member_nodup. }
    { intros id Hid. rewrite <- Hids in Hid. apply list_elem_of_filter in Hid as [Hid _].
      apply Is_true_true, has_status_iff in Hid as (st & Hst & Hin). unfold status_of in Hst. simpl.
      destruct (store s !! id) as [d|]; [|done]. exists d. split; [done|].
      apply list_elem_of_singleton in Hin as ->. injection Hst as ->. set_solver. }
    eexists. split_and!; [done| |by constructor; try done; apply kv_keeps_bs|done].
    apply (inv_restatus s _ g ids [SWAPPED] DECODE); try done.
    + by constructor; try done; apply kv_keeps_bs.
    + eapply kv_keeps_conserved; [done|apply (inv_kv s Hi)].
    + intros g'. unfold queues. simpl. set_solver.
    + intros g' st Hne. destruct st; simpl; set_solver.
    + intros id. simpl. rewrite (proj2 Hk). case_decide as Hd; [|done].
      split; [done|]. intros _. rewrite <- Hids in Hd.
      apply list_elem_of_filter in Hd as [Hd Hin].
      apply Is_true_true, has_status_iff in Hd as (st & Hst & Hsw).
      apply (tabled_member s g id st Hi Hm Hin Hst). apply list_elem_of_singleton in Hsw. by subst.
    + intros _. simpl. set_solver.
    + intros st Hst. destruct st; simpl; set_solver.
Qed.

Lemma recover_swapped_groups_inv gs s :
  sched_inv s → ∃ s', recover_swapped_groups gs s = (Ok tt, s') ∧ sched_inv s' ∧ same_setup s s' ∧
    waiting s' = waiting s.
Proof.
  intros Hi. unfold recover_swapped_groups. munfold.
  destruct (_ <=? 0); [by exists s; split_and!; [done|done|apply same_setup_refl|done]|].
  revert s Hi. induction gs as [|g gs IH]; intros s Hi; simpl.
  { by exists s; split_and!; [done|done|apply same_setup_refl|done]. }
  munfold. destruct (recover_group_inv g s Hi) as (s1 & -> & Hi1 & Hs1 & Hw1).
  destruct (IH s1 Hi1) as (s' & -> & Hi' & Hs' & Hw').
  exists s'. split_and!; [done|done|by eapply same_setup_trans|congruence].
Qed.

(** ** Reordering the waiting queue *)
Lemma insert_desc_perm x l : insert_desc x l ≡ₚ x :: l.
Proof.
  induction l as [|y l IH]; simpl; [done|]. case_match; [done|].
  rewrite IH. apply Permutation_swap.
Qed.

Lemma sort_desc_perm l : sort_desc l ≡ₚ l.
Proof. induction l as [|x l IH]; simpl; [done|]. rewrite insert_desc_perm. by f_equiv. Qed.

Lemma inv_permute_waiting s w :
  sched_inv s → w ≡ₚ waiting s → sched_inv (set_queues w (running s) (swapped s) s).
Proof.
  intros Hi Hw. pose proof Hi as [I1 I2 I3 I4 I5 I6 I7 I8]. constructor; try done.
  - unfold queues in *. simpl. by rewrite Hw.
  - intros g Hg. apply I6. revert Hg. unfold queues. simpl. by rewrite Hw.
  - intros g id st Hm Hid Hst. specialize (I7 g id st Hm Hid Hst).
    destruct st; simpl in *; try done. by rewrite Hw.
Qed.

Lemma order_waiting_inv s :
  sched_inv s → ∃ s', order_waiting s = (Ok tt, s') ∧ sched_inv s' ∧ same_setup s s' ∧
    waiting s' ≡ₚ waiting s.
Proof.
  intros Hi. unfold order_waiting. munfold.
  destruct (sched_cp s) as [p|]; [|by exists s; split_and!; [done|done|apply same_setup_refl|done]].
  destruct (1 <? _); [|by exists s; split_and!; [done|done|apply same_setup_refl|done]].
  eexists. split; [done|].
  assert ((sort_desc ((λ g, (p (request_id g) (group_token_ids (store s) g), g)) <$> waiting s)).*2
    ≡ₚ waiting s) as Hp.
  { rewrite sort_desc_perm, <- list_fmap_compose. by rewrite (list_fmap_ext _ id), list_fmap_id. }
  split_and!; [by apply inv_permute_waiting|by constructor|done].
Qed.
End preservation.
