(* ===== verification/ServingSchedule.v ===== *)
(** * Properties of the serving scheduler: one scheduling step *)
From S2P Require Import Prelude PyCollections KVCache KVCacheProps KVCacheSwap.
From S2P Require Import Sequence Batch BatchProps ServingScheduler ServingSchedulerProps.
From S2P Require Import ServingSchedulerStep.
Import Alloc Table Paged.

Section step.
Context {V : Type}.
Implicit Types s : Scheduler V.
Implicit Types g : SequenceGroup.

Lemma restatus_sum f st ids ids' (h h' : gmap Z SequenceData) :
  (∀ d, f (with_status st d) = f d) → restatus st ids h h' →
  sum_seqs f h' ids' = sum_seqs f h ids'.
Proof.
  intros Hf Hr. apply sum_seqs_ext. intros id _. rewrite Hr.
  case_decide; [|done]. destruct (h !! id); simpl; [by rewrite Hf|done].
Qed.

Lemma restatus_tokens st ids ids' (h h' : gmap Z SequenceData) :
  restatus st ids h h' → sum_seqs seq_prefill_tokens h' ids' = sum_seqs seq_prefill_tokens h ids'.
Proof. by apply restatus_sum. Qed.

Lemma restatus_required bs st ids ids' (h h' : gmap Z SequenceData) :
  restatus st ids h h' →
  sum_seqs (required_blocks bs) h' ids' = sum_seqs (required_blocks bs) h ids'.
Proof. by apply restatus_sum. Qed.

(** A status change of sequences that were active does not touch the waiting
    ones. *)
Lemma restatus_other_status (h h' : gmap Z SequenceData) ids id (from : list SequenceStatus) st :
  restatus SWAPPED ids h h' → (∀ i, i ∈ ids → has_status h from i = true) →
  st ∉ from → st ≠ SWAPPED → has_status h [st] id = has_status h' [st] id.
Proof.
  intros Hr Ha Hn Hne. destruct (decide (id ∈ ids)) as [Hd|Hd].
  - specialize (Ha id Hd). apply has_status_iff in Ha as (st' & Hst & Hin).
    assert (status_of h' id = Some SWAPPED) as Hst'
      by (eapply status_of_restatus; [done|done|]; apply status_of_Some; eauto).
    unfold has_status. rewrite Hst, Hst'.
    rewrite !bool_decide_eq_false_2; [done|set_solver|]. intros ->%list_elem_of_singleton. done.
  - unfold has_status. by rewrite (status_of_restatus_ne _ _ _ _ _ Hr Hd).
Qed.

Lemma make_room_inv required s :
  sched_inv s → ∃ fits ids s', make_room required s = (Ok (fits, ids), s') ∧
    sched_inv s' ∧ same_setup s s' ∧ waiting s' = waiting s ∧
    restatus SWAPPED ids (store s) (store s') ∧
    (∀ id, id ∈ ids → has_status (store s) active_kv id = true) ∧
    (fits = true → required ≤ num_free_blocks (block_allocator (kv s'))).
Proof.
  intros Hi. unfold make_room, preempt_oldest_running_group. munfold.
  destruct (Z.ltb_spec (num_free_blocks (block_allocator (kv s))) required) as [Hlt|Hge].
  - destruct (preempt_loop_inv (running s) s Hi eq_refl) as (ids & s' & -> & Hi' & Hs & Hw & Hr & Ha).
    destruct ids as [|i ids].
    + exists false, [], s'. split_and!; done.
    + eexists _, (i :: ids), s'. split_and!; try done. rewrite negb_true_iff, Z.ltb_ge. done.
  - exists true, [], s. split_and!; try done. set_solver.
Qed.

(** The part of the loop body that admits the first waiting group. *)
Lemma admit_group_inv s g q' ids :
  sched_inv s → waiting s = g :: q' →
  ids = filter (has_status (store s) [WAITING]) (group_seqs g) →
  sum_seqs (required_blocks (block_size (kv s))) (store s) ids
    ≤ num_free_blocks (block_allocator (kv s)) →
  ∃ s', for_each ids admit_sequence (set_queues q' (running s ++ [g]) (swapped s) s) = (Ok tt, s') ∧
    sched_inv s' ∧ same_setup s s' ∧ waiting s' = q' ∧
    restatus PREFILL ids (store s) (store s').
Proof.
  intros Hi Hw Hids Hfree.
  pose proof (inv_nodup s Hi) as Hnd. unfold queues in Hnd. rewrite Hw in Hnd. simpl in Hnd.
  apply NoDup_cons in Hnd as [Hn Hnd].
  assert (member s g) as Hm by (apply (inv_queued s Hi); unfold queues; rewrite Hw; set_solver).
  assert (∀ id, id ∈ ids → id ∈ group_seqs g ∧ status_of (store s) id = Some WAITING) as Hids'.
  { intros id. rewrite Hids, list_elem_of_filter, Is_true_true, has_status_iff.
    setoid_rewrite list_elem_of_singleton. naive_solver. }
  destruct (admit_all ids (set_queues q' (running s ++ [g]) (swapped s) s))
    as (c' & h' & Hf & Hex & Htab & Hr); simpl in *.
  - rewrite Hids. apply NoDup_filter. by eapply member_nodup.
  - apply (inv_kv s Hi).
  - intros id Hid. destruct (Hids' id Hid) as [Hg Hst]. split; [done|].
    rewrite (tabled_member s g id WAITING) by done. done.
  - done.
  - eexists. split; [done|].
    assert (same_setup s (set_kv_cache c' (set_store h' (set_queues q' (running s ++ [g]) (swapped s) s))))
      as Hset by (constructor; try done; apply (step_bs _ _ (proj1 Hex))).
    split_and!; [|done|done|done].
    apply (inv_restatus s _ g ids [WAITING] PREFILL); try done.
    + eapply kv_exact_conserved; [done|apply (inv_kv s Hi)].
    + unfold queues. simpl. rewrite <- (app_assoc (running s)). simpl.
      rewrite <- Permutation_middle, <- Permutation_middle. by apply NoDup_cons.
    + intros g'. unfold queues. simpl. rewrite Hw. set_solver.
    + intros g' st Hne. destruct st; simpl; rewrite ?Hw; set_solver.
    + intros id. simpl. rewrite Htab. case_decide; set_solver.
    + intros _. simpl. set_solver.
    + intros st Hst. destruct st; simpl; rewrite ?Hw; set_solver.
Qed.

(** A group without waiting sequences only leaves the queue. *)
Lemma drop_waiting_inv s g q' :
  sched_inv s → waiting s = g :: q' →
  filter (has_status (store s) [WAITING]) (group_seqs g) = [] →
  sched_inv (set_queues q' (running s) (swapped s) s).
Proof.
  intros Hi Hw Hids. pose proof (inv_nodup s Hi) as Hnd. unfold queues in Hnd. rewrite Hw in Hnd.
  simpl in Hnd. apply NoDup_cons in Hnd as [Hn Hnd].
  apply (inv_restatus s _ g [] [WAITING] WAITING); try done.
  - apply (inv_queued s Hi). unfold queues. rewrite Hw. set_solver.
  - apply (inv_kv s Hi).
  - intros g'. unfold queues. simpl. rewrite Hw. set_solver.
  - intros g' st Hne. destruct st; simpl; rewrite ?Hw; set_solver.
  - intros st Hst. destruct st; simpl; rewrite ?Hw; set_solver.
Qed.

(** ** The output while the waiting loop runs *)
Record out_ok s (o : SchedulerOutput) (seqs toks : Z) : Prop := {
  oo_nodup : NoDup (prefill_seq_ids o);
  oo_status : ∀ id, id ∈ prefill_seq_ids o →
    (∃ g, member s g ∧ id ∈ group_seqs g) ∧
    (status_of (store s) id = Some PREFILL ∨
     status_of (store s) id = Some SWAPPED ∧ id ∈ preempted_seq_ids o);
  oo_decode : decode_seq_ids o = [] ∧ num_decode_tokens o = 0;
  oo_seqs : seqs = zlen (prefill_seq_ids o);
  oo_toks : toks = num_prefill_tokens o;
  oo_sum : toks = sum_seqs seq_prefill_tokens (store s) (prefill_seq_ids o);
  oo_batch : seqs ≤ max_batch_size s;
  oo_tokens : toks ≤ max_tokens_per_step s
}.

Lemma out_ok_preempt s s' o n t ids :
  out_ok s o n t → same_setup s s' → restatus SWAPPED ids (store s) (store s') →
  out_ok s' (add_preempted ids o) n t.
Proof.
  intros [O1 O2 O3 O4 O5 O6 O7 O8] Hset Hr.
  constructor; simpl; try done; rewrite ?(setup_batch _ _ Hset), ?(setup_tokens _ _ Hset); try done.
  - intros id Hid. destruct (O2 id Hid) as [(g & Hm & Hg) Hst]. split.
    { exists g. by rewrite (same_setup_member _ _ _ Hset). }
    destruct (decide (id ∈ ids)) as [Hd|Hd].
    + right. split; [|set_solver]. apply (status_of_restatus _ _ _ _ _ Hr Hd), status_of_Some.
      destruct Hst as [->|[-> _]]; eauto.
    + rewrite (status_of_restatus_ne _ _ _ _ _ Hr Hd). set_solver.
  - by rewrite (restatus_tokens _ _ _ _ _ Hr).
Qed.

Lemma sum_seqs_app f (h : gmap Z SequenceData) l1 l2 :
  sum_seqs f h (l1 ++ l2) = sum_seqs f h l1 + sum_seqs f h l2.
Proof. unfold sum_seqs. by rewrite fmap_app, zsum_app. Qed.

Lemma out_ok_admit s s' o n t g ids toks :
  sched_inv s → out_ok s o n t → same_setup s s' → restatus PREFILL ids (store s) (store s') →
  member s g → ids = filter (has_status (store s) [WAITING]) (group_seqs g) →
  toks = sum_seqs seq_prefill_tokens (store s) ids →
  n + zlen ids ≤ max_batch_size s → t + toks ≤ max_tokens_per_step s →
  out_ok s' (add_prefill ids toks o) (n + zlen ids) (t + toks).
Proof.
  intros Hi [O1 O2 O3 O4 O5 O6 O7 O8] Hset Hr Hm Hids Htoks Hn Ht.
  assert (∀ id, id ∈ ids → id ∈ group_seqs g ∧ status_of (store s) id = Some WAITING) as Hids'.
  { intros id. rewrite Hids, list_elem_of_filter, Is_true_true, has_status_iff.
    setoid_rewrite list_elem_of_singleton. naive_solver. }
  assert (∀ id, id ∈ prefill_seq_ids o → id ∉ ids) as Hdisj.
  { intros id H1 H2. destruct (O2 id H1) as [_ Hst]. destruct (Hids' id H2) as [_ Hst']. naive_solver. }
  constructor; simpl; rewrite ?(setup_batch _ _ Hset), ?(setup_tokens _ _ Hset); try done; try lia.
  - apply NoDup_app. split_and!; [done|done|]. rewrite Hids. apply NoDup_filter.
    by eapply member_nodup.
  - intros id [Hid|Hid]%elem_of_app.
    + destruct (O2 id Hid) as [(g' & Hm' & Hg') Hst]. split.
      { exists g'. by rewrite (same_setup_member _ _ _ Hset). }
      by rewrite (status_of_restatus_ne _ _ _ _ _ Hr (Hdisj id Hid)).
    + destruct (Hids' id Hid) as [Hg Hst]. split.
      { exists g. by rewrite (same_setup_member _ _ _ Hset). }
      left. apply (status_of_restatus _ _ _ _ _ Hr Hid), status_of_Some. by rewrite Hst.
  - by rewrite O4, zlen_app.
  - rewrite sum_seqs_app, !(restatus_tokens _ _ _ _ _ Hr). lia.
Qed.

Lemma waiting_loop_inv queue o n t s :
  sched_inv s → waiting s = queue → out_ok s o n t →
  ∃ o' n' t' s', waiting_loop queue (o, n, t) s = (Ok (o', n', t'), s') ∧ sched_inv s' ∧
    same_setup s s' ∧ out_ok s' o' n' t'.
Proof.
  revert o n t s. induction queue as [|g q' IH]; intros o n t s Hi Hw Ho; cbn [waiting_loop].
  { exists o, n, t, s. split_and!; [done|done|apply same_setup_refl|done]. }
  munfold. destruct (filter _ _) as [|i0 l0] eqn:Hids.
  - destruct (IH o n t (set_queues q' (running s) (swapped s) s)) as (o' & n' & t' & s' & Hrun & Hi' & Hs' & Ho').
    + by eapply drop_waiting_inv. + done. + destruct Ho. by constructor.
    + exists o', n', t', s'. split_and!; [done|done| |done].
      eapply same_setup_trans; [|done]. by constructor.
  - set (ids := i0 :: l0) in *.
    assert (member s g) as Hm by (apply (inv_queued s Hi); unfold queues; rewrite Hw; set_solver).
    set (toks := sum_seqs seq_prefill_tokens (store s) ids).
    assert (∃ o' n' t' s', (Ok (o, n, t) : res progress, s) = (Ok (o', n', t'), s') ∧ sched_inv s' ∧
      same_setup s s' ∧ out_ok s' o' n' t') as Hstop.
    { exists o, n, t, s. split_and!; [done|done|apply same_setup_refl|done]. }
    destruct (Z.ltb_spec (max_batch_size s) (n + zlen ids)) as [|Hn]; [done|].
    destruct (Z.ltb_spec (max_tokens_per_step s) (t + toks)) as [|Ht]; [done|]. clear Hstop.
    destruct (make_room_inv (sum_seqs (required_blocks (block_size (kv s))) (store s) ids) s Hi)
      as (fits & pre & s1 & -> & Hi1 & Hs1 & Hw1 & Hr1 & Ha1 & Hfit).
    pose proof (out_ok_preempt s s1 o n t pre Ho Hs1 Hr1) as Ho1.
    destruct fits; cbn [negb]; [|exists (add_preempted pre o), n, t, s1; done].
    specialize (Hfit eq_refl). rewrite <- (setup_bs _ _ Hs1) in Hfit.
    rewrite <- (restatus_required _ _ _ ids _ _ Hr1) in Hfit.
    assert (ids = filter (has_status (store s1) [WAITING]) (group_seqs g)) as Hids1.
    { rewrite <- Hids. apply list_filter_iff'. intros id _.
      apply (restatus_other_status _ _ _ _ _ WAITING Hr1 Ha1); [|done]. unfold active_kv. set_solver. }
    destruct (admit_group_inv s1 g q' ids Hi1) as (s2 & Hadm & Hi2 & Hs2 & Hw2 & Hr2);
      [by rewrite Hw1|done|done|].
    match goal with |- context [for_each _ admit_sequence ?x] =>
      change x with (set_queues q' (running s1 ++ [g]) (swapped s1) s1) end.
    rewrite Hadm.
    assert (toks = sum_seqs seq_prefill_tokens (store s1) ids) as Htoks
      by (by rewrite (restatus_tokens _ _ ids _ _ Hr1)).
    destruct (IH (add_prefill ids toks (add_preempted pre o)) (n + zlen ids) (t + toks) s2)
      as (o' & n' & t' & s' & Hrun & Hi' & Hs' & Ho'); [done|done| |].
    { eapply (out_ok_admit s1); try done.
      - by rewrite (same_setup_member _ _ _ Hs1).
      - by rewrite (setup_batch _ _ Hs1).
      - by rewrite (setup_tokens _ _ Hs1). }
    exists o', n', t', s'. split_and!; [done|done| |done].
    eapply same_setup_trans; [done|]. by eapply same_setup_trans.
Qed.

(** ** The decode part *)
Definition add_decodes (ids : list Z) (o : SchedulerOutput) : SchedulerOutput :=
  mkSO (prefill_seq_ids o) (decode_seq_ids o ++ ids) (preempted_seq_ids o)
    (num_prefill_tokens o) (num_decode_tokens o + zlen ids).

(** The decode part takes the running sequences in [DECODE], in order, up to
    what both budgets leave. *)
Lemma decode_loop_spec h batch tokens ids o n t :
  n ≤ batch → t ≤ tokens →
  decode_loop h batch tokens ids (o, n, t) =
    add_decodes (take (Z.to_nat (Z.min (batch - n) (tokens - t)))
                   (filter (has_status h [DECODE]) ids)) o.
Proof.
  revert o n t. induction ids as [|id ids IH]; intros o n t Hn Ht; cbn [decode_loop].
  { rewrite filter_nil, take_nil. destruct o. unfold add_decodes. simpl. by rewrite app_nil_r, Z.add_0_r. }
  rewrite filter_cons. destruct (has_status h [DECODE] id); cbn [negb];
    [rewrite decide_True by exact I|rewrite decide_False by (by intros []); by apply IH].
  assert (∀ l, Z.min (batch - n) (tokens - t) ≤ 0 →
    add_decodes (take (Z.to_nat (Z.min (batch - n) (tokens - t))) l) o = o) as Hstop.
  { intros l Hle. replace (Z.to_nat _) with 0%nat by lia. destruct o. unfold add_decodes. simpl.
    by rewrite app_nil_r, Z.add_0_r. }
  destruct (Z.leb_spec batch n); [by rewrite Hstop by lia|].
  destruct (Z.leb_spec tokens t); [by rewrite Hstop by lia|].
  rewrite IH by lia.
  replace (Z.to_nat (Z.min (batch - n) (tokens - t)))
    with (S (Z.to_nat (Z.min (batch - (n + 1)) (tokens - (t + 1))))) by lia.
  unfold add_decodes, add_decode. simpl. rewrite <- app_assoc, zlen_cons. f_equal. lia.
Qed.

(** What [schedule] returns. *)
Record schedule_ok s (o : SchedulerOutput) : Prop := {
  so_batch : zlen (prefill_seq_ids o) + zlen (decode_seq_ids o) ≤ max_batch_size s;
  so_tokens : num_prefill_tokens o + num_decode_tokens o ≤ max_tokens_per_step s;
  so_prefill_sum : num_prefill_tokens o = sum_seqs seq_prefill_tokens (store s) (prefill_seq_ids o);
  so_decode_sum : num_decode_tokens o = zlen (decode_seq_ids o);
  so_nodup : NoDup (prefill_seq_ids o ++ decode_seq_ids o);
  so_prefill : ∀ id, id ∈ prefill_seq_ids o →
    status_of (store s) id = Some PREFILL ∨
    status_of (store s) id = Some SWAPPED ∧ id ∈ preempted_seq_ids o;
  so_decode : ∀ id, id ∈ decode_seq_ids o → status_of (store s) id = Some DECODE;
  so_known : known (store s) (kv s) (prefill_seq_ids o ++ decode_seq_ids o)
}.

Lemma running_ids_nodup s : sched_inv s → NoDup (running s ≫= group_seqs).
Proof.
  intros Hi. pose proof (inv_nodup s Hi) as Hnd. unfold queues in Hnd.
  apply NoDup_app in Hnd as (_ & _ & Hnd). apply NoDup_app in Hnd as (Hnd & _ & _).
  assert (∀ g, g ∈ running s → member s g) as Hm
    by (intros g Hg; apply (inv_queued s Hi); unfold queues; set_solver).
  induction (running s) as [|g l IH]; simpl; [constructor|].
  apply NoDup_cons in Hnd as [Hg Hnd]. apply NoDup_app. split_and!.
  - eapply member_nodup; [done|]. apply Hm. set_solver.
  - intros id Hid Hin. apply list_elem_of_bind in Hin as (g' & Hin & Hg').
    apply Hg. rewrite (inv_disj s Hi g g' id); set_solver.
  - apply IH; [done|]. set_solver.
Qed.

Lemma member_known s g id st :
  sched_inv s → member s g → id ∈ group_seqs g → status_of (store s) id = Some st →
  holds_table st = true → is_Some (store s !! id) ∧ is_Some (sequence_tables (kv s) !! id).
Proof.
  intros Hi Hm Hid Hst Hh. split; [by apply (inv_seqs s Hi g id)|].
  apply elem_of_dom. by apply (tabled_member s g id st).
Qed.

Lemma schedule_spec s :
  sched_inv s → 0 < max_batch_size s → 0 < max_tokens_per_step s →
  ∃ o s', schedule s = (Ok o, s') ∧ sched_inv s' ∧ same_setup s s' ∧ schedule_ok s' o.
Proof.
  intros Hi Hb Ht. unfold schedule. munfold.
  destruct (recover_swapped_groups_inv (swapped s) s Hi) as (s1 & -> & Hi1 & Hs1 & _).
  destruct (order_waiting_inv s1 Hi1) as (s2 & -> & Hi2 & Hs2 & _).
  assert (same_setup s s2) as Hs by by eapply same_setup_trans.
  destruct (waiting_loop_inv (waiting s2) empty_output 0 0 s2) as (o & n & t & s3 & -> & Hi3 & Hs3 & Ho);
    [done|done| |].
  { constructor; try done; [constructor|set_solver|..].
    - rewrite (setup_batch _ _ Hs). lia.
    - rewrite (setup_tokens _ _ Hs). lia. }
  destruct Ho as [O1 O2 [O3 O3'] O4 O5 O6 O7 O8].
  rewrite decode_loop_spec by done.
  set (dec := take _ _).
  assert (∀ id, id ∈ dec → id ∈ running s3 ≫= group_seqs ∧ status_of (store s3) id = Some DECODE) as Hdec.
  { intros id Hid. apply elem_of_take in Hid as (i & Hid%list_elem_of_lookup_2 & _).
    apply list_elem_of_filter in Hid as [Hid Hin]. split; [done|].
    apply Is_true_true, has_status_iff in Hid as (st & -> & Hst). set_solver. }
  assert (zlen dec ≤ Z.min (max_batch_size s3 - n) (max_tokens_per_step s3 - t)) as Hlen.
  { unfold dec, zlen. rewrite length_take. lia. }
  exists (add_decodes dec o), s3. split_and!; [done|done|by eapply same_setup_trans|].
  constructor; simpl; rewrite ?O3, ?O3'; simpl; try lia; try done.
  - apply NoDup_app. split_and!; [done| |].
    + intros id Hid Hin. destruct (O2 id Hid) as [_ Hst]. destruct (Hdec id Hin) as [_ Hst']. naive_solver.
    + apply sublist_NoDup with (filter (has_status (store s3) [DECODE]) (running s3 ≫= group_seqs));
        [|apply sublist_take]. apply NoDup_filter. by apply running_ids_nodup.
  - intros id Hid. by destruct (O2 id Hid).
  - intros id Hid. by destruct (Hdec id Hid).
  - intros id [Hid|Hid]%elem_of_app.
    + destruct (O2 id Hid) as [(g & Hm & Hg) Hst].
      destruct Hst as [Hst|[Hst _]]; by eapply (member_known s3 g).
    + destruct (Hdec id Hid) as [Hr Hst]. apply list_elem_of_bind in Hr as (g & Hg & Hin).
      eapply (member_known s3 g); try done. apply (inv_queued s3 Hi3). unfold queues. set_solver.
Qed.
End step.
