(* ===== verification/ServingLifecycle.v ===== *)
(** * Properties of the serving scheduler: requests over their lifetime *)
From S2P Require Import Prelude PyCollections KVCache KVCacheProps KVCacheSwap.
From S2P Require Import Sequence Batch BatchProps ServingScheduler ServingSchedulerProps.
From S2P Require Import ServingSchedulerStep ServingSchedule.
Import Alloc Table Paged.

Section lifecycle.
Context {V : Type}.
Implicit Types s : Scheduler V.
Implicit Types g : SequenceGroup.

Definition free_blocks s : Z := num_free_blocks (block_allocator (kv s)).

(** ** Growing the decoding sequences *)
Lemma status_insert (h : gmap Z SequenceData) id d id' :
  status_of (<[id := d]> h) id' = if decide (id' = id) then Some (status d) else status_of h id'.
Proof.
  unfold status_of. case_decide as Hd; [subst; by rewrite lookup_insert_eq|].
  by rewrite lookup_insert_ne.
Qed.

Lemma has_status_lookup (h : gmap Z SequenceData) sts id :
  has_status h sts id = true → ∃ d, h !! id = Some d ∧ status d ∈ sts.
Proof.
  intros (st & Hst & Hin)%has_status_iff. unfold status_of in Hst.
  destruct (h !! id) as [d|]; [|done]. exists d. split; [done|]. by simplify_eq/=.
Qed.

Lemma start_decode_inv s id d :
  sched_inv s → store s !! id = Some d → status d = PREFILL →
  on_seq id (set_status DECODE) s = (Ok tt, set_store (<[id := with_status DECODE d]> (store s)) s) ∧
  sched_inv (set_store (<[id := with_status DECODE d]> (store s)) s).
Proof.
  intros Hi Hd Hst. split; [apply on_seq_status; [done|rewrite Hst; set_solver]|].
  apply (inv_change1 s _ id); try done.
  - apply (inv_kv s Hi).
  - intros id' Hne. simpl. by rewrite status_insert, decide_False.
  - intros st Hst'. simpl. rewrite status_insert, decide_True by done. exists DECODE.
    split; [done|]. intros (g & Hm & Hg).
    assert (st = PREFILL) as -> by (unfold status_of in Hst'; rewrite Hd in Hst'; simpl in Hst'; congruence).
    split; [done|]. rewrite (tabled_member s g id PREFILL Hi Hm Hg); [done|].
    unfold status_of. rewrite Hd. simpl. congruence.
Qed.

Lemma append_one_inv s id :
  sched_inv s →
  ∃ r c', try_pass (λ e, bool_decide (e = KeyError)) (on_kv (append_tokens id 1)) s =
    (r, set_kv_cache c' s) ∧ sched_inv (set_kv_cache c' s) ∧ kv_keeps (kv s) c' ∧
    (r = Ok tt ∨ r = Err RuntimeError) ∧
    (0 < free_blocks s → r = Ok tt) ∧
    free_blocks s - 1 ≤ num_free_blocks (block_allocator c').
Proof.
  intros Hi. destruct (append_tokens_keeps id (kv s) (inv_kv s Hi)) as [Hk Hr].
  unfold try_pass, on_kv, zoom, free_blocks.
  destruct (sequence_tables (kv s) !! id) as [t|] eqn:Ht.
  - destruct (append_tokens_one id (kv s) t (proj1 (inv_kv s Hi)) Ht) as [Hf Hok].
    destruct (append_tokens id 1 (kv s)) as [[[]|e] c']; simpl in *.
    + exists (Ok tt), c'. split_and!; try done; [by apply inv_kv_keeps|by left].
    + case_bool_decide as He; [subst e|].
      * exists (Ok tt), c'. split_and!; try done; [by apply inv_kv_keeps|by left].
      * exists (Err e), c'. split_and!; try done; [by apply inv_kv_keeps|].
        right. set_solver.
  - rewrite append_tokens_missing in * by done. simpl. exists (Ok tt), (kv s).
    split_and!; try done; [by apply inv_kv_keeps|by left|lia].
Qed.

Lemma advance_decode_inv s completed id :
  sched_inv s →
  ∃ r s', advance_decode completed id s = (r, s') ∧ sched_inv s' ∧ same_setup s s' ∧
    (r = Ok tt ∨ r = Err RuntimeError) ∧
    (0 < free_blocks s → r = Ok tt) ∧ free_blocks s - 1 ≤ free_blocks s'.
Proof.
  intros Hi. unfold advance_decode. munfold.
  destruct (bool_decide (id ∉ sequence_map s) || bool_decide (id ∈ completed)).
  { exists (Ok tt), s. split_and!; [done|done|apply same_setup_refl|by left|done|lia]. }
  assert (∃ s1, (if has_status (store s) [PREFILL] id
                 then on_seq id (set_status DECODE) else λ s0, (Ok tt, s0)) s = (Ok tt, s1) ∧
    sched_inv s1 ∧ same_setup s s1 ∧ kv s1 = kv s) as (s1 & -> & Hi1 & Hs1 & Hkv).
  { destruct (has_status (store s) [PREFILL] id) eqn:Hp.
    - apply has_status_lookup in Hp as (d & Hd & Hin%list_elem_of_singleton).
      destruct (start_decode_inv s id d Hi Hd Hin) as [-> Hi1]. eexists. by split_and!.
    - exists s. split_and!; [done|done|apply same_setup_refl|done]. }
  destruct (has_status (store s1) [DECODE] id).
  - destruct (append_one_inv s1 id Hi1) as (r & c' & -> & Hi2 & Hk & Hr & Hok & Hf).
    unfold free_blocks in *. rewrite Hkv in *.
    exists r, (set_kv_cache c' s1). split_and!; try done.
    eapply same_setup_trans; [done|]. constructor; try done. simpl. rewrite Hkv. by apply kv_keeps_bs.
  - exists (Ok tt), s1. unfold free_blocks. rewrite Hkv. split_and!; try done; [by left|lia].
Qed.

Lemma advance_all_inv completed ids s :
  sched_inv s →
  ∃ r s', for_each ids (advance_decode completed) s = (r, s') ∧ sched_inv s' ∧ same_setup s s' ∧
    (r = Ok tt ∨ r = Err RuntimeError) ∧ (zlen ids ≤ free_blocks s → r = Ok tt).
Proof.
  revert s. induction ids as [|id ids IH]; intros s Hi; simpl.
  { exists (Ok tt), s. split_and!; [done|done|apply same_setup_refl|by left|done]. }
  destruct (advance_decode_inv s completed id Hi) as (r1 & s1 & H1 & Hi1 & Hs1 & Hr1 & Hok1 & Hf1).
  munfold. rewrite H1. destruct Hr1 as [->| ->].
  - destruct (IH s1 Hi1) as (r & s' & -> & Hi' & Hs' & Hr & Hok).
    exists r, s'. split_and!; [done|done|by eapply same_setup_trans|done|].
    rewrite zlen_cons. intros Hle. apply Hok. pose proof (zlen_nonneg ids). lia.
  - exists (Err RuntimeError), s1. split_and!; try done; [by right|].
    rewrite zlen_cons. pose proof (zlen_nonneg ids). intros Hle. by specialize (Hok1 ltac:(lia)).
Qed.

(** ** Completing and cancelling sequences *)

(** [id] is over: its status is terminal and it holds no blocks. *)
Definition over s id : Prop :=
  (∀ st, status_of (store s) id = Some st → is_terminal st = true) ∧ id ∉ tabled (kv s).

Lemma end_sequence_inv s id h' :
  sched_inv s →
  (∀ id', id' ≠ id → status_of h' id' = status_of (store s) id') →
  (∀ st, status_of (store s) id = Some st → ∃ st', status_of h' id = Some st' ∧ is_terminal st' = true) →
  ∃ s', on_kv (free_sequence id) (set_store h' s) = (Ok tt, s') ∧ sched_inv s' ∧ same_setup s s' ∧
    waiting s' = waiting s ∧ running s' = running s ∧ swapped s' = swapped s ∧
    store s' = h' ∧ tabled (kv s') = tabled (kv s) ∖ {[id]}.
Proof.
  intros Hi Ho Hin. destruct (free_sequence_keeps id (kv s) (inv_kv s Hi)) as (He & Hok & Ht).
  unfold on_kv, zoom. simpl. destruct (free_sequence id (kv s)) as [r c']. simpl in *. subst r.
  eexists. split; [done|]. split_and!; try done.
  - apply (inv_change1 s _ id); try done; simpl.
    + eapply kv_exact_conserved; [done|apply (inv_kv s Hi)].
    + intros id' Hne. split; [by apply Ho|]. set_solver.
    + intros st Hst. destruct (Hin st Hst) as (st' & Hst' & Hterm). exists st'. split; [done|].
      intros _. split; [by destruct st'|]. rewrite Ht. destruct st'; set_solver.
    + set_solver.
  - constructor; try done. apply (step_bs _ _ (proj1 He)).
Qed.

Lemma set_store_id s : set_store (store s) s = s.
Proof. by destruct s. Qed.

(** A sequence that never ran cannot be completed: [WAITING] to [FINISHED] is
    not an allowed transition. *)
Lemma complete_sequence_waiting s id :
  id ∈ sequence_map s → status_of (store s) id = Some WAITING →
  complete_sequence id s = (Err ValueError, s).
Proof.
  intros Hin Hst. unfold complete_sequence. munfold. rewrite bool_decide_eq_false_2 by (by intros H).
  replace (has_status _ _ id) with true
    by (symmetry; apply has_status_iff; exists WAITING; split; [done|set_solver]).
  unfold on_seq. unfold status_of in Hst. destruct (store s !! id) as [d|] eqn:Hd; [|done].
  injection Hst as Hst. rewrite set_status_err by (rewrite Hst; set_solver).
  by rewrite insert_id, set_store_id.
Qed.

Lemma not_live_terminal (h : gmap Z SequenceData) id st :
  has_status h [WAITING; PREFILL; DECODE; SWAPPED] id = false → status_of h id = Some st →
  is_terminal st = true.
Proof.
  intros Hp Hst. destruct (is_terminal st) eqn:Hterm; [done|exfalso].
  enough (has_status h [WAITING; PREFILL; DECODE; SWAPPED] id = true) by congruence.
  apply has_status_iff. exists st. split; [done|]. destruct st; set_solver.
Qed.

Lemma complete_sequence_inv s id :
  sched_inv s → status_of (store s) id ≠ Some WAITING →
  ∃ s', complete_sequence id s = (Ok tt, s') ∧ sched_inv s' ∧ same_setup s s' ∧
    (id ∈ sequence_map s → over s' id) ∧ (∀ id', over s id' → over s' id') ∧
    (∀ id', status_of (store s) id' ≠ Some WAITING → status_of (store s') id' ≠ Some WAITING).
Proof.
  intros Hi Hnw. unfold complete_sequence. munfold.
  destruct (bool_decide_reflect (id ∉ sequence_map s)) as [Hn|Hn].
  { exists s. split_and!; [done|done|apply same_setup_refl|done|done|done]. }
  destruct (has_status (store s) [WAITING; PREFILL; DECODE; SWAPPED] id) eqn:Hp.
  - apply has_status_lookup in Hp as (d & Hd & Hin).
    assert (status d ≠ WAITING) by (unfold status_of in Hnw; rewrite Hd in Hnw; simpl in Hnw; congruence).
    rewrite (on_seq_status id FINISHED d) by (done || (right; destruct (status d); set_solver)).
    set (h' := <[id := with_status FINISHED d]> (store s)).
    destruct (end_sequence_inv s id h' Hi) as (s' & -> & Hi' & Hs' & _ & _ & _ & Hst & Ht).
    { intros id' Hne. unfold h'. by rewrite status_insert, decide_False. }
    { intros st _. exists FINISHED. unfold h'. by rewrite status_insert, decide_True. }
    exists s'. split_and!; try done; unfold over; rewrite Hst, ?Ht; unfold h'.
    + intros _. rewrite status_insert, decide_True by done. split; [|set_solver]. by intros st [= <-].
    + intros id' [H1 H2]. rewrite status_insert. split; [|set_solver]. intros st.
      case_decide; [|auto]. by intros [= <-].
    + intros id'. rewrite status_insert. by case_decide.
  - destruct (end_sequence_inv s id (store s) Hi) as (s' & Hrun & Hi' & Hs' & _ & _ & _ & Hst & Ht).
    { done. }
    { intros st Hst. exists st. split; [done|]. by eapply not_live_terminal. }
    rewrite set_store_id in Hrun. rewrite Hrun. exists s'.
    split_and!; try done; unfold over; rewrite Hst, ?Ht; try done.
    + intros _. split; [|set_solver]. intros st Hst'. by eapply not_live_terminal.
    + intros id' [H1 H2]. split; [done|set_solver].
Qed.

Lemma complete_any_inv s id :
  sched_inv s → ∃ r s', complete_sequence id s = (r, s') ∧ sched_inv s' ∧ same_setup s s'.
Proof.
  intros Hi. destruct (decide (status_of (store s) id = Some WAITING)) as [Hw|Hw].
  - destruct (decide (id ∈ sequence_map s)) as [Hin|Hin].
    + rewrite complete_sequence_waiting by done. eexists _, s. split_and!; [done|done|apply same_setup_refl].
    + unfold complete_sequence. munfold. rewrite bool_decide_eq_true_2 by done.
      eexists _, s. split_and!; [done|done|apply same_setup_refl].
  - destruct (complete_sequence_inv s id Hi Hw) as (s' & -> & Hi' & Hs' & _). eauto.
Qed.

Lemma complete_all_inv ids s :
  sched_inv s → (∀ id, id ∈ ids → status_of (store s) id ≠ Some WAITING) →
  ∃ s', for_each ids complete_sequence s = (Ok tt, s') ∧ sched_inv s' ∧ same_setup s s' ∧
    (∀ id, id ∈ ids → id ∈ sequence_map s → over s' id) ∧ (∀ id, over s id → over s' id).
Proof.
  revert s. induction ids as [|id ids IH]; intros s Hi Hw; simpl.
  { exists s. split_and!; [done|done|apply same_setup_refl|set_solver|done]. }
  destruct (complete_sequence_inv s id Hi) as (s1 & H1 & Hi1 & Hs1 & Ho1 & Hk1 & Hw1); [set_solver|].
  munfold. rewrite H1. destruct (IH s1 Hi1) as (s' & -> & Hi' & Hs' & Ho & Hk).
  { intros i Hin. apply Hw1, Hw. set_solver. }
  exists s'. split_and!; [done|done|by eapply same_setup_trans| |by eauto].
  intros i [->|Hin]%elem_of_cons Hsm; [by eauto|].
  apply Ho; [done|]. by rewrite (setup_sm _ _ Hs1).
Qed.

(** ** Pruning *)
Lemma rebuild_lookup (rm : gmap string SequenceGroup) (p : SequenceGroup → bool) r g :
  (∀ r g, rm !! r = Some g → request_id g = r) →
  (list_to_map ((λ g, (request_id g, g)) <$> filter p (map_to_list rm).*2)
     : gmap string SequenceGroup) !! r = Some g ↔ rm !! r = Some g ∧ p g = true.
Proof.
  intros Hk.
  assert (∀ r g, (r, g) ∈ ((λ g, (request_id g, g)) <$> filter p (map_to_list rm).*2) ↔
    rm !! r = Some g ∧ p g = true) as Hin.
  { intros r' g'. rewrite list_elem_of_fmap. setoid_rewrite list_elem_of_filter.
    setoid_rewrite list_elem_of_fmap. split.
    - intros (g0 & [= -> ->] & Hp & [r0 g1] & -> & Hm%elem_of_map_to_list). simpl.
      rewrite (Hk r0 g1 Hm). split; [done|]. by apply Is_true_true.
    - intros [Hm Hp]. exists g'. rewrite (Hk r' g' Hm). split_and!; [done|by apply Is_true_true|].
      exists (r', g'). split; [done|]. by apply elem_of_map_to_list. }
  split.
  - intros H. by apply Hin, elem_of_list_to_map_2.
  - intros H. apply elem_of_list_to_map_1'; [|by apply Hin].
    intros y Hy. apply Hin in Hy as [Hy _]. destruct H as [H _]. congruence.
Qed.

Lemma drop_all gs s :
  ∃ rm, for_each gs drop_request_metadata s =
    (Ok tt, set_maps (sequence_map s ∖ list_to_set (gs ≫= group_seqs)) rm s).
Proof.
  revert s. induction gs as [|g gs IH]; intros s.
  { exists (request_map s). cbn. do 2 f_equal. destruct s. unfold set_maps. simpl. f_equal. set_solver. }
  set (s1 := set_maps (sequence_map s ∖ list_to_set (group_seqs g))
               (delete (request_id g) (request_map s)) s).
  assert (drop_request_metadata g s = (Ok tt, s1)) as Hone by done.
  cbn [for_each]. munfold. rewrite Hone. destruct (IH s1) as [rm ->].
  exists rm. unfold s1. rewrite bind_cons, list_to_set_app_L, <- difference_difference_l_L. done.
Qed.

Definition pruned_map s : gmap string SequenceGroup :=
  list_to_map ((λ g, (request_id g, g)) <$>
    filter (group_active (store s)) (map_to_list (request_map s)).*2).

Lemma prune_run s :
  ∃ sm, prune_finished_and_cancelled_requests s =
    (Ok tt, set_queues (filter (in_requests (pruned_map s)) (waiting s))
              (filter (in_requests (pruned_map s)) (running s))
              (filter (in_requests (pruned_map s)) (swapped s)) (set_maps sm (pruned_map s) s)) ∧
    sm = sequence_map s ∖ list_to_set
           (filter (λ g, negb (group_active (store s) g)) (map_to_list (request_map s)).*2 ≫= group_seqs).
Proof.
  unfold prune_finished_and_cancelled_requests. munfold.
  destruct (drop_all (filter (λ g, negb (group_active (store s) g)) (map_to_list (request_map s)).*2) s)
    as [rm ->]. eexists. split; [done|]. done.
Qed.

Lemma group_active_true (h : gmap Z SequenceData) g id st :
  id ∈ group_seqs g → status_of h id = Some st → is_terminal st = false → group_active h g = true.
Proof.
  intros Hin Hst Ht. apply existsb_exists. exists id. split; [by apply list_elem_of_In|].
  unfold has_status. rewrite Hst, bool_decide_eq_false_2; [done|].
  unfold terminal_statuses. destruct st; set_solver.
Qed.

(** Forgetting requests none of whose sequences holds a table. *)
Lemma inv_keep s s' (keep : SequenceGroup → bool) :
  sched_inv s → kv s' = kv s → store s' = store s →
  (∀ g, member s' g ↔ member s g ∧ keep g = true) →
  (∀ r g, request_map s' !! r = Some g → request_map s !! r = Some g) →
  NoDup (queues s') → (∀ g, g ∈ queues s' → g ∈ queues s ∧ keep g = true) →
  (∀ g st, keep g = true → member s g → placed s g st → placed s' g st) →
  (∀ id, id ∈ sequence_map s → (∀ g, member s g → keep g = false → id ∉ group_seqs g) →
     id ∈ sequence_map s') →
  (∀ g id, member s g → keep g = false → id ∈ group_seqs g → id ∉ tabled (kv s)) →
  sched_inv s'.
Proof.
  intros Hi Hkv Hst Hm Hrm Hnd Hq Hp Hsm Ht. pose proof Hi as [I1 I2 I3 I4 I5 I6 I7 I8].
  constructor; rewrite ?Hkv, ?Hst; try done.
  - intros r g Hg. by apply I2, Hrm.
  - intros g1 g2 id [H1 _]%Hm [H2 _]%Hm. by apply I3.
  - intros g id [Hg Ha]%Hm Hid. destruct (I4 g id Hg Hid) as [H1 H2]. split; [|done].
    apply Hsm; [done|]. intros g' Hg' Hk Hin. assert (g' = g) as -> by eauto. congruence.
  - intros g Hg. destruct (Hq g Hg) as [H1 H2]. apply Hm. auto.
  - intros g id st [Hg Ha]%Hm Hid Hst'. eauto.
  - intros id. split; [|intros (g & st & [Hg _]%Hm & Hr); apply I8; eauto].
    intros Hid. pose proof Hid as (g & st & Hg & Hin & Hst' & Hh)%I8. exists g, st.
    split_and!; try done. apply Hm. split; [done|].
    destruct (keep g) eqn:Hk; [done|]. by destruct (Ht g id Hg Hk Hin).
Qed.

Lemma prune_inv s :
  sched_inv s → ∃ s', prune_finished_and_cancelled_requests s = (Ok tt, s') ∧ sched_inv s' ∧
    kv s' = kv s ∧ store s' = store s ∧ max_batch_size s' = max_batch_size s ∧
    max_tokens_per_step s' = max_tokens_per_step s ∧
    (∀ g, member s' g ↔ member s g ∧ group_active (store s) g = true).
Proof.
  intros Hi. destruct (prune_run s) as (sm & -> & Hsm). eexists. split; [done|].
  set (s' := set_queues _ _ _ _).
  assert (∀ g, member s' g ↔ member s g ∧ group_active (store s) g = true) as Hm.
  { intros g. apply rebuild_lookup. intros r g' Hg'. apply (inv_req s Hi r g' Hg'). }
  assert (∀ g (l : list SequenceGroup), g ∈ filter (in_requests (pruned_map s)) l ↔
    g ∈ l ∧ is_Some (pruned_map s !! request_id g)) as Hf.
  { intros g l. rewrite list_elem_of_filter, Is_true_true. unfold in_requests.
    rewrite bool_decide_eq_true. tauto. }
  split_and!; try done. apply (inv_keep s s' (group_active (store s))); try done.
  - intros r g Hg. apply rebuild_lookup in Hg as [Hg _]; [done|]. intros r0 g0 H0. apply (inv_req s Hi r0 g0 H0).
  - unfold queues. simpl. rewrite <- !filter_app. apply NoDup_filter, (inv_nodup s Hi).
  - intros g Hg. unfold queues in Hg. simpl in Hg. rewrite <- !filter_app in Hg.
    apply Hf in Hg as [Hg [g' Hs]]. split; [done|]. pose proof (inv_queued s Hi g Hg) as Hq.
    apply rebuild_lookup in Hs as [Hs Ha]; [|intros r0 g0 H0; apply (inv_req s Hi r0 g0 H0)].
    unfold member in Hq. by assert (g' = g) as -> by congruence.
  - intros g st Ha Hg Hp. assert (member s' g) as Hg' by (by apply Hm).
    destruct st; simpl in *; try done; apply Hf; (split; [done|exists g; exact Hg']).
  - intros id Hid Hno. simpl. rewrite Hsm. apply elem_of_difference. split; [done|].
    rewrite elem_of_list_to_set, list_elem_of_bind. intros (g' & Hin & Hd).
    apply list_elem_of_filter in Hd as [Hd Hg'].
    apply list_elem_of_fmap in Hg' as ([r g0] & -> & Hg'%elem_of_map_to_list). simpl in *.
    apply (Hno g0); [|by destruct (group_active (store s) g0)|done].
    unfold member. by rewrite (proj1 (inv_req s Hi r g0 Hg')).
  - intros g id Hg Ha Hid Ht. destruct (member_status s g id Hi Hg Hid) as [st Hst].
    rewrite (tabled_member s g id st Hi Hg Hid Hst) in Ht.
    erewrite group_active_true in Ha; [done|done|done|by destruct st].
Qed.

(** ** Aborting *)
Lemma not_terminal_live (h : gmap Z SequenceData) id :
  has_status h terminal_statuses id = true → ∀ st, status_of h id = Some st → is_terminal st = true.
Proof.
  intros (st' & H1 & H2)%has_status_iff st H3. unfold terminal_statuses in H2.
  assert (st' = st) as -> by congruence. by destruct st; set_solver.
Qed.

Lemma cancel_sequence_inv s id :
  sched_inv s → is_Some (store s !! id) →
  ∃ s', cancel_sequence id s = (Ok tt, s') ∧ sched_inv s' ∧ same_setup s s' ∧ over s' id ∧
    (∀ id', over s id' → over s' id') ∧
    (∀ id', id' ≠ id → store s' !! id' = store s !! id') ∧
    waiting s' = waiting s ∧ running s' = running s ∧ swapped s' = swapped s.
Proof.
  intros Hi [d Hd]. unfold cancel_sequence. munfold.
  destruct (has_status (store s) terminal_statuses id) eqn:Hp; cbn [negb].
  - destruct (end_sequence_inv s id (store s) Hi) as (s' & Hrun & Hi' & Hs' & Hw & Hr & Hx & Hst & Ht).
    { done. }
    { intros st Hst. exists st. split; [done|]. by eapply not_terminal_live. }
    rewrite set_store_id in Hrun. rewrite Hrun. exists s'.
    split_and!; try done; unfold over; rewrite Hst, ?Ht; try done.
    + split; [|set_solver]. by apply not_terminal_live.
    + intros id' [H1 H2]. split; [done|set_solver].
  - assert (is_terminal (status d) = false) as Hlive.
    { destruct (is_terminal (status d)) eqn:E; [exfalso|done].
      enough (has_status (store s) terminal_statuses id = true) by congruence.
      apply has_status_iff. exists (status d). unfold status_of. rewrite Hd. split; [done|].
      unfold terminal_statuses. destruct (status d); set_solver. }
    rewrite (on_seq_status id CANCELLED d) by (done || (right; destruct (status d); set_solver)).
    set (h' := <[id := with_status CANCELLED d]> (store s)).
    destruct (end_sequence_inv s id h' Hi) as (s' & -> & Hi' & Hs' & Hw & Hr & Hx & Hst & Ht).
    { intros id' Hne. unfold h'. by rewrite status_insert, decide_False. }
    { intros st _. exists CANCELLED. unfold h'. by rewrite status_insert, decide_True. }
    exists s'. split_and!; try done; unfold over; rewrite Hst, ?Ht; unfold h'.
    + rewrite status_insert, decide_True by done. split; [|set_solver]. by intros st [= <-].
    + intros id' [H1 H2]. rewrite status_insert. split; [|set_solver]. intros st.
      case_decide; [|auto]. by intros [= <-].
    + intros id' Hne. by rewrite lookup_insert_ne.
Qed.

Lemma cancel_all_inv ids s :
  sched_inv s → NoDup ids → (∀ id, id ∈ ids → is_Some (store s !! id)) →
  ∃ s', for_each ids cancel_sequence s = (Ok tt, s') ∧ sched_inv s' ∧ same_setup s s' ∧
    (∀ id, id ∈ ids → over s' id) ∧ (∀ id, over s id → over s' id) ∧
    (∀ id, id ∉ ids → store s' !! id = store s !! id).
Proof.
  intros Hi Hnd. revert s Hi. induction Hnd as [|id ids Hni Hnd IH]; intros s Hi Hs; simpl.
  { exists s. split_and!; [done|done|apply same_setup_refl|set_solver|done|done]. }
  destruct (cancel_sequence_inv s id Hi) as (s1 & H1 & Hi1 & Hs1 & Ho1 & Hk1 & Hf1 & _); [set_solver|].
  munfold. rewrite H1. destruct (IH s1 Hi1) as (s' & -> & Hi' & Hs' & Ho & Hk & Hf).
  { intros i Hin. rewrite Hf1 by (intros ->; done). apply Hs. set_solver. }
  exists s'. split_and!; [done|done|by eapply same_setup_trans| |by eauto|].
  - intros i [->|Hin]%elem_of_cons; eauto.
  - intros i Hin. rewrite Hf, Hf1 by set_solver. done.
Qed.

(** The last part of [abort_request]: the group leaves queues and maps. *)
Lemma forget_inv s g rid :
  sched_inv s → request_map s !! rid = Some g → (∀ id, id ∈ group_seqs g → over s id) →
  let other (g' : SequenceGroup) := negb (bool_decide (request_id g' = rid)) in
  sched_inv (set_maps (sequence_map s ∖ list_to_set (group_seqs g)) (delete rid (request_map s))
    (set_queues (filter other (waiting s)) (filter other (running s)) (filter other (swapped s)) s)).
Proof.
  intros Hi Hg Hover other. destruct (inv_req s Hi rid g Hg) as [Hrid _].
  assert (∀ g', other g' = true ↔ request_id g' ≠ rid) as Hother.
  { intros g'. unfold other. by rewrite negb_true_iff, bool_decide_eq_false. }
  assert (∀ g', other g' = false → member s g' → g' = g) as Hself.
  { intros g'. unfold other, member. rewrite negb_false_iff, bool_decide_eq_true. intros ->. congruence. }
  assert (∀ g' (l : list SequenceGroup), g' ∈ filter other l ↔ g' ∈ l ∧ other g' = true) as Hf.
  { intros g' l. rewrite list_elem_of_filter, Is_true_true. tauto. }
  apply (inv_keep s _ other); try done.
  - intros g'. rewrite Hother. unfold member. simpl. rewrite lookup_delete_Some.
    split; [intros [? ?]; split; [done|congruence]|intros [? ?]; split; [congruence|done]].
  - intros r g'. simpl. rewrite lookup_delete_Some. tauto.
  - unfold queues. simpl. rewrite <- !filter_app. apply NoDup_filter, (inv_nodup s Hi).
  - intros g'. unfold queues. simpl. rewrite <- !filter_app. apply Hf.
  - intros g' st Ho _. destruct st; simpl; rewrite ?Hf; auto.
  - intros id Hid Hno. simpl. apply elem_of_difference. split; [done|].
    rewrite elem_of_list_to_set. apply Hno; [unfold member; by rewrite Hrid|].
    unfold other. rewrite Hrid. by rewrite bool_decide_eq_true_2.
  - intros g' id Hm Ho Hin. rewrite (Hself g' Ho Hm) in Hin. by apply Hover.
Qed.

Lemma abort_request_spec s rid :
  sched_inv s → ∃ s', abort_request rid s = (Ok tt, s') ∧ sched_inv s' ∧
    max_batch_size s' = max_batch_size s ∧ max_tokens_per_step s' = max_tokens_per_step s ∧
    request_map s' !! rid = None ∧
    (∀ g id, request_map s !! rid = Some g → id ∈ group_seqs g → over s' id) ∧
    (∀ g, member s g → request_id g ≠ rid → group_active (store s) g = true →
       member s' g ∧ ∀ id, id ∈ group_seqs g → store s' !! id = store s !! id).
Proof.
  intros Hi. unfold abort_request. munfold.
  destruct (request_map s !! rid) as [g|] eqn:Hg; [|exists s; by split_and!].
  destruct (inv_req s Hi rid g Hg) as [Hrid Hnd].
  assert (member s g) as Hmg by (unfold member; by rewrite Hrid).
  destruct (cancel_all_inv (group_seqs g) s Hi Hnd) as (s1 & -> & Hi1 & Hs1 & Ho1 & _ & Hf1).
  { intros id Hid. by apply (inv_seqs s Hi g). }
  unfold drop_request_metadata. munfold.
  pose proof (forget_inv s1 g rid Hi1) as Hi2. rewrite (setup_rm _ _ Hs1) in Hi2.
  specialize (Hi2 Hg Ho1). simpl in Hi2.
  match goal with |- context [prune_finished_and_cancelled_requests ?x] => set (s2 := x) end.
  assert (sched_inv s2) as Hi2'.
  { unfold s2. simpl. rewrite Hrid, (setup_rm _ _ Hs1). exact Hi2. }
  destruct (prune_inv s2 Hi2') as (s' & -> & Hi' & Hkv & Hst & Hb & Ht & Hm').
  exists s'. split_and!; [done|done| | | | |].
  - rewrite Hb. apply (setup_batch _ _ Hs1).
  - rewrite Ht. apply (setup_tokens _ _ Hs1).
  - destruct (request_map s' !! rid) as [g'|] eqn:E; [exfalso|done].
    destruct (inv_req s' Hi' rid g' E) as [Hr' _].
    assert (member s' g') as Hm2 by (unfold member; by rewrite Hr').
    apply Hm' in Hm2 as [Hm2 _]. unfold member, s2 in Hm2. simpl in Hm2.
    rewrite Hr', Hrid, lookup_delete_eq in Hm2. done.
  - intros g' id [= <-] Hid. unfold over. rewrite Hkv, Hst. by apply Ho1.
  - intros g' Hm Hne Hact.
    assert (∀ id, id ∈ group_seqs g' → store s1 !! id = store s !! id) as Hsame.
    { intros id Hid. apply Hf1. intros Hin. apply Hne. by rewrite (inv_disj s Hi g' g id). }
    split; [|intros id Hid; rewrite Hst; unfold s2; simpl; by apply Hsame].
    apply Hm'. split.
    + unfold member, s2. simpl. rewrite Hrid, lookup_delete_ne by done.
      by rewrite (setup_rm _ _ Hs1).
    + unfold s2, group_active in *. simpl. rewrite existsb_exists in *.
      destruct Hact as (id & Hin & Hact). exists id. split; [done|].
      unfold has_status, status_of in *. by rewrite Hsame by (by apply list_elem_of_In).
Qed.

(** ** After a step *)
Lemma update_after_step_inv order completed decs s :
  sched_inv s → ∃ r s', update_after_step order completed decs s = (r, s') ∧ sched_inv s' ∧
    max_batch_size s' = max_batch_size s ∧ max_tokens_per_step s' = max_tokens_per_step s.
Proof.
  intros Hi. unfold update_after_step. munfold.
  destruct (advance_all_inv completed (fromkeys decs) s Hi) as (r1 & s1 & -> & Hi1 & Hs1 & Hr1 & _).
  destruct Hs1. destruct r1 as [[]|e]; [|by eauto 6].
  assert (∃ r s2, for_each order complete_sequence s1 = (r, s2) ∧ sched_inv s2 ∧ same_setup s1 s2)
    as (r2 & s2 & -> & Hi2 & Hs2).
  { clear -Hi1. revert s1 Hi1. induction order as [|id ids IH]; intros s Hi; simpl.
    { eexists _, s. split_and!; [done|done|apply same_setup_refl]. }
    destruct (complete_any_inv s id Hi) as (r1 & s1 & H1 & Hi1 & Hs1). munfold. rewrite H1.
    destruct r1 as [[]|e]; [|by eauto]. destruct (IH s1 Hi1) as (r & s' & -> & Hi' & Hs').
    eexists _, s'. split_and!; [done|done|by eapply same_setup_trans]. }
  destruct Hs2. destruct r2 as [[]|e]; [|eexists _, s2; split_and!; [done|done|congruence|congruence]].
  destruct (prune_inv s2 Hi2) as (s' & -> & Hi' & _ & _ & Hb & Ht & _).
  eexists _, s'. split_and!; [done|done|congruence|congruence].
Qed.
End lifecycle.
