(* ===== verification/ServingTheorems.v ===== *)
(** * The serving scheduler over whole histories *)
From S2P Require Import Prelude PyCollections KVCache KVCacheProps KVCacheSwap.
From S2P Require Import Sequence Batch BatchProps ServingScheduler ServingSchedulerProps.
From S2P Require Import ServingSchedulerStep ServingSchedule ServingLifecycle.
Import Alloc Table Paged.

Section histories.
Context {V : Type}.
Implicit Types s : Scheduler V.
Implicit Types g : SequenceGroup.

(** ** Adding requests *)

(** A sequence object under an id the scheduler does not know. *)
Lemma inv_fresh s id d :
  sched_inv s → id ∉ sequence_map s →
  sched_inv (set_maps ({[id]} ∪ sequence_map s) (request_map s)
               (set_store (<[id := d]> (store s)) s)).
Proof.
  intros Hi Hid. pose proof Hi as [I1 I2 I3 I4 I5 I6 I7 I8].
  assert (∀ g i, member s g → i ∈ group_seqs g → status_of (<[id:=d]> (store s)) i = status_of (store s) i)
    as Hsame.
  { intros g i Hm Hin. rewrite status_insert, decide_False; [done|]. intros ->.
    by destruct (I4 g id Hm Hin). }
  constructor; try done; simpl.
  - intros g i Hm Hin. destruct (I4 g i Hm Hin) as [H1 H2]. split; [set_solver|].
    apply status_of_Some. rewrite (Hsame g i Hm Hin). by apply status_of_Some.
  - intros g i st Hm Hin. rewrite (Hsame g i Hm Hin). by apply I7.
  - intros i. rewrite I8. split; intros (g & st & Hm & Hin & Hst & Hh); exists g, st;
      split_and!; try done; [by rewrite (Hsame g i Hm Hin)|by rewrite <- (Hsame g i Hm Hin)].
Qed.

Lemma register_sequence_inv s d :
  sched_inv s →
  (∃ d', register_sequence d s =
      (Ok tt, set_maps ({[seq_id d]} ∪ sequence_map s) (request_map s)
                (set_store (<[seq_id d := d']> (store s)) s)) ∧
    (seq_id d ∉ sequence_map s) ∧ status d' = WAITING) ∨
  register_sequence d s = (Err ValueError, s).
Proof.
  intros Hi. unfold register_sequence. munfold.
  destruct (bool_decide_reflect (seq_id d ∈ sequence_map s)) as [Hin|Hin]; [by right|].
  destruct (bool_decide_reflect (status d = WAITING)) as [Hw|Hw]; [left; by exists d|].
  unfold set_status, validate_transition. munfold. rewrite decide_False by done.
  case_decide; [|by right]. left. by eexists.
Qed.

Lemma register_all_inv ds s :
  sched_inv s →
  (∃ sm' h', for_each ds register_sequence s = (Ok tt, set_maps sm' (request_map s) (set_store h' s)) ∧
     sched_inv (set_maps sm' (request_map s) (set_store h' s)) ∧ NoDup (seq_id <$> ds) ∧
     sequence_map s ⊆ sm' ∧
     (∀ id, id ∈ seq_id <$> ds → (id ∉ sequence_map s) ∧ id ∈ sm' ∧ status_of h' id = Some WAITING) ∧
     (∀ id, id ∈ sequence_map s → h' !! id = store s !! id)) ∨
  (∃ s', for_each ds register_sequence s = (Err ValueError, s') ∧ sched_inv s' ∧
     max_batch_size s' = max_batch_size s ∧ max_tokens_per_step s' = max_tokens_per_step s).
Proof.
  revert s. induction ds as [|d ds IH]; intros s Hi; cbn [for_each].
  { left. exists (sequence_map s), (store s).
    assert (set_maps (sequence_map s) (request_map s) (set_store (store s) s) = s) as ->
      by by destruct s.
    split_and!; try done; [constructor|set_solver]. }
  munfold. destruct (register_sequence_inv s d Hi) as [(d' & -> & Hn & Hw)| ->]; [|right; by exists s].
  set (s1 := set_maps _ _ _). assert (sched_inv s1) as Hi1 by by apply inv_fresh.
  destruct (IH s1 Hi1) as [(sm' & h' & Hrun & Hi' & Hnd & Hsub & Hids & Hold)|(s' & Hrun & Hi' & Hb & Ht)];
    rewrite Hrun; [left|right; by exists s'].
  exists sm', h'. unfold s1 in *. simpl in *. split_and!; try done.
  - apply NoDup_cons. split; [|done]. intros Hin. destruct (Hids _ Hin) as [H1 _]. set_solver.
  - set_solver.
  - intros id [->|Hid]%elem_of_cons.
    + split_and!; [done|set_solver|]. unfold status_of. rewrite Hold by set_solver.
      rewrite lookup_insert_eq. simpl. by rewrite Hw.
    + destruct (Hids id Hid) as (H1 & H2 & H3). split_and!; [set_solver|done|done].
  - intros id Hid. rewrite Hold by set_solver. rewrite lookup_insert_ne; [done|]. by intros <-.
Qed.

(** A new group of waiting sequences none of which belongs to another group. *)
Lemma inv_new_group s g :
  sched_inv s → request_map s !! request_id g = None → NoDup (group_seqs g) →
  (∀ id, id ∈ group_seqs g → id ∈ sequence_map s ∧ status_of (store s) id = Some WAITING ∧
     ∀ g', member s g' → id ∉ group_seqs g') →
  sched_inv (set_queues (waiting s ++ [g]) (running s) (swapped s)
    (set_maps (sequence_map s) (<[request_id g := g]> (request_map s)) s)).
Proof.
  intros Hi Hnone Hnd Hids. pose proof Hi as [I1 I2 I3 I4 I5 I6 I7 I8]. set (s' := set_queues _ _ _ _).
  assert (∀ g', member s' g' ↔ g' = g ∨ member s g') as Hm.
  { intros g'. unfold member, s'. simpl. destruct (decide (request_id g' = request_id g)) as [E|E].
    - rewrite E, lookup_insert_eq, Hnone. naive_solver.
    - rewrite lookup_insert_ne by done. naive_solver. }
  assert (¬ member s g) as Hnm by (unfold member; by rewrite Hnone).
  constructor; try done.
  - intros r g'. unfold s'. simpl. intros [[<- <-]|[_ H]]%lookup_insert_Some; [done|by apply I2].
  - intros g1 g2 id [->|H1]%Hm [->|H2]%Hm Hin1 Hin2; [done| | |by eapply I3].
    + by destruct (Hids id Hin1) as (_ & _ & Hno); destruct (Hno g2 H2).
    + by destruct (Hids id Hin2) as (_ & _ & Hno); destruct (Hno g1 H1).
  - intros g' id [->|H]%Hm Hin; [|by apply (I4 g')].
    destruct (Hids id Hin) as (H1 & H2 & _). split; [done|]. apply status_of_Some. by exists WAITING.
  - unfold queues, s'. simpl. rewrite <- app_assoc. simpl. rewrite <- Permutation_middle.
    apply NoDup_cons. split; [|done]. intros Hin. by apply Hnm, I6.
  - intros g' Hin. apply Hm. unfold queues, s' in Hin. simpl in Hin. rewrite <- app_assoc in Hin.
    simpl in Hin. rewrite <- Permutation_middle in Hin. apply elem_of_cons in Hin as [->|Hin]; [by left|].
    right. by apply I6.
  - intros g' id st [->|H]%Hm Hin Hst.
    + destruct (Hids id Hin) as (_ & H2 & _). assert (st = WAITING) as -> by (unfold s' in Hst; simpl in Hst; congruence).
      unfold s'. simpl. set_solver.
    + specialize (I7 g' id st H Hin Hst). unfold s'. destruct st; simpl in *; set_solver.
  - intros id. unfold s' at 1. simpl. rewrite I8. setoid_rewrite Hm. split; [naive_solver|].
    intros (g' & st & [->|H] & Hin & Hst & Hh); [|by eauto 6].
    destruct (Hids id Hin) as (_ & H2 & _). unfold s' in Hst. simpl in Hst.
    assert (st = WAITING) as -> by congruence. done.
Qed.

Lemma add_request_inv rid ds s :
  sched_inv s → ∃ r s', add_request rid ds s = (r, s') ∧ sched_inv s' ∧
    max_batch_size s' = max_batch_size s ∧ max_tokens_per_step s' = max_tokens_per_step s ∧
    (r = Ok tt ∨ r = Err ValueError) ∧
    (r = Ok tt → request_map s' !! rid = Some (mkGroup rid (seq_id <$> ds)) ∧
       ∀ id, id ∈ seq_id <$> ds → status_of (store s') id = Some WAITING).
Proof.
  intros Hi. unfold add_request. munfold.
  destruct (bool_decide_reflect (is_Some (request_map s !! rid))) as [Hin|Hin].
  { exists (Err ValueError), s. split_and!; try done. by right. }
  destruct (register_all_inv ds s Hi) as [(sm' & h' & -> & Hi' & Hnd & Hsub & Hids & Hold)|(s' & -> & Hi' & Hb & Ht)].
  2: { exists (Err ValueError), s'. split_and!; try done. by right. }
  set (g := mkGroup rid (seq_id <$> ds)).
  pose proof (inv_new_group _ g Hi') as Hnew. simpl in Hnew.
  eexists _, _. split; [reflexivity|]. split_and!; try done; [|by left|].
  - apply Hnew.
    + by apply eq_None_not_Some.
    + done.
    + intros id Hid. destruct (Hids id Hid) as (H1 & H2 & H3). split_and!; [done|done|].
      intros g' Hm Hin'. apply H1. by apply (inv_seqs s Hi g' id).
  - intros _. simpl. split; [apply lookup_insert_eq|]. intros id Hid. by apply Hids.
Qed.

(** ** Histories *)

(** One call to the scheduler, whatever its outcome. *)
Inductive sched_step : Scheduler V → Scheduler V → Prop :=
  | step_add rid ds s : sched_step s (add_request rid ds s).2
  | step_schedule s : sched_step s (schedule s).2
  | step_update order completed decs s :
      sched_step s (update_after_step order completed decs s).2
  | step_abort rid s : sched_step s (abort_request rid s).2
  | step_cp p s : sched_step s (sched_set_cp p s).2.

(** The states a scheduler over a new cache reaches. *)
Definition reachable s : Prop :=
  ∃ zero cuda nb bs nl nh hd dev batch tokens c s0,
    kv_init zero cuda nb bs nl nh hd dev = Ok c ∧ sched_init c batch tokens = Ok s0 ∧
    rtc sched_step s0 s.

(** The invariant together with positive limits. *)
Definition sched_good s : Prop :=
  sched_inv s ∧ 0 < max_batch_size s ∧ 0 < max_tokens_per_step s.

Lemma sched_init_good c batch tokens s0 :
  kv_conserved c → sequence_tables c = ∅ → sched_init c batch tokens = Ok s0 → sched_good s0.
Proof.
  intros Hc Ht. unfold sched_init. destruct (Z.leb_spec batch 0); [done|].
  destruct (Z.leb_spec tokens 0); [done|]. intros [= <-]. split_and!; [|done|done].
  constructor; simpl; try done; try set_solver.
  - constructor.
  - intros id. unfold tabled. rewrite Ht, dom_empty_L.
    split; [set_solver|]. by intros (g & st & Hm & _).
Qed.

Lemma sched_step_good s s' : sched_step s s' → sched_good s → sched_good s'.
Proof.
  intros Hst (Hi & Hb & Ht). destruct Hst as [rid ds s|s|order completed decs s|rid s|p s].
  - destruct (add_request_inv rid ds s Hi) as (r & s' & -> & Hi' & Hb' & Ht' & _).
    split_and!; simpl; [done|lia|lia].
  - destruct (schedule_spec s Hi Hb Ht) as (o & s' & -> & Hi' & [] & _). split_and!; simpl; [done|lia|lia].
  - destruct (update_after_step_inv order completed decs s Hi) as (r & s' & -> & Hi' & Hb' & Ht').
    split_and!; simpl; [done|lia|lia].
  - destruct (abort_request_spec s rid Hi) as (s' & -> & Hi' & Hb' & Ht' & _).
    split_and!; simpl; [done|lia|lia].
  - split_and!; simpl; [|done|done]. by destruct Hi.
Qed.

Lemma kv_init_tables (zero : V) cuda nb bs nl nh hd dev c :
  kv_init zero cuda nb bs nl nh hd dev = Ok c → sequence_tables c = ∅.
Proof.
  unfold kv_init. repeat (case_match; [done|]). destruct (ba_init _ _ _ _); [|done]. by intros [= <-].
Qed.

Lemma reachable_good s : reachable s → sched_good s.
Proof.
  intros (zero & cuda & nb & bs & nl & nh & hd & dev & batch & tokens & c & s0 & Hc & Hs & Hrtc).
  assert (sched_good s0) as H0.
  { eapply sched_init_good; [|by eapply kv_init_tables|done]. by eapply kv_init_conserved. }
  clear Hc Hs. induction Hrtc as [|s1 s2 s3 Hst _ IH]; [done|]. apply IH. by eapply sched_step_good.
Qed.

Lemma reachable_step s s' : reachable s → sched_step s s' → reachable s'.
Proof.
  intros (z & cu & nb & bs & nl & nh & hd & dev & ba & to & c & s0 & Hc & Hs & Hrtc) Hst.
  exists z, cu, nb, bs, nl, nh, hd, dev, ba, to, c, s0. split_and!; [done|done|by eapply rtc_r].
Qed.

(** C3: In every state the scheduler reaches by any history of calls, raising
    or not: all KV blocks are accounted for exactly once; groups of different
    requests share no sequence; the three queues hold each group at most once
    and only registered groups; every live sequence's group is in the queue
    that its status names (so no request is ever lost); and a sequence owns a
    block table exactly when it is in [PREFILL], [DECODE] or [SWAPPED]. *)
Theorem scheduler_invariant s : reachable s → sched_inv s.
Proof. intros H. by destruct (reachable_good s H). Qed.

(** C7: [schedule] never raises in a reachable state.  It selects at most
    [max_batch_size] sequences and [max_tokens_per_step] tokens, counts its
    tokens exactly, selects no sequence twice, selects for decoding only
    sequences in [DECODE] and for prefill only sequences now in [PREFILL] or
    preempted again in the same call; and every selected id has a sequence and
    a block table, which is what [BatchBuilder] needs. *)
Theorem schedule_total_within_budget s :
  reachable s → ∃ o s', schedule s = (Ok o, s') ∧ schedule_ok s' o ∧
    max_batch_size s' = max_batch_size s ∧ max_tokens_per_step s' = max_tokens_per_step s.
Proof.
  intros H. destruct (reachable_good s H) as (Hi & Hb & Ht).
  destruct (schedule_spec s Hi Hb Ht) as (o & s' & Hrun & _ & [] & Hok). by exists o, s'.
Qed.

(** C25: [abort_request] of any request id never raises; afterwards the request
    is unknown, each of its sequences is in a terminal status and owns no
    blocks, and every other request with live sequences is untouched. *)
Theorem abort_request_releases s rid :
  reachable s → ∃ s', abort_request rid s = (Ok tt, s') ∧ request_map s' !! rid = None ∧
    (∀ g id, request_map s !! rid = Some g → id ∈ group_seqs g → over s' id) ∧
    (∀ g, member s g → request_id g ≠ rid → group_active (store s) g = true →
       member s' g ∧ ∀ id, id ∈ group_seqs g → store s' !! id = store s !! id).
Proof.
  intros H. destruct (reachable_good s H) as (Hi & _ & _).
  destruct (abort_request_spec s rid Hi) as (s' & Hrun & _ & _ & _ & H1 & H2 & H3). by exists s'.
Qed.

Lemma advance_keeps_not_waiting completed ids s s' :
  for_each ids (advance_decode completed) s = (Ok tt, s') →
  ∀ id, status_of (store s) id ≠ Some WAITING → status_of (store s') id ≠ Some WAITING.
Proof.
  revert s. induction ids as [|i ids IH]; intros s Hrun id Hw; cbn [for_each] in Hrun.
  { munfold in Hrun. by simplify_eq. }
  munfold in Hrun. destruct (advance_decode completed i s) as [[[]|e] s1] eqn:H1; [|done].
  apply (IH s1 Hrun). clear IH Hrun. unfold advance_decode in H1. munfold in H1.
  destruct (_ || _); [by simplify_eq|].
  assert (∀ s2, (if has_status (store s) [PREFILL] i then on_seq i (set_status DECODE)
                 else λ s0, (Ok tt, s0)) s = (Ok tt, s2) →
    status_of (store s2) id ≠ Some WAITING) as Hmid.
  { intros s2. destruct (has_status (store s) [PREFILL] i); [|by intros [= <-]].
    unfold on_seq. destruct (store s !! i) as [d|] eqn:Hd; [|done].
    unfold set_status, validate_transition. munfold.
    destruct (decide (status d = DECODE)); [|destruct (decide (DECODE ∈ _))];
      intros [= <-]; simpl; rewrite status_insert; by case_decide. }
  destruct ((if has_status (store s) [PREFILL] i then on_seq i (set_status DECODE)
             else λ s0, (Ok tt, s0)) s) as [[[]|e] s2] eqn:H2; [|done].
  specialize (Hmid s2 eq_refl). revert H1.
  destruct (has_status (store s2) [DECODE] i); [|by intros [= <-]].
  unfold try_pass, on_kv, zoom. destruct (append_tokens i 1 (kv s2)) as [[[]|e] c'];
    [by intros [= <-]|]. destruct (bool_decide _); by intros [= <-].
Qed.

(** After a step, [update_after_step] succeeds whenever there are at least
    as many free blocks as sequences to advance and no completed sequence is
    still waiting; every completed sequence the scheduler knows is then in a
    terminal status and owns no blocks. *)
Theorem update_after_step_completes s order completed decs :
  reachable s → zlen (fromkeys decs) ≤ free_blocks s →
  (∀ id, id ∈ order ↔ id ∈ completed) →
  (∀ id, id ∈ completed → status_of (store s) id ≠ Some WAITING) →
  ∃ s', update_after_step order completed decs s = (Ok tt, s') ∧
    ∀ id, id ∈ completed → id ∈ sequence_map s → over s' id.
Proof.
  intros H Hfree Hord Hnw. destruct (reachable_good s H) as (Hi & _ & _).
  unfold update_after_step. munfold.
  destruct (advance_all_inv completed (fromkeys decs) s Hi) as (r1 & s1 & H1 & Hi1 & Hs1 & _ & Hok).
  rewrite (Hok Hfree) in H1. rewrite H1.
  destruct (complete_all_inv order s1 Hi1) as (s2 & -> & Hi2 & Hs2 & Ho2 & _).
  { intros id Hid. eapply advance_keeps_not_waiting; [done|]. by apply Hnw, Hord. }
  destruct (prune_inv s2 Hi2) as (s' & -> & _ & Hkv & Hst & _).
  exists s'. split; [done|]. intros id Hid Hsm. unfold over. rewrite Hkv, Hst.
  apply Ho2; [by apply Hord|]. by rewrite (setup_sm _ _ Hs1).
Qed.
End histories.

(** ** Concrete histories *)

(** A scheduler over a cache of four blocks of two tokens. *)
Definition sched_demo0 : Scheduler Z :=
  match sched_init demo0 4 64 with
  | Ok s => s
  | Err _ => mkSched demo0 1 1 [] [] [] ∅ ∅ None ∅
  end.

Definition demo_seq (id : Z) (n : nat) : SequenceData :=
  new_sequence id (replicate n 1) default_sampling_params.

(** Requests of six and of four prompt tokens are waiting. *)
Definition sched_demo1 : Scheduler Z :=
  (add_request "b" [demo_seq 1 4] (add_request "a" [demo_seq 0 6] sched_demo0).2).2.

(** One request that fills the cache, in its first decode step. *)
Definition sched_demo2 : Scheduler Z :=
  (schedule (add_request "a" [demo_seq 0 8] sched_demo0).2).2.

(** What [schedule] returns there. *)
Definition schedule_out (s : Scheduler Z) : SchedulerOutput :=
  match (schedule s).1 with Ok o => o | Err _ => empty_output end.

Lemma sched_demo0_reachable : reachable sched_demo0.
Proof.
  exists 0, false, 4, 2, 1, 1, 1, None, 4, 64, demo0, sched_demo0.
  split_and!; [reflexivity|reflexivity|apply rtc_refl].
Qed.

Lemma sched_demo1_reachable : reachable sched_demo1.
Proof. eapply reachable_step; [eapply reachable_step; [apply sched_demo0_reachable|]|]; constructor. Qed.

Lemma sched_demo2_reachable : reachable sched_demo2.
Proof. eapply reachable_step; [eapply reachable_step; [apply sched_demo0_reachable|]|]; constructor. Qed.

Lemma scheduler_invariant_witness : sched_inv sched_demo1.
Proof. apply (scheduler_invariant sched_demo1). apply sched_demo1_reachable. Defined.

Lemma schedule_total_within_budget_witness :
  ∃ o s', schedule sched_demo1 = (Ok o, s') ∧ schedule_ok s' o ∧
    max_batch_size s' = 4 ∧ max_tokens_per_step s' = 64.
Proof. apply (schedule_total_within_budget sched_demo1). apply sched_demo1_reachable. Defined.

Lemma abort_request_releases_witness :
  ∃ s', abort_request "a" sched_demo2 = (Ok tt, s') ∧ request_map s' !! "a" = None ∧
    (∀ g id, request_map sched_demo2 !! "a" = Some g → id ∈ group_seqs g → over s' id) ∧
    (∀ g, member sched_demo2 g → request_id g ≠ "a" → group_active (store sched_demo2) g = true →
       member s' g ∧ ∀ id, id ∈ group_seqs g → store s' !! id = store sched_demo2 !! id).
Proof. apply (abort_request_releases sched_demo2 "a"). apply sched_demo2_reachable. Defined.

Lemma update_after_step_completes_witness :
  ∃ s', update_after_step [0] [0] [] sched_demo2 = (Ok tt, s') ∧
    ∀ id, id ∈ [0] → id ∈ sequence_map sched_demo2 → over s' id.
Proof.
  apply (update_after_step_completes sched_demo2 [0] [0] []).
  - apply sched_demo2_reachable.
  - vm_compute. discriminate.
  - done.
  - intros id ->%list_elem_of_singleton. vm_compute. discriminate.
Defined.

(** C40: A group that [schedule] admits can be preempted again by the same call:
    there is a reachable state in which [schedule] returns sequence 0 in
    [prefill_seq_ids] although it is [SWAPPED] and its block table is empty, so
    the step prefills a sequence that has nowhere to store its keys and
    values. *)
Theorem schedule_preempts_what_it_admitted :
  ∃ s o s', @reachable Z s ∧ schedule s = (Ok o, s') ∧
    0 ∈ prefill_seq_ids o ∧ 0 ∈ preempted_seq_ids o ∧
    status_of (store s') 0 = Some SWAPPED ∧ (get_block_table 0 (kv s')).1 = Ok [].
Proof.
  exists sched_demo1, (schedule_out sched_demo1), (schedule sched_demo1).2.
  split; [apply sched_demo1_reachable|].
  split_and!; try (vm_compute; reflexivity).
  - apply (bool_decide_unpack _). vm_compute. exact I.
  - apply (bool_decide_unpack _). vm_compute. exact I.
Qed.

(** Running out of blocks while decoding is not handled: there is a
    reachable state in which advancing the one running sequence makes
    [update_after_step] raise [RuntimeError], which only catches [KeyError],
    instead of preempting. *)
Theorem update_after_step_raises_when_full :
  ∃ s s', @reachable Z s ∧ get_running_seq_ids s = [0] ∧
    update_after_step [] [] [0] s = (Err RuntimeError, s').
Proof.
  exists sched_demo2, (update_after_step [] [] [0] sched_demo2).2.
  split; [apply sched_demo2_reachable|]. split_and!; vm_compute; reflexivity.
Qed.
