(* ===== verification/Sampler.v ===== *)
(** * Token sampling (serving/sampler.py)

    A row of logits is a list of values, [None] standing for minus infinity.
    The tensor operations the sampler calls are parameters, with what torch
    documents of them as hypotheses; random draws are numbered, so that two
    draws from the same distribution may differ. *)
From S2P Require Import Prelude Sequence.
From Stdlib Require Import QArith.
Open Scope Z_scope.

Abbreviation Row := (list (option Q)).

(** [a <= b] on values extended with minus infinity. *)
Definition le_inf (a b : option Q) : bool :=
  match a, b with
  | None, _ => true
  | Some _, None => false
  | Some x, Some y => Qle_bool x y
  end.

Record SamplerOutput := mkSampled {
  token_ids : list Z;
  token_logprobs : option (list (option Q));
  top_logprobs : option (list (option (list (Z * Q))))
}.

Section sampler.
Context (argmax : Row → nat)                    (** [torch.argmax(row)] *)
        (topk : Row → nat → list nat)           (** [torch.topk(row, k).indices] *)
        (sort_desc_indices : Row → list nat)    (** [torch.sort(row, descending=True)[1]] *)
        (softmax : Row → list Q)
        (log_softmax : Row → list Q)
        (multinomial : nat → list Q → nat).     (** draw [i] of [torch.multinomial(probs, 1)] *)

(** [torch.full_like(row, -inf)] with [row]'s values put back at [idxs]. *)
Definition keep_only (row : Row) (idxs : list nat) : Row :=
  imap (λ i x, if bool_decide (i ∈ idxs) then x else None) row.

(** [_apply_top_k] *)
Definition apply_top_k (logits : Row) (top_k : Z) : Row :=
  if (top_k <=? 0) || (zlen logits <=? top_k) then logits
  else keep_only logits (topk logits (Z.to_nat top_k)).

(** [torch.cumsum] *)
Fixpoint cumsum (acc : Q) (l : list Q) : list Q :=
  match l with
  | [] => []
  | x :: l' => (acc + x)%Q :: cumsum (acc + x)%Q l'
  end.

(** [logits[idxs]] *)
Definition gather_row (row : Row) (idxs : list nat) : Row :=
  (λ i, default None (row !! i)) <$> idxs.

(** [remove_mask]: the cumulative probability exceeds [top_p], except for the
    first position. *)
Definition remove_mask (top_p : Q) (cumulative_probs : list Q) : list bool :=
  imap (λ i c, match i with O => false | _ => negb (Qle_bool c top_p) end) cumulative_probs.

(** [_apply_top_p] *)
Definition apply_top_p (logits : Row) (top_p : Q) : Row :=
  if Qle_bool 1 top_p then logits
  else if Qle_bool top_p 0 then keep_only logits [argmax logits]
  else
    let sorted_indices := sort_desc_indices logits in
    let sorted_logits := gather_row logits sorted_indices in
    let mask := remove_mask top_p (cumsum 0%Q (softmax sorted_logits)) in
    let kept := omap (λ p : nat * bool, if p.2 then None else Some p.1) (zip sorted_indices mask) in
    keep_only logits kept.

(** [row / temperature] *)
Definition scale (t : Q) (row : Row) : Row :=
  (λ x : option Q, (λ v, (v / t)%Q) <$> x) <$> row.

(** The loop body of [sample] for row [idx]: the sampled token and the filtered
    row its log probabilities are taken from. *)
Definition sample_row (idx : nat) (row : Row) (params : SamplingParams) : res (nat * Row) :=
  let temperature := temperature params in
  if Qeq_bool temperature 0 then Ok (argmax row, row)
  else if negb (Qle_bool 0 temperature) then Err ValueError
  else
    let filtered := scale temperature row in
    let filtered := apply_top_k filtered (top_k params) in
    let filtered := apply_top_p filtered (top_p params) in
    Ok (multinomial idx (softmax filtered), filtered).

(** The log probabilities recorded for one row. *)
Definition row_logprobs (row : Row) (token : nat) (params : SamplingParams)
    : option Q * option (list (Z * Q)) :=
  if logprobs params <=? 0 then (None, None)
  else
    let lp := log_softmax row in
    let k := Z.to_nat (Z.min (logprobs params) (zlen lp)) in
    let idxs := topk (Some <$> lp) k in
    (lp !! token, Some ((λ i, (Z.of_nat i, default 0%Q (lp !! i))) <$> idxs)).

Fixpoint sample_rows (idx : nat) (rows : list Row) (params : list SamplingParams)
    : res (list (nat * Row)) :=
  match rows, params with
  | row :: rows', p :: params' =>
      match sample_row idx row p with
      | Err e => Err e
      | Ok r =>
          match sample_rows (S idx) rows' params' with
          | Err e => Err e
          | Ok rs => Ok (r :: rs)
          end
      end
  | _, _ => Ok []
  end.

(** [Sampler.sample]; a tensor of [n] rows has one vocabulary size. *)
Definition sample (vocab_size : Z) (logits : list Row) (sampling_params : list SamplingParams)
    : res SamplerOutput :=
  if negb (zlen logits =? zlen sampling_params) then Err ValueError
  else if vocab_size <=? 0 then Err ValueError
  else
    match sample_rows 0 logits sampling_params with
    | Err e => Err e
    | Ok rs =>
        let requested := existsb (λ p, 0 <? logprobs p) sampling_params in
        let lps := zip_with (λ (r : nat * Row) p, row_logprobs r.2 r.1 p) rs sampling_params in
        Ok (mkSampled ((λ r, Z.of_nat (fst r)) <$> rs)
              (if requested then Some lps.*1 else None)
              (if requested then Some lps.*2 else None))
    end.

(** ** Properties *)

(** [i] is a position with a largest value. *)
Definition is_max (row : Row) (i : nat) : Prop :=
  ∃ y, row !! i = Some y ∧ ∀ j x, row !! j = Some x → le_inf x y = true.

(** What torch documents of the operations above.  A probability may underflow to zero, but
    not that of a largest logit. *)
Record tensor_ops_ok : Prop := {
  argmax_ok : ∀ row, row ≠ [] → is_max row (argmax row);
  topk_ok : ∀ row k, (k ≤ length row)%nat →
    (∀ i, i ∈ topk row k → (i < length row)%nat) ∧ length (topk row k) = k ∧
    ∀ i j x y, i ∉ topk row k → j ∈ topk row k →
      row !! i = Some x → row !! j = Some y → le_inf x y = true;
  sort_perm : ∀ row, sort_desc_indices row ≡ₚ seq 0 (length row);
  sort_head : ∀ row, row ≠ [] → ∃ i l, sort_desc_indices row = i :: l ∧ is_max row i;
  softmax_length : ∀ row, length (softmax row) = length row;
  softmax_zero : ∀ row i, row !! i = Some None → (∃ j q, row !! j = Some (Some q)) →
    ∃ p, softmax row !! i = Some p ∧ (p == 0)%Q;
  softmax_max : ∀ row i q, is_max row i → row !! i = Some (Some q) → ∃ p, softmax row !! i = Some p ∧ ¬ (p == 0)%Q;
  multinomial_ok : ∀ n probs, (∃ j q, probs !! j = Some q ∧ ¬ (q == 0)%Q) →
    ∃ q, probs !! multinomial n probs = Some q ∧ ¬ (q == 0)%Q
}.
Context (ops : tensor_ops_ok).

(** Some logit is finite. *)
Definition has_finite (row : Row) : Prop := ∃ j q, row !! j = Some (Some q).

Lemma keep_only_lookup row idxs i :
  keep_only row idxs !! i = (λ x, if bool_decide (i ∈ idxs) then x else None) <$> row !! i.
Proof. apply (list_lookup_imap (λ i x, if bool_decide (i ∈ idxs) then x else None) row i). Qed.

Lemma length_keep_only row idxs : length (keep_only row idxs) = length row.
Proof. unfold keep_only. apply length_imap. Qed.

Lemma keep_only_finite row idxs i x :
  keep_only row idxs !! i = Some (Some x) ↔ i ∈ idxs ∧ row !! i = Some (Some x).
Proof.
  rewrite keep_only_lookup. destruct (row !! i) as [y|]; simpl; [|naive_solver].
  case_bool_decide; naive_solver.
Qed.

Lemma scale_lookup t row i :
  scale t row !! i = (λ x : option Q, (λ v, (v / t)%Q) <$> x) <$> row !! i.
Proof. apply (list_lookup_fmap (λ x : option Q, (λ v, (v / t)%Q) <$> x) row i). Qed.

Lemma is_max_finite row i : has_finite row → is_max row i → ∃ q, row !! i = Some (Some q).
Proof.
  intros (j & q & Hj) (y & Hi & Hmax). specialize (Hmax j (Some q) Hj).
  destruct y as [y|]; [eauto|done].
Qed.

(** The kept positions of [row'] come from [row] unchanged. *)
Definition filtered_of (row row' : Row) : Prop :=
  length row' = length row ∧ ∀ i x, row' !! i = Some (Some x) → row !! i = Some (Some x).

Lemma keep_only_filtered row idxs : filtered_of row (keep_only row idxs).
Proof. split; [apply length_keep_only|]. intros i x Hx. by apply keep_only_finite in Hx as [_ Hx]. Qed.

Lemma top_k_filtered row k :
  has_finite row →
  filtered_of row (apply_top_k row k) ∧ has_finite (apply_top_k row k) ∧
  (0 < k < zlen row → ∀ i x, apply_top_k row k !! i = Some (Some x) → i ∈ topk row (Z.to_nat k)).
Proof.
  intros Hf. unfold apply_top_k.
  destruct ((k <=? 0) || (zlen row <=? k)) eqn:Hk.
  { split_and!; [done|done|]. lia. }
  apply orb_false_iff in Hk as [Hk1 Hk2]. apply Z.leb_gt in Hk1, Hk2.
  assert (Z.to_nat k ≤ length row)%nat as Hle by (unfold zlen in *; lia).
  destruct (topk_ok ops row (Z.to_nat k) Hle) as (Hlt & Hlen & Hdom).
  split_and!; [apply keep_only_filtered| |].
  - destruct Hf as (j & q & Hj). destruct (decide (j ∈ topk row (Z.to_nat k))) as [Hin|Hout].
    { exists j, q. by apply keep_only_finite. }
    destruct (topk row (Z.to_nat k)) as [|i l] eqn:Htop; [simpl in Hlen; lia|].
    destruct (lookup_lt_is_Some_2 row i) as [y Hy]; [apply Hlt; set_solver|].
    specialize (Hdom j i (Some q) y Hout ltac:(set_solver) Hj Hy).
    destruct y as [y|]; [|done]. exists i, y. apply keep_only_finite. set_solver.
  - intros _ i x Hx. by apply keep_only_finite in Hx as [Hx _].
Qed.

(** *** The two filters, stated without the code's *)

(** The rows after the first filter *)
Definition top_k_row (row : Row) (k : Z) : Row :=
  if decide (0 < k < zlen row) then imap (λ i x, if bool_decide (i ∈ topk row (Z.to_nat k)) then x else None) row else row.
Definition mass (l : list Q) : Q := foldr Qplus 0%Q l.
(** A position of the nucleus: the first of the sorted ones, or one up to which the
    probabilities of the sorted positions add up to at most [p]. *)
Definition nucleus (row : Row) (p : Q) (i : nat) : Prop :=
  let order := sort_desc_indices row in
  ∃ r, order !! r = Some i ∧ (r = 0%nat ∨ Qle_bool (mass (take (S r) (softmax (gather_row row order)))) p = true).
Definition allowed_by_top_p (row : Row) (p : Q) (i : nat) : Prop :=
  if Qle_bool 1 p then True else if Qle_bool p 0 then i = argmax row else nucleus row p i.

Lemma apply_top_k_spec row k : apply_top_k row k = top_k_row row k.
Proof.
  unfold apply_top_k, top_k_row. case_decide as Hk; destruct (Z.leb_spec k 0), (Z.leb_spec (zlen row) k); cbn [orb]; try done; lia.
Qed.
Lemma Qle_bool_eq a b p : (a == b)%Q → Qle_bool a p = Qle_bool b p.
Proof. intros E. apply eq_true_iff_eq. rewrite !Qle_bool_iff. by rewrite E. Qed.
Lemma cumsum_lookup acc l r c : cumsum acc l !! r = Some c → (c == acc + mass (take (S r) l))%Q.
Proof.
  revert acc r. induction l as [|x l IH]; intros acc [|r] H; cbn in H; simplify_eq.
  - change (acc + x == acc + (x + 0))%Q. ring.
  - apply IH in H. rewrite H. change (take (S (S r)) (x :: l)) with (x :: take (S r) l). unfold mass. cbn [foldr]. ring.
Qed.
Lemma length_cumsum acc l : length (cumsum acc l) = length l.
Proof. revert acc. induction l as [|x l IH]; intros acc; cbn; [done|]. by rewrite IH. Qed.
Lemma elem_of_kept (idxs : list nat) (mask : list bool) i :
  i ∈ omap (λ p : nat * bool, if p.2 then None else Some p.1) (zip idxs mask) ↔ ∃ r, idxs !! r = Some i ∧ mask !! r = Some false.
Proof.
  rewrite list_elem_of_omap. split.
  - intros ([j b] & Hin & Hb). cbn in Hb. destruct b; [done|]. injection Hb as ->.
    apply list_elem_of_lookup in Hin as [r Hr]. apply lookup_zip_Some in Hr as [H1 H2]. by exists r.
  - intros (r & H1 & H2). exists (i, false). split; [|done]. apply (list_elem_of_lookup_2 _ r). apply lookup_zip_Some. done.
Qed.
Lemma kept_nucleus row p i :
  i ∈ omap (λ q : nat * bool, if q.2 then None else Some q.1)
        (zip (sort_desc_indices row) (remove_mask p (cumsum 0%Q (softmax (gather_row row (sort_desc_indices row))))))
  ↔ nucleus row p i.
Proof.
  rewrite elem_of_kept. unfold nucleus. cbn zeta. set (probs := softmax _).
  assert (length probs = length (sort_desc_indices row)) as Hl by (unfold probs; rewrite (softmax_length ops); apply length_fmap).
  apply exist_proper. intros r. split; intros [Hr Hm]; split; try done.
  - unfold remove_mask in Hm. rewrite list_lookup_imap in Hm. destruct r as [|r]; [by left|right].
    destruct (cumsum 0 probs !! S r) as [c|] eqn:Hc; cbn in Hm; [|done]. injection Hm as Hm. apply negb_false_iff in Hm.
    rewrite <-Hm. apply Qle_bool_eq. rewrite (cumsum_lookup _ _ _ _ Hc). ring.
  - unfold remove_mask. rewrite list_lookup_imap. assert (is_Some (cumsum 0 probs !! r)) as [c Hc].
    { apply lookup_lt_is_Some. rewrite length_cumsum, Hl. by apply lookup_lt_Some in Hr. }
    rewrite Hc. cbn. destruct r as [|r]; [done|]. f_equal. apply negb_false_iff. destruct Hm as [|Hm]; [done|].
    rewrite <-Hm. apply Qle_bool_eq. rewrite (cumsum_lookup _ _ _ _ Hc). ring.
Qed.
Lemma apply_top_p_spec row p i x :
  apply_top_p row p !! i = Some (Some x) ↔ row !! i = Some (Some x) ∧ allowed_by_top_p row p i.
Proof.
  unfold apply_top_p, allowed_by_top_p. case_match; [tauto|]. case_match; rewrite keep_only_finite.
  - rewrite list_elem_of_singleton. tauto.
  - rewrite kept_nucleus. tauto.
Qed.
Lemma top_p_filtered row p : has_finite row → length (apply_top_p row p) = length row ∧ has_finite (apply_top_p row p).
Proof.
  intros Hf. assert (row ≠ []) as Hne by (intros ->; by destruct Hf as (j & q & Hj)).
  split; [unfold apply_top_p; repeat case_match; [done|apply length_keep_only..]|].
  unfold has_finite. setoid_rewrite apply_top_p_spec. unfold allowed_by_top_p. case_match; [destruct Hf as (j & q & Hj); by exists j, q|]. case_match.
  - destruct (is_max_finite row _ Hf (argmax_ok ops row Hne)) as [q Hq]. by exists (argmax row), q.
  - destruct (sort_head ops row Hne) as (i & l & Hs & Hmax). destruct (is_max_finite row i Hf Hmax) as [q Hq].
    exists i, q. split; [done|]. exists 0%nat. rewrite Hs. by split; [|left].
Qed.

(** C24: For a row with a finite logit, sampling never fails on a non-negative temperature and
    returns a token of the vocabulary with a finite logit.  Greedy decoding ([temperature == 0])
    returns a maximal one and leaves the row alone.  Otherwise the row that the log
    probabilities are taken from keeps exactly the scaled logits that survive both filters:
    those among the [top_k] positions, if [0 < top_k < vocab_size], and of these the largest if
    [top_p <= 0], the nucleus of mass [top_p] if [0 < top_p < 1], and all if [top_p >= 1]; and
    the token is one of them. *)
Theorem sample_row_sound idx row params :
  has_finite row → Qle_bool 0 (temperature params) = true →
  ∃ tok row', sample_row idx row params = Ok (tok, row') ∧
    (∃ q, row !! tok = Some (Some q)) ∧
    if Qeq_bool (temperature params) 0 then is_max row tok ∧ row' = row
    else
      let scaled := scale (temperature params) row in
      let krow := top_k_row scaled (top_k params) in
      length row' = length row ∧ (∃ q, row' !! tok = Some (Some q)) ∧
      ∀ i x, row' !! i = Some (Some x) ↔
        scaled !! i = Some (Some x) ∧ (0 < top_k params < zlen row → i ∈ topk scaled (Z.to_nat (top_k params))) ∧
        allowed_by_top_p krow (top_p params) i.
Proof.
  intros Hf Ht. unfold sample_row. rewrite Ht. cbn [negb].
  assert (row ≠ []) as Hne by (intros ->; by destruct Hf as (j & q & Hj)).
  destruct (Qeq_bool (temperature params) 0).
  { exists (argmax row), row. pose proof (argmax_ok ops row Hne) as Hm.
    split_and!; [done|by apply is_max_finite|done|done]. }
  set (srow := scale (temperature params) row).
  assert (has_finite srow) as Hfs.
  { destruct Hf as (j & q & Hj). exists j. unfold srow. rewrite scale_lookup, Hj. simpl. eauto. }
  destruct (top_k_filtered srow (top_k params) Hfs) as ([Hl1 Hk1] & Hfk & Hin).
  rewrite apply_top_k_spec in *. set (krow := top_k_row srow (top_k params)) in *.
  destruct (top_p_filtered krow (top_p params) Hfk) as (Hl2 & Hfp).
  set (frow := apply_top_p krow (top_p params)) in *.
  assert (length srow = length row) as Hls by apply length_fmap. assert (zlen srow = zlen row) as Hz by (unfold zlen; by rewrite Hls).
  assert (∀ i x, krow !! i = Some (Some x) ↔ srow !! i = Some (Some x) ∧ (0 < top_k params < zlen row → i ∈ topk srow (Z.to_nat (top_k params)))) as Hkrow.
  { intros i x. unfold krow, top_k_row. rewrite Hz. case_decide as Hd; [|naive_solver].
    change (imap _ srow) with (keep_only srow (topk srow (Z.to_nat (top_k params)))). rewrite keep_only_finite. naive_solver. }
  assert (frow ≠ []) as Hfne by (intros E; rewrite E in Hfp; by destruct Hfp as (j & q & Hj)).
  destruct (multinomial_ok ops idx (softmax frow)) as (p & Hp & Hnz).
  { pose proof (argmax_ok ops frow Hfne) as Hm. destruct (is_max_finite frow _ Hfp Hm) as [q Hq].
    destruct (softmax_max ops frow _ q Hm Hq) as (p & Hp & Hnz). eauto. }
  assert (∃ x, frow !! multinomial idx (softmax frow) = Some (Some x)) as [x Hx].
  { destruct (frow !! multinomial idx (softmax frow)) as [[x|]|] eqn:Hx; [by eauto| |].
    - destruct (softmax_zero ops frow _ Hx Hfp) as (p' & Hp' & Hz'). congruence.
    - apply lookup_ge_None in Hx. apply lookup_lt_Some in Hp. rewrite (softmax_length ops) in Hp. lia. }
  eexists _, frow. split; [done|]. split.
  { apply apply_top_p_spec in Hx as [Hx _]. apply Hkrow in Hx as [Hx _]. unfold srow in Hx. rewrite scale_lookup in Hx.
    destruct (row !! _) as [[q|]|]; simpl in Hx; [by eauto|done|done]. }
  cbv zeta. split; [lia|]. split; [by exists x|]. intros i y. unfold frow. rewrite apply_top_p_spec, Hkrow. tauto.
Qed.
End sampler.

(** ** An implementation of the tensor operations *)
Section reference_ops.

Definition val (row : Row) (i : nat) : option Q := default None (row !! i).

(** Larger values first. *)
Definition ge_at (row : Row) (i j : nat) : Prop := Is_true (le_inf (val row j) (val row i)).

#[local] Instance ge_at_dec row : RelDecision (ge_at row).
Proof. intros i j. unfold ge_at. apply _. Defined.

Definition ref_sort (row : Row) : list nat := merge_sort (ge_at row) (seq 0 (length row)).
Definition ref_argmax (row : Row) : nat := default 0%nat (head (ref_sort row)).
Definition ref_topk (row : Row) (k : nat) : list nat := take k (ref_sort row).
(** The same weight for every finite logit *)
Definition ref_weight (row : Row) (x : option Q) : Q :=
  match x with Some _ => 1 # Pos.of_nat (length (filter (λ y : option Q, is_Some y) row)) | None => 0%Q end.
Definition ref_softmax (row : Row) : list Q := ref_weight row <$> row.
Definition ref_multinomial (n : nat) (probs : list Q) : nat :=
  default 0%nat (head (filter (λ i, Is_true (negb (Qeq_bool (default 0%Q (probs !! i)) 0)))
                         (seq 0 (length probs)))).

Lemma le_inf_trans a b c : le_inf a b = true → le_inf b c = true → le_inf a c = true.
Proof.
  destruct a as [x|], b as [y|], c as [z|]; simpl; try done.
  rewrite !Qle_bool_iff. apply Qle_trans.
Qed.

Lemma le_inf_total a b : le_inf a b = true ∨ le_inf b a = true.
Proof.
  destruct a as [x|], b as [y|]; simpl; auto. rewrite !Qle_bool_iff.
  destruct (Qlt_le_dec x y) as [H|H]; [left; by apply Qlt_le_weak|by right].
Qed.

#[local] Instance ge_at_trans row : Transitive (ge_at row).
Proof. intros i j k. unfold ge_at. rewrite !Is_true_true. intros H1 H2. by eapply le_inf_trans. Qed.

#[local] Instance ge_at_total row : Total (ge_at row).
Proof. intros i j. unfold ge_at. rewrite !Is_true_true. apply le_inf_total. Qed.

Lemma ref_sort_perm row : ref_sort row ≡ₚ seq 0 (length row).
Proof. apply merge_sort_Permutation. Qed.

Lemma ref_sort_dominates row l1 l2 i j :
  ref_sort row = l1 ++ l2 → i ∈ l1 → j ∈ l2 → le_inf (val row j) (val row i) = true.
Proof.
  intros Hs Hi Hj.
  assert (StronglySorted (ge_at row) (ref_sort row)) as Hss by (apply StronglySorted_merge_sort; apply _).
  rewrite Hs in Hss. apply Is_true_true. apply StronglySorted_app in Hss as (Hd & _ & _). by apply Hd.
Qed.

Lemma val_lookup row i x : row !! i = Some x → val row i = x.
Proof. intros Hx. unfold val. by rewrite Hx. Qed.

Lemma ref_sort_head row :
  row ≠ [] → ∃ i l, ref_sort row = i :: l ∧ is_max row i.
Proof.
  intros Hne. pose proof (ref_sort_perm row) as Hp.
  destruct (ref_sort row) as [|i l] eqn:Hs.
  { apply Permutation_nil in Hp. by destruct row. }
  exists i, l. split; [done|].
  assert (i ∈ seq 0 (length row)) as Hi by (rewrite <- Hp; set_solver).
  apply elem_of_seq in Hi. destruct (lookup_lt_is_Some_2 row i) as [y Hy]; [lia|].
  exists y. split; [done|]. intros j x Hj.
  assert (j ∈ i :: l) as Hin by (rewrite Hp; apply elem_of_seq; apply lookup_lt_Some in Hj; lia).
  apply elem_of_cons in Hin as [->|Hin].
  - assert (x = y) as -> by congruence. destruct (le_inf_total y y); done.
  - rewrite <- (val_lookup row j x Hj), <- (val_lookup row i y Hy).
    apply (ref_sort_dominates row [i] l i j); [done|set_solver|done].
Qed.

Lemma ref_softmax_lookup row i :
  ref_softmax row !! i = ref_weight row <$> row !! i.
Proof. apply list_lookup_fmap. Qed.

Lemma ref_ops_ok : tensor_ops_ok ref_argmax ref_topk ref_sort ref_softmax ref_multinomial.
Proof.
  constructor.
  - intros row Hne. destruct (ref_sort_head row Hne) as (i & l & Hs & Hm).
    unfold ref_argmax. rewrite Hs. done.
  - intros row k Hk. unfold ref_topk. pose proof (ref_sort_perm row) as Hp. split_and!.
    + intros i Hi. assert (i ∈ ref_sort row) as Hin
        by (rewrite <- (take_drop k (ref_sort row)); set_solver).
      rewrite Hp in Hin. apply elem_of_seq in Hin. lia.
    + rewrite length_take, Hp, length_seq. lia.
    + intros i j x y Hi Hj Hx Hy. rewrite <- (val_lookup row i x Hx), <- (val_lookup row j y Hy).
      apply (ref_sort_dominates row (take k (ref_sort row)) (drop k (ref_sort row)));
        [by rewrite take_drop|done|].
      assert (i ∈ ref_sort row) as Hin
        by (rewrite Hp; apply elem_of_seq; apply lookup_lt_Some in Hx; lia).
      rewrite <- (take_drop k (ref_sort row)) in Hin. set_solver.
  - apply ref_sort_perm.
  - apply ref_sort_head.
  - intros row. unfold ref_softmax. apply length_fmap.
  - intros row i Hi _. rewrite ref_softmax_lookup, Hi. by exists 0%Q.
  - intros row i q _ Hi. rewrite ref_softmax_lookup, Hi. by eexists.
  - intros n probs (j & q & Hj & Hq). unfold ref_multinomial.
    destruct (filter _ _) as [|i l] eqn:Hf.
    + exfalso. assert (j ∈ ([] : list nat)) as Hin; [|set_solver]. rewrite <- Hf.
      apply list_elem_of_filter. split.
      * rewrite Hj. simpl. apply Is_true_true, negb_true_iff.
        destruct (Qeq_bool q 0) eqn:E; [|done]. by apply Qeq_bool_iff in E.
      * apply elem_of_seq. apply lookup_lt_Some in Hj. lia.
    + assert (i ∈ i :: l) as Hin by set_solver. rewrite <- Hf in Hin.
      apply list_elem_of_filter in Hin as [Hnz Hin]. apply elem_of_seq in Hin. simpl.
      destruct (lookup_lt_is_Some_2 probs i) as [q' Hq']; [lia|]. exists q'. split; [done|].
      rewrite Hq' in Hnz. simpl in Hnz. apply Is_true_true, negb_true_iff in Hnz.
      intros E. apply Qeq_bool_iff in E. congruence.
Qed.
End reference_ops.

(** Two positions pass the first filter, and only the larger of them the second. *)
Lemma sample_row_sound_witness :
  let params := mkSP 1 2 (1 # 2) 0 16 [] 1 in
  let row := [Some 1%Q; Some 3%Q; None; Some 2%Q] in
  ∃ tok row', sample_row ref_argmax ref_topk ref_sort ref_softmax ref_multinomial 0 row params = Ok (tok, row') ∧
    tok = 1%nat ∧ (row' !! 3%nat ≠ Some (Some (2 / 1)%Q)) ∧
    ∀ i x, row' !! i = Some (Some x) ↔
      scale 1 row !! i = Some (Some x) ∧ (0 < 2 < zlen row → i ∈ ref_topk (scale 1 row) 2) ∧
      allowed_by_top_p ref_argmax ref_sort ref_softmax (top_k_row ref_topk (scale 1 row) 2) (1 # 2) i.
Proof.
  intros params row.
  destruct (sample_row_sound ref_argmax ref_topk ref_sort ref_softmax ref_softmax ref_multinomial ref_ops_ok 0 row params)
    as (tok & row' & Hs & _ & H).
  - exists 0%nat, 1%Q. reflexivity.
  - reflexivity.
  - cbn [temperature top_k top_p params] in H. destruct H as (_ & _ & H). exists tok, row'. split; [exact Hs|].
    vm_compute in Hs. injection Hs as <- <-. split; [done|]. split; [done|exact H].
Defined.
