(* ===== verification/Engine.v ===== *)
(** * The continuous-batching engine (serving/engine.py)

    The engine owns the scheduler (and through it the KV cache and the shared
    sequence objects), its own dictionaries about requests, and runs the loop
    schedule, build batch, execute, sample, record, update.  The model and the
    tokenizer are parameters. *)
From S2P Require Import Prelude PyCollections KVCache Sequence Batch ServingScheduler Sampler.
From Stdlib Require Import QArith.
Import Alloc Table Paged.
Open Scope Z_scope.

(** ** Configuration values *)
Inductive pyval :=
  | PNone
  | PBool (b : bool)
  | PInt (z : Z)
  | PFloat (q : Q)
  | PStr (s : string).

Definition config : Type := gmap string pyval.

(** [_get_int_config]; [bool] is a subclass of [int] and is rejected. *)
Definition get_int_config (c : config) (key : string) (dflt : option Z) : res Z :=
  let value := match dflt with
               | None => c !! key
               | Some d => Some (default (PInt d) (c !! key))
               end in
  match value with
  | None => Err KeyError
  | Some (PInt z) => Ok z
  | Some _ => Err ValueError
  end.

(** [_get_float_config] *)
Definition get_float_config (c : config) (key : string) (dflt : Q) : res Q :=
  match default (PFloat dflt) (c !! key) with
  | PInt z => Ok (inject_Z z)
  | PFloat q => Ok q
  | _ => Err ValueError
  end.

(** [_resolve_eos_token_id]; [model_eos] is [model.config.eos_token_id].
    [isinstance(True, int)] holds, so a [bool] counts as its integer value. *)
Definition as_int (v : pyval) : option Z :=
  match v with PInt z => Some z | PBool b => Some (Z.b2z b) | _ => None end.
Definition resolve_eos_token_id (c : config) (model_eos : pyval) : option Z :=
  match as_int (default PNone (c !! "eos_token_id")) with
  | Some z => Some z
  | None => as_int model_eos
  end.

(** [_fallback_num_blocks] *)
Definition fallback_num_blocks (c : config) (bs : Z) : res Z :=
  match get_int_config c "max_tokens_per_step" (Some 1) with
  | Err e => Err e
  | Ok max_tokens => Ok (Z.max 1 (ceil_div max_tokens (Z.max 1 bs)))
  end.

(** [_resolve_num_blocks]; [max_kv_blocks] is what the memory manager computes. *)
Definition resolve_num_blocks (c : config) (bs max_kv_blocks : Z) : res Z :=
  match default PNone (c !! "num_kv_blocks") with
  | PNone => if 0 <? max_kv_blocks then Ok max_kv_blocks else fallback_num_blocks c bs
  | PInt n => if 0 <? n then Ok n else fallback_num_blocks c bs
  | _ => Err ValueError
  end.

(** ** Tokenizer *)

(** The outcome of a call to [tokenizer.decode]. *)
Inductive decode_call := Returned (v : pyval) | RaisedTypeError | RaisedOther.

(** A tokenizer with a callable [decode]: the call with
    [skip_special_tokens=False] and the call without it. *)
Record Tokenizer := mkTok {
  decode_kw : list Z → decode_call;
  decode_plain : list Z → decode_call
}.

Definition as_str (v : pyval) : option string := match v with PStr s => Some s | _ => None end.

(** [_decode_tokens] *)
Definition decode_tokens (tok : option Tokenizer) (ids : list Z) : option string :=
  match tok with
  | None => None
  | Some t =>
      match decode_kw t ids with
      | Returned v => as_str v
      | RaisedTypeError =>
          match decode_plain t ids with Returned v => as_str v | _ => None end
      | RaisedOther => None
      end
  end.

(** [s.endswith(suffix)] *)
Definition ends_with (s suffix : string) : bool :=
  (String.length suffix <=? String.length s)%nat &&
  bool_decide (String.substring (String.length s - String.length suffix)
                 (String.length suffix) s = suffix).

(** ** State *)
Inductive finish_reason := FinishStop | FinishLength.

Record Usage := mkUsage {
  prompt_tokens : Z;
  completion_tokens : Z;
  usage_total_tokens : Z
}.

Record RequestOutput := mkOut {
  ro_request_id : string;
  ro_seq_id : Z;
  ro_token_id : Z;
  ro_token_text : option string;
  ro_finished : bool;
  ro_finish_reason : option finish_reason;
  ro_token_logprob : option Q;
  ro_top_logprobs : option (list (Z * Q));
  ro_usage : option Usage
}.

(** What the engine does to its surroundings: user callbacks and the global
    eviction-sync adapter. *)
Inductive event :=
  | CallbackRun (callback : nat) (o : RequestOutput)
  | RequestFinished (rid : string)
  | RequestAborted (rid : string).

Record Engine (V : Type) := mkEng {
  sched : Scheduler V;
  next_seq_id : Z;
  sequences : gset Z;                               (** keys of [_sequences] *)
  sequence_to_request_id : gmap Z string;
  request_to_seq_ids : gmap string (list Z);
  request_outputs : gmap string (gmap Z (list Z));
  callbacks : gmap string (list nat);               (** callbacks by name *)
  completed_request_ids : gset string;
  cancelled_request_ids : gset string;
  num_steps : Z;
  total_generated_tokens : Z;
  events : list event
}.
Arguments mkEng {V}. Arguments sched {V}. Arguments next_seq_id {V}. Arguments sequences {V}.
Arguments sequence_to_request_id {V}. Arguments request_to_seq_ids {V}.
Arguments request_outputs {V}. Arguments callbacks {V}. Arguments completed_request_ids {V}.
Arguments cancelled_request_ids {V}. Arguments num_steps {V}.
Arguments total_generated_tokens {V}. Arguments events {V}.

Section engine.
Context {V : Type}.
Context (eos_token_id : option Z) (tokenizer : option Tokenizer) (eviction_sync : bool).
(** [model_runner.execute(batch)]: one row of logits per token of the batch;
    and whether the model uses paged attention. *)
Context (execute : nat → BatchMetadata → list Row) (uses_paged : bool).
(** [self.sampler.sample] at a given step: any function of this type, in
    particular [Sampler.sample] over the tensor operations. *)
Context (sampler : nat → list Row → list SamplingParams → res SamplerOutput).
(** The order in which [set(completed_seq_ids)] is iterated. *)
Context (set_order : list Z → list Z).
Local Abbreviation Eng := (Engine V).
Implicit Types e : Eng.

Definition set_sched (s : Scheduler V) e : Eng :=
  mkEng s (next_seq_id e) (sequences e) (sequence_to_request_id e) (request_to_seq_ids e)
    (request_outputs e) (callbacks e) (completed_request_ids e) (cancelled_request_ids e)
    (num_steps e) (total_generated_tokens e) (events e).
Definition set_requests (sq : gset Z) (s2r : gmap Z string) (r2s : gmap string (list Z))
    (outs : gmap string (gmap Z (list Z))) e : Eng :=
  mkEng (sched e) (next_seq_id e) sq s2r r2s outs (callbacks e) (completed_request_ids e)
    (cancelled_request_ids e) (num_steps e) (total_generated_tokens e) (events e).
Definition set_counters (n steps total : Z) e : Eng :=
  mkEng (sched e) n (sequences e) (sequence_to_request_id e) (request_to_seq_ids e)
    (request_outputs e) (callbacks e) (completed_request_ids e) (cancelled_request_ids e)
    steps total (events e).
Definition set_observers (cbs : gmap string (list nat)) (done cancelled : gset string)
    (evs : list event) e : Eng :=
  mkEng (sched e) (next_seq_id e) (sequences e) (sequence_to_request_id e) (request_to_seq_ids e)
    (request_outputs e) cbs done cancelled (num_steps e) (total_generated_tokens e) evs.

Definition on_sched {A} (m : M (Scheduler V) A) : M Eng A := zoom sched set_sched m.

(** The rest of [__init__] once its parts are built. *)
Definition eng_init (s : Scheduler V) : Eng := mkEng s 0 ∅ ∅ ∅ ∅ ∅ ∅ ∅ 0 0 [].

(** [self._sequences]: the registered objects of the shared store. *)
Definition eng_sequences e : gmap Z SequenceData :=
  filter (λ p, p.1 ∈ sequences e) (store (sched e)).

(** ** Requests *)

(** The loop of [add_request]: [n] new sequence objects. *)
Definition make_sequences e (n : nat) (prompt : list Z) (sp : SamplingParams) : list SequenceData :=
  (λ i, new_sequence (next_seq_id e + Z.of_nat i) prompt sp) <$> seq 0 n.

(** [ContinuousBatchingEngine.add_request] *)
Definition add_request (rid : string) (prompt : list Z) (sp : SamplingParams)
    (on_token : option nat) (n : Z) : M Eng unit :=
  e ← get;
  if bool_decide (is_Some (request_to_seq_ids e !! rid)) then raise ValueError
  else if n <=? 0 then raise ValueError
  else
    let seqs := make_sequences e (Z.to_nat n) prompt sp in
    let ids := seq_id <$> seqs in
    modify (λ e, set_counters (next_seq_id e + n) (num_steps e) (total_generated_tokens e) e) ≫= λ _,
    modify (λ e, set_requests (list_to_set ids ∪ sequences e)
                   (foldr (λ i m, <[i := rid]> m) (sequence_to_request_id e) ids)
                   (<[rid := ids]> (request_to_seq_ids e))
                   (<[rid := list_to_map ((λ i, (i, [])) <$> ids)]> (request_outputs e)) e) ≫= λ _,
    modify (λ e, match on_token with
                 | None => e
                 | Some cb => set_observers
                                (<[rid := default [] (callbacks e !! rid) ++ [cb]]> (callbacks e))
                                (completed_request_ids e) (cancelled_request_ids e) (events e) e
                 end) ≫= λ _,
    on_sched (ServingScheduler.add_request rid seqs).

Definition live_statuses : list SequenceStatus := [WAITING; PREFILL; DECODE; SWAPPED].

(** [any(self._sequences[seq_id].status in live for seq_id in ids
    if seq_id in self._sequences)] *)
Definition any_live e (ids : list Z) : bool :=
  existsb (λ i, bool_decide (i ∈ sequences e) && has_status (store (sched e)) live_statuses i) ids.

(** [_pending_request_ids] *)
Definition pending_request_ids e : list string :=
  (filter (λ p : string * list Z, any_live e p.2) (map_to_list (request_to_seq_ids e))).*1.

Definition has_pending_requests e : bool :=
  match pending_request_ids e with [] => false | _ => true end.

(** [_is_request_finished] *)
Definition is_request_finished e (rid : string) : bool :=
  match default [] (request_to_seq_ids e !! rid) with
  | [] => false
  | ids => forallb (λ i, negb (bool_decide (i ∈ sequences e)) ||
                         has_status (store (sched e)) [FINISHED] i) ids
  end.

(** [ContinuousBatchingEngine.abort_request] *)
Definition abort_request (rid : string) : M Eng unit :=
  e ← get;
  let ids := default [] (request_to_seq_ids e !! rid) in
  let was_pending := any_live e ids in
  on_sched (ServingScheduler.abort_request rid) ≫= λ _,
  modify (λ e, set_observers (delete rid (callbacks e)) (completed_request_ids e)
                 (cancelled_request_ids e) (events e) e) ≫= λ _,
  if negb was_pending then mret tt
  else
    modify (λ e, set_observers (callbacks e) (completed_request_ids e)
                   ({[rid]} ∪ cancelled_request_ids e)
                   (if eviction_sync then events e ++ [RequestAborted rid] else events e) e) ≫= λ _,
    modify (λ e, set_requests (sequences e ∖ list_to_set ids)
                   (foldr delete (sequence_to_request_id e) ids)
                   (delete rid (request_to_seq_ids e)) (delete rid (request_outputs e)) e).

(** ** One step *)

(** [_execute_batch] *)
Definition execute_batch (n : nat) (b : BatchMetadata) : res (list (option Row)) :=
  let has_prefill := existsb id (is_prefill b) in
  let has_decode := existsb negb (is_prefill b) in
  if negb uses_paged || negb (has_prefill && has_decode) then Ok (Some <$> execute n b)
  else
    match split_prefill_decode_batch b with
    | Err er => Err er
    | Ok sp => recombine_outputs sp (execute n <$> prefill_batch sp) (execute n <$> decode_batch sp)
    end.

(** [_extract_last_token_logits]: the last row of every sequence. *)
Fixpoint last_token_indices (offsets lens : list Z) : res (list Z) :=
  match lens with
  | [] => Ok []
  | l :: lens' =>
      if l <=? 0 then Err RuntimeError
      else
        match offsets with
        | _ :: (stop :: _) as offsets' =>
            match last_token_indices (tail offsets) lens' with
            | Err er => Err er
            | Ok idxs => Ok ((stop - 1) :: idxs)
            end
        | _ => Err IndexError
        end
  end.

Definition extract_last_token_logits (logits : list (option Row)) (b : BatchMetadata)
    : res (list Row) :=
  match last_token_indices (token_offsets b) (seq_lengths b) with
  | Err er => Err er
  | Ok idxs =>
      match mapM (λ i, match torch_index (length logits) i with
                       | None => None
                       | Some j => mjoin (logits !! j)
                       end) idxs with
      | None => Err IndexError
      | Some rows => Ok rows
      end
  end.

(** [_get_finish_reason] *)
Definition get_finish_reason (d : SequenceData) (token_id : Z) : option finish_reason :=
  if match eos_token_id with Some eos => token_id =? eos | None => false end then Some FinishStop
  else if max_tokens (sampling_params d) <=? zlen (output_token_ids d) then Some FinishLength
  else
    match stop (sampling_params d) with
    | [] => None
    | stops =>
        match decode_tokens tokenizer (output_token_ids d) with
        | None => None
        | Some text => if existsb (ends_with text) stops then Some FinishStop else None
        end
    end.

(** [_build_usage] *)
Definition build_usage (d : SequenceData) : Usage :=
  mkUsage (prompt_length d) (zlen (output_token_ids d))
    (prompt_length d + zlen (output_token_ids d)).

(** The locals of the recording loop: [outputs], [completed_seq_ids],
    [new_decode_seq_ids] and [touched_request_ids]. *)
Record recorded := mkRec {
  rec_outputs : list RequestOutput;
  rec_completed : list Z;
  rec_decodes : list Z;
  rec_touched : gset string
}.

Definition no_records : recorded := mkRec [] [] [] ∅.

(** [l[index] if l is not None else None]; [None] for an [IndexError]. *)
Definition opt_index {A} (l : option (list (option A))) (index : nat) : option (option A) :=
  match l with None => Some None | Some l => l !! index end.

(** The body of the recording loop for the sequence at position [index]. *)
Definition record_token (so : SamplerOutput) (index : nat) (id : Z) (r : recorded)
    : M Eng recorded :=
  e ← get;
  if bool_decide (id ∉ sequences e) then raise KeyError
  else
    match sequence_to_request_id e !! id, token_ids so !! index with
    | None, _ => raise KeyError
    | _, None => raise IndexError
    | Some rid, Some token_id =>
        on_sched (on_seq id (append_output_token token_id)) ≫= λ _,
        match request_outputs e !! rid ≫= (!!) id with
        | None => raise KeyError
        | Some toks =>
            modify (λ e, set_requests (sequences e) (sequence_to_request_id e) (request_to_seq_ids e)
                     (alter (<[id := toks ++ [token_id]]>) rid (request_outputs e)) e) ≫= λ _,
            modify (λ e, set_counters (next_seq_id e) (num_steps e) (total_generated_tokens e + 1) e) ≫= λ _,
            e ← get;
            match store (sched e) !! id with
            | None => raise KeyError
            | Some d =>
                let reason := get_finish_reason d token_id in
                let finished := bool_decide (is_Some reason) in
                match opt_index (token_logprobs so) index, opt_index (top_logprobs so) index with
                | Some logprob, Some top =>
                    let out := mkOut rid id token_id (decode_tokens tokenizer [token_id]) finished
                                 reason logprob top
                                 (if finished then Some (build_usage d) else None) in
                    mret (mkRec (rec_outputs r ++ [out])
                            (if finished then rec_completed r ++ [id] else rec_completed r)
                            (if finished then rec_decodes r else rec_decodes r ++ [id])
                            ({[rid]} ∪ rec_touched r))
                | _, _ => raise IndexError
                end
            end
        end
    end.

Fixpoint record_all (so : SamplerOutput) (index : nat) (ids : list Z) (r : recorded)
    : M Eng recorded :=
  match ids with
  | [] => mret r
  | id :: ids' => record_token so index id r ≫= record_all so (S index) ids'
  end.

(** The end of [step]: completion, callbacks and notifications.  A callback is an event with
    its argument; callbacks are taken to return. *)
Definition notify_outputs (outs : list RequestOutput) e : list event :=
  outs ≫= λ o, (λ cb, CallbackRun cb o) <$> default [] (callbacks e !! ro_request_id o).

Definition finish_step (r : recorded) : M Eng unit :=
  modify (λ e,
    let finished := filter (λ rid, Is_true (is_request_finished e rid)) (elements (rec_touched r)) in
    set_observers (foldr delete (callbacks e) finished)
      (list_to_set finished ∪ completed_request_ids e) (cancelled_request_ids e)
      (events e ++ notify_outputs (rec_outputs r) e ++
         (if eviction_sync then RequestFinished <$> finished else [])) e).

(** The forward pass of [step]: from the batch to the sampled tokens. *)
Definition sample_batch (n : nat) (batch : BatchMetadata) : res SamplerOutput :=
  match execute_batch n batch with
  | Err er => Err er
  | Ok logits =>
      match extract_last_token_logits logits batch with
      | Err er => Err er
      | Ok last => sampler n last (bm_sampling_params batch)
      end
  end.

(** The second half of [step]: record the tokens, update the scheduler, notify. *)
Definition commit_tokens (so : SamplerOutput) (ids : list Z) : M Eng (list RequestOutput) :=
  r ← record_all so 0 ids no_records;
  on_sched (update_after_step (set_order (rec_completed r)) (rec_completed r) (rec_decodes r)) ≫= λ _,
  modify (λ e, set_counters (next_seq_id e) (num_steps e + 1) (total_generated_tokens e) e) ≫= λ _,
  finish_step r ≫= λ _,
  mret (rec_outputs r).

(** The part of [step] after the scheduler selected something. *)
Definition run_batch (out : SchedulerOutput) : M Eng (list RequestOutput) :=
  e ← get;
  match from_scheduler_output (eng_sequences e) (kv (sched e)) out with
  | Err er => raise er
  | Ok batch =>
      if total_tokens batch =? 0 then raise RuntimeError
      else
        match sample_batch (Z.to_nat (num_steps e)) batch with
        | Err er => raise er
        | Ok so => commit_tokens so (seq_ids batch)
        end
  end.

(** [ContinuousBatchingEngine.step] *)
Definition step : M Eng (list RequestOutput) :=
  out ← on_sched schedule;
  match prefill_seq_ids out ++ decode_seq_ids out with
  | [] => mret []
  | _ => run_batch out
  end.

(** [get_request_n_outputs] *)
Definition get_request_n_outputs e (rid : string) : res (list (list Z)) :=
  match request_outputs e !! rid with
  | None => Err KeyError
  | Some m =>
      match mapM (λ i, m !! i) (default [] (request_to_seq_ids e !! rid)) with
      | None => Err KeyError
      | Some l => Ok l
      end
  end.

(** [_format_request_outputs]: one list of tokens for a single sequence, a list
    of lists otherwise. *)
Definition format_request_outputs e (rid : string) : res (list Z + list (list Z)) :=
  match get_request_n_outputs e rid with
  | Err er => Err er
  | Ok [outputs] => Ok (inl outputs)
  | Ok outputs => Ok (inr outputs)
  end.

(** The dict comprehension [run_until_done] returns. *)
Fixpoint format_outputs e (rids : list string) : res (gmap string (list Z + list (list Z))) :=
  match rids with
  | [] => Ok ∅
  | rid :: rids' =>
      match format_request_outputs e rid with
      | Err er => Err er
      | Ok o => match format_outputs e rids' with Err er => Err er | Ok m => Ok (<[rid := o]> m) end
      end
  end.

(** [run_until_done]: [None] when the fuel ran out before it returned or
    raised. *)
Fixpoint run_until_done (fuel : nat) e : option (res (gmap string (list Z + list (list Z))) * Eng) :=
  if negb (has_pending_requests e) then Some (format_outputs e (map_to_list (request_outputs e)).*1, e)
  else
    match fuel with
    | O => None
    | S fuel' =>
        match step e with
        | (Err er, e') => Some (Err er, e')
        | (Ok [], e') => Some (Err RuntimeError, e')
        | (Ok _, e') => run_until_done fuel' e'
        end
    end.

(** [get_stats]: the counters it reports. *)
Definition count_status e (st : SequenceStatus) : Z :=
  zlen (filter (λ p : Z * SequenceData, status p.2 = st) (map_to_list (eng_sequences e))).
Definition all_statuses : list SequenceStatus := [WAITING; PREFILL; DECODE; SWAPPED; FINISHED; CANCELLED].
Definition get_stats e : list Z * list (SequenceStatus * Z) :=
  ([zlen (pending_request_ids e); Z.of_nat (size (completed_request_ids e));
    Z.of_nat (size (cancelled_request_ids e)); num_steps e; total_generated_tokens e;
    ba_num_blocks (block_allocator (kv (sched e)));
    num_free_blocks (block_allocator (kv (sched e)))],
   (λ st, (st, count_status e st)) <$> all_statuses).
End engine.
