(* ===== verification/EngineProps.v ===== *)
(** * Properties of the engine: termination, bounds and mirrors *)
From S2P Require Import Prelude PyCollections KVCache KVCacheProps KVCacheSwap.
From S2P Require Import Sequence Batch BatchProps ServingScheduler ServingSchedulerProps.
From S2P Require Import ServingSchedulerStep ServingSchedule ServingLifecycle ServingTheorems.
From S2P Require Import Sampler Engine.
From Stdlib Require Import QArith.
Import Alloc Table Paged.
Open Scope Z_scope.

(** ** How scheduler calls change sequence objects *)
Section evolution.
Context {V : Type}.
Implicit Types s : Scheduler V.
Implicit Types h : gmap Z SequenceData.

(** Only statuses change; terminal statuses do not; and only the sequences of
    [C] become terminal. *)
Definition evolves (C : list Z) h h' : Prop :=
  ∀ id, match h !! id, h' !! id with
        | Some d, Some d' =>
            d' = with_status (status d') d ∧
            (is_terminal (status d) = true → status d' = status d) ∧
            (id ∉ C → is_terminal (status d') = is_terminal (status d))
        | None, None => True
        | _, _ => False
        end.

Definition sched_evolves (C : list Z) s s' : Prop := evolves C (store s) (store s').

Lemma with_status_id d : with_status (status d) d = d.
Proof. by destruct d. Qed.

#[global] Instance evolves_preorder C : PreOrder (evolves C).
Proof.
  split.
  - intros h id. destruct (h !! id) as [d|]; [|done]. by rewrite with_status_id.
  - intros h1 h2 h3 H12 H23 id. specialize (H12 id). specialize (H23 id).
    destruct (h1 !! id) as [d1|], (h2 !! id) as [d2|], (h3 !! id) as [d3|]; try done.
    destruct H12 as (E1 & T1 & C1), H23 as (E2 & T2 & C2). split_and!.
    + rewrite E2, E1. done.
    + intros Ht. rewrite <- (T1 Ht). apply T2. by rewrite T1.
    + intros Hc. by rewrite C2, C1.
Qed.

#[global] Instance sched_evolves_preorder C : PreOrder (sched_evolves C).
Proof.
  split; [intros s; unfold sched_evolves; reflexivity|].
  intros s1 s2 s3. unfold sched_evolves. apply transitivity.
Qed.

Lemma same_store_evolves C s s' : store s' = store s → sched_evolves C s s'.
Proof. unfold sched_evolves. intros ->. reflexivity. Qed.

Lemma on_seq_status_evolves C id st :
  is_terminal st = false ∨ id ∈ C → preserves (sched_evolves C) (on_seq (V := V) id (set_status st)).
Proof.
  intros Hst s. unfold on_seq. destruct (store s !! id) as [d|] eqn:Hd; [|reflexivity].
  unfold set_status, validate_transition. munfold.
  assert (status d = st ∨ st ∈ allowed_transitions (status d) →
    sched_evolves C s (set_store (<[id:=with_status st d]> (store s)) s)) as Hok.
  { intros Hal i. simpl. destruct (decide (i = id)) as [->|Hne].
    - rewrite Hd, lookup_insert_eq. simpl. split_and!; [done| |].
      + intros Ht. destruct Hal as [->|Hal]; [done|]. destruct (status d); try done; set_solver.
      + intros Hc. destruct Hst as [Hst|]; [|done]. rewrite Hst. destruct Hal as [<-|Hal]; [done|].
        destruct (status d); try done; set_solver.
    - rewrite lookup_insert_ne by done. destruct (store s !! i) as [d'|]; [|done]. by rewrite with_status_id. }
  destruct (decide (status d = st)); [apply Hok; by left|].
  destruct (decide (st ∈ allowed_transitions (status d))); [apply Hok; by right|].
  apply same_store_evolves. simpl. by rewrite insert_id.
Qed.

Lemma on_kv_evolves {A} C (m : M (PagedKVCache V) A) : preserves (sched_evolves C) (on_kv m).
Proof. intros s. unfold on_kv, zoom. destruct (m (kv s)). by apply same_store_evolves. Qed.

End evolution.

(** Decompose a monadic program into its calls. *)
Ltac evolve :=
  repeat first
    [ apply on_kv_evolves
    | apply on_seq_status_evolves; first [left; reflexivity | right; assumption]
    | apply preserves_ret; apply _
    | apply preserves_get; apply _
    | apply preserves_raise; apply _
    | apply preserves_when; [apply _|]
    | apply preserves_try_pass
    | apply preserves_modify; intros ?; apply same_store_evolves; reflexivity
    | apply preserves_for_each; [apply _|]; intros ? ?
    | apply preserves_bind; [apply _| |intros ?]
    | progress case_match ].

Section calls.
Context {V : Type}.

Lemma preempt_sequences_evolves C ids : preserves (sched_evolves C) (preempt_sequences (V := V) ids).
Proof. induction ids as [|id ids IH]; cbn [preempt_sequences]; evolve; apply IH. Qed.

Lemma preempt_loop_evolves C q : preserves (sched_evolves C) (preempt_loop (V := V) q).
Proof.
  induction q as [|g q IH]; cbn [preempt_loop]; evolve; apply IH || apply preempt_sequences_evolves.
Qed.

Lemma swap_in_all_evolves C ids : preserves (sched_evolves C) (swap_in_all (V := V) ids).
Proof.
  induction ids as [|id ids IH]; cbn [swap_in_all]; [evolve|]. intros s.
  pose proof (on_kv_evolves C (swap_in id) s) as H1.
  destruct (on_kv (swap_in id) s) as [[[]|e] s']; simpl in *; [|done]. etrans; [done|]. apply IH.
Qed.

Lemma recover_group_evolves C g : preserves (sched_evolves C) (recover_group (V := V) g).
Proof. unfold recover_group. evolve; apply swap_in_all_evolves. Qed.

Lemma waiting_loop_evolves C q p : preserves (sched_evolves C) (waiting_loop (V := V) q p).
Proof.
  revert p. induction q as [|g q IH]; intros p; cbn [waiting_loop]; [evolve|].
  unfold make_room, preempt_oldest_running_group, admit_sequence.
  evolve; apply IH || apply preempt_loop_evolves.
Qed.

Lemma order_waiting_evolves C : preserves (sched_evolves C) (order_waiting (V := V)).
Proof.
  intros s. apply same_store_evolves. unfold order_waiting. munfold. simpl.
  destruct (sched_cp s); [|done]. by destruct (1 <? _).
Qed.

Lemma schedule_evolves : preserves (sched_evolves []) (schedule (V := V)).
Proof.
  unfold schedule, recover_swapped_groups. evolve;
    first [apply swap_in_all_evolves | apply order_waiting_evolves | apply waiting_loop_evolves].
Qed.

Lemma update_after_step_evolves order C decs :
  (∀ id, id ∈ order → id ∈ C) →
  preserves (sched_evolves C) (update_after_step (V := V) order C decs).
Proof.
  intros Hord. unfold update_after_step, advance_decode, complete_sequence,
    prune_finished_and_cancelled_requests, drop_request_metadata.
  evolve. apply on_seq_status_evolves. right. by apply Hord.
Qed.
End calls.

(** ** Recording the sampled tokens *)

(** The sequence object after [append_output_token]. *)
Definition appended (tok : Z) (d : SequenceData) : SequenceData :=
  (append_output_token tok d).2.

(** The most tokens a sequence generates. *)
Definition cap (d : SequenceData) : Z := Z.max 1 (max_tokens (sampling_params d)).

(** [k] is the number of steps that raised: each may have recorded a token of a sequence
    without ending it. *)
Definition bounded (k : Z) (d : SequenceData) : Prop :=
  zlen (output_token_ids d) ≤ cap d + k ∧
  (is_terminal (status d) = false → zlen (output_token_ids d) < cap d + k).

Definition bounded_store (k : Z) (h : gmap Z SequenceData) : Prop := ∀ id d, h !! id = Some d → bounded k d.
Lemma bounded_store_mono k k' h : k ≤ k' → bounded_store k h → bounded_store k' h.
Proof. intros Hk Hb id d Hd. destruct (Hb id d Hd) as [H1 H2]. split; [lia|]. intros Hl. specialize (H2 Hl). lia. Qed.

(** What a sequence may still generate. *)
Definition remaining (d : SequenceData) : nat :=
  if is_terminal (status d) then 0 else Z.to_nat (cap d - zlen (output_token_ids d)).

Lemma appended_live tok d :
  is_terminal (status d) = false →
  append_output_token tok d = (Ok tt, appended tok d) ∧
  output_token_ids (appended tok d) = output_token_ids d ++ [tok] ∧
  status (appended tok d) = status d ∧ sampling_params (appended tok d) = sampling_params d.
Proof. intros Hd. unfold appended, append_output_token. munfold. by rewrite Hd. Qed.

Lemma evolves_bounded {k} C h h' : evolves C h h' → bounded_store k h → bounded_store k h'.
Proof.
  intros He Hb id d' Hd'. specialize (He id). rewrite Hd' in He.
  destruct (h !! id) as [d|] eqn:Hd; [|done]. destruct He as (E & Ht & Hc).
  specialize (Hb id d Hd). rewrite E. destruct Hb as [H1 H2]. split; [done|].
  intros Hlive. apply H2. destruct (is_terminal (status d)) eqn:E2; [|done].
  simpl in Hlive. rewrite (Ht eq_refl) in Hlive. congruence.
Qed.

Lemma evolves_remaining C h h' id d :
  evolves C h h' → h !! id = Some d →
  ∃ d', h' !! id = Some d' ∧ (remaining d' ≤ remaining d)%nat ∧
    (id ∉ C → remaining d' = remaining d) ∧ (is_terminal (status d') = true → remaining d' = 0%nat).
Proof.
  intros He Hd. specialize (He id). rewrite Hd in He. destruct (h' !! id) as [d'|]; [|done].
  destruct He as (E & Ht & Hc). exists d'. unfold remaining.
  assert (cap d' = cap d ∧ output_token_ids d' = output_token_ids d) as [-> ->] by (by rewrite E).
  split_and!; [done| | |].
  - destruct (is_terminal (status d)) eqn:E1; [by rewrite (Ht eq_refl), E1|].
    destruct (is_terminal (status d')); lia.
  - intros Hn. by rewrite (Hc Hn).
  - by intros ->.
Qed.

Section record.
Context {V : Type} (eos : option Z) (tokenizer : option Tokenizer).
Implicit Types e : Engine V.

(** The store after recording one token for each of [ids]: the sequences not in
    [C] are short of their limit. *)
Definition records (ids C : list Z) (h h' : gmap Z SequenceData) : Prop :=
  ∀ id, if decide (id ∈ ids)
        then ∃ d tok, h !! id = Some d ∧ is_terminal (status d) = false ∧
               h' !! id = Some (appended tok d) ∧
               (id ∉ C → zlen (output_token_ids d) + 1 < max_tokens (sampling_params d))
        else h' !! id = h !! id.

Lemma finish_reason_none d tok :
  get_finish_reason eos tokenizer d tok = None →
  zlen (output_token_ids d) < max_tokens (sampling_params d).
Proof.
  unfold get_finish_reason. case_match; [done|]. destruct (Z.leb_spec (max_tokens (sampling_params d))
    (zlen (output_token_ids d))); [done|]. intros _. done.
Qed.

(** A successful recording of one token. *)
Lemma record_token_ok so index id r e r' e' :
  record_token eos tokenizer so index id r e = (Ok r', e') →
  ∃ d tok, id ∈ sequences e ∧ store (sched e) !! id = Some d ∧ is_terminal (status d) = false ∧
    sched e' = set_store (<[id := appended tok d]> (store (sched e))) (sched e) ∧
    sequences e' = sequences e ∧
    zlen (rec_outputs r') = zlen (rec_outputs r) + 1 ∧
    (rec_completed r' = rec_completed r ++ [id] ∨
     rec_completed r' = rec_completed r ∧
     zlen (output_token_ids d) + 1 < max_tokens (sampling_params d)).
Proof.
  unfold record_token. munfold.
  destruct (bool_decide_reflect (id ∉ sequences e)) as [|Hin]; [done|].
  destruct (sequence_to_request_id e !! id) as [rid|]; [|done].
  destruct (token_ids so !! index) as [tok|]; [|done].
  unfold on_sched, zoom, on_seq.
  destruct (store (sched e) !! id) as [d|] eqn:Hd; [|done].
  destruct (is_terminal (status d)) eqn:Ht.
  { unfold append_output_token. munfold. rewrite Ht. done. }
  destruct (appended_live tok d Ht) as (Happ & Hout & Hst & Hsp). rewrite Happ.
  case_match; [|done].
  cbn [sched set_sched set_requests set_counters store set_store]. rewrite lookup_insert_eq.
  destruct (opt_index (token_logprobs so) index) as [lp|]; [|done].
  destruct (opt_index (top_logprobs so) index) as [tp|]; [|done].
  intros [= <- <-]. exists d, tok. apply dec_stable in Hin. split_and!; try done.
  - simpl. by rewrite zlen_app.
  - destruct (get_finish_reason eos tokenizer (appended tok d) tok) eqn:Hfin; [by left|right].
    split; [done|]. apply finish_reason_none in Hfin. rewrite Hout, Hsp, zlen_app in Hfin. done.
Qed.

Lemma record_all_ok so ids index r e r' e' :
  NoDup ids → record_all eos tokenizer so index ids r e = (Ok r', e') →
  (∃ h', sched e' = set_store h' (sched e) ∧ records ids (rec_completed r') (store (sched e)) h') ∧
  sequences e' = sequences e ∧ (∀ id, id ∈ ids → id ∈ sequences e) ∧
  zlen (rec_outputs r') = zlen (rec_outputs r) + zlen ids ∧
  (∀ id, id ∈ rec_completed r' → id ∈ rec_completed r ∨ id ∈ ids) ∧
  (∀ id, id ∈ rec_completed r → id ∈ rec_completed r').
Proof.
  intros Hnd. revert index r e. induction Hnd as [|id ids Hni Hnd IH]; intros index r e Hrun; simpl in Hrun.
  { munfold in Hrun. injection Hrun as <- <-. split_and!; try done; [|set_solver|rewrite zlen_nil; lia|by left].
    exists (store (sched e)). split; [by destruct (sched e)|]. intros id. by rewrite decide_False by set_solver. }
  munfold in Hrun. destruct (record_token eos tokenizer so index id r e) as [[r1|er] e1] eqn:H1; [|done].
  apply record_token_ok in H1 as (d & tok & Hin & Hd & Hlive & Hs1 & Hq1 & Hz1 & Hc1).
  destruct (IH (S index) r1 e1 Hrun) as ((h' & Hs' & Hrec) & Hq' & Hids & Hz & Hcin & Hcout).
  split_and!.
  - exists h'. rewrite Hs', Hs1. split; [done|]. rewrite Hs1 in Hrec. simpl in Hrec. intros i. specialize (Hrec i).
    destruct (decide (i = id)) as [->|Hne].
    + rewrite decide_True by set_solver. rewrite decide_False, lookup_insert_eq in Hrec by done.
      exists d, tok. split_and!; try done. intros Hnc. destruct Hc1 as [Hc1|[_ Hc1]]; [|done].
      destruct Hnc. apply Hcout. rewrite Hc1. set_solver.
    + rewrite lookup_insert_ne in Hrec by done.
      destruct (decide (i ∈ ids)); [rewrite decide_True by set_solver|rewrite decide_False by set_solver];
        done.
  - by rewrite Hq'.
  - intros i [->|Hi]%elem_of_cons; [done|]. rewrite <- Hq1. auto.
  - rewrite zlen_cons. lia.
  - intros i Hi. destruct (Hcin i Hi) as [Hi'|]; [|set_solver].
    destruct Hc1 as [Hc1|[Hc1 _]]; rewrite Hc1 in Hi'; set_solver.
  - intros i Hi. apply Hcout. destruct Hc1 as [Hc1|[Hc1 _]]; rewrite Hc1; set_solver.
Qed.
End record.

(** ** One step makes progress *)
Section progress.
Context {V : Type} (eos : option Z) (tokenizer : option Tokenizer) (eviction_sync : bool).
Context (execute : nat → BatchMetadata → list Row) (uses_paged : bool).
Context (sampler : nat → list Row → list SamplingParams → res SamplerOutput).
Context (set_order : list Z → list Z) (set_order_ok : ∀ l id, id ∈ set_order l ↔ id ∈ l).
Implicit Types e : Engine V.
Implicit Types h : gmap Z SequenceData.
Local Abbreviation estep := (step eos tokenizer eviction_sync execute uses_paged sampler set_order).
Local Abbreviation run := (run_until_done eos tokenizer eviction_sync execute uses_paged sampler set_order).

Definition rem_at h (id : Z) : nat := match h !! id with Some d => remaining d | None => 0 end.

(** The number of tokens the registered sequences may still generate. *)
Definition budget e : nat :=
  sum_list ((λ id, rem_at (store (sched e)) id) <$> elements (sequences e)).

Definition eng_good (k : Z) e : Prop := sched_good (sched e) ∧ bounded_store k (store (sched e)).

Lemma inv_same_status (s : Scheduler V) h' :
  sched_inv s → (∀ id, status_of h' id = status_of (store s) id) → sched_inv (set_store h' s).
Proof.
  intros [I1 I2 I3 I4 I5 I6 I7 I8] Hst. constructor; try done.
  - intros g id Hm Hin. destruct (I4 g id Hm Hin) as [H1 H2]. split; [done|].
    apply status_of_Some. simpl. rewrite Hst. by apply status_of_Some.
  - intros g id st Hm Hin. simpl. rewrite Hst. by apply I7.
  - intros id. simpl. rewrite I8. by setoid_rewrite Hst.
Qed.

Lemma records_status ids C h h' id : records ids C h h' → status_of h' id = status_of h id.
Proof.
  intros Hr. specialize (Hr id). unfold status_of. case_decide; [|by rewrite Hr].
  destruct Hr as (d & tok & -> & Hlive & -> & _). simpl.
  by destruct (appended_live tok d Hlive) as (_ & _ & -> & _).
Qed.

Lemma update_ok_over (s s' : Scheduler V) order completed decs :
  sched_inv s → (∀ id, id ∈ order ↔ id ∈ completed) →
  (∀ id, id ∈ completed → status_of (store s) id ≠ Some WAITING ∧ id ∈ sequence_map s) →
  update_after_step order completed decs s = (Ok tt, s') →
  ∀ id, id ∈ completed → over s' id.
Proof.
  intros Hi Hord Hc. unfold update_after_step. munfold.
  destruct (advance_all_inv completed (fromkeys decs) s Hi) as (r1 & s1 & H1 & Hi1 & Hs1 & _).
  rewrite H1. destruct r1 as [[]|er]; [|done].
  destruct (complete_all_inv order s1 Hi1) as (s2 & -> & Hi2 & Hs2 & Ho2 & _).
  { intros id Hid. eapply advance_keeps_not_waiting; [done|]. by apply Hc, Hord. }
  destruct (prune_inv s2 Hi2) as (s3 & -> & _ & Hkv & Hst & _). intros [= <-] id Hid.
  unfold over. rewrite Hkv, Hst. apply Ho2; [by apply Hord|]. rewrite (setup_sm _ _ Hs1). by apply Hc.
Qed.

(** The three phases of a step, for one sequence. *)
Lemma phases_bounded k h1 h2 h3 ids C id :
  0 ≤ k → bounded_store k h1 → records ids C h1 h2 → evolves C h2 h3 →
  (∀ i, i ∈ C → i ∈ ids ∧ ∀ st, status_of h3 i = Some st → is_terminal st = true) →
  ∀ d, h3 !! id = Some d → bounded k d.
Proof.
  intros Hk Hb1 R12 E23 Hterm d3 Hd3. specialize (R12 id). destruct (decide (id ∈ ids)) as [Hin|Hout].
  - destruct R12 as (d & tok & Hd & Hlive & Hd2 & Hcap).
    destruct (appended_live tok d Hlive) as (_ & Hout & Hst & Hsp).
    destruct (Hb1 id d Hd) as [_ Hlt]. specialize (Hlt Hlive).
    pose proof (E23 id) as E. rewrite Hd2, Hd3 in E. destruct E as (E & _ & _). rewrite E.
    unfold bounded, cap in *. simpl. rewrite Hout, Hsp, zlen_app. change (zlen [tok]) with 1.
    split; [lia|]. intros Hl3.
    destruct (decide (id ∈ C)) as [HC|HC]; [|specialize (Hcap HC); lia].
    destruct (Hterm id HC) as [_ Ht]. exfalso. rewrite (Ht (status d3)) in Hl3; [done|].
    unfold status_of. by rewrite Hd3.
  - pose proof (E23 id) as E. rewrite Hd3 in E.
    destruct (h2 !! id) as [d|] eqn:Hd; [|done]. destruct E as (E & Ht & _).
    symmetry in R12. destruct (Hb1 id d R12) as [B1 B2]. rewrite E. split; [done|]. simpl.
    intros Hl3. apply B2. destruct (is_terminal (status d)) eqn:El; [|done].
    rewrite (Ht eq_refl) in Hl3. congruence.
Qed.
Lemma phases_remaining h1 h2 h3 ids C id :
  bounded_store 0 h1 → records ids C h1 h2 → evolves C h2 h3 →
  (rem_at h3 id ≤ rem_at h1 id)%nat ∧ (id ∈ ids → (rem_at h3 id < rem_at h1 id)%nat).
Proof.
  intros Hb1 R12 E23. specialize (R12 id). destruct (decide (id ∈ ids)) as [Hin|Hout].
  - destruct R12 as (d & tok & Hd & Hlive & Hd2 & Hcap).
    destruct (appended_live tok d Hlive) as (_ & Hout & Hst & Hsp).
    destruct (Hb1 id d Hd) as [_ Hlt]. specialize (Hlt Hlive).
    destruct (evolves_remaining _ _ _ _ _ E23 Hd2) as (d3 & Hd3 & Hle & _ & Hz).
    assert (remaining (appended tok d) < remaining d)%nat as Hdec.
    { unfold remaining, cap. rewrite Hst, Hlive, Hout, Hsp, zlen_app. unfold cap in Hlt.
      change (zlen [tok]) with 1. lia. }
    unfold rem_at. rewrite Hd, Hd3. split; [lia|intros _; lia].
  - unfold rem_at. rewrite <- R12. split; [|done].
    destruct (h2 !! id) as [d|] eqn:Hd.
    + by destruct (evolves_remaining _ _ _ _ _ E23 Hd) as (d' & -> & Hle & _).
    + specialize (E23 id). rewrite Hd in E23. by destruct (h3 !! id).
Qed.

Lemma sum_list_lt (f g : Z → nat) l x :
  (∀ y, f y ≤ g y)%nat → x ∈ l → (f x < g x)%nat → (sum_list (f <$> l) < sum_list (g <$> l))%nat.
Proof.
  intros Hle. induction l as [|y l IH]; intros Hx Hlt; [set_solver|]. cbn.
  assert (sum_list (f <$> l) ≤ sum_list (g <$> l))%nat.
  { clear -Hle. induction l as [|z l IH]; cbn; [lia|]. specialize (Hle z). unfold fmap in *. lia. }
  pose proof (Hle y). unfold fmap in *.
  apply elem_of_cons in Hx as [->|Hx]; [lia|]. specialize (IH Hx Hlt). lia.
Qed.

Lemma from_scheduler_output_ids sqs (c : PagedKVCache V) out b :
  from_scheduler_output sqs c out = Ok b → seq_ids b = prefill_seq_ids out ++ decode_seq_ids out.
Proof.
  unfold from_scheduler_output.
  destruct ((for_each (prefill_seq_ids out) (build_row sqs c true) ≫= λ _,
             for_each (decode_seq_ids out) (build_row sqs c false)) no_columns) as [[[]|er] cols]; [|done].
  unfold bm_post_init. repeat (case_match; try done). by intros [= <-].
Qed.

(** Selected ids are registered and have run. *)
Lemma selected_registered (s : Scheduler V) o id :
  sched_inv s → schedule_ok s o → id ∈ prefill_seq_ids o ++ decode_seq_ids o →
  status_of (store s) id ≠ Some WAITING ∧ id ∈ sequence_map s.
Proof.
  intros Hi Hok Hid. destruct (so_known s o Hok id Hid) as [_ Ht].
  apply elem_of_dom, (inv_tables s Hi) in Ht as (g & st & Hm & Hin & Hst & Hh).
  split; [|by apply (inv_seqs s Hi g)]. rewrite Hst. intros [= ->]. done.
Qed.

Lemma commit_ok k e o so outs e' ids :
  0 ≤ k → eng_good k e → schedule_ok (sched e) o → ids = prefill_seq_ids o ++ decode_seq_ids o →
  commit_tokens eos tokenizer eviction_sync set_order so ids e = (Ok outs, e') →
  eng_good k e' ∧ sequences e' = sequences e ∧
  (k = 0 → ∀ id, (rem_at (store (sched e')) id ≤ rem_at (store (sched e)) id)%nat ∧
     (id ∈ ids → id ∈ sequences e ∧
        (rem_at (store (sched e')) id < rem_at (store (sched e)) id)%nat)).
Proof.
  intros Hk [(Hi & Hb & Ht) Hbs] Hok Hids. unfold commit_tokens. munfold.
  destruct (record_all eos tokenizer so 0 ids no_records e) as [[r|er] e2] eqn:Hrec; [|done].
  apply record_all_ok in Hrec as ((h2 & Hs2 & R12) & Hq2 & Hreg & _ & Hcin & _);
    [|rewrite Hids; apply (so_nodup _ _ Hok)].
  unfold on_sched, zoom.
  destruct (update_after_step (set_order (rec_completed r)) (rec_completed r) (rec_decodes r) (sched e2))
    as [[[]|er] s3] eqn:Hup; [|done].
  unfold finish_step. munfold. intros [= _ <-].
  assert (sched_inv (sched e2)) as Hi2.
  { rewrite Hs2. apply inv_same_status; [done|]. intros id. by eapply records_status. }
  pose proof (update_after_step_evolves (V := V) (set_order (rec_completed r)) (rec_completed r) (rec_decodes r))
    as E23. specialize (E23 (λ id, proj1 (set_order_ok _ id)) (sched e2)). rewrite Hup in E23. simpl in E23.
  destruct (update_after_step_inv (set_order (rec_completed r)) (rec_completed r) (rec_decodes r)
    (sched e2) Hi2) as (r3 & s3' & Hup' & Hi3 & Hb3 & Ht3).
  rewrite Hup in Hup'. injection Hup' as <- <-.
  assert (∀ id, id ∈ rec_completed r → id ∈ ids ∧
    ∀ st, status_of (store s3) id = Some st → is_terminal st = true) as Hover.
  { intros id Hid. assert (id ∈ ids) as Hin by (destruct (Hcin id Hid); [set_solver|done]).
    split; [done|]. eapply update_ok_over; [apply Hi2| | |done|done].
    - apply set_order_ok.
    - intros i Hic. assert (i ∈ ids) as Hin' by (destruct (Hcin i Hic); [set_solver|done]).
      rewrite Hids in Hin'. destruct (selected_registered (sched e) o i Hi Hok Hin') as [H1 H2].
      rewrite Hs2. simpl. by rewrite (records_status _ _ _ _ _ R12). }
  assert (evolves (rec_completed r) h2 (store s3)) as E23' by (unfold sched_evolves in E23; by rewrite Hs2 in E23).
  split_and!.
  - split; [|intros id d Hd; by apply (phases_bounded k (store (sched e)) h2 (store s3) ids (rec_completed r) id)]. rewrite Hs2 in Hb3, Ht3. simpl in Hb3, Ht3.
    split_and!; simpl; [done|lia|lia].
  - simpl. done.
  - intros -> id. destruct (phases_remaining (store (sched e)) h2 (store s3) ids (rec_completed r) id Hbs R12 E23') as (H1 & H2). split; [done|]. auto.
Qed.

(** What a successful step does. *)
Lemma step_ok e outs e' :
  eng_good 0 e → estep e = (Ok outs, e') →
  eng_good 0 e' ∧ sequences e' = sequences e ∧ (outs ≠ [] → (budget e' < budget e)%nat).
Proof.
  intros [(Hi & Hb & Ht) Hbs]. unfold step, on_sched. munfold.
  destruct (schedule_spec (sched e) Hi Hb Ht) as (o & s1 & Hrun & Hi1 & Hs1 & Hok).
  pose proof (schedule_evolves (sched e)) as E01. rewrite Hrun in *. simpl in E01.
  assert (sched_good s1) as Hg1 by (destruct Hs1; split_and!; [done|lia|lia]).
  assert (eng_good 0 (set_sched s1 e)) as Hge by (split; [done|by eapply evolves_bounded]).
  assert (∀ id, rem_at (store s1) id = rem_at (store (sched e)) id) as Hrem.
  { intros id. unfold rem_at. destruct (store (sched e) !! id) as [d|] eqn:Hd.
    - destruct (evolves_remaining _ _ _ _ _ E01 Hd) as (d' & -> & _ & Heq & _). apply Heq. set_solver.
    - specialize (E01 id). rewrite Hd in E01. by destruct (store s1 !! id). }
  destruct (prefill_seq_ids o ++ decode_seq_ids o) as [|i0 ids0] eqn:Hids; [by intros [= <- <-]|].
  unfold run_batch. munfold. cbn [sched set_sched].
  destruct (from_scheduler_output _ _ o) as [batch|er] eqn:Hbatch; [|done].
  apply from_scheduler_output_ids in Hbatch. destruct (total_tokens batch =? 0); [done|].
  destruct (sample_batch _ _ _ _) as [so|er]; [|done]. intros Hc.
  destruct (commit_ok 0 (set_sched s1 e) o so outs e' (seq_ids batch) ltac:(lia) Hge Hok Hbatch Hc)
    as (Hg' & Hq' & Hdec). specialize (Hdec eq_refl).
  split_and!; [done|done|]. intros _. unfold budget. rewrite Hq'. simpl.
  destruct (Hdec i0) as [_ Hin]. destruct Hin as [Hreg Hlt]; [rewrite Hbatch, Hids; set_solver|].
  apply (sum_list_lt _ _ _ i0).
  - intros id. rewrite <- Hrem. apply Hdec.
  - by apply elem_of_elements.
  - rewrite <- Hrem. done.
Qed.

(** ** Termination *)
Lemma pending_budget e : has_pending_requests e = true → bounded_store 0 (store (sched e)) → (0 < budget e)%nat.
Proof.
  intros Hp Hb. unfold has_pending_requests, pending_request_ids in Hp.
  destruct (filter _ (map_to_list (request_to_seq_ids e))) as [|[rid ids] l] eqn:Hf; [done|].
  assert ((rid, ids) ∈ (rid, ids) :: l) as Hin by set_solver. rewrite <- Hf in Hin.
  apply list_elem_of_filter in Hin as [Hlive _]. apply Is_true_true, existsb_exists in Hlive.
  destruct Hlive as (id & _ & Hl). apply andb_true_iff in Hl as [Hreg%bool_decide_eq_true Hst].
  apply has_status_lookup in Hst as (d & Hd & Hst). destruct (Hb id d Hd) as [_ Hlt].
  assert (is_terminal (status d) = false) as Hnt by (unfold live_statuses in Hst; destruct (status d); try done; set_solver).
  specialize (Hlt Hnt).
  assert (0 < rem_at (store (sched e)) id)%nat as Hpos.
  { unfold rem_at, remaining. rewrite Hd, Hnt. lia. }
  unfold budget.
  assert (sum_list ((λ _ : Z, 0%nat) <$> elements (sequences e)) <
          sum_list ((λ i, rem_at (store (sched e)) i) <$> elements (sequences e)))%nat; [|lia].
  apply (sum_list_lt _ _ _ id); [lia|by apply elem_of_elements|done].
Qed.

Lemma run_terminates fuel e :
  eng_good 0 e → (budget e ≤ fuel)%nat → ∃ r e', run fuel e = Some (r, e').
Proof.
  revert e. induction fuel as [|fuel IH]; intros e Hg Hf; cbn [run_until_done].
  all: destruct (has_pending_requests e) eqn:Hp; cbn [negb]; [|by eauto].
  - pose proof (pending_budget e Hp (proj2 Hg)). lia.
  - destruct (estep e) as [[outs|er] e1] eqn:Hstep; [|by eauto].
    destruct (step_ok e outs e1 Hg Hstep) as (Hg1 & _ & Hdec).
    destruct outs as [|o outs]; [by eauto|]. apply IH; [done|].
    specialize (Hdec ltac:(done)). lia.
Qed.

(** ** Histories of the engine *)
Lemma add_request_good k e rid prompt sp cb n :
  0 ≤ k → eng_good k e → eng_good k (add_request rid prompt sp cb n e).2.
Proof.
  intros Hk [(Hi & Hb & Ht) Hbs]. unfold add_request. munfold.
  case_match; [done|]. case_match; [done|]. unfold on_sched, zoom.
  set (ds := make_sequences e (Z.to_nat n) prompt sp).
  set (e1 := match cb with Some _ => _ | None => _ end).
  assert (sched e1 = sched e) as He1 by (unfold e1; by destruct cb). rewrite He1.
  destruct (add_request_inv rid ds (sched e) Hi) as (r & s' & Hrun & Hi' & Hb' & Ht' & _).
  rewrite Hrun. simpl. split; [split_and!; simpl; [done|lia|lia]|]. simpl.
  assert (∀ d, d ∈ ds → output_token_ids d = []) as Hnew.
  { intros d Hd. unfold ds, make_sequences in Hd. apply list_elem_of_fmap in Hd as (i & -> & _). done. }
  replace s' with (ServingScheduler.add_request rid ds (sched e)).2 by (by rewrite Hrun).
  clear -Hk Hbs Hnew. unfold ServingScheduler.add_request. munfold. case_match; [done|].
  assert (∀ s : Scheduler V, bounded_store k (store s) → bounded_store k (store (for_each ds register_sequence s).2)) as Hall.
  { induction ds as [|d ds IH]; intros s Hs; [done|]. cbn [for_each]. munfold.
    assert (bounded_store k (store (register_sequence d s).2)) as H1.
    { unfold register_sequence, set_status, validate_transition. munfold. case_match; [done|].
      assert (∀ d', output_token_ids d' = [] →
        bounded_store k (<[seq_id d := d']> (store s))) as Hins.
      { intros d' Hd' i x [[<- <-]|[_ Hx]]%lookup_insert_Some; [|by eapply Hs].
        unfold bounded, cap. rewrite Hd'. change (zlen ([] : list Z)) with 0. split; lia. }
      repeat case_match; simplify_eq/=; try done; apply Hins; simpl; apply Hnew; set_solver. }
    destruct (register_sequence d s) as [[[]|er] s1]; [|done]. apply IH; [|done].
    intros d' Hd'. apply Hnew. set_solver. }
  specialize (Hall (sched e) Hbs). by destruct (for_each ds register_sequence (sched e)) as [[[]|er] s1].
Qed.

Lemma abort_request_evolves (s : Scheduler V) rid :
  match request_map s !! rid with
  | None => store (ServingScheduler.abort_request rid s).2 = store s
  | Some g => sched_evolves (group_seqs g) s (ServingScheduler.abort_request rid s).2
  end.
Proof.
  unfold ServingScheduler.abort_request, drop_request_metadata. munfold.
  destruct (request_map s !! rid) as [g|] eqn:Hg; [|done].
  assert (preserves (sched_evolves (group_seqs g))
            (for_each (group_seqs g) (cancel_sequence (V := V)))) as Hm
    by (unfold cancel_sequence; evolve).
  specialize (Hm s). destruct (for_each _ _ s) as [[[]|er] s1]; [|done].
  match goal with |- context [prune_finished_and_cancelled_requests ?x] =>
    destruct (prune_run x) as (sm & -> & _) end. done.
Qed.

Lemma abort_request_good k e rid : eng_good k e → eng_good k (abort_request eviction_sync rid e).2.
Proof.
  intros [(Hi & Hb & Ht) Hbs]. unfold abort_request, on_sched, zoom. munfold.
  destruct (abort_request_spec (sched e) rid Hi) as (s' & Hrun & Hi' & Hb' & Ht' & _).
  pose proof (abort_request_evolves (sched e) rid) as Hev. rewrite Hrun in *. simpl in Hev.
  assert (eng_good k (set_sched s' e)) as Hg.
  { split; [split_and!; simpl; [done|lia|lia]|]. simpl.
    destruct (request_map (sched e) !! rid); [by eapply evolves_bounded|by rewrite Hev]. }
  simpl. destruct (any_live e _); simpl; [|done]. by destruct eviction_sync.
Qed.

(** The calls of a client: adding and aborting requests (whatever the outcome)
    and steps that return. *)
Inductive eng_call : Engine V → Engine V → Prop :=
  | call_add rid prompt sp cb n e : eng_call e (add_request rid prompt sp cb n e).2
  | call_abort rid e : eng_call e (abort_request eviction_sync rid e).2
  | call_step e outs e' : estep e = (Ok outs, e') → eng_call e e'.

(** The states of an engine over a new scheduler. *)
Definition eng_reachable e : Prop :=
  ∃ s0, reachable s0 ∧ store s0 = ∅ ∧ rtc eng_call (eng_init s0) e.

Lemma eng_reachable_good e : eng_reachable e → eng_good 0 e.
Proof.
  intros (s0 & Hr & Hs & Hrtc).
  assert (eng_good 0 (eng_init s0)) as H0.
  { split; [by apply reachable_good|]. simpl. rewrite Hs. by intros id d. }
  clear Hr Hs. induction Hrtc as [|e1 e2 e3 Hc _ IH]; [done|]. apply IH.
  destruct Hc as [rid prompt sp cb n e|rid e|e outs e' Hst].
  - by apply add_request_good; [lia|].
  - by apply abort_request_good.
  - by eapply step_ok.
Qed.

(** C8: [run_until_done] terminates: from every state the engine reaches by
    [add_request], [abort_request] and [step]s that returned, it returns or
    raises within as many steps as the registered sequences may still generate
    tokens, whatever the model and the sampler produce. *)
Theorem run_until_done_terminates e :
  eng_reachable e → ∃ r e', run (budget e) e = Some (r, e').
Proof. intros H. apply run_terminates; [by apply eng_reachable_good|done]. Qed.

(** ** Steps that raise *)

(** A recording loop that stops anywhere has appended at most one token to each of [ids]. *)
Definition grows (ids : list Z) h h' : Prop :=
  ∀ id, h' !! id = h !! id ∨
        id ∈ ids ∧ ∃ d tok, h !! id = Some d ∧ is_terminal (status d) = false ∧ h' !! id = Some (appended tok d).
Lemma record_token_any so index id r e r' e' :
  record_token eos tokenizer so index id r e = (r', e') →
  ∃ h', sched e' = set_store h' (sched e) ∧ grows [id] (store (sched e)) h'.
Proof.
  assert (sched e = set_store (store (sched e)) (sched e)) as Hsame by (by destruct (sched e)).
  assert (grows [id] (store (sched e)) (store (sched e))) as Hrefl by (intros i; by left).
  unfold record_token. munfold. case_match; [intros [= _ <-]; eauto|].
  destruct (sequence_to_request_id e !! id) as [rid|]; [|intros [= _ <-]; eauto].
  destruct (token_ids so !! index) as [tok|]; [|intros [= _ <-]; eauto].
  unfold on_sched, zoom, on_seq.
  destruct (store (sched e) !! id) as [d|] eqn:Hd; [|intros [= _ <-]; simpl; eauto].
  destruct (is_terminal (status d)) eqn:Ht.
  { unfold append_output_token. munfold. rewrite Ht. intros [= _ <-]. exists (store (sched e)). split; [|done]. simpl. by rewrite insert_id. }
  destruct (appended_live tok d Ht) as (Happ & _). rewrite Happ.
  assert (grows [id] (store (sched e)) (<[id := appended tok d]> (store (sched e)))) as Hg.
  { intros i. destruct (decide (i = id)) as [->|Hne]; [right|left; by rewrite lookup_insert_ne].
    split; [set_solver|]. exists d, tok. by rewrite lookup_insert_eq. }
  intros Hrun. exists (<[id := appended tok d]> (store (sched e))). split; [|exact Hg]. revert Hrun.
  repeat (case_match; cbn [sched set_sched set_requests set_counters store set_store]; try (intros [= _ <-]; done)).
Qed.
Lemma record_all_any so ids index r e r' e' :
  NoDup ids → record_all eos tokenizer so index ids r e = (r', e') →
  ∃ h', sched e' = set_store h' (sched e) ∧ grows ids (store (sched e)) h'.
Proof.
  intros Hnd. revert index r e. induction Hnd as [|id ids Hni Hnd IH]; intros index r e Hrun; simpl in Hrun; munfold in Hrun.
  { injection Hrun as <- <-. exists (store (sched e)). split; [by destruct (sched e)|]. intros i. by left. }
  destruct (record_token eos tokenizer so index id r e) as [r1 e1] eqn:H1.
  apply record_token_any in H1 as (h1 & Hs1 & Hg1).
  assert (∀ h', grows ids h1 h' → grows (id :: ids) (store (sched e)) h') as Hboth.
  { intros h' Hg i. destruct (Hg i) as [->|(Hi & d & tok & Hd & Hl & Hd')].
    - destruct (Hg1 i) as [H|(Hi & H)]; [by left|right]. split; [set_solver|done].
    - right. split; [set_solver|]. destruct (Hg1 i) as [H|(Hi' & _)]; [|set_solver]. rewrite <- H. eauto. }
  destruct r1 as [r1|er].
  - destruct (IH (S index) r1 e1 Hrun) as (h' & Hs' & Hg'). rewrite Hs1 in Hs', Hg'. exists h'. split; [done|]. by apply Hboth.
  - injection Hrun as _ <-. exists h1. split; [done|]. apply Hboth. intros i. by left.
Qed.
Lemma grows_bounded k ids h h' : bounded_store k h → grows ids h h' → bounded_store (k + 1) h'.
Proof.
  intros Hb Hg id d' Hd'. destruct (Hg id) as [H|(_ & d & tok & Hd & Hl & H)].
  - rewrite H in Hd'. by apply (bounded_store_mono k (k + 1) h ltac:(lia) Hb id).
  - rewrite Hd' in H. injection H as ->. destruct (appended_live tok d Hl) as (_ & Hout & Hst & Hsp).
    destruct (Hb id d Hd) as [_ Hlt]. specialize (Hlt Hl). unfold bounded, cap in *. rewrite Hout, Hsp, zlen_app. change (zlen [tok]) with 1. lia.
Qed.
Lemma grows_status ids h h' id : grows ids h h' → status_of h' id = status_of h id.
Proof.
  intros Hg. unfold status_of. destruct (Hg id) as [->|(_ & d & tok & -> & Hl & ->)]; [done|]. simpl.
  by destruct (appended_live tok d Hl) as (_ & _ & -> & _).
Qed.
Lemma good_mono k k' e : k ≤ k' → eng_good k e → eng_good k' e.
Proof. intros Hk [H1 H2]. split; [done|]. by eapply bounded_store_mono. Qed.

Lemma commit_any k e o so r e' ids :
  eng_good k e → schedule_ok (sched e) o → ids = prefill_seq_ids o ++ decode_seq_ids o →
  commit_tokens eos tokenizer eviction_sync set_order so ids e = (Err r, e') → eng_good (k + 1) e'.
Proof.
  intros [(Hi & Hb & Ht) Hbs] Hok Hids. unfold commit_tokens. munfold.
  destruct (record_all eos tokenizer so 0 ids no_records e) as [rr e2] eqn:Hrec.
  apply record_all_any in Hrec as (h2 & Hs2 & Hg); [|rewrite Hids; apply (so_nodup _ _ Hok)].
  assert (sched_inv (sched e2)) as Hi2.
  { rewrite Hs2. apply inv_same_status; [done|]. intros id. by eapply grows_status. }
  pose proof (grows_bounded k ids _ h2 Hbs Hg) as Hb2.
  destruct rr as [rr|er].
  2: { intros [= _ <-]. split; [|by rewrite Hs2]. rewrite Hs2 in *. split_and!; simpl; [done|lia|lia]. }
  unfold on_sched, zoom.
  pose proof (update_after_step_evolves (V := V) (set_order (rec_completed rr)) (rec_completed rr) (rec_decodes rr))
    as E23. specialize (E23 (λ id, proj1 (set_order_ok _ id)) (sched e2)).
  destruct (update_after_step_inv (set_order (rec_completed rr)) (rec_completed rr) (rec_decodes rr)
    (sched e2) Hi2) as (r3 & s3 & Hup & Hi3 & Hb3 & Ht3).
  rewrite Hup in *. simpl in E23. destruct r3 as [[]|er]; [done|]. intros [= _ <-]. simpl. rewrite Hs2 in *. simpl in Hb3, Ht3.
  split; [split_and!; simpl; [done|lia|lia]|]. by eapply (evolves_bounded _ h2).
Qed.
(** What a step does, whether it returns or raises. *)
Lemma step_any k e r e' :
  0 ≤ k → eng_good k e → estep e = (r, e') → eng_good (match r with Ok _ => k | Err _ => k + 1 end) e'.
Proof.
  intros Hk [(Hi & Hb & Ht) Hbs]. unfold step, on_sched. munfold.
  destruct (schedule_spec (sched e) Hi Hb Ht) as (o & s1 & Hrun & Hi1 & Hs1 & Hok).
  pose proof (schedule_evolves (sched e)) as E01. rewrite Hrun in *. simpl in E01.
  assert (sched_good s1) as Hg1 by (destruct Hs1; split_and!; [done|lia|lia]).
  assert (eng_good k (set_sched s1 e)) as Hge by (split; [done|by eapply evolves_bounded]).
  pose proof (good_mono k (k + 1) _ ltac:(lia) Hge) as Hge'.
  destruct (prefill_seq_ids o ++ decode_seq_ids o) as [|i0 ids0] eqn:Hids; [by intros [= <- <-]|].
  unfold run_batch. munfold. cbn [sched set_sched].
  destruct (from_scheduler_output _ _ o) as [batch|er] eqn:Hbatch; [|by intros [= <- <-]].
  apply from_scheduler_output_ids in Hbatch. destruct (total_tokens batch =? 0); [by intros [= <- <-]|].
  destruct (sample_batch _ _ _ _) as [so|er]; [|by intros [= <- <-]]. intros Hc.
  destruct r as [outs|er].
  - by apply (commit_ok k (set_sched s1 e) o so outs e' (seq_ids batch) Hk Hge Hok Hbatch).
  - by apply (commit_any k (set_sched s1 e) o so er e' (seq_ids batch) Hge Hok Hbatch).
Qed.

(** A history of calls in which [k] steps raised: requests added and aborted, whatever the
    outcome, and steps that returned or raised. *)
Inductive eng_history : Z → Engine V → Prop :=
  | hist_new s0 : reachable s0 → store s0 = ∅ → eng_history 0 (eng_init s0)
  | hist_add k e rid prompt sp cb n : eng_history k e → eng_history k (add_request rid prompt sp cb n e).2
  | hist_abort k e rid : eng_history k e → eng_history k (abort_request eviction_sync rid e).2
  | hist_step k e outs e' : eng_history k e → estep e = (Ok outs, e') → eng_history k e'
  | hist_raise k e er e' : eng_history k e → estep e = (Err er, e') → eng_history (k + 1) e'.
Lemma eng_history_good k e : eng_history k e → 0 ≤ k ∧ eng_good k e.
Proof.
  induction 1 as [s0 Hr Hs|k e rid prompt sp cb n _ [Hk IH]|k e rid _ [Hk IH]|k e outs e' _ [Hk IH] Hst|k e er e' _ [Hk IH] Hst].
  - split; [lia|]. split; [by apply reachable_good|]. simpl. rewrite Hs. by intros id d.
  - split; [done|]. by apply add_request_good.
  - split; [done|]. by apply abort_request_good.
  - split; [done|]. apply (step_any k e (Ok outs) e' Hk IH Hst).
  - split; [lia|]. apply (step_any k e (Err er) e' Hk IH Hst).
Qed.

(** C9: In any history of calls, in which [k] steps raised and the others returned, no
    sequence has more than [max(1, max_tokens) + k] tokens, and one that is not in a terminal
    status has fewer.  So without a raising step the limit is kept and ends the sequence; a
    step that raises after recording a token can cost one token each time. *)
Theorem generation_bounded k e id d :
  eng_history k e → store (sched e) !! id = Some d →
  zlen (output_token_ids d) ≤ Z.max 1 (max_tokens (sampling_params d)) + k ∧
  (is_terminal (status d) = false → zlen (output_token_ids d) < Z.max 1 (max_tokens (sampling_params d)) + k).
Proof. intros H Hd. exact (proj2 (proj2 (eng_history_good k e H)) id d Hd). Qed.
End progress.

(** ** A concrete engine *)

(** A model that returns one row of logits per token, and greedy sampling. *)
Definition demo_execute (n : nat) (b : BatchMetadata) : list Row :=
  replicate (length (input_token_ids b)) [Some 0%Q; Some 1%Q].
Definition demo_sampler (n : nat) (rows : list Row) (sps : list SamplingParams) : res SamplerOutput :=
  sample ref_argmax ref_topk ref_sort ref_softmax ref_softmax ref_multinomial 2 rows sps.
Definition greedy (n : Z) : SamplingParams := mkSP 0 (-1) 1 0 n [] 1.

(** Two requests, of two tokens each. *)
Definition demo_engine : Engine Z :=
  (add_request "b" [4] (greedy 2) None 1
     (add_request "a" [1; 2; 3] (greedy 2) None 1 (eng_init sched_demo0)).2).2.

Lemma demo_engine_reachable :
  eng_reachable None None false demo_execute true demo_sampler (λ l, l) demo_engine.
Proof.
  exists sched_demo0. split_and!; [apply sched_demo0_reachable|reflexivity|].
  eapply rtc_l; [apply call_add|]. eapply rtc_l; [apply call_add|]. apply rtc_refl.
Qed.

(** It returns the outputs of both requests. *)
Example demo_engine_runs :
  fst <$> run_until_done None None false demo_execute true demo_sampler (λ l, l) 4 demo_engine =
  Some (Ok {[ "a" := inl [1; 1]; "b" := inl [1; 1] ]}).
Proof. vm_compute. reflexivity. Qed.

Lemma run_until_done_terminates_witness :
  ∃ r e', run_until_done None None false demo_execute true demo_sampler (λ l, l)
            (budget demo_engine) demo_engine = Some (r, e').
Proof.
  apply (run_until_done_terminates None None false demo_execute true demo_sampler (λ l, l)).
  - done.
  - apply demo_engine_reachable.
Defined.

(** A step, then one in which the sampler fails. *)
Definition failing_sampler (n : nat) (rows : list Row) (sps : list SamplingParams) : res SamplerOutput :=
  if decide (n = 1%nat) then Err RuntimeError else demo_sampler n rows sps.
Definition demo_step := step (V := Z) None None false demo_execute true failing_sampler (λ l, l).
Definition outputs_of (r : res (list RequestOutput)) : list RequestOutput := match r with Ok l => l | Err _ => [] end.
Definition after_one : Engine Z := (demo_step demo_engine).2.
Definition after_raise : Engine Z := (demo_step after_one).2.
Lemma generation_bounded_witness :
  is_ok (demo_step demo_engine).1 = true ∧ (demo_step after_one).1 = Err RuntimeError ∧
  ∃ d, store (sched after_raise) !! 0 = Some d ∧ output_token_ids d = [1] ∧
    (zlen (output_token_ids d) ≤ Z.max 1 2 + (0 + 1) ∧ (is_terminal (status d) = false → zlen (output_token_ids d) < Z.max 1 2 + (0 + 1))).
Proof.
  split; [vm_compute; reflexivity|]. split; [vm_compute; reflexivity|].
  eexists. split; [vm_compute; reflexivity|]. split; [reflexivity|].
  refine (generation_bounded None None false demo_execute true failing_sampler (λ l, l) _ (0 + 1) after_raise 0 _ _ _).
  - done.
  - apply (hist_raise None None false demo_execute true failing_sampler (λ l, l) 0 after_one RuntimeError).
    + apply (hist_step None None false demo_execute true failing_sampler (λ l, l) 0 demo_engine (outputs_of (demo_step demo_engine).1)).
      * apply hist_add, hist_add, hist_new; [apply sched_demo0_reachable|reflexivity].
      * vm_compute. reflexivity.
    + vm_compute. reflexivity.
  - vm_compute. reflexivity.
Defined.
