(* ===== verification/OffloadingPolicy.v ===== *)
(** * Cache replacement policies (memory/offloading_policy.py)

    The abstract class [CachePolicy] is a type class; [LRUPolicy] and
    [ARCPolicy] are its instances.  What a client may rely on is stated as laws
    about the class, proved for each instance. *)
From S2P Require Import Prelude PyCollections.
Import OrderedDict.

(** ** The abstract class *)
Class CachePolicy (P K V : Type) := {
  cp_get : K → P → option V * P;
  cp_put : K → V → P → P;
  cp_evict : P → option (K * V) * P;
  cp_capacity : P → Z;
  cp_len : P → Z
}.

Section lru.
Context {K V : Type} `{EqDecision K}.

(** ** LRUPolicy *)
Record LRUPolicy := mkLRU {
  lru_capacity : Z;
  lru_data : list (K * V)         (** the [OrderedDict], oldest entry first *)
}.

Definition lru_init (capacity : Z) : res LRUPolicy :=
  if capacity <=? 0 then Err ValueError else Ok (mkLRU capacity []).

Definition lru_len (p : LRUPolicy) : Z := zlen (lru_data p).

Definition lru_get (key : K) (p : LRUPolicy) : option V * LRUPolicy :=
  if od_mem key (lru_data p) then
    let d := od_move_to_end key (lru_data p) in (od_get key d, mkLRU (lru_capacity p) d)
  else (None, p).

Definition lru_put (key : K) (value : V) (p : LRUPolicy) : LRUPolicy :=
  if od_mem key (lru_data p) then
    mkLRU (lru_capacity p) (od_move_to_end key (od_set key value (lru_data p)))
  else
    let d := if lru_capacity p <=? zlen (lru_data p)
             then match od_popfirst (lru_data p) with Some (_, d) => d | None => [] end
             else lru_data p in
    mkLRU (lru_capacity p) (od_set key value d).

Definition lru_evict (p : LRUPolicy) : option (K * V) * LRUPolicy :=
  match od_popfirst (lru_data p) with
  | None => (None, p)
  | Some (kv, d) => (Some kv, mkLRU (lru_capacity p) d)
  end.

(** ** ARCPolicy *)
Record ARCPolicy := mkARC {
  arc_capacity : Z;
  arc_p : Z;
  t1 : list (K * V);
  t2 : list (K * V);
  b1 : list (K * unit);
  b2 : list (K * unit)
}.

Definition arc_init (capacity : Z) : res ARCPolicy :=
  if capacity <=? 0 then Err ValueError else Ok (mkARC capacity 0 [] [] [] []).

Definition arc_len (a : ARCPolicy) : Z := zlen (t1 a) + zlen (t2 a).

Definition arc_get (key : K) (a : ARCPolicy) : option V * ARCPolicy :=
  match od_get key (t1 a) with
  | Some value =>
      (Some value, mkARC (arc_capacity a) (arc_p a) (od_del key (t1 a)) (od_set key value (t2 a)) (b1 a) (b2 a))
  | None =>
      match od_get key (t2 a) with
      | Some value =>
          (Some value, mkARC (arc_capacity a) (arc_p a) (t1 a)
                         (od_set key value (od_del key (t2 a))) (b1 a) (b2 a))
      | None => (None, a)
      end
  end.

(** [t.popitem(last=False)] followed by [ghosts[key] = None]. *)
Definition demote {A} (t : list (K * A)) (ghosts : list (K * unit)) : list (K * A) * list (K * unit) :=
  match od_popfirst t with
  | None => (t, ghosts)
  | Some ((key, _), t') => (t', od_set key tt ghosts)
  end.

Definition demote_t1 (a : ARCPolicy) : ARCPolicy :=
  let '(t1', b1') := demote (t1 a) (b1 a) in mkARC (arc_capacity a) (arc_p a) t1' (t2 a) b1' (b2 a).
Definition demote_t2 (a : ARCPolicy) : ARCPolicy :=
  let '(t2', b2') := demote (t2 a) (b2 a) in mkARC (arc_capacity a) (arc_p a) (t1 a) t2' (b1 a) b2'.

Definition nonempty {A} (l : list A) : bool := match l with [] => false | _ => true end.

(** [_replace] *)
Definition arc_replace (incoming_key : K) (a : ARCPolicy) : ARCPolicy :=
  let should_replace_t1 :=
    nonempty (t1 a) && ((arc_p a <? zlen (t1 a)) ||
                        (od_mem incoming_key (b2 a) && (zlen (t1 a) =? arc_p a))) in
  if should_replace_t1 then demote_t1 a
  else if nonempty (t2 a) then demote_t2 a
  else if nonempty (t1 a) then demote_t1 a
  else a.

(** [while len(d) > capacity: d.popitem(last=False)] *)
Definition pop_to {A} (capacity : Z) (d : list A) : list A :=
  drop (Z.to_nat (zlen d - Z.max 0 capacity)) d.

(** The last loop of [_trim_ghosts]; every iteration pops one entry, so
    [length b1 + length b2] iterations are enough. *)
Fixpoint trim_both (fuel : nat) (capacity : Z) (g1 g2 : list (K * unit))
    : list (K * unit) * list (K * unit) :=
  match fuel with
  | O => (g1, g2)
  | S fuel' =>
      if capacity <? zlen g1 + zlen g2 then
        if (zlen g2 <=? zlen g1) && nonempty g1 then trim_both fuel' capacity (drop 1 g1) g2
        else if nonempty g2 then trim_both fuel' capacity g1 (drop 1 g2)
        else (g1, g2)
      else (g1, g2)
  end.

(** [_trim_ghosts] *)
Definition trim_ghosts (a : ARCPolicy) : ARCPolicy :=
  let g1 := pop_to (arc_capacity a) (b1 a) in
  let g2 := pop_to (arc_capacity a) (b2 a) in
  let '(g1, g2) := trim_both (length g1 + length g2) (arc_capacity a) g1 g2 in
  mkARC (arc_capacity a) (arc_p a) (t1 a) (t2 a) g1 g2.

Definition set_p (p : Z) (a : ARCPolicy) : ARCPolicy :=
  mkARC (arc_capacity a) p (t1 a) (t2 a) (b1 a) (b2 a).

(** The two ghost hits of [put]: adapt [p], make room, enter [t2]. *)
Definition put_b1 (key : K) (value : V) (a : ARCPolicy) : ARCPolicy :=
  let delta := Z.max 1 (zlen (b2 a) / Z.max 1 (zlen (b1 a))) in
  let a := arc_replace key (set_p (Z.min (arc_capacity a) (arc_p a + delta)) a) in
  trim_ghosts (mkARC (arc_capacity a) (arc_p a) (t1 a) (od_set key value (t2 a))
                 (od_del key (b1 a)) (b2 a)).
Definition put_b2 (key : K) (value : V) (a : ARCPolicy) : ARCPolicy :=
  let delta := Z.max 1 (zlen (b1 a) / Z.max 1 (zlen (b2 a))) in
  let a := arc_replace key (set_p (Z.max 0 (arc_p a - delta)) a) in
  trim_ghosts (mkARC (arc_capacity a) (arc_p a) (t1 a) (od_set key value (t2 a))
                 (b1 a) (od_del key (b2 a))).

(** The room [put] makes for a key it has never seen. *)
Definition make_room_new (key : K) (a : ARCPolicy) : ARCPolicy :=
  let c := arc_capacity a in
  let l1_size := zlen (t1 a) + zlen (b1 a) in
  let total := arc_len a + zlen (b1 a) + zlen (b2 a) in
  if l1_size =? c then
    if zlen (t1 a) <? c then
      arc_replace key (mkARC c (arc_p a) (t1 a) (t2 a) (drop 1 (b1 a)) (b2 a))
    else mkARC c (arc_p a) (drop 1 (t1 a)) (t2 a) (b1 a) (b2 a)
  else if (l1_size <? c) && (c <=? total) then
    let b2' := if (2 * c <=? total) && nonempty (b2 a) then drop 1 (b2 a) else b2 a in
    arc_replace key (mkARC c (arc_p a) (t1 a) (t2 a) (b1 a) b2')
  else a.

Definition put_new (key : K) (value : V) (a : ARCPolicy) : ARCPolicy :=
  let a := make_room_new key a in
  trim_ghosts (mkARC (arc_capacity a) (arc_p a) (od_set key value (t1 a)) (t2 a) (b1 a) (b2 a)).

(** [ARCPolicy.put] *)
Definition arc_put (key : K) (value : V) (a : ARCPolicy) : ARCPolicy :=
  if od_mem key (t1 a) then
    mkARC (arc_capacity a) (arc_p a) (od_del key (t1 a)) (od_set key value (t2 a)) (b1 a) (b2 a)
  else if od_mem key (t2 a) then
    mkARC (arc_capacity a) (arc_p a) (t1 a) (od_set key value (od_del key (t2 a))) (b1 a) (b2 a)
  else if od_mem key (b1 a) then put_b1 key value a
  else if od_mem key (b2 a) then put_b2 key value a
  else put_new key value a.

(** [ARCPolicy.evict] *)
Definition arc_evict (a : ARCPolicy) : option (K * V) * ARCPolicy :=
  match od_popfirst (t1 a) with
  | Some (kv, _) => (Some kv, trim_ghosts (demote_t1 a))
  | None =>
      match od_popfirst (t2 a) with
      | Some (kv, _) => (Some kv, trim_ghosts (demote_t2 a))
      | None => (None, a)
      end
  end.

#[global] Instance lru_policy : CachePolicy LRUPolicy K V := {
  cp_get := lru_get; cp_put := lru_put; cp_evict := lru_evict;
  cp_capacity := lru_capacity; cp_len := lru_len
}.

#[global] Instance arc_policy : CachePolicy ARCPolicy K V := {
  cp_get := arc_get; cp_put := arc_put; cp_evict := arc_evict;
  cp_capacity := arc_capacity; cp_len := arc_len
}.
End lru.
Arguments LRUPolicy K V : clear implicits.
Arguments ARCPolicy K V : clear implicits.

(** ** The laws *)

(** What every policy promises: [cp_peek] is its contents. *)
Class CachePolicyLaws (P K V : Type) `{EqDecision K, CachePolicy P K V} := {
  cp_wf : P → Prop;
  cp_peek : K → P → option V;
  (** the size is the number of entries and never exceeds the capacity *)
  law_bound p : cp_wf p → 0 ≤ cp_len p ≤ cp_capacity p ∧ 0 < cp_capacity p;
  law_empty p : cp_wf p → cp_len p = 0 → ∀ k, cp_peek k p = None;
  (** [get] returns the stored value and changes no entry *)
  law_get k p : cp_wf p → let '(r, p') := cp_get k p in
    r = cp_peek k p ∧ cp_wf p' ∧ cp_capacity p' = cp_capacity p ∧
    cp_len p' = cp_len p ∧ ∀ k', cp_peek k' p' = cp_peek k' p;
  (** [put] stores the value; other entries keep theirs or are dropped *)
  law_put k v p : cp_wf p → let p' := cp_put k v p in
    cp_wf p' ∧ cp_capacity p' = cp_capacity p ∧ cp_peek k p' = Some v ∧
    ∀ k', k' ≠ k → cp_peek k' p' = None ∨ cp_peek k' p' = cp_peek k' p;
  (** [evict] removes one entry and returns it, unless there is none *)
  law_evict p : cp_wf p → let '(r, p') := cp_evict p in
    cp_wf p' ∧ cp_capacity p' = cp_capacity p ∧
    match r with
    | None => p' = p ∧ cp_len p = 0
    | Some (k, v) => cp_peek k p = Some v ∧ cp_peek k p' = None ∧ cp_len p' = cp_len p - 1 ∧
                     ∀ k', k' ≠ k → cp_peek k' p' = cp_peek k' p
    end
}.

(** A policy that never drops an entry while it is below its capacity. *)
Class NoSilentEviction (P K V : Type) `{EqDecision K, CachePolicy P K V, !CachePolicyLaws P K V} := {
  law_put_below k v p : cp_wf p → cp_len p < cp_capacity p →
    (∀ k', k' ≠ k → cp_peek k' (cp_put k v p) = cp_peek k' p) ∧
    cp_len (cp_put k v p) = cp_len p + match cp_peek k p with Some _ => 0 | None => 1 end
}.
