(* ===== verification/OffloadingPolicyProps.v ===== *)
(** * The replacement policies satisfy their laws *)
From S2P Require Import Prelude PyCollections OffloadingPolicy.
Import OrderedDict.

Section od_facts.
Context {K V : Type} `{EqDecision K}.
Implicit Types d : list (K * V).

Lemma od_del_get k k' d : od_ok d → k ≠ k' → od_get k (od_del k' d) = od_get k d.
Proof.
  intros Hd Hne. unfold od_ok, keys in Hd. induction d as [|[k0 v0] d IH]; simpl in *; [done|].
  apply NoDup_cons in Hd as [Hk0 Hd].
  repeat (case_decide; simpl; simplify_eq); try done. by apply IH.
Qed.

Lemma od_del_get_eq k d : od_ok d → od_get k (od_del k d) = None.
Proof. intros Hd. by apply od_get_None, od_keys_del_not_in. Qed.

Lemma zlen_keys d : zlen (keys d) = zlen d.
Proof. unfold zlen, keys. by rewrite length_fmap. Qed.

Lemma od_zlen_set k v d : zlen (od_set k v d) = zlen d + if decide (k ∈ keys d) then 0 else 1.
Proof.
  rewrite <- (zlen_keys d). unfold zlen.
  replace (length (od_set k v d)) with (length (keys (od_set k v d))) by apply length_fmap.
  rewrite od_keys_set. case_decide; [lia|]. rewrite length_app. simpl. lia.
Qed.

Lemma od_zlen_del k d : k ∈ keys d → zlen (od_del k d) = zlen d - 1.
Proof. intros Hk. apply od_length_del in Hk. unfold zlen. lia. Qed.

Lemma od_zlen_move k d : zlen (od_move_to_end k d) = zlen d.
Proof. unfold zlen. by rewrite (od_move_to_end_perm k d). Qed.

Lemma od_keys_del_elem k k' d : k' ∈ keys (od_del k d) → k' ∈ keys d.
Proof.
  unfold keys. rewrite !list_elem_of_fmap. intros (x & -> & Hx). exists x. split; [done|].
  eapply elem_of_sublist; [done|]. apply od_del_sublist.
Qed.

Lemma od_get_app k d d' :
  od_get k (d ++ d') = match od_get k d with Some v => Some v | None => od_get k d' end.
Proof. induction d as [|[k0 v0] d IH]; simpl; [done|]. by case_decide. Qed.
End od_facts.

(** ** LRU *)
Section lru_laws.
Context {K V : Type} `{EqDecision K}.
Implicit Types p : LRUPolicy K V.

Record lru_wf p : Prop := {
  lw_ok : od_ok (lru_data p);
  lw_cap : 0 < lru_capacity p;
  lw_len : zlen (lru_data p) ≤ lru_capacity p
}.

Definition lru_peek (k : K) p : option V := od_get k (lru_data p).

Lemma od_mem_get (k : K) (d : list (K * V)) : od_mem k d = true → is_Some (od_get k d).
Proof. unfold od_mem. apply bool_decide_eq_true. Qed.

Lemma od_mem_get_false (k : K) (d : list (K * V)) : od_mem k d = false → od_get k d = None.
Proof. rewrite od_mem_false. apply od_get_None. Qed.

Lemma lru_get_law k p : lru_wf p → let '(r, p') := lru_get k p in
  r = lru_peek k p ∧ lru_wf p' ∧ lru_capacity p' = lru_capacity p ∧
  lru_len p' = lru_len p ∧ ∀ k', lru_peek k' p' = lru_peek k' p.
Proof.
  intros [H1 H2 H3]. unfold lru_get. destruct (od_mem k (lru_data p)) eqn:E.
  - pose proof (od_move_to_end_perm k (lru_data p)) as Hp.
    assert (∀ k', od_get k' (od_move_to_end k (lru_data p)) = od_get k' (lru_data p)) as Hg
      by (intros k'; symmetry; by apply od_get_perm).
    unfold lru_peek, lru_len. simpl. rewrite od_zlen_move. split_and!; try done.
    constructor; simpl; [by eapply od_ok_perm|done|by rewrite od_zlen_move].
  - split_and!; try done. unfold lru_peek. symmetry. by apply od_mem_get_false.
Qed.

Lemma lru_put_law k v p : lru_wf p → let p' := lru_put k v p in
  lru_wf p' ∧ lru_capacity p' = lru_capacity p ∧ lru_peek k p' = Some v ∧
  (∀ k', k' ≠ k → lru_peek k' p' = None ∨ lru_peek k' p' = lru_peek k' p) ∧
  (lru_len p < lru_capacity p →
     (∀ k', k' ≠ k → lru_peek k' p' = lru_peek k' p) ∧
     lru_len p' = lru_len p + match lru_peek k p with Some _ => 0 | None => 1 end).
Proof.
  intros [H1 H2 H3]. unfold lru_put, lru_peek, lru_len. destruct (od_mem k (lru_data p)) eqn:E; simpl.
  - pose proof (od_mem_get _ _ E) as [v0 Hv0]. rewrite Hv0.
    pose proof (od_set_ok k v _ H1) as Hok. pose proof (od_move_to_end_perm k (od_set k v (lru_data p))) as Hp.
    assert (∀ k', od_get k' (od_move_to_end k (od_set k v (lru_data p))) = od_get k' (od_set k v (lru_data p)))
      as Hg by (intros k'; symmetry; apply od_get_perm; [by symmetry|done]).
    assert (zlen (od_move_to_end k (od_set k v (lru_data p))) = zlen (lru_data p)) as Hz.
    { rewrite od_zlen_move, od_zlen_set, decide_True; [lia|by apply od_mem_true]. }
    split_and!; try done.
    + constructor; simpl; [by eapply od_ok_perm; [symmetry|]|done|by rewrite Hz].
    + by rewrite Hg, od_get_set_eq.
    + intros k' Hne. right. by rewrite Hg, od_get_set_ne.
    + intros _. split; [intros k' Hne; by rewrite Hg, od_get_set_ne|lia].
  - apply od_mem_false in E. rewrite (proj2 (od_get_None _ _) E).
    destruct (Z.leb_spec (lru_capacity p) (zlen (lru_data p))) as [Hfull|Hroom].
    + destruct (lru_data p) as [|[k0 v0] d] eqn:Hd; simpl.
      { change (zlen ([] : list (K * V))) with 0 in Hfull. lia. }
      unfold od_ok, keys in H1. simpl in H1. apply NoDup_cons in H1 as [Hk0 Hnd].
      assert (k ∉ keys d) as Hkd by (unfold keys in *; simpl in E; set_solver).
      rewrite zlen_cons in *. split_and!; try done.
      * constructor; simpl; [by apply od_set_ok|done|]. rewrite od_zlen_set, decide_False by done. lia.
      * apply od_get_set_eq.
      * intros k' Hne. rewrite od_get_set_ne by done. case_decide; [subst; left|by right].
        apply od_get_None. done.
      * lia.
    + split_and!; try done.
      * constructor; simpl; [by apply od_set_ok|done|]. rewrite od_zlen_set, decide_False by done. lia.
      * apply od_get_set_eq.
      * intros k' Hne. right. by rewrite od_get_set_ne.
      * intros _. split; [intros k' Hne; by rewrite od_get_set_ne|].
        by rewrite od_zlen_set, decide_False.
Qed.

Lemma lru_evict_law p : lru_wf p → let '(r, p') := lru_evict p in
  lru_wf p' ∧ lru_capacity p' = lru_capacity p ∧
  match r with
  | None => p' = p ∧ lru_len p = 0
  | Some (k, v) => lru_peek k p = Some v ∧ lru_peek k p' = None ∧ lru_len p' = lru_len p - 1 ∧
                   ∀ k', k' ≠ k → lru_peek k' p' = lru_peek k' p
  end.
Proof.
  intros [H1 H2 H3]. unfold lru_evict, lru_peek, lru_len.
  destruct (lru_data p) as [|[k v] d] eqn:Hd; simpl.
  { split_and!; try done. constructor; rewrite ?Hd; done. }
  unfold od_ok, keys in H1. simpl in H1. apply NoDup_cons in H1 as [Hk Hnd]. rewrite zlen_cons in *.
  split_and!; try done; try lia.
  - constructor; simpl; [done|done|lia].
  - by rewrite decide_True.
  - by apply od_get_None.
  - intros k' Hne. by rewrite decide_False.
Qed.

#[global] Instance lru_laws : CachePolicyLaws (LRUPolicy K V) K V.
Proof.
  refine {| cp_wf := lru_wf; cp_peek := lru_peek |}; simpl.
  - intros p [H1 H2 H3]. unfold lru_len. pose proof (zlen_nonneg (lru_data p)). lia.
  - intros p _ Hl k. unfold lru_len, lru_peek in *. destruct (lru_data p); [done|].
    rewrite zlen_cons in Hl. pose proof (zlen_nonneg l). lia.
  - apply lru_get_law.
  - intros k v p Hp. destruct (lru_put_law k v p Hp) as (?&?&?&?&_). done.
  - apply lru_evict_law.
Defined.

#[global] Instance lru_no_silent_eviction : NoSilentEviction (LRUPolicy K V) K V.
Proof. constructor. intros k v p Hp Hl. simpl in *. by apply (lru_put_law k v p Hp). Qed.
End lru_laws.

(** ** ARC *)
Section arc_laws.
Context {K V : Type} `{EqDecision K}.
Implicit Types a : ARCPolicy K V.

Definition all_keys a : list K := keys (t1 a) ++ keys (t2 a) ++ keys (b1 a) ++ keys (b2 a).

(** What holds throughout [put]. *)
Record arc_core a : Prop := {
  ac_nodup : NoDup (all_keys a);
  ac_cap : 0 < arc_capacity a;
  ac_p : 0 ≤ arc_p a ≤ arc_capacity a;
  ac_l1 : zlen (t1 a) + zlen (b1 a) ≤ arc_capacity a
}.

Record arc_wf a : Prop := {
  aw_core : arc_core a;
  aw_len : arc_len a ≤ arc_capacity a;
  aw_ghosts : zlen (b1 a) + zlen (b2 a) ≤ arc_capacity a
}.

Definition arc_peek (k : K) a : option V :=
  match od_get k (t1 a) with Some v => Some v | None => od_get k (t2 a) end.

Lemma arc_nodup a : NoDup (all_keys a) ↔
  od_ok (t1 a) ∧ od_ok (t2 a) ∧ od_ok (b1 a) ∧ od_ok (b2 a) ∧
  (∀ k, k ∈ keys (t1 a) → (k ∉ keys (t2 a)) ∧ (k ∉ keys (b1 a)) ∧ k ∉ keys (b2 a)) ∧
  (∀ k, k ∈ keys (t2 a) → (k ∉ keys (b1 a)) ∧ k ∉ keys (b2 a)) ∧
  (∀ k, k ∈ keys (b1 a) → k ∉ keys (b2 a)).
Proof. unfold all_keys, od_ok. rewrite !NoDup_app. set_solver. Qed.

Lemma arc_peek_None a k : arc_peek k a = None ↔ (k ∉ keys (t1 a)) ∧ k ∉ keys (t2 a).
Proof.
  unfold arc_peek. rewrite <- !od_get_None. destruct (od_get k (t1 a)); naive_solver.
Qed.

(** Removing ghosts changes nothing but the ghosts. *)
Lemma arc_core_ghosts a g1 g2 :
  arc_core a → g1 `sublist_of` b1 a → g2 `sublist_of` b2 a →
  arc_core (mkARC (arc_capacity a) (arc_p a) (t1 a) (t2 a) g1 g2).
Proof.
  intros [H1 H2 H3 H4] S1 S2. constructor; simpl; try done.
  - eapply sublist_NoDup; [exact H1|]. unfold all_keys, keys. simpl.
    apply sublist_app; [done|]. apply sublist_app; [done|]. by apply sublist_app; apply fmap_sublist.
  - apply sublist_length in S1. unfold zlen in *. lia.
Qed.

Lemma trim_both_spec fuel c (g1 g2 : list (K * unit)) :
  0 < c → (length g1 + length g2 ≤ fuel)%nat →
  let '(g1', g2') := trim_both fuel c g1 g2 in
  g1' `sublist_of` g1 ∧ g2' `sublist_of` g2 ∧ zlen g1' + zlen g2' ≤ c.
Proof.
  intros Hc. revert g1 g2. induction fuel as [|fuel IH]; intros g1 g2 Hf; cbn [trim_both].
  { unfold zlen. split_and!; [done|done|lia]. }
  destruct (Z.ltb_spec c (zlen g1 + zlen g2)); [|done].
  destruct ((zlen g2 <=? zlen g1) && nonempty g1) eqn:E1.
  - destruct g1 as [|x g1]; [by rewrite andb_false_r in E1|]. simpl drop. rewrite drop_0.
    specialize (IH g1 g2 ltac:(simpl in Hf; lia)). destruct (trim_both fuel c g1 g2) as [g1' g2'].
    destruct IH as (?&?&?). split_and!; [by apply sublist_cons|done|done].
  - destruct g2 as [|x g2]; simpl nonempty.
    + destruct g1 as [|y g1]; [unfold zlen in *; simpl in *; lia|].
      exfalso. change (zlen ([] : list (K * unit))) with 0 in E1. pose proof (zlen_nonneg (y :: g1)).
      simpl nonempty in E1. rewrite andb_true_r in E1. apply Z.leb_gt in E1. lia.
    + simpl drop. rewrite drop_0. specialize (IH g1 g2 ltac:(simpl in Hf; lia)).
      destruct (trim_both fuel c g1 g2) as [g1' g2']. destruct IH as (?&?&?).
      split_and!; [done|by apply sublist_cons|done].
Qed.

Lemma pop_to_sublist {A} c (d : list A) : pop_to c d `sublist_of` d.
Proof. apply sublist_drop. Qed.

Lemma trim_ghosts_spec a :
  arc_core a → arc_len a ≤ arc_capacity a →
  arc_wf (trim_ghosts a) ∧ arc_capacity (trim_ghosts a) = arc_capacity a ∧
  t1 (trim_ghosts a) = t1 a ∧ t2 (trim_ghosts a) = t2 a.
Proof.
  intros Hc Hl. unfold trim_ghosts.
  pose proof (trim_both_spec (length (pop_to (arc_capacity a) (b1 a)) + length (pop_to (arc_capacity a) (b2 a)))
    (arc_capacity a) (pop_to (arc_capacity a) (b1 a)) (pop_to (arc_capacity a) (b2 a)) (ac_cap a Hc) (le_n _)) as Ht.
  destruct (trim_both _ _ _ _) as [g1 g2]. destruct Ht as (S1 & S2 & Hs).
  split_and!; try done. constructor; try done.
  apply arc_core_ghosts; [done|etrans; [exact S1|apply pop_to_sublist]|etrans; [exact S2|apply pop_to_sublist]].
Qed.

(** Effect of [_replace]: an entry moves to the ghosts, unless there is none. *)
Record replaced a a' : Prop := {
  rp_core : arc_core a';
  rp_cap : arc_capacity a' = arc_capacity a;
  rp_len : arc_len a' = Z.max 0 (arc_len a - 1);
  rp_keys : all_keys a' ≡ₚ all_keys a;
  rp_b1 : ∀ k, k ∈ keys (b1 a) → k ∈ keys (b1 a');
  rp_b2 : ∀ k, k ∈ keys (b2 a) → k ∈ keys (b2 a');
  rp_peek : ∀ k, arc_peek k a' = None ∨ arc_peek k a' = arc_peek k a
}.

Lemma demote_t1_spec a : arc_core a → t1 a ≠ [] → replaced a (demote_t1 a).
Proof.
  intros [H1 H2 H3 H4] Hne. unfold demote_t1, demote. destruct (t1 a) as [|[k v] t] eqn:Ht; [done|]. simpl.
  pose proof (proj1 (arc_nodup a) H1) as (N1 & N2 & N3 & N4 & N5 & N6 & N7). rewrite Ht in *.
  assert (k ∉ keys (b1 a)) as Hk by (apply N5; unfold keys; simpl; set_solver).
  rewrite od_set_fresh by done. pose proof (zlen_nonneg t). pose proof (zlen_nonneg (t2 a)).
  assert (all_keys (mkARC (arc_capacity a) (arc_p a) t (t2 a) (b1 a ++ [(k, tt)]) (b2 a)) ≡ₚ all_keys a) as Hp.
  { unfold all_keys. simpl. rewrite Ht. unfold keys. rewrite fmap_app. simpl. solve_Permutation. }
  unfold od_ok, keys in N1. simpl in N1. apply NoDup_cons in N1 as [Nk N1].
  constructor; simpl; try done.
  - constructor; simpl; try done; [by rewrite Hp|]. rewrite zlen_cons in H4. rewrite zlen_app, zlen_cons, zlen_nil. lia.
  - unfold arc_len. simpl. rewrite Ht, zlen_cons. lia.
  - intros k'. unfold keys. rewrite fmap_app. set_solver.
  - intros k'. unfold arc_peek. simpl. rewrite Ht. simpl. case_decide as Hd; [|by right]. subst k'. left.
    rewrite (proj2 (od_get_None k t) Nk). apply od_get_None, N5. unfold keys. simpl. set_solver.
Qed.

Lemma demote_t2_spec a : arc_core a → t2 a ≠ [] → replaced a (demote_t2 a).
Proof.
  intros [H1 H2 H3 H4] Hne. unfold demote_t2, demote. destruct (t2 a) as [|[k v] t] eqn:Ht; [done|]. simpl.
  pose proof (proj1 (arc_nodup a) H1) as (N1 & N2 & N3 & N4 & N5 & N6 & N7). rewrite Ht in *.
  assert (k ∉ keys (b2 a)) as Hk by (apply N6; unfold keys; simpl; set_solver).
  rewrite od_set_fresh by done. pose proof (zlen_nonneg t). pose proof (zlen_nonneg (t1 a)).
  assert (all_keys (mkARC (arc_capacity a) (arc_p a) (t1 a) t (b1 a) (b2 a ++ [(k, tt)])) ≡ₚ all_keys a) as Hp.
  { unfold all_keys. simpl. rewrite Ht. unfold keys. rewrite fmap_app. simpl. solve_Permutation. }
  unfold od_ok, keys in N2. simpl in N2. apply NoDup_cons in N2 as [Nk N2].
  constructor; simpl; try done.
  - constructor; simpl; try done. by rewrite Hp.
  - unfold arc_len. simpl. rewrite Ht, zlen_cons. lia.
  - intros k'. unfold keys. rewrite fmap_app. set_solver.
  - intros k'. unfold arc_peek. simpl. rewrite Ht. simpl. destruct (od_get k' (t1 a)); [by right|].
    case_decide as Hd; [|by right]. subst k'. left. by apply od_get_None.
Qed.

Lemma arc_replace_spec key a : arc_core a → replaced a (arc_replace key a).
Proof.
  intros Hc. unfold arc_replace.
  assert (∀ A (l : list A), nonempty l = true → l ≠ []) as Hn by (by intros A [|]).
  assert (∀ A (l : list A), nonempty l = false → l = []) as Hn' by (by intros A [|]).
  destruct (nonempty (t1 a)) eqn:E1; simpl andb.
  - case_match; [apply demote_t1_spec; auto|].
    destruct (nonempty (t2 a)) eqn:E2; [apply demote_t2_spec; auto|apply demote_t1_spec; auto].
  - destruct (nonempty (t2 a)) eqn:E2; [apply demote_t2_spec; auto|].
    constructor; try done; try by right. unfold arc_len. by rewrite (Hn' _ _ E1), (Hn' _ _ E2).
Qed.

(** Removing entries. *)
Lemma arc_core_sub a p x1 x2 g1 g2 :
  arc_core a → 0 ≤ p ≤ arc_capacity a → x1 `sublist_of` t1 a → x2 `sublist_of` t2 a →
  g1 `sublist_of` b1 a → g2 `sublist_of` b2 a →
  arc_core (mkARC (arc_capacity a) p x1 x2 g1 g2).
Proof.
  intros [H1 H2 H3 H4] Hp S1 S2 S3 S4. constructor; simpl; try done.
  - eapply sublist_NoDup; [exact H1|]. unfold all_keys, keys. simpl.
    repeat apply sublist_app; by apply fmap_sublist.
  - apply sublist_length in S1, S3. unfold zlen in *. lia.
Qed.

(** Adding a key that is in none of the lists. *)
Lemma enter_t2 a k v :
  arc_core a → k ∉ all_keys a →
  let a' := mkARC (arc_capacity a) (arc_p a) (t1 a) (od_set k v (t2 a)) (b1 a) (b2 a) in
  arc_core a' ∧ arc_len a' = arc_len a + 1 ∧ arc_peek k a' = Some v ∧
  ∀ k', k' ≠ k → arc_peek k' a' = arc_peek k' a.
Proof.
  intros [H1 H2 H3 H4] Hk a'. unfold all_keys in Hk.
  assert (k ∉ keys (t2 a)) as Hk2 by set_solver. assert (k ∉ keys (t1 a)) as Hk1 by set_solver.
  subst a'. rewrite (od_set_fresh k v (t2 a)) by done. split_and!.
  - constructor; simpl; try done.
    assert (all_keys (mkARC (arc_capacity a) (arc_p a) (t1 a) (t2 a ++ [(k, v)]) (b1 a) (b2 a))
      ≡ₚ k :: all_keys a) as ->.
    { unfold all_keys, keys. simpl. rewrite fmap_app. simpl. solve_Permutation. }
    apply NoDup_cons. done.
  - unfold arc_len. simpl. rewrite zlen_app, zlen_cons, zlen_nil. lia.
  - unfold arc_peek. simpl. rewrite (proj2 (od_get_None _ _) Hk1), od_get_app, (proj2 (od_get_None _ _) Hk2).
    simpl. by rewrite decide_True.
  - intros k' Hne. unfold arc_peek. simpl. rewrite od_get_app. simpl. rewrite decide_False by done.
    destruct (od_get k' (t1 a)); [done|]. by destruct (od_get k' (t2 a)).
Qed.

Lemma enter_t1 a k v :
  arc_core a → k ∉ all_keys a → zlen (t1 a) + zlen (b1 a) < arc_capacity a →
  let a' := mkARC (arc_capacity a) (arc_p a) (od_set k v (t1 a)) (t2 a) (b1 a) (b2 a) in
  arc_core a' ∧ arc_len a' = arc_len a + 1 ∧ arc_peek k a' = Some v ∧
  ∀ k', k' ≠ k → arc_peek k' a' = arc_peek k' a.
Proof.
  intros [H1 H2 H3 H4] Hk Hl a'. unfold all_keys in Hk. assert (k ∉ keys (t1 a)) as Hk1 by set_solver.
  subst a'. rewrite (od_set_fresh k v (t1 a)) by done. split_and!.
  - constructor; simpl; try done.
    + assert (all_keys (mkARC (arc_capacity a) (arc_p a) (t1 a ++ [(k, v)]) (t2 a) (b1 a) (b2 a))
        ≡ₚ k :: all_keys a) as ->.
      { unfold all_keys, keys. simpl. rewrite fmap_app. simpl. solve_Permutation. }
      apply NoDup_cons. done.
    + rewrite zlen_app, zlen_cons, zlen_nil. lia.
  - unfold arc_len. simpl. rewrite zlen_app, zlen_cons, zlen_nil. lia.
  - unfold arc_peek. simpl. rewrite od_get_app, (proj2 (od_get_None _ _) Hk1).
    simpl. by rewrite decide_True.
  - intros k' Hne. unfold arc_peek. simpl. rewrite od_get_app. simpl. rewrite decide_False by done.
    by destruct (od_get k' (t1 a)).
Qed.

(** Moving a present key to the recent end of [t2]. *)
Lemma promote_spec a k v x1 x2 :
  arc_wf a → is_Some (arc_peek k a) →
  (x1, x2) = (if od_mem k (t1 a) then (od_del k (t1 a), t2 a) else (t1 a, od_del k (t2 a))) →
  let a' := mkARC (arc_capacity a) (arc_p a) x1 (od_set k v x2) (b1 a) (b2 a) in
  arc_wf a' ∧ arc_len a' = arc_len a ∧ arc_peek k a' = Some v ∧
  ∀ k', k' ≠ k → arc_peek k' a' = arc_peek k' a.
Proof.
  intros [Hc Hl Hg] Hk Hx a'. pose proof Hc as [H1 H2 H3 H4].
  pose proof (proj1 (arc_nodup a) H1) as (N1 & N2 & N3 & N4 & N5 & N6 & N7).
  set (r := mkARC (arc_capacity a) (arc_p a) x1 x2 (b1 a) (b2 a)).
  assert (x1 `sublist_of` t1 a ∧ x2 `sublist_of` t2 a ∧ (k ∉ all_keys r) ∧
          zlen x1 + zlen x2 = arc_len a - 1 ∧ ∀ k', k' ≠ k → arc_peek k' r = arc_peek k' a)
    as (S1 & S2 & Hn & Hz & Hp).
  { unfold arc_len, all_keys, arc_peek, r. destruct (od_mem k (t1 a)) eqn:E; injection Hx as -> ->; simpl.
    - apply od_mem_true in E. rewrite od_zlen_del by done. split_and!; [apply od_del_sublist|done| |lia|].
      + pose proof (od_keys_del_not_in k (t1 a) N1). set_solver.
      + intros k' Hne. by rewrite od_del_get.
    - apply od_mem_false in E. assert (k ∈ keys (t2 a)) as E2.
      { destruct (decide (k ∈ keys (t2 a))); [done|]. exfalso.
        rewrite (proj2 (arc_peek_None a k)) in Hk by done. by destruct Hk. }
      rewrite od_zlen_del by done. split_and!; [done|apply od_del_sublist| |lia|].
      + pose proof (od_keys_del_not_in k (t2 a) N2). set_solver.
      + intros k' Hne. by rewrite od_del_get. }
  assert (arc_core r) as Hcr by (by apply arc_core_sub).
  destruct (enter_t2 r k v Hcr Hn) as (Hc' & Hl' & Hk' & Hp').
  assert (arc_len r = arc_len a - 1) as Hlr by done.
  split_and!; [constructor; [exact Hc'|unfold a'; change (arc_len a' ≤ arc_capacity a)|done]| |done|].
  - assert (arc_len a' = arc_len r + 1) by done. lia.
  - assert (arc_len a' = arc_len r + 1) by done. lia.
  - intros k' Hne. rewrite <- Hp by done. by apply Hp'.
Qed.

Lemma arc_get_law k a : arc_wf a → let '(r, a') := arc_get k a in
  r = arc_peek k a ∧ arc_wf a' ∧ arc_capacity a' = arc_capacity a ∧
  arc_len a' = arc_len a ∧ ∀ k', arc_peek k' a' = arc_peek k' a.
Proof.
  intros Hw. unfold arc_get. unfold arc_peek at 1.
  destruct (od_get k (t1 a)) as [v|] eqn:E1; [|destruct (od_get k (t2 a)) as [v|] eqn:E2; [|by split_and!]].
  - assert (arc_peek k a = Some v) as Hpk by (unfold arc_peek; by rewrite E1).
    destruct (promote_spec a k v (od_del k (t1 a)) (t2 a) Hw) as (H1 & H2 & H3 & H4).
    { by rewrite Hpk. } { by rewrite (proj2 (od_mem_true k (t1 a)) (od_get_Some_mem _ _ _ E1)). }
    split_and!; try done. intros k'. destruct (decide (k' = k)) as [->|]; [by rewrite H3, Hpk|auto].
  - assert (arc_peek k a = Some v) as Hpk by (unfold arc_peek; by rewrite E1, E2).
    destruct (promote_spec a k v (t1 a) (od_del k (t2 a)) Hw) as (H1 & H2 & H3 & H4).
    { by rewrite Hpk. } { apply od_get_None, od_mem_false in E1. by rewrite E1. }
    split_and!; try done. intros k'. destruct (decide (k' = k)) as [->|]; [by rewrite H3, Hpk|auto].
Qed.

Lemma arc_evict_law a : arc_wf a → let '(r, a') := arc_evict a in
  arc_wf a' ∧ arc_capacity a' = arc_capacity a ∧
  match r with
  | None => a' = a ∧ arc_len a = 0
  | Some (k, v) => arc_peek k a = Some v ∧ arc_peek k a' = None ∧ arc_len a' = arc_len a - 1 ∧
                   ∀ k', k' ≠ k → arc_peek k' a' = arc_peek k' a
  end.
Proof.
  intros Hw. pose proof Hw as [Hc Hl Hg]. pose proof Hc as [H1 H2 H3 H4].
  pose proof (proj1 (arc_nodup a) H1) as (N1 & N2 & N3 & N4 & N5 & N6 & N7). unfold arc_evict.
  destruct (t1 a) as [|[k v] t] eqn:Ht1; cbn [od_popfirst];
    [destruct (t2 a) as [|[k v] t] eqn:Ht2; cbn [od_popfirst]|].
  - split_and!; try done. unfold arc_len. by rewrite Ht1, Ht2.
  - pose proof (demote_t2_spec a Hc ltac:(congruence)) as [R1 R2 R3 _ _ _ _].
    assert (0 < arc_len a) by (unfold arc_len, zlen; rewrite Ht1, Ht2; simpl; lia).
    destruct (trim_ghosts_spec (demote_t2 a) R1 ltac:(lia)) as (T1 & T2 & T3 & T4).
    assert (t1 (demote_t2 a) = [] ∧ t2 (demote_t2 a) = t) as [E1 E2]
      by (unfold demote_t2, demote; rewrite Ht2; simpl; done).
    unfold od_ok, keys in N2. simpl in N2. apply NoDup_cons in N2 as [Nk N2].
    unfold arc_peek, arc_len. rewrite T3, T4, E1, E2, Ht1, Ht2, zlen_cons. simpl.
    split_and!; [done|congruence|by rewrite decide_True|by apply od_get_None|unfold zlen; simpl; lia|].
    intros k' Hne. by rewrite decide_False.
  - pose proof (demote_t1_spec a Hc ltac:(congruence)) as [R1 R2 R3 _ _ _ _].
    pose proof (zlen_nonneg t). pose proof (zlen_nonneg (t2 a)).
    assert (0 < arc_len a) by (unfold arc_len; rewrite Ht1, zlen_cons; lia).
    destruct (trim_ghosts_spec (demote_t1 a) R1 ltac:(lia)) as (T1 & T2 & T3 & T4).
    assert (t1 (demote_t1 a) = t ∧ t2 (demote_t1 a) = t2 a) as [E1 E2]
      by (unfold demote_t1, demote; rewrite Ht1; simpl; done).
    unfold od_ok, keys in N1. simpl in N1. apply NoDup_cons in N1 as [Nk N1].
    unfold arc_peek, arc_len. rewrite T3, T4, E1, E2, Ht1, zlen_cons. simpl.
    split_and!; [done|congruence|by rewrite decide_True| |lia|].
    + rewrite (proj2 (od_get_None k t) Nk). apply od_get_None, N5. unfold keys. simpl. set_solver.
    + intros k' Hne. by rewrite decide_False.
Qed.

(** What [put] establishes. *)
Definition put_done k v a a' : Prop :=
  arc_wf a' ∧ arc_capacity a' = arc_capacity a ∧ arc_peek k a' = Some v ∧
  ∀ k', k' ≠ k → arc_peek k' a' = None ∨ arc_peek k' a' = arc_peek k' a.

(** The end of the ghost hits: the incoming key leaves the ghosts for [t2]. *)
Lemma ghost_hit_end k v a a1 g1 g2 :
  arc_wf a → replaced a a1 → arc_capacity a1 = arc_capacity a → arc_len a ≤ arc_capacity a →
  g1 `sublist_of` b1 a1 → g2 `sublist_of` b2 a1 → (k ∉ keys (t1 a1)) → (k ∉ keys (t2 a1)) →
  (k ∉ keys g1) → (k ∉ keys g2) → (∀ k', arc_peek k' a1 = None ∨ arc_peek k' a1 = arc_peek k' a) →
  put_done k v a
    (trim_ghosts (mkARC (arc_capacity a1) (arc_p a1) (t1 a1) (od_set k v (t2 a1)) g1 g2)).
Proof.
  intros Hw [R1 R2 R3 _ _ _ _] Hcap Hl S1 S2 N1 N2 N3 N4 Hpk.
  set (r := mkARC (arc_capacity a1) (arc_p a1) (t1 a1) (t2 a1) g1 g2).
  assert (arc_core r) as Hcr by (apply arc_core_sub; [done|apply (ac_p a1 R1)|done..]).
  destruct (enter_t2 r k v Hcr) as (Hc' & Hl' & Hk' & Hp'); [unfold all_keys, r; simpl; set_solver|].
  simpl in *. pose proof (ac_cap a1 R1).
  destruct (trim_ghosts_spec _ Hc') as (T1 & T2 & T3 & T4).
  { rewrite Hl'. change (arc_len r) with (arc_len a1). rewrite R3. simpl. lia. }
  split_and!; [done|by rewrite T2| |].
  - unfold arc_peek in *. rewrite T3, T4. exact Hk'.
  - intros k' Hne. destruct (Hpk k') as [E|E]; [left|right].
    + unfold arc_peek in *. rewrite T3, T4. rewrite <- E. by apply (Hp' k').
    + unfold arc_peek in *. rewrite T3, T4, <- E. by apply (Hp' k').
Qed.

Lemma set_p_core p a : arc_core a → 0 ≤ p ≤ arc_capacity a → arc_core (set_p p a).
Proof. intros [H1 H2 H3 H4] Hp. by constructor. Qed.

Lemma put_b1_spec k v a : arc_wf a → k ∈ keys (b1 a) → put_done k v a (put_b1 k v a).
Proof.
  intros Hw Hk. pose proof Hw as [Hc Hl Hg]. unfold put_b1.
  set (a0 := set_p _ a). set (a1 := arc_replace k a0).
  assert (arc_core a0) as Hc0.
  { apply set_p_core; [done|]. pose proof (ac_p a Hc). pose proof (ac_cap a Hc). lia. }
  pose proof (arc_replace_spec k a0 Hc0) as Hr. fold a1 in Hr. pose proof Hr as [R1 R2 R3 R4 R5 R6 R7].
  pose proof (proj1 (arc_nodup a1) (ac_nodup a1 R1)) as (N1 & N2 & N3 & N4 & N5 & N6 & N7).
  assert (k ∈ keys (b1 a1)) as Hk1 by (by apply R5).
  apply (ghost_hit_end k v a a1); try done; try (apply od_del_sublist).
  - intros Hin. by destruct (N5 k Hin) as (_ & ? & _).
  - intros Hin. by destruct (N6 k Hin) as (? & _).
  - by apply od_keys_del_not_in.
  - by apply N7.
Qed.

Lemma put_b2_spec k v a : arc_wf a → k ∈ keys (b2 a) → put_done k v a (put_b2 k v a).
Proof.
  intros Hw Hk. pose proof Hw as [Hc Hl Hg]. unfold put_b2.
  set (a0 := set_p _ a). set (a1 := arc_replace k a0).
  assert (arc_core a0) as Hc0.
  { apply set_p_core; [done|]. pose proof (ac_p a Hc). pose proof (ac_cap a Hc). lia. }
  pose proof (arc_replace_spec k a0 Hc0) as Hr. fold a1 in Hr. pose proof Hr as [R1 R2 R3 R4 R5 R6 R7].
  pose proof (proj1 (arc_nodup a1) (ac_nodup a1 R1)) as (N1 & N2 & N3 & N4 & N5 & N6 & N7).
  assert (k ∈ keys (b2 a1)) as Hk1 by (by apply R6).
  apply (ghost_hit_end k v a a1); try done; try (apply od_del_sublist).
  - intros Hin. by destruct (N5 k Hin) as (_ & _ & ?).
  - intros Hin. by destruct (N6 k Hin) as (_ & ?).
  - intros Hin. by apply (N7 k Hin).
  - by apply od_keys_del_not_in.
Qed.

(** Room for a new key: nothing of it anywhere, space in [t1] and overall. *)
Definition roomy k a a' : Prop :=
  arc_core a' ∧ arc_capacity a' = arc_capacity a ∧ (k ∉ all_keys a') ∧
  zlen (t1 a') + zlen (b1 a') < arc_capacity a ∧ arc_len a' < arc_capacity a ∧
  ∀ k', arc_peek k' a' = None ∨ arc_peek k' a' = arc_peek k' a.

(** [_replace] keeps the sizes [t1 + b1] and [t2 + b2]. *)
Lemma arc_replace_sizes key a :
  arc_core a →
  zlen (t1 (arc_replace key a)) + zlen (b1 (arc_replace key a)) = zlen (t1 a) + zlen (b1 a).
Proof.
  intros Hc. pose proof (proj1 (arc_nodup a) (ac_nodup a Hc)) as (N1 & N2 & N3 & N4 & N5 & N6 & N7).
  assert (zlen (t1 (demote_t1 a)) + zlen (b1 (demote_t1 a)) = zlen (t1 a) + zlen (b1 a)) as H1.
  { unfold demote_t1, demote. destruct (t1 a) as [|[k v] t] eqn:Ht; simpl; [by rewrite ?Ht|].
    rewrite od_zlen_set, decide_False, zlen_cons; [lia|]. apply N5. unfold keys. simpl. set_solver. }
  assert (zlen (t1 (demote_t2 a)) + zlen (b1 (demote_t2 a)) = zlen (t1 a) + zlen (b1 a)) as H2.
  { unfold demote_t2. by destruct (demote (t2 a) (b2 a)). }
  unfold arc_replace. by repeat case_match.
Qed.

Lemma roomy_replace k a x1 g1 g2 :
  arc_wf a → (k ∉ all_keys a) → x1 = t1 a → g1 `sublist_of` b1 a → g2 `sublist_of` b2 a →
  zlen (t1 a) + zlen g1 < arc_capacity a →
  roomy k a (arc_replace k (mkARC (arc_capacity a) (arc_p a) x1 (t2 a) g1 g2)).
Proof.
  intros [Hc Hl Hg] Hk -> S1 S2 Hs. set (a0 := mkARC _ _ _ _ _ _).
  assert (arc_core a0) as Hc0 by (apply arc_core_sub; try done; apply (ac_p a Hc)).
  destruct (arc_replace_spec k a0 Hc0) as [R1 R2 R3 R4 R5 R6 R7].
  pose proof (arc_replace_sizes k a0 Hc0) as Hz. simpl in Hz. pose proof (ac_cap a Hc).
  assert (arc_len a0 = arc_len a) as Hla by done.
  split_and!; [done|done| |unfold a0 in *; simpl in *; lia|lia|done].
  rewrite R4. unfold all_keys, a0, keys in *. simpl.
  intros [?|[?|[Hin|Hin]%elem_of_app]%elem_of_app]%elem_of_app; [set_solver|set_solver| |].
  - apply Hk. rewrite !elem_of_app. right; right; left. by apply (elem_of_sublist _ _ _ Hin), fmap_sublist.
  - apply Hk. rewrite !elem_of_app. right; right; right. by apply (elem_of_sublist _ _ _ Hin), fmap_sublist.
Qed.

Lemma make_room_new_spec k a : arc_wf a → (k ∉ all_keys a) → roomy k a (make_room_new k a).
Proof.
  intros Hw Hk. pose proof Hw as [Hc Hl Hg]. pose proof (ac_l1 a Hc) as H4. pose proof (ac_cap a Hc) as Hcap.
  pose proof (zlen_nonneg (t1 a)). pose proof (zlen_nonneg (t2 a)). pose proof (zlen_nonneg (b1 a)).
  pose proof (zlen_nonneg (b2 a)).
  assert (∀ A (l : list A), 0 < zlen l → zlen (drop 1 l) = zlen l - 1) as Hdrop.
  { intros A [|x l] Hx; [unfold zlen in Hx; simpl in Hx; lia|]. simpl. rewrite drop_0, zlen_cons. lia. }
  unfold make_room_new.
  destruct (Z.eqb_spec (zlen (t1 a) + zlen (b1 a)) (arc_capacity a)) as [He|He].
  - destruct (Z.ltb_spec (zlen (t1 a)) (arc_capacity a)).
    + apply roomy_replace; try done; [apply sublist_drop|]. rewrite Hdrop; lia.
    + assert (zlen (drop 1 (t1 a)) = zlen (t1 a) - 1) as Hd by (apply Hdrop; lia).
      set (a0 := mkARC _ _ _ _ _ _).
      assert (arc_core a0) as Hc0 by (apply arc_core_sub; try done; [apply (ac_p a Hc)|apply sublist_drop]).
      split_and!; try done; [|unfold a0; simpl; lia|unfold a0, arc_len in *; simpl; lia|].
      * unfold all_keys, a0, keys in *. simpl. rewrite !elem_of_app. intros [Hin|?]; [|set_solver].
        apply Hk. rewrite !elem_of_app. left. apply (elem_of_sublist _ _ _ Hin), fmap_sublist, sublist_drop.
      * intros k'. unfold arc_peek, a0. simpl. destruct (t1 a) as [|[k0 v0] t] eqn:Ht; simpl; [by right|].
        rewrite drop_0. case_decide; [subst k0|by right]. left.
        pose proof (proj1 (arc_nodup a) (ac_nodup a Hc)) as (N1 & N2 & N3 & N4 & N5 & N6 & N7). rewrite Ht in *.
        unfold od_ok, keys in N1. simpl in N1. apply NoDup_cons in N1 as [Nk N1].
        rewrite (proj2 (od_get_None k' t) Nk). apply od_get_None, N5. unfold keys. simpl. set_solver.
  - destruct (Z.ltb_spec (zlen (t1 a) + zlen (b1 a)) (arc_capacity a)) as [Hlt|]; [|lia]. cbn [andb].
    destruct (Z.leb_spec (arc_capacity a) (arc_len a + zlen (b1 a) + zlen (b2 a))) as [Ht|Ht].
    + apply roomy_replace; try done. case_match; [apply sublist_drop|done].
    + split_and!; try done; [unfold arc_len in *; lia|]. by right.
Qed.

Lemma arc_put_law k v a : arc_wf a → put_done k v a (arc_put k v a).
Proof.
  intros Hw. unfold arc_put.
  destruct (od_mem k (t1 a)) eqn:E1.
  { destruct (promote_spec a k v (od_del k (t1 a)) (t2 a) Hw) as (H1 & H2 & H3 & H4); [|by rewrite E1|].
    - unfold arc_peek. apply od_mem_get in E1 as [x ->]. eauto.
    - split_and!; try done. auto. }
  destruct (od_mem k (t2 a)) eqn:E2.
  { destruct (promote_spec a k v (t1 a) (od_del k (t2 a)) Hw) as (H1 & H2 & H3 & H4); [|by rewrite E1|].
    - unfold arc_peek. apply od_mem_get_false in E1 as ->. by apply od_mem_get.
    - split_and!; try done. auto. }
  destruct (od_mem k (b1 a)) eqn:E3; [apply put_b1_spec; [done|by apply od_mem_true]|].
  destruct (od_mem k (b2 a)) eqn:E4; [apply put_b2_spec; [done|by apply od_mem_true]|].
  apply od_mem_false in E1, E2, E3, E4. unfold put_new.
  destruct (make_room_new_spec k a Hw) as (M1 & M2 & M3 & M4 & M5 & M6); [unfold all_keys; set_solver|].
  set (a1 := make_room_new k a) in *. rewrite <- M2 in M4.
  destruct (enter_t1 a1 k v M1 M3 M4) as (Hc' & Hl' & Hk' & Hp').
  destruct (trim_ghosts_spec _ Hc') as (T1 & T2 & T3 & T4); [simpl in *; lia|]. simpl in *.
  split_and!; [done|by rewrite T2| |].
  - unfold arc_peek in *. rewrite T3, T4. exact Hk'.
  - intros k' Hne. destruct (M6 k') as [E|E]; [left|right].
    + unfold arc_peek in *. rewrite T3, T4. rewrite <- E. by apply (Hp' k').
    + unfold arc_peek in *. rewrite T3, T4, <- E. by apply (Hp' k').
Qed.

#[global] Instance arc_laws : CachePolicyLaws (ARCPolicy K V) K V.
Proof.
  refine {| cp_wf := arc_wf; cp_peek := arc_peek |}; simpl.
  - intros a [Hc Hl Hg]. unfold arc_len in *. pose proof (zlen_nonneg (t1 a)).
    pose proof (zlen_nonneg (t2 a)). pose proof (ac_cap a Hc). lia.
  - intros a _ Hl k. unfold arc_len, arc_peek, zlen in *.
    destruct (t1 a), (t2 a); simpl in *; try done; lia.
  - apply arc_get_law.
  - apply arc_put_law.
  - apply arc_evict_law.
Defined.
End arc_laws.

(** ** What clients get from the replacement policies *)
Import OrderedDict.

(** ** Histories of an arbitrary policy *)
Inductive policy_op (K V : Type) := OpGet (k : K) | OpPut (k : K) (v : V) | OpEvict.
Arguments OpGet {K V}. Arguments OpPut {K V}. Arguments OpEvict {K V}.

Section client.
Context {P K V : Type} `{EqDecision K, CachePolicy P K V, !CachePolicyLaws P K V}.

Definition run_op (op : policy_op K V) (p : P) : P :=
  match op with
  | OpGet k => (cp_get k p).2
  | OpPut k v => cp_put k v p
  | OpEvict => (cp_evict p).2
  end.

Definition run_ops (ops : list (policy_op K V)) (p : P) : P := foldl (λ p op, run_op op p) p ops.

(** The value of the last [put] of [k]. *)
Fixpoint latest (k : K) (ops : list (policy_op K V)) (acc : option V) : option V :=
  match ops with
  | [] => acc
  | OpPut k' v :: ops' => latest k ops' (if decide (k = k') then Some v else acc)
  | _ :: ops' => latest k ops' acc
  end.

Lemma run_op_wf op p : cp_wf p → cp_wf (run_op op p) ∧ cp_capacity (run_op op p) = cp_capacity p.
Proof.
  intros Hp. destruct op as [k|k v|]; simpl.
  - pose proof (law_get k p Hp) as Hl. destruct (cp_get k p). by destruct Hl as (_ & ? & ? & _).
  - by destruct (law_put k v p Hp) as (? & ? & _).
  - pose proof (law_evict p Hp) as Hl. destruct (cp_evict p). by destruct Hl as (? & ? & _).
Qed.

Lemma run_ops_wf ops p : cp_wf p → cp_wf (run_ops ops p) ∧ cp_capacity (run_ops ops p) = cp_capacity p.
Proof.
  revert p. induction ops as [|op ops IH]; intros p Hp; [done|]. simpl.
  destruct (run_op_wf op p Hp) as [H1 H2]. destruct (IH _ H1) as [H3 H4]. split; [done|congruence].
Qed.

Lemma run_op_peek op p k acc :
  cp_wf p → (cp_peek k p = None ∨ cp_peek k p = acc) →
  cp_peek k (run_op op p) = None ∨ cp_peek k (run_op op p) = latest k [op] acc.
Proof.
  intros Hp Hk. destruct op as [k'|k' v|]; simpl.
  - pose proof (law_get k' p Hp) as Hl. destruct (cp_get k' p). destruct Hl as (_ & _ & _ & _ & Hpk).
    simpl. by rewrite Hpk.
  - destruct (law_put k' v p Hp) as (_ & _ & Heq & Hne). case_decide as Hd; [subst; by right|].
    destruct (Hne k Hd) as [->| ->]; auto.
  - pose proof (law_evict p Hp) as Hl. destruct (cp_evict p) as [[[k' v]|] p']; simpl.
    + destruct Hl as (_ & _ & _ & Hn & _ & Hne). destruct (decide (k = k')) as [->|Hd]; [by left|].
      by rewrite Hne.
    + by destruct Hl as (_ & _ & -> & _).
Qed.

(** Every lookup misses or returns the value stored last, and the policy never
    holds more entries than its capacity. *)
Lemma lookups_current ops p k acc :
  cp_wf p → (cp_peek k p = None ∨ cp_peek k p = acc) →
  let p' := run_ops ops p in
  ((cp_get k p').1 = None ∨ (cp_get k p').1 = latest k ops acc) ∧ cp_len p' ≤ cp_capacity p.
Proof.
  intros Hp Hk p'. destruct (run_ops_wf ops p Hp) as [Hw Hcap]. fold p' in Hw, Hcap.
  split; [|rewrite <- Hcap; apply (law_bound p' Hw)].
  pose proof (law_get k p' Hw) as Hl. destruct (cp_get k p') as [r q]. destruct Hl as (-> & _).
  simpl. unfold p'. clear p' Hw Hcap. revert p acc Hp Hk.
  induction ops as [|op ops IH]; intros p acc Hp Hk; [done|]. simpl.
  destruct (run_op_wf op p Hp) as [H1 _]. pose proof (run_op_peek op p k acc Hp Hk) as H2.
  specialize (IH (run_op op p) _ H1 H2). by destruct op.
Qed.
End client.

Section instances.
Context {K V : Type} `{EqDecision K}.

Lemma lru_init_wf c (p : LRUPolicy K V) : lru_init c = Ok p → lru_wf p ∧ lru_data p = [] ∧ lru_capacity p = c.
Proof.
  unfold lru_init. destruct (Z.leb_spec c 0); [done|]. intros [= <-]. split_and!; try done.
  constructor; simpl; [constructor|done|unfold zlen; simpl; lia].
Qed.

Lemma arc_init_wf c (p : ARCPolicy K V) : arc_init c = Ok p → arc_wf p ∧ (∀ k, arc_peek k p = None) ∧ arc_capacity p = c.
Proof.
  unfold arc_init. destruct (Z.leb_spec c 0); [done|]. intros [= <-]. split_and!; try done.
  constructor; [|unfold arc_len, zlen; simpl; lia|unfold zlen; simpl; lia].
  constructor; simpl; [constructor|done|lia|unfold zlen; simpl; lia].
Qed.

(** C12: For both replacement policies and any history of [get], [put] and
    [evict]: a lookup misses or returns the value of the latest [put] of that
    key, and the policy never holds more than [capacity] entries. *)
Theorem policies_return_latest c (lru : LRUPolicy K V) (arc : ARCPolicy K V) ops k :
  lru_init c = Ok lru → arc_init c = Ok arc →
  (((cp_get k (run_ops ops lru)).1 = None ∨ (cp_get k (run_ops ops lru)).1 = latest k ops None) ∧
     cp_len (run_ops ops lru) ≤ c) ∧
  (((cp_get k (run_ops ops arc)).1 = None ∨ (cp_get k (run_ops ops arc)).1 = latest k ops None) ∧
     cp_len (run_ops ops arc) ≤ c).
Proof.
  intros (Hl & Hd & Hcl)%lru_init_wf (Ha & Hp & Hca)%arc_init_wf. split.
  - rewrite <- Hcl. apply (lookups_current (CachePolicyLaws0 := lru_laws) ops lru k None Hl). left. simpl. unfold lru_peek. by rewrite Hd.
  - rewrite <- Hca. apply (lookups_current (CachePolicyLaws0 := arc_laws) ops arc k None Ha). left. apply Hp.
Qed.

(** The adaptive policy keeps its four lists disjoint and within their
    bounds over any history: at most [capacity] cached entries, at most
    [capacity] ghosts, at most [capacity] in [t1] plus [b1], and the target [p]
    between 0 and [capacity]. *)
Theorem arc_invariant c (arc : ARCPolicy K V) ops :
  arc_init c = Ok arc →
  let a := run_ops ops arc in
  NoDup (keys (t1 a) ++ keys (t2 a) ++ keys (b1 a) ++ keys (b2 a)) ∧
  zlen (t1 a) + zlen (t2 a) ≤ c ∧ zlen (b1 a) + zlen (b2 a) ≤ c ∧
  zlen (t1 a) + zlen (b1 a) ≤ c ∧ 0 ≤ arc_p a ≤ c.
Proof.
  intros (Ha & _ & Hc)%arc_init_wf a. destruct (run_ops_wf (CachePolicyLaws0 := arc_laws) ops arc Ha) as [[[H1 H2 H3 H4] H5 H6] Hcap].
  fold a in H1, H2, H3, H4, H5, H6, Hcap. simpl in Hcap. rewrite Hcap, Hc in *. done.
Qed.

(** ** LRU keeps the most recently used keys *)

(** Keys by last use, most recent first; a [get] counts when it hits. *)
Definition touch (k : K) (l : list K) : list K := k :: filter (λ x, x ≠ k) l.

Fixpoint recency (c : nat) (ops : list (policy_op K V)) (l : list K) : list K :=
  match ops with
  | [] => l
  | OpPut k _ :: ops' => recency c ops' (touch k l)
  | OpGet k :: ops' => recency c ops' (if decide (k ∈ take c l) then touch k l else l)
  | OpEvict :: ops' => recency c ops' l
  end.

Definition recent_keys (p : LRUPolicy K V) : list K := reverse (keys (lru_data p)).

Lemma filter_ne_id (k : K) (l : list K) : k ∉ l → filter (λ x, x ≠ k) l = l.
Proof.
  induction l as [|x l IH]; intros Hk; [done|]. rewrite filter_cons, decide_True by set_solver.
  f_equal. apply IH. set_solver.
Qed.

Lemma take_filter_in (k : K) c (l : list K) :
  NoDup l → k ∈ take (S c) l → take c (filter (λ x, x ≠ k) l) = filter (λ x, x ≠ k) (take (S c) l).
Proof.
  revert c. induction l as [|x l IH]; intros c Hnd Hk; [set_solver|].
  apply NoDup_cons in Hnd as [Hx Hnd]. cbn [take] in *. rewrite !filter_cons.
  destruct (decide (x ≠ k)) as [Hne|Heq].
  - destruct c as [|c]; [simpl in Hk; set_solver|]. cbn [take]. f_equal. apply IH; [done|set_solver].
  - apply dec_stable in Heq. subst x. rewrite filter_ne_id by done.
    rewrite filter_ne_id; [done|]. intros Hin. apply Hx.
    apply elem_of_take in Hin as (i & Hi & _). by eapply list_elem_of_lookup_2.
Qed.

Lemma take_filter_out (k : K) c (l : list K) : k ∉ take c l → take c (filter (λ x, x ≠ k) l) = take c l.
Proof.
  revert c. induction l as [|x l IH]; intros c Hk; [by rewrite filter_nil|].
  destruct c as [|c]; [done|]. cbn [take] in *. rewrite filter_cons, decide_True by set_solver.
  cbn [take]. f_equal. apply IH. set_solver.
Qed.

Lemma touch_nodup (k : K) (l : list K) : NoDup l → NoDup (touch k l).
Proof.
  intros Hl. apply NoDup_cons. split; [|by apply NoDup_filter].
  intros Hin. apply list_elem_of_filter in Hin as [Hin _]. done.
Qed.

(** Touching a key and cutting at the capacity, in terms of the cut list. *)
Lemma take_touch (k : K) c (l : list K) :
  NoDup l → (0 < c)%nat →
  take c (touch k l) = if decide (k ∈ take c l) then touch k (take c l)
                       else k :: take (c - 1) (take c l).
Proof.
  intros Hnd Hc. destruct c as [|c]; [lia|]. unfold touch. cbn [take].
  case_decide as Hd; [by rewrite take_filter_in|]. f_equal.
  replace (S c - 1)%nat with c by lia. rewrite take_take, Nat.min_l by lia.
  apply take_filter_out. intros Hin. apply Hd.
  apply elem_of_take in Hin as (i & Hi & Hlt). apply elem_of_take. exists i. split; [done|lia].
Qed.

Lemma keys_del (k : K) (d : list (K * V)) : od_ok d → keys (od_del k d) = filter (λ x, x ≠ k) (keys d).
Proof.
  unfold od_ok, keys. induction d as [|[k' v'] d IH]; intros Hd; [done|]. simpl in *.
  apply NoDup_cons in Hd as [Hk' Hd]. rewrite filter_cons. case_decide as E.
  - subst k'. rewrite decide_False by (by intros ?). by rewrite filter_ne_id.
  - rewrite decide_True by congruence. simpl. f_equal. by apply IH.
Qed.

Lemma filter_reverse_ne (k : K) (l : list K) : filter (λ x, x ≠ k) (reverse l) = reverse (filter (λ x, x ≠ k) l).
Proof.
  induction l as [|x l IH]; [done|]. rewrite reverse_cons, filter_app, IH, !filter_cons.
  case_decide; simpl; [by rewrite reverse_cons|by rewrite filter_nil, app_nil_r].
Qed.

Lemma recent_move (k : K) (d : list (K * V)) :
  od_ok d → k ∈ keys d → reverse (keys (od_move_to_end k d)) = touch k (reverse (keys d)).
Proof.
  intros Hd Hk. unfold od_move_to_end. destruct (od_get k d) as [v|] eqn:E.
  2: { by apply od_get_None in E. }
  unfold touch, keys at 1. rewrite fmap_app, reverse_app. simpl. f_equal.
  rewrite filter_reverse_ne. f_equal. by apply keys_del.
Qed.

Lemma recent_get k (p : LRUPolicy K V) :
  lru_wf p → recent_keys (lru_get k p).2 =
    if decide (k ∈ recent_keys p) then touch k (recent_keys p) else recent_keys p.
Proof.
  intros [H1 H2 H3]. unfold lru_get, recent_keys. rewrite (decide_ext (k ∈ reverse _) (k ∈ keys (lru_data p))) by apply elem_of_reverse.
  destruct (od_mem k (lru_data p)) eqn:E; simpl.
  - apply od_mem_true in E. rewrite decide_True by done. by apply recent_move.
  - apply od_mem_false in E. by rewrite decide_False.
Qed.

Lemma recent_put k v (p : LRUPolicy K V) :
  lru_wf p → recent_keys (lru_put k v p) =
    if decide (k ∈ recent_keys p) then touch k (recent_keys p)
    else k :: take (Z.to_nat (lru_capacity p) - 1) (recent_keys p).
Proof.
  intros [H1 H2 H3]. unfold lru_put, recent_keys. rewrite (decide_ext (k ∈ reverse _) (k ∈ keys (lru_data p))) by apply elem_of_reverse.
  destruct (od_mem k (lru_data p)) eqn:E; simpl.
  - apply od_mem_true in E. rewrite decide_True by done.
    rewrite recent_move; [|by apply od_set_ok|rewrite od_keys_set; by rewrite decide_True].
    by rewrite od_keys_set, decide_True.
  - apply od_mem_false in E. rewrite decide_False by done.
    destruct (Z.leb_spec (lru_capacity p) (zlen (lru_data p))) as [Hfull|Hroom].
    + destruct (lru_data p) as [|[k0 v0] d] eqn:Hd; simpl.
      { unfold zlen in Hfull. simpl in Hfull. lia. }
      rewrite od_keys_set, decide_False by (unfold keys in *; simpl in E; set_solver).
      rewrite reverse_app. simpl. f_equal. unfold keys. rewrite reverse_cons.
      rewrite take_app_le by (rewrite length_reverse, length_fmap; rewrite zlen_cons in *; unfold zlen in *; lia).
      rewrite take_ge; [done|]. rewrite length_reverse, length_fmap. rewrite zlen_cons in *. unfold zlen in *. lia.
    + rewrite od_keys_set, decide_False, reverse_app by done. simpl. f_equal. rewrite take_ge; [done|].
      rewrite length_reverse. unfold keys, zlen in *. rewrite length_fmap. lia.
Qed.

(** [LRUPolicy] is least-recently-used: after any history of [put]s and
    [get]s its keys, newest first, are the [capacity] most recently used keys
    of the history. *)
Theorem lru_keeps_most_recent c (lru : LRUPolicy K V) ops :
  lru_init c = Ok lru → OpEvict ∉ ops →
  recent_keys (run_ops ops lru) = take (Z.to_nat c) (recency (Z.to_nat c) ops []).
Proof.
  intros (Hw & Hd & Hc)%lru_init_wf Hev.
  assert (recent_keys lru = take (Z.to_nat c) []) as H0 by (unfold recent_keys; by rewrite Hd, take_nil).
  revert H0. assert (NoDup ([] : list K)) as Hnd by constructor. revert Hnd.
  assert (0 < Z.to_nat c)%nat as Hpos by (pose proof (lw_cap lru Hw); lia).
  generalize ([] : list K). clear Hd. revert lru Hw Hc.
  induction ops as [|op ops IH]; intros p Hw Hc l Hnd H0; [done|]. cbn [run_ops foldl recency].
  destruct (run_op_wf (CachePolicyLaws0 := lru_laws) op p Hw) as [Hw' Hc'].
  assert (lru_capacity (run_op op p) = c) as Hc'' by (simpl in *; congruence).
  destruct op as [k|k v|]; [| |set_solver]; apply IH; try done; try set_solver; try (by apply touch_nodup).
  - case_decide; [by apply touch_nodup|done].
  - simpl. rewrite recent_get by done. rewrite H0. case_decide as Hin; [|done].
    rewrite take_touch by done. by rewrite decide_True.
  - simpl. rewrite recent_put by done. rewrite H0, take_touch, Hc by done. done.
Qed.
End instances.

(** ** Witnesses *)
Definition demo_ops : list (policy_op Z Z) :=
  [OpPut 1 10; OpPut 2 20; OpGet 1; OpPut 3 30; OpPut 1 11; OpGet 2].

Lemma policies_return_latest_witness :
  let lru := mkLRU 2 [] in let arc := mkARC 2 0 [] [] [] [] in
  (((cp_get 1 (run_ops demo_ops lru)).1 = None ∨ (cp_get 1 (run_ops demo_ops lru)).1 = latest 1 demo_ops None) ∧
     cp_len (run_ops demo_ops lru) ≤ 2) ∧
  (((cp_get 1 (run_ops demo_ops arc)).1 = None ∨ (cp_get 1 (run_ops demo_ops arc)).1 = latest 1 demo_ops None) ∧
     cp_len (run_ops demo_ops arc) ≤ 2).
Proof.
  intros lru arc. apply (policies_return_latest 2 lru arc demo_ops 1); reflexivity.
Defined.

Lemma arc_invariant_witness :
  let a := run_ops demo_ops (mkARC 2 0 [] [] [] [] : ARCPolicy Z Z) in
  NoDup (keys (t1 a) ++ keys (t2 a) ++ keys (b1 a) ++ keys (b2 a)) ∧
  zlen (t1 a) + zlen (t2 a) ≤ 2 ∧ zlen (b1 a) + zlen (b2 a) ≤ 2 ∧
  zlen (t1 a) + zlen (b1 a) ≤ 2 ∧ 0 ≤ arc_p a ≤ 2.
Proof. apply (arc_invariant 2 (mkARC 2 0 [] [] [] [] : ARCPolicy Z Z) demo_ops). reflexivity. Defined.

Lemma lru_keeps_most_recent_witness :
  recent_keys (run_ops demo_ops (mkLRU 2 [] : LRUPolicy Z Z)) = [1; 3].
Proof.
  transitivity (take (Z.to_nat 2) (recency (Z.to_nat 2) demo_ops [])); [|vm_compute; reflexivity].
  apply (lru_keeps_most_recent 2 (mkLRU 2 [] : LRUPolicy Z Z) demo_ops); [reflexivity|].
  unfold demo_ops. intros Hin. repeat apply elem_of_cons in Hin as [Hin|Hin]; try discriminate.
  by apply elem_of_nil in Hin.
Defined.
