(* ===== verification/BlockPool.v ===== *)
(** * The block pool of the memory manager (memory/block_pool.py)

    Blocks are Python objects linked into a free queue through their [prev] and
    [next] attributes; the objects live in a store keyed by [block_id] and
    references are ids.  An abstract pool keeps the free blocks as a list; the
    linked implementation refines it. *)
From S2P Require Import Prelude.

Record KVCacheBlock := mkBlock {
  ref_cnt : Z;
  block_hash : option Z;
  prev : option Z;
  next : option Z
}.

Definition set_prev (p : option Z) (b : KVCacheBlock) := mkBlock (ref_cnt b) (block_hash b) p (next b).
Definition set_next (n : option Z) (b : KVCacheBlock) := mkBlock (ref_cnt b) (block_hash b) (prev b) n.
Definition set_ref (r : Z) (b : KVCacheBlock) := mkBlock r (block_hash b) (prev b) (next b).
Definition set_hash (h : option Z) (b : KVCacheBlock) := mkBlock (ref_cnt b) h (prev b) (next b).

(** [BlockPool] with its [FreeBlockQueue]. *)
Record BlockPool := mkPool {
  blocks : gmap Z KVCacheBlock;
  q_head : option Z;
  q_tail : option Z;
  q_size : Z;
  hash_map : gmap Z Z
}.

Definition set_blocks (b : gmap Z KVCacheBlock) (p : BlockPool) : BlockPool :=
  mkPool b (q_head p) (q_tail p) (q_size p) (hash_map p).
Definition set_queue (hd tl : option Z) (n : Z) (p : BlockPool) : BlockPool :=
  mkPool (blocks p) hd tl n (hash_map p).
Definition set_hash_map (m : gmap Z Z) (p : BlockPool) : BlockPool :=
  mkPool (blocks p) (q_head p) (q_tail p) (q_size p) m.

(** [block.attr = v] through a reference. *)
Definition upd (id : Z) (f : KVCacheBlock → KVCacheBlock) (p : BlockPool) : BlockPool :=
  set_blocks (alter f id (blocks p)) p.
Definition upd_opt (id : option Z) (f : KVCacheBlock → KVCacheBlock) (p : BlockPool) : BlockPool :=
  match id with Some i => upd i f p | None => p end.

(** ** FreeBlockQueue *)

(** [append] *)
Definition q_append (id : Z) (p : BlockPool) : BlockPool :=
  let p := upd id (set_prev (q_tail p)) p in
  let p := upd id (set_next None) p in
  let p := match q_tail p with
           | Some t => upd t (set_next (Some id)) p
           | None => set_queue (Some id) (q_tail p) (q_size p) p
           end in
  set_queue (q_head p) (Some id) (q_size p + 1) p.

(** [popleft] *)
Definition q_popleft (p : BlockPool) : option Z * BlockPool :=
  match q_head p with
  | None => (None, p)
  | Some id =>
      let nxt := blocks p !! id ≫= next in
      let p := set_queue nxt (q_tail p) (q_size p) p in
      let p := match nxt with
               | Some n => upd n (set_prev None) p
               | None => set_queue nxt None (q_size p) p
               end in
      let p := upd id (λ b, set_next None (set_prev None b)) p in
      (Some id, set_queue (q_head p) (q_tail p) (q_size p - 1) p)
  end.

(** [remove] *)
Definition q_remove (id : Z) (p : BlockPool) : BlockPool :=
  let prv := blocks p !! id ≫= prev in
  let nxt := blocks p !! id ≫= next in
  let p := match prv with
           | Some i => upd i (set_next nxt) p
           | None => set_queue nxt (q_tail p) (q_size p) p
           end in
  let p := match nxt with
           | Some i => upd i (set_prev prv) p
           | None => set_queue (q_head p) prv (q_size p) p
           end in
  let p := upd id (λ b, set_next None (set_prev None b)) p in
  set_queue (q_head p) (q_tail p) (q_size p - 1) p.

(** ** BlockPool *)

(** [BlockPool.__init__] *)
Definition pool_init (num_blocks : Z) : BlockPool :=
  let ids := seqZ 0 num_blocks in
  let p := mkPool (list_to_map ((λ i, (i, mkBlock 0 None None None)) <$> ids)) None None 0 ∅ in
  foldl (λ p i, q_append i p) p ids.

(** [if cached is block: del self._hash_map[h]] *)
Definition drop_mapping (h : Z) (id : Z) (m : gmap Z Z) : gmap Z Z :=
  if decide (m !! h = Some id) then delete h m else m.

(** [allocate_block] *)
Definition allocate_block (p : BlockPool) : option Z * BlockPool :=
  match q_popleft p with
  | (None, p) => (None, p)
  | (Some id, p) =>
      let p := match blocks p !! id ≫= block_hash with
               | Some h => upd id (set_hash None) (set_hash_map (drop_mapping h id (hash_map p)) p)
               | None => p
               end in
      (Some id, upd id (set_ref 1) p)
  end.

(** [free_block] *)
Definition free_block (id : Z) : M BlockPool unit :=
  p ← get;
  let r := default 0 (ref_cnt <$> blocks p !! id) in
  raise_if (r <=? 0) ValueError ≫= λ _,
  modify (upd id (set_ref (r - 1))) ≫= λ _,
  when (r - 1 =? 0) (modify (q_append id)).

(** [get_cached_block] *)
Definition get_cached_block (h : Z) (p : BlockPool) : option Z * BlockPool :=
  match hash_map p !! h with
  | None => (None, p)
  | Some id =>
      let r := default 0 (ref_cnt <$> blocks p !! id) in
      let p := if r =? 0 then q_remove id p else p in
      (Some id, upd id (set_ref (r + 1)) p)
  end.

(** [cache_full_block] *)
Definition cache_full_block (id h : Z) (p : BlockPool) : BlockPool :=
  let p := match blocks p !! id ≫= block_hash with
           | Some old => if decide (old = h) then p
                         else set_hash_map (drop_mapping old id (hash_map p)) p
           | None => p
           end in
  let p := match hash_map p !! h with
           | Some c => if decide (c = id) then p else upd c (set_hash None) p
           | None => p
           end in
  set_hash_map (<[h := id]> (hash_map p)) (upd id (set_hash (Some h)) p).

(** [num_free_blocks], [num_cached_blocks], [total_blocks] *)
Definition num_free_blocks (p : BlockPool) : Z := q_size p.
Definition num_cached_blocks (p : BlockPool) : Z := Z.of_nat (size (hash_map p)).
Definition total_blocks (p : BlockPool) : Z := Z.of_nat (size (blocks p)).

(** ** The abstract pool *)
Record APool := mkAPool {
  a_free : list Z;                      (** oldest first *)
  a_blocks : gmap Z (Z * option Z);     (** reference count and hash *)
  a_hash : gmap Z Z
}.

Definition a_allocate (a : APool) : option Z * APool :=
  match a_free a with
  | [] => (None, a)
  | id :: l =>
      let m := match a_blocks a !! id with
               | Some (_, Some h) => drop_mapping h id (a_hash a)
               | _ => a_hash a
               end in
      (Some id, mkAPool l (<[id := (1, None)]> (a_blocks a)) m)
  end.

Definition a_free_block (id : Z) : M APool unit :=
  a ← get;
  match a_blocks a !! id with
  | Some (r, h) =>
      if r <=? 0 then raise ValueError
      else modify (λ a, mkAPool (if r =? 1 then a_free a ++ [id] else a_free a)
                          (<[id := (r - 1, h)]> (a_blocks a)) (a_hash a))
  | None => raise ValueError
  end.

Definition a_get_cached (h : Z) (a : APool) : option Z * APool :=
  match a_hash a !! h with
  | None => (None, a)
  | Some id =>
      match a_blocks a !! id with
      | None => (Some id, a)
      | Some (r, bh) =>
          (Some id, mkAPool (if r =? 0 then filter (λ i, i ≠ id) (a_free a) else a_free a)
                      (<[id := (r + 1, bh)]> (a_blocks a)) (a_hash a))
      end
  end.

Definition a_cache_full (id h : Z) (a : APool) : APool :=
  let m := match a_blocks a !! id with
           | Some (_, Some old) => if decide (old = h) then a_hash a else drop_mapping old id (a_hash a)
           | _ => a_hash a
           end in
  let b := match m !! h with
           | Some c => if decide (c = id) then a_blocks a
                       else alter (λ x, (x.1, None)) c (a_blocks a)
           | None => a_blocks a
           end in
  mkAPool (a_free a) (alter (λ x, (x.1, Some h)) id b) (<[h := id]> m).
