(* ===== verification/BlockPoolProps.v ===== *)
(** * The linked block pool refines the abstract one *)
From S2P Require Import Prelude BlockPool.

(** ** Doubly linked segments *)

(** [dseg b p l n]: the blocks [l] are linked in this order, preceded by [p]
    and followed by [n]. *)
Fixpoint dseg (b : gmap Z KVCacheBlock) (p : option Z) (l : list Z) (n : option Z) : Prop :=
  match l with
  | [] => True
  | x :: l' => ∃ blk, b !! x = Some blk ∧ prev blk = p ∧
                 next blk = match l' with [] => n | y :: _ => Some y end ∧ dseg b (Some x) l' n
  end.

Definition first_or (l : list Z) (n : option Z) : option Z := match l with [] => n | x :: _ => Some x end.
Definition last_or (p : option Z) (l : list Z) : option Z := match last l with Some x => Some x | None => p end.

Lemma last_or_cons p x l : last_or p (x :: l) = last_or (Some x) l.
Proof. unfold last_or. destruct l as [|y l]; [done|]. rewrite last_cons_cons. destruct (last (y :: l)) eqn:E; [done|]. by apply last_None in E. Qed.

Lemma dseg_app b p l1 l2 n :
  dseg b p (l1 ++ l2) n ↔ dseg b p l1 (first_or l2 n) ∧ dseg b (last_or p l1) l2 n.
Proof.
  revert p. induction l1 as [|x l1 IH]; intros p; simpl; [tauto|].
  rewrite last_or_cons. setoid_rewrite IH.
  assert (match l1 ++ l2 with [] => n | y :: _ => Some y end =
          match l1 with [] => first_or l2 n | y :: _ => Some y end) as E by (by destruct l1, l2).
  setoid_rewrite E. naive_solver.
Qed.

Lemma dseg_other b p l n f id : id ∉ l → dseg b p l n → dseg (alter f id b) p l n.
Proof.
  revert p. induction l as [|x l IH]; intros p Hid; simpl; [done|].
  intros (blk & Hb & Hp & Hn & Hd). exists blk. rewrite lookup_alter_ne by set_solver.
  split_and!; try done. apply IH; [set_solver|done].
Qed.

(** A change that keeps the links. *)
Lemma dseg_same_links b p l n f id :
  (∀ x, prev (f x) = prev x ∧ next (f x) = next x) → dseg b p l n → dseg (alter f id b) p l n.
Proof.
  intros Hf. revert p. induction l as [|x l IH]; intros p; simpl; [done|].
  intros (blk & Hb & Hp & Hn & Hd). destruct (decide (x = id)) as [->|Hne].
  - exists (f blk). rewrite lookup_alter_eq, Hb. simpl. destruct (Hf blk) as [-> ->]. auto.
  - exists blk. rewrite lookup_alter_ne by done. auto.
Qed.

Lemma dseg_set_next b p l t n n' :
  t ∉ l → dseg b p (l ++ [t]) n → dseg (alter (set_next n') t b) p (l ++ [t]) n'.
Proof.
  intros Ht. rewrite !dseg_app. intros [H1 (blk & Hb & Hp & Hn & _)]. split; [by apply dseg_other|].
  simpl. exists (set_next n' blk). by rewrite lookup_alter_eq, Hb.
Qed.

Lemma dseg_set_prev b p p' x l n :
  x ∉ l → dseg b p (x :: l) n → dseg (alter (set_prev p') x b) p' (x :: l) n.
Proof.
  intros Hx (blk & Hb & Hp & Hn & Hd). exists (set_prev p' blk).
  rewrite lookup_alter_eq, Hb. split_and!; try done. by apply dseg_other.
Qed.

(** ** The queue *)
Record queue_is (p : BlockPool) (l : list Z) : Prop := {
  qi_seg : dseg (blocks p) None l None;
  qi_nodup : NoDup l;
  qi_head : q_head p = first_or l None;
  qi_tail : q_tail p = last_or None l;
  qi_size : q_size p = zlen l
}.

Definition payload (b : KVCacheBlock) : Z * option Z := (ref_cnt b, block_hash b).
Definition payloads (p : BlockPool) : gmap Z (Z * option Z) := payload <$> blocks p.

Lemma payload_alter f id (b : gmap Z KVCacheBlock) :
  (∀ x, payload (f x) = payload x) → payload <$> alter f id b = payload <$> b.
Proof.
  intros Hf. apply map_eq. intros i. rewrite !lookup_fmap. destruct (decide (i = id)) as [->|Hne].
  - rewrite lookup_alter_eq. destruct (b !! id); simpl; [by rewrite Hf|done].
  - by rewrite lookup_alter_ne.
Qed.

Lemma last_or_snoc p l x : last_or p (l ++ [x]) = Some x.
Proof. unfold last_or. by rewrite last_snoc. Qed.

Lemma q_append_spec p l id :
  queue_is p l → id ∉ l → is_Some (blocks p !! id) →
  queue_is (q_append id p) (l ++ [id]) ∧ payloads (q_append id p) = payloads p ∧
  hash_map (q_append id p) = hash_map p.
Proof.
  intros [Hs Hnd Hh Ht Hz] Hid [blk Hb]. unfold q_append, payloads. cbn [q_tail upd set_blocks].
  destruct l as [|t l _] using rev_ind.
  - unfold last_or in Ht. simpl in Ht, Hh. rewrite Ht. simpl. split_and!; try done.
    + constructor; simpl; try done; [|apply NoDup_singleton|by rewrite Hz].
      exists (set_next None (set_prev None blk)). by rewrite !lookup_alter_eq, Hb.
    + by rewrite !payload_alter.
  - rewrite last_or_snoc in Ht. rewrite Ht. simpl. apply NoDup_app in Hnd as (Hnd & Hd & _).
    assert (t ∉ l) as Htl by (intros Hin; apply (Hd t Hin); set_solver).
    split_and!; try done.
    + constructor; simpl.
      * apply dseg_app. simpl. rewrite last_or_snoc. split.
        -- eapply dseg_set_next; [done|]. apply dseg_other; [set_solver|]. apply dseg_other; [set_solver|done].
        -- exists (set_next None (set_prev (Some t) blk)).
           rewrite lookup_alter_ne by set_solver. by rewrite !lookup_alter_eq, Hb.
      * rewrite <- app_assoc. apply NoDup_app. split_and!; [done|set_solver|].
        simpl. apply NoDup_cons. split; [set_solver|apply NoDup_singleton].
      * rewrite Hh. by destruct l.
      * by rewrite last_or_snoc.
      * rewrite Hz. by rewrite !zlen_app.
    + by rewrite !payload_alter.
Qed.

Lemma q_popleft_spec p l :
  queue_is p l →
  match l with
  | [] => q_popleft p = (None, p)
  | x :: l' => (q_popleft p).1 = Some x ∧ queue_is (q_popleft p).2 l' ∧
               payloads (q_popleft p).2 = payloads p ∧ hash_map (q_popleft p).2 = hash_map p
  end.
Proof.
  intros [Hs Hnd Hh Ht Hz]. unfold q_popleft, payloads. destruct l as [|x l']; [by rewrite Hh|].
  rewrite Hh. simpl. apply NoDup_cons in Hnd as [Hx Hnd]. destruct Hs as (blk & Hb & Hp & Hn & Hd).
  rewrite Hb. simpl. rewrite Hn. destruct l' as [|y l']; simpl.
  - split_and!; try done; [|by rewrite payload_alter].
    constructor; simpl; try done. rewrite Hz, zlen_cons. lia.
  - split_and!; try done; [|by rewrite !payload_alter].
    apply NoDup_cons in Hnd as [Hy Hnd].
    constructor; simpl; try done.
    + apply (dseg_other _ None (y :: l') None); [set_solver|]. by eapply (dseg_set_prev _ (Some x) None).
    + by apply NoDup_cons.
    + rewrite Hz, !zlen_cons. lia.
Qed.

Lemma q_remove_spec p l1 x l2 :
  queue_is p (l1 ++ x :: l2) →
  queue_is (q_remove x p) (l1 ++ l2) ∧ payloads (q_remove x p) = payloads p ∧
  hash_map (q_remove x p) = hash_map p.
Proof.
  intros [Hs Hnd Hh Ht Hz].
  assert (NoDup (x :: l1 ++ l2)) as Hnd' by (by rewrite Permutation_middle).
  apply NoDup_cons in Hnd' as [Hx Hnd']. rewrite elem_of_app in Hx.
  apply dseg_app in Hs as [H1 (blk & Hb & Hp & Hn & H2)]. simpl in H1.
  unfold q_remove, payloads. rewrite Hb. simpl. rewrite Hp, Hn.
  assert (zlen (l1 ++ x :: l2) - 1 = zlen (l1 ++ l2)) as Hlen by (rewrite !zlen_app, zlen_cons; lia).
  destruct l1 as [|t l1 _] using rev_ind; [|rewrite last_or_snoc];
    (destruct l2 as [|y l2]; simpl).
  - split_and!; try done; [|by rewrite !payload_alter].
    constructor; simpl; try done. rewrite Hz. exact Hlen.
  - apply NoDup_cons in Hnd' as [Hy Hnd'']. split_and!; try done; [|by rewrite !payload_alter].
    constructor; simpl; try done.
    + apply (dseg_other _ None (y :: l2) None); [set_solver|]. by eapply (dseg_set_prev _ (Some x) None).
    + by apply NoDup_cons.
    + rewrite Hz. exact Hlen.
  - rewrite app_nil_r in *. apply NoDup_app in Hnd' as (Hndl & Hdl & _).
    assert (t ∉ l1) as Htl by (intros Hin; apply (Hdl t Hin); set_solver).
    split_and!; try done; [|by rewrite !payload_alter].
    constructor; simpl; try done.
    + apply dseg_other; [set_solver|]. by eapply dseg_set_next.
    + apply NoDup_app. split_and!; [done|set_solver|apply NoDup_singleton].
    + rewrite Hh. by destruct l1.
    + by rewrite last_or_snoc.
    + rewrite Hz. exact Hlen.
  - pose proof Hnd' as Hndall. apply NoDup_app in Hnd' as (Hndl & Hdl & Hnd2).
    apply NoDup_cons in Hnd2 as [Hy Hnd2]. apply NoDup_app in Hndl as (Hndl & Hdt & _).
    assert (t ∉ l1) as Htl by (intros Hin; apply (Hdt t Hin); set_solver).
    split_and!; try done; [|by rewrite !payload_alter].
    constructor; simpl; try done.
    + apply dseg_app. rewrite last_or_snoc. simpl first_or. split.
      * apply dseg_other; [set_solver|]. apply dseg_other; [set_solver|].
        by eapply dseg_set_next.
      * apply (dseg_other _ (Some t) (y :: l2) None); [set_solver|].
        eapply (dseg_set_prev _ (Some x) (Some t)); [done|].
        apply (dseg_other _ (Some x) (y :: l2) None); [set_solver|done].
    + rewrite Hh. by destruct l1.
    + rewrite Ht. unfold last_or. rewrite !last_app_cons. done.
    + rewrite Hz. exact Hlen.
Qed.

(** ** The pool *)
Record sim (p : BlockPool) (a : APool) : Prop := {
  sim_queue : queue_is p (a_free a);
  sim_blocks : payloads p = a_blocks a;
  sim_hash : hash_map p = a_hash a
}.

(** The invariant of the abstract pool: the free list holds exactly the blocks
    without references, and hashes and blocks correspond one to one. *)
Record apool_ok (a : APool) : Prop := {
  ao_nodup : NoDup (a_free a);
  ao_free : ∀ id, id ∈ a_free a ↔ ∃ h, a_blocks a !! id = Some (0, h);
  ao_refs : ∀ id r h, a_blocks a !! id = Some (r, h) → 0 ≤ r;
  ao_hash : ∀ h id, a_hash a !! h = Some id ↔ ∃ r, a_blocks a !! id = Some (r, Some h)
}.

Lemma sim_lookup p a id : sim p a → payload <$> blocks p !! id = a_blocks a !! id.
Proof. intros H. rewrite <- (sim_blocks _ _ H). unfold payloads. by rewrite lookup_fmap. Qed.

Lemma sim_Some p a id r h :
  sim p a → a_blocks a !! id = Some (r, h) →
  ∃ blk, blocks p !! id = Some blk ∧ ref_cnt blk = r ∧ block_hash blk = h.
Proof.
  intros Hs Ha. pose proof (sim_lookup p a id Hs) as Hl. rewrite Ha in Hl.
  destruct (blocks p !! id) as [blk|]; [|done]. exists blk. unfold payload in Hl. simpl in Hl.
  by simplify_eq.
Qed.

Lemma sim_None p a id : sim p a → a_blocks a !! id = None → blocks p !! id = None.
Proof.
  intros Hs Ha. pose proof (sim_lookup p a id Hs) as Hl. rewrite Ha in Hl.
  by destruct (blocks p !! id).
Qed.

(** An update of the payload of one block. *)
Lemma payloads_upd p id f g :
  (∀ x, payload (f x) = g (payload x)) → payloads (upd id f p) = alter g id (payloads p).
Proof.
  intros Hf. unfold payloads, upd. simpl. apply map_eq. intros i. rewrite lookup_fmap.
  destruct (decide (i = id)) as [->|Hne].
  - rewrite !lookup_alter_eq, lookup_fmap. destruct (blocks p !! id); simpl; [by rewrite Hf|done].
  - by rewrite !lookup_alter_ne, lookup_fmap.
Qed.

Lemma queue_upd p l id f :
  (∀ x, prev (f x) = prev x ∧ next (f x) = next x) → queue_is p l → queue_is (upd id f p) l.
Proof. intros Hf [H1 H2 H3 H4 H5]. constructor; try done. by apply dseg_same_links. Qed.

Lemma queue_rehash p l m : queue_is p l → queue_is (set_hash_map m p) l.
Proof. intros []. by constructor. Qed.

Lemma payloads_rehash p m : payloads (set_hash_map m p) = payloads p.
Proof. done. Qed.

Lemma alter_insert_Some {A} (m : gmap Z A) i f x y :
  m !! i = Some x → f x = y → alter f i m = <[i := y]> m.
Proof.
  intros Hm Hf. apply map_eq. intros j. destruct (decide (j = i)) as [->|Hne].
  - by rewrite lookup_alter_eq, lookup_insert_eq, Hm, <- Hf.
  - by rewrite lookup_alter_ne, lookup_insert_ne.
Qed.

Lemma hash_field (x : Z) (h : option Z) h' :
  (∃ r, Some (x, h) = Some (r, Some h')) ↔ h = Some h'.
Proof. split; [by intros [r [= _ ->]]|]. intros ->. by exists x. Qed.

Lemma allocate_sim p a :
  sim p a → apool_ok a →
  (allocate_block p).1 = (a_allocate a).1 ∧ sim (allocate_block p).2 (a_allocate a).2 ∧
  apool_ok (a_allocate a).2.
Proof.
  intros Hs Ha. pose proof Hs as [Hq Hb Hh]. pose proof (q_popleft_spec p (a_free a) Hq) as Hpop.
  unfold allocate_block, a_allocate. destruct (a_free a) as [|id l] eqn:Hf.
  { rewrite Hpop. done. }
  destruct (q_popleft p) as [o p1]. simpl in Hpop. destruct Hpop as (-> & Hq1 & Hp1 & Hm1).
  assert (∃ h, a_blocks a !! id = Some (0, h)) as [h Hid] by (apply (ao_free a Ha); rewrite Hf; set_solver).
  assert (sim p1 (mkAPool l (a_blocks a) (a_hash a))) as Hs1 by (constructor; simpl; [done|congruence|congruence]).
  destruct (sim_Some _ _ _ _ _ Hs1 Hid) as (blk & Hblk & Hr & Hbh). rewrite Hblk. simpl. rewrite Hbh, Hid.
  pose proof (ao_nodup a Ha) as Hnd. rewrite Hf in Hnd. apply NoDup_cons in Hnd as [Hnin Hnd].
  split_and!; [done| |].
  - destruct h as [h|]; constructor; simpl.
    + do 2 (apply queue_upd; [done|]). by destruct Hq1; constructor.
    + rewrite !(payloads_upd _ _ (set_ref 1) (λ x, (1, x.2))) by done.
      rewrite (payloads_upd _ _ (set_hash None) (λ x, (x.1, None))) by done.
      change (payloads (set_hash_map _ p1)) with (payloads p1). rewrite Hp1, Hb.
      rewrite (alter_insert_Some (a_blocks a) id _ _ (0, None) Hid) by done.
      erewrite alter_insert_Some; [|apply lookup_insert_eq|done]. by rewrite insert_insert_eq.
    + by rewrite Hm1, Hh.
    + apply queue_upd; done.
    + rewrite (payloads_upd _ _ (set_ref 1) (λ x, (1, x.2))) by done. rewrite Hp1, Hb.
      by rewrite (alter_insert_Some (a_blocks a) id _ _ (1, None) Hid).
    + by rewrite Hm1, Hh.
  - destruct Ha as [A1 A2 A3 A4]. constructor; simpl; try done.
    + intros i. destruct (decide (i = id)) as [->|Hne].
      * rewrite lookup_insert_eq. split; [done|]. by intros [? ?].
      * rewrite lookup_insert_ne by done. rewrite <- A2, Hf. set_solver.
    + intros i r' h'. destruct (decide (i = id)) as [->|Hne].
      * rewrite lookup_insert_eq. intros [= <- <-]. lia.
      * rewrite lookup_insert_ne by done. apply A3.
    + intros h' i. assert (∀ h0, h = Some h0 → a_hash a !! h0 = Some id) as Hmap
        by (intros h0 ->; apply A4; eauto).
      destruct (decide (i = id)) as [->|Hne].
      * rewrite lookup_insert_eq. split; [|by intros [? ?]]. intros Hl. exfalso.
        destruct h as [h|].
        -- unfold drop_mapping in Hl. rewrite decide_True in Hl by auto.
           apply lookup_delete_Some in Hl as [Hne Hl]. apply A4 in Hl as [r' Hr']. congruence.
        -- apply A4 in Hl as [r' Hr']. congruence.
      * rewrite lookup_insert_ne by done. rewrite <- A4. destruct h as [h|]; [|done].
        unfold drop_mapping. rewrite decide_True by auto. rewrite lookup_delete_Some.
        split; [tauto|]. intros Hl. split; [|done]. intros ->. rewrite (Hmap h' eq_refl) in Hl. congruence.
Qed.

Lemma free_sim p a id :
  sim p a → apool_ok a →
  (free_block id p).1 = (a_free_block id a).1 ∧ sim (free_block id p).2 (a_free_block id a).2 ∧
  apool_ok (a_free_block id a).2.
Proof.
  intros Hs Ha. pose proof Hs as [Hq Hb Hh]. unfold free_block, a_free_block. munfold.
  destruct (a_blocks a !! id) as [[r h]|] eqn:Hid.
  2: { rewrite (sim_None p a id Hs Hid). done. }
  destruct (sim_Some _ _ _ _ _ Hs Hid) as (blk & Hblk & Hr & Hbh). rewrite Hblk. simpl. rewrite Hr.
  destruct (Z.leb_spec r 0) as [Hle|Hgt]; [done|].
  set (p1 := upd id (set_ref (r - 1)) p).
  assert (queue_is p1 (a_free a)) as Hq1 by (by apply queue_upd).
  assert (payloads p1 = <[id := (r - 1, h)]> (a_blocks a)) as Hp1.
  { unfold p1. rewrite (payloads_upd _ _ (set_ref (r - 1)) (λ x, (r - 1, x.2))) by done. rewrite Hb.
    by apply (alter_insert_Some _ _ _ (r, h)). }
  assert (id ∉ a_free a) as Hnin.
  { intros Hin. apply (ao_free a Ha) in Hin as [h' Hin]. assert (r = 0) by congruence. lia. }
  destruct Ha as [A1 A2 A3 A4]. destruct (Z.eqb_spec r 1) as [->|Hne1].
  - rewrite (proj2 (Z.eqb_eq (1 - 1) 0)) by lia. simpl.
    destruct (q_append_spec p1 (a_free a) id Hq1 Hnin) as (Q1 & Q2 & Q3).
    { unfold p1, upd. simpl. rewrite lookup_alter_eq, Hblk. eauto. }
    split_and!; [done| |].
    + constructor; [exact Q1|etrans; [exact Q2|exact Hp1]|etrans; [exact Q3|exact Hh]].
    + constructor; simpl.
      * apply NoDup_app. split_and!; [done|set_solver|apply NoDup_singleton].
      * intros i. rewrite elem_of_app, list_elem_of_singleton. destruct (decide (i = id)) as [->|Hne].
        -- rewrite lookup_insert_eq. naive_solver.
        -- rewrite lookup_insert_ne, A2 by done. naive_solver.
      * intros i r' h'. destruct (decide (i = id)) as [->|Hne].
        -- rewrite lookup_insert_eq. intros [= <- <-]. lia.
        -- rewrite lookup_insert_ne by done. apply A3.
      * intros h' i. rewrite A4. destruct (decide (i = id)) as [->|Hne].
        -- by rewrite lookup_insert_eq, Hid, !hash_field.
        -- by rewrite lookup_insert_ne.
  - rewrite (proj2 (Z.eqb_neq (r - 1) 0)) by lia. simpl. split_and!; [done|by constructor|].
    constructor; simpl.
    + done.
    + intros i. rewrite A2. destruct (decide (i = id)) as [->|Hne].
      * rewrite lookup_insert_eq, Hid. split; intros [h' [= E1 E2]]; lia.
      * by rewrite lookup_insert_ne.
    + intros i r' h'. destruct (decide (i = id)) as [->|Hne].
      * rewrite lookup_insert_eq. intros [= <- <-]. lia.
      * rewrite lookup_insert_ne by done. apply A3.
    + intros h' i. rewrite A4. destruct (decide (i = id)) as [->|Hne].
      * by rewrite lookup_insert_eq, Hid, !hash_field.
      * by rewrite lookup_insert_ne.
Qed.

Lemma filter_split (id : Z) l1 l2 :
  NoDup (l1 ++ id :: l2) → filter (λ i, i ≠ id) (l1 ++ id :: l2) = l1 ++ l2.
Proof.
  intros Hnd. assert (NoDup (id :: l1 ++ l2)) as H by (by rewrite Permutation_middle).
  apply NoDup_cons in H as [Hid _]. rewrite elem_of_app in Hid.
  assert (∀ l : list Z, id ∉ l → filter (λ i, i ≠ id) l = l) as Hf.
  { induction l as [|x l IH]; intros Hx; [done|]. rewrite filter_cons, decide_True by set_solver.
    f_equal. apply IH. set_solver. }
  rewrite filter_app, filter_cons, decide_False by (by intros ?). by rewrite !Hf by tauto.
Qed.

Lemma get_cached_sim p a h :
  sim p a → apool_ok a →
  (get_cached_block h p).1 = (a_get_cached h a).1 ∧ sim (get_cached_block h p).2 (a_get_cached h a).2 ∧
  apool_ok (a_get_cached h a).2.
Proof.
  intros Hs Ha. pose proof Hs as [Hq Hb Hh]. unfold get_cached_block, a_get_cached. rewrite Hh.
  destruct (a_hash a !! h) as [id|] eqn:Hm; [|done].
  destruct Ha as [A1 A2 A3 A4]. destruct (proj1 (A4 h id) Hm) as [r Hid]. rewrite Hid.
  destruct (sim_Some _ _ _ _ _ Hs Hid) as (blk & Hblk & Hr & Hbh). rewrite Hblk. simpl. rewrite Hr.
  pose proof (A3 id r _ Hid) as Hr0.
  set (p1 := if r =? 0 then q_remove id p else p).
  set (fr := if r =? 0 then filter (λ i, i ≠ id) (a_free a) else a_free a).
  assert (queue_is p1 fr ∧ payloads p1 = a_blocks a ∧ hash_map p1 = a_hash a) as (Q1 & Q2 & Q3).
  { unfold p1, fr. destruct (Z.eqb_spec r 0) as [->|]; [|done].
    assert (id ∈ a_free a) as Hin by (apply A2; eauto).
    apply list_elem_of_split in Hin as (l1 & l2 & Hl). rewrite Hl in *.
    rewrite filter_split by done. destruct (q_remove_spec p l1 id l2 Hq) as (? & ? & ?).
    split_and!; [done|congruence|congruence]. }
  assert (payloads (upd id (set_ref (r + 1)) p1) = <[id := (r + 1, Some h)]> (a_blocks a)) as Hp.
  { rewrite (payloads_upd _ _ (set_ref (r + 1)) (λ x, (r + 1, x.2))) by done. rewrite Q2.
    by apply (alter_insert_Some _ _ _ (r, Some h)). }
  split_and!; [done|constructor; simpl; [by apply queue_upd|done|done]|].
  constructor; simpl.
  - unfold fr. destruct (r =? 0); [by apply NoDup_filter|done].
  - intros i. destruct (decide (i = id)) as [->|Hne].
    + rewrite lookup_insert_eq. split; [|intros [? [= E _]]; lia].
      unfold fr. destruct (Z.eqb_spec r 0) as [|Hne].
      * intros [? _]%list_elem_of_filter. done.
      * intros Hin. apply A2 in Hin as [h' Hin]. congruence.
    + rewrite lookup_insert_ne, <- A2 by done. unfold fr. destruct (r =? 0); [|done].
      rewrite list_elem_of_filter. tauto.
  - intros i r' h'. destruct (decide (i = id)) as [->|Hne].
    + rewrite lookup_insert_eq. intros [= <- <-]. lia.
    + rewrite lookup_insert_ne by done. apply A3.
  - intros h' i. rewrite A4. destruct (decide (i = id)) as [->|Hne].
    + by rewrite lookup_insert_eq, Hid, !hash_field.
    + by rewrite lookup_insert_ne.
Qed.

(** The hash of a block in the abstract pool. *)
Definition hash_of (m : gmap Z (Z * option Z)) (id : Z) : option Z := m !! id ≫= snd.

Lemma hash_of_iff m id h : hash_of m id = Some h ↔ ∃ r, m !! id = Some (r, Some h).
Proof.
  unfold hash_of. destruct (m !! id) as [[r h']|]; simpl; [by rewrite hash_field|].
  split; [done|]. by intros [? ?].
Qed.

Lemma alter_fst (m : gmap Z (Z * option Z)) id x i r :
  (∃ h, alter (λ y, (y.1, x)) id m !! i = Some (r, h)) ↔ ∃ h, m !! i = Some (r, h).
Proof.
  destruct (decide (i = id)) as [->|Hne]; [|by rewrite lookup_alter_ne].
  rewrite lookup_alter_eq. destruct (m !! id) as [[r' h']|]; simpl; [|done].
  split; intros [h [= <- _]]; eauto.
Qed.

Lemma hash_of_alter (m : gmap Z (Z * option Z)) id x i :
  is_Some (m !! id) →
  hash_of (alter (λ y, (y.1, x)) id m) i = if decide (i = id) then x else hash_of m i.
Proof.
  intros [y Hy]. unfold hash_of. case_decide as Hd; [subst; by rewrite lookup_alter_eq, Hy|].
  by rewrite lookup_alter_ne.
Qed.

Lemma cache_full_ok a id h :
  apool_ok a → is_Some (a_blocks a !! id) → apool_ok (a_cache_full id h a).
Proof.
  intros [A1 A2 A3 A4] Hid. unfold a_cache_full.
  assert (∀ h' i, a_hash a !! h' = Some i ↔ hash_of (a_blocks a) i = Some h') as A4'
    by (intros; by rewrite hash_of_iff).
  set (m := match a_blocks a !! id with Some (_, Some _) => _ | _ => _ end).
  assert (∀ h' i, m !! h' = Some i ↔ a_hash a !! h' = Some i ∧ ¬ (i = id ∧ h' ≠ h)) as Hm.
  { intros h' i. unfold m. destruct (a_blocks a !! id) as [[r [old|]]|] eqn:E.
    - assert (hash_of (a_blocks a) id = Some old) as Ho by (unfold hash_of; by rewrite E).
      destruct (decide (old = h)) as [->|Hne].
      + split; [|tauto]. intros Hl. split; [done|]. intros [-> Hn]. apply A4' in Hl. congruence.
      + unfold drop_mapping. rewrite decide_True by (by apply A4'). rewrite lookup_delete_Some. split.
        * intros [Hn Hl]. split; [done|]. intros [-> _]. apply A4' in Hl. congruence.
        * intros [Hl Hn]. split; [|done]. intros ->. apply A4' in Ho. rewrite Ho in Hl.
          apply Hn. split; congruence.
    - split; [|tauto]. intros Hl. split; [done|]. intros [-> _]. apply A4' in Hl.
      unfold hash_of in Hl. by rewrite E in Hl.
    - by destruct Hid. }
  set (b := match m !! h with Some _ => _ | None => _ end).
  assert (∀ i, hash_of b i = if decide (m !! h = Some i ∧ i ≠ id) then None else hash_of (a_blocks a) i) as Hb.
  { intros i. unfold b. destruct (m !! h) as [c|] eqn:E.
    - destruct (decide (c = id)) as [->|Hne]; [rewrite decide_False; [done|naive_solver]|].
      rewrite hash_of_alter by (apply Hm in E as [E _]; apply A4 in E as [r E]; eauto).
      destruct (decide (i = c)) as [->|Hi]; [by rewrite decide_True|]. rewrite decide_False; naive_solver.
    - by rewrite decide_False by naive_solver. }
  assert (∀ i r, (∃ x, b !! i = Some (r, x)) ↔ ∃ x, a_blocks a !! i = Some (r, x)) as Hr.
  { intros i r. unfold b. destruct (m !! h) as [c|]; [|done]. case_decide; [done|]. apply alter_fst. }
  assert (is_Some (b !! id)) as Hbid.
  { destruct Hid as [[r x] Hid]. destruct (proj2 (Hr id r)) as [x' Hx]; eauto. }
  constructor; cbn [a_free a_blocks a_hash].
  - done.
  - intros i. by rewrite A2, <- Hr, alter_fst.
  - intros i r x Hi. destruct (proj1 (Hr i r)) as [x' Hx']; [|by eapply A3].
    eapply alter_fst. eauto.
  - intros h' i. rewrite <- hash_of_iff, hash_of_alter, Hb by done.
    rewrite lookup_insert_Some, Hm, A4'.
    destruct (decide (i = id)) as [->|Hi].
    + naive_solver.
    + destruct (decide (m !! h = Some i ∧ i ≠ id)) as [[Hc _]|Hc].
      * apply Hm in Hc as [Hc _]. apply A4' in Hc. naive_solver.
      * split; [naive_solver|]. intros Hh. right. split; [|naive_solver]. intros <-.
        apply Hc. split; [|done]. apply Hm. split; [by apply A4'|]. tauto.
Qed.

Lemma cache_full_sim p a id h :
  sim p a → apool_ok a → is_Some (a_blocks a !! id) →
  sim (cache_full_block id h p) (a_cache_full id h a) ∧ apool_ok (a_cache_full id h a).
Proof.
  intros Hs Ha Hid. split; [|by apply cache_full_ok].
  pose proof Hs as [Hq Hb Hh]. destruct Hid as [[r bh] Hid].
  destruct (sim_Some _ _ _ _ _ Hs Hid) as (blk & Hblk & Hr & Hbh).
  unfold cache_full_block, a_cache_full. rewrite Hblk, Hid. simpl. rewrite Hbh.
  set (m := match bh with Some _ => _ | None => _ end).
  set (m' := match bh with Some old => if decide (old = h) then a_hash a else drop_mapping old id (a_hash a)
             | None => a_hash a end).
  assert (m = set_hash_map m' p) as ->.
  { unfold m, m'. destruct bh as [old|]; [case_decide|]; rewrite <- ?Hh; by destruct p. }
  assert (queue_is (set_hash_map m' p) (a_free a)) as Hq' by (by apply queue_rehash).
  assert (payloads (set_hash_map m' p) = a_blocks a) as Hb' by done.
  simpl. destruct (m' !! h) as [c|]; [destruct (decide (c = id))|]; constructor; cbn [hash_map set_hash_map].
  all: try done.
  all: try (apply queue_rehash; by repeat apply queue_upd).
  all: rewrite payloads_rehash, (payloads_upd _ _ (set_hash (Some h)) (λ y, (y.1, Some h))) by done.
  2: rewrite (payloads_upd _ _ (set_hash None) (λ y, (y.1, None))) by done.
  all: by rewrite Hb'.
Qed.

(** ** The initial pool *)
Definition apool_init (n : Z) : APool :=
  mkAPool (seqZ 0 n) (list_to_map ((λ i, (i, (0, None))) <$> seqZ 0 n)) ∅.

Lemma append_all p l ids :
  queue_is p l → NoDup (l ++ ids) → (∀ i, i ∈ ids → is_Some (blocks p !! i)) →
  let q := foldl (λ p i, q_append i p) p ids in
  queue_is q (l ++ ids) ∧ payloads q = payloads p ∧ hash_map q = hash_map p.
Proof.
  revert p l. induction ids as [|x ids IH]; intros p l Hq Hnd Hin; simpl; [by rewrite app_nil_r|].
  assert (x ∉ l) as Hx by (apply NoDup_app in Hnd as (_ & Hd & _); intros ?; eapply Hd; set_solver).
  destruct (q_append_spec p l x Hq Hx) as (Hq' & Hp' & Hh'); [apply Hin; set_solver|].
  rewrite <- Hp', <- Hh'. rewrite (assoc_L (++) l [x] ids : l ++ x :: ids = _) in *. apply IH; [done|done|].
  intros i Hi. specialize (Hin i ltac:(set_solver)).
  apply (f_equal (lookup i)) in Hp'. unfold payloads in Hp'. rewrite !lookup_fmap in Hp'.
  destruct (blocks p !! i); [|by destruct Hin]. destruct (blocks (q_append x p) !! i); [eauto|done].
Qed.

Lemma init_lookup {A} (v : A) n i y :
  (list_to_map ((λ i, (i, v)) <$> seqZ 0 n) : gmap Z A) !! i = Some y ↔ i ∈ seqZ 0 n ∧ y = v.
Proof.
  rewrite <- elem_of_list_to_map.
  - rewrite list_elem_of_fmap. naive_solver.
  - rewrite <- list_fmap_compose, (list_fmap_ext _ id), list_fmap_id by done. apply NoDup_seqZ.
Qed.

Lemma init_sim n : sim (pool_init n) (apool_init n) ∧ apool_ok (apool_init n).
Proof.
  split.
  - unfold pool_init. set (p0 := mkPool _ None None 0 ∅).
    destruct (append_all p0 [] (seqZ 0 n)) as (Hq & Hp & Hh).
    + by constructor; try apply NoDup_nil_2.
    + apply NoDup_seqZ.
    + intros i Hi. exists (mkBlock 0 None None None). by apply init_lookup.
    + constructor; [done| |done]. rewrite Hp. unfold payloads. simpl.
      apply map_eq. intros i. apply option_eq. intros y.
      rewrite lookup_fmap_Some, init_lookup. setoid_rewrite init_lookup. split.
      * by intros (? & <- & ? & ->).
      * intros [? ->]. by exists (mkBlock 0 None None None).
  - constructor; simpl.
    + apply NoDup_seqZ.
    + intros id. setoid_rewrite init_lookup. split; [intros; by exists None|by intros (? & ? & _)].
    + intros id r h (_ & [= -> ->])%init_lookup. done.
    + intros h id. rewrite lookup_empty. setoid_rewrite init_lookup. by split; [|intros (? & _ & ?)].
Qed.

(** ** Histories *)
Inductive pool_cmd :=
  | PAllocate
  | PFree (id : Z)
  | PGetCached (h : Z)
  | PCacheFull (id h : Z).

(** What a call returns: a block or [None], or the raised exception. *)
Definition pool_reply : Type := option Z + exn.

Definition reply {S} (r : res unit) (s : S) : pool_reply * S :=
  (match r with Ok _ => inl None | Err e => inr e end, s).

Definition pool_step (c : pool_cmd) (p : BlockPool) : pool_reply * BlockPool :=
  match c with
  | PAllocate => let '(r, p) := allocate_block p in (inl r, p)
  | PFree id => let '(r, p) := free_block id p in reply r p
  | PGetCached h => let '(r, p) := get_cached_block h p in (inl r, p)
  | PCacheFull id h => (inl None, cache_full_block id h p)
  end.

Definition apool_step (c : pool_cmd) (a : APool) : pool_reply * APool :=
  match c with
  | PAllocate => let '(r, a) := a_allocate a in (inl r, a)
  | PFree id => let '(r, a) := a_free_block id a in reply r a
  | PGetCached h => let '(r, a) := a_get_cached h a in (inl r, a)
  | PCacheFull id h => (inl None, a_cache_full id h a)
  end.

(** The replies of a history, and the final state. *)
Fixpoint run_cmds {S} (step : pool_cmd → S → pool_reply * S) (cs : list pool_cmd) (s : S)
  : list pool_reply * S :=
  match cs with
  | [] => ([], s)
  | c :: cs => let '(r, s) := step c s in let '(rs, s) := run_cmds step cs s in (r :: rs, s)
  end.

(** The client passes blocks of the pool: the ids it names are below [n]. *)
Definition cmd_in (n : Z) (c : pool_cmd) : Prop :=
  match c with PFree id | PCacheFull id _ => 0 ≤ id < n | _ => True end.

Definition domain_is (n : Z) (a : APool) : Prop := ∀ id, is_Some (a_blocks a !! id) ↔ 0 ≤ id < n.

Lemma alter_is_Some {A} (m : gmap Z A) f i j : is_Some (alter f i m !! j) ↔ is_Some (m !! j).
Proof. destruct (decide (i = j)) as [->|Hne]; [rewrite lookup_alter_eq; apply fmap_is_Some|by rewrite lookup_alter_ne]. Qed.

Lemma insert_is_Some {A} (m : gmap Z A) i j x :
  is_Some (m !! i) → is_Some (<[i := x]> m !! j) ↔ is_Some (m !! j).
Proof. intros Hi. destruct (decide (i = j)) as [->|Hne]; [rewrite lookup_insert_eq; split; eauto|by rewrite lookup_insert_ne]. Qed.

Lemma apool_step_domain c a n : apool_ok a → domain_is n a → domain_is n (apool_step c a).2.
Proof.
  intros Ha Hd id. etrans; [|apply Hd]. destruct c as [|i|h|i h]; simpl.
  - unfold a_allocate. destruct (a_free a) as [|x l] eqn:E; [done|]. simpl.
    apply insert_is_Some. destruct (proj1 (ao_free _ Ha x)) as [h Hx]; [rewrite E; set_solver|eauto].
  - unfold a_free_block. munfold. destruct (a_blocks a !! i) as [[r h]|] eqn:E; simpl; [|done].
    destruct (r <=? 0); [done|]. simpl. apply insert_is_Some. eauto.
  - unfold a_get_cached. destruct (a_hash a !! h) as [x|]; [|done].
    destruct (a_blocks a !! x) as [[r bh]|] eqn:E; [|done]. simpl. apply insert_is_Some. eauto.
  - rewrite alter_is_Some. case_match; [case_decide; [done|]|done]. apply alter_is_Some.
Qed.

Lemma pool_step_sim c p a n :
  sim p a → apool_ok a → domain_is n a → cmd_in n c →
  (pool_step c p).1 = (apool_step c a).1 ∧ sim (pool_step c p).2 (apool_step c a).2 ∧
  apool_ok (apool_step c a).2.
Proof.
  intros Hs Ha Hd Hc. destruct c as [|i|h|i h]; simpl.
  - pose proof (allocate_sim p a Hs Ha). destruct (allocate_block p), (a_allocate a). naive_solver.
  - pose proof (free_sim p a i Hs Ha). destruct (free_block i p), (a_free_block i a). naive_solver.
  - pose proof (get_cached_sim p a h Hs Ha). destruct (get_cached_block h p), (a_get_cached h a). naive_solver.
  - split; [done|]. apply cache_full_sim; [done|done|]. by apply Hd.
Qed.

Lemma run_sim n cs p a :
  sim p a → apool_ok a → domain_is n a → Forall (cmd_in n) cs →
  (run_cmds pool_step cs p).1 = (run_cmds apool_step cs a).1 ∧
  sim (run_cmds pool_step cs p).2 (run_cmds apool_step cs a).2 ∧
  apool_ok (run_cmds apool_step cs a).2.
Proof.
  revert p a. induction cs as [|c cs IH]; intros p a Hs Ha Hd Hc; [done|]. simpl.
  apply Forall_cons in Hc as [Hc Hcs]. destruct (pool_step_sim c p a n Hs Ha Hd Hc) as (Hr & Hs' & Ha').
  pose proof (apool_step_domain c a n Ha Hd) as Hd'.
  destruct (pool_step c p) as [r1 p1], (apool_step c a) as [r2 a2]. simpl in *. subst r2.
  destruct (IH p1 a2 Hs' Ha' Hd' Hcs) as (Hr & ? & ?).
  destruct (run_cmds pool_step cs p1), (run_cmds apool_step cs a2). simpl in *. by subst.
Qed.

Lemma init_domain n : domain_is n (apool_init n).
Proof.
  intros id. simpl. split.
  - intros [y Hy]. apply init_lookup in Hy as [Hy _]. apply elem_of_seqZ in Hy. lia.
  - intros Hi. exists (0, None). apply init_lookup. split; [|done]. apply elem_of_seqZ. lia.
Qed.

(** ** What the clients of the pool rely on *)

(** A linked pool, its abstract view, and the blocks it has. *)
Definition pool_view (n : Z) (p : BlockPool) (a : APool) : Prop := sim p a ∧ apool_ok a ∧ domain_is n a.

Lemma view_init n : pool_view n (pool_init n) (apool_init n).
Proof. destruct (init_sim n). split_and!; [done|done|apply init_domain]. Qed.

Lemma view_ref n p a id : pool_view n p a → ref_cnt <$> blocks p !! id = fst <$> a_blocks a !! id.
Proof. intros (Hs & _ & _). rewrite <- (sim_lookup p a id Hs). by destruct (blocks p !! id). Qed.

Lemma view_num_free n p a : pool_view n p a → num_free_blocks p = zlen (a_free a).
Proof. intros (Hs & _ & _). apply (qi_size _ _ (sim_queue _ _ Hs)). Qed.

Lemma view_allocate n p a :
  pool_view n p a →
  match a_free a with
  | [] => allocate_block p = (None, p)
  | id :: l => ∃ p' a' h, allocate_block p = (Some id, p') ∧ pool_view n p' a' ∧ a_free a' = l ∧
                 a_blocks a !! id = Some (0, h) ∧ a_blocks a' = <[id := (1, None)]> (a_blocks a)
  end.
Proof.
  intros (Hs & Ha & Hd). destruct (allocate_sim p a Hs Ha) as (Hr & Hs' & Ha').
  pose proof (apool_step_domain PAllocate a n Ha Hd) as Hd'. simpl in Hd'.
  pose proof (q_popleft_spec p (a_free a) (sim_queue _ _ Hs)) as Hpop. revert Hr Hs' Ha' Hd'.
  unfold a_allocate. destruct (a_free a) as [|id l] eqn:E.
  - intros _ _ _ _. unfold allocate_block. by rewrite Hpop.
  - cbn [fst snd]. intros Hr Hs' Ha' Hd'. destruct (allocate_block p) as [r p']. cbn [fst snd] in *. subst r.
    destruct (proj1 (ao_free _ Ha id)) as [h Hh]; [rewrite E; set_solver|].
    eexists p', _, h. split_and!; [done|split_and!; done|done|done|done].
Qed.

Lemma view_free n p a id r h :
  pool_view n p a → a_blocks a !! id = Some (r, h) → 0 < r →
  ∃ p' a', free_block id p = (Ok tt, p') ∧ pool_view n p' a' ∧
           a_free a' = (if r =? 1 then a_free a ++ [id] else a_free a) ∧
           a_blocks a' = <[id := (r - 1, h)]> (a_blocks a).
Proof.
  intros (Hs & Ha & Hd) Hid Hr0. destruct (free_sim p a id Hs Ha) as (Hr & Hs' & Ha').
  pose proof (apool_step_domain (PFree id) a n Ha Hd) as Hd'. simpl in Hd'. revert Hr Hs' Ha' Hd'.
  unfold a_free_block. munfold. rewrite Hid. destruct (Z.leb_spec r 0); [lia|]. cbn [fst snd reply].
  intros Hr Hs' Ha' Hd'. destruct (free_block id p) as [r' p']. cbn [fst snd] in *. subst r'.
  eexists p', _. split_and!; [done|split_and!; done|done|done].
Qed.

Lemma view_get_cached n p a h :
  pool_view n p a →
  ∃ r p', get_cached_block h p = (r, p') ∧
    match r with
    | None => p' = p
    | Some id => ∃ a' k, pool_view n p' a' ∧ a_blocks a !! id = Some (k, Some h) ∧
                   a_blocks a' = <[id := (k + 1, Some h)]> (a_blocks a)
    end.
Proof.
  intros (Hs & Ha & Hd). destruct (get_cached_sim p a h Hs Ha) as (Hr & Hs' & Ha').
  pose proof (apool_step_domain (PGetCached h) a n Ha Hd) as Hd'. simpl in Hd'. revert Hr Hs' Ha' Hd'.
  unfold a_get_cached. destruct (a_hash a !! h) as [id|] eqn:E.
  - destruct (proj1 (ao_hash _ Ha h id) E) as [k Hk]. rewrite Hk. cbn [fst snd].
    intros Hr Hs' Ha' Hd'. destruct (get_cached_block h p) as [r p']. cbn [fst snd] in *. subst r.
    eexists _, _. split; [done|]. eexists _, k. split_and!; [split_and!; done|done|done].
  - intros _ _ _ _. unfold get_cached_block. rewrite (sim_hash _ _ Hs), E. by eexists _, _.
Qed.

Lemma a_cache_full_refs a id h i r :
  (∃ x, a_blocks (a_cache_full id h a) !! i = Some (r, x)) ↔ ∃ x, a_blocks a !! i = Some (r, x).
Proof.
  unfold a_cache_full. cbn [a_blocks]. rewrite alter_fst. case_match; [|done]. case_decide; [done|]. apply alter_fst.
Qed.

Lemma view_cache_full n p a id h :
  pool_view n p a → 0 ≤ id < n →
  ∃ a', pool_view n (cache_full_block id h p) a' ∧ a_free a' = a_free a ∧
        ∀ i r, (∃ x, a_blocks a' !! i = Some (r, x)) ↔ ∃ x, a_blocks a !! i = Some (r, x).
Proof.
  intros (Hs & Ha & Hd) Hid. destruct (cache_full_sim p a id h Hs Ha) as (Hs' & Ha'); [by apply Hd|].
  exists (a_cache_full id h a). split_and!; [|done|intros; apply a_cache_full_refs].
  split_and!; [done|done|]. apply (apool_step_domain (PCacheFull id h) a n Ha Hd).
Qed.

(** ** The refinement *)

(** C11: over any history of calls that passes blocks of the pool, the linked
    implementation replies exactly as the pool whose free blocks are a plain
    list, raising the same exceptions; at the end following [next] from the
    head visits exactly that list, the reported number of free blocks is its
    length, the list holds exactly the blocks without references, and a hash
    maps to a block exactly when that block carries it. *)
Theorem block_pool_refines (n : Z) (cs : list pool_cmd) (Hcs : Forall (cmd_in n) cs) :
  let '(replies, p) := run_cmds pool_step cs (pool_init n) in
  let '(expected, a) := run_cmds apool_step cs (apool_init n) in
  replies = expected ∧ queue_is p (a_free a) ∧ num_free_blocks p = zlen (a_free a) ∧
  (∀ id, id ∈ a_free a ↔ ref_cnt <$> blocks p !! id = Some 0) ∧
  (∀ h id, hash_map p !! h = Some id ↔ blocks p !! id ≫= block_hash = Some h).
Proof.
  destruct (init_sim n) as [Hs Ha].
  destruct (run_sim n cs _ _ Hs Ha (init_domain n) Hcs) as (Hr & Hs' & Ha').
  destruct (run_cmds pool_step cs _) as [r1 p], (run_cmds apool_step cs _) as [r2 a]. simpl in *.
  pose proof (sim_lookup p a) as Hl. destruct Hs' as [Hq Hb Hh].
  assert (∀ id, payload <$> blocks p !! id = a_blocks a !! id) as Hp by (intros; by apply Hl).
  split_and!; [done|done|apply (qi_size _ _ Hq)| |].
  - intros id. rewrite (ao_free _ Ha'), <- Hp. destruct (blocks p !! id) as [b|]; simpl; [|by split; [intros []|]].
    unfold payload. split; [intros [? [= -> _]]; done|intros [= ->]; eauto].
  - intros h id. rewrite Hh, (ao_hash _ Ha'), <- Hp. destruct (blocks p !! id) as [b|]; simpl; [|by split; [intros []|]].
    unfold payload. split; [intros [? [= _ ->]]; done|intros ->; eauto].
Qed.

Definition pool_demo : list pool_cmd :=
  [PAllocate; PAllocate; PCacheFull 0 77; PFree 0; PGetCached 77; PFree 0; PFree 0; PAllocate; PAllocate;
   PAllocate; PGetCached 77; PFree 1].

Example pool_demo_replies :
  (run_cmds pool_step pool_demo (pool_init 3)).1 =
  [inl (Some 0); inl (Some 1); inl None; inl None; inl (Some 0); inl None; inr ValueError;
   inl (Some 2); inl (Some 0); inl None; inl None; inl None].
Proof. vm_compute. reflexivity. Qed.

Lemma block_pool_refines_witness :
  Forall (cmd_in 3) pool_demo ∧
  (run_cmds pool_step pool_demo (pool_init 3)).1 = (run_cmds apool_step pool_demo (apool_init 3)).1.
Proof.
  assert (Forall (cmd_in 3) pool_demo) as H by (repeat constructor; simpl; lia).
  split; [exact H|]. pose proof (block_pool_refines 3 pool_demo H) as Hr.
  destruct (run_cmds pool_step pool_demo (pool_init 3)) as [r1 p].
  destruct (run_cmds apool_step pool_demo (apool_init 3)) as [r2 a]. exact (proj1 Hr).
Defined.
