(* ===== verification/CPUBlockCache.v ===== *)
(** * The CPU block cache (memory/cpu_block_cache.py)

    A client of the block pool and of the [CachePolicy] interface: hashes map to
    CPU blocks, the policy decides which block is given up.  The theorems are
    proved for every policy with the laws of [NoSilentEviction]; the
    constructor's choice of the policy is modelled with them. *)
From S2P Require Import Prelude PyCollections OffloadingPolicy OffloadingPolicyProps BlockPool BlockPoolProps.

Record CPUBlockCache (P : Type) := mkCache {
  cpu_pool : BlockPool;
  policy : P;
  hash_to_cpu_block : gmap Z Z;    (** the block object, by its id in the pool *)
  cpu_id_to_hash : gmap Z Z
}.
Arguments mkCache {P} _ _ _ _.
Arguments cpu_pool {P} _.
Arguments policy {P} _.
Arguments hash_to_cpu_block {P} _.
Arguments cpu_id_to_hash {P} _.

(** ** The constructor *)

(** [capacity or cpu_pool.total_blocks()] *)
Definition resolve_capacity (capacity : option Z) (pool : BlockPool) : Z :=
  match capacity with
  | Some c => if c =? 0 then total_blocks pool else c
  | None => total_blocks pool
  end.

(** [policy or LRUPolicy(capacity=cap)]: an object with [__len__] is false when
    its length is zero. *)
Definition choose_policy `{CachePolicy P Z Z} (p : option P) (cap : Z) : res (P + LRUPolicy Z Z) :=
  let lru := match lru_init cap with Ok l => Ok (inr l) | Err e => Err e end in
  match p with
  | Some p => if cp_len p =? 0 then lru else Ok (inl p)
  | None => lru
  end.

(** [CPUBlockCache.__init__] *)
Definition cache_init `{CachePolicy P Z Z} (pool : BlockPool) (p : option P) (capacity : option Z)
    : res (CPUBlockCache P + CPUBlockCache (LRUPolicy Z Z)) :=
  match choose_policy p (resolve_capacity capacity pool) with
  | Err e => Err e
  | Ok (inl p) => Ok (inl (mkCache pool p ∅ ∅))
  | Ok (inr l) => Ok (inr (mkCache pool l ∅ ∅))
  end.

(** ** The operations *)
Section cache.
Context {P : Type} `{!CachePolicy P Z Z}.
Local Abbreviation Cache := (CPUBlockCache P).
Implicit Types c : Cache.

Definition set_policy (p : P) c : Cache := mkCache (cpu_pool c) p (hash_to_cpu_block c) (cpu_id_to_hash c).
Definition set_pool (p : BlockPool) c : Cache := mkCache p (policy c) (hash_to_cpu_block c) (cpu_id_to_hash c).
Definition set_maps (m1 m2 : gmap Z Z) c : Cache := mkCache (cpu_pool c) (policy c) m1 m2.

(** [if cpu_block.ref_cnt > 0: self._cpu_pool.free_block(cpu_block)] *)
Definition give_back (id : Z) : M Cache unit :=
  c ← get;
  when (0 <? default 0 (ref_cnt <$> blocks (cpu_pool c) !! id)) (zoom cpu_pool set_pool (free_block id)).

(** The body of the loop of [_evict_if_needed_locked] after [evict] returned an
    entry. *)
Definition drop_evicted (block_hash cpu_block_id : Z) : M Cache unit :=
  c ← get;
  modify (set_maps (delete block_hash (hash_to_cpu_block c)) (delete cpu_block_id (cpu_id_to_hash c))) ≫= λ _,
  match hash_to_cpu_block c !! block_hash with
  | Some id => give_back id
  | None => mret tt
  end.

(** [_evict_if_needed_locked]; an iteration shortens the policy by one entry,
    so its length bounds the iterations. *)
Fixpoint evict_loop (fuel : nat) : M Cache unit :=
  match fuel with
  | O => mret tt
  | S fuel' =>
      c ← get;
      if cp_capacity (policy c) <=? cp_len (policy c) then
        let '(evicted, p) := cp_evict (policy c) in
        modify (set_policy p) ≫= λ _,
        match evicted with
        | None => mret tt
        | Some (block_hash, cpu_block_id) => drop_evicted block_hash cpu_block_id ≫= λ _, evict_loop fuel'
        end
      else mret tt
  end.
Definition evict_if_needed : M Cache unit :=
  c ← get; evict_loop (S (Z.to_nat (cp_len (policy c)))).

(** [store] *)
Definition store (block_hash : Z) : M Cache (option Z) :=
  c ← get;
  match hash_to_cpu_block c !! block_hash with
  | Some id =>
      modify (set_policy (cp_get block_hash (policy c)).2) ≫= λ _, mret (Some id)
  | None =>
      evict_if_needed ≫= λ _,
      c ← get;
      let '(blk, p) := allocate_block (cpu_pool c) in
      modify (set_pool p) ≫= λ _,
      match blk with
      | None => mret None
      | Some id =>
          modify (set_maps (<[block_hash := id]> (hash_to_cpu_block c)) (<[id := block_hash]> (cpu_id_to_hash c))) ≫= λ _,
          modify (λ c, set_policy (cp_put block_hash id (policy c)) c) ≫= λ _,
          mret (Some id)
      end
  end.

(** [load] *)
Definition load (block_hash : Z) : M Cache (option Z) :=
  c ← get;
  let '(r, p) := cp_get block_hash (policy c) in
  modify (set_policy p) ≫= λ _,
  match r with
  | None => mret None
  | Some cpu_block_id =>
      mret (if decide (hash_to_cpu_block c !! block_hash = Some cpu_block_id) then Some cpu_block_id else None)
  end.

(** [_remove_from_policy_locked]: the drain loop and the reinsertion. *)
Fixpoint drain (fuel : nat) (p : P) (target : Z) : list (Z * Z) * P :=
  match fuel with
  | O => ([], p)
  | S fuel' =>
      match cp_evict p with
      | (None, p) => ([], p)
      | (Some item, p) =>
          let '(retained, p) := drain fuel' p target in
          (if decide (item.1 = target) then retained else item :: retained, p)
      end
  end.
Definition remove_from_policy (target : Z) (p : P) : P :=
  let '(retained, p) := drain (S (Z.to_nat (cp_len p))) p target in
  foldl (λ p item, cp_put item.1 item.2 p) p retained.

(** [invalidate] *)
Definition invalidate (block_hash : Z) : M Cache unit :=
  c ← get;
  match hash_to_cpu_block c !! block_hash with
  | None => mret tt
  | Some id =>
      modify (set_maps (delete block_hash (hash_to_cpu_block c)) (delete id (cpu_id_to_hash c))) ≫= λ _,
      modify (λ c, set_policy (remove_from_policy block_hash (policy c)) c) ≫= λ _,
      give_back id
  end.

(** [__len__] *)
Definition cache_len c : Z := Z.of_nat (size (hash_to_cpu_block c)).
End cache.

(** ** The CPU block cache leaks no block and loads what it stored *)
Import OrderedDict.

(** ** The invariant *)
Section cache.
Context {P : Type} `{NoSilentEviction P Z Z}.
Implicit Types c : CPUBlockCache P.

Record cache_inv (n : Z) c (a : APool) : Prop := {
  ci_view : pool_view n (cpu_pool c) a;
  ci_wf : cp_wf (policy c);
  (** the policy and the hash map hold the same entries *)
  ci_peek : ∀ h, cp_peek h (policy c) = hash_to_cpu_block c !! h;
  ci_len : cp_len (policy c) = cache_len c;
  ci_inverse : ∀ h id, hash_to_cpu_block c !! h = Some id ↔ cpu_id_to_hash c !! id = Some h;
  (** a block is referenced, once, exactly when it is cached *)
  ci_refs : ∀ id r x, a_blocks a !! id = Some (r, x) → r = if cpu_id_to_hash c !! id is Some _ then 1 else 0;
  ci_in : ∀ id, is_Some (cpu_id_to_hash c !! id) → is_Some (a_blocks a !! id);
  (** no block is lost *)
  ci_count : zlen (a_free a) + cache_len c = n
}.
Definition cache_ok n c : Prop := ∃ a, cache_inv n c a.

Lemma cached_block n c a h id :
  cache_inv n c a → hash_to_cpu_block c !! h = Some id → ∃ x, a_blocks a !! id = Some (1, x).
Proof.
  intros Hi Hh. apply (ci_inverse _ _ _ Hi) in Hh.
  destruct (ci_in _ _ _ Hi id) as [[r x] Hx]; [eauto|].
  pose proof (ci_refs _ _ _ Hi _ _ _ Hx) as Hr. rewrite Hh in Hr. subst. eauto.
Qed.

Lemma size_delete_Some (m : gmap Z Z) i x : m !! i = Some x → Z.of_nat (size (delete i m)) = Z.of_nat (size m) - 1.
Proof. intros Hi. rewrite map_size_delete_Some by eauto. assert (size m ≠ 0%nat); [|lia]. intros E%map_size_empty_inv. by rewrite E in Hi. Qed.

(** Forgetting a cached block: the two maps, the policy without its entry, and
    the block back in the pool. *)
Lemma forget_block_inv n c a h id p' :
  cache_inv n c a → hash_to_cpu_block c !! h = Some id →
  cp_wf p' → (∀ h', cp_peek h' p' = if decide (h' = h) then None else cp_peek h' (policy c)) →
  cp_len p' = cp_len (policy c) - 1 →
  ∃ c', give_back id (mkCache (cpu_pool c) p' (delete h (hash_to_cpu_block c)) (delete id (cpu_id_to_hash c)))
        = (Ok tt, c') ∧
    cache_ok n c' ∧ policy c' = p' ∧ hash_to_cpu_block c' = delete h (hash_to_cpu_block c).
Proof.
  intros Hi Hh Hwf Hpk Hlen. destruct (cached_block _ _ _ _ _ Hi Hh) as [x Hx].
  destruct (view_free n _ a id 1 x (ci_view _ _ _ Hi) Hx) as (pl & a' & Hfree & Hv & Hfl & Hbl); [lia|].
  pose proof (proj1 (ci_inverse _ _ _ Hi h id) Hh) as Hid.
  unfold give_back. munfold. cbn [cpu_pool]. rewrite (view_ref n _ _ id (ci_view _ _ _ Hi)), Hx.
  change (0 <? default 0 (fst <$> Some (1, x))) with true. cbv beta iota. cbn [cpu_pool]. rewrite Hfree. eexists. split_and!; [reflexivity| |done|done].
  exists a'. destruct Hi as [H1 H2 H3 H4 H5 H6 H7 H8].
  constructor; unfold cache_len in *; cbn [cpu_pool policy hash_to_cpu_block cpu_id_to_hash set_pool]; try done.
  - intros h'. rewrite Hpk, H3. case_decide as Hd; [subst; by rewrite lookup_delete_eq|by rewrite lookup_delete_ne].
  - rewrite Hlen, H4. symmetry. by eapply size_delete_Some.
  - intros h' id'. rewrite !lookup_delete_Some, H5. split; intros [Hne Hl]; split; try done; intros <-.
    + apply Hne. congruence.
    + apply Hne. rewrite <- H5 in Hl. congruence.
  - intros id' r y. rewrite Hbl. intros [[<- [= <- _]]|[Hne Hl]]%lookup_insert_Some; [by rewrite lookup_delete_eq|].
    rewrite lookup_delete_ne by done. by eapply H6.
  - intros id' [h' Hl]. apply lookup_delete_Some in Hl as [Hne Hl]. rewrite Hbl, lookup_insert_ne by done. eauto.
  - rewrite Hfl, Z.eqb_refl, zlen_app, (size_delete_Some _ _ _ Hh). change (zlen [id]) with 1. lia.
Qed.

(** ** Eviction *)

(** One iteration of the loop, on a full policy. *)
Lemma evict_one n c :
  cache_ok n c → cp_capacity (policy c) ≤ cp_len (policy c) →
  ∃ h id p c', cp_evict (policy c) = (Some (h, id), p) ∧ hash_to_cpu_block c !! h = Some id ∧
    drop_evicted h id (set_policy p c) = (Ok tt, c') ∧ cache_ok n c' ∧
    cp_capacity (policy c') = cp_capacity (policy c) ∧ cp_len (policy c') = cp_len (policy c) - 1 ∧
    hash_to_cpu_block c' = delete h (hash_to_cpu_block c).
Proof.
  intros [a Hi] Hfull. pose proof (ci_wf _ _ _ Hi) as Hwf. pose proof (law_bound _ Hwf).
  pose proof (law_evict _ Hwf) as Hev. destruct (cp_evict (policy c)) as [[[h id]|] p]; [|lia].
  destruct Hev as (Hwf' & Hcap & Hpk & Hnone & Hlen & Hothers).
  rewrite (ci_peek _ _ _ Hi) in Hpk.
  destruct (forget_block_inv n c a h id p Hi Hpk Hwf') as (c' & Hg & Hok & <- & Hm); [|done|].
  { intros h'. case_decide; [by subst|]. by apply Hothers. }
  exists h, id, (policy c'), c'. split_and!; try done. unfold drop_evicted. munfold.
  cbn [set_policy hash_to_cpu_block]. rewrite Hpk. done.
Qed.

Lemma evict_spec n c :
  cache_ok n c →
  ∃ c', evict_if_needed c = (Ok tt, c') ∧ cache_ok n c' ∧
    cp_capacity (policy c') = cp_capacity (policy c) ∧ cp_len (policy c') < cp_capacity (policy c') ∧
    (c' = c ∨ (cp_len (policy c) = cp_capacity (policy c) ∧
       ∃ h, is_Some (hash_to_cpu_block c !! h) ∧ hash_to_cpu_block c' = delete h (hash_to_cpu_block c))).
Proof.
  intros Hok. unfold evict_if_needed. munfold. cbn [evict_loop]. munfold.
  assert (0 ≤ cp_len (policy c) ≤ cp_capacity (policy c) ∧ 0 < cp_capacity (policy c)) as [Hb Hpos]
    by (destruct Hok as [a Hi]; apply law_bound, (ci_wf _ _ _ Hi)).
  destruct (Z.leb_spec (cp_capacity (policy c)) (cp_len (policy c))) as [Hle|Hlt].
  - destruct (evict_one n c Hok Hle) as (h & id & p & c' & Hev & Hh & Hd & Hok' & Hcap & Hlen & Hm).
    rewrite Hev. cbv beta iota. rewrite Hd. exists c'.
    assert (evict_loop (Z.to_nat (cp_len (policy c))) c' = (Ok tt, c')) as ->.
    { destruct (Z.to_nat (cp_len (policy c))); [done|]. cbn [evict_loop]. munfold.
      by destruct (Z.leb_spec (cp_capacity (policy c')) (cp_len (policy c'))); [lia|]. }
    split_and!; [done|done|done|lia|]. right. split; [lia|]. exists h. split; [eauto|done].
  - exists c. split_and!; [done|done|done|lia|by left].
Qed.

(** ** Draining the policy *)
Lemma drain_spec target fuel p :
  cp_wf p → (Z.to_nat (cp_len p) < fuel)%nat →
  let '(l, p') := drain fuel p target in
  cp_wf p' ∧ cp_capacity p' = cp_capacity p ∧ cp_len p' = 0 ∧ od_ok l ∧ (target ∉ keys l) ∧
  (∀ k, k ≠ target → od_get k l = cp_peek k p) ∧
  zlen l = cp_len p - (if cp_peek target p is Some _ then 1 else 0).
Proof.
  revert p. induction fuel as [|fuel IH]; intros p Hwf Hfuel; [lia|]. cbn [drain].
  pose proof (law_evict p Hwf) as Hev. pose proof (law_bound p Hwf) as [Hb _].
  destruct (cp_evict p) as [[[k v]|] p1].
  - destruct Hev as (Hwf1 & Hcap1 & Hk & Hk1 & Hlen1 & Ho1). pose proof (law_bound p1 Hwf1).
    specialize (IH p1 Hwf1 ltac:(lia)). destruct (drain fuel p1 target) as [l p2].
    destruct IH as (Hwf2 & Hcap2 & Hl2 & Hok & Hnt & Hget & Hz). cbn [fst].
    case_decide as Hd.
    + subst k. split_and!; try done; [congruence| |rewrite Hz, Hk1, Hk; lia].
      intros k' Hne. rewrite Hget, Ho1; done.
    + split_and!; try done; [congruence| |set_solver| |].
      * apply NoDup_cons. split; [|done]. apply od_get_None. by rewrite Hget.
      * intros k' Hne. simpl. case_decide as Hkk; [by subst|]. rewrite Hget, Ho1; done.
      * rewrite zlen_cons, Hz, Ho1 by done. lia.
  - destruct Hev as (Hwf1 & Hcap1 & -> & Hzero). split_and!; try done; [apply NoDup_nil_2|set_solver| |].
    + intros k _. symmetry. by apply law_empty.
    + rewrite law_empty by done. change (zlen ([] : list (Z * Z))) with 0. lia.
Qed.

Lemma refill_spec l p :
  cp_wf p → od_ok l → (∀ k, k ∈ keys l → cp_peek k p = None) → cp_len p + zlen l ≤ cp_capacity p →
  let p' := foldl (λ p item, cp_put item.1 item.2 p) p l in
  cp_wf p' ∧ cp_capacity p' = cp_capacity p ∧ cp_len p' = cp_len p + zlen l ∧
  ∀ k, cp_peek k p' = if od_get k l is Some v then Some v else cp_peek k p.
Proof.
  revert p. induction l as [|[k v] l IH]; intros p Hwf Hok Hfresh Hroom; simpl.
  - change (zlen ([] : list (Z * Z))) with 0. split_and!; [done|done|lia|done].
  - apply NoDup_cons in Hok as [Hk Hok]. rewrite zlen_cons in *.
    assert (0 ≤ zlen l) by (unfold zlen; lia).
    pose proof (law_put k v p Hwf) as (Hwf1 & Hcap1 & Hk1 & _).
    destruct (law_put_below k v p Hwf ltac:(lia)) as [Ho1 Hl1].
    rewrite (Hfresh k ltac:(set_solver)) in Hl1.
    destruct (IH (cp_put k v p)) as (Hwf2 & Hcap2 & Hlen2 & Hp2); try done; [|lia|].
    { intros k' Hk'. rewrite Ho1; [apply Hfresh; set_solver|]. by intros ->. }
    split_and!; [done|congruence|lia|]. intros k'. rewrite Hp2. case_decide as Hd.
    + subst k'. by rewrite (proj2 (od_get_None k l) Hk).
    + destruct (od_get k' l); [done|]. by apply Ho1.
Qed.

Lemma remove_spec target p v :
  cp_wf p → cp_peek target p = Some v →
  let p' := remove_from_policy target p in
  cp_wf p' ∧ cp_capacity p' = cp_capacity p ∧ cp_len p' = cp_len p - 1 ∧
  ∀ k, cp_peek k p' = if decide (k = target) then None else cp_peek k p.
Proof.
  intros Hwf Hv. unfold remove_from_policy.
  pose proof (drain_spec target (S (Z.to_nat (cp_len p))) p Hwf ltac:(lia)) as Hd.
  destruct (drain _ p target) as [l p1]. destruct Hd as (Hwf1 & Hcap1 & Hl1 & Hok & Hnt & Hget & Hz).
  rewrite Hv in Hz. pose proof (law_bound p Hwf) as [Hb _].
  pose proof (λ k, law_empty p1 Hwf1 Hl1 k) as He.
  destruct (refill_spec l p1 Hwf1 Hok) as (Hwf2 & Hcap2 & Hl2 & Hp2); [done|lia|].
  split_and!; [done|congruence|lia|]. intros k. rewrite Hp2, He. case_decide as Hd.
  - subst. by rewrite (proj2 (od_get_None target l) Hnt).
  - rewrite Hget by done. by destruct (cp_peek k p).
Qed.

(** ** The operations *)
Lemma touch_ok n c h :
  cache_ok n c →
  cache_ok n (set_policy (cp_get h (policy c)).2 c) ∧ (cp_get h (policy c)).1 = hash_to_cpu_block c !! h ∧
  cp_capacity (cp_get h (policy c)).2 = cp_capacity (policy c).
Proof.
  intros [a [C1 C2 C3 C4 C5 C6 C7 C8]]. pose proof (law_get h (policy c) C2) as Hg.
  destruct (cp_get h (policy c)) as [r p]. destruct Hg as (-> & Hwf & Hcap & Hlen & Hpk).
  split_and!; [|apply C3|done]. exists a. constructor; try done.
  - intros h'. cbn [policy set_policy snd]. by rewrite Hpk.
  - cbn [policy set_policy snd]. by rewrite Hlen.
Qed.

Lemma load_spec n c h :
  cache_ok n c →
  ∃ c', load h c = (Ok (hash_to_cpu_block c !! h), c') ∧ cache_ok n c' ∧
        cp_capacity (policy c') = cp_capacity (policy c) ∧ hash_to_cpu_block c' = hash_to_cpu_block c.
Proof.
  intros Hok. destruct (touch_ok n c h Hok) as (Hok' & Hr & Hcap). unfold load. munfold.
  destruct (cp_get h (policy c)) as [r p]. cbn [fst snd] in *. subst r.
  exists (set_policy p c). split_and!; [|done..].
  destruct (hash_to_cpu_block c !! h) as [id|] eqn:E; [|done]. by rewrite decide_True.
Qed.

(** Entering a freshly allocated block. *)
Lemma enter_inv n c a h id l pl a' x :
  cache_inv n c a → hash_to_cpu_block c !! h = None → cp_len (policy c) < cp_capacity (policy c) →
  a_free a = id :: l → pool_view n pl a' → a_free a' = l →
  a_blocks a !! id = Some (0, x) → a_blocks a' = <[id := (1, None)]> (a_blocks a) →
  cache_inv n (mkCache pl (cp_put h id (policy c)) (<[h := id]> (hash_to_cpu_block c))
                 (<[id := h]> (cpu_id_to_hash c))) a'.
Proof.
  intros [C1 C2 C3 C4 C5 C6 C7 C8] Hh Hroom Hfree Hv Hfree' Hx Hbl.
  pose proof (law_put h id _ C2) as (Hwf & _ & Hput & _). destruct (law_put_below h id _ C2 Hroom) as [Ho Hl].
  pose proof (C6 _ _ _ Hx) as Hid. destruct (cpu_id_to_hash c !! id) eqn:Eid; [done|].
  constructor; unfold cache_len in *; cbn [cpu_pool policy hash_to_cpu_block cpu_id_to_hash]; try done.
  - intros h'. destruct (decide (h' = h)) as [->|Hne]; [by rewrite lookup_insert_eq|].
    rewrite lookup_insert_ne, Ho by done. apply C3.
  - rewrite Hl, C3, Hh, map_size_insert_None by done. lia.
  - intros h' id'. rewrite !lookup_insert_Some, C5. split.
    + intros [[-> ->]|[Hne Hi]]; [by left|]. right. split; [|done]. intros ->. congruence.
    + intros [[-> ->]|[Hne Hi]]; [by left|]. right. split; [|done]. intros ->. apply C5 in Hi. congruence.
  - intros id' r y. rewrite Hbl. intros [[<- [= <- _]]|[Hne Hi]]%lookup_insert_Some; [by rewrite lookup_insert_eq|].
    rewrite lookup_insert_ne by done. by eapply C6.
  - intros id'. rewrite Hbl. destruct (decide (id = id')) as [->|Hne]; [rewrite !lookup_insert_eq; eauto|].
    rewrite !lookup_insert_ne by done. apply C7.
  - rewrite Hfree in C8. rewrite Hfree', map_size_insert_None by done. rewrite zlen_cons in C8. lia.
Qed.

Lemma store_spec n c h :
  cache_ok n c →
  ∃ r c', store h c = (Ok r, c') ∧ cache_ok n c' ∧ cp_capacity (policy c') = cp_capacity (policy c) ∧
    hash_to_cpu_block c' !! h = r ∧ (r = None → n < cp_capacity (policy c)) ∧
    (∀ h', h' ≠ h → hash_to_cpu_block c' !! h' = hash_to_cpu_block c !! h' ∨
                    (hash_to_cpu_block c' !! h' = None ∧ cache_len c = cp_capacity (policy c))).
Proof.
  intros Hok. unfold store. munfold. destruct (hash_to_cpu_block c !! h) as [id|] eqn:Eh.
  { destruct (touch_ok n c h Hok) as (Hok' & _ & Hcap). eexists _, _. split_and!; [done|done|done|done|done|].
    intros h' _. by left. }
  destruct (evict_spec n c Hok) as (c1 & Hev & [a Hi] & Hcap & Hroom & Hm). rewrite Hev.
  assert (hash_to_cpu_block c1 !! h = None) as Eh1.
  { destruct Hm as [->|(_ & h' & _ & ->)]; [done|]. apply lookup_delete_None. by right. }
  assert (∀ h', hash_to_cpu_block c1 !! h' = hash_to_cpu_block c !! h' ∨
             (hash_to_cpu_block c1 !! h' = None ∧ cache_len c = cp_capacity (policy c))) as Ho.
  { intros h'. destruct Hm as [->|(Hfull & h0 & _ & ->)]; [by left|].
    destruct (decide (h0 = h')) as [->|Hne]; [right|left; by rewrite lookup_delete_ne].
    rewrite lookup_delete_eq. split; [done|]. destruct Hok as [a0 Hi0]. by rewrite <- (ci_len _ _ _ Hi0). }
  pose proof (view_allocate n _ a (ci_view _ _ _ Hi)) as Hal. destruct (a_free a) as [|id l] eqn:Efree.
  - rewrite Hal. cbn [set_pool]. eexists None, _. split_and!; [done| |done|done| |intros; apply Ho].
    + exists a. destruct Hi. by constructor.
    + intros _. pose proof (ci_count _ _ _ Hi) as Hc. rewrite Efree in Hc.
      change (zlen ([] : list Z)) with 0 in Hc. rewrite <- Hcap, <- Hc, <- (ci_len _ _ _ Hi). lia.
  - destruct Hal as (pl & a' & x & Hal & Hv & Hf' & Hx & Hbl). rewrite Hal. cbn [set_pool set_maps set_policy policy].
    eexists (Some id), _. split_and!; [done| | | |done|].
    + exists a'. by eapply enter_inv.
    + cbn [policy set_policy set_maps set_pool]. rewrite <- Hcap. by apply law_put, (ci_wf _ _ _ Hi).
    + cbn [hash_to_cpu_block set_policy set_maps set_pool]. by rewrite lookup_insert_eq.
    + intros h' Hne. cbn [hash_to_cpu_block set_policy set_maps set_pool]. rewrite lookup_insert_ne by done. apply Ho.
Qed.

Lemma invalidate_spec n c h :
  cache_ok n c →
  ∃ c', invalidate h c = (Ok tt, c') ∧ cache_ok n c' ∧ cp_capacity (policy c') = cp_capacity (policy c) ∧
        hash_to_cpu_block c' = delete h (hash_to_cpu_block c).
Proof.
  intros [a Hi]. unfold invalidate. munfold. destruct (hash_to_cpu_block c !! h) as [id|] eqn:Eh.
  - assert (cp_peek h (policy c) = Some id) as Hp by (by rewrite (ci_peek _ _ _ Hi)).
    destruct (remove_spec h (policy c) id (ci_wf _ _ _ Hi) Hp) as (Hwf & Hcap & Hlen & Hpk).
    destruct (forget_block_inv n c a h id _ Hi Eh Hwf Hpk Hlen) as (c' & Hg & Hok & Hpol & Hm).
    exists c'. cbn [set_maps set_policy policy]. split_and!; [done|done|congruence|done].
  - exists c. split_and!; [done|by exists a|done|]. by rewrite delete_id.
Qed.

(** ** Histories *)
Inductive cache_cmd :=
  | CStore (h : Z)
  | CLoad (h : Z)
  | CInvalidate (h : Z)
  | CEvict.

Definition cache_step (cmd : cache_cmd) : M (CPUBlockCache P) (option Z) :=
  match cmd with
  | CStore h => store h
  | CLoad h => load h
  | CInvalidate h => invalidate h ≫= λ _, mret None
  | CEvict => evict_if_needed ≫= λ _, mret None
  end.

(** The state after a history and the replies; [None] once a call raised. *)
Fixpoint cache_run (cmds : list cache_cmd) c : option (list (option Z) * CPUBlockCache P) :=
  match cmds with
  | [] => Some ([], c)
  | cmd :: cmds =>
      match cache_step cmd c with
      | (Err _, _) => None
      | (Ok r, c) => '(rs, c) ← cache_run cmds c; Some (r :: rs, c)
      end
  end.

Lemma cache_step_ok n c cmd :
  cache_ok n c →
  ∃ r c', cache_step cmd c = (Ok r, c') ∧ cache_ok n c' ∧ cp_capacity (policy c') = cp_capacity (policy c).
Proof.
  intros Hok. destruct cmd as [h|h|h|]; simpl; munfold.
  - destruct (store_spec n c h Hok) as (r & c' & -> & Hok' & Hcap & _). eauto.
  - destruct (load_spec n c h Hok) as (c' & -> & Hok' & Hcap & _). eauto.
  - destruct (invalidate_spec n c h Hok) as (c' & -> & Hok' & Hcap & _). eauto.
  - destruct (evict_spec n c Hok) as (c' & -> & Hok' & Hcap & _). eauto.
Qed.

Lemma cache_run_ok n cmds c :
  cache_ok n c →
  ∃ rs c', cache_run cmds c = Some (rs, c') ∧ cache_ok n c' ∧ cp_capacity (policy c') = cp_capacity (policy c).
Proof.
  revert c. induction cmds as [|cmd cmds IH]; intros c Hok; cbn [cache_run]; [eauto 10|].
  destruct (cache_step_ok n c cmd Hok) as (r & c1 & -> & Hok1 & Hcap1).
  destruct (IH c1 Hok1) as (rs & c2 & -> & Hok2 & Hcap2). eexists _, _. split_and!; [done|done|congruence].
Qed.

Lemma cache_ok_counts n c :
  cache_ok n c →
  num_free_blocks (cpu_pool c) + cache_len c = n ∧ cache_len c ≤ cp_capacity (policy c) ∧
  (∀ h h' id, hash_to_cpu_block c !! h = Some id → hash_to_cpu_block c !! h' = Some id → h = h') ∧
  (∀ h id, hash_to_cpu_block c !! h = Some id → ref_cnt <$> blocks (cpu_pool c) !! id = Some 1).
Proof.
  intros [a Hi]. pose proof (ci_view _ _ _ Hi) as Hv. pose proof Hv as (Hs & _ & _).
  split_and!.
  - rewrite <- (ci_count _ _ _ Hi). by rewrite <- (qi_size _ _ (sim_queue _ _ Hs)).
  - rewrite <- (ci_len _ _ _ Hi). apply law_bound, (ci_wf _ _ _ Hi).
  - intros h h' id. rewrite !(ci_inverse _ _ _ Hi). congruence.
  - intros h id Hh. destruct (cached_block _ _ _ _ _ Hi Hh) as [x Hx].
    rewrite (view_ref n _ _ id Hv), Hx. done.
Qed.
End cache.

(** ** The constructor *)

(** A policy object without entries is false in Python: the constructor replaces
    it by a fresh [LRUPolicy]. *)
Lemma empty_policy_ignored `{CachePolicy P Z Z} pool (p : P) capacity :
  cp_len p = 0 → cache_init pool (Some p) capacity = cache_init pool (None : option P) capacity.
Proof. intros Hp. unfold cache_init, choose_policy. by rewrite Hp. Qed.

Definition policy_empty `{CachePolicy P Z Z} (p : option P) : Prop :=
  match p with Some p => cp_len p = 0 | None => True end.

Lemma cache_init_ok `{CachePolicy P Z Z} n (p : option P) capacity c0 :
  0 ≤ n → policy_empty p → cache_init (pool_init n) p capacity = Ok c0 →
  ∃ c, c0 = inr c ∧ cache_ok n c ∧ cp_capacity (policy c) = resolve_capacity capacity (pool_init n).
Proof.
  intros Hn Hp Hc. assert (cache_init (pool_init n) (None : option P) capacity = Ok c0) as Hi.
  { destruct p as [p|]; [|done]. by rewrite <- (empty_policy_ignored _ p). }
  revert Hi. unfold cache_init, choose_policy, lru_init. set (cap := resolve_capacity _ _).
  destruct (Z.leb_spec cap 0) as [|Hcap]; [done|]. intros [= <-]. eexists. split_and!; [done| |done].
  destruct (init_sim n) as [Hs Ha]. exists (apool_init n).
  constructor; unfold cache_len; cbn [cpu_pool policy hash_to_cpu_block cpu_id_to_hash]; try done.
  - split_and!; [done|done|apply init_domain].
  - constructor; simpl; [apply NoDup_nil_2|done|]. change (zlen ([] : list (Z * Z))) with 0. lia.
  - intros id r x Hx. apply init_lookup in Hx as [_ [= -> ->]]. done.
  - intros id [? ?]. done.
  - simpl. unfold zlen. rewrite length_seqZ. change (size ∅) with 0%nat. lia.
Qed.

(** ** The theorems *)

(** A cache built over a fresh pool without a policy, or with one that has
    no entries, never raises on any history of [store], [load], [invalidate]
    and [evict_if_needed]; afterwards free and cached blocks together are all
    blocks of the pool, the cache is within its capacity, no two hashes share a
    block and every cached block is referenced exactly once. *)
Theorem cpu_cache_accounts `{CachePolicy P Z Z} n (p : option P) capacity c0 cmds :
  0 ≤ n → policy_empty p → cache_init (pool_init n) p capacity = Ok c0 →
  ∃ c rs c', c0 = inr c ∧ cache_run cmds c = Some (rs, c') ∧
    num_free_blocks (cpu_pool c') + cache_len c' = n ∧
    cache_len c' ≤ resolve_capacity capacity (pool_init n) ∧
    (∀ h h' id, hash_to_cpu_block c' !! h = Some id → hash_to_cpu_block c' !! h' = Some id → h = h') ∧
    (∀ h id, hash_to_cpu_block c' !! h = Some id → ref_cnt <$> blocks (cpu_pool c') !! id = Some 1).
Proof.
  intros Hn Hp Hc. destruct (cache_init_ok n p capacity c0 Hn Hp Hc) as (c & -> & Hok & Hcap).
  destruct (cache_run_ok n cmds c Hok) as (rs & c' & Hrun & Hok' & Hcap').
  exists c, rs, c'. destruct (cache_ok_counts n c' Hok') as (? & ? & ? & ?).
  rewrite Hcap', Hcap in *. auto 10.
Qed.

(** After any history, whatever [store] returns for a hash the next [load]
    of it returns; [store] fails only when the capacity exceeds the number of
    blocks; the other hashes keep their blocks, except that a full cache gives
    one up; and [invalidate] forgets the hash it is given and no other. *)
Theorem cpu_cache_store_load `{CachePolicy P Z Z} n (p : option P) capacity c0 cmds h :
  0 ≤ n → policy_empty p → cache_init (pool_init n) p capacity = Ok (inr c0) →
  ∃ rs c, cache_run cmds c0 = Some (rs, c) ∧
    (∃ r c1 c2, store h c = (Ok r, c1) ∧ load h c1 = (Ok r, c2) ∧
       (r = None → n < resolve_capacity capacity (pool_init n)) ∧
       ∀ h', h' ≠ h → (load h' c1).1 = (load h' c).1 ∨
         (load h' c1).1 = Ok None ∧ cache_len c = resolve_capacity capacity (pool_init n)) ∧
    (∃ c3, invalidate h c = (Ok tt, c3) ∧ (load h c3).1 = Ok None ∧
       ∀ h', h' ≠ h → (load h' c3).1 = (load h' c).1).
Proof.
  intros Hn Hp Hc. destruct (cache_init_ok n p capacity _ Hn Hp Hc) as (? & [= ->] & Hok & Hcap).
  destruct (cache_run_ok n cmds _ Hok) as (rs & c & Hrun & Hok' & Hcap'). exists rs, c. split; [done|].
  rewrite Hcap in Hcap'. rewrite <- Hcap'.
  assert (∀ (c' : CPUBlockCache (LRUPolicy Z Z)) h', cache_ok n c' → (load h' c').1 = Ok (hash_to_cpu_block c' !! h')) as Hload.
  { intros c' h' Hc'. destruct (load_spec n c' h' Hc') as (? & -> & _). done. }
  split.
  - destruct (store_spec n c h Hok') as (r & c1 & Hs & Hok1 & Hcap1 & Hh & Hnone & Ho).
    destruct (load_spec n c1 h Hok1) as (c2 & Hl & _). rewrite Hh in Hl. exists r, c1, c2.
    split_and!; [done|done|done|]. intros h' Hne. rewrite !Hload by done.
    destruct (Ho h' Hne) as [->|[-> Hfull]]; [by left|by right].
  - destruct (invalidate_spec n c h Hok') as (c3 & Hi & Hok3 & _ & Hm). exists c3. split; [done|].
    rewrite Hload, Hm, lookup_delete_eq by done. split; [done|]. intros h' Hne.
    by rewrite !Hload, Hm, lookup_delete_ne by done.
Qed.

(** A cache for three blocks; the adaptive policy it is given is ignored. *)
Definition fresh_arc : option (ARCPolicy Z Z) := Some (mkARC 3 0 [] [] [] []).
Definition demo_cache : CPUBlockCache (LRUPolicy Z Z) := mkCache (pool_init 3) (mkLRU 3 []) ∅ ∅.
Definition demo_cmds : list cache_cmd := [CStore 10; CStore 11; CStore 12; CLoad 10; CStore 13; CLoad 11; CInvalidate 12; CStore 14].

Example demo_cache_replies :
  fst <$> cache_run demo_cmds demo_cache =
  Some [Some 0; Some 1; Some 2; Some 0; Some 1; None; None; Some 2].
Proof. vm_compute. reflexivity. Qed.

Lemma cpu_cache_accounts_witness :
  ∃ rs c', cache_run demo_cmds demo_cache = Some (rs, c') ∧ num_free_blocks (cpu_pool c') + cache_len c' = 3.
Proof.
  destruct (cpu_cache_accounts 3 fresh_arc None (inr demo_cache) demo_cmds) as (c & rs & c' & Hc & Hr & Hn & _).
  - lia.
  - reflexivity.
  - vm_compute. reflexivity.
  - injection Hc as <-. exists rs, c'. split; [exact Hr|exact Hn].
Defined.

Lemma cpu_cache_store_load_witness :
  ∃ rs c, cache_run demo_cmds demo_cache = Some (rs, c) ∧
    ∃ r c1 c2, store 11 c = (Ok r, c1) ∧ load 11 c1 = (Ok r, c2).
Proof.
  destruct (cpu_cache_store_load 3 fresh_arc None demo_cache demo_cmds 11)
    as (rs & c & Hr & (r & c1 & c2 & Hs & Hl & _) & _).
  - lia.
  - reflexivity.
  - vm_compute. reflexivity.
  - exists rs, c. split; [exact Hr|]. exists r, c1, c2. split; [exact Hs|exact Hl].
Defined.
