(* ===== verification/KVCacheManager.v ===== *)
(** * The two-tier KV cache manager (memory/kv_cache_manager.py)

    Block tables per sequence over a GPU and a CPU [BlockPool], with the
    two-phase swap protocol (prepare, then commit).  The dicts of allocated
    blocks map an id to the pool's own block object, so they are sets of ids. *)
From S2P Require Import Prelude BlockPool.

Record KVCacheManager := mkMgr {
  mgr_block_size : Z;
  gpu_pool : BlockPool;
  cpu_blocks : BlockPool;                        (** [_cpu_pool] *)
  seq_to_gpu_blocks : gmap string (list Z);
  swap_map_gpu_to_cpu : gmap Z Z;
  seq_to_swapped_gpu_blocks : gmap string (list Z);
  gpu_allocated_blocks : gset Z;
  cpu_allocated_blocks : gset Z
}.

Implicit Types m : KVCacheManager.

Definition set_gpu (p : BlockPool) (alloc : gset Z) m : KVCacheManager :=
  mkMgr (mgr_block_size m) p (cpu_blocks m) (seq_to_gpu_blocks m) (swap_map_gpu_to_cpu m)
    (seq_to_swapped_gpu_blocks m) alloc (cpu_allocated_blocks m).
Definition set_cpu (p : BlockPool) (alloc : gset Z) m : KVCacheManager :=
  mkMgr (mgr_block_size m) (gpu_pool m) p (seq_to_gpu_blocks m) (swap_map_gpu_to_cpu m)
    (seq_to_swapped_gpu_blocks m) (gpu_allocated_blocks m) alloc.
Definition set_tables (t : gmap string (list Z)) m : KVCacheManager :=
  mkMgr (mgr_block_size m) (gpu_pool m) (cpu_blocks m) t (swap_map_gpu_to_cpu m)
    (seq_to_swapped_gpu_blocks m) (gpu_allocated_blocks m) (cpu_allocated_blocks m).
Definition set_swaps (sm : gmap Z Z) (ss : gmap string (list Z)) m : KVCacheManager :=
  mkMgr (mgr_block_size m) (gpu_pool m) (cpu_blocks m) (seq_to_gpu_blocks m) sm ss
    (gpu_allocated_blocks m) (cpu_allocated_blocks m).

(** [__init__] *)
Definition mgr_init (num_gpu_blocks num_cpu_blocks block_size : Z) : KVCacheManager :=
  mkMgr block_size (pool_init num_gpu_blocks) (pool_init num_cpu_blocks) ∅ ∅ ∅ ∅ ∅.

(** [allocate_gpu_block] *)
Definition allocate_gpu_block : M KVCacheManager (option Z) :=
  m ← get;
  let '(blk, p) := allocate_block (gpu_pool m) in
  modify (set_gpu p (match blk with Some id => {[id]} ∪ gpu_allocated_blocks m | None => gpu_allocated_blocks m end))
    ≫= λ _, mret blk.

(** [get_cached_gpu_block] *)
Definition get_cached_gpu_block (h : Z) : M KVCacheManager (option Z) :=
  m ← get;
  let '(blk, p) := get_cached_block h (gpu_pool m) in
  modify (set_gpu p (match blk with Some id => {[id]} ∪ gpu_allocated_blocks m | None => gpu_allocated_blocks m end))
    ≫= λ _, mret blk.

(** [self._gpu_pool.free_block(block)] and its CPU counterpart. *)
Definition gpu_free (id : Z) : M KVCacheManager unit :=
  zoom gpu_pool (λ p m, set_gpu p (gpu_allocated_blocks m) m) (free_block id).
Definition cpu_free (id : Z) : M KVCacheManager unit :=
  zoom cpu_blocks (λ p m, set_cpu p (cpu_allocated_blocks m) m) (free_block id).

(** [release_gpu_block] *)
Definition release_gpu_block (id : Z) : M KVCacheManager unit :=
  gpu_free id ≫= λ _,
  m ← get;
  when (default 0 (ref_cnt <$> blocks (gpu_pool m) !! id) =? 0)
    (modify (set_gpu (gpu_pool m) (gpu_allocated_blocks m ∖ {[id]}))).

(** The allocation loop of [allocate_blocks_for_sequence]: the blocks taken, or
    [None] after giving them back. *)
Fixpoint allocate_gpu_blocks (k : nat) (taken : list Z) : M KVCacheManager (option (list Z)) :=
  match k with
  | O => mret (Some taken)
  | S k' =>
      blk ← allocate_gpu_block;
      match blk with
      | None => for_each taken release_gpu_block ≫= λ _, mret None
      | Some id => allocate_gpu_blocks k' (taken ++ [id])
      end
  end.

(** [set_block_table] *)
Definition set_block_table (seq_id : string) (block_ids : list Z) : M KVCacheManager unit :=
  modify (λ m, set_tables (<[seq_id := block_ids]> (seq_to_gpu_blocks m)) m).

(** [allocate_blocks_for_sequence] *)
Definition allocate_blocks_for_sequence (seq_id : string) (num_tokens : Z) : M KVCacheManager bool :=
  m ← get;
  let num_blocks := - ((- num_tokens) / mgr_block_size m) in
  taken ← allocate_gpu_blocks (Z.to_nat num_blocks) [];
  match taken with
  | None => mret false
  | Some block_ids => set_block_table seq_id block_ids ≫= λ _, mret true
  end.

(** [get_block_table], [get_gpu_block] *)
Definition get_block_table (seq_id : string) m : list Z := default [] (seq_to_gpu_blocks m !! seq_id).
Definition get_gpu_block (id : Z) m : option Z := if decide (id ∈ gpu_allocated_blocks m) then Some id else None.

(** [append_token_block] *)
Definition append_token_block (seq_id : string) : M KVCacheManager bool :=
  blk ← allocate_gpu_block;
  match blk with
  | None => mret false
  | Some id =>
      modify (λ m, set_tables (<[seq_id := get_block_table seq_id m ++ [id]]> (seq_to_gpu_blocks m)) m)
        ≫= λ _, mret true
  end.

(** [cache_gpu_block] *)
Definition cache_gpu_block (id h : Z) : M KVCacheManager unit :=
  modify (λ m, set_gpu (cache_full_block id h (gpu_pool m)) (gpu_allocated_blocks m) m).

(** [block = self._gpu_allocated_blocks.get(id)], released unless [None]. *)
Definition release_tracked (id : Z) : M KVCacheManager unit :=
  m ← get;
  match get_gpu_block id m with
  | None => mret tt
  | Some id => release_gpu_block id
  end.

(** The body of the second loop of [free_sequence]. *)
Definition free_swapped (swapped_gpu_id : Z) : M KVCacheManager unit :=
  m ← get;
  modify (set_swaps (delete swapped_gpu_id (swap_map_gpu_to_cpu m)) (seq_to_swapped_gpu_blocks m)) ≫= λ _,
  match swap_map_gpu_to_cpu m !! swapped_gpu_id with
  | None => mret tt
  | Some cpu_id =>
      modify (λ m, set_cpu (cpu_blocks m) (cpu_allocated_blocks m ∖ {[cpu_id]}) m) ≫= λ _,
      when (bool_decide (cpu_id ∈ cpu_allocated_blocks m)) (cpu_free cpu_id)
  end.

(** [free_sequence] *)
Definition free_sequence (seq_id : string) : M KVCacheManager unit :=
  m ← get;
  modify (set_tables (delete seq_id (seq_to_gpu_blocks m))) ≫= λ _,
  for_each (get_block_table seq_id m) release_tracked ≫= λ _,
  m ← get;
  modify (set_swaps (swap_map_gpu_to_cpu m) (delete seq_id (seq_to_swapped_gpu_blocks m))) ≫= λ _,
  for_each (default [] (seq_to_swapped_gpu_blocks m !! seq_id)) free_swapped.

(** ** Swapping *)

(** [self._cpu_allocated_blocks.pop(id, None)] and [self._cpu_pool.free_block]. *)
Definition untrack_cpu (id : Z) : M KVCacheManager unit :=
  modify (λ m, set_cpu (cpu_blocks m) (cpu_allocated_blocks m ∖ {[id]}) m) ≫= λ _, cpu_free id.

(** The loop of [prepare_swap_out]. *)
Fixpoint swap_out_pairs (gpu_ids : list Z) (pairs : list (Z * Z)) : M KVCacheManager (list (Z * Z)) :=
  match gpu_ids with
  | [] => mret pairs
  | gpu_id :: gpu_ids =>
      m ← get;
      let '(blk, p) := allocate_block (cpu_blocks m) in
      modify (set_cpu p (cpu_allocated_blocks m)) ≫= λ _,
      match blk with
      | None => for_each pairs.*2 untrack_cpu ≫= λ _, mret []
      | Some id =>
          modify (λ m, set_cpu (cpu_blocks m) ({[id]} ∪ cpu_allocated_blocks m) m) ≫= λ _,
          swap_out_pairs gpu_ids (pairs ++ [(gpu_id, id)])
      end
  end.

(** [prepare_swap_out] *)
Definition prepare_swap_out (seq_id : string) : M KVCacheManager (list (Z * Z)) :=
  m ← get; swap_out_pairs (get_block_table seq_id m) [].

(** The body of the loop of [commit_swap_out]. *)
Definition commit_out_pair (pair : Z * Z) : M KVCacheManager unit :=
  modify (λ m, set_swaps (<[pair.1 := pair.2]> (swap_map_gpu_to_cpu m)) (seq_to_swapped_gpu_blocks m) m) ≫= λ _,
  release_tracked pair.1.

(** [commit_swap_out] *)
Definition commit_swap_out (seq_id : string) (pairs : list (Z * Z)) : M KVCacheManager unit :=
  for_each pairs commit_out_pair ≫= λ _,
  modify (λ m, match pairs with
               | [] => m
               | _ => set_swaps (swap_map_gpu_to_cpu m) (<[seq_id := pairs.*1]> (seq_to_swapped_gpu_blocks m)) m
               end) ≫= λ _,
  modify (λ m, set_tables (delete seq_id (seq_to_gpu_blocks m)) m).

(** [self._gpu_allocated_blocks.pop(id, None)] and [self._gpu_pool.free_block]. *)
Definition untrack_gpu (id : Z) : M KVCacheManager unit :=
  modify (λ m, set_gpu (gpu_pool m) (gpu_allocated_blocks m ∖ {[id]}) m) ≫= λ _, gpu_free id.

(** [prepare_swap_in] *)
Fixpoint prepare_swap_in (swapped_gpu_block_ids : list Z) (pairs : list (Z * Z))
    : M KVCacheManager (list (Z * Z)) :=
  match swapped_gpu_block_ids with
  | [] => mret pairs
  | orig_gpu_id :: rest =>
      m ← get;
      match swap_map_gpu_to_cpu m !! orig_gpu_id with
      | None => for_each pairs.*2 untrack_gpu ≫= λ _, mret []
      | Some cpu_id =>
          blk ← allocate_gpu_block;
          match blk with
          | None => for_each pairs.*2 release_gpu_block ≫= λ _, mret []
          | Some id => prepare_swap_in rest (pairs ++ [(cpu_id, id)])
          end
      end
  end.

(** The body of the loop of [commit_swap_in]. *)
Definition commit_in_pair (x : Z * (Z * Z)) : M KVCacheManager unit :=
  let '(orig_gpu_id, (cpu_id, _)) := x in
  m ← get;
  when (bool_decide (cpu_id ∈ cpu_allocated_blocks m)) (untrack_cpu cpu_id) ≫= λ _,
  modify (λ m, set_swaps (delete orig_gpu_id (swap_map_gpu_to_cpu m)) (seq_to_swapped_gpu_blocks m) m).

(** [commit_swap_in] *)
Definition commit_swap_in (seq_id : string) (orig_gpu_block_ids : list Z) (pairs : list (Z * Z))
    : M KVCacheManager unit :=
  let zipped := zip orig_gpu_block_ids pairs in
  for_each zipped commit_in_pair ≫= λ _,
  modify (λ m, set_swaps (swap_map_gpu_to_cpu m) (delete seq_id (seq_to_swapped_gpu_blocks m)) m) ≫= λ _,
  set_block_table seq_id (zipped.*2).*2.

Definition num_free_gpu_blocks m : Z := num_free_blocks (gpu_pool m).
Definition num_free_cpu_blocks m : Z := num_free_blocks (cpu_blocks m).
