(* ===== verification/KVCacheManagerProps.v ===== *)
(** * Block accounting of the two-tier KV cache manager *)
From S2P Require Import Prelude BlockPool BlockPoolProps KVCacheManager.

(** ** Occurrences *)
Definition occ (id : Z) (l : list Z) : Z := zlen (filter (λ i, i = id) l).

Lemma occ_nil id : occ id [] = 0.
Proof. done. Qed.
Lemma occ_cons id x l : occ id (x :: l) = (if decide (x = id) then 1 else 0) + occ id l.
Proof. unfold occ. rewrite filter_cons. case_decide; [rewrite zlen_cons; lia|lia]. Qed.
Lemma occ_nonneg id l : 0 ≤ occ id l.
Proof. unfold occ, zlen. lia. Qed.
Lemma occ_pos id l : 0 < occ id l ↔ id ∈ l.
Proof.
  induction l as [|x l IH]; [rewrite occ_nil; split; [lia|by intros ?%not_elem_of_nil]|]. rewrite occ_cons, elem_of_cons.
  pose proof (occ_nonneg id l). case_decide; [subst; split; [by left|lia]|].
  rewrite <- IH. split; [right; lia|]. intros [?|?]; [congruence|lia].
Qed.
Lemma occ_zero id l : occ id l = 0 ↔ id ∉ l.
Proof. rewrite <- occ_pos. pose proof (occ_nonneg id l). lia. Qed.
#[export] Instance occ_proper id : Proper ((≡ₚ) ==> (=)) (occ id).
Proof. intros l l' Hl. unfold occ, zlen. by rewrite Hl. Qed.

(** The blocks all tables hold together. *)
Definition held (t : gmap string (list Z)) : list Z := concat (map_to_list t).*2.

Lemma held_insert t k l : t !! k = None → held (<[k := l]> t) ≡ₚ l ++ held t.
Proof. intros Hk. unfold held. by rewrite map_to_list_insert. Qed.
Lemma held_delete t k : held t ≡ₚ default [] (t !! k) ++ held (delete k t).
Proof.
  destruct (t !! k) as [l|] eqn:E; simpl; [|by rewrite delete_id].
  rewrite <- (insert_delete_id t k l E) at 1. apply held_insert. apply lookup_delete_eq.
Qed.

(** ** The GPU side: every reference is accounted for

    [gpu_inv n m L]: the pool's reference counts are the numbers of occurrences
    in [L], the references held by the block tables and by the caller. *)
Record gpu_inv (n : Z) (m : KVCacheManager) (L : list Z) : Prop := {
  gi_pool : ∃ a, pool_view n (gpu_pool m) a ∧ ∀ id r h, a_blocks a !! id = Some (r, h) → r = occ id L;
  gi_tracked : ∀ id, id ∈ gpu_allocated_blocks m ↔ id ∈ L;
  gi_range : ∀ id, id ∈ L → 0 ≤ id < n
}.

(** Only the GPU side changed. *)
Definition gpu_change (m m' : KVCacheManager) : Prop :=
  m' = set_gpu (gpu_pool m') (gpu_allocated_blocks m') m.
#[export] Instance gpu_change_preorder : PreOrder gpu_change.
Proof.
  split; [by intros []|]. intros m1 m2 m3 H1 H2. unfold gpu_change in *. rewrite H2, H1. done.
Qed.

#[export] Instance gpu_inv_proper n m : Proper ((≡ₚ) ==> iff) (gpu_inv n m).
Proof.
  assert (∀ L L', L ≡ₚ L' → gpu_inv n m L → gpu_inv n m L') as Hl.
  { intros L L' Hl [(a & Hv & Hr) H2 H3]. constructor.
    - exists a. split; [done|]. intros. rewrite <- Hl. eauto.
    - intros id. by rewrite <- Hl.
    - intros id. rewrite <- Hl. apply H3. }
  intros L L' Hp. split; apply Hl; by rewrite Hp.
Qed.

Lemma gpu_inv_lookup n m L id :
  gpu_inv n m L → 0 ≤ id < n → ∃ a h, pool_view n (gpu_pool m) a ∧ a_blocks a !! id = Some (occ id L, h) ∧
    ∀ id r h, a_blocks a !! id = Some (r, h) → r = occ id L.
Proof.
  intros [(a & Hv & Hr) _ _] Hid. destruct Hv as (? & ? & Hd). destruct (proj2 (Hd id) Hid) as [[r h] Hx].
  exists a, h. split_and!; [done| |done]. rewrite Hx. by rewrite (Hr id r h).
Qed.

(** Reference counts after the count of [id] changed by [d]. *)
Lemma refs_update (b : gmap Z (Z * option Z)) id x L L' :
  (∀ i r h, b !! i = Some (r, h) → r = occ i L) →
  x.1 = occ id L' → (∀ i, i ≠ id → occ i L' = occ i L) →
  ∀ i r h, <[id := x]> b !! i = Some (r, h) → r = occ i L'.
Proof.
  intros Hb Hx Ho i r h [[<- ->]|[Hne Hi]]%lookup_insert_Some; [done|]. rewrite Ho by done. eauto.
Qed.

Lemma occ_cons_ne i id L : i ≠ id → occ i (id :: L) = occ i L.
Proof. intros Hne. rewrite occ_cons, decide_False by done. lia. Qed.

Lemma allocate_gpu_spec n m L :
  gpu_inv n m L →
  ∃ r m', allocate_gpu_block m = (Ok r, m') ∧ gpu_change m m' ∧
    match r with
    | Some id => gpu_inv n m' (id :: L) ∧ id ∉ L
    | None => gpu_inv n m' L ∧ num_free_gpu_blocks m = 0
    end.
Proof.
  intros [(a & Hv & Hr) Ht Hrg]. unfold allocate_gpu_block, num_free_gpu_blocks. munfold.
  pose proof (view_allocate n _ a Hv) as Hal. destruct (a_free a) as [|id l] eqn:Ef.
  - rewrite Hal. eexists None, _. split_and!; [done|done| |rewrite (view_num_free _ _ _ Hv), Ef; done].
    constructor; [by exists a|done|done].
  - destruct Hal as (p' & a' & h & -> & Hv' & _ & Hx & Hb). eexists (Some id), _. split_and!; [done|done| |].
    + pose proof (Hr _ _ _ Hx) as Hz. constructor.
      * exists a'. split; [done|]. rewrite Hb. eapply refs_update; [done| |intros; by apply occ_cons_ne].
        rewrite occ_cons, decide_True by done. simpl. lia.
      * intros i. simpl. rewrite elem_of_union, elem_of_singleton, elem_of_cons, Ht. done.
      * intros i [->|Hi]%elem_of_cons; [|by apply Hrg]. destruct Hv as (_ & _ & Hd). apply Hd. eauto.
    + apply occ_zero. symmetry. by eapply Hr.
Qed.

Lemma cached_gpu_spec n m L h :
  gpu_inv n m L →
  ∃ r m', get_cached_gpu_block h m = (Ok r, m') ∧ gpu_change m m' ∧
    match r with Some id => gpu_inv n m' (id :: L) | None => gpu_inv n m' L end.
Proof.
  intros [(a & Hv & Hr) Ht Hrg]. unfold get_cached_gpu_block. munfold.
  destruct (view_get_cached n _ a h Hv) as (r & p' & -> & Hc). eexists r, _. split_and!; [done|done|].
  destruct r as [id|].
  - destruct Hc as (a' & k & Hv' & Hx & Hb). constructor.
    + exists a'. split; [done|]. rewrite Hb. eapply refs_update; [done| |intros; by apply occ_cons_ne].
      rewrite occ_cons, decide_True, <- (Hr _ _ _ Hx) by done. simpl. lia.
    + intros i. simpl. rewrite elem_of_union, elem_of_singleton, elem_of_cons, Ht. done.
    + intros i [->|Hi]%elem_of_cons; [|by apply Hrg]. destruct Hv as (_ & _ & Hd). apply Hd. eauto.
  - subst p'. constructor; [by exists a|done|done].
Qed.

Lemma gpu_free_spec n m id L :
  gpu_inv n m (id :: L) →
  ∃ p' a', gpu_free id m = (Ok tt, set_gpu p' (gpu_allocated_blocks m) m) ∧ pool_view n p' a' ∧
           ∀ i r h, a_blocks a' !! i = Some (r, h) → r = occ i L.
Proof.
  intros Hg. destruct (gpu_inv_lookup n m _ id Hg) as (a & h & Hv & Hx & Hr).
  { apply (gi_range _ _ _ Hg). set_solver. }
  pose proof (occ_nonneg id L). rewrite occ_cons, decide_True in Hx by done.
  destruct (view_free n _ a id _ h Hv Hx) as (p' & a' & Hf & Hv' & _ & Hb); [lia|].
  exists p', a'. unfold gpu_free, zoom. rewrite Hf. split_and!; [done|done|]. rewrite Hb.
  eapply refs_update; [done|simpl; lia|]. intros i Hne. symmetry. by apply occ_cons_ne.
Qed.

Lemma release_gpu_spec n m id L :
  gpu_inv n m (id :: L) →
  ∃ m', release_gpu_block id m = (Ok tt, m') ∧ gpu_change m m' ∧ gpu_inv n m' L.
Proof.
  intros Hg. destruct (gpu_free_spec n m id L Hg) as (p' & a' & Hf & Hv & Hr).
  unfold release_gpu_block. munfold. rewrite Hf. cbn [gpu_pool set_gpu].
  assert (0 ≤ id < n) as Hid by (apply (gi_range _ _ _ Hg); set_solver).
  pose proof Hv as (_ & _ & Hd). destruct (proj2 (Hd id) Hid) as [[r h] Hx].
  rewrite (view_ref n _ _ id Hv), Hx. pose proof (Hr _ _ _ Hx) as ->.
  change (default 0 (fst <$> Some (occ id L, h))) with (occ id L).
  assert (∀ i, i ∈ L → 0 ≤ i < n) as Hrg by (intros; apply (gi_range _ _ _ Hg); set_solver).
  destruct (Z.eqb_spec (occ id L) 0) as [Hz|Hz]; eexists; (split_and!; [done|done|]); constructor;
    try (by exists a'); try done; intros i; cbn [gpu_allocated_blocks set_gpu].
  - rewrite elem_of_difference, elem_of_singleton, (gi_tracked _ _ _ Hg), elem_of_cons.
    apply occ_zero in Hz. split; [tauto|]. intros Hi. split; [by right|]. by intros ->.
  - rewrite (gi_tracked _ _ _ Hg), elem_of_cons. split; [|by right]. intros [->|?]; [|done].
    apply occ_pos. pose proof (occ_nonneg id L). lia.
Qed.

(** A reference no one else holds, dropped without [release_gpu_block]. *)
Lemma untrack_gpu_spec n m id L :
  gpu_inv n m (id :: L) → id ∉ L →
  ∃ m', untrack_gpu id m = (Ok tt, m') ∧ gpu_change m m' ∧ gpu_inv n m' L.
Proof.
  intros Hg HL. unfold untrack_gpu. munfold.
  assert (∀ al, gpu_free id (set_gpu (gpu_pool m) al m) =
    let '(r, m') := gpu_free id m in (r, set_gpu (gpu_pool m') al m)) as Hal.
  { intros al. unfold gpu_free, zoom. cbn [gpu_pool set_gpu]. by destruct (free_block id (gpu_pool m)). }
  rewrite Hal. destruct (gpu_free_spec n m id L Hg) as (p' & a' & -> & Hv & Hr).
  eexists. split_and!; [done|done|]. constructor; [by exists a'| |].
  - intros i. simpl. rewrite elem_of_difference, elem_of_singleton, (gi_tracked _ _ _ Hg), elem_of_cons.
    split; [tauto|]. intros Hi. split; [by right|]. by intros ->.
  - intros i Hi. apply (gi_range _ _ _ Hg). set_solver.
Qed.

(** Dropping a list of references, in any of the three ways. *)
Lemma drop_refs n (drop1 : Z → M KVCacheManager unit) (ok : Z → list Z → Prop) l m L :
  (∀ m id L, gpu_inv n m (id :: L) → ok id L →
     ∃ m', drop1 id m = (Ok tt, m') ∧ gpu_change m m' ∧ gpu_inv n m' L) →
  gpu_inv n m (l ++ L) → (∀ l1 id l2, l = l1 ++ id :: l2 → ok id (l2 ++ L)) →
  ∃ m', for_each l drop1 m = (Ok tt, m') ∧ gpu_change m m' ∧ gpu_inv n m' L.
Proof.
  intros H1. revert m. induction l as [|id l IH]; intros m Hg Hok; [by exists m|].
  cbn [for_each]. munfold. simpl in Hg.
  destruct (H1 m id (l ++ L) Hg) as (m1 & -> & Hc & Hg1); [by apply (Hok [])|].
  destruct (IH m1 Hg1) as (m2 & Hf & Hc2 & Hg2); [intros l1 i l2 ->; by apply (Hok (id :: l1))|].
  munfold in Hf. rewrite Hf. exists m2. split_and!; [done|by etrans|done].
Qed.

Lemma release_all n l m L :
  gpu_inv n m (l ++ L) →
  ∃ m', for_each l release_gpu_block m = (Ok tt, m') ∧ gpu_change m m' ∧ gpu_inv n m' L.
Proof. intros Hg. eapply (drop_refs n _ (λ _ _, True)); [|done|done]. intros; by apply release_gpu_spec. Qed.

Lemma release_tracked_spec n m id L :
  gpu_inv n m (id :: L) →
  ∃ m', release_tracked id m = (Ok tt, m') ∧ gpu_change m m' ∧ gpu_inv n m' L.
Proof.
  intros Hg. unfold release_tracked, get_gpu_block. munfold. rewrite decide_True; [by apply release_gpu_spec|].
  apply (gi_tracked _ _ _ Hg). set_solver.
Qed.

Lemma release_tracked_all n l m L :
  gpu_inv n m (l ++ L) →
  ∃ m', for_each l release_tracked m = (Ok tt, m') ∧ gpu_change m m' ∧ gpu_inv n m' L.
Proof. intros Hg. eapply (drop_refs n _ (λ _ _, True)); [|done|done]. intros; by apply release_tracked_spec. Qed.

Lemma untrack_gpu_all n l m L :
  gpu_inv n m (l ++ L) → NoDup l → (∀ id, id ∈ l → id ∉ L) →
  ∃ m', for_each l untrack_gpu m = (Ok tt, m') ∧ gpu_change m m' ∧ gpu_inv n m' L.
Proof.
  intros Hg Hnd HL. eapply (drop_refs n _ (λ id L, id ∉ L)); [|done|].
  - intros; by apply untrack_gpu_spec.
  - intros l1 id l2 ->. apply NoDup_app in Hnd as (_ & _ & [Hid _]%NoDup_cons).
    rewrite not_elem_of_app. split; [done|]. apply HL. set_solver.
Qed.

(** [allocate_gpu_blocks] takes all the blocks or none. *)
Lemma allocate_gpu_blocks_spec n k taken m L :
  gpu_inv n m (taken ++ L) → NoDup taken → (∀ id, id ∈ taken → id ∉ L) →
  ∃ r m', allocate_gpu_blocks k taken m = (Ok r, m') ∧ gpu_change m m' ∧
    match r with
    | Some ids => gpu_inv n m' (ids ++ L) ∧ length ids = (length taken + k)%nat ∧ NoDup ids ∧
                  (∀ id, id ∈ ids → id ∉ L)
    | None => gpu_inv n m' L
    end.
Proof.
  revert taken m. induction k as [|k IH]; intros taken m Hg Hnd HL; cbn [allocate_gpu_blocks]; munfold.
  - exists (Some taken), m. split_and!; [done|done|done|lia|done|done].
  - destruct (allocate_gpu_spec n m _ Hg) as (r & m1 & -> & Hc1 & Hr). destruct r as [id|].
    + destruct Hr as [Hg1 Hid]. rewrite not_elem_of_app in Hid.
      destruct (IH (taken ++ [id]) m1) as (r & m2 & -> & Hc2 & Hr).
      * rewrite <- app_assoc. cbn [app]. by rewrite <- Permutation_middle.
      * apply NoDup_app. split_and!; [done|set_solver|apply NoDup_singleton].
      * intros i. rewrite elem_of_app, list_elem_of_singleton. intros [Hi| ->]; [by apply HL|tauto].
      * exists r, m2. split_and!; [done|by etrans|]. destruct r as [ids|]; [|done].
        rewrite length_app in Hr. simpl in Hr. destruct Hr as (? & ? & ? & ?). split_and!; [done|lia|done|done].
    + destruct Hr as [Hg1 _]. destruct (release_all n taken m1 L Hg1) as (m2 & -> & Hc2 & Hg2).
      exists None, m2. split_and!; [done|by etrans|done].
Qed.

(** ** The CPU side *)
Record cpu_inv (n : Z) (m : KVCacheManager) : Prop := {
  cpi_pool : ∃ a, pool_view n (cpu_blocks m) a ∧
    ∀ id r h, a_blocks a !! id = Some (r, h) → r = if decide (id ∈ cpu_allocated_blocks m) then 1 else 0;
  cpi_range : ∀ id, id ∈ cpu_allocated_blocks m → 0 ≤ id < n
}.

(** Only the CPU side changed. *)
Definition cpu_change (m m' : KVCacheManager) : Prop :=
  m' = set_cpu (cpu_blocks m') (cpu_allocated_blocks m') m.
#[export] Instance cpu_change_preorder : PreOrder cpu_change.
Proof.
  split; [by intros []|]. intros m1 m2 m3 H1 H2. unfold cpu_change in *. rewrite H2, H1. done.
Qed.

Lemma cpu_inv_frame n m m' :
  cpu_blocks m' = cpu_blocks m → cpu_allocated_blocks m' = cpu_allocated_blocks m → cpu_inv n m → cpu_inv n m'.
Proof. intros H1 H2 []. constructor; by rewrite ?H1, ?H2. Qed.
Lemma gpu_inv_frame n m m' L :
  gpu_pool m' = gpu_pool m → gpu_allocated_blocks m' = gpu_allocated_blocks m → gpu_inv n m L → gpu_inv n m' L.
Proof. intros H1 H2 []. constructor; by rewrite ?H1, ?H2. Qed.

Lemma untrack_cpu_spec n m id :
  cpu_inv n m → id ∈ cpu_allocated_blocks m →
  ∃ m', untrack_cpu id m = (Ok tt, m') ∧ cpu_change m m' ∧ cpu_inv n m' ∧
        cpu_allocated_blocks m' = cpu_allocated_blocks m ∖ {[id]}.
Proof.
  intros [(a & Hv & Hr) Hrg] Hid. unfold untrack_cpu, cpu_free, zoom. munfold. cbn [cpu_blocks set_cpu].
  pose proof Hv as (_ & _ & Hd). destruct (proj2 (Hd id) (Hrg id Hid)) as [[r h] Hx].
  pose proof (Hr _ _ _ Hx) as Hr1. rewrite decide_True in Hr1 by done. subst r.
  destruct (view_free n _ a id 1 h Hv Hx) as (p' & a' & -> & Hv' & _ & Hb); [lia|].
  eexists. split_and!; [done|done| |done]. constructor; simpl.
  - exists a'. split; [done|]. intros i r h'. rewrite Hb.
    intros [[<- [= <- _]]|[Hne Hi]]%lookup_insert_Some; [rewrite decide_False; set_solver|].
    rewrite (Hr _ _ _ Hi). do 2 case_decide; set_solver.
  - intros i Hi. apply Hrg. set_solver.
Qed.

Lemma untrack_cpu_all n l m :
  cpu_inv n m → NoDup l → (∀ id, id ∈ l → id ∈ cpu_allocated_blocks m) →
  ∃ m', for_each l untrack_cpu m = (Ok tt, m') ∧ cpu_change m m' ∧ cpu_inv n m' ∧
        cpu_allocated_blocks m' = cpu_allocated_blocks m ∖ list_to_set l.
Proof.
  revert m. induction l as [|id l IH]; intros m Hi Hnd Hl; cbn [for_each]; munfold.
  { exists m. split_and!; [done|done|done|set_solver]. }
  apply NoDup_cons in Hnd as [Hid Hnd].
  destruct (untrack_cpu_spec n m id Hi) as (m1 & -> & Hc1 & Hi1 & Ha1); [apply Hl; set_solver|].
  destruct (IH m1 Hi1 Hnd) as (m2 & Hf & Hc2 & Hi2 & Ha2).
  { intros i Hin. rewrite Ha1. apply elem_of_difference. split; [apply Hl; set_solver|set_solver]. }
  munfold in Hf. rewrite Hf. exists m2. split_and!; [done|by etrans|done|]. rewrite Ha2, Ha1. set_solver.
Qed.

Lemma swap_out_pairs_spec n ids pairs m :
  cpu_inv n m → NoDup pairs.*2 → (∀ id, id ∈ pairs.*2 → id ∈ cpu_allocated_blocks m) →
  ∃ r m', swap_out_pairs ids pairs m = (Ok r, m') ∧ cpu_change m m' ∧ cpu_inv n m' ∧
    ((r = [] ∧ cpu_allocated_blocks m' = cpu_allocated_blocks m ∖ list_to_set pairs.*2) ∨
     (r.*1 = pairs.*1 ++ ids ∧ NoDup r.*2 ∧ pairs `prefix_of` r ∧
      (∀ id, id ∈ cpu_allocated_blocks m' ↔ id ∈ cpu_allocated_blocks m ∨ id ∈ r.*2) ∧
      ∀ id, id ∈ r.*2 → id ∈ pairs.*2 ∨ id ∉ cpu_allocated_blocks m)).
Proof.
  revert pairs m. induction ids as [|g ids IH]; intros pairs m Hi Hnd Hp; cbn [swap_out_pairs]; munfold.
  { exists pairs, m. split_and!; [done|done|done|]. right. rewrite app_nil_r. split_and!; try done; [naive_solver|tauto]. }
  pose proof Hi as [(a & Hv & Hr) Hrg]. pose proof (view_allocate n _ a Hv) as Hal.
  destruct (a_free a) as [|id l] eqn:Ef.
  - rewrite Hal. set (m1 := set_cpu (cpu_blocks m) _ m). assert (m1 = m) as -> by (by destruct m).
    destruct (untrack_cpu_all n pairs.*2 m Hi Hnd Hp) as (m2 & -> & Hc2 & Hi2 & Ha2).
    exists [], m2. split_and!; [done|done|done|by left].
  - destruct Hal as (p' & a' & h & -> & Hv' & _ & Hx & Hb). cbn [cpu_blocks set_cpu cpu_allocated_blocks].
    set (m1 := set_cpu p' ({[id]} ∪ cpu_allocated_blocks m) _).
    assert (id ∉ cpu_allocated_blocks m) as Hid.
    { intros Hin. pose proof (Hr _ _ _ Hx) as H0. by rewrite decide_True in H0. }
    assert (cpu_inv n m1) as Hi1.
    { constructor; simpl.
      - exists a'. split; [done|]. intros i r h'. rewrite Hb.
        intros [[<- [= <- _]]|[Hne Hl]]%lookup_insert_Some; [rewrite decide_True; set_solver|].
        rewrite (Hr _ _ _ Hl). do 2 case_decide; set_solver.
      - intros i [->%elem_of_singleton|Hin]%elem_of_union; [|by apply Hrg].
        destruct Hv as (_ & _ & Hd). apply Hd. eauto. }
    destruct (IH (pairs ++ [(g, id)]) m1 Hi1) as (r & m2 & Hs & Hc & Hi2 & Hres).
    + rewrite fmap_app. apply NoDup_app. split_and!; [done| |apply NoDup_singleton].
      intros i Hin. simpl. rewrite list_elem_of_singleton. intros ->. by apply Hid, Hp.
    + intros i. rewrite fmap_app, elem_of_app. simpl. rewrite list_elem_of_singleton.
      intros [Hin| ->]; [|set_solver]. apply elem_of_union_r. by apply Hp.
    + rewrite Hs. exists r, m2. split_and!; [done| |done|].
      { etrans; [|exact Hc]. by destruct m. }
      destruct Hres as [[-> Ha2]|(H1 & H2 & H3 & H4 & H5)]; [left|right].
      * split; [done|]. rewrite Ha2, fmap_app. simpl. set_solver.
      * rewrite fmap_app in H1. simpl in H1. rewrite <- app_assoc in H1. simpl in H1.
        assert ((g, id) ∈ r) as Hin by (destruct H3 as [r' ->]; set_solver).
        apply (list_elem_of_fmap_2 snd) in Hin. simpl in Hin.
        split_and!; [done|done|by etrans; [|exact H3]; eexists| |].
        -- intros i. rewrite H4. simpl. rewrite elem_of_union, elem_of_singleton. naive_solver.
        -- intros i Hi'. destruct (H5 i Hi') as [Hin'|Hni]; [|right; set_solver].
           rewrite fmap_app, elem_of_app in Hin'. simpl in Hin'. rewrite list_elem_of_singleton in Hin'.
           destruct Hin' as [?| ->]; [by left|by right].
Qed.

(** ** The manager

    [mgr_inv ng nc m E]: the references in [E], held by the caller, and those
    of the block tables are exactly the reference counts of the GPU pool; a CPU
    block is referenced, once, exactly when it is tracked. *)
Definition mgr_inv (ng nc : Z) (m : KVCacheManager) (E : list Z) : Prop :=
  gpu_inv ng m (E ++ held (seq_to_gpu_blocks m)) ∧ cpu_inv nc m.

#[export] Instance mgr_inv_proper ng nc m : Proper ((≡ₚ) ==> iff) (mgr_inv ng nc m).
Proof. intros E E' HE. unfold mgr_inv. by rewrite HE. Qed.

Lemma mgr_inv_gpu_change ng nc m m' E E' :
  mgr_inv ng nc m E → gpu_change m m' → gpu_inv ng m' (E' ++ held (seq_to_gpu_blocks m)) → mgr_inv ng nc m' E'.
Proof.
  intros [_ Hc] -> Hg. split; [done|]. by apply (cpu_inv_frame _ m).
Qed.

Lemma mgr_init_inv ng nc bs : mgr_inv ng nc (mgr_init ng nc bs) [].
Proof.
  split; constructor; simpl.
  - exists (apool_init ng). split; [apply view_init|]. intros id r h [_ [= -> _]]%init_lookup. done.
  - set_solver.
  - set_solver.
  - exists (apool_init nc). split; [apply view_init|]. intros id r h [_ [= -> _]]%init_lookup. done.
  - set_solver.
Qed.

Lemma set_block_table_inv ng nc m E seq ids :
  mgr_inv ng nc m (ids ++ E) → seq_to_gpu_blocks m !! seq = None →
  ∃ m', set_block_table seq ids m = (Ok tt, m') ∧ mgr_inv ng nc m' E ∧
        m' = set_tables (<[seq := ids]> (seq_to_gpu_blocks m)) m.
Proof.
  intros [Hg Hc] Hs. eexists. split_and!; [done| |done]. split; [|by apply (cpu_inv_frame _ m)].
  simpl. rewrite held_insert by done. apply (gpu_inv_frame _ m); [done|done|].
  by rewrite (assoc_L (++)), (Permutation_app_comm E).
Qed.

(** [allocate_blocks_for_sequence] on a sequence without a table. *)
Lemma allocate_blocks_inv ng nc m E seq tokens :
  mgr_inv ng nc m E → seq_to_gpu_blocks m !! seq = None →
  ∃ r m', allocate_blocks_for_sequence seq tokens m = (Ok r, m') ∧ mgr_inv ng nc m' E ∧
    if r then ∃ ids, seq_to_gpu_blocks m' = <[seq := ids]> (seq_to_gpu_blocks m) ∧ NoDup ids ∧
                     zlen ids = Z.max 0 (- ((- tokens) / mgr_block_size m))
    else seq_to_gpu_blocks m' = seq_to_gpu_blocks m.
Proof.
  intros Hi Hs. unfold allocate_blocks_for_sequence. munfold.
  destruct (allocate_gpu_blocks_spec ng (Z.to_nat (- ((- tokens) / mgr_block_size m))) [] m
              (E ++ held (seq_to_gpu_blocks m))) as (r & m1 & -> & Hc & Hr).
  { apply Hi. } { apply NoDup_nil_2. } { set_solver. }
  destruct r as [ids|].
  - destruct Hr as (Hg & Hl & Hnd & _). rewrite (assoc_L (++)) in Hg.
    assert (seq_to_gpu_blocks m1 = seq_to_gpu_blocks m) as Ht by (by rewrite Hc).
    destruct (set_block_table_inv ng nc m1 E seq ids) as (m2 & Hset & Hi2 & ->).
    { by eapply mgr_inv_gpu_change. } { by rewrite Ht. }
    munfold in Hset. unfold set_block_table. munfold. eexists true, _. split_and!; [done|done|].
    exists ids. simpl. rewrite Ht. split_and!; [done|done|]. unfold zlen. rewrite Hl. simpl. lia.
  - eexists false, m1. split_and!; [done|by eapply mgr_inv_gpu_change|]. by rewrite Hc.
Qed.

Lemma append_token_block_inv ng nc m E seq :
  mgr_inv ng nc m E →
  ∃ r m', append_token_block seq m = (Ok r, m') ∧ mgr_inv ng nc m' E ∧
    if r then ∃ id, seq_to_gpu_blocks m' = <[seq := get_block_table seq m ++ [id]]> (seq_to_gpu_blocks m)
    else seq_to_gpu_blocks m' = seq_to_gpu_blocks m.
Proof.
  intros Hi. unfold append_token_block. munfold.
  destruct (allocate_gpu_spec ng m _ (proj1 Hi)) as (r & m1 & -> & Hc & Hr). destruct r as [id|].
  - destruct Hr as [Hg _]. eexists true, _. split_and!; [done| |].
    + split; [|apply (cpu_inv_frame _ m); [by rewrite Hc|by rewrite Hc|apply Hi]]. simpl.
      assert (seq_to_gpu_blocks m1 = seq_to_gpu_blocks m) as -> by (by rewrite Hc).
      apply (gpu_inv_frame _ m1); [done|done|]. rewrite <- insert_delete_eq, held_insert by apply lookup_delete_eq.
      assert (get_block_table seq m1 = get_block_table seq m) as -> by (by rewrite Hc).
      rewrite (held_delete _ seq) in Hg. unfold get_block_table.
      revert Hg. apply gpu_inv_proper. solve_Permutation.
    + exists id. simpl. by rewrite Hc.
  - eexists false, m1. split_and!; [done|eapply mgr_inv_gpu_change; [done|done|apply Hr]|]. by rewrite Hc.
Qed.

(** What a change of the CPU side and the swap records leaves alone. *)
Definition gpu_side (m : KVCacheManager) :=
  (mgr_block_size m, gpu_pool m, gpu_allocated_blocks m, seq_to_gpu_blocks m).

Lemma mgr_inv_cpu_change ng nc m m' E :
  mgr_inv ng nc m E → gpu_side m' = gpu_side m → cpu_inv nc m' → mgr_inv ng nc m' E.
Proof.
  unfold gpu_side. intros [Hg _] [= _ H2 H3 H4] Hc. split; [|done]. rewrite H4. by apply (gpu_inv_frame _ m).
Qed.

Lemma free_swapped_spec n g m :
  cpu_inv n m →
  ∃ m', free_swapped g m = (Ok tt, m') ∧ cpu_inv n m' ∧ gpu_side m' = gpu_side m.
Proof.
  intros Hi. unfold free_swapped. munfold. cbn [swap_map_gpu_to_cpu set_swaps].
  set (m1 := set_swaps _ _ m). assert (cpu_inv n m1) as Hi1 by (by apply (cpu_inv_frame _ m)).
  destruct (swap_map_gpu_to_cpu m !! g) as [c|]; [|eauto].
  case_bool_decide as Hc.
  - destruct (untrack_cpu_spec n m1 c Hi1 Hc) as (m2 & Hu & Hch & Hi2 & _).
    unfold untrack_cpu in Hu. munfold in Hu. exists m2. split_and!; [done|done|]. by rewrite Hch.
  - eexists. split_and!; [done| |done]. apply (cpu_inv_frame _ m); [done|simpl; set_solver|done].
Qed.

Lemma free_swapped_all n l m :
  cpu_inv n m →
  ∃ m', for_each l free_swapped m = (Ok tt, m') ∧ cpu_inv n m' ∧ gpu_side m' = gpu_side m.
Proof.
  revert m. induction l as [|g l IH]; intros m Hi; cbn [for_each]; munfold; [eauto|].
  destruct (free_swapped_spec n g m Hi) as (m1 & -> & Hi1 & Hs1).
  destruct (IH m1 Hi1) as (m2 & Hf & Hi2 & Hs2). munfold in Hf. rewrite Hf.
  exists m2. split_and!; [done|done|congruence].
Qed.

Lemma free_sequence_inv ng nc m E seq :
  mgr_inv ng nc m E →
  ∃ m', free_sequence seq m = (Ok tt, m') ∧ mgr_inv ng nc m' E ∧
        seq_to_gpu_blocks m' = delete seq (seq_to_gpu_blocks m) ∧ mgr_block_size m' = mgr_block_size m.
Proof.
  intros [Hg Hc]. unfold free_sequence. munfold.
  set (m1 := set_tables _ m).
  destruct (release_tracked_all ng (get_block_table seq m) m1 (E ++ held (delete seq (seq_to_gpu_blocks m))))
    as (m2 & Hr & Hch & Hg2).
  { apply (gpu_inv_frame _ m); [done|done|]. revert Hg. apply gpu_inv_proper.
    rewrite (held_delete (seq_to_gpu_blocks m) seq). unfold get_block_table. solve_Permutation. }
  munfold in Hr. rewrite Hr.
  assert (cpu_inv nc m2) as Hc2 by (apply (cpu_inv_frame _ m); [by rewrite Hch|by rewrite Hch|done]).
  set (m3 := set_swaps _ _ m2). assert (cpu_inv nc m3) as Hc3 by (by apply (cpu_inv_frame _ m2)).
  destruct (free_swapped_all nc (default [] (seq_to_swapped_gpu_blocks m2 !! seq)) m3 Hc3) as (m4 & Hf & Hc4 & Hs4).
  munfold in Hf. rewrite Hf. exists m4.
  assert (gpu_side m4 = gpu_side m2) as Hs by done. split_and!; [done| | |].
  - eapply mgr_inv_cpu_change; [|exact Hs|done].
    split; [|done]. assert (seq_to_gpu_blocks m2 = delete seq (seq_to_gpu_blocks m)) as -> by (by rewrite Hch). done.
  - unfold gpu_side in Hs. injection Hs as _ _ _ ->. by rewrite Hch.
  - unfold gpu_side in Hs. injection Hs as -> _ _ _. by rewrite Hch.
Qed.

(** ** Swapping out *)
Lemma prepare_swap_out_inv ng nc m E seq :
  mgr_inv ng nc m E →
  ∃ r m', prepare_swap_out seq m = (Ok r, m') ∧ mgr_inv ng nc m' E ∧ gpu_side m' = gpu_side m ∧
    swap_map_gpu_to_cpu m' = swap_map_gpu_to_cpu m ∧
    ((r = [] ∧ cpu_allocated_blocks m' = cpu_allocated_blocks m) ∨
     (r.*1 = get_block_table seq m ∧ NoDup r.*2 ∧
      (∀ id, id ∈ cpu_allocated_blocks m' ↔ id ∈ cpu_allocated_blocks m ∨ id ∈ r.*2) ∧
      ∀ id, id ∈ r.*2 → id ∉ cpu_allocated_blocks m)).
Proof.
  intros Hi. unfold prepare_swap_out. munfold.
  destruct (swap_out_pairs_spec nc (get_block_table seq m) [] m (proj2 Hi)) as (r & m' & Hs & Hch & Hc & Hr).
  { apply NoDup_nil_2. } { set_solver. }
  exists r, m'. split_and!; [done|by eapply mgr_inv_cpu_change; [done|by rewrite Hch|]|by rewrite Hch|by rewrite Hch|].
  destruct Hr as [[-> Ha]|(H1 & H2 & _ & H4 & H5)]; [left|right]; split_and!; try done; [set_solver|].
  intros id Hid. destruct (H5 id Hid); set_solver.
Qed.

Lemma commit_out_pair_spec ng nc m g c L :
  gpu_inv ng m (g :: L) → cpu_inv nc m →
  ∃ m', commit_out_pair (g, c) m = (Ok tt, m') ∧ gpu_inv ng m' L ∧ cpu_inv nc m' ∧
    seq_to_gpu_blocks m' = seq_to_gpu_blocks m ∧ mgr_block_size m' = mgr_block_size m ∧
    swap_map_gpu_to_cpu m' = <[g := c]> (swap_map_gpu_to_cpu m) ∧
    cpu_allocated_blocks m' = cpu_allocated_blocks m.
Proof.
  intros Hg Hc. unfold commit_out_pair. munfold. set (m1 := set_swaps _ _ m).
  destruct (release_tracked_spec ng m1 g L) as (m2 & Hr & Hch & Hg2); [by apply (gpu_inv_frame _ m)|].
  munfold in Hr. exists m2. cbn [fst snd]. split_and!; [done|done| |by rewrite Hch..].
  apply (cpu_inv_frame _ m); [by rewrite Hch|by rewrite Hch|done].
Qed.

Lemma commit_out_all ng nc pairs m L :
  gpu_inv ng m (pairs.*1 ++ L) → cpu_inv nc m →
  ∃ m', for_each pairs commit_out_pair m = (Ok tt, m') ∧ gpu_inv ng m' L ∧ cpu_inv nc m' ∧
    seq_to_gpu_blocks m' = seq_to_gpu_blocks m ∧ mgr_block_size m' = mgr_block_size m ∧
    swap_map_gpu_to_cpu m' = foldl (λ sm p, <[p.1 := p.2]> sm) (swap_map_gpu_to_cpu m) pairs ∧
    cpu_allocated_blocks m' = cpu_allocated_blocks m.
Proof.
  revert m. induction pairs as [|[g c] pairs IH]; intros m Hg Hc; cbn [for_each]; munfold.
  { exists m. split_and!; done. }
  destruct (commit_out_pair_spec ng nc m g c (pairs.*1 ++ L) Hg Hc) as (m1 & -> & Hg1 & Hc1 & H1 & H2 & H3 & H4).
  destruct (IH m1 Hg1 Hc1) as (m2 & Hf & Hg2 & Hc2 & H5 & H6 & H7 & H8). munfold in Hf. rewrite Hf.
  exists m2. split_and!; [done|done|done|congruence|congruence|by rewrite H7, H3|congruence].
Qed.

Lemma commit_swap_out_inv ng nc m E seq pairs :
  mgr_inv ng nc m E → pairs.*1 = get_block_table seq m →
  ∃ m', commit_swap_out seq pairs m = (Ok tt, m') ∧ mgr_inv ng nc m' E ∧
    seq_to_gpu_blocks m' = delete seq (seq_to_gpu_blocks m) ∧ mgr_block_size m' = mgr_block_size m ∧
    swap_map_gpu_to_cpu m' = foldl (λ sm p, <[p.1 := p.2]> sm) (swap_map_gpu_to_cpu m) pairs ∧
    cpu_allocated_blocks m' = cpu_allocated_blocks m.
Proof.
  intros [Hg Hc] Hp. unfold commit_swap_out. munfold.
  destruct (commit_out_all ng nc pairs m (E ++ held (delete seq (seq_to_gpu_blocks m)))) as
    (m1 & Hf & Hg1 & Hc1 & H1 & H2 & H3 & H4); [|done|].
  { revert Hg. apply gpu_inv_proper. rewrite Hp, (held_delete (seq_to_gpu_blocks m) seq). unfold get_block_table.
    solve_Permutation. }
  munfold in Hf. rewrite Hf. eexists. split_and!; [done| |destruct pairs; simpl in *; congruence..].
  split.
  - assert (∀ mm, gpu_pool mm = gpu_pool m1 → gpu_allocated_blocks mm = gpu_allocated_blocks m1 →
       seq_to_gpu_blocks mm = delete seq (seq_to_gpu_blocks m1) →
       gpu_inv ng mm (E ++ held (seq_to_gpu_blocks mm))) as Hx.
    { intros mm Hm1 Hm2 Hm3. rewrite Hm3, H1. by apply (gpu_inv_frame _ m1). }
    apply Hx; by destruct pairs.
  - apply (cpu_inv_frame _ m1); [by destruct pairs|by destruct pairs|done].
Qed.

(** ** Swapping in *)
Lemma prepare_swap_in_spec n ids pairs m L :
  gpu_inv n m (pairs.*2 ++ L) → NoDup pairs.*2 → (∀ id, id ∈ pairs.*2 → id ∉ L) →
  ∃ r m', prepare_swap_in ids pairs m = (Ok r, m') ∧ gpu_change m m' ∧
    ((r = [] ∧ gpu_inv n m' L) ∨
     ∃ cpus, mapM (λ g, swap_map_gpu_to_cpu m !! g) ids = Some cpus ∧ r.*1 = pairs.*1 ++ cpus ∧
             gpu_inv n m' (r.*2 ++ L) ∧ NoDup r.*2).
Proof.
  revert pairs m. induction ids as [|g ids IH]; intros pairs m Hg Hnd HL; cbn [prepare_swap_in]; munfold.
  { exists pairs, m. split_and!; [done|done|]. right. exists []. split_and!; [done|by rewrite app_nil_r|done|done]. }
  destruct (swap_map_gpu_to_cpu m !! g) as [c|] eqn:Eg.
  - destruct (allocate_gpu_spec n m _ Hg) as (r & m1 & -> & Hc1 & Hr). destruct r as [id|].
    + destruct Hr as [Hg1 Hid]. rewrite not_elem_of_app in Hid.
      destruct (IH (pairs ++ [(c, id)]) m1) as (r & m2 & Hp & Hc2 & Hr).
      * rewrite fmap_app. cbn [fmap list_fmap snd]. revert Hg1. apply gpu_inv_proper. solve_Permutation.
      * rewrite fmap_app. apply NoDup_app. split_and!; [done|set_solver|apply NoDup_singleton].
      * intros i. rewrite fmap_app, elem_of_app. cbn [fmap list_fmap snd]. rewrite list_elem_of_singleton.
        intros [Hi| ->]; [by apply HL|tauto].
      * munfold in Hp. rewrite Hp. exists r, m2. split_and!; [done|by etrans|].
        destruct Hr as [?|(cpus & H1 & H2 & H3)]; [by left|right]. exists (c :: cpus).
        assert (swap_map_gpu_to_cpu m1 = swap_map_gpu_to_cpu m) as E1 by (by rewrite Hc1). rewrite E1 in H1.
        split_and!; [|by rewrite H2, fmap_app, <- app_assoc|apply H3|apply H3].
        apply mapM_Some_2. apply mapM_Some_1 in H1. by constructor.
    + destruct Hr as [Hg1 _]. destruct (release_all n pairs.*2 m1 L Hg1) as (m2 & Hf & Hc2 & Hg2).
      munfold in Hf. rewrite Hf. exists [], m2. split_and!; [done|by etrans|by left].
  - destruct (untrack_gpu_all n pairs.*2 m L Hg Hnd HL) as (m2 & Hf & Hc2 & Hg2).
    munfold in Hf. rewrite Hf. exists [], m2. split_and!; [done|done|by left].
Qed.

Lemma prepare_swap_in_inv ng nc m E ids :
  mgr_inv ng nc m E →
  ∃ r m', prepare_swap_in ids [] m = (Ok r, m') ∧ mgr_inv ng nc m' (r.*2 ++ E) ∧ gpu_change m m' ∧
    (r = [] ∨ mapM (λ g, swap_map_gpu_to_cpu m !! g) ids = Some r.*1).
Proof.
  intros Hi. destruct (prepare_swap_in_spec ng ids [] m (E ++ held (seq_to_gpu_blocks m))) as (r & m' & Hp & Hc & Hr).
  { apply Hi. } { apply NoDup_nil_2. } { set_solver. }
  exists r, m'. split_and!; [done| |done|].
  - eapply mgr_inv_gpu_change; [done|done|]. destruct Hr as [[-> Hg]|(cpus & _ & _ & Hg & _)]; [done|].
    by rewrite (assoc_L (++)) in Hg.
  - destruct Hr as [[-> _]|(cpus & H1 & H2 & _)]; [by left|right]. by rewrite H2.
Qed.

Lemma commit_in_pair_spec n x m :
  cpu_inv n m →
  ∃ m', commit_in_pair x m = (Ok tt, m') ∧ cpu_inv n m' ∧ gpu_side m' = gpu_side m ∧
        cpu_allocated_blocks m' = cpu_allocated_blocks m ∖ {[x.2.1]}.
Proof.
  destruct x as [g [c id]]. intros Hi. unfold commit_in_pair. munfold. case_bool_decide as Hc.
  - destruct (untrack_cpu_spec n m c Hi Hc) as (m1 & -> & Hch & Hi1 & Ha). eexists. split_and!; [done| | |done].
    + by apply (cpu_inv_frame _ m1).
    + by rewrite Hch.
  - eexists. split_and!; [done|by apply (cpu_inv_frame _ m)|done|simpl; set_solver].
Qed.

Lemma commit_in_all n l m :
  cpu_inv n m →
  ∃ m', for_each l commit_in_pair m = (Ok tt, m') ∧ cpu_inv n m' ∧ gpu_side m' = gpu_side m ∧
        cpu_allocated_blocks m' = cpu_allocated_blocks m ∖ list_to_set l.*2.*1.
Proof.
  revert m. induction l as [|x l IH]; intros m Hi; cbn [for_each]; munfold.
  { exists m. split_and!; [done|done|done|set_solver]. }
  destruct (commit_in_pair_spec n x m Hi) as (m1 & -> & Hi1 & Hs1 & Ha1).
  destruct (IH m1 Hi1) as (m2 & Hf & Hi2 & Hs2 & Ha2). munfold in Hf. rewrite Hf.
  exists m2. split_and!; [done|done|congruence|]. rewrite Ha2, Ha1. set_solver.
Qed.

Lemma commit_swap_in_inv ng nc m E seq ids pairs :
  mgr_inv ng nc m (pairs.*2 ++ E) → seq_to_gpu_blocks m !! seq = None → length ids = length pairs →
  ∃ m', commit_swap_in seq ids pairs m = (Ok tt, m') ∧ mgr_inv ng nc m' E ∧
    seq_to_gpu_blocks m' = <[seq := pairs.*2]> (seq_to_gpu_blocks m) ∧ mgr_block_size m' = mgr_block_size m ∧
    cpu_allocated_blocks m' = cpu_allocated_blocks m ∖ list_to_set pairs.*1.
Proof.
  intros Hi Hs Hl. unfold commit_swap_in. munfold.
  assert ((zip ids pairs).*2 = pairs) as Hz by (apply snd_zip; lia). rewrite Hz.
  destruct (commit_in_all nc (zip ids pairs) m (proj2 Hi)) as (m1 & Hf & Hc1 & Hs1 & Ha1).
  munfold in Hf. rewrite Hf. set (m2 := set_swaps _ _ m1).
  assert (gpu_side m2 = gpu_side m) as Hs2 by done.
  destruct (set_block_table_inv ng nc m2 E seq pairs.*2) as (m3 & Hset & Hi3 & ->).
  { eapply mgr_inv_cpu_change; [done|done|]. by apply (cpu_inv_frame _ m1). }
  { unfold gpu_side in Hs2. injection Hs2 as _ _ _ E4. cbn in *. by rewrite E4. }
  munfold in Hset. unfold gpu_side in Hs1. injection Hs1 as E1 _ _ E4.
  eexists. split_and!; [exact Hset|done|..]; unfold m2; cbn; [by rewrite E4|done|by rewrite Ha1, Hz].
Qed.

(** ** Free blocks *)
Lemma gpu_free_list n m L :
  gpu_inv n m L →
  ∃ l, NoDup l ∧ num_free_gpu_blocks m = zlen l ∧ ∀ id, id ∈ l ↔ 0 ≤ id < n ∧ id ∉ L.
Proof.
  intros [(a & Hv & Hr) _ _]. exists (a_free a). pose proof Hv as (_ & Ha & Hd).
  split_and!; [apply (ao_nodup _ Ha)|apply (view_num_free _ _ _ Hv)|]. intros id.
  rewrite (ao_free _ Ha). split.
  - intros [h Hx]. split; [apply Hd; eauto|]. apply occ_zero. symmetry. by eapply Hr.
  - intros [[[r h] Hx]%Hd HL]. pose proof (Hr _ _ _ Hx) as ->. apply occ_zero in HL. rewrite HL in Hx. eauto.
Qed.

(** The number of free blocks is determined by the blocks referenced. *)
Lemma free_count_eq n m m' L L' :
  gpu_inv n m L → gpu_inv n m' L' → (∀ id, id ∈ L ↔ id ∈ L') → num_free_gpu_blocks m = num_free_gpu_blocks m'.
Proof.
  intros H1 H2 HL. destruct (gpu_free_list n m L H1) as (l & Hl & -> & Hi).
  destruct (gpu_free_list n m' L' H2) as (l' & Hl' & -> & Hi'). unfold zlen. f_equal.
  apply Permutation_length, NoDup_Permutation; [done|done|]. intros id. rewrite Hi, Hi', HL. done.
Qed.

Lemma free_count_cons n m m' id L :
  gpu_inv n m L → gpu_inv n m' (id :: L) → id ∉ L → num_free_gpu_blocks m = num_free_gpu_blocks m' + 1.
Proof.
  intros H1 H2 HL. destruct (gpu_free_list n m L H1) as (l & Hl & -> & Hi).
  destruct (gpu_free_list n m' _ H2) as (l' & Hl' & -> & Hi').
  assert (l ≡ₚ id :: l') as Hp.
  { apply NoDup_Permutation; [done| |].
    - apply NoDup_cons. split; [|done]. rewrite Hi'. set_solver.
    - intros i. rewrite elem_of_cons, Hi, Hi', elem_of_cons. destruct (decide (i = id)) as [->|]; [|tauto].
      split; [by left|]. intros _. split; [|done]. apply (gi_range _ _ _ H2). set_solver. }
  unfold zlen. rewrite Hp. simpl. lia.
Qed.

Lemma allocate_gpu_blocks_succeeds n k taken m L :
  gpu_inv n m (taken ++ L) → Z.of_nat k ≤ num_free_gpu_blocks m →
  ∃ ids m', allocate_gpu_blocks k taken m = (Ok (Some ids), m').
Proof.
  revert taken m. induction k as [|k IH]; intros taken m Hg Hk; cbn [allocate_gpu_blocks]; munfold; [eauto|].
  destruct (allocate_gpu_spec n m _ Hg) as (r & m1 & -> & Hc1 & Hr). destruct r as [id|]; [|lia].
  destruct Hr as [Hg1 Hid]. pose proof (free_count_cons n m m1 id _ Hg Hg1 Hid).
  apply IH; [|lia]. revert Hg1. apply gpu_inv_proper. solve_Permutation.
Qed.

Lemma allocate_gpu_blocks_needs n k taken m L ids m' :
  gpu_inv n m (taken ++ L) → allocate_gpu_blocks k taken m = (Ok (Some ids), m') →
  Z.of_nat k ≤ num_free_gpu_blocks m.
Proof.
  revert taken m. induction k as [|k IH]; intros taken m Hg; cbn [allocate_gpu_blocks]; munfold.
  { destruct (gpu_free_list n m _ Hg) as (l & _ & -> & _). unfold zlen. lia. }
  destruct (allocate_gpu_spec n m _ Hg) as (r & m1 & -> & Hc1 & Hr). destruct r as [id|].
  - destruct Hr as [Hg1 Hid]. pose proof (free_count_cons n m m1 id _ Hg Hg1 Hid) as Hn.
    intros Hrun. munfold in Hrun. assert (gpu_inv n m1 ((taken ++ [id]) ++ L)) as Hg2
      by (revert Hg1; apply gpu_inv_proper; solve_Permutation).
    specialize (IH (taken ++ [id]) m1 Hg2 Hrun). lia.
  - destruct Hr as [Hg1 _]. destruct (release_all n taken m1 L Hg1) as (m2 & Hf & _). munfold in Hf.
    by rewrite Hf.
Qed.

Lemma foldl_insert_notin (pairs : list (Z * Z)) (sm : gmap Z Z) g :
  g ∉ pairs.*1 → foldl (λ sm p, <[p.1 := p.2]> sm) sm pairs !! g = sm !! g.
Proof.
  revert sm. induction pairs as [|[g1 c1] pairs IH]; intros sm Hg; [done|].
  cbn [foldl fst snd]. rewrite IH by set_solver. apply lookup_insert_ne. set_solver.
Qed.

Lemma foldl_insert_lookup (pairs : list (Z * Z)) (sm : gmap Z Z) g c :
  NoDup pairs.*1 → (g, c) ∈ pairs → foldl (λ sm p, <[p.1 := p.2]> sm) sm pairs !! g = Some c.
Proof.
  revert sm. induction pairs as [|[g1 c1] pairs IH]; intros sm Hnd; [by intros ?%not_elem_of_nil|].
  apply NoDup_cons in Hnd as [Hg Hnd]. intros [[= -> ->]|Hin]%elem_of_cons; [|by apply IH].
  cbn [foldl fst snd]. rewrite foldl_insert_notin by done. apply lookup_insert_eq.
Qed.

(** ** The theorems *)

(** [allocate_blocks_for_sequence], for a sequence without a table, gives it
    exactly [ceil(num_tokens / block_size)] distinct blocks when that many are
    free and returns [True]; otherwise it returns [False] with as many free
    blocks as before and no table changed. It never raises. *)
Theorem allocate_blocks_all_or_nothing ng nc m seq num_tokens :
  mgr_inv ng nc m [] → seq_to_gpu_blocks m !! seq = None → 0 ≤ num_tokens → 0 < mgr_block_size m →
  let k := - ((- num_tokens) / mgr_block_size m) in
  ∃ r m', allocate_blocks_for_sequence seq num_tokens m = (Ok r, m') ∧ mgr_inv ng nc m' [] ∧
    r = bool_decide (k ≤ num_free_gpu_blocks m) ∧
    if r then ∃ ids, seq_to_gpu_blocks m' = <[seq := ids]> (seq_to_gpu_blocks m) ∧ NoDup ids ∧ zlen ids = k
    else seq_to_gpu_blocks m' = seq_to_gpu_blocks m ∧ num_free_gpu_blocks m' = num_free_gpu_blocks m.
Proof.
  intros Hi Hs Ht Hb k. destruct (allocate_blocks_inv ng nc m [] seq num_tokens Hi Hs) as (r & m' & Hrun & Hi' & Hr).
  assert (0 ≤ k) as Hk by (unfold k; assert ((- num_tokens) / mgr_block_size m ≤ 0); [apply Z.div_le_upper_bound|]; lia).
  exists r, m'. split_and!; [done|done| |].
  - revert Hrun. unfold allocate_blocks_for_sequence. munfold. fold k.
    destruct (allocate_gpu_blocks (Z.to_nat k) [] m) as [[[ids|]|e] m1] eqn:Ea; intros [= <- _].
    + rewrite bool_decide_true; [done|].
      pose proof (allocate_gpu_blocks_needs ng (Z.to_nat k) [] m _ ids m1 (proj1 Hi) Ea). lia.
    + rewrite bool_decide_false; [done|]. intros Hle.
      destruct (allocate_gpu_blocks_succeeds ng (Z.to_nat k) [] m _ (proj1 Hi)) as (ids & m2 & Hx); [lia|]. congruence.
  - destruct r.
    + destruct Hr as (ids & H1 & H2 & H3). exists ids. split_and!; [done|done|]. fold k in H3. lia.
    + split; [done|]. eapply free_count_eq; [apply Hi'|apply Hi|]. by rewrite Hr.
Qed.

(** After a sequence with distinct blocks was swapped out, a [prepare_swap_in]
    of its block ids in any later state whose swap map still has the entries the
    swap-out wrote pairs the new GPU blocks with the very CPU blocks the
    swap-out had assigned, in order, unless it returns no pairs. *)
Theorem swap_in_finds_swapped_blocks ng nc m seq pairs m1 m2 m3 :
  mgr_inv ng nc m [] → NoDup (get_block_table seq m) →
  prepare_swap_out seq m = (Ok pairs, m1) → pairs ≠ [] → commit_swap_out seq pairs m1 = (Ok tt, m2) →
  mgr_inv ng nc m3 [] →
  (∀ g, g ∈ pairs.*1 → swap_map_gpu_to_cpu m3 !! g = swap_map_gpu_to_cpu m2 !! g) →
  ∃ pairs' m4, prepare_swap_in pairs.*1 [] m3 = (Ok pairs', m4) ∧ mgr_inv ng nc m4 pairs'.*2 ∧
    (pairs' = [] ∨ (pairs'.*1 = pairs.*2 ∧ NoDup pairs'.*2)).
Proof.
  intros Hi Hnd Hp Hne Hc Hi3 Hsm.
  destruct (prepare_swap_out_inv ng nc m [] seq Hi) as (r & m1' & Hp' & Hi1 & Hs1 & Hsm1 & Hr).
  rewrite Hp in Hp'. injection Hp' as <- <-.
  destruct Hr as [[-> _]|(H1 & H2 & _ & _)]; [done|].
  destruct (commit_swap_out_inv ng nc m1 [] seq pairs Hi1) as (m2' & Hc' & _ & _ & _ & Hm2 & _).
  { rewrite H1. unfold get_block_table. unfold gpu_side in Hs1. injection Hs1 as _ _ _ E4. by rewrite E4. }
  rewrite Hc in Hc'. injection Hc' as <-.
  assert (NoDup pairs.*1) as Hnd1 by (by rewrite H1).
  assert (∀ g c, (g, c) ∈ pairs → swap_map_gpu_to_cpu m2 !! g = Some c) as Hlook.
  { intros g c. rewrite Hm2. by apply foldl_insert_lookup. }
  destruct (prepare_swap_in_spec ng pairs.*1 [] m3 ([] ++ held (seq_to_gpu_blocks m3))) as (r & m4 & Hr & Hch & Hres).
  { apply Hi3. } { apply NoDup_nil_2. } { set_solver. }
  exists r, m4. split; [done|].
  destruct Hres as [[-> Hg]|(cpus & Hcp & Hr1 & Hg & Hnd4)].
  - split; [|by left]. by apply (mgr_inv_gpu_change ng nc m3 m4 [] []).
  - split; [by apply (mgr_inv_gpu_change ng nc m3 m4 [] r.*2)|right]. split; [|done].
    rewrite Hr1. simpl. clear -Hcp Hsm Hlook. apply mapM_Some_1 in Hcp.
    revert cpus Hcp. induction pairs as [|[g c] pairs IH]; intros cpus Hcp; inversion Hcp; subst; [done|].
    cbn [fmap list_fmap fst snd] in *. f_equal.
    + rewrite Hsm, (Hlook g c) in H1 by set_solver. congruence.
    + apply IH; [intros; apply Hsm; set_solver|intros; apply Hlook; set_solver|done].
Qed.

(** Two blocks on the GPU, four on the CPU. *)
Definition mgr_demo : KVCacheManager := mgr_init 2 4 16.
Definition mgr_demo_a : KVCacheManager := (allocate_blocks_for_sequence "a" 20 mgr_demo).2.
Definition swap_out_now (seq : string) (m : KVCacheManager) : KVCacheManager :=
  match prepare_swap_out seq m with
  | (Ok pairs, m1) => (commit_swap_out seq pairs m1).2
  | (Err _, m1) => m1
  end.

(** The swap map is keyed by GPU block ids, which are reused: when [b] is
    given the blocks of the swapped-out [a] and is swapped out too, swapping [a]
    back in is told to copy the CPU blocks of [b], and freeing [a] gives the CPU
    blocks of [b] back to the pool while those of [a] stay allocated. *)
Theorem swap_in_reads_another_sequence :
  (prepare_swap_out "a" mgr_demo_a).1 = Ok [(0, 0); (1, 1)] ∧
  let mb := swap_out_now "b" (allocate_blocks_for_sequence "b" 20 (swap_out_now "a" mgr_demo_a)).2 in
  (prepare_swap_in [0; 1] [] mb).1 = Ok [(2, 0); (3, 1)] ∧
  cpu_allocated_blocks (free_sequence "a" mb).2 = {[0; 1]}.
Proof. vm_compute. split_and!; reflexivity. Qed.

Lemma allocate_blocks_all_or_nothing_witness :
  ∃ r m', allocate_blocks_for_sequence "a" 20 mgr_demo = (Ok r, m') ∧
    r = bool_decide (2 ≤ num_free_gpu_blocks mgr_demo).
Proof.
  destruct (allocate_blocks_all_or_nothing 2 4 mgr_demo "a" 20) as (r & m' & H1 & _ & H3 & _).
  - apply mgr_init_inv.
  - reflexivity.
  - lia.
  - reflexivity.
  - exists r, m'. split; [exact H1|exact H3].
Defined.

Lemma swap_out_inv ng nc m seq :
  mgr_inv ng nc m [] → (prepare_swap_out seq m).1 ≠ Ok [] → mgr_inv ng nc (swap_out_now seq m) [].
Proof.
  intros Hi Hne. unfold swap_out_now.
  destruct (prepare_swap_out_inv ng nc m [] seq Hi) as (r & m1 & Hp & Hi1 & Hs & _ & Hr). rewrite Hp in *.
  destruct Hr as [[-> _]|[Hr _]]; [done|].
  destruct (commit_swap_out_inv ng nc m1 [] seq r Hi1) as (m2 & -> & Hi2 & _); [|done].
  rewrite Hr. unfold get_block_table. unfold gpu_side in Hs. injection Hs as _ _ _ E4. by rewrite E4.
Qed.

Lemma mgr_demo_a_inv : mgr_inv 2 4 mgr_demo_a [].
Proof.
  destruct (allocate_blocks_inv 2 4 mgr_demo [] "a" 20 (mgr_init_inv 2 4 16) eq_refl) as (r & m' & Hr & Hi & _).
  unfold mgr_demo_a. by rewrite Hr.
Qed.

Lemma swap_in_finds_swapped_blocks_witness :
  ∃ pairs' m4, prepare_swap_in [0; 1] [] (swap_out_now "a" mgr_demo_a) = (Ok pairs', m4) ∧
    (pairs' = [] ∨ (pairs'.*1 = [0; 1] ∧ NoDup pairs'.*2)).
Proof.
  destruct (swap_in_finds_swapped_blocks 2 4 mgr_demo_a "a" [(0, 0); (1, 1)]
              (prepare_swap_out "a" mgr_demo_a).2 (swap_out_now "a" mgr_demo_a) (swap_out_now "a" mgr_demo_a))
    as (r & m4 & H1 & _ & H3).
  - exact mgr_demo_a_inv.
  - apply (bool_decide_unpack _). vm_compute. exact I.
  - vm_compute. reflexivity.
  - discriminate.
  - vm_compute. reflexivity.
  - apply swap_out_inv; [exact mgr_demo_a_inv|]. vm_compute. discriminate.
  - intros g _. reflexivity.
  - exists r, m4. split; [exact H1|exact H3].
Defined.
