(* ===== verification/EngineTypes.v ===== *)
(** * Requests of the offline engine and their registry
    (engine/types.py, engine/request_manager.py) *)
From S2P Require Import Prelude PyCollections.
From Stdlib Require Import QArith.
Import OrderedDict.
Open Scope Z_scope.

(** ** engine/types.py *)
Inductive SequenceStatus := WAITING | RUNNING | SWAPPED | FINISHED_STOPPED | FINISHED_LENGTH.

#[export] Instance SequenceStatus_eq_dec : EqDecision SequenceStatus.
Proof. solve_decision. Defined.

Record SamplingParams := mkSampling {
  temperature : Q;
  top_p : Q;
  top_k : Z;
  max_tokens : Z;
  stop_sequences : list string
}.
Definition default_sampling : SamplingParams := mkSampling 1 1 0 256 [].

Record Request := mkRequest {
  request_id : string;
  prompt_token_ids : list Z;
  sampling_params : SamplingParams;
  status : SequenceStatus;
  arrival_time : Q
}.

Definition with_status (s : SequenceStatus) (r : Request) : Request :=
  mkRequest (request_id r) (prompt_token_ids r) (sampling_params r) s (arrival_time r).

(** [allowed_transitions.get(status, set())] *)
Definition allowed_transitions (s : SequenceStatus) : list SequenceStatus :=
  match s with
  | WAITING => [RUNNING; FINISHED_STOPPED]
  | RUNNING => [SWAPPED; FINISHED_STOPPED; FINISHED_LENGTH]
  | SWAPPED => [WAITING; FINISHED_STOPPED]
  | _ => []
  end.

(** [Request.transition_to] *)
Definition transition_to (new_status : SequenceStatus) : M Request unit :=
  r ← get;
  raise_if (negb (bool_decide (new_status ∈ allowed_transitions (status r)))) ValueError ≫= λ _,
  modify (with_status new_status).

Definition is_finished (s : SequenceStatus) : bool :=
  match s with FINISHED_STOPPED | FINISHED_LENGTH => true | _ => false end.

(** ** engine/request_manager.py

    The dict of requests in insertion order; the lock makes every method one
    step. *)
Definition RequestManager : Type := list (string * Request).
Implicit Types rm : RequestManager.

(** [add_request]; [fresh] is [str(uuid.uuid4())] and [now] [time.time()].  An
    empty id is false in Python and is replaced. *)
Definition add_request (prompt : list Z) (sp : option SamplingParams) (rid : option string)
    (fresh : string) (now : Q) : M RequestManager string :=
  let rid := match rid with
             | Some i => if decide (i = "") then fresh else i
             | None => fresh
             end in
  rm ← get;
  raise_if (od_mem rid rm) ValueError ≫= λ _,
  modify (od_set rid (mkRequest rid prompt (default default_sampling sp) WAITING now)) ≫= λ _,
  mret rid.

(** [get_request] *)
Definition get_request (rid : string) rm : option Request := od_get rid rm.

(** [req.transition_to(s)] on the object stored under an id, if any. *)
Definition transition_request (rid : string) (s : SequenceStatus) : M RequestManager unit := λ rm,
  match od_get rid rm with
  | None => (Ok tt, rm)
  | Some r => let '(x, r') := transition_to s r in (x, od_set rid r' rm)
  end.

(** [abort_request]: an invalid transition is ignored. *)
Definition abort_request (rid : string) : M RequestManager unit :=
  try_pass (λ e, bool_decide (e = ValueError)) (transition_request rid FINISHED_STOPPED).

(** [finish_request] *)
Definition finish_request (rid : string) (reason : SequenceStatus) : M RequestManager unit :=
  raise_if (negb (is_finished reason)) ValueError ≫= λ _, transition_request rid reason.

(** [get_waiting_requests], [get_running_requests], [get_swapped_requests] *)
Definition get_requests (s : SequenceStatus) rm : list Request := filter (λ r, status r = s) rm.*2.
Definition get_waiting_requests := get_requests WAITING.
Definition get_running_requests := get_requests RUNNING.
Definition get_swapped_requests := get_requests SWAPPED.

(** [get_active_count] *)
Definition get_active_count rm : Z :=
  zlen (filter (λ r, status r ∈ [WAITING; RUNNING; SWAPPED]) rm.*2).

(** [remove_finished] *)
Definition remove_finished : M RequestManager Z :=
  rm ← get;
  let ids := (filter (λ p : string * Request, is_finished (status p.2) = true) rm).*1 in
  modify (λ rm, foldl (λ d i, od_del i d) rm ids) ≫= λ _,
  mret (zlen ids).

(** ** Properties of the registry *)
Definition rm_ok rm : Prop := od_ok rm ∧ ∀ rid r, od_get rid rm = Some r → request_id r = rid.

Inductive rm_call : Type :=
  | RAdd (prompt : list Z) (sp : option SamplingParams) (rid : option string) (fresh : string) (now : Q)
  | RTransition (rid : string) (s : SequenceStatus)
  | RAbort (rid : string)
  | RFinish (rid : string) (s : SequenceStatus)
  | RRemove.

(** The registry after a call, whether it returned or raised. *)
Definition rm_step (c : rm_call) rm : RequestManager :=
  match c with
  | RAdd prompt sp rid fresh now => (add_request prompt sp rid fresh now rm).2
  | RTransition rid s => (transition_request rid s rm).2
  | RAbort rid => (abort_request rid rm).2
  | RFinish rid s => (finish_request rid s rm).2
  | RRemove => (remove_finished rm).2
  end.

Lemma od_get_foldl_del (l : list string) rm k :
  od_ok rm → od_get k (foldl (λ d i, od_del i d) rm l) = if decide (k ∈ l) then None else od_get k rm.
Proof.
  revert rm. induction l as [|x l IH]; intros rm Hok; simpl; [done|].
  rewrite IH by (by apply od_del_ok). destruct (decide (k ∈ l)) as [Hk|Hk].
  - rewrite decide_True by set_solver. done.
  - destruct (decide (k = x)) as [->|Hne].
    + rewrite decide_True by set_solver. apply od_get_None. by apply od_keys_del_not_in.
    + rewrite decide_False by set_solver.
      destruct (od_get x rm) as [v|] eqn:Ex.
      * pose proof (od_del_perm x v rm Ex) as Hp. rewrite (od_get_perm k _ _ Hp Hok). simpl.
        by rewrite decide_False.
      * by rewrite od_del_fresh by (by apply od_get_None).
Qed.

Lemma foldl_del_ok (l : list string) rm : od_ok rm → od_ok (foldl (λ d i, od_del i d) rm l).
Proof. revert rm. induction l as [|x l IH]; intros rm Hok; simpl; [done|]. by apply IH, od_del_ok. Qed.

(** A request moved along an edge of the transition table, or not at all. *)
Definition advanced (r r' : Request) : Prop :=
  request_id r' = request_id r ∧ prompt_token_ids r' = prompt_token_ids r ∧
  (status r' = status r ∨ status r' ∈ allowed_transitions (status r)).

Lemma advanced_refl r : advanced r r.
Proof. split_and!; auto. Qed.

Lemma transition_to_advances s r : advanced r (transition_to s r).2.
Proof.
  unfold transition_to. munfold. case_bool_decide as Hs; simpl; [|apply advanced_refl].
  split_and!; [done|done|by right].
Qed.

(** What a call may do to the request stored under an id. *)
Definition id_step (c : rm_call) (rid : string) (o o' : option Request) : Prop :=
  match o, o' with
  | Some r, Some r' => advanced r r'
  | Some r, None => c = RRemove ∧ is_finished (status r) = true
  | None, Some r' => status r' = WAITING
  | None, None => True
  end.

Lemma id_step_refl c rid o : id_step c rid o o.
Proof. destruct o; simpl; [apply advanced_refl|done]. Qed.

Lemma transition_request_step c rm rid s rid' :
  rm_ok rm → rm_ok (transition_request rid s rm).2 ∧
  id_step c rid' (od_get rid' rm) (od_get rid' (transition_request rid s rm).2).
Proof.
  intros [Hok Hid]. unfold transition_request. destruct (od_get rid rm) as [r|] eqn:E; [|by split; [|apply id_step_refl]].
  pose proof (transition_to_advances s r) as Hadv. destruct (transition_to s r) as [x r']. simpl in *.
  split; [split|].
  - by apply od_set_ok.
  - intros k v. destruct (decide (k = rid)) as [->|Hne]; [|rewrite od_get_set_ne by done; apply Hid].
    rewrite od_get_set_eq. intros [= <-]. destruct Hadv as (-> & _). by apply Hid.
  - destruct (decide (rid' = rid)) as [->|Hne]; [|rewrite od_get_set_ne by done; apply id_step_refl].
    by rewrite od_get_set_eq, E.
Qed.

Lemma od_get_app_fresh rm rid r k :
  od_mem rid rm = false → od_get k (od_set rid r rm) = if decide (k = rid) then Some r else od_get k rm.
Proof.
  intros Hf. case_decide as Hd; [subst; apply od_get_set_eq|by apply od_get_set_ne].
Qed.

Lemma finished_mem rm rid :
  od_ok rm → rid ∈ (filter (λ p : string * Request, is_finished (status p.2) = true) rm).*1 ↔
  ∃ r, od_get rid rm = Some r ∧ is_finished (status r) = true.
Proof.
  intros Hok. rewrite list_elem_of_fmap. split.
  - intros ([k r] & -> & [Hf Hin]%list_elem_of_filter). exists r. split; [|done]. simpl in *.
    unfold od_ok, keys in Hok. clear Hf. induction rm as [|[k' r'] rm IH]; [by apply not_elem_of_nil in Hin|].
    simpl in *. apply NoDup_cons in Hok as [Hk Hok]. apply elem_of_cons in Hin as [[= -> ->]|Hin]; [by rewrite decide_True|].
    rewrite decide_False; [by apply IH|]. intros ->. apply Hk. apply list_elem_of_fmap. by exists (k', r).
  - intros (r & Hg & Hf). exists (rid, r). split; [done|]. apply list_elem_of_filter. split; [done|].
    by apply od_get_Some_elem.
Qed.

Lemma rm_step_spec c rm rid :
  rm_ok rm → rm_ok (rm_step c rm) ∧ id_step c rid (od_get rid rm) (od_get rid (rm_step c rm)).
Proof.
  intros Hrm. destruct c as [prompt sp i fresh now|i s|i|i s|]; simpl.
  - unfold add_request. munfold. set (k := match i with Some _ => _ | None => _ end).
    destruct (od_mem k rm) eqn:Ek; simpl; [by split; [|apply id_step_refl]|]. destruct Hrm as [Hok Hid].
    split; [split|].
    + by apply od_set_ok.
    + intros k' v. rewrite od_get_app_fresh by done. case_decide as Hd; [intros [= <-]; by subst|apply Hid].
    + rewrite od_get_app_fresh by done. case_decide as Hd; [|apply id_step_refl]. subst rid.
      apply od_mem_false in Ek. rewrite (proj2 (od_get_None k rm) Ek). done.
  - by apply transition_request_step.
  - unfold abort_request, try_pass.
    destruct (transition_request_step (RAbort i) rm i FINISHED_STOPPED rid Hrm).
    destruct (transition_request i FINISHED_STOPPED rm) as [[[]|e] rm']; simpl in *; [done|]. by destruct (bool_decide _).
  - unfold finish_request. munfold. destruct (is_finished s); simpl; [|by split; [|apply id_step_refl]].
    by apply transition_request_step.
  - destruct Hrm as [Hok Hid]. split; [split|].
    + by apply foldl_del_ok.
    + intros k r. rewrite od_get_foldl_del by done. case_decide; [done|apply Hid].
    + rewrite od_get_foldl_del by done. case_decide as Hd; [|apply id_step_refl].
      apply finished_mem in Hd as (r & -> & Hf); [|done]. done.
Qed.

Lemma rm_run_ok cs : rm_ok (foldl (λ rm c, rm_step c rm) [] cs).
Proof.
  assert (∀ rm, rm_ok rm → rm_ok (foldl (λ rm c, rm_step c rm) rm cs)) as Hall.
  { induction cs as [|c cs IH]; intros rm Hrm; simpl; [done|]. apply IH. by apply (rm_step_spec c rm ""). }
  apply Hall. split; [apply NoDup_nil_2|done].
Qed.

(** After any history of calls on the registry, raising or not, the next call
    can only add a waiting request, move a request along an edge of the
    transition table without touching its prompt, or, with [remove_finished],
    delete finished requests, of which none is then left; a finished request
    never changes any more. *)
Theorem request_lifecycle cs c rid :
  let rm := foldl (λ rm c, rm_step c rm) [] cs in
  id_step c rid (get_request rid rm) (get_request rid (rm_step c rm)) ∧
  (∀ r r', get_request rid rm = Some r → get_request rid (rm_step c rm) = Some r' →
     is_finished (status r) = true → status r' = status r) ∧
  (∀ r, get_request rid (remove_finished rm).2 = Some r → is_finished (status r) = false).
Proof.
  intros rm. pose proof (rm_run_ok cs) as Hrm. fold rm in Hrm. unfold get_request.
  destruct (rm_step_spec c rm rid Hrm) as [_ Hs]. split_and!; [done| |].
  - intros r r' Hr Hr' Hf. rewrite Hr, Hr' in Hs. destruct Hs as (_ & _ & [?|Ha]); [done|].
    destruct (status r); simpl in *; try done; by apply not_elem_of_nil in Ha.
  - intros r. unfold remove_finished. munfold. simpl. rewrite od_get_foldl_del by apply Hrm.
    case_decide as Hd; [done|]. intros Hr. rewrite finished_mem in Hd by apply Hrm.
    destruct (is_finished (status r)) eqn:E; [|done]. exfalso. eauto.
Qed.
