(* ===== verification/EngineScheduler.v ===== *)
(** * The scheduler of the offline engine (engine/scheduler.py)

    Continuous batching over the two-tier KV cache manager: admission with
    prefix caching, preemption by swapping to the CPU, swap-in, and decode
    scheduling.  [Request] objects are shared by the queues: the queues hold
    ids and the objects live in a store.  Parameters: Python's [hash] of a
    tuple, the prefix-reuse predictor (which may raise), and the outcome of
    waiting for the [n]-th transfer. *)
From S2P Require Import Prelude PyCollections BlockPool KVCacheManager EngineTypes.
From Stdlib Require Import QArith.
Open Scope Z_scope.

(** A call of the context-pilot KV manager. *)
Inductive cp_event :=
  | BlocksAllocated (rid : string) (hashes : list Z)
  | BlocksFreed (rid : string) (hashes : list Z).

Record Scheduler := mkSched {
  kv_mgr : KVCacheManager;
  max_num_seqs : Z;
  max_num_batched_tokens : Z;
  waiting : list string;
  running : list string;
  swapped : list string;
  swapped_gpu_ids : gmap string (list Z);
  swap_needs_reprefill : gset string;
  seq_generated_tokens : gmap string Z;
  cp_request_block_hashes : gmap string (list Z);
  requests : gmap string Request;
  transfers : nat;                              (** transfers enqueued so far *)
  cp_log : list cp_event
}.
Implicit Types s : Scheduler.

Definition set_mgr (m : KVCacheManager) s : Scheduler :=
  mkSched m (max_num_seqs s) (max_num_batched_tokens s) (waiting s) (running s) (swapped s) (swapped_gpu_ids s)
    (swap_needs_reprefill s) (seq_generated_tokens s) (cp_request_block_hashes s) (requests s) (transfers s) (cp_log s).
Definition set_queues (w r sw : list string) s : Scheduler :=
  mkSched (kv_mgr s) (max_num_seqs s) (max_num_batched_tokens s) w r sw (swapped_gpu_ids s)
    (swap_needs_reprefill s) (seq_generated_tokens s) (cp_request_block_hashes s) (requests s) (transfers s) (cp_log s).
Definition set_waiting (w : list string) s : Scheduler := set_queues w (running s) (swapped s) s.
Definition set_running (r : list string) s : Scheduler := set_queues (waiting s) r (swapped s) s.
Definition set_swapped (sw : list string) s : Scheduler := set_queues (waiting s) (running s) sw s.
Definition set_swap_records (ids : gmap string (list Z)) (re : gset string) s : Scheduler :=
  mkSched (kv_mgr s) (max_num_seqs s) (max_num_batched_tokens s) (waiting s) (running s) (swapped s) ids
    re (seq_generated_tokens s) (cp_request_block_hashes s) (requests s) (transfers s) (cp_log s).
Definition set_generated (g : gmap string Z) s : Scheduler :=
  mkSched (kv_mgr s) (max_num_seqs s) (max_num_batched_tokens s) (waiting s) (running s) (swapped s) (swapped_gpu_ids s)
    (swap_needs_reprefill s) g (cp_request_block_hashes s) (requests s) (transfers s) (cp_log s).
Definition set_cp (h : gmap string (list Z)) (log : list cp_event) s : Scheduler :=
  mkSched (kv_mgr s) (max_num_seqs s) (max_num_batched_tokens s) (waiting s) (running s) (swapped s) (swapped_gpu_ids s)
    (swap_needs_reprefill s) (seq_generated_tokens s) h (requests s) (transfers s) log.
Definition set_requests (r : gmap string Request) s : Scheduler :=
  mkSched (kv_mgr s) (max_num_seqs s) (max_num_batched_tokens s) (waiting s) (running s) (swapped s) (swapped_gpu_ids s)
    (swap_needs_reprefill s) (seq_generated_tokens s) (cp_request_block_hashes s) r (transfers s) (cp_log s).
Definition count_transfer s : Scheduler :=
  mkSched (kv_mgr s) (max_num_seqs s) (max_num_batched_tokens s) (waiting s) (running s) (swapped s) (swapped_gpu_ids s)
    (swap_needs_reprefill s) (seq_generated_tokens s) (cp_request_block_hashes s) (requests s) (S (transfers s)) (cp_log s).

(** [__init__] *)
Definition sched_init (m : KVCacheManager) (max_seqs max_tokens : Z) : Scheduler :=
  mkSched m max_seqs max_tokens [] [] [] ∅ ∅ ∅ ∅ ∅ 0 [].

Record SchedulerOutput := mkOutput {
  scheduled_seqs : list string;
  preempted_seqs : list string;
  swapped_in_seqs : list string;
  num_batched_tokens : Z
}.

Section scheduler.
(** [hash((parent_hash, token_ids))] *)
Context (hash_block_tokens : Z → list Z → Z).
(** The context-pilot manager, if set: [predict_prefix_reuse], [None] when it raises. *)
Context (cp_predict : option (string → list Z → option Q)).
(** The transfer scheduler, if any: what [wait] returns for the [n]-th transfer. *)
Context (transfer_wait : option (nat → bool)).

Definition on_mgr {A} (x : M KVCacheManager A) : M Scheduler A := zoom kv_mgr set_mgr x.

Definition prompt_of (rid : string) s : list Z := default [] (prompt_token_ids <$> requests s !! rid).

(** [req.transition_to(new_status)] *)
Definition transition (rid : string) (new_status : SequenceStatus) : M Scheduler unit := λ s,
  match requests s !! rid with
  | None => (Ok tt, s)
  | Some r => let '(x, r') := transition_to new_status r in (x, set_requests (<[rid := r']> (requests s)) s)
  end.

(** [add_request] *)
Definition add_request (r : Request) : M Scheduler unit :=
  modify (λ s, set_waiting (waiting s ++ [request_id r]) (set_requests (<[request_id r := r]> (requests s)) s)).

(** [prompt[i * block_size : (i + 1) * block_size]] for the full blocks. *)
Definition full_blocks (block_size : Z) (prompt : list Z) : list (list Z) :=
  (λ i, take (Z.to_nat block_size) (drop (i * Z.to_nat block_size) prompt)) <$>
    seq 0 (Z.to_nat (zlen prompt / block_size)).

(** [_compute_prompt_block_hashes] *)
Fixpoint chain_hashes (parent_hash : Z) (slices : list (list Z)) : list Z :=
  match slices with
  | [] => []
  | slice :: slices =>
      let block_hash := hash_block_tokens parent_hash slice in block_hash :: chain_hashes block_hash slices
  end.
Definition compute_prompt_block_hashes (block_size : Z) (prompt : list Z) : list Z :=
  chain_hashes 0 (full_blocks block_size prompt).

(** The first loop of [_allocate_with_prefix_cache]: cached blocks of the
    longest cached prefix. *)
Fixpoint take_cached (hashes : list Z) : M KVCacheManager (list Z) :=
  match hashes with
  | [] => mret []
  | h :: hashes =>
      blk ← get_cached_gpu_block h;
      match blk with
      | None => mret []
      | Some id => ids ← take_cached hashes; mret (id :: ids)
      end
  end.

(** The second loop; on exhaustion cached and new blocks are released. *)
Fixpoint take_new (k : nat) (cached new : list Z) : M KVCacheManager (option (list Z)) :=
  match k with
  | O => mret (Some new)
  | S k' =>
      blk ← allocate_gpu_block;
      match blk with
      | None =>
          for_each cached release_gpu_block ≫= λ _,
          for_each new release_gpu_block ≫= λ _, mret None
      | Some id => take_new k' cached (new ++ [id])
      end
  end.

(** [_allocate_with_prefix_cache] *)
Definition allocate_with_prefix_cache (rid : string) : M Scheduler (bool * Z) :=
  s ← get;
  let prompt := prompt_of rid s in
  let block_size := mgr_block_size (kv_mgr s) in
  let hashes := compute_prompt_block_hashes block_size prompt in
  cached ← on_mgr (take_cached hashes);
  let num_cached_tokens := zlen cached * block_size in
  let remaining_tokens := zlen prompt - num_cached_tokens in
  let needed := if 0 <? remaining_tokens then (remaining_tokens + block_size - 1) / block_size else 0 in
  new ← on_mgr (take_new (Z.to_nat needed) cached []);
  match new with
  | None => mret (false, 0)
  | Some new =>
      on_mgr (set_block_table rid (cached ++ new)) ≫= λ _,
      modify (λ s, set_cp (<[rid := hashes]> (cp_request_block_hashes s))
                     (match cp_predict, hashes with
                      | Some _, _ :: _ => cp_log s ++ [BlocksAllocated rid hashes]
                      | _, _ => cp_log s
                      end) s) ≫= λ _,
      mret (true, num_cached_tokens)
  end.

(** [_notify_cp_blocks_freed] *)
Definition notify_cp_blocks_freed (rid : string) : M Scheduler unit :=
  modify (λ s, set_cp (delete rid (cp_request_block_hashes s))
                 (match cp_predict, default [] (cp_request_block_hashes s !! rid) with
                  | Some _, _ :: _ as hashes => cp_log s ++ [BlocksFreed rid hashes]
                  | _, _ => cp_log s
                  end) s).

(** [self._transfer_scheduler.enqueue] and [wait]; without a transfer scheduler
    the swap is committed at once. *)
Definition transfer : M Scheduler bool :=
  match transfer_wait with
  | None => mret true
  | Some outcome => s ← get; modify count_transfer ≫= λ _, mret (outcome (transfers s))
  end.

(** [_preempt_with_transfer] *)
Definition preempt_with_transfer (rid : string) : M Scheduler unit :=
  pairs ← on_mgr (prepare_swap_out rid);
  match pairs with
  | [] =>
      notify_cp_blocks_freed rid ≫= λ _,
      on_mgr (free_sequence rid) ≫= λ _,
      transition rid SWAPPED ≫= λ _,
      modify (λ s, set_swapped (swapped s ++ [rid]) s) ≫= λ _,
      modify (λ s, set_swap_records (swapped_gpu_ids s) ({[rid]} ∪ swap_needs_reprefill s) s)
  | _ =>
      modify (λ s, set_swap_records (<[rid := pairs.*1]> (swapped_gpu_ids s)) (swap_needs_reprefill s) s) ≫= λ _,
      completed ← transfer;
      (if completed : bool then on_mgr (commit_swap_out rid pairs)
       else
         on_mgr (commit_swap_out rid pairs) ≫= λ _,
         notify_cp_blocks_freed rid ≫= λ _,
         on_mgr (free_sequence rid) ≫= λ _,
         modify (λ s, set_swap_records (delete rid (swapped_gpu_ids s)) ({[rid]} ∪ swap_needs_reprefill s) s)) ≫= λ _,
      transition rid SWAPPED ≫= λ _,
      modify (λ s, set_swapped (swapped s ++ [rid]) s)
  end.

(** [req.transition_to(WAITING)]; [self._waiting.appendleft(req)] *)
Definition requeue (rid : string) : M Scheduler unit :=
  transition rid WAITING ≫= λ _, modify (λ s, set_waiting (rid :: waiting s) s).

(** [_swap_in_request] *)
Definition swap_in_request (rid : string) : M Scheduler bool :=
  s ← get;
  if bool_decide (rid ∈ swap_needs_reprefill s) then
    modify (λ s, set_swap_records (swapped_gpu_ids s) (swap_needs_reprefill s ∖ {[rid]}) s) ≫= λ _,
    requeue rid ≫= λ _, mret true
  else
    let orig_gpu_ids := default [] (swapped_gpu_ids s !! rid) in
    pairs ← on_mgr (prepare_swap_in orig_gpu_ids []);
    match pairs with
    | [] => mret false
    | _ =>
        completed ← transfer;
        if completed : bool then
          on_mgr (commit_swap_in rid orig_gpu_ids pairs) ≫= λ _,
          modify (λ s, set_swap_records (delete rid (swapped_gpu_ids s)) (swap_needs_reprefill s) s) ≫= λ _,
          transition rid WAITING ≫= λ _,
          transition rid RUNNING ≫= λ _,
          modify (λ s, set_running (running s ++ [rid]) s) ≫= λ _,
          mret true
        else
          on_mgr (commit_swap_in rid orig_gpu_ids pairs) ≫= λ _,
          notify_cp_blocks_freed rid ≫= λ _,
          on_mgr (free_sequence rid) ≫= λ _,
          modify (λ s, set_swap_records (delete rid (swapped_gpu_ids s)) ({[rid]} ∪ swap_needs_reprefill s) s) ≫= λ _,
          requeue rid ≫= λ _, mret true
    end.

(** [scored_waiting.sort(key=lambda x: x[0], reverse=True)]: a stable sort by
    decreasing score. *)
Fixpoint insert_scored (x : Q * string) (l : list (Q * string)) : list (Q * string) :=
  match l with
  | [] => [x]
  | y :: l' => if Qle_bool (x.1) (y.1) then y :: insert_scored x l' else x :: l
  end.
Definition sort_scored (l : list (Q * string)) : list (Q * string) :=
  foldl (λ acc x, insert_scored x acc) [] l.

(** The reordering of the waiting queue at the start of [schedule]. *)
Definition order_waiting s : list string :=
  match cp_predict with
  | Some predict =>
      if 1 <? zlen (waiting s) then
        (sort_scored ((λ rid, (default 0%Q (predict rid (prompt_of rid s)), rid)) <$> waiting s)).*2
      else waiting s
  | None => waiting s
  end.

(** [while not allocated and self._running]; every iteration takes a request
    off [_running], so its length bounds the iterations. *)
Fixpoint make_room (fuel : nat) (rid : string) (alloc : bool * Z) (preempted : list string)
    : M Scheduler (bool * Z * list string) :=
  s ← get;
  match fuel, alloc.1, running s with
  | S fuel', false, victim :: rest =>
      modify (set_running rest) ≫= λ _,
      preempt_with_transfer victim ≫= λ _,
      alloc' ← allocate_with_prefix_cache rid;
      make_room fuel' rid alloc' (preempted ++ [victim])
  | _, _, _ => mret (alloc, preempted)
  end.

Record AdmitAcc := mkAdmit {
  ad_new : list string;          (** [new_running], which is also [scheduled] *)
  ad_preempted : list string;
  ad_tokens : Z
}.

(** [while self._waiting]: every iteration takes the head off [_waiting] or ends
    the loop. *)
Fixpoint admit_loop (fuel : nat) (a : AdmitAcc) : M Scheduler AdmitAcc :=
  s ← get;
  match fuel, waiting s with
  | S fuel', rid :: rest =>
      if max_num_seqs s <=? zlen (running s) + zlen (ad_new a) then mret a
      else
        let prompt_tokens := zlen (prompt_of rid s) in
        modify (set_waiting rest) ≫= λ _,
        alloc ← allocate_with_prefix_cache rid;
        s1 ← get;
        x ← make_room (length (running s1)) rid alloc (ad_preempted a);
        let '(allocated, num_cached_tokens, preempted) := x in
        if negb allocated then
          modify (λ s, set_waiting (rid :: waiting s) s) ≫= λ _,
          mret (mkAdmit (ad_new a) preempted (ad_tokens a))
        else
          let uncached_prompt_tokens := prompt_tokens - num_cached_tokens in
          s2 ← get;
          if max_num_batched_tokens s2 <? ad_tokens a + uncached_prompt_tokens then
            notify_cp_blocks_freed rid ≫= λ _,
            on_mgr (free_sequence rid) ≫= λ _,
            modify (λ s, set_waiting (rid :: waiting s) s) ≫= λ _,
            mret (mkAdmit (ad_new a) preempted (ad_tokens a))
          else
            transition rid RUNNING ≫= λ _,
            modify (λ s, set_generated (<[rid := 0]> (seq_generated_tokens s)) s) ≫= λ _,
            admit_loop fuel' (mkAdmit (ad_new a ++ [rid]) preempted (ad_tokens a + uncached_prompt_tokens))
  | _, _ => mret a
  end.

(** [for req in previously_swapped] *)
Fixpoint swap_in_loop (l swapped_in : list string) : M Scheduler (list string) :=
  match l with
  | [] => mret swapped_in
  | rid :: l =>
      s ← get;
      if max_num_seqs s <=? zlen (running s) then
        modify (λ s, set_swapped (swapped s ++ [rid]) s) ≫= λ _, swap_in_loop l swapped_in
      else
        ok ← swap_in_request rid;
        if ok : bool then swap_in_loop l (swapped_in ++ [rid])
        else modify (λ s, set_swapped (swapped s ++ [rid]) s) ≫= λ _, swap_in_loop l swapped_in
  end.

(** The decode loop over [_running]. *)
Fixpoint decode_loop (admitted l scheduled : list string) (num_tokens : Z) : M Scheduler (list string * Z) :=
  match l with
  | [] => mret (scheduled, num_tokens)
  | rid :: l =>
      if decide (rid ∈ admitted) then decode_loop admitted l scheduled num_tokens
      else
        s ← get;
        if max_num_batched_tokens s <? num_tokens + 1 then mret (scheduled, num_tokens)
        else
          modify (λ s, set_generated (<[rid := default 0 (seq_generated_tokens s !! rid) + 1]> (seq_generated_tokens s)) s)
            ≫= λ _,
          decode_loop admitted l (scheduled ++ [rid]) (num_tokens + 1)
  end.

(** [schedule] *)
Definition schedule : M Scheduler SchedulerOutput :=
  s ← get;
  let previously_swapped := swapped s in
  modify (set_swapped []) ≫= λ _,
  modify (λ s, set_waiting (order_waiting s) s) ≫= λ _,
  s1 ← get;
  a ← admit_loop (length (waiting s1)) (mkAdmit [] [] 0);
  modify (λ s, set_running (running s ++ ad_new a) s) ≫= λ _,
  swapped_in ← swap_in_loop previously_swapped [];
  s2 ← get;
  d ← decode_loop (ad_new a) (running s2) (ad_new a) (ad_tokens a);
  mret (mkOutput d.1 (ad_preempted a) swapped_in d.2).

(** The loop of [_register_completed_blocks_in_cache]. *)
Fixpoint register_blocks (hashes block_ids : list Z) : M KVCacheManager unit :=
  match hashes, block_ids with
  | h :: hashes, id :: block_ids =>
      m ← get;
      match get_gpu_block id m with
      | None => mret tt
      | Some id => cache_gpu_block id h ≫= λ _, register_blocks hashes block_ids
      end
  | _, _ => mret tt
  end.

(** [_register_completed_blocks_in_cache] *)
Definition register_completed_blocks_in_cache (rid : string) : M Scheduler unit :=
  s ← get;
  let m := kv_mgr s in
  on_mgr (register_blocks (compute_prompt_block_hashes (mgr_block_size m) (prompt_of rid s)) (get_block_table rid m)).

(** [finish_request], which is also [abort_request] *)
Definition finish_request (rid : string) : M Scheduler unit :=
  s ← get;
  when (bool_decide (rid ∈ waiting s ++ running s ++ swapped s) &&
        negb (bool_decide (get_block_table rid (kv_mgr s) = [])))
    (register_completed_blocks_in_cache rid) ≫= λ _,
  modify (λ s, set_queues (filter (λ i, i ≠ rid) (waiting s)) (filter (λ i, i ≠ rid) (running s))
                 (filter (λ i, i ≠ rid) (swapped s)) s) ≫= λ _,
  modify (λ s, set_swap_records (delete rid (swapped_gpu_ids s)) (swap_needs_reprefill s ∖ {[rid]}) s) ≫= λ _,
  modify (λ s, set_generated (delete rid (seq_generated_tokens s)) s) ≫= λ _,
  notify_cp_blocks_freed rid ≫= λ _,
  on_mgr (free_sequence rid).

(** [_can_schedule] *)
Definition can_schedule (rid : string) s : bool :=
  let bs := mgr_block_size (kv_mgr s) in
  (zlen (prompt_of rid s) + bs - 1) / bs <=? num_free_gpu_blocks (kv_mgr s).
End scheduler.
