(* ===== verification/EngineSchedulerProps.v ===== *)
(** * Invariants of the offline engine's scheduler *)
From S2P Require Import Prelude PyCollections BlockPool BlockPoolProps KVCacheManager KVCacheManagerProps.
From S2P Require Import EngineTypes EngineScheduler.
From Stdlib Require Import QArith.
Open Scope Z_scope.

Section scheduler.
Context (hash_block_tokens : Z → list Z → Z) (cp_predict : option (string → list Z → option Q)).
Context (transfer_wait : option (nat → bool)) (ng nc : Z).
Implicit Types (s : Scheduler) (W R S T : list string).

(** ** The invariant

    [core m rq W R S T]: the requests in [W], [R], [S] are distinct and wait,
    run and are swapped; only the requests in [T] own block tables; and the
    tables account for all references of the GPU pool. *)
Definition have_status (rq : gmap string Request) (l : list string) (st : SequenceStatus) : Prop :=
  ∀ rid, rid ∈ l → ∃ r, rq !! rid = Some r ∧ status r = st.

Record core (m : KVCacheManager) (rq : gmap string Request) W R S T : Prop := {
  co_mgr : mgr_inv ng nc m [];
  co_nodup : NoDup (W ++ R ++ S);
  co_waiting : have_status rq W WAITING;
  co_running : have_status rq R RUNNING;
  co_swapped : have_status rq S SWAPPED;
  co_tables : ∀ rid, is_Some (seq_to_gpu_blocks m !! rid) → rid ∈ T
}.

#[local] Instance have_status_proper rq : Proper ((≡ₚ) ==> (=) ==> iff) (have_status rq).
Proof. intros l l' Hl st ? <-. unfold have_status. by setoid_rewrite Hl. Qed.

#[local] Instance core_proper m rq : Proper ((≡ₚ) ==> (≡ₚ) ==> (≡ₚ) ==> (≡ₚ) ==> iff) (core m rq).
Proof.
  assert (∀ W W' R R' S S' T T', W ≡ₚ W' → R ≡ₚ R' → S ≡ₚ S' → T ≡ₚ T' → core m rq W R S T → core m rq W' R' S' T') as Hx.
  { intros W W' R R' S S' T T' HW HR HS HT [H1 H2 H3 H4 H5 H6].
    constructor; rewrite <- ?HW, <- ?HR, <- ?HS; try done. intros rid. rewrite <- HT. apply H6. }
  intros W W' HW R R' HR S S' HS T T' HT. split; apply Hx; by symmetry || done.
Qed.

(** The parts of the state no method changes. *)
Definition limits s := (max_num_seqs s, max_num_batched_tokens s).

(** ** Status changes *)
Lemma transition_spec rid st st' s :
  have_status (requests s) [rid] st → st' ∈ allowed_transitions st →
  ∃ r, requests s !! rid = Some r ∧ status r = st ∧
    transition rid st' s = (Ok tt, set_requests (<[rid := with_status st' r]> (requests s)) s).
Proof.
  intros Hs Ha. destruct (Hs rid) as (r & Hr & Hst); [set_solver|]. exists r. split_and!; [done|done|].
  unfold transition, transition_to. munfold. rewrite Hr, Hst. by rewrite bool_decide_true.
Qed.

Lemma have_status_insert rq l st rid r :
  have_status rq l st → status r = st ∨ rid ∉ l → have_status (<[rid := r]> rq) l st.
Proof.
  intros Hs Hr i Hi. destruct (decide (i = rid)) as [->|Hne].
  - exists r. rewrite lookup_insert_eq. destruct Hr; done.
  - rewrite lookup_insert_ne by done. by apply Hs.
Qed.

(** Moving a request from one role to another. *)
Lemma core_move m rq W R S T W' R' S' rid r st :
  core m rq W R S T → W' ++ R' ++ S' ≡ₚ W ++ R ++ S →
  status r = st →
  (∀ i, i ∈ W' → (i ∈ W ∧ i ≠ rid) ∨ (i = rid ∧ st = WAITING)) →
  (∀ i, i ∈ R' → (i ∈ R ∧ i ≠ rid) ∨ (i = rid ∧ st = RUNNING)) →
  (∀ i, i ∈ S' → (i ∈ S ∧ i ≠ rid) ∨ (i = rid ∧ st = SWAPPED)) →
  core m (<[rid := r]> rq) W' R' S' T.
Proof.
  intros [H1 H2 H3 H4 H5 H6] Hp Hst HW HR HS.
  assert (∀ l l' st', have_status rq l st' → (∀ i, i ∈ l' → (i ∈ l ∧ i ≠ rid) ∨ (i = rid ∧ st = st')) →
            have_status (<[rid := r]> rq) l' st') as Hx.
  { intros l l' st' Hl Hl' i Hi. destruct (Hl' i Hi) as [[Hil Hne]|[-> <-]].
    - rewrite lookup_insert_ne by done. by apply Hl.
    - exists r. by rewrite lookup_insert_eq. }
  constructor; [done|by rewrite Hp|by eapply Hx..|done].
Qed.

Lemma core_mgr m m' rq W R S T T' :
  core m rq W R S T → mgr_inv ng nc m' [] → (∀ rid, is_Some (seq_to_gpu_blocks m' !! rid) → rid ∈ T') →
  core m' rq W R S T'.
Proof. intros [H1 H2 H3 H4 H5 H6] Hm Ht. by constructor. Qed.

(** ** Allocation with the prefix cache *)
Lemma take_cached_spec hs m L :
  gpu_inv ng m L →
  ∃ ids m', take_cached hs m = (Ok ids, m') ∧ gpu_change m m' ∧ gpu_inv ng m' (ids ++ L) ∧ (length ids ≤ length hs)%nat.
Proof.
  revert m L. induction hs as [|h hs IH]; intros m L Hg; cbn [take_cached]; munfold.
  { exists [], m. split_and!; done. }
  destruct (cached_gpu_spec ng m L h Hg) as (r & m1 & -> & Hc & Hr). destruct r as [id|].
  - destruct (IH m1 (id :: L) Hr) as (ids & m2 & Ht & Hc2 & Hg2 & Hl). munfold in Ht. rewrite Ht.
    exists (id :: ids), m2. split_and!; [done|by etrans| |simpl; lia].
    revert Hg2. apply gpu_inv_proper. solve_Permutation.
  - exists [], m1. split_and!; [done|done|done|simpl; lia].
Qed.

Lemma take_new_spec k cached new m L :
  gpu_inv ng m (cached ++ new ++ L) →
  ∃ r m', take_new k cached new m = (Ok r, m') ∧ gpu_change m m' ∧
    match r with
    | Some ids => gpu_inv ng m' (cached ++ ids ++ L)
    | None => gpu_inv ng m' L
    end.
Proof.
  revert new m. induction k as [|k IH]; intros new m Hg; cbn [take_new]; munfold.
  { exists (Some new), m. split_and!; done. }
  destruct (allocate_gpu_spec ng m _ Hg) as (r & m1 & -> & Hc1 & Hr). destruct r as [id|].
  - destruct Hr as [Hg1 _]. destruct (IH (new ++ [id]) m1) as (r & m2 & Ht & Hc2 & Hr).
    { revert Hg1. apply gpu_inv_proper. solve_Permutation. }
    munfold in Ht. rewrite Ht. exists r, m2. split_and!; [done|by etrans|done].
  - destruct Hr as [Hg1 _]. destruct (release_all ng cached m1 _ Hg1) as (m2 & Hf2 & Hc2 & Hg2).
    destruct (release_all ng new m2 L Hg2) as (m3 & Hf3 & Hc3 & Hg3).
    munfold in Hf2. rewrite Hf2. munfold in Hf3. rewrite Hf3.
    exists None, m3. split_and!; [done|by do 2 (etrans; [done|])|done].
Qed.

(** What the methods that only move blocks leave alone. *)
Definition frame s s' : Prop :=
  limits s' = limits s ∧ waiting s' = waiting s ∧ running s' = running s ∧ swapped s' = swapped s ∧
  requests s' = requests s.
#[local] Instance frame_preorder : PreOrder frame.
Proof. split; [done|]. unfold frame. intros s1 s2 s3 (?&?&?&?&?) (?&?&?&?&?). split_and!; congruence. Qed.

Lemma on_mgr_run {A} (x : M KVCacheManager A) s r m :
  x (kv_mgr s) = (r, m) → on_mgr x s = (r, set_mgr m s).
Proof. intros Hx. unfold on_mgr, zoom. by rewrite Hx. Qed.

Lemma frame_set_mgr m s : frame s (set_mgr m s).
Proof. done. Qed.

Local Abbreviation alloc := (allocate_with_prefix_cache hash_block_tokens cp_predict).
Local Abbreviation notify_freed := (notify_cp_blocks_freed cp_predict).

Lemma allocate_spec rid s W R S T :
  core (kv_mgr s) (requests s) W R S T → rid ∉ T →
  ∃ b k s', alloc rid s = (Ok (b, k), s') ∧ frame s s' ∧
    core (kv_mgr s') (requests s') W R S (if b then rid :: T else T).
Proof.
  intros Hc HT. pose proof (co_mgr _ _ _ _ _ _ Hc) as [Hg Hcpu]. unfold allocate_with_prefix_cache.
  assert (seq_to_gpu_blocks (kv_mgr s) !! rid = None) as Hnone.
  { apply eq_None_not_Some. intros Hx. by apply HT, (co_tables _ _ _ _ _ _ Hc). }
  unfold mbind, M_bind, get. cbv beta iota. set (hs := compute_prompt_block_hashes _ _ _).
  destruct (take_cached_spec hs (kv_mgr s) _ Hg) as (cached & m1 & Ht1 & Hc1 & Hg1 & _).
  rewrite (on_mgr_run _ s _ _ Ht1). cbv beta iota. set (k := Z.to_nat _).
  destruct (take_new_spec k cached [] m1 ([] ++ held (seq_to_gpu_blocks (kv_mgr s)))) as (r & m2 & Ht2 & Hc2 & Hr).
  { done. }
  rewrite (on_mgr_run _ (set_mgr m1 s) _ _ Ht2). cbv beta iota.
  assert (gpu_change (kv_mgr s) m2) as Hch by (by etrans).
  destruct r as [new|].
  - destruct (set_block_table_inv ng nc m2 [] rid (cached ++ new)) as (m3 & Hset & Hi3 & Hm3).
    { eapply (mgr_inv_gpu_change ng nc (kv_mgr s) m2 []); [done|done|]. by rewrite app_nil_r, <- (assoc_L (++)). }
    { by rewrite Hch. }
    cbv beta iota. rewrite (on_mgr_run _ (set_mgr m2 (set_mgr m1 s)) _ _ Hset). cbv beta iota. unfold modify, mret, M_ret. eexists true, _, _.
    split_and!; [done|done|]. simpl. eapply core_mgr; [done|done|]. rewrite Hm3. simpl.
    assert (seq_to_gpu_blocks m2 = seq_to_gpu_blocks (kv_mgr s)) as -> by (by rewrite Hch).
    intros i. destruct (decide (i = rid)) as [->|Hne]; [set_solver|]. rewrite lookup_insert_ne by done.
    intros Hi. apply elem_of_cons. right. by apply (co_tables _ _ _ _ _ _ Hc).
  - unfold mret, M_ret. eexists false, _, _. split_and!; [done|done|]. simpl.
    eapply core_mgr; [done|by eapply (mgr_inv_gpu_change ng nc (kv_mgr s) m2 [] [])|].
    assert (seq_to_gpu_blocks m2 = seq_to_gpu_blocks (kv_mgr s)) as -> by (by rewrite Hch).
    apply (co_tables _ _ _ _ _ _ Hc).
Qed.

(** Freeing the blocks of a request. *)
Lemma free_spec rid s W R S T T' :
  core (kv_mgr s) (requests s) W R S T → (∀ i, i ∈ T → i ≠ rid → i ∈ T') →
  ∃ s1 s', notify_freed rid s = (Ok tt, s1) ∧ on_mgr (free_sequence rid) s1 = (Ok tt, s') ∧ frame s s' ∧
    core (kv_mgr s') (requests s') W R S T'.
Proof.
  intros Hc HT. unfold notify_cp_blocks_freed, modify. set (s1 := set_cp _ _ s). exists s1.
  destruct (free_sequence_inv ng nc (kv_mgr s1) [] rid (co_mgr _ _ _ _ _ _ Hc)) as (m & Hf & Hi & Ht & _).
  rewrite (on_mgr_run _ s1 _ _ Hf). eexists. split_and!; [done|done|done|]. simpl.
  eapply core_mgr; [done|done|]. intros i. rewrite Ht. intros [x Hx]. apply lookup_delete_Some in Hx as [Hne Hx].
  apply HT; [|done]. apply (co_tables _ _ _ _ _ _ Hc). eauto.
Qed.

Lemma transfer_spec s : ∃ b s', transfer transfer_wait s = (Ok b, s') ∧ frame s s' ∧ kv_mgr s' = kv_mgr s ∧
  swapped_gpu_ids s' = swapped_gpu_ids s.
Proof. unfold transfer. destruct transfer_wait; munfold; eexists _, _; split_and!; done. Qed.

(** ** Preemption *)
Local Abbreviation preempt := (preempt_with_transfer cp_predict transfer_wait).

(** The status change that ends a preemption. *)
Lemma core_swap_out m rq W R S T R' rid r :
  core m rq W R S T → R ≡ₚ rid :: R' → status r = SWAPPED →
  core m (<[rid := r]> rq) W R' (rid :: S) T.
Proof.
  intros Hc HR Hr. pose proof (co_nodup _ _ _ _ _ _ Hc) as Hnd. rewrite HR in Hnd.
  apply NoDup_app in Hnd as (_ & HW & Hnd). simpl in Hnd. apply NoDup_cons in Hnd as [Hni _].
  eapply (core_move _ _ W R S T); [done| |done|..].
  - rewrite HR. solve_Permutation.
  - intros i Hi. left. split; [done|]. intros ->. apply (HW rid Hi). set_solver.
  - intros i Hi. left. rewrite HR. split; [set_solver|]. intros ->. set_solver.
  - intros i [->|Hi]%elem_of_cons; [by right|left]. split; [done|]. intros ->. set_solver.
Qed.

Lemma preempt_spec rid s W R S T R' T' :
  core (kv_mgr s) (requests s) W R S T → R ≡ₚ rid :: R' → (∀ i, i ∈ T → i ≠ rid → i ∈ T') →
  ∃ s', preempt rid s = (Ok tt, s') ∧ limits s' = limits s ∧ waiting s' = waiting s ∧ running s' = running s ∧
    swapped s' = swapped s ++ [rid] ∧ core (kv_mgr s') (requests s') W R' (rid :: S) T'.
Proof.
  intros Hc HR HT. unfold preempt_with_transfer. munfold.
  assert (∀ s1, frame s s1 → core (kv_mgr s1) (requests s1) W R S T' →
    ∃ r, transition rid SWAPPED s1 = (Ok tt, set_requests (<[rid := r]> (requests s1)) s1) ∧
      core (kv_mgr s1) (<[rid := r]> (requests s1)) W R' (rid :: S) T') as Hend.
  { intros s1 _ Hc1. destruct (transition_spec rid RUNNING SWAPPED s1) as (r & _ & _ & Htr).
    - intros i Hi. apply (co_running _ _ _ _ _ _ Hc1). rewrite HR. set_solver.
    - set_solver.
    - eexists. split; [exact Htr|]. by eapply core_swap_out. }
  destruct (prepare_swap_out_inv ng nc (kv_mgr s) [] rid (co_mgr _ _ _ _ _ _ Hc)) as (pairs & m1 & Hp & Hi1 & Hs1 & _ & Hpairs).
  rewrite (on_mgr_run _ s _ _ Hp). cbv beta iota.
  assert (seq_to_gpu_blocks m1 = seq_to_gpu_blocks (kv_mgr s)) as Ht1 by (unfold gpu_side in Hs1; congruence).
  assert (core m1 (requests s) W R S T) as Hc1 by (eapply core_mgr; [done|done|rewrite Ht1; apply (co_tables _ _ _ _ _ _ Hc)]).
  destruct pairs as [|p pairs].
  - destruct (free_spec rid (set_mgr m1 s) W R S T T' Hc1 HT) as (s2 & s3 & -> & -> & Hf & Hc3).
    destruct (Hend s3) as (r & -> & Hc4); [by etrans; [apply frame_set_mgr|]|done|].
    destruct Hf as (? & ? & ? & ? & ?). eexists. split_and!; try done; unfold limits in *; simpl in *; congruence.
  - destruct Hpairs as [[? _]|[Hp1 _]]; [done|]. set (ps := p :: pairs) in *.
    set (s2 := set_swap_records _ _ _). destruct (transfer_spec s2) as (b & s3 & -> & Hf3 & Hm3 & _).
    assert (kv_mgr s3 = m1) as Hk3 by (by rewrite Hm3).
    destruct (commit_swap_out_inv ng nc (kv_mgr s3) [] rid ps) as (m4 & Hcm & Hi4 & Ht4 & _).
    { by rewrite Hk3. } { rewrite Hp1, Hk3. unfold get_block_table. by rewrite Ht1. }
    assert (core m4 (requests s) W R S T') as Hc4.
    { eapply core_mgr; [exact Hc|done|]. intros i. rewrite Ht4, Hk3, Ht1. intros [x Hx].
      apply lookup_delete_Some in Hx as [Hne Hx]. apply HT; [|done]. apply (co_tables _ _ _ _ _ _ Hc). eauto. }
    assert (frame s (set_mgr m4 s3)) as Hf4 by (by etrans; [|apply frame_set_mgr]).
    assert (core (kv_mgr (set_mgr m4 s3)) (requests (set_mgr m4 s3)) W R S T') as Hc4'
      by (destruct Hf4 as (_ & _ & _ & _ & ->); done).
    destruct b.
    + rewrite (on_mgr_run _ s3 _ _ Hcm). cbv beta iota.
      destruct (Hend _ Hf4 Hc4') as (r & -> & Hc5). destruct Hf4 as (? & ? & ? & ? & ?).
      eexists. split_and!; try done; unfold limits in *; simpl in *; congruence.
    + rewrite (on_mgr_run _ s3 _ _ Hcm). cbv beta iota.
      destruct (free_spec rid _ W R S T' T' Hc4') as (s5 & s6 & -> & -> & Hf6 & Hc6); [done|].
      set (s7 := set_swap_records _ _ s6).
      assert (frame s s7) as Hf7 by (by do 2 (etrans; [done|])).
      destruct (Hend s7 Hf7 Hc6) as (r & -> & Hc7). destruct Hf7 as (? & ? & ? & ? & ?).
      eexists. split_and!; try done; unfold limits in *; simpl in *; congruence.
Qed.

(** ** Swapping in *)
Lemma core_requeue m rq W R S T rid r :
  core m rq W R (rid :: S) T → status r = WAITING → core m (<[rid := r]> rq) (rid :: W) R S T.
Proof.
  intros Hc Hr. pose proof (co_nodup _ _ _ _ _ _ Hc) as Hnd.
  assert (NoDup (rid :: W ++ R ++ S)) as Hnd' by (eapply NoDup_Permutation_proper; [|exact Hnd]; solve_Permutation).
  apply NoDup_cons in Hnd' as [Hni _]. rewrite !elem_of_app in Hni.
  eapply (core_move _ _ W R (rid :: S) T); [done|solve_Permutation|done|..].
  - intros i [->|Hi]%elem_of_cons; [by right|left]. split; [done|]. intros ->. tauto.
  - intros i Hi. left. split; [done|]. intros ->. tauto.
  - intros i Hi. left. split; [set_solver|]. intros ->. tauto.
Qed.

Lemma core_start m rq W R S T rid r :
  core m rq (rid :: W) R S T → status r = RUNNING → core m (<[rid := r]> rq) W (rid :: R) S T.
Proof.
  intros Hc Hr. pose proof (co_nodup _ _ _ _ _ _ Hc) as Hnd. apply NoDup_cons in Hnd as [Hni _].
  rewrite !elem_of_app in Hni. eapply (core_move _ _ (rid :: W) R S T); [done|solve_Permutation|done|..].
  - intros i Hi. left. split; [set_solver|]. intros ->. tauto.
  - intros i [->|Hi]%elem_of_cons; [by right|left]. split; [done|]. intros ->. tauto.
  - intros i Hi. left. split; [done|]. intros ->. tauto.
Qed.

Lemma requeue_spec rid s W R S T :
  core (kv_mgr s) (requests s) W R (rid :: S) T →
  ∃ s', requeue rid s = (Ok tt, s') ∧ limits s' = limits s ∧ waiting s' = rid :: waiting s ∧
    running s' = running s ∧ swapped s' = swapped s ∧ core (kv_mgr s') (requests s') (rid :: W) R S T.
Proof.
  intros Hc. unfold requeue. munfold. destruct (transition_spec rid SWAPPED WAITING s) as (r & _ & _ & ->).
  - intros i Hi. apply (co_swapped _ _ _ _ _ _ Hc). set_solver.
  - set_solver.
  - eexists. split_and!; try done. simpl. by apply core_requeue.
Qed.

Lemma swap_in_spec rid s W R S T :
  core (kv_mgr s) (requests s) W R (rid :: S) T → rid ∉ T →
  ∃ b s', swap_in_request cp_predict transfer_wait rid s = (Ok b, s') ∧ limits s' = limits s ∧ swapped s' = swapped s ∧
    ((b = false ∧ waiting s' = waiting s ∧ running s' = running s ∧
        core (kv_mgr s') (requests s') W R (rid :: S) T) ∨
     (b = true ∧ waiting s' = rid :: waiting s ∧ running s' = running s ∧
        core (kv_mgr s') (requests s') (rid :: W) R S T) ∨
     (b = true ∧ waiting s' = waiting s ∧ running s' = running s ++ [rid] ∧
        core (kv_mgr s') (requests s') W (rid :: R) S (rid :: T))).
Proof.
  intros Hc HT. unfold swap_in_request. munfold. case_bool_decide as Hre.
  { destruct (requeue_spec rid (set_swap_records (swapped_gpu_ids s) (swap_needs_reprefill s ∖ {[rid]}) s) W R S T Hc)
      as (s' & Hr & H1 & H2 & H3 & H4 & H5).
    munfold in Hr. rewrite Hr. eexists true, s'. split_and!; [done|done|done|right; left; done]. }
  set (ids := default [] _).
  destruct (prepare_swap_in_inv ng nc (kv_mgr s) [] ids (co_mgr _ _ _ _ _ _ Hc)) as (pairs & m1 & Hp & Hi1 & Hch & Hids).
  rewrite (on_mgr_run _ s _ _ Hp). cbv beta iota.
  assert (seq_to_gpu_blocks m1 = seq_to_gpu_blocks (kv_mgr s)) as Ht1 by (by rewrite Hch).
  destruct pairs as [|p pairs].
  { eexists false, _. split_and!; [done|done|done|left]. split_and!; try done. simpl.
    eapply core_mgr; [done|done|]. rewrite Ht1. apply (co_tables _ _ _ _ _ _ Hc). }
  destruct Hids as [?|Hids]; [done|]. set (ps := p :: pairs) in *.
  destruct (transfer_spec (set_mgr m1 s)) as (b & s3 & -> & Hf3 & Hm3 & _). simpl in Hm3.
  destruct (commit_swap_in_inv ng nc (kv_mgr s3) [] rid ids ps) as (m4 & Hcm & Hi4 & Ht4 & _).
  { by rewrite Hm3. }
  { rewrite Hm3, Ht1. apply eq_None_not_Some. intros Hx. by apply HT, (co_tables _ _ _ _ _ _ Hc). }
  { apply mapM_Some_1, Forall2_length in Hids. by rewrite length_fmap in Hids. }
  assert (core m4 (requests s) W R (rid :: S) (rid :: T)) as Hc4.
  { eapply core_mgr; [exact Hc|done|]. intros i. rewrite Ht4, Hm3, Ht1.
    destruct (decide (i = rid)) as [->|Hne]; [set_solver|]. rewrite lookup_insert_ne by done.
    intros Hx. apply elem_of_cons. right. by apply (co_tables _ _ _ _ _ _ Hc). }
  pose proof Hf3 as (E1 & E2 & E3 & E4 & E5). simpl in E1, E2, E3, E4, E5. destruct b.
  - rewrite (on_mgr_run _ s3 _ _ Hcm). cbv beta iota. set (s5 := set_swap_records _ _ _).
    destruct (transition_spec rid SWAPPED WAITING s5) as (r & _ & _ & ->).
    { intros i Hi. simpl. rewrite E5. apply (co_swapped _ _ _ _ _ _ Hc). set_solver. } { set_solver. }
    set (s6 := set_requests _ s5).
    assert (core m4 (requests s6) (rid :: W) R S (rid :: T)) as Hc6.
    { simpl. rewrite E5. by apply core_requeue. }
    destruct (transition_spec rid WAITING RUNNING s6) as (r' & _ & _ & ->).
    { intros i Hi. apply (co_waiting _ _ _ _ _ _ Hc6). set_solver. } { set_solver. }
    eexists true, _. split_and!; [done|done|done|right; right]. split_and!; [done|done|simpl; congruence|].
    by apply core_start.
  - rewrite (on_mgr_run _ s3 _ _ Hcm). cbv beta iota.
    destruct (free_spec rid (set_mgr m4 s3) W R (rid :: S) (rid :: T) T) as (s5 & s6 & -> & -> & Hf6 & Hc6).
    { simpl. by rewrite E5. } { set_solver. }
    destruct (requeue_spec rid (set_swap_records (delete rid (swapped_gpu_ids s6)) ({[rid]} ∪ swap_needs_reprefill s6) s6)
       W R S T Hc6) as (s8 & Hr & H1 & H2 & H3 & H4 & H5).
    munfold in Hr. rewrite Hr. destruct Hf6 as (F1 & F2 & F3 & F4 & F5). unfold limits in *. simpl in *.
    eexists true, s8. split_and!; [done|congruence|congruence|right; left]. split_and!; [done|congruence|congruence|done].
Qed.

(** ** Admission *)

(** The invariant inside [schedule]: [N] is [new_running], [P] the requests
    swapped out before the call. *)
Definition good s N P : Prop :=
  core (kv_mgr s) (requests s) (waiting s) (N ++ running s) (P ++ swapped s) (N ++ running s).
(** The same while [rid] is off the queue, with blocks if [b]. *)
Definition mid s N P rid (b : bool) : Prop :=
  core (kv_mgr s) (requests s) (rid :: waiting s) (N ++ running s) (P ++ swapped s)
    (if b then rid :: N ++ running s else N ++ running s).

Lemma head_not_running m rq rid W R S T : core m rq (rid :: W) R S T → rid ∉ R.
Proof. intros Hc. pose proof (co_nodup _ _ _ _ _ _ Hc) as Hnd. apply NoDup_cons in Hnd as [Hni _]. set_solver. Qed.

Lemma allocate_mid rid s N P :
  mid s N P rid false → ∃ b k s', alloc rid s = (Ok (b, k), s') ∧ frame s s' ∧ mid s' N P rid b.
Proof.
  intros Hm. destruct (allocate_spec rid s _ _ _ _ Hm) as (b & k & s' & -> & Hf & Hc).
  { by eapply head_not_running. }
  exists b, k, s'. split_and!; [done|done|]. destruct Hf as (_ & E2 & E3 & E4 & E5). unfold mid.
  by rewrite E2, E3, E4.
Qed.

Lemma make_room_spec fuel rid b k pre s N P :
  mid s N P rid b → (length (running s) ≤ fuel)%nat →
  ∃ b' k' pre' s', make_room hash_block_tokens cp_predict transfer_wait fuel rid (b, k) pre s = (Ok (b', k', pre'), s') ∧
    limits s' = limits s ∧ waiting s' = waiting s ∧ mid s' N P rid b' ∧
    ∃ l, pre' = pre ++ l ∧ running s = l ++ running s' ∧ swapped s' = swapped s ++ l ∧ (b' = false → running s' = []).
Proof.
  revert b k pre s. induction fuel as [|fuel IH]; intros b k pre s Hm Hf; cbn [make_room]; munfold; cbn [fst].
  { exists b, k, pre, s. destruct (running s) eqn:E; [|simpl in Hf; lia]. split_and!; try done. exists [].
    rewrite !app_nil_r. by split_and!. }
  destruct b.
  { exists true, k, pre, s. split_and!; try done. exists []. rewrite !app_nil_r. by split_and!. }
  destruct (running s) as [|v rest] eqn:Er.
  { exists false, k, pre, s. split_and!; try done. exists []. rewrite !app_nil_r. split_and!; try done; by rewrite Er. }
  unfold mid in Hm. rewrite Er in Hm.
  destruct (preempt_spec v (set_running rest s) (rid :: waiting s) (N ++ v :: rest) (P ++ swapped s)
              (N ++ v :: rest) (N ++ rest) (N ++ rest)) as (s1 & Hp & E1 & E2 & E3 & E4 & Hc1).
  { exact Hm. } { solve_Permutation. } { set_solver. }
  munfold in Hp. rewrite Hp. simpl in E2, E3, E4.
  assert (mid s1 N P rid false) as Hm1.
  { unfold mid. rewrite E2, E3, E4. revert Hc1. apply core_proper; try done. solve_Permutation. }
  destruct (allocate_mid rid s1 N P Hm1) as (b2 & k2 & s2 & -> & Hf2 & Hm2).
  destruct Hf2 as (F1 & F2 & F3 & F4 & F5).
  destruct (IH b2 k2 (pre ++ [v]) s2 Hm2) as (b' & k' & pre' & s' & Hrun & G1 & G2 & Hm' & l & G3 & G4 & G5 & G6).
  { rewrite F3, E3. simpl in Hf. lia. }
  munfold in Hrun. rewrite Hrun. exists b', k', pre', s'. unfold limits in *. simpl in E1.
  split_and!; [done|congruence|congruence|done|]. exists (v :: l). rewrite G3, G5, F4, E4. rewrite F3, E3 in G4.
  split_and!; [by rewrite <- app_assoc|by rewrite G4|by rewrite <- app_assoc|done].
Qed.

Lemma mid_drop s N P rid b : mid s N P rid b → b = false → good (set_waiting (rid :: waiting s) s) N P.
Proof. by intros Hm ->. Qed.

Local Abbreviation admitting := (admit_loop hash_block_tokens cp_predict transfer_wait).

(** All requests the scheduler knows. *)
Definition everyone s N : list string := waiting s ++ N ++ running s ++ swapped s.

(** What the admission loop guarantees. *)
Record admit_post s (a : AdmitAcc) s' (a' : AdmitAcc) P : Prop := {
  ap_limits : limits s' = limits s;
  ap_good : good s' (ad_new a') P;
  ap_everyone : everyone s' (ad_new a') ≡ₚ everyone s (ad_new a);
  ap_tokens : ad_tokens a' ≤ max_num_batched_tokens s;
  ap_seqs : zlen (running s') + zlen (ad_new a') ≤ max_num_seqs s;
  ap_preempted : ∃ l, ad_preempted a' = ad_preempted a ++ l ∧ swapped s' = swapped s ++ l
}.

Lemma admit_post_here s a P s' :
  good s' (ad_new a) P → limits s' = limits s → waiting s' = waiting s → running s' = running s → swapped s' = swapped s →
  ad_tokens a ≤ max_num_batched_tokens s → zlen (running s) + zlen (ad_new a) ≤ max_num_seqs s →
  admit_post s a s' a P.
Proof.
  intros Hg H1 H2 H3 H4 Ht Hn. constructor; [done|done| |done|by rewrite H3|].
  - unfold everyone. by rewrite H2, H3, H4.
  - exists []. by rewrite !app_nil_r.
Qed.

(** After one admitted request the loop goes on from a state it accepts. *)
Lemma admit_post_step s a s1 a1 s' a' P :
  limits s1 = limits s → everyone s1 (ad_new a1) ≡ₚ everyone s (ad_new a) →
  (∃ l, ad_preempted a1 = ad_preempted a ++ l ∧ swapped s1 = swapped s ++ l) →
  admit_post s1 a1 s' a' P → admit_post s a s' a' P.
Proof.
  intros H1 H2 (l1 & L1 & L1') [G1 G2 G3 G4 G5 (l2 & L2 & L2')]. unfold limits in *. constructor.
  - unfold limits. congruence.
  - done.
  - by rewrite G3.
  - injection H1 as _ <-. done.
  - injection H1 as <- _. done.
  - exists (l1 ++ l2). rewrite L2, L1, L2', L1'. by rewrite !(assoc_L (++)).
Qed.

Lemma admit_spec fuel a s P :
  good s (ad_new a) P → ad_tokens a ≤ max_num_batched_tokens s →
  zlen (running s) + zlen (ad_new a) ≤ max_num_seqs s →
  ∃ a' s', admitting fuel a s = (Ok a', s') ∧ admit_post s a s' a' P.
Proof.
  revert a s. induction fuel as [|fuel IH]; intros a s Hg Ht Hn; cbn [admit_loop]; munfold.
  { exists a, s. split; [done|]. by apply admit_post_here. }
  destruct (waiting s) as [|rid rest] eqn:Ew; [exists a, s; split; [done|]; by apply admit_post_here|].
  destruct (Z.leb_spec (max_num_seqs s) (zlen (running s) + zlen (ad_new a))) as [Hfull|Hroom].
  { exists a, s. split; [done|]. by apply admit_post_here. }
  unfold good in Hg. rewrite Ew in Hg. set (s0 := set_waiting rest s).
  destruct (allocate_mid rid s0 (ad_new a) P Hg) as (b & k & s1 & -> & Hf1 & Hm1).
  destruct (make_room_spec (length (running s1)) rid b k (ad_preempted a) s1 (ad_new a) P Hm1)
    as (b' & k' & pre' & s2 & Hrun & G1 & G2 & Hm2 & l & G3 & G4 & G5 & G6); [done|].
  munfold in Hrun. rewrite Hrun. cbv beta iota. destruct Hf1 as (F1 & F2 & F3 & F4 & F5). simpl in F1, F2, F3, F4, F5.
  assert (limits s2 = limits s) as EL by (rewrite G1; exact F1).
  assert (waiting s2 = rest) as EW by congruence.
  assert (running s = l ++ running s2) as ER by congruence.
  assert (swapped s2 = swapped s ++ l) as ES by congruence.
  assert (zlen (running s2) ≤ zlen (running s)) as Hlen by (rewrite ER, zlen_app; unfold zlen; lia).
  (* the request goes back to the queue *)
  assert (∀ s3, frame s2 s3 → mid s3 (ad_new a) P rid false →
    admit_post s a (set_waiting (rid :: waiting s3) s3) (mkAdmit (ad_new a) pre' (ad_tokens a)) P) as Hback.
  { intros s3 (K1 & K2 & K3 & K4 & K5) Hm3. constructor; simpl; try done; [by rewrite <- EL, <- K1| |rewrite K3; lia|].
    - unfold everyone. simpl. rewrite K2, K3, K4, EW, ES, Ew, ER. solve_Permutation.
    - exists l. by rewrite K4. }
  destruct b'; cbn [negb].
  - unfold limits in EL. injection EL as EL1 EL2. rewrite EL2.
    destruct (Z.ltb_spec (max_num_batched_tokens s) (ad_tokens a + (zlen (prompt_of rid s) - k'))) as [Hbig|Hfit].
    + destruct (free_spec rid s2 _ _ _ _ (ad_new a ++ running s2) Hm2) as (s3 & s4 & -> & -> & Hf4 & Hc4).
      { intros i Hi Hne. simpl in Hi. set_solver. }
      eexists _, _. split; [done|]. apply Hback; [done|]. destruct Hf4 as (_ & K2 & K3 & K4 & K5).
      unfold mid. by rewrite K2, K3, K4.
    + destruct (transition_spec rid WAITING RUNNING s2) as (r & _ & _ & ->).
      { intros i Hi. apply (co_waiting _ _ _ _ _ _ Hm2). set_solver. } { set_solver. }
      set (s3 := set_generated _ _). set (a1 := mkAdmit _ _ _).
      assert (good s3 (ad_new a1) P) as Hg3.
      { unfold good, s3, a1. simpl. rewrite <- app_assoc. simpl.
        eapply core_proper; [done|symmetry; apply Permutation_middle|done|symmetry; apply Permutation_middle|].
        by apply core_start. }
      destruct (IH a1 s3 Hg3) as (a' & s' & Hr & Hpost).
      * simpl. by rewrite EL2.
      * simpl. rewrite EL1, zlen_app. change (zlen [rid]) with 1. lia.
      * munfold in Hr. rewrite Hr. exists a', s'. split; [done|]. eapply admit_post_step; [| | |exact Hpost].
        -- unfold limits. simpl. congruence.
        -- unfold everyone. simpl. rewrite EW, ES, Ew, ER. solve_Permutation.
        -- exists l. simpl. done.
  - eexists _, _. split; [done|]. by apply Hback.
Qed.

(** ** The rest of [schedule] *)
Lemma swap_in_loop_spec l acc s :
  good s [] l → zlen (running s) ≤ max_num_seqs s →
  ∃ r s', swap_in_loop cp_predict transfer_wait l acc s = (Ok r, s') ∧ limits s' = limits s ∧ good s' [] [] ∧
    everyone s' [] ≡ₚ l ++ everyone s [] ∧ zlen (running s') ≤ max_num_seqs s ∧
    running s `prefix_of` running s' ∧ swapped s `prefix_of` swapped s'.
Proof.
  revert acc s. induction l as [|rid l IH]; intros acc s Hg Hn; cbn [swap_in_loop]; munfold.
  { exists acc, s. by split_and!. }
  assert (∀ s1, core (kv_mgr s1) (requests s1) (waiting s1) (running s1) (rid :: l ++ swapped s1) (running s1) →
     good (set_swapped (swapped s1 ++ [rid]) s1) [] l) as Hkeep.
  { intros s1 Hc. unfold good. simpl. revert Hc. apply core_proper; try done. solve_Permutation. }
  destruct (Z.leb_spec (max_num_seqs s) (zlen (running s))) as [Hfull|Hroom].
  { destruct (IH acc _ (Hkeep s Hg) Hn) as (r & s' & Hr & E1 & E2 & E3 & E4 & E5 & E6). munfold in Hr. rewrite Hr.
    exists r, s'. split_and!; try done; [|etrans; [|exact E6]; by eexists]. rewrite E3. unfold everyone. simpl. solve_Permutation. }
  destruct (swap_in_spec rid s (waiting s) (running s) (l ++ swapped s) (running s) Hg) as (b & s1 & Hs & E1 & E2 & Hcase).
  { pose proof (co_nodup _ _ _ _ _ _ Hg) as Hnd. apply NoDup_app in Hnd as (_ & _ & Hnd). simpl in Hnd.
    apply NoDup_app in Hnd as (_ & Hd & _). intros Hi. apply (Hd rid Hi). set_solver. }
  munfold in Hs. rewrite Hs. unfold limits in E1. injection E1 as E11 E12.
  destruct Hcase as [(-> & Ew & Er & Hc)|[(-> & Ew & Er & Hc)|(-> & Ew & Er & Hc)]].
  - destruct (IH acc (set_swapped (swapped s1 ++ [rid]) s1)) as (r & s' & Hr & F1 & F2 & F3 & F4 & F5 & F6).
    { apply Hkeep. by rewrite Ew, Er, E2. } { simpl. by rewrite Er, E11. }
    munfold in Hr. rewrite Hr. exists r, s'. unfold limits in *. simpl in *.
    split_and!; [done|congruence|done| |lia|congruence|]; [|rewrite E2 in F6; etrans; [|exact F6]; by eexists].
    rewrite F3. unfold everyone. simpl. rewrite Ew, Er, E2. solve_Permutation.
  - destruct (IH (acc ++ [rid]) s1) as (r & s' & Hr & F1 & F2 & F3 & F4 & F5 & F6).
    { unfold good. by rewrite Ew, Er, E2. } { by rewrite Er, E11. }
    munfold in Hr. rewrite Hr. exists r, s'. unfold limits in *. simpl in *.
    split_and!; [done|congruence|done| |lia|congruence|congruence]. rewrite F3. unfold everyone. simpl. rewrite Ew, Er, E2. solve_Permutation.
  - destruct (IH (acc ++ [rid]) s1) as (r & s' & Hr & F1 & F2 & F3 & F4 & F5 & F6).
    { unfold good. rewrite Ew, Er, E2. simpl. revert Hc. apply core_proper; try done; solve_Permutation. }
    { rewrite Er, E11, zlen_app. change (zlen [rid]) with 1. lia. }
    munfold in Hr. rewrite Hr. exists r, s'. unfold limits in *. simpl in *.
    split_and!; [done|congruence|done| |lia| |congruence].
    + rewrite F3. unfold everyone. simpl. rewrite Ew, Er, E2. solve_Permutation.
    + rewrite Er in F5. etrans; [|exact F5]. by eexists.
Qed.

Lemma engine_decode_spec admitted l sched n s :
  n ≤ max_num_batched_tokens s →
  ∃ l' s', decode_loop admitted l sched n s = (Ok (sched ++ l', n + zlen l'), s') ∧ frame s s' ∧ kv_mgr s' = kv_mgr s ∧
    l' `sublist_of` l ∧ (∀ i, i ∈ l' → i ∉ admitted) ∧ n + zlen l' ≤ max_num_batched_tokens s.
Proof.
  revert sched n s. induction l as [|rid l IH]; intros sched n s Hn; cbn [decode_loop]; munfold.
  { exists [], s. rewrite app_nil_r. change (zlen ([] : list string)) with 0. rewrite Z.add_0_r.
    split_and!; try done. set_solver. }
  case_decide as Hd.
  { destruct (IH sched n s Hn) as (l' & s' & Hr & H1 & H2 & H3 & H4 & H5). exists l', s'.
    split_and!; try done. by apply sublist_cons. }
  destruct (Z.ltb_spec (max_num_batched_tokens s) (n + 1)) as [Hfull|Hroom].
  { exists [], s. rewrite app_nil_r. change (zlen ([] : list string)) with 0. rewrite Z.add_0_r.
    split_and!; try done; [apply sublist_nil_l|set_solver]. }
  set (s1 := set_generated _ s).
  destruct (IH (sched ++ [rid]) (n + 1) s1) as (l' & s' & Hr & H1 & H2 & H3 & H4 & H5); [done|].
  munfold in Hr. rewrite Hr. exists (rid :: l'), s'. rewrite zlen_cons, <- app_assoc in *.
  replace (n + 1 + zlen l') with (n + (zlen l' + 1)) in * by lia. rewrite (Z.add_comm (zlen l') 1) in * .
  split_and!; [done|done|done|by apply sublist_skip| |done].
  intros i [->|Hi]%elem_of_cons; [done|by apply H4].
Qed.

Lemma insert_scored_perm x l : insert_scored x l ≡ₚ x :: l.
Proof.
  induction l as [|y l IH]; simpl; [done|]. destruct (Qle_bool _ _); [|done]. rewrite IH. solve_Permutation.
Qed.
Lemma order_waiting_perm s : order_waiting cp_predict s ≡ₚ waiting s.
Proof.
  unfold order_waiting. destruct cp_predict as [pr|]; [|done]. destruct (1 <? _); [|done].
  set (f := λ rid, (default 0%Q (pr rid (prompt_of rid s)), rid)).
  assert (sort_scored (f <$> waiting s) ≡ₚ f <$> waiting s) as ->.
  - unfold sort_scored. assert (∀ l acc, foldl (λ acc x, insert_scored x acc) acc l ≡ₚ l ++ acc) as Hx.
    { induction l as [|y l IH]; intros acc; simpl; [done|]. rewrite IH, insert_scored_perm. solve_Permutation. }
    rewrite Hx. by rewrite app_nil_r.
  - rewrite <- list_fmap_compose. change (snd ∘ f) with (λ rid : string, rid). by rewrite list_fmap_id.
Qed.

(** ** The scheduler's methods *)
Definition es_inv s : Prop :=
  good s [] [] ∧ zlen (running s) ≤ max_num_seqs s ∧ 0 ≤ max_num_batched_tokens s.

Local Abbreviation sched := (schedule hash_block_tokens cp_predict transfer_wait).

Lemma engine_schedule_spec s :
  es_inv s →
  ∃ out s', sched s = (Ok out, s') ∧ es_inv s' ∧ limits s' = limits s ∧ everyone s' [] ≡ₚ everyone s [] ∧
    num_batched_tokens out ≤ max_num_batched_tokens s ∧ NoDup (scheduled_seqs out) ∧
    (∀ rid, rid ∈ scheduled_seqs out → rid ∈ running s') ∧ (∀ rid, rid ∈ preempted_seqs out → rid ∈ swapped s').
Proof.
  intros (Hg & Hn & Ht). unfold schedule. munfold. cbv beta.
  set (s1 := set_waiting _ (set_swapped [] s)).
  assert (good s1 [] (swapped s)) as Hg1.
  { unfold good, s1. simpl. unfold good in Hg. simpl in Hg. rewrite app_nil_r. revert Hg.
    apply core_proper; try done. apply (order_waiting_perm (set_swapped [] s)). }
  destruct (admit_spec (length (waiting s1)) (mkAdmit [] [] 0) s1 (swapped s) Hg1 Ht) as (a & s2 & Hr & Hpost).
  { simpl. change (zlen ([] : list string)) with 0. lia. }
  munfold in Hr. rewrite Hr. destruct Hpost as [P1 P2 P3 P4 P5 (pl & P6 & P6')]. simpl in P6, P6'.
  set (s3 := set_running (running s2 ++ ad_new a) s2).
  assert (good s3 [] (swapped s)) as Hg3.
  { unfold good, s3. simpl. revert P2. apply core_proper; try done; solve_Permutation. }
  unfold limits in P1. injection P1 as P11 P12. simpl in P11, P12.
  destruct (swap_in_loop_spec (swapped s) [] s3 Hg3) as (sin & s4 & Hr4 & Q1 & Q2 & Q3 & Q4 & Q5 & Q6).
  { simpl. rewrite zlen_app, P11. exact P5. }
  munfold in Hr4. rewrite Hr4. unfold limits in Q1. injection Q1 as Q11 Q12. simpl in Q11, Q12, Q4.
  destruct (engine_decode_spec (ad_new a) (running s4) (ad_new a) (ad_tokens a) s4) as
    (l' & s5 & Hr5 & (F1 & F2 & F3 & F4 & F5) & F6 & F7 & F8 & F9).
  { rewrite Q12, P12. exact P4. }
  munfold in Hr5. rewrite Hr5. eexists _, s5. split; [done|]. unfold limits in F1. injection F1 as F11 F12.
  assert (es_inv s5) as Hinv.
  { split_and!; [unfold good; rewrite F6, F5, F2, F3, F4; exact Q2|rewrite F3, F11; lia|lia]. }
  assert (NoDup (running s5)) as Hndr.
  { destruct Hinv as (Hc & _). pose proof (co_nodup _ _ _ _ _ _ Hc) as Hnd.
    apply NoDup_app in Hnd as (_ & _ & Hnd). by apply NoDup_app in Hnd as (? & _). }
  assert (∀ rid, rid ∈ ad_new a → rid ∈ running s5) as Hnew.
  { intros rid Hi. rewrite F3. destruct Q5 as [app ->]. simpl. set_solver. }
  cbn [scheduled_seqs preempted_seqs num_batched_tokens fst snd].
  split_and!; [done|unfold limits; congruence| |by rewrite Q12, P12 in F9| | |].
  - unfold everyone in *. rewrite F2, F3, F4, Q3. simpl in *.
    assert (waiting s2 ++ (running s2 ++ ad_new a) ++ swapped s2 ≡ₚ waiting s ++ running s) as ->.
    { rewrite <- (order_waiting_perm (set_swapped [] s)). rewrite app_nil_r in P3. rewrite <- P3. solve_Permutation. }
    solve_Permutation.
  - apply NoDup_app. split_and!.
    + destruct P2 as [_ Hnd _ _ _ _]. apply NoDup_app in Hnd as (_ & _ & Hnd). apply NoDup_app in Hnd as (Hnd & _).
      by apply NoDup_app in Hnd as (? & _).
    + intros i Hi Hl. by apply (F8 i Hl).
    + eapply sublist_NoDup; [|exact F7]. by rewrite <- F3.
  - intros rid [Hi|Hi]%elem_of_app; [by apply Hnew|]. rewrite F3. by eapply elem_of_sublist.
  - intros rid Hi. rewrite F4. destruct Q6 as [app ->]. simpl. rewrite P6'. set_solver.
Qed.

Lemma register_blocks_spec hs ids m E :
  mgr_inv ng nc m E →
  ∃ m', register_blocks hs ids m = (Ok tt, m') ∧ mgr_inv ng nc m' E ∧ seq_to_gpu_blocks m' = seq_to_gpu_blocks m.
Proof.
  revert ids m. induction hs as [|h hs IH]; intros ids m Hi; [by exists m|].
  destruct ids as [|id ids]; [by exists m|]. cbn [register_blocks]. munfold. unfold get_gpu_block.
  case_decide as Hd; [|by exists m]. unfold cache_gpu_block. munfold. set (m1 := set_gpu _ _ m).
  assert (mgr_inv ng nc m1 E) as Hi1.
  { destruct Hi as [[(a & Hv & Hr) Ht Hrg] Hc]. split; [|by apply (cpu_inv_frame _ m)].
    destruct (view_cache_full ng _ a id h Hv) as (a' & Hv' & _ & Hrefs); [apply Hrg; by apply Ht|].
    constructor; [|done|done]. exists a'. split; [done|]. intros i r x Hx.
    destruct (proj1 (Hrefs i r)) as [x' Hx']; [eauto|]. by eapply Hr. }
  destruct (IH ids m1 Hi1) as (m2 & Hf & Hi2 & Ht2). munfold in Hf. rewrite Hf. by exists m2.
Qed.

Lemma register_when_spec b rid s :
  mgr_inv ng nc (kv_mgr s) [] →
  ∃ s1, when b (register_completed_blocks_in_cache hash_block_tokens rid) s = (Ok tt, s1) ∧ frame s s1 ∧
    mgr_inv ng nc (kv_mgr s1) [] ∧ seq_to_gpu_blocks (kv_mgr s1) = seq_to_gpu_blocks (kv_mgr s).
Proof.
  intros Hi. destruct b; [|by exists s]. unfold when, register_completed_blocks_in_cache, mbind, M_bind, get. cbv beta iota.
  match goal with |- context [register_blocks ?hs ?ids] =>
    destruct (register_blocks_spec hs ids (kv_mgr s) [] Hi) as (m & Hr & Hm & Htb) end.
  rewrite (on_mgr_run _ s _ _ Hr). eexists. by split_and!.
Qed.

Lemma have_status_sub rq l l' st : have_status rq l st → (∀ i, i ∈ l' → i ∈ l) → have_status rq l' st.
Proof. intros Hs Hl i Hi. by apply Hs, Hl. Qed.

Lemma core_remove m rq W R S T rid m' :
  core m rq W R S R → mgr_inv ng nc m' [] → seq_to_gpu_blocks m' = delete rid (seq_to_gpu_blocks m) →
  let f := filter (λ i, i ≠ rid) in core m' rq (f W) (f R) (f S) (f R).
Proof.
  intros [H1 H2 H3 H4 H5 H6] Hi Ht f.
  assert (∀ l i, i ∈ f l ↔ i ∈ l ∧ i ≠ rid) as Hf by (intros l i; unfold f; rewrite list_elem_of_filter; tauto).
  constructor; [done| |by eapply have_status_sub; [done|]; intros i [? _]%Hf..|].
  - unfold f. rewrite <- !filter_app. by apply NoDup_filter.
  - intros i. rewrite Ht. intros [x Hx]. apply lookup_delete_Some in Hx as [Hne Hx]. apply Hf.
    split; [apply H6; eauto|done].
Qed.

Lemma finish_spec rid s :
  es_inv s →
  ∃ s', finish_request hash_block_tokens cp_predict rid s = (Ok tt, s') ∧ es_inv s' ∧ limits s' = limits s ∧
    let f := filter (λ i, i ≠ rid) in
    waiting s' = f (waiting s) ∧ running s' = f (running s) ∧ swapped s' = f (swapped s).
Proof.
  intros (Hg & Hn & Ht). unfold finish_request, mbind, M_bind, get. cbv beta iota.
  set (b := bool_decide _ && _).
  destruct (register_when_spec b rid s (co_mgr _ _ _ _ _ _ Hg)) as (s1 & -> & Hf1 & Hi1 & Ht1).
  cbv beta iota. unfold notify_cp_blocks_freed, modify. cbv beta iota.
  match goal with |- context [on_mgr (free_sequence rid) ?x] => set (s2 := x) end.
  destruct (free_sequence_inv ng nc (kv_mgr s2) [] rid Hi1) as (m & Hfs & Hi & Htb & _).
  rewrite (on_mgr_run _ s2 _ _ Hfs). destruct Hf1 as (E1 & E2 & E3 & E4 & E5). unfold limits in *. simpl in *.
  injection E1 as E11 E12.
  eexists. split_and!; [done| |simpl; congruence|simpl; by rewrite ?E2, ?E3, ?E4..].
  split_and!; simpl; [|rewrite E3, E11; etrans; [|exact Hn]|by rewrite E12].
  - unfold good. simpl. rewrite E2, E3, E4, E5.
    apply (core_remove (kv_mgr s) (requests s) _ _ _ (running s)); [done|done|]. rewrite Htb. simpl. by rewrite Ht1.
  - unfold zlen. apply inj_le, length_filter.
Qed.

Lemma add_spec r s :
  es_inv s → request_id r ∉ everyone s [] → status r = WAITING →
  let s' := (add_request r s).2 in
  (add_request r s).1 = Ok tt ∧ es_inv s' ∧ limits s' = limits s ∧ waiting s' = waiting s ++ [request_id r] ∧
  running s' = running s ∧ swapped s' = swapped s.
Proof.
  intros (Hg & Hn & Ht) Hr Hs s'. split_and!; try done. split_and!; try done. unfold good. simpl.
  unfold everyone in Hr. simpl in Hr. destruct Hg as [H1 H2 H3 H4 H5 H6]. simpl in *.
  assert (∀ l st, have_status (requests s) l st → request_id r ∉ l → have_status (<[request_id r := r]> (requests s)) l st) as Hx
    by (intros; apply have_status_insert; auto).
  rewrite !not_elem_of_app in Hr. destruct Hr as (Hw & Hr & Hsw). constructor; try done.
  - assert (NoDup (request_id r :: waiting s ++ running s ++ swapped s)) as Hnd
      by (apply NoDup_cons; split; [rewrite !not_elem_of_app; tauto|done]).
    eapply NoDup_Permutation_proper; [|exact Hnd]. solve_Permutation.
  - intros i [Hi|Hi]%elem_of_app; [by apply (Hx (waiting s))|]. apply list_elem_of_singleton in Hi as ->.
    exists r. by rewrite lookup_insert_eq.
  - by apply Hx.
  - by apply Hx.
Qed.

(** ** Reachable states *)
Inductive es_call : Scheduler → Scheduler → Prop :=
  | call_add r s : request_id r ∉ everyone s [] → status r = WAITING → es_call s (add_request r s).2
  | call_schedule s : es_call s (sched s).2
  | call_finish rid s : es_call s (finish_request hash_block_tokens cp_predict rid s).2.

(** States reached from a fresh manager with [ng] GPU and [nc] CPU blocks by
    [add_request] of new waiting requests, [schedule] and [finish_request]. *)
Definition es_reachable s : Prop :=
  ∃ bs max_seqs max_tokens, 0 ≤ max_seqs ∧ 0 ≤ max_tokens ∧
    rtc es_call (sched_init (mgr_init ng nc bs) max_seqs max_tokens) s.

Lemma es_reachable_inv s : es_reachable s → es_inv s.
Proof.
  intros (bs & ms & mt & Hms & Hmt & Hr).
  assert (es_inv (sched_init (mgr_init ng nc bs) ms mt)) as H0.
  { split_and!; [|done|done]. constructor; simpl; try (by intros ? ?%not_elem_of_nil); [apply mgr_init_inv|apply NoDup_nil_2|].
    intros rid. rewrite lookup_empty. by intros [? ?]. }
  induction Hr as [|s1 s2 s3 Hc _ IH]; [done|]. apply IH.
  destruct Hc as [r s Hid Hst|s|rid s].
  - by apply (add_spec r s H0).
  - destruct (engine_schedule_spec s H0) as (out & s' & -> & Hi & _). done.
  - destruct (finish_spec rid s H0) as (s' & -> & Hi & _). done.
Qed.

(** ** The theorems *)


(** C34: In every reachable state the reference count of each GPU block is the
    number of times it occurs in the block tables, only running requests own
    tables, and a block is free exactly when no table holds it; when nothing
    runs, all GPU blocks are free. *)
Theorem engine_blocks_accounted s :
  0 ≤ ng → es_reachable s →
  let m := kv_mgr s in
  (∀ id, 0 ≤ id < ng →
     ref_cnt <$> blocks (gpu_pool m) !! id = Some (occ id (held (seq_to_gpu_blocks m)))) ∧
  (∀ rid, is_Some (seq_to_gpu_blocks m !! rid) → rid ∈ running s) ∧
  (running s = [] → num_free_gpu_blocks m = ng).
Proof.
  intros Hng Hs m. destruct (es_reachable_inv s Hs) as (Hg & _ & _).
  destruct (co_mgr _ _ _ _ _ _ Hg) as [Hgi _]. pose proof (co_tables _ _ _ _ _ _ Hg) as Ht. simpl in Ht, Hgi.
  split_and!; [|done|].
  - intros id Hid. destruct (gpu_inv_lookup ng _ _ id Hgi Hid) as (a & h & Hv & Hx & _).
    unfold m. by rewrite (view_ref ng _ _ id Hv), Hx.
  - intros Hrun. assert (seq_to_gpu_blocks m = ∅) as He.
    { apply map_eq. intros i. rewrite lookup_empty. apply eq_None_not_Some. intros Hx. apply Ht in Hx.
      rewrite Hrun in Hx. by apply not_elem_of_nil in Hx. }
    destruct (gpu_free_list ng m _ Hgi) as (l & Hnd & -> & Hl).
    assert (l ≡ₚ seqZ 0 ng) as Hp.
    { apply NoDup_Permutation; [done|apply NoDup_seqZ|]. intros id. rewrite Hl, elem_of_seqZ. unfold m in He. rewrite He.
      change (held ∅) with (@nil Z). split; [lia|]. intros ?. split; [lia|]. apply not_elem_of_nil. }
    unfold zlen. rewrite Hp, length_seqZ. lia.
Qed.
End scheduler.

(** ** A run with preemption and swap-in *)
Definition demo_hash (p : Z) (l : list Z) : Z := foldl (λ h x, (h * 31 + x + 7) mod 1000003) (p + 1) l.
Definition demo_req (rid : string) (prompt : list Z) : Request := mkRequest rid prompt default_sampling WAITING 0.
(** Three GPU blocks of four tokens: [b] does not fit beside [a]. *)
Definition demo_s0 : Scheduler := sched_init (mgr_init 3 4 4) 4 64.
Definition demo_s1 : Scheduler := (schedule demo_hash None None (add_request (demo_req "a" [1; 2; 3; 4; 5]) demo_s0).2).2.
Definition demo_s2 : Scheduler := (add_request (demo_req "b" [6; 7; 8; 9; 10; 11]) demo_s1).2.

Example demo_preempts :
  (schedule demo_hash None None demo_s2).1 = Ok (mkOutput ["b"] ["a"] [] 6).
Proof. vm_compute. reflexivity. Qed.

Lemma demo_s2_reachable : es_reachable demo_hash None None 3 4 demo_s2.
Proof.
  unfold demo_s2, demo_s1, demo_s0. exists 4, 4, 64. split_and!; [lia|lia|].
  eapply rtc_l; [apply (call_add _ _ _ (demo_req "a" [1; 2; 3; 4; 5])); [apply (bool_decide_unpack _); vm_compute; exact I|reflexivity]|].
  eapply rtc_l; [apply call_schedule|].
  eapply rtc_l; [apply (call_add _ _ _ (demo_req "b" [6; 7; 8; 9; 10; 11])); [apply (bool_decide_unpack _); vm_compute; exact I|reflexivity]|].
  apply rtc_refl.
Qed.


Lemma engine_blocks_accounted_witness :
  ref_cnt <$> blocks (gpu_pool (kv_mgr demo_s2)) !! 0 = Some (occ 0 (held (seq_to_gpu_blocks (kv_mgr demo_s2)))).
Proof.
  apply (engine_blocks_accounted demo_hash None None 3 4 demo_s2).
  - lia.
  - exact demo_s2_reachable.
  - lia.
Defined.
