(* ===== verification/TransferScheduler.v ===== *)
(** * The transfer scheduler (engine/transfer_types.py,
    engine/unified_transfer_scheduler.py)

    Clients enqueue, cancel and wait for transfers; one worker thread pops the
    most urgent request, skips it if it was cancelled, and runs its handler.
    Methods that hold the lock are atomic steps; the worker's pop, its check and
    the completion of the handler are separate steps that interleave with the
    clients.  [threading.Event] objects are numbered. *)
From S2P Require Import Prelude PyCollections.
Import Heapq.

(** ** engine/transfer_types.py *)
Inductive TransferType := EXPERT_FETCH | EXPERT_EVICT | KV_SWAP_IN | KV_SWAP_OUT.
#[export] Instance TransferType_eq_dec : EqDecision TransferType.
Proof. solve_decision. Defined.

Inductive TransferPriority := URGENT | HIGH | NORMAL | LOW | BACKGROUND.
Definition priority_value (p : TransferPriority) : Z :=
  match p with URGENT => 0 | HIGH => 5 | NORMAL => 10 | LOW => 15 | BACKGROUND => 19 end.

Record TransferRequest := mkTransfer {
  transfer_id : string;
  transfer_type : TransferType;
  priority : TransferPriority;
  source_device : string;
  target_device : string;
  tensor_id : option string;
  block_ids : list Z
}.

(** [TransferResult.status] *)
Inductive TransferStatus := COMPLETED | FAILED | CANCELLED.
#[export] Instance TransferStatus_eq_dec : EqDecision TransferStatus.
Proof. solve_decision. Defined.

(** ** UnifiedTransferScheduler *)
Definition entry : Type := Z * Z * TransferRequest.
Definition entry_le (x y : entry) : bool :=
  (x.1.1 <? y.1.1) || ((x.1.1 =? y.1.1) && (x.1.2 <=? y.1.2)).

(** Where the worker thread is. *)
Inductive worker_state :=
  | Idle
  | Popped (r : TransferRequest)      (** between [heappop] and the check *)
  | Executing (r : TransferRequest)   (** in [_run_request] *)
  | Stopped.

Record TransferScheduler := mkTS {
  queue : list entry;
  seq_counter : Z;
  pending : gmap string nat;          (** the event of a transfer *)
  events_set : gset nat;
  next_event : nat;
  results : gmap string TransferStatus;
  cancelled : gset string;
  metrics : TransferType → Z * Z;     (** count and bytes *)
  is_running : bool;
  worker : worker_state
}.
Implicit Types t : TransferScheduler.

(** [__init__] *)
Definition ts_init : TransferScheduler := mkTS [] 0 ∅ ∅ 0 ∅ ∅ (λ _, (0, 0)) true Idle.

Definition with_id (i : string) (r : TransferRequest) : TransferRequest :=
  mkTransfer i (transfer_type r) (priority r) (source_device r) (target_device r) (tensor_id r) (block_ids r).

(** [enqueue]; [fresh] is [str(uuid.uuid4())]. *)
Definition enqueue (r : TransferRequest) (fresh : string) t : string * TransferScheduler :=
  let i := if decide (transfer_id r = "") then fresh else transfer_id r in
  (i, mkTS (heappush entry_le (priority_value (priority r), seq_counter t + 1, with_id i r) (queue t))
        (seq_counter t + 1) (<[i := next_event t]> (pending t)) (events_set t) (S (next_event t))
        (results t) (cancelled t) (metrics t) (is_running t) (worker t)).

(** [cancel] *)
Definition cancel (i : string) t : bool * TransferScheduler :=
  match pending t !! i with
  | None => (false, t)
  | Some ev =>
      (true, mkTS (queue t) (seq_counter t) (delete i (pending t)) ({[ev]} ∪ events_set t) (next_event t)
               (<[i := CANCELLED]> (results t)) ({[i]} ∪ cancelled t) (metrics t) (is_running t) (worker t))
  end.

(** [wait]: what it returns at once, or the event it blocks on. *)
Inductive wait_outcome := WaitReturns (b : bool) | WaitsFor (ev : nat).
Definition wait (i : string) t : wait_outcome :=
  match pending t !! i with
  | None => WaitReturns (bool_decide (is_Some (results t !! i)))
  | Some ev => WaitsFor ev
  end.

(** [get_pending_count] *)
Definition get_pending_count (ty : TransferType) t : Z :=
  zlen (filter (λ e : entry, transfer_type e.2 = ty) (queue t)).

(** [get_result] *)
Definition get_result (i : string) t : option TransferStatus := results t !! i.

Definition set_worker (w : worker_state) t : TransferScheduler :=
  mkTS (queue t) (seq_counter t) (pending t) (events_set t) (next_event t) (results t) (cancelled t)
    (metrics t) (is_running t) w.

(** [shutdown] *)
Definition shutdown t : TransferScheduler :=
  mkTS (queue t) (seq_counter t) (pending t) (events_set t) (next_event t) (results t) (cancelled t)
    (metrics t) false (worker t).

(** The end of [_run_request]; [ok] is false when the handler raised. *)
Definition finish_run (r : TransferRequest) (ok : bool) t : TransferScheduler :=
  let i := transfer_id r in
  let ty := transfer_type r in
  let '(count, bytes) := metrics t ty in
  mkTS (queue t) (seq_counter t) (delete i (pending t))
    (match pending t !! i with Some ev => {[ev]} ∪ events_set t | None => events_set t end) (next_event t)
    (<[i := if ok then COMPLETED else FAILED]> (results t)) (cancelled t)
    (λ ty', if decide (ty' = ty) then (count + 1, bytes + zlen (block_ids r)) else metrics t ty')
    (is_running t) Idle.

(** The next step of [_worker_loop]; [handler r] is false when the handler of
    [r] raises.  [None] while it waits for work. *)
Definition worker_step (handler : TransferRequest → bool) t : option TransferScheduler :=
  match worker t with
  | Stopped => None
  | Idle =>
      if is_running t then
        match heappop (queue t) with
        | None => None
        | Some (e, q) =>
            Some (mkTS q (seq_counter t) (pending t) (events_set t) (next_event t) (results t) (cancelled t)
                    (metrics t) (is_running t) (Popped e.2))
        end
      else Some (set_worker Stopped t)
  | Popped r =>
      if decide (transfer_id r ∈ cancelled t) then
        Some (mkTS (queue t) (seq_counter t) (pending t) (events_set t) (next_event t) (results t)
                (cancelled t ∖ {[transfer_id r]}) (metrics t) (is_running t) Idle)
      else Some (set_worker (Executing r) t)
  | Executing r => Some (finish_run r (handler r) t)
  end.
