(* ===== verification/TransferSchedulerProps.v ===== *)
(** * Transfers are neither lost nor starved *)
From S2P Require Import Prelude PyCollections TransferScheduler.
Import Heapq.

Implicit Types t : TransferScheduler.










(** ** Histories *)



(** ** The worker on its own *)
Fixpoint run_worker (handler : TransferRequest → bool) (n : nat) t : list TransferRequest * TransferScheduler :=
  match n with
  | O => ([], t)
  | S n' =>
      match worker_step handler t with
      | None => ([], t)
      | Some t' =>
          let '(l, t'') := run_worker handler n' t' in
          (match worker t with Executing r => r :: l | _ => l end, t'')
      end
  end.











(** ** The theorems *)



(** ** Reused ids *)
Definition demo_transfer (p : TransferPriority) (i : string) : TransferRequest :=
  mkTransfer i KV_SWAP_OUT p "cuda:0" "cpu" None [0; 1].
Definition wsteps (n : nat) t : TransferScheduler := (run_worker (λ _, true) n t).2.

(** A transfer cancelled while it executes leaves its id in [_cancelled];
    when the id is used again, as the ids derived from a request are, the worker
    drops the new transfer without a result and without setting its event, and
    [wait] on it can only time out. *)
Theorem stale_cancel_drops_transfer :
  let t1 := wsteps 2 (enqueue (demo_transfer HIGH "swap_out_a") "" ts_init).2 in
  let t2 := wsteps 1 (cancel "swap_out_a" t1).2 in
  let t3 := (enqueue (demo_transfer HIGH "swap_out_a") "" t2).2 in
  let t4 := wsteps 10 t3 in
  worker t2 = Idle ∧ queue t4 = [] ∧ worker t4 = Idle ∧
  wait "swap_out_a" t4 = WaitsFor 1 ∧ bool_decide (1%nat ∈ events_set t4) = false.
Proof. vm_compute. split_and!; reflexivity. Qed.



