(* ===== verification/GenerationLoop.v ===== *)
(** * The single-request generation loop (engine/generation_loop.py)

    [GenerationEngine.generate] over the two-tier KV cache manager: allocation,
    prefill, the decode loop with its block growth, and the [finally] that frees
    the sequence.  The model and the tensor operations of sampling are
    parameters; the model may raise.  [PromptTooLongError] is a [ValueError] and
    [KVCacheAllocationError] a [RuntimeError], as the classes inherit. *)
From S2P Require Import Prelude BlockPool KVCacheManager Sampler EngineTypes BlockPoolProps KVCacheManagerProps.
From Stdlib Require Import QArith.
Open Scope Z_scope.

(** The fields of [AttentionMetadata] (runtime/attention_types.py). *)
Record AttentionMetadata := mkMeta {
  block_tables : list (list Z);
  seq_lens : list Z;
  max_seq_len : Z;
  num_prefill_tokens : Z;
  num_decode_tokens : Z;
  slot_mapping : list Z;
  is_prefill : bool
}.

Record GenerationResult := mkGen {
  gen_request_id : string;
  gen_prompt : list Z;
  output_token_ids : list Z;
  gen_finish_reason : SequenceStatus
}.

(** The manager, and the forward passes made, latest last. *)
Record GenState := mkGS {
  g_mgr : KVCacheManager;
  g_calls : list (list Z * AttentionMetadata)
}.
Definition set_g_mgr (m : KVCacheManager) (g : GenState) : GenState := mkGS m (g_calls g).
Definition with_mgr {A} (x : M KVCacheManager A) : M GenState A := zoom g_mgr set_g_mgr x.

(** [_compute_slot_mapping] *)
Definition compute_slot_mapping (block_size : Z) (block_table : list Z) (num_tokens : Z) : list Z :=
  omap (λ token_idx,
    (λ b, b * block_size + token_idx mod block_size) <$> block_table !! Z.to_nat (token_idx / block_size))
    (seqZ 0 num_tokens).

Section generate.
Context (argmax : Row → nat) (topk : Row → nat → list nat) (sort_desc_indices : Row → list nat)
        (softmax : Row → list Q) (multinomial : nat → list Q → nat).
(** The model's forward function: one row of logits per token, or an exception.  It may keep
    state between calls, so it is a function of the calls made before, oldest first. *)
Context (forward : list (list Z * AttentionMetadata) → list Z → AttentionMetadata → res (list Row)).
Context (block_size eos_token_id : Z) (max_seq_length : option Z).

(** [_sample]; [n] numbers the draw. *)
Definition sample_token (n : nat) (logits : list Row) (params : SamplingParams) : res Z :=
  match last logits with
  | None => Err IndexError
  | Some final_logits =>
      if negb (Qle_bool 0 (temperature params)) then Err ValueError
      else if Qeq_bool (temperature params) 0 then Ok (Z.of_nat (argmax final_logits))
      else
        let l := if Qeq_bool (temperature params) 1 then final_logits else scale (temperature params) final_logits in
        let l := if 0 <? top_k params
                 then keep_only l (topk l (Z.to_nat (Z.min (top_k params) (zlen l)))) else l in
        let l := if Qle_bool 1 (top_p params) then l
                 else
                   let sorted_indices := sort_desc_indices l in
                   let mask := remove_mask (top_p params) (cumsum 0%Q (softmax (gather_row l sorted_indices))) in
                   keep_only l (omap (λ p : nat * bool, if p.2 then None else Some p.1) (zip sorted_indices mask)) in
        Ok (Z.of_nat (multinomial n (softmax l)))
  end.

(** [_run_forward] with a model, and [_sample] of its logits. *)
Definition run_forward (tokens : list Z) (meta : AttentionMetadata) : M GenState (list Row) := λ g,
  (forward (g_calls g) tokens meta, mkGS (g_mgr g) (g_calls g ++ [(tokens, meta)])).
Definition sample_next (logits : list Row) (sp : SamplingParams) : M GenState Z := λ g,
  (sample_token (length (g_calls g)) logits sp, g).

(** The decode loop: [k] iterations are left; the tokens so far and whether the
    loop ended for want of a block. *)
Fixpoint decode_steps (k : nat) (rid : string) (sp : SamplingParams) (num_prompt_tokens : Z)
    (block_table output_ids : list Z) : M GenState (list Z) :=
  match k with
  | O => mret output_ids
  | S k' =>
      if bool_decide (last output_ids = Some eos_token_id) then mret output_ids
      else
        let current_seq_len := num_prompt_tokens + zlen output_ids in
        grown ← (if zlen block_table * block_size <? current_seq_len
                 then ok ← with_mgr (append_token_block rid);
                      g ← get;
                      mret (if ok : bool then Some (get_block_table rid (g_mgr g)) else None)
                 else mret (Some block_table));
        match grown with
        | None => mret output_ids
        | Some block_table =>
            let slots := compute_slot_mapping block_size block_table current_seq_len in
            let meta := mkMeta [block_table] [current_seq_len] current_seq_len 0 1
                          (drop (length slots - 1) slots) false in
            logits ← run_forward (drop (length output_ids - 1) output_ids) meta;
            next ← sample_next logits sp;
            decode_steps k' rid sp num_prompt_tokens block_table (output_ids ++ [next])
        end
  end.

(** The [try] block of [generate]. *)
Definition generate_body (rid : string) (prompt : list Z) (sp : SamplingParams) : M GenState (list Z) :=
  g ← get;
  let n := zlen prompt in
  let block_table := get_block_table rid (g_mgr g) in
  let meta := mkMeta [block_table] [n] n n 0 (compute_slot_mapping block_size block_table n) true in
  logits ← run_forward prompt meta;
  if max_tokens sp <=? 0 then mret []
  else
    next ← sample_next (drop (length logits - 1) logits) sp;
    decode_steps (Z.to_nat (max_tokens sp - 1)) rid sp n block_table [next].

(** [try: body / finally: cleanup] *)
Definition try_finally {A} (body : M GenState A) (cleanup : M GenState unit) : M GenState A := λ g,
  let '(r, g) := body g in
  match cleanup g with
  | (Ok _, g) => (r, g)
  | (Err e, g) => (Err e, g)
  end.

(** The reason reported: [FINISHED_STOPPED] exactly when the last token is the
    end-of-sequence token. *)
Definition finish_reason_of (output_ids : list Z) : SequenceStatus :=
  if bool_decide (last output_ids = Some eos_token_id) then FINISHED_STOPPED else FINISHED_LENGTH.

(** [generate]; [fresh] is [str(uuid.uuid4())]. *)
Definition generate (prompt : list Z) (sp : option SamplingParams) (rid : option string) (fresh : string)
    : M GenState GenerationResult :=
  raise_if (bool_decide (prompt = [])) ValueError ≫= λ _,
  let rid := match rid with Some i => if decide (i = "") then fresh else i | None => fresh end in
  let sp := default default_sampling sp in
  raise_if (match max_seq_length with Some n => n <? zlen prompt | None => false end) ValueError ≫= λ _,
  ok ← with_mgr (allocate_blocks_for_sequence rid (zlen prompt));
  raise_if (negb ok) RuntimeError ≫= λ _,
  output_ids ← try_finally (generate_body rid prompt sp) (with_mgr (free_sequence rid));
  mret (mkGen rid prompt output_ids (finish_reason_of output_ids)).
End generate.

(** ** The generation loop leaves the cache as it found it *)
Open Scope Z_scope.

Lemma slot_mapping_length bs table n :
  0 < bs → 0 ≤ n ≤ zlen table * bs → zlen (compute_slot_mapping bs table n) = n.
Proof.
  intros Hbs [Hn Hle]. unfold compute_slot_mapping.
  assert (∀ l, (∀ i, i ∈ l → 0 ≤ i < zlen table * bs) →
    length (omap (λ token_idx, (λ b, b * bs + token_idx mod bs) <$> table !! Z.to_nat (token_idx / bs)) l) = length l) as Hl.
  { induction l as [|i l IH]; intros Hr; [done|]. cbn [omap list_omap].
    assert (is_Some (table !! Z.to_nat (i / bs))) as [b Hb].
    { apply lookup_lt_is_Some. destruct (Hr i) as [H0 H1]; [set_solver|]. unfold zlen in *.
      assert (0 ≤ i / bs) by (apply Z.div_pos; lia). assert (i / bs < Z.of_nat (length table)) by (apply Z.div_lt_upper_bound; lia). lia. }
    rewrite Hb. simpl. f_equal. apply IH. intros j Hj. apply Hr. set_solver. }
  unfold zlen at 1. rewrite Hl, length_seqZ; [lia|]. intros i Hi. apply elem_of_seqZ in Hi. lia.
Qed.

Lemma allocate_keeps_size ng nc m seq n r m' :
  mgr_inv ng nc m [] → allocate_blocks_for_sequence seq n m = (r, m') → mgr_block_size m' = mgr_block_size m.
Proof.
  intros Hi. destruct (allocate_gpu_blocks_spec ng (Z.to_nat (- ((- n) / mgr_block_size m))) [] m _ (proj1 Hi))
    as (t & m2 & Hr & Hch & _); [apply NoDup_nil_2|set_solver|].
  unfold allocate_blocks_for_sequence. munfold. munfold in Hr. rewrite Hr.
  destruct t; intros [= _ <-]; rewrite Hch; done.
Qed.

Section generate.
Context (argmax : Row → nat) (topk : Row → nat → list nat) (sort_desc_indices : Row → list nat)
        (softmax : Row → list Q) (multinomial : nat → list Q → nat).
Context (forward : list (list Z * AttentionMetadata) → list Z → AttentionMetadata → res (list Row)).
Context (bs eos : Z) (max_seq_length : option Z) (ng nc : Z) (Hbs : 0 < bs).

Local Abbreviation steps := (decode_steps argmax topk sort_desc_indices softmax multinomial forward bs eos).
Local Abbreviation body := (generate_body argmax topk sort_desc_indices softmax multinomial forward bs eos).
Local Abbreviation gen := (generate argmax topk sort_desc_indices softmax multinomial forward bs eos max_seq_length).

(** A forward pass with exactly one slot for every token it is given. *)
Definition call_ok (c : list Z * AttentionMetadata) : Prop :=
  zlen (slot_mapping c.2) = zlen c.1 ∧ c.1 ≠ [].

(** During generation: only the table of [rid] differs from the tables [T]
    before the call, and every forward pass so far was well formed. *)
Record gen_inv (T : gmap string (list Z)) (rid : string) (g : GenState) : Prop := {
  gv_mgr : mgr_inv ng nc (g_mgr g) [];
  gv_size : mgr_block_size (g_mgr g) = bs;
  gv_tables : seq_to_gpu_blocks (g_mgr g) = <[rid := get_block_table rid (g_mgr g)]> T;
  gv_calls : Forall call_ok (g_calls g)
}.

Lemma run_forward_inv T rid g tokens meta :
  gen_inv T rid g → call_ok (tokens, meta) →
  gen_inv T rid (run_forward forward tokens meta g).2 ∧
  g_mgr (run_forward forward tokens meta g).2 = g_mgr g.
Proof.
  intros [H1 H2 H3 H4] Hc. split; [|done]. constructor; try done. simpl. apply Forall_app. by split; [|constructor].
Qed.

Lemma grow_inv T rid g :
  gen_inv T rid g →
  ∃ ok g', with_mgr (append_token_block rid) g = (Ok ok, g') ∧ gen_inv T rid g' ∧
    (ok = true → zlen (get_block_table rid (g_mgr g')) = zlen (get_block_table rid (g_mgr g)) + 1).
Proof.
  intros [H1 H2 H3 H4]. destruct (append_token_block_inv ng nc (g_mgr g) [] rid H1) as (r & m & Hr & Hm & Ht).
  unfold with_mgr, zoom. rewrite Hr. eexists r, _. split; [done|].
  assert (mgr_block_size m = mgr_block_size (g_mgr g)) as Hsz.
  { revert Hr. unfold append_token_block, allocate_gpu_block. munfold.
    destruct (allocate_block (gpu_pool (g_mgr g))) as [[id|] p]; intros [= _ <-]; done. }
  destruct r.
  - destruct Ht as [id Ht].
    assert (get_block_table rid m = get_block_table rid (g_mgr g) ++ [id]) as Hg.
    { unfold get_block_table at 1. rewrite Ht, lookup_insert_eq. done. }
    split; [constructor; simpl; try done; [congruence|]|intros _; simpl; rewrite Hg, zlen_app; done].
    rewrite Hg, Ht. rewrite H3. by rewrite insert_insert_eq.
  - split; [constructor; simpl; try done; [congruence|]|done]. unfold get_block_table in *. by rewrite Ht.
Qed.

Lemma last_singleton_drop (l : list Z) : l ≠ [] → zlen (drop (length l - 1) l) = 1 ∧ drop (length l - 1) l ≠ [].
Proof.
  intros Hl. assert (length (drop (length l - 1) l) = 1%nat) as Hd by (rewrite length_drop; destruct l; simpl in *; [done|lia]).
  unfold zlen. rewrite Hd. split; [done|]. intros He. by rewrite He in Hd.
Qed.

Lemma decode_steps_spec T k rid sp np table out g :
  gen_inv T rid g → table = get_block_table rid (g_mgr g) → out ≠ [] → 0 ≤ np →
  np + zlen out - 1 ≤ zlen table * bs →
  (∀ l x, out = l ++ [x] → eos ∉ l) →
  let '(r, g') := steps k rid sp np table out g in
  gen_inv T rid g' ∧
  match r with
  | Ok o => out `prefix_of` o ∧ zlen o ≤ zlen out + Z.of_nat k ∧ (∀ l x, o = l ++ [x] → eos ∉ l)
  | Err _ => True
  end.
Proof.
  revert table out g. induction k as [|k IH]; intros table out g Hg Ht Hout Hnp Hcov Heos; cbn [decode_steps]; munfold.
  { split_and!; [done|done|lia|done]. }
  case_bool_decide as Hlast; [split_and!; [done|done|lia|done]|].
  (* the body, once the table covers the current length *)
  assert (∀ tb g1, gen_inv T rid g1 → tb = get_block_table rid (g_mgr g1) → np + zlen out ≤ zlen tb * bs →
    let slots := compute_slot_mapping bs tb (np + zlen out) in
    let meta := mkMeta [tb] [np + zlen out] (np + zlen out) 0 1 (drop (length slots - 1) slots) false in
    let '(r, g') := (logits ← run_forward forward (drop (length out - 1) out) meta;
             next ← sample_next argmax topk sort_desc_indices softmax multinomial logits sp;
             steps k rid sp np tb (out ++ [next])) g1 in
    gen_inv T rid g' ∧
    match r with
    | Ok o => out `prefix_of` o ∧ zlen o ≤ zlen out + Z.of_nat (S k) ∧ (∀ l x, o = l ++ [x] → eos ∉ l)
    | Err _ => True
    end) as Hbody.
  { intros tb g1 Hg1 Htb Hle slots meta. unfold mbind, M_bind.
    assert (0 < zlen out) as Hpos by (destruct out; [done|]; rewrite zlen_cons; unfold zlen; lia).
    assert (zlen slots = np + zlen out) as Hs by (apply slot_mapping_length; lia).
    assert (slots ≠ []) as Hsn by (intros He; rewrite He in Hs; change (zlen ([] : list Z)) with 0 in Hs; lia).
    destruct (run_forward_inv T rid g1 (drop (length out - 1) out) meta Hg1) as [Hg2 Hm2].
    { split; simpl; [|by apply last_singleton_drop]. rewrite (proj1 (last_singleton_drop slots Hsn)).
      by rewrite (proj1 (last_singleton_drop out Hout)). }
    destruct (run_forward forward (drop (length out - 1) out) meta g1) as [[lg|e] g2]; simpl in Hg2, Hm2; [|done].
    unfold sample_next. destruct (sample_token _ _ _ _ _ _ lg sp) as [next|e]; [|done].
    specialize (IH tb (out ++ [next]) g2 Hg2). destruct (steps k rid sp np tb (out ++ [next]) g2) as [r g'].
    destruct IH as [Hg' Hr]; [by rewrite Hm2|by destruct out|done|rewrite zlen_app; change (zlen [next]) with 1; lia| |].
    { intros l x [<- _]%app_inj_tail. intros Hin. apply Hlast. destruct out as [|y l' _] using rev_ind; [done|].
      rewrite last_snoc. apply elem_of_app in Hin as [Hin|Hin]; [by destruct (Heos l' y eq_refl)|].
      apply list_elem_of_singleton in Hin. by rewrite Hin. }
    split; [done|]. destruct r as [o|]; [|done]. destruct Hr as (Hp & Hz & He). split_and!; [|rewrite zlen_app in Hz; change (zlen [next]) with 1 in Hz; lia|done].
    etrans; [|exact Hp]. by eexists. }
  destruct (Z.ltb_spec (zlen table * bs) (np + zlen out)) as [Hgrow|Hfit].
  - destruct (grow_inv T rid g Hg) as (ok & g1 & Hok & Hg1 & Hlen). munfold in Hok. rewrite Hok.
    destruct ok; [|split_and!; [done|done|lia|done]].
    specialize (Hbody _ g1 Hg1 eq_refl). munfold in Hbody. apply Hbody. rewrite Hlen by done. rewrite <- Ht. nia.
  - specialize (Hbody table g Hg Ht). munfold in Hbody. by apply Hbody.
Qed.

Lemma ceil_covers n : 0 ≤ n → n ≤ Z.max 0 (- ((- n) / bs)) * bs.
Proof. intros Hn. pose proof (Z.mul_div_le (- n) bs Hbs). nia. Qed.

Lemma generate_body_spec T rid prompt sp g :
  gen_inv T rid g → prompt ≠ [] → zlen prompt ≤ zlen (get_block_table rid (g_mgr g)) * bs →
  let '(r, g') := body rid prompt sp g in
  gen_inv T rid g' ∧
  match r with
  | Ok o => zlen o ≤ Z.max 0 (max_tokens sp) ∧ (0 < max_tokens sp → o ≠ []) ∧ (∀ l x, o = l ++ [x] → eos ∉ l)
  | Err _ => True
  end.
Proof.
  intros Hg Hp Hle. unfold generate_body, mbind, M_bind, get.
  set (meta := mkMeta _ _ _ _ _ _ _).
  destruct (run_forward_inv T rid g prompt meta Hg) as [Hg1 Hm1].
  { split; [|done]. simpl. apply slot_mapping_length; [done|]. unfold zlen in *. lia. }
  destruct (run_forward forward prompt meta g) as [[lg|e] g1]; simpl in Hg1, Hm1; [|done].
  destruct (Z.leb_spec (max_tokens sp) 0) as [Hz|Hpos].
  { split; [done|]. change (zlen ([] : list Z)) with 0. split_and!; [lia|lia|]. intros l x Hx. by destruct l. }
  unfold sample_next. destruct (sample_token _ _ _ _ _ _ _ sp) as [next|e]; [|done].
  pose proof (decode_steps_spec T (Z.to_nat (max_tokens sp - 1)) rid sp (zlen prompt)
                (get_block_table rid (g_mgr g)) [next] g1 Hg1) as Hs.
  destruct (steps _ rid sp (zlen prompt) _ [next] g1) as [r g'].
  destruct Hs as [Hg' Hr]; [by rewrite Hm1|done|unfold zlen; lia|change (zlen [next]) with 1; lia| |].
  { intros l x Hx. destruct l as [|y l]; [apply not_elem_of_nil|]. by destruct l. }
  split; [done|]. destruct r as [o|]; [|done]. destruct Hr as (Hpre & Hlen & He). change (zlen [next]) with 1 in Hlen.
  split_and!; [lia| |done]. intros _ ->. by apply prefix_nil_inv in Hpre.
Qed.

(** Whatever the model returns or raises, [generate] leaves every block table
    and the number of free blocks as it found them, the cache manager's
    accounting intact, and calls the model only with exactly one cache slot for
    every token; when it returns, it has produced at most [max_tokens] tokens,
    at least one if [max_tokens] is positive, the end-of-sequence token can only
    be the last one, and the reason is [FINISHED_STOPPED] exactly when it is. *)
Theorem generate_restores prompt sp rid fresh m :
  let id := match rid with Some i => if decide (i = "") then fresh else i | None => fresh end in
  mgr_inv ng nc m [] → mgr_block_size m = bs → seq_to_gpu_blocks m !! id = None →
  let '(r, g) := gen prompt sp rid fresh (mkGS m []) in
  mgr_inv ng nc (g_mgr g) [] ∧ seq_to_gpu_blocks (g_mgr g) = seq_to_gpu_blocks m ∧
  num_free_gpu_blocks (g_mgr g) = num_free_gpu_blocks m ∧ Forall call_ok (g_calls g) ∧
  match r with
  | Ok res =>
      let o := output_token_ids res in let max := max_tokens (default default_sampling sp) in
      zlen o ≤ Z.max 0 max ∧ (0 < max → o ≠ []) ∧ (∀ l x, o = l ++ [x] → eos ∉ l) ∧
      (gen_finish_reason res = FINISHED_STOPPED ↔ last o = Some eos)
  | Err _ => True
  end.
Proof.
  intros id Hi Hsz Hfresh. unfold generate, mbind, M_bind, raise_if, raise, mret, M_ret. fold id.
  assert (∀ m', mgr_inv ng nc m' [] → seq_to_gpu_blocks m' = seq_to_gpu_blocks m → num_free_gpu_blocks m' = num_free_gpu_blocks m) as Hfree.
  { intros m' Hi' Ht. eapply free_count_eq; [apply Hi'|apply Hi|]. by rewrite Ht. }
  case_bool_decide as Hp; [by split_and!|].
  destruct (match max_seq_length with Some n => n <? zlen prompt | None => false end); [by split_and!|].
  destruct (allocate_blocks_inv ng nc m [] id (zlen prompt) Hi Hfresh) as (ok & m1 & Ha & Hi1 & Hok).
  unfold with_mgr at 1, zoom at 1. cbn [g_mgr]. rewrite Ha. destruct ok; cbn [negb].
  - destruct Hok as (ids & Ht1 & _ & Hlen).
    assert (get_block_table id m1 = ids) as Hg1 by (unfold get_block_table; by rewrite Ht1, lookup_insert_eq).
    assert (mgr_block_size m1 = bs) as Hsz1.
    { rewrite <- Hsz. by eapply allocate_keeps_size. }
    assert (gen_inv (seq_to_gpu_blocks m) id (set_g_mgr m1 (mkGS m []))) as Hgi.
    { constructor; simpl; [done|done|by rewrite Hg1|done]. }
    pose proof (generate_body_spec _ id prompt (default default_sampling sp) _ Hgi Hp) as Hb.
    unfold try_finally. destruct (body id prompt _ (set_g_mgr m1 (mkGS m []))) as [r g2].
    destruct Hb as [Hg2 Hr]; [simpl; rewrite Hg1, Hlen, Hsz; apply ceil_covers; unfold zlen; lia|].
    destruct (free_sequence_inv ng nc (g_mgr g2) [] id (gv_mgr _ _ _ Hg2)) as (m3 & Hf & Hi3 & Ht3 & _).
    assert (seq_to_gpu_blocks m3 = seq_to_gpu_blocks m) as Ht.
    { rewrite Ht3, (gv_tables _ _ _ Hg2). by rewrite delete_insert_id. }
    unfold with_mgr, zoom. rewrite Hf. pose proof (gv_calls _ _ _ Hg2) as Hcalls.
    destruct r as [o|e]; [|by split_and!; [..|apply Hfree| |]].
    destruct Hr as (H1 & H2 & H3). split_and!; [done|done|by apply Hfree|done|done|done|done|].
    simpl. unfold finish_reason_of. case_bool_decide; [done|]. by split.
  - split_and!; [done|done|by apply Hfree|by constructor|done].
Qed.
End generate.

(** ** A run *)

(** A model that answers [2], then [1], the end of the sequence. *)
Definition toy_forward (calls : list (list Z * AttentionMetadata)) (tokens : list Z) (meta : AttentionMetadata) : res (list Row) :=
  Ok (replicate (length tokens) (if decide (calls = []) then [Some 0; Some 0; Some 1]%Q else [Some 0; Some 1; Some 0]%Q)).
Definition toy_mgr : KVCacheManager := mgr_init 2 0 4.
Definition toy_generate :=
  generate ref_argmax ref_topk ref_sort ref_softmax ref_multinomial toy_forward 4 1 None
    [5; 6; 7; 8] (Some (mkSampling 0 1 0 5 [])) (Some "r") "".

Example toy_generates :
  (toy_generate (mkGS toy_mgr [])).1 = Ok (mkGen "r" [5; 6; 7; 8] [2; 1] FINISHED_STOPPED).
Proof. vm_compute. reflexivity. Qed.

Lemma generate_restores_witness :
  let '(r, g) := toy_generate (mkGS toy_mgr []) in
  seq_to_gpu_blocks (g_mgr g) = seq_to_gpu_blocks toy_mgr ∧ num_free_gpu_blocks (g_mgr g) = 2.
Proof.
  pose proof (generate_restores ref_argmax ref_topk ref_sort ref_softmax ref_multinomial toy_forward 4 1 None 2 0
    ltac:(lia) [5; 6; 7; 8] (Some (mkSampling 0 1 0 5 [])) (Some "r") "" toy_mgr
    (mgr_init_inv 2 0 4) eq_refl eq_refl) as H.
  unfold toy_generate. destruct (generate _ _ _ _ _ _ _ _ _ _ _ _ _ _) as [r g].
  destruct H as (_ & H2 & H3 & _). split; [exact H2|exact H3].
Defined.
