(* ===== verification/PrefixCache.v ===== *)
(** * The prefix cache (serving/prefix_cache.py)

    An LRU map from the hash of a block of tokens to the KV block that holds it.
    [hashlib.sha256] is a parameter. *)
From S2P Require Import Prelude PyCollections.
From Stdlib Require Import QArith.
Import OrderedDict.
Open Scope Z_scope.

Record CacheEntry := mkEntry { block_id : Z; token_block : list Z }.

Record PrefixCache := mkPC {
  block_size : Z;
  max_entries : Z;
  entries : list (string * CacheEntry);
  hits : Z;
  misses : Z
}.
Implicit Types pc : PrefixCache.

Definition set_entries (d : list (string * CacheEntry)) pc : PrefixCache :=
  mkPC (block_size pc) (max_entries pc) d (hits pc) (misses pc).

(** [__init__] *)
Definition pc_init (block_size max_entries : Z) : res PrefixCache :=
  if block_size <=? 0 then Err ValueError
  else if max_entries <=? 0 then Err ValueError
  else Ok (mkPC block_size max_entries [] 0 0).

(** [_iter_full_blocks] *)
Definition iter_full_blocks pc (token_ids : list Z) : list (list Z) :=
  (λ i, take (Z.to_nat (block_size pc)) (drop (i * Z.to_nat (block_size pc)) token_ids)) <$>
    seq 0 (Z.to_nat (zlen token_ids / block_size pc)).

(** [num_entries], [hit_rate] *)
Definition num_entries pc : Z := zlen (entries pc).
Definition hit_rate pc : Q :=
  let total := hits pc + misses pc in
  if total =? 0 then 0%Q else (inject_Z (hits pc) / inject_Z total)%Q.

Section prefix_cache.
(** [hashlib.sha256(bytes).hexdigest()[:16]] *)
Context (sha256_16 : list Z → string).

(** [hash_token_block] *)
Definition hash_token_block (token_ids : list Z) : string := sha256_16 ((λ t, t mod 256) <$> token_ids).

(** The loop of [lookup]: the matched block ids and the reordered entries. *)
Fixpoint match_blocks (blocks : list (list Z)) (d : list (string * CacheEntry))
    : list Z * list (string * CacheEntry) :=
  match blocks with
  | [] => ([], d)
  | tokens :: blocks =>
      let h := hash_token_block tokens in
      match od_get h d with
      | None => ([], d)
      | Some e =>
          if decide (token_block e = tokens) then
            let '(ids, d') := match_blocks blocks (od_move_to_end h d) in (block_id e :: ids, d')
          else ([], d)
      end
  end.

(** [lookup] *)
Definition lookup_prefix (token_ids : list Z) : M PrefixCache (Z * list Z) := λ pc,
  let '(ids, d) := match_blocks (iter_full_blocks pc token_ids) (entries pc) in
  let pc := set_entries d pc in
  let pc := match ids with
            | [] => mkPC (block_size pc) (max_entries pc) d (hits pc) (misses pc + 1)
            | _ => mkPC (block_size pc) (max_entries pc) d (hits pc + 1) (misses pc)
            end in
  (Ok (zlen ids * block_size pc, ids), pc).

(** [evict_lru] *)
Definition evict_lru (n : Z) : M PrefixCache (list string) :=
  raise_if (n <? 0) ValueError ≫= λ _,
  pc ← get;
  let k := Z.to_nat (Z.min n (num_entries pc)) in
  modify (set_entries (drop k (entries pc))) ≫= λ _,
  mret (take k (entries pc)).*1.

(** The loop of [insert]. *)
Fixpoint insert_blocks (blocks : list (list Z)) (block_ids : list Z) (d : list (string * CacheEntry))
    : list (string * CacheEntry) :=
  match blocks, block_ids with
  | tokens :: blocks, id :: block_ids =>
      let h := hash_token_block tokens in
      insert_blocks blocks block_ids (od_move_to_end h (od_set h (mkEntry id tokens) d))
  | _, _ => d
  end.

(** [insert] *)
Definition insert_prefix (token_ids block_ids : list Z) : M PrefixCache unit :=
  pc ← get;
  raise_if (zlen block_ids <? zlen token_ids / block_size pc) ValueError ≫= λ _,
  modify (set_entries (insert_blocks (iter_full_blocks pc token_ids) block_ids (entries pc))) ≫= λ _,
  pc ← get;
  let overflow := num_entries pc - max_entries pc in
  when (0 <? overflow) (evict_lru overflow ≫= λ _, mret tt).

(** ** Soundness *)

(** [(tokens, id)] pairs the caller associated, block by block. *)
Definition associated pc (token_ids block_ids : list Z) : list (list Z * Z) :=
  zip (iter_full_blocks pc token_ids) block_ids.

(** The entries are distinct, filed under their own hash, and associated in [A]. *)
Record pc_inv (A : list (list Z * Z)) pc : Prop := {
  pi_ok : od_ok (entries pc);
  pi_entries : ∀ h e, (h, e) ∈ entries pc → h = hash_token_block (token_block e) ∧ (token_block e, block_id e) ∈ A;
  pi_bound : num_entries pc ≤ max_entries pc;
  pi_size : 0 < block_size pc;
  pi_max : 0 < max_entries pc
}.

Lemma match_blocks_spec blocks d :
  od_ok d →
  let '(ids, d') := match_blocks blocks d in
  d' ≡ₚ d ∧ (length ids ≤ length blocks)%nat ∧
  ∀ i id, ids !! i = Some id → ∃ h e, (h, e) ∈ d ∧ block_id e = id ∧ blocks !! i = Some (token_block e).
Proof.
  revert d. induction blocks as [|tokens blocks IH]; intros d Hok; simpl; [done|].
  destruct (od_get (hash_token_block tokens) d) as [e|] eqn:Eg; [|split_and!; simpl; [done|lia|done]].
  case_decide as Ht; [|split_and!; simpl; [done|lia|done]].
  pose proof (od_move_to_end_perm (hash_token_block tokens) d) as Hp.
  specialize (IH (od_move_to_end (hash_token_block tokens) d)).
  destruct (match_blocks blocks _) as [ids d']. destruct IH as (H1 & H2 & H3); [by eapply od_ok_perm|].
  split_and!; [by rewrite H1|simpl; lia|]. intros [|i] id; simpl.
  - intros [= <-]. exists (hash_token_block tokens), e. split_and!; [by apply od_get_Some_elem|done|by rewrite Ht].
  - intros Hi. destruct (H3 i id Hi) as (h & e' & Hin & ? & ?). exists h, e'. by rewrite Hp in Hin.
Qed.

Lemma od_set_elem (h h' : string) (e e' : CacheEntry) d : (h', e') ∈ od_set h e d → (h' = h ∧ e' = e) ∨ (h', e') ∈ d.
Proof.
  induction d as [|[k v] d IH]; simpl.
  - intros [= -> ->]%list_elem_of_singleton. by left.
  - case_decide; rewrite !elem_of_cons; naive_solver.
Qed.

Lemma insert_blocks_spec blocks block_ids d :
  od_ok d →
  od_ok (insert_blocks blocks block_ids d) ∧
  ∀ h e, (h, e) ∈ insert_blocks blocks block_ids d →
    (h, e) ∈ d ∨ (h = hash_token_block (token_block e) ∧ (token_block e, block_id e) ∈ zip blocks block_ids).
Proof.
  revert block_ids d. induction blocks as [|tokens blocks IH]; intros block_ids d Hok; [split; [done|by left]|].
  destruct block_ids as [|id block_ids]; [split; [done|by left]|]. simpl.
  set (h0 := hash_token_block tokens). pose proof (od_move_to_end_perm h0 (od_set h0 (mkEntry id tokens) d)) as Hp.
  destruct (IH block_ids (od_move_to_end h0 (od_set h0 (mkEntry id tokens) d))) as [H1 H2].
  { eapply od_ok_perm; [by symmetry|]. by apply od_set_ok. }
  split; [done|]. intros h e Hin. destruct (H2 h e Hin) as [Hd|[? ?]]; [|right; split; [done|set_solver]].
  rewrite Hp in Hd. apply od_set_elem in Hd as [[-> ->]|Hd]; [right; simpl; split; [done|set_solver]|by left].
Qed.

Lemma keep_inv A A' pc pc' :
  pc_inv A pc → block_size pc' = block_size pc → max_entries pc' = max_entries pc →
  entries pc' ≡ₚ entries pc → (∀ x, x ∈ A → x ∈ A') → pc_inv A' pc'.
Proof.
  intros [H1 H2 H3 H4 H5] Hb Hm He HA. constructor; try congruence.
  - eapply od_ok_perm; [|done]. done.
  - intros h e. rewrite He. intros Hin. destruct (H2 h e Hin). auto.
  - unfold num_entries, zlen in *. rewrite He. lia.
Qed.

Lemma lookup_inv A pc token_ids :
  pc_inv A pc →
  ∃ ids pc', lookup_prefix token_ids pc = (Ok (zlen ids * block_size pc, ids), pc') ∧ pc_inv A pc' ∧
    zlen ids * block_size pc ≤ zlen token_ids ∧
    ∀ i id, ids !! i = Some id → ∃ tokens, iter_full_blocks pc token_ids !! i = Some tokens ∧ (tokens, id) ∈ A.
Proof.
  intros Hi. pose proof Hi as [H1 H2 H3 H4 H5]. unfold lookup_prefix.
  pose proof (match_blocks_spec (iter_full_blocks pc token_ids) (entries pc) H1) as Hm.
  destruct (match_blocks _ _) as [ids d]. destruct Hm as (Hp & Hl & Hids).
  assert (zlen ids * block_size pc ≤ zlen token_ids) as Hle.
  { unfold iter_full_blocks in Hl. rewrite length_fmap, length_seq in Hl.
    assert (0 ≤ zlen token_ids / block_size pc) by (apply Z.div_pos; [unfold zlen|]; lia).
    pose proof (Z.mul_div_le (zlen token_ids) (block_size pc) H4). unfold zlen in *. nia. }
  eexists ids, _. split.
  { assert (∀ X Y : PrefixCache, block_size X = block_size pc → block_size Y = block_size pc →
      block_size (match ids with [] => X | _ => Y end) = block_size pc) as Hb by (by destruct ids).
    rewrite Hb by done. reflexivity. }
  split_and!; [apply (keep_inv A A pc); try done; by destruct ids|done|].
  - intros i id Hid. destruct (Hids i id Hid) as (h & e & Hin & <- & Hb). exists (token_block e).
    split; [done|]. by apply (H2 h e).
Qed.

Lemma drop_inv A pc k : pc_inv A pc → pc_inv A (set_entries (drop k (entries pc)) pc).
Proof.
  intros [H1 H2 H3 H4 H5]. constructor; simpl; try done.
  - unfold od_ok, keys in *. rewrite fmap_drop. eapply sublist_NoDup; [exact H1|apply sublist_drop].
  - intros h e Hin. apply H2. by eapply subseteq_drop.
  - unfold num_entries, zlen in *. simpl. rewrite length_drop. lia.
Qed.

Lemma insert_inv A pc token_ids block_ids :
  pc_inv A pc →
  let '(r, pc') := insert_prefix token_ids block_ids pc in
  pc_inv (associated pc token_ids block_ids ++ A) pc' ∧ block_size pc' = block_size pc ∧ max_entries pc' = max_entries pc ∧
  (r = Ok tt ∨ (r = Err ValueError ∧ pc' = pc ∧ zlen block_ids < zlen token_ids / block_size pc)).
Proof.
  intros Hi. pose proof Hi as [H1 H2 H3 H4 H5]. unfold insert_prefix. munfold.
  destruct (Z.ltb_spec (zlen block_ids) (zlen token_ids / block_size pc)) as [Hfew|Hok].
  { split_and!; try done; [|by right]. apply (keep_inv A _ pc); try done. set_solver. }
  set (d := insert_blocks _ _ _). destruct (insert_blocks_spec (iter_full_blocks pc token_ids) block_ids (entries pc) H1) as [Hd1 Hd2].
  fold d in Hd1, Hd2.
  assert (∀ h e, (h, e) ∈ d → h = hash_token_block (token_block e) ∧
            (token_block e, block_id e) ∈ associated pc token_ids block_ids ++ A) as He.
  { intros h e Hin. rewrite elem_of_app. destruct (Hd2 h e Hin) as [Hold|[-> Hnew]]; [|by auto]. destruct (H2 h e Hold). auto. }
  unfold num_entries. cbn [entries set_entries max_entries block_size].
  destruct (Z.ltb_spec 0 (zlen d - max_entries pc)) as [Hover|Hfits].
  - unfold evict_lru. munfold. destruct (Z.ltb_spec (zlen d - max_entries pc) 0); [lia|].
    unfold num_entries. cbn [entries set_entries max_entries block_size].
    split_and!; [|done|done|by left]. constructor; simpl; try done.
    + unfold od_ok, keys in *. rewrite fmap_drop. eapply sublist_NoDup; [exact Hd1|apply sublist_drop].
    + intros h e Hin. apply He. by eapply subseteq_drop.
    + unfold num_entries, zlen in *. simpl. rewrite length_drop. lia.
  - split_and!; [|done|done|by left]. constructor; simpl; try done. unfold num_entries. simpl. lia.
Qed.

(** ** Histories *)
Inductive pc_cmd :=
  | PInsert (token_ids block_ids : list Z)
  | PLookup (token_ids : list Z)
  | PEvict (n : Z).

Definition pc_step (c : pc_cmd) pc : PrefixCache :=
  match c with
  | PInsert t b => (insert_prefix t b pc).2
  | PLookup t => (lookup_prefix t pc).2
  | PEvict n => (evict_lru n pc).2
  end.

(** Every association the history made. *)
Definition all_associated pc (cs : list pc_cmd) : list (list Z * Z) :=
  cs ≫= λ c, match c with PInsert t b => associated pc t b | _ => [] end.

Lemma associated_size pc pc' t b : block_size pc' = block_size pc → associated pc' t b = associated pc t b.
Proof. intros Hb. unfold associated, iter_full_blocks. by rewrite Hb. Qed.

Lemma pc_run_inv cs pc A :
  pc_inv A pc →
  let pc' := foldl (λ pc c, pc_step c pc) pc cs in
  pc_inv (all_associated pc cs ++ A) pc' ∧ block_size pc' = block_size pc ∧ max_entries pc' = max_entries pc.
Proof.
  revert pc A. induction cs as [|c cs IH]; intros pc A Hi; simpl; [done|].
  assert (∃ A1, pc_inv A1 (pc_step c pc) ∧ block_size (pc_step c pc) = block_size pc ∧ max_entries (pc_step c pc) = max_entries pc ∧
    ∀ x, x ∈ A1 → x ∈ match c with PInsert t b => associated pc t b | _ => [] end ++ A) as (A1 & H1 & Hb & Hm & HA).
  { destruct c as [t b|t|n]; simpl.
    - pose proof (insert_inv A pc t b Hi) as Hx. destruct (insert_prefix t b pc) as [r pc']. destruct Hx as (? & ? & ? & _).
      eexists. by split_and!.
    - destruct (lookup_inv A pc t Hi) as (ids & pc' & Hl & Hi' & _). rewrite Hl. exists A. simpl.
      assert (block_size pc' = block_size pc ∧ max_entries pc' = max_entries pc) as [? ?].
      { revert Hl. unfold lookup_prefix. destruct (match_blocks _ _) as [l d]. destruct l; intros [= _ _ <-]; done. }
      by split_and!.
    - unfold evict_lru. munfold. destruct (n <? 0); simpl; exists A; split_and!; try done. by apply drop_inv. }
  destruct (IH _ _ H1) as (H2 & Hb2 & Hm2). split_and!; [|congruence|congruence].
  eapply keep_inv; [exact H2|done|done|done|]. intros x. unfold all_associated. simpl. rewrite !elem_of_app.
  intros [Hx|Hx]; [|apply HA in Hx; set_solver]. left. right. revert Hx. rewrite !list_elem_of_bind.
  intros (y & Hy & Hin). exists y. split; [|done]. destruct y; [|done..]. by erewrite <- associated_size.
Qed.

(** Over any history of insertions (whether they raise or not), lookups and
    evictions the cache never exceeds [max_entries], and a lookup never raises
    and returns, for a prefix of the prompt's full blocks, ids that an insertion
    associated with exactly those tokens, even when hashes collide. *)
Theorem prefix_lookup_sound bs maxe pc0 cs token_ids :
  pc_init bs maxe = Ok pc0 →
  let pc := foldl (λ pc c, pc_step c pc) pc0 cs in
  num_entries pc ≤ maxe ∧
  ∃ ids pc', lookup_prefix token_ids pc = (Ok (zlen ids * bs, ids), pc') ∧ zlen ids * bs ≤ zlen token_ids ∧
    ∀ i id, ids !! i = Some id →
      ∃ tokens, iter_full_blocks pc0 token_ids !! i = Some tokens ∧ (tokens, id) ∈ all_associated pc0 cs.
Proof.
  unfold pc_init. destruct (Z.leb_spec bs 0); [done|]. destruct (Z.leb_spec maxe 0); [done|]. intros [= <-]. cbv zeta. set (pc := foldl _ _ cs).
  assert (pc_inv [] (mkPC bs maxe [] 0 0)) as Hinit.
  { constructor; simpl; try done.
    - apply NoDup_nil_2.
    - by intros ? ? ?%not_elem_of_nil.
    - unfold num_entries. simpl. change (zlen ([] : list (string * CacheEntry))) with 0. lia. }
  destruct (pc_run_inv cs _ _ Hinit) as (Hi & Hb & Hm). fold pc in Hi, Hb, Hm. simpl in Hb, Hm. rewrite app_nil_r in Hi.
  split; [rewrite <- Hm; apply (pi_bound _ _ Hi)|].
  destruct (lookup_inv _ pc token_ids Hi) as (ids & pc' & Hl & _ & Hle & Hids). rewrite Hb in Hl, Hle.
  exists ids, pc'. split_and!; [done|done|]. intros i id Hid. destruct (Hids i id Hid) as (tokens & Ht & Hin).
  exists tokens. split; [|done]. unfold iter_full_blocks in *. by rewrite Hb in Ht.
Qed.
End prefix_cache.

(** ** Blocks of another prefix *)
Definition demo_sha (bytes : list Z) : string := foldr (λ b s, String (Ascii.ascii_of_N (Z.to_N b)) s) "" bytes.
Definition demo_pc : PrefixCache := mkPC 2 4 [] 0 0.

(** Entries are found by the tokens of one block, not by the prefix before
    it: after the prompt [9 9 1 2] was cached in blocks 5 and 7, the prompt [1 2]
    is told to reuse block 7, whose keys and values were computed behind the
    tokens [9 9]. *)
Theorem prefix_cache_ignores_prefix :
  (lookup_prefix demo_sha [1; 2] (insert_prefix demo_sha [9; 9; 1; 2] [5; 7] demo_pc).2).1 = Ok (2, [7]).
Proof. vm_compute. reflexivity. Qed.

Lemma prefix_lookup_sound_witness :
  num_entries (foldl (λ pc c, pc_step demo_sha c pc) demo_pc [PInsert [1; 2; 3; 4; 5] [10; 11]; PEvict 1; PLookup [3; 4]]) ≤ 4.
Proof.
  apply (prefix_lookup_sound demo_sha 2 4 demo_pc [PInsert [1; 2; 3; 4; 5] [10; 11]; PEvict 1; PLookup [3; 4]] []).
  reflexivity.
Defined.
