(* ===== verification/OffloadCoordinators.v ===== *)
(** * The offload coordinators (engine/kv_cache_offload_coordinator.py,
    engine/expert_offload_coordinator.py)

    The handlers the transfer scheduler runs.  The KV tensors are lists of
    blocks of an abstract type; asynchronous copies are awaited before a handler
    returns, so they are plain copies.  The expert prefetcher is a log of its
    calls. *)
From S2P Require Import Prelude TransferScheduler.

(** ** KVCacheOffloadCoordinator *)
Section kv.
Context {V : Type}.

(** One tensor for keys and values, or a pair of them. *)
Inductive KVTensors :=
  | Single (kv : list V)
  | Pair (k v : list V).

Record KVCoordinator := mkKVC {
  kv_tensors : option KVTensors;
  cpu_cache : gmap string KVTensors
}.
Implicit Types c : KVCoordinator.

(** [tensor[block_ids].clone()]: an id out of range raises. *)
Definition select_blocks (t : list V) (ids : list Z) : option (list V) :=
  mapM (λ i, if i <? 0 then None else t !! Z.to_nat i) ids.

(** [_select_block_tensors] *)
Definition select_block_tensors (t : KVTensors) (ids : list Z) : option KVTensors :=
  match t with
  | Single kv => Single <$> select_blocks kv ids
  | Pair k v => match select_blocks k ids, select_blocks v ids with Some a, Some b => Some (Pair a b) | _, _ => None end
  end.

(** [tensor[block_ids] = values]: ids in range and as many values as ids. *)
Fixpoint put_blocks (t : list V) (ids : list Z) (vals : list V) : option (list V) :=
  match ids, vals with
  | [], [] => Some t
  | i :: ids, x :: vals =>
      if bool_decide (0 ≤ i < zlen t) then put_blocks (<[Z.to_nat i := x]> t) ids vals else None
  | _, _ => None
  end.

(** [set_kv_tensors] *)
Definition set_kv_tensors (t : KVTensors) c : KVCoordinator := mkKVC (Some t) (cpu_cache c).

(** [handle_swap_out] *)
Definition handle_swap_out (r : TransferRequest) : M KVCoordinator unit :=
  c ← get;
  match kv_tensors c with
  | None => mret tt
  | Some t =>
      match select_block_tensors t (block_ids r) with
      | None => raise IndexError
      | Some data => modify (λ c, mkKVC (kv_tensors c) (<[transfer_id r := data]> (cpu_cache c)))
      end
  end.

(** [handle_swap_in] *)
Definition handle_swap_in (r : TransferRequest) : M KVCoordinator unit :=
  c ← get;
  match kv_tensors c with
  | None => mret tt
  | Some t =>
      match cpu_cache c !! transfer_id r with
      | None => mret tt
      | Some data =>
          modify (λ c, mkKVC (kv_tensors c) (delete (transfer_id r) (cpu_cache c))) ≫= λ _,
          match data, t with
          | Pair dk dv, Pair k v =>
              match put_blocks k (block_ids r) dk with
              | None => raise IndexError
              | Some k' =>
                  modify (set_kv_tensors (Pair k' v)) ≫= λ _,
                  match put_blocks v (block_ids r) dv with
                  | None => raise IndexError
                  | Some v' => modify (set_kv_tensors (Pair k' v'))
                  end
              end
          | Single d, Single kv =>
              match put_blocks kv (block_ids r) d with
              | None => raise IndexError
              | Some kv' => modify (set_kv_tensors (Single kv'))
              end
          | _, _ => mret tt
          end
      end
  end.
End kv.
Arguments KVTensors V : clear implicits.
Arguments KVCoordinator V : clear implicits.

(** ** ExpertOffloadCoordinator *)
Inductive prefetch_call :=
  | PrefetchExpertsList (layer_id : Z) (experts : list Z)
  | FetchExpertsLockCache (layer_id : Z) (experts : list Z).

Record ExpertCoordinator := mkEC {
  num_devices : Z;
  has_scheduler : bool;
  prefetch_log : list prefetch_call
}.

(** [__init__] *)
Definition ec_init (num_devices : Z) : ExpertCoordinator := mkEC (Z.max 1 num_devices) false [].

Section expert.
(** [str(n)] and [int(s)]; [None] where [int] raises [ValueError]. *)
Context (str_of_int : Z → string) (int_of_str : string → option Z).

(** [_target_device_for_expert] *)
Definition target_device_for_expert (e : ExpertCoordinator) (expert_id : Z) : string :=
  String.append "cuda:" (str_of_int (expert_id mod num_devices e)).

(** [prefetch_experts]: the request it enqueues; [enqueue] gives it an id. *)
Definition prefetch_experts (layer_id : Z) (expert_ids : list Z) (p : TransferPriority)
    (e : ExpertCoordinator) : res TransferRequest :=
  if negb (has_scheduler e) then Err RuntimeError
  else
    let target_device := match expert_ids with
                         | x :: _ => target_device_for_expert e x
                         | [] => "cuda:0"
                         end in
    Ok (mkTransfer "" EXPERT_FETCH p "cpu" target_device (Some (str_of_int layer_id)) expert_ids).

(** [_decode_layer_id] *)
Definition decode_layer_id (t : option string) : res Z :=
  match t with
  | None => Ok 0
  | Some s => match int_of_str s with Some n => Ok n | None => Err ValueError end
  end.

Definition log_call (c : prefetch_call) (e : ExpertCoordinator) : ExpertCoordinator :=
  mkEC (num_devices e) (has_scheduler e) (prefetch_log e ++ [c]).

(** [_handle_expert_fetch], [_handle_expert_evict] *)
Definition handle_expert_fetch (r : TransferRequest) : M ExpertCoordinator unit :=
  match decode_layer_id (tensor_id r) with
  | Err e => raise e
  | Ok layer => modify (log_call (PrefetchExpertsList layer (block_ids r)))
  end.
Definition handle_expert_evict (r : TransferRequest) : M ExpertCoordinator unit :=
  match decode_layer_id (tensor_id r) with
  | Err e => raise e
  | Ok layer => modify (log_call (FetchExpertsLockCache layer (block_ids r)))
  end.

(** A prefetch reaches the prefetcher with its layer and experts. *)
Lemma prefetch_round_trip layer experts p e r :
  (∀ n, int_of_str (str_of_int n) = Some n) → prefetch_experts layer experts p e = Ok r →
  handle_expert_fetch r e = (Ok tt, log_call (PrefetchExpertsList layer experts) e).
Proof.
  intros Hint. unfold prefetch_experts. destruct (negb (has_scheduler e)); [done|]. intros [= <-].
  unfold handle_expert_fetch, decode_layer_id. simpl. by rewrite Hint.
Qed.
End expert.

(** ** What a swap restores *)
Section kv_props.
Context {V : Type}.
Implicit Types c : KVCoordinator V.

Lemma put_blocks_spec (t : list V) ids vals :
  NoDup ids → length ids = length vals → Forall (λ i, 0 ≤ i < zlen t) ids →
  ∃ t', put_blocks t ids vals = Some t' ∧ length t' = length t ∧
    (∀ k i x, ids !! k = Some i → vals !! k = Some x → t' !! Z.to_nat i = Some x) ∧
    (∀ j, Z.of_nat j ∉ ids → t' !! j = t !! j).
Proof.
  revert t vals. induction ids as [|i ids IH]; intros t vals Hnd Hlen Hr; destruct vals as [|x vals]; try done.
  { exists t. split_and!; [done|done|done|done]. }
  apply NoDup_cons in Hnd as [Hi Hnd]. apply Forall_cons in Hr as [Hri Hr]. cbn [put_blocks].
  rewrite bool_decide_true by done.
  destruct (IH (<[Z.to_nat i := x]> t) vals) as (t' & Hp & Hl & Hv & Ho); [done|by injection Hlen| |].
  { unfold zlen. rewrite length_insert. done. }
  rewrite length_insert in Hl. exists t'. split_and!; [done|done| |].
  - intros [|k] j y; simpl; [|apply Hv]. intros [= <-] [= <-]. rewrite Ho by (rewrite Z2Nat.id by lia; done).
    apply list_lookup_insert_eq. unfold zlen in Hri. lia.
  - intros j Hj. rewrite Ho by set_solver. apply list_lookup_insert_ne. intros <-. apply Hj.
    rewrite Z2Nat.id by lia. set_solver.
Qed.

(** With one transfer id for both directions, a swap restores the blocks. *)
Lemma swap_round_trip_same_id (t kv : list V) saved r_out r_in c cache :
  kv_tensors c = Some (Single t) → select_blocks t (block_ids r_out) = Some saved →
  transfer_id r_in = transfer_id r_out → cpu_cache (handle_swap_out r_out c).2 = cache →
  NoDup (block_ids r_in) → length (block_ids r_in) = length saved → Forall (λ i, 0 ≤ i < zlen kv) (block_ids r_in) →
  ∃ kv' c', handle_swap_in r_in (mkKVC (Some (Single kv)) cache) = (Ok tt, c') ∧ kv_tensors c' = Some (Single kv') ∧
    ∀ k i x, block_ids r_in !! k = Some i → saved !! k = Some x → kv' !! Z.to_nat i = Some x.
Proof.
  intros Ht Hsel Hid Hc Hnd Hlen Hr. revert Hc. unfold handle_swap_out. munfold. rewrite Ht. simpl. rewrite Hsel. simpl.
  intros <-. destruct (put_blocks_spec kv (block_ids r_in) saved Hnd Hlen Hr) as (kv' & Hp & _ & Hv & _).
  unfold handle_swap_in. munfold. simpl. rewrite Hid, lookup_insert_eq, Hp. eexists kv', _. by split_and!.
Qed.

(** ** The ids the engine's scheduler uses *)
Definition swap_out_id (rid : string) : string := String.append "swap_out_" rid.
Definition swap_in_id (rid : string) : string := String.append "swap_in_" rid.

(** A transfer the scheduler enqueues, or a write of the model to the tensors. *)
Inductive kv_event :=
  | SwapOut (rid : string) (r : TransferRequest)
  | SwapIn (rid : string) (r : TransferRequest)
  | ModelWrites (t : KVTensors V).

Definition kv_step (e : kv_event) c : KVCoordinator V :=
  match e with
  | SwapOut rid r => (handle_swap_out (with_id (swap_out_id rid) r) c).2
  | SwapIn rid r => (handle_swap_in (with_id (swap_in_id rid) r) c).2
  | ModelWrites t => set_kv_tensors t c
  end.

Definition only_swapped_out c : Prop := ∀ i, is_Some (cpu_cache c !! i) → ∃ rid, i = swap_out_id rid.

Lemma ids_differ a b : swap_in_id a ≠ swap_out_id b.
Proof. unfold swap_in_id, swap_out_id. simpl. intros H. by simplify_eq. Qed.

Lemma swap_in_noop rid r c :
  only_swapped_out c → handle_swap_in (with_id (swap_in_id rid) r) c = (Ok tt, c).
Proof.
  intros Ho. unfold handle_swap_in. munfold. destruct (kv_tensors c); [|done]. simpl.
  destruct (cpu_cache c !! swap_in_id rid) eqn:E; [|done].
  destruct (Ho (swap_in_id rid)) as [b Hb]; [eauto|]. by apply ids_differ in Hb.
Qed.

Lemma kv_step_ok e c : only_swapped_out c → only_swapped_out (kv_step e c).
Proof.
  intros Ho. destruct e as [rid r|rid r|t]; simpl; [|by rewrite swap_in_noop|done].
  unfold handle_swap_out. munfold. destruct (kv_tensors c) as [t|]; [|done]. simpl.
  destruct (select_block_tensors t (block_ids r)) as [d|]; [|done]. intros i. simpl.
  destruct (decide (i = swap_out_id rid)) as [->|Hne]; [eauto|]. rewrite lookup_insert_ne by done. apply Ho.
Qed.

(** The handlers file swapped-out blocks under the id of the swap-out
    transfer and look them up under the id of the swap-in transfer, which the
    scheduler derives differently: after any history of transfers and writes, a
    swap-in leaves the KV tensors as they are, whatever was saved. *)
Theorem engine_swap_in_restores_nothing (t : option (KVTensors V)) (es : list kv_event) rid r :
  let c := foldl (λ c e, kv_step e c) (mkKVC t ∅) es in
  handle_swap_in (with_id (swap_in_id rid) r) c = (Ok tt, c).
Proof.
  cbv zeta. apply swap_in_noop. assert (only_swapped_out (mkKVC t ∅)) as H0.
  { intros i. simpl. rewrite lookup_empty. by intros [? ?]. }
  revert H0. generalize (mkKVC t (∅ : gmap string (KVTensors V))). induction es as [|e es IH]; intros c Hc; [done|].
  simpl. apply IH. by apply kv_step_ok.
Qed.
End kv_props.
