(* ===== verification/ContextPilot.v ===== *)
(** * The context-pilot side components
    (serving/contextpilot_circuit_breaker.py, serving/eviction_sync.py,
    serving/cp_kv_interface.py)

    Locked methods are single steps; [time.monotonic()] is an argument; the
    middleware is a set of optional callables that may raise. *)
From S2P Require Import Prelude PyCollections.
From Stdlib Require Import QArith Qround.
Open Scope Z_scope.

(** ** CircuitBreaker *)
Module Breaker.

Inductive breaker_state := CLOSED | OPEN | HALF_OPEN.
#[export] Instance breaker_state_eq_dec : EqDecision breaker_state.
Proof. solve_decision. Defined.

Record CircuitBreaker := mkCB {
  error_rate_threshold : Q;
  latency_threshold_ms : Q;
  window_size : Z;
  cooldown_seconds : Q;
  state : breaker_state;
  opened_at : option Q;
  request_window : list bool;     (** oldest first *)
  latency_window : list Q
}.
Implicit Types b : CircuitBreaker.

(** [max(0.0, float(x))] *)
Definition max0 (x : Q) : Q := if Qle_bool 0 x then x else 0%Q.

(** [__init__] *)
Definition cb_init (rate latency : Q) (window : Z) (cooldown : Q) : CircuitBreaker :=
  mkCB rate latency (Z.max 1 window) (max0 cooldown) CLOSED None [] [].

Definition set_state (st : breaker_state) (at_ : option Q) b : CircuitBreaker :=
  mkCB (error_rate_threshold b) (latency_threshold_ms b) (window_size b) (cooldown_seconds b) st at_
    (request_window b) (latency_window b).
Definition set_windows (r : list bool) (l : list Q) b : CircuitBreaker :=
  mkCB (error_rate_threshold b) (latency_threshold_ms b) (window_size b) (cooldown_seconds b) (state b) (opened_at b) r l.

(** [deque(maxlen=n).append(x)] *)
Definition bounded_append {A} (n : Z) (x : A) (l : list A) : list A :=
  drop (Z.to_nat (zlen l + 1 - n)) (l ++ [x]).

(** [_refresh_state_locked] *)
Definition refresh_state (now : Q) b : CircuitBreaker :=
  match state b, opened_at b with
  | OPEN, Some t0 => if Qle_bool (cooldown_seconds b) (now - t0)%Q then set_state HALF_OPEN (opened_at b) b else b
  | _, _ => b
  end.

(** [_open_locked], [_close_locked] *)
Definition open_breaker (now : Q) b : CircuitBreaker := set_state OPEN (Some now) b.
Definition close_breaker b : CircuitBreaker := set_windows [] [] (set_state CLOSED None b).

(** [sorted(values)] *)
Fixpoint insert_sorted (x : Q) (l : list Q) : list Q :=
  match l with [] => [x] | y :: l' => if Qle_bool x y then x :: l else y :: insert_sorted x l' end.
Definition sorted (l : list Q) : list Q := foldr insert_sorted [] l.

(** [_compute_p99] *)
Definition compute_p99 (values : list Q) : Q :=
  match values with
  | [] => 0%Q
  | _ =>
      let index := Z.max 0 (Qceiling ((99 # 100) * inject_Z (zlen values)) - 1) in
      default 0%Q (sorted values !! Z.to_nat index)
  end.

(** [failures / len(window) > threshold] *)
Definition error_rate_exceeded b : bool :=
  match request_window b with
  | [] => false
  | w =>
      let failures := zlen (filter (λ s : bool, s = false) w) in
      negb (Qle_bool (inject_Z failures / inject_Z (zlen w)) (error_rate_threshold b))
  end.
Definition latency_exceeded b : bool :=
  (zlen (latency_window b) =? 10) && negb (Qle_bool (compute_p99 (latency_window b)) (latency_threshold_ms b)).

(** [_evaluate_closed_thresholds_locked] *)
Definition evaluate_closed_thresholds (now : Q) b : CircuitBreaker :=
  if decide (state b = CLOSED) then
    if error_rate_exceeded b then open_breaker now b
    else if latency_exceeded b then open_breaker now b
    else b
  else b.

(** [record_success] *)
Definition record_success (now latency_ms : Q) b : CircuitBreaker :=
  let b := refresh_state now b in
  if decide (state b = HALF_OPEN) then close_breaker b
  else evaluate_closed_thresholds now
         (set_windows (bounded_append (window_size b) true (request_window b))
            (bounded_append 10 latency_ms (latency_window b)) b).

(** [record_failure] *)
Definition record_failure (now : Q) b : CircuitBreaker :=
  let b := refresh_state now b in
  if decide (state b = HALF_OPEN) then open_breaker now b
  else evaluate_closed_thresholds now
         (set_windows (bounded_append (window_size b) false (request_window b)) (latency_window b) b).

(** [is_open], [get_state] *)
Definition is_open (now : Q) b : bool * CircuitBreaker :=
  let b := refresh_state now b in (bool_decide (state b = OPEN), b).
Definition get_state (now : Q) b : breaker_state * CircuitBreaker :=
  let b := refresh_state now b in (state b, b).

Inductive cb_call :=
  | Success (now latency_ms : Q)
  | Failure (now : Q)
  | Ask (now : Q).
Definition call_time (c : cb_call) : Q := match c with Success t _ | Failure t | Ask t => t end.
Definition cb_step (c : cb_call) b : CircuitBreaker :=
  match c with
  | Success t l => record_success t l b
  | Failure t => record_failure t b
  | Ask t => (is_open t b).2
  end.

(** Before the cooldown has passed nothing changes the state. *)
Lemma step_while_open c b t0 :
  state b = OPEN → opened_at b = Some t0 → (call_time c - t0 < cooldown_seconds b)%Q →
  state (cb_step c b) = OPEN ∧ opened_at (cb_step c b) = Some t0 ∧ cooldown_seconds (cb_step c b) = cooldown_seconds b.
Proof.
  intros Hs Ho Ht.
  assert (refresh_state (call_time c) b = b) as Hr.
  { unfold refresh_state. rewrite Hs, Ho. destruct (Qle_bool _ _) eqn:E; [|done].
    apply Qle_bool_iff in E. by apply Qlt_not_le in Ht. }
  destruct c as [t l|t|t]; simpl in *; unfold record_success, record_failure, is_open; rewrite Hr;
    unfold evaluate_closed_thresholds; simpl; rewrite ?Hs; rewrite ?decide_False by done; simpl; by rewrite ?Hs.
Qed.

(** Once the breaker opened, it stays open through any calls made before the
    cooldown has passed; then the next caller finds it half open, where one
    success closes it with cleared windows and one failure opens it again for a
    full cooldown. *)
Theorem breaker_cooldown b t0 cs now :
  state b = OPEN → opened_at b = Some t0 →
  Forall (λ c, call_time c - t0 < cooldown_seconds b)%Q cs →
  let b' := foldl (λ b c, cb_step c b) b cs in
  (now - t0 < cooldown_seconds b → (is_open now b').1 = true)%Q ∧
  (cooldown_seconds b <= now - t0 →
     (get_state now b').1 = HALF_OPEN ∧
     (∀ l, let b1 := record_success now l b' in
        state b1 = CLOSED ∧ request_window b1 = [] ∧ latency_window b1 = []) ∧
     state (record_failure now b') = OPEN ∧ opened_at (record_failure now b') = Some now)%Q.
Proof.
  intros Hs Ho Hcs.
  assert (let b' := foldl (λ b c, cb_step c b) b cs in
    state b' = OPEN ∧ opened_at b' = Some t0 ∧ cooldown_seconds b' = cooldown_seconds b) as (Hs' & Ho' & Hc').
  { revert b Hs Ho Hcs. induction cs as [|c cs IH]; intros b Hs Ho Hcs; [done|]. apply Forall_cons in Hcs as [Hc Hcs].
    destruct (step_while_open c b t0 Hs Ho Hc) as (H1 & H2 & H3). simpl.
    destruct (IH (cb_step c b) H1 H2) as (? & ? & ?); [by rewrite H3|]. split_and!; try done. by rewrite <- H3. }
  cbv zeta. set (b' := foldl _ b cs) in *. split.
  - intros Ht. unfold is_open, refresh_state. rewrite Hs', Ho', Hc'. destruct (Qle_bool _ _) eqn:E; simpl; [|by rewrite Hs'].
    apply Qle_bool_iff in E. by apply Qlt_not_le in Ht.
  - intros Ht. assert (refresh_state now b' = set_state HALF_OPEN (Some t0) b') as Hr.
    { unfold refresh_state. rewrite Hs', Ho', Hc'. apply Qle_bool_iff in Ht. by rewrite Ht. }
    unfold get_state, record_success, record_failure. rewrite Hr. simpl. by split_and!.
Qed.

Definition demo_breaker : CircuitBreaker := cb_step (Failure 100) (cb_init (1 # 100) 500 100 60).

Lemma breaker_cooldown_witness :
  (is_open 130 (foldl (λ b c, cb_step c b) demo_breaker [Success 110 5; Failure 120])).1 = true.
Proof.
  apply (breaker_cooldown demo_breaker 100 [Success 110 5; Failure 120] 130).
  - reflexivity.
  - reflexivity.
  - repeat constructor.
  - reflexivity.
Defined.
End Breaker.

(** ** EvictionSyncAdapter *)
Module Eviction.

Inductive EvictionEvent := COMPLETED | ABORTED | FREED | SWAPPED.
#[export] Instance EvictionEvent_eq_dec : EqDecision EvictionEvent.
Proof. solve_decision. Defined.

Record EvictionSyncAdapter := mkES {
  has_middleware : bool;
  evicted_request_ids : gset string;
  evict_incoming : Z;
  evict_removed : Z;
  evict_not_found : Z;
  event_counters : EvictionEvent → Z;
  completions : list string       (** calls of [middleware.on_request_complete] *)
}.
Implicit Types a : EvictionSyncAdapter.

(** [__init__] *)
Definition es_init (mw : bool) : EvictionSyncAdapter := mkES mw ∅ 0 0 0 (λ _, 0) [].

(** [_evict_request] *)
Definition evict_request (rid : string) a : EvictionSyncAdapter :=
  if decide (rid ∈ evicted_request_ids a) then
    mkES (has_middleware a) (evicted_request_ids a) (evict_incoming a + 1) (evict_removed a)
      (evict_not_found a + 1) (event_counters a) (completions a)
  else
    mkES (has_middleware a) ({[rid]} ∪ evicted_request_ids a) (evict_incoming a + 1)
      (if has_middleware a then evict_removed a + 1 else evict_removed a) (evict_not_found a) (event_counters a)
      (if has_middleware a then completions a ++ [rid] else completions a).

(** [_handle_event]: [on_request_finished], [on_request_aborted],
    [on_kv_blocks_freed] and [on_kv_blocks_swapped] call it with their event. *)
Definition handle_event (rid : string) (ev : EvictionEvent) a : EvictionSyncAdapter :=
  let a := mkES (has_middleware a) (evicted_request_ids a) (evict_incoming a) (evict_removed a) (evict_not_found a)
             (λ e, if decide (e = ev) then event_counters a e + 1 else event_counters a e) (completions a) in
  if decide (ev = SWAPPED) then a else evict_request rid a.

(** [get_counters] *)
Definition get_counters a : Z * Z * Z := (evict_incoming a, evict_removed a, evict_not_found a).

(** The middleware is told at most once about a request, and never for a swap. *)
Lemma notified_once mw (evs : list (string * EvictionEvent)) :
  let a := foldl (λ a e, handle_event e.1 e.2 a) (es_init mw) evs in
  NoDup (completions a) ∧ evict_removed a = zlen (completions a) ∧
  (∀ rid, rid ∈ completions a → rid ∈ evicted_request_ids a).
Proof.
  assert (∀ a, (NoDup (completions a) ∧ evict_removed a = zlen (completions a) ∧ ∀ rid, rid ∈ completions a → rid ∈ evicted_request_ids a) →
    let a' := foldl (λ a e, handle_event e.1 e.2 a) a evs in
    NoDup (completions a') ∧ evict_removed a' = zlen (completions a') ∧ ∀ rid, rid ∈ completions a' → rid ∈ evicted_request_ids a') as Hall.
  { induction evs as [|[rid ev] evs IH]; intros a (H1 & H2 & H3); [by split_and!|]. simpl. apply IH.
    unfold handle_event. case_decide; [by split_and!|]. unfold evict_request. simpl.
    case_decide as Hin; [by split_and!|]. simpl. destruct (has_middleware a); simpl.
    - split_and!.
      + apply NoDup_app. split_and!; [done| |apply NoDup_singleton]. intros i Hi ->%list_elem_of_singleton. by apply Hin, H3.
      + rewrite zlen_app, H2. done.
      + intros i [Hi|Hi]%elem_of_app; [apply elem_of_union_r; by apply H3|]. apply list_elem_of_singleton in Hi as ->.
        apply elem_of_union_l. by apply elem_of_singleton.
    - split_and!; [done|done|]. intros i Hi. apply elem_of_union_r. by apply H3. }
  apply Hall. split_and!; [apply NoDup_nil_2|done|]. intros rid Hr. by apply not_elem_of_nil in Hr.
Qed.
End Eviction.

(** ** ContextPilotKVManager *)
Module CPKV.

(** The values the middleware may return. *)
#[warnings="-register-all"]
Inductive pyobj :=
  | OBool (b : bool)
  | OInt (n : Z)
  | OFloat (q : Q)
  | OStr (s : string)
  | OList (l : list pyobj)
  | OOther.

(** An attribute of the middleware: missing or not callable, or a function whose
    call returns an object or raises. *)
Definition callable (A : Type) : Type := option (A → option pyobj).

Record Middleware := mkMW {
  mw_predict : callable (string * list Z);
  mw_cached : callable string;
  mw_rank : callable (list string);
  mw_notifies : bool     (** the two notification hooks are callable *)
}.

Inductive mw_event :=
  | Allocated (rid : string) (hashes : list Z)
  | Freed (rid : string) (hashes : gset Z).

Record ContextPilotKVManager := mkCP {
  request_to_blocks : gmap string (list Z);
  mw_log : list mw_event
}.
Implicit Types c : ContextPilotKVManager.

(** [_clamp01] *)
Definition clamp01 (v : Q) : Q :=
  if negb (Qle_bool 0 v) then 0%Q else if negb (Qle_bool v 1) then 1%Q else v.

(** [int(x)] of a float: towards zero. *)
Definition truncate (q : Q) : Z := Z.quot (Qnum q) (Zpos (Qden q)).

Section cp.
(** [str(obj)], and [int(s)] with [None] for [ValueError]. *)
Context (py_str : pyobj → string) (int_of_str : string → option Z) (mw : Middleware).

(** [predict_prefix_reuse] *)
Definition predict_prefix_reuse (rid : string) (token_ids : list Z) : Q :=
  match mw_predict mw with
  | None => 0%Q
  | Some predictor =>
      match predictor (rid, token_ids) with
      | Some (OBool b) => clamp01 (if b then 1 else 0)
      | Some (OInt n) => clamp01 (inject_Z n)
      | Some (OFloat q) => clamp01 q
      | _ => 0%Q
      end
  end.

(** [_normalize_int_list] *)
Definition normalize_int_list (values : list pyobj) : list Z :=
  omap (λ v, match v with
             | OBool b => Some (if b then 1 else 0)
             | OInt n => Some n
             | OFloat q => Some (truncate q)
             | OStr s => int_of_str s
             | _ => None
             end) values.

(** [get_cp_cached_blocks] *)
Definition get_cp_cached_blocks (rid : string) c : list Z :=
  let own := default [] (request_to_blocks c !! rid) in
  match mw_cached mw with
  | None => own
  | Some getter => match getter rid with Some (OList l) => normalize_int_list l | _ => own end
  end.

(** [notify_blocks_allocated] *)
Definition notify_blocks_allocated (rid : string) (hashes : list Z) c : ContextPilotKVManager :=
  mkCP (<[rid := hashes]> (request_to_blocks c))
    (if mw_notifies mw then mw_log c ++ [Allocated rid hashes] else mw_log c).

(** [notify_blocks_freed] *)
Definition notify_blocks_freed (rid : string) (hashes : list Z) c : ContextPilotKVManager :=
  let freed : gset Z := list_to_set hashes in
  let remaining := filter (λ h, h ∉ freed) (default [] (request_to_blocks c !! rid)) in
  mkCP (match remaining with [] => delete rid (request_to_blocks c) | _ => <[rid := remaining]> (request_to_blocks c) end)
    (if mw_notifies mw then mw_log c ++ [Freed rid freed] else mw_log c).

(** The loop over the middleware's ranking: known ids, each once. *)
Fixpoint ranked_known (input : list string) (ranked : list pyobj) (out : list string) : list string :=
  match ranked with
  | [] => out
  | o :: ranked =>
      let rid := py_str o in
      ranked_known input ranked (if bool_decide (rid ∈ input ∧ rid ∉ out) then out ++ [rid] else out)
  end.

(** [sorted(request_ids, key=score, reverse=True)]: stable, highest first. *)
Fixpoint insert_by (score : string → Q) (x : string) (l : list string) : list string :=
  match l with
  | [] => [x]
  | y :: l' => if Qle_bool (score x) (score y) then y :: insert_by score x l' else x :: l
  end.

(** [get_allocation_priority] *)
Definition get_allocation_priority (request_ids : list string) : list string :=
  let by_score := foldl (λ acc x, insert_by (λ rid, predict_prefix_reuse rid []) x acc) [] request_ids in
  match mw_rank mw with
  | None => by_score
  | Some ranker =>
      match ranker request_ids with
      | Some (OList ranked) =>
          let out := ranked_known request_ids ranked [] in
          out ++ filter (λ rid, rid ∉ out) request_ids
      | _ => by_score
      end
  end.

Lemma insert_by_perm score x l : insert_by score x l ≡ₚ x :: l.
Proof. induction l as [|y l IH]; simpl; [done|]. destruct (Qle_bool _ _); [|done]. rewrite IH. constructor. Qed.

Lemma ranked_known_ok input ranked out :
  NoDup out → (∀ i, i ∈ out → i ∈ input) →
  NoDup (ranked_known input ranked out) ∧ ∀ i, i ∈ ranked_known input ranked out → i ∈ input.
Proof.
  revert out. induction ranked as [|o ranked IH]; intros out Hnd Hin; simpl; [done|].
  apply IH; case_bool_decide as Hd; try done.
  - apply NoDup_app. split_and!; [done| |apply NoDup_singleton]. intros i Hi ->%list_elem_of_singleton. by destruct Hd.
  - intros i [Hi|Hi]%elem_of_app; [by apply Hin|]. apply list_elem_of_singleton in Hi as ->. by destruct Hd.
Qed.

(** Whatever the middleware answers, the ranking is a permutation of the
    requests, so that none is dropped or duplicated. *)
Lemma allocation_priority_perm request_ids :
  NoDup request_ids → get_allocation_priority request_ids ≡ₚ request_ids.
Proof.
  intros Hnd. unfold get_allocation_priority. set (score := λ rid, predict_prefix_reuse rid []).
  assert (foldl (λ acc x, insert_by score x acc) [] request_ids ≡ₚ request_ids) as Hs.
  { assert (∀ l acc, foldl (λ acc x, insert_by score x acc) acc l ≡ₚ l ++ acc) as Hx.
    { induction l as [|y l IH]; intros acc; simpl; [done|]. rewrite IH, insert_by_perm. solve_Permutation. }
    rewrite Hx. by rewrite app_nil_r. }
  destruct (mw_rank mw) as [ranker|]; [|done]. destruct (ranker request_ids) as [[]|]; try done.
  destruct (ranked_known_ok request_ids l []) as [Hn Hi]; [apply NoDup_nil_2|by intros ? ?%not_elem_of_nil|].
  apply NoDup_Permutation; [|done|].
  - apply NoDup_app. split_and!; [done| |by apply NoDup_filter]. intros i Ho [Hno _]%list_elem_of_filter. done.
  - intros i. rewrite elem_of_app, list_elem_of_filter. destruct (decide (i ∈ ranked_known request_ids l [])) as [Hd|Hd].
    + split; [|by left]. intros _. by apply Hi.
    + tauto.
Qed.

(** The score is always between 0 and 1. *)
Lemma predict_in_range rid tokens : (0 <= predict_prefix_reuse rid tokens <= 1)%Q.
Proof.
  assert (∀ v, 0 <= clamp01 v <= 1)%Q as Hc.
  { intros v. unfold clamp01. destruct (Qle_bool 0 v) eqn:E1; simpl; [|split; discriminate].
    destruct (Qle_bool v 1) eqn:E2; simpl; [|split; discriminate]. split; by apply Qle_bool_iff. }
  unfold predict_prefix_reuse. destruct (mw_predict mw) as [pr|]; [|split; discriminate].
  destruct (pr (rid, tokens)) as [[]|]; try apply Hc; split; discriminate.
Qed.
End cp.
End CPKV.
