(* ===== verification/ModelRunner.v ===== *)
(** * The model runner (serving/model_runner.py)

    From a packed batch to the tensors of the forward pass and back to packed
    logits: padded inputs, positions, masks, block tables and KV slots.  A
    tensor of integers of rank 2 is a list of rows; the model's forward pass is
    a parameter that may raise.  Attributes that the code looks up with
    [getattr] are optional fields. *)
From S2P Require Import Prelude PyCollections KVCache Sequence.
From S2P Require Import Batch Sampler.
From Stdlib Require Import QArith.
Import Alloc Table Paged.
Open Scope Z_scope.

(** ** Tensors *)

(** [torch.zeros((n, m))]; a negative size is an error. *)
Definition zeros (n m : Z) : res (list (list Z)) :=
  if m <? 0 then Err RuntimeError
  else Ok (replicate (Z.to_nat n) (replicate (Z.to_nat m) 0)).

(** [t[i, :len(vals)] = vals], for [vals] that fit in the row. *)
Definition set_prefix (i : nat) (vals : list Z) (t : list (list Z)) : list (list Z) :=
  alter (λ row, vals ++ drop (length vals) row) i t.

(** Python's [l[i]]: a negative index counts from the end. *)
Definition py_index {A} (l : list A) (i : Z) : option A :=
  if (0 <=? i) && (i <? zlen l) then l !! Z.to_nat i
  else if (- zlen l <=? i) && (i <? 0) then l !! Z.to_nat (i + zlen l)
  else None.

(** [max(l, default=0)] *)
Definition py_max (l : list Z) : Z :=
  match l with [] => 0 | x :: l' => foldl Z.max x l' end.

(** ** Inputs *)
Record ModelInputs := mkInputs {
  input_ids : list (list Z);
  position_ids : list (list Z);
  attention_mask : list (list Z)
}.

(** The body of the loop of [prepare_inputs]. *)
Definition fill_row (batch : BatchMetadata) (seq_idx : nat) : M ModelInputs unit :=
  match token_offsets batch !! seq_idx, token_offsets batch !! S seq_idx, seq_lengths batch !! seq_idx with
  | Some start, Some stop, Some seq_len =>
      let seq_tokens := py_slice (input_token_ids batch) start stop in
      raise_if (negb (zlen seq_tokens =? seq_len)) ValueError ≫= λ _,
      if seq_len =? 0 then mret tt
      else
        match context_lengths batch !! seq_idx with
        | None => raise IndexError
        | Some context_len =>
            modify (λ t, mkInputs (set_prefix seq_idx seq_tokens (input_ids t))
                           (set_prefix seq_idx (arange context_len (context_len + seq_len) 1) (position_ids t))
                           (set_prefix seq_idx (replicate (Z.to_nat seq_len) 1) (attention_mask t)))
        end
  | _, _, _ => raise IndexError
  end.

(** [ModelRunner.prepare_inputs] *)
Definition prepare_inputs (batch : BatchMetadata) : res ModelInputs :=
  let num_seqs := length (seq_ids batch) in
  match zeros (Z.of_nat num_seqs) (py_max (seq_lengths batch)) with
  | Err e => Err e
  | Ok z =>
      match for_each (seq 0 num_seqs) (fill_row batch) (mkInputs z z z) with
      | (Ok _, t) => Ok t
      | (Err e, _) => Err e
      end
  end.

(** ** KV slots *)

(** The inner loop of [_build_slot_mapping]: the slot of each of [seq_len]
    tokens from [token_pos] on. *)
Fixpoint token_slots (block_size : Z) (block_table : list Z) (token_pos : Z) (seq_len : nat) : res (list Z) :=
  match seq_len with
  | O => Ok []
  | S n =>
      let block_idx := token_pos / block_size in
      if zlen block_table <=? block_idx then Err ValueError
      else
        match py_index block_table block_idx with
        | None => Err IndexError
        | Some b =>
            match token_slots block_size block_table (token_pos + 1) n with
            | Err e => Err e
            | Ok slots => Ok (b * block_size + token_pos mod block_size :: slots)
            end
        end
  end.

(** [_build_slot_mapping]: the three columns are walked by index. *)
Fixpoint slots_of_rows (block_size : Z) (lens : list Z) (tables : list (list Z)) (ctxs : list Z) : res (list Z) :=
  match lens with
  | [] => Ok []
  | seq_len :: lens' =>
      match tables, ctxs with
      | block_table :: tables', context_len :: ctxs' =>
          match token_slots block_size block_table context_len (Z.to_nat seq_len) with
          | Err e => Err e
          | Ok slots =>
              match slots_of_rows block_size lens' tables' ctxs' with
              | Err e => Err e
              | Ok rest => Ok (slots ++ rest)
              end
          end
      | _, _ => Err IndexError
      end
  end.
Definition build_slot_mapping (batch : BatchMetadata) (block_size : Z) : res (list Z) :=
  slots_of_rows block_size (seq_lengths batch) (block_tables batch) (context_lengths batch).

(** The fields of the runtime's [AttentionMetadata]. *)
Record RuntimeAttentionMetadata := mkMeta {
  m_block_tables : list (list Z);
  m_seq_lens : list Z;
  m_max_seq_len : Z;
  m_num_prefill_tokens : Z;
  m_num_decode_tokens : Z;
  m_slot_mapping : list Z;
  m_is_prefill : bool
}.

(** [_build_runtime_attention_metadata] *)
Definition build_runtime_attention_metadata (batch : BatchMetadata) (block_size : Z)
    : res RuntimeAttentionMetadata :=
  let max_blocks := py_max (zlen <$> block_tables batch) in
  let tables := (λ row, row ++ replicate (Z.to_nat max_blocks - length row) 0) <$> block_tables batch in
  let seq_lens_values := zip_with Z.add (context_lengths batch) (seq_lengths batch) in
  match build_slot_mapping batch block_size with
  | Err e => Err e
  | Ok slots =>
      let num_prefill := zsum (zip_with (λ (l : Z) (p : bool), if p then l else 0) (seq_lengths batch) (is_prefill batch)) in
      Ok (mkMeta tables seq_lens_values (py_max seq_lens_values) num_prefill
            (total_tokens batch - num_prefill) slots
            (match is_prefill batch with [] => false | ps => forallb id ps end))
  end.

(** ** The engine object the runner is given *)

(** An attention backend, with the block size of its [spec] if it has one. *)
Record Backend := mkBackend { spec_block_size : option Z }.

(** A layer module; [None] when it has no attribute [seq_id_list]. *)
Record RunnerEngine := mkEng {
  has_tracer : bool;                     (** [expert_tracer.create_entry] exists *)
  created_entries : Z;                   (** entries created so far, numbered *)
  layer_modules : list (option (list Z));
  has_generator : bool;                  (** [_generate_request_id] is callable *)
  engine_request_id : option Z;
  kv_block_size : option Z;              (** [kv_cache.block_size] *)
  backend_getter : option (option Backend);   (** result of [get_attention_backend()] *)
  backend_attrs : list (option Backend)  (** the three attributes tried, in order *)
}.

(** [_get_attention_backend] *)
Definition first_some {A} (l : list (option A)) : option A :=
  foldr (λ x r, match x with Some _ => x | None => r end) None l.
Definition get_attention_backend (e : RunnerEngine) : option Backend :=
  match backend_getter e with
  | Some (Some b) => Some b
  | _ => first_some (backend_attrs e)
  end.

(** [_resolve_block_size] *)
Definition positive (o : option Z) : option Z :=
  match o with Some n => if 0 <? n then Some n else None | None => None end.
Definition resolve_block_size (e : RunnerEngine) : Z :=
  match positive (kv_block_size e) with
  | Some n => n
  | None =>
      match positive (b ← get_attention_backend e; spec_block_size b) with
      | Some n => n
      | None => 1
      end
  end.

(** A module of the model: its class name and whether the class has both
    [set_paged_context] and [clear_paged_context]. *)
Record ModuleClass := mkClass { class_name : string; has_paged_hooks : bool }.
#[export] Instance ModuleClass_eq_dec : EqDecision ModuleClass.
Proof. solve_decision. Defined.

Definition paged_class_names : list string :=
  ["DeepseekV2PagedAttention"; "DeepseekV3PagedAttention"]%string.

(** [_get_paged_attention_classes]; [None] when the model has no [modules()]. *)
Fixpoint paged_classes (seen : list ModuleClass) (modules : list ModuleClass) : list ModuleClass :=
  match modules with
  | [] => []
  | cls :: rest =>
      if bool_decide (cls ∈ seen) then paged_classes seen rest
      else if negb (bool_decide (class_name cls ∈ paged_class_names)) then paged_classes seen rest
      else if negb (has_paged_hooks cls) then paged_classes seen rest
      else cls :: paged_classes (cls :: seen) rest
  end.
Definition get_paged_attention_classes (modules : option (list ModuleClass)) : list ModuleClass :=
  match modules with None => [] | Some ms => paged_classes [] ms end.

(** ** Outputs *)

(** A tensor of logits: packed rows, one matrix per sequence, or another
    rank. *)
Inductive Logits := Rank2 (rows : list Row) | Rank3 (seqs : list (list Row)) | RankOther.

(** What the model returns: where [_extract_logits] looks for the logits, in
    this order; [Some None] is an object that is not a tensor. *)
Record ModelOutput := mkOutput {
  out_attr : option (option Logits);
  out_mapping : option (option Logits);
  out_tuple_head : option (option Logits)
}.

(** [_extract_logits] *)
Definition extract_logits (o : ModelOutput) : res Logits :=
  match first_some [out_attr o; out_mapping o; out_tuple_head o] with
  | Some (Some l) => Ok l
  | _ => Err ValueError
  end.

(** [logits[token_mask]] for a boolean mask of rank 2: the shapes must agree. *)
Definition same_shape {A B} (x : list (list A)) (y : list (list B)) : bool :=
  bool_decide (length <$> x = length <$> y).
Definition masked_select {A} (x : list (list A)) (mask : list (list Z)) : res (list A) :=
  if same_shape x mask
  then Ok (concat (zip_with (λ row bits, (filter (λ p, p.2 ≠ 0) (zip row bits)).*1) x mask))
  else Err IndexError.

(** ** Execution *)
Record ModelRunner := mkRunner {
  runner_engine : RunnerEngine;
  seq_id_list : list Z;
  paged_context : list (ModuleClass * RuntimeAttentionMetadata)
    (** the class attributes that [set_paged_context] sets, latest first *)
}.
Definition set_engine (e : RunnerEngine) (r : ModelRunner) : ModelRunner := mkRunner e (seq_id_list r) (paged_context r).
Definition set_context (c : list (ModuleClass * RuntimeAttentionMetadata)) (r : ModelRunner) : ModelRunner :=
  mkRunner (runner_engine r) (seq_id_list r) c.

(** [_configure_expert_tracing] *)
Definition configure_expert_tracing (num_sequences : Z) : M ModelRunner unit :=
  modify (λ r,
    let e := runner_engine r in
    let traced := has_tracer e && (0 <? num_sequences) in
    let ids := if traced then seqZ (created_entries e) num_sequences else [] in
    mkRunner
      (mkEng (has_tracer e) (created_entries e + zlen ids) ((λ md, match md with Some _ => Some ids | None => None end) <$> layer_modules e)
         (has_generator e) (engine_request_id e) (kv_block_size e) (backend_getter e) (backend_attrs e))
      ids (paged_context r)).

(** [_advance_request_id]; the generator increments the same counter. *)
Definition advance_request_id : M ModelRunner unit :=
  modify (λ r,
    let e := runner_engine r in
    set_engine (mkEng (has_tracer e) (created_entries e) (layer_modules e) (has_generator e)
                  (Z.succ <$> engine_request_id e) (kv_block_size e) (backend_getter e) (backend_attrs e)) r).

Section execute.
(** The model: its modules, its vocabulary size (from the config, then from the
    model), and its forward pass, which reads the paged context and may raise;
    [None] when it is not callable. *)
Context (modules : option (list ModuleClass)) (config_vocab model_vocab : option Z).
Context (forward_fn : option (ModelInputs → list (ModuleClass * RuntimeAttentionMetadata) → res ModelOutput)).

(** [_empty_logits] with [_resolve_vocab_size]: no rows. *)
Definition empty_logits : M ModelRunner (list Row) :=
  match config_vocab, model_vocab with
  | None, None => raise ValueError
  | _, _ => mret []
  end.

(** [attn_cls.set_paged_context] and [attn_cls.clear_paged_context] *)
Definition set_paged_context (m : RuntimeAttentionMetadata) (cls : ModuleClass) : M ModelRunner unit :=
  modify (λ r, set_context ((cls, m) :: paged_context r) r).
Definition clear_paged_context (cls : ModuleClass) : M ModelRunner unit :=
  modify (λ r, set_context (filter (λ p, p.1 ≠ cls) (paged_context r)) r).

Definition call_forward (fwd : ModelInputs → list (ModuleClass * RuntimeAttentionMetadata) → res ModelOutput)
    (inputs : ModelInputs) : M ModelRunner ModelOutput := λ r, (fwd inputs (paged_context r), r).

(** The [with torch.no_grad()] block. *)
Definition run_model (fwd : ModelInputs → list (ModuleClass * RuntimeAttentionMetadata) → res ModelOutput)
    (batch : BatchMetadata) (inputs : ModelInputs) : M ModelRunner ModelOutput := λ r,
  let classes := get_paged_attention_classes modules in
  match classes, get_attention_backend (runner_engine r) with
  | _ :: _, Some _ =>
      match build_runtime_attention_metadata batch (resolve_block_size (runner_engine r)) with
      | Err e => (Err e, r)
      | Ok metadata =>
          let '(_, r1) := for_each classes (set_paged_context metadata) r in
          let '(o, r2) := call_forward fwd inputs r1 in
          let '(_, r3) := for_each classes clear_paged_context r2 in
          (o, r3)
      end
  | _, _ => call_forward fwd inputs r
  end.

(** [ModelRunner.execute] *)
Definition execute (batch : BatchMetadata) : M ModelRunner (list Row) :=
  configure_expert_tracing (zlen (seq_ids batch)) ≫= λ _,
  advance_request_id ≫= λ _,
  if total_tokens batch =? 0 then empty_logits
  else
    match prepare_inputs batch with
    | Err e => raise e
    | Ok inputs =>
        match forward_fn with
        | None => raise ValueError
        | Some fwd =>
            outputs ← run_model fwd batch inputs;
            match extract_logits outputs with
            | Err e => raise e
            | Ok l =>
                match (match l with
                       | Rank3 seqs => masked_select seqs (attention_mask inputs)
                       | Rank2 rows => Ok rows
                       | RankOther => Err ValueError
                       end) with
                | Err e => raise e
                | Ok rows => if zlen rows =? total_tokens batch then mret rows else raise ValueError
                end
            end
        end
    end.
End execute.
