(* ===== verification/ModelRunnerProps.v ===== *)
(** * The model runner: slots, inputs and packed logits *)
From S2P Require Import GenerationLoop.
From S2P Require Import Prelude PyCollections KVCache KVCacheProps KVCacheSwap.
From S2P Require Import Sequence Batch BatchProps Sampler ModelRunner.
From Stdlib Require Import QArith.
Import Alloc Table Paged.
Open Scope Z_scope.

(** ** Slots of one sequence *)

(** The slot of the token at position [p]. *)
Definition slot_at (bs : Z) (table : list Z) (p : Z) : Z :=
  default 0 (table !! Z.to_nat (p / bs)) * bs + p mod bs.

Lemma py_index_in {A} (l : list A) i : 0 ≤ i < zlen l → py_index l i = l !! Z.to_nat i.
Proof. intros Hi. unfold py_index. by replace ((0 <=? i) && (i <? zlen l)) with true by lia. Qed.

Lemma block_idx_lt bs n p : 0 < bs → (p / bs < n ↔ p < n * bs).
Proof.
  intros Hbs. split; intros H.
  - pose proof (Z.div_mod p bs ltac:(lia)). pose proof (Z.mod_pos_bound p bs Hbs). nia.
  - apply Z.div_lt_upper_bound; lia.
Qed.

Lemma token_slots_spec bs table p n :
  0 < bs → 0 ≤ p →
  token_slots bs table p n =
    if decide (n = 0%nat ∨ p + Z.of_nat n ≤ zlen table * bs)
    then Ok (slot_at bs table <$> seqZ p (Z.of_nat n)) else Err ValueError.
Proof.
  intros Hbs. revert p. induction n as [|n IH]; intros p Hp; cbn [token_slots].
  { by rewrite decide_True by (by left). }
  pose proof (block_idx_lt bs (zlen table) p Hbs) as Hlt.
  assert (0 ≤ p / bs) by (apply Z.div_pos; lia).
  destruct (Z.leb_spec (zlen table) (p / bs)) as [Hle|Hgt].
  { rewrite decide_False; [done|]. intros [?|?]; [done|]. assert (p < zlen table * bs) as ?%Hlt by lia. lia. }
  pose proof (proj1 Hlt Hgt) as Hp'. rewrite py_index_in by lia. destruct (table !! Z.to_nat (p / bs)) as [b|] eqn:Hb.
  2:{ apply lookup_ge_None in Hb. unfold zlen in *. lia. }
  rewrite IH by lia. replace (Z.of_nat (S n)) with (Z.succ (Z.of_nat n)) by lia.
  destruct (decide (n = 0%nat ∨ _)) as [Hc|Hc]; [rewrite decide_True by lia|rewrite decide_False by lia; done].
  rewrite (seqZ_cons p (Z.succ _)) by lia. replace (Z.pred (Z.succ (Z.of_nat n))) with (Z.of_nat n) by lia.
  cbn [fmap list_fmap]. unfold slot_at at 2. rewrite Hb. simpl.
  by replace (Z.succ p) with (p + 1) by lia.
Qed.

Lemma slot_at_inj bs table1 table2 p q b c :
  0 < bs → table1 !! Z.to_nat (p / bs) = Some b → table2 !! Z.to_nat (q / bs) = Some c →
  slot_at bs table1 p = slot_at bs table2 q → b = c ∧ p mod bs = q mod bs.
Proof.
  intros Hbs Hb Hc. unfold slot_at. rewrite Hb, Hc. simpl.
  pose proof (Z.mod_pos_bound p bs Hbs). pose proof (Z.mod_pos_bound q bs Hbs). intros Heq.
  assert ((b * bs + p mod bs) / bs = (c * bs + q mod bs) / bs) as Hd by (by rewrite Heq).
  rewrite !Z.div_add_l, !Z.div_small in Hd by lia. assert (b = c) as -> by lia. lia.
Qed.

Lemma slot_block bs (table : list Z) p n :
  0 < bs → 0 ≤ p < n → n ≤ zlen table * bs → ∃ b, table !! Z.to_nat (p / bs) = Some b.
Proof.
  intros Hbs Hp Hn. apply lookup_lt_is_Some_2. pose proof (block_idx_lt bs (zlen table) p Hbs).
  assert (0 ≤ p / bs) by (apply Z.div_pos; lia). unfold zlen in *. lia.
Qed.

(** Distinct positions of one sequence have distinct slots. *)
Lemma row_slots_nodup bs table c l :
  0 < bs → 0 ≤ c → l ≤ 0 ∨ c + l ≤ zlen table * bs → NoDup table → NoDup (slot_at bs table <$> seqZ c l).
Proof.
  intros Hbs Hc Hcov Hnd. destruct (decide (l ≤ 0)) as [Hl|Hl]; [by rewrite seqZ_nil by lia; constructor|].
  apply NoDup_fmap_2_strong; [|apply NoDup_seqZ]. intros p q Hp%elem_of_seqZ Hq%elem_of_seqZ Heq.
  destruct (slot_block bs table p (c + l)) as [b Hb]; [lia..|].
  destruct (slot_block bs table q (c + l)) as [b' Hb']; [lia..|].
  destruct (slot_at_inj _ _ _ _ _ _ _ Hbs Hb Hb' Heq) as [-> Hm].
  pose proof (NoDup_lookup _ _ _ _ Hnd Hb Hb') as Hd.
  assert (0 ≤ p / bs) by (apply Z.div_pos; lia). assert (0 ≤ q / bs) by (apply Z.div_pos; lia).
  pose proof (Z.div_mod p bs ltac:(lia)). pose proof (Z.div_mod q bs ltac:(lia)).
  assert (p / bs = q / bs) as Hd' by lia. rewrite Hd' in *. lia.
Qed.

Lemma row_slots_block bs table c l s :
  0 < bs → 0 ≤ c → l ≤ 0 ∨ c + l ≤ zlen table * bs → s ∈ (slot_at bs table <$> seqZ c l) →
  s / bs ∈ table ∧ ∃ p, s = slot_at bs table p.
Proof.
  intros Hbs Hc Hcov (p & -> & Hp%elem_of_seqZ)%list_elem_of_fmap. split; [|eauto].
  destruct (slot_block bs table p (c + l)) as [b Hb]; [lia..|].
  unfold slot_at. rewrite Hb. simpl. rewrite Z.div_add_l by lia.
  rewrite (Z.div_small (p mod bs)) by (apply Z.mod_pos_bound; lia). rewrite Z.add_0_r.
  by eapply list_elem_of_lookup_2.
Qed.

(** ** Slots of a batch *)

(** A row of the batch as the slot computation sees it. *)
Record slot_row := mkSlotRow { r_len : Z; r_table : list Z; r_ctx : Z }.
Definition covered (bs : Z) (r : slot_row) : Prop := r_len r ≤ 0 ∨ r_ctx r + r_len r ≤ zlen (r_table r) * bs.
#[export] Instance covered_dec bs r : Decision (covered bs r).
Proof. unfold covered. apply _. Defined.
Definition row_slots (bs : Z) (r : slot_row) : list Z := slot_at bs (r_table r) <$> seqZ (r_ctx r) (r_len r).

Lemma slots_of_rows_spec bs rows :
  0 < bs → Forall (λ r, 0 ≤ r_ctx r) rows →
  slots_of_rows bs (r_len <$> rows) (r_table <$> rows) (r_ctx <$> rows) =
    if decide (Forall (covered bs) rows) then Ok (rows ≫= row_slots bs) else Err ValueError.
Proof.
  intros Hbs. induction rows as [|r rows IH]; intros Hc; cbn [fmap list_fmap slots_of_rows].
  { by rewrite decide_True by constructor. }
  apply Forall_cons in Hc as [Hc0 Hc]. rewrite token_slots_spec, IH by done.
  destruct (decide (covered bs r)) as [Hr|Hr]; unfold covered in Hr.
  2:{ rewrite decide_False by lia. rewrite decide_False; [done|]. by intros [? _]%Forall_cons. }
  rewrite decide_True by lia.
  destruct (decide (Forall (covered bs) rows)) as [Hrs|Hrs].
  - rewrite decide_True by by constructor. cbn [mbind list_bind]. do 2 f_equal. unfold row_slots. f_equal.
    destruct (decide (r_len r ≤ 0)); [|by rewrite Z2Nat.id by lia]. rewrite !seqZ_nil by lia. done.
  - rewrite decide_False; [done|]. by intros [_ ?]%Forall_cons.
Qed.

Lemma rows_slots_nodup bs rows :
  0 < bs → Forall (λ r, 0 ≤ r_ctx r) rows → Forall (covered bs) rows →
  NoDup (rows ≫= r_table) → NoDup (rows ≫= row_slots bs).
Proof.
  intros Hbs. induction rows as [|r rows IH]; intros Hc Hv Hnd; [constructor|].
  apply Forall_cons in Hc as [Hc0 Hc], Hv as [Hv0 Hv]. cbn [mbind list_bind] in *.
  apply NoDup_app in Hnd as (Hnd1 & Hd & Hnd2). apply NoDup_app. split_and!; [| |by apply IH].
  - by apply row_slots_nodup.
  - intros s Hs (r' & Hs' & Hr')%list_elem_of_bind.
    rewrite Forall_forall in Hc, Hv.
    apply row_slots_block in Hs as [Hb _]; [|done..].
    apply row_slots_block in Hs' as [Hb' _]; [|done|by apply Hc|by apply Hv].
    apply (Hd (s / bs)); [done|]. apply list_elem_of_bind. eauto.
Qed.

(** The rows of a batch. *)
Fixpoint zip_rows (lens : list Z) (tables : list (list Z)) (ctxs : list Z) : list slot_row :=
  match lens, tables, ctxs with
  | l :: lens', t :: tables', c :: ctxs' => mkSlotRow l t c :: zip_rows lens' tables' ctxs'
  | _, _, _ => []
  end.
Definition batch_rows (b : BatchMetadata) : list slot_row :=
  zip_rows (seq_lengths b) (Batch.block_tables b) (context_lengths b).

Lemma zip_rows_cols lens tables ctxs :
  length tables = length lens → length ctxs = length lens →
  let rows := zip_rows lens tables ctxs in
  r_len <$> rows = lens ∧ r_table <$> rows = tables ∧ r_ctx <$> rows = ctxs.
Proof.
  revert tables ctxs. induction lens as [|l lens IH]; intros [|t tables] [|c ctxs] Ht Hc; try done.
  simpl in *. destruct (IH tables ctxs) as (H1 & H2 & H3); [lia..|]. cbn. unfold fmap in *. by rewrite H1, H2, H3.
Qed.

Lemma batch_rows_cols b :
  bm_valid b → r_len <$> batch_rows b = seq_lengths b ∧
  r_table <$> batch_rows b = Batch.block_tables b ∧ r_ctx <$> batch_rows b = context_lengths b.
Proof. intros [V1 V2 V3 V4 _ _ _]. apply zip_rows_cols; lia. Qed.

Lemma bind_tables rows : rows ≫= r_table = mjoin (r_table <$> rows).
Proof. induction rows as [|r rows IH]; [done|]. cbn. f_equal. exact IH. Qed.

Lemma row_slots_total bs rows :
  Forall (λ r, 0 ≤ r_len r) rows → zlen (rows ≫= row_slots bs) = zsum (r_len <$> rows).
Proof.
  induction rows as [|r rows IH]; intros Hl; [done|]. apply Forall_cons in Hl as [Hl0 Hl].
  cbn [mbind list_bind fmap list_fmap]. unfold zsum in *. simpl. rewrite zlen_app, (IH Hl). f_equal.
  unfold row_slots, zlen. rewrite length_fmap, length_seqZ. lia.
Qed.

(** The tables of distinct sequences share no block. *)
Lemma tables_nodup {V} (c : PagedKVCache V) ids tables :
  kv_safe c → NoDup ids → Forall2 (table_spec c) ids tables → NoDup (mjoin tables).
Proof.
  intros Hs Hid Ht. induction Ht as [|id t ids tables (bt & Hbt & ->) Ht IH]; [constructor|].
  apply NoDup_cons in Hid as [Hin Hid]. cbn [mjoin list_join]. apply NoDup_app. split_and!.
  - by eapply owned_nodup.
  - intros b Hb (t' & Hb' & Hi)%list_elem_of_join. apply list_elem_of_lookup in Hi as [i Hi].
    destruct (Forall2_lookup_r _ _ _ _ _ Ht Hi) as (id' & Hid' & bt' & Hbt' & ->).
    eapply (owned_disjoint c id id' bt bt' b); [done| |done..].
    intros ->. apply Hin. by eapply list_elem_of_lookup_2.
  - by apply IH.
Qed.

(** C5: The slot mapping of a batch whose block tables are those of distinct
    sequences of the KV cache: [_build_slot_mapping] raises, and then
    [ValueError], exactly when some table is too short for its row; otherwise every
    token of the batch gets a slot of its own inside the cache, and no two tokens,
    of the same or of different sequences, share one. *)
Theorem batch_slots_distinct {V} (c : PagedKVCache V) b :
  kv_safe c → bm_post_init b = Ok b → NoDup (seq_ids b) →
  Forall2 (table_spec c) (seq_ids b) (Batch.block_tables b) →
  Forall (λ ctx, 0 ≤ ctx) (context_lengths b) → Forall (λ l, 0 ≤ l) (seq_lengths b) →
  match build_slot_mapping b (block_size c) with
  | Ok slots => Forall (covered (block_size c)) (batch_rows b) ∧ zlen slots = total_tokens b ∧ NoDup slots ∧
      Forall (λ s, 0 ≤ s < ba_num_blocks (block_allocator c) * block_size c) slots
  | Err e => e = ValueError ∧ ∃ r, r ∈ batch_rows b ∧ ¬ covered (block_size c) r
  end.
Proof.
  intros Hs Hv%bm_post_init_spec Hid Ht Hctx Hlen. destruct (batch_rows_cols b Hv) as (R1 & R2 & R3).
  assert (0 < block_size c) as Hbs by apply Hs.
  assert (Forall (λ r, 0 ≤ r_ctx r) (batch_rows b)) as Hc by (rewrite <- R3 in Hctx; apply (proj1 (Forall_fmap r_ctx _ _)) in Hctx; exact Hctx).
  unfold build_slot_mapping. rewrite <- R1, <- R2, <- R3, slots_of_rows_spec by done.
  destruct (decide (Forall (covered (block_size c)) (batch_rows b))) as [Hcov|Hcov].
  2:{ split; [done|]. apply not_Forall_Exists in Hcov; [|apply _]. apply Exists_exists in Hcov as (r & ? & ?). eauto. }
  split_and!; [done| | |].
  - rewrite <- (bv_total b Hv), <- R1. apply row_slots_total.
    rewrite <- R1 in Hlen. apply (proj1 (Forall_fmap r_len _ _)) in Hlen. exact Hlen.
  - apply rows_slots_nodup; [done..|]. rewrite bind_tables, R2. by eapply tables_nodup.
  - apply Forall_forall. intros s (r & Hsr & Hr)%list_elem_of_bind. rewrite Forall_forall in Hc, Hcov.
    apply row_slots_block in Hsr as [Hb _]; [|done|by apply Hc|by apply Hcov].
    assert (r_table r ∈ Batch.block_tables b) as Hin by (rewrite <- R2; by apply list_elem_of_fmap_2).
    apply list_elem_of_lookup in Hin as [i Hi]. destruct (Forall2_lookup_r _ _ _ _ _ Ht Hi) as (id & _ & t & Htab & Heq).
    rewrite Heq in Hb. pose proof (owned_in_range c id t Hs Htab (s / block_size c) Hb) as Hr'. rewrite (safe_len c Hs) in Hr'.
    pose proof (block_idx_lt (block_size c) (ba_num_blocks (block_allocator c)) s Hbs).
    pose proof (Z.div_mod s (block_size c) ltac:(lia)). pose proof (Z.mod_pos_bound s (block_size c) Hbs). nia.
Qed.

(** The two engines place tokens alike: for a batch that holds one sequence
    from its first token on, the runner's slot mapping is the one the generation
    loop computes for the same block table. *)
Theorem slot_mappings_agree b bs table n :
  0 < bs → 0 ≤ n ≤ zlen table * bs →
  seq_lengths b = [n] → Batch.block_tables b = [table] → context_lengths b = [0] →
  build_slot_mapping b bs = Ok (compute_slot_mapping bs table n).
Proof.
  intros Hbs Hn Hl Ht Hc. unfold build_slot_mapping. rewrite Hl, Ht, Hc.
  pose proof (slots_of_rows_spec bs [mkSlotRow n table 0] Hbs) as Hspec. cbn [fmap list_fmap r_len r_table r_ctx] in Hspec.
  rewrite Hspec by (repeat constructor; simpl; lia).
  rewrite decide_True by (constructor; [right; simpl; lia|constructor]).
  cbn [mbind list_bind]. rewrite app_nil_r. f_equal. unfold row_slots, compute_slot_mapping. simpl.
  assert (∀ l : list Z, (∀ p, p ∈ l → 0 ≤ p < n) → slot_at bs table <$> l =
    omap (λ p, (λ x, x * bs + p mod bs) <$> table !! Z.to_nat (p / bs)) l) as H.
  { induction l as [|p l IH]; intros Hp; [done|]. cbn [fmap list_fmap omap list_omap].
    destruct (slot_block bs table p n) as [x Hx]; [done|apply Hp; set_solver|lia|].
    unfold slot_at at 1. rewrite Hx. simpl. f_equal. apply IH. intros q Hq. apply Hp. set_solver. }
  apply H. intros p Hp%elem_of_seqZ. lia.
Qed.

(** ** Padded inputs *)

(** [vals] in a row of [m] entries, padded with zeros. *)
Definition padded (m : Z) (vals : list Z) : list Z := vals ++ replicate (Z.to_nat m - length vals) 0.

Lemma set_prefix_zeros i m vals t :
  t !! i = Some (replicate (Z.to_nat m) 0) → set_prefix i vals t = <[i := padded m vals]> t.
Proof.
  intros Ht. unfold set_prefix. apply list_eq. intros j. destruct (decide (i = j)) as [<-|Hne].
  - rewrite list_lookup_alter_eq, list_lookup_insert_eq, Ht by (by eapply lookup_lt_Some).
    simpl. unfold padded. by rewrite drop_replicate.
  - by rewrite list_lookup_alter_ne, list_lookup_insert_ne.
Qed.

Lemma arange_1 a n : arange a (a + n) 1 = seqZ a n.
Proof.
  unfold arange, ceil_div. rewrite Z.div_1_r. replace (- - (a + n - a)) with n by lia.
  transitivity (Z.add a <$> seqZ 0 n); [apply list_fmap_ext; intros _ i _; lia|]. by rewrite fmap_add_seqZ, Z.add_0_r.
Qed.

Lemma py_max_nonneg (rows : list (list Z)) : 0 ≤ py_max (zlen <$> rows).
Proof.
  destruct rows as [|r rows]; [done|]. simpl. pose proof (zlen_nonneg r) as Hr. revert Hr.
  generalize (zlen r). induction rows as [|r' rows IH]; intros x Hx; simpl; [done|].
  apply IH. lia.
Qed.

(** A tensor of [length rows] zero rows in which the first [k] rows hold the
    padded [rows]. *)
Definition filled (m : Z) (rows : list (list Z)) (k : nat) : list (list Z) :=
  (padded m <$> take k rows) ++ replicate (length rows - k) (replicate (Z.to_nat m) 0).

Lemma filled_next m rows k v :
  rows !! k = Some v → set_prefix k v (filled m rows k) = filled m rows (S k).
Proof.
  intros Hv. pose proof (lookup_lt_Some _ _ _ Hv) as Hk.
  assert (length (padded m <$> take k rows) = k) as Hlen by (rewrite length_fmap, length_take; lia).
  rewrite (set_prefix_zeros k m v).
  2:{ unfold filled. rewrite lookup_app_r, Hlen, Nat.sub_diag by lia. apply lookup_replicate_2. lia. }
  unfold filled. rewrite (take_S_r _ _ _ Hv), fmap_app.
  replace (length rows - k)%nat with (S (length rows - S k)) by lia.
  rewrite insert_app_r_alt, Hlen, Nat.sub_diag by lia. simpl. by rewrite <- app_assoc.
Qed.

Lemma filled_empty_row m rows k : rows !! k = Some [] → filled m rows (S k) = filled m rows k.
Proof.
  intros Hk. rewrite <- (filled_next m rows k []) by done. unfold set_prefix. simpl.
  apply list_alter_id. intros x. by rewrite drop_0.
Qed.

Lemma filled_all m rows : filled m rows (length rows) = padded m <$> rows.
Proof. unfold filled. by rewrite firstn_all, Nat.sub_diag, app_nil_r. Qed.

(** Positions and mask of each row. *)
Definition positions (b : BatchMetadata) : list (list Z) := zip_with seqZ (context_lengths b) (seq_lengths b).
Definition ones (b : BatchMetadata) : list (list Z) := (λ l, replicate (Z.to_nat l) 1) <$> seq_lengths b.

Section prepare.
Context (b : BatchMetadata) (rows : list (list Z)) (Hv : bm_valid b) (Hr : rows_of b rows).
Context (Hcat : concat rows = input_token_ids b).

Let m := py_max (seq_lengths b).
Definition inputs_at (k : nat) : ModelInputs :=
  mkInputs (filled m rows k) (filled m (positions b) k) (filled m (ones b) k).

Lemma fill_row_ok k : (k < length rows)%nat → fill_row b k (inputs_at k) = (Ok tt, inputs_at (S k)).
Proof.
  intros Hk. destruct (lookup_lt_is_Some_2 rows k Hk) as [row Hrow].
  pose proof (rows_of_length b rows Hv Hr) as Hn.
  destruct (concat_split_at rows k row Hrow) as [E1 E2].
  assert (seq_lengths b !! k = Some (zlen row)) as Hlen by (rewrite <- Hr, list_lookup_fmap, Hrow; done).
  destruct (lookup_lt_is_Some_2 (context_lengths b) k) as [ctx Hctx]; [rewrite (bv_ctx b Hv); lia|].
  unfold fill_row. rewrite (rows_of_offset b rows k), (rows_of_offset b rows (S k)), Hlen by (done || lia).
  rewrite <- Hcat, E1, E2, zlen_app, py_slice_mid, Z.eqb_refl. munfold. cbn [negb].
  assert (positions b !! k = Some (seqZ ctx (zlen row))) as Hp.
  { unfold positions. by rewrite lookup_zip_with, Hctx, Hlen. }
  assert (ones b !! k = Some (replicate (length row) 1)) as Ho.
  { unfold ones. rewrite list_lookup_fmap, Hlen. simpl. unfold zlen. by rewrite Nat2Z.id. }
  destruct (Z.eqb_spec (zlen row) 0) as [Hz|Hz].
  - destruct row as [|? ?]; [|rewrite zlen_cons in Hz; pose proof (zlen_nonneg row); lia].
    unfold inputs_at. by rewrite !filled_empty_row by done.
  - rewrite Hctx. unfold inputs_at. cbn [input_ids position_ids attention_mask].
    rewrite arange_1. replace (Z.to_nat (zlen row)) with (length row) by (unfold zlen; lia).
    by rewrite (filled_next m rows k row Hrow), (filled_next m _ k _ Hp), (filled_next m _ k _ Ho).
Qed.

Lemma fill_rows_ok n k :
  (k + n = length rows)%nat → for_each (seq k n) (fill_row b) (inputs_at k) = (Ok tt, inputs_at (length rows)).
Proof.
  revert k. induction n as [|n IH]; intros k Hk; cbn [seq for_each].
  { by replace (length rows) with k by lia. }
  munfold. rewrite fill_row_ok by lia. apply IH. lia.
Qed.

(** The tensors [prepare_inputs] builds. *)
Lemma prepare_inputs_ok :
  prepare_inputs b = Ok (mkInputs (padded m <$> rows) (padded m <$> positions b) (padded m <$> ones b)).
Proof.
  pose proof (rows_of_length b rows Hv Hr) as Hn.
  assert (length (positions b) = length rows) as Hp.
  { unfold positions. rewrite length_zip_with, (bv_ctx b Hv), (bv_lens b Hv). lia. }
  assert (length (ones b) = length rows) as Ho by (unfold ones; rewrite length_fmap, (bv_lens b Hv); lia).
  assert (0 ≤ m) as Hm by (unfold m; rewrite <- Hr; apply py_max_nonneg).
  unfold prepare_inputs, zeros. fold m. rewrite (proj2 (Z.ltb_ge _ _) Hm), Nat2Z.id, <- Hn.
  assert (∀ l : list (list Z), length l = length rows →
    replicate (length rows) (replicate (Z.to_nat m) 0) = filled m l 0) as Hz.
  { intros l Hl. unfold filled. by rewrite take_0, Hl, Nat.sub_0_r. }
  set (z := replicate (length rows) _). assert (mkInputs z z z = inputs_at 0) as ->.
  { unfold inputs_at. f_equal; by apply Hz. }
  rewrite fill_rows_ok by lia.
  unfold inputs_at. rewrite filled_all, <- Hp, filled_all, Hp, <- Ho, filled_all. done.
Qed.
End prepare.

(** ** Execution *)

Lemma filter_keep {A} (P : A → Prop) `{∀ x, Decision (P x)} (l : list A) : (∀ x, x ∈ l → P x) → filter P l = l.
Proof.
  induction l as [|x l IH]; intros Hp; [done|].
  rewrite filter_cons_True by (apply Hp; set_solver). f_equal. apply IH. intros y Hy. apply Hp. set_solver.
Qed.
Lemma filter_drop {A} (P : A → Prop) `{∀ x, Decision (P x)} (l : list A) : (∀ x, x ∈ l → ¬ P x) → filter P l = [].
Proof.
  induction l as [|x l IH]; intros Hp; [done|].
  rewrite filter_cons_False by (apply Hp; set_solver). apply IH. intros y Hy. apply Hp. set_solver.
Qed.

Lemma filter_mask {A} (row : list A) l m :
  length row = m → (l ≤ m)%nat →
  (filter (λ p : A * Z, p.2 ≠ 0) (zip row (replicate l 1 ++ replicate (m - l) 0))).*1 = take l row.
Proof.
  revert row m. induction l as [|l IH]; intros row m Hm Hl; simpl.
  - rewrite Nat.sub_0_r. clear Hl. revert m Hm. induction row as [|x row IHr]; intros [|m] Hm; try done.
    change (zip (x :: row) (replicate (S m) 0)) with ((x, 0) :: zip row (replicate m 0)).
    rewrite filter_cons_False by (simpl; lia). apply IHr. simpl in Hm. lia.
  - destruct row as [|x row]; simpl in Hm; [lia|]. destruct m as [|m]; [lia|].
    change (zip (x :: row) _) with ((x, 1) :: zip row (replicate l 1 ++ replicate (m - l) 0)).
    rewrite filter_cons_True by done. simpl. f_equal. apply IH; lia.
Qed.

(** The rows of the logits that belong to tokens, sequence by sequence. *)
Definition token_rows {A} (b : BatchMetadata) (seqs : list (list A)) : list A :=
  concat (zip_with (λ row l, take (Z.to_nat l) row) seqs (seq_lengths b)).

Lemma masked_select_tokens {A} m lens (seqs : list (list A)) :
  Forall (λ l, 0 ≤ l ≤ m) lens → length seqs = length lens → Forall (λ row, length row = Z.to_nat m) seqs →
  masked_select seqs (padded m <$> ((λ l, replicate (Z.to_nat l) 1) <$> lens)) =
    Ok (concat (zip_with (λ row l, take (Z.to_nat l) row) seqs lens)).
Proof.
  intros Hl Hlen Hrow. unfold masked_select, same_shape. rewrite bool_decide_eq_true_2.
  - f_equal. f_equal. clear Hlen. revert seqs Hrow. induction Hl as [|l lens Hl0 _ IH]; intros seqs Hrow; [by destruct seqs|].
    destruct Hrow as [|row seqs Hr Hrow]; [done|]. simpl. unfold padded at 1. rewrite length_replicate, filter_mask by (done || lia).
    f_equal. by apply IH.
  - revert seqs Hlen Hrow. induction Hl as [|l lens Hl0 _ IH]; intros [|row seqs] Hlen Hrow; try done.
    apply Forall_cons in Hrow as [Hr Hrow]. simpl in *. f_equal; [|apply IH; [lia|done]].
    unfold padded. rewrite length_app, !length_replicate. lia.
Qed.

Lemma py_max_le l x : x ∈ l → x ≤ py_max l.
Proof.
  destruct l as [|y l]; [by intros ?%elem_of_nil|]. simpl.
  assert (∀ (l : list Z) a, a ≤ foldl Z.max a l ∧ ∀ x, x ∈ l → x ≤ foldl Z.max a l) as H.
  { clear. induction l as [|z l IH]; intros a; simpl; [split; [lia|by intros ? ?%elem_of_nil]|].
    destruct (IH (Z.max a z)) as [H1 H2]. split; [lia|]. intros x [->|Hx]%elem_of_cons; [lia|auto]. }
  intros [->|Hx]%elem_of_cons; [apply (proj1 (H l y))|by apply (proj2 (H l y))].
Qed.

Section execution.
Context (modules : option (list ModuleClass)) (config_vocab model_vocab : option Z).
Implicit Types (r : ModelRunner) (b : BatchMetadata).

Lemma set_contexts md classes r :
  for_each classes (set_paged_context md) r =
    (Ok tt, set_context (((λ c, (c, md)) <$> reverse classes) ++ paged_context r) r).
Proof.
  revert r. induction classes as [|c cs IH]; intros r; cbn [for_each]; munfold; [by destruct r|].
  unfold set_paged_context at 1. munfold. rewrite IH. destruct r. unfold set_context. simpl.
  do 2 f_equal. rewrite reverse_cons, fmap_app, <- app_assoc. done.
Qed.

Lemma clear_contexts classes r :
  for_each classes clear_paged_context r =
    (Ok tt, set_context (filter (λ p, p.1 ∉ classes) (paged_context r)) r).
Proof.
  revert r. induction classes as [|c cs IH]; intros r; cbn [for_each]; munfold.
  - destruct r as [e s ctx]. unfold set_context. simpl. do 2 f_equal. symmetry. apply filter_keep.
    intros x _. apply not_elem_of_nil.
  - unfold clear_paged_context at 1. munfold. rewrite IH. destruct r as [e s ctx]. unfold set_context. simpl. do 2 f_equal.
    rewrite list_filter_filter. apply list_filter_iff. intros x. set_solver.
Qed.

(** Whatever the model does, the class attributes are as before. *)
Lemma run_model_context fwd b inputs r :
  paged_context r = [] → paged_context (run_model modules fwd b inputs r).2 = [] ∧
  runner_engine (run_model modules fwd b inputs r).2 = runner_engine r.
Proof.
  intros Hctx. unfold run_model, call_forward. destruct (get_paged_attention_classes modules) as [|c cs]; [done|].
  destruct (get_attention_backend (runner_engine r)); [|done].
  destruct (build_runtime_attention_metadata _ _) as [md|e]; [|done].
  rewrite set_contexts. rewrite clear_contexts. simpl. split; [|done].
  rewrite Hctx, app_nil_r. apply filter_drop. intros x (y & -> & Hy)%list_elem_of_fmap Hn. apply Hn. simpl. by apply elem_of_reverse.
Qed.

(** The class attributes the model sees: the metadata of the batch in every paged attention
    class, when there are such classes and a backend. *)
Definition seen_context b r : res (list (ModuleClass * RuntimeAttentionMetadata)) :=
  match get_paged_attention_classes modules, get_attention_backend (runner_engine r) with
  | _ :: _, Some _ =>
      match build_runtime_attention_metadata b (resolve_block_size (runner_engine r)) with
      | Ok md => Ok ((λ c, (c, md)) <$> reverse (get_paged_attention_classes modules))
      | Err e => Err e
      end
  | _, _ => Ok []
  end.
Lemma run_model_result fwd b inputs r :
  paged_context r = [] →
  (run_model modules fwd b inputs r).1 = match seen_context b r with Ok ctx => fwd inputs ctx | Err e => Err e end.
Proof.
  intros Hctx. unfold run_model, seen_context, call_forward. destruct (get_paged_attention_classes modules) as [|c cs]; [by rewrite Hctx|].
  destruct (get_attention_backend (runner_engine r)); [|by rewrite Hctx].
  destruct (build_runtime_attention_metadata _ _) as [md|e]; [|done].
  rewrite set_contexts, clear_contexts. cbn [fst set_context paged_context]. by rewrite Hctx, app_nil_r.
Qed.
End execution.

Section packed.
Context (modules : option (list ModuleClass)) (config_vocab model_vocab : option Z).
Local Abbreviation exec := (execute modules config_vocab model_vocab).

(** [execute] leaves no paged context behind, whether it returns or raises. *)
Lemma execute_clears_context forward_fn b r :
  paged_context r = [] → paged_context (exec forward_fn b r).2 = [].
Proof.
  intros Hctx. unfold execute, configure_expert_tracing, advance_request_id, empty_logits. munfold. cbn [set_engine runner_engine seq_id_list paged_context].
  destruct (total_tokens b =? 0); [by destruct config_vocab, model_vocab|].
  destruct (prepare_inputs b) as [inputs|]; [|done]. destruct forward_fn as [fwd|]; [|done].
  match goal with |- context [run_model _ _ _ _ ?r'] => pose proof (run_model_context modules fwd b inputs r' Hctx) as [H _]; destruct (run_model _ _ _ _ r') as [[o|e] r2] end; simpl in *; [|done].
  destruct (extract_logits o) as [[rows|seqs|]|]; try done.
  - by destruct (zlen rows =? _).
  - destruct (masked_select seqs _); [|done]. by destruct (zlen _ =? _).
Qed.

(** Rows of the padded shape: the tokens of the batch are the first of each row. *)
Lemma token_rows_packed {A} b rows (seqs : list (list A)) :
  let m := py_max (seq_lengths b) in
  bm_valid b → rows_of b rows → same_shape seqs (padded m <$> rows) = true →
  masked_select seqs (padded m <$> ones b) = Ok (token_rows b seqs) ∧ zlen (token_rows b seqs) = total_tokens b.
Proof.
  intros m Hv Hr Hshape. unfold same_shape in Hshape. apply bool_decide_eq_true in Hshape.
  assert (Forall (λ l, 0 ≤ l ≤ m) (seq_lengths b)) as Hl.
  { apply Forall_forall. intros l Hl. split; [|by apply py_max_le]. rewrite <- Hr in Hl.
    apply list_elem_of_fmap in Hl as (row & -> & _). apply zlen_nonneg. }
  assert (length seqs = length (seq_lengths b)) as Hlen.
  { apply (f_equal length) in Hshape. rewrite !length_fmap in Hshape. rewrite <- Hr, length_fmap. done. }
  assert (Forall (λ row, length row = Z.to_nat m) seqs) as Hrow.
  { apply (Forall_fmap length (λ n, n = Z.to_nat m)). rewrite Hshape. apply Forall_fmap, Forall_fmap, Forall_forall.
    intros row Hrow. simpl. unfold padded. rewrite length_app, length_replicate.
    assert (zlen row ≤ m) as Hle; [|unfold zlen in Hle; lia].
    apply py_max_le. rewrite <- Hr. by apply list_elem_of_fmap_2. }
  split; [unfold ones; by rewrite (masked_select_tokens m) by done|].
  rewrite <- (bv_total b Hv). unfold token_rows. clear Hshape Hr. clearbody m.
  revert seqs Hlen Hrow Hl. generalize (seq_lengths b) as lens. intros lens. induction lens as [|l lens IH]; intros [|row seqs] Hlen Hrow Hl; try done.
  apply Forall_cons in Hrow as [Hrow0 Hrow], Hl as [Hl0 Hl]. injection Hlen as Hlen.
  specialize (IH seqs Hlen Hrow Hl). cbn [zip_with concat]. rewrite zlen_app, IH. unfold zsum, zlen. simpl.
  rewrite length_take. lia.
Qed.
Lemma masked_select_mismatch {A} b rows (seqs : list (list A)) :
  let m := py_max (seq_lengths b) in
  rows_of b rows → same_shape seqs (padded m <$> rows) = false → masked_select seqs (padded m <$> ones b) = Err IndexError.
Proof.
  intros m Hr Hs. unfold masked_select. assert (same_shape seqs (padded m <$> ones b) = same_shape seqs (padded m <$> rows)) as ->; [|by rewrite Hs].
  unfold same_shape. assert (length <$> (padded m <$> ones b) = length <$> (padded m <$> rows)) as ->; [|done].
  unfold ones. rewrite <-Hr, <-!list_fmap_compose. apply list_fmap_ext. intros i row _. simpl. unfold padded, zlen.
  rewrite !length_app, !length_replicate, Nat2Z.id. done.
Qed.

(** C16: [execute] on a batch that is not empty, for every model: the model is called once on
    the rows padded to the longest, with the metadata of the batch in the paged attention
    classes.  If it raises, [execute] raises the same; if it returns logits of rank 3 and of
    the padded shape, [execute] returns for every token of the batch, in the packed order,
    exactly the model's row of that token and no row of the padding; rank 2 must have one row
    per token; anything else raises.  In every case no paged attention context is left set. *)
Theorem execute_packs_rows fwd b rows r :
  bm_post_init b = Ok b → rows_of b rows → concat rows = input_token_ids b → total_tokens b ≠ 0 → paged_context r = [] →
  let m := py_max (seq_lengths b) in
  let inputs := mkInputs (padded m <$> rows) (padded m <$> positions b) (padded m <$> ones b) in
  paged_context (exec (Some fwd) b r).2 = [] ∧
  (exec (Some fwd) b r).1 =
    match seen_context modules b r with
    | Err e => Err e
    | Ok ctx =>
        match fwd inputs ctx with
        | Err e => Err e
        | Ok out =>
            match extract_logits out with
            | Err e => Err e
            | Ok (Rank3 seqs) => if same_shape seqs (padded m <$> rows) then Ok (token_rows b seqs) else Err IndexError
            | Ok (Rank2 packed) => if zlen packed =? total_tokens b then Ok packed else Err ValueError
            | Ok RankOther => Err ValueError
            end
        end
    end ∧
  ∀ seqs : list (list Row), same_shape seqs (padded m <$> rows) = true → zlen (token_rows b seqs) = total_tokens b.
Proof.
  intros Hv%bm_post_init_spec Hr Hcat Htot Hctx m inputs. split; [by apply execute_clears_context|].
  split; [|intros seqs Hs; by apply (token_rows_packed b rows seqs Hv Hr)].
  pose proof (prepare_inputs_ok b rows Hv Hr Hcat) as Hp. fold m inputs in Hp.
  unfold execute, configure_expert_tracing, advance_request_id. munfold. rewrite (proj2 (Z.eqb_neq _ _) Htot), Hp.
  match goal with |- context [run_model _ _ _ _ ?r'] =>
    pose proof (run_model_result modules fwd b inputs r' Hctx) as Hrun; change (seen_context modules b r') with (seen_context modules b r) in Hrun;
    destruct (run_model _ _ _ _ r') as [o r2] end.
  cbn [fst] in Hrun. subst o. destruct (seen_context modules b r) as [ctx|]; [|done]. destruct (fwd inputs ctx) as [out|]; [|done].
  destruct (extract_logits out) as [[packed|seqs|]|]; try done.
  - by destruct (zlen packed =? total_tokens b).
  - unfold inputs. cbn [attention_mask]. destruct (same_shape seqs (padded m <$> rows)) eqn:Hs.
    + pose proof (token_rows_packed b rows seqs Hv Hr Hs) as [Hm Hz]. fold m in Hm. rewrite Hm, Hz. by rewrite Z.eqb_refl.
    + pose proof (masked_select_mismatch b rows seqs Hr Hs) as Hm. cbv zeta in Hm. fold m in Hm. by rewrite Hm.
Qed.
End packed.

(** ** The position of the token being decoded *)

(** The decode row of a sequence whose latest token was just recorded: the
    row holds that token, which is the token number [n - 1] of the sequence, but
    its position is [n], because [append_output_token] already counts it as
    computed.  Position and KV slot [n - 1] are skipped; and when the blocks
    reserved for the [n] tokens are all full, the slot lies past the block table
    and [_build_slot_mapping] raises. *)
Theorem decode_position_off_by_one {V} tok s0 (kv : PagedKVCache V) id t :
  is_terminal (status s0) = false → sequence_tables kv !! id = Some t →
  let s := (append_output_token tok s0).2 in
  let n := zlen (total_token_ids s) in
  ∃ b, from_scheduler_output {[id := s]} kv (mkSO [] [id] [] 0 1) = Ok b ∧
    prepare_inputs b = Ok (mkInputs [[tok]] [[n]] [[1]]) ∧
    py_index (total_token_ids s) (n - 1) = Some tok ∧
    (0 < block_size kv → bt_tight (block_size kv) t → bt_num_tokens t = n → n mod block_size kv = 0 →
     build_slot_mapping b (block_size kv) = Err ValueError).
Proof.
  intros Hst Ht s n. destruct (append_output_token_counts tok s0) as (_ & Hc & _).
  destruct (Hc Hst) as [Htok Hn]. fold s in Htok, Hn. fold n in Hn.
  assert (n = zlen (total_token_ids s0) + 1) as Hn1 by (unfold n; rewrite Htok, zlen_app; done).
  pose proof (zlen_nonneg (total_token_ids s0)) as Hnn.
  exists (mkBM [id] [tok] [1] [n] [false] [bt_block_ids t] [0; 1] [sampling_params s]).
  split_and!.
  - unfold from_scheduler_output. cbn [prefill_seq_ids decode_seq_ids for_each app]. unfold build_row, get_block_table, require_sequence.
    munfold. rewrite lookup_singleton_eq, Ht. cbn [fst]. rewrite Htok, py_slice_last.
    unfold add_row, no_columns. cbn. by rewrite Hn.
  - unfold prepare_inputs, zeros. cbn. rewrite arange_1. by rewrite (seqZ_cons n 1), seqZ_nil by lia.
  - rewrite py_index_in by (fold n; lia). rewrite Htok, lookup_app_r by (unfold n, zlen in *; rewrite Htok, length_app in *; simpl in *; lia).
    replace (Z.to_nat (n - 1) - length (total_token_ids s0))%nat with 0%nat by (unfold zlen in *; lia). done.
  - intros Hbs [_ Htight] Hnt Hmod. rewrite Hnt in Htight.
    unfold build_slot_mapping. cbn [seq_lengths Batch.block_tables context_lengths].
    pose proof (slots_of_rows_spec (block_size kv) [mkSlotRow 1 (bt_block_ids t) n] Hbs) as Hspec.
    cbn [fmap list_fmap r_len r_table r_ctx] in Hspec. rewrite Hspec by (repeat constructor; simpl; lia).
    rewrite decide_False; [done|]. intros [[Hc1|Hc1] _]%Forall_cons; simpl in Hc1; [lia|].
    unfold zlen in Hc1. rewrite Htight in Hc1. unfold ceil_div in Hc1.
    pose proof (Z.div_mod n (block_size kv) ltac:(lia)) as Hdm. rewrite Hmod in Hdm.
    rewrite (Z.div_opp_l_z n) in Hc1 by lia. nia.
Qed.

(** ** Witnesses *)
Definition demo_batch : BatchMetadata :=
  mkBM [7] [5; 6; 7] [3] [0] [true] [[0; 1]] [0; 3] [default_sampling_params].

Lemma batch_slots_distinct_witness :
  match build_slot_mapping demo_batch 2 with
  | Ok slots => Forall (covered 2) (batch_rows demo_batch) ∧ zlen slots = 3 ∧ NoDup slots ∧ Forall (λ s, 0 ≤ s < 4 * 2) slots
  | Err e => e = ValueError ∧ ∃ r, r ∈ batch_rows demo_batch ∧ ¬ covered 2 r
  end.
Proof.
  refine (batch_slots_distinct demo1 demo_batch _ _ _ _ _ _).
  - apply demo1_conserved.
  - reflexivity.
  - apply NoDup_singleton.
  - constructor; [|constructor]. exists (mkBT [0; 1] 3). split; [vm_compute; reflexivity|reflexivity].
  - repeat constructor; simpl; lia.
  - repeat constructor; simpl; lia.
Defined.

Lemma slot_mappings_agree_witness : build_slot_mapping demo_batch 2 = Ok (compute_slot_mapping 2 [0; 1] 3).
Proof. apply (slot_mappings_agree demo_batch 2 [0; 1] 3); try reflexivity; unfold zlen; simpl; lia. Defined.

(** A model with one paged attention class that returns a row per position,
    padding included. *)
Definition demo_runner : ModelRunner :=
  mkRunner (mkEng true 0 [Some []; None] true (Some 5) (Some 2) (Some (Some (mkBackend (Some 2)))) []) [] [].
Definition demo_modules : option (list ModuleClass) :=
  Some [mkClass "Linear" false; mkClass "DeepseekV2PagedAttention" true; mkClass "DeepseekV2PagedAttention" true].
(** Two sequences of different length: the row of the second is padded. *)
Definition demo_two : BatchMetadata :=
  mkBM [7; 8] [5; 6; 7; 9] [3; 1] [0; 0] [true; true] [[0; 1]; [2]] [0; 3; 4] [default_sampling_params; default_sampling_params].
Definition demo_seqs : list (list Row) := [[[Some 1%Q]; [Some 2%Q]; [Some 3%Q]]; [[Some 4%Q]; [Some 0%Q]; [Some 0%Q]]].
(** A model that raises unless it finds the slots of the batch in its attention class. *)
Definition demo_forward (_ : ModelInputs) (ctx : list (ModuleClass * RuntimeAttentionMetadata)) : res ModelOutput :=
  match ctx with
  | [(_, md)] => if bool_decide (m_slot_mapping md = [0; 1; 2; 4]) then Ok (mkOutput (Some (Some (Rank3 demo_seqs))) None None) else Err ValueError
  | _ => Err RuntimeError
  end.

Lemma execute_packs_rows_witness :
  let run := execute demo_modules (Some 1) None (Some demo_forward) demo_two demo_runner in
  paged_context run.2 = [] ∧ run.1 = Ok [[Some 1%Q]; [Some 2%Q]; [Some 3%Q]; [Some 4%Q]].
Proof.
  destruct (execute_packs_rows demo_modules (Some 1) None demo_forward demo_two [[5; 6; 7]; [9]] demo_runner) as (H1 & H2 & _);
    [reflexivity..|done|reflexivity|].
  split; [exact H1|]. rewrite H2. reflexivity.
Defined.
(** Without a backend no context is set, this model raises, and so does [execute]. *)
Example execute_raises_with_model :
  let r := mkRunner (mkEng true 0 [] true (Some 5) (Some 2) None []) [] [] in
  (execute demo_modules (Some 1) None (Some demo_forward) demo_two r).1 = Err RuntimeError.
Proof. reflexivity. Qed.

Lemma decode_position_off_by_one_witness :
  let s := (append_output_token 9 (with_status DECODE (new_sequence 7 [4; 5; 6] default_sampling_params))).2 in
  let kv := (append_tokens 7 1 demo1).2 in
  ∃ b, from_scheduler_output {[7 := s]} kv (mkSO [] [7] [] 0 1) = Ok b ∧
    prepare_inputs b = Ok (mkInputs [[9]] [[4]] [[1]]) ∧ build_slot_mapping b 2 = Err ValueError.
Proof.
  intros s kv.
  destruct (decode_position_off_by_one 9 (with_status DECODE (new_sequence 7 [4; 5; 6] default_sampling_params)) kv 7
              (mkBT [0; 1] 4)) as (b & H1 & H2 & _ & H4).
  - reflexivity.
  - vm_compute. reflexivity.
  - exists b. split_and!; [exact H1|exact H2|]. apply H4.
    + reflexivity.
    + split; [simpl; lia|reflexivity].
    + reflexivity.
    + reflexivity.
Defined.
