(* ===== verification/CudaGraph.v ===== *)
(** * CUDA graphs for decode batches (serving/cuda_graph.py)

    [CudaGraphRunner] captures the forward pass of a decode batch per batch size
    and replays it on static buffers.  Tensors on the device are buffers with an
    address.  While a graph is captured, kernels are not run but recorded, each
    with the addresses it reads and writes; a replay runs the recorded kernels on
    what those addresses hold by then.  That is what CUDA documents; which
    addresses are recorded, what is copied into them and what is read from them is
    the code's doing.  Every method holds the lock. *)
From S2P Require Import Prelude PyCollections KVCache Sequence.
From S2P Require Import Batch BatchProps Sampler ModelRunner ModelRunnerProps.
From Stdlib Require Import QArith.
Import Alloc Table Paged.
Open Scope Z_scope.

(** A recorded kernel launch: the forward pass from three input buffers to an output
    buffer, or a copy between buffers of logits. *)
Inductive launch :=
  | LaunchForward (input_ids position_ids attention_mask out : Z)
  | LaunchCopy (src dst : Z).
Record CapturedGraphState := mkGraph {
  graph : list launch;
  g_input_ids : Z; g_position_ids : Z; g_attention_mask : Z;   (** addresses of the static buffers *)
  g_logits : Z }.
(** The memory of the device: buffers of integers and of logits *)
Record device := mkDevice { int_buffers : gmap Z (list (list Z)); row_buffers : gmap Z (list Row); next_address : Z }.

Record CudaGraphRunner := mkCG {
  max_batch_sizes : list Z;
  graphs : gmap Z CapturedGraphState;
  warmed_batch_sizes : gset Z;
  cg_disabled : bool;
  cg_device : device
}.
Definition set_graphs (g : gmap Z CapturedGraphState) (w : gset Z) (c : CudaGraphRunner) : CudaGraphRunner :=
  mkCG (max_batch_sizes c) g w (cg_disabled c) (cg_device c).
Definition set_device (d : device) (c : CudaGraphRunner) : CudaGraphRunner :=
  mkCG (max_batch_sizes c) (graphs c) (warmed_batch_sizes c) (cg_disabled c) d.

Section cuda_graph.
(** Whether the runner's device is CUDA and CUDA is available; the model. *)
Context (is_cuda_device : bool) (config_vocab model_vocab : option Z).
Context (forward_fn : option (ModelInputs → res ModelOutput)).
(** The contents of a buffer from [torch.empty] of the shape of its argument *)
Context (uninitialized : list Row → list Row).

(** [CudaGraphRunner.__init__]; the tuple is the sorted set of positive sizes. *)
Definition cg_init (sizes : list Z) (disabled : bool) : CudaGraphRunner :=
  mkCG (merge_sort Z.le (remove_dups (filter (λ n, 0 < n) sizes))) ∅ ∅ disabled (mkDevice ∅ ∅ 0).

(** [_is_enabled] *)
Definition is_enabled (c : CudaGraphRunner) : bool := negb (cg_disabled c) && is_cuda_device.

(** [_is_decode_batch] *)
Definition is_decode_batch (b : BatchMetadata) : bool :=
  negb ((zlen (seq_ids b) =? 0) || (total_tokens b =? 0))
  && negb (existsb id (is_prefill b))
  && forallb (λ l, l =? 1) (seq_lengths b)
  && (total_tokens b =? zlen (seq_ids b)).

(** [is_compatible] *)
Definition is_compatible (b : BatchMetadata) (c : CudaGraphRunner) : bool :=
  is_enabled c && (0 <? zlen (seq_ids b)) && is_decode_batch b
  && bool_decide (is_Some (graphs c !! zlen (seq_ids b))).

(** [_validate_batch_for_graph] *)
Definition validate_batch_for_graph (b : BatchMetadata) (c : CudaGraphRunner) : res Z :=
  if negb is_cuda_device then Err RuntimeError
  else
    let batch_size := zlen (seq_ids b) in
    if (batch_size =? 0) || (total_tokens b =? 0) then Err ValueError
    else if negb (bool_decide (batch_size ∈ max_batch_sizes c)) then Err ValueError
    else if negb (is_decode_batch b) then Err ValueError
    else Ok batch_size.

(** [_forward_decode] *)
Definition forward_decode (inputs : ModelInputs) : res (list Row) :=
  match forward_fn with
  | None => Err ValueError
  | Some fwd =>
      match fwd inputs with
      | Err e => Err e
      | Ok o =>
          match extract_logits o with
          | Err e => Err e
          | Ok (Rank3 seqs) =>
              if (length seqs =? length (input_ids inputs))%nat && forallb (λ s : list Row, (length s =? 1)%nat) seqs
              then Ok (concat (take 1 <$> seqs)) else Err ValueError
          | Ok (Rank2 rows) =>
              if (length rows =? length (input_ids inputs))%nat then Ok rows else Err ValueError
          | Ok RankOther => Err ValueError
          end
      end
  end.

Definition lift {A} (r : res A) : M CudaGraphRunner A := λ c, (r, c).

(** New tensors of integers and of logits *)
Definition new_ints (v : list (list Z)) : M CudaGraphRunner Z :=
  c ← get;
  let d := cg_device c in
  modify (set_device (mkDevice (<[next_address d := v]> (int_buffers d)) (row_buffers d) (next_address d + 1))) ≫= λ _,
  mret (next_address d).
Definition new_rows (v : list Row) : M CudaGraphRunner Z :=
  c ← get;
  let d := cg_device c in
  modify (set_device (mkDevice (int_buffers d) (<[next_address d := v]> (row_buffers d)) (next_address d + 1))) ≫= λ _,
  mret (next_address d).
Definition ints_at (a : Z) (d : device) : list (list Z) := default [] (int_buffers d !! a).
Definition rows_at (a : Z) (d : device) : list Row := default [] (row_buffers d !! a).
Definition inputs_of (i p m : Z) (d : device) : ModelInputs := mkInputs (ints_at i d) (ints_at p d) (ints_at m d).
(** [t.clone()] *)
Definition clone_ints (a : Z) : M CudaGraphRunner Z := c ← get; new_ints (ints_at a (cg_device c)).

(** [_forward_decode] while a graph is captured: Python runs, with its checks; the kernels
    are recorded with the addresses of the inputs and of a new output. *)
Definition record_forward (i p m : Z) : M CudaGraphRunner (Z * launch) :=
  c ← get;
  rows ← lift (forward_decode (inputs_of i p m (cg_device c)));
  out ← new_rows (uninitialized rows);
  mret (out, LaunchForward i p m out).

(** [capture] *)
Definition capture (b : BatchMetadata) : M CudaGraphRunner unit :=
  c ← get;
  if negb (is_enabled c) then mret tt
  else
    batch_size ← lift (validate_batch_for_graph b c);
    raise_if (bool_decide (batch_size ∉ warmed_batch_sizes c)) RuntimeError ≫= λ _,
    model_inputs ← lift (prepare_inputs b);
    ids ← new_ints (input_ids model_inputs);
    positions ← new_ints (position_ids model_inputs);
    mask ← new_ints (attention_mask model_inputs);
    example_logits ← lift (forward_decode model_inputs);
    static_input_ids ← clone_ints ids;
    static_position_ids ← clone_ints positions;
    static_attention_mask ← clone_ints mask;
    static_logits ← new_rows (uninitialized example_logits);
    recorded ← record_forward static_input_ids static_position_ids static_attention_mask;
    let graph := [recorded.2; LaunchCopy recorded.1 static_logits] in
    modify (λ c, set_graphs (<[batch_size := mkGraph graph static_input_ids static_position_ids static_attention_mask static_logits]> (graphs c))
                   (warmed_batch_sizes c) c).

(** [graph.replay()]: the recorded kernels, on the buffers as they are now.  A kernel does
    not raise; what it writes where Python would have raised is left open. *)
Definition run_launch (l : launch) (d : device) : device :=
  match l with
  | LaunchForward i p m out =>
      let rows := match forward_decode (inputs_of i p m d) with Ok rows => rows | Err _ => uninitialized (rows_at out d) end in
      mkDevice (int_buffers d) (<[out := rows]> (row_buffers d)) (next_address d)
  | LaunchCopy src dst => mkDevice (int_buffers d) (<[dst := rows_at src d]> (row_buffers d)) (next_address d)
  end.
Definition replay_graph (g : list launch) : M CudaGraphRunner unit :=
  modify (λ c, set_device (foldl (flip run_launch) (cg_device c) g) c).

(** [dst.copy_(src)] for tensors of the same shape. *)
Definition copy_ (dst : Z) (src : list (list Z)) : M CudaGraphRunner unit :=
  c ← get;
  let d := cg_device c in
  if same_shape (ints_at dst d) src
  then modify (set_device (mkDevice (<[dst := src]> (int_buffers d)) (row_buffers d) (next_address d)))
  else raise RuntimeError.

(** [replay] *)
Definition replay (b : BatchMetadata) : M CudaGraphRunner (list Row) :=
  if (zlen (seq_ids b) =? 0) || (total_tokens b =? 0)
  then lift (match config_vocab, model_vocab with None, None => Err ValueError | _, _ => Ok [] end)
  else
    c ← get;
    raise_if (negb (is_enabled c)) RuntimeError ≫= λ _,
    batch_size ← lift (validate_batch_for_graph b c);
    match graphs c !! batch_size with
    | None => raise RuntimeError
    | Some state =>
        model_inputs ← lift (prepare_inputs b);
        copy_ (g_input_ids state) (input_ids model_inputs) ≫= λ _,
        copy_ (g_position_ids state) (position_ids model_inputs) ≫= λ _,
        copy_ (g_attention_mask state) (attention_mask model_inputs) ≫= λ _,
        replay_graph (graph state) ≫= λ _,
        c ← get;
        mret (rows_at (g_logits state) (cg_device c))
    end.

(** [warmup] *)
Definition warmup (b : BatchMetadata) (num_iters : Z) : M CudaGraphRunner unit :=
  c ← get;
  if negb (is_enabled c) then mret tt
  else
    raise_if (num_iters <? 1) ValueError ≫= λ _,
    batch_size ← lift (validate_batch_for_graph b c);
    repeat_m (Z.to_nat num_iters)
      (model_inputs ← lift (prepare_inputs b); _ ← lift (forward_decode model_inputs); mret tt) ≫= λ _,
    modify (λ c, set_graphs (graphs c) ({[batch_size]} ∪ warmed_batch_sizes c) c).

(** [invalidate] *)
Definition invalidate : M CudaGraphRunner unit := modify (set_graphs ∅ ∅).
End cuda_graph.

(** ** Decode batches *)

Lemma decode_batch_rows b :
  bm_valid b → is_decode_batch b = true →
  rows_of b ((λ x, [x]) <$> input_token_ids b) ∧ seq_lengths b = replicate (length (seq_ids b)) 1 ∧
  length (input_token_ids b) = length (seq_ids b) ∧ (0 < length (seq_ids b))%nat.
Proof.
  intros Hv. unfold is_decode_batch. rewrite !andb_true_iff, negb_true_iff, orb_false_iff, Z.eqb_eq.
  intros ((((Hne & _) & _) & Hl) & Ht).
  assert (seq_lengths b = replicate (length (seq_ids b)) 1) as Hlen.
  { rewrite <- (bv_lens b Hv). clear -Hl. induction (seq_lengths b) as [|x l IH]; [done|].
    simpl in *. apply andb_true_iff in Hl as [Hx%Z.eqb_eq Hl]. rewrite Hx. f_equal. by apply IH. }
  unfold total_tokens, zlen in Ht. split_and!; [|done|lia|unfold zlen in Hne; lia].
  unfold rows_of. rewrite Hlen, <- list_fmap_compose. replace (length (seq_ids b)) with (length (input_token_ids b)) by lia.
  clear. induction (input_token_ids b) as [|x l IH]; [done|]. simpl. f_equal. exact IH.
Qed.

Lemma concat_singletons {A} (l : list A) : concat ((λ x, [x]) <$> l) = l.
Proof. induction l as [|x l IH]; [done|]. simpl. f_equal. exact IH. Qed.

Lemma padded_1 l : length l = 1%nat → padded 1 l = l.
Proof. intros Hl. unfold padded. rewrite Hl. simpl. apply app_nil_r. Qed.

(** The inputs of a decode batch: one column. *)
Definition columns_1 (n : nat) (i : ModelInputs) : Prop :=
  length <$> input_ids i = replicate n 1%nat ∧ length <$> position_ids i = replicate n 1%nat ∧
  length <$> attention_mask i = replicate n 1%nat.

Lemma py_max_ones n : (0 < n)%nat → py_max (replicate n 1) = 1.
Proof. destruct n as [|n]; [lia|]. intros _. simpl. induction n as [|n IH]; simpl; [done|]. exact IH. Qed.

Lemma all_length_1 (rows : list (list Z)) n :
  length rows = n → (∀ r, r ∈ rows → length r = 1%nat) → length <$> (padded 1 <$> rows) = replicate n 1%nat.
Proof.
  intros <-. induction rows as [|r rows IH]; intros Hr; [done|]. cbn.
  rewrite padded_1 by (apply Hr; set_solver). rewrite (Hr r) by set_solver. f_equal. apply IH. intros x Hx. apply Hr. set_solver.
Qed.

Lemma decode_inputs b :
  bm_post_init b = Ok b → is_decode_batch b = true →
  ∃ i, prepare_inputs b = Ok i ∧ columns_1 (length (seq_ids b)) i.
Proof.
  intros Hv%bm_post_init_spec Hd. destruct (decode_batch_rows b Hv Hd) as (Hr & Hl & Hn & Hpos).
  rewrite (prepare_inputs_ok b _ Hv Hr (concat_singletons _)). eexists. split; [reflexivity|].
  unfold columns_1. cbn [input_ids position_ids attention_mask]. rewrite Hl, py_max_ones by done. split_and!.
  - apply all_length_1; [by rewrite length_fmap|]. by intros r (x & -> & _)%list_elem_of_fmap.
  - apply all_length_1; [unfold positions; rewrite length_zip_with, Hl, length_replicate, (bv_ctx b Hv); lia|].
    unfold positions. rewrite Hl. intros r Hin. apply elem_of_lookup_zip_with in Hin as (k & c & l & -> & _ & Hk).
    apply lookup_replicate in Hk as [-> _]. by rewrite length_seqZ.
  - apply all_length_1; [unfold ones; by rewrite length_fmap, Hl, length_replicate|].
    unfold ones. rewrite Hl. intros r (x & -> & Hx)%list_elem_of_fmap.
    apply elem_of_replicate in Hx as [-> _]. done.
Qed.

(** ** Histories of a runner *)
Inductive cg_op := OpWarmup (b : BatchMetadata) (num_iters : Z) | OpCapture (b : BatchMetadata)
  | OpReplay (b : BatchMetadata) | OpInvalidate.
Definition op_batch (o : cg_op) : option BatchMetadata :=
  match o with OpWarmup b _ | OpCapture b | OpReplay b => Some b | OpInvalidate => None end.

Section histories.
Context (is_cuda_device : bool) (config_vocab model_vocab : option Z).
Context (forward_fn : option (ModelInputs → res ModelOutput)).
Context (uninitialized : list Row → list Row).
Local Abbreviation validate_batch_for_graph := (validate_batch_for_graph is_cuda_device).
Local Abbreviation capture := (capture is_cuda_device forward_fn uninitialized).
Local Abbreviation replay := (replay is_cuda_device config_vocab model_vocab forward_fn uninitialized).
Local Abbreviation warmup := (warmup is_cuda_device forward_fn).

Definition apply_op (o : cg_op) (c : CudaGraphRunner) : CudaGraphRunner :=
  match o with
  | OpWarmup b n => (warmup b n c).2
  | OpCapture b => (capture b c).2
  | OpReplay b => (replay b c).2
  | OpInvalidate => (invalidate c).2
  end.
Definition apply_ops (ops : list cg_op) (c : CudaGraphRunner) : CudaGraphRunner :=
  foldl (λ c o, apply_op o c) c ops.

(** The graph of a batch size: it reads its own static buffers, which have one column and
    that many rows, and ends by copying its result to the buffer that is returned. *)
Definition static_buffers (g : CapturedGraphState) : list Z := [g_input_ids g; g_position_ids g; g_attention_mask g].
Record graph_ok (d : device) (n : Z) (g : CapturedGraphState) : Prop := {
  gr_launches : ∃ out, graph g = [LaunchForward (g_input_ids g) (g_position_ids g) (g_attention_mask g) out; LaunchCopy out (g_logits g)];
  gr_distinct : NoDup (static_buffers g);
  gr_allocated : ∀ a, a ∈ static_buffers g → a < next_address d;
  gr_shape : columns_1 (Z.to_nat n) (inputs_of (g_input_ids g) (g_position_ids g) (g_attention_mask g) d) }.
(** Every captured graph is for a warmed, configured size, and no two share a static buffer. *)
Record cg_inv (c : CudaGraphRunner) : Prop := {
  ci_warmed : ∀ n g, graphs c !! n = Some g → n ∈ warmed_batch_sizes c;
  ci_sizes : ∀ n, n ∈ warmed_batch_sizes c → n ∈ max_batch_sizes c;
  ci_graph : ∀ n g, graphs c !! n = Some g → graph_ok (cg_device c) n g;
  ci_disjoint : ∀ n n' g g' a, n ≠ n' → graphs c !! n = Some g → graphs c !! n' = Some g' → a ∈ static_buffers g → a ∉ static_buffers g' }.

Lemma cg_init_inv sizes disabled : cg_inv (cg_init sizes disabled).
Proof. split; cbn; intros *; [by rewrite lookup_empty|set_solver|by rewrite lookup_empty|by rewrite lookup_empty]. Qed.

Lemma validate_ok b c n :
  validate_batch_for_graph b c = Ok n →
  n = zlen (seq_ids b) ∧ n ∈ max_batch_sizes c ∧ is_decode_batch b = true ∧ is_cuda_device = true.
Proof.
  unfold CudaGraph.validate_batch_for_graph. destruct is_cuda_device; [simpl|done].
  repeat case_match; intros; simplify_eq.
  repeat match goal with H : negb _ = false |- _ => apply negb_false_iff in H end.
  rewrite bool_decide_eq_true in *. done.
Qed.

Lemma repeat_read_only {S} (m : M S unit) n s : (∀ s, (m s).2 = s) → (repeat_m n m s).2 = s.
Proof.
  intros Hm. induction n as [|n IH]; [done|]. cbn. munfold. specialize (Hm s).
  destruct (m s) as [[[]|e] s']; cbn in *; by subst.
Qed.

Lemma warmup_inv b k c : cg_inv c → cg_inv (warmup b k c).2.
Proof.
  intros Hi. unfold CudaGraph.warmup, lift. munfold. cbn. destruct (is_enabled is_cuda_device c); [cbn|done].
  destruct (k <? 1); [done|]. destruct (validate_batch_for_graph b c) as [n|e] eqn:Hv; [|done]. cbn.
  match goal with |- cg_inv (match ?t with _ => _ end).2 =>
    assert (t.2 = c) as Hs
      by (apply repeat_read_only; intros s; destruct (prepare_inputs b); [cbn|done]; by destruct (forward_decode _ _));
    destruct t as [[[]|e] c'] end; cbn in Hs; subst; [|done].
  apply validate_ok in Hv as (_ & Hn & _ & _). destruct Hi as [H1 H2 H3 H4]. cbn. split; cbn.
  - intros m g Hg. apply H1 in Hg. set_solver.
  - intros m [->%elem_of_singleton|Hm]%elem_of_union; [done|]. by apply H2.
  - exact H3.
  - exact H4.
Qed.

(** *** Changes of the memory *)
Lemma graph_ok_frame d d' n g :
  next_address d ≤ next_address d' → (∀ a, a ∈ static_buffers g → int_buffers d' !! a = int_buffers d !! a) →
  graph_ok d n g → graph_ok d' n g.
Proof.
  intros Hn Ha [H1 H2 H3 H4]. split; [done|done|intros a Hin; specialize (H3 a Hin); lia|].
  unfold inputs_of, ints_at. rewrite !Ha by (unfold static_buffers; set_solver). exact H4.
Qed.
(** Buffers that are new, or other contents of buffers that no graph reads *)
Lemma inv_extend c d' :
  cg_inv c → next_address (cg_device c) ≤ next_address d' →
  (∀ a, a < next_address (cg_device c) → int_buffers d' !! a = int_buffers (cg_device c) !! a) → cg_inv (set_device d' c).
Proof.
  intros [H1 H2 H3 H4] Hn Ha. split; cbn; [done|done| |done].
  intros n g Hg. apply (graph_ok_frame (cg_device c)); [done| |by apply H3]. intros a Hin. apply Ha. by apply (gr_allocated _ n g (H3 n g Hg)).
Qed.
Lemma put_graph_inv c n g :
  cg_inv c → n ∈ warmed_batch_sizes c → graph_ok (cg_device c) n g →
  (∀ n' g' a, n' ≠ n → graphs c !! n' = Some g' → a ∈ static_buffers g → a ∉ static_buffers g') →
  cg_inv (set_graphs (<[n := g]> (graphs c)) (warmed_batch_sizes c) c).
Proof.
  intros [H1 H2 H3 H4] Hn Hg Hd. split; cbn.
  - intros m g' [[<- _]|[_ Hm]]%lookup_insert_Some; eauto.
  - exact H2.
  - intros m g' [[<- <-]|[_ Hm]]%lookup_insert_Some; eauto.
  - intros m m' h h' a Hne [[<- <-]|[? Hm]]%lookup_insert_Some [[<- <-]|[? Hm']]%lookup_insert_Some Ha; [done|by apply (Hd m')| |by apply (H4 m m' h h')].
    intros Ha'. by apply (Hd m h a).
Qed.

Lemma to_nat_zlen {A} (l : list A) : Z.to_nat (zlen l) = length l.
Proof. unfold zlen. lia. Qed.

(** What capturing leaves behind: a graph over six new buffers, three of which it reads. *)
Definition captured_device (i : ModelInputs) (d : device) : gmap Z (list (list Z)) :=
  let a := next_address d in
  <[a + 5 := attention_mask i]> (<[a + 4 := position_ids i]> (<[a + 3 := input_ids i]>
    (<[a + 2 := attention_mask i]> (<[a + 1 := position_ids i]> (<[a := input_ids i]> (int_buffers d)))))).
(** One call of a method, and what the calls on the device do *)
Lemma bind_ok {S A B} (m : M S A) (k : A → M S B) (s s' : S) a : m s = (Ok a, s') → (m ≫= k) s = k a s'.
Proof. intros Hm. unfold mbind, M_bind. by rewrite Hm. Qed.
Ltac step tac := etransitivity; [apply bind_ok; tac|]; cbv beta.
Lemma new_ints_on v c ints rows n :
  new_ints v (set_device (mkDevice ints rows n) c) = (Ok n, set_device (mkDevice (<[n := v]> ints) rows (n + 1)) c).
Proof. reflexivity. Qed.
Lemma new_rows_on v c ints rows n :
  new_rows v (set_device (mkDevice ints rows n) c) = (Ok n, set_device (mkDevice ints (<[n := v]> rows) (n + 1)) c).
Proof. reflexivity. Qed.
Lemma clone_ints_on a c ints rows n :
  clone_ints a (set_device (mkDevice ints rows n) c) = (Ok n, set_device (mkDevice (<[n := default [] (ints !! a)]> ints) rows (n + 1)) c).
Proof. reflexivity. Qed.
Lemma record_forward_on i p m c ints rows n result :
  forward_decode forward_fn (mkInputs (default [] (ints !! i)) (default [] (ints !! p)) (default [] (ints !! m))) = Ok result →
  record_forward forward_fn uninitialized i p m (set_device (mkDevice ints rows n) c) =
    (Ok (n, LaunchForward i p m n), set_device (mkDevice ints (<[n := uninitialized result]> rows) (n + 1)) c).
Proof.
  intros Hf. unfold record_forward. step ltac:(reflexivity). step ltac:(exact (f_equal (λ r, (r, _)) Hf)). step ltac:(apply new_rows_on). done.
Qed.
Lemma capture_run b c i rows :
  is_enabled is_cuda_device c = true → validate_batch_for_graph b c = Ok (zlen (seq_ids b)) →
  zlen (seq_ids b) ∈ warmed_batch_sizes c → prepare_inputs b = Ok i → forward_decode forward_fn i = Ok rows →
  let a := next_address (cg_device c) in
  ∃ rs, capture b c = (Ok tt,
    set_graphs (<[zlen (seq_ids b) := mkGraph [LaunchForward (a + 3) (a + 4) (a + 5) (a + 7); LaunchCopy (a + 7) (a + 6)] (a + 3) (a + 4) (a + 5) (a + 6)]> (graphs c))
      (warmed_batch_sizes c) (set_device (mkDevice (captured_device i (cg_device c)) rs (a + 8)) c)).
Proof.
  intros Hen Hv Hw Hp Hf a.
  assert (c = set_device (mkDevice (int_buffers (cg_device c)) (row_buffers (cg_device c)) a) c) as Hc by (by destruct c as [? ? ? ? []]).
  eexists. unfold CudaGraph.capture. step ltac:(reflexivity). rewrite Hen. cbn [negb].
  step ltac:(unfold lift; by rewrite Hv).
  step ltac:(unfold raise_if; by rewrite bool_decide_eq_false_2 by (intros Hn; by apply Hn)).
  step ltac:(unfold lift; by rewrite Hp). rewrite Hc at 1.
  do 3 step ltac:(apply new_ints_on). step ltac:(unfold lift; by rewrite Hf).
  do 3 step ltac:(apply clone_ints_on). step ltac:(apply new_rows_on).
  replace (a + 1 + 1 + 1 + 1 + 1 + 1 + 1) with (a + 7) by lia.
  replace (a + 1 + 1 + 1 + 1 + 1 + 1) with (a + 6) by lia. replace (a + 1 + 1 + 1 + 1 + 1) with (a + 5) by lia.
  replace (a + 1 + 1 + 1 + 1) with (a + 4) by lia. replace (a + 1 + 1 + 1) with (a + 3) by lia. replace (a + 1 + 1) with (a + 2) by lia.
  repeat (rewrite lookup_insert_eq || rewrite lookup_insert_ne by lia). cbn [default from_option]. unfold id.
  step ltac:(apply (record_forward_on _ _ _ _ _ _ _ rows); repeat (rewrite lookup_insert_eq || rewrite lookup_insert_ne by lia);
             destruct i; exact Hf).
  replace (a + 7 + 1) with (a + 8) by lia. reflexivity.
Qed.

Lemma capture_inv b c : bm_post_init b = Ok b → cg_inv c → cg_inv (capture b c).2.
Proof.
  intros Hb Hi. destruct (is_enabled is_cuda_device c) eqn:Hen; [|unfold CudaGraph.capture; munfold; by rewrite Hen].
  destruct (validate_batch_for_graph b c) as [n|e] eqn:Hv; [|unfold CudaGraph.capture, lift; munfold; by rewrite Hen, Hv].
  pose proof (validate_ok b c n Hv) as (-> & Hn & Hd & _). destruct (decode_inputs b Hb Hd) as (i & Hp & Hc).
  destruct (decide (zlen (seq_ids b) ∈ warmed_batch_sizes c)) as [Hw|Hw].
  2: { unfold CudaGraph.capture, lift. munfold. rewrite Hen, Hv. cbn [negb]. by rewrite bool_decide_eq_true_2. }
  set (a := next_address (cg_device c)). destruct (forward_decode forward_fn i) as [rows|e] eqn:Hf.
  - destruct (capture_run b c i rows Hen Hv Hw Hp Hf) as (rs & ->). fold a. cbn [snd].
    assert (cg_inv (set_device (mkDevice (captured_device i (cg_device c)) rs (a + 8)) c)) as Hi1.
    { apply inv_extend; [done|cbn; lia|]. intros x Hx. cbn. unfold captured_device. fold a. fold a in Hx. by rewrite !lookup_insert_ne by lia. }
    apply (put_graph_inv (set_device (mkDevice (captured_device i (cg_device c)) rs (a + 8)) c)); [done|done| |].
    + split; unfold static_buffers; cbn [graph g_input_ids g_position_ids g_attention_mask g_logits cg_device set_device next_address].
      * by eexists.
      * repeat (apply NoDup_cons; split; [intros Hx; repeat rewrite elem_of_cons in Hx; rewrite elem_of_nil in Hx; lia|]). constructor.
      * intros x Hx. rewrite !elem_of_cons, elem_of_nil in Hx. lia.
      * unfold inputs_of, ints_at, captured_device. cbn [int_buffers]. fold a. repeat (rewrite lookup_insert_eq || rewrite lookup_insert_ne by lia).
        rewrite to_nat_zlen. exact Hc.
    + intros n' g' x _ Hg' Hx Hx'. cbn in Hg'. pose proof (gr_allocated _ _ _ (ci_graph c Hi n' g' Hg') x Hx').
      unfold static_buffers in Hx. cbn in Hx. rewrite !elem_of_cons, elem_of_nil in Hx. fold a in H. lia.
  - unfold CudaGraph.capture, lift, new_ints. munfold. rewrite Hen, Hv, bool_decide_eq_false_2 by (intros Hnw; by apply Hnw). rewrite Hp, Hf.
    cbn [negb snd cg_device set_device next_address int_buffers row_buffers]. fold a.
    apply (inv_extend c (mkDevice _ _ _)); [done|cbn; lia|]. intros x Hx. cbn. fold a in Hx. by rewrite !lookup_insert_ne by lia.
Qed.

Lemma decode_batch_nonempty b : is_decode_batch b = true → (zlen (seq_ids b) =? 0) || (total_tokens b =? 0) = false.
Proof. unfold is_decode_batch. by destruct ((zlen (seq_ids b) =? 0) || (total_tokens b =? 0)). Qed.
Lemma shape_1 n (x y : list (list Z)) : length <$> x = replicate n 1%nat → length <$> y = replicate n 1%nat → same_shape x y = true.
Proof. intros Hx Hy. unfold same_shape. rewrite Hx, Hy. by apply bool_decide_eq_true_2. Qed.

(** The replay of a valid batch that the runner accepts: its inputs are in the static buffers
    of the graph, and the result is what the forward pass computes from them. *)
Lemma replay_compatible b c :
  bm_post_init b = Ok b → cg_inv c → is_compatible is_cuda_device b c = true →
  ∃ i g rs rows, prepare_inputs b = Ok i ∧ columns_1 (length (seq_ids b)) i ∧ graphs c !! zlen (seq_ids b) = Some g ∧
    replay b c = (Ok rows, set_device (mkDevice (<[g_attention_mask g := attention_mask i]> (<[g_position_ids g := position_ids i]>
                   (<[g_input_ids g := input_ids i]> (int_buffers (cg_device c))))) rs (next_address (cg_device c))) c) ∧
    (∀ eager, forward_decode forward_fn i = Ok eager → rows = eager).
Proof.
  intros Hb Hi. unfold is_compatible. rewrite !andb_true_iff, bool_decide_eq_true.
  intros (((Hen & Hpos) & Hd) & [g Hg]). destruct (decode_inputs b Hb Hd) as (i & Hp & Hc). exists i, g.
  assert (validate_batch_for_graph b c = Ok (zlen (seq_ids b))) as Hv.
  { unfold CudaGraph.validate_batch_for_graph, is_enabled in *. apply andb_true_iff in Hen as [_ ->]. cbn.
    rewrite (decode_batch_nonempty b Hd), Hd, bool_decide_eq_true_2 by (eapply ci_sizes, ci_warmed; eauto). done. }
  destruct (ci_graph c Hi _ g Hg) as [(out & Hgr) Hnd _ (S1 & S2 & S3)]. rewrite to_nat_zlen in S1, S2, S3. pose proof Hc as (C1 & C2 & C3).
  unfold static_buffers in Hnd. apply NoDup_cons in Hnd as [N1 Hnd]. apply NoDup_cons in Hnd as [N2 _].
  assert (g_input_ids g ≠ g_position_ids g ∧ g_input_ids g ≠ g_attention_mask g ∧ g_position_ids g ≠ g_attention_mask g) as (D1 & D2 & D3) by set_solver.
  unfold CudaGraph.replay, lift, copy_, replay_graph. rewrite (decode_batch_nonempty b Hd).
  munfold. rewrite Hen. cbn [negb]. rewrite Hv, Hg, Hp. cbn [inputs_of input_ids position_ids attention_mask] in S1, S2, S3.
  rewrite (shape_1 _ _ _ S1 C1). cbn [cg_device set_device].
  assert (ints_at (g_position_ids g) (mkDevice (<[g_input_ids g := input_ids i]> (int_buffers (cg_device c))) (row_buffers (cg_device c)) (next_address (cg_device c)))
    = ints_at (g_position_ids g) (cg_device c)) as -> by (unfold ints_at; cbn; by rewrite lookup_insert_ne).
  rewrite (shape_1 _ _ _ S2 C2). cbn [cg_device set_device int_buffers row_buffers next_address].
  assert (∀ r n, ints_at (g_attention_mask g) (mkDevice (<[g_position_ids g := position_ids i]> (<[g_input_ids g := input_ids i]> (int_buffers (cg_device c)))) r n)
    = ints_at (g_attention_mask g) (cg_device c)) as -> by (intros r n; unfold ints_at; cbn; by rewrite !lookup_insert_ne).
  rewrite (shape_1 _ _ _ S3 C3), Hgr. cbn [cg_device set_device int_buffers row_buffers next_address foldl flip run_launch].
  unfold inputs_of, ints_at at 1 2 3. cbn [int_buffers].
  rewrite lookup_insert_eq, (lookup_insert_ne _ (g_attention_mask g) (g_position_ids g)), lookup_insert_eq,
    (lookup_insert_ne _ (g_attention_mask g) (g_input_ids g)), (lookup_insert_ne _ (g_position_ids g) (g_input_ids g)), lookup_insert_eq by congruence.
  cbn [default]. unfold id. assert (mkInputs (input_ids i) (position_ids i) (attention_mask i) = i) as Hmk by (by destruct i). rewrite Hmk.
  eexists _, _. split_and!; [done|done|done|reflexivity|].
  intros eager He. unfold rows_at. cbn [row_buffers]. rewrite !lookup_insert_eq. cbn. by rewrite He.
Qed.

Lemma replay_inv b c : bm_post_init b = Ok b → cg_inv c → cg_inv (replay b c).2.
Proof.
  intros Hb Hi. destruct (is_compatible is_cuda_device b c) eqn:Hc.
  - destruct (replay_compatible b c Hb Hi Hc) as (i & g & rs & rows & Hp & Hcol & Hg & -> & _). cbn [snd].
    destruct Hi as [H1 H2 H3 H4]. split; cbn; [done|done| |done].
    intros n g' Hg'. destruct (decide (n = zlen (seq_ids b))) as [->|Hne].
    + assert (g' = g) as -> by congruence. destruct (H3 _ g Hg) as [G1 G2 G3 G4]. split; [done|done|done|].
      unfold static_buffers in G2. apply NoDup_cons in G2 as [N1 G2]. apply NoDup_cons in G2 as [N2 _].
      unfold inputs_of, ints_at. cbn [int_buffers].
      rewrite lookup_insert_eq, (lookup_insert_ne _ (g_attention_mask g) (g_position_ids g)), lookup_insert_eq,
        (lookup_insert_ne _ (g_attention_mask g) (g_input_ids g)), (lookup_insert_ne _ (g_position_ids g) (g_input_ids g)), lookup_insert_eq by set_solver.
      rewrite to_nat_zlen. exact Hcol.
    + apply (graph_ok_frame (cg_device c)); [done| |by apply H3]. intros a Ha.
      assert (a ∉ static_buffers g) as Hn by (by apply (H4 n (zlen (seq_ids b)) g' g)). unfold static_buffers in Hn. cbn [int_buffers].
      by rewrite !lookup_insert_ne by set_solver.
  - unfold CudaGraph.replay, lift. case_match; [done|]. munfold. cbn. unfold is_compatible in Hc.
    destruct (is_enabled is_cuda_device c); [cbn in *|done].
    destruct (validate_batch_for_graph b c) as [n|e] eqn:Hv; [|done]. cbn.
    apply validate_ok in Hv as (-> & _ & Hd & _). rewrite Hd in Hc.
    destruct (graphs c !! zlen (seq_ids b)) eqn:Hg; [|done]. exfalso.
    rewrite bool_decide_eq_true_2 in Hc by eauto. apply decode_batch_nonempty, orb_false_iff in Hd as [Hd _]. rewrite !andb_true_r in Hc. apply Z.ltb_ge in Hc. apply Z.eqb_neq in Hd. unfold zlen in *. lia.
Qed.

Definition op_valid (o : cg_op) : Prop := ∀ b, op_batch o = Some b → bm_post_init b = Ok b.

Lemma apply_ops_inv ops c : Forall op_valid ops → cg_inv c → cg_inv (apply_ops ops c).
Proof.
  intros Hops. revert c. induction Hops as [|o ops Ho _ IH]; intros c Hc; [done|]. cbn. apply IH.
  destruct o; cbn; [by apply warmup_inv|apply capture_inv; auto|apply replay_inv; auto|]. by split; cbn; set_solver.
Qed.

(** C17: replaying a captured graph is the same as running the model: after any sequence of
    warm-ups, captures, replays and invalidations on valid batches, the replay of a batch that
    [is_compatible] accepts returns the rows that the eager forward pass returns for this very
    batch, whatever the buffers held from captures and earlier replays of this and other batch
    sizes, and the runner accepts the same batches afterwards.  The graph was recorded for
    another batch; it reads the addresses it was recorded with. *)
Theorem replay_equals_eager sizes disabled ops b i rows :
  Forall op_valid ops → bm_post_init b = Ok b →
  let c := apply_ops ops (cg_init sizes disabled) in
  is_compatible is_cuda_device b c = true →
  prepare_inputs b = Ok i → forward_decode forward_fn i = Ok rows →
  (replay b c).1 = Ok rows ∧
  (∀ b', is_compatible is_cuda_device b' (replay b c).2 = is_compatible is_cuda_device b' c).
Proof.
  intros Hops Hb c Hc Hp Hf. pose proof (apply_ops_inv ops _ Hops (cg_init_inv sizes disabled)) as Hi.
  destruct (replay_compatible b _ Hb Hi Hc) as (i' & g & rs & rows' & Hp' & _ & _ & Hr & He). fold c in Hr. rewrite Hr.
  assert (i' = i) as -> by congruence. rewrite (He rows Hf). done.
Qed.
End histories.

(** Decode batches of two sequences, and a model whose row is the token fed. *)
Definition cg_batch (x y : Z) : BatchMetadata :=
  mkBM [1; 2] [x; y] [1; 1] [0; 0] [false; false] [[0]; [1]] [0; 1; 2] [default_sampling_params; default_sampling_params].
Definition cg_single (x : Z) : BatchMetadata :=
  mkBM [1] [x] [1] [0] [false] [[0]] [0; 1] [default_sampling_params].
Definition cg_forward (i : ModelInputs) : res ModelOutput :=
  Ok (mkOutput (Some (Some (Rank2 ((λ r, [Some (inject_Z (hd 0 r))]) <$> input_ids i)))) None None).
Definition cg_ops : list cg_op :=
  [OpWarmup (cg_batch 3 4) 3; OpCapture (cg_batch 3 4); OpWarmup (cg_single 1) 1; OpCapture (cg_single 1); OpReplay (cg_batch 5 6); OpReplay (cg_single 2)].

Lemma replay_equals_eager_witness :
  let c := apply_ops true (Some 5) None (Some cg_forward) id cg_ops (cg_init [1; 2; 4] false) in
  (replay true (Some 5) None (Some cg_forward) id (cg_batch 7 8) c).1 = Ok [[Some 7%Q]; [Some 8%Q]].
Proof.
  intros c.
  destruct (replay_equals_eager true (Some 5) None (Some cg_forward) id [1; 2; 4] false cg_ops (cg_batch 7 8)
    (mkInputs [[7]; [8]] [[0]; [0]] [[1]; [1]]) [[Some 7%Q]; [Some 8%Q]]) as [H _].
  - repeat constructor; intros b [= <-]; reflexivity.
  - reflexivity.
  - vm_compute. reflexivity.
  - vm_compute. reflexivity.
  - reflexivity.
  - exact H.
Defined.
