(* ===== verification/Json.v ===== *)
(** * JSON as Python's [json] module reads and writes it

    [dumps] is [json.dumps(obj, ensure_ascii=False, separators=(",", ":"))] and
    [loads] is [json.loads], on the values the servers send and check.  A Python
    string is its UTF-8 encoding, one [ascii] per byte; a number is kept as its
    text, as the callers never compute with a number they parsed.  The
    interpreter's limits on recursion depth and on the digits of an integer are
    left out. *)
From S2P Require Import Prelude.
From Stdlib Require Import Ascii String NArith.
Local Open Scope string_scope.

#[warnings="-register-all"]
Inductive json :=
  | JNull
  | JBool (b : bool)
  | JNum (text : string)
  | JStr (s : string)
  | JArr (l : list json)
  | JObj (l : list (string * json)).

(** ** Characters *)
Definition dquote : ascii := "034"%char.
Definition backslash : ascii := "092"%char.
Definition newline : ascii := "010"%char.
Definition code (c : ascii) : nat := nat_of_ascii c.
Definition is_digit (c : ascii) : bool := (48 <=? code c)%nat && (code c <=? 57)%nat.
Definition is_ws (c : ascii) : bool :=
  (code c =? 32)%nat || (code c =? 9)%nat || (code c =? 10)%nat || (code c =? 13)%nat.

(** [len(s)]: the code points, one per byte that does not continue another. *)
Definition continuation (c : ascii) : bool := (128 <=? code c)%nat && (code c <? 192)%nat.
Fixpoint py_len (s : string) : Z :=
  match s with "" => 0%Z | String c s' => ((if continuation c then 0 else 1) + py_len s')%Z end.

Definition hex_digit (n : nat) : ascii :=
  ascii_of_nat (if (n <? 10)%nat then 48 + n else 87 + n).
Definition hex_value (c : ascii) : option N :=
  let n := N_of_ascii c in
  if (48 <=? n)%N && (n <=? 57)%N then Some (n - 48)%N
  else if (97 <=? n)%N && (n <=? 102)%N then Some (n - 87)%N
  else if (65 <=? n)%N && (n <=? 70)%N then Some (n - 55)%N
  else None.

(** ** Writing *)
Definition escape_char (c : ascii) : string :=
  if (code c =? 34)%nat then "\" ++ String dquote ""
  else if (code c =? 92)%nat then "\\"
  else if (code c =? 10)%nat then "\n"
  else if (code c =? 13)%nat then "\r"
  else if (code c =? 9)%nat then "\t"
  else if (code c =? 12)%nat then "\f"
  else if (code c =? 8)%nat then "\b"
  else if (code c <? 32)%nat then "\u00" ++ String (hex_digit (code c / 16)) (String (hex_digit (code c mod 16)) "")
  else String c "".
Fixpoint escape (s : string) : string :=
  match s with "" => "" | String c s' => escape_char c ++ escape s' end.
Definition quote (s : string) : string := String dquote (escape s ++ String dquote "").

(** [sep.join(l)] *)
Fixpoint join (sep : string) (l : list string) : string :=
  match l with
  | [] => ""
  | [x] => x
  | x :: l' => x ++ sep ++ join sep l'
  end.

(** [json.dumps]: [ws] follows commas and colons, a space unless other separators are given. *)
Fixpoint dumps_with (ws : string) (j : json) : string :=
  match j with
  | JNull => "null"
  | JBool true => "true"
  | JBool false => "false"
  | JNum t => t
  | JStr s => quote s
  | JArr l => "[" ++ join (String "," ws) (dumps_with ws <$> l) ++ "]"
  | JObj l => "{" ++ join (String "," ws) ((λ p, quote p.1 ++ ":" ++ ws ++ dumps_with ws p.2) <$> l) ++ "}"
  end.
Definition dumps (j : json) : string := dumps_with "" j.

(** [str(z)] of an integer *)
Fixpoint decimal (fuel : nat) (n : N) : string :=
  match fuel with
  | O => ""
  | S fuel' =>
      (if (n <? 10)%N then "" else decimal fuel' (n / 10)%N) ++ String (ascii_of_N (48 + n mod 10)) ""
  end.
Definition str_of_N (n : N) : string := decimal (S (N.size_nat n)) n.
Definition str_of_Z (z : Z) : string := (if (z <? 0)%Z then "-" else "") ++ str_of_N (Z.abs_N z).

(** ** Reading *)
Fixpoint skip_ws (s : string) : string :=
  match s with String c s' => if is_ws c then skip_ws s' else s | "" => "" end.

(** [s.strip()] on ASCII white space. *)
Definition is_space (c : ascii) : bool :=
  is_ws c || (code c =? 11)%nat || (code c =? 12)%nat || ((28 <=? code c)%nat && (code c <=? 31)%nat).
Fixpoint lstrip (s : string) : string :=
  match s with String c s' => if is_space c then lstrip s' else s | "" => "" end.
Fixpoint rstrip (s : string) : string :=
  match s with
  | "" => ""
  | String c s' => match rstrip s' with "" => if is_space c then "" else String c "" | r => String c r end
  end.
Definition strip (s : string) : string := rstrip (lstrip s).

(** [s.startswith(prefix)], with the rest. *)
Fixpoint strip_prefix (prefix s : string) : option string :=
  match prefix, s with
  | "", _ => Some s
  | String a p, String b s' => if Ascii.eqb a b then strip_prefix p s' else None
  | _, "" => None
  end.

(** The UTF-8 bytes of a code point. *)
Definition utf8 (n : N) : string :=
  let b k := String (ascii_of_N k) "" in
  if (n <? 128)%N then b n
  else if (n <? 2048)%N then b (192 + n / 64)%N ++ b (128 + n mod 64)%N
  else if (n <? 65536)%N
  then b (224 + n / 4096)%N ++ b (128 + (n / 64) mod 64)%N ++ b (128 + n mod 64)%N
  else b (240 + n / 262144)%N ++ b (128 + (n / 4096) mod 64)%N ++ b (128 + (n / 64) mod 64)%N ++ b (128 + n mod 64)%N.

Definition scan_hex4 (s : string) : option (N * string) :=
  match s with
  | String a (String b (String c (String d s'))) =>
      match hex_value a, hex_value b, hex_value c, hex_value d with
      | Some a, Some b, Some c, Some d => Some (((a * 16 + b) * 16 + c) * 16 + d, s')%N
      | _, _, _, _ => None
      end
  | _ => None
  end.

(** After [\u]: a code point, or two for a surrogate pair. *)
Definition scan_unicode (s : string) : option (string * string) :=
  match scan_hex4 s with
  | None => None
  | Some (n, s') =>
      if (55296 <=? n)%N && (n <=? 56319)%N
      then match strip_prefix "\u" s' ≫= scan_hex4 with
           | Some (m, s'') =>
               if (56320 <=? m)%N && (m <=? 57343)%N
               then Some (utf8 (65536 + (n - 55296) * 1024 + (m - 56320))%N, s'')
               else Some (utf8 n, s')
           | None => Some (utf8 n, s')
           end
      else Some (utf8 n, s')
  end.

Definition scan_escape (s : string) : option (string * string) :=
  match s with
  | "" => None
  | String c s' =>
      if (code c =? 34)%nat then Some (String dquote "", s')
      else if (code c =? 92)%nat then Some ("\", s')
      else if (code c =? 47)%nat then Some ("/", s')
      else if (code c =? 98)%nat then Some (String "008"%char "", s')
      else if (code c =? 102)%nat then Some (String "012"%char "", s')
      else if (code c =? 110)%nat then Some (String newline "", s')
      else if (code c =? 114)%nat then Some (String "013"%char "", s')
      else if (code c =? 116)%nat then Some (String "009"%char "", s')
      else if (code c =? 117)%nat then scan_unicode s'
      else None
  end.

(** The rest of a string after its opening quote; control characters are errors. *)
Fixpoint scan_string (fuel : nat) (s : string) : option (string * string) :=
  match fuel, s with
  | S fuel', String c s' =>
      if (code c =? 34)%nat then Some ("", s')
      else if (code c =? 92)%nat then
        match scan_escape s' with
        | None => None
        | Some (x, s'') =>
            match scan_string fuel' s'' with None => None | Some (y, rest) => Some (x ++ y, rest) end
        end
      else if (code c <? 32)%nat then None
      else match scan_string fuel' s' with None => None | Some (y, rest) => Some (String c y, rest) end
  | _, _ => None
  end.

Fixpoint scan_digits (s : string) : string * string :=
  match s with
  | String c s' => if is_digit c then let '(d, r) := scan_digits s' in (String c d, r) else ("", s)
  | "" => ("", "")
  end.

(** An optional minus, an integer without leading zeros, then an optional
    fraction and an optional exponent, each of which matches as a whole or not
    at all. *)
Definition scan_int (s : string) : option (string * string) :=
  match s with
  | String c s' =>
      if (code c =? 48)%nat then Some (String c "", s')
      else if is_digit c then let '(d, r) := scan_digits s' in Some (String c d, r) else None
  | "" => None
  end.
Definition scan_fraction (s : string) : string * string :=
  match strip_prefix "." s with
  | Some s' => match scan_digits s' with ("", _) => ("", s) | (d, r) => ("." ++ d, r) end
  | None => ("", s)
  end.
Definition scan_exponent (s : string) : string * string :=
  match s with
  | String c s' =>
      if (code c =? 101)%nat || (code c =? 69)%nat then
        let '(sign, s'') := match s' with
                            | String g r => if (code g =? 43)%nat || (code g =? 45)%nat then (String g "", r) else ("", s')
                            | "" => ("", "")
                            end in
        match scan_digits s'' with ("", _) => ("", s) | (d, r) => (String c (sign ++ d), r) end
      else ("", s)
  | "" => ("", "")
  end.
Definition scan_number (s : string) : option (string * string) :=
  let '(sign, s1) := match strip_prefix "-" s with Some r => ("-", r) | None => ("", s) end in
  match scan_int s1 with
  | None => None
  | Some (i, s2) =>
      let '(f, s3) := scan_fraction s2 in
      let '(e, s4) := scan_exponent s3 in
      Some (sign ++ i ++ f ++ e, s4)
  end.

Definition scan_literal (s : string) : option (json * string) :=
  match strip_prefix "null" s, strip_prefix "true" s, strip_prefix "false" s,
        strip_prefix "NaN" s, strip_prefix "Infinity" s, strip_prefix "-Infinity" s with
  | Some r, _, _, _, _, _ => Some (JNull, r)
  | _, Some r, _, _, _, _ => Some (JBool true, r)
  | _, _, Some r, _, _, _ => Some (JBool false, r)
  | _, _, _, Some r, _, _ => Some (JNum "NaN", r)
  | _, _, _, _, Some r, _ => Some (JNum "Infinity", r)
  | _, _, _, _, _, Some r => Some (JNum "-Infinity", r)
  | _, _, _, _, _, _ => match scan_number s with Some (t, r) => Some (JNum t, r) | None => None end
  end.

(** [scan_once]; [scan_items] reads from an element of an array, [scan_members]
    from a key of an object, both up to the closing bracket. *)
Fixpoint scan_once (fuel : nat) (s : string) : option (json * string) :=
  match fuel with
  | O => None
  | S fuel' =>
      match s with
      | "" => None
      | String c s' =>
          if (code c =? 34)%nat then
            match scan_string (S (String.length s')) s' with Some (x, r) => Some (JStr x, r) | None => None end
          else if (code c =? 91)%nat then
            match strip_prefix "]" (skip_ws s') with
            | Some r => Some (JArr [], r)
            | None => match scan_items fuel' (skip_ws s') with Some (l, r) => Some (JArr l, r) | None => None end
            end
          else if (code c =? 123)%nat then
            match strip_prefix "}" (skip_ws s') with
            | Some r => Some (JObj [], r)
            | None => match scan_members fuel' (skip_ws s') with Some (l, r) => Some (JObj l, r) | None => None end
            end
          else scan_literal s
      end
  end
with scan_items (fuel : nat) (s : string) : option (list json * string) :=
  match fuel with
  | O => None
  | S fuel' =>
      match scan_once fuel' s with
      | None => None
      | Some (j, r) =>
          match strip_prefix "]" (skip_ws r), strip_prefix "," (skip_ws r) with
          | Some r', _ => Some ([j], r')
          | None, Some r' =>
              match scan_items fuel' (skip_ws r') with Some (l, r'') => Some (j :: l, r'') | None => None end
          | None, None => None
          end
      end
  end
with scan_members (fuel : nat) (s : string) : option (list (string * json) * string) :=
  match fuel with
  | O => None
  | S fuel' =>
      match s with
      | String c s' =>
          if negb (code c =? 34)%nat then None
          else
            match scan_string (S (String.length s')) s' with
            | None => None
            | Some (k, r) =>
                match strip_prefix ":" (skip_ws r) with
                | None => None
                | Some r' =>
                    match scan_once fuel' (skip_ws r') with
                    | None => None
                    | Some (j, r'') =>
                        match strip_prefix "}" (skip_ws r''), strip_prefix "," (skip_ws r'') with
                        | Some r3, _ => Some ([(k, j)], r3)
                        | None, Some r3 =>
                            match scan_members fuel' (skip_ws r3) with
                            | Some (l, r4) => Some ((k, j) :: l, r4)
                            | None => None
                            end
                        | None, None => None
                        end
                    end
                end
            end
      | "" => None
      end
  end.

(** [json.loads(s)]: [None] for a [ValueError].  A text of [n] bytes nests less
    than [2 * n + 2] calls. *)
Definition bom : string := utf8 65279.
Definition loads (s : string) : option json :=
  match strip_prefix bom s with
  | Some _ => None
  | None =>
      match scan_once (2 * String.length s + 2) (skip_ws s) with
      | Some (j, r) => match skip_ws r with "" => Some j | _ => None end
      | None => None
      end
  end.

(** Lookup in a parsed object: the last pair of a key wins. *)
Fixpoint obj_get (k : string) (l : list (string * json)) : option json :=
  match l with
  | [] => None
  | (k', v) :: l' => match obj_get k l' with Some w => Some w | None => if String.eqb k k' then Some v else None end
  end.
