(* ===== verification/JsonProps.v ===== *)
(** * Facts about the JSON codec

    What [dumps] writes, [loads] reads back, on one line. *)
From S2P Require Import Prelude Json.
From Stdlib Require Import Ascii String NArith.
Local Open Scope string_scope.
#[local] Arguments String.append !_ _ : simpl nomatch.

(** ** Strings *)
Lemma sapp_assoc (a b c : string) : (a ++ b) ++ c = a ++ b ++ c.
Proof. induction a as [|x a IH]; [done|]. cbn. f_equal. exact IH. Qed.
Lemma sapp_nil_r (a : string) : a ++ "" = a.
Proof. induction a as [|x a IH]; [done|]. cbn. f_equal. exact IH. Qed.
Lemma slength_app (a b : string) : String.length (a ++ b) = (String.length a + String.length b)%nat.
Proof. induction a as [|x a IH]; [done|]. cbn. f_equal. exact IH. Qed.

(** Every character of a string satisfies [P]. *)
Fixpoint sforall (P : ascii → Prop) (s : string) : Prop :=
  match s with "" => True | String c s' => P c ∧ sforall P s' end.
Lemma sforall_app P a b : sforall P (a ++ b) ↔ sforall P a ∧ sforall P b.
Proof. induction a as [|x a IH]; cbn; [tauto|]. rewrite IH. tauto. Qed.
Lemma sforall_impl (P Q : ascii → Prop) s : (∀ c, P c → Q c) → sforall P s → sforall Q s.
Proof. intros H. induction s; cbn; naive_solver. Qed.
Lemma sforall_join P sep l : sforall P sep → (∀ x, x ∈ l → sforall P x) → sforall P (join sep l).
Proof.
  intros Hs. induction l as [|x l IH]; intros Hl; [done|]. destruct l as [|y l]; [by apply Hl; set_solver|].
  change (sforall P (x ++ sep ++ join sep (y :: l))). rewrite !sforall_app. split_and!; [by apply Hl; set_solver|done|].
  apply IH. intros z Hz. apply Hl. set_solver.
Qed.

(** A printable byte: no control character, so no line break. *)
Definition printable (c : ascii) : Prop := (32 ≤ code c)%nat.

Ltac all_chars c := destruct c as [[] [] [] [] [] [] [] []].

Lemma escape_char_printable c : sforall printable (escape_char c).
Proof. unfold printable, code. all_chars c; vm_compute; repeat constructor; lia. Qed.
Lemma escape_printable s : sforall printable (escape s).
Proof. induction s as [|c s IH]; [done|]. cbn [escape]. apply sforall_app. split; [apply escape_char_printable|done]. Qed.
Lemma quote_printable s : sforall printable (quote s).
Proof.
  unfold quote. cbn [sforall]. rewrite sforall_app. unfold printable at 1. split_and!; [vm_compute; lia|apply escape_printable|].
  cbn. split; [|done]. unfold printable. vm_compute. lia.
Qed.

(** ** Quoted strings *)
Lemma scan_escape_char c s fuel :
  scan_string (S fuel) (escape_char c ++ s) =
    match scan_string fuel s with None => None | Some (y, rest) => Some (String c y, rest) end.
Proof. all_chars c; reflexivity. Qed.

Lemma scan_quoted s rest fuel :
  (String.length s < fuel)%nat → scan_string fuel (escape s ++ String dquote rest) = Some (s, rest).
Proof.
  revert fuel. induction s as [|c s IH]; intros [|fuel] Hf; cbn in Hf; try lia; [done|].
  cbn [escape]. rewrite sapp_assoc, scan_escape_char, IH by lia. done.
Qed.

Lemma escape_length s : (String.length s ≤ String.length (escape s))%nat.
Proof.
  induction s as [|c s IH]; [done|]. cbn [escape String.length]. rewrite slength_app.
  assert (1 ≤ String.length (escape_char c))%nat by (all_chars c; vm_compute; lia). lia.
Qed.

Lemma scan_after_quote s rest :
  scan_string (S (String.length (escape s ++ String dquote rest))) (escape s ++ String dquote rest) = Some (s, rest).
Proof. apply scan_quoted. rewrite slength_app. pose proof (escape_length s). lia. Qed.

(** ** Numbers *)
Definition digit (c : ascii) : Prop := is_digit c = true.

(** What follows does not continue a number. *)
Definition num_end (s : string) : Prop :=
  match s with
  | "" => True
  | String c _ => is_digit c = false ∧ code c ≠ 46%nat ∧ code c ≠ 101%nat ∧ code c ≠ 69%nat
  end.

Lemma scan_digits_app d rest : sforall digit d → num_end rest → scan_digits (d ++ rest) = (d, rest).
Proof.
  induction d as [|c d IH]; cbn; intros Hd Hr.
  - destruct rest as [|c r]; [done|]. cbn in *. destruct Hr as [-> _]. done.
  - destruct Hd as [-> Hd]. by rewrite IH.
Qed.

(** The digits of a number: no leading zero except for zero itself. *)
Definition plain_int (s : string) : Prop :=
  ∃ c d, s = String c d ∧ digit c ∧ sforall digit d ∧ (code c = 48%nat → d = "").

Lemma code_ascii_of_N n : (n < 256)%N → code (ascii_of_N n) = N.to_nat n.
Proof. intros H. unfold code, nat_of_ascii. by rewrite N_ascii_embedding. Qed.
Lemma digit_of_N n : (n < 10)%N → digit (ascii_of_N (48 + n)).
Proof.
  intros H. unfold digit, is_digit. rewrite code_ascii_of_N by lia.
  apply andb_true_intro. split; apply Nat.leb_le; lia.
Qed.

Lemma decimal_plain fuel n :
  (n < 2 ^ N.of_nat fuel)%N → (0 < fuel)%nat →
  ∃ c d, decimal fuel n = String c d ∧ digit c ∧ sforall digit d ∧ (code c = 48%nat → n = 0%N ∧ d = "").
Proof.
  revert n. induction fuel as [|fuel IH]; intros n Hn Hf; [lia|]. cbn [decimal].
  assert (digit (ascii_of_N (48 + n mod 10))) as Hd by (apply digit_of_N, N.mod_lt; lia).
  destruct (n <? 10)%N eqn:Hs.
  - apply N.ltb_lt in Hs. cbn [append]. eexists _, _. split_and!; [done|done|done|].
    rewrite N.mod_small by done. rewrite code_ascii_of_N by lia. intros H. split; [lia|done].
  - apply N.ltb_ge in Hs. assert (n / 10 < 2 ^ N.of_nat fuel)%N as Hq.
    { apply N.Div0.div_lt_upper_bound. rewrite Nat2N.inj_succ, N.pow_succ_r' in Hn. lia. }
    assert (1 ≤ n / 10)%N as H1 by (apply N.div_le_lower_bound; lia).
    destruct fuel as [|fuel]; [cbn in Hq; lia|].
    destruct (IH (n / 10)%N Hq) as (c & d & He & Hc & Hds & Hz); [lia|]. rewrite He. cbn [append].
    eexists _, _. split_and!; [done|done| |].
    + apply sforall_app. cbn. done.
    + intros H. destruct (Hz H). lia.
Qed.

Lemma N_size_bound n : (n < 2 ^ N.of_nat (S (N.size_nat n)))%N.
Proof.
  destruct n as [|p]; [done|]. pose proof (N.size_gt (N.pos p)) as H. cbn [N.size_nat N.size] in *.
  replace (N.of_nat (S (Pos.size_nat p))) with (N.succ (N.pos (Pos.size p))).
  - rewrite N.pow_succ_r'. lia.
  - rewrite Nat2N.inj_succ. f_equal. clear H. induction p as [p IH|p IH|]; cbn; [| |done];
      rewrite Nat2N.inj_succ, <- IH; cbn; by rewrite Pos.add_1_r || done.
Qed.

Lemma str_of_N_plain n : plain_int (str_of_N n).
Proof.
  destruct (decimal_plain _ n (N_size_bound n)) as (c & d & He & Hc & Hd & Hz); [lia|].
  exists c, d. split_and!; [exact He|done|done|]. intros H. by destruct (Hz H).
Qed.

Lemma scan_int_plain s rest : plain_int s → num_end rest → scan_int (s ++ rest) = Some (s, rest).
Proof.
  intros (c & d & -> & Hc & Hd & Hz) Hr. cbn [append scan_int]. destruct (Nat.eqb_spec (code c) 48) as [E|_].
  - by rewrite (Hz E).
  - unfold digit in Hc. rewrite Hc. by rewrite scan_digits_app.
Qed.

Lemma num_end_no_fraction s : num_end s → scan_fraction s = ("", s) ∧ scan_exponent s = ("", s).
Proof.
  destruct s as [|c s]; [done|]. intros (_ & H1 & H2 & H3). unfold scan_fraction, scan_exponent. cbn [strip_prefix].
  destruct (Ascii.eqb_spec "." c) as [<-|_]; [done|]. by rewrite (proj2 (Nat.eqb_neq _ _) H2), (proj2 (Nat.eqb_neq _ _) H3).
Qed.

(** The text of an integer. *)
Definition int_text (t : string) : Prop := ∃ s, plain_int s ∧ (t = s ∨ t = "-" ++ s).
Lemma str_of_Z_int z : int_text (str_of_Z z).
Proof. exists (str_of_N (Z.abs_N z)). unfold str_of_Z. destruct (z <? 0)%Z; auto using str_of_N_plain. Qed.

Lemma digit_not c x : digit c → is_digit x = false → Ascii.eqb x c = false.
Proof. intros Hc Hx. apply Ascii.eqb_neq. intros ->. unfold digit in Hc. congruence. Qed.

Lemma scan_number_int t rest : int_text t → num_end rest → scan_number (t ++ rest) = Some (t, rest).
Proof.
  intros (s & Hs & Ht) Hr. destruct (num_end_no_fraction rest Hr) as [Hf He].
  unfold scan_number. destruct Ht as [->| ->].
  - pose proof Hs as (c & d & Hcd & Hc & _). rewrite Hcd at 1. cbn [append strip_prefix].
    rewrite (digit_not c "-" Hc) by done. rewrite scan_int_plain, Hf, He by done. cbn. by rewrite sapp_nil_r.
  - rewrite sapp_assoc. cbn [append strip_prefix]. cbn [Ascii.eqb Bool.eqb].
    rewrite scan_int_plain, Hf, He by done. cbn. by rewrite sapp_nil_r.
Qed.

(** The text of a number with a fraction, as [repr] writes most floats *)
Definition float_text (t : string) : Prop := ∃ i c d, int_text i ∧ digit c ∧ sforall digit d ∧ t = i ++ "." ++ String c d.
Lemma scan_fraction_digits c d rest : digit c → sforall digit d → num_end rest → scan_fraction ("." ++ String c d ++ rest) = ("." ++ String c d, rest).
Proof.
  intros Hc Hd Hr. unfold scan_fraction. cbn [append strip_prefix]. change (Ascii.eqb "." ".") with true. cbn iota.
  change (String c (d ++ rest)) with (String c d ++ rest). rewrite scan_digits_app by done. done.
Qed.
Lemma scan_int_dot s r : plain_int s → scan_int (s ++ String "." r) = Some (s, String "." r).
Proof.
  assert (∀ d, sforall digit d → scan_digits (d ++ String "." r) = (d, String "." r)) as Hdot.
  { induction d as [|c d IH]; [done|]. intros [Hc Hd]. cbn [append scan_digits]. unfold digit in Hc. by rewrite Hc, IH. }
  intros (c & d & -> & Hc & Hd & Hz). cbn [append scan_int]. destruct (Nat.eqb_spec (code c) 48) as [E|_]; [by rewrite (Hz E)|].
  unfold digit in Hc. by rewrite Hc, Hdot.
Qed.
Lemma scan_number_float t rest : float_text t → num_end rest → scan_number (t ++ rest) = Some (t, rest).
Proof.
  intros (i & x & y & (s & Hs & Ht) & Hx & Hy & ->) Hr. destruct (num_end_no_fraction rest Hr) as [_ He].
  assert (∀ s, plain_int s → scan_int (s ++ "." ++ String x y ++ rest) = Some (s, "." ++ String x y ++ rest)) as Hi by (intros; by apply scan_int_dot).
  unfold scan_number. rewrite !sapp_assoc. destruct Ht as [->| ->].
  - assert (strip_prefix "-" (s ++ "." ++ String x y ++ rest) = None) as ->.
    { destruct Hs as (c & d & -> & Hc & _). cbn [append strip_prefix]. by rewrite (digit_not c "-" Hc). }
    rewrite Hi, scan_fraction_digits, He by done. by rewrite sapp_nil_r.
  - rewrite sapp_assoc. cbn [append strip_prefix]. cbn [Ascii.eqb Bool.eqb].
    pose proof (Hi s Hs) as Hi'. cbn [append] in Hi'. rewrite Hi'. pose proof (scan_fraction_digits x y rest Hx Hy Hr) as Hf. cbn [append] in Hf. rewrite Hf, He.
    cbn [append]. by rewrite sapp_nil_r.
Qed.
Definition num_text (t : string) : Prop := int_text t ∨ float_text t.
Lemma scan_number_text t rest : num_text t → num_end rest → scan_number (t ++ rest) = Some (t, rest).
Proof. intros [H|H]; [by apply scan_number_int|by apply scan_number_float]. Qed.
(** Both begin with a digit or a minus. *)
Lemma num_text_start t : num_text t → ∃ c s, t = String c s ∧ (digit c ∨ (c = "-"%char ∧ ∃ c' s', s = String c' s' ∧ digit c')).
Proof.
  assert (∀ t, int_text t → ∃ c s, t = String c s ∧ (digit c ∨ (c = "-"%char ∧ ∃ c' s', s = String c' s' ∧ digit c'))) as Hi.
  { intros u (s & (c & d & -> & Hc & _) & [->| ->]); eexists _, _; (split; [reflexivity|]); [by left|right; eauto]. }
  intros [H|(i & x & y & H & _ & _ & ->)]; [by apply Hi|]. destruct (Hi i H) as (c & s & -> & Hc). eexists _, _. split; [reflexivity|].
  destruct Hc as [Hc|(-> & c' & s' & -> & Hc)]; [by left|right; split; [done|]]. eauto.
Qed.

Lemma rstrip_last a c : is_space c = false → rstrip (a ++ String c "") = a ++ String c "".
Proof.
  intros Hc. induction a as [|x a IH]; cbn; [by rewrite Hc|]. rewrite IH. by destruct a.
Qed.

(** ** Values *)

(** The values that [dumps] writes from Python objects. *)
#[warnings="-register-all"]
Inductive jok : json → Prop :=
  | jok_null : jok JNull
  | jok_bool b : jok (JBool b)
  | jok_num t : num_text t → jok (JNum t)
  | jok_str s : jok (JStr s)
  | jok_arr l : Forall jok l → jok (JArr l)
  | jok_obj l : Forall (λ p, jok p.2) l → jok (JObj l).

Section jok_ind.
Context (P : json → Prop).
Context (Hnull : P JNull) (Hbool : ∀ b, P (JBool b)) (Hnum : ∀ t, num_text t → P (JNum t)) (Hstr : ∀ s, P (JStr s)).
Context (Harr : ∀ l, Forall jok l → Forall P l → P (JArr l)).
Context (Hobj : ∀ l, Forall (λ p : string * json, jok p.2) l → Forall (λ p : string * json, P p.2) l → P (JObj l)).
Fixpoint jok_nested_ind j (H : jok j) : P j :=
  match H with
  | jok_null => Hnull
  | jok_bool b => Hbool b
  | jok_num t Ht => Hnum t Ht
  | jok_str s => Hstr s
  | jok_arr l Hl => Harr l Hl (Forall_impl _ _ _ Hl jok_nested_ind)
  | jok_obj l Hl => Hobj l Hl (Forall_impl _ _ _ Hl (λ p, jok_nested_ind p.2))
  end.
End jok_ind.

(** The calls [scan_once] nests on the text of a value. *)
Fixpoint weight (j : json) : nat :=
  match j with
  | JArr l => S (foldr (λ x n, S (weight x + n)) 1%nat l)
  | JObj l => S (foldr (λ p n, S (weight p.2 + n)) 1%nat l)
  | _ => 1%nat
  end.

(** The first character of a value starts neither white space nor a closing
    bracket. *)
Definition value_start (c : ascii) : Prop := is_ws c = false ∧ code c ≠ 93%nat ∧ code c ≠ 125%nat.
Lemma digit_start c : digit c → value_start c.
Proof.
  unfold digit, is_digit, value_start, is_ws. rewrite andb_true_iff, !Nat.leb_le. intros [H1 H2].
  split_and!; [|lia|lia]. rewrite !orb_false_iff, !Nat.eqb_neq. lia.
Qed.
Section separators.
Context (ws : string) (Hws : ws = "" ∨ ws = " ").
Lemma skip_ws_ws s : skip_ws (ws ++ s) = skip_ws s.
Proof. by destruct Hws as [->| ->]. Qed.
Lemma dumps_start j : jok j → ∃ c s, dumps_with ws j = String c s ∧ value_start c.
Proof.
  intros H. assert (∀ c, c ∈ ["n"; "t"; "f"; "-"; "["; "{"; dquote]%char → value_start c) as Hv.
  { intros c Hc. repeat (apply elem_of_cons in Hc as [->|Hc]; [by vm_compute|]). by apply not_elem_of_nil in Hc. }
  destruct H as [|[]|t Ht|s|l Hl|l Hl].
  4: { destruct (num_text_start t Ht) as (c & s & -> & [Hc|[-> _]]); eexists _, _; (split; [reflexivity|]); [by apply digit_start|apply Hv; set_solver]. }
  all: eexists _, _; (split; [reflexivity|]); apply Hv; set_solver.
Qed.

Lemma skip_ws_start c s : value_start c → skip_ws (String c s) = String c s.
Proof. intros [H _]. cbn [skip_ws]. by rewrite H. Qed.
Lemma skip_ws_dumps j rest : jok j → skip_ws (dumps_with ws j ++ rest) = dumps_with ws j ++ rest.
Proof. intros H. destruct (dumps_start j H) as (c & s & -> & Hc). by apply skip_ws_start. Qed.
Lemma no_bracket j rest : jok j → strip_prefix "]" (dumps_with ws j ++ rest) = None.
Proof.
  intros H. destruct (dumps_start j H) as (c & s & -> & _ & Hc & _). cbn [append strip_prefix].
  destruct (Ascii.eqb_spec "]" c) as [<-|_]; [by vm_compute in Hc|done].
Qed.

Lemma strip_ne a b p s : Ascii.eqb a b = false → strip_prefix (String a p) (String b s) = None.
Proof. intros H. cbn [strip_prefix]. by rewrite H. Qed.
Lemma strip_eq a p s : strip_prefix (String a p) (String a s) = strip_prefix p s.
Proof. cbn [strip_prefix]. by rewrite Ascii.eqb_refl. Qed.

(** [scan_once] reads back what [dumps_with ws] wrote of [j]. *)
Definition reads (j : json) : Prop :=
  ∀ fuel rest, (weight j ≤ fuel)%nat → num_end rest → scan_once fuel (dumps_with ws j ++ rest) = Some (j, rest).

Lemma reads_num t : num_text t → reads (JNum t).
Proof.
  intros Ht [|fuel] rest Hf Hr; cbn in Hf; [lia|]. cbn [dumps_with]. pose proof (scan_number_text t rest Ht Hr) as Hn.
  destruct (num_text_start t Ht) as (c & s & -> & Hc).
  assert (scan_literal (String c s ++ rest) = Some (JNum (String c s), rest)) as Hl.
  { unfold scan_literal. cbn [append] in *. destruct Hc as [Hc|(-> & c' & s' & -> & Hc)].
    - rewrite !strip_ne by (by apply digit_not). by rewrite Hn.
    - cbn [append] in *. rewrite strip_eq, !strip_ne by (done || by apply digit_not). by rewrite Hn. }
  cbn [append scan_once] in *. destruct Hc as [Hc|(-> & _)]; [|exact Hl].
  assert (code c ≠ 34 ∧ code c ≠ 91 ∧ code c ≠ 123)%nat as (H1 & H2 & H3).
  { unfold digit, is_digit in Hc. rewrite andb_true_iff, !Nat.leb_le in Hc. lia. }
  by rewrite (proj2 (Nat.eqb_neq _ _) H1), (proj2 (Nat.eqb_neq _ _) H2), (proj2 (Nat.eqb_neq _ _) H3).
Qed.

Lemma reads_items l fuel rest :
  l ≠ [] → Forall jok l → Forall reads l → (foldr (λ x n, S (weight x + n)) 1%nat l ≤ fuel)%nat →
  scan_items fuel (join (String "," ws) (dumps_with ws <$> l) ++ "]" ++ rest) = Some (l, rest).
Proof.
  intros Hne Hok Hl. revert fuel. induction Hl as [|j l Hj Hl IH]; intros fuel Hf; [done|].
  destruct fuel as [|fuel]; cbn in Hf; [lia|]. apply Forall_cons in Hok as [Hokj Hok].
  destruct l as [|j' l].
  - cbn [fmap list_fmap join scan_items]. rewrite Hj by (lia || done). done.
  - change (join (String "," ws) (dumps_with ws <$> j :: j' :: l)) with (dumps_with ws j ++ (String "," ws) ++ join (String "," ws) (dumps_with ws <$> j' :: l)).
    rewrite !sapp_assoc. cbn [scan_items]. rewrite Hj by (lia || done). cbn [append]. rewrite skip_ws_start by done.
    rewrite strip_ne, strip_eq by done. cbn [strip_prefix]. rewrite skip_ws_ws.
    replace (skip_ws (join (String "," ws) (dumps_with ws <$> j' :: l) ++ String "]" rest)) with (join (String "," ws) (dumps_with ws <$> j' :: l) ++ "]" ++ rest).
    + rewrite IH; [done|done|done|cbn in *; lia].
    + symmetry. apply Forall_cons in Hok as [Hok' _].
      destruct l as [|k l]; [apply skip_ws_dumps; done|].
      change (join (String "," ws) (dumps_with ws <$> j' :: k :: l)) with (dumps_with ws j' ++ (String "," ws) ++ join (String "," ws) (dumps_with ws <$> k :: l)).
      rewrite !sapp_assoc. by apply skip_ws_dumps.
Qed.

Definition member (p : string * json) : string := quote p.1 ++ ":" ++ ws ++ dumps_with ws p.2.
Lemma member_app p rest : member p ++ rest = String dquote (escape p.1 ++ String dquote (String ":" (ws ++ dumps_with ws p.2 ++ rest))).
Proof. unfold member, quote. cbn [append]. rewrite !sapp_assoc. cbn [append]. by rewrite !sapp_assoc. Qed.

Lemma reads_members l fuel rest :
  l ≠ [] → Forall (λ p : string * json, jok p.2) l → Forall (λ p : string * json, reads p.2) l →
  (foldr (λ p n, S (weight p.2 + n)) 1%nat l ≤ fuel)%nat →
  scan_members fuel (join (String "," ws) (member <$> l) ++ "}" ++ rest) = Some (l, rest).
Proof.
  intros Hne Hok Hl. revert fuel. induction Hl as [|[k j] l Hj Hl IH]; intros fuel Hf; [done|].
  destruct fuel as [|fuel]; cbn in Hf; [lia|]. apply Forall_cons in Hok as [Hokj Hok]. cbn in Hj, Hokj.
  assert (∀ tl, num_end tl → scan_once fuel (skip_ws (ws ++ dumps_with ws j ++ tl)) = Some (j, tl)) as Hscan.
  { intros tl Htl. rewrite skip_ws_ws, skip_ws_dumps by done. apply Hj; [lia|done]. }
  destruct l as [|p l].
  - cbn [fmap list_fmap join]. rewrite member_app. cbn [fst snd scan_members].
    rewrite scan_after_quote, skip_ws_start, strip_eq by done. cbn [strip_prefix negb code]. rewrite Hscan by done. done.
  - change (join (String "," ws) (member <$> (k, j) :: p :: l)) with (member (k, j) ++ (String "," ws) ++ join (String "," ws) (member <$> p :: l)).
    rewrite !sapp_assoc, member_app. cbn [fst snd scan_members].
    rewrite scan_after_quote, skip_ws_start, strip_eq by done. cbn [strip_prefix]. rewrite Hscan by done.
    cbn [append]. rewrite skip_ws_start by done. 
    change (Ascii.eqb "}" ",") with false. change (Ascii.eqb "," ",") with true. change (negb (code dquote =? 34)%nat) with false. cbn iota. rewrite skip_ws_ws.
    replace (skip_ws (join (String "," ws) (member <$> p :: l) ++ String "}" rest)) with (join (String "," ws) (member <$> p :: l) ++ "}" ++ rest).
    + rewrite IH; [done|done|done|cbn in *; lia].
    + symmetry. destruct l as [|q l]; [cbn [fmap list_fmap join]; rewrite !member_app; by apply skip_ws_start|].
      change (join (String "," ws) (member <$> p :: q :: l)) with (member p ++ (String "," ws) ++ join (String "," ws) (member <$> q :: l)).
      by rewrite !sapp_assoc, !member_app, skip_ws_start.
Qed.

Lemma reads_all j : jok j → reads j.
Proof.
  intros H. induction H as [|b|t Ht|s|l Hl IH|l Hl IH] using jok_nested_ind.
  - by intros [|fuel] rest Hf Hr; cbn in Hf; [lia|].
  - by intros [|fuel] rest Hf Hr; cbn in Hf; [lia|destruct b].
  - by apply reads_num.
  - intros [|fuel] rest Hf Hr; cbn in Hf; [lia|]. cbn [dumps_with quote]. unfold quote. cbn [append]. rewrite sapp_assoc.
    cbn [append scan_once]. rewrite scan_after_quote. done.
  - intros [|fuel] rest Hf Hr; cbn in Hf; [lia|]. destruct l as [|j l]; [done|].
    cbn [dumps_with append]. rewrite !sapp_assoc. cbn [scan_once append].
    pose proof (reads_items (j :: l) fuel rest ltac:(done) Hl IH) as Hi. cbn [append] in Hi.
    assert (skip_ws (join (String "," ws) (dumps_with ws <$> j :: l) ++ String "]" rest) = join (String "," ws) (dumps_with ws <$> j :: l) ++ String "]" rest
            ∧ strip_prefix "]" (join (String "," ws) (dumps_with ws <$> j :: l) ++ String "]" rest) = None) as [Hw Hb].
    { apply Forall_cons in Hl as [Hj _]. destruct l as [|k l]; [by split; [apply skip_ws_dumps|apply no_bracket]|].
      change (join (String "," ws) (dumps_with ws <$> j :: k :: l)) with (dumps_with ws j ++ (String "," ws) ++ join (String "," ws) (dumps_with ws <$> k :: l)).
      rewrite !sapp_assoc. by split; [apply skip_ws_dumps|apply no_bracket]. }
    change (code "[" =? 34)%nat with false. change (code "[" =? 91)%nat with true. cbn iota.
    rewrite Hw, Hb, Hi by (cbn in *; lia). done.
  - intros [|fuel] rest Hf Hr; cbn in Hf; [lia|]. destruct l as [|p l]; [done|].
    cbn [dumps_with append]. rewrite !sapp_assoc. cbn [scan_once append].
    change (λ p0 : string * json, quote p0.1 ++ String ":" (ws ++ dumps_with ws p0.2)) with member.
    pose proof (reads_members (p :: l) fuel rest ltac:(done) Hl IH) as Hi. cbn [append] in Hi.
    assert (∃ tl, join (String "," ws) (member <$> p :: l) ++ String "}" rest = String dquote tl) as [tl Htl].
    { destruct l as [|q l]; [cbn [fmap list_fmap join]; rewrite member_app; eauto|].
      change (join (String "," ws) (member <$> p :: q :: l)) with (member p ++ (String "," ws) ++ join (String "," ws) (member <$> q :: l)).
      rewrite sapp_assoc, member_app. eauto. }
    change (code "{" =? 34)%nat with false. change (code "{" =? 91)%nat with false. change (code "{" =? 123)%nat with true. cbn iota.
    rewrite Htl, skip_ws_start, strip_ne by done. rewrite <- Htl, Hi by (cbn in *; lia). done.
Qed.

Lemma weight_join {A} (f : A → string) (w : A → nat) (l : list A) :
  (∀ x, x ∈ l → (w x ≤ 2 * String.length (f x))%nat) →
  (foldr (λ x n, S (w x + n)) 1%nat l ≤ 2 * String.length (join (String "," ws) (f <$> l)) + 2)%nat.
Proof.
  induction l as [|x l IH]; intros Hw; [cbn; lia|]. pose proof (Hw x ltac:(set_solver)) as Hx.
  destruct l as [|y l]; [cbn in *; lia|].
  change (join (String "," ws) (f <$> x :: y :: l)) with (f x ++ (String "," ws) ++ join (String "," ws) (f <$> y :: l)). rewrite !slength_app.
  specialize (IH ltac:(intros z Hz; apply Hw; set_solver)). cbn in *. lia.
Qed.

Lemma weight_bound j : jok j → (weight j ≤ 2 * String.length (dumps_with ws j))%nat.
Proof.
  intros H. induction H as [|[]|t Ht|s|l Hl IH|l Hl IH] using jok_nested_ind; try (cbn; lia).
  - destruct (num_text_start t Ht) as (c & s & -> & _). cbn. lia.
  - cbn [weight dumps_with]. rewrite Forall_forall in IH. pose proof (weight_join (dumps_with ws) weight l IH) as Hw.
    cbn [append String.length]. rewrite slength_app. cbn [String.length]. lia.
  - cbn [weight dumps_with]. rewrite Forall_forall in IH.
    assert (foldr (λ x n, S (weight x.2 + n)) 1%nat l ≤ 2 * String.length (join (String "," ws) (member <$> l)) + 2)%nat as Hw.
    { apply (weight_join member (λ p, weight p.2)). intros p Hp. specialize (IH p Hp). unfold member. rewrite slength_app. cbn [append String.length]. rewrite slength_app. lia. }
    cbn [append String.length]. rewrite slength_app. cbn [String.length].
    change (λ p : string * json, quote p.1 ++ String ":" (ws ++ dumps_with ws p.2)) with member. lia.
Qed.

Lemma loads_dumps_with j : jok j → loads (dumps_with ws j) = Some j.
Proof.
  intros H. unfold loads. pose proof (weight_bound j H) as Hw. pose proof (reads_all j H) as Hr.
  specialize (Hr (2 * String.length (dumps_with ws j) + 2)%nat "" ltac:(lia) I). rewrite sapp_nil_r in Hr.
  destruct (dumps_start j H) as (c & s & Hd & Hc & _). rewrite Hd in *. cbn [skip_ws]. rewrite Hc, Hr.
  assert (strip_prefix bom (String c s) = None) as ->; [|done].
  change bom with (String "239"%char (String "187"%char (String "191"%char ""))).
  destruct (Ascii.eqb_spec "239"%char c) as [<-|Hne]; [|by apply strip_ne, Ascii.eqb_neq]. exfalso.
  destruct H as [|[]|t Ht|u|l Hl|l Hl]; cbn in Hd; simplify_eq.
Qed.

(** [json.dumps] writes one line. *)
Lemma dumps_printable j : jok j → sforall printable (dumps_with ws j).
Proof.
  assert (∀ c, digit c → printable c) as Hdig.
  { intros c. unfold digit, is_digit, printable. rewrite andb_true_iff, !Nat.leb_le. lia. }
  assert (∀ c, c ∈ ["-"; "["; "]"; "{"; "}"; ","; ":"; "."]%char → printable c) as Hp.
  { intros c Hc. unfold printable. repeat (apply elem_of_cons in Hc as [->|Hc]; [vm_compute; lia|]). by apply not_elem_of_nil in Hc. }
  assert (sforall printable ws) as Hpw by (destruct Hws as [->| ->]; unfold printable; vm_compute; repeat constructor; lia).
  assert (∀ t, int_text t → sforall printable t) as Hint.
  { intros t (s & (c & d & -> & Hc & Hd & _) & Ht). apply Hdig in Hc. apply (sforall_impl _ _ d Hdig) in Hd.
    destruct Ht as [->| ->]; cbn; [done|]. split; [apply Hp; set_solver|done]. }
  intros H. induction H as [|[]|t Ht|s|l Hl IH|l Hl IH] using jok_nested_ind.
  1-3: unfold printable; vm_compute; repeat constructor; lia.
  - destruct Ht as [Ht|(i & x & y & Hi & Hx & Hy & ->)]; [by apply Hint|]. cbn [dumps_with]. apply sforall_app. split; [by apply Hint|].
    split; [apply Hp; set_solver|]. split; [by apply Hdig|by apply (sforall_impl _ _ y Hdig)].
  - apply quote_printable.
  - cbn [dumps_with append sforall]. rewrite sforall_app. split_and!; [apply Hp; set_solver| |split; [apply Hp; set_solver|done]].
    apply sforall_join; [split; [apply Hp; set_solver|done]|]. intros x (y & -> & Hy)%list_elem_of_fmap.
    rewrite Forall_forall in IH. auto.
  - cbn [dumps_with append sforall]. rewrite sforall_app. split_and!; [apply Hp; set_solver| |split; [apply Hp; set_solver|done]].
    apply sforall_join; [split; [apply Hp; set_solver|done]|]. intros x (y & -> & Hy)%list_elem_of_fmap.
    rewrite Forall_forall in IH. apply sforall_app. split; [apply quote_printable|]. split; [apply Hp; set_solver|]. apply sforall_app. auto.
Qed.
End separators.

(** Without spaces *)
Lemma loads_dumps j : jok j → loads (dumps j) = Some j.
Proof. apply loads_dumps_with. by left. Qed.
Lemma dumps_one_line j : jok j → sforall printable (dumps j).
Proof. apply dumps_printable. by left. Qed.
