(* ===== verification/Stream.v ===== *)
(** * Token streams (serving/stream.py and the event generators of the server)

    The engine's thread pushes tokens into a queue per request; a consumer, the
    event generator of a streaming response in entrypoints/openai/
    api_server_v2.py, takes them out through a Python generator that it advances
    in a worker thread with a time limit.  [push_token] holds the condition of
    the stream while it changes the queue, so it is one step; the worker thread
    blocks while the queue is empty. *)
From Stdlib Require Import Ascii String.
From S2P Require Import Prelude Json.
Local Open Scope string_scope.

(** ** Server-sent events *)
Definition nl2 : string := String newline (String newline "").
Definition format_sse_event (data : string) : string := "data: " ++ data ++ nl2.
Definition format_done_event : string := "data: [DONE]" ++ nl2.

(** [StreamChunk] and [json.dumps(asdict(chunk), ...)] *)
Record StreamChunk := mkChunk {
  chunk_id : string; chunk_model : string; chunk_created : Z; chunk_choices : list json; chunk_object : string
}.
Definition chunk_json (c : StreamChunk) : json :=
  JObj [("id", JStr (chunk_id c)); ("model", JStr (chunk_model c)); ("created", JNum (str_of_Z (chunk_created c)));
        ("choices", JArr (chunk_choices c)); ("object", JStr (chunk_object c))].

(** ** StreamManager *)
Record StreamState := mkStream {
  stream_id : string;
  stream_model : string;
  stream_created : Z;
  stream_queue : list string;
  stream_finished : bool
}.

(** The generators handed out by [create_stream]: suspended before their first
    instruction, suspended at a [yield], running in a thread, or exhausted.  A
    generator that ran keeps its reference to the state object. *)
Inductive gen_state := GenCreated | GenSuspended | GenExecuting | GenDone.

(** [_streams] maps the requests to their state objects; the objects themselves
    stay alive as long as a generator refers to them. *)
Record StreamManager := mkSM {
  registered : gset string;
  objects : gmap string StreamState;
  generators : gmap string gen_state
}.
Definition sm_init : StreamManager := mkSM ∅ ∅ ∅.

Definition json_opt (o : option string) : json := match o with Some s => JStr s | None => JNull end.

(** [format_completion_chunk]; [fresh_id] and [now] are used when the request
    has no stream. *)
Definition format_completion_chunk (rid token_text model : string) (finish_reason : option string)
    (fresh_id : string) (now : Z) (m : StreamManager) : string :=
  let state := if decide (rid ∈ registered m) then objects m !! rid else None in
  let sid := match state with Some st => stream_id st | None => fresh_id end in
  let created := match state with Some st => stream_created st | None => now end in
  let delta := if (String.length token_text =? 0)%nat then [] else [("content", JStr token_text)] in
  format_sse_event (dumps (chunk_json (mkChunk sid model created
    [JObj [("delta", JObj delta); ("index", JNum "0"); ("finish_reason", json_opt finish_reason)]]
    "chat.completion.chunk"))).

(** [create_stream] *)
Definition create_stream (rid model fresh_id : string) (now : Z) : M StreamManager unit :=
  m ← get;
  if decide (rid ∈ registered m) then raise ValueError
  else modify (λ m, mkSM ({[rid]} ∪ registered m)
                      (<[rid := mkStream fresh_id model now [] false]> (objects m))
                      (<[rid := GenCreated]> (generators m))).

(** [_require_stream] *)
Definition require_stream (rid : string) : M StreamManager StreamState :=
  m ← get;
  match (if decide (rid ∈ registered m) then objects m !! rid else None) with
  | Some st => mret st
  | None => raise KeyError
  end.

(** [push_token] *)
Definition push_token (rid token_text : string) (finished : bool) (finish_reason : option string)
    (fresh_id : string) (now : Z) : M StreamManager unit :=
  st ← require_stream rid;
  let reason := if finished && bool_decide (finish_reason = None) then Some "stop" else finish_reason in
  m ← get;
  let chunk := format_completion_chunk rid token_text (stream_model st) reason fresh_id now m in
  modify (λ m, mkSM (registered m)
    (alter (λ st, mkStream (stream_id st) (stream_model st) (stream_created st)
                    (stream_queue st ++ [chunk] ++ (if finished then [format_done_event] else []))
                    (stream_finished st || finished)) rid (objects m)) (generators m)).

(** One advance of the generator by a thread, [next(generator)].  [None] while the
    thread waits on the condition. *)
Inductive next_result := Event (e : string) | StopIteration | NextRaised (e : exn).
Definition set_gen (rid : string) (g : gen_state) m : StreamManager :=
  mkSM (registered m) (objects m) (<[rid := g]> (generators m)).
Definition close_gen (rid : string) m : StreamManager :=
  mkSM (registered m ∖ {[rid]}) (objects m) (<[rid := GenDone]> (generators m)).

(** The thread enters the generator.  Its first advance runs [_require_stream]. *)
Definition gen_enter (rid : string) (m : StreamManager) : option next_result * StreamManager :=
  match generators m !! rid with
  | Some GenExecuting => (Some (NextRaised ValueError), m)
  | Some GenCreated =>
      if decide (rid ∈ registered m) then (None, set_gen rid GenExecuting m)
      else (Some (NextRaised KeyError), mkSM (registered m) (objects m) (<[rid := GenDone]> (generators m)))
  | Some GenSuspended => (None, set_gen rid GenExecuting m)
  | Some GenDone | None => (Some StopIteration, m)
  end.

(** The loop of [_stream_generator] in the thread inside the generator. *)
Definition gen_run (rid : string) (m : StreamManager) : option (next_result * StreamManager) :=
  match generators m !! rid, objects m !! rid with
  | Some GenExecuting, Some st =>
      match stream_queue st with
      | e :: q =>
          Some (Event e, mkSM (registered m)
            (<[rid := mkStream (stream_id st) (stream_model st) (stream_created st) q (stream_finished st)]> (objects m))
            (<[rid := GenSuspended]> (generators m)))
      | [] => if stream_finished st then Some (StopIteration, close_gen rid m) else None
      end
  | _, _ => None
  end.

(** ** The event generators of the server *)

(** What the body of a completions stream makes of an event: a chunk with the
    text and the finish reason, nothing for an event it skips, or an exception
    where the payload has another shape. *)
Inductive completion_event := Forward (text : json) (finish_reason : option string) | ForwardDone | Skip | Crash.

(** [_make_completion_stream_chunk]: the resolved finish reason. *)
Definition resolve_finish_reason (r : json) : option string :=
  match r with JStr "stop" => Some "stop" | JStr "length" => Some "length" | _ => None end.

Definition completion_event_of (event : string) : completion_event :=
  if String.eqb event format_done_event then ForwardDone
  else
    match strip_prefix "data: " event with
    | None => Skip
    | Some data =>
        match loads (strip data) with
        | None => Skip
        | Some (JObj payload) =>
            match default (JArr []) (obj_get "choices" payload) with
            | JArr [] => Forward (JStr "") None
            | JArr (JObj first :: _) =>
                let text := match default (JObj []) (obj_get "delta" first) with
                            | JObj delta => default (JStr "") (obj_get "content" delta)
                            | _ => JStr ""
                            end in
                Forward text (resolve_finish_reason (default JNull (obj_get "finish_reason" first)))
            | _ => Crash
            end
        | Some _ => Crash
        end
    end.

(** ** Producer, worker threads and consumer

    [_chat_event_generator] and [_completion_event_generator] poll in the same
    way: check for a disconnect, advance the generator in a thread and wait 0.1
    seconds for it; a thread that is late keeps running. *)
Inductive consumer := CPolling | CWaiting | CReturned | CFailed (e : exn).
Record StreamSystem := mkSys {
  sys_manager : StreamManager;
  sys_consumer : consumer;
  sys_orphans : nat;             (** threads whose result nobody awaits *)
  sys_client : list string;      (** the events sent to the client *)
  sys_aborted : bool             (** [engine.abort_request] was called *)
}.

(** The queue of a stream. *)
Definition queue_of (rid : string) (m : StreamManager) : list string :=
  match objects m !! rid with Some st => stream_queue st | None => [] end.

(** A generator that is no longer referenced is closed: at a [yield] its
    [finally] clause runs; before its first instruction nothing runs. *)
Definition collect_gen (rid : string) (m : StreamManager) : option StreamManager :=
  match generators m !! rid with
  | Some GenSuspended => Some (close_gen rid m)
  | Some GenCreated => Some (set_gen rid GenDone m)
  | _ => None
  end.

(** What a step is to the observer: events pushed, a poll that timed out, or
    neither. *)
Inductive label := LPush (events : list string) | LTimeout | LTau.

Inductive stream_step (rid : string) : label → StreamSystem → StreamSystem → Prop :=
  | StepPush text fin reason uid now evs m m' c o cl ab :
      (** the producer pushes nothing after the token that finished the request: the
          scheduler has dropped the sequence then and no later step has an output for it *)
      (∀ st, objects m !! rid = Some st → stream_finished st = false) →
      push_token rid text fin reason uid now m = (Ok tt, m') →
      queue_of rid m' = (queue_of rid m ++ evs)%list →
      stream_step rid (LPush evs) (mkSys m c o cl ab) (mkSys m' c o cl ab)
  | StepDisconnected m o cl ab :
      stream_step rid LTau (mkSys m CPolling o cl ab) (mkSys m CReturned o cl true)
  | StepEnter m m' o cl ab :
      gen_enter rid m = (None, m') →
      stream_step rid LTau (mkSys m CPolling o cl ab) (mkSys m' CWaiting o cl ab)
  | StepEnterRaises m m' e o cl ab :
      gen_enter rid m = (Some (NextRaised e), m') →
      stream_step rid LTau (mkSys m CPolling o cl ab) (mkSys m' (CFailed e) o cl ab)
  | StepEnterStop m m' o cl ab :
      gen_enter rid m = (Some StopIteration, m') →
      stream_step rid LTau (mkSys m CPolling o cl ab) (mkSys m' CReturned o cl ab)
  | StepEvent m m' e o cl ab :
      gen_run rid m = Some (Event e, m') →
      stream_step rid LTau (mkSys m CWaiting o cl ab)
        (mkSys m' (if String.eqb e format_done_event then CReturned else CPolling) o (cl ++ [e])%list ab)
  | StepStop m m' o cl ab :
      gen_run rid m = Some (StopIteration, m') →
      stream_step rid LTau (mkSys m CWaiting o cl ab) (mkSys m' CReturned o cl ab)
  | StepTimeout m o cl ab :
      stream_step rid LTimeout (mkSys m CWaiting o cl ab) (mkSys m CPolling (S o) cl ab)
  | StepOrphan m m' r c o cl ab :
      c ≠ CWaiting → gen_run rid m = Some (r, m') →
      stream_step rid LTau (mkSys m c (S o) cl ab) (mkSys m' c o cl ab)
  | StepCollect m m' c o cl ab :
      c ≠ CPolling → c ≠ CWaiting → collect_gen rid m = Some m' →
      stream_step rid LTau (mkSys m c o cl ab) (mkSys m' c o cl ab).

Definition label_events (l : label) : list string := match l with LPush evs => evs | _ => [] end.

(** The runs of a stream from its creation: all events pushed so far, whether a
    poll timed out, and the state. *)
Inductive stream_run (rid : string) : list string → bool → StreamSystem → Prop :=
  | RunInit model uid now :
      stream_run rid [] false (mkSys (create_stream rid model uid now sm_init).2 CPolling 0 [] false)
  | RunStep log late s l s' :
      stream_run rid log late s → stream_step rid l s s' →
      stream_run rid (log ++ label_events l)%list
        (late || match l with LTimeout => true | _ => false end) s'.
