(* ===== verification/StreamProps.v ===== *)
(** * Properties of token streams

    Every event is one line of JSON that a client reads back unambiguously; a
    consumer whose polls never time out sends the client exactly what the engine
    pushed, in order; and a poll that times out breaks the stream. *)
From Stdlib Require Import Ascii String.
From S2P Require Import Prelude Json JsonProps Stream.
Local Open Scope string_scope.
#[local] Arguments String.append !_ _ : simpl nomatch.
#[local] Arguments format_done_event : simpl never.

(** ** The wire format *)
Definition chunk_of (uid model : string) (created : Z) (text : string) (reason : option string) : json :=
  chunk_json (mkChunk uid model created
    [JObj [("delta", JObj (if (String.length text =? 0)%nat then [] else [("content", JStr text)]));
           ("index", JNum "0"); ("finish_reason", json_opt reason)]] "chat.completion.chunk").

Lemma chunk_ok uid model created text reason : jok (chunk_of uid model created text reason).
Proof.
  assert (jok (JNum "0")) as H0 by (constructor; left; exists "0"; split; [|by left]; exists "0"%char, ""; by split_and!).
  assert (jok (JNum (str_of_Z created))) as H1 by (constructor; left; apply str_of_Z_int).
  unfold chunk_of, chunk_json, json_opt. cbn.
  destruct (String.length text =? 0)%nat, reason; repeat (done || constructor).
Qed.

(** Every chunk of a stream carries the stream's id and creation time. *)
Lemma format_chunk_registered rid text model reason uid now m st :
  rid ∈ registered m → objects m !! rid = Some st →
  format_completion_chunk rid text model reason uid now m =
    format_sse_event (dumps (chunk_of (stream_id st) model (stream_created st) text reason)).
Proof. intros Hr Ho. unfold format_completion_chunk, chunk_of. rewrite decide_True by done. by rewrite Ho. Qed.

Lemma rstrip_spaces a w : sforall (λ c, is_space c = true) w → rstrip (a ++ w) = rstrip a.
Proof.
  intros Hw. induction a as [|c a IH]; cbn.
  - induction w as [|c w IHw]; [done|]. destruct Hw as [Hc Hw]. cbn. by rewrite IHw, Hc.
  - by rewrite IH.
Qed.
Lemma strip_braced x : strip (("{" ++ x ++ "}") ++ nl2) = "{" ++ x ++ "}".
Proof.
  unfold strip. change (lstrip (("{" ++ x ++ "}") ++ nl2)) with (("{" ++ x ++ "}") ++ nl2).
  rewrite rstrip_spaces by done. rewrite <- sapp_assoc. by apply rstrip_last.
Qed.
Lemma strip_object l : strip (dumps (JObj l) ++ nl2) = dumps (JObj l).
Proof. apply strip_braced. Qed.

(** The completions stream recovers the text and the finish reason of a token. *)
Definition engine_reason (r : option string) : Prop := r = None ∨ r = Some "stop" ∨ r = Some "length".
Lemma completion_event_chunk uid model created text reason :
  engine_reason reason →
  completion_event_of (format_sse_event (dumps (chunk_of uid model created text reason))) = Forward (JStr text) reason.
Proof.
  intros Hr. unfold completion_event_of.
  assert (String.eqb (format_sse_event (dumps (chunk_of uid model created text reason))) format_done_event = false) as ->
    by (apply String.eqb_neq; discriminate).
  unfold format_sse_event. cbn [append strip_prefix Ascii.eqb Bool.eqb].
  pose proof (loads_dumps _ (chunk_ok uid model created text reason)) as Hl. unfold chunk_of, chunk_json in *.
  rewrite strip_object, Hl. cbn. destruct (Nat.eqb_spec (String.length text) 0) as [E|_].
  - destruct text; [|done]. cbn. f_equal. destruct Hr as [->|[->| ->]]; done.
  - cbn. f_equal. destruct Hr as [->|[->| ->]]; done.
Qed.

(** *** A reader of server-sent events: lines [data: payload], each followed by an
    empty line. *)
Fixpoint read_line (s : string) : option (string * string) :=
  match s with
  | "" => None
  | String c s' =>
      if Ascii.eqb c newline then Some ("", s')
      else match read_line s' with Some (l, r) => Some (String c l, r) | None => None end
  end.
Fixpoint read_events (fuel : nat) (s : string) : option (list string) :=
  match fuel, s with
  | _, "" => Some []
  | O, _ => None
  | S fuel', _ =>
      match read_line s with
      | Some (line, r) =>
          match strip_prefix "data: " line, read_line r with
          | Some payload, Some ("", r') =>
              match read_events fuel' r' with Some l => Some (payload :: l) | None => None end
          | _, _ => None
          end
      | None => None
      end
  end.

Lemma read_line_app l r : sforall printable l → read_line (l ++ String newline r) = Some (l, r).
Proof.
  induction l as [|c l IH]; cbn; [done|]. intros [Hc Hl]. destruct (Ascii.eqb_spec c newline) as [->|_].
  - unfold printable in Hc. vm_compute in Hc. lia.
  - by rewrite IH.
Qed.

Lemma read_events_concat payloads fuel :
  Forall (sforall printable) payloads → (length payloads ≤ fuel)%nat →
  read_events fuel (foldr append "" (format_sse_event <$> payloads)) = Some payloads.
Proof.
  intros Hp. revert fuel. induction Hp as [|p payloads Hp _ IH]; intros fuel Hf; [by destruct fuel|].
  destruct fuel as [|fuel]; cbn in Hf; [lia|]. cbn [fmap list_fmap foldr]. unfold format_sse_event at 1, nl2.
  rewrite !sapp_assoc.
  assert (read_line ("data: " ++ p ++ String newline (String newline "") ++ foldr append "" (format_sse_event <$> payloads))
          = Some ("data: " ++ p, String newline (foldr append "" (format_sse_event <$> payloads)))) as Hl.
  { rewrite <- (read_line_app ("data: " ++ p)); [by rewrite sapp_assoc|]. apply sforall_app. split; [|done].
    unfold printable. vm_compute. repeat split; lia. }
  cbn [append] in Hl |- *. cbn [read_events]. rewrite Hl. cbn [strip_prefix Ascii.eqb Bool.eqb read_line].
  change (Ascii.eqb newline newline) with true. cbn iota. rewrite IH by lia. done.
Qed.

(** C15: the wire format of a stream is unambiguous.  Whatever characters the
    token texts contain (quotes, backslashes, line breaks, control characters),
    every chunk is a single line of JSON: a reader that splits the bytes of the
    response at blank lines finds one payload per token and the final [[DONE]],
    each payload parses to the chunk that was formatted, and the completions
    endpoint, which re-reads the chunks of the chat format, forwards the same
    text and finish reason for every token. *)
Theorem stream_roundtrip rid uid now m st (tokens : list (string * option string)) :
  rid ∈ registered m → objects m !! rid = Some st → Forall (λ p, engine_reason p.2) tokens →
  let chunk p := format_completion_chunk rid p.1 (stream_model st) p.2 uid now m in
  let payloads := (λ p, dumps (chunk_of (stream_id st) (stream_model st) (stream_created st) p.1 p.2)) <$> tokens in
  read_events (S (length tokens)) (foldr append "" ((chunk <$> tokens) ++ [format_done_event])) = Some (payloads ++ ["[DONE]"])%list ∧
  Forall2 (λ pl p, loads pl = Some (chunk_of (stream_id st) (stream_model st) (stream_created st) p.1 p.2)) payloads tokens ∧
  completion_event_of <$> ((chunk <$> tokens) ++ [format_done_event])%list =
    (((λ p, Forward (JStr p.1) p.2) <$> tokens) ++ [ForwardDone])%list.
Proof.
  intros Hr Ho Ht chunk payloads.
  assert (chunk <$> tokens = format_sse_event <$> payloads) as Hc.
  { unfold payloads. rewrite <- list_fmap_compose. apply list_fmap_ext. intros i p _. exact (format_chunk_registered _ _ _ _ uid now _ _ Hr Ho). }
  split_and!.
  - rewrite Hc. change [format_done_event] with (format_sse_event <$> ["[DONE]"]). rewrite <- fmap_app.
    apply read_events_concat.
    + apply Forall_app. split; [|apply Forall_singleton; unfold printable; vm_compute; repeat split; lia].
      apply Forall_fmap, Forall_forall. intros p _. apply dumps_one_line, chunk_ok.
    + rewrite length_app. unfold payloads. rewrite length_fmap. cbn. lia.
  - unfold payloads. apply Forall2_fmap_l, Forall_Forall2_diag, Forall_forall. intros p _. apply loads_dumps, chunk_ok.
  - rewrite fmap_app. f_equal. rewrite <- list_fmap_compose. apply list_fmap_ext. intros i p Hp.
    transitivity (completion_event_of (format_sse_event (dumps (chunk_of (stream_id st) (stream_model st) (stream_created st) p.1 p.2)))).
    + unfold compose. f_equal. exact (format_chunk_registered _ _ _ _ uid now _ _ Hr Ho).
    + apply completion_event_chunk. exact (proj1 (Forall_lookup _ _) Ht i p Hp).
Qed.

Lemma stream_roundtrip_witness :
  let m := (create_stream "r" "m" "id" 7 sm_init).2 in
  let text := String dquote (String newline "\") in
  completion_event_of (format_completion_chunk "r" text "m" (Some "stop") "" 0 m) = Forward (JStr text) (Some "stop").
Proof.
  intros m text.
  destruct (stream_roundtrip "r" "" 0 m (mkStream "id" "m" 7 [] false) [(text, Some "stop")]) as (_ & _ & H).
  - apply (bool_decide_unpack _). vm_compute. exact I.
  - reflexivity.
  - apply Forall_singleton. right. by left.
  - exact (f_equal (λ l, default Skip (head l)) H).
Defined.

(** ** Delivery *)
Lemma chunk_not_done rid text model reason uid now m : format_completion_chunk rid text model reason uid now m ≠ format_done_event.
Proof. unfold format_completion_chunk, format_sse_event, format_done_event. discriminate. Qed.

(** A successful push appends a chunk, and the final event with the last one. *)
Lemma push_token_ok rid text fin reason uid now m m' :
  push_token rid text fin reason uid now m = (Ok tt, m') →
  ∃ st chunk, rid ∈ registered m ∧ objects m !! rid = Some st ∧ chunk ≠ format_done_event ∧
    registered m' = registered m ∧ generators m' = generators m ∧
    objects m' !! rid = Some (mkStream (stream_id st) (stream_model st) (stream_created st)
      (stream_queue st ++ chunk :: if fin then [format_done_event] else []) (stream_finished st || fin)).
Proof.
  unfold push_token, require_stream. munfold. intros H. case_decide as Hr; [|done].
  destruct (objects m !! rid) as [st|] eqn:Ho; [|done]. cbn in H.
  match type of H with (_, mkSM _ (alter (λ _, mkStream _ _ _ (_ ++ ?c :: _) _) _ _) _) = _ => exists st, c end.
  injection H as <-. cbn. rewrite lookup_alter_eq, Ho. by split_and!.
Qed.

Record delivering (rid : string) (log : list string) (s : StreamSystem) (st : StreamState) : Prop := {
  dl_object : objects (sys_manager s) !! rid = Some st;
  dl_log : log = (sys_client s ++ stream_queue st)%list;
  dl_orphans : sys_orphans s = 0%nat;
  dl_open : stream_finished st = false → format_done_event ∉ log;
  dl_closed : stream_finished st = true → ∃ pre, log = (pre ++ [format_done_event])%list ∧ format_done_event ∉ pre;
  dl_consumer :
    match sys_consumer s with
    | CPolling => rid ∈ registered (sys_manager s) ∧ (format_done_event ∉ sys_client s) ∧
        (generators (sys_manager s) !! rid = Some GenCreated ∨ generators (sys_manager s) !! rid = Some GenSuspended)
    | CWaiting => rid ∈ registered (sys_manager s) ∧ (format_done_event ∉ sys_client s) ∧
        generators (sys_manager s) !! rid = Some GenExecuting
    | CReturned => sys_aborted s = true ∨ (stream_finished st = true ∧ stream_queue st = [])
    | CFailed _ => False
    end
}.

Lemma delivering_push rid log m c o cl ab st evs m' text fin reason uid now :
  delivering rid log (mkSys m c o cl ab) st → stream_finished st = false →
  push_token rid text fin reason uid now m = (Ok tt, m') → queue_of rid m' = (queue_of rid m ++ evs)%list →
  ∃ st', delivering rid (log ++ evs) (mkSys m' c o cl ab) st'.
Proof.
  intros [H1 H2 H3 H4 H5 H6] Hfin Hp Hq. destruct (push_token_ok _ _ _ _ _ _ _ _ Hp) as (st0 & chunk & Hr & Ho & Hc & Hrg & Hg & Ho').
  cbn in *. rewrite H1 in Ho. injection Ho as <-. unfold queue_of in Hq. rewrite Ho', H1 in Hq. cbn in Hq.
  apply app_inv_head in Hq as <-. eexists. rewrite Hfin in *. cbn in Ho'. specialize (H4 eq_refl).
  split; [exact Ho'|..]; cbn; [|done| | |].
  - by rewrite H2, <- app_assoc.
  - intros ->. rewrite elem_of_app, list_elem_of_singleton. naive_solver.
  - intros ->. exists (log ++ [chunk])%list. rewrite <- app_assoc. split; [done|].
    rewrite elem_of_app, list_elem_of_singleton. naive_solver.
  - rewrite Hrg, Hg. destruct c; [done|done| |done]. destruct H6 as [?|[Hf _]]; [by left|]. congruence.
Qed.

Lemma delivering_event rid log m o cl ab st e q m' :
  delivering rid log (mkSys m CWaiting o cl ab) st → stream_queue st = e :: q →
  gen_run rid m = Some (Event e, m') →
  ∃ st', delivering rid log (mkSys m' (if String.eqb e format_done_event then CReturned else CPolling) o (cl ++ [e])%list ab) st'.
Proof.
  intros [H1 H2 H3 H4 H5 (Hr & Hcl & Hg)] Hq Hrun. cbn in *. unfold gen_run in Hrun. rewrite Hg, H1, Hq in Hrun.
  injection Hrun as <-. eexists. split; cbn; [by rewrite lookup_insert_eq| |done|exact H4|exact H5|].
  - by rewrite H2, Hq, <- app_assoc.
  - destruct (String.eqb_spec e format_done_event) as [->|He].
    + right. destruct (stream_finished st) eqn:Hf.
      * split; [done|]. destruct (H5 eq_refl) as (pre & Hl & Hpre). rewrite H2, Hq in Hl.
        destruct q as [|x q _] using rev_ind; [done|]. rewrite app_comm_cons, app_assoc in Hl.
        apply app_inj_tail in Hl as [Hl _]. exfalso. apply Hpre. rewrite <- Hl. set_solver.
      * exfalso. apply (H4 eq_refl). rewrite H2, Hq. set_solver.
    + split_and!; [done| |right; by rewrite lookup_insert_eq].
      rewrite elem_of_app, list_elem_of_singleton. naive_solver.
Qed.

Lemma delivering_step rid log s l s' st :
  delivering rid log s st → stream_step rid l s s' → l ≠ LTimeout →
  ∃ st', delivering rid (log ++ label_events l)%list s' st'.
Proof.
  intros Hd Hs Hl. destruct Hs as [text fin reason uid now evs m m' c o cl ab Hopen Hp Hq
    |m o cl ab|m m' o cl ab He|m m' e o cl ab He|m m' o cl ab He|m m' e o cl ab Hrun|m m' o cl ab Hrun|m o cl ab
    |m m' r c o cl ab _ _|m m' c o cl ab Hc1 Hc2 Hcol]; try done; cbn [label_events]; rewrite ?app_nil_r.
  - eapply delivering_push; eauto. apply Hopen. by destruct Hd.
  - exists st. destruct Hd. split; try done. by left.
  - destruct Hd as [H1 H2 H3 H4 H5 (Hr & Hcl & Hg)]. exists st. unfold gen_enter in He. cbn in *.
    destruct Hg as [Hg|Hg]; rewrite Hg in He; [rewrite decide_True in He by done|];
      injection He as <-; (split; try done; cbn; split_and!; [done|done|by rewrite lookup_insert_eq]).
  - destruct Hd as [_ _ _ _ _ (Hr & _ & Hg)]. unfold gen_enter in He. cbn in *.
    destruct Hg as [Hg|Hg]; rewrite Hg in He; [rewrite decide_True in He by done|]; done.
  - destruct Hd as [_ _ _ _ _ (Hr & _ & Hg)]. unfold gen_enter in He. cbn in *.
    destruct Hg as [Hg|Hg]; rewrite Hg in He; [rewrite decide_True in He by done|]; done.
  - pose proof Hd as [H1 _ _ _ _ (_ & _ & Hg)]. cbn in *. pose proof Hrun as Hrun'.
    unfold gen_run in Hrun'. rewrite Hg, H1 in Hrun'. destruct (stream_queue st) as [|e' q] eqn:Hq;
      [by destruct (stream_finished st)|]. injection Hrun' as -> _. by eapply delivering_event.
  - destruct Hd as [H1 H2 H3 H4 H5 (Hr & Hcl & Hg)]. cbn in *. unfold gen_run in Hrun. rewrite Hg, H1 in Hrun.
    destruct (stream_queue st) as [|] eqn:Hq; [|done]. destruct (stream_finished st) eqn:Hf; [|done].
    exfalso. destruct (H5 eq_refl) as (pre & Hl' & _). rewrite app_nil_r in H2. set_solver.
  - destruct Hd as [_ _ Ho _ _ _]. done.
  - destruct Hd as [H1 H2 H3 H4 H5 H6]. exists st. cbn in *. unfold collect_gen in Hcol.
    assert (objects m' = objects m) as Heq by (repeat case_match; simplify_eq; done).
    destruct c; try done. split; cbn; try done. by rewrite Heq.
Qed.

Lemma run_delivering rid log s : stream_run rid log false s → ∃ st, delivering rid log s st.
Proof.
  intros Hrun. remember false as late eqn:Hlate. induction Hrun as [model uid now|log late s l s' Hrun IH Hs].
  - eexists. unfold create_stream. munfold. rewrite decide_False by (cbn; set_solver). cbn.
    split; cbn; [by rewrite lookup_insert_eq|done|done|set_solver|done|].
    split_and!; [set_solver|set_solver|]. left. by rewrite lookup_insert_eq.
  - apply orb_false_iff in Hlate as [-> Hl]. destruct (IH eq_refl) as [st Hd].
    eapply delivering_step; eauto. by intros ->.
Qed.

(** The consumer alone delivers what is queued once the stream is finished. *)
Lemma drain rid log s st :
  delivering rid log s st → stream_finished st = true → sys_consumer s = CPolling ∨ sys_consumer s = CWaiting →
  ∃ s', rtc (stream_step rid LTau) s s' ∧ sys_consumer s' = CReturned ∧ sys_client s' = log ∧ sys_aborted s' = sys_aborted s.
Proof.
  intros Hd Hf Hc. assert (∃ q, stream_queue st = q) as [q Hq] by eauto.
  revert s st Hd Hf Hc Hq. induction q as [|e q IH]; intros s st Hd Hf Hc Hq.
  - exfalso. destruct Hd as [H1 H2 H3 H4 H5 H6]. destruct (H5 Hf) as (pre & Hl & _). rewrite Hq, app_nil_r in H2.
    assert (format_done_event ∉ sys_client s) as Hn by (by destruct Hc as [Hc|Hc]; rewrite Hc in H6; destruct H6 as (_ & ? & _)).
    apply Hn. rewrite <- H2, Hl, elem_of_app, list_elem_of_singleton. by right.
  - assert (∃ s1 st1, rtc (stream_step rid LTau) s s1 ∧ delivering rid log s1 st1 ∧ stream_finished st1 = true ∧
              sys_consumer s1 = CWaiting ∧ stream_queue st1 = e :: q ∧ sys_aborted s1 = sys_aborted s)
      as (s1 & st1 & Hs1 & Hd1 & Hf1 & Hc1 & Hq1 & Hab).
    { destruct Hc as [Hc|Hc]; [|exists s, st; by split_and!]. destruct s as [m c o cl ab]. cbn in Hc. subst c.
      pose proof Hd as [_ _ _ _ _ (Hr & _ & Hg)]. cbn in Hr, Hg.
      assert (∃ m', gen_enter rid m = (None, m') ∧ objects m' = objects m) as (m' & He & Ho).
      { unfold gen_enter. destruct Hg as [Hg|Hg]; rewrite Hg; [rewrite decide_True by done|]; eexists; by split. }
      pose proof (StepEnter rid m m' o cl ab He) as Hstep.
      destruct (delivering_step _ _ _ _ _ _ Hd Hstep) as [st1 Hd1]; [done|]. cbn in Hd1. rewrite app_nil_r in Hd1.
      assert (st1 = st) as ->. { pose proof (dl_object _ _ _ _ Hd1) as E. pose proof (dl_object _ _ _ _ Hd) as E'. cbn in *. congruence. }
      eexists _, st. split_and!; [by apply rtc_once|done..]. }
    destruct s1 as [m c o cl ab]. cbn in Hc1, Hab. subst c. pose proof Hd1 as [H1 H2 _ _ H5 (_ & _ & Hg)]. cbn in H1, H2, Hg.
    assert (∃ m', gen_run rid m = Some (Event e, m') ∧ objects m' !! rid = Some (mkStream (stream_id st1) (stream_model st1) (stream_created st1) q (stream_finished st1)))
      as (m' & Hrun & Hm').
    { unfold gen_run. rewrite Hg, H1, Hq1. eexists. split; [done|]. cbn. by rewrite lookup_insert_eq. }
    pose proof (StepEvent rid m m' e o cl ab Hrun) as Hstep.
    destruct (delivering_event _ _ _ _ _ _ _ _ _ _ Hd1 Hq1 Hrun) as [st2 Hd2].
    assert (st2 = mkStream (stream_id st1) (stream_model st1) (stream_created st1) q (stream_finished st1)) as ->
      by (pose proof (dl_object _ _ _ _ Hd2) as E; cbn in E; congruence).
    destruct (String.eqb_spec e format_done_event) as [->|He].
    + eexists. split; [eapply rtc_r; [exact Hs1|exact Hstep]|]. cbn. split_and!; [done| |done].
      pose proof (dl_consumer _ _ _ _ Hd2) as Hcons. pose proof (dl_log _ _ _ _ Hd2) as Hlog. cbn in Hcons, Hlog.
      destruct (H5 Hf1) as (pre & Hl & Hpre). rewrite Hl in H2. rewrite Hq1 in H2.
      destruct q as [|x q _] using rev_ind; [by rewrite Hlog, app_nil_r|].
      rewrite app_comm_cons, app_assoc in H2. apply app_inj_tail in H2 as [H2 _]. exfalso. apply Hpre. rewrite H2. set_solver.
    + destruct (IH _ _ Hd2) as (s' & Hs' & Hres); [exact Hf1|by left|done|].
      exists s'. split; [|by rewrite <- Hab]. etransitivity; [exact Hs1|]. eapply rtc_l; [exact Hstep|exact Hs'].
Qed.

(** C14: as long as no poll times out, a streaming response sends the client
    exactly what the engine pushed, in order and once: under any interleaving of
    the producer, the worker threads and the consumer, the events sent are the
    pushed ones up to those still queued; the consumer never fails; if it
    returned without a disconnect, everything was sent and the last event is
    [[DONE]]; and once the producer finished the stream, the consumer's own steps
    bring it there. *)
Theorem stream_delivers_in_order rid log s :
  stream_run rid log false s →
  (∃ queued, log = (sys_client s ++ queued)%list) ∧
  (∀ e, sys_consumer s ≠ CFailed e) ∧
  (sys_consumer s = CReturned → sys_aborted s = false →
     sys_client s = log ∧ ∃ pre, log = (pre ++ [format_done_event])%list ∧ format_done_event ∉ pre) ∧
  (format_done_event ∈ log → sys_consumer s = CPolling ∨ sys_consumer s = CWaiting →
     ∃ s', rtc (stream_step rid LTau) s s' ∧ sys_consumer s' = CReturned ∧ sys_client s' = log ∧ sys_aborted s' = sys_aborted s).
Proof.
  intros Hrun. destruct (run_delivering rid log s Hrun) as [st Hd]. split_and!.
  - exists (stream_queue st). by destruct Hd.
  - intros e He. destruct Hd as [_ _ _ _ _ H6]. by rewrite He in H6.
  - intros Hc Hab. destruct Hd as [_ H2 _ _ H5 H6]. rewrite Hc in H6. destruct H6 as [?|[Hf Hq]]; [congruence|].
    split; [by rewrite H2, Hq, app_nil_r|auto].
  - intros Hdone Hc. eapply drain; [exact Hd| |done]. destruct Hd as [_ _ _ H4 _ _].
    destruct (stream_finished st); [done|]. by destruct (H4 eq_refl).
Qed.

(** A run on one token: push it as the last one, poll, take both events. *)
Lemma stream_delivers_in_order_witness :
  ∃ log s, stream_run "r" log false s ∧ length log = 2%nat ∧ sys_client s = log ∧ sys_consumer s = CReturned.
Proof.
  pose (m0 := (create_stream "r" "m" "id" 7 sm_init).2).
  pose (m1 := (push_token "r" "hi" true None "" 0 m0).2).
  pose (evs := queue_of "r" m1).
  assert (stream_run "r" ([] ++ evs) (false || false) (mkSys m1 CPolling 0 [] false)) as Hrun.
  { eapply (RunStep "r" [] false _ (LPush evs)); [apply (RunInit "r" "m" "id" 7)|].
    eapply (StepPush "r" "hi" true None "" 0); [|reflexivity|reflexivity].
    intros st [= <-]. reflexivity. }
  destruct (stream_delivers_in_order "r" evs (mkSys m1 CPolling 0 [] false) Hrun) as (_ & _ & _ & H).
  destruct H as (s' & Hs' & Hc & Hcl & _); [vm_compute; right; left|by left|].
  exists evs, s'. split_and!; [|reflexivity|exact Hcl|exact Hc].
  clear Hc Hcl. change (stream_run "r" evs false (mkSys m1 CPolling 0 [] false)) in Hrun.
  induction Hs' as [|x y z Hxy _ IH]; [exact Hrun|]. apply IH.
  rewrite <- (app_nil_r evs). exact (RunStep "r" evs false x LTau y Hrun Hxy).
Defined.

(** The late thread takes the next token and drops it. *)
Lemma orphan_takes_token rid text reason uid now m st :
  rid ∈ registered m → objects m !! rid = Some st → stream_queue st = [] → stream_finished st = false →
  generators m !! rid = Some GenExecuting →
  ∃ chunk m1 m2, push_token rid text false reason uid now m = (Ok tt, m1) ∧
    queue_of rid m1 = [chunk] ∧ gen_run rid m1 = Some (Event chunk, m2) ∧ queue_of rid m2 = [] ∧
    generators m2 !! rid = Some GenSuspended ∧
    (∀ c cl ab, c ≠ CWaiting →
       rtc (λ s s', ∃ l, stream_step rid l s s') (mkSys m c 1 cl ab) (mkSys m2 c 0 cl ab)).
Proof.
  intros Hr Ho Hq Hf Hg.
  assert (∃ m1, push_token rid text false reason uid now m = (Ok tt, m1)) as [m1 Hp].
  { unfold push_token, require_stream. munfold. rewrite decide_True, Ho by done. cbn. eauto. }
  destruct (push_token_ok _ _ _ _ _ _ _ _ Hp) as (st0 & chunk & _ & Ho0 & _ & _ & Hg1 & Ho1).
  rewrite Ho in Ho0. injection Ho0 as <-. rewrite Hq, Hf in Ho1. cbn in Ho1.
  assert (queue_of rid m1 = [chunk]) as Hq1 by (unfold queue_of; by rewrite Ho1).
  assert (∃ m2, gen_run rid m1 = Some (Event chunk, m2) ∧ queue_of rid m2 = [] ∧ generators m2 !! rid = Some GenSuspended)
    as (m2 & Hrun & Hq2 & Hg2).
  { unfold gen_run. rewrite Hg1, Hg, Ho1. cbn. eexists. split; [done|]. unfold queue_of. cbn. by rewrite !lookup_insert_eq. }
  exists chunk, m1, m2. split_and!; try done. intros c cl ab Hc.
  eapply rtc_l; [|apply rtc_once; exists LTau; by eapply StepOrphan].
  exists (LPush [chunk]). eapply StepPush; [|exact Hp|].
  - intros st0 Hst0. congruence.
  - rewrite Hq1. unfold queue_of. by rewrite Ho, Hq.
Qed.

(** A poll that times out breaks the stream.  When the consumer waits and no
    token is queued, then after the time-out (1) polling again fails with
    [ValueError], since the late thread still executes the generator: the
    response ends with an error; (2) instead, a token pushed first goes to the
    late thread, which drops it: the client never gets it; and (3) once the
    response failed so, the late thread takes the next token, the generator is
    closed and the stream unregistered, and the token after that makes
    [push_token] raise [KeyError] in the engine's thread. *)
Theorem poll_timeout_breaks_stream rid log m cl ab st text text' reason uid now :
  stream_run rid log false (mkSys m CWaiting 0 cl ab) →
  objects m !! rid = Some st → stream_queue st = [] → stream_finished st = false →
  let late := mkSys m CPolling 1 cl ab in
  stream_step rid LTimeout (mkSys m CWaiting 0 cl ab) late ∧
  (** 1 *)
  gen_enter rid m = (Some (NextRaised ValueError), m) ∧
  (∀ l s', stream_step rid l late s' → sys_consumer s' ≠ CWaiting ∧
     (sys_consumer s' = CPolling → sys_client s' = cl)) ∧
  (** 2 *)
  (∃ chunk m1 m2, push_token rid text false reason uid now m = (Ok tt, m1) ∧
     rtc (λ s s', ∃ l, stream_step rid l s s') late (mkSys m2 CPolling 0 cl ab) ∧
     queue_of rid m1 = [chunk] ∧ queue_of rid m2 = []) ∧
  (** 3 *)
  (∃ m3, rtc (λ s s', ∃ l, stream_step rid l s s') late (mkSys m3 (CFailed ValueError) 0 cl ab) ∧
     (push_token rid text' false reason uid now m3).1 = Err KeyError).
Proof.
  intros Hrun Ho Hq Hf late. destruct (run_delivering _ _ _ Hrun) as [st' Hd].
  destruct Hd as [_ _ _ _ _ (Hr & _ & Hg)]. cbn in Hr, Hg.
  assert (gen_enter rid m = (Some (NextRaised ValueError), m)) as He by (unfold gen_enter; by rewrite Hg).
  destruct (orphan_takes_token rid text reason uid now m st Hr Ho Hq Hf Hg) as (chunk & m1 & m2 & Hp & Hq1 & _ & Hq2 & Hg2 & Hto).
  split_and!; [by apply StepTimeout|done| |by exists chunk, m1, m2; split_and!; try done; apply Hto|].
  - intros l s' Hs. inversion Hs; subst; cbn; try (split; [done|by intros _]); try congruence; try done.
  - exists (close_gen rid m2). split.
    + eapply rtc_l; [exists LTau; apply StepEnterRaises; exact He|]. eapply rtc_r; [by apply Hto|].
      exists LTau. apply StepCollect; [done|done|]. unfold collect_gen. by rewrite Hg2.
    + unfold push_token, require_stream, close_gen. munfold. cbn. rewrite decide_False by set_solver. done.
Qed.

Lemma poll_timeout_breaks_stream_witness :
  let m := set_gen "r" GenExecuting (create_stream "r" "m" "id" 7 sm_init).2 in
  stream_step "r" LTimeout (mkSys m CWaiting 0 [] false) (mkSys m CPolling 1 [] false) ∧
  gen_enter "r" m = (Some (NextRaised ValueError), m).
Proof.
  intros m.
  destruct (poll_timeout_breaks_stream "r" [] m [] false (mkStream "id" "m" 7 [] false) "a" "b" None "" 0) as (H1 & H2 & _).
  - change (stream_run "r" ([] ++ label_events LTau) (false || false) (mkSys m CWaiting 0 [] false)).
    eapply RunStep; [apply (RunInit "r" "m" "id" 7)|]. apply StepEnter. reflexivity.
  - reflexivity.
  - reflexivity.
  - reflexivity.
  - split; [exact H1|exact H2].
Defined.
