(* ===== verification/Recording.v ===== *)
(** * Files of JSON lines
    (serving/incremental_writer.py, profiling/io_profiler.py)

    [IncrementalWriter] appends a line per finished sequence, from which a later run learns
    what is done.  [IOProfiler] collects the durations of operations in memory and appends
    them to a file.  A file is its text. *)
From Stdlib Require Import String Ascii QArith.
From S2P Require Import Prelude Json JsonProps.
Local Open Scope string_scope.
#[local] Arguments String.append !_ _ : simpl nomatch.

(** ** Lines *)
(** [for raw in handle]: the last line may lack its newline; the newline itself, which
    [strip] removes, is left out. *)
Fixpoint lines_from (acc : string) (s : string) : list string :=
  match s with
  | "" => match acc with "" => [] | _ => [acc] end
  | String c s' => if Ascii.eqb c newline then acc :: lines_from "" s' else lines_from (acc ++ String c "") s'
  end.
Definition lines (s : string) : list string := lines_from "" s.
(** ** IncrementalWriter *)
Module Writer.
Record IncrementalWriter := { file : string; closed : bool }.
(** [open(path, "a")] *)
Definition open_append (contents : string) : IncrementalWriter := {| file := contents; closed := false |}.
Record saved := { sv_seq_id : string; sv_tokens : list Z; sv_metadata : list (string * json); sv_timestamp : string }.
Definition record_of (r : saved) : json :=
  JObj [("seq_id", JStr (sv_seq_id r)); ("output_tokens", JArr ((λ z, JNum (str_of_Z z)) <$> sv_tokens r));
        ("metadata", JObj (sv_metadata r)); ("timestamp", JNum (sv_timestamp r))].
Definition line_of (r : saved) : string := dumps_with " " (record_of r).
(** [save]: writing to a closed file raises [ValueError]. *)
Definition save (r : saved) : M IncrementalWriter unit :=
  w ← get;
  if closed w then raise ValueError
  else modify (λ w, {| file := file w ++ line_of r ++ String newline ""; closed := closed w |}).
Definition close : M IncrementalWriter unit := modify (λ w, {| file := file w; closed := true |}).

Fixpoint completed_of (raws : list string) (completed : gset string) : res (gset string) :=
  match raws with
  | [] => Ok completed
  | raw :: raws =>
      match strip raw with
      | "" => completed_of raws completed
      | line =>
          match loads line with
          | None => Err ValueError                   (** [JSONDecodeError] *)
          | Some (JObj obj) =>
              match obj_get "seq_id" obj with
              | Some (JStr seq_id) => completed_of raws ({[seq_id]} ∪ completed)
              | _ => completed_of raws completed
              end
          | Some _ => Err AttributeError             (** [obj.get] *)
          end
      end
  end.
(** [load_completed]; no file is an empty set. *)
Definition load_completed (contents : option string) : res (gset string) :=
  match contents with Some s => completed_of (lines s) ∅ | None => Ok ∅ end.
End Writer.

(** ** IOProfiler *)
Module Profiler.
Record event := { ts_ns : Z; ev_stage : string; ev_layer : option Z; ev_expert : option Z; dur_ns : Z; ev_bytes : Z }.
Record IOProfiler := {
  pid : Z;
  enabled : bool;
  out_path : option string;
  sample : Q;
  events : list event;
  written : string }.        (** the text appended to the file at [out_path] *)
(** [_parse_sample]; [raw] is [float] of the environment variable, [None] when that raises *)
Definition parse_sample (raw : option Q) : Q :=
  match raw with
  | None => 1
  | Some s => if negb (Qle_bool 0 s) then 0%Q else if negb (Qle_bool s 1) then 1%Q else s
  end.
Definition new_profiler (current_pid : Z) (profile_io : string) (path : option string) (raw : option Q) : IOProfiler :=
  {| pid := current_pid; enabled := String.eqb profile_io "1"; out_path := path; sample := parse_sample raw; events := []; written := "" |}.
(** [instance()]: after a fork the process gets one of its own. *)
Definition instance (current_pid : Z) (fresh : IOProfiler) (current : option IOProfiler) : IOProfiler :=
  match current with
  | Some p => if Z.eqb (pid p) current_pid then p else fresh
  | None => fresh
  end.
Definition set_events (l : list event) (p : IOProfiler) : IOProfiler :=
  {| pid := pid p; enabled := enabled p; out_path := out_path p; sample := sample p; events := l; written := written p |}.
Definition emit_event (e : event) : M IOProfiler unit := modify (λ p, set_events (events p ++ [e]) p).
(** [time]: whether the operation is timed; [random] is what [random.random()] returns *)
Definition timed (random : Q) (p : IOProfiler) : bool :=
  enabled p && negb (Qle_bool (sample p) 0) && negb (negb (Qle_bool 1 (sample p)) && Qle_bool (sample p) random).
(** [with _TimingContext(stage, ...)] around an operation: the event is recorded on leaving,
    also when the operation raised.  The clock gives the time of day on entering, and the
    counter on entering and on leaving. *)
Definition timing {A} (stage : string) (layer expert : option Z) (bytes : Z) (ts start stop : Z) (body : M IOProfiler A) : M IOProfiler A := λ p,
  let '(r, p) := body p in
  (r, (emit_event {| ts_ns := ts; ev_stage := stage; ev_layer := layer; ev_expert := expert; dur_ns := (stop - start)%Z; ev_bytes := bytes |} p).2).
(** [trace]: the decorated function *)
Definition trace {A} (random : Q) (stage : string) (layer expert : option Z) (bytes : Z) (ts start stop : Z)
    (body : M IOProfiler A) : M IOProfiler A := λ p,
  if timed random p then timing stage layer expert bytes ts start stop body p else body p.
Definition optional (z : option Z) : json := match z with Some z => JNum (str_of_Z z) | None => JNull end.
Definition event_json (e : event) : json :=
  JObj [("ts_ns", JNum (str_of_Z (ts_ns e))); ("stage", JStr (ev_stage e)); ("layer", optional (ev_layer e)); ("expert", optional (ev_expert e));
        ("dur_ns", JNum (str_of_Z (dur_ns e))); ("bytes", JNum (str_of_Z (ev_bytes e)))].
Definition event_lines (l : list event) : string := String.concat "" ((λ e, dumps_with " " (event_json e) ++ String newline "") <$> l).
(** [flush]; [opens] is whether the file can be opened.  The events have left the memory by then. *)
Definition flush (opens : bool) : M IOProfiler unit :=
  p ← get;
  match out_path p, events p with
  | None, _ | Some "", _ | _, [] => mret tt
  | Some _, l =>
      modify (set_events []);;
      if opens
      then modify (λ p, {| pid := pid p; enabled := enabled p; out_path := out_path p; sample := sample p; events := events p;
                           written := written p ++ event_lines l |})
      else raise RuntimeError           (** [OSError] *)
  end.
Definition reset : M IOProfiler unit := modify (set_events []).
Definition flush_atexit (opens : bool) : M IOProfiler unit := p ← get; if enabled p then flush opens else mret tt.
End Profiler.

(** ** What is saved is found again *)
Lemma lines_from_app acc b s : lines_from acc (b ++ String newline s) = (lines_from acc (b ++ String newline "") ++ lines s)%list.
Proof.
  revert acc. induction b as [|c b IH]; intros acc; cbn [String.append lines_from].
  - by rewrite Ascii.eqb_refl.
  - destruct (Ascii.eqb c newline); [by rewrite IH|apply IH].
Qed.
Lemma lines_from_printable acc s : sforall printable s → lines_from acc (s ++ String newline "") = [acc ++ s].
Proof.
  revert acc. induction s as [|c s IH]; intros acc; cbn [String.append lines_from sforall].
  - intros _. by rewrite Ascii.eqb_refl, sapp_nil_r.
  - intros [Hc Hs]. destruct (Ascii.eqb_spec c newline) as [->|_]; [vm_compute in Hc; lia|].
    rewrite IH by done. by rewrite sapp_assoc.
Qed.
Lemma strip_braces s : strip ("{" ++ s ++ "}") = "{" ++ s ++ "}".
Proof. unfold strip. change (lstrip ("{" ++ s ++ "}")) with ("{" ++ s ++ "}"). rewrite <-sapp_assoc. by apply rstrip_last. Qed.

Section writer.
Import Writer.
(** [metadata] is something [json.dumps] writes, and the time is a decimal. *)
Definition savable (r : saved) : Prop := Forall (λ p, jok p.2) (sv_metadata r) ∧ num_text (sv_timestamp r).
(** A file that no crash cut short: it is empty or ends in a newline. *)
Definition whole (c : string) : Prop := c = "" ∨ ∃ b, c = b ++ String newline "".
Lemma record_jok r : savable r → jok (record_of r).
Proof.
  intros [Hm Ht]. constructor. rewrite !Forall_cons. cbn [snd]. split_and!; constructor; [|done..].
  apply Forall_fmap, Forall_forall. intros z _. constructor. left. apply str_of_Z_int.
Qed.
Lemma line_braces r : ∃ s, line_of r = "{" ++ s ++ "}".
Proof. by eexists. Qed.
Lemma completed_app l1 l2 acc :
  completed_of (l1 ++ l2)%list acc = match completed_of l1 acc with Ok a => completed_of l2 a | Err e => Err e end.
Proof.
  revert acc. induction l1 as [|raw l1 IH]; intros acc; cbn [app completed_of]; [done|].
  destruct (strip raw); [apply IH|]. destruct (loads _) as [[]|]; try done. destruct (obj_get _ _) as [[]|]; apply IH.
Qed.
Lemma completed_line r acc : savable r → completed_of [line_of r] acc = Ok ({[sv_seq_id r]} ∪ acc).
Proof.
  intros H. cbn [completed_of]. destruct (line_braces r) as [s Hs]. rewrite Hs, strip_braces.
  change ("{" ++ s ++ "}") with (String "{" (s ++ "}")). cbv iota beta. change (String "{" (s ++ "}")) with ("{" ++ s ++ "}").
  rewrite <-Hs. unfold line_of. rewrite loads_dumps_with by (by right || by apply record_jok). done.
Qed.
Lemma lines_saved c r : whole c → savable r → lines (c ++ line_of r ++ String newline "") = (lines c ++ [line_of r])%list.
Proof.
  intros Hc Hr. assert (lines (line_of r ++ String newline "") = [line_of r]) as Hl.
  { apply lines_from_printable, dumps_printable; [by right|by apply record_jok]. }
  destruct Hc as [->|[b ->]]; [exact Hl|]. rewrite sapp_assoc. change (String newline "" ++ ?x) with (String newline x).
  unfold lines at 1. rewrite lines_from_app. by rewrite Hl.
Qed.

(** Whatever a file that ends in a newline says is completed, after any records were saved to
    it [load_completed] gives that and exactly the sequences of the records, so a run resumed
    any number of times repeats nothing it finished. *)
Theorem saved_records_recovered (c : string) (completed : gset string) (l : list saved) :
  whole c → load_completed (Some c) = Ok completed → Forall savable l →
  ∃ w, for_each l save (open_append c) = (Ok tt, w) ∧ whole (file w) ∧
       load_completed (Some (file w)) = Ok (completed ∪ list_to_set (sv_seq_id <$> l)).
Proof.
  intros Hc Hl H. revert c completed Hc Hl. induction H as [|r l Hr _ IH]; intros c completed Hc Hl.
  - eexists. split; [done|]. split; [done|]. cbn [file open_append]. rewrite Hl. f_equal. set_solver.
  - destruct (IH (c ++ line_of r ++ String newline "") ({[sv_seq_id r]} ∪ completed)) as (w & Hw & Hwh & Hld).
    + right. exists (c ++ line_of r). by rewrite sapp_assoc.
    + cbn [load_completed] in *. rewrite lines_saved, completed_app, Hl by done. by apply completed_line.
    + exists w. split; [|split; [done|]]; [exact Hw|]. rewrite Hld. f_equal. rewrite fmap_cons. set_solver.
Qed.
(** One line that is not JSON, such as a line a crash cut short, makes [load_completed] raise,
    whatever was completed before it and saved after it. *)
Theorem torn_line_blocks_recovery (c line rest : string) (completed : gset string) :
  whole c → load_completed (Some c) = Ok completed → sforall printable line → strip line ≠ "" → loads (strip line) = None →
  load_completed (Some (c ++ line ++ String newline rest)) = Err ValueError.
Proof.
  intros Hc Hl Hp Hne Hld. cbn [load_completed] in *.
  assert (lines (c ++ line ++ String newline rest) = (lines c ++ line :: lines rest)%list) as ->.
  { assert (lines (line ++ String newline rest) = line :: lines rest) as Hr.
    { unfold lines at 1. by rewrite lines_from_app, lines_from_printable. }
    destruct Hc as [->|[b ->]]; [exact Hr|]. rewrite sapp_assoc. change (String newline "" ++ ?x) with (String newline x).
    unfold lines at 1. by rewrite lines_from_app, Hr. }
  rewrite completed_app, Hl. cbn [completed_of]. destruct (strip line); [done|]. by rewrite Hld.
Qed.
End writer.

(** ** Events are written in the order they were recorded *)
Section profiler.
Import Profiler.
Inductive op := Record_event (e : event) | Flush (opens : bool).
Definition perform (o : op) (p : IOProfiler) : IOProfiler :=
  match o with Record_event e => (emit_event e p).2 | Flush opens => (flush opens p).2 end.
Definition emitted (ops : list op) : list event := omap (λ o, match o with Record_event e => Some e | Flush _ => None end) ops.
Lemma event_lines_app l1 l2 : event_lines (l1 ++ l2)%list = event_lines l1 ++ event_lines l2.
Proof.
  unfold event_lines. rewrite fmap_app. generalize ((λ e, dumps_with " " (event_json e) ++ String newline "") <$> l2) as m.
  induction l1 as [|e l1 IH]; intros m; [done|]. cbn [fmap list_fmap app].
  assert (∀ (x : string) l, String.concat "" (x :: l) = x ++ String.concat "" l) as Hc.
  { intros x [|y l]; [symmetry; apply sapp_nil_r|reflexivity]. }
  rewrite !Hc, IH. by rewrite !sapp_assoc.
Qed.
(** As long as the file can be opened, what has been written and what is still in memory are
    together the recorded events, each once and in order. *)
Theorem events_written_once (ops : list op) (p : IOProfiler) :
  Forall (λ o, o ≠ Flush false) ops →
  let p' := foldl (flip perform) p ops in
  written p' ++ event_lines (events p') = written p ++ event_lines (events p) ++ event_lines (emitted ops) ∧
  enabled p' = enabled p ∧ out_path p' = out_path p.
Proof.
  intros H. revert p. induction H as [|o ops Ho _ IH]; intros p; cbn zeta; cbn [foldl].
  - by rewrite sapp_nil_r.
  - destruct (IH (flip perform p o)) as (Hw & He & Hp). rewrite Hw, He, Hp. clear Hw He Hp IH.
    destruct o as [e|[]]; [|clear Ho|by destruct Ho].
    + change (flip perform p (Record_event e)) with (set_events (events p ++ [e])%list p).
      change (emitted (Record_event e :: ops)) with ([e] ++ emitted ops)%list.
      cbn [set_events written events enabled out_path]. by rewrite !event_lines_app, !sapp_assoc.
    + unfold flip, perform, flush. munfold. destruct (out_path p) as [[|]|] eqn:E; [done| |done].
      destruct (events p) as [|e l] eqn:E'; [cbn -[event_lines]; by rewrite E', E|]. cbn -[event_lines]. change (event_lines []) with "". cbn [String.append].
      by rewrite sapp_assoc, E.
Qed.
End profiler.

Module RecordingDemo.
Import Writer Profiler.
Definition first : saved := {| sv_seq_id := "a"; sv_tokens := [5; -3]%Z; sv_metadata := [("prompt", JStr "x")]; sv_timestamp := "1700000000.25" |}.
Definition second : saved := {| sv_seq_id := "b"; sv_tokens := []; sv_metadata := []; sv_timestamp := "1700000001.5" |}.
Lemma timestamp_text i c d : forallb is_digit (c :: list_ascii_of_string d) = true → plain_int i → num_text (i ++ "." ++ String c d).
Proof.
  cbn [forallb]. rewrite andb_true_iff. intros [Hc Hd] Hi. right. exists i, c, d. split_and!; [exists i; auto|done| |done].
  induction d as [|x d IH]; [done|]. cbn in *. rewrite andb_true_iff in Hd. destruct Hd. by split; [|apply IH].
Qed.
Lemma timestamps : Forall savable [first; second].
Proof.
  apply Forall_cons. split; [|apply Forall_singleton]; split; cbn [sv_metadata sv_timestamp first second].
  - by apply Forall_singleton, jok_str.
  - apply (timestamp_text "1700000000" "2" "5"); [done|apply (str_of_N_plain 1700000000)].
  - constructor.
  - apply (timestamp_text "1700000001" "5" ""); [done|apply (str_of_N_plain 1700000001)].
Qed.
Lemma saved_records_recovered_witness :
  ∃ w, for_each [first; second] save (open_append "") = (Ok tt, w) ∧ whole (file w) ∧
       load_completed (Some (file w)) = Ok (∅ ∪ list_to_set ["a"; "b"]).
Proof. apply (saved_records_recovered "" ∅ [first; second]); [by left|done|apply timestamps]. Defined.
(** The second line lost its end in a crash; the first record was saved again after it. *)
Definition torn : string := String.substring 0 30 (line_of second).
Lemma torn_line_blocks_recovery_witness :
  load_completed (Some (line_of first ++ String newline "")) = Ok {["a"]} ∧
  load_completed (Some ((line_of first ++ String newline "") ++ (torn ++ line_of first) ++ String newline "")) = Err ValueError.
Proof.
  assert (load_completed (Some (line_of first ++ String newline "")) = Ok {["a"]}) as H by (vm_compute; done).
  split; [exact H|]. apply (torn_line_blocks_recovery _ _ _ {["a"]}); [right; by exists (line_of first)|exact H| |vm_compute; done|vm_compute; done].
  unfold printable. vm_compute. repeat split; lia.
Defined.
Definition profiler : IOProfiler := new_profiler 7 "1" (Some "out") None.
Definition sample_event (ts : Z) : event := {| ts_ns := ts; ev_stage := "io"; ev_layer := Some 1%Z; ev_expert := None; dur_ns := 5; ev_bytes := 0 |}.
Definition demo_ops : list op := [Record_event (sample_event 1); Flush true; Record_event (sample_event 2)].
Lemma events_written_once_witness :
  let p' := foldl (flip perform) profiler demo_ops in
  written p' ++ event_lines (events p') = "" ++ "" ++ event_lines [sample_event 1; sample_event 2] ∧ enabled p' = true ∧ out_path p' = Some "out".
Proof. apply (events_written_once demo_ops profiler). repeat constructor; done. Defined.
(** A flush that cannot open the file loses the events. *)
Example failed_flush_loses :
  let p' := foldl (flip perform) profiler [Record_event (sample_event 1); Flush false] in written p' = "" ∧ events p' = [].
Proof. done. Qed.
End RecordingDemo.
