(* ===== verification/Validation.v ===== *)
(** * Requests of the HTTP API and their validation
    (serving/validation.py, entrypoints/openai/protocol.py and the request
    helpers of entrypoints/openai/api_server_v2.py)

    A request is what pydantic made of the JSON body.  A float is the rational
    value of a Python float; the texts of error messages are left out. *)
From Stdlib Require Import QArith.
From S2P Require Import Prelude Sequence.
Open Scope Z_scope.

(** ** protocol.py *)
Inductive prompt := PromptTokens (l : list Z) | PromptTokenLists (l : list (list Z))
  | PromptText (s : string) | PromptTexts (l : list string).
Inductive stop_param := StopText (s : string) | StopTexts (l : list string).

Record CompletionRequest := mkCR {
  cr_model : string;
  cr_prompt : prompt;
  cr_max_tokens : option Z;
  cr_temperature : option Q;
  cr_top_p : option Q;
  cr_n : option Z;
  cr_stream : option bool;
  cr_logprobs : option Z;
  cr_stop : option stop_param;
  cr_best_of : option Z;
  cr_response_format : option string       (** [response_format.type] *)
}.

(** A message is a dict of strings. *)
Definition message : Type := list (string * string).
Inductive messages := MessagesText (s : string) | MessagesList (l : list message).

Record ChatCompletionRequest := mkChat {
  ch_model : string;
  ch_messages : messages;
  ch_temperature : option Q;
  ch_top_p : option Q;
  ch_n : option Z;
  ch_max_tokens : option Z;
  ch_stop : option stop_param;
  ch_stream : option bool;
  ch_logprobs : option bool;
  ch_top_logprobs : option Z;
  ch_response_format : option string
}.

(** [create_error_response]: the status and the fields of the error body. *)
Record ErrorResponse := mkError {
  err_status : Z; err_type : string; err_code : string; err_param : option string
}.
Definition create_error_response (status_code : Z) (error_type code : string) (param : option string) : ErrorResponse :=
  mkError status_code error_type code param.
Definition invalid_request (param : option string) : ErrorResponse :=
  create_error_response 400 "invalid_request_error" "invalid_request_error" param.

(** ** validation.py *)
Definition validate_context_length (prompt_tokens max_tokens max_seq_length : Z) : res unit :=
  if max_seq_length <? prompt_tokens + max_tokens then Err ContextLengthExceededError else Ok tt.

Definition validate_required_params (max_tokens : option Z) : res unit :=
  match max_tokens with None => Err (InvalidRequestError "max_tokens") | Some _ => Ok tt end.

Definition validate_sampling_params (temperature top_p : option Q) (top_k max_tokens : option Z) : res unit :=
  if match temperature with Some t => negb (Qle_bool 0 t && Qle_bool t 2) | None => false end
  then Err (InvalidRequestError "temperature")
  else if match top_p with Some p => negb (negb (Qle_bool p 0) && Qle_bool p 1) | None => false end
  then Err (InvalidRequestError "top_p")
  else if match top_k with Some k => k <=? 0 | None => false end
  then Err (InvalidRequestError "top_k")
  else if match max_tokens with Some m => m <=? 0 | None => false end
  then Err (InvalidRequestError "max_tokens")
  else Ok tt.

(** ** Request helpers of the server *)

(** [parse_prompt_format]: whether the prompts are token ids, and the prompts. *)
Inductive one_prompt := TokenPrompt (ids : list Z) | TextPrompt (s : string).
Definition parse_prompt_format (p : prompt) : res (bool * list one_prompt) :=
  match p with
  | PromptText s => Ok (false, [TextPrompt s])
  | PromptTexts [] | PromptTokens [] | PromptTokenLists [] => Err ValueError
  | PromptTexts l => Ok (false, TextPrompt <$> l)
  | PromptTokens l => Ok (true, [TokenPrompt l])
  | PromptTokenLists ([] :: _) => Err ValueError
  | PromptTokenLists l => Ok (true, TokenPrompt <$> l)
  end.

(** [_extract_stop_sequences] *)
Definition extract_stop_sequences (s : option stop_param) : list string :=
  match s with None => [] | Some (StopText s) => [s] | Some (StopTexts l) => l end.

(** [_build_sampling_params]; [logprobs] may be a [bool], that is 0 or 1. *)
Definition build_sampling_params (temperature top_p : option Q) (max_tokens : Z) (stop : option stop_param)
    (logprobs : option Z) : SamplingParams :=
  mkSP (default 1%Q temperature) (-1) (default 1%Q top_p) (default 0 logprobs) max_tokens
    (extract_stop_sequences stop) 1.

(** [int(n or 1)] and [int(best_of or requested_n)] *)
Definition or_default (o : option Z) (d : Z) : Z := match o with Some z => if z =? 0 then d else z | None => d end.
Definition requested_n (n : option Z) : Z := or_default n 1.
Definition requested_best_of (n best_of : option Z) : Z := or_default best_of (requested_n n).

(** [_validate_parallel_sampling] *)
Definition validate_parallel_sampling (max_n : Z) (n best_of : option Z) : option ErrorResponse :=
  if requested_n n <=? 0 then Some (invalid_request (Some "n"))
  else if max_n <? requested_n n then Some (invalid_request (Some "n"))
  else if requested_best_of n best_of <=? 0 then Some (invalid_request (Some "best_of"))
  else if max_n <? requested_best_of n best_of then Some (invalid_request (Some "best_of"))
  else if requested_best_of n best_of <? requested_n n then Some (invalid_request (Some "best_of"))
  else None.

(** ** Facts *)
Lemma validate_sampling_ok t p k m :
  validate_sampling_params t p k m = Ok tt ↔
  (∀ q, t = Some q → (0 <= q <= 2)%Q) ∧ (∀ q, p = Some q → (0 < q <= 1)%Q) ∧
  (∀ z, k = Some z → 0 < z) ∧ (∀ z, m = Some z → 0 < z).
Proof.
  assert (∀ q : Q, Qle_bool q 0 = false ↔ (0 < q)%Q) as Hlt.
  { intros q. rewrite <- not_true_iff_false, Qle_bool_iff. split; [apply Qnot_le_lt|apply Qlt_not_le]. }
  unfold validate_sampling_params. split.
  - intros H.
    repeat match type of H with (if ?b then _ else _) = _ => destruct b eqn:?; [done|] end.
    split_and!; intros z ->; cbn in *;
      repeat match goal with H : negb _ = false |- _ => apply negb_false_iff in H
             | H : _ && _ = true |- _ => apply andb_true_iff in H as [? ?]
             | H : negb _ = true |- _ => apply negb_true_iff in H end;
      rewrite ?Qle_bool_iff, ?Hlt in *; first [tauto|lia].
  - intros (H1 & H2 & H3 & H4).
    assert (match t with Some t => negb (Qle_bool 0 t && Qle_bool t 2) | None => false end = false) as ->.
    { destruct t as [t|]; [|done]. destruct (H1 t eq_refl) as [E1 E2]. apply Qle_bool_iff in E1, E2. by rewrite E1, E2. }
    assert (match p with Some p => negb (negb (Qle_bool p 0) && Qle_bool p 1) | None => false end = false) as ->.
    { destruct p as [p|]; [|done]. destruct (H2 p eq_refl) as [E1 E2]. apply Hlt in E1. apply Qle_bool_iff in E2. by rewrite E1, E2. }
    destruct k as [k|]; [specialize (H3 k eq_refl); destruct (Z.leb_spec k 0); [lia|]|];
      (destruct m as [m|]; [specialize (H4 m eq_refl); destruct (Z.leb_spec m 0); [lia|done]|done]).
Qed.

Lemma parallel_sampling_ok max_n n best_of :
  validate_parallel_sampling max_n n best_of = None ↔
  0 < requested_n n ≤ requested_best_of n best_of ∧ requested_best_of n best_of ≤ max_n.
Proof.
  unfold validate_parallel_sampling. repeat case_match; split; try done;
    repeat match goal with H : (_ <=? _) = _ |- _ => first [apply Z.leb_le in H|apply Z.leb_gt in H]
           | H : (_ <? _) = _ |- _ => first [apply Z.ltb_lt in H|apply Z.ltb_ge in H] end; intros; lia.
Qed.

(** Every prompt of an accepted format, with the tokens flag. *)
Lemma parse_prompt_shape p is_tokens ps :
  parse_prompt_format p = Ok (is_tokens, ps) →
  ps ≠ [] ∧ Forall (λ q, match q with TokenPrompt _ => is_tokens = true | TextPrompt _ => is_tokens = false end) ps.
Proof.
  destruct p as [[|z l]|[|[|z x] l]|s|[|s l]]; intros [= <- <-]; cbn; (split; [done|]); repeat constructor;
    apply Forall_fmap, Forall_true; done.
Qed.
