(* ===== verification/ApiResults.v ===== *)
(** * Results of non-streaming requests
    (entrypoints/openai/api_server_v2.py: [_SequenceResultState] to
    [_apply_response_format_validation])

    The engine calls [on_token] once per sampled token; the handler waits until
    enough sequences finished and builds the choices of the response. *)
From Stdlib Require Import QArith String.
From S2P Require Import Prelude Json Sequence Engine JsonProps.
Open Scope Z_scope.

Inductive final_reason := ReasonStop | ReasonLength | ReasonError.
Definition reason_of (r : finish_reason) : final_reason :=
  match r with FinishStop => ReasonStop | FinishLength => ReasonLength end.

Record SequenceResultState := mkSRS {
  srs_seq_id : Z;
  token_texts : list string;
  text_offsets : list Z;
  srs_token_logprobs : list (option Q);
  srs_top_logprobs : list (option (list (Z * Q)));
  srs_usage : Usage;
  srs_finish_reason : option final_reason;
  cumulative_logprob : Q;
  token_count : Z;
  current_text_offset : Z
}.

Record LogProbs := mkLP {
  lp_text_offset : list Z; lp_token_logprobs : list (option Q); lp_tokens : list string;
  lp_top_logprobs : list (option (list (Z * Q)))
}.

Record FinalSequenceResult := mkFinal {
  fr_seq_id : Z;
  fr_text : string;
  fr_usage : Usage;
  fr_finish_reason : option final_reason;
  fr_logprobs : option LogProbs;
  fr_cumulative_logprob : Q;
  fr_token_count : Z
}.

(** [str(v)]; [py_str] for values that are not strings. *)
Definition str_of (py_str : pyval → string) (v : pyval) : string := match v with PStr s => s | v => py_str v end.

(** [_decode_token_text]; a tokenizer without a callable [decode] is like none. *)
Definition decode_token_text (py_str : pyval → string) (tokenizer : option Tokenizer) (token_id : Z)
    (token_text : option string) : string :=
  match token_text with
  | Some t => t
  | None =>
      match tokenizer with
      | None => ""
      | Some tok => match decode_kw tok [token_id] with Returned v => str_of py_str v | _ => "" end
      end
  end.

Section collect.
Context (py_str : pyval → string) (tokenizer : option Tokenizer).
(** [len(prompt_token_ids)] and [sampling_params.logprobs > 0] *)
Context (num_prompt : Z) (with_logprobs : bool).

Definition new_result (id : Z) : SequenceResultState :=
  mkSRS id [] [] [] [] (mkUsage num_prompt 0 num_prompt) None 0 0 0.

(** The body of [on_token] on the state of its sequence. *)
Definition record_output (o : RequestOutput) (s : SequenceResultState) : SequenceResultState :=
  let text := decode_token_text py_str tokenizer (ro_token_id o) (ro_token_text o) in
  mkSRS (srs_seq_id s) (token_texts s ++ [text])
    (if with_logprobs then text_offsets s ++ [current_text_offset s] else text_offsets s)
    (if with_logprobs then srs_token_logprobs s ++ [ro_token_logprob o] else srs_token_logprobs s)
    (if with_logprobs then srs_top_logprobs s ++ [ro_top_logprobs o] else srs_top_logprobs s)
    (default (srs_usage s) (ro_usage o))
    (if ro_finished o then Some (default ReasonStop (reason_of <$> ro_finish_reason o)) else srs_finish_reason s)
    (match ro_token_logprob o with Some p => (cumulative_logprob s + p)%Q | None => cumulative_logprob s end)
    (token_count s + 1)
    (if with_logprobs then current_text_offset s + py_len text else current_text_offset s).

(** The variables [on_token] closes over. *)
Record Collector := mkColl {
  results_by_seq_id : gmap Z SequenceResultState;
  finished_seq_ids : gset Z;
  done_event : bool
}.
Definition no_results : Collector := mkColl ∅ ∅ false.

(** [on_token] *)
Definition on_token (expected_sequences : Z) (o : RequestOutput) (c : Collector) : Collector :=
  let state := default (new_result (ro_seq_id o)) (results_by_seq_id c !! ro_seq_id o) in
  let results := <[ro_seq_id o := record_output o state]> (results_by_seq_id c) in
  if ro_finished o then
    let finished := {[ro_seq_id o]} ∪ finished_seq_ids c in
    mkColl results finished (done_event c || (expected_sequences <=? Z.of_nat (size finished)))
  else mkColl results (finished_seq_ids c) (done_event c).

(** [_finalize_sequence_result] *)
Definition finalize_sequence_result (s : SequenceResultState) : FinalSequenceResult :=
  mkFinal (srs_seq_id s) (foldr append EmptyString (token_texts s)) (srs_usage s) (srs_finish_reason s)
    (if with_logprobs then Some (mkLP (text_offsets s) (srs_token_logprobs s) (token_texts s) (srs_top_logprobs s)) else None)
    (cumulative_logprob s) (token_count s).

(** [sorted(results_by_seq_id.items())] *)
Definition sorted_ids (c : Collector) : list Z := merge_sort Z.le (elements (dom (results_by_seq_id c))).
Definition final_results (c : Collector) : list FinalSequenceResult :=
  finalize_sequence_result <$> omap (λ i, results_by_seq_id c !! i) (sorted_ids c).
End collect.

(** ** Choosing among the sequences *)

(** [sorted(results, key=lambda r: r.seq_id)] *)
Definition by_id (a b : FinalSequenceResult) : Prop := fr_seq_id a ≤ fr_seq_id b.
#[export] Instance by_id_dec a b : Decision (by_id a b).
Proof. unfold by_id. apply _. Defined.

(** The key [(-score, seq_id)]: the greater score first, then the smaller id. *)
Definition ranked_before (score : FinalSequenceResult → Q) (a b : FinalSequenceResult) : Prop :=
  (score b < score a)%Q ∨ ((score a == score b)%Q ∧ fr_seq_id a ≤ fr_seq_id b).
#[export] Instance ranked_before_dec score a b : Decision (ranked_before score a b).
Proof. unfold ranked_before, Qlt, Qeq. apply _. Defined.

Definition score_of (use_logprobs : bool) (r : FinalSequenceResult) : Q :=
  if use_logprobs then fr_cumulative_logprob r else inject_Z (fr_token_count r).

(** [_select_best_results] *)
Definition select_best_results (results : list FinalSequenceResult) (n best_of : Z) (use_logprobs : bool)
    : list FinalSequenceResult :=
  if (zlen results <=? n) && (best_of <=? n) then merge_sort by_id results
  else merge_sort by_id (py_slice (merge_sort (ranked_before (score_of use_logprobs)) results) 0 n).

(** [_apply_response_format_validation] *)
Definition apply_response_format_validation (response_format : option string) (r : FinalSequenceResult)
    : FinalSequenceResult :=
  match response_format with
  | None => r
  | Some t =>
      if negb (String.eqb t "json_object") then r
      else
        match loads (fr_text r) with
        | Some _ => r
        | None => mkFinal (fr_seq_id r) (fr_text r) (fr_usage r) (Some ReasonError) (fr_logprobs r)
                    (fr_cumulative_logprob r) (fr_token_count r)
        end
  end.

(** ** Properties of the collected results *)
Open Scope Z_scope.

Lemma py_len_app a b : py_len (append a b) = py_len a + py_len b.
Proof. induction a as [|c a IH]; [done|]. change (append (String c a) b) with (String c (append a b)). cbn [py_len]. rewrite IH. lia. Qed.

Definition concat_texts (l : list string) : string := foldr append EmptyString l.
Lemma concat_texts_snoc l x : concat_texts (l ++ [x]) = append (concat_texts l) x.
Proof.
  induction l as [|y l IH]; [apply sapp_nil_r|].
  change (append y (concat_texts (l ++ [x])) = append (append y (concat_texts l)) x). by rewrite IH, sapp_assoc.
Qed.

Section collected.
Context (py_str : pyval → string) (tokenizer : option Tokenizer) (num_prompt : Z) (with_logprobs : bool).
Local Abbreviation record_output := (record_output py_str tokenizer with_logprobs).
Local Abbreviation on_token := (on_token py_str tokenizer num_prompt with_logprobs).
Definition text_of (o : RequestOutput) : string := decode_token_text py_str tokenizer (ro_token_id o) (ro_token_text o).

(** All calls of [on_token] for a request. *)
Definition collect (expected : Z) (outs : list RequestOutput) : Collector :=
  foldl (λ c o, on_token expected o c) no_results outs.
(** The outputs of one sequence. *)
Definition outputs_of (id : Z) (outs : list RequestOutput) : list RequestOutput :=
  filter (λ o, ro_seq_id o = id) outs.
Definition accumulate (id : Z) (os : list RequestOutput) : SequenceResultState :=
  foldl (λ s o, record_output o s) (new_result num_prompt id) os.

Lemma collect_snoc expected outs o : collect expected (outs ++ [o]) = on_token expected o (collect expected outs).
Proof. unfold collect. by rewrite foldl_app. Qed.
Lemma accumulate_snoc id os o : accumulate id (os ++ [o]) = record_output o (accumulate id os).
Proof. unfold accumulate. by rewrite foldl_app. Qed.
Lemma outputs_of_snoc id outs o :
  outputs_of id (outs ++ [o]) = outputs_of id outs ++ (if decide (ro_seq_id o = id) then [o] else []).
Proof. unfold outputs_of. rewrite filter_app. by rewrite filter_cons, filter_nil. Qed.

Lemma collect_results expected outs id :
  results_by_seq_id (collect expected outs) !! id =
    match outputs_of id outs with [] => None | os => Some (accumulate id os) end.
Proof.
  induction outs as [|o outs IH] using rev_ind; [done|]. rewrite collect_snoc, outputs_of_snoc.
  assert (results_by_seq_id (on_token expected o (collect expected outs)) =
    <[ro_seq_id o := record_output o (default (new_result num_prompt (ro_seq_id o)) (results_by_seq_id (collect expected outs) !! ro_seq_id o))]>
      (results_by_seq_id (collect expected outs))) as -> by (unfold ApiResults.on_token; by destruct (ro_finished o)).
  case_decide as Hid; [subst id|].
  - rewrite lookup_insert_eq, IH. destruct (outputs_of (ro_seq_id o) outs) as [|x os]; [done|]. cbn [default from_option id].
    rewrite <- accumulate_snoc. done.
  - by rewrite lookup_insert_ne, app_nil_r.
Qed.

(** The ids of the finished outputs. *)
Definition finished_of (outs : list RequestOutput) : gset Z :=
  list_to_set (ro_seq_id <$> filter (λ o, Is_true (ro_finished o)) outs).

Lemma collect_finished expected outs :
  0 < expected →
  finished_seq_ids (collect expected outs) = finished_of outs ∧
  (done_event (collect expected outs) = true ↔ expected ≤ Z.of_nat (size (finished_of outs))).
Proof.
  intros Hexp. induction outs as [|o outs [IH1 IH2]] using rev_ind; [split; [done|]; split; [done|]; unfold finished_of; cbn; rewrite size_empty; lia|].
  rewrite collect_snoc. assert (finished_of (outs ++ [o]) = (if ro_finished o then {[ro_seq_id o]} else ∅) ∪ finished_of outs) as Hf.
  { unfold finished_of. rewrite filter_app, fmap_app, list_to_set_app_L, filter_cons, filter_nil.
    destruct (ro_finished o); cbn; set_solver. }
  unfold ApiResults.on_token. destruct (ro_finished o); cbn.
  - rewrite IH1, Hf. split; [done|]. rewrite orb_true_iff, Z.leb_le, IH2. split; [|by right].
    intros [H|H]; [|done]. etransitivity; [exact H|]. apply inj_le, subseteq_size. set_solver.
  - rewrite Hf, union_empty_l_L. done.
Qed.

(** What has been accumulated from the outputs of a sequence. *)
Record accumulated (os : list RequestOutput) (s : SequenceResultState) : Prop := {
  ac_texts : token_texts s = text_of <$> os;
  ac_count : token_count s = zlen os;
  ac_usage : srs_usage s = default (mkUsage num_prompt 0 num_prompt) (last (omap ro_usage os));
  ac_reason : srs_finish_reason s =
    (λ o, default ReasonStop (reason_of <$> ro_finish_reason o)) <$> last (filter (λ o, Is_true (ro_finished o)) os);
  ac_cumulative : cumulative_logprob s = foldl Qplus 0%Q (omap ro_token_logprob os);
  ac_logprobs : with_logprobs = true →
    current_text_offset s = py_len (concat_texts (token_texts s)) ∧
    srs_token_logprobs s = ro_token_logprob <$> os ∧ srs_top_logprobs s = ro_top_logprobs <$> os ∧
    length (text_offsets s) = length os ∧
    (∀ k off, text_offsets s !! k = Some off → off = py_len (concat_texts (take k (token_texts s))))
}.

Lemma accumulate_id id os : srs_seq_id (accumulate id os) = id.
Proof. induction os as [|o os IH] using rev_ind; [done|]. by rewrite accumulate_snoc. Qed.

Lemma accumulate_spec id os : accumulated os (accumulate id os).
Proof.
  induction os as [|o os [H1 H2 H3 H4 H5 H6]] using rev_ind; [by split; cbn; [..|intros _; split_and!]|].
  rewrite accumulate_snoc. split; cbn.
  - by rewrite H1, fmap_app.
  - rewrite H2. unfold zlen. rewrite length_app. cbn. lia.
  - rewrite omap_app. cbn. destruct (ro_usage o); cbn; [by rewrite last_snoc|by rewrite app_nil_r].
  - rewrite filter_app, filter_cons, filter_nil. destruct (ro_finished o) eqn:Hfin.
    + rewrite decide_True by done. by rewrite last_snoc.
    + rewrite decide_False by (cbn; tauto). by rewrite app_nil_r.
  - rewrite omap_app, H5. cbn. destruct (ro_token_logprob o); cbn; [by rewrite foldl_app|by rewrite app_nil_r].
  - intros Hlp. destruct (H6 Hlp) as (Hc & Hl & Ht & Hn & Ho). rewrite Hlp.
    rewrite concat_texts_snoc, py_len_app, Hc, Hl, Ht, !fmap_app, !length_app, Hn. split_and!; try done.
    intros k off Hk. assert (length (token_texts (accumulate id os)) = length os) as Htl by (by rewrite H1, length_fmap).
    apply lookup_app_Some in Hk as [Hk|[Hge Hk]].
    + pose proof (lookup_lt_Some _ _ _ Hk). rewrite take_app_le by lia. by apply Ho.
    + apply list_lookup_singleton_Some in Hk as [Hk <-]. rewrite take_app_length'; [done|]. lia.
Qed.

Lemma sorted_ids_spec expected outs id :
  id ∈ sorted_ids (collect expected outs) ↔ outputs_of id outs ≠ [].
Proof.
  unfold sorted_ids. rewrite merge_sort_Permutation, elem_of_elements, elem_of_dom, collect_results.
  destruct (outputs_of id outs); [split; [by intros []|done]|split; [done|eauto]].
Qed.

Lemma final_results_ids expected outs :
  fr_seq_id <$> final_results with_logprobs (collect expected outs) = sorted_ids (collect expected outs).
Proof.
  unfold final_results. assert (∀ l : list Z, (∀ i, i ∈ l → outputs_of i outs ≠ []) →
    fr_seq_id <$> (finalize_sequence_result with_logprobs <$> omap (λ i, results_by_seq_id (collect expected outs) !! i) l) = l) as H.
  { induction l as [|i l IH]; intros Hl; [done|]. cbn. rewrite collect_results.
    pose proof (Hl i ltac:(set_solver)). destruct (outputs_of i outs) as [|o os] eqn:E; [done|].
    change (srs_seq_id (accumulate i (o :: os)) :: (fr_seq_id <$> (finalize_sequence_result with_logprobs <$>
      omap (λ i, results_by_seq_id (collect expected outs) !! i) l)) = i :: l). rewrite accumulate_id. f_equal.
    apply IH. intros j Hj. apply Hl. set_solver. }
  apply H. intros i. apply sorted_ids_spec.
Qed.

(** What a non-streaming response reports is what the engine produced.  After
    any sequence of tokens of a request, whatever the interleaving of its
    sequences, the wait is over exactly when [expected] distinct sequences have
    finished; the results are one per sequence that produced a token, in
    increasing order of sequence id; and the result of a sequence has the
    concatenation of the texts of its tokens in order, their number, the last
    reported usage, the reason of the last finished token, and with log
    probabilities one entry per token whose text offset is the length of the text
    before that token. *)
Theorem collected_results expected outs :
  0 < expected →
  let c := collect expected outs in
  let results := final_results with_logprobs c in
  (done_event c = true ↔ expected ≤ Z.of_nat (size (finished_of outs))) ∧
  StronglySorted Z.lt (fr_seq_id <$> results) ∧
  (∀ id, id ∈ fr_seq_id <$> results ↔ outputs_of id outs ≠ []) ∧
  ∀ r, r ∈ results →
    let os := outputs_of (fr_seq_id r) outs in
    fr_text r = concat_texts (text_of <$> os) ∧ fr_token_count r = zlen os ∧
    fr_usage r = default (mkUsage num_prompt 0 num_prompt) (last (omap ro_usage os)) ∧
    fr_finish_reason r =
      (λ o, default ReasonStop (reason_of <$> ro_finish_reason o)) <$> last (filter (λ o, Is_true (ro_finished o)) os) ∧
    fr_cumulative_logprob r = foldl Qplus 0%Q (omap ro_token_logprob os) ∧
    match fr_logprobs r with
    | None => with_logprobs = false
    | Some lp => with_logprobs = true ∧ lp_tokens lp = text_of <$> os ∧
        lp_token_logprobs lp = ro_token_logprob <$> os ∧ lp_top_logprobs lp = ro_top_logprobs <$> os ∧
        length (lp_text_offset lp) = length os ∧
        ∀ k off, lp_text_offset lp !! k = Some off → off = py_len (concat_texts (take k (lp_tokens lp)))
    end.
Proof.
  intros Hexp c results. unfold results, c. rewrite final_results_ids.
  split; [by apply collect_finished|]. split; [|split; [intros id; apply sorted_ids_spec|]].
  - assert (NoDup (sorted_ids (collect expected outs))) as Hnd
      by (unfold sorted_ids; rewrite merge_sort_Permutation; apply NoDup_elements).
    assert (StronglySorted Z.le (sorted_ids (collect expected outs))) as Hs.
    { unfold sorted_ids. apply StronglySorted_merge_sort; [intros ??? ; lia|intros ??; lia]. }
    clear -Hs Hnd. induction Hs as [|x l Hs IH Hx]; [constructor|]. apply NoDup_cons in Hnd as [Hn Hnd].
    constructor; [by apply IH|]. rewrite Forall_forall in Hx |- *. intros y Hy. specialize (Hx y Hy).
    assert (x ≠ y) by (intros ->; done). lia.
  - intros r Hr. unfold final_results in Hr. apply list_elem_of_fmap in Hr as (s & -> & Hs).
    apply list_elem_of_omap in Hs as (id & _ & Hid). rewrite collect_results in Hid.
    destruct (outputs_of id outs) as [|o os'] eqn:E; [done|]. injection Hid as <-. cbn [finalize_sequence_result fr_seq_id].
    rewrite accumulate_id, E. destruct (accumulate_spec id (o :: os')) as [H1 H2 H3 H4 H5 H6].
    unfold finalize_sequence_result. cbn [fr_text fr_token_count fr_usage fr_finish_reason fr_cumulative_logprob fr_logprobs].
    split_and!; [by rewrite <- H1|done..|]. destruct with_logprobs; [|done]. destruct (H6 eq_refl) as (_ & Hl & Ht & Hn & Ho).
    by split_and!.
Qed.
End collected.

(** ** The best results *)
#[export] Instance by_id_total : Total by_id.
Proof. intros a b. unfold by_id. lia. Qed.
#[export] Instance by_id_trans : Transitive by_id.
Proof. intros a b c. unfold by_id. lia. Qed.
#[export] Instance ranked_total score : Total (ranked_before score).
Proof.
  intros a b. unfold ranked_before. destruct (Q_dec (score a) (score b)) as [[H|H]|H]; [tauto|tauto|].
  destruct (Z.le_ge_cases (fr_seq_id a) (fr_seq_id b)); [left|right]; right; by rewrite H.
Qed.
#[export] Instance ranked_trans score : Transitive (ranked_before score).
Proof.
  intros a b c. unfold ranked_before. intros [H|[H H']] [G|[G G']].
  - left. by eapply Qlt_trans.
  - left. by rewrite <- G.
  - left. by rewrite H.
  - right. split; [by rewrite H|lia].
Qed.

Lemma select_best_take results n best_of use :
  0 < n → select_best_results results n best_of use ≡ₚ take (Z.to_nat n) (merge_sort (ranked_before (score_of use)) results).
Proof.
  intros Hn. unfold select_best_results. destruct ((zlen results <=? n) && (best_of <=? n)) eqn:E.
  - apply andb_true_iff in E as [E%Z.leb_le _]. rewrite take_ge; [by rewrite !merge_sort_Permutation|].
    rewrite (Permutation_length (merge_sort_Permutation _ results)). unfold zlen in E. lia.
  - by rewrite merge_sort_Permutation, py_slice_prefix by lia.
Qed.

(** [_select_best_results] returns the [n] best results: as many as asked for
    or all there are, in increasing order of sequence id, all of them among the
    candidates and without repetition, and every candidate it leaves out ranks
    behind every one it keeps: a lower score (the cumulative log probability, or
    the number of tokens without log probabilities), or the same score and a
    later sequence. *)
Theorem select_best_spec results n best_of use :
  NoDup (fr_seq_id <$> results) → 0 < n →
  let selected := select_best_results results n best_of use in
  zlen selected = Z.min n (zlen results) ∧
  StronglySorted Z.lt (fr_seq_id <$> selected) ∧
  (∀ r, r ∈ selected → r ∈ results) ∧
  (∀ a b, a ∈ selected → b ∈ results → b ∉ selected → ranked_before (score_of use) a b).
Proof.
  intros Hnd Hn selected. pose proof (select_best_take results n best_of use Hn) as Hp. fold selected in Hp.
  set (ranked := merge_sort (ranked_before (score_of use)) results) in *.
  assert (ranked ≡ₚ results) as Hr by apply merge_sort_Permutation.
  assert (selected ⊆+ results) as Hsub.
  { rewrite Hp, <- Hr. apply submseteq_take. }
  split_and!.
  - unfold zlen. rewrite (Permutation_length Hp), length_take, (Permutation_length Hr). lia.
  - assert (StronglySorted by_id selected) as Hs.
    { unfold selected, select_best_results. case_match; by apply StronglySorted_merge_sort; [apply by_id_trans|apply by_id_total]. }
    assert (NoDup (fr_seq_id <$> selected)) as Hn'.
    { apply submseteq_Permutation in Hsub as [k Hk]. rewrite Hk, fmap_app in Hnd. by apply NoDup_app in Hnd as [? _]. }
    clear -Hs Hn'. induction Hs as [|x l Hs IH Hx]; [constructor|]. cbn in *. apply NoDup_cons in Hn' as [Hx' Hn'].
    constructor; [by apply IH|]. apply Forall_fmap. rewrite Forall_forall in Hx |- *. intros y Hy.
    specialize (Hx y Hy). unfold by_id in Hx. cbn. assert (fr_seq_id x ≠ fr_seq_id y); [|lia].
    intros E. apply Hx'. rewrite E. by apply list_elem_of_fmap_2.
  - intros r Hin. by eapply elem_of_submseteq.
  - intros a b Ha Hb Hb'. rewrite Hp in Ha. rewrite <- Hr in Hb. rewrite <- (take_drop (Z.to_nat n) ranked) in Hb.
    apply elem_of_app in Hb as [Hb|Hb]; [exfalso; apply Hb'; by rewrite Hp|].
    eapply sorted_take_drop; [|exact Ha|exact Hb]. apply StronglySorted_merge_sort; [apply ranked_trans|apply ranked_total].
Qed.

(** Two sequences, tokens interleaved; the second one has the better score. *)
Definition demo_out (id tok : Z) (text : string) (fin : bool) (p : Q) : RequestOutput :=
  mkOut "r" id tok (Some text) fin (if fin then Some FinishLength else None) (Some p) None
    (if fin then Some (mkUsage 3 2 5) else None).
Definition demo_outs : list RequestOutput :=
  [demo_out 4 10 "a" false (-2); demo_out 5 11 "bc" false (-1); demo_out 5 12 "d" true (-1); demo_out 4 13 "e" true (-2)].
Definition demo_results : list FinalSequenceResult :=
  final_results true (collect (λ _, EmptyString) None 3 true 2 demo_outs).

Lemma collected_results_witness :
  done_event (collect (λ _, EmptyString) None 3 true 2 demo_outs) = true ∧ fr_text <$> demo_results = ["ae"; "bcd"]%string.
Proof.
  destruct (collected_results (λ _, EmptyString) None 3 true 2 demo_outs) as (H1 & _); [done|].
  split; [apply H1; vm_compute; discriminate|vm_compute; reflexivity].
Defined.

Lemma select_best_spec_witness :
  fr_seq_id <$> select_best_results demo_results 1 2 true = [5] ∧
  zlen (select_best_results demo_results 1 2 true) = Z.min 1 (zlen demo_results).
Proof.
  destruct (select_best_spec demo_results 1 2 true) as (H & _).
  - apply (bool_decide_unpack _). vm_compute. exact I.
  - done.
  - split; [vm_compute; reflexivity|exact H].
Defined.
