(* ===== verification/ApiAuth.v ===== *)
(** * Authentication, rate limits and back pressure
    (entrypoints/openai/api_server_v2.py: [_configure_auth] to [auth_middleware])

    The rate limiter keeps the times of the accepted requests per API key; the
    clock is an argument.  [_check_auth] changes a bucket under the lock, so a
    call is one step. *)
From Stdlib Require Import QArith Ascii String.
From S2P Require Import Prelude Json Stream Validation.
Open Scope Z_scope.

(** [s.split(sep)] for a separator of one character. *)
Fixpoint split_on (sep : ascii) (s : string) : list string :=
  match s with
  | EmptyString => [EmptyString]
  | String c s' =>
      if Ascii.eqb c sep then EmptyString :: split_on sep s'
      else match split_on sep s' with x :: l => String c x :: l | [] => [String c EmptyString] end
  end.

(** [s.partition(" ")]: what precedes the first space and what follows it. *)
Fixpoint partition_space (s : string) : string * string :=
  match s with
  | EmptyString => (EmptyString, EmptyString)
  | String c s' =>
      if Ascii.eqb c " "%char then (EmptyString, s')
      else let '(a, b) := partition_space s' in (String c a, b)
  end.

Record AuthState := mkAuth {
  api_keys : gset string;
  rate_limit_rpm : Z;
  rate_limit_buckets : gmap string (list Q)
}.

(** [_configure_auth] *)
Definition configure_auth (api_key_csv : option string) (rate_limit : Z) : AuthState :=
  mkAuth (list_to_set (filter (λ k, k ≠ EmptyString) (strip <$> split_on ","%char (default EmptyString api_key_csv))))
    (Z.max 0 rate_limit) ∅.

Definition open_paths : list string := ["/health"; "/metrics"; "/v1/models"]%string.
Definition unauthorized : ErrorResponse := create_error_response 401 "authentication_error" "invalid_api_key" None.
Definition rate_limited : ErrorResponse := create_error_response 429 "rate_limit_error" "rate_limit_exceeded" None.

(** The timestamps of the window that ends now. *)
Definition in_window (now : Q) (bucket : list Q) : list Q := List.filter (λ t, Qle_bool (now - 60) t) bucket.

(** [_check_auth]: [None] when the request passes. *)
Definition check_auth (path header : string) (now : Q) (s : AuthState) : option ErrorResponse * AuthState :=
  if bool_decide (api_keys s = ∅) then (None, s)
  else if bool_decide (path ∈ open_paths) then (None, s)
  else
    let '(scheme, token) := partition_space header in
    if negb (String.eqb scheme "Bearer") || String.eqb token EmptyString || bool_decide (token ∉ api_keys s)
    then (Some unauthorized, s)
    else if rate_limit_rpm s <=? 0 then (None, s)
    else
      let bucket := in_window now (default [] (rate_limit_buckets s !! token)) in
      let keep b := mkAuth (api_keys s) (rate_limit_rpm s) (<[token := b]> (rate_limit_buckets s)) in
      if rate_limit_rpm s <=? zlen bucket then (Some rate_limited, keep bucket)
      else (None, keep (bucket ++ [now])).

(** [_check_backpressure]; [num_waiting] is the scheduler's. *)
Definition check_backpressure (max_waiting_requests num_waiting : Z) : option ErrorResponse :=
  if max_waiting_requests <=? 0 then None
  else if num_waiting <? max_waiting_requests then None
  else Some (create_error_response 503 "server_error" "queue_full" None).

(** [auth_middleware] *)
Definition auth_middleware {R} (of_error : ErrorResponse → R) (path header : string) (now : Q)
    (call_next : M AuthState R) : M AuthState R := λ s,
  match check_auth path header now s with
  | (Some e, s') => (Ok (of_error e), s')
  | (None, s') => call_next s'
  end.

(** ** Histories *)
Record call := mkCall { call_path : string; call_header : string; call_now : Q }.

(** A request that presents the key and is subject to the limit. *)
Definition presents (token : string) (c : call) : bool :=
  negb (bool_decide (call_path c ∈ open_paths)) && bool_decide (partition_space (call_header c) = ("Bearer"%string, token)).

(** The times at which requests with the key were accepted, and the state. *)
Fixpoint accepted (token : string) (cs : list call) (s : AuthState) : list Q * AuthState :=
  match cs with
  | [] => ([], s)
  | c :: cs' =>
      let '(r, s') := check_auth (call_path c) (call_header c) (call_now c) s in
      let '(l, s'') := accepted token cs' s' in
      (match r with None => if presents token c then call_now c :: l else l | Some _ => l end, s'')
  end.

#[local] Arguments in_window : simpl never.
Section rate_limit.
Context (token : string).
Implicit Types s : AuthState.

Lemma in_window_app now a b : in_window now (a ++ b) = in_window now a ++ in_window now b.
Proof. apply List.filter_app. Qed.
Lemma in_window_idem now now' l : (now <= now')%Q → in_window now' (in_window now l) = in_window now' l.
Proof.
  intros Hle. unfold in_window. induction l as [|t l IH]; [done|]. cbn.
  destruct (Qle_bool (now - 60) t) eqn:E; cbn; [by rewrite IH|]. rewrite IH.
  destruct (Qle_bool (now' - 60) t) eqn:E'; [|done]. exfalso. apply Qle_bool_iff in E'.
  apply not_true_iff_false in E. apply E, Qle_bool_iff. eapply Qle_trans; [|exact E'].
  apply Qplus_le_compat; [done|apply Qle_refl].
Qed.

(** The accepted requests in the minute from [w] on. *)
Definition minute (w : Q) (l : list Q) : list Q := List.filter (λ t, Qle_bool w t && Qle_bool t (w + 60)) l.

(** After the requests accepted so far, all before [last]: the bucket has those of
    the last minute, and no minute has more than the limit. *)
Record limiter_ok (acc : list Q) (last : Q) s : Prop := {
  lo_bucket : ∀ now, (last <= now)%Q →
    in_window now (default [] (rate_limit_buckets s !! token)) = in_window now acc;
  lo_limit : ∀ w, zlen (minute w acc) ≤ rate_limit_rpm s
}.

Lemma minute_in_window w now acc :
  Qle_bool now (w + 60) = true → (length (minute w acc) ≤ length (in_window now acc))%nat.
Proof.
  intros H%Qle_bool_iff. induction acc as [|t acc IH]; [done|]. unfold minute, in_window in *. cbn.
  destruct (Qle_bool w t && Qle_bool t (w + 60)) eqn:E.
  - apply andb_true_iff in E as [E%Qle_bool_iff _].
    assert (Qle_bool (now - 60) t = true) as ->; [|cbn; lia]. apply Qle_bool_iff.
    apply Qle_trans with w; [|done]. apply (Qplus_le_l _ _ 60). ring_simplify. by rewrite Qplus_comm in H |- *.
  - destruct (Qle_bool (now - 60) t); cbn; lia.
Qed.

Lemma check_auth_config path header now s :
  api_keys (check_auth path header now s).2 = api_keys s ∧ rate_limit_rpm (check_auth path header now s).2 = rate_limit_rpm s.
Proof. unfold check_auth. repeat case_match; done. Qed.

Lemma check_auth_limiter acc last c s :
  limiter_ok acc last s → (last <= call_now c)%Q → 0 < rate_limit_rpm s → api_keys s ≠ ∅ →
  let '(r, s') := check_auth (call_path c) (call_header c) (call_now c) s in
  limiter_ok (acc ++ match r with None => if presents token c then [call_now c] else [] | Some _ => [] end) (call_now c) s'.
Proof.
  intros [Hb Hl] Hnow Hrpm Hkeys. set (now := call_now c) in *.
  assert (∀ s', rate_limit_rpm s' = rate_limit_rpm s → rate_limit_buckets s' !! token = rate_limit_buckets s !! token →
            limiter_ok acc now s') as Hsame.
  { intros s' Hr Hs. split; [|by rewrite Hr]. intros now' Hn. rewrite Hs. apply Hb. by eapply Qle_trans. }
  unfold check_auth, presents. rewrite bool_decide_eq_false_2 by done.
  destruct (bool_decide (call_path c ∈ open_paths)) eqn:Hp; [rewrite app_nil_r; by apply Hsame|]. cbn [negb andb].
  destruct (partition_space (call_header c)) as [scheme tok].
  destruct (negb (String.eqb scheme "Bearer") || String.eqb tok "" || bool_decide (tok ∉ api_keys s)) eqn:Hbad;
    [rewrite app_nil_r; by apply Hsame|].
  rewrite (proj2 (Z.leb_gt _ _)) by done.
  rewrite !orb_false_iff, negb_false_iff, String.eqb_eq in Hbad. destruct Hbad as [[-> _] _].
  destruct (decide (tok = token)) as [->|Hne].
  - rewrite bool_decide_eq_true_2 by done.
    set (bucket := in_window now (default [] (rate_limit_buckets s !! token))).
    assert (bucket = in_window now acc) as Hbk by (by apply Hb).
    destruct (Z.leb_spec (rate_limit_rpm s) (zlen bucket)) as [Hfull|Hfree].
    + rewrite app_nil_r. split; cbn; [|done]. intros now' Hn. rewrite lookup_insert_eq. cbn.
      unfold bucket. rewrite in_window_idem by done. apply Hb. by eapply Qle_trans.
    + split; cbn.
      * intros now' Hn. rewrite lookup_insert_eq. cbn. unfold bucket. rewrite !in_window_app, in_window_idem by done.
        f_equal. apply Hb. by eapply Qle_trans.
      * intros w. unfold minute, zlen. rewrite List.filter_app, length_app. cbn.
        destruct (Qle_bool w now && Qle_bool now (w + 60)) eqn:E; cbn; [|specialize (Hl w); unfold minute, zlen in Hl; lia].
        apply andb_true_iff in E as [_ E]. pose proof (minute_in_window w now acc E) as Hm.
        rewrite <- Hbk in Hm. unfold minute, zlen in *. lia.
  - rewrite bool_decide_eq_false_2 by congruence.
    destruct (rate_limit_rpm s <=? _); rewrite app_nil_r; apply Hsame; cbn; try done; by rewrite lookup_insert_ne.
Qed.

Lemma limiter_later acc last last' s : (last <= last')%Q → limiter_ok acc last s → limiter_ok acc last' s.
Proof. intros Hle [Hb Hl]. split; [|done]. intros now Hn. apply Hb. by eapply Qle_trans. Qed.

Lemma accepted_limiter cs acc last final s :
  limiter_ok acc last s → 0 < rate_limit_rpm s → api_keys s ≠ ∅ →
  StronglySorted (λ a b, (call_now a <= call_now b)%Q) cs → Forall (λ c, (last <= call_now c)%Q) cs →
  (last <= final)%Q → Forall (λ c, (call_now c <= final)%Q) cs →
  let run := accepted token cs s in
  limiter_ok (acc ++ run.1) final run.2 ∧ rate_limit_rpm run.2 = rate_limit_rpm s ∧ api_keys run.2 = api_keys s.
Proof.
  revert acc last s. induction cs as [|c cs IH]; intros acc last s Hok Hrpm Hk Hs Hl Hlf Hf.
  - cbn. rewrite app_nil_r. split; [by eapply limiter_later|done].
  - apply StronglySorted_inv in Hs as [Hs Hc]. apply Forall_cons in Hl as [Hl _]. apply Forall_cons in Hf as [Hcf Hf]. cbn.
    pose proof (check_auth_limiter acc last c s Hok Hl Hrpm Hk) as Hstep.
    destruct (check_auth_config (call_path c) (call_header c) (call_now c) s) as [Hk' Hr'].
    destruct (check_auth (call_path c) (call_header c) (call_now c) s) as [r s']. cbn in Hk', Hr'.
    destruct (IH _ _ s' Hstep) as (Hok' & Hrpm' & Hkeys'); [by rewrite Hr'|by rewrite Hk'|done..|].
    destruct (accepted token cs s') as [l s'']. cbn in *. split; [|by rewrite Hrpm', Hkeys'].
    rewrite <- app_assoc in Hok'. destruct r; [done|]. by destruct (presents token c).
Qed.

(** A refusal for the limit: the bucket is full. *)
Lemma rate_limited_full c s :
  presents token c = true → (check_auth (call_path c) (call_header c) (call_now c) s).1 = Some rate_limited →
  rate_limit_rpm s ≤ zlen (in_window (call_now c) (default [] (rate_limit_buckets s !! token))).
Proof.
  unfold presents. rewrite andb_true_iff, !bool_decide_eq_true. intros [_ Hp]. unfold check_auth. rewrite Hp.
  repeat case_match; try done. cbn. intros _. by apply Z.leb_le.
Qed.
End rate_limit.

(** The rate limit holds.  For a server configured with keys and a limit, and
    any sequence of requests at non-decreasing times, the requests accepted with
    one key in any minute are never more than the configured number, whatever the
    other keys, paths and rejected requests in between; and the next request with
    that key is refused for the limit only if so many were accepted in the last
    minute. *)
Theorem rate_limit_respected token csv limit (cs : list call) (c : call) :
  0 < limit → api_keys (configure_auth csv limit) ≠ ∅ →
  StronglySorted (λ a b, (call_now a <= call_now b)%Q) (cs ++ [c]) →
  let run := accepted token cs (configure_auth csv limit) in
  (∀ w, zlen (minute w run.1) ≤ limit) ∧
  (presents token c = true → (check_auth (call_path c) (call_header c) (call_now c) run.2).1 = Some rate_limited →
   limit ≤ zlen (in_window (call_now c) run.1)).
Proof.
  intros Hlim Hk Hs run. set (s0 := configure_auth csv limit) in *.
  set (first := match cs ++ [c] with x :: _ => call_now x | [] => 0%Q end).
  assert (Forall (λ x, (first <= call_now x)%Q) (cs ++ [c])) as Hfirst.
  { unfold first. destruct (cs ++ [c]) as [|x l]; [constructor|]. apply StronglySorted_inv in Hs as [_ Hx].
    constructor; [apply Qle_refl|done]. }
  apply Forall_app in Hfirst as [Hfcs Hfc]. apply Forall_cons in Hfc as [Hfc _].
  assert (rate_limit_rpm s0 = limit) as Hr0 by (unfold s0, configure_auth; cbn [rate_limit_rpm]; lia).
  assert (limiter_ok token [] first s0) as H0 by (split; [by intros|]; intros w; rewrite Hr0; change (zlen (minute w [])) with 0; lia).
  assert (Forall (λ x, (call_now x <= call_now c)%Q) cs) as Hlast.
  { apply Forall_forall. intros x Hx.
    exact (StronglySorted_app_1_elem_of _ cs [c] x c Hs Hx (proj2 (list_elem_of_singleton c c) eq_refl)). }
  assert (StronglySorted (λ a b, (call_now a <= call_now b)%Q) cs) as Hscs by (by apply StronglySorted_app_1_l in Hs).
  destruct (accepted_limiter token cs [] first (call_now c) s0) as (Hok & Hrpm & Hkeys); try done; [by rewrite Hr0|].
  fold run in Hok, Hrpm, Hkeys. cbn [app] in Hok.
  split; [intros w; rewrite <- Hr0, <- Hrpm; apply (lo_limit _ _ _ _ Hok)|].
  intros Hp Hrej. rewrite <- (lo_bucket _ _ _ _ Hok (call_now c)) by apply Qle_refl.
  rewrite <- Hr0, <- Hrpm. by apply rate_limited_full.
Qed.

(** Two requests a minute: the third within a minute is refused, a later one passes. *)
Definition auth_calls : list call :=
  (λ t, mkCall "/v1/completions" "Bearer k1" t) <$> [100; 110; 120]%Q.

Lemma rate_limit_respected_witness :
  (accepted "k1" auth_calls (configure_auth (Some " k1,k2") 2)).1 = [100; 110]%Q ∧
  2 ≤ zlen (in_window 130 (accepted "k1" auth_calls (configure_auth (Some " k1,k2") 2)).1).
Proof.
  destruct (rate_limit_respected "k1" (Some " k1,k2"%string) 2 auth_calls (mkCall "/v1/completions" "Bearer k1" 130)) as [_ H].
  - done.
  - apply (bool_decide_unpack _). vm_compute. exact I.
  - repeat constructor; discriminate.
  - split; [vm_compute; reflexivity|]. apply H; vm_compute; reflexivity.
Defined.
