(* ===== verification/CPMiddleware.v ===== *)
(** * The context-pilot middleware (serving/contextpilot_middleware.py)

    The external [ContextPilot] object is a record of callables that return any
    value or raise.  The latencies measured around the calls are arguments. *)
From Stdlib Require Import QArith String.
From S2P Require Import Prelude Json.
Open Scope Z_scope.

(** Values of the dicts the package returns, and a message as a dict. *)
Inductive atom := AStr (s : string) | ANone | AOther (tag : Z).
Definition dict : Type := list (string * atom).
Fixpoint dget (k : string) (d : dict) : option atom :=
  match d with [] => None | (k', v) :: d' => if String.eqb k k' then Some v else dget k d' end.
Fixpoint dset (k : string) (v : atom) (d : dict) : dict :=
  match d with
  | [] => [(k, v)]
  | (k', w) :: d' => if String.eqb k k' then (k', v) :: d' else (k', w) :: dset k v d'
  end.

(** What a call into the package returns: a list of dicts and other things, or
    something that is not a list (with its truth value). *)
Inductive item := IDict (d : dict) | IOther.
Inductive cpvalue := VList (l : list item) | VOther (truthy : bool).
Record ContextPilot := mkCPObj {
  optimize : list string → string → res cpvalue;
  optimize_kw : list string → string → res cpvalue;
  deduplicate : option (list dict → res cpvalue);
  cp_method : string → option (string → res unit)
}.

Record Middleware := mkMW {
  mw_enabled : bool;
  reorder_enabled : bool;
  dedup_enabled : bool;
  token_savings_total : Z;
  requests_processed : Z;
  savings_pct_total : Q;
  reorder_count : Z;
  dedup_count : Z;
  last_reorder_latency_ms : Q;
  last_dedup_latency_ms : Q;
  last_tokens_saved : Z;
  last_savings_pct : Q;
  live_index : option (gset string);      (** [self._cp.live_index] if it is a dict *)
  calls : list (string * string)          (** calls of optional methods of the package *)
}.

(** [__init__]; [available] tells whether the package is installed. *)
Definition mw_init (available enabled dedup reorder : bool) (index : option (gset string)) : Middleware :=
  mkMW (available && enabled) (available && reorder) (available && dedup) 0 0 0 0 0 0 0 0 0
    (if available then index else None) [].

(** The end of a request: the counters and the last metrics. *)
Definition note_request (saved : Z) (pct : Q) (add_pct reordered deduped : bool) (lat_r lat_d : Q) (m : Middleware)
    : Middleware :=
  mkMW (mw_enabled m) (reorder_enabled m) (dedup_enabled m) (token_savings_total m + saved) (requests_processed m + 1)
    (if add_pct then savings_pct_total m + pct else savings_pct_total m)%Q
    (if reordered then reorder_count m + 1 else reorder_count m)
    (if deduped then dedup_count m + 1 else dedup_count m)
    lat_r lat_d saved pct (live_index m) (calls m).

Section middleware.
Context (cp : ContextPilot) (py_str : atom → string).
Definition str_atom (a : atom) : string := match a with AStr s => s | a => py_str a end.

(** [_extract_query]: the last message of the user that has content. *)
Fixpoint extract_query_from (index : nat) (messages : list dict) (query : string) (last : option nat) : string * option nat :=
  match messages with
  | [] => (query, last)
  | msg :: rest =>
      match dget "role" msg, dget "content" msg with
      | Some (AStr "user"), Some ANone | Some (AStr "user"), None => extract_query_from (S index) rest query last
      | Some (AStr "user"), Some c => extract_query_from (S index) rest (str_atom c) (Some index)
      | _, _ => extract_query_from (S index) rest query last
      end
  end.
Definition extract_query (messages : list dict) : string * option nat := extract_query_from 0 messages EmptyString None.

(** The contexts of [_reorder_messages]: every content but the query. *)
Fixpoint contexts_of (index : nat) (query_index : option nat) (messages : list dict) : list string :=
  match messages with
  | [] => []
  | msg :: rest =>
      match dget "content" msg with
      | None | Some ANone => contexts_of (S index) query_index rest
      | Some c =>
          if bool_decide (query_index = Some index) && match dget "role" msg with Some (AStr "user") => true | _ => false end
          then contexts_of (S index) query_index rest
          else str_atom c :: contexts_of (S index) query_index rest
      end
  end.

(** [[dict(message) for message in optimized]] *)
Fixpoint as_dicts (l : list item) : res (list dict) :=
  match l with
  | [] => Ok []
  | IOther :: _ => Err TypeError
  | IDict d :: l' => match as_dicts l' with Ok ds => Ok (d :: ds) | Err e => Err e end
  end.

(** [_reorder_messages] *)
Definition reorder_messages (messages : list dict) : res (list dict) :=
  let '(query, query_index) := extract_query messages in
  let contexts := contexts_of 0 query_index messages in
  let use v := match v with VList l => as_dicts l | VOther _ => Ok messages end in
  match optimize cp contexts query with
  | Ok v => use v
  | Err TypeError => match optimize_kw cp contexts query with Ok v => use v | Err e => Err e end
  | Err ValueError | Err IndexError => Ok messages
  | Err e => Err e
  end.

Definition content_str (d : dict) : option string := match dget "content" d with Some (AStr s) => Some s | _ => None end.
Definition estimate (s : string) : Z := py_len s / 4.
Definition percent (saved total : Z) : Q := if 0 <? total then (inject_Z saved / inject_Z total * 100)%Q else 0%Q.

(** [_estimate_tokens_saved] *)
Definition tokens_of (l : list dict) : Z := zsum (default 0 ∘ fmap estimate ∘ content_str <$> l).
Definition estimate_tokens_saved (before after : list dict) : Z * Q :=
  let saved := Z.max 0 (tokens_of before - tokens_of after) in
  (saved, percent saved (tokens_of before)).

Definition dedup_reference (first_seen : Z) : string :=
  ("[Deduplicated content; same as message #" ++ str_of_Z first_seen ++ "]")%string.

(** [_fallback_deduplicate]: the messages, the saved tokens and the total. *)
Fixpoint fallback_loop (index : Z) (seen : gmap string Z) (messages : list dict) : list dict * Z * Z :=
  match messages with
  | [] => ([], 0, 0)
  | msg :: rest =>
      match content_str msg with
      | None => let '(out, saved, total) := fallback_loop (index + 1) seen rest in (msg :: out, saved, total)
      | Some content =>
          match seen !! content with
          | None =>
              let '(out, saved, total) := fallback_loop (index + 1) (<[content := index]> seen) rest in
              (msg :: out, saved, total + estimate content)
          | Some first_seen =>
              let '(out, saved, total) := fallback_loop (index + 1) seen rest in
              (dset "content" (AStr (dedup_reference first_seen)) msg :: out, saved + estimate content, total + estimate content)
          end
      end
  end.
Definition fallback_deduplicate (messages : list dict) : list dict * Z * Q :=
  let '(out, saved, total) := fallback_loop 0 ∅ messages in (out, saved, percent saved total).

(** The normalisation of what the package's [deduplicate] returned. *)
Definition normalize_item (i : item) : option dict :=
  match i with
  | IOther => None
  | IDict d =>
      let text k := match dget k d with None | Some ANone => EmptyString | Some a => str_atom a end in
      Some [("role", AStr (text "role")); ("content", AStr (text "content"))]%string
  end.

(** [_deduplicate_messages] *)
Definition deduplicate_messages (messages : list dict) : res (list dict * Z * Q) :=
  let use v := match v with
               | Some (VList l) =>
                   let normalized := omap normalize_item l in
                   let '(saved, pct) := estimate_tokens_saved messages normalized in Ok (normalized, saved, pct)
               | _ => Ok (fallback_deduplicate messages)
               end in
  match deduplicate cp with
  | None => use None
  | Some f =>
      match f messages with
      | Ok v => use (Some v)
      | Err TypeError | Err ValueError | Err IndexError => use None
      | Err e => Err e
      end
  end.

(** [process_chat_request] *)
Definition process_chat_request (lat_r lat_d : Q) (messages : list dict) (m : Middleware) : list dict * Middleware :=
  if negb (mw_enabled m) then (messages, m)
  else
    match messages with
    | [] => ([], m)
    | _ =>
        let optimized := if reorder_enabled m then reorder_messages messages else Ok messages in
        let failed := (messages, note_request 0 0 false false false 0 0 m) in
        match optimized with
        | Err _ => failed
        | Ok msgs =>
            match (if dedup_enabled m then deduplicate_messages msgs else Ok (msgs, 0, 0%Q)) with
            | Err _ => failed
            | Ok (out, saved, pct) =>
                (out, note_request saved pct true (reorder_enabled m) (dedup_enabled m)
                        (if reorder_enabled m then lat_r else 0%Q) (if dedup_enabled m then lat_d else 0%Q) m)
            end
        end
    end.

(** The last content that is a string; an item without [get] raises. *)
Fixpoint last_content (rev : list item) : res (option string) :=
  match rev with
  | [] => Ok None
  | IOther :: _ => Err AttributeError
  | IDict d :: l => match content_str d with Some s => Ok (Some s) | None => last_content l end
  end.

(** [process_completion_request] *)
Definition process_completion_request (lat : Q) (prompt : string) (m : Middleware) : string * Middleware :=
  if negb (mw_enabled m) then (prompt, m)
  else
    let v := match optimize cp [] prompt with Err TypeError => optimize_kw cp [] prompt | r => r end in
    let failed := (prompt, note_request 0 0 false false false 0 0 m) in
    let done s := (s, note_request 0 0 false true false lat 0 m) in
    match v with
    | Err _ => failed
    | Ok (VOther false) | Ok (VList []) => done prompt
    | Ok (VOther true) => failed       (** [reversed] of something else raises *)
    | Ok (VList l) =>
        match last_content (rev l) with
        | Err _ => failed
        | Ok (Some content) => done content
        | Ok None => done prompt
        end
    end.

(** [on_request_complete]: the optional methods in order, until one raises. *)
Definition completion_methods : list string := ["on_request_complete"; "evict"; "remove_request"; "remove"; "delete"]%string.
Fixpoint call_methods (names : list string) (rid : string) (m : Middleware) : bool * Middleware :=
  match names with
  | [] => (true, m)
  | name :: rest =>
      match cp_method cp name with
      | None => call_methods rest rid m
      | Some f =>
          let m' := mkMW (mw_enabled m) (reorder_enabled m) (dedup_enabled m) (token_savings_total m) (requests_processed m)
            (savings_pct_total m) (reorder_count m) (dedup_count m) (last_reorder_latency_ms m) (last_dedup_latency_ms m)
            (last_tokens_saved m) (last_savings_pct m) (live_index m) (calls m ++ [(name, rid)]) in
          match f rid with Ok _ => call_methods rest rid m' | Err _ => (false, m') end
      end
  end.
Definition on_request_complete (rid : string) (m : Middleware) : Middleware :=
  if negb (mw_enabled m) then m
  else
    let '(ok, m') := call_methods completion_methods rid m in
    if ok then
      mkMW (mw_enabled m') (reorder_enabled m') (dedup_enabled m') (token_savings_total m') (requests_processed m')
        (savings_pct_total m') (reorder_count m') (dedup_count m') (last_reorder_latency_ms m') (last_dedup_latency_ms m')
        (last_tokens_saved m') (last_savings_pct m') ((λ s, s ∖ {[rid]}) <$> live_index m') (calls m')
    else m'.

(** [get_token_savings]: total, average percentage and number of requests. *)
Definition get_token_savings (m : Middleware) : Z * Q * Z :=
  (token_savings_total m,
   if 0 <? requests_processed m then (savings_pct_total m / inject_Z (requests_processed m))%Q else 0%Q,
   requests_processed m).
End middleware.

(** ** The fallback deduplication loses nothing *)
Lemma dset_restore (k : string) v w d : dget k d = Some v → dset k v (dset k w d) = d.
Proof.
  induction d as [|[k' u] d IH]; [done|]. cbn. destruct (String.eqb k k') eqn:E; cbn.
  - intros [= ->]. by rewrite E.
  - intros H. rewrite E. f_equal. by apply IH.
Qed.

(** The output for message [i]: the message itself, or the message with its
    content replaced by a reference to an earlier message of the same content
    that was kept. *)
Definition deduped_at (messages out : list dict) (i : nat) (msg msg' : dict) : Prop :=
  msg' = msg ∨
  ∃ content j orig, content_str msg = Some content ∧ (j < i)%nat ∧
    messages !! j = Some orig ∧ out !! j = Some orig ∧ content_str orig = Some content ∧
    msg' = dset "content" (AStr (dedup_reference (Z.of_nat j))) msg.

(** [seen] has kept messages with their contents. *)
Definition seen_ok (pre out : list dict) (seen : gmap string Z) : Prop :=
  ∀ c z, seen !! c = Some z → ∃ j orig, z = Z.of_nat j ∧ pre !! j = Some orig ∧ out !! j = Some orig ∧ content_str orig = Some c.

Lemma seen_ok_snoc pre out seen msg msg' : length pre = length out → seen_ok pre out seen → seen_ok (pre ++ [msg]) (out ++ [msg']) seen.
Proof.
  intros Hl Hs c z Hc. destruct (Hs c z Hc) as (j & orig & -> & H1 & H2 & H3). exists j, orig.
  split_and!; [done|by apply lookup_app_l_Some..|done].
Qed.

Lemma estimate_nonneg s : 0 ≤ estimate s.
Proof.
  unfold estimate. apply Z.div_pos; [|lia]. induction s as [|c s IH]; [done|]. cbn [py_len].
  destruct (continuation c); lia.
Qed.

Definition dedup_ok (messages out : list dict) : Prop :=
  length out = length messages ∧
  ∀ i msg, messages !! i = Some msg → ∃ msg', out !! i = Some msg' ∧ deduped_at messages out i msg msg'.

Lemma fallback_loop_ok messages pre opre seen :
  length pre = length opre → seen_ok pre opre seen → dedup_ok pre opre →
  let '(out, saved, total) := fallback_loop (zlen pre) seen messages in
  dedup_ok (pre ++ messages) (opre ++ out) ∧ 0 ≤ saved ≤ total.
Proof.
  revert pre opre seen. induction messages as [|msg rest IH]; intros pre opre seen Hl Hs Hd.
  - cbn. rewrite !app_nil_r. split; [done|lia].
  - assert (∀ msg' seen', deduped_at (pre ++ [msg]) (opre ++ [msg']) (length pre) msg msg' →
      seen_ok (pre ++ [msg]) (opre ++ [msg']) seen' →
      let '(out, saved, total) := fallback_loop (zlen pre + 1) seen' rest in
      dedup_ok (pre ++ msg :: rest) (opre ++ msg' :: out) ∧ 0 ≤ saved ≤ total) as Hstep.
    { intros msg' seen' Hm Hs'. specialize (IH (pre ++ [msg]) (opre ++ [msg']) seen').
      replace (zlen (pre ++ [msg])) with (zlen pre + 1) in IH by (unfold zlen; rewrite length_app; cbn; lia).
      destruct (fallback_loop (zlen pre + 1) seen' rest) as [[out saved] total].
      rewrite <- !app_assoc in IH. apply IH; [by rewrite !length_app, Hl|done|].
      split; [rewrite !length_app; cbn; destruct Hd; lia|]. intros i m Hi. destruct Hd as [_ Hd].
      apply lookup_app_Some in Hi as [Hi|[Hge Hi]].
      - destruct (Hd i m Hi) as (m' & Ho & Hdd). exists m'. split; [by apply lookup_app_l_Some|].
        destruct Hdd as [->|(c & j & orig & H1 & H2 & H3 & H4 & H5 & ->)]; [by left|]. right. exists c, j, orig.
        split_and!; try done; by apply lookup_app_l_Some.
      - apply list_lookup_singleton_Some in Hi as [Hi <-]. exists msg'. replace i with (length pre) by lia. split; [|done].
        rewrite Hl. by rewrite list_lookup_middle. }
    cbn [fallback_loop]. destruct (content_str msg) as [content|] eqn:Hc.
    + destruct (seen !! content) as [z|] eqn:Hseen.
      * destruct (Hs content z Hseen) as (j & orig & -> & H1 & H2 & H3).
        specialize (Hstep (dset "content" (AStr (dedup_reference (Z.of_nat j))) msg) seen).
        destruct (fallback_loop (zlen pre + 1) seen rest) as [[out saved] total].
        destruct Hstep as [Hok Hb]; [|by apply seen_ok_snoc|].
        -- right. exists content, j, orig. split_and!; try done; try by apply lookup_app_l_Some. by eapply lookup_lt_Some.
        -- split; [done|]. pose proof (estimate_nonneg content). lia.
      * specialize (Hstep msg (<[content := zlen pre]> seen)).
        destruct (fallback_loop (zlen pre + 1) (<[content := zlen pre]> seen) rest) as [[out saved] total].
        destruct Hstep as [Hok Hb]; [by left| |split; [done|pose proof (estimate_nonneg content); lia]].
        intros c z [[<- <-]|[_ Hcz]]%lookup_insert_Some; [|by apply (seen_ok_snoc pre opre seen)].
        exists (length pre), msg. split_and!; [done|by rewrite list_lookup_middle| |done].
        rewrite Hl. by rewrite list_lookup_middle.
    + specialize (Hstep msg seen). destruct (fallback_loop (zlen pre + 1) seen rest) as [[out saved] total].
      apply Hstep; [by left|by apply seen_ok_snoc].
Qed.

Lemma percent_bounds saved total : 0 ≤ saved ≤ total → (0 <= percent saved total <= 100)%Q.
Proof.
  intros [H1 H2]. unfold percent. destruct (Z.ltb_spec 0 total) as [H|H]; [|split; discriminate].
  assert (0 < inject_Z total)%Q as Hp by (by rewrite <- (Zlt_Qlt 0)). split.
  - apply Qmult_le_0_compat; [|discriminate]. apply Qle_shift_div_l; [done|]. rewrite Qmult_0_l. by rewrite <- (Zle_Qle 0).
  - apply Qle_trans with (1 * 100)%Q; [|discriminate]. apply Qmult_le_compat_r; [|discriminate].
    apply Qle_shift_div_r; [done|]. rewrite Qmult_1_l. by rewrite <- Zle_Qle.
Qed.

(** Deduplication of a conversation loses nothing.  The fallback keeps the
    number and order of the messages; each is returned unchanged, or with only its
    content replaced by a reference to an earlier message that was returned
    unchanged and has the very same content, so putting that content back gives
    the original message; and the reported saving lies between 0 and 100
    percent. *)
Theorem fallback_dedup_lossless messages :
  let '(out, saved, pct) := fallback_deduplicate messages in
  length out = length messages ∧ 0 ≤ saved ∧ (0 <= pct <= 100)%Q ∧
  ∀ i msg, messages !! i = Some msg → ∃ msg', out !! i = Some msg' ∧
    (msg' = msg ∨
     ∃ j orig content, (j < i)%nat ∧ out !! j = Some orig ∧ messages !! j = Some orig ∧
       dget "content" orig = Some (AStr content) ∧
       dget "content" msg = Some (AStr content) ∧
       msg' = dset "content" (AStr (dedup_reference (Z.of_nat j))) msg ∧
       dset "content" (AStr content) msg' = msg).
Proof.
  unfold fallback_deduplicate. pose proof (fallback_loop_ok messages [] [] ∅) as H.
  change (zlen []) with 0 in H. destruct (fallback_loop 0 ∅ messages) as [[out saved] total].
  destruct H as [[Hlen Hok] Hb]; [done|by intros c z Hc|by split|]. cbn [app] in *.
  split_and!; [done|lia|by apply percent_bounds..|]. intros i msg Hi.
  destruct (Hok i msg Hi) as (msg' & Ho & Hd). exists msg'. split; [done|].
  assert (∀ d c, content_str d = Some c → dget "content" d = Some (AStr c)) as Hget.
  { intros d c. unfold content_str. destruct (dget "content" d) as [[]|]; intros [= <-]; done. }
  destruct Hd as [->|(c & j & orig & H1 & H2 & H3 & H4 & H5 & ->)]; [by left|]. right.
  exists j, orig, c. split_and!; auto. by apply dset_restore, Hget.
Qed.


Lemma deduplicate_saves cp py_str messages out saved pct :
  deduplicate_messages cp py_str messages = Ok (out, saved, pct) → 0 ≤ saved.
Proof.
  assert (∀ o s p, fallback_deduplicate messages = (o, s, p) → 0 ≤ s) as Hf.
  { intros o s p. unfold fallback_deduplicate. pose proof (fallback_loop_ok messages [] [] ∅) as H.
    change (zlen []) with 0 in H. destruct (fallback_loop 0 ∅ messages) as [[out' saved'] total].
    destruct H as [_ Hb]; [done|by intros c z Hc|by split|]. intros [= <- <- <-]. lia. }
  unfold deduplicate_messages, estimate_tokens_saved. intros H.
  repeat case_match; simplify_eq; first [lia|by eapply Hf].
Qed.

(** A non-empty chat request of an enabled middleware counts once, and the tokens
    it saved are added to the total, whatever the package does. *)
Lemma chat_request_counted cp py_str lat_r lat_d messages m :
  mw_enabled m = true → messages ≠ [] →
  let m' := (process_chat_request cp py_str lat_r lat_d messages m).2 in
  requests_processed m' = requests_processed m + 1 ∧
  token_savings_total m' = token_savings_total m + last_tokens_saved m' ∧ 0 ≤ last_tokens_saved m'.
Proof.
  intros He Hne. unfold process_chat_request. rewrite He. cbn [negb]. destruct messages as [|msg rest]; [done|].
  destruct (if reorder_enabled m then reorder_messages cp py_str (msg :: rest) else Ok (msg :: rest)) as [msgs|e]; [|cbn; lia].
  destruct (if dedup_enabled m then deduplicate_messages cp py_str msgs else Ok (msgs, 0, 0%Q)) as [[[out saved] pct]|e] eqn:Hd; [|cbn; lia].
  cbn. split_and!; [done..|]. destruct (dedup_enabled m); [by eapply deduplicate_saves|]. by injection Hd as _ <- _.
Qed.
