(* ===== verification/Watchdog.v ===== *)
(** * Health state and watchdogs (serving/health.py, serving/watchdog.py)

    The watchdogs are daemon threads that wake up, read a clock and the flags the
    server sets, and mark the server unhealthy.  One wake-up is one step; the
    clock is an argument.  The texts of reasons and logs are left out. *)
From Stdlib Require Import QArith.
From S2P Require Import Prelude.
Open Scope Z_scope.

Inductive HealthState := STARTING | HEALTHY | UNHEALTHY.
#[export] Instance HealthState_eq_dec : EqDecision HealthState.
Proof. solve_decision. Defined.

Inductive reason := StartupTimeout (timeout : Q) | DecodeTimeout (elapsed : Q).
Record ServerHealthState := mkHealth { health : HealthState; health_reason : option reason }.
Definition health_init : ServerHealthState := mkHealth STARTING None.
Definition set_healthy (h : ServerHealthState) : ServerHealthState := mkHealth HEALTHY None.
Definition set_unhealthy (r : reason) (h : ServerHealthState) : ServerHealthState := mkHealth UNHEALTHY (Some r).
Definition set_starting (h : ServerHealthState) : ServerHealthState := mkHealth STARTING None.
Definition is_healthy (h : ServerHealthState) : bool := bool_decide (health h = HEALTHY).
Definition get_status_dict (h : ServerHealthState) : HealthState * option reason := (health h, health_reason h).

Definition Qlt_bool (a b : Q) : bool := negb (Qle_bool b a).

(** [WatchdogConfig] and its [__post_init__] *)
Record WatchdogConfig := mkWC { startup_timeout : option Q; decode_step_timeout : option Q; enable_pyspy_dump : bool }.
Definition wc_post_init (c : WatchdogConfig) : res unit :=
  if match startup_timeout c with Some t => Qle_bool t 0 | None => false end then Err ValueError
  else if match decode_step_timeout c with Some t => Qle_bool t 0 | None => false end then Err ValueError
  else Ok tt.
Definition is_startup_watchdog_enabled (c : WatchdogConfig) : bool := bool_decide (is_Some (startup_timeout c)).
Definition is_decode_watchdog_enabled (c : WatchdogConfig) : bool := bool_decide (is_Some (decode_step_timeout c)).

(** ** StartupWatchdog *)

(** The thread: its deadline, and what one turn of its loop does.  [HardExit] ends
    the process. *)
Inductive turn := Sleep | Return | HardExit.
Record StartupWatchdog := mkSW { sw_timeout : Q; sw_deadline : Q; sw_cancelled : bool }.
Definition startup_start (c : WatchdogConfig) (now : Q) : option StartupWatchdog :=
  match startup_timeout c with Some t => Some (mkSW t (now + t) false) | None => None end.
Definition startup_turn (is_ready : bool) (now : Q) (w : StartupWatchdog) (h : ServerHealthState) : turn * ServerHealthState :=
  if sw_cancelled w then (Return, h)
  else if is_ready then (Return, h)
  else if Qle_bool (sw_deadline w) now then (HardExit, set_unhealthy (StartupTimeout (sw_timeout w)) h)
  else (Sleep, h).
Definition startup_cancel (w : StartupWatchdog) : StartupWatchdog := mkSW (sw_timeout w) (sw_deadline w) true.

(** ** DecodeWatchdog *)
Record DecodeWatchdog := mkDW { dw_timeout : Q; dw_active : bool; dw_stopped : bool; dw_last_feed : Q }.
Definition decode_start (c : WatchdogConfig) (now : Q) : option DecodeWatchdog :=
  match decode_step_timeout c with Some t => Some (mkDW t false false now) | None => None end.
Definition feed (now : Q) (w : DecodeWatchdog) : DecodeWatchdog := mkDW (dw_timeout w) (dw_active w) (dw_stopped w) now.
Definition activate (now : Q) (w : DecodeWatchdog) : DecodeWatchdog := mkDW (dw_timeout w) true (dw_stopped w) now.
Definition deactivate (w : DecodeWatchdog) : DecodeWatchdog := mkDW (dw_timeout w) false (dw_stopped w) (dw_last_feed w).
Definition stop_watchdog (w : DecodeWatchdog) : DecodeWatchdog := mkDW (dw_timeout w) (dw_active w) true (dw_last_feed w).
Definition decode_turn (now : Q) (w : DecodeWatchdog) (h : ServerHealthState) : turn * ServerHealthState :=
  if dw_stopped w then (Return, h)
  else if dw_active w && Qlt_bool (dw_timeout w) (now - dw_last_feed w)
  then (Sleep, set_unhealthy (DecodeTimeout (now - dw_last_feed w)) h)
  else (Sleep, h).

(** ** Histories of a decode watchdog and the loop it watches *)
Inductive dw_event := DwActivate (now : Q) | DwFeed (now : Q) | DwDeactivate | DwStop | DwTurn (now : Q).
Definition dw_step (ev : dw_event) (s : DecodeWatchdog * ServerHealthState) : DecodeWatchdog * ServerHealthState :=
  match ev with
  | DwActivate now => (activate now s.1, s.2)
  | DwFeed now => (feed now s.1, s.2)
  | DwDeactivate => (deactivate s.1, s.2)
  | DwStop => (stop_watchdog s.1, s.2)
  | DwTurn now => (s.1, (decode_turn now s.1 s.2).2)
  end.
Definition dw_run (evs : list dw_event) (s : DecodeWatchdog * ServerHealthState) : DecodeWatchdog * ServerHealthState :=
  foldl (λ s ev, dw_step ev s) s evs.

(** A specification in terms of the events alone: whether the loop is decoding
    after [evs], and when it last reported progress. *)
Fixpoint last_report (evs : list dw_event) (start : Q) : Q :=
  match evs with
  | [] => start
  | DwActivate t :: evs' | DwFeed t :: evs' => last_report evs' t
  | _ :: evs' => last_report evs' start
  end.
Fixpoint decoding (evs : list dw_event) (was : bool) : bool :=
  match evs with
  | [] => was
  | DwActivate _ :: evs' => decoding evs' true
  | DwDeactivate :: evs' => decoding evs' false
  | _ :: evs' => decoding evs' was
  end.
(** A turn of the watchdog at [now] after [before] finds a step overdue. *)
Definition overdue (timeout start : Q) (before : list dw_event) (now : Q) : Prop :=
  (DwStop ∉ before) ∧ decoding before false = true ∧ (timeout < now - last_report before start)%Q.

Lemma last_report_snoc evs ev start :
  last_report (evs ++ [ev]) start = match ev with DwActivate t | DwFeed t => t | _ => last_report evs start end.
Proof. revert start. induction evs as [|[t|t| | |t] evs IH]; intros start; cbn; try apply IH. by destruct ev. Qed.
Lemma decoding_snoc evs ev was :
  decoding (evs ++ [ev]) was = match ev with DwActivate _ => true | DwDeactivate => false | _ => decoding evs was end.
Proof. revert was. induction evs as [|[t|t| | |t] evs IH]; intros was; cbn; try apply IH. by destruct ev. Qed.

Lemma dw_run_snoc evs ev s : dw_run (evs ++ [ev]) s = dw_step ev (dw_run evs s).
Proof. unfold dw_run. by rewrite foldl_app. Qed.

Lemma dw_run_watchdog evs t start h :
  let w := (dw_run evs (mkDW t false false start, h)).1 in
  dw_timeout w = t ∧ dw_active w = decoding evs false ∧ dw_last_feed w = last_report evs start ∧
  (dw_stopped w = true ↔ DwStop ∈ evs).
Proof.
  induction evs as [|ev evs IH] using rev_ind; cbn [dw_run]; cbv zeta in *.
  - cbn. split_and!; try done. by rewrite elem_of_nil.
  - rewrite dw_run_snoc, last_report_snoc, decoding_snoc, elem_of_app, list_elem_of_singleton.
    destruct IH as (H1 & H2 & H3 & H4). destruct ev; cbn; (split; [done|]; split; [done|]; split; [done|]); naive_solver.
Qed.

(** The decode watchdog is exact.  Over any interleaving of its wake-ups with
    the activations, reports of progress, deactivations and stop of the engine
    loop, from a healthy server: the server is unhealthy exactly if at some
    wake-up before the stop the loop was decoding and its last report was longer
    ago than the configured time-out.  In particular, steps that all finish in
    time never raise an alarm, idle time never does, and an alarm is never taken
    back by the loop's later progress. *)
Theorem decode_watchdog_exact t start evs :
  health (dw_run evs (mkDW t false false start, set_healthy health_init)).2 = UNHEALTHY ↔
  ∃ before now after, evs = before ++ DwTurn now :: after ∧ overdue t start before now.
Proof.
  induction evs as [|ev evs IH] using rev_ind.
  - split; [done|]. intros (b & now & a & H & _). by destruct b.
  - rewrite dw_run_snoc. set (s := dw_run evs _) in *.
    assert ((∃ before now after, evs ++ [ev] = before ++ DwTurn now :: after ∧ overdue t start before now) ↔
            (∃ before now after, evs = before ++ DwTurn now :: after ∧ overdue t start before now) ∨
            (∃ now, ev = DwTurn now ∧ overdue t start evs now)) as ->.
    { split.
      - intros (b & now & a & H & Ho). destruct a as [|x a _] using rev_ind.
        + apply app_inj_tail in H as [-> ->]. right. eauto.
        + rewrite app_comm_cons, app_assoc in H. apply app_inj_tail in H as [-> _]. left. eauto.
      - intros [(b & now & a & -> & Ho)|(now & -> & Ho)].
        + exists b, now, (a ++ [ev]). by rewrite <- app_assoc.
        + by exists evs, now, []. }
    rewrite <- IH. clear IH. pose proof (dw_run_watchdog evs t start (set_healthy health_init)) as Hw.
    fold s in Hw. destruct Hw as (H1 & H2 & H3 & H4).
    destruct ev as [n|n| | |n]; try (cbn; split; [by left|by intros [?|(? & ? & _)]]).
    cbn. unfold decode_turn, overdue. rewrite H1, H2, H3.
    assert (∀ a b : Q, Qlt_bool a b = true ↔ (a < b)%Q) as Hlt.
    { intros a b. unfold Qlt_bool. rewrite negb_true_iff, <- not_true_iff_false, Qle_bool_iff.
      split; [apply Qnot_le_lt|apply Qlt_not_le]. }
    destruct (dw_stopped s.1) eqn:Hst; cbn.
    + split; [by left|]. intros [?|(n' & [= <-] & Hn & _)]; [done|]. exfalso. by apply Hn, H4.
    + assert (DwStop ∉ evs) by (intros Hin; apply H4 in Hin; congruence).
      destruct (decoding evs false && Qlt_bool t (n - last_report evs start)) eqn:E; cbn.
      * apply andb_true_iff in E as [E1 E2%Hlt]. split; [|done]. intros _. right. by exists n.
      * split; [by left|]. intros [?|(n' & [= <-] & _ & Hd & Hl)]; [done|]. apply Hlt in Hl. by rewrite Hd, Hl in E.
Qed.

(** The startup watchdog exits the process only after its deadline, and never
    once the server is ready or the watchdog is cancelled. *)
Lemma startup_exit_late c now0 w ready now h :
  startup_start c now0 = Some w → (startup_turn ready now w h).1 = HardExit →
  ready = false ∧ ∃ t, startup_timeout c = Some t ∧ (now0 + t <= now)%Q.
Proof.
  unfold startup_start, startup_turn. destruct (startup_timeout c) as [t|]; [|done]. intros [= <-]. cbn.
  destruct ready; [done|]. destruct (Qle_bool (now0 + t) now) eqn:E; [|done]. intros _. split; [done|].
  exists t. split; [done|]. by apply Qle_bool_iff.
Qed.
