(* ===== verification/ApiServer.v ===== *)
(** * The HTTP server (entrypoints/openai/api_server_v2.py)

    The handlers run on one event loop: between two [await]s nothing interleaves.
    They use the engine through the interface [ServingEngine]; the engine loop is
    a task of the same event loop, and a handler that waits for its result polls
    while that task runs.  A schedule lists what happens while it waits.

    The tokenizer, the external context-pilot package, the clock and the uuids
    are parameters.  The texts of errors and the time stamps of responses are left
    out. *)
From Stdlib Require Import QArith String.
From S2P Require Import Prelude Json Sequence Engine Stream Validation ApiResults ApiAuth CPMiddleware Watchdog.
Open Scope Z_scope.

(** ** What the server needs of an engine *)
Class ServingEngine (E : Type) := {
  api_add_request : string → list Z → SamplingParams → Z → M E unit;
  api_abort_request : string → M E unit;
  api_step : M E (list RequestOutput);
  api_has_pending : E → bool;
  api_num_waiting : E → Z
}.

(** ** State *)

(** The callback a handler registered with the engine: [on_stream_token] pushes to
    the request's stream, [on_token] collects results. *)
Inductive Waiter := WaitStream | WaitCollect (expected num_prompt : Z) (with_logprobs : bool) (c : Collector).

(** [_engine_task] and [_engine_shutdown_event] *)
Inductive task := NoTask | Running | Done (failed : option exn).
Record CPState := mkCPS {
  contextpilot_enabled : bool;
  contextpilot_debug : bool;
  contextpilot_fault : string;
  fallback_count : Z;
  last_fallback_count : Z;
  cp_middleware : option Middleware;
  cp_reorder_latencies : list Q        (** [deque(maxlen=100)] *)
}.

Record Server (E : Type) := mkServer {
  srv_engine : option E;
  srv_streams : option StreamManager;
  srv_waiters : gmap string Waiter;
  srv_task : task;
  srv_shutdown : option bool;          (** the shutdown event, and whether it is set *)
  srv_watchdog : option DecodeWatchdog;
  srv_health : ServerHealthState;
  srv_max_seq_length : Z;              (** [runtime_max_seq_length] *)
  srv_cp : CPState
}.
Arguments mkServer {E}. Arguments srv_max_seq_length {E}. Arguments srv_engine {E}. Arguments srv_streams {E}. Arguments srv_waiters {E}.
Arguments srv_task {E}. Arguments srv_shutdown {E}. Arguments srv_watchdog {E}. Arguments srv_health {E}. Arguments srv_cp {E}.

(** A tokenizer with its optional methods. *)
Record TokenizerAPI := mkTokAPI {
  encode : option (string → res (option (list Z)));      (** [None]: not a list *)
  chat_template : option (list dict → res string);
  tok_decode : option Tokenizer
}.

Inductive api_response :=
  | RError (e : ErrorResponse)
  | RCompletion (choices : list (Z * FinalSequenceResult)) (prompt_tokens completion_tokens : Z)
  | RChat (choices : list (Z * FinalSequenceResult)) (prompt_tokens completion_tokens : Z)
  | RStream (rid : string).

Definition service_starting : ErrorResponse := create_error_response 503 "server_error" "service_starting" None.
Definition context_length_exceeded : ErrorResponse :=
  create_error_response 400 "invalid_request_error" "context_length_exceeded" None.

Section server.
Context {E : Type} `{!ServingEngine E}.
(** The module's globals that only start-up sets, and the environment. *)
Context (tokenizer : option TokenizerAPI) (model_name_global : option string) (max_waiting max_n : Z) (env_enabled : bool).
(** The context-pilot package, [str] of other values, and what the constructor of
    the middleware returns. *)
Context (cp : ContextPilot) (py_str_atom : atom → string) (py_str : pyval → string) (make_middleware : res Middleware).
Local Abbreviation Srv := (Server E).
Implicit Types s : Srv.

Definition set_engine (e : option E) s : Srv :=
  mkServer e (srv_streams s) (srv_waiters s) (srv_task s) (srv_shutdown s) (srv_watchdog s) (srv_health s) (srv_max_seq_length s) (srv_cp s).
Definition set_streams (m : option StreamManager) s : Srv :=
  mkServer (srv_engine s) m (srv_waiters s) (srv_task s) (srv_shutdown s) (srv_watchdog s) (srv_health s) (srv_max_seq_length s) (srv_cp s).
Definition set_waiters (w : gmap string Waiter) s : Srv :=
  mkServer (srv_engine s) (srv_streams s) w (srv_task s) (srv_shutdown s) (srv_watchdog s) (srv_health s) (srv_max_seq_length s) (srv_cp s).
Definition set_task (t : task) (ev : option bool) s : Srv :=
  mkServer (srv_engine s) (srv_streams s) (srv_waiters s) t ev (srv_watchdog s) (srv_health s) (srv_max_seq_length s) (srv_cp s).
Definition set_watchdog (w : option DecodeWatchdog) s : Srv :=
  mkServer (srv_engine s) (srv_streams s) (srv_waiters s) (srv_task s) (srv_shutdown s) w (srv_health s) (srv_max_seq_length s) (srv_cp s).
Definition set_health (h : ServerHealthState) s : Srv :=
  mkServer (srv_engine s) (srv_streams s) (srv_waiters s) (srv_task s) (srv_shutdown s) (srv_watchdog s) h (srv_max_seq_length s) (srv_cp s).
Definition set_max_seq (n : Z) s : Srv :=
  mkServer (srv_engine s) (srv_streams s) (srv_waiters s) (srv_task s) (srv_shutdown s) (srv_watchdog s) (srv_health s) n (srv_cp s).
Definition set_cp (c : CPState) s : Srv :=
  mkServer (srv_engine s) (srv_streams s) (srv_waiters s) (srv_task s) (srv_shutdown s) (srv_watchdog s) (srv_health s) (srv_max_seq_length s) c.

(** A call of a method of the engine or of the stream manager. *)
Definition on_engine {A} (m : M E A) : M Srv A := λ s,
  match srv_engine s with
  | Some e => let '(r, e') := m e in (r, set_engine (Some e') s)
  | None => (Err (HTTPException 503), s)
  end.
Definition on_streams {A} (m : M StreamManager A) : M Srv A := λ s,
  match srv_streams s with
  | Some sm => let '(r, sm') := m sm in (r, set_streams (Some sm') s)
  | None => (Err (HTTPException 503), s)
  end.
Definition lift_res {A} (r : res A) : M Srv A := λ s, (r, s).

(** [_ensure_runtime_ready] *)
Definition ensure_runtime_ready : M Srv unit :=
  s ← get;
  match srv_engine s, srv_streams s with
  | Some _, Some _ => mret tt
  | _, _ => raise (HTTPException 503)
  end.

(** ** Context pilot *)
Definition upd_cp (f : CPState → CPState) : M Srv unit := modify (λ s, set_cp (f (srv_cp s)) s).
Definition is_contextpilot_active s : bool := contextpilot_enabled (srv_cp s) && env_enabled.
Definition with_middleware (mw : option Middleware) (c : CPState) : CPState :=
  mkCPS (contextpilot_enabled c) (contextpilot_debug c) (contextpilot_fault c) (fallback_count c)
    (last_fallback_count c) mw (cp_reorder_latencies c).

(** [_ensure_cp_middleware_initialized] *)
Definition ensure_cp_middleware : M Srv (option Middleware) :=
  s ← get;
  if negb (is_contextpilot_active s) then mret None
  else
    match cp_middleware (srv_cp s) with
    | Some mw => mret (Some mw)
    | None =>
        match make_middleware with
        | Err _ => mret None
        | Ok mw => upd_cp (with_middleware (Some mw)) ≫= λ _, mret (Some mw)
        end
    end.

(** [_record_contextpilot_fallback] *)
Definition record_fallback (c : CPState) : CPState :=
  mkCPS (contextpilot_enabled c) (contextpilot_debug c) (contextpilot_fault c) (fallback_count c + 1)
    (fallback_count c + 1) (cp_middleware c) (cp_reorder_latencies c).
(** [_record_contextpilot_reorder_latency] *)
Definition append_latency (l : Q) (c : CPState) : CPState :=
  let all := cp_reorder_latencies c ++ [l] in
  mkCPS (contextpilot_enabled c) (contextpilot_debug c) (contextpilot_fault c) (fallback_count c)
    (last_fallback_count c) (cp_middleware c) (drop (length all - 100) all).

(** The common shape of the two [_process_..._with_contextpilot] functions; the
    middleware itself never raises. *)
Definition with_contextpilot {A} (x : A) (process : Middleware → A * Middleware) : M Srv A :=
  s ← get;
  if negb (is_contextpilot_active s) then mret x
  else
    mw ← ensure_cp_middleware;
    match mw with
    | None => mret x
    | Some mw =>
        s ← get;
        if negb (String.eqb (contextpilot_fault (srv_cp s)) "none")
        then upd_cp record_fallback ≫= λ _, mret x
        else
          let '(y, mw') := process mw in
          upd_cp (λ c, append_latency (last_reorder_latency_ms mw') (with_middleware (Some mw') c)) ≫= λ _,
          mret y
    end.

(** [_process_completion_prompt_with_contextpilot] *)
Definition process_prompt (lat : Q) (p : string) : M Srv string :=
  with_contextpilot p (process_completion_request cp lat p).
(** [_process_chat_messages_with_contextpilot] *)
Definition as_dict (m : message) : dict := (λ p, (p.1, AStr p.2)) <$> m.
Inductive chat_input := ChatText (s : string) | ChatList (l : list dict).
Definition process_messages (lat_r lat_d : Q) (m : messages) : M Srv chat_input :=
  match m with
  | MessagesText t => mret (ChatText t)
  | MessagesList l =>
      out ← with_contextpilot (as_dict <$> l) (process_chat_request cp py_str_atom lat_r lat_d (as_dict <$> l));
      mret (ChatList out)
  end.

(** ** Prompts *)

(** [_tokenize_text] *)
Definition tokenize_text (p : string) : res (list Z) :=
  match tokenizer with
  | None => Err (HTTPException 503)
  | Some t =>
      match encode t with
      | None => Err (HTTPException 500)
      | Some f =>
          match f p with
          | Ok (Some ids) => Ok ids
          | Ok None => Err (HTTPException 500)
          | Err e => Err e
          end
      end
  end.

(** [_chat_prompt_to_token_ids] *)
Definition field_or (k dflt : string) (d : dict) : string :=
  match dget k d with Some a => str_atom py_str_atom a | None => dflt end.
Definition render_messages (l : list dict) : string :=
  (join (String newline "") ((λ d, field_or "role" "user" d ++ ": " ++ field_or "content" "" d) <$> l)
     ++ String newline "assistant:")%string.
Definition chat_prompt_to_token_ids (m : chat_input) : res (list Z) :=
  match tokenizer with
  | None => Err (HTTPException 503)
  | Some t =>
      match m with
      | ChatText s => tokenize_text s
      | ChatList l =>
          match chat_template t with
          | Some f => match f l with Ok p => tokenize_text p | Err e => Err e end
          | None => tokenize_text (render_messages l)
          end
      end
  end.

(** ** The engine loop *)

Definition reason_text (r : finish_reason) : string := match r with FinishStop => "stop" | FinishLength => "length" end.
Definition decode_text (o : RequestOutput) : string :=
  decode_token_text py_str (tokenizer ≫= tok_decode) (ro_token_id o) (ro_token_text o).

(** The callback of the request, with one output. *)
Definition run_callback (o : RequestOutput) : M Srv unit :=
  s ← get;
  match srv_waiters s !! ro_request_id o with
  | None => mret tt
  | Some WaitStream =>
      on_streams (push_token (ro_request_id o) (decode_text o) (ro_finished o) (reason_text <$> ro_finish_reason o) "" 0)
  | Some (WaitCollect expected np lp c) =>
      modify (λ s, set_waiters (<[ro_request_id o :=
        WaitCollect expected np lp (on_token py_str (tokenizer ≫= tok_decode) np lp expected o c)]> (srv_waiters s)) s)
  end.

(** [engine.step()] with the callbacks it runs on its outputs. *)
Definition engine_step : M Srv unit :=
  outs ← on_engine api_step;
  for_each outs run_callback.

(** One turn of [_engine_loop]; an exception ends the task. *)
Definition engine_loop_turn (now now' : Q) : Srv → Srv := λ s,
  match srv_task s with
  | Running =>
      match srv_shutdown s with
      | None | Some true => set_task (Done None) (srv_shutdown s) s
      | Some false =>
          match srv_engine s with
          | None => s
          | Some e =>
              if api_has_pending e then
                let s1 := set_watchdog (activate now <$> srv_watchdog s) s in
                match engine_step s1 with
                | (Ok _, s2) => set_watchdog (feed now' <$> srv_watchdog s2) s2
                | (Err er, s2) => set_task (Done (Some er)) (srv_shutdown s2) s2
                end
              else set_watchdog (deactivate <$> srv_watchdog s) s
          end
      end
  | _ => s
  end.

(** [_ensure_engine_loop_running] *)
Definition ensure_engine_loop_running (s : Srv) : Srv :=
  match srv_engine s with
  | None => s
  | Some _ => set_task Running (Some false) s
  end.

(** ** Waiting for a result *)
Inductive sched_event := LoopTurn (now now' : Q) | Poll (disconnected : bool).

Definition collector_of (rid : string) s : Collector :=
  match srv_waiters s !! rid with Some (WaitCollect _ _ _ c) => c | _ => no_results end.

(** The loop of [_wait_non_stream_result] over what happens while it runs;
    [None] when the schedule ends first. *)
Fixpoint wait_loop (rid : string) (lp : bool) (sched : list sched_event)
    : M Srv (option (list FinalSequenceResult * list sched_event)) :=
  match sched with
  | [] => mret None
  | LoopTurn now now' :: sched' => modify (engine_loop_turn now now') ≫= λ _, wait_loop rid lp sched'
  | Poll disconnected :: sched' =>
      s ← get;
      if done_event (collector_of rid s) then mret (Some (final_results lp (collector_of rid s), sched'))
      else if disconnected then
        on_engine (api_abort_request rid) ≫= λ _,
        modify (λ s, set_waiters (delete rid (srv_waiters s)) s) ≫= λ _,
        raise (HTTPException 499)
      else wait_loop rid lp sched'
  end.

(** [_wait_non_stream_result] *)
Definition wait_non_stream_result (rid : string) (prompt : list Z) (sp : SamplingParams) (expected : Z) (sched : list sched_event)
    : M Srv (option (list FinalSequenceResult * list sched_event)) :=
  ensure_runtime_ready ≫= λ _,
  on_engine (api_add_request rid prompt sp expected) ≫= λ _,
  modify (λ s, set_waiters (<[rid := WaitCollect expected (zlen prompt) (0 <? logprobs sp) no_results]> (srv_waiters s)) s) ≫= λ _,
  wait_loop rid (0 <? logprobs sp) sched.

(** ** Handlers *)

(** [request.model or model_name_global or "unknown"] *)
Definition resolve_model_name (model : string) : string :=
  if String.eqb model EmptyString
  then match model_name_global with
       | Some m => if String.eqb m EmptyString then "unknown"%string else m
       | None => "unknown"%string
       end
  else model.

(** The token ids of a prompt of a completion request. *)
Definition prompt_ids (lat : Q) (p : one_prompt) : M Srv (list Z) :=
  match p with
  | TokenPrompt ids => mret ids
  | TextPrompt t => t' ← process_prompt lat t; lift_res (tokenize_text t')
  end.

(** The part of the streaming branches that both handlers share. *)
Definition start_stream (rid model uid : string) (now : Z) (prompt : list Z) (sp : SamplingParams) : M Srv api_response :=
  on_streams (create_stream rid model uid now) ≫= λ _,
  on_engine (api_add_request rid prompt sp 1) ≫= λ _,
  modify (λ s, set_waiters (<[rid := WaitStream]> (srv_waiters s)) s) ≫= λ _,
  mret (RStream rid).

Definition number_from {A} (k : Z) (l : list A) : list (Z * A) := zip (seqZ k (zlen l)) l.
Definition sum_completion (l : list FinalSequenceResult) : Z := zsum (completion_tokens ∘ fr_usage <$> l).

(** The loop over the prompts of a completion request. *)
Fixpoint completion_loop (req : CompletionRequest) (sp : SamplingParams) (max_tokens : Z) (lat : Q)
    (prompts : list (string * one_prompt)) (choices : list (Z * FinalSequenceResult)) (prompt_toks completion_toks : Z)
    (sched : list sched_event) : M Srv (option api_response) :=
  match prompts with
  | [] => mret (Some (RCompletion choices prompt_toks completion_toks))
  | (rid, p) :: rest =>
      ids ← prompt_ids lat p;
      s ← get;
      match validate_context_length (zlen ids) max_tokens (srv_max_seq_length s) with
      | Err _ => mret (Some (RError context_length_exceeded))
      | Ok _ =>
          r ← wait_non_stream_result rid ids sp (requested_best_of (cr_n req) (cr_best_of req)) sched;
          match r with
          | None => mret None
          | Some (results, sched') =>
              let selected := apply_response_format_validation (cr_response_format req) <$>
                select_best_results results (requested_n (cr_n req)) (requested_best_of (cr_n req) (cr_best_of req)) (0 <? logprobs sp) in
              completion_loop req sp max_tokens lat rest (choices ++ number_from (zlen choices) selected)
                (prompt_toks + zlen ids) (completion_toks + sum_completion selected) sched'
          end
      end
  end.

(** [completion]; [rids] are the uuids it draws. *)
Definition completion (req : CompletionRequest) (rids : nat → string) (uid : string) (now : Z) (lat : Q)
    (sched : list sched_event) : M Srv (option api_response) :=
  s ← get;
  match srv_engine s with
  | None => mret (Some (RError service_starting))
  | Some e =>
      ensure_runtime_ready ≫= λ _,
      match check_backpressure max_waiting (api_num_waiting e) with
      | Some err => mret (Some (RError err))
      | None =>
          match validate_required_params (cr_max_tokens req),
                validate_sampling_params (cr_temperature req) (cr_top_p req) None (cr_max_tokens req), cr_max_tokens req with
          | Err (InvalidRequestError p), _, _ => mret (Some (RError (invalid_request (Some p))))
          | Ok _, Err (InvalidRequestError p), _ => mret (Some (RError (invalid_request (Some p))))
          | Ok _, Ok _, Some max_tokens =>
              match validate_parallel_sampling max_n (cr_n req) (cr_best_of req) with
              | Some err => mret (Some (RError err))
              | None =>
                  match parse_prompt_format (cr_prompt req) with
                  | Err _ => mret (Some (RError (invalid_request None)))
                  | Ok (_, prompts) =>
                      let sp := build_sampling_params (cr_temperature req) (cr_top_p req) max_tokens (cr_stop req) (cr_logprobs req) in
                      if default false (cr_stream req) then
                        if negb ((requested_n (cr_n req) =? 1) && (requested_best_of (cr_n req) (cr_best_of req) =? 1))
                        then mret (Some (RError (invalid_request None)))
                        else
                          match prompts with
                          | [p] =>
                              ids ← prompt_ids lat p;
                              s ← get;
                              match validate_context_length (zlen ids) max_tokens (srv_max_seq_length s) with
                              | Err _ => mret (Some (RError context_length_exceeded))
                              | Ok _ =>
                                  r ← start_stream (rids 0%nat) (resolve_model_name (cr_model req)) uid now ids sp;
                                  mret (Some r)
                              end
                          | _ => mret (Some (RError (invalid_request None)))
                          end
                      else completion_loop req sp max_tokens lat (imap (λ i p, (rids i, p)) prompts) [] 0 0 sched
                  end
              end
          | _, _, _ => raise ValueError
          end
      end
  end.

(** [chat_completion] *)
Definition chat_completion (req : ChatCompletionRequest) (rid uid : string) (now : Z) (lat_r lat_d : Q)
    (sched : list sched_event) : M Srv (option api_response) :=
  s ← get;
  match srv_engine s with
  | None => mret (Some (RError service_starting))
  | Some e =>
      ensure_runtime_ready ≫= λ _,
      match check_backpressure max_waiting (api_num_waiting e) with
      | Some err => mret (Some (RError err))
      | None =>
          match validate_required_params (ch_max_tokens req),
                validate_sampling_params (ch_temperature req) (ch_top_p req) None (ch_max_tokens req), ch_max_tokens req with
          | Err (InvalidRequestError p), _, _ => mret (Some (RError (invalid_request (Some p))))
          | Ok _, Err (InvalidRequestError p), _ => mret (Some (RError (invalid_request (Some p))))
          | Ok _, Ok _, Some max_tokens =>
              match validate_parallel_sampling max_n (ch_n req) None with
              | Some err => mret (Some (RError err))
              | None =>
                  let lps := if default false (ch_logprobs req) then ch_top_logprobs req else Z.b2z <$> ch_logprobs req in
                  let sp := build_sampling_params (ch_temperature req) (ch_top_p req) max_tokens (ch_stop req) lps in
                  input ← process_messages lat_r lat_d (ch_messages req);
                  ids ← lift_res (chat_prompt_to_token_ids input);
                  s ← get;
                  match validate_context_length (zlen ids) max_tokens (srv_max_seq_length s) with
                  | Err _ => mret (Some (RError context_length_exceeded))
                  | Ok _ =>
                      if default false (ch_stream req) then
                        if negb (requested_n (ch_n req) =? 1) then mret (Some (RError (invalid_request None)))
                        else r ← start_stream rid (resolve_model_name (ch_model req)) uid now ids sp; mret (Some r)
                      else
                        r ← wait_non_stream_result rid ids sp (requested_n (ch_n req)) sched;
                        match r with
                        | None => mret None
                        | Some (results, _) =>
                            let results' := apply_response_format_validation (ch_response_format req) <$> results in
                            mret (Some (RChat (number_from 0 results') (zlen ids) (sum_completion results')))
                        end
                  end
              end
          | _, _, _ => raise ValueError
          end
      end
  end.

(** ** Start-up, shutdown and the small endpoints *)

(** [_initialize_model]: what loading the model and building the engine gives, with
    the configured sequence length. *)
Definition initialize_model (have_args : bool) (config : option WatchdogConfig) (load : res (E * option Z)) (now : Q) : M Srv unit :=
  s ← get;
  if negb have_args || bool_decide (is_Some (srv_engine s)) then mret tt
  else
    modify (λ s, set_watchdog None (set_health (set_starting (srv_health s)) s)) ≫= λ _,
    lift_res (match config with Some c => wc_post_init c | None => Ok tt end) ≫= λ _,
    p ← lift_res load;
    modify (λ s, set_streams (Some (default sm_init (srv_streams s))) (set_engine (Some p.1) s)) ≫= λ _,
    modify (λ s, match p.2 with Some n => set_max_seq n s | None => s end) ≫= λ _,
    modify (λ s, match config with Some c => set_watchdog (decode_start c now) s | None => s end) ≫= λ _,
    modify ensure_engine_loop_running ≫= λ _,
    modify (λ s, set_health (set_healthy (srv_health s)) s).

(** [initialize_with_model], once the engine is built *)
Definition initialize_with_model (e : E) (configured : option Z) (max_seq : Z) (s : Srv) : Srv :=
  set_health (set_healthy (srv_health s))
    (set_engine (Some e) (set_streams (Some (default sm_init (srv_streams s)))
       (set_max_seq (default max_seq configured) s))).

(** [startup_event]; returns whether it leaves the start to [_initialize_model]. *)
Definition startup_event (have_args : bool) : M Srv bool :=
  modify (λ s, set_streams (Some (default sm_init (srv_streams s))) s) ≫= λ _,
  _ ← ensure_cp_middleware;
  s ← get;
  if have_args && bool_decide (srv_engine s = None) then mret true
  else modify ensure_engine_loop_running ≫= λ _, mret false.

(** [shutdown_event]: the loop ends at its next turn; awaiting a task that failed
    raises its exception.  [engine.shutdown] is left out. *)
Definition shutdown_event : M Srv unit :=
  modify (λ s, match srv_shutdown s with Some _ => set_task (srv_task s) (Some true) s | None => s end) ≫= λ _,
  modify (engine_loop_turn 0 0) ≫= λ _,
  s ← get;
  match srv_task s with
  | Done (Some er) => raise er
  | _ =>
      modify (λ s, set_task NoTask (srv_shutdown s) s) ≫= λ _,
      modify (λ s, set_watchdog None s)
  end.

(** [health]: the status and the response code *)
Definition health_endpoint (s : Srv) : (HealthState * option reason) * Z :=
  (get_status_dict (srv_health s), if is_healthy (srv_health s) then 200 else 503).

(** [contextpilot_toggle] *)
Definition contextpilot_toggle (enabled : json) : M Srv bool :=
  match enabled with
  | JBool b =>
      upd_cp (λ c, mkCPS b (contextpilot_debug c) (contextpilot_fault c) (fallback_count c) (last_fallback_count c)
                    (cp_middleware c) (cp_reorder_latencies c)) ≫= λ _,
      (if b then (_ ← ensure_cp_middleware; mret tt) else mret tt) ≫= λ _, mret b
  | _ => raise (HTTPException 400)
  end.

(** [contextpilot_inject_fault]; the duration is checked and returned, nothing else. *)
Definition contextpilot_inject_fault (fault : json) (duration_s : option Z) : M Srv unit :=
  s ← get;
  if negb (contextpilot_debug (srv_cp s)) then raise (HTTPException 403)
  else
    match fault with
    | JStr f =>
        if negb (String.eqb f "none" || String.eqb f "reorder_exception") then raise (HTTPException 400)
        else
          match duration_s with
          | Some d =>
              if d <? 0 then raise (HTTPException 400)
              else upd_cp (λ c, mkCPS (contextpilot_enabled c) (contextpilot_debug c) f (fallback_count c) (last_fallback_count c)
                                 (cp_middleware c) (cp_reorder_latencies c))
          | None => raise (HTTPException 400)
          end
    | _ => raise (HTTPException 400)
    end.

(** [_contextpilot_circuit_breaker_state] *)
Definition contextpilot_circuit_breaker_state (s : Srv) : string :=
  if negb (contextpilot_enabled (srv_cp s)) then "closed"
  else if negb (String.eqb (contextpilot_fault (srv_cp s)) "none") then "open"
  else match cp_middleware (srv_cp s) with None => "half_open" | Some _ => "closed" end.
End server.
