(* ===== verification/ApiServerProps.v ===== *)
(** * Properties of the HTTP server

    The handlers are proved against the interface [ServingEngine]; the
    continuous-batching engine implements it. *)
From Stdlib Require Import QArith String.
From S2P Require Import Prelude Json Sequence Engine Stream Validation ApiResults.
From S2P Require Import ApiAuth CPMiddleware Watchdog ApiServer.
From S2P Require Import KVCache Batch ServingScheduler ServingTheorems Sampler EngineProps.
Open Scope Z_scope.

(** ** Only admissible requests reach the engine *)
Record admissible (max_seq max_n : Z) (prompt : list Z) (sp : SamplingParams) (n : Z) : Prop := {
  ad_length : zlen prompt + max_tokens sp ≤ max_seq;
  ad_tokens : 0 < max_tokens sp;
  ad_temperature : (0 <= temperature sp <= 2)%Q;
  ad_top_p : (0 < top_p sp <= 1)%Q;
  ad_n : 1 ≤ n ≤ max_n
}.

Lemma build_admissible max_seq max_n t p m st lp ids n :
  validate_sampling_params t p None (Some m) = Ok tt → 1 ≤ n ≤ max_n →
  validate_context_length (zlen ids) m max_seq = Ok tt → admissible max_seq max_n ids (build_sampling_params t p m st lp) n.
Proof.
  intros Hv Hn Hc. apply validate_sampling_ok in Hv as (Ht & Hp & _ & Hm).
  unfold validate_context_length in Hc. destruct (Z.ltb_spec max_seq (zlen ids + m)); [done|].
  split; cbn; [done|by apply Hm| |  |done].
  - destruct t as [t|]; cbn; [by apply Ht|split; discriminate].
  - destruct p as [p|]; cbn; [by apply Hp|split; [reflexivity|discriminate]].
Qed.

Section keeps.
Context {E : Type} `{!ServingEngine E}.
Context (tokenizer : option TokenizerAPI) (model_name : option string) (max_waiting max_n : Z) (env_enabled : bool).
Context (cp : ContextPilot) (py_str_atom : atom → string) (py_str : pyval → string) (make_middleware : res Middleware).
Context (I : E → Prop) (max_seq : Z).
Context (Hadd : ∀ rid p sp n e, I e → admissible max_seq max_n p sp n → I (api_add_request rid p sp n e).2).
Context (Habort : ∀ rid e, I e → I (api_abort_request rid e).2) (Hstep : ∀ e, I e → I (api_step e).2).
Local Abbreviation Srv := (Server E).

Record engine_inv (s : Srv) : Prop := {
  ei_engine : ∀ e, srv_engine s = Some e → I e;
  ei_max_seq : srv_max_seq_length s = max_seq
}.
Definition keeps {A} (m : M Srv A) : Prop := triple engine_inv m (λ _ s, engine_inv s).

Lemma keeps_ret {A} (a : A) : keeps (mret a).
Proof. intros s Hs. done. Qed.
Lemma keeps_raise {A} e : keeps (raise e : M Srv A).
Proof. intros s Hs. done. Qed.
Lemma keeps_get : keeps (get : M Srv Srv).
Proof. intros s Hs. done. Qed.
Lemma keeps_lift {A} (r : res A) : keeps (lift_res r).
Proof. intros s Hs. done. Qed.
Lemma keeps_bind {A B} (m : M Srv A) (k : A → M Srv B) : keeps m → (∀ a, keeps (k a)) → keeps (m ≫= k).
Proof. intros Hm Hk. eapply triple_bind; [exact Hm|intros a; apply Hk|done]. Qed.
Lemma keeps_modify (f : Srv → Srv) : (∀ s, engine_inv s → engine_inv (f s)) → keeps (modify f).
Proof. intros Hf s Hs. by apply Hf. Qed.
Lemma keeps_engine {A} (m : M E A) : (∀ e, I e → I (m e).2) → keeps (on_engine m).
Proof.
  intros Hm s [He Hq]. unfold on_engine. destruct (srv_engine s) as [e|] eqn:E1; [|cbn; split; [by rewrite E1|done]].
  specialize (Hm e (He e eq_refl)). destruct (m e) as [r e']. cbn in *. split; cbn; [intros x Hx; injection Hx as <-; exact Hm|exact Hq].
Qed.
Lemma keeps_streams {A} (m : M StreamManager A) : keeps (on_streams m).
Proof. intros s [He Hq]. unfold on_streams. destruct (srv_streams s) as [sm|]; [|by split]. destruct (m sm). by split. Qed.
Lemma keeps_cp f : keeps (upd_cp f).
Proof. apply keeps_modify. intros s [He Hq]. by split. Qed.
Create HintDb keeps.
Hint Resolve keeps_ret keeps_raise keeps_get keeps_lift keeps_streams keeps_cp : keeps.

(** Walk through a handler: binds, matches and the primitive steps. *)
Ltac keeps_auto :=
  repeat first
    [ progress intros
    | apply keeps_bind
    | apply keeps_modify; intros ? [? ?]; by split
    | by auto with keeps
    | match goal with |- keeps (match ?x with _ => _ end) => destruct x eqn:? end ].

Lemma keeps_ready : keeps ensure_runtime_ready.
Proof. unfold ensure_runtime_ready. keeps_auto. Qed.
Lemma keeps_middleware : keeps (ensure_cp_middleware env_enabled make_middleware).
Proof. unfold ensure_cp_middleware. keeps_auto. Qed.
Hint Resolve keeps_ready keeps_middleware : keeps.
Lemma keeps_contextpilot {A} (x : A) process : keeps (with_contextpilot env_enabled make_middleware x process).
Proof. unfold with_contextpilot. keeps_auto. Qed.
Hint Resolve keeps_contextpilot : keeps.

Lemma keeps_for_each {A} (f : A → M Srv unit) l : (∀ x, keeps (f x)) → keeps (for_each l f).
Proof. intros Hf. apply triple_for_each. intros x _. apply Hf. Qed.
Lemma keeps_engine_step : keeps (engine_step tokenizer py_str).
Proof.
  unfold engine_step. apply keeps_bind; [by apply keeps_engine|]. intros outs. apply keeps_for_each. intros o.
  unfold run_callback. keeps_auto.
Qed.
Lemma loop_turn_inv now now' s : engine_inv s → engine_inv (engine_loop_turn tokenizer py_str now now' s).
Proof.
  intros [He Hq]. unfold engine_loop_turn. destruct (srv_task s); try by split. destruct (srv_shutdown s) as [[]|]; try by split.
  destruct (srv_engine s) as [e|] eqn:E1; [|by split; [rewrite E1|]]. destruct (api_has_pending e); [|by split; cbn; [rewrite E1|]].
  assert (engine_inv (set_watchdog (activate now <$> srv_watchdog s) s)) as H0 by (by split; cbn; [rewrite E1|]).
  pose proof (keeps_engine_step _ H0) as Hs'.
  destruct (engine_step tokenizer py_str _) as [[[]|er] s2]; destruct Hs' as [H1 H2]; by split.
Qed.

Lemma keeps_wait_loop rid lp sched : keeps (wait_loop tokenizer py_str rid lp sched).
Proof.
  induction sched as [|[now now'|d] sched IH]; cbn [wait_loop]; [apply keeps_ret| |].
  - apply keeps_bind; [|done]. apply keeps_modify. intros s. apply loop_turn_inv.
  - keeps_auto. apply keeps_engine. auto.
Qed.

Lemma keeps_add rid p sp n : admissible max_seq max_n p sp n → keeps (on_engine (api_add_request rid p sp n)).
Proof. intros Had. apply keeps_engine. auto. Qed.
Lemma keeps_wait rid p sp n sched :
  admissible max_seq max_n p sp n → keeps (wait_non_stream_result tokenizer py_str rid p sp n sched).
Proof.
  intros Had. unfold wait_non_stream_result. keeps_auto; [by apply keeps_add|apply keeps_wait_loop].
Qed.
Lemma keeps_start rid model uid now p sp : admissible max_seq max_n p sp 1 → keeps (start_stream rid model uid now p sp).
Proof. intros Had. unfold start_stream. keeps_auto. by apply keeps_add. Qed.
Lemma keeps_prompt_ids lat p : keeps (prompt_ids tokenizer env_enabled cp make_middleware lat p).
Proof. unfold prompt_ids, process_prompt. keeps_auto. Qed.
Hint Resolve keeps_prompt_ids : keeps.

(** Reading the state in the middle of a handler. *)
Lemma keeps_get_then {A} (k : Srv → M Srv A) : (∀ s, engine_inv s → keeps (k s)) → keeps (get ≫= k).
Proof. intros Hk s Hs. exact (Hk s Hs s Hs). Qed.

Lemma keeps_completion_loop req sp mt lat prompts choices pt ct sched :
  validate_sampling_params (cr_temperature req) (cr_top_p req) None (Some mt) = Ok tt →
  sp = build_sampling_params (cr_temperature req) (cr_top_p req) mt (cr_stop req) (cr_logprobs req) →
  1 ≤ requested_best_of (cr_n req) (cr_best_of req) ≤ max_n →
  keeps (completion_loop tokenizer env_enabled cp py_str make_middleware req sp mt lat prompts choices pt ct sched).
Proof.
  intros Hv -> Hn. revert choices pt ct sched. induction prompts as [|[rid p] rest IH]; intros choices pt ct sched; [apply keeps_ret|].
  cbn [completion_loop]. apply keeps_bind; [apply keeps_prompt_ids|]. intros ids. apply keeps_get_then. intros s Hs.
  destruct (validate_context_length (zlen ids) mt (srv_max_seq_length s)) as [[]|] eqn:Hc; [|apply keeps_ret].
  rewrite (ei_max_seq s Hs) in Hc. apply keeps_bind; [by apply keeps_wait, build_admissible|].
  intros [[results sched']|]; [apply IH|apply keeps_ret].
Qed.

Lemma keeps_completion req rids uid now lat sched :
  keeps (completion tokenizer model_name max_waiting max_n env_enabled cp py_str make_middleware req rids uid now lat sched).
Proof.
  unfold completion. apply keeps_get_then. intros s Hs. destruct (srv_engine s) as [e|]; [|apply keeps_ret].
  apply keeps_bind; [apply keeps_ready|]. intros _. destruct (check_backpressure max_waiting (api_num_waiting e)); [apply keeps_ret|].
  destruct (cr_max_tokens req) as [mt|] eqn:Hmt; [|apply keeps_ret]. cbn [validate_required_params].
  destruct (validate_sampling_params (cr_temperature req) (cr_top_p req) None (Some mt)) as [[]|[]] eqn:Hv;
    try apply keeps_raise; [|apply keeps_ret].
  destruct (validate_parallel_sampling max_n (cr_n req) (cr_best_of req)) eqn:Hp; [apply keeps_ret|].
  apply parallel_sampling_ok in Hp. destruct (parse_prompt_format (cr_prompt req)) as [[is_tokens prompts]|]; [|apply keeps_ret].
  destruct (default false (cr_stream req)); [|apply keeps_completion_loop; [done|done|lia]].
  case_match; [apply keeps_ret|]. destruct prompts as [|p [|]]; [apply keeps_ret| |apply keeps_ret].
  apply keeps_bind; [apply keeps_prompt_ids|]. intros ids. apply keeps_get_then. intros s' Hs'.
  destruct (validate_context_length (zlen ids) mt (srv_max_seq_length s')) as [[]|] eqn:Hc; [|apply keeps_ret].
  rewrite (ei_max_seq s' Hs') in Hc. apply keeps_bind; [|intros; apply keeps_ret].
  apply keeps_start, build_admissible; [done|lia|done].
Qed.

Lemma keeps_chat req rid uid now lr ld sched :
  keeps (chat_completion tokenizer model_name max_waiting max_n env_enabled cp py_str_atom py_str make_middleware req rid uid now lr ld sched).
Proof.
  unfold chat_completion. apply keeps_get_then. intros s Hs. destruct (srv_engine s) as [e|]; [|apply keeps_ret].
  apply keeps_bind; [apply keeps_ready|]. intros _. destruct (check_backpressure max_waiting (api_num_waiting e)); [apply keeps_ret|].
  destruct (ch_max_tokens req) as [mt|] eqn:Hmt; [|apply keeps_ret]. cbn [validate_required_params].
  destruct (validate_sampling_params (ch_temperature req) (ch_top_p req) None (Some mt)) as [[]|[]] eqn:Hv;
    try apply keeps_raise; [|apply keeps_ret].
  destruct (validate_parallel_sampling max_n (ch_n req) None) eqn:Hp; [apply keeps_ret|].
  apply parallel_sampling_ok in Hp. apply keeps_bind; [unfold process_messages; keeps_auto|]. intros input.
  apply keeps_bind; [apply keeps_lift|]. intros ids. apply keeps_get_then. intros s' Hs'.
  destruct (validate_context_length (zlen ids) mt (srv_max_seq_length s')) as [[]|] eqn:Hc; [|apply keeps_ret].
  rewrite (ei_max_seq s' Hs') in Hc. destruct (default false (ch_stream req)).
  - case_match; [apply keeps_ret|]. apply keeps_bind; [|intros; apply keeps_ret]. apply keeps_start, build_admissible; [done|lia|done].
  - apply keeps_bind; [apply keeps_wait, build_admissible; [done|lia|done]|]. intros [[]|]; apply keeps_ret.
Qed.
End keeps.


(** ** Calls of the API *)
Inductive api_call :=
  | CallCompletion (req : CompletionRequest) (rids : nat → string) (uid : string) (now : Z) (lat : Q) (sched : list sched_event)
  | CallChat (req : ChatCompletionRequest) (rid uid : string) (now : Z) (lat_r lat_d : Q) (sched : list sched_event)
  | CallLoop (now now' : Q).

Section calls.
Context {E : Type} `{!ServingEngine E}.
Context (tokenizer : option TokenizerAPI) (model_name : option string) (max_waiting max_n : Z) (env_enabled : bool).
Context (cp : ContextPilot) (py_str_atom : atom → string) (py_str : pyval → string) (make_middleware : res Middleware).
Definition run_call (c : api_call) (s : Server E) : Server E :=
  match c with
  | CallCompletion req rids uid now lat sched =>
      (completion tokenizer model_name max_waiting max_n env_enabled cp py_str make_middleware req rids uid now lat sched s).2
  | CallChat req rid uid now lr ld sched =>
      (chat_completion tokenizer model_name max_waiting max_n env_enabled cp py_str_atom py_str make_middleware req rid uid now lr ld sched s).2
  | CallLoop now now' => engine_loop_turn tokenizer py_str now now' s
  end.
Definition run_calls (cs : list api_call) (s : Server E) : Server E := foldl (λ s c, run_call c s) s cs.

(** C13: only admissible requests reach the engine.  Whatever clients send to the
    completion and chat endpoints, and whatever happens while the handlers wait
    (turns of the engine loop, disconnects), every property of the engine that is
    kept by its own steps, by aborts and by adding requests that respect the
    limits is kept by the server: a prompt and its [max_tokens] fit the model's
    sequence length, [max_tokens] is positive, temperature and [top_p] are in
    range, and between 1 and [max_n] sequences are asked for. *)
Theorem only_admissible_requests (I : E → Prop) (cs : list api_call) (s : Server E) :
  (∀ rid p sp n e, I e → admissible (srv_max_seq_length s) max_n p sp n → I (api_add_request rid p sp n e).2) →
  (∀ rid e, I e → I (api_abort_request rid e).2) → (∀ e, I e → I (api_step e).2) →
  (∀ e, srv_engine s = Some e → I e) →
  ∀ e, srv_engine (run_calls cs s) = Some e → I e.
Proof.
  intros Hadd Habort Hstep Hs. assert (engine_inv I (srv_max_seq_length s) s) as Hinv by (by split).
  revert Hadd Hinv. generalize (srv_max_seq_length s) as ms. clear Hs. intros ms Hadd Hinv.
  cut (engine_inv I ms (run_calls cs s)); [by intros []|]. unfold run_calls. revert s Hinv.
  induction cs as [|c cs IH]; intros s Hinv; [done|]. cbn. apply IH. destruct c; cbn.
  - by eapply keeps_completion.
  - by eapply keeps_chat.
  - by eapply loop_turn_inv.
Qed.

(** ** A dead engine loop *)
Lemma dead_loop_turn now now' (s : Server E) x : srv_task s = Done x → engine_loop_turn tokenizer py_str now now' s = s.
Proof. intros H. unfold engine_loop_turn. by rewrite H. Qed.

Lemma dead_loop_wait rid lp sched (s : Server E) x :
  srv_task s = Done x → done_event (collector_of rid s) = false → Poll true ∉ sched →
  wait_loop tokenizer py_str rid lp sched s = (Ok None, s).
Proof.
  intros Ht Hd. induction sched as [|[now now'|d] sched IH]; intros Hp; [done| |].
  - cbn [wait_loop]. munfold. rewrite (dead_loop_turn _ _ _ x Ht). apply IH. set_solver.
  - cbn [wait_loop]. munfold. rewrite Hd. destruct d; [set_solver|]. apply IH. set_solver.
Qed.

(** Once the engine loop failed, no request ever gets a result. *)
Lemma dead_loop_no_result rid p sp n sched (s : Server E) x :
  srv_task s = Done x → Poll true ∉ sched →
  ∀ r, (wait_non_stream_result tokenizer py_str rid p sp n sched s).1 ≠ Ok (Some r).
Proof.
  intros Ht Hp r. unfold wait_non_stream_result, ensure_runtime_ready, on_engine. munfold.
  destruct (srv_engine s) as [e|] eqn:He; cbn; [|congruence]. destruct (srv_streams s); cbn; [|congruence]. rewrite He.
  destruct (api_add_request rid p sp n e) as [[[]|er] e']; cbn; [|congruence].
  erewrite dead_loop_wait; [cbn; congruence|exact Ht| |done]. unfold collector_of. cbn. by rewrite lookup_insert_eq.
Qed.
End calls.

(** An engine that only records the requests it was given. *)
Definition Recorder : Type := list (list Z * SamplingParams * Z).
#[export] Instance recorder_serving : ServingEngine Recorder := {|
  api_add_request rid p sp n := modify (λ l, l ++ [(p, sp, n)]);
  api_abort_request rid := mret tt;
  api_step := mret [];
  api_has_pending e := bool_decide (e ≠ []);
  api_num_waiting e := 0
|}.

Definition idle_cp : CPState := mkCPS false false "none" 0 0 None [].
Definition no_cp : ContextPilot := mkCPObj (λ _ _, Err RuntimeError) (λ _ _, Err RuntimeError) None (λ _, None).
Definition new_server {E} (e : E) (max_seq : Z) : Server E :=
  mkServer (Some e) (Some sm_init) ∅ Running (Some false) None health_init max_seq idle_cp.
Definition token_request (prompts : list (list Z)) (mt : Z) : CompletionRequest :=
  mkCR "m" (PromptTokenLists prompts) (Some mt) (Some 0%Q) None None None None None None None.

(** A request of two prompts, of which only the first one fits. *)
Definition two_prompts : Server Recorder :=
  run_calls None None 0 16 false no_cp (λ _, EmptyString) (λ _, EmptyString) (Err RuntimeError)
    [CallCompletion (token_request [[1; 2]; [1; 2; 3; 4]] 4) (λ _, "r"%string) "u" 0 0 [LoopTurn 0 0; Poll false]]
    (new_server ([] : Recorder) 6).

Lemma only_admissible_requests_witness :
  ∃ e, srv_engine two_prompts = Some e ∧ zlen e = 1 ∧ Forall (λ r, admissible 6 16 r.1.1 r.1.2 r.2) e.
Proof.
  eexists. split; [vm_compute; reflexivity|]. split; [reflexivity|].
  apply (only_admissible_requests None None 0 16 false no_cp (λ _, EmptyString) (λ _, EmptyString) (Err RuntimeError)
           (Forall (λ r, admissible 6 16 r.1.1 r.1.2 r.2))
           [CallCompletion (token_request [[1; 2]; [1; 2; 3; 4]] 4) (λ _, "r"%string) "u" 0 0 [LoopTurn 0 0; Poll false]]
           (new_server ([] : Recorder) 6)).
  - intros rid p sp n e He Ha. cbn. apply Forall_app. split; [exact He|]. apply Forall_singleton. exact Ha.
  - intros rid e He. exact He.
  - intros e He. exact He.
  - intros e [= <-]. constructor.
  - vm_compute. reflexivity.
Defined.

(** ** The continuous-batching engine behind the interface *)
Definition cb_serving {V} (eos : option Z) (tok : option Tokenizer) (sync : bool) (execute : nat → BatchMetadata → list Row)
    (paged : bool) (sampler : nat → list Row → list SamplingParams → res SamplerOutput) (order : list Z → list Z)
    : ServingEngine (Engine V) := {|
  api_add_request rid p sp n := Engine.add_request rid p sp (Some 0%nat) n;
  api_abort_request rid := Engine.abort_request sync rid;
  api_step := Engine.step eos tok sync execute paged sampler order;
  api_has_pending e := has_pending_requests e;
  api_num_waiting e := num_waiting (sched e)
|}.
Definition demo_serving : ServingEngine (Engine Z) := cb_serving None None false demo_execute true demo_sampler (λ l, l).
#[local] Existing Instance demo_serving.

Definition demo_completion (req : CompletionRequest) (rids : nat → string) (sched : list sched_event) :=
  completion (E := Engine Z) None None 0 16 false no_cp (λ _, EmptyString) (Err RuntimeError) req rids "u" 0 0 sched.
Definition rid_of (i : nat) : string := match i with O => "r0" | _ => "r1" end.
Definition busy (n : nat) : list sched_event := mjoin (replicate n [LoopTurn 0 0; Poll false]).

(** One request with an empty prompt takes the server down.  The endpoint
    accepts the prompts [[1], []]: the first one is answered, the second one makes
    the engine's step raise (an empty batch is not supported), the exception ends
    the engine loop, which nothing restarts, and the handler waits for ever; from
    then on no request at all, whatever its prompt, gets a result. *)
Theorem empty_prompt_stops_server :
  let s0 := new_server (eng_init sched_demo0) 64 in
  let run := demo_completion (token_request [[1]; []] 2) rid_of (busy 6) s0 in
  (demo_completion (token_request [[1]] 2) rid_of (busy 6) s0).1 ≠ Ok None ∧
  run.1 = Ok None ∧ srv_task run.2 = Done (Some RuntimeError) ∧
  (∀ rid p sp n sched r, Poll true ∉ sched →
     (wait_non_stream_result None (λ _, EmptyString) rid p sp n sched run.2).1 ≠ Ok (Some r)) ∧
  (∀ now now', engine_loop_turn None (λ _, EmptyString) now now' run.2 = run.2).
Proof.
  intros s0 run. assert (srv_task run.2 = Done (Some RuntimeError)) as Ht by (vm_compute; reflexivity).
  split_and!; [vm_compute; discriminate|vm_compute; reflexivity|exact Ht| |].
  - intros rid p sp n sched r Hp. by eapply dead_loop_no_result.
  - intros now now'. by eapply dead_loop_turn.
Qed.
