(* ===== verification/ApiResponse.v ===== *)
(** * What a completion response contains

    The number, numbering and usage of the choices, over any engine. *)
From Stdlib Require Import QArith String.
From S2P Require Import Prelude Json Sequence Engine Stream Validation ApiResults.
From S2P Require Import ApiAuth CPMiddleware Watchdog ApiServer ApiServerProps.
From S2P Require Import ServingTheorems EngineProps.
Open Scope Z_scope.

(** ** Collectors *)
Record collector_ok (expected : Z) (c : Collector) : Prop := {
  ko_finished : finished_seq_ids c ⊆ dom (results_by_seq_id c);
  ko_done : done_event c = true → expected ≤ Z.of_nat (size (finished_seq_ids c));
  ko_ids : ∀ i st, results_by_seq_id c !! i = Some st → srs_seq_id st = i
}.
Lemma no_results_ok expected : collector_ok expected no_results.
Proof. split; [done|done|]. intros i st. cbn. by rewrite lookup_empty. Qed.

Lemma on_token_ok py_str tok np lp expected o c :
  collector_ok expected c → collector_ok expected (on_token py_str tok np lp expected o c).
Proof.
  intros [H1 H2 H3].
  assert (∀ i st, <[ro_seq_id o := record_output py_str tok lp o (default (new_result np (ro_seq_id o)) (results_by_seq_id c !! ro_seq_id o))]>
      (results_by_seq_id c) !! i = Some st → srs_seq_id st = i) as Hids.
  { intros i st [[<- <-]|[_ Hi]]%lookup_insert_Some; [|by apply H3]. cbn.
    destruct (results_by_seq_id c !! ro_seq_id o) as [x|] eqn:E; [by apply H3|done]. }
  unfold on_token. destruct (ro_finished o); split; cbn; rewrite ?dom_insert; try done; try set_solver.
  rewrite orb_true_iff, Z.leb_le. intros [H|H]; [|done]. etransitivity; [by apply H2|]. apply inj_le, subseteq_size. set_solver.
Qed.

Lemma omap_ids lp c (l : list Z) :
  (∀ i st, results_by_seq_id c !! i = Some st → srs_seq_id st = i) → (∀ i, i ∈ l → i ∈ dom (results_by_seq_id c)) →
  fr_seq_id <$> (finalize_sequence_result lp <$> omap (λ i, results_by_seq_id c !! i) l) = l.
Proof.
  intros Hids. induction l as [|i l IH]; intros Hl; [done|].
  assert (i ∈ dom (results_by_seq_id c)) as [st Hst]%elem_of_dom by (apply Hl, elem_of_cons; by left).
  cbn. rewrite Hst. cbn. rewrite (Hids i st Hst). f_equal. apply IH. intros j Hj. apply Hl, elem_of_cons. by right.
Qed.

Lemma final_results_ok expected lp c :
  collector_ok expected c → done_event c = true →
  NoDup (fr_seq_id <$> final_results lp c) ∧ expected ≤ zlen (final_results lp c).
Proof.
  intros [H1 H2 H3] Hd. specialize (H2 Hd).
  assert (fr_seq_id <$> final_results lp c = sorted_ids c) as Hids.
  { apply omap_ids; [done|]. intros i. unfold sorted_ids. by rewrite merge_sort_Permutation, elem_of_elements. }
  rewrite Hids. assert (sorted_ids c ≡ₚ elements (dom (results_by_seq_id c))) as Hp by apply merge_sort_Permutation. split.
  - rewrite Hp. apply NoDup_elements.
  - etransitivity; [exact H2|]. unfold zlen. apply inj_le. rewrite <- (length_fmap fr_seq_id), Hids, Hp.
    exact (subseteq_size _ _ H1).
Qed.

Section response.
Context {E : Type} `{!ServingEngine E}.
Context (tokenizer : option TokenizerAPI) (model_name : option string) (max_waiting max_n : Z) (env_enabled : bool).
Context (cp : ContextPilot) (py_str_atom : atom → string) (py_str : pyval → string) (make_middleware : res Middleware).
Local Abbreviation Srv := (Server E).

(** The waiter of the request while its handler polls. *)
Section waiting.
Context (rid : string) (expected : Z).
Definition waiting_for (s : Srv) : Prop :=
  ∃ np lp c, srv_waiters s !! rid = Some (WaitCollect expected np lp c) ∧ collector_ok expected c.
Definition same_waiters {A} (m : M Srv A) : Prop := ∀ s, srv_waiters (m s).2 = srv_waiters s.

Lemma callback_waiting o (s : Srv) : waiting_for s → waiting_for (run_callback tokenizer py_str o s).2.
Proof.
  intros (np & lp & c & Hw & Hc). unfold run_callback. munfold.
  destruct (srv_waiters s !! ro_request_id o) as [[|ex np' lp' c']|] eqn:E1.
  - unfold on_streams. destruct (srv_streams s) as [sm|]; [|by exists np, lp, c].
    destruct (push_token _ _ _ _ _ _ sm). by exists np, lp, c.
  - cbn. destruct (decide (ro_request_id o = rid)) as [Hid|Hne].
    + rewrite Hid in E1 |- *. rewrite Hw in E1. injection E1 as <- <- <- <-. eexists _, _, _.
      split; [cbn; by rewrite lookup_insert_eq|]. by apply on_token_ok.
    + exists np, lp, c. split; [cbn; by rewrite lookup_insert_ne|done].
  - by exists np, lp, c.
Qed.

Lemma step_waiting (s : Srv) : waiting_for s → waiting_for (engine_step tokenizer py_str s).2.
Proof.
  intros Hw. unfold engine_step, on_engine. munfold. destruct (srv_engine s) as [e|]; [|done].
  destruct (api_step e) as [[outs|er] e']; [|exact Hw].
  assert (triple waiting_for (for_each outs (run_callback tokenizer py_str)) (λ _ s, waiting_for s)) as H
    by (apply triple_for_each; intros o _ s' Hs'; by apply callback_waiting).
  apply H. exact Hw.
Qed.

Lemma turn_waiting now now' (s : Srv) : waiting_for s → waiting_for (engine_loop_turn tokenizer py_str now now' s).
Proof.
  intros Hw. unfold engine_loop_turn. destruct (srv_task s); try done. destruct (srv_shutdown s) as [[]|]; try exact Hw.
  destruct (srv_engine s) as [e|]; [|done]. destruct (api_has_pending e); [|exact Hw].
  pose proof (step_waiting (set_watchdog (activate now <$> srv_watchdog s) s) Hw) as Hs.
  destruct (engine_step tokenizer py_str _) as [[[]|er] s2]; exact Hs.
Qed.

Lemma wait_loop_result lp sched (s s' : Srv) results sched' :
  waiting_for s → wait_loop tokenizer py_str rid lp sched s = (Ok (Some (results, sched')), s') →
  NoDup (fr_seq_id <$> results) ∧ expected ≤ zlen results.
Proof.
  revert s. induction sched as [|[now now'|d] sched IH]; intros s Hw; cbn [wait_loop]; munfold; [done| |].
  - apply IH. by apply turn_waiting.
  - destruct (done_event (collector_of rid s)) eqn:Hd.
    + intros [= <- _ _]. destruct Hw as (np & lp' & c & Hw & Hc). unfold collector_of in *. rewrite Hw in *.
      by eapply final_results_ok.
    + destruct d; [|by apply IH]. unfold on_engine. destruct (srv_engine s) as [e|]; [|done].
      by destruct (api_abort_request rid e) as [[]].
Qed.
End waiting.

Lemma wait_result rid p sp n sched (s s' : Srv) results sched' :
  wait_non_stream_result tokenizer py_str rid p sp n sched s = (Ok (Some (results, sched')), s') →
  NoDup (fr_seq_id <$> results) ∧ n ≤ zlen results.
Proof.
  unfold wait_non_stream_result, ensure_runtime_ready, on_engine. munfold.
  destruct (srv_engine s) as [e|] eqn:He; [|done]. destruct (srv_streams s); [|done]. cbn. rewrite He.
  destruct (api_add_request rid p sp n e) as [[[]|er] e']; [|done]. cbn. apply wait_loop_result.
  eexists _, _, _. split; [cbn; by rewrite lookup_insert_eq|apply no_results_ok].
Qed.

(** The choices collected so far. *)
Record choices_ok (n : Z) (done_prompts : Z) (choices : list (Z * FinalSequenceResult)) (ct : Z) : Prop := {
  co_index : choices.*1 = seqZ 0 (zlen choices);
  co_count : zlen choices = n * done_prompts;
  co_usage : ct = sum_completion choices.*2
}.

Lemma number_from_fst {A} k (l : list A) : (number_from k l).*1 = seqZ k (zlen l).
Proof. unfold number_from. apply fst_zip. rewrite length_seqZ. unfold zlen. lia. Qed.
Lemma number_from_snd {A} k (l : list A) : (number_from k l).*2 = l.
Proof. unfold number_from. apply snd_zip. rewrite length_seqZ. unfold zlen. lia. Qed.

Lemma sum_completion_app a b : sum_completion (a ++ b) = sum_completion a + sum_completion b.
Proof.
  unfold sum_completion. rewrite fmap_app. induction (completion_tokens ∘ fr_usage <$> a) as [|x l IH]; [done|].
  cbn [app zsum foldr]. unfold zsum in *. cbn. rewrite IH. lia.
Qed.

Lemma choices_ok_app n k choices ct selected :
  choices_ok n k choices ct → zlen selected = n →
  choices_ok n (k + 1) (choices ++ number_from (zlen choices) selected) (ct + sum_completion selected).
Proof.
  intros [H1 H2 H3] Hs. assert (zlen (number_from (zlen choices) selected) = zlen selected) as Hl.
  { unfold zlen at 1. rewrite <- (length_fmap fst), number_from_fst, length_seqZ. unfold zlen. lia. }
  split.
  - rewrite fmap_app, H1, number_from_fst. unfold zlen. rewrite length_app. unfold zlen in Hl. rewrite Nat2Z.inj_add, Hl.
    rewrite seqZ_app by lia. by rewrite Z.add_0_l.
  - unfold zlen. rewrite length_app, Nat2Z.inj_add. unfold zlen in H2, Hl, Hs. rewrite Hl, H2, Hs. lia.
  - by rewrite fmap_app, number_from_snd, sum_completion_app, H3.
Qed.

Lemma completion_loop_shape req sp mt lat prompts choices pt ct sched k (s s' : Srv) out pt' ct' :
  0 < requested_n (cr_n req) ≤ requested_best_of (cr_n req) (cr_best_of req) →
  choices_ok (requested_n (cr_n req)) k choices ct →
  completion_loop tokenizer env_enabled cp py_str make_middleware req sp mt lat prompts choices pt ct sched s
    = (Ok (Some (RCompletion out pt' ct')), s') →
  choices_ok (requested_n (cr_n req)) (k + zlen prompts) out ct'.
Proof.
  intros Hn. revert choices pt ct sched k s. induction prompts as [|[rid p] rest IH]; intros choices pt ct sched k s Hok; cbn [completion_loop].
  - munfold. intros [= <- _ <- _]. by rewrite Z.add_0_r.
  - munfold. destruct (prompt_ids _ _ _ _ lat p s) as [[ids|er] s1]; [|done].
    destruct (validate_context_length (zlen ids) mt (srv_max_seq_length s1)); [|done].
    destruct (wait_non_stream_result _ _ rid ids sp _ sched s1) as [[[[results sched']|]|er] s2] eqn:Hw; try done.
    apply wait_result in Hw as [Hnd Hlen]. set (n := requested_n (cr_n req)) in *.
    destruct (select_best_spec results n (requested_best_of (cr_n req) (cr_best_of req)) (0 <? logprobs sp) Hnd) as (Hsl & _); [lia|].
    intros Hrun. apply IH with (k := k + 1) in Hrun.
    + replace (k + zlen ((rid, p) :: rest)) with (k + 1 + zlen rest) by (unfold zlen; cbn; lia). done.
    + apply choices_ok_app; [done|]. unfold zlen. rewrite length_fmap. unfold zlen in *. lia.
Qed.

(** C37: a completion response is complete and consistent, over any engine that
    implements the interface.  Whenever [completion] returns a response, it has
    exactly [n] choices for every prompt of the request, numbered 0, 1, 2, ... in
    order, and the completion tokens it reports are the sum over the choices it
    returns (not over the sequences that [best_of] discarded). *)
Theorem completion_response_shape req rids uid now lat sched (s s' : Srv) out pt ct :
  completion tokenizer model_name max_waiting max_n env_enabled cp py_str make_middleware req rids uid now lat sched s
    = (Ok (Some (RCompletion out pt ct)), s') →
  ∃ is_tokens prompts, parse_prompt_format (cr_prompt req) = Ok (is_tokens, prompts) ∧
    zlen out = requested_n (cr_n req) * zlen prompts ∧
    out.*1 = seqZ 0 (zlen out) ∧ ct = sum_completion out.*2 ∧ 0 < zlen out.
Proof.
  unfold completion, ensure_runtime_ready. munfold. destruct (srv_engine s) as [e|] eqn:He; cbn; [|done]. rewrite ?He. destruct (srv_streams s); cbn; [|done].
  destruct (check_backpressure max_waiting (api_num_waiting e)); [done|].
  destruct (cr_max_tokens req) as [mt|]; [cbn [validate_required_params]|done].
  destruct (validate_sampling_params (cr_temperature req) (cr_top_p req) None (Some mt)) as [[]|[]]; try done.
  destruct (validate_parallel_sampling max_n (cr_n req) (cr_best_of req)) eqn:Hp; [done|]. apply parallel_sampling_ok in Hp.
  destruct (parse_prompt_format (cr_prompt req)) as [[is_tokens prompts]|] eqn:Hpf; [|done].
  destruct (default false (cr_stream req)).
  - intros H. exfalso. revert H. case_match; [done|]. destruct prompts as [|p [|]]; try done.
    destruct (prompt_ids _ _ _ _ lat p s) as [[ids|er] s1]; [|done].
    destruct (validate_context_length (zlen ids) mt (srv_max_seq_length s1)); [|done].
    unfold start_stream, on_streams, on_engine. munfold. destruct (srv_streams s1) as [sm|]; [|done].
    destruct (create_stream _ _ _ _ sm) as [[[]|] sm']; [|done]. cbn. destruct (srv_engine s1) as [e1|]; [|done].
    by destruct (api_add_request _ _ _ _ e1) as [[[]|] e2].
  - intros H. eapply (completion_loop_shape req _ mt lat _ [] 0 0 sched 0) in H; [|lia|by split; [reflexivity|by rewrite Z.mul_0_r|reflexivity]].
    destruct H as [H1 H2 H3]. rewrite Z.add_0_l in H2.
    assert (zlen (imap (λ i p, (rids i, p)) prompts) = zlen prompts) as Hl by (unfold zlen; by rewrite length_imap).
    rewrite Hl in H2. exists is_tokens, prompts. split_and!; try done. apply parse_prompt_shape in Hpf as [Hne _].
    destruct prompts as [|p prompts]; [done|]. unfold zlen in H2 at 2. cbn [length] in H2. nia.
Qed.
End response.

(** Two prompts with [n = 2], answered by the continuous-batching engine. *)
#[local] Existing Instance demo_serving.
Definition two_choices : CompletionRequest :=
  mkCR "m" (PromptTokenLists [[1]; [2; 3]]) (Some 2) (Some 0%Q) None (Some 2) None None None None None.

Lemma completion_response_shape_witness :
  match demo_completion two_choices rid_of (busy 12) (new_server (eng_init sched_demo0) 64) with
  | (Ok (Some (RCompletion out pt ct)), _) => zlen out = 4 ∧ ct = sum_completion out.*2 ∧ pt = 3
  | _ => False
  end.
Proof.
  destruct (demo_completion two_choices rid_of (busy 12) (new_server (eng_init sched_demo0) 64)) as [r s'] eqn:E.
  assert (∃ out pt ct, r = Ok (Some (RCompletion out pt ct)) ∧ pt = 3) as (out & pt & ct & -> & Hpt).
  { vm_compute in E. injection E as <- _. eexists _, _, _. split; reflexivity. }
  destruct (completion_response_shape None None 0 16 false no_cp (λ _, EmptyString) (Err RuntimeError) two_choices rid_of "u" 0 0
              (busy 12) _ s' out pt ct E) as (it & ps & Hp & Hl & _ & Hct & _).
  injection Hp as <- <-. split_and!; [exact Hl|exact Hct|exact Hpt].
Defined.
