(* ===== verification/MemoryManager.v ===== *)
(** * Memory budgets (serving/memory_manager.py, memory/memory_coordinator.py,
    utils/config.py)

    Sizes are integers, ratios are the rational values of Python floats.
    [int(size * ratio)] rounds in floating point; in [MemoryBudget] it is the
    parameter [scale], of which nothing is assumed: the clamps of the code alone
    give the bounds.  The memory sizes that torch reports are parameters. *)
From Stdlib Require Import QArith Qround Lqa.
From S2P Require Import Prelude.
Open Scope Z_scope.

Definition unit_interval (r : Q) : bool := Qle_bool 0 r && Qle_bool r 1.
Definition Qlt_b (a b : Q) : bool := negb (Qle_bool b a).

Module Budget.
Section budget.
Context (scale : Z → Q → Z).

Record MemoryBudget := mkBudget {
  total_gpu_memory_bytes : Z;
  model_memory_bytes : Z;
  expert_cache_ratio : Q;
  kv_cache_ratio : Q;
  activation_reserve_ratio : Q
}.
Implicit Types b : MemoryBudget.

(** [MemoryBudget.__post_init__] *)
Definition budget_post_init b : res MemoryBudget :=
  if total_gpu_memory_bytes b <? 0 then Err ValueError
  else if model_memory_bytes b <? 0 then Err ValueError
  else if negb (forallb unit_interval [expert_cache_ratio b; kv_cache_ratio b; activation_reserve_ratio b]) then Err ValueError
  else Ok b.

Definition available_bytes b : Z :=
  Z.max 0 (total_gpu_memory_bytes b - model_memory_bytes b
           - scale (total_gpu_memory_bytes b) (activation_reserve_ratio b)).
Definition expert_cache_bytes b : Z :=
  Z.min (available_bytes b) (Z.max 0 (scale (available_bytes b) (expert_cache_ratio b))).
Definition kv_cache_bytes b : Z :=
  Z.min (Z.max 0 (available_bytes b - expert_cache_bytes b)) (Z.max 0 (scale (available_bytes b) (kv_cache_ratio b))).

Record MemoryManager := mkMM {
  mm_total : Z;
  mm_device_ratio : Q;
  mm_kv_ratio : Q;
  mm_activation_ratio : Q;
  last_budget : option MemoryBudget
}.

(** [MemoryManager.__init__]; [total] is what the device reports. *)
Definition mm_init (total : Z) (device kv activation : Q) : res MemoryManager :=
  if negb (unit_interval device) then Err ValueError
  else if negb (unit_interval kv) then Err ValueError
  else if negb (unit_interval activation) then Err ValueError
  else Ok (mkMM total device kv activation None).

Definition get_expert_cache_ratio (m : MemoryManager) : Q :=
  (mm_device_ratio m - mm_device_ratio m * mm_kv_ratio m)%Q.

(** [compute_budget] *)
Definition compute_budget (model_bytes : Z) : M MemoryManager MemoryBudget :=
  raise_if (model_bytes <? 0) ValueError ≫= λ _,
  m ← get;
  match budget_post_init (mkBudget (mm_total m) model_bytes (get_expert_cache_ratio m)
                            (mm_device_ratio m * mm_kv_ratio m) (mm_activation_ratio m)) with
  | Err e => raise e
  | Ok b =>
      modify (λ m, mkMM (mm_total m) (mm_device_ratio m) (mm_kv_ratio m) (mm_activation_ratio m) (Some b)) ≫= λ _,
      mret b
  end.
Definition current_budget : M MemoryManager MemoryBudget :=
  m ← get;
  match last_budget m with Some b => mret b | None => compute_budget 0 end.

(** [get_max_kv_blocks]; [element_size] is that of the dtype. *)
Definition kv_bytes_per_block (block_size num_layers num_heads head_dim element_size : Z) : Z :=
  2 * block_size * num_layers * num_heads * head_dim * element_size.
Definition get_max_kv_blocks (block_size num_layers num_heads head_dim element_size : Z) : M MemoryManager Z :=
  raise_if (existsb (λ v, v <=? 0) [block_size; num_layers; num_heads; head_dim]) ValueError ≫= λ _,
  b ← current_budget;
  let per_block := kv_bytes_per_block block_size num_layers num_heads head_dim element_size in
  mret (if per_block <=? 0 then 0 else Z.max 0 (kv_cache_bytes b / per_block)).

Lemma budget_post_init_ok b b' : budget_post_init b = Ok b' → b' = b.
Proof. unfold budget_post_init. repeat case_match; congruence. Qed.

(** The three parts of a budget fit. *)
Lemma budget_parts b :
  0 ≤ expert_cache_bytes b ∧ 0 ≤ kv_cache_bytes b ∧
  expert_cache_bytes b + kv_cache_bytes b ≤ available_bytes b.
Proof. assert (0 ≤ available_bytes b) by apply Z.le_max_l. unfold kv_cache_bytes, expert_cache_bytes. lia. Qed.

(** The memory budget never overcommits, whatever the rounding of the
    floating-point products: if the manager computes a number of KV blocks, then
    expert cache, KV cache, model and activation reserve together fit the device
    (when the model and the reserve alone do), the blocks fit the KV part, and one
    more block would not. *)
Theorem memory_budget_fits m bs nl nh hd es n m' :
  0 < es → (∀ b, last_budget m = Some b → total_gpu_memory_bytes b = mm_total m) →
  get_max_kv_blocks bs nl nh hd es m = (Ok n, m') →
  ∃ b, last_budget m' = Some b ∧ total_gpu_memory_bytes b = mm_total m ∧
    let per_block := kv_bytes_per_block bs nl nh hd es in
    let reserve := scale (mm_total m) (activation_reserve_ratio b) in
    0 ≤ n ∧ n * per_block ≤ kv_cache_bytes b < (n + 1) * per_block ∧
    (model_memory_bytes b + reserve ≤ mm_total m →
       model_memory_bytes b + reserve + expert_cache_bytes b + n * per_block ≤ mm_total m).
Proof.
  intros Hes Hlast. unfold get_max_kv_blocks. munfold.
  destruct (existsb (λ v, v <=? 0) [bs; nl; nh; hd]) eqn:Hpos; [done|]. cbn in Hpos.
  rewrite !orb_false_iff, !Z.leb_gt in Hpos. destruct Hpos as (H1 & H2 & H3 & H4 & _).
  destruct (current_budget m) as [[b|er] m1] eqn:Hcur; [|done]. intros [= <- <-].
  assert (last_budget m1 = Some b ∧ total_gpu_memory_bytes b = mm_total m) as [Hb Ht].
  { revert Hcur. unfold current_budget. munfold. destruct (last_budget m) as [b0|] eqn:E.
    - intros [= <- <-]. split; [done|]. by apply Hlast.
    - unfold compute_budget. munfold. cbn [Z.ltb Z.compare]. 
      destruct (budget_post_init _) as [b1|] eqn:Hb1; [|done]. apply budget_post_init_ok in Hb1 as ->. by intros [= <- <-]. }
  exists b. split_and!; [done|done|..].
  all: pose proof (budget_parts b) as (He & Hk & Hsum);
    assert (0 < kv_bytes_per_block bs nl nh hd es) as Hp by (unfold kv_bytes_per_block; nia);
    rewrite (proj2 (Z.leb_gt _ _) Hp);
    pose proof (Z.div_pos (kv_cache_bytes b) (kv_bytes_per_block bs nl nh hd es) Hk Hp) as Hdp;
    rewrite (Z.max_r 0 _ Hdp);
    pose proof (Z.mul_div_le (kv_cache_bytes b) _ Hp) as Hle;
    pose proof (Z.mul_succ_div_gt (kv_cache_bytes b) _ Hp) as Hgt.
  - done.
  - lia.
  - lia.
  - intros Hfit. unfold available_bytes in Hsum. rewrite Ht in Hsum. lia.
Qed.

(** A manager with ratios in range always computes a budget. *)
Lemma compute_budget_total total device kv activation m model :
  0 ≤ total → 0 ≤ model → mm_init total device kv activation = Ok m → ∃ b, (compute_budget model m).1 = Ok b.
Proof.
  intros Ht Hm. unfold mm_init.
  destruct (unit_interval device) eqn:E1; [|done]. destruct (unit_interval kv) eqn:E2; [|done].
  destruct (unit_interval activation) eqn:E3; [|done]. intros [= <-].
  unfold unit_interval in *. rewrite !andb_true_iff, !Qle_bool_iff in *. destruct E1 as [D1 D2], E2 as [K1 K2].
  assert (0 <= device * kv)%Q as P1 by (by apply Qmult_le_0_compat).
  assert (device * kv <= device)%Q as P2 by nra.
  unfold compute_budget. munfold. rewrite (proj2 (Z.ltb_ge _ _) Hm). unfold budget_post_init, get_expert_cache_ratio. cbn.
  rewrite (proj2 (Z.ltb_ge _ _) Ht), (proj2 (Z.ltb_ge _ _) Hm).
  assert (unit_interval (device - device * kv) = true) as ->.
  { unfold unit_interval. rewrite andb_true_iff, !Qle_bool_iff. split; lra. }
  assert (unit_interval (device * kv) = true) as ->.
  { unfold unit_interval. rewrite andb_true_iff, !Qle_bool_iff. split; lra. }
  assert (unit_interval activation = true) as -> by (unfold unit_interval; by rewrite andb_true_iff, !Qle_bool_iff).
  cbn. eauto.
Qed.
End budget.
End Budget.

Lemma memory_budget_fits_witness :
  let scale n r := Qfloor (inject_Z n * r) in
  ∃ m m' n b, Budget.mm_init 1000000 (3 # 4) (1 # 4) (1 # 10) = Ok m ∧
    Budget.get_max_kv_blocks scale 16 2 4 8 2 m = (Ok n, m') ∧
    Budget.last_budget m' = Some b ∧ n = 41 ∧ n * 4096 ≤ Budget.kv_cache_bytes scale b.
Proof.
  intros scale. eexists _, _, _, _. split; [reflexivity|]. split; [vm_compute; reflexivity|]. split; [reflexivity|].
  split; [reflexivity|].
  destruct (Budget.memory_budget_fits scale (Budget.mkMM 1000000 (3 # 4) (1 # 4) (1 # 10) None) 16 2 4 8 2 41
              (Budget.mkMM 1000000 (3 # 4) (1 # 4) (1 # 10)
                 (Some (Budget.mkBudget 1000000 0 (36 # 64) (3 # 16) (1 # 10))))) as (b & Hb & _ & _ & Hfit & _).
  - lia.
  - intros b [=].
  - vm_compute. reflexivity.
  - injection Hb as <-. apply Hfit.
Defined.

(** ** AdaptiveKVScheduler *)
Module Adaptive.

Record AdaptiveKVScheduler := mkAKS {
  initial_max_batch_size : Z;
  kv_high_watermark : Q;
  kv_low_watermark : Q;
  expert_hit_target : Q;
  cooldown_seconds : Q;
  current_max_batch_size : Z;
  adjust_step : Z;
  last_adjust_timestamp : option Q;
  kv_utilization : Q;
  expert_hit_rate : option Q;
  kv_used_blocks : Z;
  kv_total_blocks : Z
}.
Implicit Types a : AdaptiveKVScheduler.

(** [__init__] *)
Definition aks_init (initial : Z) (high low target cooldown : Q) : res AdaptiveKVScheduler :=
  if initial <=? 0 then Err ValueError
  else if negb (forallb unit_interval [high; low; target]) then Err ValueError
  else if Qle_bool high low then Err ValueError
  else if Qlt_b cooldown 0 then Err ValueError
  else Ok (mkAKS initial high low target cooldown initial (Z.max 1 (initial / 8)) None 0 None 0 0).

Definition set_batch (n : Z) (at_ : option Q) a : AdaptiveKVScheduler :=
  mkAKS (initial_max_batch_size a) (kv_high_watermark a) (kv_low_watermark a) (expert_hit_target a) (cooldown_seconds a)
    n (adjust_step a) at_ (kv_utilization a) (expert_hit_rate a) (kv_used_blocks a) (kv_total_blocks a).

Definition kv_pressure_high a : bool := Qle_bool (kv_high_watermark a) (kv_utilization a).
Definition kv_pressure_low a : bool := Qle_bool (kv_utilization a) (kv_low_watermark a).
Definition expert_pressure_high a : bool :=
  match expert_hit_rate a with Some r => Qlt_b r (expert_hit_target a) | None => false end.

(** [_maybe_adjust] *)
Definition next_batch_size a : Z :=
  let n := current_max_batch_size a in
  let n' :=
    if kv_pressure_high a && expert_pressure_high a then n - adjust_step a * 2
    else if kv_pressure_high a || expert_pressure_high a then n - adjust_step a
    else if kv_pressure_low a && match expert_hit_rate a with None => true | Some r => Qle_bool (expert_hit_target a) r end
    then n + adjust_step a
    else n in
  Z.max 1 (Z.min (initial_max_batch_size a) n').
Definition maybe_adjust (now : Q) a : AdaptiveKVScheduler :=
  if match last_adjust_timestamp a with Some t => Qlt_b (now - t) (cooldown_seconds a) | None => false end then a
  else if next_batch_size a =? current_max_batch_size a then a
  else set_batch (next_batch_size a) (Some now) a.

(** [observe] *)
Definition observe (now : Q) (used total : Z) (hit : option Q) : M AdaptiveKVScheduler unit :=
  raise_if (used <? 0) ValueError ≫= λ _,
  raise_if (total <? 0) ValueError ≫= λ _,
  raise_if ((0 <? total) && (total <? used)) ValueError ≫= λ _,
  raise_if (match hit with Some r => negb (unit_interval r) | None => false end) ValueError ≫= λ _,
  modify (λ a, mkAKS (initial_max_batch_size a) (kv_high_watermark a) (kv_low_watermark a) (expert_hit_target a)
                 (cooldown_seconds a) (current_max_batch_size a) (adjust_step a) (last_adjust_timestamp a)
                 (if total =? 0 then 0 else inject_Z used / inject_Z total)%Q
                 (match hit with Some r => Some r | None => expert_hit_rate a end) used total) ≫= λ _,
  modify (maybe_adjust now).

Definition should_preempt_aggressively a : bool := kv_pressure_high a.

(** [get_tuning_recommendations] *)
Inductive recommendation := IncreaseKV | IncreaseExpert | IncreaseBatch (suggested : Z) | KeepPolicy.
Definition get_tuning_recommendations a : recommendation :=
  if kv_pressure_high a then IncreaseKV
  else if expert_pressure_high a then IncreaseExpert
  else if kv_pressure_low a && (current_max_batch_size a <? initial_max_batch_size a)
  then IncreaseBatch (Z.min (initial_max_batch_size a) (current_max_batch_size a + adjust_step a))
  else KeepPolicy.

(** ** Histories *)
Record observation := mkObs { ob_now : Q; ob_used : Z; ob_total : Z; ob_hit : option Q }.
Definition observe_all (obs : list observation) a : AdaptiveKVScheduler :=
  foldl (λ a o, (observe (ob_now o) (ob_used o) (ob_total o) (ob_hit o) a).2) a obs.

(** The batch sizes set by the observations, with their times. *)
Fixpoint adjustments (obs : list observation) a : list (Q * Z) :=
  match obs with
  | [] => []
  | o :: obs' =>
      let a' := (observe (ob_now o) (ob_used o) (ob_total o) (ob_hit o) a).2 in
      (if current_max_batch_size a' =? current_max_batch_size a then [] else [(ob_now o, current_max_batch_size a')])
        ++ adjustments obs' a'
  end.

Record aks_ok a : Prop := {
  ak_initial : 0 < initial_max_batch_size a;
  ak_batch : 1 ≤ current_max_batch_size a ≤ initial_max_batch_size a;
  ak_step : 1 ≤ adjust_step a
}.
Lemma aks_init_ok initial high low target cooldown a :
  aks_init initial high low target cooldown = Ok a → aks_ok a ∧ last_adjust_timestamp a = None.
Proof. unfold aks_init. repeat case_match; intros [= <-]. split; [split; cbn; lia|done]. Qed.

Lemma next_batch_bounds a : 0 < initial_max_batch_size a → 1 ≤ next_batch_size a ≤ initial_max_batch_size a.
Proof. intros H. unfold next_batch_size. lia. Qed.

(** Everything one observation does to the batch size. *)
Lemma observe_step now used total hit a :
  aks_ok a →
  let a' := (observe now used total hit a).2 in
  aks_ok a' ∧ cooldown_seconds a' = cooldown_seconds a ∧ initial_max_batch_size a' = initial_max_batch_size a ∧
  ((current_max_batch_size a' = current_max_batch_size a ∧ last_adjust_timestamp a' = last_adjust_timestamp a) ∨
   (current_max_batch_size a' ≠ current_max_batch_size a ∧ last_adjust_timestamp a' = Some now ∧
    ∀ t, last_adjust_timestamp a = Some t → (cooldown_seconds a <= now - t)%Q)).
Proof.
  intros [H1 H2 H3]. unfold observe. munfold.
  destruct (used <? 0); [by split; [split|auto]|]. destruct (total <? 0); [by split; [split|auto]|].
  destruct ((0 <? total) && (total <? used)); [by split; [split|auto]|].
  destruct (match hit with Some r => negb (unit_interval r) | None => false end); [by split; [split|auto]|]. cbn.
  match goal with |- context [maybe_adjust now ?x] => set (a0 := x) end.
  assert (current_max_batch_size a0 = current_max_batch_size a ∧ initial_max_batch_size a0 = initial_max_batch_size a ∧
          adjust_step a0 = adjust_step a ∧ last_adjust_timestamp a0 = last_adjust_timestamp a ∧
          cooldown_seconds a0 = cooldown_seconds a) as (E1 & E2 & E3 & E4 & E5) by done. clearbody a0.
  pose proof (next_batch_bounds a0 ltac:(by rewrite E2)) as Hn. unfold maybe_adjust. rewrite E4, E5.
  destruct (match last_adjust_timestamp a with Some t => Qlt_b (now - t) (cooldown_seconds a) | None => false end) eqn:Hc.
  { split; [split; rewrite ?E1, ?E2, ?E3; done|]. split_and!; [done..|]. left. by rewrite E1, E4. }
  destruct (Z.eqb_spec (next_batch_size a0) (current_max_batch_size a0)) as [Heq|Hne].
  { split; [split; rewrite ?E1, ?E2, ?E3; done|]. split_and!; [done..|]. left. by rewrite E1, E4. }
  split; [split; cbn; rewrite ?E2, ?E3 in *; done|]. split_and!; [done..|]. right. cbn. rewrite <- E1. split_and!; [done..|].
  intros t Ht. rewrite Ht in Hc. unfold Qlt_b in Hc. apply negb_false_iff, Qle_bool_iff in Hc. done.
Qed.

(** Each adjustment comes at least the cooldown after the one before. *)
Fixpoint spaced (cooldown : Q) (last : option Q) (l : list (Q * Z)) : Prop :=
  match l with
  | [] => True
  | (t, _) :: l' => (∀ t0, last = Some t0 → (cooldown <= t - t0)%Q) ∧ spaced cooldown (Some t) l'
  end.

Lemma adjustments_spaced obs a : aks_ok a → spaced (cooldown_seconds a) (last_adjust_timestamp a) (adjustments obs a).
Proof.
  revert a. induction obs as [|o obs IH]; intros a Ha; [done|]. cbn.
  pose proof (observe_step (ob_now o) (ob_used o) (ob_total o) (ob_hit o) a Ha) as (Hok & Hcd & _ & Hch).
  set (a' := (observe _ _ _ _ a).2) in *. specialize (IH a' Hok). rewrite Hcd in IH.
  destruct Hch as [[E1 E2]|(E1 & E2 & E3)].
  - rewrite E1, Z.eqb_refl. cbn. by rewrite <- E2.
  - rewrite (proj2 (Z.eqb_neq _ _) E1). cbn. split; [done|]. by rewrite <- E2.
Qed.

Lemma observe_all_ok obs a :
  aks_ok a → aks_ok (observe_all obs a) ∧ initial_max_batch_size (observe_all obs a) = initial_max_batch_size a.
Proof.
  revert a. induction obs as [|o obs IH]; intros a Ha; [done|]. cbn.
  destruct (observe_step (ob_now o) (ob_used o) (ob_total o) (ob_hit o) a Ha) as (Hok & _ & Hin & _).
  destruct (IH _ Hok) as [H1 H2]. split; [done|]. etransitivity; [exact H2|exact Hin].
Qed.
Lemma adjustments_bounds obs a :
  aks_ok a → Forall (λ p, 1 ≤ p.2 ≤ initial_max_batch_size a) (adjustments obs a).
Proof.
  revert a. induction obs as [|o obs IH]; intros a Ha; [constructor|]. cbn.
  destruct (observe_step (ob_now o) (ob_used o) (ob_total o) (ob_hit o) a Ha) as (Hok & _ & Hin & _).
  specialize (IH _ Hok). rewrite Hin in IH. apply Forall_app. split; [|done].
  case_match; [constructor|]. apply Forall_singleton. cbn. rewrite <- Hin. apply Hok.
Qed.

(** The adaptive scheduler stays within its bounds.  For any sequence of
    observations, valid or rejected, the batch size lies between 1 and the initial
    one, every value it ever took does, and two changes of it are at least the
    cooldown apart. *)
Theorem adaptive_batch_bounds initial high low target cooldown a obs :
  aks_init initial high low target cooldown = Ok a →
  1 ≤ current_max_batch_size (observe_all obs a) ≤ initial ∧
  Forall (λ p, 1 ≤ p.2 ≤ initial) (adjustments obs a) ∧
  spaced cooldown None (adjustments obs a).
Proof.
  intros Hi. destruct (aks_init_ok _ _ _ _ _ _ Hi) as [Hok Hts].
  assert (initial_max_batch_size a = initial ∧ cooldown_seconds a = cooldown) as [Hin Hcd].
  { unfold aks_init in Hi. repeat case_match; try done. by injection Hi as <-. }
  destruct (observe_all_ok obs a Hok) as [[_ Hb _] Hin']. rewrite Hin', Hin in Hb. split; [done|]. split.
  - rewrite <- Hin. by apply adjustments_bounds.
  - rewrite <- Hcd, <- Hts. by apply adjustments_spaced.
Qed.

(** Pressure, pressure within the cooldown, relief. *)
Lemma adaptive_batch_bounds_witness :
  ∃ a, aks_init 32 (9 # 10) (1 # 2) (7 # 10) 10 = Ok a ∧
    let obs := [mkObs 0 95 100 None; mkObs 5 99 100 None; mkObs 20 10 100 (Some 1%Q)] in
    adjustments obs a = [(0%Q, 28); (20%Q, 32)] ∧ spaced 10 None (adjustments obs a).
Proof.
  eexists. split; [reflexivity|]. split; [vm_compute; reflexivity|].
  eapply (adaptive_batch_bounds 32 (9 # 10) (1 # 2) (7 # 10) 10). reflexivity.
Defined.
End Adaptive.

(** ** MemoryCoordinator and ArcherConfig *)
Module Coordinator.
Record MemoryCoordinator := mkMC { device_memory_ratio : Q; kv_cache_memory_ratio : Q }.
Implicit Types c : MemoryCoordinator.

(** [__post_init__] *)
Definition mc_post_init c : res MemoryCoordinator :=
  if Qlt_b 1 (device_memory_ratio c + kv_cache_memory_ratio c) then Err ValueError else Ok c.

(** [max(0.0, x)] *)
Definition Qmax0 (x : Q) : Q := if Qle_bool 0 x then x else 0%Q.
Definition default_kv : Q := 15 # 100.

(** [from_config], given the three entries of the configuration (with their
    defaults 0.75, 0.0 and [True] when absent). *)
Definition from_config (device kv : option Q) (use_native : option bool) : res MemoryCoordinator :=
  let device := default (3 # 4)%Q device in
  let kv := default 0%Q kv in
  if default true use_native && Qeq_bool kv 0
  then mc_post_init (mkMC (if Qlt_b 1 (device + default_kv) then Qmax0 (1 - default_kv) else device) default_kv)
  else mc_post_init (mkMC device kv).

(** The ratios of [ArcherConfig.__post_init__]. *)
Definition archer_post_init (device kv : Q) (use_native : bool) : res (Q * Q) :=
  let kv_autocorrected := use_native && Qeq_bool kv 0 in
  let kv' := if kv_autocorrected then default_kv else kv in
  let device' := if kv_autocorrected && Qlt_b 1 (device + kv') then Qmax0 (1 - kv') else device in
  if negb (unit_interval device') then Err ValueError
  else if negb (unit_interval kv') then Err ValueError
  else if Qlt_b 1 (device' + kv') then Err ValueError
  else Ok (device', kv').

Section sizes.
(** [cuda.device_count()] and the memory of each device, [None] when torch does
    not report it. *)
Context (num_gpu_devices : Z) (device_total : Z → option Z).

Definition fallback_total : Z := 24 * 1024 ^ 3.
Definition total_gpu_memory_bytes (device_id : Z) : Z :=
  if (0 <=? device_id) && (device_id <? num_gpu_devices) then default fallback_total (device_total device_id) else fallback_total.
Definition aggregate_gpu_memory_bytes : Z :=
  if num_gpu_devices =? 0 then fallback_total else zsum (total_gpu_memory_bytes <$> seqZ 0 num_gpu_devices).

(** [int(x)] *)
Definition truncate (q : Q) : Z := Z.quot (Qnum q) (Zpos (Qden q)).
Definition mc_expert_cache_bytes c (device_id : Z) : Z := truncate (inject_Z (total_gpu_memory_bytes device_id) * device_memory_ratio c).
Definition mc_kv_cache_bytes c (device_id : Z) : Z := truncate (inject_Z (total_gpu_memory_bytes device_id) * kv_cache_memory_ratio c).
Definition mc_expert_cache_bytes_total c : Z := zsum (mc_expert_cache_bytes c <$> seqZ 0 (Z.max 1 num_gpu_devices)).
Definition mc_kv_cache_bytes_total c : Z := zsum (mc_kv_cache_bytes c <$> seqZ 0 (Z.max 1 num_gpu_devices)).
Definition remaining_bytes c (device_id : Z) : Z :=
  Z.max 0 (total_gpu_memory_bytes device_id - (mc_expert_cache_bytes c device_id + mc_kv_cache_bytes c device_id)).
Definition can_allocate_kv_blocks c (num_blocks block_size_bytes : Z) : bool := num_blocks * block_size_bytes <=? mc_kv_cache_bytes c 0.
Definition can_cache_expert c (size : Z) : bool := size <=? mc_expert_cache_bytes c 0.
Definition compute_num_kv_blocks c (block_size_bytes : Z) : Z :=
  if block_size_bytes <=? 0 then 0
  else Z.max 0 (Qfloor (inject_Z (mc_kv_cache_bytes c 0) / inject_Z block_size_bytes)).

(** ** Facts *)
Lemma Qlt_b_false a b : Qlt_b a b = false ↔ (b <= a)%Q.
Proof. unfold Qlt_b. by rewrite negb_false_iff, Qle_bool_iff. Qed.

Lemma truncate_le q : (0 <= q)%Q → 0 ≤ truncate q ∧ (inject_Z (truncate q) <= q)%Q.
Proof.
  destruct q as [n d]. unfold truncate, Qle, inject_Z. cbn. intros H. rewrite Z.quot_div_nonneg by lia. split.
  - apply Z.div_pos; lia.
  - pose proof (Z.mul_div_le n (Zpos d)). lia.
Qed.

Lemma budgets_fit c (total : Z) :
  0 ≤ total → (0 <= device_memory_ratio c)%Q → (0 <= kv_cache_memory_ratio c)%Q → mc_post_init c = Ok c →
  let e := truncate (inject_Z total * device_memory_ratio c) in
  let k := truncate (inject_Z total * kv_cache_memory_ratio c) in 0 ≤ e ∧ 0 ≤ k ∧ e + k ≤ total.
Proof.
  intros Ht He Hk Hmc e k. assert (device_memory_ratio c + kv_cache_memory_ratio c <= 1)%Q as Hs.
  { unfold mc_post_init in Hmc. destruct (Qlt_b 1 _) eqn:Hs; [done|]. by apply Qlt_b_false. }
  assert (0 <= inject_Z total)%Q as Htq by (by rewrite <- (Zle_Qle 0)).
  destruct (truncate_le (inject_Z total * device_memory_ratio c)) as [E1 E2]; [by apply Qmult_le_0_compat|].
  destruct (truncate_le (inject_Z total * kv_cache_memory_ratio c)) as [K1 K2]; [by apply Qmult_le_0_compat|].
  fold e in E1, E2. fold k in K1, K2. split_and!; [done|done|]. rewrite Zle_Qle, inject_Z_plus. nra.
Qed.

Lemma kv_blocks_fit c block :
  0 < block → 0 ≤ mc_kv_cache_bytes c 0 → compute_num_kv_blocks c block * block ≤ mc_kv_cache_bytes c 0 ∧
  can_allocate_kv_blocks c (compute_num_kv_blocks c block) block = true ∧
  can_allocate_kv_blocks c (compute_num_kv_blocks c block + 1) block = false.
Proof.
  intros Hb Hk. unfold compute_num_kv_blocks, can_allocate_kv_blocks. rewrite (proj2 (Z.leb_gt _ _) Hb).
  assert (Qfloor (inject_Z (mc_kv_cache_bytes c 0) / inject_Z block) = mc_kv_cache_bytes c 0 / block) as ->.
  { rewrite Zdiv_Qdiv. done. }
  pose proof (Z.div_pos _ _ Hk Hb) as H0. rewrite (Z.max_r 0 _ H0).
  pose proof (Z.mul_div_le (mc_kv_cache_bytes c 0) block Hb). pose proof (Z.mul_succ_div_gt (mc_kv_cache_bytes c 0) block Hb).
  rewrite Z.leb_le, Z.leb_gt. lia.
Qed.
End sizes.

(** The two places that correct memory ratios agree.  Whenever [ArcherConfig]
    accepts a configuration, [MemoryCoordinator.from_config] accepts the same one
    with the very same ratios, and accepts the corrected ratios unchanged
    (correcting twice is correcting once); the ratios are in range and leave room
    for each other, so on every device with a known or assumed size the expert
    and KV budgets are not negative and together fit, and [compute_num_kv_blocks]
    is the largest number of blocks that [can_allocate_kv_blocks] accepts. *)
Theorem memory_ratios_agree device kv use_native d k :
  archer_post_init device kv use_native = Ok (d, k) →
  from_config (Some device) (Some kv) (Some use_native) = Ok (mkMC d k) ∧
  (use_native = true → (0 < k)%Q) ∧
  archer_post_init d k use_native = Ok (d, k) ∧
  ∀ n totals id block, (∀ i z, totals i = Some z → 0 ≤ z) → 0 < block →
    let c := mkMC d k in
    0 ≤ mc_expert_cache_bytes n totals c id ∧ 0 ≤ mc_kv_cache_bytes n totals c id ∧
    mc_expert_cache_bytes n totals c id + mc_kv_cache_bytes n totals c id ≤ total_gpu_memory_bytes n totals id ∧
    (∀ m, can_allocate_kv_blocks n totals c m block = true ↔ m ≤ compute_num_kv_blocks n totals c block).
Proof.
  unfold archer_post_init.
  set (auto := use_native && Qeq_bool kv 0). set (kv' := if auto then default_kv else kv).
  set (d' := if auto && Qlt_b 1 (device + kv') then Qmax0 (1 - kv') else device).
  destruct (unit_interval d') eqn:Hd; [|done]. destruct (unit_interval kv') eqn:Hk; [|done].
  destruct (Qlt_b 1 (d' + kv')) eqn:Hs; [done|]. cbn [negb]. intros [= <- <-].
  pose proof Hd as Hd'. pose proof Hk as Hk'. unfold unit_interval in Hd', Hk'.
  rewrite andb_true_iff, !Qle_bool_iff in Hd', Hk'.
  assert (mc_post_init (mkMC d' kv') = Ok (mkMC d' kv')) as Hmc by (unfold mc_post_init; cbn; by rewrite Hs).
  assert (use_native = true → Qeq_bool kv' 0 = false) as Hkv.
  { intros ->. unfold kv', auto. cbn. destruct (Qeq_bool kv 0) eqn:E; [done|exact E]. }
  split_and!.
  - unfold from_config. cbn [default from_option id]. fold auto. rewrite <- Hmc. unfold d', kv'. by destruct auto.
  - intros Hn. apply Hkv, Qeq_bool_neq in Hn. lra || (destruct Hk' as [H1 _]; apply Qle_lteq in H1 as [?|E]; [done|]; symmetry in E; done).
  - destruct use_native; [rewrite (Hkv eq_refl)|]; cbv zeta; cbn [andb]; rewrite Hd, Hk, Hs; reflexivity.
  - intros n totals id block Ht Hb. set (c := mkMC d' kv').
    assert (∀ i, 0 ≤ total_gpu_memory_bytes n totals i) as Htot.
    { intros i. unfold total_gpu_memory_bytes. destruct ((0 <=? i) && (i <? n)); [|done].
      destruct (totals i) as [z|] eqn:E; [by apply (Ht i)|done]. }
    destruct (budgets_fit c (total_gpu_memory_bytes n totals id)) as (H1 & H2 & H3); [done|apply Hd'|apply Hk'|done|].
    destruct (budgets_fit c (total_gpu_memory_bytes n totals 0)) as (_ & H2' & _); [done|apply Hd'|apply Hk'|done|].
    split; [done|]. split; [done|]. split; [done|].
    destruct (kv_blocks_fit n totals c block Hb H2') as (_ & Hyes & Hno). unfold can_allocate_kv_blocks in *.
    intros m. rewrite Z.leb_le in *. rewrite Z.leb_gt in Hno. split; intros; nia.
Qed.

Lemma memory_ratios_agree_witness :
  from_config (Some (9 # 10)%Q) (Some 0%Q) (Some true) = Ok (mkMC (85 # 100) (15 # 100)).
Proof.
  destruct (memory_ratios_agree (9 # 10) 0 true (85 # 100) (15 # 100)) as (H & _); [vm_compute; reflexivity|exact H].
Defined.
End Coordinator.
