(* ===== verification/ExpertDispatch.v ===== *)
(** * Expert dispatch of a batch and prefetch coordination
    (serving/expert_batch.py, serving/expert_prefetch_coordinator.py)

    A rank-2 tensor is the list of its rows.  The tensor operations softmax and
    top-k are parameters with their documented behaviour; the expert executor is a
    parameter that returns any tensor. *)
From Stdlib Require Import QArith Lqa.
From S2P Require Import Prelude.
Open Scope Z_scope.

Module Dispatch.

(** [_validate_token_offsets] *)
Fixpoint non_decreasing (l : list Z) : bool :=
  match l with
  | [] => true
  | a :: l' => match l' with b :: _ => negb (b <? a) | [] => true end && non_decreasing l'
  end.
Definition validate_token_offsets (token_offsets : list Z) (total_tokens : Z) : res unit :=
  match token_offsets with
  | [] => Err ValueError
  | o :: _ =>
      if negb (o =? 0) then Err ValueError
      else if negb (List.last token_offsets 0 =? total_tokens) then Err ValueError
      else if negb (non_decreasing token_offsets) then Err ValueError
      else Ok tt
  end.

(** [_validate_split_inputs] *)
Definition validate_split_inputs (token_offsets seq_lengths : list Z) (total_tokens : Z) : res unit :=
  match validate_token_offsets token_offsets total_tokens with
  | Err e => Err e
  | Ok _ => if zlen token_offsets =? zlen seq_lengths + 1 then Ok tt else Err ValueError
  end.

(** [split_output]: the loop over the sequences, and the whole function. *)
Fixpoint split_loop {A} (output : list A) (offsets lengths : list Z) : res (list (list A)) :=
  match lengths with
  | [] => Ok []
  | len :: lengths' =>
      match offsets with
      | start :: (stop :: _) as rest =>
          if negb (stop - start =? len) then Err ValueError
          else match split_loop output (tail offsets) lengths' with
               | Ok l => Ok (py_slice output start stop :: l)
               | Err e => Err e
               end
      | _ => Err IndexError
      end
  end.
Definition split_output {A} (output : list A) (token_offsets seq_lengths : list Z) : res (list (list A)) :=
  match validate_split_inputs token_offsets seq_lengths (zlen output) with
  | Err e => Err e
  | Ok _ => split_loop output token_offsets seq_lengths
  end.

Section routing.
Context (softmax : list Q → list Q) (topk : list Q → nat → list nat).

(** The row of [_build_routing] for one token: [scatter_] sets the selected
    positions, [scatter_add_] adds their weights. *)
Definition qsum (l : list Q) : Q := foldr Qplus 0%Q l.
Definition select_weights (row : list Q) (idxs : list nat) : list Q := (λ i, default 0%Q (row !! i)) <$> idxs.
Definition scatter_true (n : nat) (idxs : list nat) : list bool := (λ i, bool_decide (i ∈ idxs)) <$> seq 0 n.
Fixpoint scatter_add (row : list Q) (idxs : list nat) (ws : list Q) : list Q :=
  match idxs, ws with
  | i :: idxs', w :: ws' => scatter_add (alter (λ x, (x + w)%Q) i row) idxs' ws'
  | _, _ => row
  end.
Definition route_row (top_k : nat) (logits : list Q) : list bool * list Q :=
  let weights := softmax logits in
  let selected := topk weights top_k in
  let ws := select_weights weights selected in
  let total := qsum ws in
  (scatter_true (length logits) selected,
   scatter_add (replicate (length logits) 0%Q) selected ((λ w, (w / total)%Q) <$> ws)).
Definition build_routing (top_k : nat) (router_logits : list (list Q)) : list (list bool) * list (list Q) :=
  let rows := route_row top_k <$> router_logits in (rows.*1, rows.*2).

(** [dispatch]; [num_experts] is [router_logits.shape[1]] and [hidden_dim] is
    [hidden_states.shape[1]]; the executor's answer is a tensor with its width. *)
Definition dispatch {A} (executor : list (list A) → list (list bool) → list (list Q) → res (list (list A) * Z))
    (hidden_states : list (list A)) (hidden_dim : Z) (router_logits : list (list Q)) (num_experts top_k : Z)
    (token_offsets : list Z) : res (list (list A)) :=
  if negb (zlen router_logits =? zlen hidden_states) then Err ValueError
  else
    match validate_token_offsets token_offsets (zlen hidden_states) with
    | Err e => Err e
    | Ok _ =>
        if negb ((1 <=? top_k) && (top_k <=? num_experts)) then Err ValueError
        else
          let '(mask, weights) := build_routing (Z.to_nat top_k) router_logits in
          match executor hidden_states mask weights with
          | Err e => Err e
          | Ok (output, width) =>
              if (zlen output =? zlen hidden_states) && (width =? hidden_dim) then Ok output else Err ValueError
          end
    end.

End routing.

(** ** Routing *)

Lemma qsum_alter row i w : (i < length row)%nat → (qsum (alter (λ x, (x + w)%Q) i row) == qsum row + w)%Q.
Proof.
  revert i. induction row as [|x row IH]; intros i Hi; cbn [length] in Hi; [lia|].
  destruct i as [|i]; cbn [alter list_alter qsum foldr]; fold (qsum row); [ring|].
  specialize (IH i). unfold qsum at 1, alter in IH. rewrite IH by lia. ring.
Qed.

Lemma scatter_add_sum row idxs ws :
  Forall (λ i, (i < length row)%nat) idxs → length idxs = length ws →
  (qsum (scatter_add row idxs ws) == qsum row + qsum ws)%Q.
Proof.
  intros H. revert row ws H. induction idxs as [|i idxs IH]; intros row [|w ws] H Hl; try done.
  { cbn [scatter_add]. change (qsum []) with 0%Q. ring. }
  inversion_clear H. injection Hl as Hl. cbn [scatter_add]. rewrite IH; [|by rewrite length_alter|done].
  rewrite qsum_alter by done. change (qsum (w :: ws)) with (w + qsum ws)%Q. ring.
Qed.

Lemma scatter_add_other row idxs ws i : i ∉ idxs → scatter_add row idxs ws !! i = row !! i.
Proof.
  revert row ws. induction idxs as [|j idxs IH]; intros row [|w ws] Hi; try done.
  cbn [scatter_add]. rewrite IH by set_solver. apply list_lookup_alter_ne. set_solver.
Qed.

Lemma length_scatter_add row idxs ws : length (scatter_add row idxs ws) = length row.
Proof.
  revert row ws. induction idxs as [|j idxs IH]; intros row [|w ws]; try done.
  cbn [scatter_add]. by rewrite IH, length_alter.
Qed.

Lemma qsum_div ws t : (qsum ((λ w, (w / t)%Q) <$> ws) == qsum ws / t)%Q.
Proof.
  unfold Qdiv. induction ws as [|w ws IH]; [cbn; ring|].
  rewrite fmap_cons. cbn [qsum foldr]. fold (qsum ws). unfold qsum at 1 in IH. rewrite IH. ring.
Qed.

Lemma qsum_nonneg l : Forall (λ q, (0 <= q)%Q) l → (0 <= qsum l)%Q.
Proof. induction 1 as [|q l Hq _ IH]; cbn; [lra|]. fold (qsum l). lra. Qed.
Lemma qsum_le_elem l q : Forall (λ q, (0 <= q)%Q) l → q ∈ l → (q <= qsum l)%Q.
Proof.
  intros H. induction H as [|a l Ha Hl IH]; intros Hq; [set_solver|]. cbn. fold (qsum l).
  pose proof (qsum_nonneg l Hl). apply elem_of_cons in Hq as [->|Hq]; [lra|]. specialize (IH Hq). lra.
Qed.
Lemma qsum_zero l : Forall (λ q, (q <= 0)%Q) l → (qsum l <= 0)%Q.
Proof. induction 1 as [|q l Hq _ IH]; cbn; [lra|]. fold (qsum l). lra. Qed.

(** [topk_of row k idxs]: [idxs] is an answer [torch.topk] may give. *)
Definition topk_of (row : list Q) (k : nat) (idxs : list nat) : Prop :=
  NoDup idxs ∧ length idxs = k ∧ Forall (λ i, (i < length row)%nat) idxs ∧
  ∀ i j x y, i ∈ idxs → j ∉ idxs → row !! i = Some x → row !! j = Some y → (y <= x)%Q.
(** [distribution n row]: what softmax over [n] entries gives. *)
Definition distribution (n : nat) (row : list Q) : Prop :=
  length row = n ∧ Forall (λ q, (0 <= q)%Q) row ∧ (qsum row == 1)%Q.

Lemma select_weights_nonneg row idxs : Forall (λ q, (0 <= q)%Q) row → Forall (λ q, (0 <= q)%Q) (select_weights row idxs).
Proof.
  intros H. apply Forall_forall. intros q (i & -> & _)%list_elem_of_fmap.
  destruct (row !! i) as [x|] eqn:E; cbn; [|lra]. exact (Forall_lookup_1 _ _ _ _ H E).
Qed.

(** The weight the selected experts share is positive. *)
Lemma topk_total_pos n row k idxs :
  distribution n row → topk_of row k idxs → (1 ≤ k)%nat → (0 < qsum (select_weights row idxs))%Q.
Proof.
  intros (Hn & Hnn & H1) (Hnd & Hk & Hin & Hmax) Hk1.
  pose proof (select_weights_nonneg row idxs Hnn) as Hs.
  destruct (Qlt_le_dec 0 (qsum (select_weights row idxs))) as [|Hz]; [done|exfalso].
  assert (∀ i x, i ∈ idxs → row !! i = Some x → (x <= 0)%Q) as Hsel.
  { intros i x Hi Hx. eapply Qle_trans; [|exact Hz]. apply (qsum_le_elem _ _ Hs).
    apply list_elem_of_fmap. exists i. by rewrite Hx. }
  destruct idxs as [|i0 idxs]; [cbn in Hk; lia|].
  assert (is_Some (row !! i0)) as [x0 Hx0] by (apply lookup_lt_is_Some; by inversion Hin).
  pose proof (Hsel i0 x0 ltac:(set_solver) Hx0) as Hx0z.
  assert (qsum row <= 0)%Q; [|lra]. apply qsum_zero, Forall_lookup. intros j y Hy.
  destruct (decide (j ∈ i0 :: idxs)) as [Hj|Hj]; [by eapply Hsel|].
  specialize (Hmax i0 j x0 y ltac:(set_solver) Hj Hx0 Hy). lra.
Qed.

Lemma scatter_true_count n idxs :
  NoDup idxs → Forall (λ i, (i < n)%nat) idxs →
  length (filter (λ b, b = true) (scatter_true n idxs)) = length idxs.
Proof.
  intros Hnd Hin. unfold scatter_true.
  assert (∀ l : list nat, length (filter (λ b, b = true) ((λ i, bool_decide (i ∈ idxs)) <$> l)) =
    length (filter (λ i, i ∈ idxs) l)) as ->.
  { induction l as [|i l IH]; [done|]. rewrite fmap_cons, !filter_cons. destruct (decide (i ∈ idxs)).
    - rewrite bool_decide_true, decide_True by done. cbn. by rewrite IH.
    - rewrite bool_decide_false, decide_False by done. done. }
  assert (filter (λ i, i ∈ idxs) (seq 0 n) ≡ₚ idxs) as ->; [|done].
  apply NoDup_Permutation; [apply NoDup_filter, NoDup_seq|done|]. intros i.
  rewrite list_elem_of_filter, elem_of_seq. rewrite Forall_forall in Hin.
  split; [by intros []|]. intros Hi. split; [done|]. specialize (Hin i Hi). lia.
Qed.

(** Routing of one token: when softmax of the token's logits is a probability
    distribution and top-k answers with [top_k >= 1] best positions, the token's mask
    marks exactly [top_k] experts, the marked ones are the selected ones and no
    unmarked expert scores higher than a marked one, the weights of unmarked experts
    are zero and the weights of the row sum to one. *)
Theorem routing_row softmax topk (top_k : nat) (logits : list Q) :
  (1 ≤ top_k)%nat → distribution (length logits) (softmax logits) →
  topk_of (softmax logits) top_k (topk (softmax logits) top_k) →
  let '(mask, ws) := route_row softmax topk top_k logits in
  length mask = length logits ∧ length ws = length logits ∧
  length (filter (λ b, b = true) mask) = top_k ∧
  (∀ i, mask !! i = Some true ↔ i ∈ topk (softmax logits) top_k) ∧
  (∀ i j x y, mask !! i = Some true → mask !! j = Some false →
     softmax logits !! i = Some x → softmax logits !! j = Some y → (y <= x)%Q) ∧
  (∀ i, mask !! i = Some false → ws !! i = Some 0%Q) ∧ (qsum ws == 1)%Q.
Proof.
  intros Hk Hd Ht. pose proof (topk_total_pos _ _ _ _ Hd Ht Hk) as Hpos. destruct Hd as (Hn & Hnn & H1).
  destruct Ht as (Hnd & Hlen & Hin & Hmax). unfold route_row. set (sel := topk (softmax logits) top_k) in *.
  rewrite Hn in Hin.
  assert (∀ i b, scatter_true (length logits) sel !! i = Some b ↔ (i < length logits)%nat ∧ b = bool_decide (i ∈ sel)) as Hm.
  { intros i b. unfold scatter_true. rewrite list_lookup_fmap. destruct (decide (i < length logits)%nat).
    - rewrite lookup_seq_lt by done. cbn. split; [by intros [= <-]|by intros [_ ->]].
    - rewrite lookup_seq_ge by lia. cbn. split; [done|]. intros []; lia. }
  assert (∀ i, scatter_true (length logits) sel !! i = Some false → (i < length logits)%nat ∧ i ∉ sel) as Hf.
  { intros i [Hi Hb]%Hm. split; [done|]. symmetry in Hb. by apply bool_decide_eq_false in Hb. }
  split; [unfold scatter_true; by rewrite length_fmap, length_seq|].
  split; [by rewrite length_scatter_add, length_replicate|].
  split; [by rewrite scatter_true_count|]. split.
  { intros i. rewrite Hm. split; [|intros Hi; split; [exact (proj1 (Forall_forall _ _) Hin i Hi)|by rewrite bool_decide_true]].
    intros [_ Hb]. symmetry in Hb. exact (bool_decide_eq_true_1 _ Hb). }
  split.
  { intros i j x y [_ Hi]%Hm [_ Hj]%Hf. apply Hmax; [symmetry in Hi; exact (bool_decide_eq_true_1 _ Hi)|done]. }
  split.
  { intros i [Hi Hs]%Hf. rewrite scatter_add_other by done. by apply lookup_replicate_2. }
  rewrite scatter_add_sum; [|by rewrite length_replicate|unfold select_weights; by rewrite !length_fmap].
  rewrite qsum_div. assert (qsum (replicate (length logits) 0%Q) == 0)%Q as ->.
  { generalize (length logits). intros n. induction n as [|n IH]; [done|]. cbn. fold (qsum (replicate n 0%Q)). rewrite IH. ring. }
  field. intros He. rewrite He in Hpos. by apply Qlt_irrefl in Hpos.
Qed.

Lemma routing_row_witness :
  let softmax := λ _ : list Q, [1#10; 4#10; 2#10; 3#10]%Q in
  let topk := λ (_ : list Q) (_ : nat), [1; 3]%nat in
  (qsum (route_row softmax topk 2 [0; 3; 1; 2]%Q).2 == 1)%Q.
Proof.
  cbn zeta.
  pose proof (routing_row (λ _ : list Q, [1#10; 4#10; 2#10; 3#10]%Q) (λ (_ : list Q) (_ : nat), [1; 3]%nat) 2
    [0; 3; 1; 2]%Q) as H.
  destruct H as (_ & _ & _ & _ & _ & _ & H); [lia| | |exact H].
  - split; [done|]. split; [|reflexivity]. repeat constructor; unfold Qle; cbn; lia.
  - split; [apply (bool_decide_unpack _); vm_compute; exact I|]. split; [done|].
    split; [repeat constructor|]. intros i j x y Hi Hj Hx Hy.
    apply elem_of_cons in Hi as [->|Hi%list_elem_of_singleton]; [|subst i]; injection Hx as <-.
    all: destruct j as [|[|[|[|j]]]]; try discriminate Hy; injection Hy as <-; try (unfold Qle; cbn; lia).
    all: exfalso; apply Hj; set_solver.
Defined.

(** ** Splitting *)

(** The offsets the batch builder gives lengths: their running sums. *)
Fixpoint offsets_from (start : Z) (lengths : list Z) : list Z :=
  match lengths with [] => [start] | l :: lengths' => start :: offsets_from (start + l) lengths' end.

Lemma offsets_from_head start ls : ∃ rest, offsets_from start ls = start :: rest.
Proof. destruct ls; eexists; reflexivity. Qed.

Lemma split_loop_concat {A} (pre : list A) (parts : list (list A)) :
  split_loop (pre ++ concat parts) (offsets_from (zlen pre) (zlen <$> parts)) (zlen <$> parts) = Ok parts.
Proof.
  revert pre. induction parts as [|p parts IH]; intros pre; [done|]. cbn [fmap list_fmap split_loop concat offsets_from].
  specialize (IH (pre ++ p)). replace (zlen (pre ++ p)) with (zlen pre + zlen p) in IH by (unfold zlen; rewrite length_app; lia).
  rewrite <- app_assoc in IH. destruct (offsets_from_head (zlen pre + zlen p) (zlen <$> parts)) as [rest Hr].
  unfold fmap in *. rewrite Hr in *. cbn [tail]. replace (zlen pre + zlen p - zlen pre =? zlen p) with true by lia.
  cbn [negb]. rewrite IH. by rewrite py_slice_mid.
Qed.

Lemma offsets_valid start ls :
  Forall (λ l, 0 ≤ l) ls → non_decreasing (offsets_from start ls) = true ∧
  List.last (offsets_from start ls) 0 = start + zsum ls ∧ zlen (offsets_from start ls) = zlen ls + 1.
Proof.
  intros H. revert start. induction H as [|l ls Hl _ IH]; intros start; [cbn; unfold zlen; cbn; lia|].
  destruct (IH (start + l)) as (H1 & H2 & H3). cbn [offsets_from]. destruct (offsets_from_head (start + l) ls) as [rest Hr].
  rewrite Hr in *. split_and!.
  - change (negb (start + l <? start) && non_decreasing (start + l :: rest) = true).
    rewrite H1. replace (start + l <? start) with false by lia. done.
  - change (List.last (start :: (start + l) :: rest) 0) with (List.last ((start + l) :: rest) 0). rewrite H2. change (zsum (l :: ls)) with (l + zsum ls). lia.
  - unfold zlen in *. cbn [length] in *. lia.
Qed.

Lemma non_decreasing_cons a b l :
  non_decreasing (a :: b :: l) = true → a ≤ b ∧ non_decreasing (b :: l) = true.
Proof.
  change (non_decreasing (a :: b :: l)) with (negb (b <? a) && non_decreasing (b :: l)).
  intros [H1 H2]%andb_prop. apply negb_true_iff, Z.ltb_ge in H1. done.
Qed.

Lemma non_decreasing_last a l : non_decreasing (a :: l) = true → a ≤ List.last (a :: l) 0.
Proof.
  revert a. induction l as [|b l IH]; intros a H; [cbn; lia|].
  apply non_decreasing_cons in H as [Hab H]. specialize (IH b H). change (List.last (a :: b :: l) 0) with (List.last (b :: l) 0). lia.
Qed.

Lemma split_loop_inv {A} (pre post : list A) offs lens parts :
  non_decreasing (zlen pre :: offs) = true → zlen offs = zlen lens →
  List.last (zlen pre :: offs) 0 = zlen pre + zlen post →
  split_loop (pre ++ post) (zlen pre :: offs) lens = Ok parts →
  post = concat parts ∧ lens = zlen <$> parts ∧ zlen pre :: offs = offsets_from (zlen pre) lens.
Proof.
  revert pre post offs parts. induction lens as [|len lens IH]; intros pre post offs parts Hnd Hlen Hlast H.
  { destruct offs; [|unfold zlen in Hlen; cbn in Hlen; lia]. injection H as <-. cbn in Hlast.
    destruct post; [done|]. unfold zlen in Hlast. cbn in Hlast. lia. }
  destruct offs as [|stop offs]; [unfold zlen in Hlen; cbn in Hlen; lia|].
  apply non_decreasing_cons in Hnd as [Hle Hnd]. change (List.last (stop :: offs) 0 = zlen pre + zlen post) in Hlast.
  pose proof (non_decreasing_last _ _ Hnd) as Hst. cbn [split_loop tail] in H.
  destruct (Z.eqb_spec (stop - zlen pre) len) as [<-|]; [cbn [negb] in H|done].
  set (n := Z.to_nat (stop - zlen pre)). assert (zlen (take n post) = stop - zlen pre) as Hp.
  { unfold zlen in *. rewrite length_take. unfold n. lia. }
  assert (stop = zlen (pre ++ take n post)) as Hs by (rewrite zlen_app; lia).
  destruct (split_loop (pre ++ post) (stop :: offs) lens) as [l|] eqn:E; [|done]. injection H as <-.
  rewrite <- (take_drop n post), app_assoc, Hs in E. rewrite Hs in Hnd, Hlast.
  apply IH in E as (E1 & E2 & E3); [|done|unfold zlen in *; cbn in Hlen; lia|].
  2:{ rewrite Hlast, <- (take_drop n post) at 1. rewrite !zlen_app. lia. }
  assert (py_slice (pre ++ post) (zlen pre) stop = take n post) as Hsl.
  { rewrite <- (take_drop n post) at 1. replace stop with (zlen pre + zlen (take n post)) by lia. apply py_slice_mid. }
  rewrite Hsl. cbn [concat fmap list_fmap offsets_from]. rewrite <- E1, take_drop, Hp. split_and!; [done|by f_equal|].
  f_equal. replace (zlen pre + (stop - zlen pre)) with stop by lia. rewrite <- Hs in E3. by rewrite E3.
Qed.

(** [split_output] accepts exactly the tilings of the batch: it returns a list
    of parts if and only if the parts concatenate to the output tensor, the sequence
    lengths are the lengths of the parts, and the offsets are their running sums from
    zero. *)
Theorem split_output_iff {A} (output : list A) (token_offsets seq_lengths : list Z) (parts : list (list A)) :
  split_output output token_offsets seq_lengths = Ok parts ↔
  output = concat parts ∧ seq_lengths = zlen <$> parts ∧ token_offsets = offsets_from 0 seq_lengths.
Proof.
  unfold split_output, validate_split_inputs, validate_token_offsets. split.
  - destruct token_offsets as [|o offs]; [done|]. destruct (Z.eqb_spec o 0) as [->|]; [|done]. cbn [negb].
    destruct (Z.eqb_spec (List.last (0 :: offs) 0) (zlen output)) as [Hl|]; [|done]. cbn [negb].
    destruct (non_decreasing (0 :: offs)) eqn:Hnd; [|done]. cbn [negb].
    destruct (Z.eqb_spec (zlen (0 :: offs)) (zlen seq_lengths + 1)) as [Hn|]; [|done]. intros H.
    apply (split_loop_inv [] output); try done. rewrite zlen_cons in Hn. lia.
  - intros (-> & -> & ->).
    destruct (offsets_valid 0 (zlen <$> parts)) as (H1 & H2 & H3).
    { apply Forall_forall. intros x (p & -> & _)%list_elem_of_fmap. apply zlen_nonneg. }
    destruct (offsets_from_head 0 (zlen <$> parts)) as [rest Hr]. pose proof (split_loop_concat [] parts) as H.
    change (zlen (@nil A)) with 0 in H. cbn [app] in H. rewrite H2, Hr, H1 in *.
    assert (zsum (zlen <$> parts) = zlen (concat parts)) as ->.
    { clear. induction parts as [|p parts IH]; [done|]. rewrite fmap_cons. cbn [concat].
      change (zsum (zlen p :: (zlen <$> parts))) with (zlen p + zsum (zlen <$> parts)). by rewrite zlen_app, IH. }
    rewrite H3, H. cbn [negb Z.eqb]. by rewrite !Z.eqb_refl.
Qed.
End Dispatch.
