(* ===== verification/ExpertPrefetch.v ===== *)
(** * Which experts to fetch ahead
    (serving/expert_prefetch_coordinator.py, memory/expert_prefetcher.py,
    distributed/expert_executor.py, distributed/expert_prefetcher.py)

    [PrefetchCoordinator] ranks the experts of a layer by the number of sequences
    that activate them.  [Prefetch] is the prefetcher and its speculation,
    [Executor] the dispatch of a layer's experts with the correction of the
    speculation.  The archer engine and the expert dispatcher are C++: what reaches
    them is a log of calls. *)
From Stdlib Require Import QArith.
From S2P Require Import Prelude PyCollections.
Open Scope Z_scope.

Module PrefetchCoordinator.
Import OrderedDict.

(** [_sequence_activations] maps a sequence to the experts it activated per layer,
    in insertion order of the sequences. *)
Record ExpertPrefetchCoordinator := mkPC {
  pc_num_layers : Z;
  pc_num_experts : Z;
  sequence_activations : list (Z * gmap Z (gset Z));
  total_requested_loads : Z;
  unique_loads : Z;
  deduplicated_loads : Z;
  num_priority_queries : Z
}.

Definition pc_init (num_layers num_experts : Z) : res ExpertPrefetchCoordinator :=
  if num_layers <=? 0 then Err ValueError
  else if num_experts <=? 0 then Err ValueError
  else Ok (mkPC num_layers num_experts [] 0 0 0 0).

Definition validate_layer_id (layer_id : Z) : M ExpertPrefetchCoordinator unit :=
  s ← get; raise_if (negb ((0 <=? layer_id) && (layer_id <? pc_num_layers s))) ValueError.
Definition validate_expert_id (expert_id : Z) : M ExpertPrefetchCoordinator unit :=
  s ← get; raise_if (negb ((0 <=? expert_id) && (expert_id <? pc_num_experts s))) ValueError.

(** The set of a sequence and layer, [set()] when absent. *)
Definition activations (seq_id layer_id : Z) (s : ExpertPrefetchCoordinator) : gset Z :=
  default ∅ (od_get seq_id (sequence_activations s) ≫= lookup layer_id).
Definition set_activations (seq_id layer_id : Z) (x : gset Z) (s : ExpertPrefetchCoordinator)
    : ExpertPrefetchCoordinator :=
  let layers := default ∅ (od_get seq_id (sequence_activations s)) in
  mkPC (pc_num_layers s) (pc_num_experts s)
    (od_set seq_id (<[layer_id := x]> layers) (sequence_activations s))
    (total_requested_loads s) (unique_loads s) (deduplicated_loads s) (num_priority_queries s).

(** [update_sequence_activations]: ids before an invalid one stay recorded. *)
Definition update_sequence_activations (seq_id layer_id : Z) (activated_expert_ids : list Z)
    : M ExpertPrefetchCoordinator unit :=
  _ ← validate_layer_id layer_id;
  _ ← modify (λ s, set_activations seq_id layer_id (activations seq_id layer_id s) s);
  for_each activated_expert_ids (λ expert_id,
    _ ← validate_expert_id expert_id;
    modify (λ s, set_activations seq_id layer_id ({[expert_id]} ∪ activations seq_id layer_id s) s)).

(** The loop of [get_priority_experts]: the requested loads and [support_count]. *)
Definition count_one (m : gmap Z Z) (expert_id : Z) : gmap Z Z :=
  <[expert_id := default 0 (m !! expert_id) + 1]> m.
Fixpoint support (layer_id : Z) (seqs : list (Z * gmap Z (gset Z))) (total : Z) (m : gmap Z Z) : Z * gmap Z Z :=
  match seqs with
  | [] => (total, m)
  | (_, layers) :: seqs' =>
      match layers !! layer_id with
      | None => support layer_id seqs' total m
      | Some activated =>
          support layer_id seqs' (total + zlen (elements activated)) (foldl count_one m (elements activated))
      end
  end.

(** The sort key [(-count, layer, expert)]; the layer is the same for all items. *)
Definition before (a b : Z * Z) : Prop := b.2 < a.2 ∨ (a.2 = b.2 ∧ a.1 ≤ b.1).
#[export] Instance before_dec : RelDecision before.
Proof. intros [] []. unfold before. solve_decision. Defined.

Definition get_priority_experts (next_layer_id max_experts : Z) : M ExpertPrefetchCoordinator (list (Z * Z)) :=
  _ ← validate_layer_id next_layer_id;
  _ ← raise_if (max_experts <=? 0) ValueError;
  s ← get;
  let '(total_requested, support_count) := support next_layer_id (sequence_activations s) 0 ∅ in
  let prioritized := merge_sort before (map_to_list support_count) in
  let deduped := (λ kv, (next_layer_id, kv.1)) <$> py_slice prioritized 0 max_experts in
  let unique := zlen (map_to_list support_count) in
  let saved := Z.max 0 (total_requested - unique) in
  _ ← modify (λ s, mkPC (pc_num_layers s) (pc_num_experts s) (sequence_activations s)
         (total_requested_loads s + total_requested) (unique_loads s + unique)
         (deduplicated_loads s + saved) (num_priority_queries s + 1));
  mret deduped.

Definition clear_sequence (seq_id : Z) : M ExpertPrefetchCoordinator unit :=
  modify (λ s, mkPC (pc_num_layers s) (pc_num_experts s) (od_del seq_id (sequence_activations s))
    (total_requested_loads s) (unique_loads s) (deduplicated_loads s) (num_priority_queries s)).

(** [get_dedup_stats], in the order of the dict. *)
Definition get_dedup_stats (s : ExpertPrefetchCoordinator) : Z * Z * Z * Z * Q * Z :=
  let ratio := if 0 <? total_requested_loads s
               then (inject_Z (deduplicated_loads s) / inject_Z (total_requested_loads s))%Q else 0%Q in
  (zlen (sequence_activations s), total_requested_loads s, unique_loads s, deduplicated_loads s, ratio,
   num_priority_queries s).

(** ** The support of an expert *)

(** The number of tracked sequences that activated an expert in a layer. *)
Definition activates (layer_id expert_id : Z) (sa : Z * gmap Z (gset Z)) : Prop :=
  expert_id ∈ default ∅ (sa.2 !! layer_id).
#[export] Instance activates_dec layer_id expert_id sa : Decision (activates layer_id expert_id sa).
Proof. unfold activates. apply _. Defined.
Definition votes (layer_id expert_id : Z) (seqs : list (Z * gmap Z (gset Z))) : Z :=
  zlen (filter (activates layer_id expert_id) seqs).

Lemma count_elements (l : list Z) (m : gmap Z Z) e :
  NoDup l → default 0 (foldl count_one m l !! e) = default 0 (m !! e) + (if decide (e ∈ l) then 1 else 0).
Proof.
  intros H. revert m. induction H as [|x l Hx _ IH]; intros m; cbn [foldl]; [rewrite decide_False by set_solver; lia|].
  rewrite IH. unfold count_one. destruct (decide (e = x)) as [->|Hne].
  - rewrite lookup_insert_eq, (decide_False (P := x ∈ l)) by done. rewrite decide_True by set_solver. cbn. lia.
  - rewrite lookup_insert_ne by done. destruct (decide (e ∈ l)).
    + by rewrite (decide_True (P := e ∈ x :: l)) by set_solver.
    + by rewrite (decide_False (P := e ∈ x :: l)) by set_solver.
Qed.

Lemma count_dom (l : list Z) (m : gmap Z Z) : dom (foldl count_one m l) = dom m ∪ list_to_set l.
Proof.
  revert m. induction l as [|x l IH]; intros m; cbn [foldl list_to_set]; [set_solver|].
  rewrite IH. unfold count_one. rewrite dom_insert_L. set_solver.
Qed.

Lemma votes_cons l e sa seqs : votes l e (sa :: seqs) = (if decide (activates l e sa) then 1 else 0) + votes l e seqs.
Proof. unfold votes. rewrite filter_cons. destruct (decide _); rewrite ?zlen_cons; lia. Qed.

Lemma votes_nonneg l e seqs : 0 ≤ votes l e seqs.
Proof. apply zlen_nonneg. Qed.

Definition requested (layer_id : Z) (sa : Z * gmap Z (gset Z)) : Z :=
  zlen (elements (default ∅ (sa.2 !! layer_id))).

Lemma requested_cons l sa seqs : zsum (requested l <$> sa :: seqs) = zsum (requested l <$> seqs) + requested l sa.
Proof. rewrite fmap_cons. cbn [zsum foldr]. fold (zsum (requested l <$> seqs)). lia. Qed.

Lemma support_spec l seqs total m :
  let '(t, m') := support l seqs total m in
  t = total + zsum (requested l <$> seqs) ∧
  (∀ e, default 0 (m' !! e) = default 0 (m !! e) + votes l e seqs) ∧
  (∀ e, e ∈ dom m' ↔ e ∈ dom m ∨ 0 < votes l e seqs).
Proof.
  revert total m. induction seqs as [|[sid layers] seqs IH]; intros total m; cbn [support].
  { split_and!; [cbn; lia| |]; intros e; change (votes l e []) with 0; [lia|]. split; [auto|]. intros [?|?]; [done|lia]. }
  assert (∀ e, activates l e (sid, layers) ↔ e ∈ default ∅ (layers !! l)) as Ha by done.
  destruct (layers !! l) as [act|] eqn:E.
  - specialize (IH (total + zlen (elements act)) (foldl count_one m (elements act))).
    destruct (support l seqs _ _) as [t m']. destruct IH as (-> & H2 & H3).
    cbn [default] in Ha. split_and!.
    + rewrite requested_cons. change (requested l (sid, layers)) with (zlen (elements (default ∅ (layers !! l)))). rewrite E. cbn [default from_option id]. lia.
    + intros e. rewrite H2, count_elements by apply NoDup_elements. rewrite votes_cons.
      destruct (decide (activates l e (sid, layers))) as [Hx|Hx].
      * rewrite decide_True by (by apply elem_of_elements, Ha). lia.
      * rewrite decide_False by (by rewrite elem_of_elements, <- Ha). lia.
    + intros e. rewrite H3, count_dom, elem_of_union, elem_of_list_to_set, elem_of_elements, <- Ha, votes_cons.
      pose proof (votes_nonneg l e seqs). destruct (decide (activates l e (sid, layers))).
      * split; [intros _; right; lia|auto].
      * split; [intros [[?|?]|?]; [auto|done|right; lia]|intros [?|?]; [auto|right; lia]].
  - specialize (IH total m). destruct (support l seqs total m) as [t m']. destruct IH as (-> & H2 & H3).
    cbn [default] in Ha. assert (∀ e, ¬ activates l e (sid, layers)) as Hn by (intros e; rewrite Ha; set_solver). split_and!.
    + rewrite requested_cons. change (requested l (sid, layers)) with (zlen (elements (default ∅ (layers !! l)))). rewrite E. change (zlen (elements (default ∅ None))) with 0. lia.
    + intros e. rewrite H2, votes_cons, decide_False by apply Hn. lia.
    + intros e. rewrite H3, votes_cons, decide_False by apply Hn. split; (intros [?|?]; [auto|right; lia]).
Qed.

Lemma count_size (l : list Z) (m : gmap Z Z) : Z.of_nat (size (foldl count_one m l)) ≤ Z.of_nat (size m) + zlen l.
Proof.
  revert m. induction l as [|x l IH]; intros m; cbn [foldl]; [unfold zlen; cbn; lia|].
  specialize (IH (count_one m x)). rewrite zlen_cons. assert (size (count_one m x) ≤ S (size m))%nat; [|lia].
  unfold count_one. destruct (m !! x) eqn:E; [rewrite map_size_insert_Some by (by eexists); lia|by rewrite map_size_insert_None].
Qed.

Lemma support_size l seqs total m :
  Z.of_nat (size (support l seqs total m).2) ≤ Z.of_nat (size m) + zsum (requested l <$> seqs).
Proof.
  revert total m. induction seqs as [|[sid layers] seqs IH]; intros total m; cbn [support]; [cbn; lia|].
  rewrite requested_cons. change (requested l (sid, layers)) with (zlen (elements (default ∅ (layers !! l)))).
  destruct (layers !! l) as [act|]; cbn [default from_option id].
  - eapply Z.le_trans; [apply IH|]. pose proof (count_size (elements act) m). lia.
  - eapply Z.le_trans; [apply IH|]. pose proof (zlen_nonneg (elements (∅ : gset Z))). lia.
Qed.

#[export] Instance before_trans : Transitive before.
Proof. intros [] [] []. unfold before. cbn. lia. Qed.
#[export] Instance before_total : Total before.
Proof. intros [] []. unfold before. cbn. lia. Qed.

(** Experts of a layer in the order of the ranking. *)
Definition ranked (layer_id : Z) (seqs : list (Z * gmap Z (gset Z))) (a b : Z) : Prop :=
  votes layer_id b seqs < votes layer_id a seqs ∨ (votes layer_id a seqs = votes layer_id b seqs ∧ a ≤ b).

(** The items of [support_count], sorted, are the voted experts with their votes. *)
Lemma prioritized_spec l seqs m :
  (∀ e, default 0 (m !! e) = votes l e seqs) → (∀ e, e ∈ dom m ↔ 0 < votes l e seqs) →
  let all := (merge_sort before (map_to_list m)).*1 in
  NoDup all ∧ (∀ e, e ∈ all ↔ 0 < votes l e seqs) ∧ StronglySorted (ranked l seqs) all.
Proof.
  intros Hv Hd all. assert (merge_sort before (map_to_list m) ≡ₚ map_to_list m) as Hp by apply merge_sort_Permutation.
  assert (∀ kv, kv ∈ merge_sort before (map_to_list m) → kv.2 = votes l kv.1 seqs) as Hkv.
  { intros [k v] Hk. rewrite Hp in Hk. apply elem_of_map_to_list in Hk. cbn. by rewrite <- Hv, Hk. }
  split; [unfold all; rewrite Hp; apply NoDup_fst_map_to_list|]. split.
  { intros e. unfold all. rewrite Hp, <- Hd, elem_of_dom, list_elem_of_fmap. split.
    - intros ([k v] & -> & H%elem_of_map_to_list). eauto.
    - intros [v H]. exists (e, v). split; [done|]. by apply elem_of_map_to_list. }
  unfold all. pose proof (StronglySorted_merge_sort before (map_to_list m)) as Hs. revert Hs Hkv. clear.
  generalize (merge_sort before (map_to_list m)) as sorted. intros sorted Hs.
  induction Hs as [|[k v] rest Hs IH Hr]; intros Hkv; [constructor|]. rewrite fmap_cons. constructor.
  - apply IH. intros kv Hin. apply Hkv. set_solver.
  - apply Forall_fmap, Forall_forall. intros [k' v'] Hin. rewrite Forall_forall in Hr. specialize (Hr _ Hin).
    pose proof (Hkv (k, v) ltac:(set_solver)) as E1. pose proof (Hkv (k', v') ltac:(set_solver)) as E2.
    cbn in *. unfold before, ranked in *. cbn in *. subst v v'. done.
Qed.

(** What [get_priority_experts] returns: the first [max_experts] of the experts
    that some tracked sequence activated in the layer, ordered by the number of
    sequences that did (ties by expert id), each once; the statistics grow by the
    loads requested, the distinct ones, and exactly their difference; nothing else
    changes.  An invalid layer or limit raises [ValueError] and changes nothing. *)
Theorem priority_experts_spec (s : ExpertPrefetchCoordinator) (next_layer_id max_experts : Z) :
  let seqs := sequence_activations s in
  if (0 <=? next_layer_id) && (next_layer_id <? pc_num_layers s) && (0 <? max_experts) then
    ∃ all, NoDup all ∧ (∀ e, e ∈ all ↔ 0 < votes next_layer_id e seqs) ∧
      StronglySorted (ranked next_layer_id seqs) all ∧
      zlen all ≤ zsum (requested next_layer_id <$> seqs) ∧
      get_priority_experts next_layer_id max_experts s =
        (Ok ((λ e, (next_layer_id, e)) <$> take (Z.to_nat max_experts) all),
         mkPC (pc_num_layers s) (pc_num_experts s) seqs
           (total_requested_loads s + zsum (requested next_layer_id <$> seqs))
           (unique_loads s + zlen all)
           (deduplicated_loads s + (zsum (requested next_layer_id <$> seqs) - zlen all))
           (num_priority_queries s + 1))
  else get_priority_experts next_layer_id max_experts s = (Err ValueError, s).
Proof.
  cbv zeta. unfold get_priority_experts, validate_layer_id. munfold.
  destruct ((0 <=? next_layer_id) && (next_layer_id <? pc_num_layers s)) eqn:Hl; cbn [andb negb]; [|done].
  destruct (Z.ltb_spec 0 max_experts) as [Hm|Hm].
  2:{ by rewrite (proj2 (Z.leb_le max_experts 0)) by lia. }
  rewrite (proj2 (Z.leb_gt max_experts 0)) by lia.
  pose proof (support_spec next_layer_id (sequence_activations s) 0 ∅) as Hs.
  pose proof (support_size next_layer_id (sequence_activations s) 0 ∅) as Hz.
  destruct (support next_layer_id (sequence_activations s) 0 ∅) as [t m]. destruct Hs as (-> & Hv & Hd).
  destruct (prioritized_spec next_layer_id (sequence_activations s) m) as (H1 & H2 & H3).
  { intros e. rewrite Hv, lookup_empty. cbn. lia. }
  { intros e. rewrite Hd. set_solver by lia. }
  exists ((merge_sort before (map_to_list m)).*1). cbn [snd] in Hz.
  assert (zlen (merge_sort before (map_to_list m)).*1 = zlen (map_to_list m)) as Hn.
  { unfold zlen. by rewrite merge_sort_Permutation, length_fmap. }
  assert (zlen (map_to_list m) ≤ zsum (requested next_layer_id <$> sequence_activations s)) as Hle.
  { unfold zlen. rewrite length_map_to_list. rewrite map_size_empty in Hz. lia. }
  split; [done|]. split; [done|]. split; [done|]. rewrite Hn. split; [done|].
  rewrite Z.max_r by (cbn [Z.add]; lia). do 2 f_equal.
  rewrite py_slice_prefix by lia. by rewrite <- fmap_take, <- list_fmap_compose.
Qed.
End PrefetchCoordinator.

Module Prefetch.

(** What the archer engine is asked for. *)
Inductive engine_call :=
  | EnqueuePrefetch (tensor_id gpu_id : Z)
  | ReplaceCacheCandidates (tensor_ids : list Z).

Record ExpertPrefetcher := mkEP {
  ep_num_layers : Z;
  ep_num_experts : Z;
  archer_engine : bool;                       (** attached by [set_archer_engine] *)
  expert_tensor_map : gmap (Z * Z) Z;
  last_speculative_prediction : gset Z;
  engine_calls : list engine_call
}.

Definition set_archer_engine (p : ExpertPrefetcher) : ExpertPrefetcher :=
  mkEP (ep_num_layers p) (ep_num_experts p) true (expert_tensor_map p) (last_speculative_prediction p) (engine_calls p).
Definition call_engine (c : engine_call) : M ExpertPrefetcher unit :=
  modify (λ p, mkEP (ep_num_layers p) (ep_num_experts p) (archer_engine p) (expert_tensor_map p)
    (last_speculative_prediction p) (engine_calls p ++ [c])).
Definition set_prediction (x : gset Z) : M ExpertPrefetcher unit :=
  modify (λ p, mkEP (ep_num_layers p) (ep_num_experts p) (archer_engine p) (expert_tensor_map p) x (engine_calls p)).

(** [tensor_ids.append(self.expert_tensor_map[(layer_id, j)])] in a loop. *)
Fixpoint tensor_ids_of (layer_id : Z) (expert_list : list Z) : M ExpertPrefetcher (list Z) :=
  match expert_list with
  | [] => mret []
  | j :: rest =>
      p ← get;
      match expert_tensor_map p !! (layer_id, j) with
      | None => raise KeyError
      | Some t => ts ← tensor_ids_of layer_id rest; mret (t :: ts)
      end
  end.

(** [matrix[i, j]] of a numpy array given by its rows: negative indices count from
    the end, others out of range raise. *)
Definition np_index {A} (l : list A) (i : Z) : option A :=
  let i' := if i <? 0 then i + zlen l else i in
  if i' <? 0 then None else l !! Z.to_nat i'.
Definition np_get (m : list (list Q)) (i j : Z) : option Q := np_index m i ≫= λ row, np_index row j.

(** [sorted(expert_list, key=lambda x: x[1], reverse=True)]: stable, highest first. *)
Fixpoint insert_scored (x : Z * Q) (l : list (Z * Q)) : list (Z * Q) :=
  match l with
  | [] => [x]
  | y :: l' => if Qle_bool x.2 y.2 then y :: insert_scored x l' else x :: l
  end.
Definition sort_scored (l : list (Z * Q)) : list (Z * Q) := foldl (λ acc x, insert_scored x acc) [] l.

(** The two nested loops of [prefetch_experts], over the positions in order. *)
Fixpoint wanted (matrix : list (list Q)) (positions : list (Z * Z)) : M ExpertPrefetcher (list (Z * Q)) :=
  match positions with
  | [] => mret []
  | (i, j) :: rest =>
      match np_get matrix i j with
      | None => raise IndexError
      | Some x =>
          if Qle_bool x 0 then wanted matrix rest
          else
            p ← get;
            match expert_tensor_map p !! (i, j) with
            | None => raise KeyError
            | Some t => l ← wanted matrix rest; mret ((t, x) :: l)
            end
      end
  end.
Definition positions (layer_id num_layers num_experts : Z) : list (Z * Z) :=
  i ← seqZ layer_id (num_layers - layer_id); (λ j, (i, j)) <$> seqZ 0 num_experts.

Section prefetch.
Context {L : Type} (default_device : Z → Z) (topk_mean : L → Z → Z → list Z).

Definition enqueue_all (tensor_ids : list Z) : M ExpertPrefetcher unit :=
  for_each tensor_ids (λ t, call_engine (EnqueuePrefetch t (default_device t))).

Definition prefetch_experts_list (layer_id : Z) (expert_list : list Z) : M ExpertPrefetcher unit :=
  p ← get;
  if negb (archer_engine p) then mret tt
  else tensor_ids ← tensor_ids_of layer_id expert_list; enqueue_all tensor_ids.

Definition fetch_experts_lock_cache (layer_id : Z) (expert_list : list Z) : M ExpertPrefetcher unit :=
  p ← get;
  if negb (archer_engine p) then mret tt
  else tensor_ids ← tensor_ids_of layer_id expert_list; call_engine (ReplaceCacheCandidates tensor_ids).

Definition prefetch_experts (layer_id : Z) (expert_matrix : list (list Q)) : M ExpertPrefetcher unit :=
  p ← get;
  if negb (archer_engine p) then mret tt
  else
    expert_list ← wanted expert_matrix (positions layer_id (ep_num_layers p) (ep_num_experts p));
    let tensor_ids := (sort_scored expert_list).*1 in
    if negb (bool_decide (NoDup tensor_ids)) then raise AssertionError
    else
      _ ← call_engine (ReplaceCacheCandidates tensor_ids);
      enqueue_all tensor_ids.

(** [speculative_prefetch]: [topk_mean logits num_experts k] is the top [k] of the
    mean logits. *)
Definition speculative_prefetch (layer_idx : Z) (router_logits : option L) : M ExpertPrefetcher unit :=
  p ← get;
  let next_layer := layer_idx + 1 in
  if ep_num_layers p <=? next_layer then mret tt
  else
    match router_logits with
    | None => mret tt
    | Some logits =>
        let topk_indices := topk_mean logits (ep_num_experts p) (Z.min 2 (ep_num_experts p)) in
        _ ← prefetch_experts_list next_layer topk_indices;
        set_prediction (list_to_set topk_indices)
    end.

Definition correct_prefetch (layer_idx : Z) (actual_expert_ids : list Z) (predicted_expert_ids : option (gset Z))
    : M ExpertPrefetcher unit :=
  p ← get;
  if ep_num_layers p <=? layer_idx then set_prediction ∅
  else
    let predicted := default (last_speculative_prediction p) predicted_expert_ids in
    let missed := filter (λ e, e ∉ predicted) actual_expert_ids in
    _ ← (if bool_decide (missed = []) then mret tt else prefetch_experts_list layer_idx missed);
    set_prediction ∅.

(** ** What reaches the engine *)

Lemma tensor_ids_ok layer experts ts p :
  Forall2 (λ e t, expert_tensor_map p !! (layer, e) = Some t) experts ts →
  tensor_ids_of layer experts p = (Ok ts, p).
Proof.
  induction 1 as [|e t experts ts He _ IH]; [done|]. cbn [tensor_ids_of]. munfold. rewrite He.
  unfold mbind, M_bind in *. by rewrite IH.
Qed.

Lemma enqueue_all_ok ts p :
  enqueue_all ts p = (Ok tt, mkEP (ep_num_layers p) (ep_num_experts p) (archer_engine p) (expert_tensor_map p)
    (last_speculative_prediction p) (engine_calls p ++ ((λ t, EnqueuePrefetch t (default_device t)) <$> ts))).
Proof.
  revert p. induction ts as [|t ts IH]; intros p; [cbn; rewrite app_nil_r; by destruct p|].
  etrans; [exact (IH (mkEP _ _ _ _ _ (engine_calls p ++ [EnqueuePrefetch t (default_device t)])))|].
  cbn. by rewrite <- app_assoc.
Qed.

Lemma prefetch_list_ok layer experts ts p :
  archer_engine p = true → Forall2 (λ e t, expert_tensor_map p !! (layer, e) = Some t) experts ts →
  prefetch_experts_list layer experts p = (Ok tt, mkEP (ep_num_layers p) (ep_num_experts p) true (expert_tensor_map p)
    (last_speculative_prediction p) (engine_calls p ++ ((λ t, EnqueuePrefetch t (default_device t)) <$> ts))).
Proof.
  intros He Ht. unfold prefetch_experts_list. munfold. rewrite He. cbn [negb].
  rewrite (tensor_ids_ok _ _ _ _ Ht), enqueue_all_ok, He. done.
Qed.

(** [fetched layer p p']: between [p] and [p'] the engine was asked for experts of
    [layer] only. *)
Definition fetched (layer : Z) (p p' : ExpertPrefetcher) : Prop :=
  expert_tensor_map p' = expert_tensor_map p ∧
  ∃ calls, engine_calls p' = engine_calls p ++ calls ∧
    ∀ c, c ∈ calls → ∃ e t, c = EnqueuePrefetch t (default_device t) ∧ expert_tensor_map p !! (layer, e) = Some t.

#[export] Instance fetched_preorder layer : PreOrder (fetched layer).
Proof.
  split.
  - intros p. split; [done|]. exists []. rewrite app_nil_r. split; [done|]. set_solver.
  - intros p p1 p2 (E1 & c1 & H1 & Hc1) (E2 & c2 & H2 & Hc2). split; [congruence|]. exists (c1 ++ c2).
    split; [by rewrite H2, H1, app_assoc|]. intros c [Hc|Hc]%elem_of_app; [auto|]. rewrite <- E1. auto.
Qed.

Lemma tensor_ids_spec layer experts p :
  let '(r, p') := tensor_ids_of layer experts p in
  p' = p ∧ match r with
           | Ok ts => ∀ t, t ∈ ts → ∃ e, expert_tensor_map p !! (layer, e) = Some t
           | Err _ => True
           end.
Proof.
  induction experts as [|e experts IH]; [split; [done|set_solver]|]. cbn [tensor_ids_of]. munfold.
  destruct (expert_tensor_map p !! (layer, e)) as [t|] eqn:E; [|done].
  unfold mbind, M_bind in IH. destruct (tensor_ids_of layer experts p) as [[ts|x] p1]; destruct IH as [-> IH]; [|done].
  split; [done|]. intros t' [->|Ht]%elem_of_cons; eauto.
Qed.

Lemma prefetch_list_fetched layer experts : preserves (fetched layer) (prefetch_experts_list layer experts).
Proof.
  intros p. unfold prefetch_experts_list. munfold. destruct (negb (archer_engine p)); [reflexivity|].
  pose proof (tensor_ids_spec layer experts p) as H. destruct (tensor_ids_of layer experts p) as [[ts|e] p'];
    destruct H as [-> H]; [|reflexivity].
  rewrite enqueue_all_ok. split; [done|]. eexists. split; [done|].
  intros c (t & -> & Ht)%list_elem_of_fmap. destruct (H t Ht) as [e He]. eauto.
Qed.

Lemma set_prediction_fetched layer x : preserves (fetched layer) (set_prediction x).
Proof. intros p. split; [done|]. exists []. cbn. rewrite app_nil_r. split; [done|]. set_solver. Qed.

Lemma correct_fetched layer experts pred : preserves (fetched layer) (correct_prefetch layer experts pred).
Proof.
  apply preserves_get_bind. intros p. destruct (_ <=? _); [apply set_prediction_fetched|].
  apply (preserves_bind (fetched layer)); [|intros []; apply set_prediction_fetched].
  destruct (bool_decide _); [apply preserves_ret; apply _|apply prefetch_list_fetched].
Qed.

Lemma speculative_fetched layer logits : preserves (fetched (layer + 1)) (speculative_prefetch layer logits).
Proof.
  apply preserves_get_bind. intros p. cbv zeta. destruct (ep_num_layers p <=? layer + 1); [reflexivity|]. destruct logits as [lg|]; [|reflexivity].
  apply (preserves_bind (fetched (layer + 1))); [apply prefetch_list_fetched|]. intros []. apply set_prediction_fetched.
Qed.
End prefetch.
End Prefetch.

Module Executor.
Import Prefetch.

(** What the expert dispatcher is asked for; [T] is the type of tensors. *)
Inductive dispatcher_call (T : Type) :=
  | SetInputs (hidden_states : T) (router_mask : list (list bool)) (router_weights : T)
  | SetExpectedQueue (n : Z)
  | EnqueueExpert (layer_id expert_id gpu_id : Z) (remote : bool)
  | NotifyFetchStart
  | WaitExpert.
Arguments SetInputs {T}.
Arguments SetExpectedQueue {T}.
Arguments EnqueueExpert {T}.
Arguments NotifyFetchStart {T}.
Arguments WaitExpert {T}.

(** The executor with the prefetchers it may refer to; [_pending_prefetch] keeps
    references to them. *)
Record DistributedExpertExecutor (T L : Type) := mkEx {
  speculative_prefetch_overlap : bool;
  prefetcher : option Z;
  pending_prefetch : option (option Z * Z * list Z * option L);
  prefetchers : gmap Z ExpertPrefetcher;
  dispatcher_calls : list (dispatcher_call T)
}.
Arguments mkEx {T L}.
Arguments speculative_prefetch_overlap {T L}.
Arguments prefetcher {T L}.
Arguments pending_prefetch {T L}.
Arguments prefetchers {T L}.
Arguments dispatcher_calls {T L}.

Section executor.
Context {T L : Type} (default_device : Z → Z) (topk_mean : L → Z → Z → list Z) (device_count : Z).
Abbreviation Ex := (DistributedExpertExecutor T L).

Definition ex_init (overlap : bool) (heap : gmap Z ExpertPrefetcher) : Ex := mkEx overlap None None heap [].
Definition set_prefetcher (p : Z) : M Ex unit :=
  modify (λ s, mkEx (speculative_prefetch_overlap s) (Some p) (pending_prefetch s) (prefetchers s) (dispatcher_calls s)).
Definition call_dispatcher (c : dispatcher_call T) : M Ex unit :=
  modify (λ s, mkEx (speculative_prefetch_overlap s) (prefetcher s) (pending_prefetch s) (prefetchers s)
    (dispatcher_calls s ++ [c])).
Definition set_pending (x : option (option Z * Z * list Z * option L)) : M Ex unit :=
  modify (λ s, mkEx (speculative_prefetch_overlap s) (prefetcher s) x (prefetchers s) (dispatcher_calls s)).

(** Call a method of a prefetcher. *)
Definition on_prefetcher (i : Z) (m : M ExpertPrefetcher unit) : M Ex unit := λ s,
  match prefetchers s !! i with
  | None => (Err AttributeError, s)
  | Some p =>
      let '(r, p') := m p in
      (r, mkEx (speculative_prefetch_overlap s) (prefetcher s) (pending_prefetch s) (<[i := p']> (prefetchers s))
            (dispatcher_calls s))
  end.

Definition trigger_speculative_prefetch (layer_id : Z) (router_logits : option L) : M Ex unit :=
  s ← get;
  match prefetcher s with
  | Some p => on_prefetcher p (speculative_prefetch default_device topk_mean layer_id router_logits)
  | None => mret tt
  end.

(** The experts with at least one token. *)
Definition expert_count (router_mask : list (list bool)) (e : Z) : Z :=
  zlen (filter (λ row, row !! Z.to_nat e = Some true) router_mask).
Definition expert_list (num_expert : Z) (router_mask : list (list bool)) : list Z :=
  filter (λ e, 0 < expert_count router_mask e) (seqZ 0 num_expert).

Definition dispatch_local (layer_id : Z) (hidden_states : T) (num_expert : Z) (router_mask : list (list bool))
    (router_weights : T) (router_logits : option L) (prefetcher_arg : option Z) : M Ex unit :=
  let experts := expert_list num_expert router_mask in
  _ ← call_dispatcher (SetInputs hidden_states router_mask router_weights);
  _ ← call_dispatcher (SetExpectedQueue (zlen experts));
  _ ← for_each experts (λ expert_id,
        _ ← raise_if (device_count =? 0) ZeroDivisionError;
        call_dispatcher (EnqueueExpert layer_id expert_id (expert_id mod device_count) false));
  _ ← call_dispatcher NotifyFetchStart;
  s ← get;
  let pf := match prefetcher_arg with Some p => Some p | None => prefetcher s end in
  pending_router_logits ←
    (match speculative_prefetch_overlap s, pf, router_logits with
     | true, Some _, Some _ => _ ← trigger_speculative_prefetch layer_id router_logits; mret None
     | _, _, _ => mret router_logits
     end);
  set_pending (Some (pf, layer_id, experts, pending_router_logits)).

(** What [wait_dispatch_local] does with the pending prefetch. *)
Definition settle (pf : option Z) (layer_id : Z) (experts : list Z) (router_logits : option L) : M Ex unit :=
  _ ← set_pending None;
  _ ← (match pf with
       | Some p => on_prefetcher p (correct_prefetch default_device (layer_id + 1) experts None)
       | None => mret tt
       end);
  match router_logits with
  | Some _ => trigger_speculative_prefetch layer_id router_logits
  | None => mret tt
  end.

(** [wait_dispatch_local]; [outcome] is what [wait_expert] returns or raises. *)
Definition wait_dispatch_local (outcome : res T) : M Ex T :=
  _ ← call_dispatcher WaitExpert;
  match outcome with
  | Err e => raise e
  | Ok result =>
      s ← get;
      _ ← (match pending_prefetch s with
           | None => mret tt
           | Some (pf, layer_id, experts, router_logits) => settle pf layer_id experts router_logits
           end);
      mret result
  end.

(** ** The dispatcher gets every selected expert once *)

Lemma enqueue_experts_ok layer experts s :
  device_count ≠ 0 →
  for_each experts (λ expert_id,
    _ ← raise_if (device_count =? 0) ZeroDivisionError;
    call_dispatcher (EnqueueExpert layer expert_id (expert_id mod device_count) false)) s =
  (Ok tt, mkEx (speculative_prefetch_overlap s) (prefetcher s) (pending_prefetch s) (prefetchers s)
    (dispatcher_calls s ++ ((λ e, EnqueueExpert layer e (e mod device_count) false) <$> experts))).
Proof.
  intros Hd. revert s. induction experts as [|e experts IH]; intros s; [cbn; rewrite app_nil_r; by destruct s|].
  cbn [for_each]. rewrite (proj2 (Z.eqb_neq _ _) Hd) in *.
  etrans; [exact (IH (mkEx _ _ _ _ (dispatcher_calls s ++ [EnqueueExpert layer e (e mod device_count) false])))|].
  cbn. by rewrite <- app_assoc.
Qed.

(** Calls of prefetcher methods do not touch the dispatcher. *)
Lemma on_prefetcher_calls i m s : dispatcher_calls (on_prefetcher i m s).2 = dispatcher_calls s.
Proof. unfold on_prefetcher. destruct (prefetchers s !! i) as [p|]; [|done]. by destruct (m p). Qed.
Lemma trigger_calls layer logits s : dispatcher_calls (trigger_speculative_prefetch layer logits s).2 = dispatcher_calls s.
Proof. unfold trigger_speculative_prefetch. munfold. destruct (prefetcher s); [apply on_prefetcher_calls|done]. Qed.

Lemma expert_list_spec num_expert mask :
  NoDup (expert_list num_expert mask) ∧
  (∀ e, e ∈ expert_list num_expert mask ↔
     0 ≤ e < num_expert ∧ ∃ row, row ∈ mask ∧ row !! Z.to_nat e = Some true).
Proof.
  unfold expert_list. split; [apply NoDup_filter, NoDup_seqZ|]. intros e.
  rewrite list_elem_of_filter, elem_of_seqZ, Z.add_0_l. unfold expert_count.
  set (rows := filter _ mask). assert (0 < zlen rows ↔ ∃ row, row ∈ rows) as ->.
  { unfold zlen. destruct rows as [|r rows']; cbn; [split; [lia|set_solver]|]. split; [|lia]. intros _. exists r. set_solver. }
  split.
  - intros ([row [Hr Hin]%list_elem_of_filter] & He). split; [done|]. by exists row.
  - intros (He & row & Hin & Hr). split; [|done]. exists row. by apply list_elem_of_filter.
Qed.

(** A layer is dispatched exactly: whatever the speculation does, [dispatch_local]
    sends the dispatcher the inputs, then the number of experts to wait for, then one
    request for each expert that some token selected (and for no other, none twice, on
    a device that exists), then the start signal; the announced number is the number
    of requests. *)
Theorem dispatch_local_exact (s : Ex) layer_id hidden num_expert mask weights logits pf :
  0 < device_count →
  let experts := expert_list num_expert mask in
  NoDup experts ∧
  (∀ e, e ∈ experts ↔ 0 ≤ e < num_expert ∧ ∃ row, row ∈ mask ∧ row !! Z.to_nat e = Some true) ∧
  (∀ e, e ∈ experts → 0 ≤ e mod device_count < device_count) ∧
  dispatcher_calls (dispatch_local layer_id hidden num_expert mask weights logits pf s).2 =
    dispatcher_calls s ++ SetInputs hidden mask weights :: SetExpectedQueue (zlen experts)
      :: ((λ e, EnqueueExpert layer_id e (e mod device_count) false) <$> experts) ++ [NotifyFetchStart].
Proof.
  intros Hd experts. destruct (expert_list_spec num_expert mask) as [H1 H2]. split; [done|]. split; [done|].
  split; [intros e _; by apply Z.mod_pos_bound|].
  unfold dispatch_local. cbv zeta. fold experts. unfold call_dispatcher. munfold.
  match goal with |- context [for_each experts ?f ?s0] =>
    pose proof (enqueue_experts_ok layer_id experts s0 ltac:(lia)) as He end.
  unfold call_dispatcher in He. munfold in He. rewrite He. cbn [speculative_prefetch_overlap prefetcher dispatcher_calls].
  assert (∀ ss x, dispatcher_calls (set_pending x ss).2 = dispatcher_calls ss) as Hp by done.
  set (s1 := mkEx _ _ _ _ _). assert (dispatcher_calls s1 =
    dispatcher_calls s ++ SetInputs hidden mask weights :: SetExpectedQueue (zlen experts)
      :: ((λ e, EnqueueExpert layer_id e (e mod device_count) false) <$> experts) ++ [NotifyFetchStart]) as Hs1.
  { cbn. by rewrite <- !app_assoc. }
  rewrite <- Hs1. pose proof (trigger_calls layer_id logits s1) as Ht.
  destruct (speculative_prefetch_overlap s); [|done].
  destruct (match pf with Some p => Some p | None => prefetcher s end); [|done]. destruct logits as [lg|]; [|done].
  destruct (trigger_speculative_prefetch layer_id (Some lg) s1) as [[[]|e] s2]; [|done]. cbn. done.
Qed.

(** [all_fetched layer s s']: every prefetcher asked for experts of [layer] only. *)
Definition all_fetched (layer : Z) (s s' : Ex) : Prop :=
  ∀ i p, prefetchers s !! i = Some p → ∃ p', prefetchers s' !! i = Some p' ∧ fetched default_device layer p p'.

#[local] Instance all_fetched_preorder layer : PreOrder (all_fetched layer).
Proof.
  split.
  - intros s i p Hp. exists p. split; [done|reflexivity].
  - intros s s1 s2 H1 H2 i p Hp. destruct (H1 i p Hp) as (p1 & Hp1 & Hf1). destruct (H2 i p1 Hp1) as (p2 & Hp2 & Hf2).
    exists p2. split; [done|]. by etrans.
Qed.

Lemma on_prefetcher_fetched layer i m :
  preserves (fetched default_device layer) m → preserves (all_fetched layer) (on_prefetcher i m).
Proof.
  intros Hm s. unfold on_prefetcher. destruct (prefetchers s !! i) as [p|] eqn:E; [|reflexivity].
  specialize (Hm p). destruct (m p) as [r p']. cbn in *. intros j q Hq. cbn. destruct (decide (i = j)) as [<-|Hne].
  - rewrite lookup_insert_eq. simplify_eq. eauto.
  - rewrite lookup_insert_ne by done. exists q. split; [done|reflexivity].
Qed.

Lemma same_prefetchers layer {A} (m : M Ex A) : (∀ s, prefetchers (m s).2 = prefetchers s) → preserves (all_fetched layer) m.
Proof. intros H s i p Hp. exists p. rewrite H. split; [done|reflexivity]. Qed.

Lemma trigger_fetched layer logits : preserves (all_fetched (layer + 1)) (trigger_speculative_prefetch layer logits).
Proof.
  apply preserves_get_bind. intros s. destruct (prefetcher s) as [i|]; [|reflexivity].
  apply on_prefetcher_fetched, speculative_fetched.
Qed.

Lemma settle_fetched pf l experts logits : preserves (all_fetched (l + 1)) (settle pf l experts logits).
Proof.
  apply (preserves_bind (all_fetched (l + 1))); [by apply same_prefetchers|intros _].
  apply (preserves_bind (all_fetched (l + 1))); [|intros _].
  - destruct pf; [apply on_prefetcher_fetched, correct_fetched|apply preserves_ret; apply _].
  - destruct logits; [apply trigger_fetched|apply preserves_ret; apply _].
Qed.

(** The correction of a speculation asks for the wrong layer.  When the wait for
    layer [l] corrects the prediction with the experts layer [l] used, every expert it
    asks the engine for is one of layer [l + 1], and none is an expert of layer [l]:
    those that were used and not predicted are not fetched. *)
Theorem correction_skips_layer (s : Ex) pf l experts logits outcome i p :
  pending_prefetch s = Some (pf, l, experts, logits) → prefetchers s !! i = Some p →
  (∀ k1 k2 t, expert_tensor_map p !! k1 = Some t → expert_tensor_map p !! k2 = Some t → k1 = k2) →
  ∃ p' calls, prefetchers (wait_dispatch_local outcome s).2 !! i = Some p' ∧
    engine_calls p' = engine_calls p ++ calls ∧
    ∀ t g, EnqueuePrefetch t g ∈ calls →
      (∃ e, expert_tensor_map p !! (l + 1, e) = Some t) ∧ ¬ (∃ e, expert_tensor_map p !! (l, e) = Some t).
Proof.
  intros Hpend Hp Hinj.
  assert (all_fetched (l + 1) s (wait_dispatch_local outcome s).2) as H.
  { destruct s as [ov pr pe ps dc]. cbn in Hpend. subst pe. pose proof (settle_fetched pf l experts logits) as Hs.
    destruct outcome as [r|e]; [|intros j q Hq; by exists q].
    etrans; [|etrans; [exact (Hs (mkEx ov pr (Some (pf, l, experts, logits)) ps (dc ++ [WaitExpert])))|]];
      [intros j q Hq; by exists q|].
    change (wait_dispatch_local (Ok r) (mkEx ov pr (Some (pf, l, experts, logits)) ps dc)) with
      ((settle pf l experts logits ≫= λ _, mret r) (mkEx ov pr (Some (pf, l, experts, logits)) ps (dc ++ [WaitExpert]))).
    unfold mbind at 1, M_bind at 1. destruct (settle _ _ _ _ _) as [[]]; reflexivity. }
  destruct (H i p Hp) as (p' & Hp' & Hm & calls & Hc & Hall). exists p', calls. split; [done|]. split; [done|].
  intros t g Ht. destruct (Hall _ Ht) as (e & t' & [= -> ->] & He). split; [by exists e|].
  intros [e' He']. specialize (Hinj _ _ _ He He'). injection Hinj. lia.
Qed.
End executor.

(** Three layers of four experts, whose tensors are numbered [10 * layer + expert];
    the logits are the predicted experts themselves. *)
Definition ex_map : gmap (Z * Z) Z :=
  list_to_map ((λ k, (k, 10 * k.1 + k.2)) <$> positions 0 3 4).
Definition ex_executor : DistributedExpertExecutor Z (list Z) :=
  (set_prefetcher 0 (ex_init false {[0 := set_archer_engine (mkEP 3 4 false ex_map ∅ [])]})).2.
Definition ex_topk (logits : list Z) (_ k : Z) : list Z := py_slice logits 0 k.
(** A layer: dispatch and wait. *)
Definition ex_layer (l : Z) (mask : list (list bool)) (logits : list Z) : M (DistributedExpertExecutor Z (list Z)) Z :=
  _ ← dispatch_local (λ _, 0) ex_topk 1 l 7 4 mask 8 (Some logits) None;
  wait_dispatch_local (λ _, 0) ex_topk (Ok 9).

Lemma dispatch_local_exact_witness :
  let mask := [[true; false; false; true]; [false; false; true; true]] in
  dispatcher_calls (dispatch_local (λ _, 0) ex_topk 2 0 7 4 mask 8 (Some [0; 1]) None ex_executor).2 =
    [SetInputs 7 mask 8; SetExpectedQueue 3; EnqueueExpert 0 0 0 false; EnqueueExpert 0 2 0 false;
     EnqueueExpert 0 3 1 false; NotifyFetchStart].
Proof.
  cbn zeta.
  destruct (dispatch_local_exact (λ _, 0) ex_topk 2 ex_executor 0 7 4
    [[true; false; false; true]; [false; false; true; true]] 8 (Some [0; 1]) None) as (_ & _ & _ & H); [lia|].
  rewrite H. vm_compute. reflexivity.
Defined.

(** Layer 0 predicts experts 0 and 1 for layer 1, which uses 2 and 3: the wait fetches
    the tensors 22 and 23 of layer 2 instead of 12 and 13. *)
Lemma correction_skips_layer_witness :
  let s := (ex_layer 0 [[true; true; false; false]] [0; 1] ex_executor).2 in
  let s1 := (dispatch_local (λ _, 0) ex_topk 1 1 7 4 [[false; false; true; true]] 8 None None s).2 in
  let s2 := (wait_dispatch_local (λ _, 0) ex_topk (Ok 9) s1).2 in
  engine_calls <$> prefetchers s2 !! 0 = Some ((λ t, EnqueuePrefetch t 0) <$> [10; 11; 10; 11; 22; 23]) ∧
  ∃ p p' calls, prefetchers s1 !! 0 = Some p ∧ prefetchers s2 !! 0 = Some p' ∧ engine_calls p' = engine_calls p ++ calls ∧
    (∀ t g, EnqueuePrefetch t g ∈ calls →
       (∃ e, expert_tensor_map p !! (2, e) = Some t) ∧ ¬ (∃ e, expert_tensor_map p !! (1, e) = Some t)).
Proof.
  cbv zeta. split; [vm_compute; reflexivity|].
  set (s1 := (dispatch_local _ _ _ _ _ _ _ _ _ _ _).2).
  assert (∃ p, prefetchers s1 !! 0 = Some p ∧ expert_tensor_map p = ex_map) as (p & Hp & Hm)
    by (eexists; split; [vm_compute; reflexivity|vm_compute; reflexivity]).
  destruct (correction_skips_layer (λ _, 0) ex_topk s1 (Some 0) 1 [2; 3] None (Ok 9) 0 p) as (p' & calls & H).
  - vm_compute. reflexivity.
  - exact Hp.
  - rewrite Hm. intros k1 k2 t H1 H2.
    assert (∀ k v, ex_map !! k = Some v → v = 10 * k.1 + k.2 ∧ 0 ≤ k.2 < 4) as Hk.
    { intros k v Hk. apply elem_of_list_to_map_2 in Hk. vm_compute in Hk.
      repeat (apply elem_of_cons in Hk as [[= -> ->]|Hk]; [cbn; lia|]). by apply not_elem_of_nil in Hk. }
    destruct k1 as [a b], k2 as [c d]. apply Hk in H1, H2. cbn in *. f_equal; lia.
  - exists p, p', calls. by split.
Defined.
End Executor.
