(* ===== verification/Distributed.v ===== *)
(** * Prefetching and dispatching over several processes
    (distributed/expert_prefetcher.py, [DistributedExpertExecutor.dispatch] of
    distributed/expert_executor.py)

    Every process has a rank.  Calls to the own engine or dispatcher run at once; calls to
    other ranks are sent and run there in any order, unless they are waited for.  The device
    map manager, which says on which rank and GPU a tensor or expert lives, is an argument. *)
From Stdlib Require Import QArith.
From S2P Require Import Prelude ExpertPrefetch.
Import Prefetch Executor.
Open Scope Z_scope.

(** ** DistributedExpertPrefetcher *)
(** A call on a rank: done at once on the own rank, sent to another *)
Inductive delivery := Local (c : engine_call) | Remote (rank : Z) (c : engine_call).
Definition on_rank (own rank : Z) (c : engine_call) : delivery := if decide (rank = own) then Local c else Remote rank c.

Section prefetcher.
Context (own world_size : Z) (get_target_device : list Z → list (Z * Z * Z)).   (** rank, gpu, tensor *)

(** [_replace_cache_candidates]: the futures of the remote calls are not waited for. *)
Definition replace_cache_candidates (tensor_ids : list Z) : list delivery :=
  (λ k, on_rank own k (ReplaceCacheCandidates tensor_ids)) <$> seqZ 0 world_size.
Definition enqueue_meta (meta : Z * Z * Z) : delivery := on_rank own meta.1.1 (EnqueuePrefetch meta.2 meta.1.2).
(** [prefetch_experts]: what is called, in order *)
Definition distributed_prefetch (layer_id : Z) (expert_matrix : list (list Q)) : M ExpertPrefetcher (list delivery) :=
  p ← get;
  expert_list ← wanted expert_matrix (positions layer_id (ep_num_layers p) (ep_num_experts p));
  let tensor_ids := (sort_scored expert_list).*1 in
  let device_list := get_target_device tensor_ids in
  mret (if (0 <? zlen tensor_ids) then replace_cache_candidates tensor_ids ++ (enqueue_meta <$> device_list) else []).
End prefetcher.

(** ** [dispatch] *)
Inductive rpc :=
  | SetInputs (arguments : nat) | SetExpectedQueue (n : Z) | EnqueueExpert (layer expert gpu : Z) (remote : bool).
(** [set_inputs] of the extension module takes hidden states, mask and weights. *)
Definition binding (c : rpc) : res unit := match c with SetInputs n => if Nat.eqb n 3 then Ok tt else Err TypeError | _ => Ok tt end.

Section dispatch.
Context (own world_size : Z) (get_target_device : list Z → list (Z * Z * Z)).   (** rank, gpu, expert *)
(** The order in which a set of ranks is iterated, and what [wait_expert] gives on a rank *)
Context {R : Type} (set_order : list Z → list Z) (wait_expert : Z → list R).
(** The calls that were made, with their ranks *)
Definition record_call (rank : Z) (c : rpc) : M (list (Z * rpc)) (res unit) :=
  modify (λ l, l ++ [(rank, c)]);; mret (binding c).
(** A call on the own rank raises at once. *)
Definition call_local (c : rpc) : M (list (Z * rpc)) unit :=
  r ← record_call own c; match r with Ok _ => mret tt | Err e => raise e end.
(** [future.wait()] for all; a future that failed raises there. *)
Fixpoint wait_all (futures : list (res unit)) : M (list (Z * rpc)) unit :=
  match futures with
  | [] => mret tt
  | Ok _ :: futures => wait_all futures
  | Err e :: _ => raise e
  end.
Fixpoint send_inputs (count : Z → Z) (ranks : list Z) (futures : list (res unit)) : M (list (Z * rpc)) (list (res unit)) :=
  match ranks with
  | [] => mret futures
  | rank :: ranks =>
      if decide (rank = own)
      then call_local (SetInputs 2);; call_local (SetExpectedQueue (count rank));; send_inputs count ranks futures
      else
        a ← record_call rank (SetInputs 2);
        b ← record_call rank (SetExpectedQueue (count rank));
        send_inputs count ranks (futures ++ [a; b])
  end.
Fixpoint send_experts (layer_id : Z) (device_list : list (Z * Z * Z)) (futures : list (res unit)) : M (list (Z * rpc)) (list (res unit)) :=
  match device_list with
  | [] => mret futures
  | (rank, gpu, expert) :: rest =>
      if decide (rank = own) then call_local (EnqueueExpert layer_id expert gpu false);; send_experts layer_id rest futures
      else a ← record_call rank (EnqueueExpert layer_id expert gpu true); send_experts layer_id rest (futures ++ [a])
  end.
Definition dispatch (num_expert : Z) (router_mask : list (list bool)) (layer_id : Z) : M (list (Z * rpc)) (list R) :=
  let device_list := get_target_device (expert_list num_expert router_mask) in
  (** [rank_wait_cnt[rank] += 1] of a rank that is not in the world *)
  raise_if (existsb (λ m : Z * Z * Z, negb ((0 <=? m.1.1) && (m.1.1 <? world_size))) device_list) KeyError;;
  let visited := set_order (remove_dups ((λ m : Z * Z * Z, m.1.1) <$> device_list)) in
  let count rank := zlen (filter (λ m : Z * Z * Z, m.1.1 = rank) device_list) in
  futures ← send_inputs count visited [];
  wait_all futures;;
  futures ← send_experts layer_id device_list [];
  wait_all futures;;
  mret (concat (wait_expert <$> visited)).
End dispatch.

(** ** Properties *)
Section prefetch_props.
Context (own world_size : Z) (get_target_device : list Z → list (Z * Z * Z)).
(** The engine calls that reach a rank *)
Definition delivered (own rank : Z) (l : list delivery) : list engine_call :=
  omap (λ d, match d with
             | Local c => if decide (rank = own) then Some c else None
             | Remote r c => if decide (r = rank ∧ rank ≠ own) then Some c else None end) l.
Lemma delivered_on_rank rank k c : delivered own rank [on_rank own k c] = if decide (k = rank) then [c] else [].
Proof.
  unfold on_rank. destruct (decide (k = own)) as [->|Hk]; cbn.
  - destruct (decide (rank = own)) as [->|Hr]; [by rewrite decide_True|by rewrite decide_False].
  - destruct (decide (k = rank)) as [->|Hr]; [by rewrite decide_True|]. by rewrite decide_False by tauto.
Qed.
Lemma delivered_app rank l1 l2 : delivered own rank (l1 ++ l2) = delivered own rank l1 ++ delivered own rank l2.
Proof. apply omap_app. Qed.
Lemma delivered_all {A} rank (f : A → Z) (g : A → engine_call) (l : list A) :
  delivered own rank ((λ x, on_rank own (f x) (g x)) <$> l) = g <$> filter (λ x, f x = rank) l.
Proof.
  induction l as [|x l IH]; [done|]. change ((λ x, on_rank own (f x) (g x)) <$> x :: l) with ([on_rank own (f x) (g x)] ++ ((λ x, on_rank own (f x) (g x)) <$> l)).
  rewrite delivered_app, delivered_on_rank, IH, filter_cons. by case_decide.
Qed.

(** Prefetching over several processes: when some expert is wanted, every rank of the world is
    told once which tensors are wanted, most wanted first, and gets an order for exactly the
    tensors that live on it, in that order. *)
Theorem distributed_prefetch_exact layer_id expert_matrix p calls p' rank :
  distributed_prefetch own world_size get_target_device layer_id expert_matrix p = (Ok calls, p') → 0 ≤ rank < world_size →
  p' = p ∧ ∃ scored, wanted expert_matrix (positions layer_id (ep_num_layers p) (ep_num_experts p)) p = (Ok scored, p) ∧
    let ids := (sort_scored scored).*1 in
    (ids = [] → calls = []) ∧
    (ids ≠ [] → delivered own rank calls =
       ReplaceCacheCandidates ids :: ((λ m, EnqueuePrefetch m.2 m.1.2) <$> filter (λ m, m.1.1 = rank) (get_target_device ids))).
Proof.
  unfold distributed_prefetch. munfold. intros H Hrank. destruct (wanted _ _ p) as [[scored|] p1] eqn:Hw; [|done]. injection H as <- <-.
  assert (p1 = p) as ->.
  { clear -Hw. revert p1 scored Hw. generalize (positions layer_id (ep_num_layers p) (ep_num_experts p)). intros l. induction l as [|[i j] l IH]; intros p1 scored; cbn; [by intros [= _ <-]|].
    destruct (np_get expert_matrix i j); [|done]. destruct (Qle_bool q 0); [apply IH|]. munfold. destruct (expert_tensor_map p !! (i, j)); [|done].
    destruct (wanted expert_matrix l p) as [[s1|] p2] eqn:E; [|done]. intros [= _ <-]. by eapply IH. }
  split; [done|]. exists scored. split; [done|]. cbv zeta. set (ids := (sort_scored scored).*1). split.
  - intros ->. done.
  - intros Hne. assert ((0 <? zlen ids) = true) as -> by (apply Z.ltb_lt; unfold zlen; destruct ids; [done|cbn [length]; lia]).
    rewrite delivered_app. unfold replace_cache_candidates, enqueue_meta.
    rewrite (delivered_all rank (λ k, k) (λ _, ReplaceCacheCandidates ids)), (delivered_all rank (λ m : Z * Z * Z, m.1.1) (λ m, EnqueuePrefetch m.2 m.1.2)).
    assert (filter (λ x : Z, x = rank) (seqZ 0 world_size) = [rank]) as ->; [|done].
    apply filter_unique; [apply NoDup_seqZ|apply elem_of_seqZ; lia].
Qed.
End prefetch_props.

(** [dispatch] cannot work: as soon as a token has an expert whose rank is in the world, it
    raises [TypeError] -- [set_inputs] gets two of its three arguments -- and no expert is
    ever enqueued. *)
Theorem dispatch_raises {R} own world_size target set_order (wait : Z → list R) num_expert router_mask layer_id calls :
  (∀ l, set_order l ≡ₚ l) → target (expert_list num_expert router_mask) ≠ [] →
  Forall (λ m : Z * Z * Z, 0 ≤ m.1.1 < world_size) (target (expert_list num_expert router_mask)) →
  ∃ calls', dispatch own world_size target set_order wait num_expert router_mask layer_id calls = (Err TypeError, calls ++ calls') ∧
    Forall (λ c : Z * rpc, match c.2 with EnqueueExpert _ _ _ _ => False | _ => True end) calls'.
Proof.
  intros Horder Hne Hworld. unfold dispatch. set (dl := target _) in *. unfold mbind, M_bind.
  assert (existsb (λ m : Z * Z * Z, negb ((0 <=? m.1.1) && (m.1.1 <? world_size))) dl = false) as ->.
  { apply not_true_is_false. intros (m & Hm & Hb)%existsb_exists. rewrite Forall_forall in Hworld. specialize (Hworld m ltac:(by apply list_elem_of_In)). lia. }
  cbn [raise_if]. set (ranks := set_order _).
  assert (ranks ≠ []) as Hr.
  { unfold ranks. clear -Horder Hne. clearbody dl. destruct dl as [|m dl]; [done|]. intros H.
    pose proof (Horder (remove_dups ((λ m : Z * Z * Z, m.1.1) <$> m :: dl))) as Hp. rewrite H in Hp. apply Permutation_nil_l in Hp.
    assert (m.1.1 ∈ remove_dups ((λ m : Z * Z * Z, m.1.1) <$> m :: dl)) as Hin by (apply elem_of_remove_dups; left).
    rewrite <- Hp in Hin. by apply elem_of_nil in Hin. }
  clearbody ranks. clear Hne Hworld Horder.
  assert (∀ count futures calls, (∃ f, f ∈ futures ∧ f ≠ Ok tt) ∨ ranks ≠ [] → Forall (λ f, f = Ok tt ∨ f = Err TypeError) futures →
    ∃ calls' r, send_inputs own count ranks futures calls = (r, calls ++ calls') ∧
      Forall (λ c : Z * rpc, match c.2 with EnqueueExpert _ _ _ _ => False | _ => True end) calls' ∧
      match r with Ok fs => Forall (λ f, f = Ok tt ∨ f = Err TypeError) fs ∧ ∃ f, f ∈ fs ∧ f ≠ Ok tt | Err e => e = TypeError end) as Hsend.
  { clear Hr. intros count. induction ranks as [|rank ranks IH]; intros futures cs Hf Hok; cbn [send_inputs].
    - destruct Hf as [Hf|]; [|done]. exists [], (Ok futures). rewrite app_nil_r. by split.
    - case_decide.
      + unfold call_local, record_call. munfold. cbn. exists [(own, SetInputs 2)], (Err TypeError). split; [done|]. split; [repeat constructor|done].
      + unfold record_call. munfold. cbn [binding Nat.eqb].
        destruct (IH (futures ++ [Err TypeError; Ok tt]) ((cs ++ [(rank, SetInputs 2)]) ++ [(rank, SetExpectedQueue (count rank))])) as (calls' & r & He & Hc & Hm).
        * left. exists (Err TypeError). split; [set_solver|done].
        * apply Forall_app. split; [done|]. apply Forall_cons. split; [by right|]. apply Forall_cons. split; [by left|constructor].
        * rewrite He. exists ([(rank, SetInputs 2); (rank, SetExpectedQueue (count rank))] ++ calls'), r.
          split; [by rewrite <- !app_assoc|]. split; [|done]. apply Forall_app. split; [repeat constructor|done]. }
  unfold mret at 1, M_ret at 1. cbv beta iota.
  match goal with |- context [send_inputs own ?c ranks [] calls] => destruct (Hsend c [] calls (or_intror Hr) ltac:(constructor)) as (calls' & r & -> & Hc & Hm) end.
  exists calls'. destruct r as [fs|e]; [|by subst].
  destruct Hm as (Hall & f & Hf & Hne). split; [|done].
  assert (∀ fs s, Forall (λ f, f = Ok tt ∨ f = Err TypeError) fs → f ∈ fs → wait_all fs s = (Err TypeError, s)) as Hw.
  { clear -Hne. intros fs s Hall. induction Hall as [|x fs [->| ->] _ IH]; intros Hf; [by apply elem_of_nil in Hf| |done]. cbn. apply IH.
    by apply elem_of_cons in Hf as [->|Hf]. }
  by rewrite Hw.
Qed.

Module DistributedDemo.
Definition prefetcher_state : ExpertPrefetcher := mkEP 1 2 true {[(0, 0) := 10; (0, 1) := 11]} ∅ [].
Definition device (l : list Z) : list (Z * Z * Z) := (λ t, (t - 10, 0, t)) <$> l.
Lemma distributed_prefetch_exact_witness :
  ∃ calls, distributed_prefetch 0 2 device 0 [[1 # 2; 3 # 4]%Q] prefetcher_state = (Ok calls, prefetcher_state) ∧
    delivered 0 1 calls = [ReplaceCacheCandidates [11; 10]; EnqueuePrefetch 11 0].
Proof.
  eexists. split; [vm_compute; reflexivity|].
  destruct (distributed_prefetch_exact 0 2 device 0 [[1 # 2; 3 # 4]%Q] prefetcher_state _ prefetcher_state 1 ltac:(vm_compute; reflexivity) ltac:(lia)) as (_ & scored & Hs & _ & H).
  vm_compute in Hs. injection Hs as <-. etransitivity; [apply H; vm_compute; discriminate|vm_compute; reflexivity].
Defined.
Lemma dispatch_raises_witness :
  ∃ calls', dispatch 0 2 (λ l, (λ e, (1, 0, e)) <$> l) id (λ _, [0]) 2 [[true; false]] 3 [] = (Err TypeError, calls') ∧ calls' ≠ [].
Proof.
  destruct (dispatch_raises 0 2 (λ l, (λ e, (1, 0, e)) <$> l) id (λ _, [0]) 2 [[true; false]] 3 []) as (calls' & H & _).
  - done.
  - vm_compute. discriminate.
  - vm_compute. repeat constructor; discriminate.
  - exists calls'. split; [exact H|]. vm_compute in H. injection H as <-. discriminate.
Defined.
End DistributedDemo.
