(* ===== verification/HfConfig.v ===== *)
(** * Architectures and expert names
    (utils/hf_config.py, common/constants.py)

    [parse_moe_param] reads the number of layers and experts from a model's
    configuration, [parse_expert_id] the layer and the expert from the name of a
    parameter; the regular expressions are written out as searches over ASCII
    text on one line. *)
From Stdlib Require Import String Ascii.
From S2P Require Import Prelude Json JsonProps.
Open Scope Z_scope.
Local Open Scope string_scope.
#[local] Arguments String.append !_ _ : simpl nomatch.

(** A transformers configuration: the attributes that the code reads. *)
Inductive torch_type := BFloat16 | Float32 | Float16 | OtherDtype.
Record Config := mkConfig {
  architectures : list string;
  encoder_sparse_step : option Z;
  decoder_sparse_step : option Z;
  encoder_layers : option Z;
  decoder_layers : option Z;
  cfg_num_experts : option Z;
  num_hidden_layers : option Z;
  num_local_experts : option Z;
  n_routed_experts : option Z;
  cfg_torch_dtype : option torch_type;
  cfg_dtype : option torch_type
}.

(** [s.lower()] *)
Definition lower_char (c : ascii) : ascii :=
  let n := code c in if (65 <=? n)%nat && (n <=? 90)%nat then ascii_of_nat (n + 32) else c.
Fixpoint lower (s : string) : string :=
  match s with "" => "" | String c s' => String (lower_char c) (lower s') end.

(** [sub in s] *)
Definition is_in (sub s : string) : bool := match String.index 0 sub s with Some _ => true | None => false end.

Definition arch_of (config : Config) : string := lower (match architectures config with a :: _ => a | [] => "" end).

Definition attr {A} (o : option A) : res A := match o with Some a => Ok a | None => Err AttributeError end.
#[local] Instance res_ret : MRet res := λ _ a, Ok a.
#[local] Instance res_bind : MBind res := λ _ _ k r, match r with Ok a => k a | Err e => Err e end.
(** [a // b] *)
Definition floordiv (a b : Z) : res Z := if (b =? 0)%Z then Err ZeroDivisionError else Ok (a / b).

Definition parse_expert_dtype (config : Config) : res Z :=
  let dtype := match cfg_torch_dtype config with
               | Some d => d
               | None => default BFloat16 (cfg_dtype config)
               end in
  match dtype with
  | BFloat16 => Ok 0
  | Float32 => Ok 1
  | Float16 => Ok 2
  | OtherDtype => Err AssertionError
  end.

(** (num_layers, num_experts, num_encoder_layers) *)
Definition parse_moe_param (config : Config) : res (Z * Z * Z) :=
  let arch := arch_of config in
  if is_in "nllb" arch then
    es ← attr (encoder_sparse_step config);
    ds ← attr (decoder_sparse_step config);
    el ← attr (encoder_layers config);
    num_encoder_layers ← floordiv el es;
    dl ← attr (decoder_layers config);
    num_decoder_layers ← floordiv dl ds;
    num_experts ← attr (cfg_num_experts config);
    mret (num_encoder_layers + num_decoder_layers, num_experts, num_encoder_layers)
  else if is_in "mixtral" arch then
    n ← attr (num_hidden_layers config); e ← attr (num_local_experts config); mret (n, e, 0)
  else if is_in "qwen3" arch then
    n ← attr (num_hidden_layers config); e ← attr (cfg_num_experts config); mret (n, e, 0)
  else if is_in "deepseek" arch then
    n ← attr (num_hidden_layers config); e ← attr (n_routed_experts config); mret (n, e, 0)
  else if is_in "gpt_oss" arch || is_in "gptoss" arch then
    n ← attr (num_hidden_layers config); e ← attr (num_local_experts config); mret (n, e, 0)
  else Err RuntimeError.

(** ** Searching names *)

(** [int(digits)] *)
Fixpoint int_of (acc : Z) (digits : string) : Z :=
  match digits with "" => acc | String c s => int_of (acc * 10 + (Z.of_nat (code c) - 48)) s end.

(** Strip one or more digits. *)
Definition digits1 (s : string) : option (Z * string) :=
  match scan_digits s with ("", _) => None | (d, rest) => Some (int_of 0 d, rest) end.

(** [re.findall(p, s)[0]] for a pattern given by its match at a position. *)
Fixpoint search {A} (match_at : string → option A) (s : string) : option A :=
  match match_at s with
  | Some a => Some a
  | None => match s with "" => None | String _ s' => search match_at s' end
  end.

(** layers\.(\d+)<middle>(\d+)\. *)
Definition layer_expert_at (middle : string) (s : string) : option (Z * Z) :=
  s1 ← strip_prefix "layers." s;
  '(l, s2) ← digits1 s1;
  s3 ← strip_prefix middle s2;
  '(e, s4) ← digits1 s3;
  _ ← strip_prefix "." s4;
  Some (l, e).

(** layers\.(\d+)\.mlp\.experts\.(gate_up_proj|down_proj) *)
Definition gpt_oss_at (s : string) : option Z :=
  s1 ← strip_prefix "layers." s;
  '(l, s2) ← digits1 s1;
  s3 ← strip_prefix ".mlp.experts." s2;
  match strip_prefix "gate_up_proj" s3, strip_prefix "down_proj" s3 with
  | None, None => None
  | _, _ => Some l
  end.

(** (encoder|decoder)\.[a-z]+\.(\d+).*expert_(\d+): the dot-star takes as much as it
    can, so the last occurrence of [expert_] followed by a digit counts. *)
Fixpoint scan_letters (s : string) : string * string :=
  match s with
  | String c s' =>
      if (97 <=? code c)%nat && (code c <=? 122)%nat then let '(d, r) := scan_letters s' in (String c d, r) else ("", s)
  | "" => ("", "")
  end.
Fixpoint last_expert (s : string) : option Z :=
  match s with
  | "" => None
  | String _ s' =>
      match last_expert s' with
      | Some e => Some e
      | None => r ← strip_prefix "expert_" s; '(e, _) ← digits1 r; Some e
      end
  end.
Definition nllb_at (s : string) : option (bool * Z * Z) :=
  '(is_encoder, s1) ← (match strip_prefix "encoder." s, strip_prefix "decoder." s with
                       | Some r, _ => Some (true, r)
                       | None, Some r => Some (false, r)
                       | None, None => None
                       end);
  s2 ← (match scan_letters s1 with ("", _) => None | (_, r) => Some r end);
  s3 ← strip_prefix "." s2;
  '(l, s4) ← digits1 s3;
  e ← last_expert s4;
  Some (is_encoder, l, e).

(** (layer_id, expert_id); [None] is Python's [None]. *)
Definition parse_expert_id (param_name : string) (config : Config) : res (option Z * option Z) :=
  let arch := arch_of config in
  match parse_moe_param config with
  | Err e => Err e
  | Ok (_, _, num_encoder_layers) =>
      let decoder := λ middle,
        match search (layer_expert_at middle) param_name with
        | Some (layer_id, expert_id) => Ok (Some (layer_id + num_encoder_layers), Some expert_id)
        | None => Ok (None, None)
        end in
      if is_in "nllb" arch then
        es ← attr (encoder_sparse_step config);
        ds ← attr (decoder_sparse_step config);
        match search nllb_at param_name with
        | Some (true, layer_id, expert_id) => l ← floordiv layer_id es; Ok (Some l, Some expert_id)
        | Some (false, layer_id, expert_id) => l ← floordiv layer_id ds; Ok (Some (l + num_encoder_layers), Some expert_id)
        | None => Ok (None, None)
        end
      else if is_in "mixtral" arch then decoder ".block_sparse_moe.experts."
      else if is_in "deepseekv4" arch then decoder ".ffn.experts."
      else if is_in "deepseek" arch || is_in "qwen3" arch then decoder ".mlp.experts."
      else if is_in "gpt_oss" arch || is_in "gptoss" arch then
        match search gpt_oss_at param_name with Some l => Ok (Some l, None) | None => Ok (None, None) end
      else Ok (None, None)
  end.

(** ** common/constants.py: the registry, in the order it is searched *)
Definition MODEL_MAPPING_TYPES : list (string * Z) :=
  [("nllb", 2); ("mixtral", 4); ("opt", 3); ("deepseek_v3", 5); ("deepseek", 5); ("gptoss", 4); ("qwen3", 5);
   ("dbrx", 4); ("olmoe", 4); ("jamba", 4)].
(** [has_v4]: transformers ships [DeepseekV4ForCausalLM]. *)
Definition registry (has_v4 : bool) : list (string * Z) :=
  MODEL_MAPPING_TYPES ++ (if has_v4 then [("deepseekv4", 5)] else []).
Definition parse_expert_type (has_v4 : bool) (config : Config) : res Z :=
  match List.find (λ kv, is_in kv.1 (arch_of config)) (registry has_v4) with
  | Some (_, t) => Ok t
  | None => Err RuntimeError
  end.

(** ** Names written and read back *)

Lemma int_of_app acc a b : int_of acc (a ++ b) = int_of (int_of acc a) b.
Proof. revert acc. induction a as [|c a IH]; intros acc; [done|]. cbn. apply IH. Qed.

Lemma int_of_decimal fuel n : (n < 2 ^ N.of_nat fuel)%N → (0 < fuel)%nat → int_of 0 (decimal fuel n) = Z.of_N n.
Proof.
  revert n. induction fuel as [|fuel IH]; intros n Hn Hf; [lia|]. cbn [decimal]. rewrite int_of_app. cbn [int_of].
  rewrite code_ascii_of_N by (pose proof (N.mod_lt n 10); lia).
  assert (int_of 0 (if (n <? 10)%N then "" else decimal fuel (n / 10)) = Z.of_N (n / 10)) as ->.
  { destruct (n <? 10)%N eqn:Hs; [apply N.ltb_lt in Hs; by rewrite N.div_small|]. apply N.ltb_ge in Hs.
    assert (n / 10 < 2 ^ N.of_nat fuel)%N as Hq.
    { apply N.Div0.div_lt_upper_bound. rewrite Nat2N.inj_succ, N.pow_succ_r' in Hn. lia. }
    apply IH; [done|]. destruct fuel; [cbn in Hn; lia|lia]. }
  pose proof (N.div_mod n 10). pose proof (N.mod_lt n 10). lia.
Qed.

Lemma int_of_str n : int_of 0 (str_of_N n) = Z.of_N n.
Proof. apply int_of_decimal; [apply N_size_bound|lia]. Qed.

Lemma scan_digits_dot d r : sforall digit d → scan_digits (d ++ String "." r) = (d, String "." r).
Proof. induction d as [|c d IH]; cbn; intros H; [done|]. destruct H as [-> H]. by rewrite IH. Qed.

Lemma digits1_str n r : digits1 (str_of_N n ++ String "." r) = Some (Z.of_N n, String "." r).
Proof.
  destruct (str_of_N_plain n) as (c & d & E & Hc & Hd & _). unfold digits1.
  rewrite scan_digits_dot by (rewrite E; cbn; done). rewrite int_of_str. by rewrite E.
Qed.

Lemma strip_prefix_app p s : strip_prefix p (p ++ s) = Some s.
Proof. induction p as [|c p IH]; [done|]. cbn. by rewrite Ascii.eqb_refl. Qed.

(** The text between the layer and the expert in the parameter names of an
    architecture with separate experts. *)
Definition expert_infix (arch : string) : option string :=
  if is_in "nllb" arch then None
  else if is_in "mixtral" arch then Some "block_sparse_moe.experts."
  else if is_in "deepseekv4" arch then Some "ffn.experts."
  else if is_in "deepseek" arch || is_in "qwen3" arch then Some "mlp.experts."
  else None.

Lemma layer_expert_name infix l e suffix :
  search (layer_expert_at (String "." infix))
    ("model.layers." ++ str_of_N l ++ String "." infix ++ str_of_N e ++ String "." suffix) = Some (Z.of_N l, Z.of_N e).
Proof.
  cbn [search append]. unfold layer_expert_at at 1 2 3 4 5 6 7. cbn [strip_prefix Ascii.eqb Bool.eqb mbind option_bind].
  rewrite digits1_str. cbn [mbind option_bind]. change (String "." (infix ++ ?x)) with (String "." infix ++ x).
  rewrite strip_prefix_app. cbn [mbind option_bind]. rewrite digits1_str. done.
Qed.

(** Parameter names determine experts: for every architecture with separate
    experts (other than NLLB) and every layer and expert number, the name that the
    architecture gives a parameter of the expert is parsed back to that layer and
    expert, whatever the parameter is called. *)
Theorem expert_name_roundtrip (config : Config) (infix : string) (num_layers num_experts num_encoder_layers : Z)
    (l e : N) (suffix : string) :
  expert_infix (arch_of config) = Some infix →
  parse_moe_param config = Ok (num_layers, num_experts, num_encoder_layers) →
  parse_expert_id ("model.layers." ++ str_of_N l ++ String "." infix ++ str_of_N e ++ String "." suffix) config =
    Ok (Some (Z.of_N l), Some (Z.of_N e)).
Proof.
  unfold expert_infix, parse_expert_id. intros Hi Hp.
  assert (num_encoder_layers = 0) as ->.
  { unfold parse_moe_param, attr, mbind, res_bind, mret, res_ret in Hp. revert Hi Hp.
    destruct (is_in "nllb" (arch_of config)); [done|]. intros _. by repeat case_match; intros; simplify_eq. }
  rewrite Hp. pose proof (layer_expert_name infix l e suffix) as H.
  destruct (is_in "nllb" (arch_of config)); [done|]. cbv zeta.
  repeat match type of Hi with (if ?b then _ else _) = _ => destruct b end; simplify_eq;
    rewrite H, Z.add_0_r; done.
Qed.

Lemma expert_name_roundtrip_witness :
  let config := mkConfig ["Qwen3MoeForCausalLM"] None None None None (Some 128) (Some 48) None None None None in
  parse_expert_id "model.layers.17.mlp.experts.105.gate_proj.weight" config = Ok (Some 17, Some 105).
Proof.
  exact (expert_name_roundtrip
    (mkConfig ["Qwen3MoeForCausalLM"] None None None None (Some 128) (Some 48) None None None None)
    "mlp.experts." 48 128 0 17 105 "gate_proj.weight" eq_refl eq_refl).
Defined.

(** The registry offers architectures that cannot be loaded: DBRX, Jamba, OLMoE
    and OPT have an expert type, but reading the number of layers and experts from
    their configuration raises [RuntimeError]. *)
Theorem registered_but_unsupported (config : Config) (a : string) (has_v4 : bool) :
  a ∈ ["DbrxForCausalLM"; "JambaForCausalLM"; "OlmoeForCausalLM"; "OPTForCausalLM"] →
  architectures config = [a] →
  is_ok (parse_expert_type has_v4 config) = true ∧ parse_moe_param config = Err RuntimeError.
Proof.
  intros Ha Harch. assert (arch_of config = lower a) as E by (unfold arch_of; by rewrite Harch).
  unfold parse_expert_type, parse_moe_param. rewrite E.
  repeat (apply elem_of_cons in Ha as [->|Ha]; [by destruct has_v4|]). by apply not_elem_of_nil in Ha.
Qed.

Lemma registered_but_unsupported_witness :
  let config := mkConfig ["DbrxForCausalLM"] None None None None None (Some 40) None None None None in
  is_ok (parse_expert_type true config) = true ∧ parse_moe_param config = Err RuntimeError.
Proof.
  apply (registered_but_unsupported
    (mkConfig ["DbrxForCausalLM"] None None None None None (Some 40) None None None None) "DbrxForCausalLM" true);
    [left|reflexivity].
Defined.
