(* ===== verification/Quantization.v ===== *)
(** * Quantised checkpoints
    (utils/quantization.py, utils/gptq.py, utils/mxfp4.py and
    [_cast_state_dict_tensors] of runtime/model_offload.py)

    Which quantisation a checkpoint has, and which of its tensors may be cast to the
    model's dtype.  A Python value in a configuration is a [json] value, [JNull] for
    [None]; files are read through a function from names to texts. *)
From Stdlib Require Import String Ascii.
From S2P Require Import Prelude Json JsonProps Stream HfConfig.
Open Scope Z_scope.
Local Open Scope string_scope.
#[local] Arguments String.append !_ _ : simpl nomatch.

(** ** Names *)

(** [s.endswith(suffix)] *)
Fixpoint ends_with (suffix s : string) : bool :=
  String.eqb suffix s || match s with "" => false | String _ s' => ends_with suffix s' end.
(** [s.rsplit(".", 1)[-1]], which is [s] when there is no dot *)
Fixpoint after_last_dot (s : string) : option string :=
  match s with
  | "" => None
  | String c s' =>
      match after_last_dot s' with
      | Some r => Some r
      | None => if Ascii.eqb c "." then Some s' else None
      end
  end.
Definition suffix_of (name : string) : string := default name (after_last_dot name).
(** [s[:-len(suffix)]] *)
Definition drop_suffix (suffix s : string) : string := String.substring 0 (String.length s - String.length suffix) s.

(** ** The configuration's [quantization_config] *)
Inductive quant_attr :=
  | QNone                                    (** absent or [None] *)
  | QDict (d : list (string * json))
  | QObject (d : list (string * json)).      (** an object with these attributes *)

(** [_get_quant_field] *)
Definition get_quant_field (q : quant_attr) (field : string) : json :=
  match q with
  | QNone => JNull
  | QDict d | QObject d => default JNull (obj_get field d)
  end.
Definition is_str (v : json) (s : string) : bool := match v with JStr s' => String.eqb s' s | _ => false end.
Definition is_none (v : json) : bool := match v with JNull => true | _ => false end.

Definition is_gptq_quantized (q : quant_attr) : bool :=
  match q with QNone => false | _ => is_str (get_quant_field q "quant_method") "gptq" end.
Definition is_mxfp4_quantized (q : quant_attr) : bool :=
  match q with QNone => false | _ => is_str (get_quant_field q "quant_method") "mxfp4" end.
Definition get_gptq_bits (q : quant_attr) : json :=
  let bits := get_quant_field q "bits" in if is_none bits then JNum "4" else bits.
Definition get_gptq_group_size (q : quant_attr) : json :=
  let gs := get_quant_field q "group_size" in if is_none gs then JNum "128" else gs.

Definition GPTQ_PACKED_SUFFIXES : list string := [".qweight"; ".qzeros"].
Definition GPTQ_COMPONENT_SUFFIXES : list string := [".qweight"; ".qzeros"; ".scales"; ".g_idx"].
Definition is_gptq_packed_tensor (name : string) : bool := existsb (λ s, ends_with s name) GPTQ_PACKED_SUFFIXES.
Definition is_gptq_component (name : string) : bool := existsb (λ s, ends_with s name) GPTQ_COMPONENT_SUFFIXES.

(** [identify_mxfp4_pairs] *)
Definition identify_mxfp4_pairs (weight_names : list string) : list (string * string) :=
  omap (λ name,
    if ends_with "_blocks" name then
      let scales_name := drop_suffix "_blocks" name ++ "_scales" in
      if bool_decide (scales_name ∈ weight_names) then Some (name, scales_name) else None
    else None) weight_names.

(** ** Detection *)
Record QuantizationInfo := mkQI {
  method : string;
  supported : bool;
  bits : json;
  group_size : json;
  config_dict : list (string * json);
  source : string
}.
Definition SUPPORTED_QUANT_METHODS : list string := ["gptq"; "awq"].
Definition HANDLED_ELSEWHERE_METHODS : list string := ["mxfp4"].
Definition QUANT_TENSOR_SUFFIXES : list string := ["qweight"; "qzeros"; "scales"; "g_idx"].
Definition mem (s : string) (l : list string) : bool := existsb (String.eqb s) l.

(** [d.get(k, default)] *)
Definition dict_get (k : string) (d : list (string * json)) (default_value : json) : json :=
  default default_value (obj_get k d).
(** [v.lower().strip()]: only strings have these methods. *)
Definition lower_strip (v : json) : res string :=
  match v with JStr s => Ok (strip (lower s)) | _ => Err AttributeError end.

Definition info_of (m : string) (d : list (string * json)) (src : string) : QuantizationInfo :=
  mkQI m (mem m SUPPORTED_QUANT_METHODS) (dict_get "bits" d (dict_get "w_bit" d JNull))
    (dict_get "group_size" d (dict_get "q_group_size" d JNull)) d src.

Definition detect_from_config_attr (q : quant_attr) : res (option QuantizationInfo) :=
  match q with
  | QDict d =>
      match lower_strip (dict_get "quant_method" d (JStr "")) with
      | Err e => Err e
      | Ok m =>
          if String.eqb m "" || mem m HANDLED_ELSEWHERE_METHODS then Ok None
          else Ok (Some (info_of m d "config.quantization_config"))
      end
  | _ => Ok None
  end.

(** A checkpoint directory: the texts of its files and its listing. *)
Record Checkpoint := mkCkpt { is_dir : bool; read_text : string → option string; listing : list string }.

Definition try_read_json (c : Checkpoint) (filename : string) : option (list (string * json)) :=
  match read_text c filename ≫= loads with Some (JObj d) => Some d | _ => None end.

Definition QUANT_JSON_FILES : list (string * option string) :=
  [("quantize_config.json", Some "gptq"); ("quant_config.json", Some "awq"); ("quantization_config.json", None)].

Fixpoint detect_in_files (c : Checkpoint) (files : list (string * option string)) : res (option QuantizationInfo) :=
  match files with
  | [] =>
      if existsb (ends_with ".gguf") (listing c) then Ok (Some (mkQI "gguf" false JNull JNull [] "file")) else Ok None
  | (filename, expected_method) :: files' =>
      match try_read_json c filename with
      | None => detect_in_files c files'
      | Some d =>
          match lower_strip (dict_get "quant_method" d (dict_get "type" d (JStr ""))) with
          | Err e => Err e
          | Ok m0 =>
              let m := if String.eqb m0 "" then default m0 expected_method else m0 in
              if String.eqb m "" || mem m HANDLED_ELSEWHERE_METHODS then detect_in_files c files'
              else Ok (Some (info_of m d filename))
          end
      end
  end.
Definition detect_from_checkpoint_files (checkpoint_path : string) (c : Checkpoint) : res (option QuantizationInfo) :=
  if String.eqb checkpoint_path "" || negb (is_dir c) then Ok None else detect_in_files c QUANT_JSON_FILES.

Definition detect_quantization (q : quant_attr) (checkpoint_path : string) (c : Checkpoint)
    : res (option QuantizationInfo) :=
  match detect_from_config_attr q with
  | Err e => Err e
  | Ok (Some info) => Ok (Some info)
  | Ok None => detect_from_checkpoint_files checkpoint_path c
  end.

Definition validate_quantization_support (info : QuantizationInfo) : res unit :=
  if supported info then Ok tt else Err ValueError.

Definition should_cast_tensor (tensor_name : string) (quant_info : option QuantizationInfo) : bool :=
  match quant_info with
  | None => true
  | Some info =>
      if negb (mem (method info) SUPPORTED_QUANT_METHODS) then true
      else negb (mem (suffix_of tensor_name) QUANT_TENSOR_SUFFIXES)
  end.

(** ** Casting a checkpoint *)
Section cast.
Context {T : Type} (to_cpu : T → T) (to_dtype : T → res T).

Definition is_mxfp4_name (k : string) : bool := ends_with "_blocks" k || ends_with "_scales" k.
(** Tensors that keep their dtype. *)
Definition keeps_dtype (quant_info : option QuantizationInfo) (is_gptq_ckpt is_mxfp4_ckpt : bool) (k : string) : bool :=
  (is_mxfp4_ckpt && is_mxfp4_name k)
  || (is_gptq_ckpt && is_gptq_packed_tensor k) || negb (should_cast_tensor k quant_info).

(** The body of the loop. *)
Definition cast_one (quant_info : option QuantizationInfo) (is_gptq_ckpt is_mxfp4_ckpt : bool) (k : string) (v : T)
    : res T :=
  if keeps_dtype quant_info is_gptq_ckpt is_mxfp4_ckpt k then Ok (to_cpu v)
  else
    match to_dtype v with
    | Ok w => Ok (to_cpu w)
    | Err e =>
        match e with
        | RuntimeError | TypeError => if is_mxfp4_name k then Ok (to_cpu v) else Err e
        | _ => Err e
        end
    end.

(** [_cast_state_dict_tensors]: entries before one that raises stay converted. *)
Fixpoint cast_state_dict_tensors (quant_info : option QuantizationInfo) (is_gptq_ckpt is_mxfp4_ckpt : bool)
    (state_dict : list (string * T)) : res unit * list (string * T) :=
  match state_dict with
  | [] => (Ok tt, [])
  | (k, v) :: rest =>
      match cast_one quant_info is_gptq_ckpt is_mxfp4_ckpt k v with
      | Err e => (Err e, state_dict)
      | Ok w =>
          let '(r, rest') := cast_state_dict_tensors quant_info is_gptq_ckpt is_mxfp4_ckpt rest in (r, (k, w) :: rest')
      end
  end.

Lemma cast_kept qi g m sd k v :
  (k, v) ∈ sd → keeps_dtype qi g m k = true →
  (k, to_cpu v) ∈ (cast_state_dict_tensors qi g m sd).2 ∨ (k, v) ∈ (cast_state_dict_tensors qi g m sd).2.
Proof.
  intros Hin Hk. induction sd as [|[k0 v0] sd IH]; [by apply not_elem_of_nil in Hin|]. cbn [cast_state_dict_tensors].
  apply elem_of_cons in Hin as [[= <- <-]|Hin].
  - unfold cast_one. rewrite Hk. destruct (cast_state_dict_tensors qi g m sd). left. left.
  - destruct (cast_one qi g m k0 v0) as [w|e]; [|right; by right]. specialize (IH Hin).
    destruct (cast_state_dict_tensors qi g m sd). cbn in *. destruct IH; [left|right]; by right.
Qed.
End cast.

Lemma after_last_dot_app base s :
  sforall (λ c, Ascii.eqb c "." = false) s → after_last_dot (base ++ String "." s) = Some s.
Proof.
  intros Hs. assert (after_last_dot s = None) as Hn.
  { induction s as [|c s IH]; [done|]. destruct Hs as [Hc Hs]. cbn. by rewrite IH, Hc. }
  induction base as [|c base IH]; cbn; [by rewrite Hn|by rewrite IH].
Qed.

Lemma quant_suffix_no_dot s : mem s QUANT_TENSOR_SUFFIXES = true → sforall (λ c, Ascii.eqb c "." = false) s.
Proof.
  unfold mem. intros H. apply existsb_exists in H as (x & Hx & ->%String.eqb_eq).
  repeat (destruct Hx as [<-|Hx]; [by repeat split|]). destruct Hx.
Qed.

(** Packed tensors survive loading: in a checkpoint whose detected quantisation is
    GPTQ or AWQ, the tensors named [*.qweight], [*.qzeros], [*.scales] and [*.g_idx] are
    never converted, whatever happens to the others and whether the loop raises; with
    an MXFP4 checkpoint the same holds for [*_blocks] and [*_scales]. *)
Theorem packed_tensors_kept {T} (to_cpu : T → T) (to_dtype : T → res T) quant_info is_gptq is_mxfp4
    (state_dict : list (string * T)) (k : string) (v : T) :
  (k, v) ∈ state_dict →
  (is_mxfp4 = true ∧ (ends_with "_blocks" k || ends_with "_scales" k) = true) ∨
  (∃ info base s, quant_info = Some info ∧ mem (method info) SUPPORTED_QUANT_METHODS = true ∧
     mem s QUANT_TENSOR_SUFFIXES = true ∧ k = base ++ String "." s) →
  let out := (cast_state_dict_tensors to_cpu to_dtype quant_info is_gptq is_mxfp4 state_dict).2 in
  (k, to_cpu v) ∈ out ∨ (k, v) ∈ out.
Proof.
  intros Hin Hk. apply cast_kept; [done|]. unfold keeps_dtype, is_mxfp4_name. destruct Hk as [[-> ->]|Hk]; [done|].
  destruct Hk as (info & base & s & -> & Hm & Hs & ->). unfold should_cast_tensor, suffix_of. rewrite Hm.
  rewrite (after_last_dot_app base s (quant_suffix_no_dot s Hs)). cbn [default from_option id]. unfold id. rewrite Hs.
  cbn. by rewrite !orb_true_r.
Qed.

Lemma packed_tensors_kept_witness :
  let info := info_of "gptq" [] "file" in
  let sd := [("a.weight", 5%Z); ("a.g_idx", 1001%Z); ("b.weight", 7%Z)] in
  let cast := λ v : Z, if (v =? 7)%Z then Err RuntimeError else Ok (v / 4)%Z in
  let out := (cast_state_dict_tensors (λ v, v) cast (Some info) true false sd).2 in
  (("a.g_idx", 1001%Z) ∈ out ∨ ("a.g_idx", 1001%Z) ∈ out) ∧ out = [("a.weight", 1%Z); ("a.g_idx", 1001%Z); ("b.weight", 7%Z)].
Proof.
  cbv zeta. split; [|vm_compute; reflexivity].
  apply (packed_tensors_kept (λ v : Z, v)); [right; left|].
  right. exists (info_of "gptq" [] "file"), "a", "g_idx". repeat split; reflexivity.
Defined.
