(* ===== verification/ModelTopology.v ===== *)
(** * The stages of an offloaded model
    (runtime/model_offload.py: [get_topology], [_generate_param_id],
    [_offload_state_dict], and the map from experts to tensors of
    [archer_from_pretrained])

    The names of parameters and buffers decide which tensors the engine fetches
    together: the tensors of one expert, or those of a dense layer.  The regular
    expressions of [get_topology] are written out as searches; names are ASCII text
    on one line. *)
From Stdlib Require Import String Ascii.
From S2P Require Import Prelude PyCollections Json ApiAuth HfConfig.
Import OrderedDict.
Open Scope Z_scope.

(** Where the last occurrence of [sub] in [s] starts. *)
Fixpoint last_occurrence (sub s : string) : option nat :=
  match s with
  | EmptyString => if String.eqb sub EmptyString then Some 0%nat else None
  | String _ s' =>
      match last_occurrence sub s' with
      | Some n => Some (S n)
      | None => if String.prefix sub s then Some 0%nat else None
      end
  end.

(** [re.match(r"(.*experts)", name).group(1)]: the dot-star is greedy. *)
Definition experts_prefix (name : string) : option string :=
  (λ n, String.substring 0 (n + 7) name) <$> last_occurrence "experts" name.

(** [re.match(r"(.*\.\d+\.)", name)]: the position of the last dot that closes a
    number between dots.  [run] is the number of digits since the last dot, if there
    is nothing else between. *)
Fixpoint numbered_dot (s : string) (i : nat) (run : option nat) (best : option nat) : option nat :=
  match s with
  | EmptyString => best
  | String c s' =>
      if Ascii.eqb c "."%char then
        numbered_dot s' (S i) (Some 0%nat) (match run with Some (S _) => Some i | _ => best end)
      else if is_digit c then numbered_dot s' (S i) (S <$> run) best
      else numbered_dot s' (S i) None best
  end.

(** The start of the last match of the digit class. *)
Fixpoint last_digit (s : string) : option nat :=
  match s with
  | EmptyString => None
  | String c s' => match last_digit s' with Some n => Some (S n) | None => if is_digit c then Some 0%nat else None end
  end.

(** [name.rsplit(".", 1)[0]] *)
Definition rsplit_head (name : string) : string :=
  match last_occurrence "." name with Some n => String.substring 0 n name | None => name end.

(** The stage of a name, and its expert when it belongs to one.  [is_buffer] tells
    the two loops apart: buffers are not matched against the numbered prefix. *)
Definition dense_stage (is_buffer : bool) (name : string) : string :=
  match (if is_buffer then None else numbered_dot name 0 None None) with
  | Some dot => String.substring 0 dot name
  | None =>
      match last_digit name with
      | Some n => String.substring 0 (n + 1) name
      | None => EmptyString
      end
  end.
Definition classify (is_buffer : bool) (name : string) : res (string * option string) :=
  match last_digit name with
  | None => Ok (rsplit_head name, None)
  | Some _ =>
      if is_in "expert" name && negb (is_in "shared_experts" name) then
        match experts_prefix name with
        | None => Err AssertionError
        | Some stored_name =>
            match rev (split_on "."%char name) with
            | _ :: _ :: expert_name :: _ => Ok (stored_name, Some expert_name)
            | _ => Err IndexError
            end
        end
      else Ok (dense_stage is_buffer name, None)
  end.

(** A value of [ret_dict]: a dict from experts to tensor ids, or a list with one
    list of tensor ids. *)
Inductive stage :=
  | ExpertStage (experts : list (string * list Z))
  | DenseStage (ids : list Z).

(** Adding a tensor; [name_lst] holds the keys of [ret_dict].  A list indexed by an
    expert name is a [TypeError], a dict of experts indexed by 0 a [KeyError]. *)
Definition add_tensor (key : string * option string) (id : Z) (d : list (string * stage))
    : res (list (string * stage)) :=
  match od_get key.1 d, key.2 with
  | Some (ExpertStage m), Some x => Ok (od_set key.1 (ExpertStage (od_set x (default [] (od_get x m) ++ [id]) m)) d)
  | Some (DenseStage _), Some _ => Err TypeError
  | None, Some x => Ok (od_set key.1 (ExpertStage [(x, [id])]) d)
  | Some (DenseStage ids), None => Ok (od_set key.1 (DenseStage (ids ++ [id])) d)
  | Some (ExpertStage _), None => Err KeyError
  | None, None => Ok (od_set key.1 (DenseStage [id]) d)
  end.

Fixpoint add_names (is_buffer : bool) (name_id_map : gmap string Z) (names : list string) (d : list (string * stage))
    : res (list (string * stage)) :=
  match names with
  | [] => Ok d
  | name :: names' =>
      match name_id_map !! name with
      | None => add_names is_buffer name_id_map names' d
      | Some id =>
          match classify is_buffer name with
          | Err e => Err e
          | Ok key =>
              match add_tensor key id d with
              | Err e => Err e
              | Ok d' => add_names is_buffer name_id_map names' d'
              end
          end
      end
  end.

Definition stage_groups (s : stage) : list (list Z) :=
  match s with ExpertStage m => m.*2 | DenseStage ids => [ids] end.

Definition get_topology (name_id_map : gmap string Z) (parameters buffers : list string)
    : res (list (string * list (list Z))) :=
  match add_names false name_id_map parameters [] with
  | Err e => Err e
  | Ok d =>
      match add_names true name_id_map buffers d with
      | Err e => Err e
      | Ok d' => Ok ((λ kv, (kv.1, stage_groups kv.2)) <$> d')
      end
  end.

(** ** Every tensor is in exactly one group *)

Definition mapped (name_id_map : gmap string Z) (names : list string) : list Z :=
  omap (λ n, name_id_map !! n) names.
Definition tensors (d : list (string * stage)) : list Z := concat ((λ kv, concat (stage_groups kv.2)) <$> d).

Lemma tensors_perm d d' : d ≡ₚ d' → tensors d ≡ₚ tensors d'.
Proof. intros H. unfold tensors. by rewrite H. Qed.

(** [od_set] on a present key, up to order. *)
Lemma od_set_perm {V} k (v v' : V) (d : list (string * V)) :
  od_get k d = Some v → od_set k v' d ≡ₚ (k, v') :: od_del k d.
Proof.
  induction d as [|[k' w] d IH]; cbn; [done|]. case_decide; [done|]; intros Hx.
  rewrite IH by done. constructor.
Qed.

Lemma od_get_elem {V} k (v : V) (d : list (string * V)) : od_ok d → (k, v) ∈ d → od_get k d = Some v.
Proof.
  unfold od_ok, keys. induction d as [|[k' w] d IH]; intros Hd Hin; [by apply not_elem_of_nil in Hin|].
  cbn in *. apply NoDup_cons in Hd as [Hk Hd]. apply elem_of_cons in Hin as [[= <- <-]|Hin]; [by rewrite decide_True|].
  rewrite decide_False; [by apply IH|]. intros ->. apply Hk. apply list_elem_of_fmap. by exists (k', v).
Qed.

Lemma append_group_perm x (id : Z) (m : list (string * list Z)) :
  concat (od_set x (default [] (od_get x m) ++ [id]) m).*2 ≡ₚ concat m.*2 ++ [id].
Proof.
  induction m as [|[y g] m IH]; [done|]. cbn [od_get od_set]. case_decide as Hxy; cbn.
  - rewrite <- !app_assoc. apply Permutation_app_head, Permutation_app_comm.
  - rewrite <- app_assoc. by apply Permutation_app_head.
Qed.

Lemma add_tensor_perm key id d d' : add_tensor key id d = Ok d' → tensors d' ≡ₚ tensors d ++ [id].
Proof.
  destruct key as [k x]. unfold add_tensor. cbn [fst snd].
  destruct (od_get k d) as [[m|ids]|] eqn:E; destruct x as [x|]; intros [= <-]; try done.
  - rewrite (tensors_perm _ _ (od_set_perm _ _ _ _ E)), (tensors_perm _ _ (od_del_perm _ _ _ E)). cbn.
    rewrite append_group_perm, <- !app_assoc. apply Permutation_app_head, Permutation_app_comm.
  - rewrite (tensors_perm _ _ (od_set_perm _ _ _ _ E)), (tensors_perm _ _ (od_del_perm _ _ _ E)). cbn.
    rewrite !app_nil_r, <- !app_assoc. apply Permutation_app_head, Permutation_app_comm.
  - apply od_get_None in E. rewrite od_set_fresh by done. unfold tensors. rewrite fmap_app, concat_app. done.
  - apply od_get_None in E. rewrite od_set_fresh by done. unfold tensors. rewrite fmap_app, concat_app. done.
Qed.

(** The tensors that got a key, in the order of the loops. *)
Definition entries (is_buffer : bool) (name_id_map : gmap string Z) (names : list string)
    : list (string * option string * Z) :=
  omap (λ n, match name_id_map !! n, classify is_buffer n with
             | Some id, Ok key => Some (key, id)
             | _, _ => None
             end) names.
Definition ids_of (key : string * option string) (es : list (string * option string * Z)) : list Z :=
  (filter (λ e, e.1 = key) es).*2.
Definition group_of (d : list (string * stage)) (key : string * option string) : list Z :=
  match od_get key.1 d, key.2 with
  | Some (ExpertStage m), Some x => default [] (od_get x m)
  | Some (DenseStage ids), None => ids
  | _, _ => []
  end.
Definition stage_ok (s : stage) : Prop :=
  match s with ExpertStage m => od_ok m ∧ Forall (λ xg, xg.2 ≠ []) m | DenseStage ids => ids ≠ [] end.
Definition grouped (d : list (string * stage)) (es : list (string * option string * Z)) : Prop :=
  od_ok d ∧ (∀ k s, od_get k d = Some s → stage_ok s) ∧ ∀ key, group_of d key = ids_of key es.

Lemma ids_of_snoc key key' id es :
  ids_of key (es ++ [(key', id)]) = ids_of key es ++ (if decide (key' = key) then [id] else []).
Proof. unfold ids_of. rewrite filter_app, fmap_app, filter_cons. cbn. by case_decide. Qed.

Lemma od_set_stage_ok x g (m : list (string * list Z)) :
  od_ok m ∧ Forall (λ xg, xg.2 ≠ []) m → g ≠ [] → od_ok (od_set x g m) ∧ Forall (λ xg, xg.2 ≠ []) (od_set x g m).
Proof.
  intros [Hm Hf] Hg. split; [by apply od_set_ok|]. clear Hm. induction Hf as [|[y h] m Hh Hm IH]; cbn; [by repeat constructor|].
  case_decide; by constructor.
Qed.

Lemma add_tensor_grouped key id d d' es :
  add_tensor key id d = Ok d' → grouped d es → grouped d' (es ++ [(key, id)]).
Proof.
  intros Hadd (Hok & Hst & Hg).
  assert (∃ s, d' = od_set key.1 s d ∧ stage_ok s ∧
    ∀ x, group_of d' (key.1, x) = group_of d (key.1, x) ++ if decide (key.2 = x) then [id] else []) as (s & -> & Hs & Hx).
  { destruct key as [k x]. unfold add_tensor in Hadd. cbn [fst snd] in *.
    destruct (od_get k d) as [[m|ids]|] eqn:E; destruct x as [x|]; try discriminate Hadd; injection Hadd as <-; eexists; (split; [done|]).
    - split; [apply od_set_stage_ok; [exact (Hst _ _ E)|by destruct (default [] (od_get x m))]|].
      intros y. unfold group_of. cbn. rewrite od_get_set_eq, E. destruct y as [y|]; [|by rewrite decide_False].
      destruct (decide (x = y)) as [->|Hne]; [by rewrite od_get_set_eq, decide_True|].
      rewrite od_get_set_ne by done. rewrite decide_False by congruence. by rewrite app_nil_r.
    - split; [by destruct ids|]. intros y. unfold group_of. cbn. rewrite od_get_set_eq, E.
      by destruct y; [rewrite decide_False|rewrite decide_True].
    - split; [split; [apply NoDup_singleton|by repeat constructor]|]. intros y. unfold group_of. cbn. rewrite od_get_set_eq, E.
      destruct y as [y|]; [|by rewrite decide_False]. cbn. destruct (decide (y = x)) as [->|]; [by rewrite decide_True|].
      by rewrite decide_False by congruence.
    - split; [done|]. intros y. unfold group_of. cbn. rewrite od_get_set_eq, E.
      by destruct y; [rewrite decide_False|rewrite decide_True]. }
  split; [by apply od_set_ok|]. split.
  - intros k s0. destruct (decide (k = key.1)) as [->|Hne]; [rewrite od_get_set_eq; by intros [= <-]|].
    rewrite od_get_set_ne by done. apply Hst.
  - intros [k x]. rewrite ids_of_snoc, <- Hg. destruct (decide (k = key.1)) as [->|Hne].
    + rewrite Hx. f_equal. destruct key as [k0 x0]. cbn. destruct (decide (x0 = x)) as [->|]; [by rewrite decide_True|].
      by rewrite decide_False by congruence.
    + unfold group_of at 1. cbn [fst snd]. rewrite od_get_set_ne by done. rewrite decide_False, app_nil_r; [done|].
      intros ->. done.
Qed.

Lemma add_names_spec b ids names d d' es :
  add_names b ids names d = Ok d' → grouped d es →
  grouped d' (es ++ entries b ids names) ∧ tensors d' ≡ₚ tensors d ++ mapped ids names ∧
  (entries b ids names).*2 = mapped ids names.
Proof.
  revert d es. induction names as [|n names IH]; intros d es H Hg; cbn [add_names] in H.
  { injection H as <-. cbn. by rewrite !app_nil_r. }
  unfold entries, mapped in *. cbn [omap list_omap]. destruct (ids !! n) as [id|] eqn:En; [|by apply IH].
  destruct (classify b n) as [key|]; [|done]. destruct (add_tensor key id d) as [d1|] eqn:Ed; [|done].
  apply (add_tensor_grouped _ _ _ _ es) in Ed as Hg1; [|done]. apply add_tensor_perm in Ed.
  destruct (IH _ _ H Hg1) as (H1 & H2 & H3). split; [by rewrite cons_middle, app_assoc|].
  split; [by rewrite H2, Ed, <- app_assoc|]. cbn. by rewrite H3.
Qed.

(** The stages of a model partition its tensors: when [get_topology] returns, every
    parameter and buffer known to the offload store is in exactly one group; stages
    have distinct names; no group is empty, and a group holds exactly the tensors
    whose names give the same stage and the same expert, in the order of the model. *)
Theorem topology_partitions (name_id_map : gmap string Z) (parameters buffers : list string) topo :
  get_topology name_id_map parameters buffers = Ok topo →
  let es := entries false name_id_map parameters ++ entries true name_id_map buffers in
  NoDup topo.*1 ∧
  concat ((λ groups, concat groups) <$> topo.*2) ≡ₚ mapped name_id_map parameters ++ mapped name_id_map buffers ∧
  es.*2 = mapped name_id_map parameters ++ mapped name_id_map buffers ∧
  ∀ stage groups g, (stage, groups) ∈ topo → g ∈ groups → g ≠ [] ∧ ∃ x, g = ids_of (stage, x) es.
Proof.
  unfold get_topology. destruct (add_names false _ _ _) as [d|] eqn:E1; [|done].
  destruct (add_names true _ _ _) as [d'|] eqn:E2; [|done]. intros [= <-].
  apply (add_names_spec _ _ _ _ _ []) in E1 as (G1 & P1 & T1); [|split; [apply NoDup_nil_2|]; split; [done|]; by intros []].
  apply (add_names_spec _ _ _ _ _ _ E2) in G1 as (G2 & P2 & T2). cbn [app] in *. cbv zeta.
  destruct G2 as (Hok & Hst & Hg). split_and!.
  - rewrite <- list_fmap_compose. exact Hok.
  - rewrite <- list_fmap_compose, <- list_fmap_compose. unfold compose. cbn. fold (tensors d'). by rewrite P2, P1.
  - by rewrite fmap_app, T1, T2.
  - intros st groups g ([k s] & [= -> ->] & Hin)%list_elem_of_fmap Hgr. cbn [fst snd] in *.
    assert (od_get k d' = Some s) as Hk by (by apply od_get_elem).
    pose proof (Hst _ _ Hk) as Hs. destruct s as [m|ids]; cbn in Hgr.
    + destruct Hs as [Hm Hf]. apply list_elem_of_fmap in Hgr as ([x g'] & -> & Hxg). rewrite Forall_forall in Hf.
      split; [exact (Hf _ Hxg)|]. exists (Some x). rewrite <- Hg. unfold group_of. cbn. rewrite Hk.
      by rewrite (od_get_elem _ _ _ Hm Hxg).
    + apply list_elem_of_singleton in Hgr as ->. split; [done|]. exists None. rewrite <- Hg. unfold group_of. cbn. by rewrite Hk.
Qed.

Lemma topology_partitions_witness :
  let names := ["model.embed_tokens.weight"; "model.layers.0.self_attn.q_proj.weight";
    "model.layers.0.mlp.experts.0.gate_proj.weight"; "model.layers.0.mlp.experts.0.up_proj.weight";
    "model.layers.0.mlp.experts.1.gate_proj.weight"; "model.layers.0.self_attn.o_proj.weight"]%string in
  let topo := [("model.embed_tokens", [[1]]); ("model.layers.0", [[2; 6]]);
    ("model.layers.0.mlp.experts", [[3; 4]; [5]])]%string in
  get_topology (list_to_map (zip names [1; 2; 3; 4; 5; 6])) names [] = Ok topo ∧ NoDup topo.*1.
Proof.
  intros names topo. set (ids := list_to_map _).
  assert (get_topology ids names [] = Ok topo) as H by (vm_compute; reflexivity).
  split; [exact H|]. exact (proj1 (topology_partitions ids names [] topo H)).
Defined.

(** A stage that is used both for dense tensors and for experts makes the loop raise. *)
Example topology_conflict :
  get_topology {["experts.weight"%string := 1; "experts.0.weight"%string := 2]}
    ["experts.weight"; "experts.0.weight"]%string [] = Err TypeError.
Proof. vm_compute. reflexivity. Qed.

(** ** Tensor ids *)

(** The ids given to the parameters of the checkpoint files; [name_id_map] in
    insertion order, [offloads] the calls [archer_engine.offload]. *)
Record OffloadStore := mkStore {
  param_id : Z;
  name_ids : list (string * Z);
  offloads : list (string * Z)
}.
Definition generate_param_id : M OffloadStore Z :=
  s ← get; _ ← modify (λ s, mkStore (param_id s + 1) (name_ids s) (offloads s)); mret (param_id s).
Definition offload_state_dict (is_tensor_offloaded : Z → bool) (param_names : list string) : M OffloadStore unit :=
  for_each param_names (λ name,
    id ← generate_param_id;
    _ ← modify (λ s, mkStore (param_id s) (od_set name id (name_ids s)) (offloads s));
    when (negb (is_tensor_offloaded id))
      (modify (λ s, mkStore (param_id s) (name_ids s) (offloads s ++ [(name, id)])))).

(** The loop that builds [expert_tensor_map]. *)
Fixpoint build_expert_map (config : Config) (items : list (string * Z)) (m : gmap (Z * Z) Z) : res (gmap (Z * Z) Z) :=
  match items with
  | [] => Ok m
  | (name, id) :: items' =>
      match parse_expert_id name config with
      | Err e => Err e
      | Ok (Some layer_id, Some expert_id) => build_expert_map config items' (<[(layer_id, expert_id) := id]> m)
      | Ok _ => build_expert_map config items' m
      end
  end.

(** Ids are below the counter and pairwise distinct. *)
Definition ids_fresh (s : OffloadStore) : Prop :=
  NoDup (name_ids s).*2 ∧ Forall (λ id, id < param_id s) (name_ids s).*2.

Lemma od_set_ids name id (d : list (string * Z)) :
  NoDup d.*2 → Forall (λ x, x < id) d.*2 →
  NoDup (od_set name id d).*2 ∧ Forall (λ x, x < id + 1) (od_set name id d).*2.
Proof.
  intros Hn Hf. assert (∀ x, x ∈ (od_set name id d).*2 → x ∈ d.*2 ∨ x = id) as Hsub.
  { clear. induction d as [|[k v] d IH]; cbn; [set_solver|]. case_decide; cbn; set_solver. }
  split.
  - clear Hsub. revert Hn Hf. induction d as [|[k v] d IH]; cbn; intros Hn Hf; [apply NoDup_singleton|].
    apply NoDup_cons in Hn as [Hv Hn]. apply Forall_cons in Hf as [Hvid Hf].
    assert (id ∉ d.*2) as Hid by (rewrite Forall_forall in Hf; intros Hin; specialize (Hf _ Hin); lia).
    case_decide; cbn; apply NoDup_cons; [done|]. split; [|by apply IH].
    clear -Hv Hvid. induction d as [|[k' v'] d IH]; cbn; [set_solver by lia|]. cbn in Hv.
    case_decide; cbn; rewrite elem_of_cons; intros [->|Hin]; [lia|set_solver|set_solver|]. revert Hin. apply IH. set_solver.
  - apply Forall_forall. intros x [Hx| ->]%Hsub; [|lia]. rewrite Forall_forall in Hf. specialize (Hf _ Hx). lia.
Qed.

Lemma offload_state_dict_fresh offloaded names :
  triple ids_fresh (offload_state_dict offloaded names) (λ r s, r = Ok tt ∧ ids_fresh s).
Proof.
  apply triple_for_each_ok. intros name _ s [Hn Hf]. unfold generate_param_id. munfold.
  cbn [fst snd param_id name_ids offloads].
  destruct (od_set_ids name (param_id s) (name_ids s) Hn Hf) as [H1 H2]. by destruct (negb _).
Qed.

Lemma build_expert_map_inj config items m m' :
  build_expert_map config items m = Ok m' → NoDup items.*2 →
  (∀ k t, m !! k = Some t → t ∉ items.*2) → (∀ k1 k2 t, m !! k1 = Some t → m !! k2 = Some t → k1 = k2) →
  ∀ k1 k2 t, m' !! k1 = Some t → m' !! k2 = Some t → k1 = k2.
Proof.
  revert m. induction items as [|[name id] items IH]; intros m H Hn Hd Hi; cbn in H; [by injection H as <-|].
  cbn in Hn, Hd. apply NoDup_cons in Hn as [Hid Hn].
  destruct (parse_expert_id name config) as [[[l|] [e|]]|]; try done;
    try (by eapply IH; [exact H|done|set_solver|done]).
  eapply IH; [exact H|done| |].
  - intros k t [[_ <-]|[_ Hk]]%lookup_insert_Some; [done|]. specialize (Hd k t Hk). set_solver.
  - intros k1 k2 t [[<- <-]|[Hne1 Hk1]]%lookup_insert_Some [[<- Ht]|[Hne2 Hk2]]%lookup_insert_Some; [done| | |eauto].
    + specialize (Hd _ _ Hk2). set_solver.
    + subst t. specialize (Hd _ _ Hk1). set_solver.
Qed.

(** Expert tensors do not clash: after any checkpoint files have been offloaded from
    a fresh store, distinct parameters have distinct tensor ids, and the map from
    experts to tensors built from the names never gives two experts the same tensor. *)
Theorem expert_tensors_distinct (is_tensor_offloaded : Z → bool) (config : Config) (files : list (list string)) :
  let s := (for_each files (offload_state_dict is_tensor_offloaded) (mkStore 0 [] [])).2 in
  NoDup (name_ids s).*2 ∧
  match build_expert_map config (name_ids s) ∅ with
  | Ok m => ∀ k1 k2 t, m !! k1 = Some t → m !! k2 = Some t → k1 = k2
  | Err _ => True
  end.
Proof.
  cbv zeta. assert (ids_fresh (mkStore 0 [] [])) as H0 by (split; [apply NoDup_nil_2|constructor]).
  destruct (triple_for_each_ok ids_fresh files (offload_state_dict is_tensor_offloaded)
    (λ f _, offload_state_dict_fresh _ f) _ H0) as [_ [Hn _]].
  split; [done|]. destruct (build_expert_map config _ ∅) as [m|] eqn:E; [|done].
  eapply build_expert_map_inj; [exact E|done| |]; set_solver.
Qed.
