(* ===== verification/OffloadEngine.v ===== *)
(** * The offload engine around a model
    (runtime/model_offload.py: [__enter__], [__exit__], [clean_up], the model
    signature, [_capture_kv_cache] and [_reload_kv_cache])

    [Patching]: the attributes of torch and transformers that loading replaces and
    restores.  [Signature]: the stamp that guards an offload directory.  [KVCapture]:
    moving the keys and values of a sequence to the CPU and back. *)
From Stdlib Require Import String.
From stdpp Require Import pretty.
From S2P Require Import Prelude.
Open Scope Z_scope.
Local Open Scope string_scope.

Module Patching.

(** What an attribute holds: what was there, a decorated function, or a class of this
    repository. *)
Inductive attr_value :=
  | Original (name : string)
  | Decorated (decorator : string) (v : attr_value)
  | Replaced (cls : string).

(** [saved = target; target = new(saved)] *)
Record patch := mkPatch { target : string; saved : string; new : attr_value → attr_value }.
Definition wrap (owner attribute old decorator : string) : patch :=
  mkPatch (owner ++ "." ++ attribute) (owner ++ "." ++ old) (Decorated decorator).
Definition replace (owner attribute old cls : string) : patch :=
  mkPatch (owner ++ "." ++ attribute) (owner ++ "." ++ old) (λ _, Replaced cls).

Abbreviation attributes := (gmap string attr_value).
Definition apply_patch (p : patch) : M attributes unit :=
  env ← get;
  match env !! target p with
  | None => raise AttributeError
  | Some v => modify (λ env, <[target p := new p v]> (<[saved p := v]> env))
  end.
Definition restore_patch (p : patch) : M attributes unit :=
  env ← get;
  match env !! saved p with
  | None => raise AttributeError
  | Some v => modify (λ env, <[target p := v]> env)
  end.

(** The block headed "GPTQ Override", which [__enter__] has twice. *)
Definition gptq_patches : list patch :=
  [wrap "QuantLinear" "__init__" "_old_init" "empty_param_init_decorator";
   wrap "QuantLinearOld" "__init__" "_old_init" "empty_param_init_decorator"].
(** What [__exit__] restores. *)
Definition scoped_patches : list patch :=
  [wrap "cls" "__init__" "_old_init" "do_nothing_decorator";
   wrap "torch.nn.modules.module.Module" "apply" "_old_apply" "apply_to_model_decorator";
   wrap "torch" "index_select" "_old_index_select" "torch_index_select_decorator";
   wrap "torch.Tensor" "index_select" "_old_index_select" "torch_index_select_decorator";
   wrap "cls" "post_init" "_old_post_init" "do_nothing_decorator";
   wrap "PreTrainedModel" "post_init" "_old_post_init" "do_nothing_decorator"].
(** The blocks of the models; [clean_up] restores them. *)
Definition model_patches : list patch :=
  [replace "nllb_moe" "NllbMoeSparseMLP" "_old_sparse_mlp" "SyncNllbMoeSparseMLP";
   replace "mixtral" "MixtralSparseMoeBlock" "_old_sparse_mlp" "SyncMixtralSparseMoeBlock";
   replace "qwen3_moe" "Qwen3MoeSparseMoeBlock" "_old_sparse_mlp" "Qwen3MoEBlock";
   replace "qwen3_moe" "Qwen3MoeAttention" "_old_qwen3_attention" "Qwen3PagedAttention";
   replace "dbrx" "DbrxFFN" "_old_dbrx_ffn" "SyncDbrxFFNBlock";
   replace "olmoe" "OlmoeSparseMoeBlock" "_old_olmoe_moe" "SyncOlmoeMoEBlock";
   replace "jamba" "JambaSparseMoeBlock" "_old_jamba_moe" "SyncJambaMoEBlock";
   replace "deepseek_v2" "DeepseekV2MoE" "_old_deepseek_v2_moe" "SyncDeepseekV2MoEBlock";
   replace "deepseek_v3" "DeepseekV3MoE" "_old_deepseek_v3_moe" "SyncDeepseekV3MoEBlock"].
Definition gpt_oss_patch : patch := replace "gpt_oss" "GptOssMLP" "_old_gpt_oss_mlp" "SyncGptOssMLP".
Definition from_pretrained_patch : patch :=
  wrap "cls" "from_pretrained" "_old_from_pretrained" "from_pretrained_decorator".

(** The order of [__enter__], [__exit__] and [clean_up]; [activate_empty_init] and
    [deactivate_empty_init], which patch the classes of torch.nn, are in LoadingSupport. *)
Definition enter_patches : list patch :=
  gptq_patches ++ gptq_patches ++ scoped_patches ++ model_patches ++ [gpt_oss_patch; from_pretrained_patch].
Definition enter : M attributes unit := for_each enter_patches apply_patch.
Definition exit_ : M attributes unit :=
  for_each (gptq_patches ++ scoped_patches ++ [from_pretrained_patch; gpt_oss_patch]) restore_patch.
Definition clean_up : M attributes unit := for_each (model_patches ++ [gpt_oss_patch]) restore_patch.

(** ** Patching and restoring distinct attributes *)
Definition targets (ps : list patch) : list string := target <$> ps.
Definition saveds (ps : list patch) : list string := saved <$> ps.

Lemma apply_all ps (env : attributes) :
  NoDup (targets ps ++ saveds ps) → (∀ p, p ∈ ps → is_Some (env !! target p)) →
  ∃ env', for_each ps apply_patch env = (Ok tt, env') ∧
    (∀ p, p ∈ ps → env' !! saved p = env !! target p ∧ env' !! target p = new p <$> env !! target p) ∧
    (∀ k, k ∉ targets ps → k ∉ saveds ps → env' !! k = env !! k).
Proof.
  unfold targets, saveds. revert env. induction ps as [|p ps IH]; intros env Hnd Hdef.
  { exists env. split_and!; [done|set_solver|done]. }
  rewrite !fmap_cons in Hnd. cbn [app] in Hnd. rewrite <- Permutation_middle in Hnd.
  apply NoDup_cons in Hnd as [H1 Hnd]. apply NoDup_cons in Hnd as [H2 Hnd].
  destruct (Hdef p ltac:(set_solver)) as [v Hv].
  set (env1 := <[target p := new p v]> (<[saved p := v]> env)).
  destruct (IH env1 Hnd) as (env' & He & Hs & Ho).
  { intros q Hq. unfold env1. rewrite !lookup_insert_ne; [apply Hdef; set_solver| |].
    - intros E. apply H2. rewrite E. apply elem_of_app. left. by apply list_elem_of_fmap_2.
    - intros E. apply H1. rewrite E. right. apply elem_of_app. left. by apply list_elem_of_fmap_2. }
  exists env'. split.
  { assert (apply_patch p env = (Ok tt, env1)) as Hp by (unfold apply_patch; munfold; by rewrite Hv).
    cbn [for_each]. unfold mbind, M_bind. by rewrite Hp. }
  assert (target p ≠ saved p) as Hts by set_solver.
  split.
  - intros q [->|Hq]%elem_of_cons.
    + rewrite !Ho by set_solver. unfold env1. rewrite lookup_insert_ne, !lookup_insert_eq by done. by rewrite Hv.
    + destruct (Hs q Hq) as [-> ->]. unfold env1. rewrite !lookup_insert_ne; [done| |].
      * intros E. apply H2. rewrite E. apply elem_of_app. left. by apply list_elem_of_fmap_2.
      * intros E. apply H1. rewrite E. right. apply elem_of_app. left. by apply list_elem_of_fmap_2.
  - intros k Hk1 Hk2. rewrite Ho by set_solver. unfold env1. rewrite !lookup_insert_ne by set_solver. done.
Qed.

Lemma restore_all ps (env : attributes) :
  NoDup (targets ps) → (∀ p q, p ∈ ps → q ∈ ps → target p ≠ saved q) → (∀ p, p ∈ ps → is_Some (env !! saved p)) →
  ∃ env', for_each ps restore_patch env = (Ok tt, env') ∧
    (∀ p, p ∈ ps → env' !! target p = env !! saved p) ∧ (∀ k, k ∉ targets ps → env' !! k = env !! k).
Proof.
  unfold targets. revert env. induction ps as [|p ps IH]; intros env Hnd Hd Hdef.
  { exists env. split_and!; [done|set_solver|done]. }
  rewrite fmap_cons in Hnd. apply NoDup_cons in Hnd as [H1 Hnd]. destruct (Hdef p ltac:(set_solver)) as [v Hv].
  destruct (IH (<[target p := v]> env) Hnd) as (env' & He & Hs & Ho); [set_solver| |].
  { intros q Hq. rewrite lookup_insert_ne by (apply Hd; set_solver). apply Hdef. set_solver. }
  assert (restore_patch p env = (Ok tt, <[target p := v]> env)) as Hp by (unfold restore_patch; munfold; by rewrite Hv).
  exists env'. split; [cbn [for_each]; unfold mbind, M_bind; by rewrite Hp|]. split.
  - intros q [->|Hq]%elem_of_cons; [by rewrite Ho, lookup_insert_eq|]. rewrite (Hs q Hq).
    rewrite lookup_insert_ne by (apply Hd; set_solver). done.
  - intros k Hk. rewrite Ho by set_solver. by rewrite lookup_insert_ne by set_solver.
Qed.

(** ** Loading models *)

(** One load: [with engine.init(...): cls.from_pretrained(...)]. *)
Definition load : M attributes unit := enter ≫= λ _, exit_.

Definition all_patches : list patch :=
  gptq_patches ++ scoped_patches ++ model_patches ++ [gpt_oss_patch; from_pretrained_patch].
Definition restored_by_exit : list patch := scoped_patches ++ [from_pretrained_patch; gpt_oss_patch].
Definition all_defined (env : attributes) : Prop := ∀ p, p ∈ all_patches → is_Some (env !! target p).

Lemma disjoint_lists (a b : list string) x : forallb (λ y, negb (bool_decide (y ∈ b))) a = true → x ∈ a → x ∉ b.
Proof.
  intros H Hx. rewrite forallb_forall in H. apply list_elem_of_In in Hx. specialize (H x Hx).
  by apply negb_true_iff, bool_decide_eq_false in H.
Qed.
Lemma targets_in p ps : p ∈ ps → target p ∈ targets ps.
Proof. apply list_elem_of_fmap_2. Qed.
Lemma saveds_in p ps : p ∈ ps → saved p ∈ saveds ps.
Proof. apply list_elem_of_fmap_2. Qed.

Ltac apart := eapply disjoint_lists; cycle 1; [eauto using targets_in, saveds_in|vm_compute; reflexivity].
Ltac member :=
  match goal with |- ?p ∈ _ => repeat match goal with H : p ∈ _ |- _ => revert H end end;
  unfold all_patches, restored_by_exit; rewrite ?elem_of_app, ?elem_of_cons; clear; intuition.

Lemma one_load_spec env :
  all_defined env →
  ∃ env', load env = (Ok tt, env') ∧ all_defined env' ∧
    (∀ p, p ∈ gptq_patches → env' !! target p = new p <$> env !! target p) ∧
    (∀ p, p ∈ restored_by_exit → env' !! target p = env !! target p) ∧
    (∀ p, p ∈ model_patches → env' !! target p = new p <$> env !! target p ∧ env' !! saved p = env !! target p) ∧
    env' !! saved gpt_oss_patch = env !! target gpt_oss_patch.
Proof.
  intros Hdef.
  destruct (apply_all gptq_patches env) as (env1 & E1 & S1 & O1); [by apply (bool_decide_unpack _); vm_compute|intros; apply Hdef; member|].
  destruct (apply_all all_patches env1) as (env2 & E2 & S2 & O2); [by apply (bool_decide_unpack _); vm_compute| |].
  { intros p Hp. destruct (decide (target p ∈ targets gptq_patches)) as [Hg|Hg].
    - apply list_elem_of_fmap in Hg as (q & Hq & Hin). rewrite Hq, (proj2 (S1 q Hin)). apply fmap_is_Some, Hdef. member.
    - rewrite O1 by (done || apart). by apply Hdef. }
  destruct (restore_all (gptq_patches ++ restored_by_exit) env2) as (env3 & E3 & S3 & O3).
  { by apply (bool_decide_unpack _); vm_compute. }
  { intros p q Hp Hq E. apply targets_in in Hp. rewrite E in Hp. apply saveds_in in Hq. revert Hp. apart. }
  { intros p Hp. rewrite (proj1 (S2 p ltac:(member))). destruct (decide (target p ∈ targets gptq_patches)) as [Hg|Hg].
    - apply list_elem_of_fmap in Hg as (q & Hq & Hin). rewrite Hq, (proj2 (S1 q Hin)). apply fmap_is_Some, Hdef. member.
    - rewrite O1 by (done || apart). apply Hdef. member. }
  assert (∀ p, p ∈ (scoped_patches ++ model_patches ++ [gpt_oss_patch; from_pretrained_patch])%list →
    env1 !! target p = env !! target p) as Hsame.
  { intros p Hp. apply O1; apart. }
  exists env3.
  assert (∀ p, p ∈ gptq_patches → env3 !! target p = new p <$> env !! target p) as Hg.
  { intros p Hp. rewrite (S3 p ltac:(member)), (proj1 (S2 p ltac:(member))). apply (S1 p Hp). }
  assert (∀ p, p ∈ restored_by_exit → env3 !! target p = env !! target p) as Hr.
  { intros p Hp. rewrite (S3 p ltac:(member)), (proj1 (S2 p ltac:(member))). apply Hsame. member. }
  assert (∀ p, p ∈ model_patches → env3 !! target p = new p <$> env !! target p ∧ env3 !! saved p = env !! target p) as Hm.
  { intros p Hp. rewrite !O3 by apart. destruct (S2 p ltac:(member)) as [-> ->]. rewrite Hsame by member. done. }
  split_and!; try done.
  - unfold load, enter, exit_, mbind, M_bind, enter_patches. rewrite for_each_app. unfold mbind, M_bind. rewrite E1.
    change (gptq_patches ++ scoped_patches ++ model_patches ++ [gpt_oss_patch; from_pretrained_patch])%list with all_patches.
    rewrite E2. exact E3.
  - intros p Hp. unfold all_patches in Hp. rewrite !elem_of_app in Hp.
    assert (p ∈ gptq_patches ∨ p ∈ restored_by_exit ∨ p ∈ model_patches) as Hc.
    { revert Hp. unfold restored_by_exit. rewrite ?elem_of_app, ?elem_of_cons. clear. intuition. }
    destruct Hc as [Hc|[Hc|Hc]].
    + rewrite (Hg p Hc). apply fmap_is_Some, Hdef. member.
    + rewrite (Hr p Hc). apply Hdef. member.
    + rewrite (proj1 (Hm p Hc)). apply fmap_is_Some, Hdef. member.
  - rewrite O3 by (by apply (bool_decide_unpack _); vm_compute). rewrite (proj1 (S2 gpt_oss_patch ltac:(member))). apply Hsame. member.
Qed.

Lemma model_new_const p v w : p ∈ model_patches → new p v = new p w.
Proof. intros Hp. unfold model_patches in Hp. rewrite !elem_of_cons, elem_of_nil in Hp. by destruct_or! Hp; subst. Qed.

(** The environment after [n + 1] loads. *)
Lemma loads_spec n env :
  all_defined env →
  ∃ env', repeat_m (S n) load env = (Ok tt, env') ∧
    (∀ p, p ∈ gptq_patches → env' !! target p = Nat.iter (S n) (new p) <$> env !! target p) ∧
    (∀ p, p ∈ restored_by_exit → env' !! target p = env !! target p) ∧
    (∀ p, p ∈ model_patches → env' !! target p = new p <$> env !! target p ∧
       env' !! saved p = if (n =? 0)%nat then env !! target p else new p <$> env !! target p) ∧
    env' !! saved gpt_oss_patch = env !! target gpt_oss_patch.
Proof.
  revert env. induction n as [|n IH]; intros env Hdef.
  { destruct (one_load_spec env Hdef) as (e1 & E1 & D1 & G1 & R1 & M1 & O1). exists e1.
    split; [cbn [repeat_m]; unfold mbind, M_bind; by rewrite E1|done]. }
  destruct (one_load_spec env Hdef) as (e1 & E1 & D1 & G1 & R1 & M1 & O1).
  destruct (IH e1 D1) as (e2 & E2 & G2 & R2 & M2 & O2). exists e2. split.
  { change (repeat_m (S (S n)) load) with (load ≫= λ _, repeat_m (S n) load). unfold mbind, M_bind. by rewrite E1. }
  split; [intros p Hp; rewrite (G2 p Hp), (G1 p Hp), <- option_fmap_compose; destruct (env !! target p) as [v|]; [|done];
    unfold compose; cbn [fmap option_fmap option_map]; f_equal; exact (Nat.iter_swap (S n) _ (new p) v)|].
  split; [intros p Hp; by rewrite (R2 p Hp), (R1 p Hp)|]. split; [|rewrite O2; apply R1; by member].
  intros p Hp. destruct (M2 p Hp) as [-> ->]. destruct (M1 p Hp) as [-> _].
  destruct (env !! target p) as [v|]; cbn; [|by destruct n]. rewrite (model_new_const p _ v Hp). by destruct n.
Qed.

(** What loading models does to torch and transformers.  After [n >= 1] loads and
    [clean_up], everything patched for the time of a load is as before; but the
    initialisers of the GPTQ layers stay decorated, once more with every load (the
    override is applied twice and undone once), and the blocks of the model classes
    are the originals only if there was one load: a second load saves the patched
    classes over the originals, and [clean_up] restores those. *)
Theorem patching_leaves_traces (n : nat) (env : attributes) :
  all_defined env →
  ∃ env', (repeat_m (S n) load ≫= λ _, clean_up) env = (Ok tt, env') ∧
    (∀ p, p ∈ restored_by_exit → env' !! target p = env !! target p) ∧
    (∀ p, p ∈ gptq_patches → env' !! target p = Nat.iter (S n) (new p) <$> env !! target p) ∧
    (∀ p, p ∈ model_patches →
       env' !! target p = if (n =? 0)%nat then env !! target p else new p <$> env !! target p).
Proof.
  intros Hdef. destruct (loads_spec n env Hdef) as (e1 & E1 & G1 & R1 & M1 & O1).
  assert (∀ p, p ∈ (model_patches ++ [gpt_oss_patch])%list → is_Some (env !! target p)) as Hd.
  { intros p Hp. apply Hdef. member. }
  destruct (restore_all (model_patches ++ [gpt_oss_patch]) e1) as (e2 & E2 & S2 & O2).
  { by apply (bool_decide_unpack _); vm_compute. }
  { intros p q Hp Hq E. apply targets_in in Hp. rewrite E in Hp. apply saveds_in in Hq. revert Hp. apart. }
  { intros p Hp. specialize (Hd p Hp). apply elem_of_app in Hp as [Hp| ->%list_elem_of_singleton]; [|by rewrite O1].
    rewrite (proj2 (M1 p Hp)). destruct (n =? 0)%nat; [done|]. by apply fmap_is_Some. }
  exists e2. split; [unfold mbind, M_bind; by rewrite E1|]. split_and!.
  - intros p Hp. assert (p = gpt_oss_patch ∨ p ∈ (scoped_patches ++ [from_pretrained_patch])%list) as [->|Hp'].
    { revert Hp. unfold restored_by_exit. rewrite !elem_of_app, !elem_of_cons. clear. intuition. }
    + rewrite (S2 gpt_oss_patch); [done|]. apply elem_of_app. right. by apply list_elem_of_singleton.
    + rewrite O2, (R1 p Hp); [done|]. clear Hp. apart.
  - intros p Hp. rewrite O2 by apart. by apply G1.
  - intros p Hp. rewrite (S2 p) by (apply elem_of_app; by left). apply (proj2 (M1 p Hp)).
Qed.

Lemma patching_leaves_traces_witness :
  let env : attributes := list_to_map ((λ p, (target p, Original (target p))) <$> all_patches) in
  ∃ env', (repeat_m 2 load ≫= λ _, clean_up) env = (Ok tt, env') ∧
    env' !! "torch.index_select" = Some (Original "torch.index_select") ∧
    env' !! "QuantLinear.__init__" =
      Some (Decorated "empty_param_init_decorator" (Decorated "empty_param_init_decorator" (Original "QuantLinear.__init__"))) ∧
    env' !! "mixtral.MixtralSparseMoeBlock" = Some (Replaced "SyncMixtralSparseMoeBlock").
Proof.
  intros env. destruct (patching_leaves_traces 1 env) as (env' & H & Hr & Hg & Hm).
  - assert (forallb (λ p, bool_decide (is_Some (env !! target p))) all_patches = true) as Hd by (vm_compute; reflexivity).
    rewrite forallb_forall in Hd. intros p Hp. apply list_elem_of_In in Hp. exact (bool_decide_unpack _ (Is_true_true_2 _ (Hd p Hp))).
  - exists env'. split; [exact H|].
    assert (nth 2 scoped_patches gpt_oss_patch ∈ restored_by_exit) as H1 by (apply elem_of_app; left; right; right; left).
    assert (nth 0 gptq_patches gpt_oss_patch ∈ gptq_patches) as H2 by left.
    assert (nth 1 model_patches gpt_oss_patch ∈ model_patches) as H3 by (right; left).
    split; [|split]; [etrans; [exact (Hr _ H1)|]|etrans; [exact (Hg _ H2)|]|etrans; [exact (Hm _ H3)|]]; vm_compute; reflexivity.
Defined.
End Patching.

Module Signature.

(** The attributes of a configuration that identify a model. *)
Definition fields : list string :=
  ["model_type"; "architectures"; "num_hidden_layers"; "hidden_size"; "vocab_size"; "intermediate_size";
   "num_local_experts"; "num_experts"; "n_routed_experts"; "num_experts_per_tok"; "torch_dtype"].

(** The file model_signature.json of an offload directory. *)
Inductive sig_file :=
  | NoSignature
  | CorruptedSignature                          (** not JSON, or without the two keys *)
  | Stamp (model_name config_fingerprint : string).

Section signature.
(** [digest] is the sha256 of the JSON text of a dict; [config field] the text of an
    attribute, [None] when it is missing or [None]. *)
Context (digest : list (string * string) → string).
Implicit Types config : string → option string.

Definition fingerprint_dict config : list (string * string) := omap (λ f, (λ v, (f, v)) <$> config f) fields.
Definition compute_config_fingerprint config : string := digest (fingerprint_dict config).

Definition write_model_signature (model_name : string) config : M sig_file unit :=
  modify (λ _, Stamp model_name (compute_config_fingerprint config)).

Definition validate_model_signature (model_name : string) config : M sig_file unit :=
  f ← get;
  match f with
  | NoSignature => write_model_signature model_name config
  | CorruptedSignature => raise ValueError
  | Stamp stored_model_name stored_fingerprint =>
      _ ← raise_if (negb (String.eqb stored_model_name model_name)) ValueError;
      raise_if (negb (String.eqb stored_fingerprint (compute_config_fingerprint config))) ValueError
  end.

Lemma omap_fields_inj (fs : list string) (c c' : string → option string) :
  NoDup fs → omap (λ f, (λ v, (f, v)) <$> c f) fs = omap (λ f, (λ v, (f, v)) <$> c' f) fs →
  ∀ f, f ∈ fs → c f = c' f.
Proof.
  assert (∀ (c : string → option string) (fs : list string) f v, (f, v) ∈ omap (λ f, (λ v, (f, v)) <$> c f) fs → f ∈ fs) as Htag.
  { intros c0 fs0 f v Hin. apply list_elem_of_omap in Hin as (g & Hg & E).
    destruct (c0 g); cbn in E; [by injection E as -> ->|done]. }
  induction 1 as [|g fs Hg _ IH]; intros E f Hf; [by apply not_elem_of_nil in Hf|]. cbn in E.
  destruct (c g) as [v|] eqn:E1, (c' g) as [v'|] eqn:E2; cbn in E.
  - injection E as -> E. apply elem_of_cons in Hf as [->|Hf]; [congruence|by apply IH].
  - destruct Hg. apply (Htag c' fs g v). rewrite <- E. left.
  - destruct Hg. apply (Htag c fs g v'). rewrite E. left.
  - apply elem_of_cons in Hf as [->|Hf]; [congruence|by apply IH].
Qed.

Lemma same_fingerprint c c' : (∀ f, f ∈ fields → c f = c' f) → fingerprint_dict c = fingerprint_dict c'.
Proof.
  unfold fingerprint_dict. generalize fields. intros fs H. induction fs as [|f fs IH]; [done|]. cbn.
  rewrite (H f) by left. rewrite IH; [done|]. intros g Hg. apply H. by right.
Qed.

(** A signed offload directory accepts exactly its own model: after
    [_write_model_signature], validation succeeds if and only if the name is the same
    and so are all identifying attributes of the configuration (given that the digest
    does not collide), raises [ValueError] otherwise, and never changes the stamp; a
    directory without a stamp is accepted once and from then on behaves as signed. *)
Theorem signature_guards_cache (digest_inj : Inj (=) (=) digest) (name name' : string)
    (config config' : string → option string) (f : sig_file) :
  let signed := (write_model_signature name config f).2 in
  ((∃ e, validate_model_signature name' config' signed = (Err e, signed) ∧ e = ValueError ∧
      ¬ (name = name' ∧ ∀ a, a ∈ fields → config a = config' a)) ∨
   (validate_model_signature name' config' signed = (Ok tt, signed) ∧
      name = name' ∧ ∀ a, a ∈ fields → config a = config' a)) ∧
  validate_model_signature name config NoSignature = (Ok tt, signed) ∧
  validate_model_signature name config CorruptedSignature = (Err ValueError, CorruptedSignature).
Proof.
  cbv zeta. split; [|done]. unfold write_model_signature, validate_model_signature. munfold. cbn [snd].
  destruct (String.eqb_spec name name') as [<-|Hne]; cbn [negb]; [|left; exists ValueError; split; [done|]; split; [done|]; tauto].
  destruct (String.eqb_spec (compute_config_fingerprint config) (compute_config_fingerprint config')) as [E|E]; cbn [negb].
  - right. split; [done|]. split; [done|]. apply digest_inj in E. apply (omap_fields_inj fields); [|done].
    by apply (bool_decide_unpack _); vm_compute.
  - left. exists ValueError. split; [done|]. split; [done|]. intros [_ H]. apply E. unfold compute_config_fingerprint.
    by rewrite (same_fingerprint _ _ H).
Qed.
End signature.

(** A digest that does not collide. *)
Definition numbering (l : list (string * string)) : string := pretty (Npos (encode l)).

Lemma signature_guards_cache_witness :
  let c := λ f, if String.eqb f "hidden_size" then Some "2048" else None in
  let c' := λ f, if String.eqb f "hidden_size" then Some "4096" else None in
  let signed := (write_model_signature numbering "m" c NoSignature).2 in
  validate_model_signature numbering "m" c signed = (Ok tt, signed) ∧
  validate_model_signature numbering "m" c' signed = (Err ValueError, signed).
Proof.
  cbv zeta. assert (Inj (=) (=) numbering) as Hinj.
  { intros l1 l2 H. unfold numbering in H. apply (inj pretty) in H. injection H as H. by apply (inj encode) in H. }
  split.
  - destruct (signature_guards_cache numbering Hinj "m" "m" (λ f, if String.eqb f "hidden_size" then Some "2048" else None)
      (λ f, if String.eqb f "hidden_size" then Some "2048" else None) NoSignature) as [[(e & _ & _ & H)|[H _]] _]; [|exact H].
    destruct H. split; [reflexivity|]. intros a _. reflexivity.
  - destruct (signature_guards_cache numbering Hinj "m" "m" (λ f, if String.eqb f "hidden_size" then Some "2048" else None)
      (λ f, if String.eqb f "hidden_size" then Some "4096" else None) NoSignature) as [[(e & H & -> & _)|[_ [_ H]]] _]; [exact H|].
    specialize (H "hidden_size" ltac:(right; right; right; left)). discriminate H.
Defined.
End Signature.

Module KVCapture.

(** A tensor: where it is and what it holds. *)
Record tensor (V : Type) := mkTensor { device : string; data : V }.
Arguments mkTensor {V}.
Arguments device {V}.
Arguments data {V}.
Definition to {V} (d : string) (t : tensor V) : tensor V := mkTensor d (data t).

(** An element of [past_key_values]: a list or tuple that starts with two tensors, or
    anything else. *)
Inductive layer_kv (V X : Type) :=
  | KeyValue (k v : tensor V) (rest : list X)
  | OtherLayer (x : X).
Arguments KeyValue {V X}.
Arguments OtherLayer {V X}.

(** An element of a captured tuple: the CPU copies with the devices they came from. *)
Inductive captured_kv (V X : Type) :=
  | Captured (k_cpu v_cpu : tensor V) (k_device v_device : string)
  | CapturedOther (x : X).
Arguments Captured {V X}.
Arguments CapturedOther {V X}.

Record KVEngine (V X : Type) := mkKV { enable_kv_cache_offload : bool; captured : gmap Z (list (captured_kv V X)) }.
Arguments mkKV {V X}.
Arguments enable_kv_cache_offload {V X}.
Arguments captured {V X}.

Section capture.
Context {V X : Type}.
Abbreviation Eng := (KVEngine V X).

Definition capture_layer (l : layer_kv V X) : captured_kv V X :=
  match l with
  | KeyValue k v _ => Captured (to "cpu" k) (to "cpu" v) (device k) (device v)
  | OtherLayer x => CapturedOther x
  end.
Definition capture_kv_cache (seq_id : Z) (past_key_values : option (list (layer_kv V X))) : M Eng unit :=
  s ← get;
  match enable_kv_cache_offload s, past_key_values with
  | true, Some layers => modify (λ s, mkKV true (<[seq_id := capture_layer <$> layers]> (captured s)))
  | _, _ => mret tt
  end.

(** [_reload_kv_cache]; a captured pair without devices does not occur. *)
Definition reload_layer (c : captured_kv V X) : layer_kv V X :=
  match c with
  | Captured k v k_device v_device => KeyValue (to k_device k) (to v_device v) []
  | CapturedOther x => OtherLayer x
  end.
Definition reload_kv_cache (seq_id : Z) : M Eng (option (list (layer_kv V X))) :=
  s ← get;
  if negb (enable_kv_cache_offload s) then mret None
  else
    match captured s !! seq_id with
    | None => mret None
    | Some c => _ ← modify (λ s, mkKV (enable_kv_cache_offload s) (delete seq_id (captured s))); mret (Some (reload_layer <$> c))
    end.

(** What the round trip keeps of a layer: its two tensors. *)
Definition pair_of (l : layer_kv V X) : layer_kv V X :=
  match l with KeyValue k v _ => KeyValue k v [] | OtherLayer x => OtherLayer x end.

(** Capturing the keys and values of a sequence and reloading them gives back the
    same tensors, on the devices they came from, in the same order; the capture is
    used up by the reload, and those of other sequences are untouched by both.  When
    the offload is disabled both do nothing. *)
Theorem kv_capture_roundtrip (s : Eng) (seq_id : Z) (layers : list (layer_kv V X)) :
  let '(_, s1) := capture_kv_cache seq_id (Some layers) s in
  let '(r, s2) := reload_kv_cache seq_id s1 in
  if enable_kv_cache_offload s then
    r = Ok (Some (pair_of <$> layers)) ∧ captured s1 !! seq_id = Some (capture_layer <$> layers) ∧
    (reload_kv_cache seq_id s2).1 = Ok None ∧
    ∀ other, other ≠ seq_id → captured s1 !! other = captured s !! other ∧ captured s2 !! other = captured s !! other
  else r = Ok None ∧ s1 = s ∧ s2 = s.
Proof.
  unfold capture_kv_cache, reload_kv_cache. munfold. destruct (enable_kv_cache_offload s) eqn:E; cbn.
  2:{ by rewrite E. }
  rewrite lookup_insert_eq. cbn. split_and!.
  - do 2 f_equal. rewrite <- list_fmap_compose. apply list_fmap_ext. intros _ [k v rest|x] _; [|done]. by destruct k, v.
  - done.
  - by rewrite lookup_delete_eq.
  - intros other Ho. rewrite lookup_delete_ne, lookup_insert_ne by done. done.
Qed.
End capture.
End KVCapture.
