(* ===== verification/LoadingSupport.v ===== *)
(** * Support for loading a model (runtime/hooks.py, utils/checkpoints.py)

    [EmptyInit]: while a model is built, the classes of [torch.nn] make empty parameters.
    Attributes of classes are looked up along the method resolution order, so replacing one in
    a class also replaces it in the classes that inherit it.
    [Checkpoints]: the files that make up a checkpoint. *)
From Stdlib Require Import String Ascii.
From stdpp Require Import sorting.
From S2P Require Import Prelude Json JsonProps Quantization.
Local Open Scope string_scope.
Local Open Scope list_scope.

Module EmptyInit.
(** What an attribute of a class holds: a function as it was, or one under a decorator of
    this repository. *)
Inductive fn :=
  | Plain (name : string)
  | empty_param_init_decorator (f : fn)
  | do_nothing_decorator (f : fn).
#[export] Instance fn_eq_dec : EqDecision fn.
Proof. solve_decision. Defined.

(** A value of [torch.nn.modules.__dict__] *)
Inductive entry := Cls (is_module : bool) (c : string) | NotAClass.
Definition excluded : list string := ["Module"; "Sequential"; "ModuleDict"; "ModuleList"; "ParameterList"; "ParameterDict"].
(** The guards both loops begin with *)
Definition visited (kv : string * entry) : option string :=
  match kv.2 with
  | Cls true c => if bool_decide (kv.1 ∈ excluded) then None else Some c
  | _ => None
  end.

(** The attributes each class itself has *)
Abbreviation classes := (gmap (string * string) fn).
Section lookup.
Context (mro : string → list string).

(** [getattr(c, a)] *)
Fixpoint first_own (a : string) (order : list string) (env : classes) : option fn :=
  match order with
  | [] => None
  | c :: order => match env !! (c, a) with Some f => Some f | None => first_own a order env end
  end.
Definition class_attr (c a : string) (env : classes) : option fn := first_own a (mro c) env.
Definition get_class_attr (c a : string) : M classes fn :=
  env ← get; match class_attr c a env with Some f => mret f | None => raise AttributeError end.
Definition set_class_attr (c a : string) (f : fn) : M classes unit := modify <[(c, a) := f]>.
(** [del c.a] takes the attribute of the class itself. *)
Definition del_class_attr (c a : string) : M classes unit :=
  env ← get; match env !! (c, a) with Some _ => modify (delete (c, a)) | None => raise AttributeError end.
Definition has_class_attr (c a : string) (env : classes) : bool := bool_decide (is_Some (class_attr c a env)).

(** [c.saved = c.a; c.a = decorator(c.a)] *)
Definition replace_attr (a saved : string) (decorator : fn → fn) (c : string) : M classes unit :=
  old ← get_class_attr c a;
  set_class_attr c saved old;;
  f ← get_class_attr c a;
  set_class_attr c a (decorator f).
(** [if hasattr(c, saved): c.a = c.saved; del c.saved] *)
Definition restore_attr (a saved : string) (c : string) : M classes unit :=
  env ← get;
  when (has_class_attr c saved env) (f ← get_class_attr c saved; set_class_attr c a f;; del_class_attr c saved).

Definition activate_class (c : string) : M classes unit :=
  replace_attr "__init__" "_old_init" empty_param_init_decorator c;;
  env ← get;
  when (has_class_attr c "reset_parameters" env) (replace_attr "reset_parameters" "_old_reset_parameters" do_nothing_decorator c).
Definition deactivate_class (c : string) : M classes unit :=
  restore_attr "__init__" "_old_init" c;; restore_attr "reset_parameters" "_old_reset_parameters" c.
Definition activate_empty_init (modules : list (string * entry)) : M classes unit :=
  for_each (omap visited modules) activate_class.
Definition deactivate_empty_init (modules : list (string * entry)) : M classes unit :=
  for_each (omap visited modules) deactivate_class.

(** ** Looking up *)
Lemma first_own_in a order env f : first_own a order env = Some f → ∃ c, c ∈ order ∧ env !! (c, a) = Some f.
Proof.
  induction order as [|c order IH]; cbn; [done|]. destruct (env !! (c, a)) eqn:E; intros H.
  - simplify_eq. exists c. split; [left|done].
  - destruct (IH H) as (d & ? & ?). exists d. split; [by right|done].
Qed.
Lemma first_own_none a order env : first_own a order env = None ↔ ∀ c, c ∈ order → env !! (c, a) = None.
Proof.
  induction order as [|c order IH]; cbn; [set_solver|]. destruct (env !! (c, a)) eqn:E.
  - split; [done|]. intros H. rewrite (H c) in E; [done|left].
  - rewrite IH. set_solver.
Qed.
Lemma first_own_ext a order env env' : (∀ c, c ∈ order → env' !! (c, a) = env !! (c, a)) → first_own a order env' = first_own a order env.
Proof.
  induction order as [|c order IH]; intros H; cbn; [done|]. rewrite H by left. rewrite IH; [done|]. intros d Hd. apply H. by right.
Qed.

(** Python's order starts with the class and contains the orders of its bases. *)
Context (Hself : ∀ c, ∃ l, mro c = c :: l) (Hclosed : ∀ c d, d ∈ mro c → ∀ e, e ∈ mro d → e ∈ mro c).
Lemma attr_own c a f env : env !! (c, a) = Some f → class_attr c a env = Some f.
Proof. intros H. unfold class_attr. destruct (Hself c) as [l ->]. cbn. by rewrite H. Qed.
Lemma attr_ext c a env env' : (∀ d, d ∈ mro c → env' !! (d, a) = env !! (d, a)) → class_attr c a env' = class_attr c a env.
Proof. apply first_own_ext. Qed.
Lemma attr_none c a env : class_attr c a env = None ↔ ∀ d, d ∈ mro c → env !! (d, a) = None.
Proof. apply first_own_none. Qed.
Lemma mro_self c : c ∈ mro c.
Proof. destruct (Hself c) as [l ->]. left. Qed.

Lemma replace_attr_ok a saved decorator c env f :
  a ≠ saved → class_attr c a env = Some f →
  replace_attr a saved decorator c env = (Ok tt, <[(c, a) := decorator f]> (<[(c, saved) := f]> env)).
Proof.
  intros Hne Hf. unfold replace_attr, get_class_attr, set_class_attr. munfold. rewrite Hf.
  rewrite (attr_ext c a env) by (intros d _; by rewrite lookup_insert_ne by congruence). by rewrite Hf.
Qed.
Lemma restore_attr_ok a saved c env f :
  a ≠ saved → env !! (c, saved) = Some f →
  restore_attr a saved c env = (Ok tt, delete (c, saved) (<[(c, a) := f]> env)).
Proof.
  intros Hne Hf. pose proof (attr_own c saved f env Hf) as Ha. unfold restore_attr, has_class_attr. munfold.
  rewrite bool_decide_eq_true_2 by (rewrite Ha; done). unfold get_class_attr, set_class_attr, del_class_attr. munfold. rewrite Ha. munfold.
  rewrite lookup_insert_ne by congruence. by rewrite Hf.
Qed.
Lemma restore_attr_skip a saved c env : class_attr c saved env = None → restore_attr a saved c env = (Ok tt, env).
Proof. intros H. unfold restore_attr, has_class_attr. munfold. rewrite H. by rewrite bool_decide_eq_false_2 by (intros [? ?]; done). Qed.

(** ** What every class holds in the course of a load *)
Section load.
Context (env0 : classes) (cs : list string).
Context (Hinit : ∀ c, c ∈ cs → is_Some (class_attr c "__init__" env0)).
(** No class is visited twice or after a class it inherits from. *)
Context (Horder : ∀ l c l', cs = l ++ c :: l' → ∀ d, d ∈ l → d ∉ mro c).
(** Nothing of an earlier load is left. *)
Context (Hfresh : ∀ c d a, c ∈ cs → d ∈ mro c → a ∈ ["_old_init"; "_old_reset_parameters"] → env0 !! (d, a) = None).

Definition active (c a : string) : option fn :=
  if decide (a = "__init__") then empty_param_init_decorator <$> class_attr c "__init__" env0
  else if decide (a = "_old_init") then class_attr c "__init__" env0
  else if decide (a = "reset_parameters") then do_nothing_decorator <$> class_attr c "reset_parameters" env0
  else if decide (a = "_old_reset_parameters") then class_attr c "reset_parameters" env0
  else env0 !! (c, a).
Definition restored (c a : string) : option fn :=
  if decide (a = "__init__") then class_attr c "__init__" env0
  else if decide (a = "_old_init") then None
  else if decide (a = "reset_parameters") then class_attr c "reset_parameters" env0
  else if decide (a = "_old_reset_parameters") then None
  else env0 !! (c, a).
Definition state (on off : list string) (env : classes) : Prop :=
  ∀ c a, env !! (c, a) = if decide (c ∈ off) then restored c a else if decide (c ∈ on) then active c a else env0 !! (c, a).

Lemma own_none c a : class_attr c a env0 = None → env0 !! (c, a) = None.
Proof. intros H. by apply (proj1 (attr_none c a env0) H), mro_self. Qed.
Lemma state_on l c env env' :
  state l [] env → (∀ d a, d ≠ c → env' !! (d, a) = env !! (d, a)) → (∀ a, env' !! (c, a) = active c a) → state (l ++ [c]) [] env'.
Proof.
  intros Hst Hother Hc d a. rewrite decide_False by set_solver. destruct (decide (d = c)) as [->|Hd].
  - by rewrite decide_True by set_solver.
  - rewrite Hother, Hst, (decide_False (P := d ∈ [])) by set_solver. repeat case_decide; done || set_solver.
Qed.
Lemma state_off l c env env' :
  state cs l env → (∀ d a, d ≠ c → env' !! (d, a) = env !! (d, a)) → (∀ a, env' !! (c, a) = restored c a) → state cs (l ++ [c]) env'.
Proof.
  intros Hst Hother Hc d a. destruct (decide (d = c)) as [->|Hd]; [by rewrite decide_True by set_solver|].
  rewrite Hother, Hst by done. repeat case_decide; done || set_solver.
Qed.

Lemma activate_class_state l c l' env :
  cs = l ++ c :: l' → state l [] env → ∃ env', activate_class c env = (Ok tt, env') ∧ state (l ++ [c]) [] env'.
Proof.
  intros Hcs Hst. assert (c ∈ cs) as Hc by set_solver. pose proof (Horder l c l' Hcs) as Ho.
  assert (∀ a d, d ∈ mro c → env !! (d, a) = env0 !! (d, a)) as Hown.
  { intros a d Hd. rewrite Hst, !decide_False; [done| |set_solver]. intros ?. by apply (Ho d). }
  assert (∀ a, class_attr c a env = class_attr c a env0) as Hold by (intros a; apply attr_ext, Hown).
  destruct (Hinit c Hc) as [i Hi]. unfold activate_class. munfold. rewrite (replace_attr_ok _ _ _ c env i) by (done || by rewrite Hold).
  set (env1 := <[(c, "__init__") := _]> _).
  assert (∀ a, a ≠ "__init__" → a ≠ "_old_init" → class_attr c a env1 = class_attr c a env0) as H1.
  { intros a ? ?. rewrite <-Hold. apply attr_ext. intros d _. unfold env1. by rewrite !lookup_insert_ne by congruence. }
  unfold has_class_attr. rewrite H1 by done. destruct (class_attr c "reset_parameters" env0) as [r|] eqn:Hr.
  - rewrite bool_decide_eq_true_2 by done. cbn [when]. rewrite (replace_attr_ok _ _ _ c env1 r) by (done || by rewrite H1).
    eexists. split; [reflexivity|]. unfold env1. apply (state_on l c env); [done|intros d a ?; by rewrite !lookup_insert_ne by congruence|].
    intros a. unfold active. rewrite Hi, Hr. repeat (case_decide; [subst; by simplify_map_eq|]).
    rewrite !lookup_insert_ne by congruence. apply Hown, mro_self.
  - rewrite bool_decide_eq_false_2 by (intros [? ?]; done). cbn [when]. eexists. split; [reflexivity|].
    unfold env1. apply (state_on l c env); [done|intros d a ?; by rewrite !lookup_insert_ne by congruence|].
    intros a. unfold active. rewrite Hi, Hr. do 2 (case_decide; [subst; by simplify_map_eq|]).
    rewrite !lookup_insert_ne, Hown by (congruence || apply mro_self).
    case_decide; [subst; by apply own_none|]. case_decide; [subst|done]. apply (Hfresh c c); [done|apply mro_self|set_solver].
Qed.

Lemma deactivate_class_state l c env :
  c ∈ cs → c ∉ l → state cs l env → ∃ env', deactivate_class c env = (Ok tt, env') ∧ state cs (l ++ [c]) env'.
Proof.
  intros Hc Hn Hst. destruct (Hinit c Hc) as [i Hi].
  assert (∀ a, env !! (c, a) = active c a) as Hact by (intros a; by rewrite Hst, decide_False, decide_True by done).
  unfold deactivate_class. munfold. rewrite (restore_attr_ok _ _ c env i) by (done || by rewrite Hact).
  set (env1 := delete _ _). destruct (class_attr c "reset_parameters" env0) as [r|] eqn:Hr.
  - rewrite (restore_attr_ok _ _ c env1 r); [|done|unfold env1; rewrite lookup_delete_ne, lookup_insert_ne, Hact by congruence; exact Hr].
    eexists. split; [reflexivity|]. unfold env1. apply (state_off l c env); [done| |].
    { intros d a ?. by rewrite lookup_delete_ne, lookup_insert_ne, lookup_delete_ne, lookup_insert_ne by congruence. }
    intros a. unfold restored. rewrite Hi, Hr. repeat (case_decide; [subst; by simplify_map_eq|]).
    rewrite lookup_delete_ne, lookup_insert_ne, lookup_delete_ne, lookup_insert_ne, Hact by congruence. unfold active.
    by rewrite !decide_False by done.
  - rewrite restore_attr_skip.
    2: { apply attr_none. intros d Hd. unfold env1. rewrite lookup_delete_ne, lookup_insert_ne, Hst by congruence.
      repeat case_decide; [done| |by apply (Hfresh c d); [..|set_solver]].
      change (class_attr d "reset_parameters" env0 = None). apply attr_none. intros e He. apply (proj1 (attr_none c _ env0) Hr). by apply (Hclosed c d). }
    eexists. split; [reflexivity|]. unfold env1. apply (state_off l c env); [done| |].
    { intros d a ?. by rewrite lookup_delete_ne, lookup_insert_ne by congruence. }
    intros a. unfold restored. rewrite Hi, Hr. do 2 (case_decide; [subst; by simplify_map_eq|]).
    rewrite lookup_delete_ne, lookup_insert_ne, Hact by congruence. unfold active. rewrite Hr.
    rewrite !(decide_False (P := a = "__init__")), !(decide_False (P := a = "_old_init")) by done. repeat case_decide; done.
Qed.
Lemma cs_nodup : NoDup cs.
Proof.
  assert (∀ l l', cs = l ++ l' → NoDup l) as H; [|by apply (H cs []); rewrite app_nil_r].
  induction l as [|c l IH] using rev_ind; intros l' E; [constructor|]. rewrite <-app_assoc in E.
  apply NoDup_app. split; [by apply (IH ([c] ++ l'))|]. split; [|apply NoDup_singleton].
  intros d Hd ->%list_elem_of_singleton. by apply (Horder l c l' E c), mro_self.
Qed.
Lemma activate_all : ∃ env, for_each cs activate_class env0 = (Ok tt, env) ∧ state cs [] env.
Proof.
  assert (∀ l' l env, cs = l ++ l' → state l [] env → ∃ env', for_each l' activate_class env = (Ok tt, env') ∧ state cs [] env') as H.
  { induction l' as [|c l' IH]; intros l env E Hst; [exists env; split; [done|]; by rewrite app_nil_r in E; subst|].
    destruct (activate_class_state l c l' env E Hst) as (env1 & H1 & Hs1).
    destruct (IH (l ++ [c]) env1) as (env2 & H2 & Hs2); [by rewrite <-app_assoc|done|]. exists env2. split; [|done].
    cbn [for_each]. unfold mbind, M_bind. by rewrite H1. }
  apply (H cs [] env0); [done|]. intros c a. by rewrite !decide_False by set_solver.
Qed.
Lemma deactivate_all env : state cs [] env → ∃ env', for_each cs deactivate_class env = (Ok tt, env') ∧ state cs cs env'.
Proof.
  assert (∀ l' l env, cs = l ++ l' → state cs l env → ∃ env', for_each l' deactivate_class env = (Ok tt, env') ∧ state cs cs env') as H.
  { induction l' as [|c l' IH]; intros l env1 E Hst; [exists env1; split; [done|]; rewrite app_nil_r in E; by subst l|].
    pose proof cs_nodup as Hnd. rewrite E in Hnd. apply NoDup_app in Hnd as (_ & Hnd & _).
    destruct (deactivate_class_state l c env1) as (env2 & H1 & Hs1); [rewrite E; set_solver|set_solver|done|].
    destruct (IH (l ++ [c]) env2) as (env3 & H2 & Hs2); [by rewrite <-app_assoc|done|]. exists env3. split; [|done].
    cbn [for_each]. unfold mbind, M_bind. by rewrite H1. }
  by apply (H cs []).
Qed.
Lemma restored_attr env c a : state cs cs env → c ∈ cs → a ∈ ["__init__"; "reset_parameters"] → class_attr c a env = class_attr c a env0.
Proof.
  intros Hst Hc Ha. assert (∀ d, d ∈ cs → env !! (d, a) = class_attr d a env0) as Hown.
  { intros d Hd. rewrite Hst, decide_True by done. unfold restored.
    apply elem_of_cons in Ha as [->|Ha]; [done|]. by apply list_elem_of_singleton in Ha as ->. }
  destruct (class_attr c a env0) as [f|] eqn:E; [by apply attr_own; rewrite Hown|].
  apply attr_none. intros d Hd. destruct (decide (d ∈ cs)) as [Hdc|Hdc].
  - rewrite Hown by done. apply attr_none. intros e He. by apply (proj1 (attr_none c a env0) E), (Hclosed c d).
  - rewrite Hst, !decide_False by done. by apply (proj1 (attr_none c a env0) E).
Qed.
End load.
End lookup.

(** A load: when the dictionary names no class twice and none after a class it inherits from,
    then between the two calls every visited class makes empty parameters and has no effective
    [reset_parameters], and after them both attributes are what they were before. *)
Theorem empty_init_restored (mro : string → list string) (modules : list (string * entry)) (env0 : classes) :
  let cs := omap visited modules in
  (∀ c, ∃ l, mro c = c :: l) → (∀ c d, d ∈ mro c → ∀ e, e ∈ mro d → e ∈ mro c) →
  (∀ c, c ∈ cs → is_Some (class_attr mro c "__init__" env0)) →
  (∀ l c l', cs = l ++ c :: l' → ∀ d, d ∈ l → d ∉ mro c) →
  (∀ c d a, c ∈ cs → d ∈ mro c → a ∈ ["_old_init"; "_old_reset_parameters"] → env0 !! (d, a) = None) →
  ∃ env1 env2,
    activate_empty_init mro modules env0 = (Ok tt, env1) ∧ deactivate_empty_init mro modules env1 = (Ok tt, env2) ∧
    ∀ c, c ∈ cs →
      class_attr mro c "__init__" env1 = empty_param_init_decorator <$> class_attr mro c "__init__" env0 ∧
      (∀ f, class_attr mro c "reset_parameters" env0 = Some f → class_attr mro c "reset_parameters" env1 = Some (do_nothing_decorator f)) ∧
      class_attr mro c "__init__" env2 = class_attr mro c "__init__" env0 ∧
      class_attr mro c "reset_parameters" env2 = class_attr mro c "reset_parameters" env0.
Proof.
  intros cs Hself Hclosed Hinit Horder Hfresh.
  destruct (activate_all mro Hself Hclosed env0 cs Hinit Horder Hfresh) as (env1 & H1 & Hs1).
  destruct (deactivate_all mro Hself Hclosed env0 cs Hinit Horder Hfresh env1 Hs1) as (env2 & H2 & Hs2).
  exists env1, env2. split; [done|]. split; [done|]. intros c Hc.
  assert (∀ a, env1 !! (c, a) = active mro env0 c a) as Hact by (intros a; rewrite Hs1, decide_False, decide_True by set_solver; done).
  destruct (Hinit c Hc) as [i Hi]. split_and!.
  - rewrite Hi. apply attr_own; [done|]. rewrite Hact. unfold active. by rewrite Hi.
  - intros f Hf. apply attr_own; [done|]. rewrite Hact. unfold active. by rewrite Hf.
  - by eapply (restored_attr mro Hself Hclosed env0 cs); [done..|set_solver].
  - by eapply (restored_attr mro Hself Hclosed env0 cs); [done..|set_solver].
Qed.
End EmptyInit.

Module EmptyInitDemo.
Import EmptyInit.
Definition demo_mro (c : string) : list string := if decide (c = "LSTM") then ["LSTM"; "RNNBase"] else [c].
Definition demo_modules : list (string * entry) :=
  [("rnn", NotAClass); ("Module", Cls true "Module"); ("LSTM", Cls true "LSTM"); ("RNNBase", Cls true "RNNBase"); ("ReLU", Cls true "ReLU")].
Definition demo_env : classes :=
  {[ ("LSTM", "__init__") := Plain "LSTM.__init__"; ("RNNBase", "__init__") := Plain "RNNBase.__init__";
     ("RNNBase", "reset_parameters") := Plain "RNNBase.reset_parameters"; ("ReLU", "__init__") := Plain "ReLU.__init__" ]}.
(** The order of the classes, by computation *)
Fixpoint ordered (mro : string → list string) (seen cs : list string) : bool :=
  match cs with
  | [] => true
  | c :: cs => forallb (λ d, negb (bool_decide (d ∈ mro c))) seen && ordered mro (seen ++ [c]) cs
  end.
Lemma ordered_spec mro seen cs :
  ordered mro seen cs = true → ∀ l c l', cs = l ++ c :: l' → ∀ d, d ∈ seen ++ l → d ∉ mro c.
Proof.
  revert seen. induction cs as [|x cs IH]; intros seen H l c l' E d Hd; [by destruct l|].
  cbn [ordered] in H. apply andb_true_iff in H as [Hf H]. destruct l as [|y l]; injection E as -> E.
  - rewrite app_nil_r in Hd. rewrite forallb_forall in Hf. specialize (Hf d). rewrite <-list_elem_of_In in Hf. specialize (Hf Hd).
    by apply negb_true_iff, bool_decide_eq_false in Hf.
  - apply (IH (seen ++ [y]) H l c l' E). by rewrite <-app_assoc.
Qed.
Lemma empty_init_restored_witness :
  ∃ env1 env2,
    activate_empty_init demo_mro demo_modules demo_env = (Ok tt, env1) ∧ deactivate_empty_init demo_mro demo_modules env1 = (Ok tt, env2) ∧
    ∀ c, c ∈ ["LSTM"; "RNNBase"; "ReLU"] →
      class_attr demo_mro c "__init__" env1 = empty_param_init_decorator <$> class_attr demo_mro c "__init__" demo_env ∧
      (∀ f, class_attr demo_mro c "reset_parameters" demo_env = Some f → class_attr demo_mro c "reset_parameters" env1 = Some (do_nothing_decorator f)) ∧
      class_attr demo_mro c "__init__" env2 = class_attr demo_mro c "__init__" demo_env ∧
      class_attr demo_mro c "reset_parameters" env2 = class_attr demo_mro c "reset_parameters" demo_env.
Proof.
  apply (empty_init_restored demo_mro demo_modules demo_env).
  - intros c. unfold demo_mro. case_decide as E; [exists ["RNNBase"]; by rewrite E|by exists []].
  - intros c d. unfold demo_mro. repeat case_decide; subst; set_solver.
  - intros c Hc. change (c ∈ ["LSTM"; "RNNBase"; "ReLU"]) in Hc. repeat (apply elem_of_cons in Hc as [->|Hc]; [eexists; reflexivity|]). set_solver.
  - apply (ordered_spec demo_mro []). reflexivity.
  - intros c d a Hc Hd Ha. change (c ∈ ["LSTM"; "RNNBase"; "ReLU"]) in Hc.
    assert (d ∈ ["LSTM"; "RNNBase"; "ReLU"]) as Hd' by (revert Hd; unfold demo_mro; case_decide; set_solver).
    repeat (apply elem_of_cons in Hd' as [->|Hd']; [repeat (apply elem_of_cons in Ha as [->|Ha]; [reflexivity|]); by apply not_elem_of_nil in Ha|]).
    by apply not_elem_of_nil in Hd'.
Defined.
(** In the other order a class that inherits its initialiser keeps emptying its parameters. *)
Definition base_first : list (string * entry) := [("Base", Cls true "Base"); ("Derived", Cls true "Derived")].
Definition derived_mro (c : string) : list string := if decide (c = "Derived") then ["Derived"; "Base"] else [c].
Example inherited_init_not_restored :
  let env := {[ ("Base", "__init__") := Plain "Base.__init__" ]} : classes in
  let after := ((activate_empty_init derived_mro base_first;; deactivate_empty_init derived_mro base_first) env).2 in
  class_attr derived_mro "Base" "__init__" after = Some (Plain "Base.__init__") ∧
  class_attr derived_mro "Derived" "__init__" after = Some (empty_param_init_decorator (Plain "Base.__init__")).
Proof. split; vm_compute; reflexivity. Qed.
End EmptyInitDemo.

Module Checkpoints.
#[local] Arguments String.append !_ _ : simpl nomatch.
#[local] Instance ckpt_ret : MRet res := λ _ a, Ok a.
#[local] Instance ckpt_bind : MBind res := λ _ _ k r, match r with Ok a => k a | Err e => Err e end.
(** A path: a file with its text, a folder with the names in it, or nothing *)
Inductive node := File (text : string) | Folder (names : list string).
Definition WEIGHTS_NAME : string := "pytorch_model.bin".
Definition SAFE_WEIGHTS_NAME : string := "model.safetensors".
Definition slash : ascii := "/"%char.
(** [os.path.join(a, b)] *)
Definition path_join (a b : string) : string :=
  match b with
  | String c _ => if Ascii.eqb c slash then b else if String.eqb a "" || ends_with "/" a then a +:+ b else a +:+ "/" +:+ b
  | "" => if String.eqb a "" || ends_with "/" a then a else a +:+ "/"
  end.
(** [os.path.split(p)[0]]: up to the last slash, less the slashes at its end unless it is only slashes *)
Fixpoint head_of (s : string) : option string :=
  match s with
  | "" => None
  | String c s' => match head_of s' with Some h => Some (String c h) | None => if Ascii.eqb c slash then Some "/" else None end
  end.
Fixpoint rstrip_slash (s : string) : string :=
  match s with
  | "" => ""
  | String c s' => match rstrip_slash s' with "" => if Ascii.eqb c slash then "" else String c "" | r => String c r end
  end.
Definition dirname (p : string) : string :=
  match head_of p with None => "" | Some h => match rstrip_slash h with "" => h | d => d end end.

(** [index.values()], which must be names for [os.path.join] *)
Definition dict_values (l : list (string * json)) : list json := omap (λ k, obj_get k l) (remove_dups l.*1).
Fixpoint names_of (l : list json) : res (list string) :=
  match l with
  | [] => Ok []
  | JStr s :: l => names ← names_of l; mret (s :: names)
  | _ :: _ => Err TypeError
  end.
Definition index_values (index : json) : res (list json) :=
  match index with
  | JObj l =>
      match obj_get "weight_map" l with
      | None => Ok (dict_values l)
      | Some (JObj w) => Ok (dict_values w)
      | Some _ => Err AttributeError
      end
  (** [in] is defined for these, then [index["weight_map"]] or [index.values()] raises. *)
  | JArr l => Err (if existsb (λ v, match v with JStr s => String.eqb s "weight_map" | _ => false end) l then TypeError else AttributeError)
  | JStr s => Err (match String.index 0 "weight_map" s with Some _ => TypeError | None => AttributeError end)
  | _ => Err TypeError
  end.
Definition read_index (fs : string → option node) (index_filename : string) : res (list string) :=
  let checkpoint_folder := dirname index_filename in
  match fs index_filename with
  | Some (File text) =>
      match loads text with
      | None => Err ValueError
      | Some index =>
          values ← index_values index;
          names ← names_of values;
          mret (path_join checkpoint_folder <$> merge_sort String.le (remove_dups names))
      end
  | _ => Err RuntimeError                      (** [OSError] *)
  end.
Definition get_checkpoint_paths (fs : string → option node) (checkpoint : string) : res (list string) :=
  match fs checkpoint with
  | Some (File _) => if ends_with ".json" checkpoint then read_index fs checkpoint else Ok [checkpoint]
  | Some (Folder names) =>
      match filter (λ f, f = WEIGHTS_NAME) names, filter (λ f, f = SAFE_WEIGHTS_NAME) names with
      | [f], _ => Ok [path_join checkpoint f]
      | _, [f] => Ok [path_join checkpoint f]
      | _, _ =>
          match filter (λ f, ends_with ".index.json" f = true) names with
          | [f] => read_index fs (path_join checkpoint f)
          | _ => Err ValueError
          end
      end
  | None => Err ValueError
  end.

(** ** Paths *)
Definition no_slash (s : string) : Prop := sforall (λ c, Ascii.eqb c slash = false) s.
Lemma head_of_none s : no_slash s → head_of s = None.
Proof. induction s as [|c s IH]; cbn; [done|]. intros [Hc Hs]. by rewrite (IH Hs), Hc. Qed.
Lemma head_of_join a b : no_slash b → head_of (a +:+ String slash b) = Some (a +:+ "/").
Proof. intros Hb. induction a as [|c a IH]; cbn [String.append head_of]; [by rewrite head_of_none, Ascii.eqb_refl|]. by rewrite IH. Qed.
Lemma rstrip_slash_end a c : Ascii.eqb c slash = false → rstrip_slash (a +:+ String c "/") = a +:+ String c "".
Proof. intros Hc. induction a as [|x a IH]; cbn [String.append rstrip_slash]; [by rewrite Ascii.eqb_refl, Hc|]. rewrite IH. by destruct a. Qed.
(** A folder whose name does not end in a slash is what it is in front of a name in it. *)
Lemma dirname_join a c b : Ascii.eqb c slash = false → no_slash b → b ≠ "" → dirname (path_join (a +:+ String c "") b) = a +:+ String c "".
Proof.
  intros Hc Hb Hne. assert (ends_with "/" (a +:+ String c "") = false) as He.
  { induction a as [|x a IH]; cbn [String.append ends_with].
    - change (Ascii.eqb c "/"%char = false) in Hc. cbn [String.eqb]. by rewrite (Ascii.eqb_sym "/"%char c), Hc.
    - rewrite IH, orb_false_r. apply String.eqb_neq. intros E. injection E as _ E. by destruct a. }
  assert (path_join (a +:+ String c "") b = (a +:+ String c "") +:+ String slash b) as ->.
  { destruct b as [|x b]; [done|]. destruct Hb as [Hx _]. cbn [path_join]. rewrite Hx, He. by destruct a. }
  unfold dirname. rewrite head_of_join by done.
  assert ((a +:+ String c "") +:+ "/" = a +:+ String c "/") as -> by apply sapp_assoc. rewrite rstrip_slash_end by done. by destruct a.
Qed.
Lemma names_of_ok l names : l = JStr <$> names → names_of l = Ok names.
Proof. intros ->. induction names as [|x names IH]; cbn; [done|]. by rewrite IH. Qed.
(** What [get_checkpoint_paths] gives for a folder: the whole state dict if there is one, in
    PyTorch's format first; otherwise the files that the only index refers to, each once, in
    alphabetical order and in the folder; and [ValueError] when there is no index or several. *)
Theorem checkpoint_files_exact (fs : string → option node) (a : string) (c : ascii) (names : list string) :
  let checkpoint := a +:+ String c "" in
  Ascii.eqb c slash = false → fs checkpoint = Some (Folder names) → NoDup names → Forall (λ f, no_slash f) names →
  (WEIGHTS_NAME ∈ names → get_checkpoint_paths fs checkpoint = Ok [path_join checkpoint WEIGHTS_NAME]) ∧
  (WEIGHTS_NAME ∉ names → SAFE_WEIGHTS_NAME ∈ names → get_checkpoint_paths fs checkpoint = Ok [path_join checkpoint SAFE_WEIGHTS_NAME]) ∧
  (WEIGHTS_NAME ∉ names → SAFE_WEIGHTS_NAME ∉ names →
    match filter (λ f, ends_with ".index.json" f = true) names with
    | [f] => ∀ text l w shards,
        fs (path_join checkpoint f) = Some (File text) → loads text = Some (JObj l) → obj_get "weight_map" l = Some (JObj w) →
        dict_values w = JStr <$> shards →
        ∃ files, get_checkpoint_paths fs checkpoint = Ok (path_join checkpoint <$> files) ∧
          NoDup files ∧ StronglySorted String.le files ∧ ∀ s, s ∈ files ↔ s ∈ shards
    | _ => get_checkpoint_paths fs checkpoint = Err ValueError
    end).
Proof.
  intros checkpoint Hc Hfs Hnd Hns.
  assert (∀ x, x ∈ names → filter (λ f, f = x) names = [x]) as Hin.
  { intros x Hx. by apply filter_unique. }
  assert (∀ x, x ∉ names → filter (λ f, f = x) names = []) as Hout.
  { intros x Hx. by apply filter_none. }
  unfold get_checkpoint_paths. rewrite Hfs. split_and!.
  - intros H. by rewrite (Hin _ H).
  - intros H H'. by rewrite (Hout _ H), (Hin _ H').
  - intros H H'. rewrite (Hout _ H), (Hout _ H'). destruct (filter _ names) as [|f [|]] eqn:Ef; [done| |done].
    assert (f ∈ names ∧ ends_with ".index.json" f = true) as [Hf He].
    { apply and_comm, (list_elem_of_filter (λ f, ends_with ".index.json" f = true)). rewrite Ef. left. }
    intros text l w shards Ht Hl Hw Hs. unfold read_index. unfold checkpoint. rewrite dirname_join; [|done| |by intros ->].
    2: { by apply (proj1 (Forall_forall _ _) Hns). }
    unfold checkpoint in Ht. rewrite Ht, Hl. cbn [index_values]. rewrite Hw. cbn. rewrite (names_of_ok _ shards) by done. cbn.
    eexists. split; [reflexivity|]. split; [|split].
    + rewrite (merge_sort_Permutation String.le (remove_dups shards)). apply NoDup_remove_dups.
    + apply StronglySorted_merge_sort; apply _.
    + intros s. by rewrite (merge_sort_Permutation String.le (remove_dups shards)), elem_of_remove_dups.
Qed.
End Checkpoints.

Module CheckpointsDemo.
Import Checkpoints.
Definition weights : list (string * json) := [("a", JStr "s2"); ("b", JStr "s1"); ("c", JStr "s2")].
Definition index_object : list (string * json) := [("metadata", JObj []); ("weight_map", JObj weights)].
Definition index_text : string := dumps_with " " (JObj index_object).
Definition demo_fs (p : string) : option node :=
  if decide (p = "model") then Some (Folder ["config.json"; "m.index.json"; "s1"; "s2"])
  else if decide (p = "model/m.index.json") then Some (File index_text) else None.
Example sharded : get_checkpoint_paths demo_fs "model" = Ok ["model/s1"; "model/s2"].
Proof. vm_compute. reflexivity. Qed.
Lemma checkpoint_files_exact_witness :
  (WEIGHTS_NAME ∉ ["config.json"; "m.index.json"; "s1"; "s2"]) ∧
  ∃ files, get_checkpoint_paths demo_fs "model" = Ok (path_join "model" <$> files) ∧
    NoDup files ∧ StronglySorted String.le files ∧ ∀ s, s ∈ files ↔ s ∈ ["s2"; "s1"; "s2"].
Proof.
  assert (∀ n, existsb (String.eqb n) ["config.json"; "m.index.json"; "s1"; "s2"] = false → n ∉ ["config.json"; "m.index.json"; "s1"; "s2"]) as Hn.
  { intros n H Hi. apply not_true_iff_false in H. apply H, existsb_exists. exists n. split; [by apply list_elem_of_In|apply String.eqb_refl]. }
  split; [by apply Hn|].
  destruct (checkpoint_files_exact demo_fs "mode" "l" ["config.json"; "m.index.json"; "s1"; "s2"]) as (_ & _ & H);
    [done|reflexivity|vm_compute; by apply (bool_decide_unpack _)|repeat constructor; done|].
  apply (H (Hn WEIGHTS_NAME eq_refl) (Hn SAFE_WEIGHTS_NAME eq_refl) index_text index_object weights ["s2"; "s1"; "s2"]);
    [reflexivity|vm_compute; reflexivity|reflexivity|reflexivity].
Defined.
End CheckpointsDemo.
