(* ===== verification/EngineSetup.v ===== *)
(** * Building the serving engine
    (serving/engine.py: [ContinuousBatchingEngine.__init__]; entrypoints/openai/api_server_v2.py:
    [_build_engine_config], [_compute_latency_stats] and the status endpoints)

    The server reads the sizes of a model from its configuration under several names and
    hands the engine a dictionary; the engine checks it again, asks the memory manager how
    many blocks of keys and values fit, and builds cache and scheduler.  The model is an
    argument: what its attributes and parameters report. *)
From Stdlib Require Import String Ascii QArith Qround.
From S2P Require Import Prelude PyCollections KVCache KVCacheProps KVCacheSwap Sequence Batch ServingScheduler ServingSchedulerProps ServingTheorems.
From S2P Require Import Sampler Engine HfConfig MemoryManager.
Import Alloc Table Paged.
Open Scope Z_scope.

(** ** What the engine finds out about its model *)
Inductive torch_dtype := float16 | float32 | bfloat16 | other_dtype (size : Z).
Definition element_size (d : torch_dtype) : Z := match d with float32 => 4 | other_dtype n => n | _ => 2 end.
Definition dtype_map (s : string) : option torch_dtype :=
  if bool_decide (s ∈ ["float16"; "half"]%string) then Some float16
  else if bool_decide (s ∈ ["float32"; "float"]%string) then Some float32
  else if bool_decide (s = "bfloat16"%string) then Some bfloat16 else None.
(** [_resolve_dtype]: a [torch.dtype], or a value whose text is looked up *)
Definition resolve_dtype (value : torch_dtype + string) : res torch_dtype :=
  match value with
  | inl d => Ok d
  | inr text => match dtype_map (lower text) with Some d => Ok d | None => Err ValueError end
  end.

Inductive torch_device := cpu | cuda (index : Z).
Definition is_cuda (d : torch_device) : bool := match d with cuda _ => true | cpu => false end.
Definition device_kind (d : torch_device) : Device := if is_cuda d then Cuda else Cpu.
Record model_probe := {
  attr_device : option torch_device;          (** [model.device] when it is one *)
  first_param_device : option torch_device;   (** of the first parameter, when it is a tensor *)
  memory_footprint : option pyval;            (** [get_memory_footprint()], when it exists and returns *)
  parameter_sizes : option (list Z);          (** bytes of the tensors yielded until the end or an exception *)
  buffer_sizes : option (list Z);
  model_eos : pyval }.

Section engine_new.
Context (cuda_available : bool) (device_count : Z).
Definition resolve_engine_device (p : model_probe) : torch_device :=
  match attr_device p with
  | Some (cuda i) => if cuda_available then cuda i else cpu
  | _ =>
      match first_param_device p with
      | Some (cuda i) => if cuda_available then cuda i else cpu
      | _ => if cuda_available then cuda (device_count - 1) else cpu
      end
  end.
(** [int(x)] of a float cuts towards zero. *)
Definition int_of_number (v : pyval) : option Z :=
  match v with
  | PInt z => Some z
  | PBool b => Some (Z.b2z b)
  | PFloat q => Some (Z.quot (Qnum q) (Zpos (Qden q)))
  | _ => None
  end.
Definition resolve_model_memory_bytes (p : model_probe) : Z :=
  match memory_footprint p ≫= int_of_number with
  | Some n => Z.max 0 n
  | None => Z.max 0 (zsum (default [] (parameter_sizes p)) + zsum (default [] (buffer_sizes p)))
  end.

(** The memory of a device, and the product of an integer with a float, cut to an integer *)
Context (mem_total : torch_device → option Z) (scale : Z → Q → Z).
Definition total_memory (d : torch_device) : Z :=
  if is_cuda d && cuda_available then default 0 (mem_total d) else 0.
Definition activation_reserve : Q := 1 # 10.

#[local] Instance res_mret : MRet res := λ _ a, Ok a.
#[local] Instance res_mbind : MBind res := λ _ _ k r, match r with Ok a => k a | Err e => Err e end.

(** ** [ContinuousBatchingEngine.__init__] *)
Context {V : Type} (zero : V).
Record built := { bu_engine : Engine V; bu_eos : option Z; bu_device : torch_device; bu_dtype : torch_dtype; bu_memory : Budget.MemoryManager }.
(** [dtype_entry] is [config["dtype"]]. *)
Definition engine_new (p : model_probe) (c : config) (dtype_entry : option (torch_dtype + string)) : res built :=
  let device := resolve_engine_device p in
  d ← match dtype_entry with None => Err KeyError | Some v => resolve_dtype v end;
  let eos := resolve_eos_token_id c (model_eos p) in
  dr ← get_float_config c "device_memory_ratio" (3 # 4);
  kr ← get_float_config c "kv_cache_ratio" (1 # 4);
  mm ← Budget.mm_init (total_memory device) dr kr activation_reserve;
  let '(r, mm) := Budget.compute_budget (resolve_model_memory_bytes p) mm in
  _ ← r;
  block_size ← get_int_config c "block_size" None;
  num_layers ← get_int_config c "num_layers" None;
  num_kv_heads ← get_int_config c "num_kv_heads" None;
  head_dim ← get_int_config c "head_dim" None;
  let '(max_blocks, mm) :=
    match default PNone (c !! "num_kv_blocks"%string) with
    | PNone => Budget.get_max_kv_blocks scale block_size num_layers num_kv_heads head_dim (element_size d) mm
    | _ => (Ok 0, mm)
    end in
  max_blocks ← max_blocks;
  num_blocks ← resolve_num_blocks c block_size max_blocks;
  kv ← kv_init zero cuda_available num_blocks block_size num_layers num_kv_heads head_dim (Some (device_kind device));
  batch ← get_int_config c "max_batch_size" (Some 32);
  tokens ← get_int_config c "max_tokens_per_step" (Some 2048);
  s ← sched_init kv batch tokens;
  mret {| bu_engine := eng_init s; bu_eos := eos; bu_device := device; bu_dtype := d; bu_memory := mm |}.
End engine_new.

(** ** The server's side *)
(** Attributes of a transformers configuration; [torch_dtype_text] is [str(config.torch_dtype)]. *)
Record model_config := { cfg_attr : string → pyval; eos_list : option (list pyval); torch_dtype_text : option string }.
Record server_args := { arg_device_memory_ratio : Q; arg_kv_cache_ratio : Q; arg_max_batch_size : Z; arg_enable_prefix_caching : bool }.

(** The first name whose value is an [int]; a [bool] is one and stays a [bool]. *)
Fixpoint resolve_int_attr (c : model_config) (names : list string) : option pyval :=
  match names with
  | [] => None
  | n :: names => match as_int (cfg_attr c n) with Some _ => Some (cfg_attr c n) | None => resolve_int_attr c names end
  end.
(** [s.replace("torch.", "")] *)
Fixpoint drop_torch (fuel : nat) (s : string) : string :=
  match fuel, s with
  | S fuel, String ch rest =>
      if String.prefix "torch." s then drop_torch fuel (substring 6 (String.length s) s) else String ch (drop_torch fuel rest)
  | _, _ => s
  end.
Definition resolve_dtype_name (c : model_config) : string :=
  match torch_dtype_text c with Some s => drop_torch (String.length s) s | None => "float16" end.
Definition int_value (v : pyval) : Z := default 0 (as_int v).

Local Open Scope string_scope.
Definition resolve_eos (c : model_config) : option pyval :=
  match resolve_int_attr c ["eos_token_id"] with
  | Some v => Some v
  | None => match eos_list c with Some (v :: _) => match as_int v with Some _ => Some v | None => None end | _ => None end
  end.
(** [_build_engine_config], without the entry for the dtype *)
Definition build_engine_config (args : server_args) (model_cfg : option model_config) : res (config * string) :=
  match model_cfg with
  | None => Err RuntimeError
  | Some c =>
      let num_layers := resolve_int_attr c ["num_hidden_layers"; "num_layers"; "n_layer"] in
      let num_attention_heads := resolve_int_attr c ["num_attention_heads"; "n_head"] in
      let num_kv_heads := resolve_int_attr c ["num_key_value_heads"; "num_kv_heads"; "n_head_kv"] in
      let hidden_size := resolve_int_attr c ["hidden_size"; "n_embd"] in
      let max_seq_length := resolve_int_attr c
        ["max_position_embeddings"; "max_seq_len"; "max_sequence_length"; "n_positions"; "model_max_length"] in
      let head_dim := resolve_int_attr c ["head_dim"] in
      match num_layers, num_attention_heads with
      | None, _ | _, None => Err RuntimeError
      | Some layers, Some heads =>
          let kv_heads := default heads num_kv_heads in
          match head_dim, hidden_size with
          | None, None => Err RuntimeError
          | _, _ =>
              let dim := match head_dim with
                         | Some d => d
                         | None => PInt (int_value (default PNone hidden_size) / Z.max 1 (int_value heads)) end in
              let max_seq := match max_seq_length with
                             | Some v => if (int_value v =? 0)%Z then PInt 4096 else v
                             | None => PInt 4096 end in
              let base : config := list_to_map
                [("device_memory_ratio", PFloat (arg_device_memory_ratio args)); ("kv_cache_ratio", PFloat (arg_kv_cache_ratio args));
                 ("max_batch_size", PInt (arg_max_batch_size args)); ("max_tokens_per_step", PInt 2048); ("max_seq_length", max_seq);
                 ("block_size", PInt 16); ("num_layers", layers); ("num_kv_heads", kv_heads); ("head_dim", dim)] in
              let base := match resolve_eos c with Some v => <["eos_token_id" := v]> base | None => base end in
              let base := if arg_enable_prefix_caching args then <["enable_prefix_caching" := PBool true]> base else base in
              Ok (base, resolve_dtype_name c)
          end
      end
  end.
Close Scope string_scope.

(** ** Latencies of the context pilot *)
Fixpoint insert_sorted (x : Q) (l : list Q) : list Q :=
  match l with [] => [x] | y :: l' => if Qle_bool x y then x :: l else y :: insert_sorted x l' end.
Definition sorted_latencies (l : list Q) : list Q := foldr insert_sorted [] l.
Definition qsum (l : list Q) : Q := foldl Qplus 0%Q l.
(** [max(0, math.ceil(0.99 * n) - 1)] *)
Definition p99_index (n : nat) : nat := Z.to_nat (Z.max 0 (Qceiling ((99 # 100) * inject_Z (Z.of_nat n)) - 1)).
Definition compute_latency_stats (latencies : list Q) : Q * Q :=
  match latencies with
  | [] => (0%Q, 0%Q)
  | _ => ((qsum latencies / inject_Z (zlen latencies))%Q, nth (p99_index (length latencies)) (sorted_latencies latencies) 0%Q)
  end.

(** ** Looking up what the server wrote *)
Section built_config.
Local Open Scope string_scope.
Lemma built_entries args c cfg name :
  build_engine_config args (Some c) = Ok (cfg, name) →
  name = resolve_dtype_name c ∧
  cfg !! "device_memory_ratio" = Some (PFloat (arg_device_memory_ratio args)) ∧ cfg !! "kv_cache_ratio" = Some (PFloat (arg_kv_cache_ratio args)) ∧
  cfg !! "max_batch_size" = Some (PInt (arg_max_batch_size args)) ∧ cfg !! "max_tokens_per_step" = Some (PInt 2048) ∧
  cfg !! "block_size" = Some (PInt 16) ∧ cfg !! "num_kv_blocks" = None.
Proof.
  unfold build_engine_config. cbv zeta.
  intros H. repeat case_match; try done; injection H as <- <-; (split; [done|]);
    cbn [list_to_map foldr]; repeat (rewrite lookup_insert_ne by done || rewrite lookup_insert_eq); done.
Qed.
End built_config.

(** ** The engine that the server builds *)
Section server_engine.
Context {V : Type} (zero : V) (cuda_available : bool) (device_count : Z) (mem_total : torch_device → option Z) (scale : Z → Q → Z).
Context (Hmem : ∀ d n, mem_total d = Some n → 0 ≤ n).
Lemma total_memory_nonneg d : 0 ≤ total_memory cuda_available mem_total d.
Proof. unfold total_memory. destruct (_ && _); [|done]. destruct (mem_total d) eqn:E; cbn; [by eapply Hmem|done]. Qed.
Lemma memory_bytes_nonneg p : 0 ≤ resolve_model_memory_bytes p.
Proof. unfold resolve_model_memory_bytes. destruct (_ ≫= _); lia. Qed.

(** A new memory manager and its first budget *)
Lemma first_budget total dr kr model :
  0 ≤ total → 0 ≤ model → unit_interval dr = true → unit_interval kr = true →
  ∃ bud, Budget.mm_init total dr kr activation_reserve = Ok (Budget.mkMM total dr kr activation_reserve None) ∧
    Budget.compute_budget model (Budget.mkMM total dr kr activation_reserve None) = (Ok bud, Budget.mkMM total dr kr activation_reserve (Some bud)) ∧
    Budget.total_gpu_memory_bytes bud = total ∧ Budget.activation_reserve_ratio bud = activation_reserve.
Proof.
  intros Ht Hm Hd Hk. assert (Budget.mm_init total dr kr activation_reserve = Ok (Budget.mkMM total dr kr activation_reserve None)) as Hi.
  { unfold Budget.mm_init. by rewrite Hd, Hk. }
  destruct (Budget.compute_budget_total total _ _ _ _ model Ht Hm Hi) as [bud Hbud]. exists bud. split; [done|].
  revert Hbud. unfold Budget.compute_budget. munfold. rewrite (proj2 (Z.ltb_ge _ _) Hm). cbn [Budget.mm_total Budget.mm_activation_ratio].
  destruct (Budget.budget_post_init _) as [b1|] eqn:Hb1; [|done]. apply Budget.budget_post_init_ok in Hb1 as ->. by intros [= <-].
Qed.
Lemma fitting_blocks nl nh hd es mm bud :
  0 < nl → 0 < nh → 0 < hd → 0 < es → Budget.last_budget mm = Some bud →
  Budget.get_max_kv_blocks scale 16 nl nh hd es mm = (Ok (Budget.kv_cache_bytes scale bud / Budget.kv_bytes_per_block 16 nl nh hd es), mm).
Proof.
  intros Pl Ph Pd Pe Hlast. unfold Budget.get_max_kv_blocks, Budget.current_budget. munfold. cbn [existsb].
  rewrite !(proj2 (Z.leb_gt _ _)) by lia. cbn [orb]. rewrite Hlast.
  assert (0 < Budget.kv_bytes_per_block 16 nl nh hd es) as Hp by (unfold Budget.kv_bytes_per_block; nia).
  rewrite (proj2 (Z.leb_gt _ _) Hp), Z.max_r; [done|]. apply Z.div_pos; [|done]. by destruct (Budget.budget_parts scale bud) as (_ & ? & _).
Qed.

(** The engine that the server builds.  When the sizes of the model are positive integers
    under any of their names, its dtype is one of the three supported ones and the arguments
    are in range, the constructor succeeds on the dictionary the server wrote: the scheduler
    is in an initial state with the given limits, and the cache has as many blocks as the
    memory budget allows, which together with model, reserve and experts fit the device --
    or, when the budget allows none, the 128 blocks of one full step regardless. *)
Theorem server_engine_built args c cfg name p d nl nh hd :
  build_engine_config args (Some c) = Ok (cfg, name) → dtype_map (lower name) = Some d →
  cfg !! "num_layers"%string = Some (PInt nl) → cfg !! "num_kv_heads"%string = Some (PInt nh) → cfg !! "head_dim"%string = Some (PInt hd) →
  0 < nl → 0 < nh → 0 < hd → 0 < element_size d →
  unit_interval (arg_device_memory_ratio args) = true → unit_interval (arg_kv_cache_ratio args) = true → 0 < arg_max_batch_size args →
  ∃ b bud, engine_new cuda_available device_count mem_total scale zero p cfg (Some (inr name)) = Ok b ∧
    reachable (sched (bu_engine b)) ∧ max_batch_size (sched (bu_engine b)) = arg_max_batch_size args ∧
    Budget.last_budget (bu_memory b) = Some bud ∧
    let per_block := Budget.kv_bytes_per_block 16 nl nh hd (element_size d) in
    let fitting := Budget.kv_cache_bytes scale bud / per_block in
    let blocks := ba_num_blocks (block_allocator (kv (sched (bu_engine b)))) in
    let total := total_memory cuda_available mem_total (bu_device b) in
    let base := Budget.model_memory_bytes bud + scale total activation_reserve in
    (0 < fitting → blocks = fitting ∧ (base ≤ total → base + Budget.expert_cache_bytes scale bud + blocks * per_block ≤ total)) ∧
    (fitting = 0 → blocks = 128).
Proof.
  intros Hb Hd Hl Hh Hdim Pl Ph Pd Pe Hdr Hkr Hbatch. destruct (built_entries args c cfg name Hb) as (_ & E1 & E2 & E3 & E4 & E5 & E6).
  unfold engine_new, res_mbind, mbind. cbn [resolve_dtype]. rewrite Hd.
  assert (get_float_config cfg "device_memory_ratio" (3 # 4) = Ok (arg_device_memory_ratio args)) as -> by (unfold get_float_config; by rewrite E1).
  assert (get_float_config cfg "kv_cache_ratio" (1 # 4) = Ok (arg_kv_cache_ratio args)) as -> by (unfold get_float_config; by rewrite E2).
  set (dev := resolve_engine_device _ _ p). set (total := total_memory cuda_available mem_total dev).
  destruct (first_budget total _ _ _ (total_memory_nonneg dev) (memory_bytes_nonneg p) Hdr Hkr) as (bud & -> & Hcb & Htot & Hres). rewrite Hcb.
  assert (∀ key dflt v, cfg !! key = Some (PInt v) → get_int_config cfg key dflt = Ok v) as Hint.
  { intros key [dflt|] v E; unfold get_int_config; by rewrite E. }
  rewrite (Hint _ _ _ E5), (Hint _ _ _ Hl), (Hint _ _ _ Hh), (Hint _ _ _ Hdim), E6. cbn [default from_option].
  rewrite (fitting_blocks nl nh hd (element_size d) _ bud) by done. set (per := Budget.kv_bytes_per_block 16 nl nh hd (element_size d)). set (n := Budget.kv_cache_bytes scale bud / per).
  assert (resolve_num_blocks cfg 16 n = Ok (if 0 <? n then n else 128)) as ->.
  { unfold resolve_num_blocks, fallback_num_blocks. rewrite E6, (Hint _ _ _ E4). cbn [default from_option]. by destruct (0 <? n). }
  assert (0 < per) as Hper by (unfold per, Budget.kv_bytes_per_block; nia).
  assert (0 < (if 0 <? n then n else 128)) as Hpos by (destruct (Z.ltb_spec 0 n); lia).
  destruct (kv_init zero cuda_available (if 0 <? n then n else 128) 16 nl nh hd (Some (device_kind dev))) as [kvc|] eqn:Hkv.
  2: { revert Hkv. unfold kv_init, ba_init. rewrite !(proj2 (Z.leb_gt _ _)) by lia. done. }
  rewrite (Hint _ _ _ E3), (Hint _ _ _ E4).
  destruct (sched_init kvc (arg_max_batch_size args) 2048) as [s|] eqn:Hs.
  2: { unfold sched_init in Hs. rewrite !(proj2 (Z.leb_gt _ _)) in Hs by lia. done. }
  eexists _, bud. split; [reflexivity|]. cbn [bu_engine bu_memory bu_device eng_init sched].
  assert (kv s = kvc ∧ max_batch_size s = arg_max_batch_size args) as [Hk Hm].
  { unfold sched_init in Hs. rewrite !(proj2 (Z.leb_gt _ _)) in Hs by lia. by injection Hs as <-. }
  split; [|split; [done|split; [done|]]].
  - eexists zero, cuda_available, _, 16, nl, nh, hd, _, _, _, kvc, s. split; [exact Hkv|]. split; [exact Hs|]. apply rtc_refl.
  - cbv zeta. fold per n total. rewrite Hk, (kv_init_num_blocks _ _ _ _ _ _ _ _ _ Hkv). split.
    + intros Hn. rewrite (proj2 (Z.ltb_lt _ _) Hn). split; [done|]. intros Hfit.
      pose proof (Budget.budget_parts scale bud) as (He & Hkb & Hsum). pose proof (Z.mul_div_le (Budget.kv_cache_bytes scale bud) _ Hper) as Hle.
      fold n in Hle. unfold Budget.available_bytes in Hsum. rewrite Htot, Hres in Hsum. unfold total in *. lia.
    + intros Hn. by rewrite Hn.
Qed.
End server_engine.

(** ** The 99th percentile *)
Lemma insert_sorted_perm x l : insert_sorted x l ≡ₚ x :: l.
Proof. induction l as [|y l IH]; cbn; [done|]. destruct (Qle_bool x y); [done|]. rewrite IH. apply Permutation_swap. Qed.
Lemma sorted_latencies_perm l : sorted_latencies l ≡ₚ l.
Proof. induction l as [|x l IH]; cbn; [done|]. by rewrite insert_sorted_perm, IH. Qed.
Lemma insert_sorted_sorted x l : StronglySorted Qle l → StronglySorted Qle (insert_sorted x l).
Proof.
  induction 1 as [|y l Hl IH Hy]; cbn; [repeat constructor|]. destruct (Qle_bool x y) eqn:E.
  - apply Qle_bool_iff in E. constructor; [by constructor|]. constructor; [done|]. eapply Forall_impl; [exact Hy|]. intros z Hz. by eapply Qle_trans.
  - constructor; [done|]. rewrite insert_sorted_perm. constructor; [|done].
    destruct (Qlt_le_dec y x) as [H|H]; [by apply Qlt_le_weak|]. apply Qle_bool_iff in H. congruence.
Qed.
Lemma sorted_latencies_sorted l : StronglySorted Qle (sorted_latencies l).
Proof. induction l as [|x l IH]; cbn; [constructor|by apply insert_sorted_sorted]. Qed.
(** The rounded index *)
Lemma p99_index_spec n : (0 < n)%nat → (p99_index n < n)%nat ∧ (99 * n ≤ 100 * S (p99_index n))%nat ∧ (100 * p99_index n < 99 * n)%nat.
Proof.
  intros Hn. unfold p99_index. set (q := ((99 # 100) * inject_Z (Z.of_nat n))%Q).
  pose proof (Qle_ceiling q) as H1. pose proof (Qceiling_lt q) as H2. set (k := Qceiling q) in *.
  unfold q, Qle, Qlt in H1, H2. cbn in H1, H2. lia.
Qed.
(** How many latencies are at most [x] *)
Definition at_most (x : Q) (l : list Q) : nat := length (filter (λ y, Qle_bool y x = true) l).
Lemma at_most_perm x l l' : l ≡ₚ l' → at_most x l = at_most x l'.
Proof. intros H. unfold at_most. by rewrite H. Qed.
Lemma at_most_sorted l i x :
  StronglySorted Qle l → l !! i = Some x → (S i ≤ at_most x l)%nat.
Proof.
  intros Hl. revert i. induction Hl as [|y l Hl IH Hy]; intros i Hi; [done|]. unfold at_most. rewrite filter_cons. destruct i as [|i].
  - injection Hi as ->. rewrite decide_True by (apply Qle_bool_iff, Qle_refl). cbn. lia.
  - rewrite Forall_forall in Hy. rewrite decide_True by (apply Qle_bool_iff, Hy, list_elem_of_lookup; by exists i). specialize (IH i Hi). cbn. unfold at_most in IH. lia.
Qed.
Lemma at_most_below l i x y :
  StronglySorted Qle l → l !! i = Some x → (y < x)%Q → (at_most y l ≤ i)%nat.
Proof.
  intros Hl. revert i. induction Hl as [|z l Hl IH Hz]; intros i Hi Hy; [done|]. unfold at_most. rewrite filter_cons. destruct i as [|i].
  - injection Hi as ->. rewrite decide_False by (rewrite Qle_bool_iff; intros H; by apply (Qlt_not_le _ _ Hy)).
    cut (filter (λ w, Qle_bool w y = true) l = []); [intros ->; done|]. clear -Hz Hy.
    induction Hz as [|w l Hw _ IH]; [done|]. rewrite filter_cons, decide_False; [exact IH|]. rewrite Qle_bool_iff. intros H.
    apply (Qlt_not_le _ _ Hy). by eapply Qle_trans.
  - specialize (IH i Hi Hy). unfold at_most in IH. case_decide; cbn; lia.
Qed.

(** The reported 99th percentile is one: it is the least latency that at least 99 of 100
    recorded ones do not exceed. *)
Theorem p99_latency_exact l :
  l ≠ [] →
  let p := (compute_latency_stats l).2 in
  p ∈ l ∧ (99 * length l ≤ 100 * at_most p l)%nat ∧ ∀ y, (y < p)%Q → (100 * at_most y l < 99 * length l)%nat.
Proof.
  intros Hl. assert (compute_latency_stats l = ((qsum l / inject_Z (zlen l))%Q, nth (p99_index (length l)) (sorted_latencies l) 0%Q)) as -> by (by destruct l).
  cbn [snd]. assert (0 < length l)%nat as Hn by (destruct l; [done|cbn; lia]). destruct (p99_index_spec _ Hn) as (H1 & H2 & H3).
  set (i := p99_index (length l)) in *. destruct (lookup_lt_is_Some_2 (sorted_latencies l) i) as [x Hx]; [by rewrite sorted_latencies_perm|].
  rewrite (nth_lookup_Some _ _ _ _ Hx). pose proof (sorted_latencies_sorted l) as Hs. split_and!.
  - rewrite <- (sorted_latencies_perm l). by eapply list_elem_of_lookup_2.
  - rewrite (at_most_perm x l _ (symmetry (sorted_latencies_perm l))). pose proof (at_most_sorted _ _ _ Hs Hx). lia.
  - intros y Hy. rewrite (at_most_perm y l _ (symmetry (sorted_latencies_perm l))). pose proof (at_most_below _ _ _ _ Hs Hx Hy). lia.
Qed.

(** ** A small model on a device of one megabyte *)
Module EngineSetupDemo.
Definition attrs (n : string) : pyval :=
  match n with
  | "n_layer" => PInt 2 | "num_attention_heads" => PInt 8 | "num_key_value_heads" => PInt 4 | "hidden_size" => PInt 64
  | "eos_token_id" => PInt 7 | _ => PNone
  end%string.
Definition cfg : model_config := {| cfg_attr := attrs; eos_list := None; torch_dtype_text := Some "torch.bfloat16"%string |}.
Definition args : server_args :=
  {| arg_device_memory_ratio := 3 # 4; arg_kv_cache_ratio := 1 # 4; arg_max_batch_size := 4; arg_enable_prefix_caching := true |}.
Definition probe : model_probe :=
  {| attr_device := Some cpu; first_param_device := None; memory_footprint := Some (PFloat (100001 # 2)); parameter_sizes := None;
     buffer_sizes := None; model_eos := PNone |}.
Definition memory (d : torch_device) : option Z := Some 1000000.
Definition cut (n : Z) (r : Q) : Z := Qfloor (inject_Z n * r).
Lemma memory_ok d n : memory d = Some n → 0 ≤ n.
Proof. intros [= <-]. done. Qed.
Definition written (r : res (config * string)) : config * string := match r with Ok p => p | Err _ => (∅, ""%string) end.
Definition succeeds {A} (r : res A) : bool := match r with Ok _ => true | Err _ => false end.
Lemma server_engine_built_witness :
  ∃ c b, build_engine_config args (Some cfg) = Ok (c, "bfloat16"%string) ∧
    engine_new true 1 memory cut 0 probe c (Some (inr "bfloat16"%string)) = Ok b ∧ reachable (sched (bu_engine b)) ∧
    max_batch_size (sched (bu_engine b)) = 4.
Proof.
  assert (succeeds (build_engine_config args (Some cfg)) = true) as Hok by (vm_compute; reflexivity).
  destruct (build_engine_config args (Some cfg)) as [[c name]|] eqn:E; [clear Hok|discriminate Hok].
  assert (∀ P : config * string → Prop, P (written (build_engine_config args (Some cfg))) → P (c, name)) as Hw by (intros P; by rewrite E).
  assert (name = "bfloat16"%string) as -> by (apply (Hw (λ x, x.2 = _)); vm_compute; reflexivity).
  destruct (server_engine_built 0 true 1 memory cut memory_ok args cfg c "bfloat16" probe bfloat16 2 4 8 E) as (b & bud & Hb & Hr & Hm & _);
    [vm_compute; reflexivity|apply (Hw (λ x, x.1 !! _ = _)); vm_compute; reflexivity|apply (Hw (λ x, x.1 !! _ = _)); vm_compute; reflexivity
    |apply (Hw (λ x, x.1 !! _ = _)); vm_compute; reflexivity|lia|lia|lia|reflexivity|reflexivity|reflexivity|reflexivity|].
  exists c, b. split; [reflexivity|]. split; [exact Hb|]. split; [exact Hr|exact Hm].
Defined.
Lemma p99_latency_exact_witness : (compute_latency_stats [3 # 1; 1 # 1; 2 # 1]%Q).2 ∈ [3 # 1; 1 # 1; 2 # 1]%Q.
Proof. apply (p99_latency_exact [3 # 1; 1 # 1; 2 # 1]%Q). discriminate. Defined.
Example small_latencies : compute_latency_stats [3 # 1; 1 # 1; 2 # 1]%Q = ((6 # 3)%Q, (3 # 1)%Q).
Proof. reflexivity. Qed.
End EngineSetupDemo.
