(* ===== verification/ModelLoading.v ===== *)
(** * Loading a model through an offload directory
    (runtime/model_offload.py: [OffloadEngine.init], [archer_from_pretrained],
    [_offload_state_dict], [_apply_quantized_model_conversion], [_convert_model_for_awq];
    core/aio/archer_tensor_handle.cpp: the constructor and [StoreTensor])

    The first load of a model casts the tensors of its checkpoint files, gives each a number
    and hands it to the engine, which appends its bytes to the parameter files of the
    directory and rewrites the index after every tensor; then the map from names to numbers
    and a signature are written.  Later loads read the map.  A load that was interrupted
    leaves the index without the map and is repeated; the engine then appends from the start
    of the first file again. *)
From Stdlib Require Import String Ascii.
From Stdlib.Init Require Import Byte.
From S2P Require Import Prelude PyCollections Json HfConfig Quantization ModelTopology LoadingSupport OffloadEngine.
Import OrderedDict Signature.
Open Scope Z_scope.

(** ** Conversion of quantised models *)
Section conversion.
Context {model : Type}.
(** A function that may be missing; it may return [None] *)
Definition replacer : Type := option (model → option model).
Record awq_package := { awq_replace_linear_modules : replacer;
                        auto_replace : option (replacer * replacer);    (** [AutoAWQForCausalLM] *)
                        awq_linear : option (replacer * replacer) }.    (** [awq.modules.linear] *)
Definition or_same (m : model) (r : option model) : model := default m r.
(** The first of two functions that exists *)
Definition first_of (fs : replacer * replacer) (m : model) : option model :=
  match fs with
  | (Some f, _) => Some (or_same m (f m))
  | (None, Some f) => Some (or_same m (f m))
  | (None, None) => None
  end.
Definition convert_model_for_awq (awq : option awq_package) (m : model) : res model :=
  match awq with
  | None => Err ImportError
  | Some p =>
      match awq_replace_linear_modules p with
      | Some f => Ok (or_same m (f m))
      | None =>
          match auto_replace p ≫= λ fs, first_of fs m with
          | Some m' => Ok m'
          | None => Ok (default m (awq_linear p ≫= λ fs, first_of fs m))
          end
      end
  end.
(** [setdefault] and the two assignments *)
Definition gptq_config (q : quant_attr) (info : QuantizationInfo) : list (string * json) :=
  let d := match q with QDict d => d | _ => config_dict info end in
  let d := if od_mem "quant_method"%string d then d else od_set "quant_method"%string (JStr "gptq") d in
  od_set "disable_exllama"%string (JBool true) (od_set "use_exllama"%string (JBool false) d).
Definition apply_quantized_model_conversion (optimum : option (list (string * json) → model → model)) (awq : option awq_package)
    (q : quant_attr) (quant_info : option QuantizationInfo) (m : model) : res model :=
  match quant_info with
  | None => Ok m
  | Some info =>
      if String.eqb (method info) "gptq"
      then match optimum with Some convert => Ok (convert (gptq_config q info) m) | None => Err ImportError end
      else if String.eqb (method info) "awq" then convert_model_for_awq awq m
      else Ok m
  end.
End conversion.
Arguments awq_package : clear implicits.

(** ** The directory and the engine *)
(** The contents of a tensor in memory *)
Class Bytes (T : Type) := tensor_bytes : T → list byte.
Definition nbytes `{Bytes T} (t : T) : Z := zlen (tensor_bytes t).

(** An entry of the index; the shape and the element type that it records as well are left
    out, and numbers of files are unbounded. *)
Record TensorStorageMeta := { m_file_id : Z; m_offset : Z; m_size : Z }.
(** The bytes of the files [archer_param_<id>] *)
Definition param_files : Type := Z → Z → option byte.

Definition kAioAlignment : Z := 4096.
Definition kPartitionSize : Z := 10 * 1024 * 1024 * 1024.
Definition align (n : Z) : Z := Z.land (n + kAioAlignment - 1) (Z.lnot (kAioAlignment - 1)).
(** [Write]: the bytes, then zeros up to the next multiple of the alignment *)
Definition aio_write (file offset : Z) (bytes : list byte) (files : param_files) : param_files := λ f p,
  if (f =? file) && (offset <=? p) && (p <? offset + align (zlen bytes))
  then Some (default "000"%byte (bytes !! Z.to_nat (p - offset))) else files f p.
(** [Read] *)
Definition aio_read (file offset size : Z) (files : param_files) : list (option byte) :=
  map (λ j, files file (offset + Z.of_nat j)) (seq 0 (Z.to_nat size)).

(** The files of an offload directory.  The index names the stored tensors; it is missing
    until a tensor is stored. *)
Record Directory := {
  archer_index : option (gmap Z TensorStorageMeta);
  archer_param : param_files;
  name_id_map_json : option (list (string * Z));
  model_signature : sig_file }.
Record Loader := {
  dir : Directory;
  is_serialized : bool;               (** [is_tensor_index_initialized()] *)
  tensor_index : gmap Z TensorStorageMeta;
  file_id : Z;                        (** where the engine stores the next tensor *)
  file_offset : Z;
  next_param_id : Z;
  name_id_map : list (string * Z) }.
(** A new process: [init] and the constructor of the engine, which reads the index and starts
    at the beginning of file 0 in any case *)
Definition init (d : Directory) : Loader :=
  {| dir := d; is_serialized := bool_decide (is_Some (archer_index d)); tensor_index := default ∅ (archer_index d);
     file_id := 0; file_offset := 0; next_param_id := 0; name_id_map := [] |}.

Definition set_map (m : list (string * Z)) (s : Loader) : Loader :=
  {| dir := dir s; is_serialized := is_serialized s; tensor_index := tensor_index s; file_id := file_id s; file_offset := file_offset s;
     next_param_id := next_param_id s; name_id_map := m |}.
Definition set_dir (d : Directory) (s : Loader) : Loader :=
  {| dir := d; is_serialized := is_serialized s; tensor_index := tensor_index s; file_id := file_id s; file_offset := file_offset s;
     next_param_id := next_param_id s; name_id_map := name_id_map s |}.
Definition new_param_id : M Loader Z :=
  s ← get;
  modify (λ s, {| dir := dir s; is_serialized := is_serialized s; tensor_index := tensor_index s; file_id := file_id s;
                  file_offset := file_offset s; next_param_id := next_param_id s + 1; name_id_map := name_id_map s |});;
  mret (next_param_id s).

(** [StoreTensor]: a tensor that the index has keeps its place; another one goes to the end of
    the current file, or to the start of the next when the current one is full. *)
Definition store_place (s : Loader) (id size : Z) : TensorStorageMeta * (Z * Z) :=
  match tensor_index s !! id with
  | Some m => (m, (file_id s, file_offset s))
  | None =>
      let '(file, offset) := if kPartitionSize <? file_offset s + align size then (file_id s + 1, 0) else (file_id s, file_offset s) in
      ({| m_file_id := file; m_offset := offset; m_size := size |}, (file, offset + align size))
  end.
(** [archer_engine.offload]: store the tensor, write the index *)
Definition engine_offload `{Bytes T} (id : Z) (t : T) : M Loader unit :=
  modify (λ s,
    let '(m, (file, offset)) := store_place s id (nbytes t) in
    let index := match tensor_index s !! id with Some _ => tensor_index s | None => <[id := m]> (tensor_index s) end in
    {| dir := {| archer_index := Some index; archer_param := aio_write (m_file_id m) (m_offset m) (tensor_bytes t) (archer_param (dir s));
                 name_id_map_json := name_id_map_json (dir s); model_signature := model_signature (dir s) |};
       is_serialized := is_serialized s; tensor_index := index; file_id := file; file_offset := offset;
       next_param_id := next_param_id s; name_id_map := name_id_map s |}).
(** [ReadTensor] of a number *)
Definition read_number (s : Loader) (id : Z) : option (list (option byte)) :=
  m ← tensor_index s !! id; Some (aio_read (m_file_id m) (m_offset m) (m_size m) (archer_param (dir s))).

Section loading.
Context `{Bytes T}.

(** The body of the loop of [_offload_state_dict] *)
Definition offload_tensor (kv : string * T) : M Loader unit :=
  id ← new_param_id;
  modify (λ s, set_map (od_set kv.1 id (name_id_map s)) s);;
  s ← get;
  when (negb (bool_decide (is_Some (tensor_index s !! id)))) (engine_offload id kv.2).
Definition offload_state_dict_tensors (state_dict : list (string * T)) : M Loader unit := for_each state_dict offload_tensor.

(** ** Preparing a checkpoint file *)
Record ckpt_file := { path : string; contents : list (string * T) }.
Definition safetensors (f : ckpt_file) : bool := is_in "safetensors" (path f).
Context (to_cpu : T → T) (to_dtype : T → res T).
(** Dequantised, reshaped and transposed experts; [None] for empty tensors *)
Context (dequantize : T → T → option (res T)).
Context (q : quant_attr) (dequant_env : bool) (quant_info : option QuantizationInfo).

Definition is_mxfp4_ckpt (f : ckpt_file) : bool :=
  safetensors f && (negb (bool_decide (identify_mxfp4_pairs (contents f).*1 = [])) || is_mxfp4_quantized q).
Definition dequantize_pair (sd : list (string * T)) (pair : string * string) : res (list (string * T)) :=
  match od_get pair.1 sd, od_get pair.2 sd with
  | Some blocks, Some scales =>
      match dequantize blocks scales with
      | None => Ok sd
      | Some (Err e) => Err e
      | Some (Ok w) => Ok (od_del pair.2 (od_del pair.1 (od_set (drop_suffix "_blocks" pair.1) w sd)))
      end
  | _, _ => Ok sd
  end.
Fixpoint dequantize_pairs (pairs : list (string * string)) (sd : list (string * T)) : res (list (string * T)) :=
  match pairs with
  | [] => Ok sd
  | p :: pairs => match dequantize_pair sd p with Ok sd => dequantize_pairs pairs sd | Err e => Err e end
  end.
(** What is offloaded of a file *)
Definition prepare_file (f : ckpt_file) : res (list (string * T)) :=
  match cast_state_dict_tensors to_cpu to_dtype quant_info (is_gptq_quantized q) (is_mxfp4_ckpt f) (contents f) with
  | (Err e, _) => Err e
  | (Ok _, sd) => if is_mxfp4_ckpt f && dequant_env then dequantize_pairs (identify_mxfp4_pairs sd.*1) sd else Ok sd
  end.
Definition load_file (f : ckpt_file) : M Loader unit :=
  match prepare_file f with Err e => raise e | Ok sd => offload_state_dict_tensors sd end.

(** The packed tensor of an expert also goes by the name of the parameter. *)
Definition blocks_aliases (m : list (string * Z)) : list (string * Z) :=
  foldl (λ a kv, if ends_with "_blocks" kv.1 then od_set (drop_suffix "_blocks" kv.1) kv.2 a else a) [] m.
Definition add_aliases (m : list (string * Z)) : list (string * Z) := foldl (λ m kv, od_set kv.1 kv.2 m) m (blocks_aliases m).

Context (digest : list (string * string) → string) (model_name : string) (signed_config : string → option string).
Definition on_signature (x : M sig_file unit) : M Loader unit := λ s,
  let '(r, f) := x (model_signature (dir s)) in
  (r, set_dir {| archer_index := archer_index (dir s); archer_param := archer_param (dir s); name_id_map_json := name_id_map_json (dir s); model_signature := f |} s).
Definition write_name_id_map : M Loader unit :=
  modify (λ s, set_dir {| archer_index := archer_index (dir s); archer_param := archer_param (dir s); name_id_map_json := Some (name_id_map s); model_signature := model_signature (dir s) |} s).

Definition create_from_scratch (files : list ckpt_file) : M Loader unit :=
  modify (set_map []);;
  for_each files load_file;;
  when (is_mxfp4_quantized q) (modify (λ s, set_map (add_aliases (name_id_map s)) s));;
  write_name_id_map;;
  on_signature (write_model_signature digest model_name signed_config).
Definition load_from_offload_path : M Loader unit :=
  on_signature (validate_model_signature digest model_name signed_config);;
  modify (λ s, set_map (default [] (name_id_map_json (dir s))) s).
Definition load_tensors (files : list ckpt_file) : M Loader unit :=
  s ← get;
  if negb (is_serialized s) || negb (bool_decide (is_Some (name_id_map_json (dir s))))
  then create_from_scratch files else load_from_offload_path.
End loading.
Arguments ckpt_file : clear implicits.

(** ** Names of the model's parameters *)
Section naming.
(** [name[len(prefix) + 1 :]] when the name starts with the prefix *)
Definition without_prefix (base_model_prefix name : string) : option string :=
  if String.prefix base_model_prefix name
  then Some (substring (String.length base_model_prefix + 1) (String.length name) name) else None.
Definition rename_param (base_model_prefix : string) (m : list (string * Z)) (name : string) : list (string * Z) :=
  match without_prefix base_model_prefix name with
  | Some short =>
      match od_get short m with
      | Some id => od_del short (od_set name id m)
      | None => m
      end
  | None => m
  end.
(** The loop over [named_parameters]: the map afterwards and the [ar_id] of every parameter *)
Fixpoint assign_ids (base_model_prefix : string) (names : list string) (m : list (string * Z)) : list (string * option Z) * list (string * Z) :=
  match names with
  | [] => ([], m)
  | name :: names =>
      let m := rename_param base_model_prefix m name in
      let id := od_get name m in
      let '(ids, m) := assign_ids base_model_prefix names m in
      ((name, id) :: ids, m)
  end.
(** "the case for NLLB MoE": three names for the first tensor *)
Definition tie_lm_head (m : list (string * Z)) : list (string * Z) :=
  if od_mem "lm_head.weight"%string m then m
  else od_set "decoder.embed_tokens.weight"%string 0 (od_set "encoder.embed_tokens.weight"%string 0 (od_set "lm_head.weight"%string 0 m)).
(** The parameters that get number 0 with them *)
Definition tie_ids (m : list (string * Z)) (tied : list string) (ids : list (string * option Z)) : list (string * option Z) :=
  if od_mem "lm_head.weight"%string m then ids
  else map (λ p, if bool_decide (p.1 ∈ tied) then (p.1, Some 0) else p) ids.
(** [module.layer_id] of the blocks in the order of [model.modules()] *)
Definition layer_ids (model_name : string) (first_k_dense_replace : Z) (blocks : nat) : list Z :=
  map (λ i, Z.of_nat i + (if is_in "deepseek" model_name then first_k_dense_replace else 0)) (seq 0 blocks).
End naming.

(** ** [archer_from_pretrained] *)
(** The quantisation, from the configuration or the directory of the first file *)
Definition detect_checkpoint {T} (q : quant_attr) (directory : string → Checkpoint) (files : list (ckpt_file T)) : res (option QuantizationInfo) :=
  let checkpoint_path := match files with f :: _ => path f | [] => ""%string end in
  let checkpoint_dir := if String.eqb checkpoint_path "" then ""%string else Checkpoints.dirname checkpoint_path in
  detect_quantization q checkpoint_dir (directory checkpoint_dir).
Record loaded := {
  ld_map : list (string * Z);
  ld_param_ids : list (string * option Z);
  ld_expert_tensors : gmap (Z * Z) Z;
  ld_layer_ids : list Z }.
Section from_pretrained.
Context `{Bytes T} {model : Type} (to_cpu : T → T) (to_dtype : T → res T) (dequantize : T → T → option (res T)).
Context (optimum : option (list (string * json) → model → model)) (awq : option (awq_package model)).
Context (digest : list (string * string) → string).
(** The configuration: what [HfConfig] reads, the quantisation, the signed attributes *)
Context (config : Config) (q : quant_attr) (signed_config : string → option string) (first_k_dense_replace : option Z) (has_v4 : bool).
(** What the directories hold, and whether MOE_INFINITY_MXFP4_DEQUANT is 1 *)
Context (directory : string → Checkpoint) (dequant_env : bool).
(** [cls._from_config], its parameters and blocks, and the engine's [init_moe_layer] for Qwen;
    [tied_parameters]: where a model has [lm_head] and the embeddings of an encoder and a
    decoder, the names under which [named_parameters] lists the three *)
Context (build : model) (base_model_prefix : string) (named_parameters : model → list string) (blocks_of : model → nat)
        (tied_parameters : model → option (list string)) (init_moe_layer : res unit).

Definition lift {A} (r : res A) : M Loader A := match r with Ok a => mret a | Err e => raise e end.
Definition archer_from_pretrained (model_name : string) (files : list (ckpt_file T)) : M Loader loaded :=
  info ← lift (detect_checkpoint q directory files);
  lift (match info with Some i => validate_quantization_support i | None => Ok tt end);;
  lift (parse_moe_param config);;
  lift (if is_in "qwen" (lower model_name) then init_moe_layer else Ok tt);;
  lift (parse_expert_dtype config);;
  load_tensors to_cpu to_dtype dequantize q dequant_env info digest model_name signed_config files;;
  model' ← lift (apply_quantized_model_conversion optimum awq q info build);
  lift (parse_expert_type has_v4 config);;
  s ← get;
  let '(ids, m) := assign_ids base_model_prefix (named_parameters model') (name_id_map s) in
  modify (set_map m);;
  modify (set_map (tie_lm_head m));;
  tied ← lift (if od_mem "lm_head.weight"%string m then Ok [] else attr (tied_parameters model'));
  let ids := tie_ids m tied ids in
  let m := tie_lm_head m in
  experts ← lift (build_expert_map config m ∅);
  k ← lift (if is_in "deepseek" model_name then attr first_k_dense_replace else Ok 0);
  mret {| ld_map := m; ld_param_ids := ids; ld_expert_tensors := experts; ld_layer_ids := layer_ids model_name k (blocks_of model') |}.
End from_pretrained.

(** ** A later start finds what the first one stored

    [warm_start_equals_cold]: a process that reads the offload directory gets the names,
    numbers and places of the process that filled it.  [first_load_roundtrip]: it reads every
    tensor of the checkpoint back by its name.  [resumed_load_corrupts]: after an
    interrupted attempt the load succeeds, but its tensors overwrite those stored before. *)
Import OrderedDict Signature.
Open Scope Z_scope.

(** ** Offloading *)
Lemma align_ge n : 0 ≤ n → n ≤ align n.
Proof.
  intros Hn. unfold align, kAioAlignment. change (Z.lnot (4096 - 1)) with (Z.lnot (Z.ones 12)).
  rewrite <- Z.ldiff_land, Z.ldiff_ones_r, Z.shiftl_mul_pow2, Z.shiftr_div_pow2 by lia.
  change (2 ^ 12) with 4096. pose proof (Z.div_mod (n + 4096 - 1) 4096). pose proof (Z.mod_pos_bound (n + 4096 - 1) 4096). lia.
Qed.

Section offloading.
Context `{Bytes T}.
Implicit Types (l : list (string * T)) (s : Loader) (t : T).
(** The names that the numbers from [n] on get *)
Fixpoint named (n : Z) l (m : list (string * Z)) : list (string * Z) :=
  match l with [] => m | kv :: l => named (n + 1) l (od_set kv.1 n m) end.
Lemma named_other n l m name : name ∉ l.*1 → od_get name (named n l m) = od_get name m.
Proof.
  revert n m. induction l as [|kv l IH]; intros n m Hn; [done|]. cbn in *. apply not_elem_of_cons in Hn as [Hne Hn].
  rewrite IH by done. by rewrite od_get_set_ne.
Qed.
Lemma named_lookup n l m i name t : NoDup l.*1 → l !! i = Some (name, t) → od_get name (named n l m) = Some (n + Z.of_nat i).
Proof.
  revert n m i. induction l as [|kv l IH]; intros n m i Hnd Hi; [done|]. cbn in Hnd. apply NoDup_cons in Hnd as [Hk Hnd]. destruct i as [|i].
  - injection Hi as ->. cbn in *. rewrite named_other by done. rewrite od_get_set_eq. f_equal. lia.
  - cbn. rewrite (IH _ _ i Hnd Hi). f_equal. lia.
Qed.

(** The index on disk is the index in memory. *)
Definition synced s : Prop := default ∅ (archer_index (dir s)) = tensor_index s.
(** Number [id] holds tensor [t] at place [m], before the place of the next tensor. *)
Record kept s (id : Z) (m : TensorStorageMeta) t : Prop := {
  kp_index : tensor_index s !! id = Some m;
  kp_behind : m_file_id m < file_id s ∨ m_file_id m = file_id s ∧ m_offset m + m_size m ≤ file_offset s;
  kp_bytes : aio_read (m_file_id m) (m_offset m) (m_size m) (archer_param (dir s)) = map Some (tensor_bytes t) }.
Lemma kept_read s id m t : kept s id m t → read_number s id = Some (map Some (tensor_bytes t)).
Proof. intros [Hi _ Hb]. unfold read_number. rewrite Hi. cbn. by rewrite Hb. Qed.

Lemma read_written file offset (bs : list byte) files :
  aio_read file offset (zlen bs) (aio_write file offset bs files) = map Some bs.
Proof.
  unfold aio_read, zlen. rewrite Nat2Z.id. apply list_eq. intros j. rewrite !list_lookup_fmap. destruct (decide (j < length bs)%nat) as [Hj|Hj].
  - rewrite lookup_seq_lt by done. destruct (lookup_lt_is_Some_2 bs j Hj) as [x Hx]. rewrite Hx. cbn. f_equal. unfold aio_write.
    pose proof (align_ge (zlen bs) (zlen_nonneg _)). unfold zlen in *.
    rewrite Z.eqb_refl, (proj2 (Z.leb_le _ _)), (proj2 (Z.ltb_lt _ _)) by lia. cbn. f_equal.
    replace (offset + Z.of_nat j - offset) with (Z.of_nat j) by lia. by rewrite Nat2Z.id, Hx.
  - rewrite lookup_seq_ge, (proj2 (lookup_ge_None bs j)) by lia. done.
Qed.
(** Writing behind a tensor does not touch it. *)
Lemma read_before file offset bs files file' offset' size :
  file' < file ∨ file' = file ∧ offset' + size ≤ offset → aio_read file' offset' size (aio_write file offset bs files) = aio_read file' offset' size files.
Proof.
  intros Hb. unfold aio_read. apply map_ext_in. intros j Hj%in_seq. unfold aio_write.
  destruct (Z.eqb_spec file' file) as [->|]; [|done]. destruct (Z.leb_spec offset (offset' + Z.of_nat j)); [lia|done].
Qed.

Record offloaded l s s' : Prop := {
  of_next : next_param_id s' = next_param_id s + Z.of_nat (length l);
  of_map : name_id_map s' = named (next_param_id s) l (name_id_map s);
  of_synced : synced s → synced s';
  of_json : name_id_map_json (dir s') = name_id_map_json (dir s);
  of_signature : model_signature (dir s') = model_signature (dir s);
  of_flag : is_serialized s' = is_serialized s;
  of_index : tensor_index s ⊆ tensor_index s';
  of_new : ∀ id, is_Some (tensor_index s' !! id) ↔ is_Some (tensor_index s !! id) ∨ next_param_id s ≤ id < next_param_id s + Z.of_nat (length l);
  of_kept : ∀ id m t, kept s id m t → kept s' id m t;
  of_placed : ∀ i n t, l !! i = Some (n, t) → tensor_index s !! (next_param_id s + Z.of_nat i) = None →
    ∃ m, kept s' (next_param_id s + Z.of_nat i) m t;
  of_skip : (∀ i, (i < length l)%nat → is_Some (tensor_index s !! (next_param_id s + Z.of_nat i))) →
    tensor_index s' = tensor_index s ∧ file_id s' = file_id s ∧ file_offset s' = file_offset s }.

(** A number that the index has is skipped. *)
Lemma offload_skip kv s :
  is_Some (tensor_index s !! next_param_id s) → ∃ s', offload_tensor kv s = (Ok tt, s') ∧ offloaded [kv] s s'.
Proof.
  intros Hin. unfold offload_tensor, new_param_id. munfold. cbn [tensor_index set_map]. rewrite bool_decide_true by done. cbn [negb].
  eexists. split; [reflexivity|]. split; cbn; try done.
  - intros id. split; [by left|]. intros [?|?]; [done|]. by replace id with (next_param_id s) by lia.
  - by intros id m t [].
  - intros [|i] n t; [|done]. rewrite Z.add_0_r. intros _ He. rewrite He in Hin. by destruct Hin.
Qed.
(** A new one is stored at the place of the next tensor. *)
Lemma offload_new kv s :
  tensor_index s !! next_param_id s = None →
  ∃ s' m, offload_tensor kv s = (Ok tt, s') ∧ offloaded [kv] s s' ∧ kept s' (next_param_id s) m kv.2 ∧
    (file_offset s + align (nbytes kv.2) ≤ kPartitionSize → m = {| m_file_id := file_id s; m_offset := file_offset s; m_size := nbytes kv.2 |}).
Proof.
  intros Hn. unfold offload_tensor, new_param_id, engine_offload. munfold. cbn [tensor_index set_map].
  rewrite bool_decide_false by (rewrite Hn; by intros [? [=]]). cbn [negb when]. munfold.
  unfold store_place. cbn [tensor_index set_map file_id file_offset]. rewrite Hn.
  set (place := if kPartitionSize <? _ then _ else _).
  assert (file_id s < place.1 ∨ file_id s = place.1 ∧ file_offset s ≤ place.2) as Hp by (unfold place; destruct (_ <? _); cbn; lia).
  assert (file_offset s + align (nbytes kv.2) ≤ kPartitionSize → place = (file_id s, file_offset s)) as Hfit.
  { intros Hf. unfold place. by rewrite (proj2 (Z.ltb_ge _ _)). }
  destruct place as [f o]. cbn in Hp. assert (0 ≤ nbytes kv.2) as H0 by apply zlen_nonneg.
  pose proof (align_ge _ H0). set (m := {| m_file_id := f; m_offset := o; m_size := nbytes kv.2 |}).
  eexists _, m. split; [reflexivity|]. split; [|split].
  - split; cbn; try done.
    + by apply insert_subseteq.
    + intros id. destruct (decide (id = next_param_id s)) as [->|Hne].
      * rewrite lookup_insert_eq. split; [right; lia|by eexists].
      * rewrite lookup_insert_ne by done. split; [by left|]. intros [?|?]; [done|lia].
    + intros id m' t [Hi Hb Hr]. assert (id ≠ next_param_id s) by congruence. split; cbn.
      * by rewrite lookup_insert_ne.
      * lia.
      * rewrite read_before; [done|lia].
    + intros [|i] n t; [|done]. rewrite Z.add_0_r. intros [= ->] _. exists m. split; cbn; [by rewrite lookup_insert_eq| |apply read_written].
      cbn in *. lia.
    + intros Hs. destruct (Hs 0%nat) as [x Hx]; [lia|]. rewrite Z.add_0_r in Hx. congruence.
  - split; cbn; [by rewrite lookup_insert_eq|lia|apply read_written].
  - intros Hf. injection (Hfit Hf) as -> ->. done.
Qed.

Lemma offloaded_trans kv l s s1 s' : offloaded [kv] s s1 → offloaded l s1 s' → offloaded (kv :: l) s s'.
Proof.
  intros [] []. cbn [length] in *. split; cbn [length].
  - lia.
  - rewrite of_map1, of_map0, of_next0. done.
  - auto.
  - congruence.
  - congruence.
  - congruence.
  - etrans; done.
  - intros id. rewrite of_new1, of_new0. split; [intros [[?|?]|?]; [by left|right; lia..]|]. intros [?|?]; [by left; left|].
    destruct (decide (id = next_param_id s)); [left; right; lia|right; lia].
  - auto.
  - intros [|i] n t Hi Hno.
    + destruct (of_placed0 0%nat n t) as [m Hm]; [by injection Hi as ->|done|]. exists m. by apply of_kept1.
    + replace (next_param_id s + Z.of_nat (S i)) with (next_param_id s1 + Z.of_nat i) in * by lia. apply (of_placed1 i n t Hi).
      apply eq_None_not_Some. rewrite of_new0, Hno. intros [[? [=]]|]. lia.
  - intros Hs. destruct of_skip0 as (E1 & E2 & E3).
    { intros [|i] ?; [|lia]. apply Hs. lia. }
    destruct of_skip1 as (E1' & E2' & E3').
    { intros i Hi. rewrite E1. replace (next_param_id s1 + Z.of_nat i) with (next_param_id s + Z.of_nat (S i)) by lia. apply Hs. lia. }
    split_and!; congruence.
Qed.
Lemma offload_all l s : ∃ s', for_each l offload_tensor s = (Ok tt, s') ∧ offloaded l s s'.
Proof.
  revert s. induction l as [|kv l IH]; intros s; cbn [for_each].
  { exists s. split; [done|]. split; try done; cbn; [lia|]. intros id. split; [by left|]. intros [?|?]; [done|lia]. }
  assert (∃ s1, offload_tensor kv s = (Ok tt, s1) ∧ offloaded [kv] s s1) as (s1 & H1 & O1).
  { destruct (tensor_index s !! next_param_id s) eqn:E; [apply offload_skip; by rewrite E|].
    destruct (offload_new kv s E) as (s1 & ? & ? & ? & _). by exists s1. }
  unfold mbind, M_bind. rewrite H1. destruct (IH s1) as (s' & H2 & O2). exists s'. split; [exact H2|]. by eapply offloaded_trans.
Qed.

(** An attempt with the tensors [l] that is interrupted after [k] of them *)
Definition interrupted l (k : nat) (d : Directory) : Directory := dir (for_each (take k l) offload_tensor (init d)).2.
End offloading.

(** ** Loading the tensors *)
Section loading.
Context `{Bytes T} (to_cpu : T → T) (to_dtype : T → res T) (dequantize : T → T → option (res T)).
Context (q : quant_attr) (dequant_env : bool) (quant_info : option QuantizationInfo).
Context (digest : list (string * string) → string).
Local Abbreviation prepare := (prepare_file to_cpu to_dtype dequantize q dequant_env quant_info).
Local Abbreviation load := (load_tensors to_cpu to_dtype dequantize q dequant_env quant_info digest).

(** What a checkpoint gives to the engine, in the order of the numbers *)
Fixpoint prepared (files : list (ckpt_file T)) : res (list (string * T)) :=
  match files with
  | [] => Ok []
  | f :: files => match prepare f, prepared files with Ok l, Ok l' => Ok (l ++ l')%list | Err e, _ => Err e | _, Err e => Err e end
  end.
Lemma load_files files l s :
  prepared files = Ok l → for_each files (load_file to_cpu to_dtype dequantize q dequant_env quant_info) s = for_each l offload_tensor s.
Proof.
  revert l s. induction files as [|f files IH]; intros l s; cbn [prepared for_each]; [by intros [= <-]|].
  destruct (prepare f) as [l1|] eqn:Hf; [|done]. destruct (prepared files) as [l2|] eqn:Hfs; [|done]. intros [= <-].
  rewrite for_each_app. unfold mbind, M_bind, load_file, offload_state_dict_tensors. rewrite Hf.
  destruct (for_each l1 offload_tensor s) as [[] s1]; [by apply IH|done].
Qed.
Lemma load_files_fail files e s :
  prepared files = Err e → ∃ e' s', for_each files (load_file to_cpu to_dtype dequantize q dequant_env quant_info) s = (Err e', s').
Proof.
  revert s. induction files as [|f files IH]; intros s; cbn [prepared for_each]; [done|]. unfold mbind, M_bind, load_file, offload_state_dict_tensors.
  destruct (prepare f) as [l1|e1] eqn:Hf; [|by do 2 eexists]. destruct (offload_all l1 s) as (s1 & -> & _).
  destruct (prepared files) as [l2|]; [done|]. intros Hfs. exact (IH s1 Hfs).
Qed.

(** The names after a first load *)
Definition final_map (l : list (string * T)) : list (string * Z) :=
  if is_mxfp4_quantized q then add_aliases (named 0 l []) else named 0 l [].
Definition cold (d : Directory) : Prop := archer_index d = None ∨ name_id_map_json d = None.
Record filled (name : string) cfg (l : list (string * T)) (s1 s : Loader) : Prop := {
  fi_index : tensor_index s = tensor_index s1;
  fi_files : archer_param (dir s) = archer_param (dir s1);
  fi_synced : synced s;
  fi_map : name_id_map s = final_map l;
  fi_json : name_id_map_json (dir s) = Some (final_map l);
  fi_signature : model_signature (dir s) = Stamp name (compute_config_fingerprint digest cfg) }.

Lemma cold_load name cfg files l d :
  cold d → prepared files = Ok l →
  ∃ s1 s, for_each l offload_tensor (set_map [] (init d)) = (Ok tt, s1) ∧ offloaded l (set_map [] (init d)) s1 ∧
    load name cfg files (init d) = (Ok tt, s) ∧ filled name cfg l s1 s.
Proof.
  intros Hc Hp. destruct (offload_all l (set_map [] (init d))) as (s1 & E & O). unfold load_tensors, mbind, M_bind, get.
  assert (negb (is_serialized (init d)) || negb (bool_decide (is_Some (name_id_map_json (dir (init d))))) = true) as ->.
  { destruct Hc as [Hc|Hc]; cbn; rewrite Hc; cbn; [done|]. apply orb_true_r. }
  unfold create_from_scratch, mbind, M_bind, modify. rewrite (load_files _ _ _ Hp), E.
  assert (synced s1) as Hs1 by (by apply (of_synced _ _ _ O)). pose proof (of_map _ _ _ O) as Hm. cbn in Hm. exists s1.
  unfold final_map, write_name_id_map, on_signature, write_model_signature, modify. destruct (is_mxfp4_quantized q) eqn:Hq; cbn [when];
    (eexists; split_and!; [done|done|reflexivity|]; split; cbn; unfold final_map; rewrite ?Hq, ?Hm; done).
Qed.

Lemma warm_load name cfg files l s1 s :
  filled name cfg l s1 s → archer_index (dir s) ≠ None →
  ∃ s', load name cfg files (init (dir s)) = (Ok tt, s') ∧ dir s' = dir s ∧ tensor_index s' = tensor_index s ∧ name_id_map s' = final_map l.
Proof.
  intros [Hi Hf Hs Hm Hj Hg] Hne. unfold load_tensors, mbind, M_bind, get.
  assert (negb (is_serialized (init (dir s))) || negb (bool_decide (is_Some (name_id_map_json (dir (init (dir s)))))) = false) as ->.
  { cbn. rewrite Hj. destruct (archer_index (dir s)); done. }
  unfold load_from_offload_path, on_signature, validate_model_signature, raise_if, mbind, M_bind, get. cbn [dir init]. rewrite Hg.
  rewrite !String.eqb_refl. cbn. rewrite Hj. eexists. split; [reflexivity|]. cbn. rewrite <- Hg, <- Hj. split; [by destruct (dir s)|]. split; done.
Qed.
(** What the first process stored, a later one reads. *)
Lemma warm_read name cfg l s1 s s' id m t :
  filled name cfg l s1 s → kept s1 id m t → dir s' = dir s → tensor_index s' = tensor_index s → read_number s' id = Some (map Some (tensor_bytes t)).
Proof.
  intros F K Hd Hi. rewrite <- (kept_read _ _ _ _ K). unfold read_number. by rewrite Hd, Hi, (fi_index _ _ _ _ _ F), (fi_files _ _ _ _ _ F).
Qed.
Lemma filled_index name cfg l s1 s id : filled name cfg l s1 s → is_Some (tensor_index s1 !! id) → archer_index (dir s) ≠ None.
Proof.
  intros [Hi _ Hs _ _ _] [m Hm] E. unfold synced in Hs. rewrite E, Hi in Hs. cbn in Hs. by rewrite <- Hs in Hm.
Qed.

(** C30: a checkpoint goes through the offload directory unharmed.  A load into a directory
    without an index succeeds, and every later process, whatever files it is given, finds
    each tensor of the checkpoint, as it was prepared for the engine, byte for byte under its
    number, and (no packed MXFP4 model, whose blocks get second names) the number under the
    tensor's name.  Tensors of any sizes, over any number of parameter files. *)
Theorem first_load_roundtrip name cfg files l d later :
  archer_index d = None → prepared files = Ok l → l ≠ [] →
  ∃ s s', load name cfg files (init d) = (Ok tt, s) ∧ load name cfg later (init (dir s)) = (Ok tt, s') ∧ dir s' = dir s ∧
    ∀ i n t, l !! i = Some (n, t) →
      read_number s' (Z.of_nat i) = Some (map Some (tensor_bytes t)) ∧
      (is_mxfp4_quantized q = false → NoDup l.*1 → od_get n (name_id_map s') = Some (Z.of_nat i)).
Proof.
  intros Hd Hp Hl. destruct (cold_load name cfg files l d (or_introl Hd) Hp) as (s1 & s & _ & O & Hload & F).
  assert (∀ i n t, l !! i = Some (n, t) → ∃ m, kept s1 (Z.of_nat i) m t) as Hk.
  { intros i n t Hi. destruct (of_placed _ _ _ O i n t Hi) as [m Hm]; [cbn; by rewrite Hd|by exists m]. }
  destruct l as [|[n0 t0] l']; [done|]. destruct (Hk 0%nat n0 t0 eq_refl) as [m0 K0].
  destruct (warm_load name cfg later _ s1 s F) as (s' & Hload' & Hdir & Hix & Hmap).
  { apply (filled_index _ _ _ _ _ 0 F). exists m0. apply K0. }
  exists s, s'. split_and!; [done..|]. intros i n t Hi. destruct (Hk i n t Hi) as [m K]. split; [by apply (warm_read _ _ _ _ _ _ _ _ _ F K)|].
  intros Hq Hnd. rewrite Hmap. unfold final_map. rewrite Hq, (named_lookup 0 _ [] i n t Hnd Hi). f_equal.
Qed.

Definition fresh_directory : Directory := {| archer_index := None; archer_param := λ _ _, None; name_id_map_json := None; model_signature := NoSignature |}.
(** An attempt that was stopped leaves the places of the first tensors, and no map. *)
Lemma interrupted_index (l : list (string * T)) k n t :
  l !! 0%nat = Some (n, t) → (0 < k ≤ length l)%nat → align (nbytes t) ≤ kPartitionSize →
  let d := interrupted l k fresh_directory in
  name_id_map_json d = None ∧
  (∀ id, is_Some (default ∅ (archer_index d) !! id) ↔ 0 ≤ id < Z.of_nat k) ∧
  default ∅ (archer_index d) !! 0 = Some {| m_file_id := 0; m_offset := 0; m_size := nbytes t |}.
Proof.
  intros Hl Hk Hs d. destruct l as [|kv l]; [done|]. injection Hl as ->. destruct k as [|k]; [lia|]. subst d. unfold interrupted. cbn [take for_each].
  destruct (offload_new (n, t) (init fresh_directory) eq_refl) as (s1 & m & H1 & O1 & K1 & Hm). rewrite Hm in K1 by done. unfold mbind, M_bind.
  rewrite H1. destruct (offload_all (take k l) s1) as (s2 & H2 & O2). rewrite H2. pose proof (offloaded_trans _ _ _ _ _ O1 O2) as O. cbn [snd].
  assert (default ∅ (archer_index (dir s2)) = tensor_index s2) as -> by (by apply (of_synced _ _ _ O)). split_and!.
  - by rewrite (of_json _ _ _ O).
  - intros id. rewrite (of_new _ _ _ O). cbn [length] in *. rewrite length_take, Nat.min_l by lia. cbn. rewrite lookup_empty.
    split; [intros [[? [=]]|]; lia|right; lia].
  - eapply lookup_weaken; [apply (kp_index _ _ _ _ K1)|apply (of_index _ _ _ O2)].
Qed.

(** C38: a load that is repeated after an interruption corrupts tensors.  An attempt with the
    tensors [l'], in an empty directory, stopped after [k] of them; then a load of a checkpoint
    with a tensor number [k], of the same model or of another, succeeds and signs the
    directory.  But the engine starts at the beginning of file 0 again and skips the numbers
    that the index has, so that tensor [k] is written over tensor 0: in every later process
    number [k] reads as its tensor, and number 0 has the size of the tensor stored for it and,
    as far as tensor [k] reaches, the bytes of tensor [k].  (Each of the two fits in a
    parameter file.) *)
Theorem resumed_load_corrupts name cfg files l' l k n' t' n t later :
  prepared files = Ok l → l' !! 0%nat = Some (n', t') → l !! k = Some (n, t) → (0 < k ≤ length l')%nat →
  align (nbytes t') ≤ kPartitionSize → align (nbytes t) ≤ kPartitionSize →
  ∃ s s' read, load name cfg files (init (interrupted l' k fresh_directory)) = (Ok tt, s) ∧
    model_signature (dir s) = Stamp name (compute_config_fingerprint digest cfg) ∧
    load name cfg later (init (dir s)) = (Ok tt, s') ∧
    read_number s' (Z.of_nat k) = Some (map Some (tensor_bytes t)) ∧
    read_number s' 0 = Some read ∧ length read = length (tensor_bytes t') ∧
    ∀ j b, (j < length read)%nat → tensor_bytes t !! j = Some b → read !! j = Some (Some b).
Proof.
  intros Hp H' Ht Hk Hs' Hs. destruct (interrupted_index l' k n' t' H' Hk Hs') as (Hj & Hdom & H0).
  set (d := interrupted l' k fresh_directory) in *. destruct (cold_load name cfg files l d (or_intror Hj) Hp) as (s1 & s & E & O & Hload & F).
  (* the run up to number [k], the store of [k], the rest *)
  rewrite <- (take_drop_middle l k (n, t) Ht), for_each_app in E. unfold mbind, M_bind in E.
  assert (length (take k l) = k) as Hlen by (rewrite length_take; apply lookup_lt_Some in Ht; lia).
  destruct (offload_all (take k l) (set_map [] (init d))) as (s2 & E2 & O2). rewrite E2 in E. cbn [for_each] in E. unfold mbind, M_bind in E.
  destruct (of_skip _ _ _ O2) as (Hi2 & Hf2 & Ho2).
  { intros i Hi. cbn. apply Hdom. lia. }
  pose proof (of_next _ _ _ O2) as Hn2. rewrite Hlen in Hn2. cbn in Hi2, Hf2, Ho2, Hn2.
  destruct (offload_new (n, t) s2) as (s3 & m & E3 & O3 & K3 & Hm).
  { rewrite Hi2, Hn2. apply eq_None_not_Some. rewrite Hdom. lia. }
  rewrite E3 in E. destruct (offload_all (drop (S k) l) s3) as (s4 & E4 & O4). rewrite E4 in E. injection E as ->.
  rewrite Hf2, Ho2 in Hm. cbn [snd] in Hm. specialize (Hm Hs). subst m. rewrite Hn2 in K3. pose proof (of_kept _ _ _ O4 _ _ _ K3) as K.
  assert (tensor_index s1 !! 0 = Some {| m_file_id := 0; m_offset := 0; m_size := nbytes t' |}) as H01.
  { eapply lookup_weaken; [|etrans; [apply (of_index _ _ _ O3)|apply (of_index _ _ _ O4)]]. by rewrite Hi2. }
  destruct (warm_load name cfg later l s1 s F) as (s' & Hload' & Hdir & Hix & _).
  { apply (filled_index _ _ _ _ _ 0 F). by exists {| m_file_id := 0; m_offset := 0; m_size := nbytes t' |}. }
  exists s, s', (aio_read 0 0 (nbytes t') (archer_param (dir s1))). split_and!; [done|apply (fi_signature _ _ _ _ _ F)|done| | | |].
  - by apply (warm_read _ _ _ _ _ _ _ _ _ F K).
  - unfold read_number. by rewrite Hdir, Hix, (fi_index _ _ _ _ _ F), (fi_files _ _ _ _ _ F), H01.
  - unfold aio_read, nbytes, zlen. by rewrite length_map, length_seq, Nat2Z.id.
  - intros j b Hlt Hb. pose proof (kp_bytes _ _ _ _ K) as Hr. cbn in Hr. apply (f_equal (lookup j)) in Hr. revert Hr Hlt. unfold aio_read.
    rewrite !list_lookup_fmap, Hb, length_map, length_seq. intros Hr Hlt. rewrite lookup_seq_lt by done.
    rewrite lookup_seq_lt in Hr by (unfold nbytes, zlen; rewrite Nat2Z.id; by eapply lookup_lt_Some). exact Hr.
Qed.
End loading.

(** ** The whole load *)
Section from_pretrained.
Context `{Bytes T} {model : Type} (to_cpu : T → T) (to_dtype : T → res T) (dequantize : T → T → option (res T)).
Context (optimum : option (list (string * json) → model → model)) (awq : option (awq_package model)).
Context (digest : list (string * string) → string).
Context (config : Config) (q : quant_attr) (signed_config : string → option string) (first_k_dense_replace : option Z) (has_v4 : bool).
Context (directory : string → Checkpoint) (dequant_env : bool).
Context (build : model) (base_model_prefix : string) (named_parameters : model → list string) (blocks_of : model → nat)
        (tied_parameters : model → option (list string)) (init_moe_layer : res unit).
Local Abbreviation from_pretrained := (archer_from_pretrained to_cpu to_dtype dequantize optimum awq digest config q signed_config
  first_k_dense_replace has_v4 directory dequant_env build base_model_prefix named_parameters blocks_of tied_parameters
  init_moe_layer).

(** C36: a later start equals the first.  When a load into a directory without a complete index
    and name map has succeeded and stored a tensor, a new process on the directory it left
    behind succeeds with the same parameter numbers, names, expert tensors and layers,
    whatever checkpoint files it is given, as long as the quantisation detected with them is
    the same; it finds the same tensors in the same places, and writes nothing. *)
Theorem warm_start_equals_cold name files d r s later :
  cold d → from_pretrained name files (init d) = (Ok r, s) → archer_index (dir s) ≠ None →
  detect_checkpoint q directory later = detect_checkpoint q directory files →
  ∃ s', from_pretrained name later (init (dir s)) = (Ok r, s') ∧ dir s' = dir s ∧ tensor_index s' = tensor_index s.
Proof.
  intros Hc Hrun Hne Hdet. revert Hrun Hne. unfold archer_from_pretrained, lift. munfold. rewrite Hdet.
  destruct (detect_checkpoint q directory files) as [info|]; [|done].
  destruct (match info with Some i => validate_quantization_support i | None => Ok tt end); [|done].
  destruct (parse_moe_param config); [|done].
  destruct (if is_in "qwen" (lower name) then init_moe_layer else Ok tt); [|done].
  destruct (parse_expert_dtype config); [|done].
  destruct (prepared to_cpu to_dtype dequantize q dequant_env info files) as [l|] eqn:Hp.
  2: { intros H'. exfalso. revert H'. unfold load_tensors at 1, mbind at 1, M_bind at 1, get.
       assert (negb (is_serialized (init d)) || negb (bool_decide (is_Some (name_id_map_json (dir (init d))))) = true) as ->.
       { destruct Hc as [Hc|Hc]; cbn; rewrite Hc; cbn; [done|]. apply orb_true_r. }
       unfold create_from_scratch, mbind, M_bind, modify.
       destruct (load_files_fail to_cpu to_dtype dequantize q dequant_env info files e (set_map [] (init d)) Hp) as (e' & s' & ->). done. }
  destruct (cold_load to_cpu to_dtype dequantize q dequant_env info digest name signed_config files l d Hc Hp) as (s0 & s1 & _ & _ & -> & F).
  destruct (apply_quantized_model_conversion optimum awq q info build) as [m'|]; [|done].
  destruct (parse_expert_type has_v4 config); [|done]. rewrite (fi_map _ _ _ _ _ _ _ F).
  destruct (assign_ids base_model_prefix (named_parameters m') (final_map q l)) as [ids m] eqn:Ha.
  destruct (if od_mem "lm_head.weight" m then Ok [] else attr (tied_parameters m')) as [tied|] eqn:Ht; [|done].
  destruct (build_expert_map config (tie_lm_head m) ∅) as [experts|] eqn:He; [|done].
  destruct (if is_in "deepseek" name then attr first_k_dense_replace else Ok 0) as [k|]; [|done].
  intros [= <- <-] Hne. cbn [dir set_map] in *.
  destruct (warm_load to_cpu to_dtype dequantize q dequant_env info digest name signed_config later l s0 s1 F Hne) as (s2 & -> & Hd & Hi & Hm).
  rewrite Hm, Ha, Ht, He. eexists. split; [reflexivity|]. done.
Qed.
End from_pretrained.

(** ** A checkpoint of two files *)
Module LoadingDemo.
Local Open Scope string_scope.
(** A tensor of two bytes *)
#[local] Instance word_bytes : Bytes Z := λ x,
  map (λ b, default Byte.x00 (Byte.of_N (Z.to_N b))) [x mod 256; (x / 256) mod 256]%Z.
Definition files : list (ckpt_file Z) :=
  [{| path := "/models/q/model-1.safetensors"; contents := [("embed.weight", 10); ("layers.0.mlp.experts.0.w", 11)] |};
   {| path := "/models/q/model-2.safetensors"; contents := [("layers.0.mlp.experts.1.w", 12); ("lm_head.weight", 13)] |}].
Definition cast (x : Z) : res Z := Ok (x * 100)%Z.
Definition dq (_ _ : Z) : option (res Z) := None.
Definition tensors : list (string * Z) :=
  [("embed.weight", 1000); ("layers.0.mlp.experts.0.w", 1100); ("layers.0.mlp.experts.1.w", 1200); ("lm_head.weight", 1300)]%Z.
Definition cfg (f : string) : option string := if String.eqb f "hidden_size" then Some "2048" else None.
Definition hf : Config := mkConfig ["Qwen3MoeForCausalLM"] None None None None (Some 2) (Some 1) None None (Some BFloat16) None.
(** Any digest will do here *)
Definition join (l : list (string * string)) : string := String.concat "" l.*2.
Definition no_checkpoint (_ : string) : Checkpoint := mkCkpt false (λ _, None) [].

Lemma first_load_roundtrip_witness :
  ∃ s s', load_tensors id cast dq QNone false None join "qwen3" cfg files (init fresh_directory) = (Ok tt, s) ∧
    load_tensors id cast dq QNone false None join "qwen3" cfg [] (init (dir s)) = (Ok tt, s') ∧
    od_get "lm_head.weight" (name_id_map s') = Some 3%Z ∧ read_number s' 3 = Some (map Some (tensor_bytes 1300%Z)).
Proof.
  destruct (first_load_roundtrip id cast dq QNone false None join "qwen3" cfg files tensors fresh_directory []) as (s & s' & H1 & H2 & _ & H3);
    [reflexivity|reflexivity|discriminate|].
  destruct (H3 3%nat "lm_head.weight" 1300%Z eq_refl) as [H4 H5]. exists s, s'. split_and!; [exact H1|exact H2| |exact H4].
  apply H5; [reflexivity|]. apply (bool_decide_unpack _). vm_compute. reflexivity.
Defined.
(** The load of the same checkpoint is stopped after two tensors and repeated: number 0, the
    embedding, reads as the tensor with number 2. *)
Lemma resumed_load_corrupts_witness :
  ∃ s s' read, load_tensors id cast dq QNone false None join "qwen3" cfg files (init (interrupted tensors 2 fresh_directory)) = (Ok tt, s) ∧
    load_tensors id cast dq QNone false None join "qwen3" cfg [] (init (dir s)) = (Ok tt, s') ∧
    read_number s' 0 = Some read ∧ read !! 0%nat = Some (Some Byte.xb0) ∧ tensor_bytes 1000%Z !! 0%nat = Some Byte.xe8.
Proof.
  destruct (resumed_load_corrupts id cast dq QNone false None join "qwen3" cfg files tensors tensors 2 "embed.weight" 1000%Z
    "layers.0.mlp.experts.1.w" 1200%Z [] eq_refl eq_refl eq_refl) as (s & s' & read & H1 & _ & H2 & _ & H3 & H4 & H5).
  - cbn. lia.
  - vm_compute. discriminate.
  - vm_compute. discriminate.
  - exists s, s', read. split_and!; [exact H1|exact H2|exact H3| |reflexivity]. apply H5; [|reflexivity].
    rewrite H4. vm_compute. lia.
Defined.
Definition start (given : list (ckpt_file Z)) (d : Directory) : res loaded * Loader :=
  archer_from_pretrained (model := list string) id cast dq None None join hf QNone cfg None false no_checkpoint false
    ["model.embed.weight"; "lm_head.weight"] "model" id (λ _, 1%nat) (λ _, None) (Ok tt) "qwen3" given (init d).
Lemma warm_start_equals_cold_witness :
  ∃ r s s', start files fresh_directory = (Ok r, s) ∧ start [] (dir s) = (Ok r, s') ∧ dir s' = dir s ∧
    ld_param_ids r = [("model.embed.weight", Some 0%Z); ("lm_head.weight", Some 3%Z)].
Proof.
  assert (match start files fresh_directory with
          | (Ok r, s) => ld_param_ids r = [("model.embed.weight", Some 0%Z); ("lm_head.weight", Some 3%Z)] ∧ bool_decide (is_Some (archer_index (dir s))) = true
          | _ => False end) as Hr by (vm_compute; done).
  destruct (start files fresh_directory) as [[r|e] s] eqn:E; [|done]. destruct Hr as [Hr Hs%bool_decide_eq_true].
  assert (archer_index (dir s) ≠ None) as Hne by (by rewrite <- not_eq_None_Some in Hs).
  destruct (warm_start_equals_cold (model := list string) id cast dq None None join hf QNone cfg None false no_checkpoint false
    ["model.embed.weight"; "lm_head.weight"] "model" id (λ _, 1%nat) (λ _, None) (Ok tt) "qwen3" files fresh_directory r s []
    (or_introl eq_refl) E Hne eq_refl) as (s' & H & Hd & _).
  exists r, s, s'. split; [reflexivity|]. split; [exact H|]. split; [exact Hd|exact Hr].
Defined.
End LoadingDemo.
