(* ===== verification/Tensor.v ===== *)
(** * Tensors in exact arithmetic

    What the kernel and attention components share: contiguous row-major tensors as lists
    of rows, the flat memory they occupy, finite sums of rationals, and the regrouping of
    a sum into blocks that a tiled kernel performs.  Numbers are canonical rationals
    ([Qc], so that equality is Leibniz equality); a conversion between floating-point
    types is an argument of the definitions that use it. *)
From Stdlib Require Import QArith Qcanon.
From S2P Require Import Prelude.
Open Scope nat_scope.

(** ** Ceiling division, [triton.cdiv] *)
Definition cdiv (a b : nat) : nat := (a + b - 1) / b.

Lemma cdiv_cover a b i : 0 < b → i < a → i / b < cdiv a b.
Proof.
  intros Hb Hi. unfold cdiv. apply Nat.Div0.div_lt_upper_bound.
  pose proof (Nat.div_mod_eq (a + b - 1) b) as He.
  pose proof (Nat.mod_upper_bound (a + b - 1) b). nia.
Qed.
Lemma cdiv_mult_ge a b : 0 < b → a ≤ cdiv a b * b.
Proof.
  intros Hb. unfold cdiv. pose proof (Nat.div_mod_eq (a + b - 1) b) as He.
  pose proof (Nat.mod_upper_bound (a + b - 1) b). nia.
Qed.
Lemma cdiv_half p b : 0 < b → cdiv (2 * p) (2 * b) = cdiv p b.
Proof.
  intros Hb. unfold cdiv. symmetry. apply (Nat.div_unique _ _ _ (2 * ((p + b - 1) mod b) + 1)).
  - pose proof (Nat.mod_upper_bound (p + b - 1) b). lia.
  - pose proof (Nat.div_mod_eq (p + b - 1) b). nia.
Qed.
Lemma cdiv_exact c b : 0 < b → cdiv (c * b) b = c.
Proof.
  intros Hb. unfold cdiv. symmetry. apply (Nat.div_unique _ _ _ (b - 1)); lia.
Qed.

(** ** Computations that may raise, and loops of them *)
#[export] Instance res_mret : MRet res := λ _ a, Ok a.
#[export] Instance res_mbind : MBind res := λ _ _ k r, match r with Ok a => k a | Err e => Err e end.

(** [[f(x) for x in l]], left to right; the first exception ends it. *)
Fixpoint traverse {A B} (f : A → res B) (l : list A) : res (list B) :=
  match l with
  | [] => Ok []
  | x :: l => y ← f x; ys ← traverse f l; Ok (y :: ys)
  end.
Lemma traverse_ok {A B} (f : A → res B) (g : A → B) l :
  (∀ x, x ∈ l → f x = Ok (g x)) → traverse f l = Ok (map g l).
Proof.
  induction l as [|x l IH]; intros H; cbn [traverse map]; [done|].
  rewrite H by left. cbn. rewrite IH by (intros; apply H; by right). done.
Qed.
Lemma traverse_inv {A B} (f : A → res B) l :
  match traverse f l with
  | Ok ys => Forall2 (λ x y, f x = Ok y) l ys
  | Err e => ∃ x, x ∈ l ∧ f x = Err e
  end.
Proof.
  induction l as [|x l IH]; cbn [traverse]; [constructor|]. destruct (f x) as [y|e] eqn:Hx; cbn.
  - destruct (traverse f l) as [ys|e]; cbn; [by constructor|]. destruct IH as (z & Hz & He). exists z. split; [by right|done].
  - exists x. split; [left|done].
Qed.
(** [l[i]]; a negative index counts from the end. *)
Definition tensor_get {A} (l : list A) (i : Z) : res A :=
  let j := (if i <? 0 then i + zlen l else i)%Z in
  if (j <? 0)%Z then Err IndexError
  else match l !! Z.to_nat j with Some x => Ok x | None => Err IndexError end.
Lemma tensor_get_nat {A} (l : list A) (i : nat) x : l !! i = Some x → tensor_get l (Z.of_nat i) = Ok x.
Proof.
  intros H. unfold tensor_get. assert ((Z.of_nat i <? 0)%Z = false) as E by (apply Z.ltb_ge; lia).
  rewrite E. cbv zeta. by rewrite E, Nat2Z.id, H.
Qed.

Lemma seq_lt_all n : Forall (λ i, i < n) (seq 0 n).
Proof. apply Forall_forall. intros i Hi%elem_of_seq. lia. Qed.
Lemma map_seq_lookup_id {A} (l : list (list A)) : map (λ i, default [] (l !! i)) (seq 0 (length l)) = l.
Proof. induction l as [|x l IH]; [done|]. cbn [length seq map]. f_equal. rewrite <- seq_shift, map_map. exact IH. Qed.

(** ** Rows of a contiguous tensor *)
Section rows.
Context {A : Type}.
Implicit Types rows : list (list A).

Definition rectangular (cols : nat) rows : Prop := Forall (λ r, length r = cols) rows.

Lemma concat_lookup cols rows i j :
  rectangular cols rows → j < cols → concat rows !! (i * cols + j) = rows !! i ≫= lookup j.
Proof.
  intros Hr Hj. revert i. induction Hr as [|r rows Hlen Hr IH]; intros i; cbn [concat]; [done|].
  destruct i as [|i]; cbn [Nat.mul Nat.add lookup list_lookup].
  - change ((r :: rows) !! 0 ≫= lookup j) with (r !! j). rewrite lookup_app_l by lia. done.
  - rewrite lookup_app_r by lia.
    replace (cols + i * cols + j - length r) with (i * cols + j) by lia. apply IH.
Qed.
Lemma length_concat_rows cols rows : rectangular cols rows → length (concat rows) = length rows * cols.
Proof. induction 1 as [|r rows Hr _ IH]; cbn; [done|]. rewrite length_app, IH, Hr. lia. Qed.

(** The flat memory in which the rows lie one after the other; what a read outside of
    them finds is unknown. *)
Definition memory_of rows (junk : nat → A) (address : nat) : A :=
  default (junk address) (concat rows !! address).
Lemma memory_of_at cols rows junk i j r x :
  rectangular cols rows → rows !! i = Some r → r !! j = Some x →
  memory_of rows junk (i * cols + j) = x.
Proof.
  intros Hr Hi Hj. unfold memory_of.
  assert (length r = cols) as Hlen by exact (Forall_lookup_1 _ _ _ _ Hr Hi).
  rewrite (concat_lookup cols) by (auto; apply lookup_lt_Some in Hj; lia). rewrite Hi. cbn. by rewrite Hj.
Qed.
End rows.

(** Addresses of distinct entries are distinct. *)
Lemma address_inj cols i j i' j' :
  j < cols → j' < cols → i * cols + j = i' * cols + j' → i = i' ∧ j = j'.
Proof. intros. assert (i = i') by nia. subst. lia. Qed.

Lemma foldl_pointwise {A B} (f g : A → B → A) l a : (∀ a b, f a b = g a b) → foldl f a l = foldl g a l.
Proof. intros H. revert a. induction l as [|b l IH]; intros a; cbn; [done|]. by rewrite H, IH. Qed.

(** Stores of a kernel, one after the other: an address that is always stored with the same
    value holds it. *)
Lemma stores_lookup {K A} `{Countable K} (l : list (K * A)) (mem : gmap K A) a v :
  (∀ v', (a, v') ∈ l → v' = v) → (a, v) ∈ l ∨ mem !! a = Some v →
  foldl (λ mem w, <[w.1 := w.2]> mem) mem l !! a = Some v.
Proof.
  revert mem. induction l as [|[a' v'] l IH]; intros mem Hv Hin; cbn.
  - destruct Hin as [Hin|]; [by apply elem_of_nil in Hin|done].
  - apply IH; [intros; apply Hv; by apply list_elem_of_further|].
    destruct (decide (a' = a)) as [->|Hne].
    + right. rewrite lookup_insert_eq. f_equal. apply Hv. left.
    + rewrite lookup_insert_ne by done. destruct Hin as [[[=]|Hin]%elem_of_cons|Hin]; [done|by left|by right].
Qed.

(** ** Finite sums *)
Definition qcsum (l : list Qc) : Qc := foldr Qcplus 0%Qc l.
(** [sum(f(i) for i in range(n))] *)
Definition sum_range (n : nat) (f : nat → Qc) : Qc := qcsum (map f (seq 0 n)).

Section sums.
Open Scope Qc_scope.
Lemma qcsum_cons x l : qcsum (x :: l) = x + qcsum l.
Proof. done. Qed.
Lemma qcsum_app l1 l2 : qcsum (l1 ++ l2) = qcsum l1 + qcsum l2.
Proof. induction l1 as [|x l1 IH]; [change (qcsum l2 = 0 + qcsum l2); ring|].
  cbn [app]. rewrite !qcsum_cons, IH. ring.
Qed.
Lemma qcsum_perm l1 l2 : l1 ≡ₚ l2 → qcsum l1 = qcsum l2.
Proof.
  induction 1 as [|x l1 l2 _ IH|x y l|l1 l2 l3 _ IH1 _ IH2]; rewrite ?qcsum_cons; [done| |ring|congruence].
  by rewrite IH.
Qed.
Lemma sum_range_S n f : sum_range (S n) f = sum_range n f + f n.
Proof.
  unfold sum_range. rewrite seq_S, map_app, qcsum_app. cbn. ring.
Qed.
Lemma sum_range_ext n f g : (∀ i, (i < n)%nat → f i = g i) → sum_range n f = sum_range n g.
Proof. induction n as [|n IH]; intros H; [done|]. rewrite !sum_range_S, IH, H; auto. Qed.
Lemma sum_range_plus n f g : sum_range n (λ i, f i + g i) = sum_range n f + sum_range n g.
Proof. induction n as [|n IH]; [unfold sum_range; cbn; ring|]. rewrite !sum_range_S, IH. ring. Qed.
Lemma sum_range_add n n' f : sum_range (n + n') f = sum_range n f + sum_range n' (λ i, f (n + i)%nat).
Proof.
  induction n' as [|n' IH]; [rewrite Nat.add_0_r; unfold sum_range at 3; cbn; ring|].
  rewrite Nat.add_succ_r, !sum_range_S, IH. ring.
Qed.
Lemma sum_range_zero n f : (∀ i, (i < n)%nat → f i = 0) → sum_range n f = 0.
Proof. induction n as [|n IH]; intros H; [done|]. rewrite sum_range_S, IH, H by auto. ring. Qed.
Lemma sum_range_truncate n n' f :
  (n ≤ n')%nat → (∀ i, (n ≤ i < n')%nat → f i = 0) → sum_range n' f = sum_range n f.
Proof.
  intros Hle Hz. replace n' with (n + (n' - n))%nat by lia. rewrite sum_range_add.
  rewrite (sum_range_zero (n' - n)); [ring|]. intros i Hi. apply Hz. lia.
Qed.
(** A sum taken block by block, with the terms past the end zero *)
Lemma sum_range_blocks b c f :
  sum_range c (λ kb, sum_range b (λ t, f (kb * b + t)%nat)) = sum_range (c * b) f.
Proof.
  induction c as [|c IH]; [done|]. rewrite sum_range_S, IH, Nat.mul_succ_l, sum_range_add. done.
Qed.
(** A sum over pairs *)
Lemma sum_range_pairs n f :
  sum_range (2 * n) f = sum_range n (λ p, f (2 * p)%nat + f (2 * p + 1)%nat).
Proof.
  rewrite Nat.mul_comm, <- (sum_range_blocks 2). apply sum_range_ext. intros i _.
  unfold sum_range. cbn. rewrite (Nat.add_0_r (i * 2)), Nat.mul_comm. cbn. ring.
Qed.
Lemma sum_range_fold n f acc :
  foldl (λ acc i, acc + f i) acc (seq 0 n) = acc + sum_range n f.
Proof.
  induction n as [|n IH]; [unfold sum_range; cbn; ring|].
  rewrite seq_S, foldl_app, IH, sum_range_S. cbn. ring.
Qed.
End sums.

(** ** Tensors on a device

    Contiguous tensors with their shape, strides, element type and device; loads and stores
    of a kernel through pointers; the tiles of a two-dimensional grid; and the sum over
    the K-tiles of a matrix product with its masks. *)
Open Scope nat_scope.

(** ** Contiguous tensors *)
Inductive elem_type := BF16 | F16 | I32 | OtherElem.
#[export] Instance elem_type_eq_dec : EqDecision elem_type.
Proof. solve_decision. Defined.
(** [t_device] is the number of the CUDA device, none on the host. *)
Record dtensor (A : Type) := DTensor { t_dims : list nat; t_device : option nat; t_elem : elem_type; t_data : list A }.
Arguments DTensor {A}. Arguments t_dims {A}. Arguments t_device {A}. Arguments t_elem {A}. Arguments t_data {A}.
Definition is_cuda {A} (t : dtensor A) : bool := match t_device t with Some _ => true | None => false end.

Definition size {A} (t : dtensor A) (i : nat) : nat := nth i (t_dims t) 0.
Definition product (l : list nat) : nat := foldr Nat.mul 1 l.
(** [t.stride(i)] of a contiguous tensor *)
Definition stride {A} (t : dtensor A) (i : nat) : nat := product (drop (S i) (t_dims t)).
Definition ndim {A} (t : dtensor A) : nat := length (t_dims t).
(** The memory of a tensor; beside it lies [junk]. *)
Definition flat {A} (junk : Z → A) (t : dtensor A) (address : Z) : A :=
  if (address <? 0)%Z then junk address else default (junk address) (t_data t !! Z.to_nat address).
(** [tl.load] *)
Definition load_at {A} (mem : Z → A) (ptr : Z) (mask : bool) (other : A) : A := if mask then mem ptr else other.

Lemma flat_inside {A} junk (t : dtensor A) n d : n < length (t_data t) → flat junk t (Z.of_nat n) = default d (t_data t !! n).
Proof.
  intros Hn. unfold flat. rewrite (proj2 (Z.ltb_ge (Z.of_nat n) 0)), Nat2Z.id by lia.
  by destruct (lookup_lt_is_Some_2 (t_data t) n Hn) as [x ->].
Qed.
(** ** Grids of tiles *)
Record tile3 := Tile3 { BM : nat; BN : nat; BK : nat }.
Definition tile_grid (M N : nat) (T : tile3) : list (nat * nat) :=
  i ← seq 0 (cdiv M (BM T)); j ← seq 0 (cdiv N (BN T)); [(i, j)].
(** Program [pid] stores what [entry_stores] says for each entry of its tile. *)
Definition tile_program {W} (T : tile3) (entry_stores : nat → nat → list W) (pid : nat * nat) : list W :=
  i ← seq 0 (BM T); j ← seq 0 (BN T); entry_stores (pid.1 * BM T + i) (pid.2 * BN T + j).
(** Running the programs one after the other: a later store wins. *)
Definition run_programs {K A} `{Countable K} (order : list (nat * nat)) (program : nat * nat → list (K * A)) : gmap K A :=
  foldl (λ mem w, <[w.1 := w.2]> mem) ∅ (order ≫= program).

Lemma elem_of_tiles {W} M N T order (entry_stores : nat → nat → list W) w :
  0 < BM T → 0 < BN T → order ≡ₚ tile_grid M N T →
  w ∈ order ≫= tile_program T entry_stores ↔
  ∃ m n, m < cdiv M (BM T) * BM T ∧ n < cdiv N (BN T) * BN T ∧ w ∈ entry_stores m n.
Proof.
  intros HM HN Ho. rewrite list_elem_of_bind. setoid_rewrite Ho. unfold tile_program, tile_grid.
  setoid_rewrite list_elem_of_bind. setoid_rewrite list_elem_of_bind. setoid_rewrite elem_of_seq. split.
  - intros ([p q] & (i & (j & Hw & Hj) & Hi) & (p' & (q' & [= -> ->]%list_elem_of_singleton & Hq) & Hp)). cbn [fst snd] in Hw.
    exists (p' * BM T + i), (q' * BN T + j). split_and!; [nia|nia|done].
  - intros (m & n & Hm & Hn & Hw). exists (m / BM T, n / BN T). cbn [fst snd]. split.
    + exists (m mod BM T). split; [|pose proof (Nat.mod_upper_bound m (BM T)); lia].
      exists (n mod BN T). split; [|pose proof (Nat.mod_upper_bound n (BN T)); lia].
      by rewrite !(Nat.mul_comm (_ / _)), <- !Nat.div_mod_eq.
    + exists (m / BM T). split; [|split; [lia|]; apply Nat.Div0.div_lt_upper_bound; lia].
      exists (n / BN T). split; [by left|split; [lia|]; apply Nat.Div0.div_lt_upper_bound; lia].
Qed.

(** ** The loop over K-tiles *)
Lemma tiled_sum B K (f g : nat → Qc) :
  0 < B → (∀ kb, g kb = sum_range B (λ t, if (kb * B + t <? K)%nat then f (kb * B + t)%nat else 0)%Qc) →
  foldl (λ acc kb, acc + g kb)%Qc 0%Qc (seq 0 (cdiv K B)) = sum_range K f.
Proof.
  intros HB Hg. rewrite (foldl_pointwise _ _ _ _ (λ a kb, f_equal (Qcplus a) (Hg kb))).
  rewrite sum_range_fold, Qcplus_0_l, (sum_range_blocks B _ (λ k, if (k <? K)%nat then f k else 0%Qc)).
  rewrite (sum_range_truncate K) by (apply cdiv_mult_ge || (intros i Hi; rewrite (proj2 (Nat.ltb_ge i K)) by lia); done).
  apply sum_range_ext. intros i Hi. by rewrite (proj2 (Nat.ltb_lt i K)).
Qed.
