(* ===== verification/Mxfp4Gemm.v ===== *)
(** * The MXFP4 matrix product (kernel/mxfp4_gemm.py)

    Decoding of 4-bit floating-point numbers, the tiled Triton kernel that multiplies
    activations with packed weights, its launcher, and the reference dequantisation.

    A byte is a [Z] between 0 and 255.  Numbers are exact rationals; the conversion to
    bfloat16 is the argument [bf16].  The kernel reads flat memories through pointers and
    strides as the source does; programs of the grid run in any order. *)
From Stdlib Require Import QArith Qcanon.
From S2P Require Import Prelude Tensor.
Open Scope nat_scope.

(** ** Tensors with two dimensions *)
Inductive dtype := bfloat16 | uint8 | other_dtype.
#[export] Instance dtype_eq_dec : EqDecision dtype.
Proof. solve_decision. Defined.

Record tensor2 (A : Type) := Tensor2 { t_dtype : dtype; t_cols : nat; t_rows : list (list A) }.
Arguments Tensor2 {A}. Arguments t_dtype {A}. Arguments t_cols {A}. Arguments t_rows {A}.
Definition shaped {A} (n k : nat) (t : tensor2 A) : Prop :=
  length (t_rows t) = n ∧ t_cols t = k ∧ rectangular k (t_rows t).

(** ** The numbers *)
Definition qc (n : Z) (d : positive) : Qc := Q2Qc (n # d).
(** [2 ** e] *)
Definition pow2 (e : Z) : Qc := Q2Qc (Qpower 2 e).

(** The value of an IEEE-754 single with the given bits; infinities and NaNs have none. *)
Definition f32_of_bits (bits : Z) : option Qc :=
  let sign := if Z.testbit bits 31 then (-(1))%Qc else 1%Qc in
  let exponent := Z.land (Z.shiftr bits 23) 255 in
  let fraction := Z.land bits (Z.ones 23) in
  if (exponent =? 255)%Z then None
  else if (exponent =? 0)%Z then Some (sign * (pow2 (-126) * (Q2Qc (inject_Z fraction) * pow2 (-23))))%Qc
  else Some (sign * (pow2 (exponent - 127) * (1 + Q2Qc (inject_Z fraction) * pow2 (-23))))%Qc.

Definition clamp (lo hi x : Z) : Z := Z.min (Z.max x lo) hi.

Definition fp4_lookup (idx : Z) : Qc :=
  let sign := if (8 <=? idx)%Z then (-(1))%Qc else 1%Qc in
  let mag_idx := Z.land idx 7 in
  let mag := 0%Qc in
  let mag := if (mag_idx =? 1)%Z then qc 1 2 else mag in
  let mag := if (mag_idx =? 2)%Z then qc 1 1 else mag in
  let mag := if (mag_idx =? 3)%Z then qc 3 2 else mag in
  let mag := if (mag_idx =? 4)%Z then qc 2 1 else mag in
  let mag := if (mag_idx =? 5)%Z then qc 3 1 else mag in
  let mag := if (mag_idx =? 6)%Z then qc 4 1 else mag in
  let mag := if (mag_idx =? 7)%Z then qc 6 1 else mag in
  (sign * mag)%Qc.

Definition ldexp (mantissa : Qc) (exponent : Z) : Qc :=
  let exp_clamped := clamp (-126) 127 exponent in
  let exp_bits := Z.shiftl (exp_clamped + 127) 23 in
  let power_of_2 := default 0%Qc (f32_of_bits exp_bits) in
  (mantissa * power_of_2)%Qc.

Definition FP4_TABLE : list Qc :=
  [qc 0 1; qc 1 2; qc 1 1; qc 3 2; qc 2 1; qc 3 1; qc 4 1; qc 6 1;
   qc 0 1; qc (-1) 2; qc (-1) 1; qc (-3) 2; qc (-2) 1; qc (-3) 1; qc (-4) 1; qc (-6) 1].

Definition lo_nibble (b : Z) : Z := Z.land b 15.
Definition hi_nibble (b : Z) : Z := Z.land (Z.shiftr b 4) 15.

(** ** The kernel *)
Section kernel.
Context (bf16 : Qc → Qc).

(** The arguments of a launch *)
Record launch := Launch {
  lhs : nat → Qc; rhs_packed : nat → Z; rhs_scales : nat → Z; bias_mem : nat → Qc;
  dim_M : nat; dim_N : nat; dim_K : nat;
  stride_lhs_m : nat; stride_lhs_k : nat;
  stride_rhs_n : nat; stride_rhs_k : nat;
  stride_scales_n : nat; stride_scales_k : nat;
  stride_out_m : nat; stride_out_n : nat;
  HAS_BIAS : bool }.
Record tile := Tile { BLOCK_M : nat; BLOCK_N : nat; BLOCK_K : nat }.
Definition configs : list tile :=
  [Tile 64 64 32; Tile 64 128 32; Tile 128 64 32; Tile 128 128 32; Tile 32 64 32; Tile 64 32 32].

(** [tl.load] with a mask *)
Definition load {A} (mem : nat → A) (ptr : nat) (mask : bool) (other : A) : A :=
  if mask then mem ptr else other.

(** The exponent of row [n] in the K-tile that starts at [k_start] *)
Definition tile_exponent (L : launch) (n k_start : nat) : Z :=
  let scale_idx := k_start / 32 in
  let scale := load (rhs_scales L) (n * stride_scales_n L + scale_idx * stride_scales_k L) (n <? dim_N L) 127%Z in
  (scale - 127)%Z.
Definition tile_byte (L : launch) (n k_packed : nat) : Z :=
  load (rhs_packed L) (n * stride_rhs_n L + k_packed * stride_rhs_k L)
       ((n <? dim_N L) && (k_packed <? dim_K L / 2)) 0%Z.
Definition tile_lhs (L : launch) (m k : nat) : Qc :=
  bf16 (load (lhs L) (m * stride_lhs_m L + k * stride_lhs_k L) ((m <? dim_M L) && (k <? dim_K L)) 0%Qc).

(** One iteration of the loop over K-tiles, for the entry ([m], [n]) of the tile *)
Definition k_tile (L : launch) (T : tile) (m n : nat) (acc : Qc) (k_block : nat) : Qc :=
  let k_start := k_block * BLOCK_K T in
  let BLOCK_K_HALF := BLOCK_K T / 2 in
  let exponent := tile_exponent L n k_start in
  let packed t := tile_byte L n (k_start / 2 + t) in
  let val_lo t := bf16 (ldexp (fp4_lookup (lo_nibble (packed t))) exponent) in
  let val_hi t := bf16 (ldexp (fp4_lookup (hi_nibble (packed t))) exponent) in
  let offs_k_even t := k_start + t * 2 in
  let offs_k_odd t := offs_k_even t + 1 in
  let acc := (acc + sum_range BLOCK_K_HALF (λ t, tile_lhs L m (offs_k_even t) * val_lo t))%Qc in
  (acc + sum_range BLOCK_K_HALF (λ t, tile_lhs L m (offs_k_odd t) * val_hi t))%Qc.

Definition tile_entry (L : launch) (T : tile) (m n : nat) : Qc :=
  let acc := foldl (k_tile L T m n) 0%Qc (seq 0 (cdiv (dim_K L) (BLOCK_K T))) in
  if HAS_BIAS L then (acc + load (bias_mem L) n (n <? dim_N L)%nat 0)%Qc else acc.

(** The masked stores of one program of the grid *)
Definition program (L : launch) (T : tile) (pid : nat * nat) : list (nat * Qc) :=
  i ← seq 0 (BLOCK_M T);
  j ← seq 0 (BLOCK_N T);
  let m := pid.1 * BLOCK_M T + i in
  let n := pid.2 * BLOCK_N T + j in
  if (m <? dim_M L) && (n <? dim_N L)
  then [(m * stride_out_m L + n * stride_out_n L, bf16 (tile_entry L T m n))]
  else [].

Definition grid (M N : nat) (T : tile) : list (nat * nat) :=
  i ← seq 0 (cdiv M (BLOCK_M T)); j ← seq 0 (cdiv N (BLOCK_N T)); [(i, j)].

(** Running the programs one after the other: a later store wins. *)
Definition run (L : launch) (T : tile) (order : list (nat * nat)) : gmap nat Qc :=
  foldl (λ mem w, <[w.1 := w.2]> mem) ∅ (order ≫= program L T).

(** *** The launcher *)
Inductive packed_weight := W2 (t : tensor2 Z) | W3 (d : dtype) (groups width : nat) (w : list (list (list Z))).
(** [weight_packed.reshape(weight_packed.shape[0], -1)], which torch refuses for a tensor
    without elements *)
Definition flatten_packed (w : packed_weight) : res (tensor2 Z) :=
  match w with
  | W2 t => Ok t
  | W3 d groups width w =>
      if (length w * groups * width =? 0) then Err RuntimeError
      else Ok (Tensor2 d (groups * width) (map (@concat Z) w))
  end.

(** What lies in memory next to the tensors *)
Record surroundings := Surroundings { junk_q : nat → Qc; junk_z : nat → Z }.

Definition launch_of (e : surroundings) (x : tensor2 Qc) (packed scales : tensor2 Z) (bias : option (list Qc)) : launch :=
  let M := length (t_rows x) in
  let N := length (t_rows packed) in
  let K := t_cols x in
  Launch (memory_of (t_rows x) (junk_q e)) (memory_of (t_rows packed) (junk_z e))
         (memory_of (t_rows scales) (junk_z e))
         (match bias with Some b => memory_of [b] (junk_q e) | None => memory_of (t_rows x) (junk_q e) end)
         M N K (t_cols x) 1 (t_cols packed) 1 (t_cols scales) 1 N 1
         (match bias with Some _ => true | None => false end).

(** The output tensor; an entry that no program stored is [None] ([torch.empty]). *)
Definition read_out (M N : nat) (mem : gmap nat Qc) : list (list (option Qc)) :=
  map (λ m, map (λ n, mem !! (m * N + n)) (seq 0 N)) (seq 0 M).

(** [x] is the activations after [reshape(-1, x.shape[-1])]. *)
Definition fused_mxfp4_gemm (e : surroundings) (T : tile) (order : list (nat * nat))
    (x : tensor2 Qc) (weight_packed : packed_weight) (weight_scales : tensor2 Z) (bias : option (list Qc))
    : res (list (list (option Qc))) :=
  match flatten_packed weight_packed with
  | Err ex => Err ex
  | Ok packed =>
      if negb (t_cols x =? t_cols packed * 2) then Err AssertionError
      else if negb (bool_decide (t_dtype x = bfloat16)) then Err AssertionError
      else if negb (bool_decide (t_dtype packed = uint8)) then Err AssertionError
      else if negb (bool_decide (t_dtype weight_scales = uint8)) then Err AssertionError
      else
        let L := launch_of e x packed weight_scales bias in
        Ok (read_out (dim_M L) (dim_N L) (run L T order))
  end.

(** ** The reference dequantisation *)
Definition unpack_row (packed : list Z) : list Qc :=
  b ← packed;
  [default 0%Qc (FP4_TABLE !! Z.to_nat (Z.land b 15)); default 0%Qc (FP4_TABLE !! Z.to_nat (Z.shiftr b 4))].
Definition expand_exponents (block_size : nat) (scales : list Z) : list Z :=
  s ← scales; replicate block_size (clamp (-126) 127 (s - 127)).
(** Sizes of one dimension, broadcast as torch does *)
Definition broadcast_size (a b : nat) : res nat :=
  if a =? b then Ok a else if b =? 1 then Ok a else if a =? 1 then Ok b else Err RuntimeError.
Definition expand_dim {A} (n : nat) (l : list A) : list A :=
  match l with [x] => replicate n x | _ => l end.

Definition dequantize_row (block_size K k : nat) (packed scales : list Z) : list Qc :=
  let unpacked := unpack_row packed in
  let expanded := expand_exponents block_size scales in
  let expanded := if K <? length expanded then take K expanded else expanded in
  zip_with (λ v e, bf16 (v * pow2 e)%Qc) (expand_dim k unpacked) (expand_dim k expanded).

Definition mxfp4_dequantize (packed scales : tensor2 Z) (block_size : Z) : res (tensor2 Qc) :=
  let K := t_cols packed * 2 in
  let n_blocks := t_cols scales in
  match (if (block_size <=? 0)%Z
         then if n_blocks =? 0 then Err ZeroDivisionError else Ok (K / n_blocks)
         else Ok (Z.to_nat block_size)) with
  | Err ex => Err ex
  | Ok bs =>
      let width := n_blocks * bs in
      let width := if K <? width then K else width in
      match broadcast_size K width, broadcast_size (length (t_rows packed)) (length (t_rows scales)) with
      | Ok k, Ok n =>
          Ok (Tensor2 bfloat16 k
                (zip_with (dequantize_row bs K k) (expand_dim n (t_rows packed)) (expand_dim n (t_rows scales))))
      | _, _ => Err RuntimeError
      end
  end.

(** ** What the launcher documents: [x @ dequant(weight).T + bias] *)
Definition entry {A} (d : A) (rows : list (list A)) (i j : nat) : A := default d (rows !! i ≫= lookup j).
Definition linear (x w : tensor2 Qc) (bias : option (list Qc)) : list (list Qc) :=
  map (λ m, map (λ n,
    bf16 (sum_range (t_cols x) (λ k, entry 0%Qc (t_rows x) m k * entry 0%Qc (t_rows w) n k)
          + match bias with Some b => default 0%Qc (b !! n) | None => 0%Qc end)%Qc)
    (seq 0 (length (t_rows w)))) (seq 0 (length (t_rows x))).
End kernel.

(** ** Decoding *)
Lemma fp4_table_lookup i : (0 ≤ i < 16)%Z → default 0%Qc (FP4_TABLE !! Z.to_nat i) = fp4_lookup i.
Proof.
  intros Hi. assert (Forall (λ n, default 0%Qc (FP4_TABLE !! n) = fp4_lookup (Z.of_nat n)) (seq 0 16)) as H.
  { repeat constructor; by apply Qc_is_canon. }
  rewrite Forall_forall in H. specialize (H (Z.to_nat i)). rewrite Z2Nat.id in H by lia.
  apply H, elem_of_seq. lia.
Qed.

Lemma nibbles_bound b : (0 ≤ b < 256)%Z → (0 ≤ lo_nibble b < 16 ∧ 0 ≤ Z.shiftr b 4 < 16)%Z ∧ hi_nibble b = Z.shiftr b 4.
Proof.
  intros Hb. unfold lo_nibble, hi_nibble. change 15%Z with (Z.ones 4).
  rewrite !Z.land_ones, Z.shiftr_div_pow2 by lia. change (2 ^ 4)%Z with 16%Z.
  pose proof (Z.mod_pos_bound b 16). assert (0 ≤ b / 16 < 16)%Z as Hd by (split; [apply Z.div_pos; lia|apply Z.div_lt_upper_bound; lia]).
  split; [lia|]. by apply Z.mod_small.
Qed.

Lemma pow2_bits e : (-126 ≤ e ≤ 127)%Z → f32_of_bits (Z.shiftl (e + 127) 23) = Some (pow2 e).
Proof.
  intros He. unfold f32_of_bits.
  rewrite Z.shiftl_spec by lia. rewrite (Z.bits_above_log2 (e + 127) (31 - 23)) by (try lia; apply Z.log2_lt_pow2; lia).
  rewrite Z.shiftr_shiftl_l by lia. change (23 - 23)%Z with 0%Z. rewrite Z.shiftl_0_r.
  change 255%Z with (Z.ones 8). rewrite !Z.land_ones by lia.
  rewrite (Z.mod_small (e + 127)) by lia. rewrite Z.shiftl_mul_pow2, Z_mod_mult by lia.
  change (Z.ones 8) with 255%Z.
  rewrite (proj2 (Z.eqb_neq _ _)), (proj2 (Z.eqb_neq _ _)) by lia. f_equal.
  replace (e + 127 - 127)%Z with e by lia. change (Q2Qc (inject_Z 0)) with 0%Qc. ring.
Qed.
Lemma ldexp_exact v e : ldexp v e = (v * pow2 (clamp (-126) 127 e))%Qc.
Proof. unfold ldexp. rewrite pow2_bits; [done|]. unfold clamp. lia. Qed.

(** ** The reference *)
Lemma bind_concat {A B} (f : A → list B) l : l ≫= f = concat (map f l).
Proof. induction l as [|x l IH]; cbn; [done|]. by rewrite <- IH. Qed.
Lemma unpack_row_lookup packed p b :
  Forall (λ b, 0 ≤ b < 256)%Z packed → packed !! p = Some b →
  unpack_row packed !! (2 * p) = Some (fp4_lookup (lo_nibble b)) ∧
  unpack_row packed !! (2 * p + 1) = Some (fp4_lookup (hi_nibble b)).
Proof.
  intros Hb Hp. pose proof (nibbles_bound b (Forall_lookup_1 _ _ _ _ Hb Hp)) as [[Hl Hh] He].
  unfold unpack_row. rewrite bind_concat.
  replace (2 * p) with (p * 2) by lia. replace (p * 2) with (p * 2 + 0) at 1 by lia.
  rewrite !(concat_lookup 2) by (try lia; by apply Forall_map, Forall_true).
  rewrite list_lookup_fmap, Hp. cbn. rewrite !fp4_table_lookup by done. by rewrite He.
Qed.
Lemma length_unpack_row packed : length (unpack_row packed) = 2 * length packed.
Proof. unfold unpack_row. induction packed as [|b l IH]; cbn in *; [done|]. rewrite IH. lia. Qed.
Lemma length_expand_exponents bs scales : length (expand_exponents bs scales) = length scales * bs.
Proof.
  unfold expand_exponents. induction scales as [|s l IH]; cbn in *; [done|].
  rewrite length_app, length_replicate, IH. done.
Qed.
Lemma expand_exponents_lookup bs scales j s :
  0 < bs → scales !! (j / bs) = Some s → expand_exponents bs scales !! j = Some (clamp (-126) 127 (s - 127)).
Proof.
  intros Hbs Hs. unfold expand_exponents. rewrite bind_concat.
  rewrite (Nat.div_mod_eq j bs) at 1. rewrite Nat.mul_comm.
  rewrite (concat_lookup bs); [|apply Forall_map, Forall_true; intros; apply length_replicate|apply Nat.mod_upper_bound; lia].
  rewrite list_lookup_fmap, Hs. cbn. apply lookup_replicate_2, Nat.mod_upper_bound. lia.
Qed.
Lemma expand_dim_id {A} n (l : list A) : length l = n → expand_dim n l = l.
Proof. intros <-. by destruct l as [|x [|]]. Qed.

Section equivalence.
Context (bf16 : Qc → Qc).

(** The inputs of a layer: every row of the weights has the bytes of [2 * P] numbers and a
    scale for each 32 of them. *)
Record gemm_inputs (M N P : nat) (x : tensor2 Qc) (packed scales : tensor2 Z) (bias : option (list Qc)) : Prop := {
  gi_x : shaped M (2 * P) x;
  gi_packed : shaped N P packed;
  gi_scales : shaped N (cdiv (2 * P) 32) scales;
  gi_dtypes : t_dtype x = bfloat16 ∧ t_dtype packed = uint8 ∧ t_dtype scales = uint8;
  gi_bytes : Forall (Forall (λ b, 0 ≤ b < 256)%Z) (t_rows packed);
  gi_bias : match bias with Some b => length b = N | None => True end;
  gi_bf16 : Forall (Forall (λ v, bf16 v = v)) (t_rows x) ∧ bf16 0 = 0%Qc }.

(** The weight at ([n], [k]) *)
Definition weight_at (packed scales : tensor2 Z) (n k : nat) : Qc :=
  let b := entry 0%Z (t_rows packed) n (k / 2) in
  let s := entry 127%Z (t_rows scales) n (k / 32) in
  bf16 (ldexp (fp4_lookup (if Nat.even k then lo_nibble b else hi_nibble b)) (s - 127)).

Lemma entry_spec {A} (d : A) n k (t : tensor2 A) i j :
  shaped n k t → i < n → j < k →
  ∃ row v, t_rows t !! i = Some row ∧ row !! j = Some v ∧ entry d (t_rows t) i j = v.
Proof.
  intros (Hn & _ & Hr) Hi Hj. destruct (lookup_lt_is_Some_2 (t_rows t) i) as [row Hrow]; [lia|].
  pose proof (Forall_lookup_1 _ _ _ _ Hr Hrow) as Hlen. cbn in Hlen.
  destruct (lookup_lt_is_Some_2 row j) as [v Hv]; [lia|].
  exists row, v. unfold entry. rewrite Hrow. cbn. by rewrite Hv.
Qed.
Lemma memory_entry {A} (d : A) n k (t : tensor2 A) junk i j :
  shaped n k t → i < n → j < k → memory_of (t_rows t) junk (i * k + j) = entry d (t_rows t) i j.
Proof.
  intros Hs Hi Hj. destruct (entry_spec d n k t i j Hs Hi Hj) as (row & v & Hrow & Hv & ->).
  destruct Hs as (_ & _ & Hr). by eapply memory_of_at.
Qed.

Lemma block_of_half P k : k < 2 * P → k / 32 < cdiv (2 * P) 32.
Proof. intros. apply cdiv_cover; lia. Qed.

Lemma dequantize_row_lookup P packed scales k b s :
  length packed = P → length scales = cdiv (2 * P) 32 → Forall (λ b, 0 ≤ b < 256)%Z packed →
  k < 2 * P → packed !! (k / 2) = Some b → scales !! (k / 32) = Some s →
  dequantize_row bf16 32 (P * 2) (P * 2) packed scales !! k =
    Some (bf16 (ldexp (fp4_lookup (if Nat.even k then lo_nibble b else hi_nibble b)) (s - 127))).
Proof.
  intros Hp Hs Hb Hk Hlb Hls. unfold dequantize_row. pose proof (cdiv_mult_ge (2 * P) 32).
  rewrite !expand_dim_id; cycle 1.
  { destruct (P * 2 <? _) eqn:E; [rewrite length_take|]; rewrite length_expand_exponents, Hs in *;
      [apply Nat.ltb_lt in E|apply Nat.ltb_ge in E]; lia. }
  { rewrite length_unpack_row. lia. }
  rewrite lookup_zip_with.
  replace (unpack_row packed !! k) with
    (Some (fp4_lookup (if Nat.even k then lo_nibble b else hi_nibble b))).
  2:{ symmetry. destruct (unpack_row_lookup _ _ _ Hb Hlb) as [He Ho].
      pose proof (Nat.div_mod_eq k 2) as Hdm. destruct (Nat.even k) eqn:E.
      - apply Nat.even_spec in E as [q ->]. rewrite <- He. f_equal. rewrite (Nat.mul_comm 2 q), Nat.div_mul; lia.
      - assert (Nat.odd k = true) as E' by (by rewrite <- Nat.negb_even, E).
        apply Nat.odd_spec in E' as [q ->]. rewrite <- Ho. f_equal.
        rewrite (Nat.add_comm (2 * q) 1), (Nat.mul_comm 2 q), Nat.div_add; cbn; lia. }
  assert (∀ c : bool, (if c then take (P * 2) (expand_exponents 32 scales) else expand_exponents 32 scales) !! k =
    Some (clamp (-126) 127 (s - 127))) as ->.
  { intros []; [rewrite lookup_take_lt by lia|]; apply expand_exponents_lookup; (lia || done). }
  cbn. by rewrite ldexp_exact.
Qed.

(** *** The tiles *)
Section tiles.
Context (e : surroundings) (M N P : nat) (x : tensor2 Qc) (packed scales : tensor2 Z) (bias : option (list Qc)).
Hypothesis G : gemm_inputs M N P x packed scales bias.
Abbreviation L := (launch_of e x packed scales bias).
Ltac fields := cbn [launch_of lhs rhs_packed rhs_scales bias_mem dim_M dim_N dim_K stride_lhs_m stride_lhs_k
  stride_rhs_n stride_rhs_k stride_scales_n stride_scales_k HAS_BIAS].

Lemma tile_lhs_in m k : m < M → k < 2 * P → tile_lhs bf16 L m k = entry 0%Qc (t_rows x) m k.
Proof.
  intros Hm Hk. destruct (gi_x _ _ _ _ _ _ _ G) as (HM & HK & _).
  unfold tile_lhs, load. fields. rewrite HM, HK.
  rewrite (proj2 (Nat.ltb_lt m M)), (proj2 (Nat.ltb_lt k (2 * P))) by done. cbn [andb].
  rewrite Nat.mul_1_r, (memory_entry 0%Qc M (2 * P)) by (done || apply G).
  destruct (entry_spec 0%Qc M (2 * P) x m k) as (row & v & Hrow & Hv & ->); [apply G|done..|].
  destruct (gi_bf16 _ _ _ _ _ _ _ G) as [Hb _].
  exact (Forall_lookup_1 _ _ _ _ (Forall_lookup_1 _ _ _ _ Hb Hrow) Hv).
Qed.
Lemma tile_lhs_out m k : 2 * P ≤ k → tile_lhs bf16 L m k = 0%Qc.
Proof.
  intros Hk. destruct (gi_x _ _ _ _ _ _ _ G) as (_ & HK & _).
  unfold tile_lhs, load. fields. rewrite HK, (proj2 (Nat.ltb_ge k (2 * P))) by done.
  rewrite andb_false_r. apply G.
Qed.
Lemma tile_byte_in n p : n < N → p < P → tile_byte L n p = entry 0%Z (t_rows packed) n p.
Proof.
  intros Hn Hp. destruct (gi_packed _ _ _ _ _ _ _ G) as (HN & HP & _). destruct (gi_x _ _ _ _ _ _ _ G) as (_ & HK & _).
  unfold tile_byte, load. fields. rewrite HN, HP, HK, (Nat.mul_comm 2 P), Nat.div_mul by lia.
  rewrite (proj2 (Nat.ltb_lt n N)), (proj2 (Nat.ltb_lt p P)) by done. cbn [andb].
  rewrite Nat.mul_1_r. apply (memory_entry _ N); [apply G|done..].
Qed.
Lemma tile_exponent_in n kb :
  n < N → kb < cdiv (2 * P) 32 → tile_exponent L n (kb * 32) = (entry 127 (t_rows scales) n kb - 127)%Z.
Proof.
  intros Hn Hk. destruct (gi_packed _ _ _ _ _ _ _ G) as (HN & _). destruct (gi_scales _ _ _ _ _ _ _ G) as (_ & HS & _).
  unfold tile_exponent, load. fields. rewrite HN, HS, Nat.div_mul by lia.
  rewrite (proj2 (Nat.ltb_lt n N)) by done. rewrite Nat.mul_1_r.
  f_equal. apply (memory_entry _ N); [apply G|done..].
Qed.

(** The two products of one byte *)
Definition byte_term (m n p : nat) : Qc :=
  let exponent := tile_exponent L n (p / 16 * 32) in
  (tile_lhs bf16 L m (2 * p) * bf16 (ldexp (fp4_lookup (lo_nibble (tile_byte L n p))) exponent)
   + tile_lhs bf16 L m (2 * p + 1) * bf16 (ldexp (fp4_lookup (hi_nibble (tile_byte L n p))) exponent))%Qc.

Lemma k_tile_sum T m n acc kb :
  BLOCK_K T = 32 → k_tile bf16 L T m n acc kb = (acc + sum_range 16 (λ t, byte_term m n (kb * 16 + t)))%Qc.
Proof.
  intros HT. unfold k_tile. rewrite HT. cbv zeta.
  assert (kb * 32 / 2 = kb * 16) as Hh.
  { replace (kb * 32) with (kb * 16 * 2) by lia. apply Nat.div_mul. lia. }
  rewrite Hh, <- Qcplus_assoc, <- sum_range_plus. apply (f_equal (Qcplus acc)). change (32 / 2) with 16. apply sum_range_ext. intros t Ht. unfold byte_term.
  assert (kb * 32 + t * 2 = 2 * (kb * 16 + t)) as He by lia.
  assert ((kb * 16 + t) / 16 = kb) as Hd; [rewrite Nat.div_add_l, Nat.div_small by lia; lia|].
  rewrite He, Hd. reflexivity.
Qed.

Lemma byte_term_pair m n p :
  m < M → n < N → p < P →
  byte_term m n p =
    (entry 0 (t_rows x) m (2 * p) * weight_at packed scales n (2 * p)
     + entry 0 (t_rows x) m (2 * p + 1) * weight_at packed scales n (2 * p + 1))%Qc.
Proof.
  intros Hm Hn Hp. unfold byte_term, weight_at.
  assert ((2 * p) / 32 = p / 16 ∧ (2 * p + 1) / 32 = p / 16) as [-> ->].
  { change 32 with (2 * 16). rewrite <- !Nat.Div0.div_div. rewrite (Nat.mul_comm 2 p).
    rewrite Nat.div_mul, Nat.div_add_l by lia. cbn. by rewrite Nat.add_0_r. }
  assert ((2 * p) / 2 = p ∧ (2 * p + 1) / 2 = p) as [-> ->].
  { rewrite (Nat.mul_comm 2 p), Nat.div_mul, Nat.div_add_l by lia. cbn. lia. }
  rewrite !tile_lhs_in, !tile_byte_in by lia.
  rewrite tile_exponent_in by (try done; change 32 with (2 * 16) at 1; rewrite cdiv_half by lia; apply cdiv_cover; lia).
  assert (Nat.even (2 * p) = true) as -> by (rewrite Nat.even_mul; done).
  assert (Nat.even (2 * p + 1) = false) as -> by (rewrite Nat.even_add, Nat.even_mul; done). done.
Qed.

(** The value the kernel stores at ([m], [n]), before it is rounded *)
Lemma tile_entry_sum T m n :
  BLOCK_K T = 32 → m < M → n < N →
  tile_entry bf16 L T m n =
    (sum_range (2 * P) (λ k, entry 0 (t_rows x) m k * weight_at packed scales n k)
     + match bias with Some b => default 0 (b !! n) | None => 0 end)%Qc.
Proof.
  intros HT Hm Hn. unfold tile_entry.
  assert (foldl (k_tile bf16 L T m n) 0%Qc (seq 0 (cdiv (dim_K L) (BLOCK_K T))) =
    sum_range (2 * P) (λ k, entry 0 (t_rows x) m k * weight_at packed scales n k)%Qc) as ->.
  { rewrite HT. destruct (gi_x _ _ _ _ _ _ _ G) as (_ & HK & _). cbn [dim_K launch_of]. rewrite HK.
    rewrite (foldl_pointwise _ (λ acc kb, acc + sum_range 16 (λ t, byte_term m n (kb * 16 + t)))%Qc) by
      (intros; by apply k_tile_sum).
    change 32 with (2 * 16) at 1. rewrite sum_range_fold, Qcplus_0_l, cdiv_half, sum_range_blocks by lia.
    rewrite (sum_range_truncate P); [|apply cdiv_mult_ge; lia|].
    - rewrite sum_range_pairs. apply sum_range_ext. intros. by apply byte_term_pair.
    - intros p Hp. unfold byte_term. rewrite !tile_lhs_out by lia. ring. }
  pose proof (gi_bias _ _ _ _ _ _ _ G) as Hb. destruct (gi_packed _ _ _ _ _ _ _ G) as (HN & _).
  destruct bias as [b|]; cbn [launch_of HAS_BIAS]; [|ring]. f_equal.
  unfold load. fields. rewrite HN, (proj2 (Nat.ltb_lt n N)) by done.
  unfold memory_of. cbn. rewrite app_nil_r.
  destruct (lookup_lt_is_Some_2 b n) as [v ->]; [lia|]. done.
Qed.
End tiles.
(** *** The stores of the grid *)
Lemma elem_of_grid M N T pid : pid ∈ grid M N T ↔ pid.1 < cdiv M (BLOCK_M T) ∧ pid.2 < cdiv N (BLOCK_N T).
Proof.
  unfold grid. destruct pid as [i j]. rewrite list_elem_of_bind. setoid_rewrite list_elem_of_bind.
  setoid_rewrite list_elem_of_singleton. setoid_rewrite elem_of_seq. cbn. split.
  - intros (i' & (j' & [= -> ->] & Hj) & Hi). lia.
  - intros [Hi Hj]. exists i. split; [|lia]. exists j. split; [done|lia].
Qed.

Lemma elem_of_program L T pid w :
  w ∈ program bf16 L T pid ↔ ∃ i j, i < BLOCK_M T ∧ j < BLOCK_N T ∧
    pid.1 * BLOCK_M T + i < dim_M L ∧ pid.2 * BLOCK_N T + j < dim_N L ∧
    w = ((pid.1 * BLOCK_M T + i) * stride_out_m L + (pid.2 * BLOCK_N T + j) * stride_out_n L,
         bf16 (tile_entry bf16 L T (pid.1 * BLOCK_M T + i) (pid.2 * BLOCK_N T + j))).
Proof.
  unfold program. rewrite list_elem_of_bind. setoid_rewrite list_elem_of_bind. setoid_rewrite elem_of_seq. split.
  - intros (i & (j & Hw & Hj) & Hi). exists i, j. cbv zeta in Hw.
    destruct (_ <? dim_M L) eqn:E1, (_ <? dim_N L) eqn:E2; cbn [andb] in Hw; try by apply elem_of_nil in Hw.
    apply Nat.ltb_lt in E1, E2. apply list_elem_of_singleton in Hw. split_and!; (lia || done).
  - intros (i & j & Hi & Hj & Hm & Hn & ->). exists i. split; [|lia]. exists j. split; [|lia]. cbv zeta.
    rewrite (proj2 (Nat.ltb_lt _ _) Hm), (proj2 (Nat.ltb_lt _ _) Hn). by apply list_elem_of_singleton.
Qed.

(** Each entry of the output is stored, and only with its own value. *)
Lemma run_lookup L T order m n :
  0 < BLOCK_M T → 0 < BLOCK_N T → stride_out_m L = dim_N L → stride_out_n L = 1 →
  order ≡ₚ grid (dim_M L) (dim_N L) T → m < dim_M L → n < dim_N L →
  run bf16 L T order !! (m * dim_N L + n) = Some (bf16 (tile_entry bf16 L T m n)).
Proof.
  intros HBM HBN Hsm Hsn Ho Hm Hn. unfold run. apply stores_lookup.
  - intros v' (pid & Hw & _)%list_elem_of_bind. apply elem_of_program in Hw as (i & j & _ & _ & Hm' & Hn' & [= Ha ->]).
    rewrite Hsm, Hsn, Nat.mul_1_r in Ha. by destruct (address_inj _ _ _ _ _ Hn Hn' Ha) as [<- <-].
  - left. apply list_elem_of_bind. exists (m / BLOCK_M T, n / BLOCK_N T). split.
    + apply elem_of_program. exists (m mod BLOCK_M T), (n mod BLOCK_N T). cbn [fst snd].
      rewrite !(Nat.mul_comm (_ / _)), <- !Nat.div_mod_eq.
      split_and!; [apply Nat.mod_upper_bound; lia..|done|done|]. by rewrite Hsm, Hsn, Nat.mul_1_r.
    + rewrite Ho. apply elem_of_grid. split; by apply cdiv_cover.
Qed.

(** *** The weights *)
Lemma dequantize_spec M N P x packed scales bias :
  gemm_inputs M N P x packed scales bias →
  ∃ w, mxfp4_dequantize bf16 packed scales 32 = Ok w ∧ length (t_rows w) = N ∧
       ∀ n k, n < N → k < 2 * P → entry 0%Qc (t_rows w) n k = weight_at packed scales n k.
Proof.
  intros G. destruct (gi_packed _ _ _ _ _ _ _ G) as (HN & HP & Hrp) eqn:E1. destruct (gi_scales _ _ _ _ _ _ _ G) as (HNs & HPs & Hrs) eqn:E2.
  clear E1 E2. pose proof (cdiv_mult_ge (2 * P) 32).
  unfold mxfp4_dequantize. rewrite HN, HP, HNs, HPs. change (32 <=? 0)%Z with false. cbv iota. change (Z.to_nat 32) with 32.
  assert ((if P * 2 <? cdiv (2 * P) 32 * 32 then P * 2 else cdiv (2 * P) 32 * 32) = P * 2) as ->.
  { destruct (_ <? _) eqn:E; [done|]. apply Nat.ltb_ge in E. lia. }
  unfold broadcast_size. rewrite !Nat.eqb_refl. eexists. split; [done|]. cbn [t_rows].
  rewrite !expand_dim_id by done. split; [rewrite length_zip_with; lia|]. intros n k Hn Hk.
  assert (k / 2 < P) as Hk2 by (apply Nat.Div0.div_lt_upper_bound; lia).
  destruct (entry_spec 0%Z N P packed n (k / 2)) as (rp & b & Hrp' & Hb & Hbe); [apply G|done..|].
  destruct (entry_spec 127%Z N (cdiv (2 * P) 32) scales n (k / 32)) as (rs & s & Hrs' & Hs & Hse);
    [apply G|done|by apply block_of_half|].
  unfold weight_at. rewrite Hbe, Hse. unfold entry. rewrite lookup_zip_with, Hrp', Hrs'. cbn [mbind option_bind].
  rewrite (dequantize_row_lookup P _ _ _ b s); [done| | |exact (Forall_lookup_1 _ _ _ _ (gi_bytes _ _ _ _ _ _ _ G) Hrp')|done..].
  - exact (Forall_lookup_1 _ _ _ _ Hrp Hrp').
  - exact (Forall_lookup_1 _ _ _ _ Hrs Hrs').
Qed.

(** C21: the fused kernel computes what it documents: for every tile configuration, every
    order in which the programs of the grid run, and whatever lies in memory around the
    tensors, its output is [x @ dequant(weight).T + bias] with the weights that the
    reference dequantisation produces, every entry stored.  (Sums are exact; bfloat16
    rounding is any function that fixes zero and the activations.) *)
Theorem fused_gemm_equals_reference e T order M N P x wp packed scales bias :
  T ∈ configs → order ≡ₚ grid M N T → flatten_packed wp = Ok packed →
  gemm_inputs M N P x packed scales bias →
  ∃ w, mxfp4_dequantize bf16 packed scales 32 = Ok w ∧
       fused_mxfp4_gemm bf16 e T order x wp scales bias = Ok (map (map Some) (linear bf16 x w bias)).
Proof.
  intros HT Ho Hf G. destruct (dequantize_spec _ _ _ _ _ _ _ G) as (w & Hw & HwN & Hwe). exists w. split; [done|].
  assert (0 < BLOCK_M T ∧ 0 < BLOCK_N T ∧ BLOCK_K T = 32) as (HBM & HBN & HBK).
  { repeat (apply elem_of_cons in HT as [->|HT]; [cbn; lia|]). by apply elem_of_nil in HT. }
  destruct (gi_x _ _ _ _ _ _ _ G) as (HM & HK & _), (gi_packed _ _ _ _ _ _ _ G) as (HN & HP & _), (gi_dtypes _ _ _ _ _ _ _ G) as (Hd1 & Hd2 & Hd3).
  unfold fused_mxfp4_gemm. rewrite Hf, HK, HP, Hd1, Hd2, Hd3, (Nat.mul_comm 2 P), Nat.eqb_refl. cbn [negb bool_decide decide decide_rel].
  rewrite !bool_decide_true by done. cbn [negb]. f_equal. unfold read_out, linear.
  rewrite map_map, HwN. cbn [launch_of dim_M dim_N]. rewrite HM, HN. apply map_ext_in. intros m Hm%in_seq.
  rewrite map_map. apply map_ext_in. intros n Hn%in_seq.
  pose proof (run_lookup (launch_of e x packed scales bias) T order m n) as Hrun.
  cbn [launch_of dim_M dim_N stride_out_m stride_out_n] in Hrun. rewrite HM, HN in Hrun. rewrite Hrun by (done || lia).
  rewrite (tile_entry_sum e M N P x packed scales bias G T m n HBK) by lia. rewrite HK.
  do 2 f_equal. apply (f_equal (λ a, a + _)%Qc). apply sum_range_ext. intros k Hk. by rewrite Hwe by lia.
Qed.
End equivalence.

(** Two tokens, two output rows of four weights, [0.5, 1, 1.5, 2] and [-6, 0, 0, 3], scaled by 2 and by 1/2 *)
Definition demo_x : tensor2 Qc := Tensor2 bfloat16 4 [[qc 1 1; qc 2 1; qc 3 1; qc 4 1]; [qc 1 2; qc 0 1; qc 0 1; qc 1 1]].
Definition demo_packed : tensor2 Z := Tensor2 uint8 2 [[33; 67]; [15; 80]]%Z.
Definition demo_scales : tensor2 Z := Tensor2 uint8 1 [[128]; [126]]%Z.
Definition demo_around : surroundings := Surroundings (λ _, qc 7 1) (λ _, 99%Z).

Example demo_product :
  match fused_mxfp4_gemm id demo_around (Tile 32 64 32) (rev (grid 2 2 (Tile 32 64 32))) demo_x (W2 demo_packed) demo_scales (Some [qc 1 1; qc 0 1]) with
  | Ok out => map (map (option_map this)) out
  | Err _ => []
  end = [[Some (31 # 1); Some (3 # 1)]; [Some (11 # 2); Some (0 # 1)]]%Q.
Proof. vm_compute. reflexivity. Qed.

Lemma fused_gemm_equals_reference_witness :
  ∃ w, mxfp4_dequantize id demo_packed demo_scales 32 = Ok w ∧
       fused_mxfp4_gemm id demo_around (Tile 32 64 32) (rev (grid 2 2 (Tile 32 64 32))) demo_x (W2 demo_packed) demo_scales (Some [qc 1 1; qc 0 1])
       = Ok (map (map Some) (linear id demo_x w (Some [qc 1 1; qc 0 1]))).
Proof.
  apply (fused_gemm_equals_reference id demo_around (Tile 32 64 32) (rev (grid 2 2 (Tile 32 64 32))) 2 2 2).
  - do 4 right. left.
  - symmetry. apply Permutation_rev.
  - reflexivity.
  - constructor; cbn; repeat first [split | constructor]; try lia; reflexivity.
Defined.

(** With the documented scales of shape [[N, K//32]] the last tile of a [K] that 32 does not
    divide has no scale: the kernel takes what lies behind the tensor in memory. *)
Example short_scales_read_outside :
  let run_with z :=
    match fused_mxfp4_gemm id (Surroundings (λ _, 0%Qc) (λ _, z)) (Tile 32 64 32) (grid 1 1 (Tile 32 64 32))
            (Tensor2 bfloat16 48 [repeat 1%Qc 48]) (W2 (Tensor2 uint8 24 [repeat 34%Z 24]))
            (Tensor2 uint8 1 [[127%Z]]) None with
    | Ok out => map (map (option_map this)) out
    | Err _ => []
    end in
  run_with 127%Z = [[Some (48 # 1)]]%Q ∧ run_with 128%Z = [[Some (64 # 1)]]%Q.
Proof. vm_compute. done. Qed.
