(* ===== verification/PagedAttention.v ===== *)
(** * The paged attention backend
    (runtime/attention_backend.py, runtime/attention_types.py,
    kernel/paged_attention_ops.py)

    The key and value caches with their layouts, writing tokens through a slot mapping,
    gathering a sequence through its block table, the page metadata for FlashInfer, and
    the dispatch of prefill and decode.

    A cache is a nest of lists in the order of the tensor's dimensions.  The attention
    operators themselves (torch's scaled dot product, the CUDA kernel, FlashInfer's
    wrappers) are arguments.  Moving a tensor to a device or another floating-point type
    is not represented. *)
From S2P Require Import Prelude Tensor.
Open Scope Z_scope.

(** ** Cache specifications (attention_types.py) *)
Inductive kv_dtype := Float16 | Bfloat16 | Float32 | OtherDtype.
Record KVCacheSpec := { num_kv_heads : nat; head_dim : nat; kv_type : kv_dtype; block_size : nat }.
Definition page_size_bytes (s : KVCacheSpec) : res Z :=
  let bytes dtype_size := Z.of_nat (block_size s) * Z.of_nat (num_kv_heads s) * Z.of_nat (head_dim s) * dtype_size * 2 in
  match kv_type s with
  | Float16 | Bfloat16 => Ok (bytes 2)
  | Float32 => Ok (bytes 4)
  | OtherDtype => Err KeyError
  end.
Definition supports_dtype (d : kv_dtype) : bool := match d with OtherDtype => false | _ => true end.
(** The shapes of the key and of the value cache *)
Definition get_kv_cache_shape (s : KVCacheSpec) (num_gpu_blocks : nat) : list nat * list nat :=
  ([num_gpu_blocks; num_kv_heads s; head_dim s / 8; block_size s; 8]%nat,
   [num_gpu_blocks; num_kv_heads s; head_dim s; block_size s]%nat).

(** ** Metadata of a batch *)
Record table := Table { tb_width : nat; tb_rows : list (list Z) }.   (** a tensor of shape [batch, width] *)
Inductive metadata :=
  | LegacyMetadata (is_prefill : bool) (block_table : option table) (slot_mapping : option (list Z)) (seq_lens : option (list Z))
  | RuntimeMetadata (block_tables : table) (seq_lens : list Z) (max_seq_len : Z) (slot_mapping : list Z) (is_prefill : bool).
Definition is_prefill (md : metadata) : bool :=
  match md with LegacyMetadata p _ _ _ => p | RuntimeMetadata _ _ _ _ p => p end.
Definition get_slot_mapping (md : metadata) : option (list Z) :=
  match md with LegacyMetadata _ _ s _ => s | RuntimeMetadata _ _ _ s _ => Some s end.
Definition get_block_tables (md : metadata) : option table :=
  match md with LegacyMetadata _ t _ _ => t | RuntimeMetadata t _ _ _ _ => Some t end.
Definition get_seq_lens (md : metadata) : option (list Z) :=
  match md with LegacyMetadata _ _ _ s => s | RuntimeMetadata _ s _ _ _ => Some s end.
Definition get_max_seq_len (md : metadata) (seq_lens : option (list Z)) : Z :=
  match md with
  | RuntimeMetadata _ _ n _ _ => n
  | LegacyMetadata _ _ _ _ =>
      match seq_lens with Some (n :: ns) => foldl Z.max n ns | _ => 0 end
  end.

Section backend.
Context {V : Type} (zero : V).

(** A token's keys or values: one row of [head_dim] numbers for each head *)
Abbreviation token := (list (list V)).
(** A tensor with the shape torch reports; [rows] are its entries when it has rank 3. *)
Record tensor3 := T3 { shape : list nat; rows : list token }.
(** [num_blocks, num_kv_heads, head_dim / 8, block_size, 8] *)
Abbreviation k_block := (list (list (list (list V)))).
(** [num_blocks, num_kv_heads, head_dim, block_size] *)
Abbreviation v_block := (list (list (list V))).
(** [num_blocks, 2, block_size, num_kv_heads, head_dim] *)
Abbreviation fi_block := (list (list token)).

Record PagedAttentionBackend := {
  spec : KVCacheSpec; num_gpu_blocks : nat;
  k_cache : list k_block; v_cache : list v_block;
  use_flashinfer : bool; fi_kv_cache : option (list fi_block);
  fi_prefill : bool; fi_decode : bool   (** whether the wrappers exist *) }.

Definition zeros_k (s : KVCacheSpec) : k_block :=
  replicate (num_kv_heads s) (replicate (head_dim s / 8) (replicate (block_size s) (replicate 8 zero))).
Definition zeros_v (s : KVCacheSpec) : v_block :=
  replicate (num_kv_heads s) (replicate (head_dim s) (replicate (block_size s) zero)).
Definition zeros_fi (s : KVCacheSpec) : fi_block :=
  replicate 2 (replicate (block_size s) (replicate (num_kv_heads s) (replicate (head_dim s) zero))).

(** [flashinfer] says whether the module was imported and whether its set-up succeeds. *)
Definition init (s : KVCacheSpec) (blocks : nat) (flashinfer : option (res unit)) : res PagedAttentionBackend :=
  if negb (head_dim s mod 8 =? 0)%nat then Err ValueError
  else
    let plain := {| spec := s; num_gpu_blocks := blocks; k_cache := replicate blocks (zeros_k s);
                    v_cache := replicate blocks (zeros_v s); use_flashinfer := false; fi_kv_cache := None;
                    fi_prefill := false; fi_decode := false |} in
    match flashinfer with
    | Some (Ok _) =>
        Ok {| spec := s; num_gpu_blocks := blocks; k_cache := k_cache plain; v_cache := v_cache plain;
              use_flashinfer := true; fi_kv_cache := Some (replicate blocks (zeros_fi s));
              fi_prefill := true; fi_decode := true |}
    | _ => Ok plain
    end.

Definition flashinfer_enabled (b : PagedAttentionBackend) : bool :=
  use_flashinfer b && fi_prefill b && fi_decode b && bool_decide (is_Some (fi_kv_cache b)).

(** ** Writing *)
Definition set_k (c : list k_block) (b : PagedAttentionBackend) : PagedAttentionBackend :=
  {| spec := spec b; num_gpu_blocks := num_gpu_blocks b; k_cache := c; v_cache := v_cache b;
     use_flashinfer := use_flashinfer b; fi_kv_cache := fi_kv_cache b; fi_prefill := fi_prefill b; fi_decode := fi_decode b |}.
Definition set_v (c : list v_block) (b : PagedAttentionBackend) : PagedAttentionBackend :=
  {| spec := spec b; num_gpu_blocks := num_gpu_blocks b; k_cache := k_cache b; v_cache := c;
     use_flashinfer := use_flashinfer b; fi_kv_cache := fi_kv_cache b; fi_prefill := fi_prefill b; fi_decode := fi_decode b |}.
Definition set_fi (c : list fi_block) (b : PagedAttentionBackend) : PagedAttentionBackend :=
  {| spec := spec b; num_gpu_blocks := num_gpu_blocks b; k_cache := k_cache b; v_cache := v_cache b;
     use_flashinfer := use_flashinfer b; fi_kv_cache := Some c; fi_prefill := fi_prefill b; fi_decode := fi_decode b |}.

(** [row.reshape(-1, x)] *)
Definition reshape_row (x : nat) (row : list V) : list (list V) :=
  map (λ c, take x (drop (c * x) row)) (seq 0 (length row / x)).

(** [k_cache[block_id, :, :, token_offset, :] = k.reshape(num_kv_heads, head_dim // x, x)] *)
Definition write_k_block (off : nat) (k : token) (blk : k_block) : k_block :=
  zip_with (λ head row, zip_with (λ col chunk, <[off := chunk]> col) head (reshape_row 8 row)) blk k.
(** [v_cache[block_id, :, :, token_offset] = v] *)
Definition write_v_block (off : nat) (v : token) (blk : v_block) : v_block :=
  zip_with (λ head row, zip_with (λ col x, <[off := x]> col) head row) blk v.
(** [_fi_kv_cache[block_id, 0, token_offset] = k] and [..., 1, ...] for the value *)
Definition write_fi_block (off : nat) (k v : token) (blk : fi_block) : fi_block :=
  alter (<[off := v]>) 1%nat (alter (<[off := k]>) 0%nat blk).

Definition validate_kv (s : KVCacheSpec) (key value : tensor3) (slots : list Z) : option exn :=
  if negb (bool_decide (shape key = shape value)) then Some ValueError
  else match shape key with
       | [num_tokens; heads; dim] =>
           if negb (length slots =? num_tokens)%nat then Some ValueError
           else if negb (heads =? num_kv_heads s)%nat then Some ValueError
           else if negb (dim =? head_dim s)%nat then Some ValueError
           else None
       | _ => Some ValueError
       end.

(** The block and offset of a slot, or the error *)
Definition locate (b : PagedAttentionBackend) (slot : Z) : res (nat * nat) :=
  if slot <? 0 then Err ValueError
  else if (block_size (spec b) =? 0)%nat then Err ZeroDivisionError
  else
    let block_id := slot / Z.of_nat (block_size (spec b)) in
    let token_offset := slot mod Z.of_nat (block_size (spec b)) in
    if Z.of_nat (num_gpu_blocks b) <=? block_id then Err ValueError
    else Ok (Z.to_nat block_id, Z.to_nat token_offset).

Definition write_token (w : Z * (token * token)) : M PagedAttentionBackend unit := λ b,
  match locate b w.1 with
  | Err e => (Err e, b)
  | Ok (block_id, off) =>
      let b := set_k (alter (write_k_block off w.2.1) block_id (k_cache b)) b in
      (Ok tt, set_v (alter (write_v_block off w.2.2) block_id (v_cache b)) b)
  end.
Definition write_kv (key value : tensor3) (slots : list Z) : M PagedAttentionBackend unit := λ b,
  match validate_kv (spec b) key value slots with
  | Some e => (Err e, b)
  | None => for_each (zip slots (zip (rows key) (rows value))) write_token b
  end.

Definition write_token_fi (w : Z * (token * token)) : M PagedAttentionBackend unit := λ b,
  match locate b w.1, fi_kv_cache b with
  | Err e, _ => (Err e, b)
  | Ok (block_id, off), Some c => (Ok tt, set_fi (alter (write_fi_block off w.2.1 w.2.2) block_id c) b)
  | Ok _, None => (Err TypeError, b)
  end.
Definition write_kv_flashinfer (key value : tensor3) (slots : list Z) : M PagedAttentionBackend unit := λ b,
  match fi_kv_cache b with
  | None => (Err RuntimeError, b)
  | Some _ =>
      match validate_kv (spec b) key value slots with
      | Some e => (Err e, b)
      | None => for_each (zip slots (zip (rows key) (rows value))) write_token_fi b
      end
  end.

(** ** Gathering (the SDPA fallback of paged_attention_ops.py) *)

(** [k_block.permute(0, 2, 1, 3).reshape(nkv, block_size, hd_x * x)[:, :tokens, :]] *)
Definition read_k_head (t : nat) (head : list (list (list V))) : list V := concat (map (λ col, nth t col []) head).
Definition gather_k_block (tokens : nat) (blk : k_block) : list (list (list V)) :=
  map (λ head, map (λ t, read_k_head t head) (seq 0 tokens)) blk.
(** [v_block[:, :, :tokens].permute(0, 2, 1)] *)
Definition read_v_head (t : nat) (head : list (list V)) : list V := map (λ row, nth t row zero) head.
Definition gather_v_block (tokens : nat) (blk : v_block) : list (list (list V)) :=
  map (λ head, map (λ t, read_v_head t head) (seq 0 tokens)) blk.
(** [torch.cat(blocks, dim=1)] of tensors with [heads] heads *)
Definition cat_heads (heads : nat) (blocks : list (list (list (list V)))) : list (list (list V)) :=
  map (λ h, concat (map (λ blk, nth h blk []) blocks)) (seq 0 heads).

(** The keys and values of one sequence, heads first *)
Definition gather (keys : list k_block) (values : list v_block) (heads bs : nat) (table_row : list Z) (seq_len : Z)
    : res (list (list (list V)) * list (list (list V))) :=
  if (bs =? 0)%nat then Err ZeroDivisionError else
  let num_blocks := (seq_len + Z.of_nat bs - 1) / Z.of_nat bs in
  blocks ← traverse (λ b : nat,
    phys_block ← tensor_get table_row (Z.of_nat b);
    let tokens_in_block := Z.to_nat (Z.min (Z.of_nat bs) (seq_len - Z.of_nat b * Z.of_nat bs)) in
    k ← tensor_get keys phys_block;
    v ← tensor_get values phys_block;
    Ok (gather_k_block tokens_in_block k, gather_v_block tokens_in_block v)) (seq 0 (Z.to_nat num_blocks));
  Ok (cat_heads heads (map fst blocks), cat_heads heads (map snd blocks)).

(** [repeat_interleave(head_ratio, dim=0)] *)
Definition repeat_heads (ratio : nat) (t : list (list (list V))) : list (list (list V)) := t ≫= λ head, replicate ratio head.
Definition match_heads (ratio : nat) (t : list (list (list V))) : list (list (list V)) :=
  if (1 <? ratio)%nat then repeat_heads ratio t else t.

Section operators.
(** [F.scaled_dot_product_attention(q, k, v, scale, is_causal)] on tensors with heads
    first; an old torch raises [TypeError] for the argument [scale]. *)
Context (sdpa : list (list (list V)) → list (list (list V)) → list (list (list V)) → option V → bool → res (list (list (list V)))).
Context (scale_by : V → list (list (list V)) → list (list (list V))).
(** The CUDA kernel, when it was built and all tensors are on a GPU *)
Context (cuda_kernel : option (list token → list k_block → list v_block → table → list Z → V → Z → res (list token))).

Definition run_sdpa (q k v : list (list (list V))) (scale : V) (is_causal : bool) : res (list (list (list V))) :=
  match sdpa q k v (Some scale) is_causal with
  | Err TypeError => sdpa (scale_by scale q) k v None is_causal
  | r => r
  end.

Definition sdpa_fallback (query : list token) (num_heads : nat) (keys : list k_block) (values : list v_block)
    (bt : table) (seq_lens : list Z) (scale : V) (heads bs : nat) : res (list token) :=
  if (heads =? 0)%nat then Err ZeroDivisionError
  else if negb (num_heads mod heads =? 0)%nat then Err ValueError
  else if (length query =? 0)%nat then Err RuntimeError   (** [torch.cat([])] *)
  else
    traverse (λ iq : nat * token,
      seq_len ← tensor_get seq_lens (Z.of_nat iq.1);
      if seq_len <=? 0 then Ok (map (map (λ _, zero)) iq.2)
      else
        row ← tensor_get (tb_rows bt) (Z.of_nat iq.1);
        kv ← gather keys values heads bs row seq_len;
        let ratio := (num_heads / heads)%nat in
        out ← run_sdpa (map (λ h, [h]) iq.2) (match_heads ratio kv.1) (match_heads ratio kv.2) scale false;
        Ok (map (λ h, nth 0 h []) out))
      (imap (λ i q, (i, q)) query).

Definition paged_attention_fwd (query : list token) (num_heads : nat) (keys : list k_block) (values : list v_block)
    (bt : table) (seq_lens : list Z) (scale : V) (heads bs : nat) (max_seq_len : Z) : res (list token) :=
  match cuda_kernel with
  | Some kernel => kernel query keys values bt seq_lens scale max_seq_len
  | None => sdpa_fallback query num_heads keys values bt seq_lens scale heads bs
  end.

(** ** FlashInfer's page metadata *)
Record page_metadata := Pages {
  qo_indptr : list Z; kv_indptr : list Z; kv_indices : list Z; kv_last_page_len : list Z }.

Definition num_pages (bs : nat) (seq_len : Z) : Z := Z.max ((seq_len + Z.of_nat bs - 1) / Z.of_nat bs) 1.
Definition last_page_len (bs : nat) (seq_len : Z) : Z :=
  if seq_len <=? 0 then 1
  else let rem := seq_len mod Z.of_nat bs in if rem =? 0 then Z.of_nat bs else rem.
(** [[start, start + x0, start + x0 + x1, ...]] *)
Fixpoint running (start : Z) (xs : list Z) : list Z :=
  start :: match xs with [] => [] | x :: xs => running (start + x) xs end.

Definition build_flashinfer_metadata (s : KVCacheSpec) (md : metadata) : res page_metadata :=
  match get_block_tables md, get_seq_lens md with
  | Some bt, Some lens =>
      pages ← traverse (λ ilen : nat * Z,
        if (block_size s =? 0)%nat then Err ZeroDivisionError
        else if Z.of_nat (tb_width bt) <? num_pages (block_size s) ilen.2 then Err ValueError
        else
          row ← tensor_get (tb_rows bt) (Z.of_nat ilen.1);
          Ok (py_slice row 0 (num_pages (block_size s) ilen.2))) (imap (λ i len, (i, len)) lens);
      Ok (Pages (running 0 lens) (running 0 (map (num_pages (block_size s)) lens)) (concat pages)
                (map (last_page_len (block_size s)) lens))
  | _, _ => Err ValueError
  end.

(** ** The forward pass *)

(** FlashInfer's wrappers: a plan from page metadata (with the keyword arguments of newer
    versions or without), and the run that uses the plan made last. *)
Inductive plan_call :=
  | PrefillPlan (pages : page_metadata) (num_qo_heads : nat) (causal_kw : bool)
  | DecodePlan (pages : page_metadata) (num_qo_heads : nat) (extra_kw : bool).
Context (fi_plan : plan_call → res unit) (fi_run : plan_call → list token → list fi_block → res (list token)).
(** [1.0 / math.sqrt(head_dim)] *)
Context (default_scale : nat → V).

Definition call_plan (call : bool → plan_call) : res plan_call :=
  match fi_plan (call false) with
  | Ok _ => Ok (call false)
  | Err TypeError => _ ← fi_plan (call true); Ok (call true)
  | Err e => Err e
  end.

(** [t.transpose(0, 1)] of a tensor with [n] entries in the second dimension *)
Definition transpose {A} (d : A) (n : nat) (t : list (list A)) : list (list A) :=
  map (λ h, map (λ tok, nth h tok d) t) (seq 0 n).
Definition dim (t : tensor3) (i : nat) : nat := nth i (shape t) 0%nat.

Definition prefill_forward (b : PagedAttentionBackend) (query key value : tensor3) (md : metadata) (scale : option V)
    : res (list token) :=
  if negb ((length (shape query) =? 3) && (length (shape key) =? 3) && (length (shape value) =? 3))%nat then Err ValueError
  else if flashinfer_enabled b then
    match fi_kv_cache b with
    | None => Err RuntimeError
    | Some c =>
        pages ← build_flashinfer_metadata (spec b) md;
        plan ← call_plan (PrefillPlan pages (dim query 1));
        fi_run plan (rows query) c
    end
  else
    let num_heads := dim query 1 in
    let kv_heads := dim key 1 in
    if (kv_heads =? 0)%nat then Err ZeroDivisionError
    else if negb (num_heads mod kv_heads =? 0)%nat then Err ValueError
    else
      let ratio := (num_heads / kv_heads)%nat in
      let q := transpose [] num_heads (rows query) in
      let k := match_heads ratio (transpose [] kv_heads (rows key)) in
      let v := match_heads ratio (transpose [] (dim value 1) (rows value)) in
      out ← run_sdpa q k v (default (default_scale (head_dim (spec b))) scale) true;
      Ok (transpose [] (length (rows query)) out).

Definition decode_forward (b : PagedAttentionBackend) (query : tensor3) (md : metadata) (scale : option V) : res (list token) :=
  let ndim := length (shape query) in
  (** a query of rank 2 becomes the only row of a batch *)
  if negb ((ndim =? 2) || (ndim =? 3))%nat then Err ValueError
  else
    let num_heads := if (ndim =? 2)%nat then dim query 0 else dim query 1 in
    if flashinfer_enabled b then
      match fi_kv_cache b with
      | None => Err RuntimeError
      | Some c =>
          pages ← build_flashinfer_metadata (spec b) md;
          plan ← call_plan (DecodePlan pages num_heads);
          fi_run plan (rows query) c
      end
    else
      match get_block_tables md, get_seq_lens md with
      | Some bt, Some lens =>
          paged_attention_fwd (rows query) num_heads (k_cache b) (v_cache b) bt lens
            (default (default_scale (head_dim (spec b))) scale) (num_kv_heads (spec b)) (block_size (spec b))
            (get_max_seq_len md (Some lens))
      | _, _ => Err ValueError
      end.

(** A computation that reads the backend *)
Definition reading {A} (f : PagedAttentionBackend → res A) : M PagedAttentionBackend A := λ b, (f b, b).
Definition forward (query key value : tensor3) (md : option metadata) (scale : option V) : M PagedAttentionBackend (list token) :=
  match md with
  | None => raise ValueError
  | Some md =>
      if is_prefill md then
        match get_slot_mapping md with
        | None => raise ValueError
        | Some slots =>
            write_kv key value slots;;
            b ← get;
            when (flashinfer_enabled b) (write_kv_flashinfer key value slots);;
            reading (λ b, prefill_forward b query key value md scale)
        end
      else reading (λ b, decode_forward b query md scale)
  end.
End operators.
End backend.
Arguments T3 {V}. Arguments shape {V}. Arguments rows {V}.
Arguments PagedAttentionBackend : clear implicits. Arguments tensor3 : clear implicits.
