(* ===== verification/PagedAttentionProps.v ===== *)
(** * What the paged attention backend stores and reads back

    The caches refine a map from slots to keys and values; a batch written through the
    model runner's slot mapping is gathered back through the block tables; FlashInfer's
    metadata covers exactly the pages of each sequence; decoding stores nothing, and the
    layers of a model share one cache. *)
From S2P Require Import Prelude Tensor PagedAttention.
From S2P Require Import ModelRunner ModelRunnerProps.
Open Scope Z_scope.

(** ** One block *)
Section blocks.
Context {V : Type} (zero : V).

Lemma nth_insert_zip {A} (d : A) off (cols : list (list A)) (xs : list A) :
  length cols = length xs → Forall (λ c, off < length c)%nat cols →
  map (λ c, nth off c d) (zip_with (λ c x, <[off := x]> c) cols xs) = xs.
Proof.
  revert xs. induction cols as [|c cols IH]; intros [|x xs] Hl Ho; try done. cbn.
  apply Forall_cons in Ho as [Ho1 Ho2]. rewrite nth_lookup, list_lookup_insert_eq by done. cbn. f_equal.
  apply IH; [by injection Hl|done].
Qed.
Lemma nth_insert_zip_ne {A} (d : A) off off' (cols : list (list A)) (xs : list A) :
  length cols = length xs → off ≠ off' →
  map (λ c, nth off' c d) (zip_with (λ c x, <[off := x]> c) cols xs) = map (λ c, nth off' c d) cols.
Proof.
  intros Hl Hne. revert xs Hl. induction cols as [|c cols IH]; intros [|x xs] Hl; try done. cbn.
  rewrite !nth_lookup, list_lookup_insert_ne by done. f_equal. apply IH. by injection Hl.
Qed.
Lemma Forall_length_insert_zip {A} n off (cols : list (list A)) (xs : list A) :
  Forall (λ c, length c = n) cols → Forall (λ c, length c = n) (zip_with (λ c x, <[off := x]> c) cols xs).
Proof.
  intros H. revert xs. induction H as [|c cols Hc _ IH]; intros [|x xs]; constructor; [by rewrite length_insert|apply IH].
Qed.

Lemma concat_chunks x n (row : list V) :
  concat (map (λ c, take x (drop (c * x) row)) (seq 0 n)) = take (n * x) row.
Proof.
  induction n as [|n IH]; [done|]. rewrite seq_S, map_app, concat_app, IH. cbn [map concat]. rewrite app_nil_r.
  rewrite Nat.add_0_l, take_take_drop. f_equal. lia.
Qed.
Lemma concat_reshape_row (row : list V) : (length row mod 8 = 0)%nat → concat (reshape_row 8 row) = row.
Proof.
  intros Hm. unfold reshape_row. rewrite concat_chunks, take_ge; [done|].
  pose proof (Nat.div_mod_eq (length row) 8). lia.
Qed.
Lemma length_reshape_row (row : list V) : length (reshape_row 8 row) = (length row / 8)%nat.
Proof. unfold reshape_row. by rewrite length_map, length_seq. Qed.

(** The shapes of tokens and blocks *)
Definition token_ok (s : KVCacheSpec) (k : list (list V)) : Prop :=
  length k = num_kv_heads s ∧ Forall (λ row, length row = head_dim s) k.
Definition block_ok {A} (s : KVCacheSpec) (cols : nat) (blk : list (list (list A))) : Prop :=
  length blk = num_kv_heads s ∧
  Forall (λ head, length head = cols ∧ Forall (λ c, length c = block_size s) head) blk.

(** The token at an offset of a block, as the gathering code reads it *)
Definition read_k (off : nat) (blk : list (list (list (list V)))) : list (list V) := map (read_k_head off) blk.
Definition read_v (off : nat) (blk : list (list (list V))) : list (list V) := map (read_v_head zero off) blk.

(** A write replaces the entries at its offset in every head; [f] cuts a head's row into columns. *)
Lemma read_write_same {A B} (d : A) (f : B → list A) (g : list A → B) (s : KVCacheSpec) cols off (k : list B) blk :
  (off < block_size s)%nat → length k = num_kv_heads s → block_ok s cols blk →
  Forall (λ row, length (f row) = cols ∧ g (f row) = row) k →
  map (λ head, g (map (λ c, nth off c d) head)) (zip_with (λ head row, zip_with (λ c x, <[off := x]> c) head (f row)) blk k) = k.
Proof.
  intros Ho Hk [Hb Hh] Hf. rewrite <- Hk in Hb. clear Hk. revert blk Hb Hh.
  induction Hf as [|row k [Hrow Hg] _ IH]; intros [|head blk] Hb Hh; try done. cbn.
  apply Forall_cons in Hh as [[Hl Hc] Hh]. assert (Forall (λ c, (off < length c)%nat) head) as Hc' by (eapply Forall_impl; [exact Hc|intros; cbn in *; lia]).
  rewrite nth_insert_zip, Hg by (done || lia).
  f_equal. apply IH; [by injection Hb|done].
Qed.
Lemma read_write_other {A B C} (d : A) (f : B → list A) (g : list A → C) (s : KVCacheSpec) cols off off' (k : list B) blk :
  off ≠ off' → length k = num_kv_heads s → block_ok s cols blk → Forall (λ row, length (f row) = cols) k →
  map (λ head, g (map (λ c, nth off' c d) head)) (zip_with (λ head row, zip_with (λ c x, <[off := x]> c) head (f row)) blk k)
  = map (λ head, g (map (λ c, nth off' c d) head)) blk.
Proof.
  intros Ho Hk [Hb Hh] Hf. rewrite <- Hk in Hb. clear Hk. revert blk Hb Hh.
  induction Hf as [|row k Hrow _ IH]; intros [|head blk] Hb Hh; try done. cbn.
  apply Forall_cons in Hh as [[Hl Hc] Hh]. rewrite nth_insert_zip_ne by lia. f_equal. apply IH; [by injection Hb|done].
Qed.
Lemma write_block_ok {A B} (f : B → list A) (s : KVCacheSpec) cols off (k : list B) blk :
  length k = num_kv_heads s → block_ok s cols blk → Forall (λ row, length (f row) = cols) k →
  block_ok s cols (zip_with (λ head row, zip_with (λ c x, <[off := x]> c) head (f row)) blk k).
Proof.
  intros Hk [Hb Hh] Hf. split; [rewrite length_zip_with; lia|].
  clear Hk Hb. revert blk Hh. induction Hf as [|row k Hrow _ IH]; intros [|head blk] Hh; try constructor.
  - apply Forall_cons in Hh as [[Hl Hc] _]. split; [rewrite length_zip_with; lia|by apply Forall_length_insert_zip].
  - apply Forall_cons in Hh as [_ Hh]. by apply IH.
Qed.
End blocks.

(** ** The cache as a map from slots *)
Section cache.
Context {V : Type} (zero : V).
Implicit Types b : PagedAttentionBackend V.

Record backend_ok b : Prop := {
  bo_bs : (0 < block_size (spec b))%nat;
  bo_dim : (head_dim (spec b) mod 8 = 0)%nat;
  bo_k : length (k_cache b) = num_gpu_blocks b ∧ Forall (block_ok (spec b) (head_dim (spec b) / 8)) (k_cache b);
  bo_v : length (v_cache b) = num_gpu_blocks b ∧ Forall (block_ok (spec b) (head_dim (spec b))) (v_cache b) }.

(** The specification: what a slot holds *)
Definition slot_view b (slot : Z) : option (list (list V) * list (list V)) :=
  match locate b slot with
  | Ok (blk, off) =>
      kb ← k_cache b !! blk;
      vb ← v_cache b !! blk;
      Some (read_k off kb, read_v zero off vb)
  | Err _ => None
  end.
Definition capacity b : Z := Z.of_nat (num_gpu_blocks b) * Z.of_nat (block_size (spec b)).

Lemma locate_spec b slot :
  (0 < block_size (spec b))%nat → 0 ≤ slot < capacity b →
  ∃ blk off, locate b slot = Ok (blk, off) ∧ (blk < num_gpu_blocks b)%nat ∧ (off < block_size (spec b))%nat ∧
             slot = Z.of_nat blk * Z.of_nat (block_size (spec b)) + Z.of_nat off.
Proof.
  intros Hbs [Hs1 Hs2]. unfold capacity in Hs2. set (n := Z.of_nat (block_size (spec b))) in *.
  pose proof (Z.div_mod slot n ltac:(lia)) as Hdm. pose proof (Z.mod_pos_bound slot n ltac:(lia)).
  assert (0 ≤ slot / n) by (apply Z.div_pos; lia). assert (slot / n < Z.of_nat (num_gpu_blocks b)) by (apply Z.div_lt_upper_bound; lia).
  exists (Z.to_nat (slot / n)), (Z.to_nat (slot mod n)). unfold locate. fold n.
  rewrite (proj2 (Z.ltb_ge slot 0)), (proj2 (Nat.eqb_neq _ 0)), (proj2 (Z.leb_gt _ _)) by lia.
  split_and!; [done|lia..].
Qed.
Lemma locate_out b slot : (0 < block_size (spec b))%nat → ¬ 0 ≤ slot < capacity b → locate b slot = Err ValueError.
Proof.
  intros Hbs Hn. unfold locate, capacity in *. destruct (Z.ltb_spec slot 0); [done|].
  rewrite (proj2 (Nat.eqb_neq _ 0)) by lia. rewrite (proj2 (Z.leb_le _ _)); [done|].
  apply Z.div_le_lower_bound; lia.
Qed.

Lemma block_after {A} (P : A → Prop) (l : list A) n i f :
  length l = n ∧ Forall P l → (∀ x, l !! i = Some x → P x → P (f x)) →
  length (alter f i l) = n ∧ Forall P (alter f i l).
Proof.
  intros [Hl Hf] Hp. split; [by rewrite length_alter|]. apply Forall_lookup_2. intros j x Hj.
  destruct (decide (j = i)) as [->|Hne].
  - rewrite list_lookup_alter_eq in Hj. apply fmap_Some in Hj as (y & Hy & ->).
    apply Hp; [done|exact (Forall_lookup_1 _ _ _ _ Hf Hy)].
  - rewrite list_lookup_alter_ne in Hj by done. exact (Forall_lookup_1 _ _ _ _ Hf Hj).
Qed.

Lemma k_rows_ok s (k : list (list V)) :
  (head_dim s mod 8 = 0)%nat → token_ok s k →
  Forall (λ row, length (reshape_row 8 row) = (head_dim s / 8)%nat ∧ concat (reshape_row 8 row) = row) k.
Proof.
  intros Hd [_ Hk]. eapply Forall_impl; [exact Hk|]. intros row Hr. cbv beta in Hr |- *.
  split; [by rewrite length_reshape_row, Hr|apply concat_reshape_row; by rewrite Hr].
Qed.

(** One token *)
Lemma write_token_spec b slot k v :
  backend_ok b → token_ok (spec b) k → token_ok (spec b) v → 0 ≤ slot < capacity b →
  ∃ b', write_token (slot, (k, v)) b = (Ok tt, b') ∧ backend_ok b' ∧
        spec b' = spec b ∧ num_gpu_blocks b' = num_gpu_blocks b ∧
        ∀ slot', slot_view b' slot' = if decide (slot' = slot) then Some (k, v) else slot_view b slot'.
Proof.
  intros [Hbs Hd Hk0 Hv0] Hk Hv Hs. destruct (locate_spec b slot Hbs Hs) as (blk & off & Hl & Hblk & Hoff & Heq).
  pose proof (k_rows_ok _ _ Hd Hk) as Hkr. pose proof Hv as [Hvl Hvr]. pose proof Hk as [Hkl _].
  assert (Forall (λ row, length (reshape_row 8 row) = (head_dim (spec b) / 8)%nat) k) as Hkr' by (eapply Forall_impl; [exact Hkr|by intros ? []]).
  unfold write_token. cbn [fst snd]. rewrite Hl. eexists. split; [done|]. split; [constructor|split; [done|split; [done|]]]; cbn; try done.
  - apply block_after; [done|]. intros blk' _ Hok. by apply write_block_ok.
  - apply block_after; [done|]. intros blk' _ Hok. by apply (write_block_ok (λ x, x)).
  - intros slot'. unfold slot_view.
    assert (locate (set_v (alter (write_v_block off v) blk (v_cache b)) (set_k (alter (write_k_block off k) blk (k_cache b)) b)) slot' = locate b slot') as Hloc by done.
    cbn in Hloc |- *. rewrite Hloc. clear Hloc.
    destruct (decide (0 ≤ slot' < capacity b)) as [Hs'|Hs'].
    2:{ rewrite decide_False by (intros ->; done). by rewrite locate_out. }
    destruct (locate_spec b slot' Hbs Hs') as (blk' & off' & -> & Hblk' & Hoff' & Heq').
    destruct (decide (blk' = blk)) as [->|Hne].
    + rewrite !list_lookup_alter_eq.
      destruct (lookup_lt_is_Some_2 (k_cache b) blk) as [kb Hkb]; [lia|]. destruct (lookup_lt_is_Some_2 (v_cache b) blk) as [vb Hvb]; [lia|].
      rewrite Hkb, Hvb. cbn.
      pose proof (Forall_lookup_1 _ _ _ _ (proj2 Hk0) Hkb) as Hkok. pose proof (Forall_lookup_1 _ _ _ _ (proj2 Hv0) Hvb) as Hvok. cbn in Hkok, Hvok.
      destruct (decide (slot' = slot)) as [He|He].
      * assert (off' = off) as -> by lia. do 2 f_equal.
        -- apply (read_write_same [] (reshape_row 8) (@concat V) (spec b) (head_dim (spec b) / 8)); done.
        -- apply (read_write_same zero (λ x, x) (λ x, x) (spec b) (head_dim (spec b))); try done.
           eapply Forall_impl; [exact Hvr|done].
      * assert (off ≠ off') as Hoo by lia. do 2 f_equal.
        -- apply (read_write_other [] (reshape_row 8) (@concat V) (spec b) (head_dim (spec b) / 8)); done.
        -- apply (read_write_other zero (λ x, x) (λ x, x) (spec b) (head_dim (spec b))); done.
    + rewrite decide_False by nia. by rewrite !list_lookup_alter_ne.
Qed.

(** *** A batch of tokens *)
Abbreviation write := (Z * (list (list V) * list (list V)))%type.
Implicit Types ws : list write.

(** What a slot holds after writes, when it held [old] *)
Definition last_write ws (slot : Z) (old : option (list (list V) * list (list V))) :=
  foldl (λ acc (w : write), if decide (slot = w.1) then Some w.2 else acc) old ws.
Definition in_range b (slot : Z) : bool := (0 <=? slot) && (slot <? capacity b).
(** The writes before the first slot outside the cache *)
Fixpoint accepted b ws : list write :=
  match ws with
  | [] => []
  | w :: ws => if in_range b w.1 then w :: accepted b ws else []
  end.
Definition tokens_ok (s : KVCacheSpec) ws : Prop := Forall (λ w, token_ok s w.2.1 ∧ token_ok s w.2.2) ws.

Lemma in_range_spec b slot : in_range b slot = true ↔ 0 ≤ slot < capacity b.
Proof. unfold in_range. rewrite andb_true_iff, Z.leb_le, Z.ltb_lt. lia. Qed.
Lemma accepted_all b ws : Forall (λ w, 0 ≤ w.1 < capacity b) ws → accepted b ws = ws.
Proof. induction 1 as [|w ws Hw _ IH]; cbn; [done|]. by rewrite (proj2 (in_range_spec _ _) Hw), IH. Qed.

Lemma write_tokens_spec b ws :
  backend_ok b → tokens_ok (spec b) ws →
  ∃ b', for_each ws write_token b = (if forallb (λ w, in_range b w.1) ws then Ok tt else Err ValueError, b') ∧
        backend_ok b' ∧ spec b' = spec b ∧ num_gpu_blocks b' = num_gpu_blocks b ∧
        ∀ slot, slot_view b' slot = last_write (accepted b ws) slot (slot_view b slot).
Proof.
  revert b. induction ws as [|[slot [k v]] ws IH]; intros b Hb Hw.
  { exists b. by split_and!. }
  apply Forall_cons in Hw as [[Hk Hv] Hw]. cbn [fst snd] in Hk, Hv.
  cbn [for_each forallb accepted fst]. unfold mbind, M_bind. destruct (in_range b slot) eqn:Hr.
  - apply in_range_spec in Hr. destruct (write_token_spec b slot k v Hb Hk Hv Hr) as (b1 & -> & Hb1 & Hs1 & Hn1 & Hview1).
    destruct (IH b1 Hb1) as (b' & Hrun & Hb' & Hs' & Hn' & Hview); [by rewrite Hs1|].
    assert (∀ s, in_range b1 s = in_range b s) as Hir by (intros s'; unfold in_range, capacity; by rewrite Hs1, Hn1).
    assert (accepted b1 ws = accepted b ws) as Hacc by (clear -Hir; induction ws as [|w ws IHw]; cbn; [done|]; by rewrite Hir, IHw).
    exists b'. split; [|split_and!; [done|congruence..|]].
    + cbn [andb]. rewrite Hrun. f_equal. clear -Hir. replace (forallb _ ws) with (forallb (λ w, in_range b w.1) ws); [done|].
      induction ws as [|w ws IHw]; cbn; [done|]. by rewrite Hir, IHw.
    + intros s'. rewrite Hview, Hacc, Hview1. done.
  - exists b. assert (write_token (slot, (k, v)) b = (Err ValueError, b)) as ->.
    { unfold write_token. cbn [fst]. rewrite locate_out; [done|apply Hb|]. intros Hn. apply in_range_spec in Hn. congruence. }
    by split_and!.
Qed.

(** The arguments of a write: [n] tokens of the cache's shape and [n] slots *)
Definition kv_args (s : KVCacheSpec) (key value : tensor3 V) (slots : list Z) : Prop :=
  shape key = [length slots; num_kv_heads s; head_dim s] ∧ shape value = shape key ∧
  length (rows key) = length slots ∧ length (rows value) = length slots ∧
  Forall (token_ok s) (rows key) ∧ Forall (token_ok s) (rows value).

Lemma kv_args_tokens s key value slots : kv_args s key value slots → tokens_ok s (zip slots (zip (rows key) (rows value))).
Proof.
  intros (_ & _ & _ & _ & Hk & Hv). apply Forall_lookup_2. intros i [slot [k v]] Hi.
  apply lookup_zip_with_Some in Hi as (? & [? ?] & [= <- <- <-] & _ & Hkv).
  apply lookup_zip_with_Some in Hkv as (? & ? & [= <- <-] & Hik & Hiv).
  split; [exact (Forall_lookup_1 _ _ _ _ Hk Hik)|exact (Forall_lookup_1 _ _ _ _ Hv Hiv)].
Qed.
Lemma write_kv_run b key value slots :
  kv_args (spec b) key value slots →
  write_kv key value slots b = for_each (zip slots (zip (rows key) (rows value))) write_token b.
Proof.
  intros (Hk & Hv & _). unfold write_kv, validate_kv. rewrite bool_decide_true by done. rewrite Hk, !Nat.eqb_refl. done.
Qed.

(** C19: writing tokens into the paged cache refines updating a map from slots to keys and
    values, through both layouts: every slot before the first one outside the cache holds
    the last token written to it, every other slot is untouched; the write raises
    [ValueError] exactly when some slot is outside, and keeps what came before it. *)
Theorem write_kv_refines b key value slots :
  backend_ok b → kv_args (spec b) key value slots →
  let ws := zip slots (zip (rows key) (rows value)) in
  ∃ b', write_kv key value slots b = (if forallb (in_range b) slots then Ok tt else Err ValueError, b') ∧
        backend_ok b' ∧
        ∀ slot, slot_view b' slot = last_write (accepted b ws) slot (slot_view b slot).
Proof.
  intros Hb Ha ws. destruct (write_tokens_spec b ws Hb (kv_args_tokens _ _ _ _ Ha)) as (b' & Hrun & Hb' & _ & _ & Hview).
  exists b'. split_and!; [|done..]. rewrite write_kv_run by done. fold ws. rewrite Hrun. f_equal.
  assert (ws.*1 = slots) as Hfst by (apply fst_zip; rewrite length_zip_with; destruct Ha as (_ & _ & -> & -> & _); lia).
  assert (∀ l : list write, forallb (λ w, in_range b w.1) l = forallb (in_range b) l.*1) as ->; [|by rewrite Hfst].
  intros l. induction l as [|w l IH]; cbn; [done|]. by rewrite IH.
Qed.
End cache.

(** ** Gathering *)
Lemma concat_blocks {A} (F : nat → A) (bs n c : nat) :
  concat (map (λ b, map (λ t, F (b * bs + t)%nat) (seq 0 (bs `min` (n - b * bs)))) (seq 0 c)) = map F (seq 0 (n `min` (c * bs))).
Proof.
  induction c as [|c IH]; [by rewrite Nat.mul_0_l, Nat.min_0_r|].
  rewrite seq_S, map_app, concat_app, IH. cbn [map concat]. rewrite app_nil_r, Nat.add_0_l.
  destruct (decide (n ≤ c * bs)%nat) as [Hle|Hgt].
  - replace (bs `min` (n - c * bs))%nat with 0%nat by lia. cbn. rewrite app_nil_r. do 2 f_equal. lia.
  - replace (n `min` (c * bs))%nat with (c * bs)%nat by lia.
    replace (n `min` (S c * bs))%nat with (c * bs + bs `min` (n - c * bs))%nat by lia.
    rewrite seq_app, map_app. f_equal.
    pose proof (fmap_add_seq (c * bs) 0 (bs `min` (n - c * bs))) as Hs. rewrite Nat.add_0_r in Hs.
    rewrite Nat.add_0_l, <- Hs. symmetry. apply map_map.
Qed.
Lemma map_seq_lookup {A B} (f : A → B) (d : A) l : map f l = map (λ i, f (default d (l !! i))) (seq 0 (length l)).
Proof.
  induction l as [|x l IH]; [done|]. cbn [length seq map]. f_equal. rewrite <- seq_shift, map_map. exact IH.
Qed.
Lemma nth_map_in {A B} (f : A → B) (d : A) (d' : B) l h : (h < length l)%nat → nth h (map f l) d' = f (nth h l d).
Proof. intros Hh. rewrite (nth_indep _ _ (f d)) by (by rewrite length_map). apply map_nth. Qed.

(** [torch.cat] of the blocks of a sequence, each read up to its last token, lists the tokens in order. *)
Lemma cat_heads_blocks {V X} (rd : nat → X → list V) (blocks : nat → list X) (toks : list (list (list V))) (heads bs : nat) :
  (0 < bs)%nat →
  (∀ i t, (i * bs + t < length toks)%nat → (t < bs)%nat →
     length (blocks i) = heads ∧ toks !! (i * bs + t)%nat = Some (map (rd t) (blocks i))) →
  cat_heads heads (map (λ i, map (λ head, map (λ t, rd t head) (seq 0 (bs `min` (length toks - i * bs)))) (blocks i))
                       (seq 0 (cdiv (length toks) bs)))
  = transpose [] heads toks.
Proof.
  intros Hbs Hat. set (n := length toks) in *. unfold cat_heads, transpose. apply map_ext_in. intros h Hh%in_seq.
  rewrite map_map, (map_seq_lookup (λ tok : list (list V), nth h tok []) []). fold n.
  transitivity (map (λ p, nth h (default [] (toks !! p)) []) (seq 0 (n `min` (cdiv n bs * bs)))).
  2:{ do 2 f_equal. pose proof (cdiv_mult_ge n bs). lia. }
  rewrite <- concat_blocks. f_equal. apply map_ext_in. intros i Hi%in_seq.
  assert (i * bs < n)%nat as Hin by (unfold cdiv in Hi; pose proof (Nat.div_mod_eq (n + bs - 1) bs); nia).
  destruct (Hat i 0%nat) as [Hlen _]; [lia..|].
  destruct (blocks i) as [|x0 bl] eqn:Hbl; [cbn in Hlen; lia|]. rewrite <- Hbl in *.
  rewrite (nth_map_in _ x0) by lia. apply map_ext_in. intros t Ht%in_seq.
  destruct (Hat i t) as [_ ->]; [lia..|]. cbn [default from_option id]. by rewrite (nth_map_in _ x0) by lia.
Qed.

Section gathering.
Context {V : Type} (zero : V).
Implicit Types b : PagedAttentionBackend V.

(** The positions of a sequence lie in blocks of the cache. *)
Definition table_ok b (row : list Z) (n : nat) : Prop :=
  (n ≤ length row * block_size (spec b))%nat ∧ Forall (λ blk, 0 ≤ blk < Z.of_nat (num_gpu_blocks b)) row.

Lemma slot_view_at b row n p :
  backend_ok b → table_ok b row n → (p < n)%nat →
  ∃ blk kb vb, row !! (p / block_size (spec b))%nat = Some (Z.of_nat blk) ∧ k_cache b !! blk = Some kb ∧ v_cache b !! blk = Some vb ∧
    slot_view zero b (slot_at (Z.of_nat (block_size (spec b))) row (Z.of_nat p)) =
      Some (read_k (p mod block_size (spec b)) kb, read_v zero (p mod block_size (spec b)) vb).
Proof.
  intros [Hbs _ [Hk _] [Hv _]] [Hn Hf] Hp. set (bs := block_size (spec b)) in *.
  destruct (lookup_lt_is_Some_2 row (p / bs)%nat) as [z Hz]; [apply Nat.Div0.div_lt_upper_bound; lia|].
  pose proof (Forall_lookup_1 _ _ _ _ Hf Hz) as Hr. cbn in Hr. exists (Z.to_nat z).
  destruct (lookup_lt_is_Some_2 (k_cache b) (Z.to_nat z)) as [kb Hkb]; [lia|].
  destruct (lookup_lt_is_Some_2 (v_cache b) (Z.to_nat z)) as [vb Hvb]; [lia|].
  exists kb, vb. split_and!; [by rewrite Z2Nat.id by lia|done..|].
  unfold slot_at. rewrite <- Nat2Z.inj_div, <- Nat2Z.inj_mod, Nat2Z.id, Hz. cbn [default from_option id].
  pose proof (Nat.mod_upper_bound p bs ltac:(lia)).
  destruct (locate_spec b (z * Z.of_nat bs + Z.of_nat (p mod bs)%nat)) as (blk & off & Hl & _ & Hoff & Heq); [done| |].
  { unfold capacity. fold bs. nia. }
  fold bs in Hoff, Heq. assert (z = Z.of_nat blk) as Hzb by nia. assert (blk = Z.to_nat z ∧ off = (p mod bs)%nat) as [-> ->] by (subst z; split; lia).
  unfold slot_view. rewrite Hl, Hkb, Hvb. done.
Qed.

Lemma gather_spec b row (kvs : list (list (list V) * list (list V))) :
  backend_ok b → table_ok b row (length kvs) →
  (∀ p, (p < length kvs)%nat → slot_view zero b (slot_at (Z.of_nat (block_size (spec b))) row (Z.of_nat p)) = kvs !! p) →
  gather zero (k_cache b) (v_cache b) (num_kv_heads (spec b)) (block_size (spec b)) row (zlen kvs) =
    Ok (transpose [] (num_kv_heads (spec b)) kvs.*1, transpose [] (num_kv_heads (spec b)) kvs.*2).
Proof.
  intros Hb Ht Hview. pose proof (bo_bs b Hb) as Hbs. set (bs := block_size (spec b)) in *. set (n := length kvs) in *.
  set (tok i := (bs `min` (n - i * bs))%nat).
  set (blk i := Z.to_nat (default 0 (row !! i))). set (kb i := default [] (k_cache b !! blk i)). set (vb i := default [] (v_cache b !! blk i)).
  (** the entries of block [i] *)
  assert (∀ i t, (i * bs + t < n)%nat → (t < bs)%nat →
    row !! i = Some (Z.of_nat (blk i)) ∧ k_cache b !! blk i = Some (kb i) ∧ v_cache b !! blk i = Some (vb i) ∧
    kvs !! (i * bs + t)%nat = Some (read_k t (kb i), read_v zero t (vb i))) as Hat.
  { intros i t Hi Htb. destruct (slot_view_at b row n (i * bs + t)%nat) as (k & kb' & vb' & Hrow & Hkb & Hvb & Hsv); [done..|].
    fold bs in Hrow, Hsv. rewrite Nat.div_add_l, Nat.div_small, Nat.add_0_r in Hrow by lia.
    assert (blk i = k) as Hblk by (unfold blk; rewrite Hrow; cbn; lia).
    assert (kb i = kb' ∧ vb i = vb') as [-> ->] by (unfold kb, vb; rewrite Hblk, Hkb, Hvb; done).
    rewrite <- Hview by done. rewrite Hsv, Hblk. split_and!; [done..|].
    rewrite Nat.add_comm, Nat.Div0.mod_add, Nat.mod_small by done. done. }
  unfold gather. rewrite (proj2 (Nat.eqb_neq bs 0)) by lia.
  assert (Z.to_nat ((zlen kvs + Z.of_nat bs - 1) / Z.of_nat bs) = cdiv n bs) as ->.
  { unfold cdiv, zlen. fold n. rewrite <- (Nat2Z.id ((n + bs - 1) / bs)), Nat2Z.inj_div. do 2 f_equal. lia. }
  rewrite (traverse_ok _ (λ i, (gather_k_block (tok i) (kb i), gather_v_block zero (tok i) (vb i)))).
  2:{ intros i Hi%elem_of_seq. destruct (Hat i 0%nat) as (Hr & Hk & Hv & _); [|lia|].
      { unfold cdiv in Hi. pose proof (Nat.div_mod_eq (n + bs - 1) bs). nia. }
      rewrite (tensor_get_nat _ _ _ Hr). cbn [mbind res_mbind]. rewrite (tensor_get_nat _ _ _ Hk), (tensor_get_nat _ _ _ Hv). cbn [mbind res_mbind].
      replace (Z.to_nat _) with (tok i); [done|]. unfold tok, zlen. fold n. lia. }
  cbn [mbind res_mbind]. rewrite !map_map. cbn [fst snd].
  assert (length kvs.*1 = n) as H1 by apply length_fmap. assert (length kvs.*2 = n) as H2 by apply length_fmap.
  pose proof (cat_heads_blocks read_k_head kb kvs.*1 (num_kv_heads (spec b)) bs Hbs) as HK. rewrite H1 in HK.
  pose proof (cat_heads_blocks (read_v_head zero) vb kvs.*2 (num_kv_heads (spec b)) bs Hbs) as HV. rewrite H2 in HV.
  unfold gather_k_block, gather_v_block, tok. rewrite HK, HV; [done| |];
    intros i t Hi Htb; destruct (Hat i t Hi Htb) as (_ & Hk & Hv & Hkv); rewrite list_lookup_fmap, Hkv; (split; [|done]).
  - exact (proj1 (Forall_lookup_1 _ _ _ _ (proj2 (bo_v b Hb)) Hv)).
  - exact (proj1 (Forall_lookup_1 _ _ _ _ (proj2 (bo_k b Hb)) Hk)).
Qed.
End gathering.

(** ** A batch, from the slot mapping to the gathered sequences *)
Lemma NoDup_bind_same {A B} (f : A → list B) l i j x y a :
  NoDup (l ≫= f) → l !! i = Some x → l !! j = Some y → a ∈ f x → a ∈ f y → i = j.
Proof.
  revert i j. induction l as [|z l IH]; intros i j Hnd Hi Hj Hx Hy; [done|].
  cbn [mbind list_bind] in Hnd. apply NoDup_app in Hnd as (_ & Hd & Hnd).
  destruct i as [|i], j as [|j]; cbn in Hi, Hj; [done| | |f_equal; by eapply IH]; simplify_eq;
    exfalso; apply (Hd a); try done; apply list_elem_of_bind; eauto using list_elem_of_lookup_2.
Qed.
Lemma NoDup_bind_part {A B} (f : A → list B) l x : NoDup (l ≫= f) → x ∈ l → NoDup (f x).
Proof.
  induction l as [|z l IH]; intros Hnd Hx; [by apply elem_of_nil in Hx|]. cbn [mbind list_bind] in Hnd.
  apply NoDup_app in Hnd as (H1 & _ & H2). apply elem_of_cons in Hx as [->|Hx]; [done|by apply IH].
Qed.

Lemma slot_pos_inj bs rows i j ri rj p q :
  0 < bs → NoDup (rows ≫= r_table) → rows !! i = Some ri → rows !! j = Some rj →
  0 ≤ p < zlen (r_table ri) * bs → 0 ≤ q < zlen (r_table rj) * bs →
  slot_at bs (r_table ri) p = slot_at bs (r_table rj) q → i = j ∧ p = q.
Proof.
  intros Hbs Hnd Hi Hj Hp Hq Heq.
  destruct (slot_block bs (r_table ri) p (zlen (r_table ri) * bs)) as [x Hx]; [lia..|].
  destruct (slot_block bs (r_table rj) q (zlen (r_table rj) * bs)) as [y Hy]; [lia..|].
  destruct (slot_at_inj _ _ _ _ _ _ _ Hbs Hx Hy Heq) as [<- Hm].
  assert (i = j) as -> by (eapply (NoDup_bind_same r_table); eauto using list_elem_of_lookup_2). split; [done|]. simplify_eq.
  pose proof (NoDup_bind_part _ _ _ Hnd (list_elem_of_lookup_2 _ _ _ Hi)) as Hndt.
  pose proof (NoDup_lookup _ _ _ _ Hndt Hx Hy) as Hd.
  assert (0 ≤ p / bs) by (apply Z.div_pos; lia). assert (0 ≤ q / bs) by (apply Z.div_pos; lia).
  pose proof (Z.div_mod p bs ltac:(lia)). pose proof (Z.div_mod q bs ltac:(lia)). assert (p / bs = q / bs) as Hd' by lia. nia.
Qed.

Section batch.
Context {V : Type} (zero : V).
Implicit Types b : PagedAttentionBackend V.
Abbreviation kv := (list (list V) * list (list V))%type.

(** A sequence of the batch: its row, the tokens the cache has of it, the tokens to add *)
Record chunk := Chunk { c_row : slot_row; c_old : list kv; c_new : list kv }.
Record chunk_ok b (c : chunk) : Prop := {
  ck_ctx : r_ctx (c_row c) = zlen (c_old c);
  ck_len : r_len (c_row c) = zlen (c_new c);
  ck_blocks : Forall (λ blk, 0 ≤ blk < Z.of_nat (num_gpu_blocks b)) (r_table (c_row c));
  ck_room : zlen (c_old c) + zlen (c_new c) ≤ zlen (r_table (c_row c)) * Z.of_nat (block_size (spec b));
  ck_tokens : Forall (λ t, token_ok (spec b) t.1 ∧ token_ok (spec b) t.2) (c_new c);
  ck_old : ∀ p, (p < length (c_old c))%nat →
    slot_view zero b (slot_at (Z.of_nat (block_size (spec b))) (r_table (c_row c)) (Z.of_nat p)) = c_old c !! p }.
Definition writes_of (bs : Z) (items : list chunk) : list (Z * kv) := items ≫= λ c, zip (row_slots bs (c_row c)) (c_new c).

Lemma last_write_in (ws : list (Z * kv)) slot old x :
  (∀ y, (slot, y) ∈ ws → y = x) → (slot, x) ∈ ws ∨ old = Some x → last_write ws slot old = Some x.
Proof.
  unfold last_write. revert old. induction ws as [|[s y] ws IH]; intros old Hu Hin; cbn.
  - destruct Hin as [Hin|]; [by apply elem_of_nil in Hin|done].
  - apply IH; [intros; apply Hu; by right|]. case_decide as Hs; subst.
    + right. f_equal. apply Hu. left.
    + destruct Hin as [[[=]|Hin]%elem_of_cons|Hin]; [done|by left|by right].
Qed.
Lemma last_write_out (ws : list (Z * kv)) slot old : (∀ y, (slot, y) ∉ ws) → last_write ws slot old = old.
Proof.
  unfold last_write. revert old. induction ws as [|[s y] ws IH]; intros old Hu; cbn; [done|].
  rewrite decide_False by (intros ->; apply (Hu y); left). apply IH. intros y' Hy. apply (Hu y'). by right.
Qed.

Lemma elem_of_writes b items slot x :
  Forall (chunk_ok b) items → (slot, x) ∈ writes_of (Z.of_nat (block_size (spec b))) items ↔
  ∃ i c q, items !! i = Some c ∧ c_new c !! q = Some x ∧
    slot = slot_at (Z.of_nat (block_size (spec b))) (r_table (c_row c)) (zlen (c_old c) + Z.of_nat q).
Proof.
  intros Hok. unfold writes_of. rewrite list_elem_of_bind. split.
  - intros (c & Hw & (i & Hi)%list_elem_of_lookup). apply list_elem_of_lookup in Hw as [q Hq].
    apply lookup_zip_with_Some in Hq as (s & y & [= -> ->] & Hs & Hy). exists i, c, q. split_and!; [done..|].
    unfold row_slots in Hs. rewrite list_lookup_fmap in Hs. apply fmap_Some in Hs as (p & Hp & ->).
    apply lookup_seqZ in Hp as [-> _]. by rewrite (ck_ctx _ _ (Forall_lookup_1 _ _ _ _ Hok Hi)).
  - intros (i & c & q & Hi & Hq & ->). exists c. split; [|by eapply list_elem_of_lookup_2].
    destruct (Forall_lookup_1 _ _ _ _ Hok Hi) as [Hctx Hlen _ _ _ _].
    apply list_elem_of_lookup_2 with q. apply lookup_zip_with_Some. eexists _, _. split_and!; [done| |done].
    unfold row_slots. rewrite list_lookup_fmap, fmap_Some. eexists. split; [|by rewrite <- Hctx].
    apply lookup_seqZ. apply lookup_lt_Some in Hq. rewrite Hlen. unfold zlen. lia.
Qed.

Lemma zip_writes b items :
  Forall (chunk_ok b) items →
  zip ((c_row <$> items) ≫= row_slots (Z.of_nat (block_size (spec b))))
      (zip (items ≫= λ c, (c_new c).*1) (items ≫= λ c, (c_new c).*2))
  = writes_of (Z.of_nat (block_size (spec b))) items.
Proof.
  induction 1 as [|c items Hc _ IH]; [done|]. unfold writes_of in *. cbn [fmap list_fmap mbind list_bind].
  rewrite <- IH, (zip_with_app pair) by (by rewrite !length_fmap).
  rewrite (zip_with_app pair (row_slots _ _)).
  - f_equal. f_equal. apply zip_fst_snd.
  - unfold row_slots. rewrite length_fmap, length_seqZ, (ck_len _ _ Hc), zip_fst_snd. unfold zlen. lia.
Qed.

Lemma chunk_pos b items i c p :
  backend_ok b → Forall (chunk_ok b) items → items !! i = Some c → (p < length (c_old c) + length (c_new c))%nat →
  0 ≤ Z.of_nat p < zlen (r_table (c_row c)) * Z.of_nat (block_size (spec b)).
Proof.
  intros Hb Hok Hi Hp. pose proof (ck_room _ _ (Forall_lookup_1 _ _ _ _ Hok Hi)). unfold zlen in *. lia.
Qed.

Lemma writes_in_range b items :
  backend_ok b → Forall (chunk_ok b) items →
  Forall (λ w, 0 ≤ w.1 < capacity b) (writes_of (Z.of_nat (block_size (spec b))) items).
Proof.
  intros Hb Hok. apply Forall_forall. intros [slot x] (i & c & q & Hi & Hq & ->)%(elem_of_writes b items _ _ Hok). cbn [fst].
  pose proof (bo_bs b Hb) as Hbs. apply lookup_lt_Some in Hq.
  pose proof (chunk_pos b items i c (length (c_old c) + q) Hb Hok Hi ltac:(lia)) as Hp.
  destruct (slot_block (Z.of_nat (block_size (spec b))) (r_table (c_row c)) (zlen (c_old c) + Z.of_nat q)
    (zlen (r_table (c_row c)) * Z.of_nat (block_size (spec b)))) as [blk Hblk]; [lia|unfold zlen in *; lia|lia|].
  pose proof (Forall_lookup_1 _ _ _ _ (ck_blocks _ _ (Forall_lookup_1 _ _ _ _ Hok Hi)) Hblk) as Hr. cbn in Hr.
  unfold slot_at, capacity. rewrite Hblk. cbn [default from_option id].
  pose proof (Z.mod_pos_bound (zlen (c_old c) + Z.of_nat q) (Z.of_nat (block_size (spec b))) ltac:(lia)). nia.
Qed.

(** After the writes of a batch the cache holds, at each position of a sequence, its token. *)
Lemma batch_view b items i c p :
  backend_ok b → Forall (chunk_ok b) items → NoDup ((c_row <$> items) ≫= r_table) →
  items !! i = Some c → (p < length (c_old c ++ c_new c))%nat →
  let slot := slot_at (Z.of_nat (block_size (spec b))) (r_table (c_row c)) (Z.of_nat p) in
  last_write (writes_of (Z.of_nat (block_size (spec b))) items) slot (slot_view zero b slot) = (c_old c ++ c_new c) !! p.
Proof.
  intros Hb Hok Hnd Hi Hp slot. rewrite length_app in Hp. pose proof (bo_bs b Hb) as Hbs.
  assert (∀ y, (slot, y) ∈ writes_of (Z.of_nat (block_size (spec b))) items →
    ∃ q, c_new c !! q = Some y ∧ p = (length (c_old c) + q)%nat) as Hin.
  { intros y (j & c' & q & Hj & Hq & Hs)%(elem_of_writes b items _ _ Hok). pose proof (lookup_lt_Some _ _ _ Hq) as Hql.
    destruct (slot_pos_inj (Z.of_nat (block_size (spec b))) (c_row <$> items) i j (c_row c) (c_row c') (Z.of_nat p) (zlen (c_old c') + Z.of_nat q))
      as [-> Hpq]; [lia|done|by rewrite list_lookup_fmap, Hi|by rewrite list_lookup_fmap, Hj|by eapply chunk_pos| |done|].
    { pose proof (chunk_pos b items j c' (length (c_old c') + q) Hb Hok Hj ltac:(lia)). unfold zlen in *. lia. }
    simplify_eq. exists q. split; [done|]. unfold zlen in Hpq. lia. }
  destruct (decide (p < length (c_old c))%nat) as [Hlt|Hge].
  - rewrite last_write_out by (intros y Hy; apply Hin in Hy as (q & _ & ->); lia).
    rewrite lookup_app_l by done. by apply (ck_old _ _ (Forall_lookup_1 _ _ _ _ Hok Hi)).
  - rewrite lookup_app_r by lia. destruct (lookup_lt_is_Some_2 (c_new c) (p - length (c_old c))) as [x Hx]; [lia|]. rewrite Hx.
    apply last_write_in.
    + intros y (q & Hq & ->)%Hin. replace (length (c_old c) + q - length (c_old c))%nat with q in Hx by lia. congruence.
    + left. apply (elem_of_writes b items _ _ Hok). exists i, c, (p - length (c_old c))%nat. split_and!; [done..|].
      unfold slot. f_equal. unfold zlen. lia.
Qed.

(** C20: a batch written through the model runner's slot mapping can be read back through
    the block tables: when the tables share no block, [write_kv] of all new tokens
    succeeds, and gathering any sequence afterwards yields, for each head and in order,
    the keys and values it already had followed by its new ones. *)
Theorem prefill_then_gather b items slots key value :
  backend_ok b → Forall (chunk_ok b) items → NoDup ((c_row <$> items) ≫= r_table) →
  slots_of_rows (Z.of_nat (block_size (spec b))) (r_len <$> (c_row <$> items)) (r_table <$> (c_row <$> items))
    (r_ctx <$> (c_row <$> items)) = Ok slots →
  rows key = (items ≫= λ c, (c_new c).*1) → rows value = (items ≫= λ c, (c_new c).*2) →
  shape key = [length slots; num_kv_heads (spec b); head_dim (spec b)] → shape value = shape key →
  ∃ b', write_kv key value slots b = (Ok tt, b') ∧ backend_ok b' ∧
    ∀ c, c ∈ items →
      let tokens := c_old c ++ c_new c in
      gather zero (k_cache b') (v_cache b') (num_kv_heads (spec b)) (block_size (spec b)) (r_table (c_row c)) (zlen tokens)
      = Ok (transpose [] (num_kv_heads (spec b)) tokens.*1, transpose [] (num_kv_heads (spec b)) tokens.*2).
Proof.
  intros Hb Hok Hnd Hslots Hrk Hrv Hsk Hsv. pose proof (bo_bs b Hb) as Hbs.
  rewrite slots_of_rows_spec in Hslots; [|lia|].
  2:{ apply Forall_fmap. eapply Forall_impl; [exact Hok|]. intros c Hc. cbn. rewrite (ck_ctx _ _ Hc). apply zlen_nonneg. }
  case_decide as Hcov; [|done]. injection Hslots as <-.
  assert (write_kv key value ((c_row <$> items) ≫= row_slots (Z.of_nat (block_size (spec b)))) b =
    for_each (writes_of (Z.of_nat (block_size (spec b))) items) write_token b) as ->.
  { rewrite <- (zip_writes b items Hok), <- Hrk, <- Hrv. unfold write_kv, validate_kv.
    rewrite bool_decide_true by done. rewrite Hsk, !Nat.eqb_refl. done. }
  destruct (write_tokens_spec zero b (writes_of (Z.of_nat (block_size (spec b))) items) Hb) as (b' & Hrun & Hb' & Hs' & Hn' & Hview).
  { apply Forall_forall. intros [slot x] (i & c & q & Hi & Hq & _)%(elem_of_writes b items _ _ Hok).
    exact (Forall_lookup_1 _ _ _ _ (ck_tokens _ _ (Forall_lookup_1 _ _ _ _ Hok Hi)) Hq). }
  pose proof (writes_in_range b items Hb Hok) as Hir. rewrite accepted_all in Hview by done.
  exists b'. split; [|split; [done|]].
  - rewrite Hrun. rewrite (proj2 (forallb_forall _ _)); [done|]. intros w Hw%list_elem_of_In. rewrite Forall_forall in Hir.
    apply in_range_spec. by apply Hir.
  - intros c (i & Hi)%list_elem_of_lookup tokens. rewrite <- Hs'. pose proof (Forall_lookup_1 _ _ _ _ Hok Hi) as Hc. apply gather_spec; [done| |].
    + split; [|rewrite Hn'; apply Hc]. rewrite Hs'. unfold tokens. rewrite length_app. pose proof (ck_room _ _ Hc). unfold zlen in *. lia.
    + intros p Hp. rewrite Hview, Hs'. by eapply batch_view.
Qed.
End batch.

(** ** The pages given to FlashInfer *)
Lemma running_lookup start xs i : (i ≤ length xs)%nat → running start xs !! i = Some (start + zsum (take i xs)).
Proof.
  revert start i. induction xs as [|x xs IH]; intros start i Hi; cbn [length] in Hi.
  - assert (i = 0)%nat as -> by lia. cbn. f_equal. lia.
  - destruct i as [|i]; cbn [running lookup list_lookup take]; [cbn; f_equal; lia|].
    change (running (start + x) xs !! i = Some (start + (x + zsum (take i xs)))). rewrite IH by lia. f_equal. lia.
Qed.
Lemma zsum_take_S xs i x : xs !! i = Some x → zsum (take (S i) xs) = zsum (take i xs) + x.
Proof. intros H. rewrite (take_S_r _ _ _ H), zsum_app. cbn. lia. Qed.
Lemma concat_slice {A} (l : list (list A)) i x :
  l !! i = Some x →
  py_slice (concat l) (zsum (map zlen (take i l))) (zsum (map zlen (take i l)) + zlen x) = x.
Proof.
  intros Hi. rewrite <- (take_drop_middle l i x Hi) at 1. rewrite concat_app. cbn [concat].
  assert (∀ l : list (list A), zsum (map zlen l) = zlen (concat l)) as ->.
  { induction l0 as [|y l0 IH]; [done|]. cbn [map concat]. rewrite zlen_app, <- IH. done. }
  apply py_slice_mid.
Qed.

Section pages.
Context (s : KVCacheSpec) (Hbs : (0 < block_size s)%nat).

Lemma num_pages_pos len : 1 ≤ num_pages (block_size s) len.
Proof. unfold num_pages. lia. Qed.
(** The last page is filled up to the last token. *)
Lemma last_page_spec len :
  0 < len → (num_pages (block_size s) len - 1) * Z.of_nat (block_size s) + last_page_len (block_size s) len = len ∧
            1 ≤ last_page_len (block_size s) len ≤ Z.of_nat (block_size s).
Proof.
  intros Hlen. unfold num_pages, last_page_len. set (bs := Z.of_nat (block_size s)). assert (0 < bs) by lia.
  rewrite (proj2 (Z.leb_gt len 0)) by lia.
  pose proof (Z.div_mod len bs ltac:(lia)) as Hdm. pose proof (Z.mod_pos_bound len bs ltac:(lia)) as Hm.
  assert (0 ≤ len / bs) by (apply Z.div_pos; lia).
  destruct (Z.eqb_spec (len mod bs) 0) as [E|E].
  - rewrite E in Hdm. assert ((len + bs - 1) / bs = len / bs) as ->; [|nia].
    symmetry. apply (Z.div_unique _ _ _ (bs - 1)); lia.
  - assert ((len + bs - 1) / bs = len / bs + 1) as ->; [|nia].
    symmetry. apply (Z.div_unique _ _ _ (len mod bs - 1)); lia.
Qed.

Context (md : metadata) (bt : table) (lens : list Z).
Hypothesis Hbt : get_block_tables md = Some bt.
Hypothesis Hlens : get_seq_lens md = Some lens.
Hypothesis Hrows : length (tb_rows bt) = length lens ∧ Forall (λ row, length row = tb_width bt) (tb_rows bt).

Definition page_rows : list (list Z) := zip_with (λ len row, take (Z.to_nat (num_pages (block_size s) len)) row) lens (tb_rows bt).

Lemma build_metadata_spec :
  match build_flashinfer_metadata s md with
  | Ok pg => pg = Pages (running 0 lens) (running 0 (map (num_pages (block_size s)) lens)) (concat page_rows)
                        (map (last_page_len (block_size s)) lens) ∧
             Forall (λ len, num_pages (block_size s) len ≤ Z.of_nat (tb_width bt)) lens
  | Err e => e = ValueError ∧ ∃ len, len ∈ lens ∧ Z.of_nat (tb_width bt) < num_pages (block_size s) len
  end.
Proof.
  unfold build_flashinfer_metadata. rewrite Hbt, Hlens, (proj2 (Nat.eqb_neq _ 0)) by lia.
  match goal with |- context [traverse ?f ?l] => pose proof (traverse_inv f l) as Ht; destruct (traverse f l) as [pages|e] eqn:E end; cbn [mbind res_mbind].
  - assert (∀ i len, lens !! i = Some len → ∃ row, tb_rows bt !! i = Some row ∧ num_pages (block_size s) len ≤ Z.of_nat (tb_width bt) ∧
      pages !! i = Some (take (Z.to_nat (num_pages (block_size s) len)) row)) as Hp.
    { intros i len Hi. destruct (Forall2_lookup_l _ _ _ i (i, len) Ht) as (y & Hy & Hf); [by rewrite list_lookup_imap, Hi|].
      cbn [fst snd] in Hf. destruct (Z.ltb_spec (Z.of_nat (tb_width bt)) (num_pages (block_size s) len)) as [|Hle]; [done|].
      destruct (lookup_lt_is_Some_2 (tb_rows bt) i) as [row Hrow]; [rewrite (proj1 Hrows); by eapply lookup_lt_Some|].
      rewrite (tensor_get_nat _ _ _ Hrow) in Hf. injection Hf as <-. exists row. split_and!; [done..|].
      rewrite Hy, py_slice_prefix; [done|]. pose proof (num_pages_pos len). lia. }
    split.
    + f_equal. f_equal. apply list_eq. intros i. unfold page_rows. rewrite lookup_zip_with.
      destruct (lens !! i) as [len|] eqn:Hi; cbn.
      * destruct (Hp i len Hi) as (row & -> & _ & ->). done.
      * apply lookup_ge_None. apply Forall2_length in Ht. rewrite length_imap in Ht. apply lookup_ge_None in Hi. lia.
    + apply Forall_lookup_2. intros i len Hi. destruct (Hp i len Hi) as (? & _ & ? & _). done.
  - destruct Ht as ([i len] & Hin & Hf). apply list_elem_of_lookup in Hin as [j Hj]. rewrite list_lookup_imap in Hj.
    apply fmap_Some in Hj as (len' & Hj & [= -> ->]). cbn [fst snd] in Hf.
    destruct (Z.ltb_spec (Z.of_nat (tb_width bt)) (num_pages (block_size s) len')) as [Hlt|Hle].
    + injection Hf as <-. split; [done|]. exists len'. split; [by eapply list_elem_of_lookup_2|done].
    + destruct (lookup_lt_is_Some_2 (tb_rows bt) j) as [row Hrow]; [rewrite (proj1 Hrows); by eapply lookup_lt_Some|].
      rewrite (tensor_get_nat _ _ _ Hrow) in Hf. done.
Qed.

Lemma length_page_rows :
  Forall (λ len, num_pages (block_size s) len ≤ Z.of_nat (tb_width bt)) lens → map zlen page_rows = map (num_pages (block_size s)) lens.
Proof.
  intros Hw. destruct Hrows as [Hl Hr]. unfold page_rows. clear Hlens Hrows. revert Hl Hr. generalize (tb_rows bt).
  induction Hw as [|len lens' Hle _ IH]; intros [|row rows] Hl Hr; try done. apply Forall_cons in Hr as [Hr0 Hr].
  cbn [zip_with map]. f_equal; [|apply IH; [by injection Hl|done]].
  pose proof (num_pages_pos len). unfold zlen. rewrite length_take. lia.
Qed.

(** The page metadata for FlashInfer covers each sequence exactly: entries
    [kv_indptr[i]] to [kv_indptr[i+1]] of [kv_indices] are the first pages of its block
    table, as many as its length needs, the last of them filled up to
    [kv_last_page_len[i]], and [qo_indptr] counts its tokens; a table with too few columns
    is the only error. *)
Theorem flashinfer_pages_exact :
  match build_flashinfer_metadata s md with
  | Ok pg => ∀ i len row, lens !! i = Some len → tb_rows bt !! i = Some row → 0 < len →
      ∃ from to qfrom last, kv_indptr pg !! i = Some from ∧ kv_indptr pg !! S i = Some to ∧
        qo_indptr pg !! i = Some qfrom ∧ qo_indptr pg !! S i = Some (qfrom + len) ∧ kv_last_page_len pg !! i = Some last ∧
        py_slice (kv_indices pg) from to = take (Z.to_nat (to - from)) row ∧ to - from ≤ zlen row ∧
        (to - from - 1) * Z.of_nat (block_size s) + last = len ∧ 1 ≤ last ≤ Z.of_nat (block_size s)
  | Err e => e = ValueError ∧ ∃ len, len ∈ lens ∧ Z.of_nat (tb_width bt) < num_pages (block_size s) len
  end.
Proof.
  pose proof build_metadata_spec as Hspec. destruct (build_flashinfer_metadata s md) as [pg|e]; [|done].
  destruct Hspec as [-> Hwide]. intros i len row Hi Hrow Hlen. cbn [kv_indptr qo_indptr kv_indices kv_last_page_len].
  set (np := num_pages (block_size s)) in *. pose proof (lookup_lt_Some _ _ _ Hi) as Hil.
  assert (map np lens !! i = Some (np len)) as Hnp by (rewrite list_lookup_fmap, Hi; done).
  exists (zsum (take i (map np lens))), (zsum (take i (map np lens)) + np len), (zsum (take i lens)), (last_page_len (block_size s) len).
  rewrite !running_lookup by (rewrite ?length_map; lia). rewrite (zsum_take_S _ _ _ Hnp), (zsum_take_S _ _ _ Hi).
  pose proof (Forall_lookup_1 _ _ _ _ Hwide Hi) as Hw. pose proof (Forall_lookup_1 _ _ _ _ (proj2 Hrows) Hrow) as Hrl. cbn in Hw, Hrl.
  pose proof (num_pages_pos len) as Hpos. fold np in Hpos.
  destruct (last_page_spec len Hlen) as [Hl1 Hl2]. fold np in Hl1.
  assert (page_rows !! i = Some (take (Z.to_nat (np len)) row)) as Hpr by (unfold page_rows; by rewrite lookup_zip_with, Hi, Hrow).
  replace (zsum (take i (map np lens)) + np len - zsum (take i (map np lens))) with (np len) by lia.
  split_and!; try done; try (f_equal; lia).
  - rewrite list_lookup_fmap, Hi. done.
  - pose proof (concat_slice page_rows i _ Hpr) as Hc.
    assert (zlen (take (Z.to_nat (np len)) row) = np len) as Hz by (unfold zlen; rewrite length_take; lia). rewrite Hz in Hc.
    replace (zsum (take i (map np lens))) with (zsum (map zlen (take i page_rows))); [done|].
    rewrite <- firstn_map. by rewrite length_page_rows.
  - unfold zlen. lia.
Qed.
End pages.

(** ** Whole steps *)
Section steps.
Context {V : Type} (zero : V).
Context (sdpa : list (list (list V)) → list (list (list V)) → list (list (list V)) → option V → bool → res (list (list (list V)))).
Context (scale_by : V → list (list (list V)) → list (list (list V))).
Context (cuda_kernel : option (list (list (list V)) → list (list (list (list (list V)))) → list (list (list (list V))) → table → list Z → V → Z → res (list (list (list V))))).
Context (fi_plan : plan_call → res unit) (fi_run : plan_call → list (list (list V)) → list (list (list (list (list V)))) → res (list (list (list V)))).
Context (default_scale : nat → V).
Implicit Types b : PagedAttentionBackend V.
Abbreviation fwd := (forward zero sdpa scale_by cuda_kernel fi_plan fi_run default_scale).

(** The call of one attention layer in one step *)
Record call := Call { cl_query : tensor3 V; cl_key : tensor3 V; cl_value : tensor3 V; cl_md : metadata; cl_scale : option V }.
Definition run_call (c : call) : M (PagedAttentionBackend V) unit :=
  fwd (cl_query c) (cl_key c) (cl_value c) (Some (cl_md c)) (cl_scale c);; mret tt.

Definition same_kv b b' : Prop :=
  spec b' = spec b ∧ num_gpu_blocks b' = num_gpu_blocks b ∧ k_cache b' = k_cache b ∧ v_cache b' = v_cache b.
Lemma same_kv_trans b1 b2 b3 : same_kv b1 b2 → same_kv b2 b3 → same_kv b1 b3.
Proof. intros (?&?&?&?) (?&?&?&?). split_and!; congruence. Qed.
Lemma same_kv_view b b' slot : same_kv b b' → slot_view zero b' slot = slot_view zero b slot.
Proof. intros (Hs & Hn & Hk & Hv). unfold slot_view, locate. by rewrite Hs, Hn, Hk, Hv. Qed.
Lemma same_kv_ok b b' : same_kv b b' → backend_ok b → backend_ok b'.
Proof. intros (Hs & Hn & Hk & Hv) [H1 H2 H3 H4]. constructor; rewrite Hs, ?Hn, ?Hk, ?Hv; done. Qed.

(** FlashInfer's cache is apart from the other two. *)
Lemma write_token_fi_frame w b : same_kv b (write_token_fi w b).2.
Proof. unfold write_token_fi. destruct (locate b w.1) as [[? ?]|]; [|done]. by destruct (fi_kv_cache b). Qed.
Lemma for_each_fi_frame ws b : same_kv b (for_each ws write_token_fi b).2.
Proof.
  revert b. induction ws as [|w ws IH]; intros b; [done|]. cbn [for_each]. unfold mbind, M_bind.
  pose proof (write_token_fi_frame w b) as Hw. destruct (write_token_fi w b) as [[[]|e] b1]; cbn in *; [|done].
  eapply same_kv_trans; [exact Hw|apply IH].
Qed.
Lemma write_kv_fi_frame key value slots b : same_kv b (write_kv_flashinfer key value slots b).2.
Proof.
  unfold write_kv_flashinfer. destruct (fi_kv_cache b); [|done]. destruct (validate_kv _ _ _ _); [done|]. apply for_each_fi_frame.
Qed.

(** What a prefill does to the caches is what [write_kv] does. *)
Lemma prefill_writes q key value md scale slots b :
  is_prefill md = true → get_slot_mapping md = Some slots →
  same_kv (write_kv key value slots b).2 (fwd q key value (Some md) scale b).2.
Proof.
  intros Hp Hm. unfold forward. rewrite Hp, Hm. unfold mbind, M_bind, get, when, reading, mret, M_ret.
  destruct (write_kv key value slots b) as [[[]|e] b1]; cbn; [|done].
  destruct (flashinfer_enabled b1); [|done].
  pose proof (write_kv_fi_frame key value slots b1) as Hf. by destruct (write_kv_flashinfer key value slots b1) as [[[]|e] b2].
Qed.
Lemma prefill_call c slots b :
  is_prefill (cl_md c) = true → get_slot_mapping (cl_md c) = Some slots →
  same_kv (write_kv (cl_key c) (cl_value c) slots b).2 (run_call c b).2.
Proof.
  intros Hp Hm. pose proof (prefill_writes (cl_query c) (cl_key c) (cl_value c) _ (cl_scale c) slots b Hp Hm) as Hw.
  unfold run_call, mbind, M_bind, mret, M_ret. by destruct (fwd _ _ _ _ _ b) as [[out|e] ?].
Qed.
Lemma decode_frame c b : is_prefill (cl_md c) = false → (run_call c b).2 = b.
Proof.
  intros Hd. unfold run_call, forward. rewrite Hd. unfold mbind, M_bind, reading, mret, M_ret. by destruct (decode_forward _ _ _ _ _ _ _ _ _ _ _).
Qed.
Lemma decodes_frame cs b : Forall (λ c, is_prefill (cl_md c) = false) cs → (for_each cs run_call b).2 = b.
Proof.
  intros H. induction H as [|c cs Hc _ IH]; [done|]. cbn [for_each]. unfold mbind, M_bind.
  pose proof (decode_frame c b Hc) as Hf. destruct (run_call c b) as [[[]|e] b1]; cbn in Hf; subst; done.
Qed.

(** A fresh backend holds zeros. *)
Definition zero_token (s : KVCacheSpec) : list (list V) := replicate (num_kv_heads s) (replicate (head_dim s) zero).
Lemma concat_replicate n m (x : V) : concat (replicate n (replicate m x)) = replicate (n * m) x.
Proof. induction n as [|n IH]; cbn; [done|]. by rewrite IH, replicate_add. Qed.
Lemma map_replicate {A B} (f : A → B) n x : map f (replicate n x) = replicate n (f x).
Proof. apply (fmap_replicate f). Qed.
Lemma nth_replicate {A} n t (x d : A) : (t < n)%nat → nth t (replicate n x) d = x.
Proof. intros H. by rewrite nth_lookup, lookup_replicate_2. Qed.

Lemma init_spec s blocks fi b :
  init zero s blocks fi = Ok b → (0 < block_size s)%nat →
  backend_ok b ∧ spec b = s ∧ num_gpu_blocks b = blocks ∧
  ∀ slot, 0 ≤ slot < capacity b → slot_view zero b slot = Some (zero_token s, zero_token s).
Proof.
  intros Hi Hbs. unfold init in Hi. destruct (Nat.eqb_spec (head_dim s mod 8)%nat 0) as [Hd|]; [|done]. cbn [negb] in Hi.
  assert (spec b = s ∧ num_gpu_blocks b = blocks ∧ k_cache b = replicate blocks (zeros_k zero s) ∧ v_cache b = replicate blocks (zeros_v zero s)) as (Hs & Hn & Hk & Hv).
  { destruct fi as [[|]|]; by simplify_eq. }
  split_and!; [|done..|].
  - constructor; rewrite ?Hs, ?Hn, ?Hk, ?Hv; try done; (split; [apply length_replicate|]); apply Forall_replicate;
      (split; [apply length_replicate|]); apply Forall_replicate; (split; [apply length_replicate|]); apply Forall_replicate, length_replicate.
  - intros slot Hr. unfold slot_view. destruct (locate_spec b slot) as (blk & off & -> & Hblk & Hoff & _); [by rewrite Hs|done|].
    rewrite Hk, Hv, !lookup_replicate_2 by lia. cbn [mbind option_bind]. rewrite Hs in Hoff.
    assert (read_k off (zeros_k zero s) = zero_token s ∧ read_v zero off (zeros_v zero s) = zero_token s) as [-> ->]; [|done].
    unfold read_k, read_v, zeros_k, zeros_v, zero_token, read_k_head, read_v_head.
    rewrite !map_replicate, !nth_replicate, concat_replicate by done.
    by replace (head_dim s / 8 * 8)%nat with (head_dim s) by (pose proof (Nat.div_mod_eq (head_dim s) 8); lia).
Qed.

(** Decoding never stores the keys and values of the tokens it is given: after a
    prefill and any decode steps every slot that the prefill did not write still holds
    the zeros of a fresh cache, the slots of all decoded tokens among them. *)
Theorem decode_tokens_never_cached s blocks fi b prefill slots decodes :
  init zero s blocks fi = Ok b → (0 < block_size s)%nat →
  kv_args s (cl_key prefill) (cl_value prefill) slots → Forall (λ slot, 0 ≤ slot < capacity b) slots →
  is_prefill (cl_md prefill) = true → get_slot_mapping (cl_md prefill) = Some slots →
  Forall (λ c, is_prefill (cl_md c) = false) decodes →
  let b' := ((run_call prefill;; for_each decodes run_call) b).2 in
  ∀ slot, 0 ≤ slot < capacity b → slot ∉ slots → slot_view zero b' slot = Some (zero_token s, zero_token s).
Proof.
  intros Hi Hbs Ha Hr Hp Hm Hd b' slot Hslot Hnot.
  destruct (init_spec _ _ _ _ Hi Hbs) as (Hok & Hs & _ & Hz). rewrite <- Hs in Ha.
  assert (same_kv (write_kv (cl_key prefill) (cl_value prefill) slots b).2 b') as Hsame.
  { pose proof (prefill_call prefill slots b Hp Hm) as Hw. unfold b', mbind, M_bind.
    destruct (run_call prefill b) as [[[]|e] b1]; cbn [snd] in *; [|done]. by rewrite (decodes_frame decodes b1 Hd). }
  rewrite (same_kv_view _ _ _ Hsame), (write_kv_run b) by done.
  destruct (write_tokens_spec zero b _ Hok (kv_args_tokens _ _ _ _ Ha)) as (b1 & -> & _ & _ & _ & Hview). cbn [snd].
  rewrite Hview, last_write_out; [by apply Hz|]. intros y Hy. apply Hnot.
  rewrite accepted_all in Hy.
  - apply list_elem_of_lookup in Hy as [i Hi']. apply lookup_zip_with_Some in Hi' as (? & ? & [= <- <-] & Hsl & _).
    by eapply list_elem_of_lookup_2.
  - apply Forall_lookup_2. intros i [s0 y0] Hi'. apply lookup_zip_with_Some in Hi' as (? & ? & [= <- <-] & Hsl & _).
    exact (Forall_lookup_1 _ _ _ _ Hr Hsl).
Qed.

(** The caches after the prefill of one layer *)
Lemma prefill_call_view c slots b j slot :
  backend_ok b → NoDup slots → Forall (λ slot, 0 ≤ slot < capacity b) slots →
  is_prefill (cl_md c) = true → get_slot_mapping (cl_md c) = Some slots → kv_args (spec b) (cl_key c) (cl_value c) slots →
  slots !! j = Some slot →
  let b' := (run_call c b).2 in
  backend_ok b' ∧ spec b' = spec b ∧ num_gpu_blocks b' = num_gpu_blocks b ∧
  slot_view zero b' slot = zip (rows (cl_key c)) (rows (cl_value c)) !! j.
Proof.
  intros Hok Hnd Hr Hp Hm Ha Hj b'. pose proof (prefill_call c slots b Hp Hm) as Hsame. fold b' in Hsame.
  rewrite (write_kv_run b) in Hsame by done.
  destruct (write_tokens_spec zero b _ Hok (kv_args_tokens _ _ _ _ Ha)) as (b2 & Heq & Hok2 & Hs2 & Hn2 & Hview).
  rewrite Heq in Hsame. cbn [snd] in Hsame.
  split_and!; [by eapply same_kv_ok|destruct Hsame as (-> & _); congruence|destruct Hsame as (_ & -> & _); congruence|].
  rewrite (same_kv_view _ _ _ Hsame), Hview, accepted_all.
  2:{ apply Forall_lookup_2. intros i [s0 y0] Hi'. apply lookup_zip_with_Some in Hi' as (? & ? & [= <- <-] & Hsl & _).
      exact (Forall_lookup_1 _ _ _ _ Hr Hsl). }
  destruct (lookup_lt_is_Some_2 (zip (rows (cl_key c)) (rows (cl_value c))) j) as [x Hx].
  { rewrite length_zip_with. apply lookup_lt_Some in Hj. destruct Ha as (_ & _ & -> & -> & _). lia. }
  rewrite Hx. apply last_write_in.
  - intros y [i Hi']%list_elem_of_lookup. apply lookup_zip_with_Some in Hi' as (? & ? & [= <- <-] & Hsl & Hy).
    assert (i = j) as -> by (by eapply NoDup_lookup). congruence.
  - left. apply list_elem_of_lookup_2 with j. by rewrite lookup_zip_with, Hj, Hx.
Qed.

(** Layers that share one backend share one cache: after all of them have run the same prefill,
    each slot holds the keys and values of the last layer only, whatever the other layers
    stored, so that a decode step of any layer attends to the last layer's keys. *)
Theorem layers_share_one_cache b md slots (layers : list call) c :
  backend_ok b → NoDup slots → Forall (λ slot, 0 ≤ slot < capacity b) slots →
  is_prefill md = true → get_slot_mapping md = Some slots →
  Forall (λ c, cl_md c = md ∧ kv_args (spec b) (cl_key c) (cl_value c) slots) (layers ++ [c]) →
  (for_each layers run_call b).1 = Ok tt →
  let b' := (for_each (layers ++ [c]) run_call b).2 in
  ∀ j slot, slots !! j = Some slot → slot_view zero b' slot = zip (rows (cl_key c)) (rows (cl_value c)) !! j.
Proof.
  intros Hok Hnd Hr Hp Hm Hall Hrun b' j slot Hj. unfold b'. clear b'. revert b Hok Hr Hall Hrun.
  induction layers as [|l layers IH]; intros b Hok Hr Hall Hrun.
  - apply Forall_cons in Hall as [[Hmd Ha] _]. cbn [app for_each]. unfold mbind, M_bind, mret, M_ret. subst md.
    destruct (prefill_call_view c slots b j slot Hok Hnd Hr Hp Hm Ha Hj) as (_ & _ & _ & Hview).
    revert Hview. by destruct (run_call c b) as [[[]|e] b2].
  - apply Forall_cons in Hall as [[Hmd Ha] Hall]. cbn [app for_each] in Hrun |- *. unfold mbind, M_bind in Hrun |- *. subst md.
    destruct (prefill_call_view l slots b j slot Hok Hnd Hr Hp Hm Ha Hj) as (H1 & H2 & H3 & _).
    destruct (run_call l b) as [[[]|e] b1]; cbn [fst snd] in *; [|done].
    apply IH; [done|unfold capacity; by rewrite H2, H3|by rewrite H2|done].
Qed.
End steps.

(** ** Witnesses: one head of eight numbers, three blocks of two tokens *)
Definition demo_spec : KVCacheSpec := {| num_kv_heads := 1; head_dim := 8; kv_type := Float16; block_size := 2 |}.
Definition demo_backend : PagedAttentionBackend nat :=
  {| spec := demo_spec; num_gpu_blocks := 3; k_cache := replicate 3 (zeros_k 0%nat demo_spec); v_cache := replicate 3 (zeros_v 0%nat demo_spec);
     use_flashinfer := false; fi_kv_cache := None; fi_prefill := false; fi_decode := false |}.
Definition demo_token (n : nat) : list (list nat) := [seq n 8].
Definition demo_tensor (ns : list nat) : tensor3 nat := T3 [length ns; 1; 8]%nat (map demo_token ns).
Lemma demo_backend_ok : backend_ok demo_backend.
Proof. apply (init_spec 0%nat demo_spec 3 None demo_backend); [reflexivity|cbn; lia]. Qed.
Lemma demo_token_ok n : token_ok demo_spec (demo_token n).
Proof. split; [done|]. constructor; [done|constructor]. Qed.
Lemma demo_args ks vs slots : length ks = length slots → length vs = length slots → kv_args demo_spec (demo_tensor ks) (demo_tensor vs) slots.
Proof.
  intros Hk Hv. unfold kv_args, demo_tensor. cbn [shape rows]. rewrite !length_map, Hk, Hv.
  split_and!; try done; apply Forall_map, Forall_true; intros; apply demo_token_ok.
Qed.

Lemma write_kv_refines_witness :
  let ws := zip [3; 0; 9; 1] (zip (rows (demo_tensor [1; 2; 3; 4]%nat)) (rows (demo_tensor [5; 6; 7; 8]%nat))) in
  ∃ b', write_kv (demo_tensor [1; 2; 3; 4]%nat) (demo_tensor [5; 6; 7; 8]%nat) [3; 0; 9; 1] demo_backend = (Err ValueError, b') ∧
        backend_ok b' ∧
        ∀ slot, slot_view 0%nat b' slot = last_write (accepted demo_backend ws) slot (slot_view 0%nat demo_backend slot).
Proof. apply (write_kv_refines 0%nat demo_backend); [apply demo_backend_ok|by apply demo_args]. Defined.

(** Two sequences: one with a token in slot 0 (a zero) that gets three more, one new *)
Definition demo_items : list (@chunk nat) :=
  [Chunk (mkSlotRow 3 [0; 2] 1) [([replicate 8 0%nat], [replicate 8 0%nat])] (map (λ n, (demo_token n, demo_token (n + 1))) [1; 2; 3]%nat);
   Chunk (mkSlotRow 1 [1] 0) [] [(demo_token 7, demo_token 8)]].
Lemma prefill_then_gather_witness :
  ∃ b', write_kv (demo_tensor [1; 2; 3; 7]%nat) (demo_tensor [2; 3; 4; 8]%nat) [1; 4; 5; 2] demo_backend = (Ok tt, b') ∧ backend_ok b' ∧
    ∀ c, c ∈ demo_items →
      let tokens := c_old c ++ c_new c in
      gather 0%nat (k_cache b') (v_cache b') 1 2 (r_table (c_row c)) (zlen tokens) = Ok (transpose [] 1 tokens.*1, transpose [] 1 tokens.*2).
Proof.
  apply (prefill_then_gather 0%nat demo_backend demo_items [1; 4; 5; 2] (demo_tensor [1; 2; 3; 7]%nat) (demo_tensor [2; 3; 4; 8]%nat));
    [apply demo_backend_ok| |by apply (bool_decide_unpack _); vm_compute|reflexivity..].
  constructor; [|constructor; [|constructor]]; constructor; cbn; try done;
    try (repeat constructor; lia); try (repeat (constructor || apply demo_token_ok); done); try lia.
  intros [|p] Hp; [reflexivity|lia].
Defined.

Definition demo_md : metadata := RuntimeMetadata (Table 2 [[0; 2]; [1; 0]]) [3; 2] 3 [0; 1; 4; 2; 3] true.
Lemma flashinfer_pages_exact_witness :
  match build_flashinfer_metadata demo_spec demo_md with
  | Ok pg => ∀ i len row, [3; 2] !! i = Some len → [[0; 2]; [1; 0]] !! i = Some row → 0 < len →
      ∃ from to qfrom last, kv_indptr pg !! i = Some from ∧ kv_indptr pg !! S i = Some to ∧
        qo_indptr pg !! i = Some qfrom ∧ qo_indptr pg !! S i = Some (qfrom + len) ∧ kv_last_page_len pg !! i = Some last ∧
        py_slice (kv_indices pg) from to = take (Z.to_nat (to - from)) row ∧ to - from ≤ zlen row ∧
        (to - from - 1) * 2 + last = len ∧ 1 ≤ last ≤ 2
  | Err e => e = ValueError ∧ ∃ len, len ∈ [3; 2] ∧ 2 < num_pages 2 len
  end.
Proof.
  apply (flashinfer_pages_exact demo_spec (le_n_S 0 1 (le_S 0 0 (le_n 0))) demo_md (Table 2 [[0; 2]; [1; 0]]) [3; 2] eq_refl eq_refl).
  split; [done|]. by repeat constructor.
Defined.

(** Operators that return their query *)
Definition demo_sdpa (q k v : list (list (list nat))) (scale : option nat) (causal : bool) : res (list (list (list nat))) := Ok q.
Abbreviation demo_run := (run_call 0%nat demo_sdpa (λ _ q, q) None (λ _, Ok tt) (λ _ q _, Ok q) (λ _, 1%nat)).
Definition demo_call (ks vs : list nat) (md : metadata) : @call nat := Call (demo_tensor ks) (demo_tensor ks) (demo_tensor vs) md None.
Definition demo_prefill (slots : list Z) : metadata := LegacyMetadata true None (Some slots) None.
Definition demo_decode : metadata := LegacyMetadata false (Some (Table 1 [[0]])) (Some [1]) (Some [2]).

Lemma decode_tokens_never_cached_witness :
  slot_view 0%nat (((demo_run (demo_call [1]%nat [2]%nat (demo_prefill [0]));; for_each [demo_call [3]%nat [4]%nat demo_decode] demo_run) demo_backend).2) 1
  = Some (zero_token 0%nat demo_spec, zero_token 0%nat demo_spec).
Proof.
  apply (decode_tokens_never_cached 0%nat demo_sdpa (λ _ q, q) None (λ _, Ok tt) (λ _ q _, Ok q) (λ _, 1%nat) demo_spec 3 None demo_backend
    (demo_call [1]%nat [2]%nat (demo_prefill [0])) [0]);
    [reflexivity|cbn; lia|by apply demo_args|by repeat constructor|reflexivity|reflexivity|by repeat constructor|by unfold capacity; cbn|].
  by apply (bool_decide_unpack _); vm_compute.
Defined.

Lemma layers_share_one_cache_witness :
  slot_view 0%nat ((for_each ([demo_call [1]%nat [2]%nat (demo_prefill [0])] ++ [demo_call [3]%nat [4]%nat (demo_prefill [0])]) demo_run demo_backend).2) 0
  = Some (demo_token 3, demo_token 4).
Proof.
  apply (layers_share_one_cache 0%nat demo_sdpa (λ _ q, q) None (λ _, Ok tt) (λ _ q _, Ok q) (λ _, 1%nat) demo_backend (demo_prefill [0]) [0]
    [demo_call [1]%nat [2]%nat (demo_prefill [0])] (demo_call [3]%nat [4]%nat (demo_prefill [0])))
    with (j := 0%nat) (slot := 0);
    [apply demo_backend_ok|apply NoDup_singleton|by repeat constructor|reflexivity|reflexivity| |reflexivity|reflexivity].
  repeat (constructor; [split; [reflexivity|by apply demo_args]|]). constructor.
Defined.
