(* ===== verification/DeepseekStore.v ===== *)
(** * DeepSeek-V4: expert tensors on disk, on the host and on the device
    (models/deepseek_v4/expert_bundle.py, host_offload.py, expert_executor.py
    [make_indexer_bundle_provider], official_offload_adapter.py
    [OfficialExpertHostStore])

    The indexer finds the six tensors of an expert in a checkpoint, three providers
    deliver them through caches.  The files are arguments: [read_header] parses the header
    of a shard, [read_tensor] reads a tensor.  Copying a tensor between host and device
    keeps its value. *)
From Stdlib Require Import String Ascii.
From S2P Require Import Prelude PyCollections Json Tensor.
Import OrderedDict.
Open Scope Z_scope.
Local Open Scope string_scope.
#[local] Arguments String.append !_ _ : simpl nomatch.

(** A computation that does not use the state *)
Definition lift {S A} (r : res A) : M S A := λ s, (r, s).
(** [[f(x) for x in l]] with state *)
Fixpoint traverse_m {S A B} (f : A → M S B) (l : list A) : M S (list B) :=
  match l with
  | [] => mret []
  | x :: l => y ← f x; ys ← traverse_m f l; mret (y :: ys)
  end.

(** ** The indexer (expert_bundle.py) *)
Definition EXPERT_PROJ_NAMES : list string := ["w1"; "w2"; "w3"].
Definition EXPERT_PART_NAMES : list string := ["weight"; "scale"].

Inductive st_dtype := I8 | U8 | F8_E8M0 | F8_E4M3 | BF16 | F16 | F32 | I64.
Definition ST_DTYPE_MAP : list (string * st_dtype) :=
  [("I8", I8); ("U8", U8); ("F8_E8M0", F8_E8M0); ("F8_E4M3", F8_E4M3); ("BF16", BF16); ("F16", F16); ("F32", F32); ("I64", I64)].

Record TensorRef := { tr_key : string; tr_dtype : st_dtype; tr_shape : list Z; tr_shard : string }.
Record tensor_meta := { tm_dtype : string; tm_shape : list Z }.
Abbreviation header := (gmap string tensor_meta).

Definition key_for (layer_id expert_id : Z) (proj part : string) : string :=
  "layers." ++ str_of_Z layer_id ++ ".ffn.experts." ++ str_of_Z expert_id ++ "." ++ proj ++ "." ++ part.
(** The keys of an expert, in the order of the two loops *)
Definition expert_keys (layer_id expert_id : Z) : list string :=
  proj ← EXPERT_PROJ_NAMES; part ← EXPERT_PART_NAMES; [key_for layer_id expert_id proj part].

Record ExpertBundle := { eb_layer : Z; eb_expert : Z; eb_tensors : list TensorRef }.
(** [names.index(name)] *)
Fixpoint index_of (name : string) (names : list string) : res nat :=
  match names with
  | [] => Err ValueError
  | n :: names => if String.eqb name n then Ok 0%nat else i ← index_of name names; Ok (S i)
  end.
Definition part (b : ExpertBundle) (proj part : string) : res TensorRef :=
  i ← index_of proj EXPERT_PROJ_NAMES;
  j ← index_of part EXPERT_PART_NAMES;
  tensor_get (eb_tensors b) (Z.of_nat (i * length EXPERT_PART_NAMES + j)).

Record Indexer := { weight_map : gmap string string; header_cache : gmap string header; n_routed_experts : Z }.

Section checkpoint.
Context {T : Type}.
Context (read_header : string → res header) (read_tensor : string → string → res T).

Definition shard_header (shard : string) : M Indexer header := λ ix,
  match header_cache ix !! shard with
  | Some h => (Ok h, ix)
  | None =>
      match read_header shard with
      | Err e => (Err e, ix)
      | Ok h => (Ok h, {| weight_map := weight_map ix; header_cache := <[shard := h]> (header_cache ix);
                          n_routed_experts := n_routed_experts ix |})
      end
  end.

Definition ref_of (key shard : string) (h : header) : res TensorRef :=
  match h !! key with
  | None => Err KeyError
  | Some meta =>
      match od_get (tm_dtype meta) ST_DTYPE_MAP with
      | None => Err ValueError
      | Some d => Ok {| tr_key := key; tr_dtype := d; tr_shape := tm_shape meta; tr_shard := shard |}
      end
  end.
Definition tensor_ref (key : string) : M Indexer TensorRef :=
  ix ← get;
  match weight_map ix !! key with
  | None => raise KeyError
  | Some shard => h ← shard_header shard; lift (ref_of key shard h)
  end.
Definition bundle (layer_id expert_id : Z) : M Indexer ExpertBundle :=
  refs ← traverse_m tensor_ref (expert_keys layer_id expert_id);
  mret {| eb_layer := layer_id; eb_expert := expert_id; eb_tensors := refs |}.
Definition load_bundle_tensors (b : ExpertBundle) : res (list T) :=
  traverse (λ r, read_tensor (tr_shard r) (tr_key r)) (eb_tensors b).

(** *** What a checkpoint holds for an expert *)
Definition checkpoint_ref (wm : gmap string string) (key : string) : res TensorRef :=
  match wm !! key with None => Err KeyError | Some shard => h ← read_header shard; ref_of key shard h end.
Definition checkpoint_bundle (wm : gmap string string) (layer_id expert_id : Z) : res ExpertBundle :=
  refs ← traverse (checkpoint_ref wm) (expert_keys layer_id expert_id);
  Ok {| eb_layer := layer_id; eb_expert := expert_id; eb_tensors := refs |}.
Definition checkpoint_tensors (wm : gmap string string) (layer_id expert_id : Z) : res (list T) :=
  b ← checkpoint_bundle wm layer_id expert_id; load_bundle_tensors b.

(** ** The cached provider of expert_executor.py *)
Record CachedProvider := { cp_indexer : Indexer; cp_cache : gmap (Z * Z) (list T) }.
Definition on_cp_indexer {A} : M Indexer A → M CachedProvider A :=
  zoom cp_indexer (λ ix s, {| cp_indexer := ix; cp_cache := cp_cache s |}).
Definition cached_provider (cache : bool) (layer_id expert_id : Z) : M CachedProvider (list T) :=
  s ← get;
  match (if cache then cp_cache s !! (layer_id, expert_id) else None) with
  | Some tensors => mret tensors
  | None =>
      b ← on_cp_indexer (bundle layer_id expert_id);
      match load_bundle_tensors b with
      | Err e => raise e
      | Ok tensors =>
          when cache (modify (λ s, {| cp_indexer := cp_indexer s; cp_cache := <[(layer_id, expert_id) := tensors]> (cp_cache s) |}));;
          mret tensors
      end
  end.

(** ** Eviction, the same loop in both LRU stores *)
(** [while len(gpu) > limit: gpu.popitem(last=False)]; [popitem] of an empty dict raises. *)
Fixpoint evict {V} (limit : Z) (gpu : list ((Z * Z) * V)) : res (list ((Z * Z) * V)) :=
  if (limit <? zlen gpu)%Z then match gpu with [] => Err KeyError | _ :: rest => evict limit rest end else Ok gpu.

(** ** HostOffloadBundleProvider (host_offload.py) *)
Record HostProvider := {
  hp_indexer : Indexer; hp_host : gmap (Z * Z) (list T); hp_gpu : list ((Z * Z) * list T); hp_max : Z }.
Definition set_hp_gpu g s : HostProvider := {| hp_indexer := hp_indexer s; hp_host := hp_host s; hp_gpu := g; hp_max := hp_max s |}.
Definition on_hp_indexer {A} : M Indexer A → M HostProvider A :=
  zoom hp_indexer (λ ix s, {| hp_indexer := ix; hp_host := hp_host s; hp_gpu := hp_gpu s; hp_max := hp_max s |}).

Definition ensure_host (layer_id expert_id : Z) : M HostProvider (list T) :=
  s ← get;
  match hp_host s !! (layer_id, expert_id) with
  | Some tensors => mret tensors
  | None =>
      b ← on_hp_indexer (bundle layer_id expert_id);
      match load_bundle_tensors b with
      | Err e => raise e
      | Ok tensors =>
          modify (λ s, {| hp_indexer := hp_indexer s; hp_host := <[(layer_id, expert_id) := tensors]> (hp_host s);
                          hp_gpu := hp_gpu s; hp_max := hp_max s |});;
          mret tensors
      end
  end.
Definition preload_layer (layer_id : Z) : M HostProvider unit :=
  s ← get;
  for_each (map Z.of_nat (seq 0 (Z.to_nat (n_routed_experts (hp_indexer s))))) (λ e, ensure_host layer_id e;; mret tt).
Definition hp_evict_if_needed : M HostProvider unit := λ s,
  match evict (hp_max s) (hp_gpu s) with Ok g => (Ok tt, set_hp_gpu g s) | Err e => (Err e, set_hp_gpu [] s) end.
Definition hp_call (layer_id expert_id : Z) : M HostProvider (list T) :=
  let key := (layer_id, expert_id) in
  s ← get;
  match od_get key (hp_gpu s) with
  | Some tensors => modify (λ s, set_hp_gpu (od_move_to_end key (hp_gpu s)) s);; mret tensors
  | None =>
      tensors ← ensure_host layer_id expert_id;
      modify (λ s, set_hp_gpu (od_set key tensors (hp_gpu s)) s);;
      hp_evict_if_needed;;
      mret tensors
  end.
Definition hp_resident_experts (s : HostProvider) : list (Z * Z) := keys (hp_gpu s).

(** ** OfficialExpertHostStore (official_offload_adapter.py) *)
(** An expert's tensors by name *)
Abbreviation named := (list (string * T)).
Record HostStore := {
  hs_shard_for : gmap string string; hs_open_files : list string;
  hs_host : gmap (Z * Z) named; hs_gpu : list ((Z * Z) * named);
  hs_max : Z; hs_copy_stream : bool   (** the device is a CUDA device *) }.

(** [_build_key_index]: a later shard overrides an earlier one. *)
Definition build_key_index (shards : list string) : res (gmap string string) :=
  headers ← traverse read_header shards;
  Ok (foldl (λ index sh, foldl (λ ix key, <[key := sh.1]> ix) index (map_to_list sh.2).*1) ∅ (zip shards headers)).
Definition hs_init (shards : list string) (limit : Z) (cuda : bool) : res HostStore :=
  index ← build_key_index shards;
  Ok {| hs_shard_for := index; hs_open_files := []; hs_host := ∅; hs_gpu := []; hs_max := limit; hs_copy_stream := cuda |}.

Definition set_hs_gpu g s : HostStore :=
  {| hs_shard_for := hs_shard_for s; hs_open_files := hs_open_files s; hs_host := hs_host s; hs_gpu := g; hs_max := hs_max s;
     hs_copy_stream := hs_copy_stream s |}.
Definition set_hs_host h s : HostStore :=
  {| hs_shard_for := hs_shard_for s; hs_open_files := hs_open_files s; hs_host := h; hs_gpu := hs_gpu s; hs_max := hs_max s;
     hs_copy_stream := hs_copy_stream s |}.
(** [_opener]: a shard is opened once. *)
Definition opener (shard : string) : M HostStore unit := modify (λ s,
  {| hs_shard_for := hs_shard_for s;
     hs_open_files := (if bool_decide (shard ∈ hs_open_files s) then hs_open_files s else (hs_open_files s ++ [shard])%list);
     hs_host := hs_host s; hs_gpu := hs_gpu s; hs_max := hs_max s; hs_copy_stream := hs_copy_stream s |}).
(** The names under which an expert's tensors are kept, with their keys *)
Definition part_names (layer_id expert_id : Z) : list (string * string) :=
  proj ← EXPERT_PROJ_NAMES; p ← EXPERT_PART_NAMES; [(proj ++ "." ++ p, key_for layer_id expert_id proj p)].
Definition load_part (nk : string * string) : M HostStore (string * T) :=
  s ← get;
  match hs_shard_for s !! nk.2 with
  | None => raise KeyError
  | Some shard =>
      opener shard;;
      lift (t ← read_tensor shard nk.2; Ok (nk.1, t))
  end.
Definition load_host (layer_id expert_id : Z) : M HostStore named :=
  s ← get;
  match hs_host s !! (layer_id, expert_id) with
  | Some tensors => mret tensors
  | None =>
      tensors ← traverse_m load_part (part_names layer_id expert_id);
      modify (λ s, set_hs_host (<[(layer_id, expert_id) := tensors]> (hs_host s)) s);;
      mret tensors
  end.
Definition hs_evict : M HostStore unit := λ s,
  match evict (hs_max s) (hs_gpu s) with Ok g => (Ok tt, set_hs_gpu g s) | Err e => (Err e, set_hs_gpu [] s) end.
Definition prefetch_one (layer_id e : Z) : M HostStore unit :=
  let key := (layer_id, e) in
  s ← get;
  if od_mem key (hs_gpu s) then modify (λ s, set_hs_gpu (od_move_to_end key (hs_gpu s)) s)
  else tensors ← load_host layer_id e; modify (λ s, set_hs_gpu (od_set key tensors (hs_gpu s)) s).
Definition prefetch (layer_id : Z) (expert_ids : list Z) : M HostStore unit :=
  s ← get;
  if hs_copy_stream s then for_each expert_ids (prefetch_one layer_id);; hs_evict else mret tt.
Definition hs_get (layer_id expert_id : Z) : M HostStore named :=
  let key := (layer_id, expert_id) in
  s ← get;
  match od_get key (hs_gpu s) with
  | Some tensors => modify (λ s, set_hs_gpu (od_move_to_end key (hs_gpu s)) s);; mret tensors
  | None =>
      tensors ← load_host layer_id expert_id;
      modify (λ s, set_hs_gpu (od_set key tensors (hs_gpu s)) s);;
      hs_evict;;
      mret tensors
  end.
Definition hs_is_resident (layer_id expert_id : Z) (s : HostStore) : bool := od_mem (layer_id, expert_id) (hs_gpu s).

(** What the shards hold for an expert *)
Definition store_tensors (index : gmap string string) (layer_id expert_id : Z) : res named :=
  traverse (λ nk : string * string,
    match index !! nk.2 with
    | None => Err KeyError
    | Some shard => t ← read_tensor shard nk.2; Ok (nk.1, t)
    end) (part_names layer_id expert_id).
End checkpoint.
Arguments CachedProvider : clear implicits. Arguments HostProvider : clear implicits. Arguments HostStore : clear implicits.

(** ** What the executors ask of a provider *)
Class ExpertProvider (S B : Type) (spec : Z → Z → res B) := {
  pv_ok : S → Prop;
  pv_get : Z → Z → M S B;
  (** an expert's tensors, or the error of reading them, whatever the cache holds *)
  pv_get_spec : ∀ l e s, pv_ok s → ∃ s', pv_get l e s = (spec l e, s') ∧ pv_ok s' }.

(** ** The providers of DeepSeek-V4 experts return what the checkpoint holds

    Instances of [ExpertProvider] for the three providers, the bound on resident experts,
    and what prefetching keeps on the device. *)
Import OrderedDict.
Open Scope Z_scope.

Lemma traverse_m_spec {S A B} (I : S → Prop) (f : A → M S B) (g : A → res B) l :
  (∀ x s, I s → ∃ s', f x s = (g x, s') ∧ I s') →
  ∀ s, I s → ∃ s', traverse_m f l s = (traverse g l, s') ∧ I s'.
Proof.
  intros Hf. induction l as [|x l IH]; intros s Hs; cbn [traverse_m traverse].
  { by exists s. }
  destruct (Hf x s Hs) as (s1 & H1 & Hs1). unfold mbind, M_bind. rewrite H1. destruct (g x) as [y|e]; cbn; [|by exists s1].
  destruct (IH s1 Hs1) as (s2 & -> & Hs2). exists s2. by destruct (traverse g l).
Qed.

Lemma evict_drop {V} limit (gpu : list ((Z * Z) * V)) :
  0 ≤ limit → evict limit gpu = Ok (drop (length gpu - Z.to_nat limit) gpu).
Proof.
  intros Hl. induction gpu as [|x gpu IH]; cbn [evict].
  - rewrite (proj2 (Z.ltb_ge limit (zlen []))) by (rewrite zlen_nil; lia). done.
  - destruct (Z.ltb_spec limit (zlen (x :: gpu))) as [Hlt|Hge].
    + rewrite IH. f_equal. rewrite zlen_cons in Hlt. unfold zlen in Hlt.
      replace (length (x :: gpu) - Z.to_nat limit)%nat with (S (length gpu - Z.to_nat limit)) by (cbn; lia). done.
    + rewrite zlen_cons in Hge. unfold zlen in Hge. replace (length (x :: gpu) - Z.to_nat limit)%nat with 0%nat by (cbn; lia). done.
Qed.

(** ** A device cache: entries that agree with [spec], without duplicates, at most [limit] *)
Section lru.
Context {V : Type} (spec : Z * Z → res V).
Implicit Types gpu : list ((Z * Z) * V).

Definition entries_ok gpu : Prop := od_ok gpu ∧ Forall (λ kv, spec kv.1 = Ok kv.2) gpu.
Lemma entries_ok_perm gpu gpu' : gpu ≡ₚ gpu' → entries_ok gpu → entries_ok gpu'.
Proof. intros Hp [H1 H2]. split; [by eapply od_ok_perm|by rewrite <- Hp]. Qed.
Lemma entries_ok_get gpu k v : entries_ok gpu → od_get k gpu = Some v → spec k = Ok v.
Proof. intros [_ Hf] Hg%od_get_Some_elem. rewrite Forall_forall in Hf. exact (Hf _ Hg). Qed.
Lemma entries_ok_drop n gpu : entries_ok gpu → entries_ok (drop n gpu).
Proof.
  intros [H1 H2]. split; [|by apply Forall_drop]. unfold od_ok, keys in *. rewrite fmap_drop.
  rewrite <- (take_drop n gpu.*1) in H1. by apply NoDup_app in H1 as (_ & _ & ?).
Qed.
Lemma entries_ok_add gpu k v : entries_ok gpu → od_get k gpu = None → spec k = Ok v → entries_ok (od_set k v gpu).
Proof.
  intros [H1 H2] Hn Hv. split; [by apply od_set_ok|]. apply od_get_None in Hn. rewrite od_set_fresh by done.
  apply Forall_app. split; [done|]. by constructor.
Qed.
(** A new entry survives the eviction when the limit allows any. *)
Lemma add_evict_spec limit gpu k v :
  0 ≤ limit → entries_ok gpu → zlen gpu ≤ limit → od_get k gpu = None → spec k = Ok v →
  ∃ gpu', evict limit (od_set k v gpu) = Ok gpu' ∧ entries_ok gpu' ∧ zlen gpu' ≤ limit ∧ (0 < limit → od_get k gpu' = Some v).
Proof.
  intros Hl Hok Hlen Hn Hv. rewrite evict_drop by done. eexists. split; [done|].
  split; [by apply entries_ok_drop, entries_ok_add|]. split; [unfold zlen; rewrite length_drop; lia|].
  intros Hpos. apply od_get_None in Hn as Hn'. rewrite od_set_fresh by done. rewrite length_app. cbn [length].
  unfold zlen in Hlen. rewrite drop_app_le by lia.
  assert (k ∉ keys (drop (length gpu + 1 - Z.to_nat limit) gpu)) as Hnd.
  { intros Hin. apply Hn'. unfold keys in *. rewrite fmap_drop in Hin. rewrite <- (take_drop (length gpu + 1 - Z.to_nat limit) gpu.*1). apply elem_of_app. by right. }
  rewrite <- od_set_fresh by done. apply od_get_set_eq.
Qed.
End lru.

(** ** The indexer *)
Section providers.
Context {T : Type} (read_header : string → res (gmap string tensor_meta)) (read_tensor : string → string → res T).
Context (wm : gmap string string).

Definition ix_ok (ix : Indexer) : Prop :=
  weight_map ix = wm ∧ ∀ shard h, header_cache ix !! shard = Some h → read_header shard = Ok h.

Lemma shard_header_run shard ix :
  ix_ok ix → ∃ ix', shard_header read_header shard ix = (read_header shard, ix') ∧ ix_ok ix'.
Proof.
  intros [Hw Hc]. unfold shard_header. destruct (header_cache ix !! shard) as [h|] eqn:E.
  - exists ix. by rewrite (Hc _ _ E).
  - destruct (read_header shard) as [h|e] eqn:Er; [|by exists ix]. eexists. split; [done|]. split; [done|].
    cbn. intros shard' h'. destruct (decide (shard' = shard)) as [->|Hne].
    + rewrite lookup_insert_eq. by intros [= <-].
    + rewrite lookup_insert_ne by done. apply Hc.
Qed.
Lemma tensor_ref_run key ix :
  ix_ok ix → ∃ ix', tensor_ref read_header key ix = (checkpoint_ref read_header wm key, ix') ∧ ix_ok ix'.
Proof.
  intros Hok. unfold tensor_ref, checkpoint_ref. unfold mbind at 1, M_bind, get. rewrite (proj1 Hok).
  destruct (wm !! key) as [shard|]; [|by exists ix].
  destruct (shard_header_run shard ix Hok) as (ix' & Hrun & Hok'). exists ix'. split; [|done].
  unfold mbind, M_bind. rewrite Hrun. by destruct (read_header shard).
Qed.
Lemma bundle_run l e ix :
  ix_ok ix → ∃ ix', bundle read_header l e ix = (checkpoint_bundle read_header wm l e, ix') ∧ ix_ok ix'.
Proof.
  intros Hok. destruct (traverse_m_spec ix_ok (tensor_ref read_header) (checkpoint_ref read_header wm) (expert_keys l e)
    (λ k ix, tensor_ref_run k ix) ix Hok) as (ix' & Hrun & Hok').
  exists ix'. split; [|done]. unfold bundle, checkpoint_bundle, mbind, M_bind. rewrite Hrun. by destruct (traverse _ _).
Qed.

(** The six tensors of an expert lie in the bundle where [part] looks for them. *)
Lemma part_selects_key l e b i j proj p :
  checkpoint_bundle read_header wm l e = Ok b →
  EXPERT_PROJ_NAMES !! i = Some proj → EXPERT_PART_NAMES !! j = Some p →
  ∃ r, part b proj p = Ok r ∧ tr_key r = key_for l e proj p.
Proof.
  unfold checkpoint_bundle. intros Hb Hi Hj.
  pose proof (traverse_inv (checkpoint_ref read_header wm) (expert_keys l e)) as Ht.
  destruct (traverse (checkpoint_ref read_header wm) (expert_keys l e)) as [refs|]; cbn in Hb; [|done]. injection Hb as <-.
  assert (∀ key r, checkpoint_ref read_header wm key = Ok r → tr_key r = key) as Hkey.
  { intros key r. unfold checkpoint_ref. destruct (wm !! key) as [shard|]; [|done]. destruct (read_header shard) as [h|]; cbn; [|done].
    unfold ref_of. destruct (h !! key); [|done]. destruct (od_get _ _); [|done]. by intros [= <-]. }
  unfold expert_keys in Ht. cbn [EXPERT_PROJ_NAMES EXPERT_PART_NAMES mbind list_bind app] in Ht.
  repeat match goal with H : Forall2 _ (_ :: _) _ |- _ => apply Forall2_cons_inv_l in H as (? & ? & ?%Hkey & H & ->) end.
  apply Forall2_nil_inv_l in Ht as ->.
  destruct i as [|[|[|]]]; cbn in Hi; simplify_eq; destruct j as [|[|]]; cbn in Hj; simplify_eq; eexists; (split; [reflexivity|done]).
Qed.

(** ** The cached provider *)
Abbreviation tensors_at l e := (checkpoint_tensors read_header read_tensor wm l e).
Abbreviation tensors_of k := (checkpoint_tensors read_header read_tensor wm k.1 k.2).
Lemma tensors_bundle l e b : checkpoint_bundle read_header wm l e = Ok b → tensors_at l e = load_bundle_tensors read_tensor b.
Proof. intros H. unfold checkpoint_tensors. by rewrite H. Qed.
Lemma tensors_err l e ex : checkpoint_bundle read_header wm l e = Err ex → tensors_at l e = Err ex.
Proof. intros H. unfold checkpoint_tensors. by rewrite H. Qed.
Definition cache_ok {B} (spec : Z * Z → res B) (m : gmap (Z * Z) B) : Prop := ∀ k b, m !! k = Some b → spec k = Ok b.
Lemma cache_ok_insert {B} (spec : Z * Z → res B) m k b : cache_ok spec m → spec k = Ok b → cache_ok spec (<[k := b]> m).
Proof.
  intros Hm Hk k' b'. destruct (decide (k' = k)) as [->|Hne].
  - rewrite lookup_insert_eq. by intros [= <-].
  - rewrite lookup_insert_ne by done. apply Hm.
Qed.

Definition cp_ok (s : CachedProvider T) : Prop := ix_ok (cp_indexer s) ∧ cache_ok (λ k, tensors_of k) (cp_cache s).
Lemma cached_provider_run cache l e s :
  cp_ok s → ∃ s', cached_provider read_header read_tensor cache l e s = (tensors_at l e, s') ∧ cp_ok s'.
Proof.
  intros [Hix Hc]. unfold cached_provider. unfold mbind at 1, M_bind at 1, get.
  destruct (if cache then cp_cache s !! (l, e) else None) as [ts|] eqn:E.
  - destruct cache; [|done]. exists s. pose proof (Hc _ _ E) as Hs. cbn [fst snd] in Hs. by rewrite Hs.
  - destruct (bundle_run l e (cp_indexer s) Hix) as (ix' & Hrun & Hix').
    unfold mbind at 1, M_bind at 1, on_cp_indexer, zoom. rewrite Hrun. cbn [fst snd].
    destruct (checkpoint_bundle read_header wm l e) as [b|ex] eqn:Eb; [|rewrite (tensors_err _ _ _ Eb); by eexists].
    pose proof (tensors_bundle _ _ _ Eb) as Hts. rewrite Hts. destruct (load_bundle_tensors read_tensor b) as [ts|ex]; [|by eexists].
    destruct cache; eexists; (split; [done|]); (split; [done|]); cbn; [|done]. by apply cache_ok_insert.
Qed.
#[export] Instance cached_provider_provider cache :
  ExpertProvider (CachedProvider T) (list T) (checkpoint_tensors read_header read_tensor wm) := {|
  pv_ok := cp_ok; pv_get := cached_provider read_header read_tensor cache; pv_get_spec := cached_provider_run cache |}.

(** ** HostOffloadBundleProvider *)
Record hp_ok (s : HostProvider T) : Prop := {
  hp_ok_ix : ix_ok (hp_indexer s); hp_ok_host : cache_ok (λ k, tensors_of k) (hp_host s);
  hp_ok_gpu : entries_ok (λ k, tensors_of k) (hp_gpu s); hp_ok_max : 0 ≤ hp_max s; hp_ok_len : zlen (hp_gpu s) ≤ hp_max s }.

Lemma ensure_host_run l e s :
  hp_ok s → ∃ s', ensure_host read_header read_tensor l e s = (tensors_at l e, s') ∧ hp_ok s' ∧ hp_gpu s' = hp_gpu s ∧ hp_max s' = hp_max s.
Proof.
  intros [Hix Hc Hg Hm Hl]. unfold ensure_host. unfold mbind at 1, M_bind at 1, get.
  destruct (hp_host s !! (l, e)) as [ts|] eqn:E; [exists s; pose proof (Hc _ _ E) as Hs; cbn [fst snd] in Hs; by rewrite Hs|].
  destruct (bundle_run l e (hp_indexer s) Hix) as (ix' & Hrun & Hix').
  unfold mbind at 1, M_bind at 1, on_hp_indexer, zoom. rewrite Hrun. cbn [fst snd].
  destruct (checkpoint_bundle read_header wm l e) as [b|ex] eqn:Eb; [|rewrite (tensors_err _ _ _ Eb); by eexists].
  pose proof (tensors_bundle _ _ _ Eb) as Hts. rewrite Hts. destruct (load_bundle_tensors read_tensor b) as [ts|ex]; [|by eexists].
  eexists. split; [done|]. split; [|done]. constructor; cbn; try done. by apply cache_ok_insert.
Qed.
Lemma hp_call_run l e s :
  hp_ok s → ∃ s', hp_call read_header read_tensor l e s = (tensors_at l e, s') ∧ hp_ok s'.
Proof.
  intros Hok. unfold hp_call. unfold mbind at 1, M_bind at 1, get.
  destruct (od_get (l, e) (hp_gpu s)) as [ts|] eqn:E.
  - destruct Hok as [Hix Hc Hg Hm Hl]. pose proof (entries_ok_get _ _ _ _ Hg E) as Hs. cbn [fst snd] in Hs. rewrite Hs. eexists. split; [done|].
    pose proof (od_move_to_end_perm (l, e) (hp_gpu s)) as Hp.
    constructor; cbn; try done; [by eapply entries_ok_perm|unfold zlen; by rewrite Hp].
  - destruct (ensure_host_run l e s Hok) as (s1 & Hrun & [Hix Hc Hg Hm Hl] & Hgpu & Hmax).
    unfold mbind at 1, M_bind at 1. rewrite Hrun. destruct (tensors_at l e) as [ts|ex] eqn:Hts; [|by eexists].
    unfold modify, mbind, M_bind, hp_evict_if_needed. cbn [set_hp_gpu hp_gpu hp_max].
    destruct (add_evict_spec (λ k, tensors_of k) (hp_max s1) (hp_gpu s1) (l, e) ts) as (g & -> & Hg' & Hl' & _); try done; [by rewrite Hgpu|].
    eexists. split; [done|]. by constructor.
Qed.
#[export] Instance host_provider :
  ExpertProvider (HostProvider T) (list T) (checkpoint_tensors read_header read_tensor wm) := {|
  pv_ok := hp_ok; pv_get := hp_call read_header read_tensor; pv_get_spec := hp_call_run |}.
End providers.

(** ** OfficialExpertHostStore *)
Section store.
Context {T : Type} (read_header : string → res (gmap string tensor_meta)) (read_tensor : string → string → res T).
Context (index : gmap string string) (limit : Z).
Implicit Types s : HostStore T.
Abbreviation stored k := (store_tensors read_tensor index k.1 k.2).

(** Values are right; the number of resident experts is a matter of [hs_bounded]. *)
Record hs_ok s : Prop := {
  hs_ok_index : hs_shard_for s = index; hs_ok_max : hs_max s = limit;
  hs_ok_host : cache_ok (λ k, stored k) (hs_host s); hs_ok_gpu : entries_ok (λ k, stored k) (hs_gpu s) }.
Definition hs_bounded s : Prop := zlen (hs_gpu s) ≤ limit.

Definition same_store s s' : Prop :=
  hs_shard_for s' = hs_shard_for s ∧ hs_host s' = hs_host s ∧ hs_gpu s' = hs_gpu s ∧ hs_max s' = hs_max s ∧ hs_copy_stream s' = hs_copy_stream s.

Lemma load_part_run nk s0 s :
  hs_shard_for s0 = index → same_store s0 s →
  ∃ s', load_part read_tensor nk s =
    (match index !! nk.2 with None => Err KeyError | Some shard => t ← read_tensor shard nk.2; Ok (nk.1, t) end, s') ∧ same_store s0 s'.
Proof.
  intros Hi Hs. unfold load_part, mbind, M_bind, get, raise. rewrite (proj1 Hs), Hi.
  destruct (index !! nk.2) as [shard|]; [|by exists s]. eexists. split; [done|]. exact Hs.
Qed.
Lemma load_host_run l e s :
  hs_ok s → ∃ s', load_host read_tensor l e s = (store_tensors read_tensor index l e, s') ∧ hs_ok s' ∧ hs_gpu s' = hs_gpu s ∧
    hs_copy_stream s' = hs_copy_stream s.
Proof.
  intros Hok. pose proof Hok as [Hi Hm Hh Hg]. unfold load_host. unfold mbind at 1, M_bind at 1, get.
  destruct (hs_host s !! (l, e)) as [ts|] eqn:E; [exists s; pose proof (Hh _ _ E) as Hs; cbn [fst snd] in Hs; by rewrite Hs|].
  destruct (traverse_m_spec (same_store s) (load_part read_tensor) _ (part_names l e)
    (λ nk s1 H, load_part_run nk s s1 Hi H) s) as (s1 & Hrun & Hs1); [by repeat split|].
  unfold mbind at 1, M_bind at 1. rewrite Hrun. fold (store_tensors read_tensor index l e).
  destruct Hs1 as (H1 & H2 & H3 & H4 & H5).
  destruct (store_tensors read_tensor index l e) as [ts|ex] eqn:Ets; eexists; (split; [done|]); (split; [|done]);
    constructor; cbn; rewrite ?H1, ?H2, ?H3, ?H4; try done. by apply cache_ok_insert.
Qed.

Lemma hs_get_run l e s :
  0 ≤ limit → hs_ok s →
  ∃ s', hs_get read_tensor l e s = (store_tensors read_tensor index l e, s') ∧ hs_ok s' ∧ (hs_bounded s → hs_bounded s') ∧
        (0 < limit → is_ok (store_tensors read_tensor index l e) = true → hs_is_resident l e s' = true).
Proof.
  intros Hlim Hok. unfold hs_get. unfold mbind at 1, M_bind at 1, get.
  destruct (od_get (l, e) (hs_gpu s)) as [ts|] eqn:E.
  - destruct Hok as [Hi Hm Hh Hg]. pose proof (entries_ok_get _ _ _ _ Hg E) as Hs. cbn [fst snd] in Hs. rewrite Hs.
    eexists. split; [done|]. pose proof (od_move_to_end_perm (l, e) (hs_gpu s)) as Hp. split_and!.
    + constructor; cbn; try done. by eapply entries_ok_perm.
    + unfold hs_bounded, zlen. cbn. by rewrite Hp.
    + intros _ _. unfold hs_is_resident. cbn. apply od_mem_true. unfold keys. rewrite Hp. by eapply od_get_Some_mem.
  - destruct (load_host_run l e s Hok) as (s1 & Hrun & Hok1 & Hgpu & _). pose proof Hok1 as [Hi Hm Hh Hg].
    unfold mbind at 1, M_bind at 1. rewrite Hrun. destruct (store_tensors read_tensor index l e) as [ts|ex] eqn:Ets.
    2:{ exists s1. split_and!; try done. unfold hs_bounded. by rewrite Hgpu. }
    unfold modify, mbind, M_bind, hs_evict. cbn [set_hs_gpu hs_gpu hs_max]. rewrite Hm, evict_drop by done.
    eexists. split; [done|]. rewrite <- Hgpu in E. split_and!.
    + constructor; cbn; try done. apply entries_ok_drop. by apply entries_ok_add.
    + intros _. unfold hs_bounded, zlen. cbn. rewrite length_drop. lia.
    + intros Hpos _. unfold hs_is_resident. cbn. apply od_get_None in E. rewrite od_set_fresh, length_app by done. cbn [length].
      rewrite drop_app. apply od_mem_true. unfold keys. rewrite fmap_app. apply elem_of_app. right.
      replace (length (hs_gpu s1) + 1 - Z.to_nat limit - length (hs_gpu s1))%nat with 0%nat by lia. left.
Qed.

Lemma prefetch_one_run l e s :
  hs_ok s → ∃ s', prefetch_one read_tensor l e s = (_ ← (if od_mem (l, e) (hs_gpu s) then Ok [] else store_tensors read_tensor index l e); Ok tt, s') ∧
    hs_ok s' ∧ hs_copy_stream s' = hs_copy_stream s ∧
    (is_ok (store_tensors read_tensor index l e) = true → keys (hs_gpu s') = (filter (λ k, k ≠ (l, e)) (keys (hs_gpu s)) ++ [(l, e)])%list).
Proof.
  intros Hok. unfold prefetch_one. unfold mbind at 1, M_bind at 1, get. pose proof Hok as [Hi Hm Hh Hg].
  assert (∀ d : list ((Z * Z) * list (string * T)), od_ok d → filter (λ k, k ≠ (l, e)) (keys d) = keys (od_del (l, e) d)) as Hfil.
  { unfold od_ok, keys. induction d as [|[k v] d IH]; [done|]. cbn [fmap list_fmap fst od_del]. intros [Hk Hd]%NoDup_cons. rewrite filter_cons.
    destruct (decide ((l, e) = k)) as [<-|Hne].
    - rewrite decide_False by tauto. clear -Hk. induction (d.*1) as [|x xs IHx]; [done|]. apply not_elem_of_cons in Hk as [? ?].
      rewrite filter_cons, decide_True by done. f_equal. by apply IHx.
    - rewrite decide_True by done. cbn [fmap list_fmap fst]. f_equal. by apply IH. }
  destruct (od_mem (l, e) (hs_gpu s)) eqn:E.
  - eexists. split; [done|]. pose proof (od_move_to_end_perm (l, e) (hs_gpu s)) as Hp. split_and!; [|done|].
    + constructor; cbn; try done. by eapply entries_ok_perm.
    + intros _. cbn. rewrite Hfil by apply Hg. unfold od_move_to_end. unfold od_mem in E. apply bool_decide_eq_true in E as [v Hv].
      rewrite Hv. unfold keys. by rewrite fmap_app.
  - destruct (load_host_run l e s Hok) as (s1 & Hrun & Hok1 & Hgpu & Hcs). pose proof Hok1 as [Hi1 Hm1 Hh1 Hg1].
    unfold mbind at 1, M_bind. rewrite Hrun. destruct (store_tensors read_tensor index l e) as [ts|ex] eqn:Ets; [|by exists s1].
    apply od_mem_false in E. eexists. split; [done|]. split_and!; [|done|].
    + constructor; cbn; try done. apply entries_ok_add; [done| |done]. apply od_get_None. by rewrite Hgpu.
    + intros _. cbn. rewrite Hfil by apply Hg. rewrite Hgpu, od_set_fresh, od_del_fresh by done. unfold keys. by rewrite fmap_app.
Qed.

Definition loadable (l e : Z) : Prop := is_ok (store_tensors read_tensor index l e) = true.

Lemma loadable_step l e (resident : bool) :
  loadable l e → (_ ← (if resident then Ok [] else store_tensors read_tensor index l e); Ok tt) = Ok tt.
Proof. unfold loadable. intros H. destruct resident; [done|]. by destruct (store_tensors _ _ _ _). Qed.

Lemma prefetch_loop_ok l es s :
  hs_ok s → let s' := (for_each es (prefetch_one read_tensor l) s).2 in hs_ok s' ∧ hs_copy_stream s' = hs_copy_stream s.
Proof.
  revert s. induction es as [|e es IH]; intros s Hok; [done|]. cbn [for_each]. unfold mbind, M_bind.
  destruct (prefetch_one_run l e s Hok) as (s1 & -> & Hok1 & Hcs & _).
  destruct (_ ≫= _) as [[]|ex]; cbn; [|done]. destruct (IH s1 Hok1) as [H1 H2]. split; [done|congruence].
Qed.
Lemma prefetch_loop_keys l es s :
  hs_ok s → NoDup es → Forall (loadable l) es →
  ∃ s', for_each es (prefetch_one read_tensor l) s = (Ok tt, s') ∧ hs_ok s' ∧
    keys (hs_gpu s') = (filter (λ k, k ∉ pair l <$> es) (keys (hs_gpu s)) ++ (pair l <$> es))%list.
Proof.
  revert s. induction es as [|e es IH]; intros s Hok Hnd Hld.
  { exists s. split_and!; [done..|]. cbn [fmap list_fmap]. rewrite app_nil_r. symmetry.
    clear. induction (keys (hs_gpu s)) as [|k ks IH]; [done|]. rewrite filter_cons, decide_True by apply not_elem_of_nil. by rewrite IH. }
  apply NoDup_cons in Hnd as [Hne Hnd]. apply Forall_cons in Hld as [Hl Hld]. cbn [for_each]. unfold mbind at 1, M_bind.
  destruct (prefetch_one_run l e s Hok) as (s1 & -> & Hok1 & _ & Hk1). specialize (Hk1 Hl).
  rewrite (loadable_step l e _ Hl).
  destruct (IH s1 Hok1 Hnd Hld) as (s2 & -> & Hok2 & Hk2). exists s2. split_and!; [done..|].
  rewrite Hk2, Hk1, filter_app. cbn [fmap list_fmap].
  assert ((l, e) ∉ pair l <$> es) as Hnin by (intros (x & [= <-] & Hx)%list_elem_of_fmap; done).
  rewrite (filter_cons _ (l, e) []), decide_True by done. cbn [filter list_filter].
  rewrite list_filter_filter, <- app_assoc. cbn [app]. f_equal. apply list_filter_iff. intros k. rewrite not_elem_of_cons. tauto.
Qed.

(** Prefetching the experts a layer is about to run keeps all of them on the device
    when there are at most [max_resident_experts] of them, evicting only others, and the
    number of resident experts stays within that bound. *)
Theorem prefetch_keeps_active l es s :
  0 ≤ limit → hs_ok s → hs_copy_stream s = true → NoDup es → Forall (loadable l) es → zlen es ≤ limit →
  ∃ s', prefetch read_tensor l es s = (Ok tt, s') ∧ hs_ok s' ∧ hs_bounded s' ∧ Forall (λ e, hs_is_resident l e s' = true) es.
Proof.
  intros Hlim Hok Hcs Hnd Hld Hlen. destruct (prefetch_loop_keys l es s Hok Hnd Hld) as (s1 & Hrun & Hok1 & Hk1).
  pose proof Hok1 as [Hi Hm Hh Hg].
  unfold prefetch. unfold mbind at 1, M_bind at 1, get. rewrite Hcs. unfold mbind, M_bind. rewrite Hrun.
  unfold hs_evict. rewrite Hm, evict_drop by done. eexists. split; [done|]. split_and!.
  - constructor; cbn; try done. by apply entries_ok_drop.
  - unfold hs_bounded, zlen. cbn. rewrite length_drop. lia.
  - apply Forall_forall. intros e He. unfold hs_is_resident. cbn. apply od_mem_true. unfold keys in *. rewrite fmap_drop, Hk1.
    assert (length (hs_gpu s1) = length (hs_gpu s1).*1) as -> by (by rewrite length_fmap). rewrite Hk1, length_app, length_fmap.
    unfold zlen in Hlen. rewrite drop_app_le by lia. apply elem_of_app. right. by apply list_elem_of_fmap_2.
Qed.

(** The store as a provider *)
Definition store_ok s : Prop := hs_ok s ∧ 0 ≤ limit.
Lemma store_get_spec l e s : store_ok s → ∃ s', hs_get read_tensor l e s = (store_tensors read_tensor index l e, s') ∧ store_ok s'.
Proof. intros [Hok Hlim]. destruct (hs_get_run l e s Hlim Hok) as (s' & Hrun & Hok' & _). by exists s'. Qed.
#[export] Instance store_provider : ExpertProvider (HostStore T) (list (string * T)) (store_tensors read_tensor index) := {|
  pv_ok := store_ok; pv_get := hs_get read_tensor; pv_get_spec := store_get_spec |}.
Lemma store_prefetch_spec l es s :
  store_ok s → NoDup es → Forall (loadable l) es → ∃ s', prefetch read_tensor l es s = (Ok tt, s') ∧ store_ok s'.
Proof.
  intros [Hok Hlim] Hnd Hld. unfold prefetch. unfold mbind at 1, M_bind at 1, get. destruct (hs_copy_stream s); [|by exists s].
  destruct (prefetch_loop_keys l es s Hok Hnd Hld) as (s1 & Hrun & Hok1 & _). pose proof Hok1 as [Hi Hm Hh Hg].
  unfold mbind, M_bind. rewrite Hrun. unfold hs_evict. rewrite Hm, evict_drop by done. eexists. split; [done|]. split; [|done].
  constructor; cbn; try done. by apply entries_ok_drop.
Qed.

(** *** Any use of the store *)
Inductive store_op := OpPrefetch (l : Z) (es : list Z) | OpGet (l e : Z).
Definition after_op s (op : store_op) : HostStore T :=
  match op with
  | OpPrefetch l es => (prefetch read_tensor l es s).2
  | OpGet l e => (hs_get read_tensor l e s).2
  end.
Lemma after_op_ok s op : 0 ≤ limit → hs_ok s → hs_ok (after_op s op).
Proof.
  intros Hlim Hok. destruct op as [l es|l e]; cbn [after_op].
  - unfold prefetch. unfold mbind at 1, M_bind at 1, get. destruct (hs_copy_stream s); [|done].
    destruct (prefetch_loop_ok l es s Hok) as [Hok1 _]. unfold mbind, M_bind.
    destruct (for_each es (prefetch_one read_tensor l) s) as [[[]|ex] s1]; cbn in *; [|done].
    pose proof Hok1 as [Hi Hm Hh Hg]. unfold hs_evict. rewrite Hm, evict_drop by done. constructor; cbn; try done. by apply entries_ok_drop.
  - destruct (hs_get_run l e s Hlim Hok) as (s' & -> & Hok' & _). done.
Qed.
Lemma after_op_bounded s op :
  0 ≤ limit → hs_ok s → hs_bounded s → match op with OpPrefetch l es => Forall (loadable l) es | OpGet _ _ => True end →
  hs_bounded (after_op s op).
Proof.
  intros Hlim Hok Hb Hld. destruct op as [l es|l e]; cbn [after_op].
  - unfold prefetch. unfold mbind at 1, M_bind at 1, get. destruct (hs_copy_stream s); [|done].
    assert (∀ s0, hs_ok s0 → (for_each es (prefetch_one read_tensor l) s0).1 = Ok tt) as Hrun.
    { clear -Hld. induction Hld as [|e es Hl _ IH]; intros s0 Hok0; [done|]. cbn [for_each]. unfold mbind at 1, M_bind.
      destruct (prefetch_one_run l e s0 Hok0) as (s1 & -> & Hok1 & _).
      rewrite (loadable_step l e _ Hl). by apply IH. }
    specialize (Hrun s Hok). destruct (prefetch_loop_ok l es s Hok) as [Hok1 _]. unfold mbind, M_bind.
    destruct (for_each es (prefetch_one read_tensor l) s) as [[[]|ex] s1]; cbn in *; [|done].
    unfold hs_evict. rewrite (hs_ok_max _ Hok1), evict_drop by done. unfold hs_bounded, zlen. cbn. rewrite length_drop. lia.
  - destruct (hs_get_run l e s Hlim Hok) as (s' & -> & _ & Hb' & _). by apply Hb'.
Qed.
End store.

(** Whatever was prefetched and fetched before, and whatever failed, the expert store
    returns the tensors the checkpoint's shards hold for the expert, or the error of
    reading them; when every prefetch could be read at most [max_resident_experts] experts
    are on the device, and the one just fetched is among them. *)
Theorem store_serves_checkpoint {T} read_header (read_tensor : string → string → res T) shards limit cuda s0 ops l e :
  hs_init read_header shards limit cuda = Ok s0 → 0 ≤ limit →
  let index := hs_shard_for s0 in
  let s := foldl (after_op read_tensor) s0 ops in
  ∃ s', hs_get read_tensor l e s = (store_tensors read_tensor index l e, s') ∧
    (Forall (λ op, match op with OpPrefetch l es => Forall (loadable read_tensor index l) es | OpGet _ _ => True end) ops → zlen (hs_gpu s') ≤ limit) ∧
    (0 < limit → is_ok (store_tensors read_tensor index l e) = true → hs_is_resident l e s' = true).
Proof.
  intros Hinit Hlim index s.
  assert (hs_ok read_tensor index limit s0 ∧ hs_bounded limit s0) as [H0 Hb0].
  { subst index. unfold hs_init in Hinit. destruct (build_key_index read_header shards) as [ix|]; cbn in Hinit; [|done]. injection Hinit as <-.
    split; [constructor; cbn; try done|]. - split; [constructor|constructor]. - unfold hs_bounded. cbn. by rewrite zlen_nil. }
  assert (hs_ok read_tensor index limit s) as Hok.
  { unfold s. clearbody index. clear -Hlim H0. revert s0 H0. induction ops as [|op ops IH]; intros s0 H0; [done|]. cbn. apply IH. by apply after_op_ok. }
  destruct (hs_get_run read_tensor index limit l e s Hlim Hok) as (s' & Hrun & _ & Hb & Hres). exists s'. split_and!; [done| |done].
  intros Hld. apply Hb. unfold s. clearbody index. clear -Hlim H0 Hb0 Hld. revert s0 H0 Hb0. induction Hld as [|op ops Hop _ IH]; intros s0 H0 Hb0; [done|].
  cbn. apply IH; [by apply after_op_ok|by eapply after_op_bounded].
Qed.

(** ** Witnesses: one shard with three experts of layer 0, and a limit of two *)
Definition demo_header : gmap string tensor_meta :=
  list_to_map (map (λ k, (k, {| tm_dtype := "I8"; tm_shape := [2; 2] |})) (expert_keys 0 0 ++ expert_keys 0 1 ++ expert_keys 0 2)).
Definition demo_read_header (shard : string) : res (gmap string tensor_meta) := if String.eqb shard "a" then Ok demo_header else Err KeyError.
Definition demo_read (shard key : string) : res string := Ok key.
Definition demo_index : gmap string string := match build_key_index demo_read_header ["a"] with Ok ix => ix | Err _ => ∅ end.
Definition demo_store : HostStore string :=
  {| hs_shard_for := demo_index; hs_open_files := []; hs_host := ∅; hs_gpu := []; hs_max := 2; hs_copy_stream := true |}.
Lemma demo_store_ok : hs_ok demo_read demo_index 2 demo_store.
Proof. constructor; try done. split; constructor. Qed.

Lemma prefetch_keeps_active_witness :
  ∃ s', prefetch demo_read 0 [2; 0] demo_store = (Ok tt, s') ∧ hs_ok demo_read demo_index 2 s' ∧ hs_bounded 2 s' ∧
        Forall (λ e, hs_is_resident 0 e s' = true) [2; 0].
Proof.
  apply (prefetch_keeps_active demo_read demo_index 2 0 [2; 0] demo_store); [lia|apply demo_store_ok|reflexivity| | |by vm_compute].
  - by apply (bool_decide_unpack _); vm_compute.
  - repeat constructor; unfold loadable; vm_compute; reflexivity.
Defined.

Lemma store_serves_checkpoint_witness :
  ∃ s', hs_get demo_read 0 1 (foldl (after_op demo_read) demo_store [OpPrefetch 0 [0; 7]; OpGet 0 2]) =
          (store_tensors demo_read demo_index 0 1, s') ∧
    (Forall (λ op, match op with OpPrefetch l es => Forall (loadable demo_read demo_index l) es | OpGet _ _ => True end)
       [OpPrefetch 0 [0; 7]; OpGet 0 2] → zlen (hs_gpu s') ≤ 2) ∧
    (0 < 2 → is_ok (store_tensors demo_read demo_index 0 1) = true → hs_is_resident 0 1 s' = true).
Proof. apply (store_serves_checkpoint demo_read_header demo_read ["a"] 2 true demo_store [OpPrefetch 0 [0; 7]; OpGet 0 2] 0 1); [vm_compute; reflexivity|lia]. Defined.
