(* ===== verification/DeepseekExperts.v ===== *)
(** * DeepSeek-V4: quantised experts, routing and execution
    (models/deepseek_v4/fp4_expert.py, fp8_expert.py, routing.py, expert_executor.py,
    and the patched forward of official_offload_adapter.py)

    Numbers are exact; conversions between floating-point types and [silu] are arguments.
    Executors take experts from any [ExpertProvider]. *)
From Stdlib Require Import QArith Qcanon.
From S2P Require Import Prelude Tensor Mxfp4Gemm DeepseekStore.
Open Scope nat_scope.

Abbreviation row := (list Qc).
Definition vadd (a b : row) : row := zip_with Qcplus a b.
Definition vscale (w : Qc) (a : row) : row := map (Qcmult w) a.
Definition dot (a b : row) : Qc := qcsum (zip_with Qcmult a b).

(** ** FP4 experts (fp4_expert.py) *)
Definition FP4_E2M1_TABLE : list Qc :=
  [qc 0 1; qc 1 2; qc 1 1; qc 3 2; qc 2 1; qc 3 1; qc 4 1; qc 6 1;
   qc 0 1; qc (-1) 2; qc (-1) 1; qc (-3) 2; qc (-2) 1; qc (-3) 1; qc (-4) 1; qc (-6) 1].
(** One-byte weights are viewed as unsigned. *)
Definition to_packed_byte (b : Z) : Z := (b mod 256)%Z.
Definition unpack_fp4 (packed : list Z) : row :=
  b ← packed;
  [default 0%Qc (FP4_E2M1_TABLE !! Z.to_nat (Z.land (to_packed_byte b) 15));
   default 0%Qc (FP4_E2M1_TABLE !! Z.to_nat (Z.land (Z.shiftr (to_packed_byte b) 4) 15))].
Definition expand_scales (block_size : nat) (scales : list Qc) : row := s ← scales; replicate block_size s.

Section experts.
Context (cast : Qc → Qc) (silu : Qc → Qc).

Definition dequant_fp4_e2m1 (weight : tensor2 Z) (scale : tensor2 Qc) (block_size : nat) : res (tensor2 Qc) :=
  let K := t_cols weight * 2 in
  let width := (t_cols scale * block_size) `min` K in
  match broadcast_size K width, broadcast_size (length (t_rows weight)) (length (t_rows scale)) with
  | Ok k, Ok n =>
      Ok (Tensor2 bfloat16 k
        (zip_with (λ w s, zip_with (λ v sc, cast (v * sc)%Qc) (expand_dim k (unpack_fp4 w)) (expand_dim k (take K (expand_scales block_size s))))
           (expand_dim n (t_rows weight)) (expand_dim n (t_rows scale))))
  | _, _ => Err RuntimeError
  end.

(** [F.linear]: the rows of [x] with [w.T] *)
Definition linear_rows (w : tensor2 Qc) (x : row) : row := map (λ r, cast (dot x r)) (t_rows w).
Definition clamp_max (limit v : Qc) : Qc := if Qclt_le_dec limit v then limit else v.
Definition clamp_both (limit v : Qc) : Qc := clamp_max limit (if Qclt_le_dec v (- limit) then (- limit)%Qc else v).
Definition limit_on (limit : Qc) : bool := if Qclt_le_dec 0 limit then true else false.

(** One row of activations through an expert with the weights [w1], [w2], [w3] *)
Definition expert_row (w1 w2 w3 : tensor2 Qc) (swiglu_limit : Qc) (routing_weight : option Qc) (x : row) : row :=
  let gate := linear_rows w1 x in
  let up := linear_rows w3 x in
  let gate := if limit_on swiglu_limit then map (λ v, cast (clamp_max swiglu_limit v)) gate else gate in
  let up := if limit_on swiglu_limit then map (λ v, cast (clamp_both swiglu_limit v)) up else up in
  let activated := zip_with (λ g u, silu g * u)%Qc gate up in
  let activated := match routing_weight with Some w => vscale w activated | None => activated end in
  linear_rows w2 (map cast activated).

(** The shapes that [F.linear] and the product of gate and up ask for *)
Definition shapes_match (hidden : nat) (w1 w2 w3 : tensor2 Qc) : bool :=
  (t_cols w1 =? hidden) && (t_cols w3 =? hidden) && (length (t_rows w1) =? length (t_rows w3)) && (t_cols w2 =? length (t_rows w1)).

Definition fp4_expert_forward (hidden : nat) (hidden_states : list row) (w1 : tensor2 Z) (s1 : tensor2 Qc) (w2 : tensor2 Z) (s2 : tensor2 Qc)
    (w3 : tensor2 Z) (s3 : tensor2 Qc) (swiglu_limit : Qc) (routing_weight : option row) (block_size : nat) : res (list row) :=
  w1 ← dequant_fp4_e2m1 w1 s1 block_size;
  w3 ← dequant_fp4_e2m1 w3 s3 block_size;
  w2 ← dequant_fp4_e2m1 w2 s2 block_size;
  if negb (shapes_match hidden w1 w2 w3) then Err RuntimeError
  else match routing_weight with
       | None => Ok (map (expert_row w1 w2 w3 swiglu_limit None) hidden_states)
       | Some ws =>   (** a column of one weight for each row *)
           n ← broadcast_size (length hidden_states) (length ws);
           Ok (zip_with (λ w, expert_row w1 w2 w3 swiglu_limit (Some w)) (expand_dim n ws) (expand_dim n hidden_states))
       end.

(** A tensor of a bundle: packed weights or scales *)
Inductive bundle_tensor := Packed (t : tensor2 Z) | Scale (t : tensor2 Qc).
(** [w1, s1, w2, s2, w3, s3 = bundle] and the call of [fp4_expert_forward] *)
Definition bundle_forward (hidden : nat) (swiglu_limit : Qc) (b : list bundle_tensor) (rows : list row) : res (list row) :=
  match b with
  | [Packed w1; Scale s1; Packed w2; Scale s2; Packed w3; Scale s3] =>
      fp4_expert_forward hidden rows w1 s1 w2 s2 w3 s3 swiglu_limit None 32
  | _ => Err ValueError
  end.

(** ** FP8 shared experts (fp8_expert.py) *)
(** [s.repeat_interleave(block, dim=0).repeat_interleave(block, dim=1)[:n, :k]] *)
Definition repeat_interleave {A} (n : nat) (l : list A) : list A := x ← l; replicate n x.
Definition dequant_fp8_blockwise (weight scale : tensor2 Qc) (block_size : nat) : res (tensor2 Qc) :=
  let n := length (t_rows weight) in
  let k := t_cols weight in
  let s_full := map (λ r, take k (repeat_interleave block_size r)) (take n (repeat_interleave block_size (t_rows scale))) in
  match broadcast_size n (length s_full), broadcast_size k ((t_cols scale * block_size) `min` k) with
  | Ok n, Ok k =>
      Ok (Tensor2 bfloat16 k (zip_with (λ w s, zip_with (λ v sc, cast (v * sc)%Qc) (expand_dim k w) (expand_dim k s))
                                (expand_dim n (t_rows weight)) (expand_dim n s_full)))
  | _, _ => Err RuntimeError
  end.
Definition fp8_shared_expert_forward (hidden : nat) (hidden_states : list row) (w1 s1 w2 s2 w3 s3 : tensor2 Qc) (swiglu_limit : Qc)
    (block_size : nat) : res (list row) :=
  w1 ← dequant_fp8_blockwise w1 s1 block_size;
  w2 ← dequant_fp8_blockwise w2 s2 block_size;
  w3 ← dequant_fp8_blockwise w3 s3 block_size;
  if shapes_match hidden w1 w2 w3
  then Ok (map (λ x,
         let gate := linear_rows w1 x in
         let up := linear_rows w3 x in
         let gate := if limit_on swiglu_limit then map (clamp_max swiglu_limit) gate else gate in
         let up := if limit_on swiglu_limit then map (clamp_both swiglu_limit) up else up in
         linear_rows w2 (map cast (zip_with (λ g u, silu g * u)%Qc gate up))) hidden_states)
  else Err RuntimeError.

(** ** Routing (routing.py) *)
(** [sqrtsoftplus] and [torch.topk(..., sorted=False).indices] *)
Context (sqrtsoftplus : Qc → Qc) (topk : nat → row → list nat).

Definition normalised (weights : row) : row := let total := (qcsum weights + qc 1 (Pos.pow 10 20))%Qc in map (λ w, w / total)%Qc weights.
(** [scores.gather(1, indices)] *)
Definition gather_scores (scores : row) (indices : list nat) : res row :=
  traverse (λ i, match scores !! i with Some v => Ok v | None => Err RuntimeError end) indices.
Definition scores_of (gate_weight : tensor2 Qc) (x : row) : row := map (λ r, sqrtsoftplus (dot x r)) (t_rows gate_weight).
Definition topk_route (gate_weight : tensor2 Qc) (bias : option row) (top_k : nat) (scaling : Qc) (norm_topk_prob : bool) (x : row) : res (row * list nat) :=
  let scores := scores_of gate_weight x in
  let select := match bias with Some b => vadd scores b | None => scores end in
  let indices := topk top_k select in
  weights ← gather_scores scores indices;
  let weights := if norm_topk_prob then normalised weights else weights in
  Ok (vscale scaling weights, indices).
Definition hash_route (gate_weight : tensor2 Qc) (tid2eid : list (list nat)) (scaling : Qc) (x : row) (input_id : Z) : res (row * list nat) :=
  let scores := scores_of gate_weight x in
  indices ← tensor_get tid2eid input_id;
  weights ← gather_scores scores indices;
  Ok (vscale scaling (normalised weights), indices).
(** [indices_weights_to_masks], one token *)
Definition mask_row (num_experts : nat) (indices : list nat) : list bool := foldl (λ m i, <[i := true]> m) (replicate num_experts false) indices.
Definition weight_row (num_experts : nat) (indices : list nat) (weights : row) : row :=
  foldl (λ m iw, alter (λ v, v + iw.2)%Qc iw.1 m) (replicate num_experts 0%Qc) (zip indices weights).
Definition indices_weights_to_masks (num_experts : nat) (indices : list (list nat)) (weights : list row) : list (list bool) * list row :=
  (map (mask_row num_experts) indices, zip_with (weight_row num_experts) indices weights).
End experts.

(** ** The Python executor (expert_executor.py) *)
Section executor.
Context {S B : Type} {spec : Z → Z → res B} `{P : !ExpertProvider S B spec}.
Context (forward : B → list row → res (list row)).

Definition count_at (mask : list (list bool)) (e : nat) : nat := length (filter (λ r : list bool, default false (r !! e) = true) mask).
Definition active_experts (num_experts : nat) (mask : list (list bool)) : list nat := filter (λ e, 0 < count_at mask e) (seq 0 num_experts).
(** [torch.nonzero(router_mask[:, e]).flatten()] *)
Definition tokens_of (mask : list (list bool)) (e : nat) : list nat :=
  filter (λ t, default false (mask !! t ≫= lookup e) = true) (seq 0 (length mask)).
(** [hidden_states.index_select(0, idx)] *)
Definition index_select (x : list row) (idx : list nat) : list row := map (λ t, default [] (x !! t)) idx.
(** [final.index_add_(0, idx, rows)] *)
Definition index_add (final : list row) (idx : list nat) (rows : list row) : list row :=
  foldl (λ f ir, alter (λ r, vadd r ir.2) ir.1 f) final (zip idx rows).
Definition weight_at (weights : list row) (t e : nat) : Qc := default 0%Qc (weights !! t ≫= lookup e).

Fixpoint execute_loop (layer_id : Z) (x : list row) (mask : list (list bool)) (weights : list row) (experts : list nat) (final : list row)
    : M S (list row) :=
  match experts with
  | [] => mret final
  | e :: experts =>
      let idx := tokens_of mask e in
      if length idx =? 0 then execute_loop layer_id x mask weights experts final
      else
        b ← pv_get layer_id (Z.of_nat e);
        out ← lift (forward b (index_select x idx));
        let scaled := zip_with vscale (map (λ t, weight_at weights t e) idx) out in
        execute_loop layer_id x mask weights experts (index_add final idx scaled)
  end.
Definition execute (cast : Qc → Qc) (num_experts hidden : nat) (layer_id : Z) (x : list row) (mask : list (list bool)) (weights : list row)
    : M S (list row) :=
  final ← execute_loop layer_id x mask weights (active_experts num_experts mask) (replicate (length x) (replicate hidden 0%Qc));
  mret (map (map cast) final).
End executor.

(** ** The patched forward (official_offload_adapter.py, [patch_moe_with_offload]) *)

(** A provider that can be told which experts come next *)
Class PrefetchProvider (S B : Type) (spec : Z → Z → res B) `{P : !ExpertProvider S B spec} := {
  pf_prefetch : Z → list Z → M S unit;
  pf_prefetch_spec : ∀ l es s, pv_ok s → NoDup es → Forall (λ e, is_ok (spec l e) = true) es →
    ∃ s', pf_prefetch l es s = (Ok tt, s') ∧ pv_ok s' }.

Section official.
Context {S B : Type} {spec : Z → Z → res B} `{P : !ExpertProvider S B spec} `{Q : !PrefetchProvider S B spec}.
Context (forward : B → list row → res (list row)).

(** [torch.where(indices == e)]: rows and columns *)
Definition where_eq (indices : list (list nat)) (e : nat) : list (nat * nat) :=
  concat (imap (λ t r, map (pair t) (filter (λ j, r !! j = Some e) (seq 0 (length r)))) indices).
(** [y[idx] += rows] reads all rows, then stores them one after the other. *)
Definition index_put_add (y : list row) (idx : list nat) (rows : list row) : list row :=
  foldl (λ f ir, <[ir.1 := ir.2]> f) y (zip idx (zip_with vadd (index_select y idx) rows)).
(** [counts[e] > 0] *)
Definition routed_to (indices : list (list nat)) (e : nat) : bool := existsb (λ r, existsb (Nat.eqb e) r) indices.

Fixpoint forward_loop (layer_id : Z) (x : list row) (indices : list (list nat)) (weights : list row) (experts : list nat) (y : list row)
    : M S (list row) :=
  match experts with
  | [] => mret y
  | e :: experts =>
      let hits := where_eq indices e in
      b ← pv_get layer_id (Z.of_nat e);
      out ← lift (forward b (index_select x hits.*1));
      let scaled := zip_with vscale (map (λ tj, weight_at weights tj.1 tj.2) hits) out in
      forward_loop layer_id x indices weights experts (index_put_add y hits.*1 scaled)
  end.
(** The part of this rank: the experts from [start_idx] to [end_idx] *)
Definition routed_forward (hidden start_idx end_idx : nat) (layer_id : Z) (x : list row) (indices : list (list nat)) (weights : list row)
    : M S (list row) :=
  let active := filter (λ e, routed_to indices e = true) (seq start_idx (end_idx - start_idx)) in
  pf_prefetch layer_id (map Z.of_nat active);;
  forward_loop layer_id x indices weights active (replicate (length x) (replicate hidden 0%Qc)).
End official.

(** [dist.all_reduce(y)]: the sum over the ranks, and then the shared expert is added *)
Definition all_reduce (hidden tokens : nat) (parts : list (list row)) : list row :=
  foldl (zip_with vadd) (replicate tokens (replicate hidden 0%Qc)) parts.
Definition combine_forward (hidden : nat) (x : list row) (parts : list (list row)) (shared : list row) : list row :=
  zip_with vadd (all_reduce hidden (length x) parts) shared.

(** The layer number each block's experts are looked up with: the count of blocks before
    it that have a gate, [None] for a block without one *)
Fixpoint expert_layers (expert_layer : nat) (has_gate : list bool) : list (option nat) :=
  match has_gate with
  | [] => []
  | true :: rest => Some expert_layer :: expert_layers (Nat.succ expert_layer) rest
  | false :: rest => None :: expert_layers expert_layer rest
  end.
(** [resolve_use_native] *)
Definition resolve_use_native (use_native : option bool) (force_native_env : option bool) (blackwell native_available : bool) : bool :=
  match use_native with
  | Some b => b
  | None => match force_native_env with Some false => false | _ => blackwell && native_available end
  end.

(** ** Expert execution computes the routed sum

    The two executors of DeepSeek-V4 (masks and [index_add_]; indices and indexed
    assignment), whatever provider delivers the experts, compute for each token the sum of
    its experts' outputs with its weights, in the order of expert ids; ranks that share the
    experts add up to the same.  The two dequantisations of FP4 weights agree. *)
Open Scope nat_scope.

(** ** Vectors *)
Definition vsum (hidden : nat) (l : list row) : row := foldl vadd (replicate hidden 0%Qc) l.
Lemma vadd_length hidden a b : length a = hidden → length b = hidden → length (vadd a b) = hidden.
Proof. intros. unfold vadd. rewrite length_zip_with. lia. Qed.
Lemma vadd_zero_r hidden a : length a = hidden → vadd a (replicate hidden 0%Qc) = a.
Proof. intros <-. induction a as [|x a IH]; cbn; [done|]. f_equal; [ring|exact IH]. Qed.
Lemma vadd_zero_l hidden a : length a = hidden → vadd (replicate hidden 0%Qc) a = a.
Proof. intros <-. induction a as [|x a IH]; cbn; [done|]. f_equal; [ring|exact IH]. Qed.
Lemma vadd_assoc a b c : vadd a (vadd b c) = vadd (vadd a b) c.
Proof. revert b c. induction a as [|x a IH]; intros [|y b] [|z c]; cbn; [done..|]. f_equal; [ring|apply IH]. Qed.
Lemma foldl_vadd hidden z l :
  length z = hidden → Forall (λ r, length r = hidden) l → foldl vadd z l = vadd z (vsum hidden l) ∧ length (vsum hidden l) = hidden.
Proof.
  unfold vsum. intros Hz Hl. revert z Hz. induction Hl as [|r l Hr _ IH]; intros z Hz; cbn [foldl].
  - split; [by rewrite vadd_zero_r|apply length_replicate].
  - destruct (IH (vadd z r)) as [H1 H2]; [by apply vadd_length|].
    destruct (IH (vadd (replicate hidden 0%Qc) r)) as [H3 _]; [apply vadd_length; [apply length_replicate|done]|].
    rewrite H1, H3, vadd_zero_l, vadd_assoc by done. split; [done|]. by apply vadd_length.
Qed.
Lemma vsum_app hidden l1 l2 :
  Forall (λ r, length r = hidden) l1 → Forall (λ r, length r = hidden) l2 →
  vsum hidden (l1 ++ l2) = vadd (vsum hidden l1) (vsum hidden l2).
Proof.
  intros H1 H2. unfold vsum at 1. rewrite foldl_app. fold (vsum hidden l1).
  apply foldl_vadd; [|done]. apply (foldl_vadd hidden (replicate hidden 0%Qc)); [apply length_replicate|done].
Qed.

(** ** Indexed updates *)
Section updates.
Context {A : Type}.
Implicit Types (l : list A) (idx : list nat).

Lemma foldl_alter_lookup {B} (f : A → B → A) l idx (g : nat → B) t :
  NoDup idx →
  foldl (λ l ir, alter (λ r, f r ir.2) ir.1 l) l (zip idx (map g idx)) !! t =
    if decide (t ∈ idx) then (λ r, f r (g t)) <$> l !! t else l !! t.
Proof.
  revert l. induction idx as [|i idx IH]; intros l Hnd; [done|]. apply NoDup_cons in Hnd as [Hi Hnd]. cbn [map zip zip_with foldl fst snd].
  rewrite IH by done. destruct (decide (t = i)) as [->|Hne].
  - rewrite decide_False, decide_True by (done || left). apply list_lookup_alter_eq.
  - rewrite list_lookup_alter_ne by done.
    destruct (decide (t ∈ idx)); [rewrite decide_True by (by right)|rewrite decide_False by (by intros [?|?]%elem_of_cons)]; done.
Qed.
Lemma foldl_put_lookup l idx (g : nat → A) t :
  NoDup idx → Forall (λ i, i < length l) idx →
  foldl (λ l ir, <[ir.1 := ir.2]> l) l (zip idx (map g idx)) !! t = if decide (t ∈ idx) then Some (g t) else l !! t.
Proof.
  revert l. induction idx as [|i idx IH]; intros l Hnd Hlt; [done|]. apply NoDup_cons in Hnd as [Hi Hnd]. apply Forall_cons in Hlt as [Hil Hlt].
  cbn [map zip zip_with foldl fst snd]. rewrite IH by (done || (apply (Forall_impl _ _ _ Hlt); intros; by rewrite length_insert)).
  destruct (decide (t = i)) as [->|Hne].
  - rewrite decide_False, decide_True by (done || left). by apply list_lookup_insert_eq.
  - rewrite list_lookup_insert_ne by done.
    destruct (decide (t ∈ idx)); [rewrite decide_True by (by right)|rewrite decide_False by (by intros [?|?]%elem_of_cons)]; done.
Qed.
End updates.

Lemma zip_with_vscale {A} (w : A → Qc) (f : A → row) l : zip_with vscale (map w l) (map f l) = map (λ a, vscale (w a) (f a)) l.
Proof. induction l as [|a l IH]; cbn; [done|]. by rewrite IH. Qed.
Lemma zip_with_vadd_map {A} (f g : A → row) l : zip_with vadd (map f l) (map g l) = map (λ a, vadd (f a) (g a)) l.
Proof. induction l as [|a l IH]; cbn; [done|]. by rewrite IH. Qed.

(** ** The executor with masks *)
Section executor_props.
Context {S B : Type} {spec : Z → Z → res B} `{P : !ExpertProvider S B spec}.
Context (forward : B → list row → res (list row)).
Context (layer_id : Z) (x : list row) (fn : nat → row → row).

(** Expert [e] can be read and acts on each row by [fn e]. *)
Definition expert_acts (e : nat) : Prop :=
  ∃ b, spec layer_id (Z.of_nat e) = Ok b ∧ ∀ rows, forward b rows = Ok (map (fn e) rows).
Definition x_at (t : nat) : row := default [] (x !! t).

Section masks.
Context (mask : list (list bool)) (weights : list row).
Hypothesis Hmask : length mask = length x.

Definition masked (t e : nat) : Prop := default false (mask !! t ≫= lookup e) = true.
#[export] Instance masked_dec t e : Decision (masked t e).
Proof. unfold masked. apply _. Defined.
Definition term (t e : nat) : row := vscale (weight_at weights t e) (fn e (x_at t)).
(** What the executor adds to token [t] for a list of experts *)
Definition adds (t : nat) (es : list nat) : list row := map (term t) (filter (masked t) es).

Lemma index_add_step e final t :
  index_add final (tokens_of mask e)
    (zip_with vscale (map (λ t, weight_at weights t e) (tokens_of mask e)) (map (fn e) (index_select x (tokens_of mask e)))) !! t =
    if decide (t < length mask ∧ masked t e) then (λ r, vadd r (term t e)) <$> final !! t else final !! t.
Proof.
  unfold index_add, index_select. rewrite map_map, zip_with_vscale. rewrite foldl_alter_lookup by apply NoDup_filter, NoDup_seq.
  assert (t ∈ tokens_of mask e ↔ t < length mask ∧ masked t e) as Hiff.
  { unfold tokens_of. rewrite list_elem_of_filter, elem_of_seq. unfold masked. split; intros []; split; (done || lia). }
  destruct (decide (t ∈ tokens_of mask e)) as [H|H]; [rewrite decide_True by tauto|rewrite decide_False by tauto]; done.
Qed.
Lemma length_index_add final idx rows : length (index_add final idx rows) = length final.
Proof.
  unfold index_add. revert final rows. induction idx as [|i idx IH]; intros final [|r rows]; try done. cbn. rewrite IH. apply length_alter.
Qed.

Lemma execute_loop_run es final s :
  pv_ok s → length final = length x → Forall (λ e, ∃ t, t < length x ∧ masked t e) es → Forall expert_acts es →
  ∃ s', execute_loop forward layer_id x mask weights es final s =
          (Ok (map (λ t, foldl vadd (default [] (final !! t)) (adds t es)) (seq 0 (length x))), s') ∧ pv_ok s'.
Proof.
  revert final s. induction es as [|e es IH]; intros final s Hs Hlen Hex Hact; cbn [execute_loop].
  { exists s. split; [|done]. unfold mret, M_ret. do 2 f_equal. rewrite <- Hlen. symmetry. apply map_seq_lookup_id. }
  apply Forall_cons in Hex as [(t0 & Ht0 & Hm0) Hex]. apply Forall_cons in Hact as [(b & Hb & Hf) Hact].
  assert (length (tokens_of mask e) ≠ 0) as Hne.
  { intros Hz%nil_length_inv. assert (t0 ∈ tokens_of mask e) as Hin; [|rewrite Hz in Hin; by apply elem_of_nil in Hin].
    unfold tokens_of. rewrite list_elem_of_filter, elem_of_seq. split; [done|lia]. }
  rewrite (proj2 (Nat.eqb_neq _ 0)) by done.
  destruct (pv_get_spec layer_id (Z.of_nat e) s Hs) as (s1 & Hrun & Hs1). rewrite Hb in Hrun.
  unfold mbind, M_bind. rewrite Hrun. unfold lift. rewrite Hf.
  destruct (IH (index_add final (tokens_of mask e)
    (zip_with vscale (map (λ t, weight_at weights t e) (tokens_of mask e)) (map (fn e) (index_select x (tokens_of mask e))))) s1 Hs1)
    as (s2 & -> & Hs2); [by rewrite length_index_add|done..|].
  exists s2. split; [|done]. do 2 f_equal. apply map_ext_in. intros t Ht%in_seq. rewrite index_add_step.
  unfold adds. rewrite filter_cons. destruct (lookup_lt_is_Some_2 final t) as [r Hr]; [lia|]. rewrite Hr.
  destruct (decide (masked t e)) as [Hm|Hm].
  - rewrite decide_True by (split; [lia|done]). done.
  - rewrite decide_False by tauto. done.
Qed.

Lemma active_masked num_experts :
  Forall (λ e, ∃ t, t < length x ∧ masked t e) (active_experts num_experts mask).
Proof.
  apply Forall_forall. intros e [Hc _]%list_elem_of_filter. unfold count_at in Hc.
  destruct (filter _ mask) as [|r rs] eqn:E; [cbn in Hc; lia|].
  assert (r ∈ filter (λ r : list bool, default false (r !! e) = true) mask) as [Hr [t Ht]%list_elem_of_lookup]%list_elem_of_filter by (rewrite E; left).
  exists t. split; [rewrite <- Hmask; by eapply lookup_lt_Some|]. unfold masked. by rewrite Ht.
Qed.
(** Skipping the experts nobody is routed to changes nothing. *)
Lemma adds_active num_experts t : adds t (active_experts num_experts mask) = adds t (seq 0 num_experts).
Proof.
  unfold adds, active_experts. f_equal. rewrite list_filter_filter. apply list_filter_iff.
  intros e. split; [tauto|]. intros Hm. split; [done|]. unfold count_at, masked in *.
  destruct (mask !! t) as [r|] eqn:Hr; cbn in Hm; [|done].
  assert (r ∈ filter (λ r : list bool, default false (r !! e) = true) mask) as Hin by (apply list_elem_of_filter; split; [done|by eapply list_elem_of_lookup_2]).
  destruct (filter _ mask); [by apply elem_of_nil in Hin|cbn; lia].
Qed.
End masks.

(** The executor computes the routed sum: whatever provider delivers the experts, and
    in whatever state its caches are, the output of a token is the sum, in the order of
    expert ids, of the outputs of exactly the experts its mask names, each multiplied with
    the token's weight for it. *)
Theorem execute_weighted_sum mask weights cast num_experts hidden s :
  length mask = length x → pv_ok s → Forall expert_acts (active_experts num_experts mask) →
  ∃ s', execute forward cast num_experts hidden layer_id x mask weights s =
      (Ok (map (λ t, map cast (vsum hidden (adds mask weights t (seq 0 num_experts)))) (seq 0 (length x))), s') ∧ pv_ok s'.
Proof.
  intros Hm Hs Hact. unfold execute, mbind, M_bind.
  destruct (execute_loop_run mask weights Hm (active_experts num_experts mask) (replicate (length x) (replicate hidden 0%Qc)) s Hs)
    as (s' & -> & Hs'); [apply length_replicate|by apply active_masked|done|].
  exists s'. split; [|done]. unfold mret, M_ret. do 2 f_equal. rewrite map_map. apply map_ext_in. intros t Ht%in_seq.
  rewrite lookup_replicate_2, adds_active by (done || lia). done.
Qed.
End executor_props.

(** ** The patched forward with indices *)

(** The column at which a token's indices name an expert *)
Fixpoint position (e : nat) (r : list nat) : option nat :=
  match r with
  | [] => None
  | i :: r => if decide (e = i) then Some 0 else Nat.succ <$> position e r
  end.
Lemma position_lookup e r j : position e r = Some j → r !! j = Some e.
Proof.
  revert j. induction r as [|i r IH]; intros j; cbn; [done|]. case_decide as He; [by intros [= <-]; subst|].
  intros (k & Hk & ->)%fmap_Some. cbn. by apply IH.
Qed.
Lemma position_elem e r : e ∈ r ↔ is_Some (position e r).
Proof.
  induction r as [|i r IH]; cbn; [split; [by intros ?%elem_of_nil|by intros []]|].
  rewrite elem_of_cons. case_decide as He; [split; [by eexists|by left]|]. rewrite fmap_is_Some, IH. tauto.
Qed.

Section official_props.
Context {S B : Type} {spec : Z → Z → res B} `{P : !ExpertProvider S B spec} `{Q : !PrefetchProvider S B spec}.
Context (forward : B → list row → res (list row)).
Context (layer_id : Z) (x : list row) (fn : nat → row → row).
Context (indices : list (list nat)) (weights : list row).
Hypothesis Hlen : length indices = length x.
(** No token is routed to an expert twice. *)
Hypothesis Hnd : Forall NoDup indices.

Definition idx_at (t : nat) : list nat := default [] (indices !! t).
Definition col (t e : nat) : nat := default 0 (position e (idx_at t)).
Definition hits_of (e : nat) : list nat := filter (λ t, e ∈ idx_at t) (seq 0 (length indices)).

Lemma columns_of r e : NoDup r → filter (λ j, r !! j = Some e) (seq 0 (length r)) = if decide (e ∈ r) then [default 0 (position e r)] else [].
Proof.
  intros Hr. destruct (decide (e ∈ r)) as [He|He].
  - apply position_elem in He as [j Hj]. rewrite Hj. cbn [default from_option id]. pose proof (position_lookup _ _ _ Hj) as Hl.
    apply Permutation_singleton_r, NoDup_Permutation; [apply NoDup_filter, NoDup_seq|apply NoDup_singleton|].
    intros k. rewrite list_elem_of_filter, elem_of_seq, list_elem_of_singleton. split.
    + intros [Hk _]. by eapply NoDup_lookup.
    + intros ->. split; [done|]. apply lookup_lt_Some in Hl. lia.
  - destruct (filter _ _) as [|j l] eqn:E; [done|]. exfalso. apply He.
    assert (j ∈ filter (λ j, r !! j = Some e) (seq 0 (length r))) as [Hj _]%list_elem_of_filter by (rewrite E; left). by eapply list_elem_of_lookup_2.
Qed.
Lemma where_eq_spec e : where_eq indices e = map (λ t, (t, col t e)) (hits_of e).
Proof.
  unfold where_eq, hits_of.
  rewrite (imap_ext _ (λ t _, map (pair t) (filter (λ j, idx_at t !! j = Some e) (seq 0 (length (idx_at t)))))).
  2:{ intros t r Ht. unfold idx_at. by rewrite Ht. }
  rewrite imap_seq_0. generalize (seq_lt_all (length indices)). generalize (seq 0 (length indices)). intros l Hl.
  induction Hl as [|t l Ht _ IH]; [done|]. cbn [fmap list_fmap concat]. rewrite IH, filter_cons. clear IH.
  destruct (lookup_lt_is_Some_2 indices t Ht) as [r Hr].
  rewrite columns_of by (unfold idx_at; rewrite Hr; exact (Forall_lookup_1 _ _ _ _ Hnd Hr)).
  by destruct (decide (e ∈ idx_at t)).
Qed.

Definition routed_term (t e : nat) : row := vscale (DeepseekExperts.weight_at weights t (col t e)) (fn e (x_at x t)).
Definition routed_adds (t : nat) (es : list nat) : list row := map (routed_term t) (filter (λ e, e ∈ idx_at t) es).

Lemma index_put_step e y t :
  length y = length x →
  index_put_add y (where_eq indices e).*1
    (zip_with vscale (map (λ tj, DeepseekExperts.weight_at weights tj.1 tj.2) (where_eq indices e)) (map (fn e) (index_select x (where_eq indices e).*1))) !! t =
    if decide (t < length x ∧ e ∈ idx_at t) then Some (vadd (default [] (y !! t)) (routed_term t e)) else y !! t.
Proof.
  intros Hy. rewrite where_eq_spec.
  assert ((map (λ t, (t, col t e)) (hits_of e)).*1 = hits_of e) as -> by (etrans; [apply map_map|apply map_id]).
  rewrite !map_map. cbn [fst snd]. unfold index_put_add, index_select. rewrite map_map, zip_with_vscale, zip_with_vadd_map.
  rewrite foldl_put_lookup; [|apply NoDup_filter, NoDup_seq|].
  - assert (t ∈ hits_of e ↔ t < length x ∧ e ∈ idx_at t) as Hiff.
    { unfold hits_of. rewrite list_elem_of_filter, elem_of_seq. split; intros []; split; (done || lia). }
    destruct (decide (t ∈ hits_of e)) as [H|H]; [rewrite decide_True by tauto|rewrite decide_False by tauto]; done.
  - apply Forall_forall. intros i [_ Hi]%list_elem_of_filter. apply elem_of_seq in Hi. lia.
Qed.
Lemma length_index_put y idx rows : length (index_put_add y idx rows) = length y.
Proof.
  unfold index_put_add. generalize (zip_with vadd (index_select y idx) rows). intros rs. revert y rs.
  induction idx as [|i idx IH]; intros y [|r rs]; try done. cbn. rewrite IH. apply length_insert.
Qed.

Lemma forward_loop_run es y s :
  pv_ok s → length y = length x → Forall (expert_acts (spec := spec) forward layer_id fn) es →
  ∃ s', forward_loop forward layer_id x indices weights es y s =
          (Ok (map (λ t, foldl vadd (default [] (y !! t)) (routed_adds t es)) (seq 0 (length x))), s') ∧ pv_ok s'.
Proof.
  revert y s. induction es as [|e es IH]; intros y s Hs Hy Hact; cbn [forward_loop].
  { exists s. split; [|done]. unfold mret, M_ret. do 2 f_equal. rewrite <- Hy. symmetry. apply map_seq_lookup_id. }
  apply Forall_cons in Hact as [(b & Hb & Hf) Hact].
  destruct (pv_get_spec layer_id (Z.of_nat e) s Hs) as (s1 & Hrun & Hs1). rewrite Hb in Hrun.
  unfold mbind, M_bind. rewrite Hrun. unfold lift. rewrite Hf.
  match goal with |- context [forward_loop _ _ _ _ _ es ?y' _] => destruct (IH y' s1 Hs1) as (s2 & -> & Hs2) end; [by rewrite length_index_put|done|].
  exists s2. split; [|done]. do 2 f_equal. apply map_ext_in. intros t Ht%in_seq. rewrite index_put_step by done.
  unfold routed_adds. rewrite filter_cons. destruct (decide (e ∈ idx_at t)) as [He|He].
  - rewrite decide_True by (split; [lia|done]). done.
  - rewrite decide_False by tauto. done.
Qed.

Lemma routed_to_spec e : routed_to indices e = true ↔ ∃ t, t < length indices ∧ e ∈ idx_at t.
Proof.
  unfold routed_to. rewrite existsb_exists. setoid_rewrite existsb_exists. split.
  - intros (r & Hr%list_elem_of_In & e' & He%list_elem_of_In & ->%Nat.eqb_eq). apply list_elem_of_lookup in Hr as [t Ht].
    exists t. split; [by eapply lookup_lt_Some|]. unfold idx_at. by rewrite Ht.
  - intros (t & Ht & He). destruct (lookup_lt_is_Some_2 indices t Ht) as [r Hr]. unfold idx_at in He. rewrite Hr in He.
    exists r. split; [by apply list_elem_of_In; eapply list_elem_of_lookup_2|]. exists e. split; [by apply list_elem_of_In|apply Nat.eqb_refl].
Qed.
Lemma routed_adds_active t es : t < length x → routed_adds t (filter (λ e, routed_to indices e = true) es) = routed_adds t es.
Proof.
  intros Ht. unfold routed_adds. f_equal. rewrite list_filter_filter. apply list_filter_iff. intros e. split; [tauto|].
  intros He. split; [done|]. apply routed_to_spec. exists t. split; [lia|done].
Qed.

(** The patched forward of a rank *)
Lemma routed_forward_run hidden start_idx end_idx s :
  pv_ok s → Forall (expert_acts (spec := spec) forward layer_id fn) (filter (λ e, routed_to indices e = true) (seq start_idx (end_idx - start_idx))) →
  ∃ s', routed_forward forward hidden start_idx end_idx layer_id x indices weights s =
    (Ok (map (λ t, vsum hidden (routed_adds t (seq start_idx (end_idx - start_idx)))) (seq 0 (length x))), s') ∧ pv_ok s'.
Proof.
  intros Hs Hact. unfold routed_forward, mbind, M_bind. set (active := filter _ _) in *.
  destruct (pf_prefetch_spec layer_id (map Z.of_nat active) s Hs) as (s1 & -> & Hs1).
  { apply (NoDup_fmap_2 Z.of_nat), NoDup_filter, NoDup_seq. }
  { apply Forall_map. eapply Forall_impl; [exact Hact|]. intros e (b & Hb & _). cbn. by rewrite Hb. }
  destruct (forward_loop_run active (replicate (length x) (replicate hidden 0%Qc)) s1 Hs1) as (s2 & -> & Hs2); [apply length_replicate|done|].
  exists s2. split; [|done]. do 2 f_equal. apply map_ext_in. intros t Ht%in_seq.
  rewrite lookup_replicate_2 by lia. unfold active. by rewrite routed_adds_active by lia.
Qed.
End official_props.

(** ** Masks from indices *)
Lemma mask_row_lookup E r e : e < E → mask_row E r !! e = Some (bool_decide (e ∈ r)).
Proof.
  intros He. unfold mask_row.
  assert (∀ m, length m = E → foldl (λ m i, <[i := true]> m) m r !! e = if decide (e ∈ r) then Some true else m !! e) as H.
  { induction r as [|i r IH]; intros m Hm; [done|]. cbn. rewrite IH by (by rewrite length_insert).
    destruct (decide (e ∈ r)) as [H1|H1]; [by rewrite decide_True by (by right)|].
    destruct (decide (e = i)) as [->|Hne].
    - rewrite decide_True by left. apply list_lookup_insert_eq. lia.
    - rewrite decide_False by (by intros [?|?]%elem_of_cons). by apply list_lookup_insert_ne. }
  rewrite H by apply length_replicate. rewrite lookup_replicate_2 by done. by case_decide; [rewrite bool_decide_true|rewrite bool_decide_false].
Qed.
Lemma weight_row_lookup E r w e j :
  e < E → NoDup r → length w = length r → position e r = Some j → weight_row E r w !! e = w !! j.
Proof.
  intros He Hr Hw Hj. unfold weight_row.
  assert (∀ r w m, NoDup r → length w = length r → length m = E →
    foldl (λ m iw, alter (λ v, v + iw.2)%Qc iw.1 m) m (zip r w) !! e =
      match position e r with Some j => v ← w !! j; (λ u, (u + v)%Qc) <$> m !! e | None => m !! e end) as H.
  { clear. induction r as [|i r IH]; intros w m Hnd Hw Hm; [done|]. destruct w as [|v w]; [done|]. apply NoDup_cons in Hnd as [Hi Hnd].
    cbn [zip zip_with foldl fst snd position]. rewrite IH by (done || (by injection Hw) || (by rewrite length_alter)).
    destruct (decide (e = i)) as [->|Hne].
    - destruct (position i r) eqn:Hp; [exfalso; apply Hi, position_elem; by eexists|]. cbn. apply list_lookup_alter_eq.
    - rewrite list_lookup_alter_ne by done. by destruct (position e r). }
  rewrite H by (done || apply length_replicate). rewrite Hj, lookup_replicate_2 by done. cbn.
  destruct (lookup_lt_is_Some_2 w j) as [v Hv]; [apply position_lookup, lookup_lt_Some in Hj; lia|]. rewrite Hv. cbn. f_equal. ring.
Qed.

(** ** The two executors agree *)
Section agreement.
Context {S B : Type} {spec : Z → Z → res B} `{P : !ExpertProvider S B spec} `{Q : !PrefetchProvider S B spec}.
Context (forward : B → list row → res (list row)).
Context (layer_id : Z) (x : list row) (fn : nat → row → row).

Record routing_ok (num_experts : nat) (indices : list (list nat)) (weights : list row) : Prop := {
  ro_len : length indices = length x;
  ro_nodup : Forall NoDup indices;
  ro_range : Forall (Forall (λ e, e < num_experts)) indices;
  ro_weights : Forall2 (λ r w, length w = length r) indices weights }.

Lemma masks_same_adds E indices weights t :
  routing_ok E indices weights → t < length x →
  let mw := indices_weights_to_masks E indices weights in
  adds x fn mw.1 mw.2 t (seq 0 E) = routed_adds x fn indices weights t (seq 0 E).
Proof.
  intros [Hl Hnd Hr Hw] Ht mw. destruct (lookup_lt_is_Some_2 indices t) as [r Hir]; [lia|].
  destruct (Forall2_lookup_l _ _ _ _ _ Hw Hir) as (w & Hiw & Hwl). pose proof (Forall_lookup_1 _ _ _ _ Hnd Hir) as Hndr.
  unfold adds, routed_adds. assert (idx_at indices t = r) as Hidx by (unfold idx_at; by rewrite Hir). rewrite Hidx.
  generalize (seq_lt_all E). generalize (seq 0 E). intros es Hes. induction Hes as [|e es He _ IH]; [done|]. rewrite !filter_cons.
  assert (masked mw.1 t e ↔ e ∈ r) as Hiff.
  { unfold masked, mw. cbn. rewrite list_lookup_fmap, Hir. cbn. rewrite mask_row_lookup by done. cbn. apply bool_decide_eq_true. }
  destruct (decide (e ∈ r)) as [Her|Her]; [rewrite decide_True by tauto|rewrite decide_False by tauto; exact IH].
  cbn [map]. f_equal; [|exact IH]. unfold term, routed_term. f_equal. unfold DeepseekExperts.weight_at, mw. cbn.
  rewrite lookup_zip_with, Hir, Hiw. cbn. apply position_elem in Her as [j Hj].
  rewrite (weight_row_lookup E r w e j) by done. unfold col. by rewrite Hidx, Hj.
Qed.

(** The two ways experts are executed agree: the patched forward with its prefetching
    store and indexed assignment, and the executor with masks made from the same routing,
    return the same sums (the executor's converted to the type of the hidden states), from
    any states of their caches. *)
Theorem executors_agree {S' : Type} `{P' : !ExpertProvider S' B spec} cast num_experts hidden indices weights s s' :
  routing_ok num_experts indices weights → pv_ok s → pv_ok s' →
  (∀ e, e < num_experts → expert_acts (spec := spec) forward layer_id fn e) →
  ∃ y, (routed_forward forward hidden 0 num_experts layer_id x indices weights s).1 = Ok y ∧
       let mw := indices_weights_to_masks num_experts indices weights in
       (execute (P := P') forward cast num_experts hidden layer_id x mw.1 mw.2 s').1 = Ok (map (map cast) y).
Proof.
  intros Hro Hs Hs' Hact. pose proof Hro as [Hl Hnd Hr Hw]. cbn zeta.
  assert (∀ (A : nat → Prop) `{∀ e, Decision (A e)}, Forall (expert_acts (spec := spec) forward layer_id fn) (filter A (seq 0 num_experts))) as Hall.
  { intros A HA. apply Forall_forall. intros e [_ He]%list_elem_of_filter. apply Hact. apply elem_of_seq in He. lia. }
  destruct (routed_forward_run forward layer_id x fn indices weights Hl Hnd hidden 0 num_experts s Hs) as (s1 & -> & _).
  { rewrite Nat.sub_0_r. apply Hall. }
  eexists. split; [reflexivity|].
  destruct (execute_weighted_sum forward layer_id x fn (indices_weights_to_masks num_experts indices weights).1
    (indices_weights_to_masks num_experts indices weights).2 cast num_experts hidden s') as (s2 & -> & _);
    [cbn; by rewrite length_map|done|apply Hall|].
  cbn [fst]. f_equal. rewrite map_map, Nat.sub_0_r. apply map_ext_in. intros t Ht%in_seq.
  by rewrite masks_same_adds by (done || lia).
Qed.

(** *** Ranks *)
Lemma routed_adds_length hidden indices weights t es :
  (∀ e, length (fn e (x_at x t)) = hidden) → Forall (λ r, length r = hidden) (routed_adds x fn indices weights t es).
Proof.
  intros Hfn. apply Forall_map, Forall_true. intros e. unfold routed_term, vscale. by rewrite length_map.
Qed.
Lemma all_reduce_map hidden n (fs : list (nat → row)) :
  all_reduce hidden n (map (λ f, map f (seq 0 n)) fs) = map (λ t, foldl vadd (replicate hidden 0%Qc) (map (λ f, f t) fs)) (seq 0 n).
Proof.
  unfold all_reduce. assert (∀ g : nat → row, foldl (zip_with vadd) (map g (seq 0 n)) (map (λ f, map f (seq 0 n)) fs) =
    map (λ t, foldl vadd (g t) (map (λ f, f t) fs)) (seq 0 n)) as H.
  { induction fs as [|f fs IH]; intros g; [done|]. cbn [map foldl]. by rewrite zip_with_vadd_map, IH. }
  rewrite <- H. f_equal. clear. induction n as [|n IH]; [done|]. rewrite seq_S, map_app, <- IH. cbn. by rewrite <- replicate_cons_app || by rewrite <- replicate_S_end.
Qed.
Lemma ranks_cover W n : concat (map (λ r, seq (r * n) n) (seq 0 W)) = seq 0 (W * n).
Proof.
  induction W as [|W IH]; [done|]. rewrite seq_S, map_app, concat_app, IH. cbn [map concat]. rewrite app_nil_r, Nat.mul_succ_l, (seq_app (W * n)). done.
Qed.

(** Tensor-parallel ranks share the experts without loss: when each of [world_size] ranks
    runs its own range of [n_local] experts, from any state of its own store, the sum that
    [all_reduce] forms is the result of a single rank with all experts. *)
Theorem ranks_add_up world_size n_local hidden indices weights (states : nat → S) s :
  length indices = length x → Forall NoDup indices → (∀ e t, t < length x → length (fn e (x_at x t)) = hidden) →
  (∀ r, pv_ok (states r)) → pv_ok s → (∀ e, e < world_size * n_local → expert_acts (spec := spec) forward layer_id fn e) →
  ∃ y parts, (routed_forward forward hidden 0 (world_size * n_local) layer_id x indices weights s).1 = Ok y ∧
    length parts = world_size ∧
    (∀ rank part, parts !! rank = Some part →
       (routed_forward forward hidden (rank * n_local) (rank * n_local + n_local) layer_id x indices weights (states rank)).1 = Ok part) ∧
    all_reduce hidden (length x) parts = y.
Proof.
  intros Hl Hnd Hfn Hst Hs Hact.
  assert (∀ a n (A : nat → Prop) `{∀ e, Decision (A e)}, a + n ≤ world_size * n_local →
    Forall (expert_acts (spec := spec) forward layer_id fn) (filter A (seq a n))) as Hall.
  { intros a n A HA Han. apply Forall_forall. intros e [_ He]%list_elem_of_filter. apply Hact. apply elem_of_seq in He. lia. }
  set (sums a n t := vsum hidden (routed_adds x fn indices weights t (seq a n))).
  exists (map (sums 0 (world_size * n_local)) (seq 0 (length x))), (map (λ f, map f (seq 0 (length x))) (map (λ r, sums (r * n_local) n_local) (seq 0 world_size))).
  split_and!.
  - destruct (routed_forward_run forward layer_id x fn indices weights Hl Hnd hidden 0 (world_size * n_local) s Hs) as (s1 & -> & _).
    { rewrite Nat.sub_0_r. apply Hall. lia. }
    by rewrite Nat.sub_0_r.
  - by rewrite !length_map, length_seq.
  - intros rank part. rewrite map_map, list_lookup_fmap. intros (r & Hr & ->)%fmap_Some. apply lookup_seq in Hr as [-> Hr]. cbn [Nat.add] in *.
    destruct (routed_forward_run forward layer_id x fn indices weights Hl Hnd hidden (rank * n_local) (rank * n_local + n_local) (states rank) (Hst rank)) as (s1 & -> & _).
    { replace (rank * n_local + n_local - rank * n_local) with n_local by lia. apply Hall. nia. }
    cbn [fst]. by replace (rank * n_local + n_local - rank * n_local) with n_local by lia.
  - rewrite all_reduce_map. apply map_ext_in. intros t Ht%in_seq. rewrite map_map. unfold sums. rewrite <- (ranks_cover world_size n_local).
    clear Hall sums Hact. induction (seq 0 world_size) as [|r rs IH] using rev_ind; [done|].
    rewrite !map_app, concat_app, foldl_app, IH. cbn [map foldl concat]. rewrite app_nil_r. unfold routed_adds. rewrite filter_app, map_app.
    symmetry. apply vsum_app; apply routed_adds_length; intros e; apply Hfn; lia.
Qed.
End agreement.

(** The store of the patched model is a provider that prefetches. *)
#[export] Instance store_prefetch_provider {T} (read_tensor : string → string → res T) index limit :
  PrefetchProvider (HostStore T) (list (string * T)) (store_tensors read_tensor index) (P := store_provider read_tensor index limit) :=
  Build_PrefetchProvider (HostStore T) (list (string * T)) (store_tensors read_tensor index) (store_provider read_tensor index limit)
    (prefetch read_tensor) (store_prefetch_spec read_tensor index limit).

(** An FP4 bundle either fails for every input or acts on each row alone. *)
Lemma bundle_forward_rowwise cast silu hidden limit b :
  (∃ ex, ∀ rows, bundle_forward cast silu hidden limit b rows = Err ex) ∨
  (∃ f, ∀ rows, bundle_forward cast silu hidden limit b rows = Ok (map f rows)).
Proof.
  unfold bundle_forward. destruct b as [|[w1|] [|[|s1] [|[w2|] [|[|s2] [|[w3|] [|[|s3] [|]]]]]]]; try (left; by eexists).
  unfold fp4_expert_forward. destruct (dequant_fp4_e2m1 cast w1 s1 32) as [d1|]; cbn; [|left; by eexists].
  destruct (dequant_fp4_e2m1 cast w3 s3 32) as [d3|]; cbn; [|left; by eexists].
  destruct (dequant_fp4_e2m1 cast w2 s2 32) as [d2|]; cbn; [|left; by eexists].
  destruct (shapes_match hidden d1 d2 d3); [right|left]; by eexists.
Qed.

(** ** The two dequantisations *)
Definition e8m0 (b : Z) : Qc := pow2 (b - 127).
Definition scale_values (s : tensor2 Z) : tensor2 Qc := Tensor2 (t_dtype s) (t_cols s) (map (map e8m0) (t_rows s)).

Lemma unpack_same row : Forall (λ b, 0 ≤ b < 256)%Z row → unpack_fp4 row = unpack_row row.
Proof.
  intros H. unfold unpack_fp4, unpack_row. induction H as [|b row Hb _ IH]; [done|]. cbn [mbind list_bind].
  rewrite IH. f_equal. unfold to_packed_byte. rewrite Z.mod_small by done.
  destruct (nibbles_bound b Hb) as [_ Hh]. unfold hi_nibble in Hh. by rewrite Hh.
Qed.
Lemma expand_same block row :
  Forall (λ b, 1 ≤ b ≤ 254)%Z row → expand_scales block (map e8m0 row) = map pow2 (expand_exponents block row).
Proof.
  intros H. unfold expand_scales, expand_exponents. induction H as [|b row Hb _ IH]; [done|]. cbn [map mbind list_bind].
  rewrite map_app, IH. f_equal. unfold e8m0. replace (clamp (-126) 127 (b - 127)) with (b - 127)%Z by (unfold clamp; lia).
  symmetry. apply (fmap_replicate pow2).
Qed.
Lemma expand_dim_map {A C} (f : A → C) n l : expand_dim n (map f l) = map f (expand_dim n l).
Proof. destruct l as [|a [|]]; cbn; [done| |done]. symmetry. apply (fmap_replicate f). Qed.
Lemma zip_with_map_r {A C D F} (g : A → C → D) (f : F → C) l k : zip_with g l (map f k) = zip_with (λ a b, g a (f b)) l k.
Proof. revert k. induction l as [|a l IH]; intros [|b k]; cbn; [done..|]. by rewrite IH. Qed.

(** The two FP4 dequantisations of the repository agree: unpacking bytes with scales
    given as exponent bytes (the reference of the fused kernel) and with the same scales
    decoded to powers of two (the DeepSeek experts) give the same weights or the same
    error, for every block size, as long as no exponent byte is 0 or 255. *)
Theorem dequantisers_agree cast packed scales (block : nat) :
  Forall (Forall (λ b, 0 ≤ b < 256)%Z) (t_rows packed) → Forall (Forall (λ b, 1 ≤ b ≤ 254)%Z) (t_rows scales) → 0 < block →
  dequant_fp4_e2m1 cast packed (scale_values scales) block = mxfp4_dequantize cast packed scales (Z.of_nat block).
Proof.
  intros Hp Hs Hblock. unfold dequant_fp4_e2m1, mxfp4_dequantize. cbn [t_cols t_rows scale_values].
  rewrite (proj2 (Z.leb_gt _ 0)) by lia. rewrite Nat2Z.id, length_map.
  assert ((if t_cols packed * 2 <? t_cols scales * block then t_cols packed * 2 else t_cols scales * block) =
    (t_cols scales * block) `min` (t_cols packed * 2)) as ->.
  { destruct (_ <? _) eqn:E; [apply Nat.ltb_lt in E|apply Nat.ltb_ge in E]; lia. }
  destruct (broadcast_size (t_cols packed * 2) _) as [k|]; [|done]. destruct (broadcast_size (length _) _) as [n|]; [|done].
  do 2 f_equal. rewrite expand_dim_map, zip_with_map_r.
  assert (∀ n l (A : list Z → Prop), Forall A l → Forall A (expand_dim n l)) as Hexp.
  { intros m l A Hl. destruct l as [|a [|]]; cbn; [done| |done]. apply Forall_replicate. by apply Forall_cons in Hl as [? _]. }
  pose proof (Hexp n _ _ Hp) as Hp'. pose proof (Hexp n _ _ Hs) as Hs'. clear Hp Hs Hexp.
  generalize dependent (expand_dim n (t_rows scales)). induction Hp' as [|p ps Hp _ IH]; intros [|sr srs] Hs'; try done.
  apply Forall_cons in Hs' as [Hs Hs']. cbn [zip_with]. f_equal; [|by apply IH].
  rewrite unpack_same, expand_same by done. unfold dequantize_row.
  rewrite <- firstn_map, expand_dim_map, zip_with_map_r || rewrite firstn_map, expand_dim_map, zip_with_map_r.
  do 2 f_equal. destruct (_ <? _) eqn:E; [done|]. apply Nat.ltb_ge in E. by rewrite take_ge by done.
Qed.

(** ** Layer numbers *)

(** The patched model looks experts up with the number of MoE blocks before the block:
    that is the block's own index, which the checkpoint's keys use, exactly when every
    earlier block is an MoE block. *)
Theorem expert_layer_numbers has_gate i layer :
  expert_layers 0 has_gate !! i = Some (Some layer) →
  layer = length (filter (λ g : bool, g = true) (take i has_gate)) ∧ (layer = i ↔ Forall (λ g : bool, g = true) (take i has_gate)).
Proof.
  assert (∀ k, expert_layers k has_gate !! i = Some (Some layer) →
    i < length has_gate ∧ layer = k + length (filter (λ g : bool, g = true) (take i has_gate))) as H.
  { revert i. induction has_gate as [|g gs IH]; intros i k Hk; [done|]. destruct g, i as [|i]; cbn [expert_layers lookup list_lookup take length] in Hk |- *; simplify_eq.
    - cbn. lia.
    - destruct (IH i _ Hk). rewrite filter_cons, decide_True by done. cbn [length]. unfold Nat.succ in *. lia.
    - destruct (IH i _ Hk). rewrite filter_cons, decide_False by done. lia. }
  intros [Hi ->]%H. cbn. split; [done|].
  assert (length (take i has_gate) = i) as Hlen by (rewrite length_take; lia). rewrite <- Hlen at 2. clear.
  induction (take i has_gate) as [|g gs IH]; [done|]. rewrite filter_cons, Forall_cons. destruct g.
  - rewrite decide_True by done. cbn. rewrite <- IH. split; [intros [= ?]; done|intros [_ ?]; by f_equal].
  - rewrite decide_False by done. pose proof (length_filter (λ g : bool, g = true) gs). split; [cbn; lia|by intros [? _]].
Qed.

(** ** Witnesses: experts of layer 0 that double their input, two tokens *)
Definition demo_read2 (shard key : string) : res Qc := Ok (qc 2 1).
Definition demo_store2 : HostStore Qc :=
  {| hs_shard_for := demo_index; hs_open_files := []; hs_host := ∅; hs_gpu := []; hs_max := 1; hs_copy_stream := true |}.
Definition demo_forward (b : list (string * Qc)) (rows : list row) : res (list row) :=
  match b with (_, w) :: _ => Ok (map (vscale w) rows) | [] => Err ValueError end.
Abbreviation demo_provider := (store_provider demo_read2 demo_index 1).
Definition demo_rows : list row := [[qc 1 1; qc 3 1]; [qc 1 2; qc 0 1]].
Definition demo_indices : list (list nat) := [[2; 0]; [1]].
Definition demo_weights : list row := [[qc 1 4; qc 3 4]; [qc 1 1]].
Lemma demo_store2_ok : pv_ok (ExpertProvider := demo_provider) demo_store2.
Proof. split; [|lia]. constructor; try done. split; constructor. Qed.
Lemma demo_acts e : e < 3 → expert_acts (spec := store_tensors demo_read2 demo_index) demo_forward 0 (λ _, vscale (qc 2 1)) e.
Proof. intros He. destruct e as [|[|[|]]]; [| | |lia]; eexists; (split; [vm_compute; reflexivity|reflexivity]). Qed.

Lemma execute_weighted_sum_witness :
  let mw := indices_weights_to_masks 3 demo_indices demo_weights in
  ∃ s', execute (P := demo_provider) demo_forward id 3 2 0 demo_rows mw.1 mw.2 demo_store2 =
      (Ok (map (λ t, map id (vsum 2 (adds demo_rows (λ _, vscale (qc 2 1)) mw.1 mw.2 t (seq 0 3)))) (seq 0 2)), s') ∧
    pv_ok (ExpertProvider := demo_provider) s'.
Proof.
  apply (execute_weighted_sum (P := demo_provider) demo_forward 0 demo_rows (λ _, vscale (qc 2 1))); [reflexivity|apply demo_store2_ok|].
  apply Forall_forall. intros e [_ He]%list_elem_of_filter. apply demo_acts. apply elem_of_seq in He. lia.
Defined.

Lemma executors_agree_witness :
  ∃ y, (routed_forward (P := demo_provider) demo_forward 2 0 3 0 demo_rows demo_indices demo_weights demo_store2).1 = Ok y ∧
       let mw := indices_weights_to_masks 3 demo_indices demo_weights in
       (execute (P := demo_provider) demo_forward id 3 2 0 demo_rows mw.1 mw.2 demo_store2).1 = Ok (map (map id) y).
Proof.
  apply (executors_agree (P := demo_provider) (P' := demo_provider) demo_forward 0 demo_rows (λ _, vscale (qc 2 1)) id 3 2 demo_indices demo_weights);
    [|apply demo_store2_ok..|intros; by apply demo_acts].
  constructor; [reflexivity| |repeat constructor; lia|repeat constructor].
  by apply (bool_decide_unpack _); vm_compute.
Defined.

Lemma ranks_add_up_witness :
  ∃ y parts, (routed_forward (P := demo_provider) demo_forward 2 0 (3 * 1) 0 demo_rows demo_indices demo_weights demo_store2).1 = Ok y ∧
    length parts = 3 ∧
    (∀ rank part, parts !! rank = Some part →
       (routed_forward (P := demo_provider) demo_forward 2 (rank * 1) (rank * 1 + 1) 0 demo_rows demo_indices demo_weights demo_store2).1 = Ok part) ∧
    all_reduce 2 (length demo_rows) parts = y.
Proof.
  apply (ranks_add_up (P := demo_provider) demo_forward 0 demo_rows (λ _, vscale (qc 2 1)) 3 1 2 demo_indices demo_weights (λ _, demo_store2) demo_store2);
    [reflexivity|by apply (bool_decide_unpack _); vm_compute| |intros; apply demo_store2_ok|apply demo_store2_ok|].
  - intros _ t Ht. destruct t as [|[|]]; [reflexivity..|cbn in Ht; lia].
  - intros e He. apply demo_acts. lia.
Defined.

Lemma dequantisers_agree_witness :
  dequant_fp4_e2m1 id demo_packed (scale_values demo_scales) 4 = mxfp4_dequantize id demo_packed demo_scales (Z.of_nat 4).
Proof. apply (dequantisers_agree id demo_packed demo_scales 4); [by apply (bool_decide_unpack _); vm_compute|by apply (bool_decide_unpack _); vm_compute|lia]. Defined.

Lemma expert_layer_numbers_witness :
  1 = length (filter (λ g : bool, g = true) (take 2 [true; false; true])) ∧ (1 = 2 ↔ Forall (λ g : bool, g = true) (take 2 [true; false; true])).
Proof. apply (expert_layer_numbers [true; false; true] 2 1). reflexivity. Defined.
