(* ===== verification/DeepseekShards.v ===== *)
(** * DeepSeek-V4: loading a tensor-parallel shard
    (models/deepseek_v4/inmem_shard_loader.py and [_load_non_expert_weights] of
    official_offload_adapter.py)

    Which dimension of a weight is divided among the ranks, the slice of a rank, copying a
    checkpoint into the parameters of a model, the checks of ranks and expert ranges, and
    sparse attention in chunks of heads.  A tensor has one or two dimensions that matter;
    [V] stands for the rest. *)
From Stdlib Require Import String Ascii.
From S2P Require Import Prelude PyCollections HfConfig Quantization ApiAuth Tensor.
Import OrderedDict.
Local Open Scope string_scope.
Open Scope nat_scope.
#[local] Arguments String.append !_ _ : simpl nomatch.

(** ** Which weights are divided *)
Definition NATIVE_TP_SHARD_DIMS : list (string * nat) :=
  [("attn_sink", 0); ("embed", 0); ("head", 0); ("weights_proj", 0); ("wo", 1); ("wo_a", 0); ("wo_b", 1); ("wq", 0); ("wq_b", 0); ("wkv_b", 0)].
Definition tensor_name (key : string) : string :=
  match rev (split_on "."%char key) with
  | l :: p :: _ => if bool_decide (l ∈ ["weight"; "scale"; "bias"]) then p else l
  | l :: _ => l
  | [] => ""
  end.
Definition shard_dim_for_key (key : string) : option nat := od_get (tensor_name key) NATIVE_TP_SHARD_DIMS.

Section shards.
Context {V : Type}.
Inductive ntensor := D1 (xs : list V) | D2 (cols : nat) (rows : list (list V)).
Definition shape (t : ntensor) : list nat := match t with D1 xs => [length xs] | D2 cols rows => [length rows; cols] end.
Definition size (t : ntensor) (dim : nat) : res nat := match shape t !! dim with Some n => Ok n | None => Err IndexError end.
(** [t.narrow(dim, start, length)] *)
Definition narrow (t : ntensor) (dim start len : nat) : res ntensor :=
  n ← size t dim;
  if n <? start + len then Err RuntimeError
  else match t, dim with
       | D1 xs, _ => Ok (D1 (take len (drop start xs)))
       | D2 cols rows, O => Ok (D2 cols (take len (drop start rows)))
       | D2 cols rows, _ => Ok (D2 len (map (λ r, take len (drop start r)) rows))
       end.
Definition shard_tensor (t : ntensor) (shard_dim : option nat) (world_size rank : nat) : res ntensor :=
  match shard_dim with
  | None => Ok t
  | Some dim =>
      if world_size =? 1 then Ok t
      else
        n ← size t dim;
        if world_size =? 0 then Err ZeroDivisionError
        else if negb (n mod world_size =? 0) then Err ValueError
        else let shard_size := n / world_size in narrow t dim (rank * shard_size) shard_size
  end.

(** ** Copying a checkpoint into a model *)
(** A parameter; the [scale] that a quantised weight carries *)
Record param := Param { p_value : ntensor; p_scale : option ntensor }.
Record model_state := { params : gmap string param; buffers : gmap string ntensor }.
Definition is_expert_key (key : string) : bool := is_in ".ffn.experts." key.
(** [target.copy_(t)] *)
Definition set_target (key : string) (t : ntensor) (m : model_state) : model_state :=
  match params m !! key with
  | Some p => {| params := <[key := Param t (p_scale p)]> (params m); buffers := buffers m |}
  | None => {| params := params m; buffers := <[key := t]> (buffers m) |}
  end.
Definition target_of (m : model_state) (key : string) : option ntensor :=
  match params m !! key with Some p => Some (p_value p) | None => buffers m !! key end.

(** [_load_non_expert_weights_sharded], one key of the checkpoint *)
Definition load_key_sharded (world_size rank : nat) (kt : string * ntensor) : M model_state unit :=
  if is_expert_key kt.1 then mret tt
  else
    m ← get;
    match target_of m kt.1 with
    | None => mret tt
    | Some target =>
        match shard_tensor kt.2 (shard_dim_for_key kt.1) world_size rank with
        | Err e => raise e
        | Ok t => if bool_decide (shape t = shape target) then modify (set_target kt.1 t) else raise RuntimeError
        end
    end.
Definition load_non_expert_weights_sharded (file : list (string * ntensor)) (world_size rank : nat) : M model_state unit :=
  for_each file (load_key_sharded world_size rank).

(** [_load_non_expert_weights]: scales go to the weight that carries them; a tensor of
    another shape is skipped. *)
Definition load_key (kt : string * ntensor) : M model_state unit :=
  if is_expert_key kt.1 then mret tt
  else if ends_with ".scale" kt.1 then
    modify (λ m,
      let w := (drop_suffix ".scale" kt.1 ++ ".weight")%string in
      match params m !! w with
      | Some (Param v (Some s)) =>
          if bool_decide (shape s = shape kt.2) then {| params := <[w := Param v (Some kt.2)]> (params m); buffers := buffers m |} else m
      | _ => m
      end)
  else
    modify (λ m,
      match target_of m kt.1 with
      | Some target => if bool_decide (shape target = shape kt.2) then set_target kt.1 kt.2 m else m
      | None => m
      end).
Definition load_non_expert_weights (file : list (string * ntensor)) : M model_state unit := for_each file load_key.
End shards.
Arguments ntensor : clear implicits. Arguments model_state : clear implicits. Arguments param : clear implicits.

(** ** Ranks and expert ranges *)
Record moe_module := { n_local_experts : nat; n_routed : nat; experts_start_idx : nat; experts_end_idx : nat }.
Definition verify_one (world_size rank : nat) (moe : moe_module) : res unit :=
  if negb (n_local_experts moe * world_size =? n_routed moe) then Err RuntimeError
  else
    let expected_start := rank * n_local_experts moe in
    let expected_end := expected_start + n_local_experts moe in
    if negb ((experts_start_idx moe =? expected_start) && (experts_end_idx moe =? expected_end)) then Err RuntimeError else Ok tt.
Definition verify_local_expert_ranges (modules : list moe_module) (world_size rank : nat) : res unit :=
  _ ← traverse (verify_one world_size rank) modules; Ok tt.

(** The checks at the start of [load_sharded_v4_flash]; [dist] is the world size and rank of
    an initialised process group. *)
Definition check_distributed (world_size rank : Z) (dist : option (Z * Z)) : res unit :=
  if (world_size <? 1)%Z then Err ValueError
  else if (rank <? 0)%Z || (world_size <=? rank)%Z then Err ValueError
  else match dist with
       | Some (w, r) => if negb (w =? world_size)%Z || negb (r =? rank)%Z then Err RuntimeError else Ok tt
       | None => if negb (world_size =? 1)%Z || negb (rank =? 0)%Z then Err RuntimeError else Ok tt
       end.

(** ** Sparse attention in chunks of 16 heads *)
Section chunks.
Context {H K O : Type}.
(** The official kernel on a list of heads with their sinks *)
Context (original_sparse_attn : list H → K → list H → list O).
Definition sparse_attn_head_chunks (q : list H) (kv : K) (attn_sink : list H) : list O :=
  let h := length q in
  if h <=? 16 then original_sparse_attn q kv attn_sink
  else concat (map (λ c, let start := c * 16 in let width := 16 `min` (h - start) in
                         original_sparse_attn (take width (drop start q)) kv (take width (drop start attn_sink))) (seq 0 (cdiv h 16))).
End chunks.

(** ** The slices of all ranks *)
Section props.
Context {V : Type}.
Implicit Types t : ntensor V.

(** [torch.cat(parts, dim)] *)
Definition cat (dim : nat) (parts : list (ntensor V)) : ntensor V :=
  match parts with
  | D1 _ :: _ => D1 (concat (map (λ p, match p with D1 xs => xs | D2 _ _ => [] end) parts))
  | D2 cols rows :: _ =>
      let part_rows p := match p with D2 _ rows => rows | D1 _ => [] end in
      match dim with
      | O => D2 cols (concat (map part_rows parts))
      | _ => D2 (sum_list (map (λ p, default 0 (shape p !! 1)) parts))
                (map (λ i, concat (map (λ p, default [] (part_rows p !! i)) parts)) (seq 0 (length rows)))
      end
  | [] => D1 []
  end.
Definition tensor_ok t : Prop := match t with D1 _ => True | D2 cols rows => rectangular cols rows end.

Lemma concat_slices {A} (l : list A) n w :
  length l = n * w → concat (map (λ r, take w (drop (r * w) l)) (seq 0 n)) = l.
Proof.
  intros Hl. assert (∀ k, k ≤ n → concat (map (λ r, take w (drop (r * w) l)) (seq 0 k)) = take (k * w) l) as H.
  { induction k as [|k IH]; intros Hk; [done|]. rewrite seq_S, map_app, concat_app, IH by lia. cbn [map concat]. rewrite app_nil_r.
    rewrite Nat.add_0_l, take_take_drop. f_equal. lia. }
  rewrite H, take_ge by lia. done.
Qed.

(** The slice of a rank when the dimension is divisible *)
Definition slice_of t (dim w r : nat) : ntensor V :=
  match t, dim with
  | D1 xs, _ => D1 (take w (drop (r * w) xs))
  | D2 cols rows, O => D2 cols (take w (drop (r * w) rows))
  | D2 cols rows, _ => D2 w (map (λ x, take w (drop (r * w) x)) rows)
  end.
Lemma shard_slice t dim n W r :
  tensor_ok t → size t dim = Ok n → 0 < W → n mod W = 0 → r < W → shard_tensor t (Some dim) W r = Ok (slice_of t dim (n / W) r).
Proof.
  intros Hok Hn HW Hm Hr. unfold shard_tensor. assert (n = n / W * W) as Hd by (pose proof (Nat.div_mod_eq n W); lia).
  destruct (Nat.eqb_spec W 1) as [->|Hne].
  - f_equal. rewrite Nat.div_1_r. assert (r = 0) as -> by lia. unfold size in Hn.
    destruct t as [xs|cols rows]; [destruct dim as [|]|destruct dim as [|[|]]]; cbn in Hn; simplify_eq; cbn; f_equal; try (by rewrite take_ge).
    cbn in Hok. symmetry. rewrite <- (map_id rows) at 2. apply map_ext_in. intros x Hx%list_elem_of_In.
    rewrite drop_0, take_ge; [done|]. unfold rectangular in Hok. rewrite Forall_forall in Hok. by rewrite (Hok x Hx).
  - rewrite Hn. cbn [mbind res_mbind]. rewrite (proj2 (Nat.eqb_neq W 0)), Hm by lia. cbn [negb Nat.eqb]. unfold narrow. rewrite Hn. cbn [mbind res_mbind].
    rewrite (proj2 (Nat.ltb_ge _ _)) by nia. destruct t as [xs|cols rows], dim; done.
Qed.

Lemma cat_D1 dim (f : nat → list V) W : 0 < W → cat dim (map (λ r, D1 (f r)) (seq 0 W)) = D1 (concat (map f (seq 0 W))).
Proof. intros HW. destruct W as [|W]; [lia|]. cbn [seq map cat concat]. by rewrite map_map. Qed.
Lemma cat_D2_0 c (f : nat → list (list V)) W : 0 < W → cat 0 (map (λ r, D2 c (f r)) (seq 0 W)) = D2 c (concat (map f (seq 0 W))).
Proof. intros HW. destruct W as [|W]; [lia|]. cbn [seq map cat concat]. by rewrite map_map. Qed.
Lemma cat_D2_1 w (f : nat → list (list V)) W :
  0 < W → cat 1 (map (λ r, D2 w (f r)) (seq 0 W)) =
    D2 (W * w) (map (λ i, concat (map (λ r, default [] (f r !! i)) (seq 0 W))) (seq 0 (length (f 0)))).
Proof.
  intros HW. destruct W as [|W]; [lia|]. cbn [seq map cat]. f_equal.
  - rewrite map_map. cbn [shape lookup list_lookup default from_option id].
    assert (∀ l : list nat, sum_list (w :: map (λ _ : nat, w) l) = S (length l) * w) as Hs by (induction l as [|? l IH]; cbn in *; lia).
    etrans; [apply Hs|]. by rewrite length_seq.
  - apply map_ext. intros i. by rewrite map_map.
Qed.

(** The slices that the ranks take of a weight are disjoint and complete: when the
    divided dimension is a multiple of the number of ranks, concatenating the shards of
    all ranks gives the weight back; otherwise every rank raises [ValueError]. *)
Theorem shards_reassemble t dim n W :
  tensor_ok t → size t dim = Ok n → 0 < W →
  if decide (n mod W = 0)
  then ∃ parts, length parts = W ∧ (∀ r p, parts !! r = Some p → shard_tensor t (Some dim) W r = Ok p) ∧ cat dim parts = t
  else ∀ r, shard_tensor t (Some dim) W r = Err ValueError.
Proof.
  intros Hok Hn HW. case_decide as Hm.
  - exists (map (slice_of t dim (n / W)) (seq 0 W)). split; [by rewrite length_map, length_seq|]. split.
    + intros r p. rewrite list_lookup_fmap. intros (r' & Hr & ->)%fmap_Some. apply lookup_seq in Hr as [-> Hr]. by apply shard_slice.
    + assert (n = W * (n / W)) as Hd by (pose proof (Nat.div_mod_eq n W); lia). set (w := n / W) in *. clearbody w.
      unfold size in Hn. destruct t as [xs|cols rows]; [destruct dim as [|]|destruct dim as [|[|]]]; cbn in Hn; simplify_eq; cbn [slice_of].
      * etrans; [exact (cat_D1 0 (λ r, take w (drop (r * w) xs)) W HW)|]. by rewrite concat_slices.
      * etrans; [exact (cat_D2_0 cols (λ r, take w (drop (r * w) rows)) W HW)|]. by rewrite concat_slices.
      * etrans; [exact (cat_D2_1 w (λ r, map (λ x, take w (drop (r * w) x)) rows) W HW)|]. cbv beta. rewrite length_map. f_equal.
        etrans; [|apply map_seq_lookup_id]. apply map_ext_in. intros i Hi%in_seq.
        destruct (lookup_lt_is_Some_2 rows i) as [x Hx]; [lia|]. rewrite Hx. cbn [default from_option id].
        assert (length x = W * w) as Hxl by (rewrite (Forall_lookup_1 _ _ _ _ Hok Hx); done).
        etrans; [|exact (concat_slices x W w Hxl)]. f_equal. apply map_ext. intros r. rewrite list_lookup_fmap, Hx. done.
  - intros r. unfold shard_tensor. destruct (Nat.eqb_spec W 1) as [->|Hne]; [by rewrite Nat.mod_1_r in Hm|].
    rewrite Hn. cbn [mbind res_mbind]. by rewrite (proj2 (Nat.eqb_neq W 0)), (proj2 (Nat.eqb_neq (n mod W) 0)) by lia.
Qed.

(** ** Loading *)
Lemma target_set_eq key v (m : model_state V) old : target_of m key = Some old → target_of (set_target key v m) key = Some v.
Proof.
  unfold target_of, set_target. destruct (params m !! key) as [p|] eqn:E; cbn; [by rewrite lookup_insert_eq|].
  rewrite E. by rewrite lookup_insert_eq.
Qed.
Lemma target_set_ne key key' v (m : model_state V) : key ≠ key' → target_of (set_target key v m) key' = target_of m key'.
Proof.
  intros Hne. unfold target_of, set_target. destruct (params m !! key) as [p|] eqn:E; cbn; by rewrite lookup_insert_ne.
Qed.
(** One key leaves every other target alone. *)
Lemma load_key_frame W rank kt (m : model_state V) key : key ≠ kt.1 → target_of (load_key_sharded W rank kt m).2 key = target_of m key.
Proof.
  intros Hne. unfold load_key_sharded. destruct (is_expert_key kt.1); [done|]. unfold mbind, M_bind, get.
  destruct (target_of m kt.1) as [old|]; [|done]. destruct (shard_tensor _ _ _ _) as [t|]; [|done].
  case_bool_decide; [|done]. cbn. by apply target_set_ne.
Qed.
Lemma load_loop_frame W rank file (m : model_state V) key :
  key ∉ file.*1 → target_of (load_non_expert_weights_sharded file W rank m).2 key = target_of m key.
Proof.
  unfold load_non_expert_weights_sharded. revert m. induction file as [|kt file IH]; intros m Hn; [done|].
  cbn [fmap list_fmap] in Hn. apply not_elem_of_cons in Hn as [Hne Hn]. cbn [for_each]. unfold mbind, M_bind.
  pose proof (load_key_frame W rank kt m key Hne) as Hf. destruct (load_key_sharded W rank kt m) as [[[]|e] m1]; cbn in *; [|done].
  by rewrite IH.
Qed.

(** What rank [rank] of [W] should get of a weight: all of it when it is not divided or
    there is one rank, else the entries [rank * w] to [rank * w + w] of the divided
    dimension, where [W * w] is its size. *)
Definition is_part t (dim : option nat) (W rank : nat) (part : ntensor V) : Prop :=
  match dim with
  | Some d => if decide (W = 1) then part = t else ∃ w, shape t !! d = Some (W * w) ∧ part = slice_of t d w rank
  | None => part = t
  end.
(** Why it cannot get it: the weight has no such dimension, or it does not divide. *)
Definition no_part t (dim : option nat) (W : nat) (e : exn) : Prop :=
  ∃ d, dim = Some d ∧ W ≠ 1 ∧
    match shape t !! d with None => e = IndexError | Some n => n mod W ≠ 0 ∧ e = ValueError end.
Lemma shard_tensor_spec t dim W rank :
  rank < W → match shard_tensor t dim W rank with Ok part => is_part t dim W rank part | Err e => no_part t dim W e end.
Proof.
  intros Hr. unfold shard_tensor. destruct dim as [d|]; [|done]. destruct (Nat.eqb_spec W 1) as [->|Hne]; [done|].
  unfold size, is_part, no_part. destruct (shape t !! d) as [n|] eqn:En; cbn [mbind res_mbind]; [|exists d; by rewrite En].
  rewrite (proj2 (Nat.eqb_neq W 0)) by lia. destruct (Nat.eqb_spec (n mod W) 0) as [Hm|Hm]; cbn [negb]; [|exists d; by rewrite En].
  assert (n = W * (n / W)) as Hd by (pose proof (Nat.div_mod_eq n W); lia).
  unfold narrow, size. rewrite En. cbn [mbind res_mbind]. rewrite (proj2 (Nat.ltb_ge _ _)) by nia.
  destruct t as [xs|cols rows], d as [|d]; (rewrite decide_False by done); exists (n / W); (split; [by rewrite <- Hd|done]).
Qed.
(** One key of the file *)
Lemma load_key_sharded_spec W rank key t (m : model_state V) :
  rank < W →
  match load_key_sharded W rank (key, t) m with
  | (Ok _, m') =>
      match is_expert_key key, target_of m key with
      | false, Some old => ∃ part, is_part t (shard_dim_for_key key) W rank part ∧ shape part = shape old ∧ target_of m' key = Some part
      | _, o => target_of m' key = o
      end
  | (Err e, m') => m' = m ∧ is_expert_key key = false ∧ ∃ old, target_of m key = Some old ∧
      (no_part t (shard_dim_for_key key) W e ∨
       ∃ part, is_part t (shard_dim_for_key key) W rank part ∧ shape part ≠ shape old ∧ e = RuntimeError)
  end.
Proof.
  intros Hr. unfold load_key_sharded. cbn [fst snd]. destruct (is_expert_key key); [done|]. unfold mbind, M_bind, get.
  destruct (target_of m key) as [old|] eqn:Et; [|by cbn; rewrite Et].
  pose proof (shard_tensor_spec t (shard_dim_for_key key) W rank Hr) as Hs. destruct (shard_tensor _ _ _ _) as [part|e]; cycle 1.
  { cbn. split_and!; [done..|]. exists old. split; [done|]. by left. }
  case_bool_decide as Hsh; cbn.
  - exists part. split_and!; [done..|]. by eapply target_set_eq.
  - split_and!; [done..|]. exists old. split; [done|]. right. by exists part.
Qed.

(** C31: loading a shard of the checkpoint, on rank [rank] of [W], copies to every parameter
    or buffer that the file names, experts apart, the slice of this rank: the whole tensor
    when it is not divided, else the entries from [rank * w] to [rank * w + w] of the divided
    dimension, whose size is [W * w]; the slice has the shape the model expects, and nothing
    else changes.  An error stops it at a first tensor, with those before it copied and the
    rest as it was: [IndexError] for one that lacks the divided dimension, [ValueError] for
    one whose dimension is no multiple of [W], [RuntimeError] for one whose slice has
    another shape than the model's tensor. *)
Theorem load_sharded_exact W rank file (m : model_state V) :
  NoDup file.*1 → rank < W →
  match load_non_expert_weights_sharded file W rank m with
  | (Ok _, m') => ∀ key,
      match list_find (λ kt, kt.1 = key) file, target_of m key with
      | Some (_, (_, t)), Some old =>
          if is_expert_key key then target_of m' key = Some old
          else ∃ part, is_part t (shard_dim_for_key key) W rank part ∧ shape part = shape old ∧ target_of m' key = Some part
      | _, o => target_of m' key = o
      end
  | (Err e, m') => ∃ before key t after old, file = (before ++ (key, t) :: after)%list ∧
      load_non_expert_weights_sharded before W rank m = (Ok tt, m') ∧ is_expert_key key = false ∧ target_of m key = Some old ∧
      (no_part t (shard_dim_for_key key) W e ∨
       ∃ part, is_part t (shard_dim_for_key key) W rank part ∧ shape part ≠ shape old ∧ e = RuntimeError)
  end.
Proof.
  intros Hnd Hr. unfold load_non_expert_weights_sharded. revert m Hnd. induction file as [|[k t] file IH]; intros m Hnd.
  { cbn. intros key. done. }
  cbn [fmap list_fmap fst] in Hnd. apply NoDup_cons in Hnd as [Hk Hnd]. cbn [for_each]. unfold mbind, M_bind.
  pose proof (λ key, load_key_frame W rank (k, t) m key) as Hframe. cbn [fst] in Hframe.
  pose proof (load_key_sharded_spec W rank k t m Hr) as Hspec.
  destruct (load_key_sharded W rank (k, t) m) as [[[]|e] m1] eqn:Erun; cbn [snd] in Hframe.
  - specialize (IH m1 Hnd). pose proof (load_loop_frame W rank file m1 k Hk) as Hkeep. unfold load_non_expert_weights_sharded in Hkeep.
    destruct (for_each file (load_key_sharded W rank) m1) as [[[]|e] m'] eqn:Eloop; cbn [snd] in Hkeep.
    + intros key. cbn [list_find fst]. destruct (decide (k = key)) as [<-|Hne].
      * rewrite Hkeep. destruct (target_of m k) as [old|]; destruct (is_expert_key k); done.
      * specialize (IH key). rewrite (Hframe key) in IH by congruence. destruct (list_find _ file) as [[i [k' t']]|]; done.
    + destruct IH as (before & key & t' & after & old & -> & Hb & Hex & Ht & He). exists ((k, t) :: before), key, t', after, old.
      rewrite (Hframe key) in Ht.
      * split_and!; try done. cbn [for_each]. unfold mbind, M_bind. by rewrite Erun.
      * intros ->. apply Hk. rewrite fmap_app, fmap_cons. set_solver.
  - destruct Hspec as (-> & Hex & old & Ht & He). by exists [], k, t, file, old.
Qed.
End props.

(** ** Expert ranges *)
(** The check accepts a model exactly when every MoE layer gives the rank its share. *)
Lemma verify_ranges_iff modules W rank :
  verify_local_expert_ranges modules W rank = Ok tt ↔
  Forall (λ moe, n_local_experts moe * W = n_routed moe ∧ experts_start_idx moe = rank * n_local_experts moe ∧
                 experts_end_idx moe = rank * n_local_experts moe + n_local_experts moe) modules.
Proof.
  unfold verify_local_expert_ranges. induction modules as [|moe ms IH]; [by split|]. cbn [traverse]. rewrite Forall_cons, <- IH. clear IH.
  destruct (traverse (verify_one W rank) ms) as [us|ex].
  all: unfold verify_one. all: destruct (Nat.eqb_spec (n_local_experts moe * W) (n_routed moe)); cbn [negb]; [|split; [done|tauto]].
  all: destruct (Nat.eqb_spec (experts_start_idx moe) (rank * n_local_experts moe)); cbn; [|split; [done|tauto]].
  all: destruct (Nat.eqb_spec (experts_end_idx moe) (rank * n_local_experts moe + n_local_experts moe)); cbn; [|split; [done|tauto]].
  all: split; [done|tauto].
Qed.

(** ** Sparse attention by chunks of heads computes what it computes on all heads, when the
    kernel treats each head alone. *)
Lemma zip_with_take_drop {A B C} (f : A → B → C) l k w s :
  zip_with f (take w (drop s l)) (take w (drop s k)) = take w (drop s (zip_with f l k)).
Proof. by rewrite zip_with_drop, zip_with_take. Qed.
Theorem chunked_heads_same {H K O} (original : list H → K → list H → list O) (f : K → H → H → O) q kv sink :
  (∀ q kv sink, length q = length sink → original q kv sink = zip_with (f kv) q sink) → length q = length sink →
  sparse_attn_head_chunks original q kv sink = original q kv sink.
Proof.
  intros Horig Hlen. unfold sparse_attn_head_chunks. destruct (length q <=? 16); [done|]. rewrite (Horig q) by done.
  set (out := zip_with (f kv) q sink). assert (length out = length q) as Hout by (unfold out; rewrite length_zip_with; lia).
  transitivity (concat (map (λ c, take 16 (drop (c * 16) out)) (seq 0 (cdiv (length q) 16)))).
  - f_equal. apply map_ext. intros c. cbv zeta. rewrite Horig by (rewrite !length_take, !length_drop; lia).
    rewrite zip_with_take_drop. fold out. destruct (decide (16 ≤ length q - c * 16)).
    + by rewrite Nat.min_l.
    + rewrite Nat.min_r by lia. rewrite !take_ge; rewrite ?length_drop; (done || lia).
  - assert (∀ k, concat (map (λ c, take 16 (drop (c * 16) out)) (seq 0 k)) = take (k * 16) out) as Hk.
    { induction k as [|k IH]; [done|]. rewrite seq_S, map_app, concat_app, IH. cbn [map concat]. rewrite app_nil_r.
      rewrite Nat.add_0_l, take_take_drop. f_equal. lia. }
    rewrite Hk, take_ge; [done|]. rewrite Hout. apply cdiv_mult_ge. lia.
Qed.

(** ** Witnesses *)
Lemma shards_reassemble_witness :
  ∃ parts, length parts = 2 ∧ (∀ r p, parts !! r = Some p → shard_tensor (D2 4 [[1; 2; 3; 4]; [5; 6; 7; 8]]) (Some 1) 2 r = Ok p) ∧
    cat 1 parts = D2 4 [[1; 2; 3; 4]; [5; 6; 7; 8]].
Proof. apply (shards_reassemble (D2 4 [[1; 2; 3; 4]; [5; 6; 7; 8]]) 1 4 2); [by repeat constructor|reflexivity|lia]. Defined.

Definition demo_model : model_state nat := {| params := {[ "layers.0.attn.wo_b.weight" := Param (D2 1 [[0]; [0]]) None ]}; buffers := ∅ |}.
Definition demo_file : list (string * ntensor nat) := [("layers.0.attn.wo_b.weight", D2 2 [[1; 2]; [3; 4]]); ("layers.0.ffn.experts.0.w1.weight", D1 [7])].
(** A matrix of three columns does not divide among two ranks. *)
Definition demo_bad_file : list (string * ntensor nat) := [("layers.0.attn.wo_b.weight", D2 3 [[1; 2; 5]; [3; 4; 6]])].
Lemma load_sharded_exact_witness :
  (∃ part, is_part (D2 2 [[1; 2]; [3; 4]]) (Some 1) 2 1 part ∧ shape part = [2; 1] ∧
     target_of (load_non_expert_weights_sharded demo_file 2 1 demo_model).2 "layers.0.attn.wo_b.weight" = Some part) ∧
  (∃ before key t after old, demo_bad_file = (before ++ (key, t) :: after)%list ∧
     load_non_expert_weights_sharded before 2 1 demo_model = (Ok tt, demo_model) ∧ is_expert_key key = false ∧ target_of demo_model key = Some old ∧
     (no_part t (shard_dim_for_key key) 2 ValueError ∨
      ∃ part, is_part t (shard_dim_for_key key) 2 1 part ∧ shape part ≠ shape old ∧ ValueError = RuntimeError)).
Proof.
  split.
  - assert (NoDup demo_file.*1) as Hn by (apply (bool_decide_unpack _); vm_compute; reflexivity).
    pose proof (load_sharded_exact 2 1 demo_file demo_model Hn ltac:(lia)) as H.
    destruct (load_non_expert_weights_sharded demo_file 2 1 demo_model) as [[[]|e] m'] eqn:E; [|vm_compute in E; discriminate].
    specialize (H "layers.0.attn.wo_b.weight"). vm_compute in E. injection E as <-. vm_compute in H. vm_compute. exact H.
  - assert (NoDup demo_bad_file.*1) as Hn by (apply (bool_decide_unpack _); vm_compute; reflexivity).
    pose proof (load_sharded_exact 2 1 demo_bad_file demo_model Hn ltac:(lia)) as H.
    assert (load_non_expert_weights_sharded demo_bad_file 2 1 demo_model = (Err ValueError, demo_model)) as E by (vm_compute; reflexivity).
    rewrite E in H. exact H.
Defined.
Example demo_loaded : target_of (load_non_expert_weights_sharded demo_file 2 1 demo_model).2 "layers.0.attn.wo_b.weight" = Some (D2 1 [[2]; [4]]).
Proof. vm_compute. reflexivity. Qed.
