(* ===== verification/FusedSoftmax.v ===== *)
(** * Softmax on the device (kernel/router.py)

    The numbers the softmax kernels compute with, as an interface: scores, weights and the
    exponential from the ones to the others.  The kernels' theorems hold for every
    instance; [Z_numbers] (scores are integers, the exponential is a power of two) makes
    the definitions run, [R_numbers] is the real exponential.

    The row-wise softmax kernel, the fused router kernel (scores, softmax, the [TOPK]
    experts with the largest probabilities, renormalisation) and their launchers. *)
From Stdlib Require Import QArith Qcanon Qpower Field.
From Stdlib Require Import Reals Lra.
From S2P Require Import Prelude Tensor.
Open Scope nat_scope.

(** ** Scores and weights *)
Class Numbers (T F : Type) := {
  t_zero : T; t_add : T → T → T; t_mul : T → T → T; t_sub : T → T → T; t_leb : T → T → bool;
  f_zero : F; f_one : F; f_add : F → F → F; f_mul : F → F → F; f_sub : F → F → F; f_opp : F → F;
  f_div : F → F → F; f_inv : F → F; f_leb : F → F → bool;
  expo : T → F }.
Definition f_ltb `{Numbers T F} (a b : F) : bool := negb (f_leb b a).
Definition f_eqb `{Numbers T F} (a b : F) : bool := f_leb a b && f_leb b a.

(** What the exponential, the order and the field operations promise *)
Class NumberLaws (T F : Type) `{Numbers T F} := {
  t_total a b : t_leb a b = false → t_leb b a = true;
  t_trans a b c : t_leb a b = true → t_leb b c = true → t_leb a c = true;
  f_field : field_theory f_zero f_one f_add f_mul f_sub f_opp f_div f_inv (@eq F);
  f_total a b : f_leb a b = false → f_leb b a = true;
  f_trans a b c : f_leb a b = true → f_leb b c = true → f_leb a c = true;
  f_antisym a b : f_leb a b = true → f_leb b a = true → a = b;
  f_pos_add a b : f_ltb f_zero a = true → f_leb f_zero b = true → f_ltb f_zero (f_add a b) = true;
  expo_pos t : f_ltb f_zero (expo t) = true;
  expo_shift a b c : expo (t_sub a c) = f_mul (expo (t_sub a b)) (expo (t_sub b c)) }.

(** *** Integer scores, powers of two *)
Definition qc_leb (a b : Qc) : bool := Qle_bool (this a) (this b).
Definition pow2_Qc (e : Z) : Qc := Q2Qc (Qpower 2 e).
#[export] Instance Z_numbers : Numbers Z Qc := {
  t_zero := 0%Z; t_add := Z.add; t_mul := Z.mul; t_sub := Z.sub; t_leb := Z.leb;
  f_zero := 0%Qc; f_one := 1%Qc; f_add := Qcplus; f_mul := Qcmult; f_sub := Qcminus; f_opp := Qcopp;
  f_div := Qcdiv; f_inv := Qcinv; f_leb := qc_leb; expo := pow2_Qc }.

Lemma qc_leb_iff a b : qc_leb a b = true ↔ (a <= b)%Qc.
Proof. unfold qc_leb, Qcle. apply Qle_bool_iff. Qed.
Lemma qc_ltb_iff a b : negb (qc_leb b a) = true ↔ (a < b)%Qc.
Proof.
  rewrite negb_true_iff. split.
  - intros H. apply Qcnot_le_lt. intros Hle. apply qc_leb_iff in Hle. congruence.
  - intros H. destruct (qc_leb b a) eqn:E; [|done]. apply qc_leb_iff in E. by apply Qcle_not_lt in E.
Qed.

#[export] Instance Z_laws : NumberLaws Z Qc.
Proof.
  constructor; unfold f_ltb; cbn.
  - intros a b H. apply Z.leb_gt in H. apply Z.leb_le. lia.
  - intros a b c. rewrite !Z.leb_le. lia.
  - exact Qcft.
  - intros a b H. apply qc_leb_iff. apply Qclt_le_weak. apply qc_ltb_iff. by rewrite H.
  - intros a b c. rewrite !qc_leb_iff. apply Qcle_trans.
  - intros a b. rewrite !qc_leb_iff. apply Qcle_antisym.
  - intros a b. rewrite !qc_ltb_iff, qc_leb_iff. intros Ha Hb.
    apply Qclt_le_trans with (a + 0)%Qc; [by rewrite Qcplus_0_r|]. apply Qcplus_le_compat; [apply Qcle_refl|done].
  - intros t. apply qc_ltb_iff. change (0 < Qred (2 ^ t))%Q. rewrite Qred_correct. by apply Qpower_0_lt.
  - intros a b c. apply Qc_is_canon. change (Qred (2 ^ (a - c)) == Qred (Qred (2 ^ (a - b)) * Qred (2 ^ (b - c))))%Q.
    rewrite !Qred_correct, <- Qpower_plus by done.
    by replace (a - b + (b - c))%Z with (a - c)%Z by lia.
Qed.

(** *** The real exponential *)
Definition R_leb (a b : R) : bool := if Rle_dec a b then true else false.
#[export] Instance R_numbers : Numbers R R := {
  t_zero := 0%R; t_add := Rplus; t_mul := Rmult; t_sub := Rminus; t_leb := R_leb;
  f_zero := 0%R; f_one := 1%R; f_add := Rplus; f_mul := Rmult; f_sub := Rminus; f_opp := Ropp;
  f_div := Rdiv; f_inv := Rinv; f_leb := R_leb; expo := exp }.
Lemma R_leb_iff a b : R_leb a b = true ↔ (a <= b)%R.
Proof. unfold R_leb. by destruct (Rle_dec a b). Qed.
Lemma R_ltb_iff a b : negb (R_leb b a) = true ↔ (a < b)%R.
Proof. unfold R_leb. destruct (Rle_dec b a); cbn; split; intros; try done; lra. Qed.
#[export] Instance R_laws : NumberLaws R R.
Proof.
  constructor; unfold f_ltb; cbn.
  - intros a b H. apply R_leb_iff. assert (b < a)%R; [apply R_ltb_iff; by rewrite H|lra].
  - intros a b c. rewrite !R_leb_iff. lra.
  - apply Rfield.
  - intros a b H. apply R_leb_iff. assert (b < a)%R; [apply R_ltb_iff; by rewrite H|lra].
  - intros a b c. rewrite !R_leb_iff. lra.
  - intros a b. rewrite !R_leb_iff. lra.
  - intros a b. rewrite !R_ltb_iff, R_leb_iff. lra.
  - intros t. apply R_ltb_iff, exp_pos.
  - intros a b c. rewrite <- exp_plus. f_equal. ring.
Qed.

(** ** Device operations *)
Section device.
Context `{Numbers T F}.

Definition tsum (l : list T) : T := foldr t_add t_zero l.
Definition fsum (l : list F) : F := foldr f_add f_zero l.

(** A score or minus infinity ([None]); the maximum of a vector of them *)
Definition xmax (a b : option T) : option T :=
  match a, b with
  | None, _ => b
  | _, None => a
  | Some x, Some y => Some (if t_leb x y then y else x)
  end.
Definition xmaximum (l : list (option T)) : option T := foldl xmax None l.
(** [exp(a - b)]; nothing when the difference is no number below infinity *)
Definition exp_diff (a b : option T) : option F :=
  match b with
  | None => None
  | Some y => Some match a with Some x => expo (t_sub x y) | None => f_zero end
  end.
(** The same for weights *)
Definition fmax (a b : option F) : option F :=
  match a, b with
  | None, _ => b
  | _, None => a
  | Some x, Some y => Some (if f_leb x y then y else x)
  end.
Definition fmaximum (l : list (option F)) : option F := foldl fmax None l.
Definition feq (a b : option F) : bool :=
  match a, b with Some x, Some y => f_eqb x y | None, None => true | _, _ => false end.

(** [triton.next_power_of_2] *)
Definition next_power_of_2 (n : nat) : nat := if n =? 0 then 0 else 2 ^ Nat.log2_up n.

(** ** The softmax kernel *)
(** [numerator / denominator] of a row of scores *)
Definition softmax_row (row : list (option T)) : option (list F) :=
  let row_max := xmaximum row in
  numerator ← mapM (λ x, exp_diff x row_max) row;
  let denominator := fsum numerator in
  Some (map (λ x, f_div x denominator) numerator).

(** [tl.range(row_start, n_rows, row_step)] *)
Definition rows_of (pid programs n_rows : nat) : list nat :=
  map (λ i, pid + i * programs) (seq 0 (cdiv (n_rows - pid) programs)).

(** The stores of program [pid]; [cast] rounds to the type of the output. *)
Definition softmax_kernel (cast : F → F) (input : nat → T) (in_stride out_stride n_rows n_cols BLOCK_SIZE : nat)
    (programs pid : nat) : list (nat * option F) :=
  row_idx ← rows_of pid programs n_rows;
  let row := map (λ c, if c <? n_cols then Some (input (row_idx * in_stride + c)) else None) (seq 0 BLOCK_SIZE) in
  let softmax_output := softmax_row row in
  c ← seq 0 BLOCK_SIZE;
  if c <? n_cols
  then [(row_idx * out_stride + c, cast <$> (softmax_output ≫= lookup c))]
  else [].

Definition stores {A} (order : list nat) (program : nat → list (nat * A)) : gmap nat A :=
  foldl (λ mem w, <[w.1 := w.2]> mem) ∅ (order ≫= program).

(** Rows of an output tensor of [n_rows] times [n_cols]; entries that no program stored
    and entries that are no numbers are [None]. *)
Definition read_rows {A} (n_rows n_cols : nat) (mem : gmap nat (option A)) : list (list (option A)) :=
  map (λ m, map (λ n, mjoin (mem !! (m * n_cols + n))) (seq 0 n_cols)) (seq 0 n_rows).

(** [order] is the order in which the programs run, [junk] what lies in memory beside the
    rows of the input. *)
Definition launch_softmax (cast : F → F) (junk : nat → T) (order : list nat) (n_cols : nat) (input : list (list T))
    : list (list (option F)) :=
  let n_rows := length input in
  let BLOCK_SIZE := next_power_of_2 n_cols in
  read_rows n_rows n_cols
    (stores order (softmax_kernel cast (memory_of input junk) n_cols n_cols n_rows n_cols BLOCK_SIZE n_rows)).

(** ** The router kernel *)
(** [tl.cumsum] of a mask *)
Fixpoint cumsum (acc : nat) (l : list bool) : list nat :=
  match l with
  | [] => []
  | b :: l => let acc := acc + (if b then 1 else 0) in acc :: cumsum acc l
  end.
(** One round of the selection, on what remains and the mask so far *)
Definition select_step (st : list (option F) * list bool) (_k : nat) : list (option F) * list bool :=
  let '(remaining, top_mask) := st in
  let cur_max := fmaximum remaining in
  let is_max := map (λ r, feq r cur_max) remaining in
  let first := zip_with (λ b c, b && (c =? 1)) is_max (cumsum 0 is_max) in
  let top_mask := zip_with orb top_mask first in
  let remaining := zip_with (λ (f : bool) r, if f then None else r) first remaining in
  (remaining, top_mask).

Definition router_logit (hidden weight : nat → T) (H E batch_id e : nat) : T :=
  foldl (λ logits h,
           let h_val := hidden (batch_id * H + h) in
           let w_val := if e <? E then weight (e * H + h) else t_zero in
           if e <? E then t_add logits (t_mul h_val w_val) else logits)
        t_zero (seq 0 H).

Definition top_probs_of (normalize_topk : bool) (top_mask : list bool) (probs : list F) : list F :=
  let top_probs := zip_with (λ (m : bool) p, if m then p else f_zero) top_mask probs in
  if normalize_topk then let top_sum := fsum top_probs in map (λ p, f_div p top_sum) top_probs else top_probs.

(** The stores of program [batch_id] into the mask and into the weights *)
Definition fused_softmax_topk_kernel_nobias (bf16 : F → F) (hidden weight : nat → T) (H E TOPK BLOCK_E : nat)
    (normalize_topk : bool) (batch_id : nat) : list (nat * option (bool * F)) :=
  let off_e := seq 0 BLOCK_E in
  let logits := map (λ e, if e <? E then Some (router_logit hidden weight H E batch_id e) else None) off_e in
  let result :=
    probs ← softmax_row logits;
    let remaining := imap (λ e p, if e <? E then Some p else None) probs in
    let top_mask := (foldl select_step (remaining, replicate BLOCK_E false) (seq 0 TOPK)).2 in
    Some (zip top_mask (map bf16 (top_probs_of normalize_topk top_mask probs))) in
  e ← off_e;
  if e <? E then [(batch_id * E + e, result ≫= lookup e)] else [].

(** Mask and weight of every token and expert *)
Definition launch_fused_softmax_topk_nobias (bf16 : F → F) (junk_h junk_w : nat → T) (order : list nat) (H : nat)
    (hidden_states weight : list (list T)) (top_k : nat) (normalize_topk : bool) : list (list (option (bool * F))) :=
  let B := length hidden_states in
  let E := length weight in
  let BLOCK_E := next_power_of_2 E in
  read_rows B E
    (stores order (fused_softmax_topk_kernel_nobias bf16 (memory_of hidden_states junk_h) (memory_of weight junk_w)
                     H E top_k BLOCK_E normalize_topk)).

(** ** References *)
(** [softmax(scores)], the weights of a vector of scores *)
Definition softmax (scores : list T) : list F :=
  match xmaximum (map Some scores) with
  | None => []
  | Some c => let e := map (λ s, expo (t_sub s c)) scores in map (λ x, f_div x (fsum e)) e
  end.
(** Expert [j] comes before expert [i]: a larger probability, or an equal one and a
    smaller index. *)
Definition ahead (probs : list F) (j i : nat) : bool :=
  match probs !! j, probs !! i with
  | Some pj, Some pi => f_ltb pi pj || (f_eqb pi pj && (j <? i))
  | _, _ => false
  end.
Definition rank (probs : list F) (i : nat) : nat := length (filter (λ j, ahead probs j i = true) (seq 0 (length probs))).
Definition top_k_mask (k : nat) (probs : list F) : list bool := map (λ i, rank probs i <? k) (seq 0 (length probs)).
(** The routing weight of expert [i]: nothing unless it is among the [k] best; else its
    probability, divided by the probabilities of the [k] best when they are renormalised. *)
Definition prob_at (probs : list F) (i : nat) : F := default f_zero (probs !! i).
Definition selected (k : nat) (probs : list F) : list nat := filter (λ i, rank probs i < k) (seq 0 (length probs)).
Definition route_weight (normalize : bool) (k : nat) (probs : list F) (i : nat) : F :=
  if decide (i ∈ selected k probs)
  then if normalize then f_div (prob_at probs i) (fsum (map (prob_at probs) (selected k probs))) else prob_at probs i
  else f_zero.
(** [hidden @ weight[e]] *)
Definition dot_row (x w : list T) : T := foldl (λ acc p, t_add acc (t_mul p.1 p.2)) t_zero (zip x w).
End device.

(** ** The softmax and router kernels are correct

    [softmax_rows_exact]: the softmax kernel stores the softmax of every row.
    [router_selects_top_k]: the router kernel marks the experts of rank below [TOPK] and
    gives them their (renormalised) probabilities. *)
Open Scope nat_scope.

Section laws.
Context `{NumberLaws T F}.
Add Field weights : (f_field (T:=T) (F:=F)).

(** ** Order *)
Lemma f_refl a : f_leb a a = true.
Proof. destruct (f_leb a a) eqn:E; [done|]. rewrite <- E. by apply f_total. Qed.
Lemma f_eqb_iff a b : f_eqb a b = true ↔ a = b.
Proof.
  unfold f_eqb. rewrite andb_true_iff. split; [intros []; by apply f_antisym|].
  intros ->. by rewrite f_refl.
Qed.
Lemma f_ltb_iff a b : f_ltb a b = true ↔ f_leb a b = true ∧ a ≠ b.
Proof.
  unfold f_ltb. rewrite negb_true_iff. split.
  - intros Hl. split; [by apply f_total|]. intros ->. by rewrite f_refl in Hl.
  - intros [Hl Hn]. destruct (f_leb b a) eqn:E; [|done]. by destruct Hn; apply f_antisym.
Qed.
Lemma f_pos_neq a : f_ltb f_zero a = true → a ≠ f_zero.
Proof. rewrite f_ltb_iff. by intros [_ Hn] ->. Qed.

(** ** Sums *)
Lemma fsum_cons x l : fsum (x :: l) = f_add x (fsum l).
Proof. done. Qed.
Lemma fsum_app l1 l2 : fsum (l1 ++ l2) = f_add (fsum l1) (fsum l2).
Proof. induction l1 as [|x l1 IH]; cbn [app]; rewrite ?fsum_cons, ?IH; unfold fsum; cbn [foldr]; ring. Qed.
Lemma fsum_scale (c : F) {A} (f g : A → F) l :
  (∀ a, f a = f_mul (g a) c) → fsum (map f l) = f_mul (fsum (map g l)) c.
Proof.
  intros Hf. induction l as [|x l IH]; cbn [map]; rewrite ?fsum_cons, ?IH, ?Hf; unfold fsum; cbn [foldr]; ring.
Qed.
Lemma fsum_zeros l : Forall (λ x, x = f_zero) l → fsum l = f_zero.
Proof. induction 1 as [|x l -> _ IH]; [done|]. rewrite fsum_cons, IH. ring. Qed.
Lemma fsum_nonneg l : Forall (λ x, f_leb f_zero x = true) l → f_leb f_zero (fsum l) = true.
Proof.
  induction 1 as [|x l Hx Hl IH]; [apply f_refl|]. rewrite fsum_cons.
  destruct (f_eqb x f_zero) eqn:E.
  - apply f_eqb_iff in E as ->. by replace (f_add f_zero (fsum l)) with (fsum l) by ring.
  - apply f_ltb_iff. apply f_pos_add; [|done]. apply f_ltb_iff. split; [done|]. intros <-.
    rewrite (proj2 (f_eqb_iff f_zero f_zero)) in E; done.
Qed.
Lemma fsum_perm l1 l2 : l1 ≡ₚ l2 → fsum l1 = fsum l2.
Proof.
  induction 1 as [|x l1 l2 _ IH|x y l|l1 l2 l3 _ IH1 _ IH2]; rewrite ?fsum_cons; [done| |ring|congruence].
  by rewrite IH.
Qed.
Lemma fsum_pos l :
  Forall (λ x, f_leb f_zero x = true) l → (∃ x, x ∈ l ∧ f_ltb f_zero x = true) → f_ltb f_zero (fsum l) = true.
Proof.
  intros Hl (x & Hx & Hp). apply elem_of_Permutation in Hx as [k Hk]. rewrite Hk in Hl. apply Forall_cons in Hl as [_ Hl].
  rewrite (fsum_perm _ _ Hk), fsum_cons. by apply f_pos_add, fsum_nonneg.
Qed.
Lemma fsum_pos_all l : l ≠ [] → Forall (λ x, f_ltb f_zero x = true) l → f_ltb f_zero (fsum l) = true.
Proof.
  intros Hn Hl. apply fsum_pos.
  - eapply Forall_impl; [exact Hl|]. intros x Hx. by apply f_ltb_iff.
  - destruct Hl as [|x l Hx _]; [done|]. exists x. split; [left|done].
Qed.
Lemma zero_div d : f_div f_zero d = f_zero.
Proof. rewrite (Fdiv_def (f_field (T:=T) (F:=F))). ring. Qed.
Lemma fsum_div d l : fsum (map (λ x, f_div x d) l) = f_div (fsum l) d.
Proof.
  rewrite (Fdiv_def (f_field (T:=T) (F:=F))), (fsum_scale (f_inv d) _ Datatypes.id), map_id; [done|].
  intros x. by rewrite (Fdiv_def (f_field (T:=T) (F:=F))).
Qed.
Lemma div_self d : d ≠ f_zero → f_div d d = f_one.
Proof. intros Hd. by field. Qed.

(** ** Maxima *)
Lemma xmaximum_app l1 l2 : xmaximum (l1 ++ l2) = foldl xmax (xmaximum l1) l2.
Proof. apply foldl_app. Qed.
Lemma xmax_nones n m : foldl xmax m (replicate n None) = m.
Proof. induction n as [|n IH] in m |- *; [done|]. cbn [replicate foldl]. by destruct m; apply IH. Qed.
Lemma xmax_some m l : ∃ c, foldl xmax (Some m) (map Some l) = Some c.
Proof.
  induction l as [|x l IH] in m |- *; cbn [map foldl xmax]; [by eexists|]. apply IH.
Qed.
Lemma xmaximum_some l : l ≠ [] → ∃ c, xmaximum (map Some l) = Some c.
Proof. destruct l as [|x l]; [done|]. intros _. apply xmax_some. Qed.

(** ** Softmax of a padded row *)
Lemma map_replicated {A B} (f : A → B) n x : map f (replicate n x) = replicate n (f x).
Proof. induction n as [|n IH]; cbn; [done|]. by rewrite IH. Qed.
Lemma mapM_exp_diff c l : mapM (λ x, exp_diff x (Some c)) l =
  Some (map (λ x, match x with Some x => expo (t_sub x c) | None => f_zero end) l).
Proof. apply mapM_Some_2. induction l as [|x l IH]; cbn [map]; constructor; done. Qed.
Lemma softmax_row_padded scores n :
  scores ≠ [] → softmax_row (map Some scores ++ replicate n None) = Some (softmax scores ++ replicate n f_zero).
Proof.
  intros Hs. unfold softmax_row, softmax. rewrite xmaximum_app, xmax_nones.
  destruct (xmaximum_some scores Hs) as [c ->]. rewrite mapM_exp_diff. cbn [mbind option_bind].
  rewrite map_app, map_map, (map_replicated _ n None). cbv zeta.
  rewrite map_app, (map_replicated _ n f_zero), zero_div.
  rewrite fsum_app, (fsum_zeros (replicate n f_zero)) by (by apply Forall_replicate).
  do 2 f_equal. apply map_ext. intros x. f_equal. ring.
Qed.
Lemma masked_row {A} n m (f : nat → A) :
  n ≤ m → map (λ c, if c <? n then Some (f c) else None) (seq 0 m) = map Some (map f (seq 0 n)) ++ replicate (m - n) None.
Proof.
  intros Hn. replace m with (n + (m - n)) at 1 by lia. rewrite seq_app, map_app. f_equal.
  - rewrite map_map. apply map_ext_in. intros c Hc%in_seq. by rewrite (proj2 (Nat.ltb_lt c n)) by lia.
  - rewrite <- (length_seq (m - n) (0 + n)) at 2. generalize (seq_lt_all 0).
    intros _. assert (Forall (λ c, n ≤ c) (seq (0 + n) (m - n))) as Ha by (apply Forall_forall; intros c Hc%elem_of_seq; lia).
    induction Ha as [|c l Hc _ IH]; [done|]. cbn [map length replicate]. by rewrite (proj2 (Nat.ltb_ge c n)), IH.
Qed.
Lemma next_power_of_2_ge n : n ≤ next_power_of_2 n.
Proof.
  unfold next_power_of_2. destruct (Nat.eqb_spec n 0) as [->|Hn]; [done|].
  destruct (decide (n = 1)) as [->|]; [done|]. apply Nat.log2_up_spec. lia.
Qed.
(** The softmax is positive and its sum is one. *)
Lemma softmax_length scores : length (softmax scores) = length scores.
Proof.
  unfold softmax. destruct scores as [|s l]; [done|]. destruct (xmaximum_some (s :: l)) as [c ->]; [done|].
  by rewrite !length_map.
Qed.
Lemma softmax_denominator scores c : scores ≠ [] → f_ltb f_zero (fsum (map (λ s, expo (t_sub s c)) scores)) = true.
Proof.
  intros Hs. apply fsum_pos_all; [by destruct scores|]. apply Forall_map, Forall_true. intros s. apply expo_pos.
Qed.
Lemma softmax_sum scores : scores ≠ [] → fsum (softmax scores) = f_one.
Proof.
  intros Hs. unfold softmax. destruct (xmaximum_some scores Hs) as [c ->]. rewrite fsum_div.
  apply div_self. by apply f_pos_neq, softmax_denominator.
Qed.
(** The point that scores are measured from does not matter. *)
Lemma softmax_shift scores c :
  softmax scores = (let e := map (λ s, expo (t_sub s c)) scores in map (λ x, f_div x (fsum e)) e).
Proof.
  destruct scores as [|s0 l]; [done|]. assert (s0 :: l ≠ []) as Hs by done. revert Hs. generalize (s0 :: l) as scores. intros scores Hs.
  unfold softmax. destruct (xmaximum_some scores Hs) as [d ->]. cbv zeta.
  rewrite (fsum_scale (expo (t_sub c d)) _ (λ s, expo (t_sub s c))) by (intros; apply expo_shift).
  rewrite !map_map. apply map_ext. intros s. rewrite (expo_shift s c d).
  pose proof (f_pos_neq _ (expo_pos (t_sub c d))). pose proof (f_pos_neq _ (softmax_denominator scores c Hs)).
  field. done.
Qed.

(** ** Ranks *)
Section ranks.
Context (probs : list F).
Abbreviation E := (length probs).

Lemma ahead_iff j i : ahead probs j i = true ↔
  ∃ pj pi, probs !! j = Some pj ∧ probs !! i = Some pi ∧ f_leb pi pj = true ∧ (pi = pj → j < i).
Proof.
  unfold ahead. split.
  - destruct (probs !! j) as [pj|], (probs !! i) as [pi|]; try done. intros Ha. exists pj, pi. split_and!; [done..| |].
    + apply orb_true_iff in Ha as [Ha|Ha]; [by apply f_ltb_iff|]. apply andb_true_iff in Ha as [Ha _].
      apply f_eqb_iff in Ha as ->. apply f_refl.
    + intros ->. apply orb_true_iff in Ha as [Ha|Ha]; [by apply f_ltb_iff in Ha as []|].
      apply andb_true_iff in Ha as [_ Ha]. by apply Nat.ltb_lt.
  - intros (pj & pi & -> & -> & Hle & Hlt). destruct (f_eqb pi pj) eqn:Ee.
    + apply orb_true_iff. right. cbn. apply Nat.ltb_lt. apply Hlt. by apply f_eqb_iff.
    + apply orb_true_iff. left. apply f_ltb_iff. split; [done|]. intros ->. by rewrite (proj2 (f_eqb_iff pj pj)) in Ee.
Qed.
Lemma ahead_irrefl i : ahead probs i i = false.
Proof. apply not_true_is_false. intros (pj & pi & Hj & Hi & _ & Hlt)%ahead_iff. simplify_eq. specialize (Hlt eq_refl). lia. Qed.
Lemma ahead_trans a b c : ahead probs a b = true → ahead probs b c = true → ahead probs a c = true.
Proof.
  rewrite !ahead_iff. intros (pa & pb & Ha & Hb & Hab & Lab) (pb' & pc & Hb' & Hc & Hbc & Lbc). simplify_eq.
  exists pa, pc. split_and!; [done..|by eapply f_trans|]. intros ->.
  assert (pb = pa) as -> by (by apply f_antisym). specialize (Lab eq_refl). specialize (Lbc eq_refl). lia.
Qed.
Lemma ahead_total a b : a < E → b < E → a ≠ b → ahead probs a b = true ∨ ahead probs b a = true.
Proof.
  intros Ha Hb Hn. rewrite !ahead_iff. destruct (lookup_lt_is_Some_2 probs a Ha) as [pa Hpa], (lookup_lt_is_Some_2 probs b Hb) as [pb Hpb].
  destruct (f_eqb pa pb) eqn:Ee.
  - apply f_eqb_iff in Ee as ->. destruct (decide (a < b)).
    + left. exists pb, pb. split_and!; [done..|apply f_refl|done].
    + right. exists pb, pb. split_and!; [done..|apply f_refl|lia].
  - assert (pa ≠ pb) as Hne by (intros ->; by rewrite (proj2 (f_eqb_iff pb pb)) in Ee).
    destruct (f_leb pa pb) eqn:El.
    + right. exists pb, pa. split_and!; [done..|]. by intros ->.
    + left. exists pa, pb. split_and!; [done..|by apply f_total|]. by intros ->.
Qed.

Lemma filter_length_le {A} (P Q : A → Prop) `{!∀ x, Decision (P x)} `{!∀ x, Decision (Q x)} l :
  (∀ x, x ∈ l → P x → Q x) → length (filter P l) ≤ length (filter Q l).
Proof.
  induction l as [|x l IH]; intros Hi; [done|]. rewrite !filter_cons.
  assert (length (filter P l) ≤ length (filter Q l)) by (apply IH; intros; apply Hi; [by right|done]).
  destruct (decide (P x)) as [HP|]; [rewrite decide_True by (apply Hi; [left|done]); cbn; lia|].
  destruct (decide (Q x)); cbn; lia.
Qed.
Lemma filter_length_lt {A} (P Q : A → Prop) `{!∀ x, Decision (P x)} `{!∀ x, Decision (Q x)} l z :
  (∀ x, x ∈ l → P x → Q x) → z ∈ l → Q z → ¬ P z → length (filter P l) < length (filter Q l).
Proof.
  intros Hi Hz HQ HP. apply elem_of_Permutation in Hz as [k Hk]. rewrite Hk, !filter_cons.
  rewrite decide_False, decide_True by done. cbn. apply le_n_S, filter_length_le. intros x Hx. apply Hi. rewrite Hk. by right.
Qed.
Lemma rank_ahead a b : a < E → ahead probs a b = true → rank probs a < rank probs b.
Proof.
  intros Ha Hab. apply (filter_length_lt _ _ _ a).
  - intros x _ Hx. by eapply ahead_trans.
  - apply elem_of_seq. lia.
  - done.
  - by rewrite ahead_irrefl.
Qed.
Lemma rank_bound i : i < E → rank probs i < E.
Proof.
  intros Hi. apply Nat.lt_le_trans with (length (filter (λ _ : nat, True) (seq 0 E))).
  2: { etrans; [apply length_filter|]. by rewrite length_seq. }
  apply (filter_length_lt _ _ _ i); [done|apply elem_of_seq; lia|done|by rewrite ahead_irrefl].
Qed.
Lemma rank_inj a b : a < E → b < E → rank probs a = rank probs b → a = b.
Proof.
  intros Ha Hb Hr. destruct (decide (a = b)) as [|Hn]; [done|].
  destruct (ahead_total a b Ha Hb Hn) as [Hh|Hh]; apply rank_ahead in Hh; lia.
Qed.
Lemma rank_lt_ahead a b : a < E → b < E → rank probs a < rank probs b → ahead probs a b = true.
Proof.
  intros Ha Hb Hr. destruct (ahead_total a b Ha Hb) as [Hh|Hh]; [intros ->; lia|done|].
  apply rank_ahead in Hh; [lia|done].
Qed.
(** The ranks are the numbers below [E]. *)
Lemma ranks_perm : map (rank probs) (seq 0 E) ≡ₚ seq 0 E.
Proof.
  apply submseteq_length_Permutation; [|by rewrite length_map]. apply NoDup_submseteq.
  - apply NoDup_fmap_2_strong; [|apply NoDup_seq]. intros a b Ha%elem_of_seq Hb%elem_of_seq. apply rank_inj; lia.
  - intros r (i & -> & Hi)%list_elem_of_fmap. apply elem_of_seq in Hi. apply elem_of_seq.
    pose proof (rank_bound i). lia.
Qed.
Lemma rank_surj k : k < E → ∃ i, i < E ∧ rank probs i = k.
Proof.
  intros Hk. assert (k ∈ map (rank probs) (seq 0 E)) as Hin by (rewrite ranks_perm; apply elem_of_seq; lia).
  apply list_elem_of_fmap in Hin as (i & -> & Hi). apply elem_of_seq in Hi. exists i. split; [lia|done].
Qed.
End ranks.

(** ** One round of the selection *)
Definition firsts (l : list bool) : list bool := zip_with (λ b c, b && (c =? 1)) l (cumsum 0 l).

Lemma firsts_rest acc l : 1 ≤ acc → zip_with (λ b c, b && (c =? 1)) l (cumsum acc l) = map (λ _, false) l.
Proof.
  revert acc. induction l as [|b l IH]; intros acc Ha; [done|]. cbn [cumsum zip_with map]. f_equal; [|apply IH; lia].
  destruct b; cbn [andb]; [|done]. apply Nat.eqb_neq. lia.
Qed.
(** The mask of the first maximal lane *)
Lemma firsts_at l i : l !! i = Some true → (∀ j, j < i → l !! j = Some false) → firsts l = map (λ j, j =? i) (seq 0 (length l)).
Proof.
  unfold firsts. revert i. induction l as [|b l IH]; intros i Hi Hj; [done|]. cbn [cumsum zip_with length seq map]. destruct i as [|i].
  - cbn in Hi. simplify_eq. cbn [andb Nat.eqb Nat.add]. f_equal. rewrite firsts_rest by lia.
    rewrite <- seq_shift, map_map. etrans; [by apply (const_fmap _ l false)|]. rewrite <- (length_seq (length l) 0) at 1.
    symmetry. by apply (const_fmap _ (seq 0 (length l)) false).
  - assert (b = false) as -> by (specialize (Hj 0 ltac:(lia)); cbn in Hj; congruence). cbn [andb Nat.eqb Nat.add]. f_equal.
    rewrite IH with (i := i); [|done|intros j Hlt; apply (Hj (S j)); lia].
    rewrite <- (seq_shift (length l) 0), map_map. by apply map_ext.
Qed.

Lemma fmaximum_spec l :
  match fmaximum l with
  | None => Forall (λ x, x = None) l
  | Some m => Some m ∈ l ∧ ∀ x, Some x ∈ l → f_leb x m = true
  end.
Proof.
  unfold fmaximum. induction l as [|x l IH] using rev_ind; [constructor|]. rewrite foldl_app. cbn [foldl].
  destruct (foldl fmax None l) as [m|], x as [x|]; cbn [fmax].
  - destruct IH as [Hm Hall]. destruct (f_leb m x) eqn:El.
    + split; [apply elem_of_app; right; left|]. intros y [Hy|[[= ->]|[]%elem_of_nil]%elem_of_cons]%elem_of_app; [|apply f_refl].
      by eapply f_trans, El; apply Hall.
    + split; [apply elem_of_app; by left|]. intros y [Hy|[[= ->]|[]%elem_of_nil]%elem_of_cons]%elem_of_app; [by apply Hall|].
      by apply f_total.
  - destruct IH as [Hm Hall]. split; [apply elem_of_app; by left|].
    intros y [Hy|[[=]|[]%elem_of_nil]%elem_of_cons]%elem_of_app. by apply Hall.
  - split; [apply elem_of_app; right; left|]. intros y [Hy|[[= ->]|[]%elem_of_nil]%elem_of_cons]%elem_of_app; [|apply f_refl].
    by apply (proj1 (Forall_forall _ _) IH) in Hy.
  - apply Forall_app. split; [done|]. by repeat constructor.
Qed.

Section select.
Context (probs : list F) (pad : nat).
Abbreviation E := (length probs).
(** What remains and what is marked after [k] rounds *)
Definition remaining_after (k i : nat) : option F :=
  if i <? E then if rank probs i <? k then None else probs !! i else None.
Definition marked_after (k i : nat) : bool := (i <? E) && (rank probs i <? k).
Definition state_after (k : nat) : list (option F) * list bool :=
  (map (remaining_after k) (seq 0 (E + pad)), map (marked_after k) (seq 0 (E + pad))).

Lemma remaining_some k i x : remaining_after k i = Some x → i < E ∧ k ≤ rank probs i ∧ probs !! i = Some x.
Proof.
  unfold remaining_after. destruct (Nat.ltb_spec i E); [|done]. destruct (Nat.ltb_spec (rank probs i) k); [done|]. intros ->. done.
Qed.
Lemma lookup_state k i : i < E + pad → map (remaining_after k) (seq 0 (E + pad)) !! i = Some (remaining_after k i).
Proof. intros Hi. rewrite list_lookup_fmap, lookup_seq_lt by done. done. Qed.

(** The lane that a round marks *)
Lemma first_lane k i :
  i < E + pad → feq (remaining_after k i) (fmaximum (map (remaining_after k) (seq 0 (E + pad)))) = true →
  (∀ j, j < i → feq (remaining_after k j) (fmaximum (map (remaining_after k) (seq 0 (E + pad)))) = false) →
  ∀ n, select_step (state_after k) n =
    (map (λ j, if j =? i then None else remaining_after k j) (seq 0 (E + pad)),
     map (λ j, marked_after k j || (j =? i)) (seq 0 (E + pad))).
Proof.
  intros Hi Ht Hf n. unfold select_step, state_after. fold (firsts (map (λ r, feq r (fmaximum (map (remaining_after k) (seq 0 (E + pad))))) (map (remaining_after k) (seq 0 (E + pad))))).
  rewrite (firsts_at _ i).
  - rewrite !length_map, length_seq. f_equal; apply list_eq; intros j.
    + rewrite lookup_zip_with, !list_lookup_fmap. destruct (seq 0 (E + pad) !! j) as [j'|] eqn:Ej; [|done]. done.
    + rewrite lookup_zip_with, !list_lookup_fmap. destruct (seq 0 (E + pad) !! j) as [j'|] eqn:Ej; [|done]. done.
  - rewrite list_lookup_fmap, lookup_state by done. cbn. by rewrite Ht.
  - intros j Hj. rewrite list_lookup_fmap, lookup_state by lia. cbn. by rewrite Hf.
Qed.

(** While experts are left, a round marks the expert of rank [k]. *)
Lemma round_max k i : i < E → rank probs i = k →
  ∃ p, probs !! i = Some p ∧ fmaximum (map (remaining_after k) (seq 0 (E + pad))) = Some p.
Proof.
  intros Hi Hr. destruct (lookup_lt_is_Some_2 probs i Hi) as [p Hp]. exists p. split; [done|].
  assert (remaining_after k i = Some p) as Hrem.
  { unfold remaining_after. rewrite (proj2 (Nat.ltb_lt i E)), Hr, Nat.ltb_irrefl by done. done. }
  pose proof (fmaximum_spec (map (remaining_after k) (seq 0 (E + pad)))) as Hs.
  assert (Some p ∈ map (remaining_after k) (seq 0 (E + pad))) as Hin.
  { apply list_elem_of_lookup. exists i. rewrite lookup_state by lia. by rewrite Hrem. }
  destruct (fmaximum _) as [m|]; [|by apply (proj1 (Forall_forall _ _) Hs) in Hin].
  destruct Hs as [Hm Hall]. f_equal. apply f_antisym; [|by apply Hall].
  apply list_elem_of_fmap in Hm as (j & Hj & _). symmetry in Hj. apply remaining_some in Hj as (Hj & Hk & Hpj).
  destruct (decide (i = j)) as [<-|Hn]; [simplify_eq; apply f_refl|].
  assert (ahead probs i j = true) as Ha.
  { apply rank_lt_ahead; [done..|]. assert (rank probs i ≠ rank probs j) by (intros ?; by apply Hn, rank_inj with probs). lia. }
  apply ahead_iff in Ha as (? & ? & ? & ? & ? & _). by simplify_eq.
Qed.
Lemma round_earlier k i p j :
  i < E → rank probs i = k → probs !! i = Some p → j < i → feq (remaining_after k j) (Some p) = false.
Proof.
  intros Hi Hr Hp Hj. destruct (remaining_after k j) as [q|] eqn:Hq; [|done]. cbn. apply not_true_is_false. intros ->%f_eqb_iff.
  apply remaining_some in Hq as (Hj' & Hk & Hpj).
  assert (ahead probs i j = true) as Ha.
  { apply rank_lt_ahead; [done..|]. assert (rank probs i ≠ rank probs j) by (intros ?%rank_inj; lia). lia. }
  apply ahead_iff in Ha as (? & ? & ? & ? & _ & Hlt). simplify_eq. specialize (Hlt eq_refl). lia.
Qed.
Lemma select_round k n : 0 < E → select_step (state_after k) n = state_after (S k).
Proof.
  intros HE. destruct (decide (k < E)) as [Hk|Hk].
  - destruct (rank_surj probs k Hk) as (i & Hi & Hr). destruct (round_max k i Hi Hr) as (p & Hp & Hm).
    rewrite (first_lane k i); rewrite ?Hm; [|lia| |].
    + unfold state_after. f_equal; apply map_ext_in; intros j Hj%in_seq; unfold remaining_after, marked_after;
        destruct (Nat.ltb_spec j E), (Nat.eqb_spec j i), (Nat.ltb_spec (rank probs j) k), (Nat.ltb_spec (rank probs j) (S k));
        try done; subst; try lia; exfalso; (assert (rank probs j = rank probs i) as Hji by lia; by apply rank_inj in Hji).
    + unfold remaining_after. rewrite (proj2 (Nat.ltb_lt i E)), Hr, Nat.ltb_irrefl, Hp by done. by apply f_eqb_iff.
    + intros j Hj. by apply (round_earlier k i).
  - assert (∀ j, remaining_after k j = None) as Hnone.
    { intros j. unfold remaining_after. destruct (Nat.ltb_spec j E) as [Hj|]; [|done]. pose proof (rank_bound probs j Hj).
      by rewrite (proj2 (Nat.ltb_lt (rank probs j) k)) by lia. }
    assert (fmaximum (map (remaining_after k) (seq 0 (E + pad))) = None) as Hm.
    { pose proof (fmaximum_spec (map (remaining_after k) (seq 0 (E + pad)))) as Hs. destruct (fmaximum _); [|done].
      destruct Hs as [(j & Hj & _)%list_elem_of_fmap _]. by rewrite Hnone in Hj. }
    rewrite (first_lane k 0); rewrite ?Hm, ?Hnone; [|lia|done|lia].
    unfold state_after. f_equal; apply map_ext_in; intros j Hj%in_seq.
    + rewrite Hnone. unfold remaining_after. destruct (Nat.ltb_spec j E) as [Hl|], (j =? 0); try done; pose proof (rank_bound probs j Hl);
        by rewrite (proj2 (Nat.ltb_lt (rank probs j) (S k))) by lia.
    + unfold marked_after. destruct (Nat.ltb_spec j E) as [Hl|]; [|destruct (Nat.eqb_spec j 0); [lia|done]].
      pose proof (rank_bound probs j Hl). by rewrite (proj2 (Nat.ltb_lt _ k)), (proj2 (Nat.ltb_lt _ (S k))) by lia.
Qed.
Lemma select_rounds k : 0 < E → foldl select_step (state_after 0) (seq 0 k) = state_after k.
Proof.
  intros HE. induction k as [|k IH]; [done|]. rewrite seq_S, foldl_app, IH. cbn [foldl]. by apply select_round.
Qed.
Lemma state_start : state_after 0 = (imap (λ e p, if e <? E then Some p else None) (probs ++ replicate pad f_zero), replicate (E + pad) false).
Proof.
  unfold state_after. f_equal; apply list_eq; intros j.
  - rewrite list_lookup_imap, list_lookup_fmap. destruct (decide (j < E + pad)) as [Hj|Hj].
    + rewrite lookup_seq_lt by done. change (remaining_after 0 <$> Some (0 + j)) with (Some (remaining_after 0 j)).
      unfold compose, remaining_after. destruct (Nat.ltb_spec j E) as [Hl|].
      * rewrite lookup_app_l by done. destruct (lookup_lt_is_Some_2 probs j Hl) as [p ->]. cbn. done.
      * rewrite lookup_app_r, lookup_replicate_2 by lia. done.
    + rewrite lookup_seq_ge, (lookup_ge_None_2 (_ ++ _)) by (rewrite ?length_app, ?length_replicate; lia). done.
  - rewrite list_lookup_fmap. destruct (decide (j < E + pad)) as [Hj|Hj].
    + rewrite lookup_seq_lt, lookup_replicate_2 by done. unfold marked_after. cbn. by rewrite andb_false_r.
    + rewrite lookup_seq_ge, (lookup_ge_None_2 (replicate _ _)) by (rewrite ?length_replicate; lia). done.
Qed.
Lemma marked_mask k : map (marked_after k) (seq 0 (E + pad)) = top_k_mask k probs ++ replicate pad false.
Proof.
  rewrite seq_app, map_app. f_equal.
  - apply map_ext_in. intros j Hj%in_seq. unfold marked_after. by rewrite (proj2 (Nat.ltb_lt j E)) by lia.
  - rewrite <- (length_seq pad (0 + E)) at 2. rewrite <- (const_fmap (λ _, false)) by done. apply map_ext_in.
    intros j Hj%in_seq. unfold marked_after. by rewrite (proj2 (Nat.ltb_ge j E)) by lia.
Qed.
End select.

(** ** Programs that store one row each *)
Lemma stores_row {A} rows cols order (program : nat → list (nat * A)) (v : nat → nat → A) m n :
  (∀ pid w, pid < rows → w ∈ program pid ↔ ∃ c, c < cols ∧ w = (pid * cols + c, v pid c)) →
  order ≡ₚ seq 0 rows → m < rows → n < cols → stores order program !! (m * cols + n) = Some (v m n).
Proof.
  intros Hp Ho Hm Hn. assert (∀ pid, pid ∈ order ↔ pid < rows) as Hord by (intros pid; rewrite Ho, elem_of_seq; lia).
  unfold stores. apply stores_lookup.
  - intros v' (pid & Hw & Hpid%Hord)%list_elem_of_bind. apply Hp in Hw as (c & Hc & [= Ha ->]); [|done].
    by destruct (address_inj _ _ _ _ _ Hn Hc Ha) as [<- <-].
  - left. apply list_elem_of_bind. exists m. split; [|by apply Hord]. apply Hp; [done|]. by exists n.
Qed.
Lemma read_rows_exact {A} rows cols order (program : nat → list (nat * option A)) (v : nat → nat → option A) :
  (∀ pid w, pid < rows → w ∈ program pid ↔ ∃ c, c < cols ∧ w = (pid * cols + c, v pid c)) →
  order ≡ₚ seq 0 rows →
  read_rows rows cols (stores order program) = map (λ m, map (v m) (seq 0 cols)) (seq 0 rows).
Proof.
  intros Hp Ho. unfold read_rows. apply map_ext_in. intros m Hm%in_seq. apply map_ext_in. intros n Hn%in_seq.
  by rewrite (stores_row rows cols order program v) by (done || lia).
Qed.
Lemma masked_stores {A} n_cols BLOCK a (v : nat → A) w :
  n_cols ≤ BLOCK → w ∈ (c ← seq 0 BLOCK; if c <? n_cols then [(a + c, v c)] else []) ↔ ∃ c, c < n_cols ∧ w = (a + c, v c).
Proof.
  intros Hle. rewrite list_elem_of_bind. split.
  - intros (c & Hw & _). destruct (Nat.ltb_spec c n_cols); [|by apply elem_of_nil in Hw].
    apply list_elem_of_singleton in Hw as ->. by exists c.
  - intros (c & Hc & ->). exists c. rewrite (proj2 (Nat.ltb_lt c n_cols)), elem_of_seq by done. split; [by left|lia].
Qed.
Lemma map_lookup_row {A B} (g : A → B) (l : list A) n :
  length l = n → map (λ c, g <$> l !! c) (seq 0 n) = map (λ x, Some (g x)) l.
Proof.
  intros <-. apply list_eq. intros c. rewrite !list_lookup_fmap. destruct (decide (c < length l)) as [Hc|].
  - rewrite lookup_seq_lt by done. cbn. by destruct (lookup_lt_is_Some_2 l c Hc) as [x ->].
  - rewrite lookup_seq_ge, lookup_ge_None_2 by lia. done.
Qed.
Lemma map_by_index {A B} (f : nat → B) (g : A → B) (l : list A) :
  (∀ i x, l !! i = Some x → f i = g x) → map f (seq 0 (length l)) = map g l.
Proof.
  intros Hf. apply list_eq. intros c. rewrite !list_lookup_fmap. destruct (decide (c < length l)) as [Hc|].
  - rewrite lookup_seq_lt by done. cbn. destruct (lookup_lt_is_Some_2 l c Hc) as [x Hx]. rewrite Hx. cbn. f_equal. by apply Hf.
  - rewrite lookup_seq_ge, lookup_ge_None_2 by lia. done.
Qed.

(** *** Softmax *)
Lemma rows_of_one pid n : pid < n → rows_of pid n n = [pid].
Proof.
  intros Hp. unfold rows_of. assert (cdiv (n - pid) n = 1) as ->; [|cbn; f_equal; lia].
  unfold cdiv. replace (n - pid + n - 1) with (1 * n + (n - pid - 1)) by lia.
  rewrite Nat.div_add_l, Nat.div_small by lia. lia.
Qed.
Lemma memory_row cols (input : list (list T)) junk m row :
  rectangular cols input → input !! m = Some row → map (λ c, memory_of input junk (m * cols + c)) (seq 0 cols) = row.
Proof.
  intros Hr Hm. assert (length row = cols) as Hlen by exact (Forall_lookup_1 _ _ _ _ Hr Hm). replace (seq 0 cols) with (seq 0 (length row)) by (by rewrite Hlen).
  rewrite (map_by_index _ Datatypes.id); [apply map_id|]. intros c x Hx. by apply (memory_of_at cols _ _ _ _ row).
Qed.
End laws.

(** The softmax kernel stores, for every row of its input, the softmax of the row (each
    weight the exponential of the score divided by the sum of the exponentials, so
    positive weights with sum one), whatever the order of the programs and whatever lies
    in memory around the input, for the scores and weights of any lawful instance. *)
Theorem softmax_rows_exact `{NumberLaws T F} cast junk order n_cols (input : list (list T)) :
  rectangular n_cols input → 0 < n_cols → order ≡ₚ seq 0 (length input) →
  launch_softmax cast junk order n_cols input = map (λ row, map (λ p, Some (cast p)) (softmax row)) input ∧
  Forall (λ row, fsum (softmax row) = f_one) input.
Proof.
  intros Hr Hc Ho. split.
  - unfold launch_softmax.
    rewrite (read_rows_exact _ _ _ _ (λ m c, cast <$> (softmax (default [] (input !! m)) !! c))).
    + apply map_by_index. intros m row Hm. rewrite Hm. cbn [default from_option].
      apply map_lookup_row. rewrite softmax_length. exact (Forall_lookup_1 _ _ _ _ Hr Hm).
    + intros pid w Hp. destruct (lookup_lt_is_Some_2 input pid Hp) as [row Hrow]. rewrite Hrow. cbn [default from_option].
      unfold softmax_kernel. rewrite rows_of_one by done. rewrite bind_singleton. cbv zeta.
      rewrite masked_row by apply next_power_of_2_ge. rewrite (memory_row _ _ _ _ row) by done.
      assert (length row = n_cols) as Hlen by exact (Forall_lookup_1 _ _ _ _ Hr Hrow).
      rewrite softmax_row_padded by (intros ->; cbn in Hlen; lia).
      rewrite masked_stores by apply next_power_of_2_ge. split; intros (c & Hlt & ->); exists c; (split; [done|]);
        do 2 f_equal; cbn [mbind option_bind]; rewrite lookup_app_l by (rewrite softmax_length; lia); done.
    + done.
  - apply Forall_forall. intros row Hrow. apply softmax_sum. intros ->.
    pose proof (proj1 (Forall_forall _ _) Hr _ Hrow) as Hlen. cbn in Hlen. lia.
Qed.

(** ** The router *)
Section router.
Context `{NumberLaws T F}.

Lemma top_probs_padded norm mask (probs : list F) pad :
  length mask = length probs →
  top_probs_of norm (mask ++ replicate pad false) (probs ++ replicate pad f_zero) = top_probs_of norm mask probs ++ replicate pad f_zero.
Proof.
  intros Hlen. unfold top_probs_of. rewrite zip_with_app by done.
  assert (zip_with (λ (m : bool) p, if m then p else f_zero) (replicate pad false) (replicate pad f_zero) = replicate pad f_zero) as ->.
  { clear. induction pad as [|n IH]; cbn; [done|]. by rewrite IH. }
  destruct norm; cbv zeta; [|done]. rewrite map_app, fsum_app, (fsum_zeros (replicate _ _)) by (by apply Forall_replicate).
  rewrite map_replicated, zero_div. f_equal. apply map_ext. intros x. f_equal.
  rewrite (Radd_comm (F_R (f_field (T:=T) (F:=F)))). apply (F_R (f_field (T:=T) (F:=F))).
Qed.
Lemma length_top_k_mask k (probs : list F) : length (top_k_mask k probs) = length probs.
Proof. unfold top_k_mask. by rewrite length_map, length_seq. Qed.
Lemma length_top_probs norm mask (probs : list F) : length mask = length probs → length (top_probs_of norm mask probs) = length probs.
Proof. intros Hl. unfold top_probs_of. destruct norm; cbv zeta; rewrite ?length_map, length_zip_with; lia. Qed.
Lemma router_logit_dot H' (hidden weight : list (list T)) jh jw b e x w :
  rectangular H' hidden → rectangular H' weight → hidden !! b = Some x → weight !! e = Some w →
  router_logit (memory_of hidden jh) (memory_of weight jw) H' (length weight) b e = dot_row x w.
Proof.
  intros Hh Hw Hx He. unfold router_logit, dot_row.
  assert (length x = H') as Hlx by exact (Forall_lookup_1 _ _ _ _ Hh Hx).
  assert (length w = H') as Hlw by exact (Forall_lookup_1 _ _ _ _ Hw He).
  assert (zip x w = map (λ h, (memory_of hidden jh (b * H' + h), memory_of weight jw (e * H' + h))) (seq 0 H')) as ->.
  { symmetry. replace (seq 0 H') with (seq 0 (length (zip x w))) by (rewrite length_zip_with, Hlx, Hlw, Nat.min_id; done).
    rewrite (map_by_index _ Datatypes.id); [apply map_id|]. intros h [a c] Hac. apply lookup_zip_with_Some in Hac as (a' & c' & [= -> ->] & Ha & Hc).
    by rewrite (memory_of_at H' _ _ _ _ x a' Hh Hx Ha), (memory_of_at H' _ _ _ _ w c' Hw He Hc). }
  rewrite (proj2 (Nat.ltb_lt e (length weight))) by (by eapply lookup_lt_Some).
  generalize t_zero. induction (seq 0 H') as [|h l IH]; intros acc; cbn [foldl map fst snd]; [done|]. apply IH.
Qed.

(** The marked experts: as many as asked for, none worse than one that is not marked. *)
Lemma top_k_mask_count k (probs : list F) : length (filter (λ b, b = true) (top_k_mask k probs)) = k `min` length probs.
Proof.
  unfold top_k_mask.
  assert (map (λ i, rank probs i <? k) (seq 0 (length probs)) = map (λ r, r <? k) (map (rank probs) (seq 0 (length probs)))) as ->
    by (by rewrite map_map).
  transitivity (length (filter (λ b, b = true) (map (λ r, r <? k) (seq 0 (length probs))))).
  { apply Permutation_length. assert (map (λ r, r <? k) (map (rank probs) (seq 0 (length probs))) ≡ₚ map (λ r, r <? k) (seq 0 (length probs))) as ->;
      [apply Permutation_map, ranks_perm|done]. }
  generalize (length probs) as n. induction n as [|n IH]; [cbn; lia|].
  rewrite seq_S, map_app, filter_app, length_app, IH. cbn [map]. destruct (Nat.ltb_spec (0 + n) k).
  - rewrite filter_cons_True by done. cbn. lia.
  - rewrite filter_cons_False by done. cbn. lia.
Qed.
Lemma top_k_mask_best k (probs : list F) i j p q :
  top_k_mask k probs !! i = Some true → top_k_mask k probs !! j = Some false →
  probs !! i = Some p → probs !! j = Some q → f_leb q p = true.
Proof.
  intros Hi Hj Hp Hq. assert (i < length probs) by (by eapply lookup_lt_Some). assert (j < length probs) by (by eapply lookup_lt_Some).
  unfold top_k_mask in Hi, Hj. rewrite list_lookup_fmap, lookup_seq_lt in Hi, Hj by done.
  injection Hi as Hi%Nat.ltb_lt. injection Hj as Hj%Nat.ltb_ge.
  assert (ahead probs i j = true) as Ha by (apply rank_lt_ahead; (done || lia)).
  apply ahead_iff in Ha as (? & ? & ? & ? & ? & _). by simplify_eq.
Qed.
(** What the kernel computes from the mask is the routing weight. *)
Lemma fsum_selected (P : nat → Prop) `{!∀ i, Decision (P i)} (f : nat → F) l :
  fsum (map (λ i, if decide (P i) then f i else f_zero) l) = fsum (map f (filter P l)).
Proof.
  induction l as [|i l IH]; [done|]. change (i :: l) with ([i] ++ l). rewrite map_app, filter_app, map_app, !fsum_app, IH. f_equal.
  destruct (decide (P i)) as [Hp|Hp].
  - rewrite filter_cons_True, filter_nil by done. cbn [map]. by rewrite decide_True.
  - rewrite filter_cons_False, filter_nil by done. cbn [map]. rewrite decide_False by done. apply fsum_zeros. by repeat constructor.
Qed.
Lemma elem_of_selected k (probs : list F) i : i ∈ selected k probs ↔ i < length probs ∧ rank probs i < k.
Proof. unfold selected. rewrite list_elem_of_filter, elem_of_seq. cbn. lia. Qed.
Lemma top_probs_weights norm k (probs : list F) :
  top_probs_of norm (top_k_mask k probs) probs = map (route_weight norm k probs) (seq 0 (length probs)).
Proof.
  assert (zip_with (λ (m : bool) p, if m then p else f_zero) (top_k_mask k probs) probs =
          map (λ i, if decide (rank probs i < k) then prob_at probs i else f_zero) (seq 0 (length probs))) as Hz.
  { apply list_eq. intros i. rewrite lookup_zip_with. unfold top_k_mask. rewrite !list_lookup_fmap.
    destruct (decide (i < length probs)) as [Hi|Hi].
    - rewrite !lookup_seq_lt by done. destruct (lookup_lt_is_Some_2 probs i Hi) as [p Hp]. unfold prob_at. rewrite Nat.add_0_l, Hp.
      destruct (decide (rank probs i < k)) as [Hr|Hr]; cbn [fmap option_fmap option_map mbind option_bind].
      + rewrite (proj2 (Nat.ltb_lt _ _) Hr), decide_True by done. by rewrite Hp.
      + rewrite (proj2 (Nat.ltb_ge (rank probs i) k)), decide_False by lia. done.
    - rewrite !lookup_seq_ge by lia. done. }
  unfold top_probs_of. cbv zeta. rewrite Hz, fsum_selected. unfold route_weight. fold (selected k probs).
  destruct norm; [rewrite map_map|]; apply map_ext_in; intros i Hi%in_seq; cbv beta.
  - destruct (decide (rank probs i < k)); [rewrite decide_True by (apply elem_of_selected; lia)|rewrite decide_False by (rewrite elem_of_selected; lia)]; [done|].
    apply zero_div.
  - destruct (decide (rank probs i < k)); [rewrite decide_True by (apply elem_of_selected; lia)|rewrite decide_False by (rewrite elem_of_selected; lia)]; done.
Qed.
Lemma length_selected k (probs : list F) : length (selected k probs) = k `min` length probs.
Proof.
  rewrite <- top_k_mask_count. unfold selected, top_k_mask. induction (seq 0 (length probs)) as [|i l IH]; [done|]. cbn [map].
  destruct (Nat.ltb_spec (rank probs i) k).
  - rewrite !filter_cons_True by done. cbn. by rewrite IH.
  - rewrite !filter_cons_False by (done || lia). by rewrite IH.
Qed.
Lemma selected_best k (probs : list F) i j p q :
  i ∈ selected k probs → j ∉ selected k probs → probs !! i = Some p → probs !! j = Some q → f_leb q p = true.
Proof.
  intros Hi Hj Hp Hq. assert (i < length probs) by (by eapply lookup_lt_Some). assert (j < length probs) by (by eapply lookup_lt_Some).
  rewrite elem_of_selected in Hi, Hj. apply (top_k_mask_best k probs i j p q); try done; unfold top_k_mask;
    rewrite list_lookup_fmap, lookup_seq_lt by done; cbn; f_equal; [apply Nat.ltb_lt|apply Nat.ltb_ge]; lia.
Qed.
Lemma mask_weights (bf16 : F → F) norm k (probs : list F) :
  zip (top_k_mask k probs) (map bf16 (top_probs_of norm (top_k_mask k probs) probs)) =
  map (λ e, (bool_decide (e ∈ selected k probs), bf16 (route_weight norm k probs e))) (seq 0 (length probs)).
Proof.
  rewrite top_probs_weights, map_map. unfold top_k_mask. apply list_eq. intros i. rewrite lookup_zip_with, !list_lookup_fmap.
  destruct (decide (i < length probs)); [|by rewrite lookup_seq_ge by lia]. rewrite lookup_seq_lt by done.
  cbn [fmap option_fmap option_map mbind option_bind]. do 2 f_equal. rewrite Nat.add_0_l.
  destruct (Nat.ltb_spec (rank probs i) k); symmetry; [apply bool_decide_eq_true|apply bool_decide_eq_false]; rewrite elem_of_selected; lia.
Qed.
Add Field weights' : (f_field (T:=T) (F:=F)).
(** Renormalised, the weights of the marked experts add up to one. *)
Lemma top_probs_sum k scores :
  scores ≠ [] → 0 < k → fsum (top_probs_of true (top_k_mask k (softmax scores)) (softmax scores)) = f_one.
Proof.
  intros Hs Hk. unfold top_probs_of. cbv zeta. rewrite fsum_div. apply div_self.
  destruct (xmaximum_some scores Hs) as [c Hc]. pose proof (softmax_denominator scores c Hs) as Hd%f_pos_neq.
  destruct (rank_surj (softmax scores) 0) as (i & Hi & Hr); [rewrite softmax_length; by destruct scores as [|]; cbn; [|lia]|].
  rewrite softmax_length in Hi. pose proof (length_top_k_mask k (softmax scores)) as Hlen. rewrite softmax_length in Hlen.
  assert (top_k_mask k (softmax scores) !! i = Some true) as Hm.
  { unfold top_k_mask. rewrite list_lookup_fmap, lookup_seq_lt by (by rewrite softmax_length). cbn [fmap option_fmap option_map].
    f_equal. apply Nat.ltb_lt. cbn. lia. }
  revert Hlen Hm. generalize (top_k_mask k (softmax scores)) as mask. intros mask Hlen Hm. unfold softmax. rewrite Hc. cbv zeta.
  set (d := fsum (map (λ s, expo (t_sub s c)) scores)) in *. set (es := map (λ s, expo (t_sub s c)) scores).
  assert (zip_with (λ (m : bool) p, if m then p else f_zero) mask (map (λ x, f_div x d) es) =
          map (λ x, f_div x d) (zip_with (λ (m : bool) p, if m then p else f_zero) mask es)) as ->.
  { clear -H0. generalize es as l. intros l. revert l. induction mask as [|m mask IH]; intros [|x l]; cbn [zip_with map]; try done.
    rewrite IH. f_equal. destruct m; [done|]. by rewrite zero_div. }
  rewrite fsum_div. intros Hz. eapply f_pos_neq; [eapply (fsum_pos (zip_with (λ (m : bool) p, if m then p else f_zero) mask es))|].
  - apply Forall_forall. intros x Hx. apply elem_of_zip_with in Hx as (m & e & -> & _ & He).
    destruct m; [|apply f_refl]. apply list_elem_of_fmap in He as (s & -> & _). apply f_ltb_iff, expo_pos.
  - destruct (lookup_lt_is_Some_2 scores i Hi) as [s Hsi]. exists (expo (t_sub s c)). split; [|apply expo_pos].
    apply list_elem_of_lookup. exists i. rewrite lookup_zip_with, Hm. subst es. rewrite list_lookup_fmap, Hsi. done.
  - assert (fsum (zip_with (λ (m : bool) p, if m then p else f_zero) mask es) =
            f_mul (f_div (fsum (zip_with (λ (m : bool) p, if m then p else f_zero) mask es)) d) d) as -> by (by field).
    rewrite Hz. ring.
Qed.
End router.

(** C28: the fused router kernel computes softmax routing.  For every token and expert it
    stores whether the expert is selected and its weight.  The selected experts are those
    with fewer than [top_k] experts ahead of them (by probability, ties to the smaller
    index): as many as asked for, none worse than one left out.  A selected expert has its
    probability as weight, divided by the sum over the selected ones when [normalize_topk]
    is set (so that the weights add up to one), and every other expert has weight zero.
    Padding lanes up to a power of two, the order of the programs and the surroundings in
    memory do not matter. *)
Theorem router_selects_top_k `{NumberLaws T F} bf16 junk_h junk_w order H' (hidden weight : list (list T)) top_k norm :
  rectangular H' hidden → rectangular H' weight → weight ≠ [] → order ≡ₚ seq 0 (length hidden) →
  let probs x := softmax (map (dot_row x) weight) in
  launch_fused_softmax_topk_nobias bf16 junk_h junk_w order H' hidden weight top_k norm =
    map (λ x, map (λ e, Some (bool_decide (e ∈ selected top_k (probs x)), bf16 (route_weight norm top_k (probs x) e)))
                  (seq 0 (length weight))) hidden ∧
  (∀ x, length (selected top_k (probs x)) = top_k `min` length weight) ∧
  (∀ x i j p q, i ∈ selected top_k (probs x) → j ∉ selected top_k (probs x) →
     probs x !! i = Some p → probs x !! j = Some q → f_leb q p = true) ∧
  (∀ x, 0 < top_k → fsum (map (route_weight true top_k (probs x)) (seq 0 (length weight))) = f_one).
Proof.
  intros Hh Hw Hn Ho probs. set (mask x := top_k_mask top_k (probs x)).
  assert (∀ x, length (probs x) = length weight) as Hlp by (intros x; unfold probs; by rewrite softmax_length, length_map).
  assert (∀ x, map (dot_row x) weight ≠ []) as Hne by (intros x; by destruct weight).
  split_and!.
  - unfold launch_fused_softmax_topk_nobias.
    rewrite (read_rows_exact _ _ _ _ (λ b e, (λ x, zip (mask x) (map bf16 (top_probs_of norm (mask x) (probs x)))) (default [] (hidden !! b)) !! e)).
    + apply map_by_index. intros b x Hb. rewrite Hb. cbn [default from_option]. unfold mask. rewrite mask_weights, Hlp.
      apply map_ext_in. intros e He%in_seq. rewrite list_lookup_fmap, lookup_seq_lt by lia. done.
    + intros b w Hb. destruct (lookup_lt_is_Some_2 hidden b Hb) as [x Hx]. rewrite Hx. cbn [default from_option].
      unfold fused_softmax_topk_kernel_nobias. cbv zeta.
      rewrite (masked_row (length weight)) by apply next_power_of_2_ge.
      rewrite (map_by_index _ (dot_row x) weight) by (intros e we He; by apply (router_logit_dot H')).
      rewrite softmax_row_padded by apply Hne. fold (probs x). cbn [mbind option_bind].
      set (pad := next_power_of_2 (length weight) - length weight).
      assert (next_power_of_2 (length weight) = length (probs x) + pad) as Hpad
        by (rewrite Hlp; unfold pad; pose proof (next_power_of_2_ge (length weight)); lia).
      assert (foldl select_step (imap (λ e p, if e <? length weight then Some p else None) (probs x ++ replicate pad f_zero),
                replicate (next_power_of_2 (length weight)) false) (seq 0 top_k) = state_after (probs x) pad top_k) as ->.
      { rewrite <- select_rounds by (rewrite Hlp; by destruct weight; cbn; [|lia]).
        rewrite state_start, <- Hpad. do 2 f_equal. apply imap_ext. intros. by rewrite Hlp. }
      cbn [snd state_after]. rewrite marked_mask. fold (mask x).
      rewrite masked_stores by apply next_power_of_2_ge.
      assert (∀ c, c < length weight →
        zip (mask x ++ replicate pad false) (map bf16 (top_probs_of norm (mask x ++ replicate pad false) (probs x ++ replicate pad f_zero))) !! c =
        zip (mask x) (map bf16 (top_probs_of norm (mask x) (probs x))) !! c) as Hz.
      { intros c Hc. pose proof (length_top_k_mask top_k (probs x)) as Hlm. fold (mask x) in Hlm.
        rewrite top_probs_padded, map_app by done.
        rewrite zip_with_app by (rewrite length_map, length_top_probs; done). rewrite lookup_app_l; [done|].
        rewrite length_zip_with, length_map, length_top_probs, Hlm, Hlp by done. lia. }
      split; intros (c & Hc & ->); exists c; (split; [done|]); by rewrite Hz.
    + done.
  - intros x. by rewrite length_selected, Hlp.
  - intros x i j p q. apply selected_best.
  - intros x Hk. rewrite <- (Hlp x), <- top_probs_weights. by apply top_probs_sum.
Qed.

(** Two tokens and three experts (a block of four lanes); scores [1, 2, 3] and [3, 0, 3] *)
Definition demo_hidden : list (list Z) := [[1; 2]; [3; 0]]%Z.
Definition demo_experts : list (list Z) := [[1; 0]; [0; 1]; [1; 1]]%Z.

Example demo_routing :
  map (map (option_map (prod_map Datatypes.id this)))
    (launch_fused_softmax_topk_nobias Datatypes.id (λ _, 9%Z) (λ _, 9%Z) [1; 0] 2 demo_hidden demo_experts 2 true) =
  [[Some (false, 0 # 1); Some (true, 1 # 3); Some (true, 2 # 3)];
   [Some (true, 1 # 2); Some (false, 0 # 1); Some (true, 1 # 2)]]%Q.
Proof. vm_compute. reflexivity. Qed.

Lemma softmax_rows_exact_witness :
  launch_softmax Datatypes.id (λ _, 7%Z) [1; 0] 2 demo_hidden = map (λ row, map (λ p, Some (Datatypes.id p)) (softmax row)) demo_hidden ∧
  Forall (λ row, fsum (T:=Z) (softmax row) = f_one (F:=Qc) (T:=Z)) demo_hidden.
Proof.
  apply (softmax_rows_exact (F:=Qc) Datatypes.id (λ _, 7%Z) [1; 0] 2 demo_hidden).
  - repeat constructor.
  - lia.
  - apply perm_swap.
Defined.

Lemma router_selects_top_k_witness :
  let probs x := softmax (map (dot_row x) demo_experts) in
  launch_fused_softmax_topk_nobias Datatypes.id (λ _, 9%Z) (λ _, 9%Z) [1; 0] 2 demo_hidden demo_experts 2 true =
    map (λ x, map (λ e, Some (bool_decide (e ∈ selected 2 (probs x)), route_weight true 2 (probs x) e)) (seq 0 3)) demo_hidden ∧
  map (λ x, selected 2 (probs x)) demo_hidden = [[1; 2]; [0; 2]] ∧
  Forall (λ x, fsum (T:=Z) (map (route_weight true 2 (probs x)) (seq 0 3)) = f_one (F:=Qc) (T:=Z)) demo_hidden.
Proof.
  intros probs.
  assert (rectangular 2 demo_hidden ∧ rectangular 2 demo_experts ∧ demo_experts ≠ [] ∧ [1; 0] ≡ₚ seq 0 (length demo_hidden)) as (Hh & He & Hn & Ho)
    by (split_and!; [repeat constructor|repeat constructor|done|apply perm_swap]).
  pose proof (router_selects_top_k (F:=Qc) Datatypes.id (λ _, 9%Z) (λ _, 9%Z) [1; 0] 2 demo_hidden demo_experts 2 true Hh He Hn Ho)
    as (Hl & _ & _ & Hs).
  split_and!; [exact Hl|vm_compute; reflexivity|]. apply Forall_forall. intros x _. apply Hs. lia.
Defined.
