(* ===== verification/FusedDecode.v ===== *)
(** * Fused paged attention for decoding (kernel/fused_decode_attn.py)

    One query token per sequence attends over the keys and values that its block table
    names.  The kernel goes through the tokens in tiles and keeps a running maximum, a
    running sum and a running accumulator (online softmax); [fused_decode_exact] shows
    that the result is the attention over the sequence as a whole. *)
From Stdlib Require Import QArith Qcanon Field.
From S2P Require Import Prelude Tensor FusedSoftmax.
Open Scope nat_scope.

(** ** The kernel *)
Section kernel.
Context `{Numbers T F} (bf16 : F → F).

Record decode_launch := DecodeLaunch {
  query_ptr : Z → T; key_ptr : Z → T; value_ptr : Z → F; block_tables_ptr : Z → Z; seq_lens_ptr : Z → Z;
  scale_arg : T; head_dim_arg : nat; block_size_arg : nat;
  q_stride_b : nat; q_stride_h : nat; q_stride_d : nat;
  k_stride_block : nat; k_stride_token : nat; k_stride_head : nat; k_stride_d : nat;
  v_stride_block : nat; v_stride_token : nat; v_stride_head : nat; v_stride_d : nat;
  bt_stride_b : nat; bt_stride_block : nat;
  out_stride_b : nat; out_stride_h : nat; out_stride_d : nat;
  QUERY_GROUP_SIZE : nat; HEAD_DIM : nat }.

(** The autotuned values of [BLOCK_KV] *)
Definition BLOCK_KVS : list nat := [32; 64; 128].

Section program.
Context (L : decode_launch) (BLOCK_KV batch_idx head_idx : nat).

Definition seq_len : Z := seq_lens_ptr L (Z.of_nat batch_idx).
Definition kv_head_idx : nat := head_idx / QUERY_GROUP_SIZE L.
Definition q_at (d : nat) : T :=
  load_at (query_ptr L) (Z.of_nat (batch_idx * q_stride_b L + head_idx * q_stride_h L + d * q_stride_d L))
          (d <? head_dim_arg L) t_zero.
Definition token_mask (t : nat) : bool := (Z.of_nat t <? seq_len)%Z.
Definition physical_block (t : nat) : Z :=
  load_at (block_tables_ptr L) (Z.of_nat (batch_idx * bt_stride_b L + t / block_size_arg L * bt_stride_block L)) (token_mask t) 0%Z.
(** Offsets are unbounded here; the kernel computes them in 32 bits, which suffices for
    caches of fewer than 2^31 entries. *)
Definition k_at (t d : nat) : T :=
  load_at (key_ptr L)
    (physical_block t * Z.of_nat (k_stride_block L)
     + Z.of_nat (t mod block_size_arg L * k_stride_token L + kv_head_idx * k_stride_head L + d * k_stride_d L))%Z
    (token_mask t && (d <? head_dim_arg L)) t_zero.
Definition v_at (t d : nat) : F :=
  load_at (value_ptr L)
    (physical_block t * Z.of_nat (v_stride_block L)
     + Z.of_nat (t mod block_size_arg L * v_stride_token L + kv_head_idx * v_stride_head L + d * v_stride_d L))%Z
    (token_mask t && (d <? head_dim_arg L)) f_zero.
Definition logit_at (t : nat) : option T :=
  if token_mask t
  then Some (t_mul (tsum (map (λ d, t_mul (k_at t d) (q_at d)) (seq 0 (HEAD_DIM L)))) (scale_arg L))
  else None.

(** The running accumulator, sum and maximum; [None] once one of them is no number *)
Definition online := option (list F * F * option T).
Definition kv_tile (st : online) (token_start : nat) : online :=
  '(acc, l_i, m_i) ← st;
  let offs_t := map (λ i, token_start * BLOCK_KV + i) (seq 0 BLOCK_KV) in
  let m_ij := xmaximum (map logit_at offs_t) in
  let m_new := xmax m_i m_ij in
  alpha ← exp_diff m_i m_new;
  p ← mapM (λ t, if token_mask t then exp_diff (logit_at t) m_new else Some f_zero) offs_t;
  let acc := imap (λ d a, f_add (f_mul a alpha) (fsum (zip_with (λ t p, f_mul (v_at t d) p) offs_t p))) acc in
  let l_i := f_add (f_mul l_i alpha) (fsum p) in
  Some (acc, l_i, m_new).

Definition online_softmax : online :=
  foldl kv_tile (Some (replicate (HEAD_DIM L) f_zero, f_zero, None)) (seq 0 (cdiv (Z.to_nat seq_len) BLOCK_KV)).

(** [None] stands for no number, which a softmax without any key would give; it does not occur
    for a sequence with a token ([online_softmax_state]), and the program does not use the
    quotient for one without. *)
Definition out_value (d : nat) : F :=
  match online_softmax with
  | Some (acc, l_i, _) => if f_ltb f_zero l_i then f_div (default f_zero (acc !! d)) l_i else f_zero
  | None => f_zero
  end.
(** The stores of the program *)
Definition decode_program : list (nat * F) :=
  d ← seq 0 (HEAD_DIM L);
  if d <? head_dim_arg L
  then [(batch_idx * out_stride_b L + head_idx * out_stride_h L + d * out_stride_d L,
         if (seq_len <=? 0)%Z then f_zero else bf16 (out_value d))]
  else [].
End program.

Definition decode_grid (batch num_heads : nat) : list (nat * nat) := b ← seq 0 batch; h ← seq 0 num_heads; [(b, h)].
Definition run_decode (L : decode_launch) (BLOCK_KV : nat) (order : list (nat * nat)) : gmap nat F :=
  foldl (λ mem w, <[w.1 := w.2]> mem) ∅ (order ≫= λ pid, decode_program L BLOCK_KV pid.1 pid.2).

(** ** The launcher *)
Record beside := Beside { junk_t : Z → T; junk_f : Z → F; junk_i : Z → Z }.

(** The checks, in the order of the source *)
Definition check_decode (query key_cache : dtensor T) (value_cache : dtensor F) (block_tables seq_lens : dtensor Z) : option exn :=
  if negb (ndim query =? 4) then Some ValueError
  else if negb (size query 1 =? 1) then Some ValueError
  else if negb (ndim key_cache =? 4) || negb (ndim value_cache =? 4) then Some ValueError
  else if negb (bool_decide (t_dims key_cache = t_dims value_cache)) then Some ValueError
  else if negb (ndim block_tables =? 2) then Some ValueError
  else if negb (ndim seq_lens =? 1) then Some ValueError
  else if negb (is_cuda query && is_cuda key_cache && is_cuda value_cache && is_cuda block_tables && is_cuda seq_lens)
  then Some ValueError
  else if negb (bool_decide (t_elem query = BF16)) then Some ValueError
  else if negb (bool_decide (t_elem key_cache = BF16)) || negb (bool_decide (t_elem value_cache = BF16)) then Some ValueError
  else if negb (bool_decide (t_elem block_tables = I32)) then Some ValueError
  else if negb (bool_decide (t_elem seq_lens = I32)) then Some ValueError
  else
    let batch := size query 0 in
    let num_heads := size query 2 in
    let head_dim := size query 3 in
    let num_blocks := size key_cache 0 in
    let block_size := size key_cache 1 in
    let num_kv_heads := size key_cache 2 in
    let kv_head_dim := size key_cache 3 in
    if negb (kv_head_dim =? head_dim) then Some ValueError
    else if negb (size block_tables 0 =? batch) then Some ValueError
    else if negb (size seq_lens 0 =? batch) then Some ValueError
    else if (num_kv_heads =? 0) then Some ZeroDivisionError
    else if negb (num_heads mod num_kv_heads =? 0) then Some ValueError
    else if negb (bool_decide (head_dim = 64 ∨ head_dim = 128)) then Some ValueError
    else if num_blocks =? 0 then Some ValueError
    else if size block_tables 1 =? 0 then Some ValueError
    else match t_data seq_lens with
         | [] => Some RuntimeError   (** [max] of an empty tensor *)
         | n :: ns => if (Z.of_nat (size block_tables 1 * block_size) <? foldl Z.max n ns)%Z then Some ValueError else None
         end.

Definition decode_args (e : beside) (query key_cache : dtensor T) (value_cache : dtensor F) (block_tables seq_lens : dtensor Z)
    (scale : T) (output : list nat) : decode_launch :=
  let o := DTensor output (Some 0) BF16 ([] : list F) in
  {| query_ptr := flat (junk_t e) query; key_ptr := flat (junk_t e) key_cache; value_ptr := flat (junk_f e) value_cache;
     block_tables_ptr := flat (junk_i e) block_tables; seq_lens_ptr := flat (junk_i e) seq_lens;
     scale_arg := scale; head_dim_arg := size query 3; block_size_arg := size key_cache 1;
     q_stride_b := stride query 0; q_stride_h := stride query 2; q_stride_d := stride query 3;
     k_stride_block := stride key_cache 0; k_stride_token := stride key_cache 1; k_stride_head := stride key_cache 2; k_stride_d := stride key_cache 3;
     v_stride_block := stride value_cache 0; v_stride_token := stride value_cache 1; v_stride_head := stride value_cache 2; v_stride_d := stride value_cache 3;
     bt_stride_b := stride block_tables 0; bt_stride_block := stride block_tables 1;
     out_stride_b := stride o 0; out_stride_h := stride o 1; out_stride_d := stride o 2;
     QUERY_GROUP_SIZE := size query 2 / size key_cache 2; HEAD_DIM := size query 3 |}.

(** The output, [[batch, num_heads, head_dim]]; entries that no program stored are [None]. *)
Definition fused_decode_attention (e : beside) (BLOCK_KV : nat) (order : list (nat * nat)) (query key_cache : dtensor T)
    (value_cache : dtensor F) (block_tables seq_lens : dtensor Z) (scale : T) : res (list (list (list (option F)))) :=
  match check_decode query key_cache value_cache block_tables seq_lens with
  | Some x => Err x
  | None =>
      let batch := size query 0 in
      let num_heads := size query 2 in
      let head_dim := size query 3 in
      let L := decode_args e query key_cache value_cache block_tables seq_lens scale [batch; num_heads; head_dim] in
      let mem := if batch * num_heads * head_dim =? 0 then ∅ else run_decode L BLOCK_KV order in
      Ok (map (λ b, map (λ h, map (λ d, mem !! ((b * num_heads + h) * head_dim + d)) (seq 0 head_dim)) (seq 0 num_heads)) (seq 0 batch))
  end.

(** ** The reference: attention over a whole sequence *)
Definition at4 {A} (d : A) (t : dtensor A) (a b c e : nat) : A :=
  default d (t_data t !! (a * stride t 0 + b * stride t 1 + c * stride t 2 + e)).
(** The block of token [t] of sequence [b] *)
Definition block_of (block_tables : dtensor Z) (bs b t : nat) : Z :=
  default 0%Z (t_data block_tables !! (b * size block_tables 1 + t / bs)).

(** [sum_t softmax(q . k_t * scale) v_t] *)
Definition paged_attention (query key_cache : dtensor T) (value_cache : dtensor F) (block_tables : dtensor Z) (scale : T)
    (len b h d : nat) : F :=
  let bs := size key_cache 1 in
  let kv_head := h / (size query 2 / size key_cache 2) in
  let block t := Z.to_nat (block_of block_tables bs b t) in
  let score t := t_mul (tsum (map (λ e, t_mul (at4 t_zero key_cache (block t) (t mod bs) kv_head e) (at4 t_zero query b 0 h e))
                               (seq 0 (size query 3)))) scale in
  fsum (zip_with f_mul (softmax (map score (seq 0 len)))
                       (map (λ t, at4 f_zero value_cache (block t) (t mod bs) kv_head d) (seq 0 len))).
End kernel.

(** ** Online softmax *)
Section online.
Context `{NumberLaws T F}.
Add Field decode_weights : (f_field (T:=T) (F:=F)).
Context (L : decode_launch (T:=T) (F:=F)) (BLOCK_KV batch_idx head_idx len : nat).
Hypothesis Hlen : seq_len L batch_idx = Z.of_nat len.
Hypothesis HB : 0 < BLOCK_KV.
Abbreviation mask := (token_mask L batch_idx).
Abbreviation logit := (logit_at L batch_idx head_idx).
Abbreviation value := (v_at L batch_idx head_idx).
Definition score (t : nat) : T :=
  t_mul (tsum (map (λ d, t_mul (k_at L batch_idx head_idx t d) (q_at L batch_idx head_idx d)) (seq 0 (HEAD_DIM L)))) (scale_arg L).

Lemma mask_ltb t : mask t = (t <? len).
Proof. unfold token_mask. rewrite Hlen. destruct (Nat.ltb_spec t len), (Z.ltb_spec (Z.of_nat t) (Z.of_nat len)); (done || lia). Qed.
Lemma logit_masked t : logit t = if t <? len then Some (score t) else None.
Proof. unfold logit_at. by rewrite mask_ltb. Qed.

(** The tokens of a tile: those before the end, then padding *)
Lemma tile_lanes {A} n (f : nat → A) (z : A) : n * BLOCK_KV ≤ len →
  let c := BLOCK_KV `min` (len - n * BLOCK_KV) in
  map (λ t, if t <? len then f t else z) (map (λ i, n * BLOCK_KV + i) (seq 0 BLOCK_KV)) =
  map f (seq (n * BLOCK_KV) c) ++ replicate (BLOCK_KV - c) z.
Proof.
  intros Hn c. rewrite fmap_add_seq, Nat.add_0_r. replace (seq (n * BLOCK_KV) BLOCK_KV) with
    (seq (n * BLOCK_KV) c ++ seq (n * BLOCK_KV + c) (BLOCK_KV - c)) by (rewrite <- seq_app; f_equal; lia).
  rewrite map_app. f_equal.
  - apply map_ext_in. intros t Ht%in_seq. by rewrite (proj2 (Nat.ltb_lt t len)) by lia.
  - rewrite <- (length_seq (BLOCK_KV - c) (n * BLOCK_KV + c)) at 2.
    rewrite <- (const_fmap (λ _, z)) by done. apply map_ext_in. intros t Ht%in_seq. by rewrite (proj2 (Nat.ltb_ge t len)) by lia.
Qed.

(** The state after the first [k] tokens, relative to the maximum [m] *)
Definition weight_from (m : option T) (t : nat) : F := default f_zero (exp_diff (Some (score t)) m).
Definition state_of (k : nat) (m : option T) : online (T:=T) (F:=F) :=
  Some (map (λ d, fsum (map (λ t, f_mul (value t d) (weight_from m t)) (seq 0 k))) (seq 0 (HEAD_DIM L)),
        fsum (map (weight_from m) (seq 0 k)), m).

(** Rescaling moves the sums from one reference point to another. *)
Lemma weight_rescale m m' t : weight_from (Some m') t = f_mul (weight_from (Some m) t) (expo (t_sub m m')).
Proof. apply expo_shift. Qed.
Lemma rescale_sum (g : nat → F) k m m' :
  (k = 0 ∨ is_Some m) →
  f_mul (fsum (map (λ t, f_mul (g t) (weight_from m t)) (seq 0 k))) (default f_zero (exp_diff m (Some m'))) =
  fsum (map (λ t, f_mul (g t) (weight_from (Some m') t)) (seq 0 k)).
Proof.
  intros [->|[m0 ->]]; [cbn; ring|]. symmetry. apply fsum_scale. intros t. rewrite (weight_rescale m0). cbn. ring.
Qed.
Lemma rescale_total k m m' :
  (k = 0 ∨ is_Some m) →
  f_mul (fsum (map (weight_from m) (seq 0 k))) (default f_zero (exp_diff m (Some m'))) = fsum (map (weight_from (Some m')) (seq 0 k)).
Proof.
  intros [->|[m0 ->]]; [cbn; ring|]. symmetry. apply fsum_scale. intros t. by rewrite (weight_rescale m0).
Qed.
Lemma exp_diff_some m m' : exp_diff m (Some m') = Some (default f_zero (exp_diff m (Some m'))) .
Proof. done. Qed.

(** The lanes of a tile add exactly its tokens. *)
Lemma tile_weights n m' : n * BLOCK_KV ≤ len →
  let c := BLOCK_KV `min` (len - n * BLOCK_KV) in
  mapM (λ t, if mask t then exp_diff (logit t) (Some m') else Some f_zero) (map (λ i, n * BLOCK_KV + i) (seq 0 BLOCK_KV)) =
  Some (map (weight_from (Some m')) (seq (n * BLOCK_KV) c) ++ replicate (BLOCK_KV - c) f_zero).
Proof.
  intros Hn c. rewrite <- tile_lanes by done. apply mapM_Some_2. rewrite Forall2_fmap_r. apply Forall_Forall2_diag, Forall_true.
  intros t. unfold compose. rewrite mask_ltb, logit_masked. by destruct (t <? len).
Qed.
Lemma tile_values n m' d : n * BLOCK_KV ≤ len →
  let c := BLOCK_KV `min` (len - n * BLOCK_KV) in
  fsum (zip_with (λ t p, f_mul (value t d) p) (map (λ i, n * BLOCK_KV + i) (seq 0 BLOCK_KV))
         (map (weight_from (Some m')) (seq (n * BLOCK_KV) c) ++ replicate (BLOCK_KV - c) f_zero)) =
  fsum (map (λ t, f_mul (value t d) (weight_from (Some m') t)) (seq (n * BLOCK_KV) c)).
Proof.
  intros Hn c. rewrite fmap_add_seq, Nat.add_0_r. replace (seq (n * BLOCK_KV) BLOCK_KV) with
    (seq (n * BLOCK_KV) c ++ seq (n * BLOCK_KV + c) (BLOCK_KV - c)) by (rewrite <- seq_app; f_equal; lia).
  rewrite zip_with_app by (by rewrite length_map, !length_seq). rewrite fsum_app.
  rewrite (fsum_zeros (zip_with _ (seq (n * BLOCK_KV + c) _) _)).
  - rewrite zip_with_fmap_r, zip_with_diag.
    match goal with |- f_add ?x _ = ?y => change x with y; generalize y end. intros y. ring.
  - apply Forall_forall. intros x (t & p & -> & _ & Hp)%elem_of_zip_with.
    apply elem_of_replicate in Hp as [-> _]. ring.
Qed.

Lemma kv_tile_step n m : n * BLOCK_KV < len → (n = 0 ∨ is_Some m) →
  ∃ m', kv_tile L BLOCK_KV batch_idx head_idx (state_of (n * BLOCK_KV) m) n =
        state_of (n * BLOCK_KV + BLOCK_KV `min` (len - n * BLOCK_KV)) (Some m').
Proof.
  intros Hn Hm. set (c := BLOCK_KV `min` (len - n * BLOCK_KV)). assert (0 < c) as Hc by lia.
  unfold kv_tile, state_of at 1. cbn [mbind option_bind].
  assert (map logit (map (λ i, n * BLOCK_KV + i) (seq 0 BLOCK_KV)) =
          map Some (map score (seq (n * BLOCK_KV) c)) ++ replicate (BLOCK_KV - c) None) as ->.
  { rewrite (map_map score Some). etrans; [|apply (tile_lanes n (λ t, Some (score t)) None); lia]. apply map_ext. intros t. apply logit_masked. }
  rewrite xmaximum_app, xmax_nones. destruct (xmaximum_some (map score (seq (n * BLOCK_KV) c))) as [mt ->]; [by destruct c; [lia|]|].
  assert (∃ m', xmax m (Some mt) = Some m') as [m' ->] by (destruct m; by eexists). exists m'.
  rewrite exp_diff_some. cbv beta iota. rewrite tile_weights by lia. fold c.
  assert (n * BLOCK_KV = 0 ∨ is_Some m) as Hm' by (destruct Hm as [->|]; [by left|by right]).
  cbn [mbind option_bind]. unfold state_of. rewrite seq_app, map_app, !fsum_app. do 3 f_equal.
  - rewrite imap_fmap. apply list_eq. intros d. rewrite list_lookup_imap, list_lookup_fmap.
    destruct (seq 0 (HEAD_DIM L) !! d) as [d'|] eqn:Hd; [|done]. apply lookup_seq in Hd as [-> Hd]. cbn [fmap option_fmap option_map compose Nat.add].
    rewrite tile_values by lia. unfold compose. rewrite rescale_sum, map_app, fsum_app by done. done.
  - rewrite rescale_total by done. f_equal. rewrite (fsum_zeros (replicate _ _)) by (by apply Forall_replicate). cbn [Nat.add]. ring.
Qed.

(** After all tiles, all tokens of the sequence have been added. *)
Lemma online_softmax_state : 0 < len → ∃ m, online_softmax L BLOCK_KV batch_idx head_idx = state_of len (Some m).
Proof.
  intros Hpos. unfold online_softmax. rewrite Hlen, Nat2Z.id.
  assert (∀ n, n ≤ cdiv len BLOCK_KV → ∃ m, (n = 0 ∧ m = None ∨ is_Some m) ∧
    foldl (kv_tile L BLOCK_KV batch_idx head_idx) (Some (replicate (HEAD_DIM L) f_zero, f_zero, None)) (seq 0 n) =
    state_of ((n * BLOCK_KV) `min` len) m) as Hloop.
  { induction n as [|n IH]; intros Hn.
    - exists None. split; [by left|]. cbn [seq foldl Nat.mul Nat.min]. unfold state_of. cbn [seq map]. do 3 f_equal.
      rewrite <- (length_seq (HEAD_DIM L) 0) at 1. by rewrite <- (const_fmap (λ _, f_zero)).
    - destruct IH as (m & Hm & Hst); [lia|]. rewrite seq_S, foldl_app, Hst. cbn [foldl Nat.add].
      assert (n * BLOCK_KV < len) as Hlt by (unfold cdiv in Hn; pose proof (Nat.Div0.mul_div_le (len + BLOCK_KV - 1) BLOCK_KV); nia).
      rewrite Nat.min_l by lia. destruct (kv_tile_step n m Hlt) as [m' ->]; [by destruct Hm as [[? _]|?]; [left|right]|].
      exists (Some m'). split; [by right|]. f_equal. lia. }
  destruct (Hloop (cdiv len BLOCK_KV)) as (m & Hm & ->); [done|].
  pose proof (cdiv_mult_ge len BLOCK_KV HB). rewrite Nat.min_r by lia. destruct Hm as [[Hz _]|[m' ->]]; [|by exists m'].
  rewrite Hz in *. lia.
Qed.

(** The quotient is the attention with the softmax of the scores. *)
Lemma out_value_exact d : 0 < len → d < HEAD_DIM L →
  out_value L BLOCK_KV batch_idx head_idx d =
  fsum (zip_with f_mul (softmax (map score (seq 0 len))) (map (λ t, value t d) (seq 0 len))).
Proof.
  intros Hpos Hd. unfold out_value. destruct (online_softmax_state Hpos) as [m ->]. unfold state_of.
  assert (fsum (map (weight_from (Some m)) (seq 0 len)) = fsum (map (λ s, expo (t_sub s m)) (map score (seq 0 len)))) as -> by (by rewrite map_map).
  assert (map score (seq 0 len) ≠ []) as Hne by (by destruct len; [lia|]).
  rewrite softmax_denominator by done. rewrite list_lookup_fmap, lookup_seq_lt by done. cbn [fmap option_fmap option_map default from_option Nat.add].
  rewrite (softmax_shift _ m). cbv zeta. set (total := fsum (map (λ s, expo (t_sub s m)) (map score (seq 0 len)))).
  unfold id. rewrite <- fsum_div. f_equal. rewrite !map_map, zip_with_fmap_l, zip_with_fmap_r, zip_with_diag. apply map_ext. intros t.
  unfold weight_from. cbn. rewrite !(Fdiv_def (f_field (T:=T) (F:=F))). ring.
Qed.
End online.

(** ** The kernel's reads *)
Lemma offset4 n0 n1 n2 n3 a b c e : a < n0 → b < n1 → c < n2 → e < n3 →
  a * (n1 * (n2 * n3)) + b * (n2 * n3) + c * n3 + e < n0 * (n1 * (n2 * n3)).
Proof.
  intros Ha Hb Hc He. assert (c * n3 + e < n2 * n3) by nia. assert (b * (n2 * n3) + (c * n3 + e) < n1 * (n2 * n3)) by nia. nia.
Qed.

(** Arguments that a caller may pass *)
Record decode_ok {T F} (batch heads kv_heads hd blocks bs width : nat) (query key_cache : dtensor T) (value_cache : dtensor F)
    (block_tables seq_lens : dtensor Z) : Prop := {
  do_query : t_dims query = [batch; 1; heads; hd] ∧ length (t_data query) = batch * (1 * (heads * hd));
  do_key : t_dims key_cache = [blocks; bs; kv_heads; hd] ∧ length (t_data key_cache) = blocks * (bs * (kv_heads * hd));
  do_value : t_dims value_cache = [blocks; bs; kv_heads; hd] ∧ length (t_data value_cache) = blocks * (bs * (kv_heads * hd));
  do_tables : t_dims block_tables = [batch; width] ∧ length (t_data block_tables) = batch * width;
  do_lens : t_dims seq_lens = [batch] ∧ length (t_data seq_lens) = batch;
  do_cuda : is_cuda query && is_cuda key_cache && is_cuda value_cache && is_cuda block_tables && is_cuda seq_lens = true;
  do_elems : t_elem query = BF16 ∧ t_elem key_cache = BF16 ∧ t_elem value_cache = BF16 ∧ t_elem block_tables = I32 ∧ t_elem seq_lens = I32;
  do_sizes : 0 < batch ∧ 0 < kv_heads ∧ heads mod kv_heads = 0 ∧ (hd = 64 ∨ hd = 128) ∧ 0 < blocks ∧ 0 < width;
  do_fits : Forall (λ n, (n ≤ Z.of_nat (width * bs))%Z) (t_data seq_lens);
  do_blocks : ∀ b t n, t_data seq_lens !! b = Some n → (Z.of_nat t < n)%Z →
                (0 ≤ block_of block_tables bs b t < Z.of_nat blocks)%Z }.

Section exact.
Context `{NumberLaws T F} (bf16 : F → F) (e : beside (T:=T) (F:=F)) (batch heads kv_heads hd blocks bs width : nat).
Context (query key_cache : dtensor T) (value_cache : dtensor F) (block_tables seq_lens : dtensor Z) (scale : T).
Hypothesis OK : decode_ok batch heads kv_heads hd blocks bs width query key_cache value_cache block_tables seq_lens.
Abbreviation L := (decode_args e query key_cache value_cache block_tables seq_lens scale [batch; heads; hd]).

Lemma foldl_max_le bound n ns : (n ≤ bound)%Z → Forall (λ n, (n ≤ bound)%Z) ns → (foldl Z.max n ns ≤ bound)%Z.
Proof. intros Hn Hns. revert n Hn. induction Hns as [|m ns Hm _ IH]; intros n Hn; cbn; [done|]. apply IH. lia. Qed.
Lemma check_decode_ok : check_decode query key_cache value_cache block_tables seq_lens = None.
Proof.
  destruct OK as [[Hq _] [Hk _] [Hv _] [Ht _] [Hs Hsl] Hc (He1 & He2 & He3 & He4 & He5) (Hb & Hkv & Hmod & Hhd & Hnb & Hw) Hf _].
  unfold check_decode, ndim, size. rewrite Hq, Hk, Hv, Ht, Hs, Hc, He1, He2, He3, He4, He5. cbn [length nth negb orb].
  rewrite !bool_decide_true by done. rewrite !Nat.eqb_refl. cbn [negb orb Nat.eqb].
  rewrite (proj2 (Nat.eqb_neq kv_heads 0)), (proj2 (Nat.eqb_eq _ _) Hmod), (proj2 (Nat.eqb_neq blocks 0)), (proj2 (Nat.eqb_neq width 0)) by lia. cbn [negb].
  destruct Hf as [|n ns Hn Hns]; [cbn in Hsl; lia|].
  by rewrite (proj2 (Z.ltb_ge _ _)) by (by apply foldl_max_le).
Qed.

Section reads.
Context (b h len : nat).
Hypothesis Hb : b < batch.
Hypothesis Hh : h < heads.
Hypothesis Hlen : t_data seq_lens !! b = Some (Z.of_nat len).
Abbreviation block t := (Z.to_nat (block_of block_tables bs b t)).
Abbreviation kv_head := (h / (heads / kv_heads)).

Lemma reads_seq_len : seq_len L b = Z.of_nat len.
Proof.
  unfold seq_len. cbn [seq_lens_ptr decode_args]. rewrite (flat_inside _ _ _ 0%Z); [by rewrite Hlen|].
  by eapply lookup_lt_Some.
Qed.
Lemma reads_mask t : t < len → token_mask L b t = true.
Proof. intros Ht. unfold token_mask. rewrite reads_seq_len. apply Z.ltb_lt. lia. Qed.
Lemma len_fits t : t < len → t / bs < width ∧ t mod bs < bs.
Proof.
  intros Ht. pose proof (Forall_lookup_1 _ _ _ _ (do_fits _ _ _ _ _ _ _ _ _ _ _ _ OK) Hlen) as Hf. cbn in Hf.
  assert (0 < bs) by (destruct (decide (bs = 0)); nia). split; [|apply Nat.mod_upper_bound; lia].
  apply Nat.Div0.div_lt_upper_bound. lia.
Qed.
Lemma kv_head_lt : kv_head < kv_heads.
Proof.
  destruct (do_sizes _ _ _ _ _ _ _ _ _ _ _ _ OK) as (_ & Hkv & Hmod & _).
  apply Nat.Div0.div_lt_upper_bound. pose proof (Nat.div_mod_eq heads kv_heads). nia.
Qed.
Lemma reads_block t : t < len → physical_block L b t = Z.of_nat (block t) ∧ block t < blocks.
Proof.
  intros Ht. pose proof (do_blocks _ _ _ _ _ _ _ _ _ _ _ _ OK b t _ Hlen ltac:(lia)) as Hbt.
  destruct (do_tables _ _ _ _ _ _ _ _ _ _ _ _ OK) as [Hd Hl]. destruct (len_fits t Ht) as [Hw _].
  split; [|lia]. unfold physical_block, load_at. rewrite reads_mask by done.
  cbn [block_tables_ptr bt_stride_b bt_stride_block block_size_arg decode_args].
  destruct (do_key _ _ _ _ _ _ _ _ _ _ _ _ OK) as [Hdk _].
  rewrite Z2Nat.id by lia. unfold block_of, size, stride. rewrite Hd, Hdk. cbn [nth drop product foldr].
  rewrite !Nat.mul_1_r. apply flat_inside. rewrite Hl. nia.
Qed.
Lemma reads_query d : d < hd → q_at L b h d = at4 t_zero query b 0 h d.
Proof.
  intros Hd. destruct (do_query _ _ _ _ _ _ _ _ _ _ _ _ OK) as [Hq Hl].
  unfold q_at, load_at. cbn [head_dim_arg decode_args query_ptr q_stride_b q_stride_h q_stride_d]. unfold size. rewrite Hq.
  cbn [nth]. rewrite (proj2 (Nat.ltb_lt d hd)) by done. unfold at4, stride. rewrite Hq. cbn [drop product foldr].
  rewrite !Nat.mul_1_r. rewrite (flat_inside _ _ _ t_zero); [do 3 f_equal; lia|].
  rewrite Hl. pose proof (offset4 batch 1 heads hd b 0 h d). lia.
Qed.
(** Keys and values lie at the same offsets of their caches. *)
Lemma reads_cache {A} (junk : Z → A) z (cache : dtensor A) t d :
  t_dims cache = [blocks; bs; kv_heads; hd] → length (t_data cache) = blocks * (bs * (kv_heads * hd)) → t < len → d < hd →
  flat junk cache (physical_block L b t * Z.of_nat (stride cache 0)
    + Z.of_nat (t mod bs * stride cache 1 + kv_head * stride cache 2 + d * stride cache 3)) = at4 z cache (block t) (t mod bs) kv_head d.
Proof.
  intros Hc Hl Ht Hd. destruct (reads_block t Ht) as [-> Hbl]. destruct (len_fits t Ht) as [_ Hm]. pose proof kv_head_lt.
  rewrite <- Nat2Z.inj_mul, <- Nat2Z.inj_add. rewrite (flat_inside _ _ _ z).
  - unfold at4, stride. rewrite Hc. cbn [drop product foldr]. do 2 f_equal. lia.
  - rewrite Hl. unfold stride. rewrite Hc. cbn [drop product foldr].
    pose proof (offset4 blocks bs kv_heads hd (block t) (t mod bs) kv_head d). lia.
Qed.
Lemma kv_head_args : kv_head_idx L h = kv_head.
Proof.
  unfold kv_head_idx. cbn [QUERY_GROUP_SIZE decode_args]. unfold size.
  by rewrite (proj1 (do_query _ _ _ _ _ _ _ _ _ _ _ _ OK)), (proj1 (do_key _ _ _ _ _ _ _ _ _ _ _ _ OK)).
Qed.
Lemma reads_args : head_dim_arg L = hd ∧ HEAD_DIM L = hd ∧ block_size_arg L = bs.
Proof.
  cbn [head_dim_arg HEAD_DIM block_size_arg decode_args]. unfold size.
  by rewrite (proj1 (do_query _ _ _ _ _ _ _ _ _ _ _ _ OK)), (proj1 (do_key _ _ _ _ _ _ _ _ _ _ _ _ OK)).
Qed.
Lemma reads_key t d : t < len → d < hd → k_at L b h t d = at4 t_zero key_cache (block t) (t mod bs) kv_head d.
Proof.
  intros Ht Hd. destruct reads_args as (Ha & _ & Hbs), (do_key _ _ _ _ _ _ _ _ _ _ _ _ OK) as [Hc Hl].
  unfold k_at, load_at. rewrite reads_mask, Ha, Hbs, kv_head_args, (proj2 (Nat.ltb_lt d hd)) by done. cbn [andb].
  by apply reads_cache.
Qed.
Lemma reads_value t d : t < len → d < hd → v_at L b h t d = at4 f_zero value_cache (block t) (t mod bs) kv_head d.
Proof.
  intros Ht Hd. destruct reads_args as (Ha & _ & Hbs), (do_value _ _ _ _ _ _ _ _ _ _ _ _ OK) as [Hc Hl].
  unfold v_at, load_at. rewrite reads_mask, Ha, Hbs, kv_head_args, (proj2 (Nat.ltb_lt d hd)) by done. cbn [andb].
  by apply reads_cache.
Qed.
End reads.

(** One program computes the attention of its sequence and head. *)
Lemma out_value_attention BLOCK_KV b h d len :
  0 < BLOCK_KV → 0 < len → b < batch → h < heads → d < hd → t_data seq_lens !! b = Some (Z.of_nat len) →
  out_value L BLOCK_KV b h d = paged_attention query key_cache value_cache block_tables scale len b h d.
Proof.
  intros HB Hpos Hb Hh Hd Hl. destruct reads_args as (_ & Hhd & _).
  rewrite (out_value_exact L BLOCK_KV b h len (reads_seq_len b len Hl) HB) by (by rewrite ?Hhd).
  unfold paged_attention, size. rewrite (proj1 (do_query _ _ _ _ _ _ _ _ _ _ _ _ OK)), (proj1 (do_key _ _ _ _ _ _ _ _ _ _ _ _ OK)).
  cbn [nth]. f_equal. f_equal.
  - f_equal. apply map_ext_in. intros t Ht%in_seq. unfold score. rewrite Hhd. cbn [scale_arg decode_args].
    do 2 f_equal. apply map_ext_in. intros d' Hd'%in_seq. rewrite (reads_key b h len), reads_query by (done || lia). done.
  - apply map_ext_in. intros t Ht%in_seq. apply (reads_value b h len); (done || lia).
Qed.

Lemma elem_of_decode_program BLOCK_KV b h w : w ∈ decode_program bf16 L BLOCK_KV b h ↔
  ∃ d, d < hd ∧ w = ((b * heads + h) * hd + d, if (seq_len L b <=? 0)%Z then f_zero else bf16 (out_value L BLOCK_KV b h d)).
Proof.
  destruct reads_args as (Ha & Hhd & _). unfold decode_program. rewrite Ha, Hhd.
  cbn [out_stride_b out_stride_h out_stride_d decode_args]. unfold stride. cbn [t_dims drop product foldr].
  rewrite list_elem_of_bind. split.
  - intros (d & Hw & _). destruct (Nat.ltb_spec d hd); [|by apply elem_of_nil in Hw]. apply list_elem_of_singleton in Hw as ->.
    exists d. split; [done|]. f_equal. lia.
  - intros (d & Hd & ->). exists d. rewrite (proj2 (Nat.ltb_lt d hd)), elem_of_seq by done. split; [|lia].
    apply list_elem_of_singleton. f_equal. lia.
Qed.
End exact.

(** C18: the decode kernel is attention: for every tile width, every order of the programs and
    whatever lies in memory around the tensors, the entry of sequence [b], head [h] and
    dimension [d] is the sum of the values of the sequence's tokens, found through its
    block table, weighted by the softmax of their scaled scores (and zero for an empty
    sequence).  No intermediate result is infinite or undefined. *)
Theorem fused_decode_exact `{NumberLaws T F} bf16 (e : beside (T:=T) (F:=F)) BLOCK_KV order batch heads kv_heads hd blocks bs width
    query key_cache value_cache block_tables seq_lens scale :
  decode_ok batch heads kv_heads hd blocks bs width query key_cache value_cache block_tables seq_lens →
  BLOCK_KV ∈ BLOCK_KVS → order ≡ₚ decode_grid batch heads →
  fused_decode_attention bf16 e BLOCK_KV order query key_cache value_cache block_tables seq_lens scale =
  Ok (map (λ b, map (λ h, map (λ d,
            let len := default 0%Z (t_data seq_lens !! b) in
            Some (if (len <=? 0)%Z then f_zero
                  else bf16 (paged_attention query key_cache value_cache block_tables scale (Z.to_nat len) b h d)))
          (seq 0 hd)) (seq 0 heads)) (seq 0 batch)).
Proof.
  intros OK HB Ho. unfold fused_decode_attention. rewrite (check_decode_ok _ _ _ _ _ _ _ _ _ _ _ _ OK).
  assert (0 < BLOCK_KV) as HB' by (repeat (apply elem_of_cons in HB as [->|HB]; [lia|]); by apply elem_of_nil in HB).
  destruct (do_query _ _ _ _ _ _ _ _ _ _ _ _ OK) as [Hq _]. unfold size. rewrite Hq. cbn [nth]. f_equal.
  apply map_ext_in. intros b Hb%in_seq. apply map_ext_in. intros h Hh%in_seq. apply map_ext_in. intros d Hd%in_seq.
  assert (batch ≠ 0 ∧ heads ≠ 0 ∧ hd ≠ 0) as (Hn1 & Hn2 & Hn3) by lia.
  rewrite (proj2 (Nat.eqb_neq (batch * heads * hd) 0)) by (intros [[?|?]%Nat.mul_eq_0|?]%Nat.mul_eq_0; done).
  destruct (lookup_lt_is_Some_2 (t_data seq_lens) b) as [len Hlen]; [rewrite (proj2 (do_lens _ _ _ _ _ _ _ _ _ _ _ _ OK)); lia|].
  rewrite Hlen. cbn [default from_option]. unfold id. cbv zeta.
  assert (flat (junk_i e) seq_lens (Z.of_nat b) = len) as Hsl by (rewrite (flat_inside _ _ _ 0%Z), Hlen by (by eapply lookup_lt_Some); done).
  assert ((if (len <=? 0)%Z then f_zero else bf16 (out_value (decode_args e query key_cache value_cache block_tables seq_lens scale [batch; heads; hd]) BLOCK_KV b h d)) =
          (if (len <=? 0)%Z then f_zero else bf16 (paged_attention query key_cache value_cache block_tables scale (Z.to_nat len) b h d))) as <-.
  { destruct (Z.leb_spec len 0); [done|]. f_equal.
    eapply out_value_attention; (done || lia || (rewrite Z2Nat.id by lia; done) || eauto with lia). }
  unfold run_decode. apply stores_lookup.
  - intros v' ([b' h'] & Hw & Hin)%list_elem_of_bind. rewrite Ho in Hin.
    apply list_elem_of_bind in Hin as (b'' & (h'' & [= -> ->]%list_elem_of_singleton & Hh'%elem_of_seq)%list_elem_of_bind & Hb'%elem_of_seq).
    apply (elem_of_decode_program _ _ _ _ _ _ _ _ _ _ _ _ _ _ _ OK) in Hw as (d' & Hd' & [= Ha ->]).
    destruct (address_inj hd (b * heads + h) d (b'' * heads + h'') d') as [Hbh ->]; [lia..|].
    destruct (address_inj heads b h b'' h'') as [-> ->]; [lia..|]. by rewrite Hsl.
  - left. apply list_elem_of_bind. exists (b, h). split.
    + apply (elem_of_decode_program _ _ _ _ _ _ _ _ _ _ _ _ _ _ _ OK). exists d. split; [lia|]. unfold seq_len.
      change (seq_lens_ptr (decode_args e query key_cache value_cache block_tables seq_lens scale [batch; heads; hd])) with (flat (junk_i e) seq_lens).
      cbn [fst snd]. by rewrite Hsl.
    + rewrite Ho. apply list_elem_of_bind. exists b. split; [|apply elem_of_seq; lia].
      apply list_elem_of_bind. exists h. split; [by left|apply elem_of_seq; lia].
Qed.

(** Two sequences of three and no tokens, two heads on one key head, blocks of two tokens
    in reverse order *)
Definition demo_query : dtensor Z := DTensor [2; 1; 2; 64] (Some 0) BF16 (map (λ i, Z.of_nat (i mod 3)) (seq 0 256)).
Definition demo_keys : dtensor Z := DTensor [3; 2; 1; 64] (Some 0) BF16 (map (λ i, (Z.of_nat (i mod 5) - 2)%Z) (seq 0 384)).
Definition demo_values : dtensor Qc := DTensor [3; 2; 1; 64] (Some 0) BF16 (map (λ i, Q2Qc (Z.of_nat i # 2)) (seq 0 384)).
Definition demo_tables : dtensor Z := DTensor [2; 2] (Some 0) I32 [2; 0; -1; -1]%Z.
Definition demo_lens : dtensor Z := DTensor [2] (Some 0) I32 [3; 0]%Z.
Definition demo_beside : beside (T:=Z) (F:=Qc) := Beside (λ _, 5%Z) (λ _, Q2Qc (5 # 1)) (λ _, 77%Z).

Lemma fused_decode_exact_witness :
  fused_decode_attention id demo_beside 32 (decode_grid 2 2) demo_query demo_keys demo_values demo_tables demo_lens 1%Z =
  Ok (map (λ b, map (λ h, map (λ d,
            let len := default 0%Z (t_data demo_lens !! b) in
            Some (if (len <=? 0)%Z then f_zero (T:=Z)
                  else id (paged_attention demo_query demo_keys demo_values demo_tables 1%Z (Z.to_nat len) b h d)))
          (seq 0 64)) (seq 0 2)) (seq 0 2)).
Proof.
  apply (fused_decode_exact id demo_beside 32 (decode_grid 2 2) 2 2 1 64 3 2 2).
  - constructor; try (split; reflexivity); try reflexivity.
    + repeat split; lia.
    + repeat split; cbn; (lia || by left).
    + repeat constructor; cbn; lia.
    + intros [|[|b]] t n Hn Ht; cbn in Hn; simplify_eq; [|lia].
      destruct t as [|[|[|t]]]; [vm_compute; split; done..|lia].
  - left.
  - done.
Defined.
