(* ===== verification/FusedProjections.v ===== *)
(** * Fused projections (kernel/fused_ffn.py, kernel/fused_qkv.py)

    The kernel that computes the gated intermediate of a feed-forward network in one pass,
    the kernel that projects hidden states to queries, keys and values in one pass, and
    their launchers with all their checks.  Numbers are exact rationals; rounding to
    bfloat16 or float16 and the logistic function are arguments. *)
From Stdlib Require Import QArith Qcanon.
From S2P Require Import Prelude Tensor.
Open Scope nat_scope.

(** Entry ([i], [j]) of a matrix of [cols] columns *)
Definition at2 (t : dtensor Qc) (cols i j : nat) : Qc := default 0%Qc (t_data t !! (i * cols + j)).
Definition load_q (mem : Z → Qc) (ptr : nat) (mask : bool) : Qc := load_at mem (Z.of_nat ptr) mask 0%Qc.

(** ** Gate, up projection and SiLU *)
Section ffn.
Context (bf16 sigmoid : Qc → Qc).

Definition silu (x : Qc) : Qc := (x * sigmoid x)%Qc.

Record ffn_launch := FfnLaunch {
  x_ptr : Z → Qc; gate_weight_ptr : Z → Qc; up_weight_ptr : Z → Qc;
  ffn_M : nat; ffn_N : nat; ffn_K : nat;
  stride_x_m : nat; stride_x_k : nat; stride_gate_n : nat; stride_gate_k : nat; stride_up_n : nat; stride_up_k : nat;
  stride_intermediate_m : nat; stride_intermediate_n : nat }.

Definition ffn_configs : list tile3 :=
  bm ← [32; 64; 128]; bn ← [64; 128]; bk ← [32; 64]; [Tile3 bm bn bk].

(** [tl.dot] of row [m] of the activations with row [n] of a weight, one K-tile *)
Definition ffn_dot (L : ffn_launch) (T : tile3) (weight : Z → Qc) (stride_n stride_k m n k_block : nat) : Qc :=
  sum_range (BK T) (λ t,
    let k := (k_block * BK T + t)%nat in
    bf16 (load_q (x_ptr L) (m * stride_x_m L + k * stride_x_k L) ((m <? ffn_M L) && (k <? ffn_K L))%nat)
    * bf16 (load_q weight (n * stride_n + k * stride_k) ((n <? ffn_N L) && (k <? ffn_K L))%nat))%Qc.
Definition ffn_tile_step (L : ffn_launch) (T : tile3) (m n : nat) (acc : Qc * Qc) (k_block : nat) : Qc * Qc :=
  (acc.1 + ffn_dot L T (gate_weight_ptr L) (stride_gate_n L) (stride_gate_k L) m n k_block,
   acc.2 + ffn_dot L T (up_weight_ptr L) (stride_up_n L) (stride_up_k L) m n k_block)%Qc.
Definition ffn_entry (L : ffn_launch) (T : tile3) (m n : nat) : Qc :=
  let '(gate_acc, up_acc) := foldl (ffn_tile_step L T m n) (0%Qc, 0%Qc) (seq 0 (cdiv (ffn_K L) (BK T))) in
  (silu gate_acc * up_acc)%Qc.
Definition ffn_stores (L : ffn_launch) (T : tile3) (m n : nat) : list (nat * Qc) :=
  if (m <? ffn_M L) && (n <? ffn_N L)
  then [(m * stride_intermediate_m L + n * stride_intermediate_n L, bf16 (ffn_entry L T m n))]
  else [].

(** The checks of the launcher, in the order of the source *)
Definition check_ffn (x gate_weight up_weight down_weight : dtensor Qc) : option exn :=
  if negb (ndim x =? 2) then Some ValueError
  else if negb (ndim gate_weight =? 2) || negb (ndim up_weight =? 2) || negb (ndim down_weight =? 2) then Some ValueError
  else if negb (bool_decide (t_elem x = BF16)) then Some TypeError
  else if negb (bool_decide (t_elem gate_weight = BF16)) then Some TypeError
  else if negb (bool_decide (t_elem up_weight = BF16)) then Some TypeError
  else if negb (bool_decide (t_elem down_weight = BF16)) then Some TypeError
  else if negb (is_cuda x) then Some ValueError
  else if negb (is_cuda gate_weight) || negb (is_cuda up_weight) || negb (is_cuda down_weight) then Some ValueError
  else if negb (bool_decide (t_device gate_weight = t_device x)) || negb (bool_decide (t_device up_weight = t_device x))
          || negb (bool_decide (t_device down_weight = t_device x)) then Some ValueError
  else if negb (size gate_weight 1 =? size x 1) || negb (size up_weight 1 =? size x 1) then Some ValueError
  else if negb (size up_weight 0 =? size gate_weight 0) then Some ValueError
  else if negb (size down_weight 1 =? size gate_weight 0) then Some ValueError
  else None.

Definition ffn_args (junk : Z → Qc) (x gate_weight up_weight : dtensor Qc) : ffn_launch :=
  let I := size gate_weight 0 in
  {| x_ptr := flat junk x; gate_weight_ptr := flat junk gate_weight; up_weight_ptr := flat junk up_weight;
     ffn_M := size x 0; ffn_N := I; ffn_K := size x 1;
     stride_x_m := stride x 0; stride_x_k := stride x 1;
     stride_gate_n := stride gate_weight 0; stride_gate_k := stride gate_weight 1;
     stride_up_n := stride up_weight 0; stride_up_k := stride up_weight 1;
     stride_intermediate_m := I; stride_intermediate_n := 1 |}.

(** [torch.matmul(a, b.t())] of bfloat16 matrices; what was never stored makes the result unknown. *)
Definition matmul_t (a : nat → nat → option Qc) (b : dtensor Qc) (m inner : nat) : list (list (option Qc)) :=
  map (λ i, map (λ o, terms ← mapM (λ k, v ← a i k; Some (v * at2 b inner o k)%Qc) (seq 0 inner); Some (bf16 (qcsum terms)))
              (seq 0 (size b 0))) (seq 0 m).

Definition fused_ffn (junk : Z → Qc) (T : tile3) (order : list (nat * nat)) (x gate_weight up_weight down_weight : dtensor Qc)
    : res (list (list (option Qc))) :=
  match check_ffn x gate_weight up_weight down_weight with
  | Some e => Err e
  | None =>
      let M := size x 0 in
      let I := size gate_weight 0 in
      let L := ffn_args junk x gate_weight up_weight in
      let mem := run_programs order (tile_program T (ffn_stores L T)) in
      let intermediate m n := mem !! (m * I + n) in
      Ok (matmul_t intermediate down_weight M I)
  end.

(** [(F.silu(x @ gate_w.T) * (x @ up_w.T)) @ down_w.T]; each operation rounds its result. *)
Definition reference_ffn (x gate_w up_w down_w : dtensor Qc) : list (list Qc) :=
  let K := size x 1 in
  let I := size gate_w 0 in
  let project w m n := bf16 (sum_range K (λ k, at2 x K m k * at2 w K n k)%Qc) in
  let gated m n := bf16 (bf16 (silu (project gate_w m n)) * project up_w m n)%Qc in
  map (λ m, map (λ o, bf16 (sum_range I (λ n, gated m n * at2 down_w I o n)%Qc)) (seq 0 (size down_w 0))) (seq 0 (size x 0)).
End ffn.

(** ** Queries, keys and values *)
(** The three output tensors *)
Inductive output := out_q | out_k | out_v.
#[export] Instance output_eq_dec : EqDecision output.
Proof. solve_decision. Defined.
#[export] Instance output_countable : Countable output.
Proof.
  refine (inj_countable' (λ o, match o with out_q => 0 | out_k => 1 | out_v => 2 end)
                         (λ n, match n with 0 => out_q | 1 => out_k | _ => out_v end) _); by intros [].
Defined.

Section qkv.
Context (bf16 f16 : Qc → Qc).

Record qkv_launch := QkvLaunch {
  hidden_ptr : Z → Qc; weight_ptr : Z → Qc;
  qkv_M : nat; qkv_N : nat; qkv_K : nat; Q_DIM : nat; KV_DIM : nat;
  stride_hidden_m : nat; stride_hidden_k : nat; stride_weight_k : nat; stride_weight_n : nat;
  stride_q_m : nat; stride_q_n : nat; stride_k_m : nat; stride_k_n : nat; stride_v_m : nat; stride_v_n : nat;
  OUTPUT_IS_BF16 : bool }.

Definition qkv_configs : list tile3 :=
  block_m ← [32; 64; 128]; block_n ← [64; 128; 256]; block_k ← [32; 64]; [Tile3 block_m block_n block_k].

Definition qkv_tile_step (L : qkv_launch) (T : tile3) (m n : nat) (acc : Qc) (k_start : nat) : Qc :=
  (acc + sum_range (BK T) (λ t : nat,
     let k := (k_start * BK T + t)%nat in
     load_q (hidden_ptr L) (m * stride_hidden_m L + k * stride_hidden_k L) ((m <? qkv_M L) && (k <? qkv_K L))%nat
     * load_q (weight_ptr L) (k * stride_weight_k L + n * stride_weight_n L) ((k <? qkv_K L) && (n <? qkv_N L))%nat))%Qc.
Definition qkv_entry (L : qkv_launch) (T : tile3) (m n : nat) : Qc :=
  let acc := foldl (qkv_tile_step L T m n) 0%Qc (seq 0 (cdiv (qkv_K L) (BK T))) in
  if OUTPUT_IS_BF16 L then bf16 acc else f16 acc.

Definition qkv_stores (L : qkv_launch) (T : tile3) (m n : nat) : list ((output * nat) * Qc) :=
  let out := qkv_entry L T m n in
  let q_mask := (m <? qkv_M L) && (n <? Q_DIM L) in
  let k_offsets := n - Q_DIM L in
  let k_mask := (m <? qkv_M L) && (Q_DIM L <=? n) && (n <? Q_DIM L + KV_DIM L) in
  let v_offsets := n - Q_DIM L - KV_DIM L in
  let v_mask := (m <? qkv_M L) && (Q_DIM L + KV_DIM L <=? n) && (n <? qkv_N L) in
  (if q_mask then [((out_q, m * stride_q_m L + n * stride_q_n L), out)] else [])
  ++ (if k_mask then [((out_k, m * stride_k_m L + k_offsets * stride_k_n L), out)] else [])
  ++ (if v_mask then [((out_v, m * stride_v_m L + v_offsets * stride_v_n L), out)] else []).

Definition float_type (e : elem_type) : bool := bool_decide (e = F16 ∨ e = BF16).
Definition last_dim {A} (t : dtensor A) : nat := default 0 (last (t_dims t)).
(** [reshape(-1, t.shape[-1])]: the number of rows, unknown for an empty last dimension *)
Definition reshape_2d {A} (t : dtensor A) : res nat :=
  if last_dim t =? 0 then Err RuntimeError else Ok (product (removelast (t_dims t))).

Definition qkv_args (junk : Z → Qc) (hidden_states weight_qkv : dtensor Qc) (M q_dim kv_dim : nat) : qkv_launch :=
  let K := last_dim hidden_states in
  {| hidden_ptr := flat junk hidden_states; weight_ptr := flat junk weight_qkv;
     qkv_M := M; qkv_N := q_dim + 2 * kv_dim; qkv_K := K; Q_DIM := q_dim; KV_DIM := kv_dim;
     stride_hidden_m := K; stride_hidden_k := 1;
     stride_weight_k := stride weight_qkv 0; stride_weight_n := stride weight_qkv 1;
     stride_q_m := q_dim; stride_q_n := 1; stride_k_m := kv_dim; stride_k_n := 1; stride_v_m := kv_dim; stride_v_n := 1;
     OUTPUT_IS_BF16 := bool_decide (t_elem hidden_states = BF16) |}.

(** A tensor of [M] rows, head by head: the shape [prefix, heads, head_dim] and the entries *)
Definition read_heads (mem : gmap (output * nat) Qc) (o : output) (M heads head_dim : nat) : list (list (list (option Qc))) :=
  map (λ m, map (λ h, map (λ d, mem !! (o, m * (heads * head_dim) + (h * head_dim + d))) (seq 0 head_dim)) (seq 0 heads)) (seq 0 M).

(** The prefix of the shapes and the three outputs *)
Definition fused_qkv_proj (junk : Z → Qc) (T : tile3) (order : nat → nat → list (nat * nat)) (hidden_states weight_qkv : dtensor Qc)
    (num_q_heads num_kv_heads head_dim : nat)
    : res (list nat * (list (list (list (option Qc))) * list (list (list (option Qc))) * list (list (list (option Qc))))) :=
  if ndim hidden_states <? 2 then Err ValueError
  else if negb (float_type (t_elem hidden_states)) then Err TypeError
  else if negb (float_type (t_elem weight_qkv)) then Err TypeError
  else if negb (bool_decide (t_elem hidden_states = t_elem weight_qkv)) then Err TypeError
  else if negb (is_cuda hidden_states) || negb (is_cuda weight_qkv) then Err ValueError
  else
    M ← reshape_2d hidden_states;
    let K := last_dim hidden_states in
    let q_dim := num_q_heads * head_dim in
    let kv_dim := num_kv_heads * head_dim in
    let total_dim := q_dim + 2 * kv_dim in
    if negb (ndim weight_qkv =? 2) then Err ValueError
    else if negb (size weight_qkv 0 =? K) then Err ValueError
    else if negb (size weight_qkv 1 =? total_dim) then Err ValueError
    else
      let L := qkv_args junk hidden_states weight_qkv M q_dim kv_dim in
      let mem := run_programs (order M total_dim) (tile_program T (qkv_stores L T)) in
      Ok (removelast (t_dims hidden_states),
          (read_heads mem out_q M num_q_heads head_dim, read_heads mem out_k M num_kv_heads head_dim,
           read_heads mem out_v M num_kv_heads head_dim)).

(** [hidden_states @ weight_qkv], column [n] of row [m] *)
Definition project (hidden_states weight_qkv : dtensor Qc) (total m n : nat) : Qc :=
  let K := last_dim hidden_states in
  let acc := sum_range K (λ k, at2 hidden_states K m k * at2 weight_qkv total k n)%Qc in
  if bool_decide (t_elem hidden_states = BF16) then bf16 acc else f16 acc.
Definition heads_of (f : nat → nat → Qc) (first M heads head_dim : nat) : list (list (list (option Qc))) :=
  map (λ m, map (λ h, map (λ d, Some (f m (first + (h * head_dim + d)))) (seq 0 head_dim)) (seq 0 heads)) (seq 0 M).
End qkv.

(** ** The feed-forward kernel is correct *)
Section ffn_correct.
Context (bf16 sigmoid : Qc → Qc).

(** The network with a single rounding of the gated intermediate *)
Definition one_pass_ffn (x gate_w up_w down_w : dtensor Qc) : list (list Qc) :=
  let K := size x 1 in
  let I := size gate_w 0 in
  let project w m n := sum_range K (λ k, at2 x K m k * at2 w K n k)%Qc in
  let gated m n := bf16 (silu sigmoid (project gate_w m n) * project up_w m n)%Qc in
  map (λ m, map (λ o, bf16 (sum_range I (λ n, gated m n * at2 down_w I o n)%Qc)) (seq 0 (size down_w 0))) (seq 0 (size x 0)).

(** Matrices of matching shapes on one device, with entries that bfloat16 represents *)
Definition bf16_matrix (dev n k : nat) (t : dtensor Qc) : Prop :=
  t_dims t = [n; k] ∧ length (t_data t) = n * k ∧ t_device t = Some dev ∧ t_elem t = BF16 ∧ Forall (λ v, bf16 v = v) (t_data t).
Record ffn_ok (dev M K I O : nat) (x gate up down : dtensor Qc) : Prop := {
  fo_x : bf16_matrix dev M K x; fo_gate : bf16_matrix dev I K gate; fo_up : bf16_matrix dev I K up;
  fo_down : bf16_matrix dev O I down; fo_zero : bf16 0%Qc = 0%Qc }.

Lemma at2_represented dev n k t i j : bf16_matrix dev n k t → bf16 0%Qc = 0%Qc → bf16 (at2 t k i j) = at2 t k i j.
Proof.
  intros (_ & _ & _ & _ & Hv) Hz. unfold at2. destruct (t_data t !! (i * k + j)) as [v|] eqn:E; [|done].
  exact (Forall_lookup_1 _ _ _ _ Hv E).
Qed.
Lemma load_inside junk (t : dtensor Qc) cols rows i j :
  length (t_data t) = rows * cols → i < rows → j < cols → load_q (flat junk t) (i * cols + j) true = at2 t cols i j.
Proof. intros Hl Hi Hj. unfold load_q, load_at, at2. apply flat_inside. rewrite Hl. nia. Qed.

Context (junk : Z → Qc) (dev M K I O : nat) (x gate up down : dtensor Qc).
Hypothesis OK : ffn_ok dev M K I O x gate up down.
Abbreviation L := (ffn_args junk x gate up).

Lemma ffn_dims : ffn_M L = M ∧ ffn_N L = I ∧ ffn_K L = K ∧ stride_x_m L = K ∧ stride_x_k L = 1.
Proof.
  destruct OK as [(Hx & _) (Hg & _) _ _ _]. cbn [ffn_M ffn_N ffn_K stride_x_m stride_x_k ffn_args]. unfold size, stride.
  rewrite Hx, Hg. cbn. by rewrite Nat.mul_1_r.
Qed.
Lemma ffn_dot_exact T w m n kb : bf16_matrix dev I K w → m < M → n < I →
  ffn_dot bf16 L T (flat junk w) K 1 m n kb =
  sum_range (BK T) (λ t, if kb * BK T + t <? K then at2 x K m (kb * BK T + t) * at2 w K n (kb * BK T + t) else 0)%Qc.
Proof.
  intros Hw Hm Hn. destruct ffn_dims as (HM & HI & HK & Hs1 & Hs2). unfold ffn_dot. rewrite HM, HI, HK, Hs1, Hs2.
  apply sum_range_ext. intros t _. cbv zeta. rewrite (proj2 (Nat.ltb_lt m M)), (proj2 (Nat.ltb_lt n I)), !Nat.mul_1_r by done. cbn [andb].
  destruct (Nat.ltb_spec (kb * BK T + t) K) as [Hk|Hk].
  - cbn [x_ptr ffn_args]. rewrite (load_inside _ x K M), (load_inside _ w K I) by (done || apply OK || apply Hw).
    by rewrite (at2_represented dev M K x), (at2_represented dev I K w) by (done || apply OK).
  - unfold load_q, load_at. rewrite (fo_zero _ _ _ _ _ _ _ _ _ OK). ring.
Qed.
Lemma ffn_loop T m n l a b :
  foldl (ffn_tile_step bf16 L T m n) (a, b) l =
  (foldl (λ acc kb, acc + ffn_dot bf16 L T (gate_weight_ptr L) (stride_gate_n L) (stride_gate_k L) m n kb) a l,
   foldl (λ acc kb, acc + ffn_dot bf16 L T (up_weight_ptr L) (stride_up_n L) (stride_up_k L) m n kb) b l)%Qc.
Proof. revert a b. induction l as [|kb l IH]; intros a b; cbn [foldl]; [done|]. apply IH. Qed.
Lemma weight_strides w : bf16_matrix dev I K w → stride w 0 = K ∧ stride w 1 = 1.
Proof. intros (Hd & _). unfold stride. rewrite Hd. cbn. by rewrite Nat.mul_1_r. Qed.

Lemma ffn_entry_exact T m n : 0 < BK T → m < M → n < I →
  ffn_entry bf16 sigmoid L T m n =
  (silu sigmoid (sum_range K (λ k, at2 x K m k * at2 gate K n k)) * sum_range K (λ k, at2 x K m k * at2 up K n k))%Qc.
Proof.
  intros HT Hm Hn. unfold ffn_entry. rewrite ffn_loop. destruct ffn_dims as (_ & _ & HK & _). rewrite HK.
  cbn [gate_weight_ptr up_weight_ptr stride_gate_n stride_gate_k stride_up_n stride_up_k ffn_args].
  destruct (weight_strides gate (fo_gate _ _ _ _ _ _ _ _ _ OK)) as [-> ->], (weight_strides up (fo_up _ _ _ _ _ _ _ _ _ OK)) as [-> ->].
  rewrite (tiled_sum (BK T) K (λ k, at2 x K m k * at2 gate K n k)%Qc), (tiled_sum (BK T) K (λ k, at2 x K m k * at2 up K n k)%Qc);
    try done; intros kb; apply ffn_dot_exact; (done || apply OK).
Qed.

Lemma check_ffn_ok : check_ffn x gate up down = None.
Proof.
  destruct OK as [(Hx & _ & Dx & Ex & _) (Hg & _ & Dg & Eg & _) (Hu & _ & Du & Eu & _) (Hd & _ & Dd & Ed & _) _].
  unfold check_ffn, ndim, size, is_cuda. rewrite Hx, Hg, Hu, Hd, Dx, Dg, Du, Dd, Ex, Eg, Eu, Ed. cbn [length nth].
  rewrite !bool_decide_true by done. by rewrite !Nat.eqb_refl.
Qed.

(** Each entry of the intermediate is stored, with its own value. *)
Lemma intermediate_exact T order m n :
  0 < BM T → 0 < BN T → 0 < BK T → order ≡ₚ tile_grid M I T → m < M → n < I →
  run_programs order (tile_program T (ffn_stores bf16 sigmoid L T)) !! (m * I + n) = Some (bf16 (ffn_entry bf16 sigmoid L T m n)).
Proof.
  intros H1 H2 H3 Ho Hm Hn. destruct ffn_dims as (HM & HI & _).
  assert (∀ m n w, w ∈ ffn_stores bf16 sigmoid L T m n ↔ m < M ∧ n < I ∧ w = (m * I + n, bf16 (ffn_entry bf16 sigmoid L T m n))) as Hst.
  { intros m' n' w. unfold ffn_stores. rewrite HM, HI. cbn [stride_intermediate_m stride_intermediate_n ffn_args].
    change (size gate 0) with (ffn_N L). rewrite HI, Nat.mul_1_r.
    destruct (Nat.ltb_spec m' M), (Nat.ltb_spec n' I); cbn [andb]; rewrite ?list_elem_of_singleton, ?elem_of_nil;
      (split; [intros Hw; (done || (split_and!; done))|intros (? & ? & ?); (done || lia)]). }
  unfold run_programs. apply stores_lookup.
  - intros v (m' & n' & _ & _ & (Hm' & Hn' & [= Ha ->])%Hst)%(elem_of_tiles M I); [|done..].
    by destruct (address_inj _ _ _ _ _ Hn Hn' Ha) as [<- <-].
  - left. apply (elem_of_tiles M I); [done..|]. exists m, n. rewrite Hst.
    pose proof (cdiv_mult_ge M (BM T) H1). pose proof (cdiv_mult_ge I (BN T) H2). split_and!; (done || lia).
Qed.
End ffn_correct.

(** The fused feed-forward network is the network: for every tile configuration, order of
    the programs and surroundings in memory, its result is
    [(silu(x @ gate.T) * (x @ up.T)) @ down.T] with the gated intermediate rounded once;
    without rounding it is [reference_ffn]. *)
Theorem fused_ffn_exact bf16 sigmoid junk T order dev M K I O x gate up down :
  ffn_ok bf16 dev M K I O x gate up down → T ∈ ffn_configs → order ≡ₚ tile_grid M I T →
  fused_ffn bf16 sigmoid junk T order x gate up down = Ok (map (map Some) (one_pass_ffn bf16 sigmoid x gate up down)) ∧
  ((∀ v, bf16 v = v) → one_pass_ffn bf16 sigmoid x gate up down = reference_ffn bf16 sigmoid x gate up down).
Proof.
  intros OK HT Ho. assert (0 < BM T ∧ 0 < BN T ∧ 0 < BK T) as (H1 & H2 & H3).
  { repeat (apply elem_of_cons in HT as [->|HT]; [cbn; lia|]). by apply elem_of_nil in HT. }
  split.
  - unfold fused_ffn. rewrite (check_ffn_ok _ _ _ _ _ _ _ _ _ _ OK). f_equal. unfold matmul_t, one_pass_ffn. cbv zeta.
    destruct (fo_x _ _ _ _ _ _ _ _ _ _ OK) as (Hx & _), (fo_gate _ _ _ _ _ _ _ _ _ _ OK) as (Hg & _).
    assert (size x 0 = M ∧ size x 1 = K ∧ size gate 0 = I) as (-> & -> & ->) by (unfold size; rewrite Hx, Hg; done).
    rewrite map_map. apply map_ext_in. intros m Hm%in_seq. rewrite map_map. apply map_ext_in. intros o _.
    rewrite (proj2 (mapM_Some _ _ (map (λ n, bf16 (ffn_entry bf16 sigmoid (ffn_args junk x gate up) T m n) * at2 down I o n)%Qc (seq 0 I)))).
    + cbn [mbind option_bind]. do 2 f_equal. fold (sum_range I (λ n, bf16 (ffn_entry bf16 sigmoid (ffn_args junk x gate up) T m n) * at2 down I o n)%Qc).
      apply sum_range_ext. intros n Hn. by rewrite (ffn_entry_exact bf16 sigmoid junk dev M K I O x gate up down OK T m n) by (done || lia).
    + rewrite Forall2_fmap_r. apply Forall_Forall2_diag, Forall_forall. intros n Hn%elem_of_seq. unfold compose.
      by rewrite (intermediate_exact bf16 sigmoid junk dev M K I O x gate up down OK T order m n) by (done || lia).
  - intros Hid. unfold one_pass_ffn, reference_ffn. cbv zeta. apply map_ext. intros m. apply map_ext. intros o. f_equal.
    apply sum_range_ext. intros n _. by rewrite !Hid.
Qed.

(** ** The projection kernel is correct *)
Record qkv_ok (dev M K q_heads kv_heads hd : nat) (hidden weight : dtensor Qc) : Prop := {
  qo_hidden : ∃ prefix, t_dims hidden = prefix ++ [K] ∧ prefix ≠ [] ∧ product prefix = M;
  qo_hidden_data : length (t_data hidden) = M * K;
  qo_inner : 0 < K;
  qo_weight : t_dims weight = [K; q_heads * hd + 2 * (kv_heads * hd)];
  qo_weight_data : length (t_data weight) = K * (q_heads * hd + 2 * (kv_heads * hd));
  qo_types : t_elem hidden = t_elem weight ∧ (t_elem hidden = F16 ∨ t_elem hidden = BF16);
  qo_device : t_device hidden = Some dev ∧ t_device weight = Some dev }.

Section qkv_correct.
Context (bf16 f16 : Qc → Qc) (junk : Z → Qc) (dev M K q_heads kv_heads hd : nat) (hidden weight : dtensor Qc).
Hypothesis OK : qkv_ok dev M K q_heads kv_heads hd hidden weight.
Abbreviation q_dim := (q_heads * hd).
Abbreviation kv_dim := (kv_heads * hd).
Abbreviation total := (q_dim + 2 * kv_dim).
Abbreviation L := (qkv_args junk hidden weight M q_dim kv_dim).

Lemma qkv_last : last_dim hidden = K.
Proof. destruct (qo_hidden _ _ _ _ _ _ _ _ OK) as (p & Hp & _). unfold last_dim. by rewrite Hp, last_snoc. Qed.
Lemma qkv_entry_exact T m n : 0 < BK T → m < M → n < total → qkv_entry bf16 f16 L T m n = project bf16 f16 hidden weight total m n.
Proof.
  intros HT Hm Hn. unfold qkv_entry, project. cbn [OUTPUT_IS_BF16 qkv_K qkv_args]. rewrite qkv_last.
  unfold qkv_tile_step. rewrite (tiled_sum (BK T) K (λ k, at2 hidden K m k * at2 weight total k n)%Qc); [done|done|].
  intros kb. apply sum_range_ext. intros t _. cbv zeta.
  cbn [hidden_ptr weight_ptr qkv_M qkv_N qkv_K stride_hidden_m stride_hidden_k stride_weight_k stride_weight_n qkv_args].
  unfold stride. rewrite (qo_weight _ _ _ _ _ _ _ _ OK), qkv_last. cbn [drop product foldr].
  rewrite (proj2 (Nat.ltb_lt m M)), (proj2 (Nat.ltb_lt n total)), !Nat.mul_1_r, andb_true_r by done. cbn [andb].
  destruct (Nat.ltb_spec (kb * BK T + t) K) as [Hk|Hk]; [|unfold load_q, load_at; ring].
  rewrite (load_inside _ hidden K M), (load_inside _ weight total K) by (done || apply OK). done.
Qed.

(** The stores of one entry: the tensor and the column it belongs to *)
Definition target (n : nat) : output * nat :=
  if n <? q_dim then (out_q, n) else if n <? q_dim + kv_dim then (out_k, n - q_dim) else (out_v, n - q_dim - kv_dim).
Definition width (o : output) : nat := match o with out_q => q_dim | _ => kv_dim end.
Definition first_column (o : output) : nat := match o with out_q => 0 | out_k => q_dim | out_v => q_dim + kv_dim end.

Lemma elem_of_qkv_stores T m n w : w ∈ qkv_stores bf16 f16 L T m n ↔
  m < M ∧ ∃ o c, c < width o ∧ n = first_column o + c ∧ w = ((o, m * width o + c), qkv_entry bf16 f16 L T m n).
Proof.
  unfold qkv_stores. cbn [qkv_M qkv_N Q_DIM KV_DIM stride_q_m stride_q_n stride_k_m stride_k_n stride_v_m stride_v_n qkv_args].
  generalize (qkv_entry bf16 f16 L T m n) as v. intros v. rewrite !elem_of_app, !Nat.mul_1_r.
  destruct (Nat.ltb_spec m M) as [Hm|Hm]; cbn [andb].
  2: { rewrite !elem_of_nil. split; [intros [[]|[[]|[]]]|lia]. }
  destruct (Nat.ltb_spec n q_dim), (Nat.leb_spec q_dim n), (Nat.ltb_spec n (q_dim + kv_dim)),
    (Nat.leb_spec (q_dim + kv_dim) n), (Nat.ltb_spec n total); try lia; cbn [andb];
    rewrite ?list_elem_of_singleton, ?elem_of_nil; split.
  all: try (intros [Hw|[Hw|Hw]]; try done; subst w; (split; [done|]);
            first [exists out_q, n; split_and!; cbn; (done || lia)
                  |exists out_k, (n - q_dim); split_and!; cbn; (done || lia)
                  |exists out_v, (n - q_dim - kv_dim); split_and!; cbn; (done || lia)]).
  all: intros (_ & o & c & Hc & -> & ->); destruct o; cbn in *; try lia; rewrite ?Nat.add_0_r in *.
  all: (left + (right; left) + (right; right)); f_equal; f_equal; lia.
Qed.

(** Each entry of the three outputs is stored, with its own value. *)
Lemma qkv_lookup T order o m c :
  0 < BM T → 0 < BN T → 0 < BK T → order ≡ₚ tile_grid M total T → m < M → c < width o →
  run_programs order (tile_program T (qkv_stores bf16 f16 L T)) !! (o, m * width o + c) =
  Some (project bf16 f16 hidden weight total m (first_column o + c)).
Proof.
  intros H1 H2 H3 Ho Hm Hc. assert (first_column o + c < total) as Hlt by (destruct o; cbn in *; lia).
  rewrite <- (qkv_entry_exact T) by done. unfold run_programs. apply stores_lookup.
  - intros v (m' & n' & _ & _ & (Hm' & o' & c' & Hc' & -> & [= <- Ha ->])%elem_of_qkv_stores)%(elem_of_tiles M total); [|done..].
    by destruct (address_inj _ _ _ _ _ Hc Hc' Ha) as [<- <-].
  - left. apply (elem_of_tiles M total); [done..|]. exists m, (first_column o + c). rewrite elem_of_qkv_stores.
    pose proof (cdiv_mult_ge M (BM T) H1). pose proof (cdiv_mult_ge total (BN T) H2). split_and!; [lia..|done|]. by exists o, c.
Qed.
Lemma read_heads_exact T order o heads :
  0 < BM T → 0 < BN T → 0 < BK T → order ≡ₚ tile_grid M total T → width o = heads * hd →
  read_heads (run_programs order (tile_program T (qkv_stores bf16 f16 L T))) o M heads hd =
  heads_of (project bf16 f16 hidden weight total) (first_column o) M heads hd.
Proof.
  intros H1 H2 H3 Ho Hw. unfold read_heads, heads_of.
  apply map_ext_in. intros m Hm%in_seq. apply map_ext_in. intros h Hh%in_seq. apply map_ext_in. intros d Hd%in_seq.
  rewrite <- Hw. apply qkv_lookup; [done..|lia|]. rewrite Hw. nia.
Qed.
End qkv_correct.

(** The fused projection returns queries, keys and values: with the weights side by side,
    head [h] of the queries of row [m] holds the columns [h * head_dim ...] of
    [hidden_states @ weight_qkv], the keys the columns behind the queries and the values
    those behind the keys, in the shape of the input with the last dimension split into
    heads.  The three masks neither overlap nor leave a column out. *)
Theorem fused_qkv_exact bf16 f16 junk T order dev M K q_heads kv_heads hd hidden weight :
  qkv_ok dev M K q_heads kv_heads hd hidden weight → T ∈ qkv_configs →
  let total := q_heads * hd + 2 * (kv_heads * hd) in
  order M total ≡ₚ tile_grid M total T →
  let column := project bf16 f16 hidden weight total in
  fused_qkv_proj bf16 f16 junk T order hidden weight q_heads kv_heads hd =
  Ok (removelast (t_dims hidden),
      (heads_of column 0 M q_heads hd, heads_of column (q_heads * hd) M kv_heads hd,
       heads_of column (q_heads * hd + kv_heads * hd) M kv_heads hd)).
Proof.
  intros OK HT total Ho column. assert (0 < BM T ∧ 0 < BN T ∧ 0 < BK T) as (H1 & H2 & H3).
  { repeat (apply elem_of_cons in HT as [->|HT]; [cbn; lia|]). by apply elem_of_nil in HT. }
  destruct (qo_hidden _ _ _ _ _ _ _ _ OK) as (p & Hp & Hne & HM), (qo_types _ _ _ _ _ _ _ _ OK) as [He Hty], (qo_device _ _ _ _ _ _ _ _ OK) as [Hd1 Hd2].
  pose proof (qo_inner _ _ _ _ _ _ _ _ OK) as HK. pose proof (qkv_last dev M K q_heads kv_heads hd hidden weight OK) as Hl.
  unfold fused_qkv_proj, ndim. rewrite (qo_weight _ _ _ _ _ _ _ _ OK), Hp, length_app. cbn [length].
  rewrite (proj2 (Nat.ltb_ge _ 2)) by (destruct p; [done|cbn; lia]).
  unfold float_type. rewrite <- He, !(bool_decide_true (t_elem hidden = F16 ∨ t_elem hidden = BF16)), bool_decide_true by done.
  unfold is_cuda, reshape_2d. rewrite Hd1, Hd2, Hl, (proj2 (Nat.eqb_neq K 0)) by lia. cbn [negb orb mbind res_mbind Nat.eqb].
  rewrite Hp, removelast_last, HM. unfold size. rewrite (qo_weight _ _ _ _ _ _ _ _ OK). cbn [nth]. rewrite !Nat.eqb_refl. cbn [negb].
  rewrite (read_heads_exact bf16 f16 junk dev M K q_heads kv_heads hd hidden weight OK T _ out_q q_heads) by done.
  rewrite (read_heads_exact bf16 f16 junk dev M K q_heads kv_heads hd hidden weight OK T _ out_k kv_heads) by done.
  rewrite (read_heads_exact bf16 f16 junk dev M K q_heads kv_heads hd hidden weight OK T _ out_v kv_heads) by done.
  done.
Qed.

Definition demo_ffn_x : dtensor Qc := DTensor [1; 2] (Some 0) BF16 [Q2Qc 1; Q2Qc 2].
Definition demo_ffn_gate : dtensor Qc := DTensor [2; 2] (Some 0) BF16 [Q2Qc 1; Q2Qc 0; Q2Qc 1; Q2Qc 1].
Definition demo_ffn_down : dtensor Qc := DTensor [1; 2] (Some 0) BF16 [Q2Qc 1; Q2Qc 3].
Definition half : Qc → Qc := λ _, Q2Qc (1 # 2).

Example demo_ffn :
  match fused_ffn id half (λ _, Q2Qc 9) (Tile3 32 64 32) (tile_grid 1 2 (Tile3 32 64 32)) demo_ffn_x demo_ffn_gate demo_ffn_gate demo_ffn_down with
  | Ok out => map (map (option_map this)) out | Err _ => [] end = [[Some (14 # 1)]]%Q.
Proof. vm_compute. reflexivity. Qed.

Lemma fused_ffn_exact_witness :
  fused_ffn id half (λ _, Q2Qc 9) (Tile3 32 64 32) (tile_grid 1 2 (Tile3 32 64 32)) demo_ffn_x demo_ffn_gate demo_ffn_gate demo_ffn_down
    = Ok (map (map Some) (one_pass_ffn id half demo_ffn_x demo_ffn_gate demo_ffn_gate demo_ffn_down)) ∧
  ((∀ v : Qc, id v = v) →
   one_pass_ffn id half demo_ffn_x demo_ffn_gate demo_ffn_gate demo_ffn_down
     = reference_ffn id half demo_ffn_x demo_ffn_gate demo_ffn_gate demo_ffn_down).
Proof.
  apply (fused_ffn_exact id half (λ _, Q2Qc 9) (Tile3 32 64 32) (tile_grid 1 2 (Tile3 32 64 32)) 0 1 2 2 1).
  - constructor; [..|reflexivity]; repeat split; repeat constructor.
  - left.
  - done.
Defined.

(** One row of two hidden numbers, one query head and one key head of one dimension *)
Definition demo_qkv_weight : dtensor Qc := DTensor [2; 3] (Some 0) BF16 (map (λ n, Q2Qc (inject_Z n)) [1; 2; 3; 4; 5; 6]%Z).
Example demo_qkv :
  match fused_qkv_proj id id (λ _, Q2Qc 9) (Tile3 32 64 32) (λ M N, tile_grid M N (Tile3 32 64 32)) demo_ffn_x demo_qkv_weight 1 1 1 with
  | Ok (shape, (q, k, v)) => (shape, map (map (map (option_map this))) (q ++ k ++ v))
  | Err _ => ([], [])
  end = ([1], [[[Some (9 # 1)%Q]]; [[Some (12 # 1)%Q]]; [[Some (15 # 1)%Q]]]).
Proof. vm_compute. reflexivity. Qed.

Lemma fused_qkv_exact_witness :
  fused_qkv_proj id id (λ _, Q2Qc 9) (Tile3 32 64 32) (λ M N, tile_grid M N (Tile3 32 64 32)) demo_ffn_x demo_qkv_weight 1 1 1 =
  Ok ([1], (heads_of (project id id demo_ffn_x demo_qkv_weight 3) 0 1 1 1, heads_of (project id id demo_ffn_x demo_qkv_weight 3) 1 1 1 1,
            heads_of (project id id demo_ffn_x demo_qkv_weight 3) 2 1 1 1)).
Proof.
  apply (fused_qkv_exact id id (λ _, Q2Qc 9) (Tile3 32 64 32) (λ M N, tile_grid M N (Tile3 32 64 32)) 0 1 2 1 1 1 demo_ffn_x demo_qkv_weight).
  - constructor; try (repeat split; try right; reflexivity). exists [1]. repeat split; done.
  - left.
  - done.
Defined.
