(* ===== verification/Marlin.v ===== *)
(** * INT4 weights in the Marlin layout (kernel/marlin_gemm.py)

    Quantisation of a weight matrix to four bits per entry, the permutations and the packing
    of eight entries per 32-bit word, and the reference dequantisation.  A matrix is a list
    of rows of [N] entries; tensors of other shapes are flat lists in row-major order.
    Numbers are exact rationals; rounding to float16 is an argument. *)
From Stdlib Require Import QArith Qcanon Qround Qabs Lqa.
From S2P Require Import Prelude Tensor.
Open Scope nat_scope.

(** ** Permutations *)
Definition PERM : list nat :=
  i ← seq 0 32;
  let col := i / 4 in
  let perm1 :=
    block ← [0; 1];
    row ← [2 * (i mod 4); 2 * (i mod 4) + 1; 2 * (i mod 4 + 4); 2 * (i mod 4 + 4) + 1];
    [16 * row + col + 8 * block] in
  j ← seq 0 4;
  map (λ p, p + 256 * j) perm1.
Definition SCALE_PERM : list nat := i ← seq 0 8; map (λ j, i + 8 * j) (seq 0 8).
Definition SCALE_PERM_SINGLE : list nat :=
  i ← seq 0 4;
  let two := map (λ j, 2 * i + j) (seq 0 2) in two ++ two ++ two ++ two.

(** ** Layouts *)
Section layout.
Context {A : Type} (d : A).

(** [l.reshape(-1, n)] for an [n] that divides the length *)
Definition chunks (n : nat) (l : list A) : list (list A) := map (λ c, take n (drop (c * n) l)) (seq 0 (length l / n)).
(** [l.reshape(-1, perm.numel())[:, perm]], flattened *)
Definition permute_chunks (perm : list nat) (l : list A) : list A :=
  ch ← chunks (length perm) l; map (λ p, nth p ch d) perm.
Definition entry_at (rows : list (list A)) (i j : nat) : A := default d (rows !! i ≫= lookup j).
(** [reshape(K // 16, 16, N // 16, 16).permute(0, 2, 1, 3)], flattened *)
Definition to_tiles (K N : nat) (weight : list (list A)) : list A :=
  map (λ p, let r := p / (16 * N) in
            let c := p mod (16 * N) / 256 in
            let i := p mod 256 / 16 in
            let j := p mod 16 in
            entry_at weight (r * 16 + i) (c * 16 + j))
      (seq 0 (K * N)).
(** The way back *)
Definition from_tiles (K N : nat) (l : list A) : list (list A) :=
  map (λ k, map (λ n, nth (k / 16 * (16 * N) + n / 16 * 256 + (k mod 16) * 16 + n mod 16) l d) (seq 0 N)) (seq 0 K).
End layout.

(** ** Packing *)
(** The value of the lower 32 bits as a signed integer *)
Definition int32 (z : Z) : Z := ((z + 2 ^ 31) mod 2 ^ 32 - 2 ^ 31)%Z.
(** [packed |= (w[:, shift::8] & 0xF) << (4 * shift)] for eight consecutive entries *)
Definition pack_word (w : list Z) : Z :=
  foldl (λ packed shift, Z.lor packed (int32 (Z.shiftl (Z.land (nth shift w 0%Z) 15) (4 * Z.of_nat shift)))) 0%Z (seq 0 8).
Definition pack_row (w : list Z) : list Z := map pack_word (chunks 8 w).

Section marlin.
Context (f16 : Qc → Qc).

Definition check_marlin (groupsize : Z) (K N : nat) : option exn :=
  if negb (bool_decide (groupsize = -1 ∨ groupsize = 128)%Z) then Some AssertionError
  else if negb (K mod 128 =? 0) then Some AssertionError
  else if negb (N mod 256 =? 0) then Some AssertionError
  else None.

(** [scales] is the tensor of scales, flat; an entry count that the permutation does not
    divide cannot be reshaped. *)
Definition pack_marlin_weight (K N : nat) (weight : list (list Z)) (scales : list Qc) (groupsize : Z)
    : res (list (list Z) * list (list Qc)) :=
  match check_marlin groupsize K N with
  | Some e => Err e
  | None =>
      let w := permute_chunks 0%Z PERM (to_tiles 0%Z K N weight) in
      let packed := map pack_row (chunks (N * 16) w) in
      let s_perm := if (groupsize =? -1)%Z then SCALE_PERM_SINGLE else SCALE_PERM in
      if negb (length scales mod length s_perm =? 0) then Err RuntimeError
      else
        let s := permute_chunks 0%Qc s_perm scales in
        if (N =? 0) || negb (length s mod N =? 0) then Err RuntimeError else Ok (packed, chunks N s)
  end.

(** [torch.round]: to the nearest integer, half to even *)
Definition round_half_even (x : Qc) : Z :=
  let f := Qfloor (this x) in
  let d := (x - Q2Qc (inject_Z f))%Qc in
  match (d ?= Q2Qc (1 # 2))%Qc with
  | Lt => f
  | Gt => (f + 1)%Z
  | Eq => if Z.even f then f else (f + 1)%Z
  end.
Definition abs (x : Qc) : Qc := Q2Qc (Qabs (this x)).
Definition qmax (a b : Qc) : Qc := if Qle_bool (this a) (this b) then b else a.
(** [amax] of absolute values, which are not negative *)
Definition amax (l : list Qc) : Qc := foldl (λ m x, qmax m (abs x)) 0%Qc l.
Definition scale_of (column : list Qc) : Qc := qmax (amax column / Q2Qc (15 # 2))%Qc (Q2Qc (1 # 10000000000)).
(** [round(w / scale).int() + 8], clamped to four bits *)
Definition quantize_entry (scale w : Qc) : Z := Z.min (Z.max (round_half_even (w / scale)%Qc + 8) 0) 15.

(** The scale of every group and column; one group for [-1] *)
Definition group_rows (K : nat) (groupsize : Z) : nat := if (groupsize =? -1)%Z then K else 128.
Definition group_scale (K : nat) (weight : list (list Qc)) (groupsize : Z) (g n : nat) : Qc :=
  let rows := group_rows K groupsize in
  scale_of (map (λ i, entry_at 0%Qc weight (g * rows + i) n) (seq 0 rows)).
Definition quantize_codes (K N : nat) (weight : list (list Qc)) (groupsize : Z) : list (list Z) :=
  let rows := group_rows K groupsize in
  map (λ k, map (λ n, quantize_entry (group_scale K weight groupsize (k / rows) n) (entry_at 0%Qc weight k n)) (seq 0 N)) (seq 0 K).

Definition marlin_quantize (K N : nat) (weight : list (list Qc)) (groupsize : Z) : res (list (list Z) * list (list Qc)) :=
  match check_marlin groupsize K N with
  | Some e => Err e
  | None =>
      let groups := K / group_rows K groupsize in
      if (K =? 0) then Err IndexError   (** [amax] over no rows *)
      else
        let scales := g ← seq 0 groups; map (λ n, f16 (group_scale K weight groupsize g n)) (seq 0 N) in
        pack_marlin_weight K N (quantize_codes K N weight groupsize) scales groupsize
  end.

(** ** The reference dequantisation *)
(** Assigning a tensor of shape [src] to a slice of shape [dst] *)
Definition broadcasts (src dst : list nat) : bool :=
  (length src <=? length dst) &&
  forallb (λ p, (p.1 =? p.2) || (p.1 =? 1)) (zip (rev src) (rev dst)).
(** The number of rows that [w[shift::8]] has *)
Definition strided_rows (K shift : nat) : nat := cdiv (K - shift) 8.
(** [w_int[shift::8, :] = (packed_weight >> (4 * shift)) & 0xF], all shifts: the codes row
    by row, or the error of an assignment whose shapes do not fit.  [packed] has [cols] columns. *)
Definition unpack_rows (K N cols : nat) (packed : list (list Z)) : res (list (list Z)) :=
  if forallb (λ shift, broadcasts [length packed; cols] [strided_rows K shift; N]) (seq 0 8)
  then Ok (map (λ k, map (λ n, Z.land (Z.shiftr (entry_at 0%Z packed (if length packed =? 1 then 0 else k / 8) (if cols =? 1 then 0 else n)) (4 * Z.of_nat (k mod 8))) 15)
                         (seq 0 N)) (seq 0 K))
  else Err RuntimeError.
Definition argsort (perm : list nat) : list nat := map (λ x, default 0 (fst <$> list_find (eq x) perm)) (seq 0 (length perm)).

Definition reference_dequant_gemm (input : list (list Qc)) (packed_weight : list (list Z)) (cols : nat) (scales : list (list Qc))
    (K N : nat) (groupsize : Z) : res (list (list Qc)) :=
  w_int ← unpack_rows K N cols packed_weight;
  if negb ((K * N) mod length PERM =? 0) then Err RuntimeError
  else
    let w_int := chunks N (permute_chunks 0%Z (argsort PERM) (concat w_int)) in
    let rows := if (groupsize =? -1)%Z then K else Z.to_nat groupsize in
    let w_fp k n := (Q2Qc (inject_Z (entry_at 0%Z w_int k n - 8)) * entry_at 0%Qc scales (k / rows) n)%Qc in
    Ok (map (λ x, map (λ n, sum_range K (λ k, default 0 (x !! k) * w_fp k n)%Qc) (seq 0 N)) input).

Definition prepare_workspace (prob_n : nat) : list Z := replicate (prob_n / 128 * 16) 0%Z.
(** The native product is a parameter; without the extension module the call is refused. *)
Definition marlin_gemm (mul : list (list Qc) → list (list Z) → list (list Qc) → list Z → list (list Qc)) (available : bool)
    (input : list (list Qc)) (packed_weight : list (list Z)) (scales : list (list Qc)) (workspace : list Z) : res (list (list Qc)) :=
  if negb available then Err RuntimeError else Ok (mul (map (map f16) input) packed_weight scales workspace).
End marlin.

(** ** The inverse of packing *)
Definition unpack_word (word : Z) : list Z := map (λ shift, Z.land (Z.shiftr word (4 * Z.of_nat shift)) 15) (seq 0 8).
Definition unpack_marlin_weight (K N : nat) (packed : list (list Z)) : list (list Z) :=
  from_tiles 0%Z K N (permute_chunks 0%Z (argsort PERM) (concat (map (λ row, row ≫= unpack_word) packed))).

(** ** Packing loses nothing *)
Lemma int32_bits z b : (0 ≤ b < 32)%Z → Z.testbit (int32 z) b = Z.testbit z b.
Proof.
  intros Hb. unfold int32. rewrite <- (Z.mod_pow2_bits_low _ 32 b), <- (Z.mod_pow2_bits_low z 32 b) by lia. f_equal.
  rewrite Zminus_mod_idemp_l. f_equal. lia.
Qed.
Lemma nibble_bits v i b : (0 ≤ v < 16)%Z → (0 ≤ b < 32)%Z →
  Z.testbit (int32 (Z.shiftl (Z.land v 15) (4 * Z.of_nat i))) b =
  (4 * Z.of_nat i <=? b)%Z && (b <? 4 * Z.of_nat i + 4)%Z && Z.testbit v (b - 4 * Z.of_nat i).
Proof.
  intros Hv Hb. rewrite int32_bits by done. change 15%Z with (Z.ones 4). rewrite Z.land_ones, Z.mod_small by (cbn; lia).
  destruct (Z.leb_spec (4 * Z.of_nat i) b); cbn [andb]; [|by rewrite Z.shiftl_spec_low by lia].
  rewrite Z.shiftl_spec by lia. destruct (Z.ltb_spec b (4 * Z.of_nat i + 4)); cbn [andb]; [done|].
  destruct (decide (v = 0)%Z) as [->|]; [apply Z.bits_0|]. apply Z.bits_above_log2; [lia|].
  apply Z.log2_lt_pow2; [lia|]. apply Z.lt_le_trans with (2 ^ 4)%Z; [cbn; lia|]. apply Z.pow_le_mono_r; lia.
Qed.
Lemma pack_word_bits w n b : Forall (λ v, 0 ≤ v < 16)%Z w → (0 ≤ b < 32)%Z →
  Z.testbit (foldl (λ packed shift, Z.lor packed (int32 (Z.shiftl (Z.land (nth shift w 0%Z) 15) (4 * Z.of_nat shift)))) 0%Z (seq 0 n)) b =
  (b <? 4 * Z.of_nat n)%Z && Z.testbit (nth (Z.to_nat (b / 4)) w 0%Z) (b mod 4).
Proof.
  intros Hw Hb. assert (∀ i, 0 ≤ nth i w 0 < 16)%Z as Hn.
  { intros i. destruct (nth_in_or_default i w 0%Z) as [Hin| ->]; [|lia]. rewrite Forall_forall in Hw. by apply Hw, list_elem_of_In. }
  pose proof (Z.div_mod b 4). pose proof (Z.mod_pos_bound b 4).
  induction n as [|n IH]; [cbn [seq foldl]; rewrite Z.bits_0, (proj2 (Z.ltb_ge b _)) by lia; done|].
  rewrite seq_S, foldl_app. cbn [foldl Nat.add]. rewrite Z.lor_spec, IH, nibble_bits by done.
  destruct (Z.ltb_spec b (4 * Z.of_nat n)), (Z.leb_spec (4 * Z.of_nat n) b), (Z.ltb_spec b (4 * Z.of_nat n + 4)), (Z.ltb_spec b (4 * Z.of_nat (S n)));
    try lia; cbn [andb orb]; rewrite ?orb_false_r; try done.
  assert (b / 4 = Z.of_nat n)%Z as -> by lia. rewrite Nat2Z.id. f_equal. lia.
Qed.
Lemma unpack_pack_word w : length w = 8 → Forall (λ v, 0 ≤ v < 16)%Z w → unpack_word (pack_word w) = w.
Proof.
  intros Hl Hw. apply list_eq. intros s. unfold unpack_word. rewrite list_lookup_fmap.
  destruct (decide (s < 8)) as [Hs|Hs]; [|rewrite lookup_seq_ge, lookup_ge_None_2 by lia; done].
  rewrite lookup_seq_lt by done. cbn [fmap option_fmap option_map Nat.add]. destruct (lookup_lt_is_Some_2 w s) as [v Hv]; [lia|]. rewrite Hv. f_equal.
  pose proof (Forall_lookup_1 _ _ _ _ Hw Hv) as Hr. cbn in Hr. apply Z.bits_inj'. intros t Ht.
  rewrite Z.land_spec, Z.shiftr_spec by lia. change 15%Z with (Z.ones 4). rewrite Z.testbit_ones_nonneg by lia.
  destruct (Z.ltb_spec t 4).
  - rewrite andb_true_r. unfold pack_word. rewrite pack_word_bits by (done || lia).
    rewrite (proj2 (Z.ltb_lt _ _)) by lia. cbn [andb].
    assert ((t + 4 * Z.of_nat s) / 4 = Z.of_nat s)%Z as -> by (rewrite (Z.mul_comm 4), Z.div_add, Z.div_small; lia).
    assert ((t + 4 * Z.of_nat s) mod 4 = t)%Z as -> by (rewrite (Z.mul_comm 4), Z.mod_add, Z.mod_small; lia).
    rewrite Nat2Z.id. f_equal. by apply nth_lookup_Some.
  - rewrite andb_false_r. destruct (decide (v = 0)%Z) as [->|]; [by rewrite Z.bits_0|]. symmetry. apply Z.bits_above_log2; [lia|].
    apply Z.log2_lt_pow2; [lia|]. apply Z.lt_le_trans with (2 ^ 4)%Z; [cbn; lia|]. apply Z.pow_le_mono_r; lia.
Qed.

(** *** Chunks *)
Section chunks.
Context {A : Type}.
Lemma chunks_app n (x l : list A) : 0 < n → length x = n → chunks n (x ++ l) = x :: chunks n l.
Proof.
  intros Hn Hx. unfold chunks. rewrite length_app, Hx. replace (n + length l) with (1 * n + length l) by lia.
  rewrite Nat.div_add_l by lia. cbn [Nat.add seq map]. f_equal; [by rewrite drop_0, take_app_length'|].
  rewrite <- seq_shift, map_map. apply map_ext. intros c. f_equal. cbn [Nat.mul]. rewrite <- Hx at 1.
  rewrite drop_app_add. done.
Qed.
(** Every list whose length [n] divides is made of chunks. *)
Lemma chunks_ind n (P : list A → Prop) :
  0 < n → P [] → (∀ x l, length x = n → length l mod n = 0 → P l → P (x ++ l)) → ∀ l, length l mod n = 0 → P l.
Proof.
  intros Hn H0 Hs l Hl. remember (length l) as len eqn:Hlen. revert l Hlen Hl. induction (lt_wf len) as [len _ IH]. intros l -> Hl.
  destruct (decide (length l < n)) as [Hlt|Hge].
  - rewrite Nat.mod_small in Hl by done. by apply nil_length_inv in Hl as ->.
  - rewrite <- (take_drop n l). assert (length (drop n l) mod n = 0) as Hd.
    { rewrite length_drop. replace (length l) with (length l - n + 1 * n) in Hl by lia. by rewrite Nat.Div0.mod_add in Hl. }
    apply Hs; [rewrite length_take; lia|done|]. eapply IH; [|done|done]. rewrite length_drop. lia.
Qed.
Lemma chunks_nil n : chunks n ([] : list A) = [].
Proof. unfold chunks. cbn [length]. by rewrite Nat.Div0.div_0_l. Qed.
Lemma concat_chunks_id n (l : list A) : 0 < n → length l mod n = 0 → concat (chunks n l) = l.
Proof.
  intros Hn. revert l. apply chunks_ind; [done|by rewrite chunks_nil|]. intros x l Hx _ IH. by rewrite chunks_app, concat_cons, IH.
Qed.
Lemma chunks_rectangular n (l : list A) : 0 < n → length l mod n = 0 → rectangular n (chunks n l).
Proof.
  intros Hn. revert l. apply chunks_ind; [done|rewrite chunks_nil; constructor|]. intros x l Hx _ IH. rewrite chunks_app by done. by constructor.
Qed.

Lemma permute_chunks_app (d : A) perm x l :
  0 < length perm → length x = length perm → permute_chunks d perm (x ++ l) = map (λ p, nth p x d) perm ++ permute_chunks d perm l.
Proof. intros Hp Hx. unfold permute_chunks. by rewrite chunks_app. Qed.
Lemma length_permute_chunks (d : A) perm l :
  0 < length perm → length l mod length perm = 0 → length (permute_chunks d perm l) = length l.
Proof.
  intros Hp. revert l. apply chunks_ind; [done|unfold permute_chunks; by rewrite chunks_nil|].
  intros x l Hx _ IH. rewrite permute_chunks_app, !length_app, length_map, IH by done. lia.
Qed.
(** Permuting with a permutation and with its inverse *)
Definition inverse_of (perm inv : list nat) : Prop :=
  length inv = length perm ∧ ∀ x, x < length perm → (inv !! x ≫= λ y, perm !! y) = Some x.
Lemma permute_one_inverse (d : A) perm inv x :
  inverse_of perm inv → length x = length perm → map (λ p, nth p (map (λ p, nth p x d) perm) d) inv = x.
Proof.
  intros [Hl Hi] Hx. apply list_eq. intros a. rewrite list_lookup_fmap. destruct (decide (a < length perm)) as [Ha|Ha].
  - specialize (Hi a Ha). destruct (inv !! a) as [y|]; [|done]. cbn [mbind option_bind fmap option_fmap option_map] in *.
    destruct (lookup_lt_is_Some_2 x a) as [v Hv]; [lia|]. rewrite Hv. f_equal. apply nth_lookup_Some.
    rewrite list_lookup_fmap, Hi. cbn. f_equal. by apply nth_lookup_Some.
  - rewrite !lookup_ge_None_2 by lia. done.
Qed.
Lemma permute_chunks_inverse (d : A) perm inv l :
  0 < length perm → inverse_of perm inv → length l mod length perm = 0 → permute_chunks d inv (permute_chunks d perm l) = l.
Proof.
  intros Hp Hi. revert l. apply chunks_ind; [done|unfold permute_chunks; by rewrite !chunks_nil|]. intros x l Hx Hl IH.
  rewrite permute_chunks_app by done. rewrite permute_chunks_app by (rewrite ?length_map; destruct Hi; lia).
  by rewrite permute_one_inverse, IH.
Qed.
End chunks.

(** [_PERM] is a permutation of 1024 positions and [argsort] its inverse; likewise the
    scale permutation of 64. *)
Lemma argsort_inverse perm : (∀ x, x < length perm → x ∈ perm) → inverse_of perm (argsort perm).
Proof.
  intros Hin. unfold argsort. split; [by rewrite length_map, length_seq|]. intros x Hx.
  rewrite list_lookup_fmap, lookup_seq_lt by done. cbn [fmap option_fmap option_map Nat.add mbind option_bind].
  destruct (list_find_elem_of (eq x) perm x) as [[y z] Hy]; [by apply Hin|done|]. rewrite Hy. cbn.
  by apply list_find_Some in Hy as (Hy & <- & _).
Qed.
Lemma covers perm : (set_seq 0 (length perm) : gset nat) ⊆ list_to_set perm → ∀ x, x < length perm → x ∈ perm.
Proof. intros Hs x Hx. apply (elem_of_list_to_set (C:=gset nat)), Hs, elem_of_set_seq. lia. Qed.
Lemma perm_inverse : inverse_of PERM (argsort PERM).
Proof. apply argsort_inverse, covers. apply (bool_decide_unpack _). by vm_compute. Qed.
Lemma scale_perm_inverse : inverse_of SCALE_PERM (argsort SCALE_PERM).
Proof. apply argsort_inverse, covers. apply (bool_decide_unpack _). by vm_compute. Qed.

(** *** Tiles *)
Lemma tile_position N k n : n < N → N mod 16 = 0 →
  let p := k / 16 * (16 * N) + n / 16 * 256 + (k mod 16) * 16 + n mod 16 in
  p / (16 * N) = k / 16 ∧ p mod (16 * N) / 256 = n / 16 ∧ p mod 256 / 16 = k mod 16 ∧ p mod 16 = n mod 16.
Proof.
  intros Hn HN p. pose proof (Nat.div_mod_eq N 16). pose proof (Nat.div_mod_eq n 16). pose proof (Nat.mod_upper_bound n 16 ltac:(lia)). pose proof (Nat.mod_upper_bound k 16 ltac:(lia)).
  assert (n / 16 < N / 16) as Hc by (apply Nat.Div0.div_lt_upper_bound; lia).
  set (q := n / 16 * 256 + (k mod 16) * 16 + n mod 16). assert (p = k / 16 * (16 * N) + q) as Hp by (unfold p, q; lia).
  assert (N * 16 = N / 16 * 256) as HN' by lia.
  assert (q < 16 * N) as Hq by (unfold q; lia).
  split_and!.
  - rewrite Hp, Nat.div_add_l, (Nat.div_small q) by lia. lia.
  - rewrite Hp, Nat.add_comm, Nat.Div0.mod_add, Nat.mod_small by done. unfold q.
    rewrite <- Nat.add_assoc, Nat.div_add_l, (Nat.div_small (_ + _)) by lia. lia.
  - replace p with ((k mod 16) * 16 + n mod 16 + (k / 16 * (N / 16) + n / 16) * 256) by (unfold p; nia).
    rewrite Nat.Div0.mod_add, (Nat.mod_small (_ + _)) by lia. rewrite Nat.div_add_l, (Nat.div_small (n mod 16)) by lia. lia.
  - replace p with (n mod 16 + (k / 16 * N + n / 16 * 16 + k mod 16) * 16) by (unfold p; nia).
    rewrite Nat.Div0.mod_add, (Nat.mod_small (n mod 16)) by lia. done.
Qed.
Lemma from_to_tiles {A} (d : A) K N weight :
  rectangular N weight → length weight = K → K mod 16 = 0 → N mod 16 = 0 → from_tiles d K N (to_tiles d K N weight) = weight.
Proof.
  intros Hr HK HK16 HN16. unfold from_tiles. apply list_eq. intros k. rewrite list_lookup_fmap.
  destruct (decide (k < K)) as [Hk|Hk]; [|rewrite lookup_seq_ge, lookup_ge_None_2 by lia; done].
  rewrite lookup_seq_lt by done. cbn [fmap option_fmap option_map Nat.add]. destruct (lookup_lt_is_Some_2 weight k) as [row Hrow]; [lia|]. rewrite Hrow. f_equal.
  assert (length row = N) as Hlen by exact (Forall_lookup_1 _ _ _ _ Hr Hrow).
  apply list_eq. intros n. rewrite list_lookup_fmap.
  destruct (decide (n < N)) as [Hn|Hn]; [|rewrite lookup_seq_ge, lookup_ge_None_2 by lia; done].
  rewrite lookup_seq_lt by done. cbn [fmap option_fmap option_map Nat.add]. destruct (lookup_lt_is_Some_2 row n) as [v Hv]; [lia|]. rewrite Hv. f_equal.
  apply nth_lookup_Some. unfold to_tiles. rewrite list_lookup_fmap, lookup_seq_lt.
  - cbn [fmap option_fmap option_map Nat.add]. destruct (tile_position N k n Hn HN16) as (-> & -> & -> & ->). f_equal.
    rewrite !(Nat.mul_comm (_ / 16)), <- !Nat.div_mod_eq. unfold entry_at. rewrite Hrow. cbn. by rewrite Hv.
  - destruct (tile_position N k n Hn HN16) as (Hp & _). cbv zeta in Hp. revert Hp.
    generalize (k / 16 * (16 * N) + n / 16 * 256 + (k mod 16) * 16 + n mod 16) as p. intros p Hp.
    assert (p < (k / 16 + 1) * (16 * N)) as Hlt by (pose proof (Nat.div_mod_eq p (16 * N)); pose proof (Nat.mod_upper_bound p (16 * N)); nia).
    pose proof (Nat.div_mod_eq K 16). assert (k / 16 < K / 16) by (apply Nat.Div0.div_lt_upper_bound; lia). nia.
Qed.

(** *** Rows of words *)
Abbreviation is_code v := (0 ≤ v < 16)%Z.
Lemma unpack_pack_row row : length row mod 8 = 0 → Forall (λ v, is_code v) row → pack_row row ≫= unpack_word = row.
Proof.
  revert row. apply (chunks_ind 8 (λ row, Forall (λ v, is_code v) row → pack_row row ≫= unpack_word = row)); [lia|done|].
  intros x l Hx _ IH [H1 H2]%Forall_app.
  unfold pack_row. rewrite chunks_app by (done || lia). cbn [map]. rewrite bind_cons. fold (pack_row l).
  by rewrite unpack_pack_word, IH.
Qed.
Lemma length_pack_row row n : length row = n * 8 → length (pack_row row) = n.
Proof. intros Hl. unfold pack_row, chunks. by rewrite !length_map, length_seq, Hl, Nat.div_mul by lia. Qed.
Lemma codes_nth l p : Forall (λ v, is_code v) l → is_code (nth p l 0%Z).
Proof.
  intros Hl. destruct (nth_in_or_default p l 0%Z) as [Hin| ->]; [|lia]. rewrite Forall_forall in Hl. by apply Hl, list_elem_of_In.
Qed.
Lemma codes_permuted perm l : 0 < length perm → length l mod length perm = 0 → Forall (λ v, is_code v) l →
  Forall (λ v, is_code v) (permute_chunks 0%Z perm l).
Proof.
  intros Hp. revert l. apply (chunks_ind (length perm) (λ l, Forall (λ v, is_code v) l → Forall (λ v, is_code v) (permute_chunks 0%Z perm l)));
    [done|intros _; unfold permute_chunks; rewrite chunks_nil; constructor|].
  intros x l Hx _ IH [H1 H2]%Forall_app. rewrite permute_chunks_app by done. apply Forall_app. split; [|by apply IH].
  apply Forall_map, Forall_true. intros p. by apply codes_nth.
Qed.
Lemma codes_tiles K N weight : Forall (Forall (λ v, is_code v)) weight → Forall (λ v, is_code v) (to_tiles 0%Z K N weight).
Proof.
  intros Hw. apply Forall_map, Forall_true. intros p. cbv zeta. unfold entry_at. destruct (weight !! _) as [row|] eqn:E; cbn; [|lia].
  destruct (row !! _) as [v|] eqn:E'; cbn; [|lia]. exact (Forall_lookup_1 _ _ _ _ (Forall_lookup_1 _ _ _ _ Hw E) E').
Qed.

Lemma check_marlin_sizes gs K N : check_marlin gs K N = None →
  (gs = -1 ∨ gs = 128)%Z ∧ (∃ a, K = a * 128) ∧ ∃ b, N = b * 256.
Proof.
  unfold check_marlin. destruct (bool_decide_reflect (gs = -1 ∨ gs = 128)%Z); [|done]. cbn [negb].
  destruct (Nat.eqb_spec (K mod 128) 0) as [HK|]; [|done]. cbn [negb]. destruct (Nat.eqb_spec (N mod 256) 0) as [HN|]; [|done].
  intros _. split_and!; [done|exists (K / 128)|exists (N / 256)]; [pose proof (Nat.div_mod_eq K 128)|pose proof (Nat.div_mod_eq N 256)]; lia.
Qed.
Lemma tile_lengths K N weight a b : K = a * 128 → N = b * 256 →
  length (to_tiles 0%Z K N weight) = K * N ∧ (K * N) mod length PERM = 0.
Proof.
  intros -> ->. unfold to_tiles. rewrite length_map, length_seq. split; [done|]. change (length PERM) with 1024.
  replace (a * 128 * (b * 256)) with (a * b * 32 * 1024) by lia. apply Nat.Div0.mod_mul.
Qed.
Lemma pack_ok_inv K N weight scales gs packed s :
  pack_marlin_weight K N weight scales gs = Ok (packed, s) →
  check_marlin gs K N = None ∧ N ≠ 0 ∧ packed = map pack_row (chunks (N * 16) (permute_chunks 0%Z PERM (to_tiles 0%Z K N weight))) ∧
  let s_perm := if (gs =? -1)%Z then SCALE_PERM_SINGLE else SCALE_PERM in
  length scales mod length s_perm = 0 ∧ length (permute_chunks 0%Qc s_perm scales) mod N = 0 ∧ s = chunks N (permute_chunks 0%Qc s_perm scales).
Proof.
  unfold pack_marlin_weight. destruct (check_marlin gs K N); [done|]. cbv zeta.
  destruct (Nat.eqb_spec (length scales mod length (if (gs =? -1)%Z then SCALE_PERM_SINGLE else SCALE_PERM)) 0) as [Hm|]; [|done]. cbn [negb].
  destruct (Nat.eqb_spec N 0) as [|HN]; [done|]. cbn [orb].
  destruct (Nat.eqb_spec (length (permute_chunks 0%Qc (if (gs =? -1)%Z then SCALE_PERM_SINGLE else SCALE_PERM) scales) mod N) 0) as [Hm'|]; [|done].
  cbn [negb]. intros [= <- <-]. done.
Qed.

Lemma pack_unpack K N weight scales groupsize packed s :
  length weight = K → rectangular N weight → Forall (Forall (λ v, 0 ≤ v < 16)%Z) weight →
  pack_marlin_weight K N weight scales groupsize = Ok (packed, s) →
  unpack_marlin_weight K N packed = weight ∧ length packed = K / 16 ∧ rectangular (N * 16 / 8) packed ∧
  (groupsize = 128%Z → permute_chunks 0%Qc (argsort SCALE_PERM) (concat s) = scales).
Proof.
  intros HK Hr Hc Hok. apply pack_ok_inv in Hok as (Hchk & HN0 & -> & Hs). apply check_marlin_sizes in Hchk as (Hgs & [a Ha] & [b Hb]).
  destruct (tile_lengths K N weight a b Ha Hb) as [Hlt Hm]. assert (0 < length PERM) as Hp by (change (length PERM) with 1024; lia).
  assert (length (permute_chunks 0%Z PERM (to_tiles 0%Z K N weight)) = K * N) as Hlw by (rewrite length_permute_chunks; rewrite ?Hlt; done).
  assert (K * N = a * 8 * (N * 16)) as HKN by lia.
  assert (length (permute_chunks 0%Z PERM (to_tiles 0%Z K N weight)) mod (N * 16) = 0) as Hmw by (rewrite Hlw, HKN; apply Nat.Div0.mod_mul).
  assert (rectangular (N * 16) (chunks (N * 16) (permute_chunks 0%Z PERM (to_tiles 0%Z K N weight)))) as Hrc by (apply chunks_rectangular; (done || lia)).
  split_and!.
  - unfold unpack_marlin_weight. rewrite map_map.
    assert (map (λ row, pack_row row ≫= unpack_word) (chunks (N * 16) (permute_chunks 0%Z PERM (to_tiles 0%Z K N weight))) =
            chunks (N * 16) (permute_chunks 0%Z PERM (to_tiles 0%Z K N weight))) as ->.
    { rewrite <- map_id. apply map_ext_in. intros row Hrow%list_elem_of_In. apply unpack_pack_row.
      - rewrite (proj1 (Forall_forall _ _) Hrc _ Hrow). replace (N * 16) with (N * 2 * 8) by lia. apply Nat.Div0.mod_mul.
      - assert (Forall (λ v, is_code v) (concat (chunks (N * 16) (permute_chunks 0%Z PERM (to_tiles 0%Z K N weight))))) as Hall.
        { rewrite concat_chunks_id by (done || lia). apply codes_permuted; [done|by rewrite Hlt|by apply codes_tiles]. }
        apply Forall_concat in Hall. by apply (proj1 (Forall_forall _ _) Hall). }
    rewrite concat_chunks_id by (done || lia). rewrite permute_chunks_inverse by (exact Hp || apply perm_inverse || (rewrite Hlt; exact Hm)).
    apply from_to_tiles; [done..| |]; [rewrite Ha|rewrite Hb].
    + replace (a * 128) with (a * 8 * 16) by lia. apply Nat.Div0.mod_mul.
    + replace (b * 256) with (b * 16 * 16) by lia. apply Nat.Div0.mod_mul.
  - rewrite length_map. unfold chunks. rewrite length_map, length_seq, Hlw, HKN, Nat.div_mul by lia. rewrite Ha.
    replace (a * 128) with (a * 8 * 16) by lia. by rewrite Nat.div_mul by lia.
  - apply Forall_map. eapply Forall_impl; [exact Hrc|]. intros row Hrow. apply length_pack_row.
    assert (N * 16 / 8 = N * 2) as -> by (replace (N * 16) with (N * 2 * 8) by lia; apply Nat.div_mul; lia). cbv beta in Hrow. lia.
  - intros ->. destruct Hs as (H1 & H2 & ->). cbn [Z.eqb] in *. rewrite concat_chunks_id by (done || lia).
    apply permute_chunks_inverse; [change (length SCALE_PERM) with 64; lia|apply scale_perm_inverse|done].
Qed.

(** C32: packing is lossless: from the packed words the codes are recovered entry by entry (the
    nibbles of each word, the inverse permutation, the tiles put back), the words have the
    documented shape, and with groups of 128 rows the scales are recovered as well. *)
Theorem marlin_pack_roundtrip K N weight scales groupsize packed s :
  length weight = K → rectangular N weight → Forall (Forall (λ v, 0 ≤ v < 16)%Z) weight →
  pack_marlin_weight K N weight scales groupsize = Ok (packed, s) →
  unpack_marlin_weight K N packed = weight ∧ length packed = K / 16 ∧ rectangular (N * 16 / 8) packed ∧
  (groupsize = 128%Z → permute_chunks 0%Qc (argsort SCALE_PERM) (concat s) = scales).
Proof. apply pack_unpack. Qed.

(** ** Quantisation *)
Section rounding.
Open Scope Q_scope.
Lemma round_error x : -(1 # 2) <= this x - inject_Z (round_half_even x) <= 1 # 2.
Proof.
  unfold round_half_even. set (f := Qfloor (this x)).
  assert (inject_Z f <= this x) as Hlo by apply Qfloor_le.
  assert (this x < inject_Z f + 1) as Hhi.
  { change 1 with (inject_Z 1). rewrite <- inject_Z_plus. apply Qlt_floor. }
  assert (this (x - Q2Qc (inject_Z f))%Qc == this x - inject_Z f) as Hd.
  { unfold Qcminus, Qcplus, Qcopp. cbn [this Q2Qc]. rewrite !Qred_correct. reflexivity. }
  assert (inject_Z (f + 1) == inject_Z f + 1) as Hs by (by rewrite inject_Z_plus).
  unfold Qccompare. change (this (Q2Qc (1 # 2))) with (1 # 2). destruct (Qcompare_spec (this (x - Q2Qc (inject_Z f))%Qc) (1 # 2)) as [He|Hl|Hg].
  - destruct (Z.even f); rewrite ?Hs; lra.
  - lra.
  - rewrite Hs. lra.
Qed.
Lemma clamp_error x : -(15 # 2) <= this x <= 15 # 2 →
  let code := Z.min (Z.max (round_half_even x + 8) 0) 15 in
  (0 ≤ code < 16)%Z ∧ -(1 # 2) <= this x - inject_Z (code - 8) <= 1 # 2.
Proof.
  intros Hx code. pose proof (round_error x) as Hr. set (r := round_half_even x) in *. split; [unfold code; lia|].
  assert (-9 < r)%Z as Hlo by (rewrite Zlt_Qlt; change (inject_Z (-9)) with (-9 # 1); lra).
  assert (r < 9)%Z as Hhi by (rewrite Zlt_Qlt; change (inject_Z 9) with (9 # 1); lra).
  destruct (decide (r = 8)%Z) as [Hr8|Hr8].
  - assert (code - 8 = 7)%Z as -> by (unfold code; lia). rewrite Hr8 in Hr. change (inject_Z 8) with (8 # 1) in Hr.
    change (inject_Z 7) with (7 # 1). lra.
  - assert (code - 8 = r)%Z as -> by (unfold code; lia). done.
Qed.
End rounding.

Lemma qmax_le a b : (a <= qmax a b ∧ b <= qmax a b)%Qc.
Proof.
  unfold qmax, Qcle. destruct (Qle_bool (this a) (this b)) eqn:E.
  - apply Qle_bool_iff in E. split; [done|apply Qle_refl].
  - assert (this b < this a)%Q as Hl by (apply Qnot_le_lt; intros Hle; apply Qle_bool_iff in Hle; congruence).
    split; [apply Qle_refl|by apply Qlt_le_weak].
Qed.
Lemma amax_ge l x : x ∈ l → (abs x <= amax l)%Qc.
Proof.
  unfold amax. intros Hin. assert (∀ l m, m <= foldl (λ m x, qmax m (abs x)) m l)%Qc as Hmono.
  { clear. induction l as [|y l IH]; intros m; cbn [foldl]; [apply Qcle_refl|]. eapply Qcle_trans; [apply (qmax_le m (abs y))|apply IH]. }
  generalize 0%Qc as m. induction l as [|y l IH]; intros m; [by apply elem_of_nil in Hin|]. cbn [foldl].
  apply elem_of_cons in Hin as [->|Hin]; [|by apply IH]. eapply Qcle_trans; [apply (qmax_le m (abs y))|apply Hmono].
Qed.
(** Scales are positive, and no entry of the column exceeds 7.5 of them. *)
Lemma scale_bounds l x : x ∈ l → (0 < this (scale_of l))%Q ∧ (Qabs (this x) <= (15 # 2) * this (scale_of l))%Q.
Proof.
  intros Hin. unfold scale_of.
  destruct (qmax_le (amax l / Q2Qc (15 # 2))%Qc (Q2Qc (1 # 10000000000))) as [H1 H2]. unfold Qcle in H1, H2.
  set (s := qmax _ _) in *. split.
  - eapply Qlt_le_trans; [|exact H2]. done.
  - pose proof (amax_ge l x Hin) as Ha. unfold Qcle in Ha. assert (this (abs x) == Qabs (this x))%Q as He by apply Qred_correct.
    assert (this (amax l / Q2Qc (15 # 2))%Qc == this (amax l) * (2 # 15))%Q as Hd.
    { unfold Qcdiv, Qcmult, Qcinv. cbn [this Q2Qc]. rewrite !Qred_correct. reflexivity. }
    rewrite Hd in H1. rewrite He in Ha. lra.
Qed.
Lemma quantize_entry_error l w : w ∈ l →
  let code := quantize_entry (scale_of l) w in
  (0 ≤ code < 16)%Z ∧ (Qabs (this w - this (scale_of l) * inject_Z (code - 8)) <= this (scale_of l) * (1 # 2))%Q.
Proof.
  intros Hin code. destruct (scale_bounds l w Hin) as [Hp Hb]. set (s := scale_of l) in *.
  apply Qabs_Qle_condition in Hb. destruct Hb as [Hb1 Hb2].
  assert (this (w / s)%Qc == this w / this s)%Q as Hx.
  { unfold Qcdiv, Qcmult, Qcinv. cbn [this Q2Qc]. rewrite !Qred_correct. reflexivity. }
  assert (this w == this (w / s)%Qc * this s)%Q as Hw by (rewrite Hx; field; lra).
  pose proof (clamp_error (w / s)%Qc) as Hce. cbv zeta in Hce. change (Z.min (Z.max (round_half_even (w / s)%Qc + 8) 0) 15) with code in Hce.
  destruct Hce as [Hc [He1 He2]].
  { split; apply Qmult_le_r with (this s); try done; rewrite <- Hw; lra. }
  split; [done|]. apply Qabs_Qle_condition. set (x := this (w / s)%Qc) in *. set (c := inject_Z (code - 8)) in *.
  assert (this w - this s * c == (x - c) * this s)%Q as -> by (rewrite Hw; ring).
  assert (this s * (1 # 2) == (1 # 2) * this s)%Q as -> by ring. assert (- ((1 # 2) * this s) == -(1 # 2) * this s)%Q as -> by ring.
  split; by apply Qmult_le_r.
Qed.
Lemma group_index K N gs k : check_marlin gs K N = None → k < K →
  0 < group_rows K gs ∧ k = k / group_rows K gs * group_rows K gs + k mod group_rows K gs ∧ k mod group_rows K gs < group_rows K gs.
Proof.
  intros _ Hk. assert (0 < group_rows K gs) as Hp by (unfold group_rows; destruct (gs =? -1)%Z; lia).
  pose proof (Nat.div_mod_eq k (group_rows K gs)). split_and!; [done|lia|apply Nat.mod_upper_bound; lia].
Qed.
Lemma codes_shape K N weight gs : length (quantize_codes K N weight gs) = K ∧ rectangular N (quantize_codes K N weight gs).
Proof.
  unfold quantize_codes. rewrite length_map, length_seq. split; [done|]. apply Forall_map, Forall_true. intros k. by rewrite length_map, length_seq.
Qed.
Lemma codes_bounds K N weight gs : Forall (Forall (λ v, is_code v)) (quantize_codes K N weight gs).
Proof. apply Forall_map, Forall_true. intros k. apply Forall_map, Forall_true. intros n. unfold quantize_entry. lia. Qed.
Lemma codes_entry K N weight gs k n : k < K → n < N →
  entry_at 0%Z (quantize_codes K N weight gs) k n =
  quantize_entry (group_scale K weight gs (k / group_rows K gs) n) (entry_at 0%Qc weight k n).
Proof.
  intros Hk Hn. unfold entry_at at 1, quantize_codes. rewrite list_lookup_fmap, lookup_seq_lt by done. cbn [fmap option_fmap option_map mbind option_bind].
  rewrite list_lookup_fmap, lookup_seq_lt by done. done.
Qed.

(** Whole rows of scales can always be permuted. *)
Lemma pack_total K N weight scales gs g :
  check_marlin gs K N = None → N ≠ 0 → length scales = g * N → ∃ packed s, pack_marlin_weight K N weight scales gs = Ok (packed, s).
Proof.
  intros Hchk HN Hl. unfold pack_marlin_weight. rewrite Hchk. apply check_marlin_sizes in Hchk as (_ & _ & [b Hb]). cbv zeta.
  set (s_perm := if (gs =? -1)%Z then SCALE_PERM_SINGLE else SCALE_PERM).
  assert (0 < length s_perm ∧ length scales mod length s_perm = 0) as [Hp Hm].
  { rewrite Hl, Hb. unfold s_perm. destruct (gs =? -1)%Z; [change (length SCALE_PERM_SINGLE) with 32|change (length SCALE_PERM) with 64]; (split; [lia|]).
    - replace (g * (b * 256)) with (g * b * 8 * 32) by lia. apply Nat.Div0.mod_mul.
    - replace (g * (b * 256)) with (g * b * 4 * 64) by lia. apply Nat.Div0.mod_mul. }
  rewrite (proj2 (Nat.eqb_eq _ _) Hm), (proj2 (Nat.eqb_neq N 0) HN), length_permute_chunks, Hl, Nat.Div0.mod_mul by done. by do 2 eexists.
Qed.
Lemma length_bind_const {A B} (f : A → list B) n l : (∀ a, length (f a) = n) → length (l ≫= f) = length l * n.
Proof. intros Hf. induction l as [|a l IH]; [done|]. rewrite bind_cons, length_app, Hf, IH. cbn. lia. Qed.
Lemma codes_accurate K N weight gs k n : check_marlin gs K N = None → k < K → n < N →
  let scale := group_scale K weight gs (k / group_rows K gs) n in
  let code := entry_at 0%Z (quantize_codes K N weight gs) k n in
  (0 ≤ code ≤ 15)%Z ∧ (Qabs (this (entry_at 0%Qc weight k n) - this scale * inject_Z (code - 8)) <= this scale * (1 # 2))%Q.
Proof.
  intros Hchk Hk Hn scale code. unfold code. rewrite codes_entry by done. fold scale.
  destruct (group_index K N gs k Hchk Hk) as (Hp & He & Hm).
  edestruct (quantize_entry_error (map (λ i, entry_at 0%Qc weight (k / group_rows K gs * group_rows K gs + i) n) (seq 0 (group_rows K gs))) (entry_at 0%Qc weight k n)) as [Hc Hq].
  { apply list_elem_of_fmap. exists (k mod group_rows K gs). rewrite <- He. split; [done|]. apply elem_of_seq. lia. }
  split; [unfold quantize_entry; lia|exact Hq].
Qed.

(** C33: quantisation succeeds for every matrix of the required shape and is accurate to half a
    step: what is packed for an entry is a four-bit code whose value differs from the
    entry by at most half of its scale, for every entry of the matrix (the clamp of the
    code never adds to the error), with scales per column or per group of 128 rows. *)
Theorem marlin_quantize_error f16 K N weight groupsize :
  check_marlin groupsize K N = None → K ≠ 0 → N ≠ 0 →
  ∃ packed s, marlin_quantize f16 K N weight groupsize = Ok (packed, s) ∧
  ∀ k n, k < K → n < N →
    let scale := group_scale K weight groupsize (k / group_rows K groupsize) n in
    let code := entry_at 0%Z (unpack_marlin_weight K N packed) k n in
    (0 ≤ code ≤ 15)%Z ∧
    (Qabs (this (entry_at 0%Qc weight k n) - this scale * inject_Z (code - 8)) <= this scale * (1 # 2))%Q.
Proof.
  intros Hchk HK HN. unfold marlin_quantize. rewrite Hchk, (proj2 (Nat.eqb_neq K 0) HK).
  set (scales := seq 0 (K / group_rows K groupsize) ≫= λ g, map (λ n, f16 (group_scale K weight groupsize g n)) (seq 0 N)).
  assert (length scales = K / group_rows K groupsize * N) as Hs.
  { unfold scales. rewrite (length_bind_const _ N) by (intros g; by rewrite length_map, length_seq). by rewrite length_seq. }
  destruct (pack_total K N (quantize_codes K N weight groupsize) scales groupsize _ Hchk HN Hs) as (packed & s & Hok).
  exists packed, s. split; [exact Hok|]. intros k n Hk Hn. destruct (codes_shape K N weight groupsize) as [Hl Hr].
  destruct (pack_unpack _ _ _ _ _ _ _ Hl Hr (codes_bounds K N weight groupsize) Hok) as (-> & _). by apply codes_accurate.
Qed.

(** ** What the layout gets wrong *)
(** The reference dequantisation cannot read what [pack_marlin_weight] returns: the words
    have shape [[K // 16, 2 N]] and are assigned to rows of shape [[K // 8, N]]. *)
Theorem reference_dequant_raises K N weight scales groupsize packed s input s' groupsize' :
  length weight = K → rectangular N weight → Forall (Forall (λ v, 0 ≤ v < 16)%Z) weight →
  pack_marlin_weight K N weight scales groupsize = Ok (packed, s) →
  reference_dequant_gemm input packed (N * 16 / 8) s' K N groupsize' = Err RuntimeError.
Proof.
  intros Hl Hr Hc Hok. pose proof (pack_unpack _ _ _ _ _ _ _ Hl Hr Hc Hok) as (_ & Hlp & _).
  apply pack_ok_inv in Hok as (_ & HN & _). unfold reference_dequant_gemm, unpack_rows.
  assert (N * 16 / 8 = N * 2) as -> by (replace (N * 16) with (N * 2 * 8) by lia; apply Nat.div_mul; lia).
  destruct (forallb _ (seq 0 8)) eqn:Hall; [exfalso|done]. rewrite forallb_forall in Hall. specialize (Hall 0 (or_introl eq_refl)).
  unfold broadcasts in Hall. cbn [rev app zip zip_with length forallb fst snd] in Hall.
  destruct (Nat.eqb_spec (N * 2) N), (Nat.eqb_spec (N * 2) 1); try lia.
Qed.

(** With one scale per column ([groupsize = -1]) only the scales of the first 8 of every 32
    columns are kept: two matrices of scales that agree there are packed alike. *)
Theorem single_scales_lost K N weight scales scales' :
  length scales = length scales' → (∀ c, c mod 32 < 8 → scales !! c = scales' !! c) →
  pack_marlin_weight K N weight scales (-1) = pack_marlin_weight K N weight scales' (-1).
Proof.
  intros Hl Hs. assert (permute_chunks 0%Qc SCALE_PERM_SINGLE scales = permute_chunks 0%Qc SCALE_PERM_SINGLE scales') as He.
  { unfold permute_chunks, chunks. rewrite <- Hl. change (length SCALE_PERM_SINGLE) with 32.
    rewrite !list_fmap_bind. apply list_bind_ext; [|done]. intros c. unfold compose.
    apply map_ext_in. intros p Hp%list_elem_of_In. assert (p < 8) as Hp8.
    { assert (Forall (λ p, p < 8) SCALE_PERM_SINGLE) as Hall by (apply (bool_decide_unpack _); by vm_compute). by apply (proj1 (Forall_forall _ _) Hall). }
    rewrite !nth_lookup, !lookup_take_lt, !lookup_drop by lia. f_equal. apply Hs.
    rewrite Nat.add_comm, Nat.Div0.mod_add, Nat.mod_small by lia. lia. }
  unfold pack_marlin_weight. change (-1 =? -1)%Z with true. cbv iota zeta. by rewrite He, Hl.
Qed.

(** 128 rows of 256 columns with entries -15 to 15 *)
Definition demo_weight : list (list Qc) :=
  map (λ k, map (λ n, Q2Qc (inject_Z (Z.of_nat ((k * 7 + n * 3) mod 31) - 15))) (seq 0 256)) (seq 0 128).
Definition demo_codes : list (list Z) := map (λ k, map (λ n, Z.of_nat ((k + n) mod 16)) (seq 0 256)) (seq 0 128).

Lemma demo_codes_ok : length demo_codes = 128 ∧ rectangular 256 demo_codes ∧ Forall (Forall (λ v, is_code v)) demo_codes.
Proof.
  split_and!; [done| |]; apply Forall_map, Forall_true; intros k; [done|]. apply Forall_map, Forall_true. intros n.
  pose proof (Nat.mod_upper_bound (k + n) 16). lia.
Qed.
Lemma demo_pack_ok gs : (gs = -1 ∨ gs = 128)%Z →
  pack_marlin_weight 128 256 demo_codes (replicate 256 1%Qc) gs =
  Ok (map pack_row (chunks (256 * 16) (permute_chunks 0%Z PERM (to_tiles 0%Z 128 256 demo_codes))),
      chunks 256 (permute_chunks 0%Qc (if (gs =? -1)%Z then SCALE_PERM_SINGLE else SCALE_PERM) (replicate 256 1%Qc))).
Proof. by intros [->| ->]. Qed.

Lemma marlin_pack_roundtrip_witness : ∃ packed s,
  pack_marlin_weight 128 256 demo_codes (replicate 256 1%Qc) 128 = Ok (packed, s) ∧ unpack_marlin_weight 128 256 packed = demo_codes.
Proof.
  destruct demo_codes_ok as (Hl & Hr & Hc). do 2 eexists. split; [apply demo_pack_ok; by right|].
  eapply (marlin_pack_roundtrip 128 256 demo_codes (replicate 256 1%Qc) 128); [exact Hl|exact Hr|exact Hc|apply demo_pack_ok; by right].
Defined.

Lemma marlin_quantize_error_witness : ∃ packed s,
  marlin_quantize id 128 256 demo_weight (-1) = Ok (packed, s) ∧
  ∀ k n, k < 128 → n < 256 →
    let scale := group_scale 128 demo_weight (-1) (k / group_rows 128 (-1)) n in
    let code := entry_at 0%Z (unpack_marlin_weight 128 256 packed) k n in
    (0 ≤ code ≤ 15)%Z ∧
    (Qabs (this (entry_at 0%Qc demo_weight k n) - this scale * inject_Z (code - 8)) <= this scale * (1 # 2))%Q.
Proof. apply (marlin_quantize_error id 128 256 demo_weight (-1)); [reflexivity|lia|lia]. Defined.

Lemma reference_dequant_raises_witness : ∃ packed s,
  pack_marlin_weight 128 256 demo_codes (replicate 256 1%Qc) (-1) = Ok (packed, s) ∧
  reference_dequant_gemm [replicate 128 1%Qc] packed 512 s 128 256 (-1) = Err RuntimeError.
Proof.
  destruct demo_codes_ok as (Hl & Hr & Hc). do 2 eexists. split; [apply demo_pack_ok; by left|].
  eapply (reference_dequant_raises 128 256 demo_codes (replicate 256 1%Qc) (-1)); [exact Hl|exact Hr|exact Hc|apply demo_pack_ok; by left].
Defined.

(** Scales 1 for the first eight columns and 2 or 3 for the others: packed alike *)
Definition demo_scales2 (x : Qc) : list Qc := map (λ c, if c mod 32 <? 8 then 1%Qc else x) (seq 0 256).
Lemma single_scales_lost_witness :
  pack_marlin_weight 128 256 demo_codes (demo_scales2 (Q2Qc 2)) (-1) = pack_marlin_weight 128 256 demo_codes (demo_scales2 (Q2Qc 3)) (-1).
Proof.
  apply (single_scales_lost 128 256 demo_codes (demo_scales2 (Q2Qc 2)) (demo_scales2 (Q2Qc 3))).
  - unfold demo_scales2. by rewrite !length_map.
  - intros c Hc. unfold demo_scales2. rewrite !list_lookup_fmap. destruct (seq 0 256 !! c) as [c'|] eqn:E; [|done].
    apply lookup_seq in E as [-> _]. cbn [fmap option_fmap option_map Nat.add]. by rewrite (proj2 (Nat.ltb_lt _ _) Hc).
Defined.
