(* ===== verification/ModelAttention.v ===== *)
(** * Rotary embeddings and the paged attention module
    (models/model_utils.py, models/qwen3_paged_attention.py)

    [rotary] mixes the two halves of a head vector with the cosine and sine of its position;
    the tensors are nested lists, and sizes are broadcast as torch does.  The attention
    module of Qwen3 hands its queries, keys and values to a paged backend as a list of
    tokens; projections, norms and the backend are arguments. *)
From Stdlib Require Import QArith Qcanon.
From S2P Require Import Prelude Tensor.
Open Scope nat_scope.

(** ** Broadcasting *)
(** One dimension of an elementwise operation *)
Definition bzip {A B C} (f : A → B → res C) (x : list A) (y : list B) : res (list C) :=
  if length x =? length y then traverse (λ p, f p.1 p.2) (zip x y)
  else match x, y with
       | [a], _ => traverse (f a) y
       | _, [b] => traverse (λ a, f a b) x
       | _, _ => Err RuntimeError
       end.
Definition elementwise (op : Qc → Qc → Qc) : list Qc → list Qc → res (list Qc) := bzip (λ a b, Ok (op a b)).
Abbreviation tensor4 := (list (list (list (list Qc)))).
Definition elementwise4 (op : Qc → Qc → Qc) : tensor4 → tensor4 → res tensor4 := bzip (bzip (bzip (elementwise op))).

(** ** model_utils.py *)
(** [torch.cat((-x2, x1), dim=-1)] *)
Definition rotate_half (x : list Qc) : list Qc := (map Qcopp (drop (length x / 2) x) ++ take (length x / 2) x)%list.
Definition map4 (f : list Qc → list Qc) (t : tensor4) : tensor4 := map (map (map f)) t.
(** [table[position_ids].unsqueeze(1)] *)
Definition lookup_positions (table : list (list Qc)) (position_ids : list (list Z)) : res tensor4 :=
  rows ← traverse (traverse (tensor_get table)) position_ids;
  Ok (map (λ r, [r]) rows).
Definition embed (cos sin q : tensor4) : res tensor4 :=
  a ← elementwise4 Qcmult q cos;
  b ← elementwise4 Qcmult (map4 rotate_half q) sin;
  elementwise4 Qcplus a b.
Definition apply_rotary_pos_emb (q k : tensor4) (cos sin : list (list Qc)) (position_ids : list (list Z)) : res (tensor4 * tensor4) :=
  c ← lookup_positions cos position_ids;
  s ← lookup_positions sin position_ids;
  q' ← embed c s q;
  k' ← embed c s k;
  Ok (q', k').

(** [x.view(d // 2, 2).transpose].reshape(d)]: entries with an even number first *)
Fixpoint evens {A} (x : list A) : list A := match x with a :: _ :: x => a :: evens x | _ => [] end.
Fixpoint odds {A} (x : list A) : list A := match x with _ :: b :: x => b :: odds x | _ => [] end.
Definition deinterleave (x : list Qc) : res (list Qc) :=
  if Nat.even (length x) then Ok (evens x ++ odds x)%list else Err RuntimeError.
Definition deinterleave4 : tensor4 → res tensor4 := traverse (traverse (traverse deinterleave)).
Definition apply_rotary_pos_emb_deepseek (q k : tensor4) (cos sin : list (list Qc)) (position_ids : list (list Z)) : res (tensor4 * tensor4) :=
  c ← lookup_positions cos position_ids;
  s ← lookup_positions sin position_ids;
  q ← deinterleave4 q;
  k ← deinterleave4 k;
  q' ← embed c s q;
  k' ← embed c s k;
  Ok (q', k').

(** ** Shapes that agree *)
Lemma bzip_same {A B C} (f : A → B → res C) (g : A → B → C) x y :
  length x = length y → (∀ a b, (a, b) ∈ zip x y → f a b = Ok (g a b)) → bzip f x y = Ok (zip_with g x y).
Proof.
  intros Hl Hf. unfold bzip. rewrite (proj2 (Nat.eqb_eq _ _) Hl). rewrite (traverse_ok _ (λ p, g p.1 p.2)).
  - f_equal. clear. revert y. induction x as [|a x IH]; intros [|b y]; cbn; f_equal; auto.
  - intros [a b] Hab. by apply Hf.
Qed.
Lemma bzip_single {A B C} (f : A → B → res C) (g : A → B → C) x b :
  (∀ a, a ∈ x → f a b = Ok (g a b)) → bzip f x [b] = Ok (map (λ a, g a b) x).
Proof.
  intros Hf. unfold bzip. destruct x as [|a [|a' x]]; cbn [length Nat.eqb].
  - done.
  - cbn. by rewrite Hf by left.
  - by rewrite (traverse_ok _ (λ a, g a b)).
Qed.
Lemma elementwise_same op x y : length x = length y → elementwise op x y = Ok (zip_with op x y).
Proof. intros Hl. apply bzip_same; [done|]. done. Qed.

(** A head vector with the cosines and sines of its position *)
Definition rotary (c s x : list Qc) : list Qc := zip_with Qcplus (zip_with Qcmult x c) (zip_with Qcmult (rotate_half x) s).
Lemma length_rotate_half x : length (rotate_half x) = length x.
Proof. unfold rotate_half. rewrite length_app, length_map, length_drop, length_take. pose proof (Nat.Div0.div_le_mono (length x) (length x) 2). assert (length x / 2 ≤ length x) by (apply Nat.Div0.div_le_upper_bound; lia). lia. Qed.
(** [n] tokens of [d] numbers *)
Definition rows_shape (n d : nat) (r : list (list Qc)) : Prop := length r = n ∧ Forall (λ x, length x = d) r.

Section embedding.
Context (n d : nat).
(** The tables at the positions of one batch entry, for all heads *)
Definition embed_rows (c s : list (list Qc)) (heads : list (list (list Qc))) : list (list (list Qc)) :=
  map (λ h, zip_with (λ x cs, rotary cs.1 cs.2 x) h (zip c s)) heads.
Lemma elementwise_rows op h r :
  rows_shape n d h → rows_shape n d r → bzip (elementwise op) h r = Ok (zip_with (zip_with op) h r).
Proof.
  intros [Hh Fh] [Hr Fr]. rewrite Forall_forall in Fh, Fr. apply bzip_same; [congruence|]. intros a b Hab. apply elementwise_same.
  rewrite (Fh a), (Fr b); [done|by eapply elem_of_zip_r|by eapply elem_of_zip_l].
Qed.
Lemma multiply_tables (q : tensor4) (c : list (list (list Qc))) :
  Forall (Forall (rows_shape n d)) q → length c = length q → Forall (rows_shape n d) c →
  elementwise4 Qcmult q (map (λ r, [r]) c) = Ok (zip_with (λ heads r, map (λ h, zip_with (zip_with Qcmult) h r) heads) q c).
Proof.
  intros Hq Hc Fc. rewrite Forall_forall in Hq. rewrite Forall_forall in Fc.
  unfold elementwise4. rewrite (bzip_same _ (λ heads r, map (λ h, zip_with (zip_with Qcmult) h (hd [] r)) heads)).
  - f_equal. clear. revert c. induction q as [|heads q IH]; intros [|r c]; cbn; f_equal. apply IH.
  - by rewrite length_map.
  - intros heads r Hin. pose proof (elem_of_zip_l _ _ _ _ Hin) as Hheads. apply elem_of_zip_r, list_elem_of_fmap in Hin as (r' & -> & Hr').
    cbn [hd]. apply (bzip_single _ (λ h r, zip_with (zip_with Qcmult) h r)). intros h Hh. apply elementwise_rows; [|by apply Fc].
    specialize (Hq _ Hheads). rewrite Forall_forall in Hq. by apply Hq.
Qed.
Lemma add_tensors (x y : tensor4) :
  Forall (Forall (rows_shape n d)) x → Forall (Forall (rows_shape n d)) y → Forall2 (λ a b, length a = length b) x y →
  elementwise4 Qcplus x y = Ok (zip_with (zip_with (zip_with (zip_with Qcplus))) x y).
Proof.
  intros Hx Hy Hl. unfold elementwise4. apply bzip_same; [by eapply Forall2_length|]. intros a b Hab.
  pose proof (elem_of_zip_l _ _ _ _ Hab) as Ha. pose proof (elem_of_zip_r _ _ _ _ Hab) as Hb.
  rewrite Forall_forall in Hx, Hy. specialize (Hx _ Ha). specialize (Hy _ Hb). rewrite Forall_forall in Hx, Hy. apply bzip_same.
  - clear -Hl Hab. induction Hl as [|a' b' x y H _ IH]; cbn in Hab; [by apply elem_of_nil in Hab|]. apply elem_of_cons in Hab as [[= -> ->]|Hab]; auto.
  - intros h r Hhr. apply elementwise_rows; [apply Hx; by eapply elem_of_zip_l|apply Hy; by eapply elem_of_zip_r].
Qed.

Lemma embed_tokens (h c s : list (list Qc)) :
  length c = length h → length s = length h →
  zip_with (zip_with Qcplus) (zip_with (zip_with Qcmult) h c) (zip_with (zip_with Qcmult) (map rotate_half h) s) =
  zip_with (λ x cs, rotary cs.1 cs.2 x) h (zip c s).
Proof. revert c s. induction h as [|x h IH]; intros [|a c] [|b s]; cbn; intros; try done. f_equal. apply IH; lia. Qed.
Lemma rows_shape_mult h r : rows_shape n d h → rows_shape n d r → rows_shape n d (zip_with (zip_with Qcmult) h r).
Proof.
  intros [Hh Fh] [Hr Fr]. split; [rewrite length_zip_with; lia|]. rewrite Forall_forall in *. intros x Hx.
  apply list_elem_of_lookup in Hx as [i Hi]. apply lookup_zip_with_Some in Hi as (a & b & -> & Ha & Hb).
  rewrite length_zip_with, (Fh a), (Fr b); [lia| |]; by eapply list_elem_of_lookup_2.
Qed.
Lemma rows_shape_half h : rows_shape n d h → rows_shape n d (map rotate_half h).
Proof. intros [Hh Fh]. split; [by rewrite length_map|]. apply Forall_fmap. eapply Forall_impl; [exact Fh|]. intros x Hx. unfold compose. by rewrite length_rotate_half. Qed.

Lemma embed_exact (q : tensor4) (c s : list (list (list Qc))) :
  Forall (Forall (rows_shape n d)) q → length c = length q → length s = length q → Forall (rows_shape n d) c → Forall (rows_shape n d) s →
  embed (map (λ r, [r]) c) (map (λ r, [r]) s) q = Ok (zip_with (λ heads cs, embed_rows cs.1 cs.2 heads) q (zip c s)).
Proof.
  intros Hq Hc Hs Fc Fs. unfold embed. rewrite (multiply_tables q c) by done. cbn.
  assert (Forall (Forall (rows_shape n d)) (map4 rotate_half q)) as Hq'.
  { apply Forall_fmap. eapply Forall_impl; [exact Hq|]. intros heads Hh. apply Forall_fmap. eapply Forall_impl; [exact Hh|]. intros h. apply rows_shape_half. }
  rewrite (multiply_tables _ s) by (done || (unfold map4; by rewrite length_map)). cbn.
  assert (∀ (q : tensor4) c, Forall (Forall (rows_shape n d)) q → Forall (rows_shape n d) c →
    Forall (Forall (rows_shape n d)) (zip_with (λ heads r, map (λ h, zip_with (zip_with Qcmult) h r) heads) q c)) as Hm.
  { clear. intros q c Hq. revert c. induction Hq as [|heads q Hh _ IH]; intros [|r c] Fc; cbn; try constructor.
    - apply Forall_cons in Fc as [Hr _]. apply Forall_fmap. eapply Forall_impl; [exact Hh|]. intros h. cbn. intros. by apply rows_shape_mult.
    - apply IH. by apply Forall_cons in Fc as [_ Fc]. }
  rewrite add_tensors; [|by apply Hm|by apply Hm|].
  - f_equal. clear -Hq Hc Hs Fc Fs. revert c s Hc Hs Fc Fs. induction Hq as [|heads q Hh _ IH]; intros [|r c] [|t s] Hc Hs Fc Fs; cbn in *; try done.
    apply Forall_cons in Fc as [Hr Fc]. apply Forall_cons in Fs as [Ht Fs]. f_equal; [|apply IH; auto].
    unfold embed_rows. clear -Hh Hr Ht. induction Hh as [|h heads [Hn _] _ IH]; cbn; [done|]. f_equal; [|exact IH].
    destruct Hr, Ht. apply embed_tokens; congruence.
  - clear -Hc Hs. revert c s Hc Hs. unfold map4. induction q as [|heads q IH]; intros [|r c] [|t s] Hc Hs; cbn in *; try done; constructor; [by rewrite !length_map|apply IH; lia].
Qed.
End embedding.

(** ** Scores depend on relative positions *)
Section relative.
Open Scope Qc_scope.
(** The cosines and sines of the angles of a position, as the tables hold them: both halves
    of a row are the same.  The laws are those of rotations. *)
Record angles := { a_cos : Z → nat → Qc; a_sin : Z → nat → Qc }.
Record angle_laws (t : angles) : Prop := {
  al_cos : ∀ p m i, a_cos t (p + m) i = a_cos t p i * a_cos t m i - a_sin t p i * a_sin t m i;
  al_sin : ∀ p m i, a_sin t (p + m) i = a_sin t p i * a_cos t m i + a_cos t p i * a_sin t m i;
  al_unit : ∀ m i, a_cos t m i * a_cos t m i + a_sin t m i * a_sin t m i = 1 }.
Context (half : nat) (t : angles).
Definition table_row (f : nat → Qc) : list Qc := (map f (seq 0 half) ++ map f (seq 0 half))%list.
Definition cos_row (p : Z) : list Qc := table_row (a_cos t p).
Definition sin_row (p : Z) : list Qc := table_row (a_sin t p).
Definition rotary_table (row : Z → list Qc) (N : nat) : list (list Qc) := map (λ p, row (Z.of_nat p)) (seq 0 N).
Definition dot (x y : list Qc) : Qc := qcsum (zip_with Qcmult x y).

Lemma list_as_map (l : list Qc) n : length l = n → l = map (λ i, nth i l 0) (seq 0 n).
Proof.
  intros <-. induction l as [|x l IH]; [done|]. cbn [length seq map]. rewrite <- seq_shift, map_map. cbn [nth]. by f_equal.
Qed.
Lemma zip_with_maps {A} (op : Qc → Qc → Qc) (g h : A → Qc) l : zip_with op (map g l) (map h l) = map (λ i, op (g i) (h i)) l.
Proof. induction l; cbn; f_equal; auto. Qed.
Lemma zip_with_app_eq (op : Qc → Qc → Qc) a b a' b' :
  length a = length a' → zip_with op (a ++ b) (a' ++ b') = (zip_with op a a' ++ zip_with op b b')%list.
Proof. revert a'. induction a as [|x a IH]; intros [|y a'] H; cbn in *; try done. f_equal. apply IH. lia. Qed.
Lemma rotary_halves p (f g : nat → Qc) :
  rotary (cos_row p) (sin_row p) (map f (seq 0 half) ++ map g (seq 0 half)) =
  (map (λ i, f i * a_cos t p i + - g i * a_sin t p i) (seq 0 half) ++ map (λ i, g i * a_cos t p i + f i * a_sin t p i) (seq 0 half))%list.
Proof.
  unfold rotary, rotate_half, cos_row, sin_row, table_row. rewrite !length_app, !length_map, !length_seq.
  replace ((half + half) / 2)%nat with half by (apply (Nat.div_unique _ _ _ 0); lia).
  rewrite drop_app_length', take_app_length' by (by rewrite length_map, length_seq). rewrite map_map.
  assert (∀ f : nat → Qc, length (map f (seq 0 half)) = half) as Hl by (intros; by rewrite length_map, length_seq).
  repeat (rewrite zip_with_app_eq by (rewrite ?length_zip_with, !Hl; lia); rewrite ?zip_with_maps). done.
Qed.
Lemma dot_halves (f g f' g' : nat → Qc) :
  dot (map f (seq 0 half) ++ map g (seq 0 half)) (map f' (seq 0 half) ++ map g' (seq 0 half)) = sum_range half (λ i, f i * f' i + g i * g' i).
Proof. unfold dot. rewrite zip_with_app_eq by (by rewrite !length_map). rewrite !zip_with_maps, qcsum_app, sum_range_plus. done. Qed.

Lemma dot_relative (Ht : angle_laws t) x y p r m :
  length x = (2 * half)%nat → length y = (2 * half)%nat →
  dot (rotary (cos_row (p + m)) (sin_row (p + m)) x) (rotary (cos_row (r + m)) (sin_row (r + m)) y) =
  dot (rotary (cos_row p) (sin_row p) x) (rotary (cos_row r) (sin_row r) y).
Proof.
  intros Hx Hy. rewrite <- (take_drop half x), <- (take_drop half y).
  rewrite (list_as_map (take half x) half), (list_as_map (drop half x) half), (list_as_map (take half y) half), (list_as_map (drop half y) half)
    by (rewrite ?length_take, ?length_drop; lia).
  rewrite !rotary_halves, !dot_halves. apply sum_range_ext. intros i _. destruct Ht as [Hc Hs Hu]. rewrite !Hc, !Hs.
  set (f := nth i (take half x) 0). set (g := nth i (drop half x) 0). set (f' := nth i (take half y) 0). set (g' := nth i (drop half y) 0).
  set (cp := a_cos t p i). set (sp := a_sin t p i). set (cr := a_cos t r i). set (sr := a_sin t r i). specialize (Hu m i).
  set (cm := a_cos t m i) in *. set (sm := a_sin t m i) in *.
  transitivity (((f * cp + - g * sp) * (f' * cr + - g' * sr) + (g * cp + f * sp) * (g' * cr + f' * sr)) * (cm * cm + sm * sm)); [ring|]. rewrite Hu. ring.
Qed.

(** ** The tables at given positions *)
Definition in_table (N : nat) (pos : list (list Z)) : Prop := Forall (Forall (λ p, (0 ≤ p < Z.of_nat N)%Z)) pos.
Lemma lookup_table row N pos : in_table N pos → lookup_positions (rotary_table row N) pos = Ok (map (λ r, [r]) (map (map row) pos)).
Proof.
  intros Hp. unfold lookup_positions. rewrite (traverse_ok _ (map row)).
  { done. }
  intros r Hr. unfold in_table in Hp. rewrite Forall_forall in Hp. specialize (Hp _ Hr). apply traverse_ok. intros p Hpr. rewrite Forall_forall in Hp.
  specialize (Hp _ Hpr). replace p with (Z.of_nat (Z.to_nat p)) at 1 by lia. apply tensor_get_nat. unfold rotary_table. rewrite list_lookup_fmap, lookup_seq_lt by lia. cbn. do 2 f_equal. lia.
Qed.
Definition entry (x : tensor4) (b h i : nat) : option (list Qc) :=
  match x !! b with Some heads => match heads !! h with Some tokens => tokens !! i | None => None end | None => None end.
(** The attention score of two tokens of a batch entry, for heads [h] of the queries and [h'] of the keys *)
Definition score (q k : tensor4) (b h h' i j : nat) : option Qc := x ← entry q b h i; y ← entry k b h' j; Some (dot x y).
Definition embedded (pos : list (list Z)) (q : tensor4) : tensor4 :=
  zip_with (λ heads cs, embed_rows cs.1 cs.2 heads) q (zip (map (map cos_row) pos) (map (map sin_row) pos)).
Lemma entry_embedded pos q b h i :
  entry (embedded pos q) b h i = x ← entry q b h i; ps ← pos !! b; p ← ps !! i; Some (rotary (cos_row p) (sin_row p) x).
Proof.
  unfold entry, embedded, embed_rows. rewrite lookup_zip_with, lookup_zip_with, !list_lookup_fmap.
  destruct (q !! b) as [heads|]; cbn; [|done]. destruct (pos !! b) as [ps|]; cbn; [|by destruct (heads !! h) as [hh|]; cbn; [destruct (hh !! i)|]].
  rewrite list_lookup_fmap. destruct (heads !! h) as [hh|]; cbn; [|done]. rewrite lookup_zip_with, lookup_zip_with, !list_lookup_fmap.
  destruct (hh !! i); cbn; [|done]. by destruct (ps !! i).
Qed.
Lemma length_cos_row p : length (cos_row p) = (2 * half)%nat.
Proof. unfold cos_row, table_row. rewrite length_app, !length_map, !length_seq. lia. Qed.
Lemma length_sin_row p : length (sin_row p) = (2 * half)%nat.
Proof. unfold sin_row, table_row. rewrite length_app, !length_map, !length_seq. lia. Qed.
Lemma tables_shape n pos (row : Z → list Qc) :
  (∀ p, length (row p) = (2 * half)%nat) → Forall (λ r, length r = n) pos → Forall (rows_shape n (2 * half)) (map (map row) pos).
Proof.
  intros Hrow Hp. apply Forall_fmap. eapply Forall_impl; [exact Hp|]. intros r Hr. split; [by rewrite length_map|]. apply Forall_fmap, Forall_forall. intros; apply Hrow.
Qed.
Lemma embed_table n pos q :
  Forall (Forall (rows_shape n (2 * half))) q → length pos = length q → Forall (λ r, length r = n) pos →
  embed (map (λ r, [r]) (map (map cos_row) pos)) (map (λ r, [r]) (map (map sin_row) pos)) q = Ok (embedded pos q).
Proof.
  intros Hq Hl Hp. apply (embed_exact n (2 * half)); [done|by rewrite length_map|by rewrite length_map| |]; apply tables_shape; auto using length_cos_row, length_sin_row.
Qed.
Lemma score_shift (Ht : angle_laws t) n pos m q k b h h' i j :
  Forall (Forall (rows_shape n (2 * half))) q → Forall (Forall (rows_shape n (2 * half))) k →
  score (embedded (map (map (λ p, (p + m)%Z)) pos) q) (embedded (map (map (λ p, (p + m)%Z)) pos) k) b h h' i j =
  score (embedded pos q) (embedded pos k) b h h' i j.
Proof.
  intros Hq Hk. unfold score. rewrite !entry_embedded.
  assert (∀ (q : tensor4) b h i x, Forall (Forall (rows_shape n (2 * half))) q → entry q b h i = Some x → length x = (2 * half)%nat) as Hlen.
  { clear. intros q b h i x Hq. unfold entry. destruct (q !! b) as [hs|] eqn:E1; cbn; [|done]. destruct (hs !! h) as [hh|] eqn:E2; cbn; [|done]. intros E3.
    pose proof (Forall_lookup_1 _ _ _ _ (Forall_lookup_1 _ _ _ _ Hq E1) E2) as [_ F]. exact (Forall_lookup_1 _ _ _ _ F E3). }
  rewrite !list_lookup_fmap. destruct (pos !! b) as [ps|]; [|by destruct (entry q b h i)]. cbn [fmap option_fmap option_map]. unfold mbind, option_bind.
  rewrite !list_lookup_fmap. destruct (entry q b h i) as [x|] eqn:Ex; [|done]. destruct (ps !! i) as [p|]; [|done].
  destruct (entry k b h' j) as [y|] eqn:Ey; [|done]. destruct (ps !! j) as [r|]; [|done]. cbn. f_equal. apply dot_relative; eauto.
Qed.
End relative.

(** ** The interleaved variant *)
Lemma length_evens {A} (x : list A) n : length x = 2 * n → length (evens x) = n ∧ length (odds x) = n.
Proof.
  revert x. induction n as [|n IH]; intros x Hx; [by destruct x|]. destruct x as [|a [|b x]]; cbn in Hx; [lia|lia|]. cbn [evens odds length].
  destruct (IH x); lia.
Qed.
Definition deinterleaved (x : list Qc) : list Qc := (evens x ++ odds x)%list.
Lemma deinterleave4_ok n half (q : tensor4) :
  Forall (Forall (rows_shape n (2 * half))) q →
  deinterleave4 q = Ok (map4 deinterleaved q) ∧ Forall (Forall (rows_shape n (2 * half))) (map4 deinterleaved q).
Proof.
  intros Hq. unfold deinterleave4, map4. split.
  - apply traverse_ok. intros heads Hh. rewrite Forall_forall in Hq. specialize (Hq _ Hh). apply traverse_ok. intros h Hh'. rewrite Forall_forall in Hq.
    specialize (Hq _ Hh') as [_ Hd]. apply traverse_ok. intros x Hx. rewrite Forall_forall in Hd. unfold deinterleave. rewrite (Hd _ Hx), Nat.even_mul. done.
  - apply Forall_fmap. eapply Forall_impl; [exact Hq|]. intros heads Hh. apply Forall_fmap. eapply Forall_impl; [exact Hh|]. intros h [Hn Hd].
    split; [by rewrite length_map|]. apply Forall_fmap. eapply Forall_impl; [exact Hd|]. intros x Hx. unfold compose, deinterleaved.
    rewrite length_app. destruct (length_evens x half Hx). lia.
Qed.

(** Rotary embeddings encode relative positions: for queries and keys of the right shape
    and tables of cosines and sines, both functions succeed, and moving all positions by the
    same amount, as far as the tables reach, changes no attention score between any two
    tokens of a batch entry, in any two heads. *)
Theorem rotary_relative_positions half n t N q k pos m :
  angle_laws t → Forall (Forall (rows_shape n (2 * half))) q → Forall (Forall (rows_shape n (2 * half))) k →
  length pos = length q → length pos = length k → Forall (λ r, length r = n) pos →
  in_table N pos → in_table N (map (map (λ p, (p + m)%Z)) pos) →
  ∀ apply, apply = apply_rotary_pos_emb ∨ apply = apply_rotary_pos_emb_deepseek →
  ∃ q1 k1 q2 k2, apply q k (rotary_table (cos_row half t) N) (rotary_table (sin_row half t) N) pos = Ok (q1, k1) ∧
    apply q k (rotary_table (cos_row half t) N) (rotary_table (sin_row half t) N) (map (map (λ p, (p + m)%Z)) pos) = Ok (q2, k2) ∧
    ∀ b h h' i j, score q2 k2 b h h' i j = score q1 k1 b h h' i j.
Proof.
  intros Ht Hq Hk Lq Lk Hn Hp Hpm.
  assert (Forall (λ r, length r = n) (map (map (λ p, (p + m)%Z)) pos)) as Hnm.
  { apply Forall_fmap. eapply Forall_impl; [exact Hn|]. intros r Hr. unfold compose. by rewrite length_map. }
  destruct (deinterleave4_ok n half q Hq) as [Eq Hq']. destruct (deinterleave4_ok n half k Hk) as [Ek Hk'].
  intros apply [->| ->]; unfold apply_rotary_pos_emb, apply_rotary_pos_emb_deepseek; rewrite !lookup_table by done; unfold mbind, res_mbind;
    rewrite ?Eq, ?Ek; rewrite !(embed_table half t n) by (done || (unfold map4; rewrite ?length_map; done));
    do 4 eexists; (split; [reflexivity|]); (split; [reflexivity|]); intros; by apply (score_shift half t Ht n).
Qed.

(** Angles whose cosine and sine are 3/5 and 4/5 times those of a position before *)
Module RotaryDemo.
Open Scope Qc_scope.
Definition unit_c : Qc := Q2Qc (3 # 5).
Definition unit_s : Qc := Q2Qc (4 # 5).
(** Powers of the rotation, also negative ones *)
Fixpoint turn (n : nat) : Qc * Qc :=
  match n with O => (1, 0) | S n => let '(c, s) := turn n in (c * unit_c - s * unit_s, s * unit_c + c * unit_s) end.
Definition at_position (p : Z) : Qc * Qc :=
  let '(c, s) := turn (Z.to_nat (Z.abs p)) in if (p <? 0)%Z then (c, - s) else (c, s).
Definition demo : angles := {| a_cos := λ p _, (at_position p).1; a_sin := λ p _, (at_position p).2 |}.
Lemma unit_norm : unit_c * unit_c + unit_s * unit_s = 1.
Proof. apply Qc_is_canon. reflexivity. Qed.
Lemma turn_norm n : (turn n).1 * (turn n).1 + (turn n).2 * (turn n).2 = 1.
Proof.
  induction n as [|n IH]; [cbn; ring|]. cbn [turn]. destruct (turn n) as [c s]. cbn [fst snd] in *.
  transitivity ((c * c + s * s) * (unit_c * unit_c + unit_s * unit_s)); [ring|]. rewrite IH, unit_norm. ring.
Qed.
Lemma turn_add n m : turn (n + m)%nat = ((turn n).1 * (turn m).1 - (turn n).2 * (turn m).2, (turn n).2 * (turn m).1 + (turn n).1 * (turn m).2).
Proof.
  induction n as [|n IH]; [cbn; destruct (turn m); cbn; f_equal; ring|]. cbn [Nat.add turn]. rewrite IH. destruct (turn n) as [c s], (turn m) as [c' s']. cbn. f_equal; ring.
Qed.
(** A rotation and its inverse cancel. *)
Lemma turn_sub n m : (m ≤ n)%nat → turn (n - m)%nat = ((turn n).1 * (turn m).1 + (turn n).2 * (turn m).2, (turn n).2 * (turn m).1 - (turn n).1 * (turn m).2).
Proof.
  intros H. replace n with ((n - m) + m)%nat at 2 3 4 5 by lia. rewrite turn_add. pose proof (turn_norm m) as Hm.
  destruct (turn (n - m)) as [c s], (turn m) as [c' s']. cbn [fst snd] in *.
  f_equal; [transitivity (c * (c' * c' + s' * s'))|transitivity (s * (c' * c' + s' * s'))]; (rewrite Hm; ring) || ring.
Qed.
Lemma at_position_add p m :
  at_position (p + m) = ((at_position p).1 * (at_position m).1 - (at_position p).2 * (at_position m).2,
                         (at_position p).2 * (at_position m).1 + (at_position p).1 * (at_position m).2).
Proof.
  assert (∀ p, at_position p = if (p <? 0)%Z then ((turn (Z.to_nat (- p))).1, - (turn (Z.to_nat (- p))).2) else turn (Z.to_nat p)) as He.
  { intros z. unfold at_position. destruct (Z.ltb_spec z 0); [rewrite Z.abs_neq by lia|rewrite Z.abs_eq by lia]; by destruct (turn _). }
  rewrite !He. destruct (Z.ltb_spec p 0) as [Hp|Hp], (Z.ltb_spec m 0) as [Hm|Hm], (Z.ltb_spec (p + m) 0) as [Hs|Hs]; try lia; cbn [fst snd].
  - replace (Z.to_nat (- (p + m))) with (Z.to_nat (- p) + Z.to_nat (- m))%nat by lia. rewrite turn_add. cbn. f_equal; ring.
  - replace (Z.to_nat (- (p + m))) with (Z.to_nat (- p) - Z.to_nat m)%nat by lia. rewrite turn_sub by lia. cbn. f_equal; ring.
  - replace (Z.to_nat (p + m)) with (Z.to_nat m - Z.to_nat (- p))%nat by lia. rewrite turn_sub by lia. f_equal; ring.
  - replace (Z.to_nat (- (p + m))) with (Z.to_nat (- m) - Z.to_nat p)%nat by lia. rewrite turn_sub by lia. cbn. f_equal; ring.
  - replace (Z.to_nat (p + m)) with (Z.to_nat p - Z.to_nat (- m))%nat by lia. rewrite turn_sub by lia. f_equal; ring.
  - replace (Z.to_nat (p + m)) with (Z.to_nat p + Z.to_nat m)%nat by lia. apply turn_add.
Qed.
Lemma demo_angles : angle_laws demo.
Proof.
  split; intros; cbn; rewrite ?at_position_add; cbn; try done.
  unfold at_position. pose proof (turn_norm (Z.to_nat (Z.abs m))) as H. destruct (turn _) as [c s]. cbn in H. destruct (m <? 0)%Z; cbn; rewrite <- H; ring.
Qed.
Definition heads : tensor4 := [[[[1; unit_c; 0; 1 + 1]; [1; 0; 1; 0]]]].
Lemma rotary_relative_positions_witness :
  ∃ q1 k1 q2 k2, apply_rotary_pos_emb heads heads (rotary_table (cos_row 2 demo) 5) (rotary_table (sin_row 2 demo) 5) [[0; 2]%Z] = Ok (q1, k1) ∧
    apply_rotary_pos_emb heads heads (rotary_table (cos_row 2 demo) 5) (rotary_table (sin_row 2 demo) 5) [[2; 4]%Z] = Ok (q2, k2) ∧
    score q2 k2 0 0 0 1 0 = score q1 k1 0 0 0 1 0.
Proof.
  destruct (rotary_relative_positions 2 2 demo 5 heads heads [[0; 2]%Z] 2%Z demo_angles) with (apply := apply_rotary_pos_emb) as (q1 & k1 & q2 & k2 & H1 & H2 & H3).
  1, 2: repeat constructor.
  1, 2: reflexivity.
  1, 2: repeat constructor; cbn; lia.
  1: repeat constructor; cbn; lia.
  1: by left.
  exists q1, k1, q2, k2. split; [exact H1|]. split; [exact H2|]. apply H3.
Defined.
End RotaryDemo.

(** ** qwen3_paged_attention.py *)
(** [x.view(-1, d)] of a row whose length is a multiple of [d] *)
Fixpoint split_heads (heads d : nat) (x : list Qc) : list (list Qc) :=
  match heads with O => [] | S heads => take d x :: split_heads heads d (drop d x) end.
(** [x.transpose(1, 2)] of an entry with [n] columns *)
Definition swap {A} (n : nat) (x : list (list A)) : list (list A) := map (λ j, omap (lookup j) x) (seq 0 n).
(** What a backend returns: nothing, a tensor of another rank, or the outputs of the tokens *)
Inductive backend_output := NoOutput | OtherRank | Tokens (out : list (list (list Qc))).

Section paged_attention.
(** A position's cosines and sines (one for every token of [hidden]), and what transformers' [apply_rotary_pos_emb] does to a head with them *)
Context {PE : Type} (rope : PE → list Qc → list Qc).
Context (head_dim num_heads num_kv_heads : nat) (q_proj k_proj v_proj o_proj : list Qc → list Qc) (q_norm k_norm : list Qc → list Qc).
Abbreviation states := (list (list (list Qc))).   (** heads, tokens, numbers: one batch entry *)
(** [past_key_values.update] *)
Context (cache_update : option (list states → list states → list states * list states)).
Context (super_forward : list (list (list Qc)) → list (list PE) → res (list (list (list Qc)))).
Abbreviation backend := (list (list (list Qc)) → list (list (list Qc)) → list (list (list Qc)) → backend_output).
(** The context of the class: a backend (with its metadata) or none *)
Context (paged_context : option backend).

Definition project_heads (heads : nat) (proj norm : list Qc → list Qc) (tokens : list (list Qc)) : res states :=
  xs ← traverse (λ x, let y := proj x in if length y =? heads * head_dim then Ok (map norm (split_heads heads head_dim y)) else Err RuntimeError) tokens;
  Ok (swap heads xs).
Definition rope_states (pe : list PE) (x : states) : states := map (λ h, zip_with rope pe h) x.
(** [states.transpose(1, 2).contiguous().view(-1, heads, head_dim)] *)
Definition to_tokens (tokens_per_entry : nat) (x : list states) : list (list (list Qc)) := concat (map (swap tokens_per_entry) x).
(** [x.view(bsz, q_len, ...)] of tokens *)
Fixpoint split_entries {A} (bsz q_len : nat) (x : list A) : list (list A) :=
  match bsz with O => [] | S bsz => take q_len x :: split_entries bsz q_len (drop q_len x) end.
Definition view_output (bsz q_len : nat) (out : list (list (list Qc))) : res (list states) :=
  let flat := concat (map (λ tok, concat tok) out) in
  if length flat =? bsz * q_len * num_heads * head_dim
  then Ok (map (λ e, swap num_heads (map (split_heads num_heads head_dim) e))
             (split_entries bsz q_len (split_heads (bsz * q_len) (num_heads * head_dim) flat)))
  else Err RuntimeError.
Definition states_tokens (n : nat) (x : list states) : nat := match x with (h :: _) :: _ => length h | _ => n end.

Definition forward (q_len : nat) (hidden : list (list (list Qc))) (position_embeddings : list (list PE)) : res (list (list (list Qc))) :=
  match paged_context with
  | None => super_forward hidden position_embeddings
  | Some run =>
      q ← traverse (project_heads num_heads q_proj q_norm) hidden;
      k ← traverse (project_heads num_kv_heads k_proj k_norm) hidden;
      v ← traverse (project_heads num_kv_heads v_proj id) hidden;
      let q := zip_with rope_states position_embeddings q in
      let k := zip_with rope_states position_embeddings k in
      let '(k, v) := match cache_update with Some update => update k v | None => (k, v) end in
      match run (to_tokens q_len q) (to_tokens (states_tokens q_len k) k) (to_tokens (states_tokens q_len v) v) with
      | NoOutput | OtherRank => Err ValueError
      | Tokens out =>
          o ← view_output (length hidden) q_len out;
          Ok (map (λ e, map (λ tok, o_proj (concat tok)) (swap q_len e)) o)
      end
  end.
End paged_attention.

(** ** The layout of tokens *)
Section swaps.
Context {A : Type}.
Implicit Types x : list (list A).
Lemma column_lookup m x j i : rectangular m x → j < m → omap (lookup j) x !! i = x !! i ≫= lookup j.
Proof.
  intros Hx Hj. revert i. induction Hx as [|r x Hr _ IH]; intros i; [done|]. cbn [omap list_omap].
  destruct (lookup_lt_is_Some_2 r j) as [z Hz]; [lia|]. rewrite Hz. destruct i as [|i]; [cbn; by rewrite Hz|]. exact (IH i).
Qed.
Lemma column_length m x j : rectangular m x → j < m → length (omap (lookup j) x) = length x.
Proof.
  intros Hx Hj. induction Hx as [|r x Hr _ IH]; [done|]. cbn [omap list_omap]. destruct (lookup_lt_is_Some_2 r j) as [z Hz]; [lia|]. rewrite Hz. cbn. by rewrite IH.
Qed.
Lemma swap_rectangular m x : rectangular m x → rectangular (length x) (swap m x).
Proof. intros Hx. apply Forall_fmap, Forall_forall. intros j Hj%elem_of_seq. apply (column_length m); [done|lia]. Qed.
Lemma swap_lookup m x j : j < m → swap m x !! j = Some (omap (lookup j) x).
Proof. intros Hj. unfold swap. by rewrite list_lookup_fmap, lookup_seq_lt. Qed.
Lemma length_swap m x : length (swap m x) = m.
Proof. unfold swap. by rewrite length_map, length_seq. Qed.
Lemma swap_swap n m x : length x = n → rectangular m x → swap n (swap m x) = x.
Proof.
  intros Hn Hm. apply list_eq. intros i. destruct (decide (i < n)) as [Hi|Hi].
  - rewrite swap_lookup by done. destruct (lookup_lt_is_Some_2 x i) as [r Hr]; [lia|]. rewrite Hr. f_equal.
    pose proof (Forall_lookup_1 _ _ _ _ Hm Hr) as Hlen. cbn in Hlen. apply list_eq. intros j.
    rewrite (column_lookup n) by (done || (rewrite <- Hn; by apply swap_rectangular)). destruct (decide (j < m)) as [Hj|Hj].
    + rewrite swap_lookup by done. cbn. rewrite (column_lookup m) by done. by rewrite Hr.
    + rewrite !(proj2 (lookup_ge_None _ _)) by (rewrite ?length_swap; lia). done.
  - rewrite !(proj2 (lookup_ge_None _ _)) by (rewrite ?length_swap; lia). done.
Qed.
Lemma swap_map {B} (f : A → B) m x : map (map f) (swap m x) = swap m (map (map f) x).
Proof.
  unfold swap. rewrite map_map. apply map_ext. intros j. induction x as [|r x IH]; [done|]. cbn [map omap list_omap].
  rewrite list_lookup_fmap. destruct (r !! j); cbn; by rewrite IH.
Qed.
End swaps.
Lemma split_heads_concat h d (x : list (list Qc)) : length x = h → rectangular d x → split_heads h d (concat x) = x.
Proof.
  revert h. induction x as [|r x IH]; intros h Hh Hx; [by subst|]. apply Forall_cons in Hx as [Hr Hx]. destruct h as [|h]; [done|]. cbn [split_heads concat].
  rewrite take_app_length', drop_app_length' by done. f_equal. apply IH; [by injection Hh|done].
Qed.
Lemma split_entries_lengths {A} b n (x : list A) : length x = b * n → rectangular n (split_entries b n x).
Proof.
  revert x. induction b as [|b IH]; intros x Hx; cbn; constructor; [rewrite length_take; lia|]. apply IH. rewrite length_drop. lia.
Qed.
Lemma split_entries_map {A B} (f : A → B) b n x : split_entries b n (map f x) = map (map f) (split_entries b n x).
Proof. revert x. induction b as [|b IH]; intros x; [done|]. cbn [split_entries map]. by rewrite skipn_map, IH, firstn_map. Qed.

(** ** The module computes token by token *)
Section paged_props.
Context {PE : Type} (rope : PE → list Qc → list Qc).
Context (head_dim num_heads num_kv_heads : nat) (q_proj k_proj v_proj o_proj q_norm k_norm : list Qc → list Qc).
Context (q_len : nat).
Hypothesis (Hq : ∀ x, length (q_proj x) = num_heads * head_dim) (Hk : ∀ x, length (k_proj x) = num_kv_heads * head_dim)
           (Hv : ∀ x, length (v_proj x) = num_kv_heads * head_dim).

(** The heads of one token at its position *)
Definition token_heads (heads : nat) (proj norm : list Qc → list Qc) (f : list Qc → list Qc) (x : list Qc) : list (list Qc) :=
  map (λ h, f (norm h)) (split_heads heads head_dim (proj x)).
Definition token_list (heads : nat) (proj norm : list Qc → list Qc) (hidden : list (list (list Qc))) (pe : list (list PE)) : list (list (list Qc)) :=
  concat (zip_with (λ p e, zip_with (λ p x, token_heads heads proj norm (rope p) x) p e) pe hidden).
Lemma length_split_heads h d x : length (split_heads h d x) = h.
Proof. revert x. induction h; intros; cbn; [done|]. by rewrite IHh. Qed.

Lemma project_ok heads proj norm tokens :
  (∀ x, length (proj x) = heads * head_dim) →
  project_heads head_dim heads proj norm tokens = Ok (swap heads (map (λ x, map norm (split_heads heads head_dim (proj x))) tokens)).
Proof.
  intros Hp. unfold project_heads. rewrite (traverse_ok _ (λ x, map norm (split_heads heads head_dim (proj x)))); [done|]. intros x _. cbn. by rewrite Hp, Nat.eqb_refl.
Qed.
Lemma project_all heads proj norm hidden :
  (∀ x, length (proj x) = heads * head_dim) →
  traverse (project_heads head_dim heads proj norm) hidden = Ok (map (λ tokens, swap heads (map (λ x, map norm (split_heads heads head_dim (proj x))) tokens)) hidden).
Proof. intros Hp. apply traverse_ok. intros; by apply project_ok. Qed.
(** Swapping back after the rotation gives every token its rotated heads. *)
Lemma swap_rope heads proj norm pe tokens :
  length pe = q_len → length tokens = q_len →
  swap q_len (rope_states rope pe (swap heads (map (λ x, map norm (split_heads heads head_dim (proj x))) tokens))) =
  zip_with (λ p x, token_heads heads proj norm (rope p) x) pe tokens.
Proof.
  intros Hpe Ht. set (x := map _ tokens).
  assert (rectangular heads x) as Hx by (apply Forall_fmap, Forall_forall; intros y _; unfold compose; by rewrite length_map, length_split_heads).
  assert (rope_states rope pe (swap heads x) = swap heads (zip_with (λ p r, map (rope p) r) pe x)) as ->.
  { unfold rope_states, swap. rewrite map_map. apply map_ext_in. intros j Hj%in_seq. clear -Hx Hj. revert pe.
    induction Hx as [|r x Hr _ IH]; intros pe; [by destruct pe|]. destruct (lookup_lt_is_Some_2 r j) as [z Hz]; [lia|].
    destruct pe as [|p pe]; cbn [omap list_omap zip_with]; [done|]. rewrite Hz, list_lookup_fmap, Hz. cbn. f_equal. apply IH. }
  rewrite swap_swap; [| |].
  - unfold x. clear. revert pe. induction tokens as [|y tokens IH]; intros [|p pe]; cbn; f_equal; [|apply IH]. unfold token_heads. by rewrite map_map.
  - rewrite length_zip_with. unfold x. rewrite length_map. lia.
  - clear -Hx. revert pe. induction Hx as [|r x Hr _ IH]; intros [|p pe]; cbn; constructor; [by rewrite length_map|apply IH].
Qed.
Lemma to_tokens_rope heads proj norm hidden pe :
  Forall (λ e, length e = q_len) hidden → Forall (λ p, length p = q_len) pe →
  to_tokens q_len (zip_with (rope_states rope) pe (map (λ tokens, swap heads (map (λ x, map norm (split_heads heads head_dim (proj x))) tokens)) hidden)) =
  token_list heads proj norm hidden pe.
Proof.
  intros Hh Hp. unfold to_tokens, token_list. f_equal. revert hidden Hh. induction Hp as [|p pe Hp _ IH]; intros hidden Hh; [by destruct hidden|].
  destruct Hh as [|e hidden He Hh]; [done|]. cbn [map zip_with]. f_equal; [by apply swap_rope|by apply IH].
Qed.
Lemma states_tokens_rope heads (proj norm : list Qc → list Qc) hidden pe :
  0 < heads → Forall (λ e, length e = q_len) hidden → Forall (λ p, length p = q_len) pe →
  states_tokens q_len (zip_with (rope_states rope) pe (map (λ tokens, swap heads (map (λ x, map norm (split_heads heads head_dim (proj x))) tokens)) hidden)) = q_len.
Proof.
  intros Hh He Hp. destruct Hp as [|p pe Hp _]; [done|]. destruct He as [|e hidden He _]; [done|]. cbn [zip_with map states_tokens].
  destruct heads as [|n]; [lia|]. unfold rope_states, swap. cbn [seq map]. rewrite length_zip_with, (column_length (S n)); [rewrite length_map; lia| |lia].
  apply Forall_fmap, Forall_forall. intros y _. unfold compose. by rewrite length_map, length_split_heads.
Qed.
Lemma plain_tokens heads (proj : list Qc → list Qc) hidden :
  Forall (λ e, length e = q_len) hidden →
  to_tokens q_len (map (λ tokens, swap heads (map (λ x, map id (split_heads heads head_dim (proj x))) tokens)) hidden) =
  concat (map (map (λ x, split_heads heads head_dim (proj x))) hidden).
Proof.
  intros Hh. unfold to_tokens. f_equal. rewrite map_map. induction Hh as [|e hidden He _ IH]; [done|]. cbn [map]. rewrite IH. f_equal.
  rewrite swap_swap; [|by rewrite length_map|].
  - apply map_ext. intros x. apply map_id.
  - apply Forall_fmap, Forall_forall. intros y _. unfold compose. by rewrite length_map, length_split_heads.
Qed.
Lemma plain_states_tokens heads (proj : list Qc → list Qc) hidden :
  0 < heads → Forall (λ e, length e = q_len) hidden →
  states_tokens q_len (map (λ tokens, swap heads (map (λ x, map id (split_heads heads head_dim (proj x))) tokens)) hidden) = q_len.
Proof.
  intros Hh He. destruct He as [|e hidden He _]; [done|]. cbn [map states_tokens]. destruct heads as [|n]; [lia|]. unfold swap. cbn [seq map].
  rewrite (column_length (S n)); [by rewrite length_map| |lia]. apply Forall_fmap, Forall_forall. intros y _. unfold compose. by rewrite length_map, length_split_heads.
Qed.
Lemma concat_split_heads h d (x : list Qc) : length x = h * d → concat (split_heads h d x) = x.
Proof.
  revert x. induction h as [|h IH]; intros x Hx; cbn [split_heads concat]; [by apply nil_length_inv in Hx|].
  rewrite IH, take_drop; [done|]. rewrite length_drop. lia.
Qed.
Lemma concat_split_entries {A} b n (x : list A) : length x = b * n → concat (split_entries b n x) = x.
Proof.
  revert x. induction b as [|b IH]; intros x Hx; cbn [split_entries concat]; [by apply nil_length_inv in Hx|].
  rewrite IH, take_drop; [done|]. rewrite length_drop. lia.
Qed.
Lemma length_split_entries {A} b n (x : list A) : length (split_entries b n x) = b.
Proof. revert x. induction b as [|b IH]; intros x; cbn; [done|]. by rewrite IH. Qed.
Lemma split_entries_Forall {A} (P : A → Prop) b n x : Forall P x → Forall (Forall P) (split_entries b n x).
Proof. revert x. induction b as [|b IH]; intros x Hx; cbn; constructor; [by apply Forall_take|]. by apply IH, Forall_drop. Qed.
(** What the module does with the numbers a backend returned *)
Lemma view_output_other b (out : list (list (list Qc))) :
  length (concat (map (λ tok, concat tok) out)) ≠ b * q_len * num_heads * head_dim →
  view_output head_dim num_heads b q_len out = Err RuntimeError.
Proof. intros Hn. unfold view_output. by rewrite (proj2 (Nat.eqb_neq _ _) Hn). Qed.
Lemma view_output_ok b (out : list (list (list Qc))) toks :
  concat toks = concat (map (λ tok, concat tok) out) → length toks = b * q_len → rectangular (num_heads * head_dim) toks →
  view_output head_dim num_heads b q_len out = Ok (map (λ e, swap num_heads (map (split_heads num_heads head_dim) e)) (split_entries b q_len toks)).
Proof.
  intros Hc Hl Ht. unfold view_output. rewrite <- Hc, (length_concat_rows _ _ Ht), Hl.
  replace (b * q_len * (num_heads * head_dim)) with (b * q_len * num_heads * head_dim) by lia.
  by rewrite Nat.eqb_refl, split_heads_concat.
Qed.
Lemma project_output b toks :
  length toks = b * q_len → rectangular (num_heads * head_dim) toks →
  map (λ e, map (λ tok, o_proj (concat tok)) (swap q_len e))
      (map (λ e, swap num_heads (map (split_heads num_heads head_dim) e)) (split_entries b q_len toks)) =
  split_entries b q_len (map o_proj toks).
Proof.
  intros Hl Ht. rewrite split_entries_map, map_map. pose proof (split_entries_lengths b q_len toks Hl) as Hr.
  pose proof (split_entries_Forall _ b q_len toks Ht) as Hf. unfold rectangular in Hr. rewrite !Forall_forall in Hr. rewrite Forall_forall in Hf.
  apply map_ext_in. intros e Hin%list_elem_of_In. rewrite swap_swap; [| |].
  - rewrite map_map. apply map_ext_in. intros tok Htok%list_elem_of_In. rewrite concat_split_heads; [done|].
    specialize (Hf e Hin). rewrite Forall_forall in Hf. by apply Hf.
  - rewrite length_map. by apply Hr.
  - apply Forall_fmap, Forall_forall. intros tok _. apply length_split_heads.
Qed.

(** C29: the paged attention module computes token by token.  With a backend in the context of its
    class and no [past_key_values], the module gives the backend the rotated heads of every
    token, entry after entry in the order of the tokens.  It returns for every entry and token
    the output projection of the row the backend computed for it, its heads side by side: the
    rows [toks] into which the numbers of the returned tensor divide; all transpositions on the
    way cancel.  A tensor with another number of entries raises [RuntimeError] (from [view]), a
    backend that returns nothing or a tensor of another rank [ValueError]; without a context
    the module is the one it replaces. *)
Theorem paged_forward_exact super hidden pe (run : list (list (list Qc)) → list (list (list Qc)) → list (list (list Qc)) → backend_output) :
  0 < num_heads → 0 < num_kv_heads → Forall (λ e, length e = q_len) hidden → Forall (λ p, length p = q_len) pe → length pe = length hidden →
  let fwd ctx := forward rope head_dim num_heads num_kv_heads q_proj k_proj v_proj o_proj q_norm k_norm None super ctx q_len hidden pe in
  fwd None = super hidden pe ∧
  match run (token_list num_heads q_proj q_norm hidden pe) (token_list num_kv_heads k_proj k_norm hidden pe)
            (concat (map (map (λ x, split_heads num_kv_heads head_dim (v_proj x))) hidden)) with
  | Tokens out =>
      let flat := concat (map (λ tok, concat tok) out) in
      (length flat ≠ length hidden * q_len * num_heads * head_dim → fwd (Some run) = Err RuntimeError) ∧
      (∀ toks, concat toks = flat → length toks = length hidden * q_len → rectangular (num_heads * head_dim) toks →
         ∃ result, fwd (Some run) = Ok result ∧ concat result = map o_proj toks ∧ length result = length hidden ∧ rectangular q_len result)
  | _ => fwd (Some run) = Err ValueError
  end.
Proof.
  intros Hh Hkv He Hp Hl fwd. split; [done|]. unfold fwd, forward. clear fwd.
  rewrite (project_all num_heads), (project_all num_kv_heads k_proj), (project_all num_kv_heads v_proj) by done.
  unfold mbind, res_mbind. rewrite states_tokens_rope, plain_states_tokens, !to_tokens_rope, plain_tokens by done.
  destruct (run _ _ _) as [| |out]; [done|done|]. split.
  - intros Hn. by rewrite view_output_other.
  - intros toks Hc Ht Hr. rewrite (view_output_ok _ _ toks) by done. exists (split_entries (length hidden) q_len (map o_proj toks)).
    split; [by rewrite project_output|]. rewrite concat_split_entries, length_split_entries by (by rewrite length_map).
    split_and!; [done|done|]. apply split_entries_lengths. by rewrite length_map.
Qed.
End paged_props.

Module PagedModuleDemo.
Open Scope Qc_scope.
Definition leading (n : nat) (x : list Qc) : list Qc := take n (x ++ replicate n 0)%list.
Lemma length_leading n x : length (leading n x) = n.
Proof. unfold leading. rewrite length_take, length_app, length_replicate. lia. Qed.
Definition identity_backend (q k v : list (list (list Qc))) : backend_output := Tokens q.
Definition hidden : list (list (list Qc)) := [[[1; 0]; [0; 1]]; [[1; 1]; [1 + 1; 0]]].
(** A backend that forgets the last token *)
Definition short_backend (q k v : list (list (list Qc))) : backend_output := Tokens (take 3 q).
Lemma paged_forward_exact_witness :
  let fwd run := forward (λ c : Qc, map (Qcmult c)) 1 2 1 (leading 2) (leading 1) (leading 1) id id id None (λ _ _, Ok []) (Some run) 2 hidden [[1; 1 + 1]; [1; 1]] in
  (∃ result, fwd identity_backend = Ok result ∧ concat result = [[1; 0]; [0; 1 + 1]; [1; 1]; [1 + 1; 0]] ∧ length result = 2%nat ∧ rectangular 2 result) ∧
  fwd short_backend = Err RuntimeError.
Proof.
  intros fwd.
  assert (∀ run, _) as H by exact (λ run, paged_forward_exact (λ c : Qc, map (Qcmult c)) 1 2 1 (leading 2) (leading 1) (leading 1) id id id 2
    (length_leading 2) (length_leading 1) (length_leading 1) (λ _ _, Ok []) hidden [[1; 1 + 1]; [1; 1]] run ltac:(lia) ltac:(lia)
    ltac:(repeat constructor) ltac:(repeat constructor) eq_refl).
  split.
  - destruct (H identity_backend) as [_ [_ H1]]. apply (H1 [[1; 0]; [0; 1 + 1]; [1; 1]; [1 + 1; 0]]); [vm_compute; reflexivity|reflexivity|repeat constructor].
  - destruct (H short_backend) as [_ [H1 _]]. apply H1. vm_compute. discriminate.
Defined.
End PagedModuleDemo.
