(* ===== verification/ExpertTracing.v ===== *)
(** * Expert traces, prediction and priorities
    (memory/expert_tracer.py, memory/expert_predictor.py,
    memory/expert_priority_score.py, memory/expert_entry.py)

    The tracer with its live entries, its collection of finished traces and its log of I/O
    events; the predictor that turns the most similar trace into priorities of the layers
    ahead; the scores of the cache policies.  Floating-point numbers are exact
    rationals, [None] is NaN.  The cosine similarity and [torch.argmin] are arguments;
    clocks and uuids are inputs.  Arrays and tensors are values: a copy to another device
    is a copy; which of them the collection is decides which operations work on it. *)
From Stdlib Require Import QArith Qcanon Qround String.
From S2P Require Import Prelude Tensor.
Open Scope nat_scope.

Abbreviation matrix := (list (list Qc)).
Definition q_of (z : Z) : Qc := Q2Qc (inject_Z z).
Definition zeros (rows cols : nat) : matrix := replicate rows (replicate cols 0%Qc).
Definition msum (m : matrix) : Qc := qcsum (map qcsum m).
(** [m[i] = ...] of a row or entry, with the index arithmetic of numpy *)
Definition np_index (n : nat) (i : Z) : res nat :=
  let j := (if i <? 0 then i + Z.of_nat n else i)%Z in
  if (j <? 0)%Z || (Z.of_nat n <=? j)%Z then Err IndexError else Ok (Z.to_nat j).

(** ** Entries *)
Record ExpertTraceEntry := { te_seq_id : string; te_matrix : matrix; te_access : Z; te_num_new_tokens : Z }.
Record ExpertCacheEntry := { ce_expert_idx : Z; ce_layer_idx : Z; ce_r : Qc; ce_visit : Z; ce_timestamp : Z }.
Definition set_matrix (m : matrix) (e : ExpertTraceEntry) : ExpertTraceEntry :=
  {| te_seq_id := te_seq_id e; te_matrix := m; te_access := te_access e; te_num_new_tokens := te_num_new_tokens e |}.
Definition add_token (e : ExpertTraceEntry) : ExpertTraceEntry :=
  {| te_seq_id := te_seq_id e; te_matrix := te_matrix e; te_access := te_access e; te_num_new_tokens := (te_num_new_tokens e + 1)%Z |}.

(** ** I/O events *)
Definition VALID_IO_STAGES : list string :=
  ["routing"; "cache_lookup"; "prefetch_predict"; "transfer_schedule"; "disk_to_cpu"; "cpu_to_gpu"; "sync_wait";
   "expert_compute"; "eviction"; "queue_coordination"]%string.
Record io_event := { ev_ts_ns : Z; ev_layer_idx : Z; ev_expert_id : Z; ev_stage : string; ev_duration_ns : Z; ev_bytes : Z }.
(** [deque(maxlen=10000)] *)
Definition MAX_IO_EVENTS : nat := 100 * 100.
Definition deque_append {A} (maxlen : nat) (x : A) (l : list A) : list A :=
  let l := l ++ [x] in drop (length l - maxlen) l.

(** ** The tracer *)
(** What [trace_collection] is: a tensor on the GPU (from [__init__]), a tensor on the CPU (from
    a file) or a numpy array (as given to [load_trace]) *)
Inductive array_kind := CudaTensor | CpuTensor | NumpyArray.
#[export] Instance array_kind_eq_dec : EqDecision array_kind.
Proof. solve_decision. Defined.
Record ExpertTracer := {
  num_layers : nat; num_experts : nat; num_encoder_layers : nat; capacity : nat;
  trace : gmap string ExpertTraceEntry;
  trace_collection : list matrix;
  collection_kind : array_kind;
  collection_access : list Z;
  persistent_capacity : option nat;        (** set by [load_trace] only *)
  io_events : option (list io_event);
  io_profiling_enabled : option bool }.

Definition tracer_init (layers experts encoder_layers cap : nat) : ExpertTracer :=
  {| num_layers := layers; num_experts := experts; num_encoder_layers := encoder_layers; capacity := cap; trace := ∅;
     trace_collection := replicate cap (zeros layers experts); collection_kind := CudaTensor; collection_access := replicate cap 0%Z;
     persistent_capacity := None; io_events := None; io_profiling_enabled := None |}.
Definition set_trace (t : gmap string ExpertTraceEntry) (s : ExpertTracer) : ExpertTracer :=
  {| num_layers := num_layers s; num_experts := num_experts s; num_encoder_layers := num_encoder_layers s; capacity := capacity s;
     trace := t; trace_collection := trace_collection s; collection_kind := collection_kind s; collection_access := collection_access s;
     persistent_capacity := persistent_capacity s; io_events := io_events s; io_profiling_enabled := io_profiling_enabled s |}.
Definition set_collection (c : list matrix) (a : list Z) (p : option nat) (s : ExpertTracer) : ExpertTracer :=
  {| num_layers := num_layers s; num_experts := num_experts s; num_encoder_layers := num_encoder_layers s; capacity := capacity s;
     trace := trace s; trace_collection := c; collection_kind := collection_kind s; collection_access := a;
     persistent_capacity := p; io_events := io_events s; io_profiling_enabled := io_profiling_enabled s |}.
Definition set_kind (k : array_kind) (s : ExpertTracer) : ExpertTracer :=
  {| num_layers := num_layers s; num_experts := num_experts s; num_encoder_layers := num_encoder_layers s; capacity := capacity s;
     trace := trace s; trace_collection := trace_collection s; collection_kind := k; collection_access := collection_access s;
     persistent_capacity := persistent_capacity s; io_events := io_events s; io_profiling_enabled := io_profiling_enabled s |}.
Definition set_io (ev : option (list io_event)) (en : option bool) (s : ExpertTracer) : ExpertTracer :=
  {| num_layers := num_layers s; num_experts := num_experts s; num_encoder_layers := num_encoder_layers s; capacity := capacity s;
     trace := trace s; trace_collection := trace_collection s; collection_kind := collection_kind s; collection_access := collection_access s;
     persistent_capacity := persistent_capacity s; io_events := ev; io_profiling_enabled := en |}.

(** What [load_trace] is given: a path object (with the array in the file), an array, or
    something else, which it does not look at *)
Inductive trace_source := FromPath (a : list matrix) | FromArray (a : list matrix) | FromOther.
Definition load_trace (src : trace_source) : M ExpertTracer unit :=
  s ← get;
  let c := match src with FromPath a => a | FromArray a => a | FromOther => trace_collection s end in
  let k := match src with FromPath _ => CpuTensor | FromArray _ => NumpyArray | FromOther => collection_kind s end in
  modify (set_kind k);;
  modify (set_collection c (collection_access s) (Some (length c)));;
  raise_if (capacity s <? length c) AssertionError.

Definition create_entry (seq_id : string) : M ExpertTracer string :=
  s ← get;
  modify (set_trace (<[seq_id := {| te_seq_id := seq_id; te_matrix := zeros (num_layers s) (num_experts s);
                                    te_access := 0; te_num_new_tokens := 0 |}]> (trace s)));;
  mret seq_id.

Definition get_entry (seq_id : string) : M ExpertTracer ExpertTraceEntry :=
  s ← get;
  match trace s !! seq_id with Some e => mret e | None => raise KeyError end.
(** A copy with the layers of the encoder zeroed *)
Definition get_entry_decoder (seq_id : string) : M ExpertTracer ExpertTraceEntry :=
  e ← get_entry seq_id;
  s ← get;
  mret (set_matrix (imap (λ i row, if i <? num_encoder_layers s then map (λ _, 0%Qc) row else row) (te_matrix e)) e).

Definition lift_res {A} (r : res A) : M ExpertTracer A := λ s, (r, s).
(** [np.argmin]: the first index of a smallest entry *)
Fixpoint argmin_from (best : nat) (v : Z) (i : nat) (l : list Z) : nat :=
  match l with
  | [] => best
  | x :: l => if (x <? v)%Z then argmin_from i x (S i) l else argmin_from best v (S i) l
  end.
Definition np_argmin (l : list Z) : res nat :=
  match l with [] => Err ValueError | x :: l => Ok (argmin_from 0 x 1 l) end.

(** numpy's [target[...] = m] of a matrix: equal shapes, or a single row or column is repeated *)
Definition broadcast_row (cols : nat) (row : list Qc) : res (list Qc) :=
  if length row =? cols then Ok row else match row with [x] => Ok (replicate cols x) | _ => Err ValueError end.
Definition broadcast_to (target m : matrix) : res matrix :=
  let cols := length (default [] (head target)) in
  rows ← traverse (broadcast_row cols) m;
  if length rows =? length target then Ok rows else match rows with [r] => Ok (replicate (length target) r) | _ => Err ValueError end.
(** [self.trace_collection[idx] = self.trace[seq_id].matrix; self.collection_access[idx] = 1],
    of a numpy array *)
Definition store_trace (idx : nat) (seq_id : string) : M ExpertTracer unit :=
  e ← get_entry seq_id;
  s ← get;
  match trace_collection s !! idx with
  | None => raise IndexError
  | Some target =>
      m ← lift_res (broadcast_to target (te_matrix e));
      modify (set_collection (<[idx := m]> (trace_collection s)) (collection_access s) (persistent_capacity s));;
      raise_if (length (collection_access s) <=? idx) IndexError;;
      modify (set_collection (<[idx := m]> (trace_collection s)) (<[idx := 1%Z]> (collection_access s)) (persistent_capacity s))
  end.

Definition BIG : Z := 1000000000.
Definition is_empty_trace (m : matrix) : bool := bool_decide (msum m = 0%Qc).
(** [np.sum] of a tensor calls the tensor's own [sum] with an argument [out], which it does not
    take. *)
Definition finish_entry (seq_id : string) : M ExpertTracer unit :=
  s ← get;
  raise_if (bool_decide (collection_kind s ≠ NumpyArray)) TypeError;;
  match list_find (λ m, is_empty_trace m = true) (trace_collection s) with
  | Some (idx, _) => store_trace idx seq_id
  | None =>
      match persistent_capacity s with
      | None => raise AttributeError
      | Some p =>
          let access := replicate (p `min` length (collection_access s)) BIG ++ drop p (collection_access s) in
          idx ← lift_res (np_argmin access);
          store_trace idx seq_id
      end
  end.

(** [Counter(expert_list.flatten().tolist())]: keys in the order of their first occurrence *)
Fixpoint counter (l : list Z) : list (Z * Z) :=
  match l with
  | [] => []
  | x :: l => (x, 1 + Z.of_nat (length (filter (eq x) l)))%Z :: filter (λ p, p.1 ≠ x) (counter l)
  end.
(** [self.trace[seq_id].matrix[layer_idx, key] += count] *)
Definition bump (seq_id : string) (layer_idx : Z) (kc : Z * Z) : M ExpertTracer unit :=
  e ← get_entry seq_id;
  l ← lift_res (np_index (length (te_matrix e)) layer_idx);
  let row := default [] (te_matrix e !! l) in
  k ← lift_res (np_index (length row) kc.1);
  s ← get;
  modify (set_trace (<[seq_id := set_matrix (alter (alter (λ v, v + q_of kc.2)%Qc k) l (te_matrix e)) e]> (trace s))).
Definition update_entry (seq_id : string) (expert_list : list Z) (layer_idx : Z) : M ExpertTracer unit :=
  for_each (counter expert_list) (bump seq_id layer_idx);;
  s ← get;
  when (layer_idx =? Z.of_nat (num_layers s) - 1)%Z
    (e ← get_entry seq_id; s ← get; modify (set_trace (<[seq_id := add_token e]> (trace s)))).

(** *** The most similar trace *)
Section similarity.
Context (cos : list (option Qc) → list (option Qc) → option Qc) (argmin : list (option Qc) → nat).

(** [row / row.sum()]; zero by zero is NaN *)
Definition normalise_row (row : list Qc) : list (option Qc) :=
  let total := qcsum row in map (λ x, if bool_decide (total = 0%Qc) then None else Some (x / total)%Qc) row.
Definition masked_trace (layer_idx : nat) (m : matrix) : matrix :=
  imap (λ l row, if l <? layer_idx + 1 then map (λ _, Q2Qc (1 # 1000000000)) row else row) m.
Definition nan_to_num (x : option Qc) : option Qc := Some (default 0%Qc x).
(** [1 - mean(cos(...))] over the layers *)
Definition cos_dist (matrix_copy collected : list (list (option Qc))) : option Qc :=
  sims ← mapM (λ p, cos p.1 p.2) (zip matrix_copy collected);
  if length sims =? 0 then None else Some (1 - qcsum sims / q_of (Z.of_nat (length sims)))%Qc.
(** The distances to the traces: the query is repeated [capacity] times and compared with
    the collection, which torch broadcasts when one of the two has a single row. *)
Definition distances (cap : nat) (matrix_copy : list (list (option Qc))) (collected : list (list (list (option Qc)))) : res (list (option Qc)) :=
  let n := length collected in
  if cap =? 0 then Err RuntimeError
  else if (n =? cap) || (cap =? 1) then Ok (map (cos_dist matrix_copy) collected)
  else match collected with [c] => Ok (replicate cap (cos_dist matrix_copy c)) | _ => Err RuntimeError end.
(** An array has no [clone]; a tensor on the CPU cannot be compared with one on the GPU. *)
Definition find_most_similar (m : matrix) (layer_idx : nat) : M ExpertTracer matrix :=
  s ← get;
  raise_if (bool_decide (collection_kind s = NumpyArray)) AttributeError;;
  raise_if (bool_decide (collection_kind s = CpuTensor)) RuntimeError;;
  let collected := map (λ c, map normalise_row (masked_trace layer_idx c)) (trace_collection s) in
  let matrix_copy := map (λ row, map nan_to_num (normalise_row row)) m in
  dists ← lift_res (distances (capacity s) matrix_copy collected);
  let min_idx := argmin dists in
  raise_if (length (collection_access s) <=? min_idx) IndexError;;
  modify (set_collection (trace_collection s) (alter (λ a, a + 1)%Z min_idx (collection_access s)) (persistent_capacity s));;
  match trace_collection s !! min_idx with Some e => mret e | None => raise IndexError end.

(** ** The predictor *)
(** [-1 / (L + 1) * (x - l) + 1] *)
Definition layer_decay_func (x l L : nat) : Qc := (- (1) / q_of (Z.of_nat L + 1) * q_of (Z.of_nat x - Z.of_nat l) + 1)%Qc.
Definition EPS : Qc := Q2Qc (1 # 100000000).
Definition predict (has_tracer : bool) (seq_id : string) (expert_list : list Z) (layer_idx : nat) : M ExpertTracer matrix :=
  raise_if (negb has_tracer) RuntimeError;;
  update_entry seq_id expert_list (Z.of_nat layer_idx);;
  current_entry ← get_entry seq_id;
  expert_matrix ← find_most_similar (te_matrix current_entry) layer_idx;
  s ← get;
  raise_if ((layer_idx <? num_layers s) && (length expert_matrix <? num_layers s)) IndexError;;
  mret (imap (λ l row,
          if l <? layer_idx then map (λ _, 0%Qc) row
          else if l <? num_layers s then map (λ x, (x + EPS) * layer_decay_func l layer_idx (num_layers s))%Qc row
          else row) expert_matrix).
End similarity.

(** *** Recording I/O *)
Definition init_io_tracking (env : bool) : M ExpertTracer unit :=
  s ← get;
  modify (set_io (Some (default [] (io_events s))) (Some (default env (io_profiling_enabled s)))).
Definition ensure_io (env : bool) : M ExpertTracer unit :=
  s ← get;
  when (bool_decide (io_events s = None ∨ io_profiling_enabled s = None)) (init_io_tracking env).
(** [env] says whether the environment variable asks for profiling, [now] is the clock. *)
Definition record_io_event (env : bool) (now layer_idx expert_id : Z) (stage : string) (duration_ns bytes : Z) : M ExpertTracer unit :=
  ensure_io env;;
  s ← get;
  if negb (default false (io_profiling_enabled s)) then mret tt
  else
    raise_if (negb (bool_decide (stage ∈ VALID_IO_STAGES))) ValueError;;
    modify (set_io (Some (deque_append MAX_IO_EVENTS
      {| ev_ts_ns := now; ev_layer_idx := layer_idx; ev_expert_id := expert_id; ev_stage := stage;
         ev_duration_ns := duration_ns; ev_bytes := bytes |} (default [] (io_events s)))) (io_profiling_enabled s)).

(** [np.percentile] of a sorted list, interpolating between neighbours *)
Definition percentile (sorted : list Z) (p : Z) : Qc :=
  let position := ((Z.of_nat (length sorted) - 1) * p)%Z in   (** in hundredths *)
  let i := Z.to_nat (position / 100)%Z in
  let lo := nth i sorted 0%Z in
  let hi := nth (S i) sorted lo in
  (q_of lo + Q2Qc ((position mod 100)%Z # 100) * q_of (hi - lo))%Qc.
Fixpoint insert_sorted (x : Z) (l : list Z) : list Z :=
  match l with [] => [x] | y :: l' => if (x <=? y)%Z then x :: l else y :: insert_sorted x l' end.
Definition sort_z (l : list Z) : list Z := foldr insert_sorted [] l.

Record stage_stats := {
  st_count : nat; st_min : Z; st_max : Z; st_mean : Qc; st_p50 : Qc; st_p95 : Qc; st_p99 : Qc; st_bytes : Z }.
Definition stats_of (events : list io_event) : stage_stats :=
  let durations := map ev_duration_ns events in
  let d := default 0%Z (head durations) in
  {| st_count := length durations; st_min := foldl Z.min d durations; st_max := foldl Z.max d durations;
     st_mean := (q_of (zsum durations) / q_of (Z.of_nat (length durations)))%Qc;
     st_p50 := percentile (sort_z durations) 50; st_p95 := percentile (sort_z durations) 95; st_p99 := percentile (sort_z durations) 99;
     st_bytes := zsum (map ev_bytes events) |}.
(** The stages in the order of their first event *)
Fixpoint stages_of (events : list io_event) : list string :=
  match events with
  | [] => []
  | e :: l => ev_stage e :: filter (λ s, s ≠ ev_stage e) (stages_of l)
  end.
Definition get_io_stats (env : bool) : M ExpertTracer (list (string * stage_stats)) :=
  ensure_io env;;
  s ← get;
  if negb (default false (io_profiling_enabled s)) then mret []
  else
    let events := default [] (io_events s) in
    mret (map (λ stage, (stage, stats_of (filter (λ e, ev_stage e = stage) events))) (stages_of events)).
(** The events that [to_jsonl] writes, one line each *)
Definition to_jsonl (env : bool) : M ExpertTracer (list io_event) :=
  ensure_io env;;
  s ← get;
  mret (default [] (io_events s)).

(** ** Scores *)
Definition lru_score (cache_entries : list ExpertCacheEntry) : list ExpertCacheEntry :=
  map (λ e, {| ce_expert_idx := ce_expert_idx e; ce_layer_idx := ce_layer_idx e; ce_r := q_of (ce_timestamp e); ce_visit := 0; ce_timestamp := 0 |}) cache_entries.
(** Frequencies are keyed by expert and layer. *)
Definition lfu_score (expert_freq : list ((Z * Z) * Z)) : list ExpertCacheEntry :=
  let sum := zsum (map snd expert_freq) in
  let sum := if (sum =? 0)%Z then 1%Z else sum in
  map (λ kv, {| ce_expert_idx := kv.1.1; ce_layer_idx := kv.1.2; ce_r := (q_of kv.2 / q_of sum)%Qc; ce_visit := 0; ce_timestamp := 0 |}) expert_freq.

Definition decay_from_first (x L : nat) : Qc := (- (1) / q_of (Z.of_nat L) * q_of (Z.of_nat x) + 1)%Qc.
Definition decay_from_last (x L : nat) : Qc := (1 / q_of (Z.of_nat L + 1) * q_of (Z.of_nat x))%Qc.
Definition MILLIONTH : Qc := Q2Qc (1 # 1000000).
Definition mscale (c : Qc) (m : matrix) : matrix := map (map (λ x, x / c + MILLIONTH)%Qc) m.
Definition fill_rows (P : nat → bool) (m : matrix) : matrix := imap (λ i row, if P i then map (λ _, 1%Qc) row else row) m.

(** [frequency_score[key[1], key[0]] = value], all keys *)
Definition put_freq (m : matrix) (kv : (Z * Z) * Z) : res matrix :=
  l ← np_index (length m) kv.1.2;
  e ← np_index (length (default [] (m !! l))) kv.1.1;
  Ok (alter (<[e := q_of kv.2]>) l m).
Fixpoint put_freqs (m : matrix) (freq : list ((Z * Z) * Z)) : res matrix :=
  match freq with [] => Ok m | kv :: freq => m ← put_freq m kv; put_freqs m freq end.
(** [if np.sum(m[rows]) == 0: m[rows] = 1] *)
Definition fill_if_zero (P : nat → bool) (m : matrix) : matrix :=
  if bool_decide (msum (imap (λ i row, if P i then row else []) m) = 0%Qc) then fill_rows P m else m.
Definition topo_weight (current_layer : Z) (n_enc i : nat) : Qc :=
  if (current_layer <? Z.of_nat n_enc)%Z then
    if i <? n_enc then if (current_layer <? Z.of_nat i)%Z then decay_from_first i n_enc else 1%Qc
    else decay_from_last (i - n_enc) n_enc
  else
    if i <? n_enc then decay_from_first i n_enc
    else if (current_layer <? Z.of_nat i)%Z then decay_from_last (i - n_enc) n_enc else 1%Qc.
(** Rows divided by their sums, rows without activations set to ones before *)
Definition normalise_decoder (m : matrix) : matrix :=
  map (λ row, let row := if bool_decide (qcsum row = 0%Qc) then map (λ _, 1%Qc) row else row in
              map (λ x, x / qcsum row)%Qc row) m.
Definition mmul (a b : matrix) : matrix := zip_with (zip_with Qcmult) a b.
Definition positive_entries (m : matrix) : list ExpertCacheEntry :=
  concat (imap (λ l row, concat (imap (λ e r,
    if negb (Qle_bool (this r) 0) then [{| ce_expert_idx := Z.of_nat e; ce_layer_idx := Z.of_nat l; ce_r := r; ce_visit := 0; ce_timestamp := 0 |}] else []) row)) m).

(** The scores, and the matrix of [decoder_entry] as the call leaves it: unless it is all
    zeros its rows are normalised in place.  ([seq_expert_score] is computed from
    [trace_entries] but enters no result.) *)
Definition priority_score (expert_freq : list ((Z * Z) * Z)) (decoder_matrix : matrix) (current_layer : Z) (total_layer : nat)
    : res (list ExpertCacheEntry * matrix) :=
  let num_encoder_layers := total_layer / 2 in
  frequency_score ← put_freqs (map (map (λ _, 0%Qc)) decoder_matrix) expert_freq;
  let frequency_score := fill_if_zero (λ i, num_encoder_layers <=? i) frequency_score in
  let frequency_score := fill_if_zero (λ i, i <? num_encoder_layers) frequency_score in
  if bool_decide (msum frequency_score = 0%Qc) then Err AssertionError
  else
    let frequency_score := mscale (msum frequency_score) frequency_score in
    if Qle_bool (this (msum frequency_score)) 0 then Err AssertionError
    else
      let topo := imap (λ i row, map (λ _, topo_weight current_layer num_encoder_layers i) row) decoder_matrix in
      let all_zero := bool_decide (msum decoder_matrix = 0%Qc) in
      let normalised := normalise_decoder (if all_zero then map (map (λ _, 1%Qc)) decoder_matrix else decoder_matrix) in
      let left := if all_zero then decoder_matrix else normalised in
      if bool_decide (msum topo = 0%Qc) then Ok ([], left)
      else
        let total := mmul (mmul (mscale (msum topo) topo) (mscale (msum normalised) normalised)) frequency_score in
        Ok (positive_entries total, left).
