(* ===== verification/ExpertTracingProps.v ===== *)
(** * Traces and predictions are what they should be, and where they are not

    [tracer_inv] and its preservation; [predictions_never_use_traces] about what finishing a
    trace stores and what a lookup returns; [prediction_weights] about the priorities of the layers ahead;
    [priority_score_covers] about the scores of the cache policy. *)
From Stdlib Require Import QArith Qcanon Qround String Lqa.
From S2P Require Import Prelude Tensor ExpertTracing.
Open Scope nat_scope.

(** ** The collection of traces *)
Lemma get_entry_same seq_id s : (get_entry seq_id s).2 = s.
Proof. unfold get_entry, get, mbind, M_bind. by destruct (trace s !! seq_id). Qed.
Lemma get_entry_ok seq_id s e : trace s !! seq_id = Some e → get_entry seq_id s = (Ok e, s).
Proof. intros H. unfold get_entry, get, mbind, M_bind. by rewrite H. Qed.

(** Same collection, of the same kind, in a tracer of the same configuration *)
Definition same_traces (s s' : ExpertTracer) : Prop :=
  capacity s' = capacity s ∧ num_layers s' = num_layers s ∧ num_experts s' = num_experts s ∧
  collection_kind s' = collection_kind s ∧ trace_collection s' = trace_collection s.
#[export] Instance same_traces_po : PreOrder same_traces.
Proof. split; [intros s; by repeat split|intros a b c (?&?&?&?&?) (?&?&?&?&?); repeat split; congruence]. Qed.
Lemma bump_traces seq_id l kc s : same_traces s (bump seq_id l kc s).2.
Proof.
  unfold bump, mbind, M_bind. pose proof (get_entry_same seq_id s) as Hg. destruct (get_entry seq_id s) as [[e|x] s1]; cbn in Hg; subst s1; [|done].
  unfold lift_res. destruct (np_index _ l) as [l'|]; [|done]. destruct (np_index _ kc.1) as [k|]; [|done]. by repeat split.
Qed.
Lemma for_each_traces {A} (l : list A) (f : A → M ExpertTracer unit) s :
  (∀ a s, same_traces s (f a s).2) → same_traces s (for_each l f s).2.
Proof.
  intros Hf. revert s. induction l as [|a l IH]; intros s; cbn [for_each]; [done|]. unfold mbind, M_bind.
  pose proof (Hf a s) as H1. destruct (f a s) as [[u|x] s1]; cbn in *; [|done]. etrans; [exact H1|apply IH].
Qed.
Lemma update_entry_traces seq_id l layer s : same_traces s (update_entry seq_id l layer s).2.
Proof.
  unfold update_entry, mbind, M_bind. pose proof (for_each_traces (counter l) (bump seq_id layer) s (λ a s, bump_traces seq_id layer a s)) as H1.
  destruct (for_each _ _ s) as [[u|x] s1]; cbn in *; [|done]. etrans; [exact H1|]. unfold when, get. destruct (_ =? _)%Z; [|done].
  unfold mbind, M_bind. pose proof (get_entry_same seq_id s1) as Hg. destruct (get_entry seq_id s1) as [[e|x] s2]; cbn in Hg; subst s2; [|done]. by repeat split.
Qed.
Lemma find_most_similar_traces cos argmin m layer s : same_traces s (find_most_similar cos argmin m layer s).2.
Proof.
  unfold find_most_similar, get, mbind, M_bind, lift_res, raise_if, raise, modify, mret, M_ret.
  destruct (bool_decide _); [done|]. destruct (bool_decide _); [done|]. destruct (distances _ _ _ _) as [d|]; [|done].
  destruct (_ <=? argmin d); [done|]. cbn. destruct (trace_collection s !! argmin d); by repeat split.
Qed.
(** A tensor takes no finished trace. *)
Lemma finish_entry_tensor seq_id s : collection_kind s ≠ NumpyArray → finish_entry seq_id s = (Err TypeError, s).
Proof. intros Hk. unfold finish_entry, get, mbind, M_bind, raise_if, raise. by rewrite bool_decide_true. Qed.
(** An array stays one. *)
Lemma finish_entry_kind seq_id s :
  collection_kind (finish_entry seq_id s).2 = collection_kind s ∧ capacity (finish_entry seq_id s).2 = capacity s.
Proof.
  assert (∀ idx, collection_kind (store_trace idx seq_id s).2 = collection_kind s ∧ capacity (store_trace idx seq_id s).2 = capacity s) as Hst.
  { intros idx. unfold store_trace, mbind, M_bind. pose proof (get_entry_same seq_id s) as Hg.
    destruct (get_entry seq_id s) as [[e|x] s1]; cbn in Hg; subst s1; [|done]. unfold get, lift_res, raise_if, raise, modify, mret, M_ret.
    destruct (trace_collection s !! idx) as [target|]; [|done]. destruct (broadcast_to target (te_matrix e)); [|done].
    cbn. by destruct (length (collection_access s) <=? idx). }
  unfold finish_entry, get, mbind, M_bind, raise_if, raise. destruct (bool_decide _); [done|].
  destruct (list_find _ _) as [[idx m]|]; [apply Hst|]. destruct (persistent_capacity s) as [p|]; [|done].
  unfold lift_res. destruct (np_argmin _) as [idx|x]; [apply Hst|done].
Qed.

(** What happens to a tracer: entries are created, updated and finished, similar traces are
    looked up, and traces are loaded, each call returning or raising. *)
Inductive tracer_step (s : ExpertTracer) : ExpertTracer → Prop :=
  | step_create seq_id : tracer_step s (create_entry seq_id s).2
  | step_update seq_id l layer : tracer_step s (update_entry seq_id l layer s).2
  | step_finish seq_id : tracer_step s (finish_entry seq_id s).2
  | step_similar cos argmin m layer : tracer_step s (find_most_similar cos argmin m layer s).2
  | step_load src : tracer_step s (load_trace src s).2.
(** The tensor on the GPU is still the one of [__init__]. *)
Definition tracer_inv (layers experts cap : nat) (s : ExpertTracer) : Prop :=
  capacity s = cap ∧ (collection_kind s = CudaTensor → trace_collection s = replicate cap (zeros layers experts)).
Lemma same_traces_inv layers experts cap s s' : same_traces s s' → tracer_inv layers experts cap s → tracer_inv layers experts cap s'.
Proof. intros (Hc & _ & _ & Hk & Ht) [H1 H2]. unfold tracer_inv. by rewrite Hc, Hk, Ht. Qed.
Lemma tracer_step_inv layers experts cap s s' : tracer_step s s' → tracer_inv layers experts cap s → tracer_inv layers experts cap s'.
Proof.
  intros [seq_id|?|seq_id|?|src] Hi.
  - done.
  - eapply same_traces_inv, Hi. apply update_entry_traces.
  - destruct (decide (collection_kind s = NumpyArray)) as [Hk|Hk]; [|by rewrite finish_entry_tensor].
    destruct (finish_entry_kind seq_id s) as [E1 E2]. unfold tracer_inv. rewrite E1, E2, Hk. split; [apply Hi|done].
  - eapply same_traces_inv, Hi. apply find_most_similar_traces.
  - destruct Hi as [Hc Hi]. unfold load_trace, get, mbind, M_bind, modify, raise_if, raise, mret, M_ret.
    destruct src as [a|a|]; destruct (capacity s <? _); by split.
Qed.
Lemma reachable_inv layers experts encoders cap s : rtc tracer_step (tracer_init layers experts encoders cap) s → tracer_inv layers experts cap s.
Proof.
  intros Hr. assert (tracer_inv layers experts cap (tracer_init layers experts encoders cap)) as Hi by done.
  revert Hi. induction Hr as [s|s1 s2 s3 Hs _ IH]; [done|]. intros Hi. by apply IH, (tracer_step_inv _ _ _ s1).
Qed.

(** C39: the tracer never predicts from a trace.  After any history of calls, whether they
    returned or raised: finishing an entry raises [TypeError], storing nothing, unless the
    collection is a numpy array given to [load_trace]; looking up a similar trace raises
    ([AttributeError] for an array, [RuntimeError] for a tensor loaded from a file) unless the
    collection is the tensor of [__init__].  So a lookup that returns has always compared
    with the empty traces of [__init__] and returns one of them. *)
Theorem predictions_never_use_traces layers experts encoders cap s seq_id cos argmin m layer :
  rtc tracer_step (tracer_init layers experts encoders cap) s →
  (collection_kind s ≠ NumpyArray → finish_entry seq_id s = (Err TypeError, s)) ∧
  match find_most_similar cos argmin m layer s with
  | (Ok r, s') => r = zeros layers experts ∧ trace_collection s = replicate cap (zeros layers experts) ∧ collection_kind s = CudaTensor
  | (Err e, s') => (collection_kind s = NumpyArray → e = AttributeError ∧ s' = s) ∧ (collection_kind s = CpuTensor → e = RuntimeError ∧ s' = s)
  end.
Proof.
  intros [Hc Hi]%reachable_inv. split; [by apply finish_entry_tensor|].
  unfold find_most_similar, get, mbind, M_bind, lift_res, raise_if, raise, modify, mret, M_ret.
  destruct (collection_kind s) eqn:Hk; [|by rewrite bool_decide_false, bool_decide_true|by rewrite bool_decide_true].
  rewrite !bool_decide_false by done. specialize (Hi eq_refl). destruct (distances _ _ _ _) as [d|e]; [|done].
  destruct (_ <=? argmin d); [done|]. destruct (trace_collection s !! argmin d) as [r|] eqn:Hr; [|done].
  split; [|done]. rewrite Hi in Hr. by apply lookup_replicate in Hr as [-> _].
Qed.

(** A tracer whose entry was updated and could not be finished: the lookup returns zeros. *)
Definition demo_updated : ExpertTracer := (update_entry "a" [0%Z; 0%Z; 1%Z] 0 (create_entry "a" (tracer_init 1 2 0 2)).2).2.
Definition demo_tracer : ExpertTracer := (finish_entry "a" demo_updated).2.
Lemma demo_tracer_reachable : rtc tracer_step (tracer_init 1 2 0 2) demo_tracer.
Proof.
  eapply rtc_l; [apply (step_create _ "a")|]. eapply rtc_l; [apply (step_update _ "a" [0%Z; 0%Z; 1%Z] 0)|].
  eapply rtc_l; [apply (step_finish _ "a")|]. apply rtc_refl.
Qed.
Lemma predictions_never_use_traces_witness :
  finish_entry "a" demo_tracer = (Err TypeError, demo_tracer) ∧
  match find_most_similar (λ _ _, Some 1%Qc) (λ _, 0) [[Q2Qc 2; 1%Qc]] 0 demo_tracer with
  | (Ok r, _) => r = zeros 1 2
  | (Err _, _) => False
  end.
Proof.
  destruct (predictions_never_use_traces 1 2 0 2 demo_tracer "a" (λ _ _, Some 1%Qc) (λ _, 0) [[Q2Qc 2; 1%Qc]] 0 demo_tracer_reachable) as [H1 H2].
  split; [apply H1; vm_compute; discriminate|].
  assert (match find_most_similar (λ _ _, Some 1%Qc) (λ _, 0) [[Q2Qc 2; 1%Qc]] 0 demo_tracer with (Ok _, _) => true | _ => false end = true) as Hok
    by (vm_compute; reflexivity).
  destruct (find_most_similar _ _ _ _ demo_tracer) as [[r|e] s']; [apply H2|discriminate].
Defined.

(** ** Counting activations *)
Definition entry_q (m : matrix) (l x : nat) : Qc := default 0%Qc (m !! l ≫= lookup x).
Definition shaped (rows cols : nat) (m : matrix) : Prop := length m = rows ∧ Forall (λ r, length r = cols) m.
Definition occurrences (x : nat) (l : list Z) : Z := Z.of_nat (length (filter (eq (Z.of_nat x)) l)).
Definition count_of (x : Z) (ps : list (Z * Z)) : Z := zsum (map snd (filter (λ p, p.1 = x) ps)).

Lemma q_of_add a b : q_of (a + b) = (q_of a + q_of b)%Qc.
Proof.
  apply Qc_is_canon. unfold q_of, Qcplus. cbn [this Q2Qc]. rewrite !Qred_correct, inject_Z_plus. reflexivity.
Qed.
Lemma count_counter x l : count_of x (counter l) = Z.of_nat (length (filter (eq x) l)).
Proof.
  induction l as [|y l IH]; [done|]. cbn [counter]. unfold count_of in *. destruct (decide (x = y)) as [->|Hn].
  - rewrite filter_cons_True by done. rewrite filter_cons_True by done. cbn [map snd zsum foldr length].
    assert (∀ ps : list (Z * Z), filter (λ p, p.1 = y) (filter (λ p, p.1 ≠ y) ps) = []) as ->; [|cbn; lia].
    intros ps. apply elem_of_nil_inv. intros p [H1 [H2 _]%list_elem_of_filter]%list_elem_of_filter. done.
  - rewrite filter_cons_False by (cbn; congruence). rewrite filter_cons_False by done.
    rewrite list_filter_filter, (list_filter_iff _ (λ p : Z * Z, p.1 = x)) by (intros [k c]; cbn; split; [tauto|intros ->; split; congruence]).
    done.
Qed.
Lemma counter_keys l k c : (k, c) ∈ counter l → k ∈ l.
Proof.
  induction l as [|y l IH]; cbn [counter]; [by intros []%elem_of_nil|].
  intros [[= -> _]|[_ Hin]%list_elem_of_filter]%elem_of_cons; [left|right; by apply IH].
Qed.
Lemma np_index_in n i : (0 ≤ i < Z.of_nat n)%Z → np_index n i = Ok (Z.to_nat i).
Proof.
  intros Hi. unfold np_index. rewrite (proj2 (Z.ltb_ge i 0)) by lia. cbv zeta.
  by rewrite (proj2 (Z.ltb_ge i 0)), (proj2 (Z.leb_gt _ i)) by lia.
Qed.

(** One activation more at ([l], [k]) *)
Definition bumped (l k : nat) (c : Z) (m : matrix) : matrix := alter (alter (λ v, v + q_of c)%Qc k) l m.
Lemma bumped_shaped rows cols l k c m : shaped rows cols m → shaped rows cols (bumped l k c m).
Proof.
  intros [H1 H2]. unfold bumped. split; [by rewrite length_alter|]. apply Forall_alter; [done|]. intros r _ Hr. by rewrite length_alter.
Qed.
Lemma bumped_entry rows cols l k c m l' x : shaped rows cols m → l < rows → k < cols →
  entry_q (bumped l k c m) l' x = (entry_q m l' x + (if bool_decide (l' = l ∧ x = k) then q_of c else 0))%Qc.
Proof.
  intros [H1 H2] Hl Hk. unfold entry_q, bumped. destruct (decide (l' = l)) as [->|Hn].
  - rewrite list_lookup_alter_eq. destruct (lookup_lt_is_Some_2 m l) as [r Hr]; [lia|]. rewrite Hr. cbn.
    assert (length r = cols) as Hlen by exact (Forall_lookup_1 _ _ _ _ H2 Hr). destruct (decide (x = k)) as [->|Hx].
    + rewrite list_lookup_alter_eq, bool_decide_true by done. destruct (lookup_lt_is_Some_2 r k) as [v ->]; [lia|]. done.
    + rewrite list_lookup_alter_ne, bool_decide_false by naive_solver. ring.
  - rewrite list_lookup_alter_ne, bool_decide_false by naive_solver. ring.
Qed.

Section update.
Context (seq_id : string) (layer rows cols : nat).
Lemma bump_ok k c s e : trace s !! seq_id = Some e → shaped rows cols (te_matrix e) → layer < rows → (0 ≤ k < Z.of_nat cols)%Z →
  bump seq_id (Z.of_nat layer) (k, c) s =
  (Ok tt, set_trace (<[seq_id := set_matrix (bumped layer (Z.to_nat k) c (te_matrix e)) e]> (trace s)) s).
Proof.
  intros He [H1 H2] Hl Hk. unfold bump, mbind, M_bind. rewrite (get_entry_ok _ _ _ He). unfold lift_res, get, modify.
  rewrite np_index_in, Nat2Z.id by lia. destruct (lookup_lt_is_Some_2 (te_matrix e) layer) as [r Hr]; [lia|]. rewrite Hr. cbn [default from_option].
  unfold id. rewrite (Forall_lookup_1 _ _ _ _ H2 Hr). cbn [fst snd]. by rewrite np_index_in by lia.
Qed.
(** All the bumps of an update *)
Lemma bumps_ok ps s e : trace s !! seq_id = Some e → shaped rows cols (te_matrix e) → layer < rows →
  Forall (λ p, 0 ≤ p.1 < Z.of_nat cols)%Z ps →
  ∃ m, shaped rows cols m ∧
    for_each ps (bump seq_id (Z.of_nat layer)) s = (Ok tt, set_trace (<[seq_id := set_matrix m e]> (trace s)) s) ∧
    ∀ l x, x < cols → entry_q m l x = (entry_q (te_matrix e) l x + (if bool_decide (l = layer) then q_of (count_of (Z.of_nat x) ps) else 0))%Qc.
Proof.
  intros He Hm Hl. revert s e He Hm. induction ps as [|[k c] ps IH]; intros s e He Hm Hps.
  - exists (te_matrix e). split; [done|]. split.
    + cbn. unfold mret, M_ret. f_equal. destruct s, e. unfold set_trace, set_matrix. cbn in *. by rewrite insert_id.
    + intros l x _. destruct (bool_decide _); [change (q_of (count_of (Z.of_nat x) [])) with 0%Qc|]; ring.
  - apply Forall_cons in Hps as [Hk Hps]. cbn [fst] in Hk. cbn [for_each]. unfold mbind at 1, M_bind at 1. rewrite (bump_ok k c s e He Hm Hl Hk).
    set (e1 := set_matrix (bumped layer (Z.to_nat k) c (te_matrix e)) e). set (s1 := set_trace (<[seq_id := e1]> (trace s)) s).
    destruct (IH s1 e1) as (m & Hsh & Hrun & Hent); [apply lookup_insert_eq|by apply bumped_shaped|done|].
    exists m. split; [done|]. split.
    + rewrite Hrun. f_equal. unfold s1, set_trace. cbn. by rewrite insert_insert_eq.
    + intros l x Hx. rewrite (Hent l x Hx). cbn [te_matrix e1 set_matrix]. rewrite (bumped_entry rows cols) by (done || lia).
      unfold count_of. destruct (decide (l = layer)) as [->|Hnl].
      * rewrite !(bool_decide_true (layer = layer)) by done. destruct (decide (x = Z.to_nat k)) as [->|Hn].
        -- rewrite bool_decide_true by done. rewrite (filter_cons_True _ (k, c)) by (cbn; lia). rewrite Z2Nat.id by lia.
           unfold zsum. cbn [map snd foldr]. rewrite q_of_add. ring.
        -- rewrite bool_decide_false by tauto. rewrite (filter_cons_False _ (k, c)) by (cbn; lia). ring.
      * rewrite !bool_decide_false by naive_solver. ring.
Qed.
Lemma update_ok experts s e :
  trace s !! seq_id = Some e → shaped rows cols (te_matrix e) → layer < rows → Forall (λ x, 0 ≤ x < Z.of_nat cols)%Z experts →
  ∃ e', shaped rows cols (te_matrix e') ∧
    update_entry seq_id experts (Z.of_nat layer) s = (Ok tt, set_trace (<[seq_id := e']> (trace s)) s) ∧
    (∀ l x, x < cols → entry_q (te_matrix e') l x = (entry_q (te_matrix e) l x + (if bool_decide (l = layer) then q_of (occurrences x experts) else 0))%Qc) ∧
    te_num_new_tokens e' = (te_num_new_tokens e + (if (layer + 1 =? num_layers s)%nat then 1 else 0))%Z.
Proof.
  intros He Hm Hl Hex. destruct (bumps_ok (counter experts) s e He Hm Hl) as (m & Hsh & Hrun & Hent).
  { apply Forall_forall. intros [k c] Hin%counter_keys. by apply (proj1 (Forall_forall _ _) Hex). }
  assert (∀ l x, x < cols → entry_q m l x = (entry_q (te_matrix e) l x + (if bool_decide (l = layer) then q_of (occurrences x experts) else 0))%Qc) as Hent'.
  { intros l x Hx. rewrite (Hent l x Hx). unfold occurrences. by rewrite count_counter. }
  unfold update_entry, mbind, M_bind. rewrite Hrun. unfold get, when. cbn [num_layers set_trace].
  destruct (Nat.eqb_spec (layer + 1) (num_layers s)) as [Heq|Hneq].
  - rewrite (proj2 (Z.eqb_eq _ _)) by lia. exists (add_token (set_matrix m e)). split; [done|]. split; [|by split; [apply Hent'|]].
    rewrite (get_entry_ok _ _ (set_matrix m e)) by apply lookup_insert_eq. unfold modify, set_trace. cbn. by rewrite insert_insert_eq.
  - rewrite (proj2 (Z.eqb_neq _ _)) by lia. exists (set_matrix m e). split; [done|]. split; [done|]. split; [apply Hent'|cbn; lia].
Qed.
End update.

(** ** Prediction *)
(** What the predictor multiplies the frequencies of layer [l] with *)
Lemma decay_value x l L : layer_decay_func x l L = (1 - q_of (Z.of_nat x - Z.of_nat l) / q_of (Z.of_nat L + 1))%Qc.
Proof. unfold layer_decay_func, Qcdiv. ring. Qed.
Lemma this_q_of z : (this (q_of z) == inject_Z z)%Q.
Proof. apply Qred_correct. Qed.
Lemma decay_bounds x l L : l ≤ x < L → (0 < layer_decay_func x l L)%Qc ∧ (layer_decay_func x l L <= 1)%Qc.
Proof.
  intros Hx. rewrite decay_value. set (n := (Z.of_nat x - Z.of_nat l)%Z). set (d := (Z.of_nat L + 1)%Z).
  assert (0 ≤ n)%Z as Hn by lia. assert (n < d)%Z as Hnd by lia. assert (0 < d)%Z as Hd by lia. clearbody n d.
  assert (this (1 - q_of n / q_of d)%Qc == 1 - inject_Z n / inject_Z d)%Q as He.
  { unfold Qcminus, Qcplus, Qcopp, Qcdiv, Qcmult, Qcinv. cbn [this Q2Qc]. rewrite !Qred_correct, !this_q_of. reflexivity. }
  unfold Qclt, Qcle. rewrite He. change (this 1%Qc) with 1%Q. change (this 0%Qc) with 0%Q.
  assert (0 < inject_Z d)%Q as Hd' by (change 0%Q with (inject_Z 0); by rewrite <- Zlt_Qlt).
  assert (inject_Z n < inject_Z d)%Q as Hnd' by (by rewrite <- Zlt_Qlt).
  assert (0 <= inject_Z n)%Q as Hn' by (change 0%Q with (inject_Z 0); by rewrite <- Zle_Qle).
  assert (inject_Z n / inject_Z d < 1)%Q as H1 by (apply Qlt_shift_div_r; lra).
  assert (0 <= inject_Z n / inject_Z d)%Q as H2 by (apply Qle_shift_div_l; lra). split; lra.
Qed.
Lemma weight_positive v x l L : l ≤ x < L → (0 <= v)%Qc → (0 < (v + EPS) * layer_decay_func x l L)%Qc.
Proof.
  intros Hx Hv. destruct (decay_bounds x l L Hx) as [Hd _].
  assert (0 < v + EPS)%Qc as Hp.
  { apply Qclt_le_trans with (0 + EPS)%Qc; [done|]. apply Qcplus_le_compat; [done|apply Qcle_refl]. }
  rewrite <- (Qcmult_0_l (layer_decay_func x l L)). by apply Qcmult_lt_compat_r.
Qed.

(** The states in which predictions are made *)
Record predicts (argmin : list (option Qc) → nat) (s : ExpertTracer) : Prop := {
  pr_kind : collection_kind s = CudaTensor;
  pr_slots : length (trace_collection s) = capacity s ∧ length (collection_access s) = capacity s ∧ 0 < capacity s;
  pr_traces : Forall (λ m, shaped (num_layers s) (num_experts s) m ∧ Forall (Forall (λ v, 0 <= v)%Qc) m) (trace_collection s);
  pr_argmin : ∀ d, d ≠ [] → argmin d < length d }.

Lemma find_ok cos argmin m layer s : predicts argmin s →
  ∃ idx c, trace_collection s !! idx = Some c ∧
    find_most_similar cos argmin m layer s =
    (Ok c, set_collection (trace_collection s) (alter (λ a, a + 1)%Z idx (collection_access s)) (persistent_capacity s) s).
Proof.
  intros [Hk (Hc & Ha & Hp) _ Harg]. unfold find_most_similar, mbind, M_bind, get, lift_res, distances, raise_if, raise, modify, mret, M_ret.
  rewrite Hk, !bool_decide_false by done.
  rewrite length_map, Hc, (proj2 (Nat.eqb_neq _ 0)), Nat.eqb_refl by lia. cbn [orb].
  set (d := map _ (map _ (trace_collection s))).
  assert (length d = capacity s) as Hd by (unfold d; by rewrite !length_map).
  assert (argmin d < length d) as Hlt by (apply Harg; intros E; rewrite E in Hd; cbn in Hd; lia).
  destruct (lookup_lt_is_Some_2 (trace_collection s) (argmin d)) as [c Hcx]; [lia|]. exists (argmin d), c. split; [done|].
  rewrite (proj2 (Nat.leb_gt _ (argmin d))) by lia. by rewrite Hcx.
Qed.
Lemma entry_imap (f : nat → list Qc → list Qc) m l x :
  entry_q (imap f m) l x = default 0%Qc (m !! l ≫= λ r, f l r !! x).
Proof. unfold entry_q. rewrite list_lookup_imap. by destruct (m !! l). Qed.

(** A prediction is a collected trace (of the tensor on the GPU), weighted by distance: nothing for the layers that are
    done, and for every expert of layer [l] ahead the frequency in one of the collected
    traces (plus a small constant) times [1 - (l - layer) / (L + 1)], which is positive,
    so that every expert ahead has a priority and of two equal frequencies the nearer
    layer comes first.  The routed experts are counted in the sequence's own trace; the
    collection stays as it is. *)
Theorem prediction_weights cos argmin s seq_id e experts layer :
  predicts argmin s → trace s !! seq_id = Some e → shaped (num_layers s) (num_experts s) (te_matrix e) →
  Forall (λ x, 0 ≤ x < Z.of_nat (num_experts s))%Z experts → layer < num_layers s →
  ∃ m s' e' c, predict cos argmin true seq_id experts layer s = (Ok m, s') ∧
    c ∈ trace_collection s ∧ trace_collection s' = trace_collection s ∧ trace s' !! seq_id = Some e' ∧
    (∀ x, x < num_experts s → entry_q (te_matrix e') layer x = (entry_q (te_matrix e) layer x + q_of (occurrences x experts))%Qc) ∧
    ∀ l x, l < num_layers s → x < num_experts s →
      (l < layer → entry_q m l x = 0%Qc) ∧
      (layer ≤ l → entry_q m l x = ((entry_q c l x + EPS) * (1 - q_of (Z.of_nat l - Z.of_nat layer) / q_of (Z.of_nat (num_layers s) + 1)))%Qc ∧
                   (0 < entry_q m l x)%Qc).
Proof.
  intros Hpr He Hm Hex Hl. destruct (update_ok seq_id layer _ _ experts s e He Hm Hl Hex) as (e' & Hm' & Hup & Hent & _).
  unfold predict, raise_if, mbind, M_bind, get, mret, M_ret. cbn [negb]. rewrite Hup.
  rewrite (get_entry_ok _ _ e') by apply lookup_insert_eq.
  set (s1 := set_trace (<[seq_id := e']> (trace s)) s). assert (predicts argmin s1) as Hpr1 by (by destruct Hpr; constructor).
  destruct (find_ok cos argmin (te_matrix e') layer s1 Hpr1) as (idx & c & Hc & Hf). rewrite Hf. cbn [num_layers set_collection set_trace s1].
  destruct (Forall_lookup_1 _ _ _ _ (pr_traces _ _ Hpr) Hc) as [[Hrows Hcols] Hpos].
  rewrite (proj2 (Nat.ltb_ge (length c) (num_layers s))), andb_false_r by lia.
  do 2 eexists. exists e', c. split; [done|]. split; [by eapply list_elem_of_lookup_2|]. split; [done|]. split; [apply lookup_insert_eq|]. split.
  - intros x Hx. by rewrite (Hent layer x Hx), bool_decide_true.
  - intros l x Hll Hx. rewrite entry_imap. destruct (lookup_lt_is_Some_2 c l) as [r Hr]; [lia|].
    destruct (lookup_lt_is_Some_2 r x) as [v Hv]; [by rewrite (Forall_lookup_1 _ _ _ _ Hcols Hr)|].
    assert (entry_q c l x = v) as -> by (unfold entry_q; rewrite Hr; cbn; by rewrite Hv). rewrite Hr. cbn [mbind option_bind]. split.
    + intros Hlt. rewrite (proj2 (Nat.ltb_lt l layer)) by done. rewrite list_lookup_fmap, Hv. done.
    + intros Hge. rewrite (proj2 (Nat.ltb_ge l layer)), (proj2 (Nat.ltb_lt l (num_layers s))) by done.
      rewrite list_lookup_fmap, Hv. cbn [fmap option_fmap option_map default from_option]. unfold id. rewrite <- decay_value. split; [done|].
      apply weight_positive; [lia|]. exact (Forall_lookup_1 _ _ _ _ (Forall_lookup_1 _ _ _ _ Hpos Hr) Hv).
Qed.

(** Two layers of two experts, one slot; token routed to expert 1 twice *)
Definition demo_traced : ExpertTracer := (create_entry "a" (set_collection [[[1%Qc; 0%Qc]; [0%Qc; 1%Qc]]] [0%Z] None (tracer_init 2 2 0 1))).2.
Lemma prediction_weights_witness : ∃ m s' e' c, predict (λ _ _, None) (λ _, 0) true "a" [1; 1]%Z 0 demo_traced = (Ok m, s') ∧
    c ∈ trace_collection demo_traced ∧ trace_collection s' = trace_collection demo_traced ∧ trace s' !! "a"%string = Some e' ∧
    (∀ x, x < 2 → entry_q (te_matrix e') 0 x = (entry_q [[0; 0]; [0; 0]]%Qc 0 x + q_of (occurrences x [1; 1]%Z))%Qc) ∧
    ∀ l x, l < 2 → x < 2 →
      (l < 0 → entry_q m l x = 0%Qc) ∧
      (0 ≤ l → entry_q m l x = ((entry_q c l x + EPS) * (1 - q_of (Z.of_nat l - Z.of_nat 0) / q_of (Z.of_nat 2 + 1)))%Qc ∧
                   (0 < entry_q m l x)%Qc).
Proof.
  apply (prediction_weights (λ _ _, None) (λ _, 0) demo_traced "a"
    {| te_seq_id := "a"; te_matrix := [[0; 0]; [0; 0]]%Qc; te_access := 0; te_num_new_tokens := 0 |} [1; 1]%Z 0).
  - constructor.
    + reflexivity.
    + vm_compute. split_and!; [done..|lia].
    + constructor; [|constructor]. split; [by repeat constructor|]. repeat constructor; by vm_compute.
    + intros [|x d] Hd; [done|]. cbn. lia.
  - reflexivity.
  - by repeat constructor.
  - repeat constructor; cbn; lia.
  - vm_compute. lia.
Defined.

(** ** Priorities *)
Section priorities.
Open Scope Qc_scope.
Definition nonneg (m : matrix) : Prop := Forall (Forall (λ v, 0 <= v)) m.
Definition all_positive (m : matrix) : Prop := Forall (Forall (λ v, 0 < v)) m.
Lemma qcsum_nonneg l : Forall (λ v, 0 <= v) l → 0 <= qcsum l.
Proof.
  induction 1 as [|v l Hv _ IH]; [apply Qcle_refl|]. rewrite qcsum_cons, <- (Qcplus_0_l 0). by apply Qcplus_le_compat.
Qed.
Lemma qcsum_pos l v : Forall (λ v, 0 <= v) l → v ∈ l → 0 < v → 0 < qcsum l.
Proof.
  intros Hl Hin Hv. apply elem_of_Permutation in Hin as [k Hk]. rewrite Hk in Hl. apply Forall_cons in Hl as [_ Hl].
  rewrite (qcsum_perm _ _ Hk), qcsum_cons. apply Qclt_le_trans with (v + 0); [by rewrite Qcplus_0_r|].
  apply Qcplus_le_compat; [apply Qcle_refl|by apply qcsum_nonneg].
Qed.
Lemma msum_nonneg m : nonneg m → 0 <= msum m.
Proof. intros Hm. apply qcsum_nonneg, Forall_map. eapply Forall_impl; [exact Hm|]. intros r. apply qcsum_nonneg. Qed.
Lemma msum_pos m r v : nonneg m → r ∈ m → v ∈ r → 0 < v → 0 < msum m.
Proof.
  intros Hm Hr Hv Hp. unfold msum. apply (qcsum_pos _ (qcsum r)).
  - apply Forall_map. eapply Forall_impl; [exact Hm|]. intros r'. apply qcsum_nonneg.
  - by apply list_elem_of_fmap_2.
  - apply (qcsum_pos _ v); [|done..]. exact (proj1 (Forall_forall _ _) Hm _ Hr).
Qed.
Lemma pos_neq v : 0 < v → v ≠ 0.
Proof. intros Hv ->. by apply Qclt_not_eq in Hv. Qed.
Lemma div_nonneg a b : 0 <= a → 0 < b → 0 <= a / b.
Proof.
  intros Ha Hb. apply Qcnot_lt_le. intros Hn. assert (a / b * b < 0 * b) as Hc by (by apply Qcmult_lt_compat_r).
  rewrite Qcmult_0_l in Hc. replace (a / b * b) with a in Hc by (field; by apply pos_neq). by apply Qcle_not_lt in Ha.
Qed.
Lemma mul_pos a b : 0 < a → 0 < b → 0 < a * b.
Proof. intros Ha Hb. rewrite <- (Qcmult_0_l b). by apply Qcmult_lt_compat_r. Qed.
Lemma mscale_positive c m : 0 < c → nonneg m → all_positive (mscale c m).
Proof.
  intros Hc Hm. apply Forall_map. eapply Forall_impl; [exact Hm|]. intros r Hr. apply Forall_map. eapply Forall_impl; [exact Hr|]. intros v Hv.
  apply Qclt_le_trans with (0 + MILLIONTH); [done|]. apply Qcplus_le_compat; [by apply div_nonneg|apply Qcle_refl].
Qed.
Lemma positive_nonneg m : all_positive m → nonneg m.
Proof. intros Hm. eapply Forall_impl; [exact Hm|]. intros r Hr. eapply Forall_impl; [exact Hr|]. intros v. apply Qclt_le_weak. Qed.
Lemma mmul_positive a b : all_positive a → all_positive b → all_positive (mmul a b).
Proof.
  intros Ha Hb. unfold mmul. apply Forall_forall. intros r (x & y & -> & Hx & Hy)%elem_of_zip_with.
  apply Forall_forall. intros v (p & q & -> & Hp & Hq)%elem_of_zip_with. apply mul_pos.
  - exact (proj1 (Forall_forall _ _) (proj1 (Forall_forall _ _) Ha _ Hx) _ Hp).
  - exact (proj1 (Forall_forall _ _) (proj1 (Forall_forall _ _) Hb _ Hy) _ Hq).
Qed.
End priorities.

(** *** Shapes *)
Lemma shaped_map rows cols (f : list Qc → list Qc) m : (∀ r, length (f r) = length r) → shaped rows cols m → shaped rows cols (map f m).
Proof. intros Hf [H1 H2]. split; [by rewrite length_map|]. apply Forall_map. eapply Forall_impl; [exact H2|]. intros r Hr. cbn. by rewrite Hf. Qed.
Lemma shaped_imap rows cols (f : nat → list Qc → list Qc) m : (∀ i r, length (f i r) = length r) → shaped rows cols m → shaped rows cols (imap f m).
Proof.
  intros Hf [H1 H2]. split; [by rewrite length_imap|]. apply Forall_lookup. intros i r Hr. rewrite list_lookup_imap in Hr.
  destruct (m !! i) as [r'|] eqn:E; [|done]. injection Hr as <-. rewrite Hf. exact (Forall_lookup_1 _ _ _ _ H2 E).
Qed.
Lemma shaped_mmul rows cols a b : shaped rows cols a → shaped rows cols b → shaped rows cols (mmul a b).
Proof.
  intros [H1 H2] [H3 H4]. split; [unfold mmul; rewrite length_zip_with; lia|].
  apply Forall_forall. intros r (x & y & -> & Hx & Hy)%elem_of_zip_with. rewrite length_zip_with.
  rewrite (proj1 (Forall_forall _ _) H2 _ Hx), (proj1 (Forall_forall _ _) H4 _ Hy). lia.
Qed.
Lemma shaped_entry rows cols m l : shaped rows cols m → l < rows → ∃ r, m !! l = Some r ∧ length r = cols ∧ (0 < cols → ∃ v, v ∈ r).
Proof.
  intros [H1 H2] Hl. destruct (lookup_lt_is_Some_2 m l) as [r Hr]; [lia|]. exists r. pose proof (Forall_lookup_1 _ _ _ _ H2 Hr) as Hlen. cbn in Hlen.
  split_and!; [done..|]. intros Hc. destruct r as [|v r]; [cbn in Hlen; lia|]. exists v. left.
Qed.
(** All positive entries are listed, layer by layer. *)
Lemma positive_entries_all rows cols m : shaped rows cols m → all_positive m →
  map (λ e, (ce_layer_idx e, ce_expert_idx e)) (positive_entries m) =
    (l ← seq 0 rows; map (λ x, (Z.of_nat l, Z.of_nat x)) (seq 0 cols)) ∧
  Forall (λ e, (0 < ce_r e)%Qc) (positive_entries m).
Proof.
  intros [H1 H2] Hp. split.
  - unfold positive_entries. rewrite concat_map, fmap_imap.
    rewrite (imap_ext _ (λ l _, map (λ x, (Z.of_nat l, Z.of_nat x)) (seq 0 cols))).
    + rewrite imap_seq_0, H1. generalize (seq 0 rows) as ls. induction ls as [|l ls IH]; [done|]. rewrite bind_cons. cbn [fmap list_fmap map concat]. by rewrite <- IH.
    + intros l r Hr. unfold compose. rewrite concat_map, fmap_imap.
      rewrite (imap_ext _ (λ x _, [(Z.of_nat l, Z.of_nat x)])).
      * rewrite imap_seq_0, (Forall_lookup_1 _ _ _ _ H2 Hr). generalize (seq 0 cols) as xs.
        induction xs as [|x xs IH]; [done|]. cbn [fmap list_fmap map concat app]. by rewrite <- IH.
      * intros x v Hv. unfold compose. pose proof (Forall_lookup_1 _ _ _ _ (Forall_lookup_1 _ _ _ _ Hp Hr) Hv) as Hpos. cbn in Hpos.
        destruct (Qle_bool (this v) 0) eqn:E; [|done]. apply Qle_bool_iff in E. by apply Qclt_not_le in Hpos.
  - unfold positive_entries. apply Forall_concat, Forall_lookup. intros l es Hes. rewrite list_lookup_imap in Hes.
    destruct (m !! l) as [r|]; [|done]. injection Hes as <-. apply Forall_concat, Forall_lookup. intros x es Hes. rewrite list_lookup_imap in Hes.
    destruct (r !! x) as [v|]; [|done]. injection Hes as <-. destruct (Qle_bool (this v) 0) eqn:E; cbn [negb]; [done|]. repeat constructor. cbn.
    apply Qcnot_le_lt. intros Hle. assert (Qle_bool (this v) 0 = true) by (by apply Qle_bool_iff). congruence.
Qed.

(** *** The factors *)
Lemma put_freqs_ok rows cols freq m :
  shaped rows cols m → nonneg m → Forall (λ kv, 0 ≤ kv.1.1 < Z.of_nat cols ∧ 0 ≤ kv.1.2 < Z.of_nat rows ∧ 0 ≤ kv.2)%Z freq →
  ∃ m', put_freqs m freq = Ok m' ∧ shaped rows cols m' ∧ nonneg m'.
Proof.
  intros Hs Hn Hf. revert m Hs Hn. induction Hf as [|[[ex l] v] freq (He & Hl & Hv) _ IH]; intros m Hs Hn; cbn [put_freqs]; [by exists m|].
  cbn [fst snd] in *. unfold put_freq. cbn [fst snd]. destruct Hs as [H1 H2]. rewrite H1, np_index_in by done. cbn [mbind res_mbind].
  destruct (lookup_lt_is_Some_2 m (Z.to_nat l)) as [r Hr]; [lia|]. rewrite Hr. cbn [default from_option]. unfold id.
  rewrite (Forall_lookup_1 _ _ _ _ H2 Hr), np_index_in by done. cbn [mbind res_mbind]. apply IH.
  - split; [by rewrite length_alter|]. apply Forall_alter; [done|]. intros r' _ Hr'. by rewrite length_insert.
  - apply Forall_alter; [done|]. intros r' _ Hr'. apply Forall_insert; [done|]. unfold Qcle. rewrite this_q_of. change (this 0%Qc) with (inject_Z 0). by rewrite <- Zle_Qle.
Qed.
Lemma fill_if_zero_ok rows cols P m : shaped rows cols m → nonneg m → shaped rows cols (fill_if_zero P m) ∧ nonneg (fill_if_zero P m).
Proof.
  intros Hs Hn. unfold fill_if_zero. destruct (bool_decide _); [|done]. split.
  - apply shaped_imap; [|done]. intros i r. destruct (P i); [by rewrite length_map|done].
  - apply Forall_lookup. intros i r Hr. unfold fill_rows in Hr. rewrite list_lookup_imap in Hr. destruct (m !! i) as [r'|] eqn:E; [|done].
    injection Hr as <-. destruct (P i); [|exact (Forall_lookup_1 _ _ _ _ Hn E)]. apply Forall_map, Forall_true. done.
Qed.
Lemma part_le (P : nat → bool) m : nonneg m → (msum (imap (λ i row, if P i then row else []) m) <= msum m)%Qc.
Proof.
  intros Hm. revert P. induction Hm as [|r m Hr Hm IH]; intros P; [apply Qcle_refl|]. rewrite imap_cons. unfold msum. cbn [map]. rewrite !qcsum_cons.
  apply Qcplus_le_compat; [|apply (IH (P ∘ S))]. destruct (P 0); [apply Qcle_refl|by apply qcsum_nonneg].
Qed.
Lemma fill_msum_pos rows cols P m l : shaped rows cols m → nonneg m → l < rows → P l = true → 0 < cols → (0 < msum (fill_if_zero P m))%Qc.
Proof.
  intros Hs Hn Hl HP Hc. destruct (fill_if_zero_ok rows cols P m Hs Hn) as [_ Hn']. revert Hn'. unfold fill_if_zero.
  destruct (shaped_entry _ _ _ _ Hs Hl) as (r & Hr & _ & Hv). destruct (Hv Hc) as [v Hvr]. case_bool_decide as E; intros Hn'.
  - apply (msum_pos _ (map (λ _, 1%Qc) r) 1%Qc); [done| |by apply (list_elem_of_fmap_2 (λ _, 1%Qc) r v)|done].
    apply list_elem_of_lookup. exists l. unfold fill_rows. rewrite list_lookup_imap, Hr. cbn. by rewrite HP.
  - eapply Qclt_le_trans; [|apply (part_le P m Hn)]. set (part := imap _ m) in *.
    assert (0 <= msum part)%Qc as Hge.
    { apply msum_nonneg, Forall_lookup. intros i r' Hr'. unfold part in Hr'. rewrite list_lookup_imap in Hr'. destruct (m !! i) as [r''|] eqn:E'; [|done].
      injection Hr' as <-. destruct (P i); [exact (Forall_lookup_1 _ _ _ _ Hn E')|constructor]. }
    destruct (Qcle_lt_or_eq _ _ Hge) as [|Heq]; [done|]. by symmetry in Heq.
Qed.
Lemma frequencies_positive rows cols n m : shaped rows cols m → nonneg m → 0 < rows → 0 < cols →
  let m' := fill_if_zero (λ i, i <? n) (fill_if_zero (λ i, n <=? i) m) in
  shaped rows cols m' ∧ nonneg m' ∧ (0 < msum m')%Qc.
Proof.
  intros Hs Hn Hr Hc m'. destruct (fill_if_zero_ok rows cols (λ i, n <=? i) m Hs Hn) as [Hs1 Hn1].
  destruct (fill_if_zero_ok rows cols (λ i, i <? n) _ Hs1 Hn1) as [Hs2 Hn2]. split_and!; [done..|].
  destruct n as [|n].
  - assert (m' = fill_if_zero (λ i, 0 <=? i) m) as ->; [|by apply (fill_msum_pos rows cols _ _ 0)].
    unfold m'. unfold fill_if_zero at 1. destruct (bool_decide _); [|done]. unfold fill_rows. etrans; [apply (imap_const id)|apply list_fmap_id].
  - by apply (fill_msum_pos rows cols _ _ 0).
Qed.

Lemma qcsum_ones {A} (l : list A) : l ≠ [] → (0 < qcsum (map (λ _, 1%Qc) l))%Qc.
Proof. destruct l as [|a l]; [done|]. intros _. apply (qcsum_pos _ 1%Qc); [apply Forall_map, Forall_true; done|left|done]. Qed.
Lemma normalise_decoder_ok rows cols m : shaped rows cols m → nonneg m → 0 < cols →
  shaped rows cols (normalise_decoder m) ∧ nonneg (normalise_decoder m) ∧ Forall (λ r, qcsum r = 1%Qc) (normalise_decoder m).
Proof.
  intros Hs Hn Hc. assert (∀ r, r ∈ m → let r' := if bool_decide (qcsum r = 0%Qc) then map (λ _, 1%Qc) r else r in
    Forall (λ v, 0 <= v)%Qc r' ∧ (0 < qcsum r')%Qc) as Hrow.
  { intros r Hr r'. pose proof (proj1 (Forall_forall _ _) Hn _ Hr) as Hge. pose proof (proj1 (Forall_forall _ _) (proj2 Hs) _ Hr) as Hlen. cbn in Hge, Hlen.
    unfold r'. case_bool_decide as E.
    - split; [apply Forall_map, Forall_true; done|]. apply qcsum_ones. intros ->. cbn in Hlen. lia.
    - split; [done|]. destruct (Qcle_lt_or_eq _ _ (qcsum_nonneg _ Hge)) as [|Heq]; [done|]. by symmetry in Heq. }
  split_and!.
  - apply shaped_map; [|done]. intros r. rewrite length_map. destruct (bool_decide _); [by rewrite length_map|done].
  - apply Forall_map, Forall_forall. intros r Hr. destruct (Hrow r Hr) as [Hge Hp]. apply Forall_map. eapply Forall_impl; [exact Hge|]. intros v Hv. by apply div_nonneg.
  - apply Forall_map, Forall_forall. intros r Hr. destruct (Hrow r Hr) as [_ Hp]. cbv zeta in *.
    set (r' := if bool_decide (qcsum r = 0%Qc) then map (λ _, 1%Qc) r else r) in *. set (t := qcsum r') in *.
    assert (∀ l, qcsum (map (λ x, x / t)%Qc l) = (qcsum l / t)%Qc) as ->.
    { clear -t. induction l as [|x l IH]; [unfold Qcdiv; cbn; ring|]. cbn [map]. rewrite !qcsum_cons, IH. unfold Qcdiv. ring. }
    fold t. apply Qcmult_inv_r. by apply pos_neq.
Qed.
Lemma decay_first_nonneg i n : i < n → (0 <= decay_from_first i n)%Qc.
Proof.
  intros Hi. assert (decay_from_first i n = 1 - q_of (Z.of_nat i) / q_of (Z.of_nat n))%Qc as -> by (unfold decay_from_first, Qcdiv; ring).
  assert (this (1 - q_of (Z.of_nat i) / q_of (Z.of_nat n))%Qc == 1 - inject_Z (Z.of_nat i) / inject_Z (Z.of_nat n))%Q as He.
  { unfold Qcminus, Qcplus, Qcopp, Qcdiv, Qcmult, Qcinv. cbn [this Q2Qc]. rewrite !Qred_correct, !this_q_of. reflexivity. }
  unfold Qcle. rewrite He. change (this 0%Qc) with 0%Q.
  assert (0 < inject_Z (Z.of_nat n))%Q as Hd by (change 0%Q with (inject_Z 0); rewrite <- Zlt_Qlt; lia).
  assert (inject_Z (Z.of_nat i) <= inject_Z (Z.of_nat n))%Q as Hl by (rewrite <- Zle_Qle; lia).
  assert (inject_Z (Z.of_nat i) / inject_Z (Z.of_nat n) <= 1)%Q by (apply Qle_shift_div_r; lra). lra.
Qed.
Lemma q_of_nonneg z : (0 ≤ z)%Z → (0 <= q_of z)%Qc.
Proof. intros Hz. unfold Qcle. rewrite this_q_of. change (this 0%Qc) with (inject_Z 0). by rewrite <- Zle_Qle. Qed.
Lemma decay_last_nonneg i n : (0 <= decay_from_last i n)%Qc.
Proof.
  assert (decay_from_last i n = q_of (Z.of_nat i) / q_of (Z.of_nat n + 1))%Qc as -> by (unfold decay_from_last, Qcdiv; ring).
  apply div_nonneg; [apply q_of_nonneg; lia|]. unfold Qclt. rewrite this_q_of. change (this 0%Qc) with (inject_Z 0). rewrite <- Zlt_Qlt. lia.
Qed.
Lemma topo_ok rows cols n cur (m : matrix) : shaped rows cols m → 0 < rows → 0 < cols → (0 ≤ cur)%Z →
  let t := imap (λ i row, map (λ _, topo_weight cur n i) row) m in
  shaped rows cols t ∧ nonneg t ∧ (0 < msum t)%Qc.
Proof.
  intros Hs Hr Hc Hcur t.
  assert (∀ i, 0 <= topo_weight cur n i)%Qc as Hge.
  { intros i. unfold topo_weight. repeat case_match; try apply decay_last_nonneg; try (apply decay_first_nonneg; by apply Nat.ltb_lt); done. }
  assert (nonneg t) as Hn.
  { apply Forall_lookup. intros i r Hi. unfold t in Hi. rewrite list_lookup_imap in Hi. destruct (m !! i); [|done]. injection Hi as <-.
    apply Forall_map, Forall_true. intros _. apply Hge. }
  split_and!; [apply shaped_imap; [intros; by rewrite length_map|done]|done|].
  destruct (shaped_entry _ _ _ 0 Hs Hr) as (r & Hr0 & _ & Hv). destruct (Hv Hc) as [v Hvr].
  apply (msum_pos t (map (λ _, topo_weight cur n 0) r) (topo_weight cur n 0)); [done| |by apply (list_elem_of_fmap_2 (λ _, topo_weight cur n 0) r v)|].
  - apply list_elem_of_lookup. exists 0. unfold t. by rewrite list_lookup_imap, Hr0.
  - assert (topo_weight cur n 0 = 1%Qc) as ->; [|done]. unfold topo_weight.
    destruct (Z.ltb_spec cur (Z.of_nat n)), (Nat.ltb_spec 0 n), (Z.ltb_spec cur (Z.of_nat 0)); try lia; try done;
      unfold decay_from_first; change (q_of (Z.of_nat 0)) with 0%Qc; ring.
Qed.

(** Scoring covers everything: for a matrix of activations with at least one entry,
    frequencies that are not negative and a layer number that is not negative, every
    expert of every layer gets exactly one score, layer by layer, and the score is
    positive.  The call leaves the caller's matrix normalised, every row summing to one,
    unless it was all zeros. *)
Theorem priority_score_covers rows cols freq (decoder : matrix) cur total :
  shaped rows cols decoder → nonneg decoder → 0 < rows → 0 < cols → (0 ≤ cur)%Z →
  Forall (λ kv, 0 ≤ kv.1.1 < Z.of_nat cols ∧ 0 ≤ kv.1.2 < Z.of_nat rows ∧ 0 ≤ kv.2)%Z freq →
  ∃ scores left, priority_score freq decoder cur total = Ok (scores, left) ∧
    map (λ e, (ce_layer_idx e, ce_expert_idx e)) scores = (l ← seq 0 rows; map (λ x, (Z.of_nat l, Z.of_nat x)) (seq 0 cols)) ∧
    Forall (λ e, (0 < ce_r e)%Qc) scores ∧
    (left = decoder ∨ Forall (λ r, qcsum r = 1%Qc) left) ∧ (msum decoder ≠ 0%Qc → left = normalise_decoder decoder).
Proof.
  intros Hs Hn Hr Hc Hcur Hf.
  assert (shaped rows cols (map (map (λ _, 0%Qc)) decoder) ∧ nonneg (map (map (λ _, 0%Qc)) decoder)) as [Hs0 Hn0].
  { split; [apply shaped_map; [intros; by rewrite length_map|done]|]. apply Forall_map, Forall_true. intros r. apply Forall_map, Forall_true. done. }
  destruct (put_freqs_ok rows cols freq _ Hs0 Hn0 Hf) as (f & Hpf & Hsf & Hnf).
  destruct (frequencies_positive rows cols (total / 2) f Hsf Hnf Hr Hc) as (Hs1 & Hn1 & Hp1).
  unfold priority_score. rewrite Hpf. cbn [mbind res_mbind]. cbv zeta in *.
  set (freq1 := fill_if_zero _ (fill_if_zero _ f)) in *. rewrite bool_decide_false by (by apply pos_neq).
  pose proof (mscale_positive _ _ Hp1 Hn1) as Hpos1. assert (shaped rows cols (mscale (msum freq1) freq1)) as Hss1 by (apply shaped_map; [intros; by rewrite length_map|done]).
  assert (0 < msum (mscale (msum freq1) freq1))%Qc as Hp2.
  { destruct (shaped_entry _ _ _ 0 Hss1 Hr) as (r & Hr0 & _ & Hv). destruct (Hv Hc) as [v Hvr].
    apply (msum_pos _ r v); [by apply positive_nonneg|by eapply list_elem_of_lookup_2|done|].
    exact (proj1 (Forall_forall _ _) (Forall_lookup_1 _ _ _ _ Hpos1 Hr0) _ Hvr). }
  destruct (Qle_bool _ 0) eqn:Ele; [apply Qle_bool_iff in Ele; by apply Qclt_not_le in Hp2|]. clear Ele.
  destruct (topo_ok rows cols (total / 2) cur decoder Hs Hr Hc Hcur) as (Hst & Hnt & Hpt). rewrite bool_decide_false by (by apply pos_neq).
  set (base := if bool_decide (msum decoder = 0%Qc) then map (map (λ _, 1%Qc)) decoder else decoder).
  assert (shaped rows cols base ∧ nonneg base) as [Hsb Hnb].
  { unfold base. destruct (bool_decide _); [|done]. split; [apply shaped_map; [intros; by rewrite length_map|done]|]. apply Forall_map, Forall_true. intros r. apply Forall_map, Forall_true. done. }
  destruct (normalise_decoder_ok rows cols base Hsb Hnb Hc) as (Hsd & Hnd & Hone).
  assert (0 < msum (normalise_decoder base))%Qc as Hpd.
  { destruct (shaped_entry _ _ _ 0 Hsd Hr) as (r & Hr0 & _). apply (qcsum_pos _ 1%Qc); [|rewrite <- (Forall_lookup_1 _ _ _ _ Hone Hr0); apply list_elem_of_fmap_2; by eapply list_elem_of_lookup_2|done].
    apply Forall_map. eapply Forall_impl; [exact Hnd|]. intros r'. apply qcsum_nonneg. }
  do 2 eexists. split; [done|]. eapply and_assoc, conj.
  - apply positive_entries_all; [repeat apply shaped_mmul; try done; apply shaped_map; (done || (intros; by rewrite length_map))|].
    repeat apply mmul_positive; try done; by apply mscale_positive.
  - revert Hone. unfold base. case_bool_decide as E; intros Hone; [by split; [left|]|]. split; [by right|done].
Qed.

Lemma priority_score_covers_witness :
  ∃ scores left, priority_score [((0, 0), 1); ((1, 1), 2)]%Z [[1; 1]; [1; 1]]%Qc 0 2 = Ok (scores, left) ∧
    map (λ e, (ce_layer_idx e, ce_expert_idx e)) scores = (l ← seq 0 2; map (λ x, (Z.of_nat l, Z.of_nat x)) (seq 0 2)) ∧
    Forall (λ e, (0 < ce_r e)%Qc) scores ∧
    (left = [[1; 1]; [1; 1]]%Qc ∨ Forall (λ r, qcsum r = 1%Qc) left) ∧
    (msum [[1; 1]; [1; 1]]%Qc ≠ 0%Qc → left = normalise_decoder [[1; 1]; [1; 1]]%Qc).
Proof.
  apply (priority_score_covers 2 2).
  - by repeat constructor.
  - repeat constructor; by vm_compute.
  - lia.
  - lia.
  - lia.
  - repeat constructor; cbn; lia.
Defined.
