(* ===== verification/MoeBlocks.v ===== *)
(** * The mixture-of-experts blocks of the model wrappers
    (models/mixtral.py, qwen.py, olmoe.py, jamba.py, dbrx.py, nllb_moe.py, deepseek.py,
    deepseek_v2_wrapper.py, deepseek_v3_wrapper.py, gpt_oss.py,
    deepseek_v4/sync_moe_block.py, kernel/sglang_adapter.py, and the accumulation of
    core/parallel/expert_dispatcher.cpp)

    Each block routes every token to some experts, hands hidden states, mask and weights
    to the dispatcher, and gets the accumulated sum back.  Numbers are exact rationals;
    [cast] stands for the conversions between floating-point types, and softmax,
    [torch.topk], the gates and the experts themselves are arguments.  A tensor of shape
    [batch, seq, hidden] is a list of sequences of rows. *)
From Stdlib Require Import QArith Qcanon.
From S2P Require Import Prelude Tensor Mxfp4Gemm DeepseekStore DeepseekExperts.
Open Scope nat_scope.

(** ** The dispatcher's accumulation (expert_dispatcher.cpp) *)
Section dispatcher.
(** Expert [e] on one row; the order in which the queued experts finish *)
Context (fn : nat → row → row) (finish_order : list nat → list nat).

(** [OutputFunc]: the weighted output of one expert is added to the rows of its tokens.  A
    batch of one token is taken as it is, without looking at the mask.  (An expert that
    raises is logged and adds nothing; the experts here do not raise.) *)
Definition add_masked (x : list row) (mask : list (list bool)) (weights : list row) (final : list row) (e : nat) : list row :=
  let idx := tokens_of mask e in
  index_add final idx (zip_with vscale (map (λ t, weight_at weights t e) idx) (map (fn e) (index_select x idx))).
Definition output_func (x : list row) (mask : list (list bool)) (weights : list row) (final : list row) (e : nat) : list row :=
  if length x =? 1
  then zip_with vadd final (zip_with vscale (map (λ t, weight_at weights t e) (seq 0 (length x))) (map (fn e) x))
  else add_masked x mask weights final e.
(** [SetInputs], [dispatch_local]'s queue of the experts that some token is routed to, and
    [WaitHiddenStates] *)
Definition dispatcher_run (num_experts hidden : nat) (x : list row) (mask : list (list bool)) (weights : list row) : list row :=
  foldl (output_func x mask weights) (replicate (length x) (replicate hidden 0%Qc))
    (finish_order (active_experts num_experts mask)).
End dispatcher.

(** [rows.view(batch, seq, hidden)] *)
Definition view3 {A} (batch seq_len : nat) (rows : list A) : list (list A) :=
  map (λ b, take seq_len (drop (b * seq_len) rows)) (seq 0 batch).

Section blocks.
Context (cast : Qc → Qc) (softmax : row → row) (topk : nat → row → list nat).
Context (num_experts hidden : nat).
(** [dispatch_local] followed by [wait_dispatch_local] *)
Context (dispatch : list row → list (list bool) → list row → list row).

(** ** Routing of one token *)
Definition gather_row (p : row) (idx : list nat) : row := map (λ i, default 0%Qc (p !! i)) idx.
(** [w /= w.sum(dim=-1, keepdim=True)] *)
Definition normalize (w : row) : row := map (λ v, v / qcsum w)%Qc w.
(** Softmax, [torch.topk] and the optional normalisation; weights and experts *)
Definition select_experts (norm : bool) (top_k : nat) (logits : row) : row * list nat :=
  let p := softmax logits in
  let idx := topk top_k p in
  let w := gather_row p idx in
  (map cast (if norm then normalize w else w), idx).

(** [F.one_hot(selected).permute(0, 2, 1)] at expert [e]: which columns name it *)
Definition hot (idx : list nat) (e : nat) : list bool := map (Nat.eqb e) idx.
(** [torch.sum(routing_weights[:, :, None] * router_mask, ...)] *)
Definition summed_weights (idx : list nat) (w : row) : row :=
  map (λ e, qcsum (zip_with (λ v (b : bool), if b then v else 0%Qc) w (hot idx e))) (seq 0 num_experts).
(** [torch.any(router_mask, dim=-1)] *)
Definition any_mask (idx : list nat) : list bool := map (λ e, existsb id (hot idx e)) (seq 0 num_experts).
(** [torch.logical_or(router_mask[:, :, 0], router_mask[:, :, 1])] *)
Definition first_two_mask (idx : list nat) : res (list bool) :=
  match idx with
  | i :: j :: _ => Ok (map (λ e, (e =? i) || (e =? j)) (seq 0 num_experts))
  | _ => Err IndexError
  end.
(** [weights_mask.scatter_(1, selected_experts, routing_weights)] *)
Definition scatter_row (idx : list nat) (w : row) : row :=
  foldl (λ m iw, <[iw.1 := iw.2]> m) (replicate num_experts 0%Qc) (zip idx w).

Definition route_mixtral (top_k : nat) (logits : row) : res (list bool * row) :=
  let '(w, idx) := select_experts true top_k logits in
  mask ← first_two_mask idx;
  mret (mask, summed_weights idx w).
Definition route_qwen (norm_topk_prob : bool) (top_k : nat) (logits : row) : res (list bool * row) :=
  let '(w, idx) := select_experts norm_topk_prob top_k logits in
  Ok (any_mask idx, summed_weights idx w).
Definition route_olmoe (norm_topk_prob : bool) (top_k : nat) (logits : row) : res (list bool * row) :=
  let '(w, idx) := select_experts norm_topk_prob top_k logits in
  Ok (any_mask idx, summed_weights idx w).
Definition route_jamba (top_k : nat) (logits : row) : res (list bool * row) :=
  let '(w, idx) := select_experts true top_k logits in
  Ok (any_mask idx, summed_weights idx w).
Definition route_deepseek_v2 (top_k : nat) (logits : row) : res (list bool * row) :=
  let p := softmax logits in
  let idx := topk top_k p in
  Ok (mask_row num_experts idx, weight_row num_experts idx (gather_row p idx)).
Definition route_deepseek_v3 (top_k : nat) (logits : row) : res (list bool * row) :=
  let p := softmax logits in
  let idx := topk top_k p in
  Ok (mask_row num_experts idx, weight_row num_experts idx (gather_row p idx)).
Definition route_gpt_oss (top_k : nat) (logits : row) : res (list bool * row) :=
  let '(w, idx) := select_experts true top_k logits in
  Ok (mask_row num_experts idx, scatter_row idx w).

(** ** The blocks *)
(** What the blocks share: flatten, route every token, dispatch, restore the shape *)
Definition run_block {R} (seq_len : nat) (hidden_states : list (list row)) (gate : row → R) (route : R → res (list bool * row))
    : res (list (list row) * list R) :=
  let flat := concat hidden_states in
  let router_logits := map gate flat in
  routes ← traverse route router_logits;
  let final := dispatch flat (map fst routes) (map snd routes) in
  mret (view3 (length hidden_states) seq_len (map (map cast) final), router_logits).
(** The loop over the experts: [final[tokens] += weights * expert(x[tokens])] for every expert
    that has tokens, which are distinct *)
Fixpoint eager_loop (forward_expert : nat → list row → res (list row)) (x : list row) (mask : list (list bool)) (weights : list row)
    (experts : list nat) (final : list row) : res (list row) :=
  match experts with
  | [] => Ok final
  | e :: experts =>
      let idx := tokens_of mask e in
      if length idx =? 0 then eager_loop forward_expert x mask weights experts final
      else
        out ← forward_expert e (index_select x idx);
        eager_loop forward_expert x mask weights experts
          (index_add final idx (zip_with vscale (map (λ t, weight_at weights t e) idx) out))
  end.
Definition eager (forward_expert : nat → list row → res (list row)) (x : list row) (mask : list (list bool)) (weights : list row)
    : res (list row) :=
  eager_loop forward_expert x mask weights (seq 0 num_experts) (replicate (length x) (replicate hidden 0%Qc)).

(** [SyncMixtralSparseMoeBlock.forward] with [_forward_gptq], which keeps all columns:
    [torch.where(expert_mask[e])] gives the column and the token of every routing to [e]. *)
Definition where_hot (idxs : list (list nat)) (e : nat) : list (nat * nat) :=
  filter (λ jt, nth jt.1 (hot (nth jt.2 idxs []) e) false = true)
    (list_prod (seq 0 (match idxs with i :: _ => length i | [] => 0 end)) (seq 0 (length idxs))).
Definition forward_gptq (forward_expert : nat → list row → list row) (top_k seq_len : nat) (hidden_states : list (list row))
    (router_logits : list row) : list (list row) :=
  let flat := concat hidden_states in
  let selected := map (select_experts true top_k) router_logits in
  let final := foldl (λ final e,
    let hits := where_hot (map snd selected) e in
    if length hits =? 0 then final
    else
      let top_x := map snd hits in
      let w := map (λ jt, nth jt.1 (nth jt.2 (map fst selected) []) 0%Qc) hits in
      index_add final top_x (map (map cast) (zip_with vscale w (forward_expert e (index_select flat top_x)))))
    (replicate (length flat) (replicate hidden 0%Qc)) (seq 0 num_experts) in
  view3 (length hidden_states) seq_len final.
Definition mixtral_forward (is_gptq : bool) (forward_expert : nat → list row → list row) (gate : row → row)
    (top_k seq_len : nat) (hidden_states : list (list row)) : res (list (list row) * list row) :=
  if is_gptq
  then let router_logits := map gate (concat hidden_states) in
       Ok (forward_gptq forward_expert top_k seq_len hidden_states router_logits, router_logits)
  else run_block seq_len hidden_states gate (route_mixtral top_k).

Definition qwen3_forward (norm_topk_prob : bool) (gate : row → row) (top_k seq_len : nat) (hidden_states : list (list row)) :=
  run_block seq_len hidden_states gate (route_qwen norm_topk_prob top_k).
Definition olmoe_forward (norm_topk_prob : bool) (gate : row → row) (top_k seq_len : nat) (hidden_states : list (list row)) :=
  run_block seq_len hidden_states gate (route_olmoe norm_topk_prob top_k).
Definition jamba_forward (router : row → row) (top_k seq_len : nat) (hidden_states : list (list row)) :=
  run_block seq_len hidden_states router (route_jamba top_k).

(** [SyncDbrxFFNBlock.forward]; the router of transformers gives all weights, the top
    weights and the top experts of a token. *)
Definition dbrx_forward (router : row → row * row * list nat) (seq_len : nat) (x : list (list row)) : res (list (list row) * list row) :=
  r ← run_block seq_len x router (λ r, Ok (mask_row num_experts r.2, weight_row num_experts r.2 r.1.2));
  mret (r.1, map (λ r, r.1.1) r.2).

(** ** Shared experts *)
(** [final + self.shared_experts(identity)] *)
Definition add_shared (shared : option (row → row)) (identity final : list (list row)) : list (list row) :=
  match shared with
  | Some f => zip_with (zip_with vadd) final (map (map f) identity)
  | None => final
  end.
(** [SyncDeepseekV2MoEBlock.forward] and [SyncDeepseekV3MoEBlock.forward] *)
Definition deepseek_v2_forward (gate : row → row) (shared : option (row → row)) (top_k seq_len : nat) (hidden_states : list (list row))
    : res (list (list row)) :=
  r ← run_block seq_len hidden_states gate (route_deepseek_v2 top_k);
  mret (add_shared shared hidden_states r.1).
Definition deepseek_v3_forward (gate : row → row) (shared : option (row → row)) (top_k seq_len : nat) (hidden_states : list (list row))
    : res (list (list row)) :=
  r ← run_block seq_len hidden_states gate (route_deepseek_v3 top_k);
  mret (add_shared shared hidden_states r.1).

(** What a gate of [DeepseekMoEBlock] returns for the tokens: a tuple of some length whose
    first two entries are experts and weights, or logits *)
Inductive gate_output := GateTuple (n : nat) (selected : list (list nat)) (weights : list row) | GateLogits (logits : list row).
(** [sglang_topk_softmax]; [kernel] gives the weights and ids of a token. *)
Definition sglang_topk_softmax (kernel : nat → bool → row → row * list nat) (top_k : nat) (renormalize : bool) (logits : list row)
    : list (list bool * row) :=
  map (λ l, let '(w, idx) := kernel top_k renormalize l in (mask_row num_experts idx, scatter_row idx (map cast w))) logits.
Definition prepare_expert_route (kernel : nat → bool → row → row * list nat) (top_k : nat) (o : gate_output)
    : res (list (list bool * row) * option (list row)) :=
  match o with
  | GateTuple n selected weights =>
      if (n =? 3) || (n =? 2)
      then Ok (zip_with (λ idx w, (mask_row num_experts idx, scatter_row idx (map cast w))) selected weights, None)
      else Err ValueError
  | GateLogits logits => Ok (sglang_topk_softmax kernel top_k true logits, Some logits)
  end.
Definition deepseek_moe_forward (kernel : nat → bool → row → row * list nat) (gate : list (list row) → gate_output)
    (shared : option (row → row)) (top_k seq_len : nat) (hidden_states : list (list row)) : res (list (list row)) :=
  r ← prepare_expert_route kernel top_k (gate hidden_states);
  let final := dispatch (concat hidden_states) (map fst r.1) (map snd r.1) in
  mret (add_shared shared hidden_states (view3 (length hidden_states) seq_len (map (map cast) final))).

(** ** DeepSeek-V4 (sync_moe_block.py) *)
Record v4_block := {
  v4_is_hash : bool; v4_gate_weight : tensor2 Qc; v4_gate_bias : option row; v4_tid2eid : list (list nat);
  v4_top_k : nat; v4_scaling : Qc; v4_norm : bool; v4_has_executor : bool }.
Context (sqrtsoftplus : Qc → Qc).
(** [compute_routing]; [input_ids] is flattened with the tokens. *)
Definition compute_routing (b : v4_block) (x : list row) (input_ids : option (list Z)) : res (list (row * list nat)) :=
  if v4_is_hash b
  then match input_ids with
       | None => Err ValueError
       | Some ids => traverse (λ p, hash_route sqrtsoftplus (v4_gate_weight b) (v4_tid2eid b) (v4_scaling b) p.1 p.2) (zip x ids)
       end
  else traverse (topk_route sqrtsoftplus topk (v4_gate_weight b) (v4_gate_bias b) (v4_top_k b) (v4_scaling b) (v4_norm b)) x.
Definition compute_routing_masks (b : v4_block) (x : list row) (input_ids : option (list Z)) : res (list (list bool) * list row) :=
  r ← compute_routing b x input_ids;
  mret (indices_weights_to_masks num_experts (map snd r) (map fst r)).
Definition v4_forward (b : v4_block) (seq_len : nat) (hidden_states : list (list row)) (input_ids : option (list Z)) : res (list (list row)) :=
  if negb (v4_has_executor b) then Err RuntimeError
  else
    let flat := concat hidden_states in
    r ← compute_routing_masks b flat input_ids;
    mret (view3 (length hidden_states) seq_len (map (map cast) (dispatch flat r.1 r.2))).

(** ** NLLB (nllb_moe.py) *)
(** The router of transformers gives the mask of the first choice and the probabilities. *)
Definition argmax_true (l : list bool) : nat := default 0 (fst <$> list_find (λ b, b = true) l).
Definition fill_zeros (next x : row) : row := zip_with (λ n v, if decide (n = 0%Qc) then v else n) next x.
Definition nllb_forward (router : list (list row) → list (list (list bool)) * list (list row))
    (dispatch3 : list (list row) → list (list (list bool)) → list (list row) → res (list (list row)))
    (hidden_states : list (list row)) : res (list (list row) * (list (list row) * list (list nat))) :=
  let '(top_1_mask, combining_weights) := router hidden_states in
  let router_mask := map (map (map (λ w, negb (bool_decide (w = 0%Qc))))) combining_weights in
  next_states ← dispatch3 hidden_states router_mask combining_weights;
  mret (map (map (map cast)) (zip_with (zip_with fill_zeros) next_states hidden_states),
        (combining_weights, map (map argmax_true) top_1_mask)).

(** ** GPT-OSS (gpt_oss.py) *)
Context (sigmoid bf16 : Qc → Qc).
Definition swiglu_limit : Qc := qc 7 1.
Definition alpha : Qc := qc 1702 1000.
Definition swiglu (gate up : row) : row :=
  zip_with (λ g u, let g := clamp_max swiglu_limit g in let u := clamp_both swiglu_limit u in
                   (u + 1) * (g * sigmoid (g * alpha)))%Qc gate up.
Fixpoint evens {A} (l : list A) : list A := match l with [] => [] | x :: l => x :: odds l end
with odds {A} (l : list A) : list A := match l with [] => [] | _ :: l => evens l end.
(** [F.linear(x, w.t(), b)] with [w] given by its rows, input-major *)
Definition linear_t (w : list row) (b x : row) : row :=
  imap (λ n bn, (sum_range (length w) (λ k, default 0 (x !! k) * default 0 (w !! k ≫= lookup n)) + bn)%Qc) b.
Record packed_expert := {
  gate_up_w : list row; gate_up_b : row; down_w : list row; down_b : row;
  gate_up_packed : tensor2 Z; gate_up_scales : tensor2 Z; down_packed : tensor2 Z; down_scales : tensor2 Z }.
Definition expert_forward_bf16 (p : packed_expert) (x : row) : row :=
  let gate_up := linear_t (gate_up_w p) (gate_up_b p) x in
  linear_t (down_w p) (down_b p) (swiglu (evens gate_up) (odds gate_up)).
(** [t.t()] *)
Definition transpose2 (t : tensor2 Z) : tensor2 Z :=
  Tensor2 (t_dtype t) (length (t_rows t)) (map (λ j, map (λ r, default 0%Z (r !! j)) (t_rows t)) (seq 0 (t_cols t))).
(** [fused_mxfp4_gemm] on the transposed weights of one expert, under a tiling and an order of
    programs; the kernel stores every entry, so reading one that was not stored cannot happen. *)
Definition mxfp4_linear (e : surroundings) (T : tile) (order : list (nat * nat)) (x : tensor2 Qc) (packed scales : tensor2 Z) (b : row)
    : res (tensor2 Qc) :=
  rows ← fused_mxfp4_gemm bf16 e T order x (W2 packed) scales (Some b);
  mret (Tensor2 bfloat16 (length (t_rows packed)) (map (map (default 0%Qc)) rows)).
Definition expert_forward_mxfp4 (e : surroundings) (T : tile) (order : list (nat * nat)) (p : packed_expert) (x : tensor2 Qc)
    : res (tensor2 Qc) :=
  gate_up_out ← mxfp4_linear e T order (Tensor2 bfloat16 (t_cols x) (t_rows x)) (transpose2 (gate_up_packed p))
                  (transpose2 (gate_up_scales p)) (gate_up_b p);
  let activated := Tensor2 bfloat16 (t_cols gate_up_out / 2) (map (λ r, swiglu (evens r) (odds r)) (t_rows gate_up_out)) in
  mxfp4_linear e T order activated (transpose2 (down_packed p)) (transpose2 (down_scales p)) (down_b p).
(** [_expert_forward] on the rows of one expert *)
Definition gpt_oss_expert (e : surroundings) (T : tile) (order : list (nat * nat)) (p : packed_expert) (x : list row) : res (list row) :=
  if bool_decide (t_dtype (gate_up_packed p) = uint8)
  then out ← expert_forward_mxfp4 e T order p (Tensor2 bfloat16 hidden x); mret (t_rows out)
  else Ok (map (expert_forward_bf16 p) x).
(** [forward]: the dispatcher, or the loop over the experts *)
Definition gpt_oss_forward (executor : bool) (forward_expert : nat → list row → res (list row)) (router : row → row) (top_k seq_len : nat)
    (hidden_states : list (list row)) : res (list (list row) * list row) :=
  if executor then run_block seq_len hidden_states router (route_gpt_oss top_k)
  else
    let flat := concat hidden_states in
    let router_logits := map router flat in
    routes ← traverse (route_gpt_oss top_k) router_logits;
    final ← eager forward_expert flat (map fst routes) (map snd routes);
    mret (view3 (length hidden_states) seq_len (map (map cast) final), router_logits).
End blocks.
