(* ===== verification/MoeBlocksProps.v ===== *)
(** * The blocks compute the mixture of experts

    Whatever the order in which the dispatcher's experts finish, every block gives each
    token the sum of its selected experts' outputs with its routing weights; the loops
    without a dispatcher agree with it.  Two blocks do not always: Mixtral's uses two
    experts whatever [top_k] is, and GPT-OSS cannot multiply with packed weights. *)
From Stdlib Require Import QArith Qcanon.
From S2P Require Import Prelude Tensor Mxfp4Gemm DeepseekStore DeepseekExperts MoeBlocks.
Open Scope nat_scope.

(** The mixture: [w_0 * expert_(i_0)(x) + ... + w_(k-1) * expert_(i_(k-1))(x)] *)
Definition mixture (hidden : nat) (fn : nat → row → row) (w : row) (idx : list nat) (x : row) : row :=
  vsum hidden (zip_with (λ v e, vscale v (fn e x)) w idx).

(** ** Sums in any order *)
Lemma vadd_comm a b : vadd a b = vadd b a.
Proof. revert b. induction a as [|x a IH]; intros [|y b]; cbn; [done..|]. f_equal; [ring|apply IH]. Qed.
Lemma foldl_vadd_perm l l' z : l ≡ₚ l' → foldl vadd z l = foldl vadd z l'.
Proof.
  intros H. revert z. induction H as [|a l l' _ IH|a b l|l1 l2 l3 _ IH1 _ IH2]; intros z; cbn; [done|apply IH| |by rewrite IH1].
  by rewrite <- !vadd_assoc, (vadd_comm a b).
Qed.

Lemma filter_iff_in {A} (P Q : A → Prop) `{∀ a, Decision (P a)} `{∀ a, Decision (Q a)} (l : list A) :
  (∀ a, a ∈ l → P a ↔ Q a) → filter P l = filter Q l.
Proof.
  induction l as [|a l IH]; intros Hl; [done|]. rewrite !filter_cons, IH by (intros; apply Hl; by right).
  destruct (Hl a) as [H1 H2]; [left|]. do 2 case_decide; tauto || done.
Qed.

(** ** The dispatcher *)
Section dispatcher.
Context (fn : nat → row → row) (x : list row) (mask : list (list bool)) (weights : list row).
Context (Hmask : length mask = length x).

Lemma add_masked_fold es final :
  length final = length x →
  foldl (add_masked fn x mask weights) final es =
    map (λ t, foldl vadd (default [] (final !! t)) (adds x fn mask weights t es)) (seq 0 (length x)).
Proof.
  revert final. induction es as [|e es IH]; intros final Hlen; cbn [foldl].
  { rewrite <- Hlen. symmetry. apply map_seq_lookup_id. }
  rewrite IH by (unfold add_masked; by rewrite length_index_add). apply map_ext_in. intros t Ht%in_seq.
  unfold add_masked. rewrite index_add_step by exact Hmask. unfold adds. rewrite filter_cons.
  destruct (lookup_lt_is_Some_2 final t) as [r Hr]; [lia|]. rewrite Hr.
  destruct (decide (masked mask t e)); [rewrite decide_True by (split; [lia|done])|rewrite decide_False by tauto]; done.
Qed.

(** The short cut for a single token: it is routed to every expert that is dispatched. *)
Lemma output_func_masked e final :
  length final = length x → 0 < count_at mask e → output_func fn x mask weights final e = add_masked fn x mask weights final e.
Proof.
  intros Hlen He. unfold output_func. destruct (Nat.eqb_spec (length x) 1) as [H1|]; [|done]. rewrite H1 in *.
  destruct x as [|r [|]]; [done| |done]. destruct mask as [|m [|]]; [done| |done]. destruct final as [|f [|]]; [done| |done].
  assert (default false (m !! e) = true) as Hm.
  { unfold count_at in He. rewrite filter_cons in He. case_decide; [done|cbn in He; lia]. }
  unfold add_masked, tokens_of. cbn [length seq]. rewrite filter_cons_True by exact Hm. done.
Qed.
Lemma output_func_fold es final :
  length final = length x → Forall (λ e, 0 < count_at mask e) es →
  foldl (output_func fn x mask weights) final es = foldl (add_masked fn x mask weights) final es.
Proof.
  intros Hlen Hes. revert final Hlen. induction Hes as [|e es He _ IH]; intros final Hlen; cbn [foldl]; [done|].
  rewrite output_func_masked by done. apply IH. unfold add_masked. by rewrite length_index_add.
Qed.
Lemma adds_perm t es es' : es ≡ₚ es' → adds x fn mask weights t es ≡ₚ adds x fn mask weights t es'.
Proof. intros H. unfold adds. apply Permutation_map. by rewrite H. Qed.

(** Whatever the order in which experts finish, a token gets the sum over its experts. *)
Lemma dispatcher_run_spec finish_order num_experts hidden :
  (∀ l, finish_order l ≡ₚ l) →
  dispatcher_run fn finish_order num_experts hidden x mask weights =
    map (λ t, vsum hidden (adds x fn mask weights t (seq 0 num_experts))) (seq 0 (length x)).
Proof.
  intros Ho. unfold dispatcher_run. rewrite output_func_fold, add_masked_fold; [|apply length_replicate..|].
  2: { rewrite Ho. apply Forall_forall. by intros e [? _]%list_elem_of_filter. }
  apply map_ext_in. intros t Ht%in_seq. rewrite lookup_replicate_2 by lia. cbn [default from_option id].
  rewrite (foldl_vadd_perm _ (adds x fn mask weights t (active_experts num_experts mask))) by (apply adds_perm, Ho).
  by rewrite adds_active.
Qed.
End dispatcher.

(** ** Routes *)
(** Mask and weights of a token stand for the experts [idx] with the weights [w]. *)
Record route_for (num_experts : nat) (idx : list nat) (w : row) (mw : list bool * row) : Prop := {
  rf_nodup : NoDup idx;
  rf_range : Forall (λ e, e < num_experts) idx;
  rf_length : length w = length idx;
  rf_mask : ∀ e, e < num_experts → mw.1 !! e = Some (bool_decide (e ∈ idx));
  rf_weight : ∀ j e v, idx !! j = Some e → w !! j = Some v → mw.2 !! e = Some v }.

Lemma selected_perm num_experts idx :
  NoDup idx → Forall (λ e, e < num_experts) idx → filter (λ e, e ∈ idx) (seq 0 num_experts) ≡ₚ idx.
Proof.
  intros Hn Hr. apply NoDup_Permutation; [apply NoDup_filter, NoDup_seq|done|].
  intros e. rewrite list_elem_of_filter, elem_of_seq. split; [tauto|]. intros He. split; [done|].
  rewrite Forall_forall in Hr. specialize (Hr e He). lia.
Qed.

Lemma routed_is_mixture num_experts hidden fn x mask weights t idx w m r :
  route_for num_experts idx w (m, r) → mask !! t = Some m → weights !! t = Some r →
  vsum hidden (adds x fn mask weights t (seq 0 num_experts)) = mixture hidden fn w idx (x_at x t).
Proof.
  intros [Hn Hr Hl Hm Hw] Ht Htw. cbn [fst snd] in *. unfold mixture, vsum, adds.
  assert (filter (masked mask t) (seq 0 num_experts) = filter (λ e, e ∈ idx) (seq 0 num_experts)) as ->.
  { apply filter_iff_in. intros e He. unfold masked. rewrite Ht. cbn. rewrite Hm by (apply elem_of_seq in He; lia). cbn.
    by rewrite bool_decide_eq_true. }
  erewrite foldl_vadd_perm by (apply Permutation_map, selected_perm; done). f_equal.
  apply list_eq. intros j. rewrite list_lookup_fmap. rewrite lookup_zip_with.
  destruct (idx !! j) as [e|] eqn:Hj; cbn; [|by destruct (w !! j)].
  destruct (lookup_lt_is_Some_2 w j) as [v Hv]; [rewrite Hl; by eapply lookup_lt_Some|]. rewrite Hv. cbn.
  unfold term, weight_at. rewrite Htw. cbn. by rewrite (Hw j e v).
Qed.

Lemma any_hot idx e : existsb id (hot idx e) = bool_decide (e ∈ idx).
Proof.
  unfold hot. induction idx as [|i idx IH]; cbn; [done|]. rewrite IH. unfold id.
  destruct (Nat.eqb_spec e i) as [->|Hne]; cbn.
  - symmetry. apply bool_decide_true. left.
  - apply bool_decide_ext. rewrite elem_of_cons. tauto.
Qed.
Lemma hot_sum_none w idx e : e ∉ idx → qcsum (zip_with (λ v (b : bool), if b then v else 0%Qc) w (hot idx e)) = 0%Qc.
Proof.
  revert w. induction idx as [|i idx IH]; intros [|v w] Hn; cbn; [done..|]. apply not_elem_of_cons in Hn as [Hi Hn].
  rewrite (proj2 (Nat.eqb_neq e i) Hi). fold (hot idx e). rewrite IH by done. ring.
Qed.
Lemma hot_sum_one w idx j e v :
  NoDup idx → idx !! j = Some e → w !! j = Some v → qcsum (zip_with (λ v (b : bool), if b then v else 0%Qc) w (hot idx e)) = v.
Proof.
  revert w j. induction idx as [|i idx IH]; intros [|u w] j Hnd; try done. apply NoDup_cons in Hnd as [Hi Hnd].
  destruct j as [|j]; cbn [lookup list_lookup hot map zip_with qcsum foldr].
  - intros [= ->] [= ->]. rewrite Nat.eqb_refl. fold (hot idx e). fold (qcsum (zip_with (λ v (b : bool), if b then v else 0%Qc) w (hot idx e))).
    rewrite hot_sum_none by done. ring.
  - intros Hj Hv. assert (e ≠ i) as Hne by (intros ->; apply Hi; by eapply list_elem_of_lookup_2).
    rewrite (proj2 (Nat.eqb_neq e i) Hne). fold (hot idx e). fold (qcsum (zip_with (λ v (b : bool), if b then v else 0%Qc) w (hot idx e))).
    rewrite (IH w j) by done. ring.
Qed.

Section routes.
Context (num_experts : nat) (idx : list nat) (w : row).
Context (Hnd : NoDup idx) (Hr : Forall (λ e, e < num_experts) idx) (Hl : length w = length idx).
Lemma seq_map_lookup {A} (f : nat → A) e : e < num_experts → map f (seq 0 num_experts) !! e = Some (f e).
Proof. intros He. rewrite list_lookup_fmap, lookup_seq_lt by done. done. Qed.
Lemma summed_weight j e v : idx !! j = Some e → w !! j = Some v → summed_weights num_experts idx w !! e = Some v.
Proof.
  intros Hj Hv. unfold summed_weights. rewrite seq_map_lookup by exact (Forall_lookup_1 _ _ _ _ Hr Hj). f_equal. by eapply hot_sum_one.
Qed.
Lemma one_hot_route : route_for num_experts idx w (any_mask num_experts idx, summed_weights num_experts idx w).
Proof.
  constructor; [done|done|done|..]; cbn [fst snd].
  - intros e He. unfold any_mask. rewrite seq_map_lookup, any_hot by done. done.
  - apply summed_weight.
Qed.
Lemma position_nth j e : idx !! j = Some e → position e idx = Some j.
Proof.
  intros Hj. assert (e ∈ idx) as [k Hk]%position_elem by (by eapply list_elem_of_lookup_2).
  rewrite Hk. f_equal. eapply NoDup_lookup; [done|by apply position_lookup|done].
Qed.
Lemma scatter_add_route : route_for num_experts idx w (mask_row num_experts idx, weight_row num_experts idx w).
Proof.
  constructor; [done|done|done|..]; cbn [fst snd].
  - intros e He. by apply mask_row_lookup.
  - intros j e v Hj Hv. rewrite <- Hv. apply weight_row_lookup; [exact (Forall_lookup_1 _ _ _ _ Hr Hj)|done|done|by apply position_nth].
Qed.
Lemma scatter_route : route_for num_experts idx w (mask_row num_experts idx, scatter_row num_experts idx w).
Proof.
  constructor; [done|done|done|..]; cbn [fst snd].
  - intros e He. by apply mask_row_lookup.
  - intros j e v Hj Hv. unfold scatter_row.
    assert (∃ g : nat → Qc, w = map g idx) as [g Hg].
    { exists (λ e, default 0%Qc (w !! default 0 (position e idx))). apply list_eq. intros i. rewrite list_lookup_fmap. destruct (idx !! i) as [k|] eqn:Hi; cbn.
      - rewrite (position_nth i k Hi). cbn. destruct (lookup_lt_is_Some_2 w i) as [u Hu]; [rewrite Hl; by eapply lookup_lt_Some|]. by rewrite Hu.
      - apply lookup_ge_None. rewrite Hl. by apply lookup_ge_None. }
    rewrite Hg in Hv |- *. rewrite foldl_put_lookup by (done || (rewrite length_replicate; done)).
    rewrite decide_True by (by eapply list_elem_of_lookup_2). rewrite list_lookup_fmap, Hj in Hv. done.
Qed.
End routes.

(** The first two of the experts, as Mixtral's mask has them *)
Lemma first_two_route num_experts i j idx w u v ws :
  NoDup (i :: j :: idx) → Forall (λ e, e < num_experts) (i :: j :: idx) → w = u :: v :: ws → length ws = length idx →
  ∃ m, first_two_mask num_experts (i :: j :: idx) = Ok m ∧
    route_for num_experts [i; j] [u; v] (m, summed_weights num_experts (i :: j :: idx) w).
Proof.
  intros Hnd Hr -> Hl. eexists. split; [reflexivity|]. constructor; cbn [fst snd].
  - apply NoDup_cons in Hnd as [H1 [H2 _]%NoDup_cons]. apply NoDup_cons. split; [set_solver|apply NoDup_singleton].
  - rewrite !Forall_cons in Hr. rewrite !Forall_cons. naive_solver.
  - done.
  - intros e He. rewrite seq_map_lookup by done. f_equal. symmetry.
    destruct (Nat.eqb_spec e i), (Nat.eqb_spec e j); cbn; (apply bool_decide_true || apply bool_decide_false); set_solver.
  - intros k e x Hk Hx. apply (summed_weight num_experts (i :: j :: idx) (u :: v :: ws) Hnd Hr k); destruct k as [|[|k]]; done.
Qed.

(** ** Blocks *)
Lemma view3_map {A C} (f : A → C) seq_len (hs : list (list A)) :
  Forall (λ q, length q = seq_len) hs → view3 (length hs) seq_len (map f (concat hs)) = map (map f) hs.
Proof.
  unfold view3. induction 1 as [|q hs Hq _ IH]; [done|]. cbn [length seq concat map]. f_equal.
  - change (0 * seq_len) with 0. rewrite drop_0, map_app, take_app_length'; [done|]. by rewrite length_map.
  - rewrite <- IH, <- seq_shift, map_map. apply map_ext. intros b. f_equal. rewrite map_app.
    replace (S b * seq_len) with (length (map f q) + b * seq_len) by (rewrite length_map; lia). by rewrite drop_app_add.
Qed.

Section blocks.
Context (cast : Qc → Qc) (fn : nat → row → row) (finish_order : list nat → list nat) (num_experts hidden : nat).
Context (Horder : ∀ l, finish_order l ≡ₚ l).
Local Abbreviation dispatch := (dispatcher_run fn finish_order num_experts hidden).

Lemma dispatch_mixture (flat : list row) (routes : row → list bool * row) (ws : row → row) (idxs : row → list nat) :
  (∀ x, x ∈ flat → route_for num_experts (idxs x) (ws x) (routes x)) →
  dispatch flat (map (λ x, (routes x).1) flat) (map (λ x, (routes x).2) flat) = map (λ x, mixture hidden fn (ws x) (idxs x) x) flat.
Proof.
  intros Hr. rewrite dispatcher_run_spec by (done || by rewrite length_map).
  apply list_eq. intros t. rewrite !list_lookup_fmap. destruct (decide (t < length flat)) as [Ht|Ht].
  - destruct (lookup_lt_is_Some_2 flat t Ht) as [x Hx]. rewrite lookup_seq_lt, Hx by done. cbn. f_equal.
    destruct (routes x) as [m r] eqn:E.
    replace x with (x_at flat t) at 3 by (unfold x_at; by rewrite Hx).
    apply (routed_is_mixture _ _ _ _ _ _ _ _ _ m r).
    + rewrite <- E. apply Hr. by eapply list_elem_of_lookup_2.
    + rewrite list_lookup_fmap, Hx. cbn. by rewrite E.
    + rewrite list_lookup_fmap, Hx. cbn. by rewrite E.
  - rewrite (lookup_ge_None_2 flat) by lia. rewrite (lookup_ge_None_2 (seq _ _)) by (rewrite length_seq; lia). done.
Qed.

Lemma run_block_exact {R} (gate : row → R) (route : R → res (list bool * row)) ws idxs seq_len hs :
  Forall (λ q, length q = seq_len) hs →
  (∀ x, x ∈ concat hs → ∃ mw, route (gate x) = Ok mw ∧ route_for num_experts (idxs (gate x)) (ws (gate x)) mw) →
  run_block cast dispatch seq_len hs gate route =
    Ok (map (map (λ x, map cast (mixture hidden fn (ws (gate x)) (idxs (gate x)) x))) hs, map gate (concat hs)).
Proof.
  intros Hs Hr. unfold run_block.
  pose (mw r := match route r with Ok a => a | Err _ => ([], []) end).
  rewrite (traverse_ok route mw).
  2:{ intros r Hin. apply list_elem_of_In, in_map_iff in Hin as (x & <- & Hx%list_elem_of_In). destruct (Hr x Hx) as (a & Ha & _). unfold mw. by rewrite Ha. }
  unfold mbind, res_mbind, mret, res_mret. do 2 f_equal.
  rewrite !map_map. rewrite (dispatch_mixture _ (λ x, mw (gate x)) (λ x, ws (gate x)) (λ x, idxs (gate x))).
  - rewrite map_map. by apply view3_map.
  - intros x Hx. destruct (Hr x Hx) as (a & Ha & Hf). unfold mw. by rewrite Ha.
Qed.

Section families.
Context (softmax : row → row) (topk : nat → row → list nat) (gate : row → row) (top_k seq_len : nat).
(** The gate has one logit for each expert, softmax keeps the length, and [torch.topk] picks
    [top_k] different entries. *)
Record router_laws : Prop := {
  rl_gate : ∀ x, length (gate x) = num_experts;
  rl_softmax : ∀ l, length (softmax l) = length l;
  rl_topk : ∀ p, length p = num_experts →
    NoDup (topk top_k p) ∧ length (topk top_k p) = top_k ∧ Forall (λ e, e < num_experts) (topk top_k p) }.
Context (Hlaws : router_laws).
Local Abbreviation selected norm x := (select_experts cast softmax topk norm top_k (gate x)).

Lemma selected_ok norm x :
  NoDup (selected norm x).2 ∧ length (selected norm x).2 = top_k ∧ Forall (λ e, e < num_experts) (selected norm x).2 ∧
  length (selected norm x).1 = length (selected norm x).2.
Proof.
  destruct (rl_topk Hlaws (softmax (gate x))) as (H1 & H2 & H3); [by rewrite (rl_softmax Hlaws), (rl_gate Hlaws)|].
  unfold select_experts. cbn [fst snd]. split_and!; [done..|].
  rewrite length_map. destruct norm; unfold normalize, gather_row; by rewrite !length_map.
Qed.

(** The token function of the blocks: the mixture of the selected experts *)
Definition token_output (norm : bool) (x : row) : row :=
  map cast (mixture hidden fn (selected norm x).1 (selected norm x).2 x).
(** Mixtral's: the first two of them *)
Definition mixtral_token (x : row) : row :=
  map cast (mixture hidden fn (take 2 (selected true x).1) (take 2 (selected true x).2) x).
(** DeepSeek's: weights as softmax gives them *)
Definition deepseek_token (x : row) : row :=
  let p := softmax (gate x) in map cast (mixture hidden fn (gather_row p (topk top_k p)) (topk top_k p) x).

Lemma mixtral_block forward_expert hs :
  Forall (λ q, length q = seq_len) hs → 2 ≤ top_k →
  mixtral_forward cast softmax topk num_experts hidden dispatch false forward_expert gate top_k seq_len hs =
    Ok (map (map mixtral_token) hs, map gate (concat hs)).
Proof.
  intros Hs Hk. unfold mixtral_forward.
  apply (run_block_exact gate _ (λ l, take 2 (select_experts cast softmax topk true top_k l).1)
           (λ l, take 2 (select_experts cast softmax topk true top_k l).2)); [done|].
  intros x _. destruct (selected_ok true x) as (H1 & H2 & H3 & H4). unfold route_mixtral.
  destruct (selected true x) as [w idx]. cbn [fst snd] in *.
  destruct idx as [|i [|j idx]]; cbn in H2; [lia|lia|]. destruct w as [|u [|v ws]]; cbn in H4; [lia|lia|].
  destruct (first_two_route num_experts i j idx (u :: v :: ws) u v ws H1 H3 eq_refl) as (m & Hm & Hf); [lia|].
  eexists. split; [|exact Hf]. rewrite Hm. done.
Qed.

Lemma one_hot_block norm (route : row → res (list bool * row)) hs :
  Forall (λ q, length q = seq_len) hs →
  (∀ x, route (gate x) = Ok (any_mask num_experts (selected norm x).2, summed_weights num_experts (selected norm x).2 (selected norm x).1)) →
  run_block cast dispatch seq_len hs gate route = Ok (map (map (token_output norm)) hs, map gate (concat hs)).
Proof.
  intros Hs Hr. apply (run_block_exact gate _ (λ l, (select_experts cast softmax topk norm top_k l).1)
    (λ l, (select_experts cast softmax topk norm top_k l).2)); [done|].
  intros x _. destruct (selected_ok norm x) as (H1 & H2 & H3 & H4). eexists. split; [apply Hr|by apply one_hot_route].
Qed.

Lemma gpt_oss_route x :
  ∃ mw, route_gpt_oss cast softmax topk num_experts top_k (gate x) = Ok mw ∧
    route_for num_experts (selected true x).2 (selected true x).1 mw.
Proof.
  destruct (selected_ok true x) as (H1 & H2 & H3 & H4). unfold route_gpt_oss.
  destruct (selected true x) as [w idx]. cbn [fst snd] in *. eexists. split; [reflexivity|by apply scatter_route].
Qed.

Lemma deepseek_block (route : row → res (list bool * row)) hs :
  Forall (λ q, length q = seq_len) hs →
  (∀ l, route l = let p := softmax l in Ok (mask_row num_experts (topk top_k p), weight_row num_experts (topk top_k p) (gather_row p (topk top_k p)))) →
  run_block cast dispatch seq_len hs gate route = Ok (map (map deepseek_token) hs, map gate (concat hs)).
Proof.
  intros Hs Hr. apply (run_block_exact gate _ (λ l, gather_row (softmax l) (topk top_k (softmax l))) (λ l, topk top_k (softmax l))); [done|].
  intros x _. destruct (selected_ok true x) as (H1 & H2 & H3 & _). eexists. split; [apply Hr|].
  apply scatter_add_route; [done|done|]. unfold gather_row. by rewrite length_map.
Qed.

Lemma add_shared_map shared (f : row → row) hs :
  add_shared shared hs (map (map f) hs) = map (map (λ x, match shared with Some g => vadd (f x) (g x) | None => f x end)) hs.
Proof.
  destruct shared as [g|]; [|done]. cbn [add_shared]. induction hs as [|q hs IH]; [done|]. cbn [map zip_with]. f_equal; [|exact IH].
  clear. induction q as [|x q IH]; [done|]. cbn. by f_equal.
Qed.

(** C10: the blocks compute the mixture of experts.  For every order in which the dispatcher's
    experts finish and every batch, the blocks of Qwen3, OLMoE, Jamba, GPT-OSS, and
    Mixtral with its two experts per token give each token on its own the sum of its
    [top_k] experts' outputs with the (normalised) probabilities as weights; DeepSeek-V2
    and V3 with plain probabilities, plus the shared experts. *)
Theorem moe_blocks_exact norm shared forward_expert pure_expert hs :
  Forall (λ q, length q = seq_len) hs →
  let ok f := Ok (map (map f) hs, map gate (concat hs)) in
  let with_shared f := λ x, match shared with Some g => vadd (f x) (g x) | None => f x end in
  qwen3_forward cast softmax topk num_experts dispatch norm gate top_k seq_len hs = ok (token_output norm) ∧
  olmoe_forward cast softmax topk num_experts dispatch norm gate top_k seq_len hs = ok (token_output norm) ∧
  jamba_forward cast softmax topk num_experts dispatch gate top_k seq_len hs = ok (token_output true) ∧
  gpt_oss_forward cast softmax topk num_experts hidden dispatch true forward_expert gate top_k seq_len hs = ok (token_output true) ∧
  (top_k = 2 → mixtral_forward cast softmax topk num_experts hidden dispatch false pure_expert gate top_k seq_len hs = ok (token_output true)) ∧
  deepseek_v2_forward cast softmax topk num_experts dispatch gate shared top_k seq_len hs = Ok (map (map (with_shared deepseek_token)) hs) ∧
  deepseek_v3_forward cast softmax topk num_experts dispatch gate shared top_k seq_len hs = Ok (map (map (with_shared deepseek_token)) hs).
Proof.
  intros Hs ok with_shared. split_and!.
  - apply one_hot_block; [done|]. intros x. unfold route_qwen. by destruct (selected norm x).
  - apply one_hot_block; [done|]. intros x. unfold route_olmoe. by destruct (selected norm x).
  - apply one_hot_block; [done|]. intros x. unfold route_jamba. by destruct (selected true x).
  - unfold gpt_oss_forward. apply (run_block_exact gate _ (λ l, (select_experts cast softmax topk true top_k l).1)
      (λ l, (select_experts cast softmax topk true top_k l).2)); [done|]. intros x _. apply gpt_oss_route.
  - intros Hk. rewrite mixtral_block by (done || lia). unfold ok. do 2 f_equal. apply map_ext. intros q. apply map_ext. intros x.
    unfold mixtral_token, token_output. destruct (selected_ok true x) as (_ & H2 & _ & H4).
    rewrite !take_ge by lia. done.
  - unfold deepseek_v2_forward. rewrite deepseek_block by done. unfold mbind, res_mbind, mret, res_mret. cbn [fst]. by rewrite add_shared_map.
  - unfold deepseek_v3_forward. rewrite deepseek_block by done. unfold mbind, res_mbind, mret, res_mret. cbn [fst]. by rewrite add_shared_map.
Qed.

(** Mixtral's block masks with the first two columns only: with one expert per token it
    raises [IndexError]; with more than two, the others' share is missing, although the
    weights were normalised over all of them. *)
Theorem mixtral_uses_two_experts forward_expert hs :
  Forall (λ q, length q = seq_len) hs → concat hs ≠ [] →
  mixtral_forward cast softmax topk num_experts hidden dispatch false forward_expert gate top_k seq_len hs =
    if top_k <? 2 then Err IndexError else Ok (map (map mixtral_token) hs, map gate (concat hs)).
Proof.
  intros Hs Hne. destruct (Nat.ltb_spec top_k 2) as [Hk|Hk]; [|by apply mixtral_block].
  unfold mixtral_forward, run_block. destruct (concat hs) as [|x rest]; [done|]. cbn [map traverse].
  assert (route_mixtral cast softmax topk num_experts top_k (gate x) = Err IndexError) as ->; [|done].
  unfold route_mixtral. destruct (selected_ok true x) as (_ & H2 & _). destruct (selected true x) as [w idx]. cbn [fst snd] in *.
  destruct idx as [|i [|j idx]]; cbn in H2; [done|done|lia].
Qed.

(** ** The loops without a dispatcher *)
Lemma seq_fold_dispatch x mask weights :
  length mask = length x →
  foldl (add_masked fn x mask weights) (replicate (length x) (replicate hidden 0%Qc)) (seq 0 num_experts) = dispatch x mask weights.
Proof.
  intros Hm. rewrite add_masked_fold, dispatcher_run_spec by (done || apply length_replicate).
  apply map_ext_in. intros t Ht%in_seq. rewrite lookup_replicate_2 by lia. done.
Qed.

Lemma eager_dispatch forward_expert x mask weights :
  length mask = length x → (∀ e rows, forward_expert e rows = Ok (map (fn e) rows)) →
  eager num_experts hidden forward_expert x mask weights = Ok (dispatch x mask weights).
Proof.
  intros Hm Hf. rewrite <- seq_fold_dispatch by done. unfold eager. generalize (replicate (length x) (replicate hidden 0%Qc)) as final.
  induction (seq 0 num_experts) as [|e es IH]; intros final; cbn [eager_loop foldl]; [done|].
  destruct (tokens_of mask e) as [|t ts] eqn:Ht; cbn [length Nat.eqb].
  - assert (add_masked fn x mask weights final e = final) as -> by (unfold add_masked; by rewrite Ht). apply IH.
  - rewrite Hf. unfold mbind, res_mbind. rewrite IH. do 2 f_equal. unfold add_masked. by rewrite Ht.
Qed.

Lemma index_add_lookup final idx rows t :
  index_add final idx rows !! t = (λ r, foldl vadd r (filter (λ p, p.1 = t) (zip idx rows)).*2) <$> final !! t.
Proof.
  unfold index_add. revert final rows. induction idx as [|i idx IH]; intros final [|r rows]; cbn [zip zip_with foldl]; [by destruct (final !! t)..|].
  fold (zip idx rows). rewrite IH, filter_cons. cbn [fst snd]. destruct (decide (i = t)) as [->|Hne].
  - rewrite list_lookup_alter_eq. by destruct (final !! t).
  - by rewrite list_lookup_alter_ne.
Qed.

Lemma zip_map_filter {A C} (k : A → nat) (f : A → C) l t :
  (filter (λ p, p.1 = t) (zip (map k l) (map f l))).*2 = map f (filter (λ a, k a = t) l).
Proof.
  induction l as [|a l IH]; [done|]. cbn [map zip zip_with]. fold (zip (map k l) (map f l)). rewrite !filter_cons. cbn [fst].
  case_decide; cbn [map fmap list_fmap snd]; [by f_equal|exact IH].
Qed.
Lemma filter_pairs (P : nat * nat → Prop) `{∀ h, Decision (P h)} j l t :
  NoDup l →
  filter (λ h, h.2 = t) (filter P (map (λ y, (j, y)) l)) = if decide (t ∈ l ∧ P (j, t)) then [(j, t)] else [].
Proof.
  induction 1 as [|y l Hy Hl IH]; cbn [map]; [rewrite decide_False by (by intros [?%elem_of_nil _]); done|].
  rewrite filter_cons. destruct (decide (P (j, y))) as [Hp|Hp].
  - rewrite filter_cons. cbn [snd]. destruct (decide (y = t)) as [->|Hne]; rewrite IH.
    + rewrite decide_False by tauto. rewrite decide_True by (split; [left|done]). done.
    + do 2 case_decide; done || (exfalso; rewrite elem_of_cons in *; naive_solver).
  - rewrite IH. do 2 case_decide; done || (exfalso; rewrite elem_of_cons in *; naive_solver).
Qed.
Lemma filter_prod (P : nat * nat → Prop) `{∀ h, Decision (P h)} l n t :
  t < n → filter (λ h, h.2 = t) (filter P (list_prod l (seq 0 n))) = map (λ j, (j, t)) (filter (λ j, P (j, t)) l).
Proof.
  intros Ht. induction l as [|j l IH]; [done|]. cbn [list_prod]. rewrite !filter_app, IH, filter_cons, filter_pairs by apply NoDup_seq.
  assert (t ∈ seq 0 n) by (apply elem_of_seq; lia). do 2 case_decide; done || (exfalso; tauto).
Qed.

(** ** GPTQ *)
Section gptq.
Context (Hcast : ∀ v, cast v = v) (pure_expert : nat → list row → list row) (Hpure : ∀ e rows, pure_expert e rows = map (fn e) rows).
Context (flat : list row).
Local Abbreviation idxs := (map snd (map (select_experts cast softmax topk true top_k) (map gate flat))).
Local Abbreviation masks := (map (λ x, any_mask num_experts (selected true x).2) flat).
Local Abbreviation weights := (map (λ x, summed_weights num_experts (selected true x).2 (selected true x).1) flat).

Lemma hits_at e t x :
  flat !! t = Some x →
  filter (λ h, h.2 = t) (where_hot idxs e) = if decide (e ∈ (selected true x).2) then [(default 0 (position e (selected true x).2), t)] else [].
Proof.
  intros Hx. destruct (selected_ok true x) as (H1 & H2 & H3 & H4). unfold where_hot.
  assert (length idxs = length flat) as -> by (by rewrite !length_map).
  assert (match idxs with i :: _ => length i | [] => 0 end = top_k) as ->.
  { destruct flat as [|y ys]; [done|]. cbn [map]. by destruct (selected_ok true y) as (_ & ? & _). }
  rewrite filter_prod by (by eapply lookup_lt_Some). cbn [fst snd].
  assert (nth t idxs [] = (selected true x).2) as ->.
  { rewrite nth_lookup, !list_lookup_fmap, Hx. done. }
  rewrite (filter_iff_in _ (λ j, (selected true x).2 !! j = Some e)).
  - replace (seq 0 top_k) with (seq 0 (length (selected true x).2)) by (by rewrite H2).
    rewrite (columns_of [] [] eq_refl) by done. by case_decide.
  - intros j Hj. unfold hot. rewrite nth_lookup, list_lookup_fmap. destruct ((selected true x).2 !! j) as [i|]; cbn; [|done].
    rewrite Nat.eqb_eq. split; congruence.
Qed.

Lemma gptq_step final e :
  (let hits := where_hot idxs e in
   if length hits =? 0 then final
   else
     let top_x := map snd hits in
     let w := map (λ jt, nth jt.1 (nth jt.2 (map fst (map (select_experts cast softmax topk true top_k) (map gate flat))) []) 0%Qc) hits in
     index_add final top_x (map (map cast) (zip_with vscale w (pure_expert e (index_select flat top_x))))) =
  add_masked fn flat masks weights final e.
Proof.
  set (hits := where_hot idxs e). set (ws := map fst _). cbv zeta.
  assert (∀ top_x w, index_add final top_x (map (map cast) (zip_with vscale w (pure_expert e (index_select flat top_x)))) =
    index_add final top_x (zip_with vscale w (map (fn e) (index_select flat top_x)))) as Hc.
  { intros. rewrite Hpure. f_equal. rewrite <- (map_id (zip_with _ _ _)) at 2. apply map_ext. intros r.
    rewrite <- (map_id r) at 2. by apply map_ext. }
  rewrite Hc. clear Hc.
  assert (∀ t x, flat !! t = Some x →
    index_add final (map snd hits) (zip_with vscale (map (λ jt, nth jt.1 (nth jt.2 ws []) 0%Qc) hits)
      (map (fn e) (index_select flat (map snd hits)))) !! t = add_masked fn flat masks weights final e !! t) as Hin.
  { intros t x Hx. rewrite index_add_lookup. unfold index_select. rewrite !map_map, zip_with_vscale.
    rewrite zip_map_filter. unfold hits. rewrite (hits_at e t x Hx).
    unfold add_masked. rewrite index_add_step by (by rewrite length_map).
    destruct (selected_ok true x) as (H1 & H2 & H3 & H4).
    assert (t < length masks ∧ masked masks t e ↔ e ∈ (selected true x).2) as Hm.
    { rewrite length_map. unfold masked. rewrite list_lookup_fmap, Hx. cbn. unfold any_mask.
      assert (t < length flat) by (by eapply lookup_lt_Some). split.
      - intros [_ Hd]. rewrite list_lookup_fmap in Hd. destruct (seq 0 num_experts !! e) as [e'|] eqn:He; [|done].
        apply lookup_seq in He as [-> _]. cbn in Hd. rewrite any_hot in Hd. by apply bool_decide_eq_true in Hd.
      - intros He. split; [done|]. rewrite Forall_forall in H3. rewrite seq_map_lookup by (by apply H3). cbn. rewrite any_hot. by apply bool_decide_true. }
    destruct (decide (e ∈ (selected true x).2)) as [He|He]; [rewrite decide_True by tauto|rewrite decide_False by tauto; by destruct (final !! t)].
    apply position_elem in He as [j Hj]. rewrite Hj. destruct (final !! t) as [r|]; [|done].
    pose proof (position_lookup _ _ _ Hj) as Hl. destruct (lookup_lt_is_Some_2 (selected true x).1 j) as [v Hv]; [rewrite H4; by eapply lookup_lt_Some|].
    assert (weight_at weights t e = v) as Hw.
    { unfold weight_at. rewrite list_lookup_fmap, Hx. unfold fmap, option_fmap, option_map. cbn [mbind option_bind].
      by rewrite (summed_weight num_experts (selected true x).2 (selected true x).1 H1 H3 j e v). }
    assert (nth j (nth t ws []) 0%Qc = v) as Hn.
    { unfold ws. rewrite (nth_lookup (map _ _)), !list_lookup_fmap, Hx. unfold fmap, option_fmap, option_map. cbn [default from_option id].
      rewrite nth_lookup. unfold id. by rewrite Hv. }
    unfold term, x_at. rewrite Hx, Hw. cbn [map foldl fmap option_fmap option_map default from_option id snd fst]. rewrite Hx. cbn [default from_option id]. by rewrite Hn. }
  assert (∀ t, length flat ≤ t → add_masked fn flat masks weights final e !! t = final !! t) as Hout.
  { intros t Ht. unfold add_masked. rewrite index_add_step by (by rewrite length_map).
    rewrite decide_False; [done|]. rewrite length_map. lia. }
  destruct (Nat.eqb_spec (length hits) 0) as [Hz%nil_length_inv|_]; apply list_eq; intros t;
    (destruct (flat !! t) as [x|] eqn:Hx; [|apply lookup_ge_None in Hx; rewrite Hout by done]).
  - rewrite <- (Hin t x Hx), Hz. done.
  - done.
  - by apply (Hin t x).
  - rewrite index_add_lookup. unfold index_select. rewrite !map_map, zip_with_vscale, zip_map_filter.
    assert (filter (λ a : nat * nat, a.2 = t) hits = []) as ->; [|by destruct (final !! t)].
    destruct (filter _ hits) as [|h hs] eqn:E; [done|]. exfalso.
    assert (h ∈ filter (λ a : nat * nat, a.2 = t) hits) as [Hh [_ Hp]%list_elem_of_filter]%list_elem_of_filter by (rewrite E; left).
    apply list_elem_of_In in Hp. destruct h as [j t']. apply in_prod_iff in Hp as [_ Hp%in_seq]. cbn in Hh. rewrite !length_map in Hp. lia.
Qed.

Lemma forward_gptq_exact hs :
  Forall (λ q, length q = seq_len) hs → concat hs = flat →
  forward_gptq cast softmax topk num_experts hidden pure_expert top_k seq_len hs (map gate flat) = map (map (token_output true)) hs.
Proof.
  intros Hs Hflat. unfold forward_gptq. rewrite Hflat.
  erewrite foldl_pointwise by (intros; apply gptq_step). rewrite seq_fold_dispatch by (by rewrite length_map).
  pose proof (dispatch_mixture flat (λ x, (any_mask num_experts (selected true x).2, summed_weights num_experts (selected true x).2 (selected true x).1))
    (λ x, (selected true x).1) (λ x, (selected true x).2)) as Hd. cbn [fst snd] in Hd. rewrite Hd.
  - rewrite <- Hflat. rewrite view3_map by done. apply map_ext. intros q. apply map_ext. intros x. unfold token_output.
    rewrite <- (map_id (mixture _ _ _ _ _)) at 1. apply map_ext. intros v. by rewrite Hcast.
  - intros x _. destruct (selected_ok true x) as (H1 & H2 & H3 & H4). by apply one_hot_route.
Qed.
End gptq.

(** The loops without a dispatcher agree with it.  GPT-OSS computes the same with and
    without an executor; Mixtral's loop for GPTQ weights computes the mixture of all
    [top_k] experts, and so agrees with the dispatched block when there are two of them
    (without rounding: it rounds each expert's output). *)
Theorem loops_agree_with_dispatch forward_expert pure_expert hs :
  Forall (λ q, length q = seq_len) hs →
  (∀ e rows, forward_expert e rows = Ok (map (fn e) rows)) → (∀ e rows, pure_expert e rows = map (fn e) rows) →
  gpt_oss_forward cast softmax topk num_experts hidden dispatch false forward_expert gate top_k seq_len hs =
    gpt_oss_forward cast softmax topk num_experts hidden dispatch true forward_expert gate top_k seq_len hs ∧
  ((∀ v, cast v = v) →
    mixtral_forward cast softmax topk num_experts hidden dispatch true pure_expert gate top_k seq_len hs =
      Ok (map (map (token_output true)) hs, map gate (concat hs)) ∧
    (top_k = 2 → mixtral_forward cast softmax topk num_experts hidden dispatch true pure_expert gate top_k seq_len hs =
       mixtral_forward cast softmax topk num_experts hidden dispatch false pure_expert gate top_k seq_len hs)).
Proof.
  intros Hs Hf Hp. split.
  - unfold gpt_oss_forward, run_block. unfold mbind, res_mbind.
    pose proof (traverse_inv (route_gpt_oss cast softmax topk num_experts top_k) (map gate (concat hs))) as Hr.
    destruct (traverse _ _) as [routes|e]; [|done]. apply Forall2_length in Hr. rewrite length_map in Hr.
    rewrite eager_dispatch by (done || by rewrite length_map). done.
  - intros Hc. assert (mixtral_forward cast softmax topk num_experts hidden dispatch true pure_expert gate top_k seq_len hs =
      Ok (map (map (token_output true)) hs, map gate (concat hs))) as Hg.
    { unfold mixtral_forward. by rewrite (forward_gptq_exact Hc pure_expert Hp (concat hs) hs). }
    split; [exact Hg|]. intros Hk. rewrite Hg, mixtral_block by (done || lia). do 2 f_equal. apply map_ext. intros q. apply map_ext. intros x.
    unfold mixtral_token, token_output. destruct (selected_ok true x) as (_ & H2 & _ & H4). rewrite !take_ge by lia. done.
Qed.
End families.

(** ** Blocks whose gate names the experts *)
Lemma dispatch_rows (flat : list row) (rs : list (row * list nat)) (mws : list (list bool * row)) :
  length rs = length flat → Forall2 (λ r mw, route_for num_experts r.2 r.1 mw) rs mws →
  dispatch flat (map fst mws) (map snd mws) = zip_with (λ x r, mixture hidden fn r.1 r.2 x) flat rs.
Proof.
  intros Hl Hr. pose proof (Forall2_length _ _ _ Hr) as Hlm.
  rewrite dispatcher_run_spec by (done || (rewrite length_map; lia)).
  apply list_eq. intros t. rewrite list_lookup_fmap, lookup_zip_with. destruct (decide (t < length flat)) as [Ht|Ht].
  - destruct (lookup_lt_is_Some_2 flat t Ht) as [x Hx]. destruct (lookup_lt_is_Some_2 rs t) as [r Hrt]; [lia|].
    destruct (lookup_lt_is_Some_2 mws t) as [[m w] Hmw]; [lia|]. rewrite lookup_seq_lt, Hx, Hrt by done. cbn. f_equal.
    replace x with (x_at flat t) by (unfold x_at; by rewrite Hx).
    eapply routed_is_mixture; [exact (Forall2_lookup_lr _ _ _ _ _ _ Hr Hrt Hmw)|by rewrite list_lookup_fmap, Hmw..].
  - rewrite (lookup_ge_None_2 flat) by lia. rewrite (lookup_ge_None_2 (seq _ _)) by (rewrite length_seq; lia). done.
Qed.

(** A token's weights and experts as a gate should give them: different experts, one weight each *)
Definition gate_ok (r : row * list nat) : Prop :=
  NoDup r.2 ∧ Forall (λ e, e < num_experts) r.2 ∧ length r.1 = length r.2.

(** The mixture of each token, with shared experts added *)
Definition gated_output (shared : option (row → row)) (seq_len : nat) (hs : list (list row)) (rs : list (row * list nat)) : list (list row) :=
  add_shared shared hs (view3 (length hs) seq_len (map (map cast) (zip_with (λ x r, mixture hidden fn r.1 r.2 x) (concat hs) rs))).

Lemma scatter_routes rs :
  Forall gate_ok rs →
  Forall2 (λ r mw, route_for num_experts r.2 r.1 mw) (map (λ r, (map cast r.1, r.2)) rs)
    (map (λ r, (mask_row num_experts r.2, scatter_row num_experts r.2 (map cast r.1))) rs).
Proof.
  induction 1 as [|r rs (H1 & H2 & H3) _ IH]; cbn [map]; constructor; [|exact IH]. cbn [fst snd].
  apply scatter_route; [done|done|by rewrite length_map].
Qed.

(** Blocks whose gates name experts and weights compute their mixture: DBRX with the top
    weights of its router, [DeepseekMoEBlock] with a gate that returns a tuple of two or
    three or with logits for the fused top-k softmax, and DeepSeek-V4 with hash or top-k
    routing.  A gate that returns another tuple raises [ValueError], hash routing without
    token ids [ValueError], and a V4 block without an executor [RuntimeError]. *)
Theorem gated_blocks_exact topk kernel shared sqrtsoftplus (b : v4_block) top_k seq_len hs rs ids :
  let flat := concat hs in
  length rs = length flat → Forall gate_ok rs → Forall (λ q, length q = seq_len) hs →
  let plain := gated_output None seq_len hs in
  let casted := map (λ r : row * list nat, (map cast r.1, r.2)) rs in
  (∀ router : row → row * row * list nat, (∀ x, gate_ok ((router x).1.2, (router x).2)) →
     dbrx_forward cast num_experts dispatch router seq_len hs =
       Ok (map (map (λ x, map cast (mixture hidden fn (router x).1.2 (router x).2 x))) hs, map (λ x, (router x).1.1) flat)) ∧
  (∀ n, deepseek_moe_forward cast num_experts dispatch kernel (λ _, GateTuple n (map snd rs) (map fst rs)) shared top_k seq_len hs =
     if (n =? 3) || (n =? 2) then Ok (gated_output shared seq_len hs casted) else Err ValueError) ∧
  (∀ logits, map (kernel top_k true) logits = rs →
     deepseek_moe_forward cast num_experts dispatch kernel (λ _, GateLogits logits) shared top_k seq_len hs =
       Ok (gated_output shared seq_len hs casted)) ∧
  (compute_routing topk sqrtsoftplus b flat ids = Ok rs →
     v4_forward cast topk num_experts dispatch sqrtsoftplus b seq_len hs ids =
       if v4_has_executor b then Ok (plain rs) else Err RuntimeError) ∧
  (v4_has_executor b = true → v4_is_hash b = true → v4_forward cast topk num_experts dispatch sqrtsoftplus b seq_len hs None = Err ValueError).
Proof.
  intros flat Hl Hok Hs plain casted.
  assert (length casted = length flat) as Hlc by (unfold casted; by rewrite length_map).
  split_and!.
  - intros router Hr. unfold dbrx_forward.
    rewrite (run_block_exact router _ (λ r, r.1.2) (λ r, r.2)) by (done || (intros x _; eexists; split; [reflexivity|];
      destruct (Hr x) as (H1 & H2 & H3); by apply scatter_add_route)).
    unfold mbind, res_mbind, mret, res_mret. cbn [fst snd]. by rewrite map_map.
  - intros n. unfold deepseek_moe_forward, prepare_expert_route. destruct ((n =? 3) || (n =? 2)); [|done].
    unfold mbind, res_mbind, mret, res_mret. cbn [fst snd]. unfold gated_output. fold flat.
    assert (zip_with (λ idx w, (mask_row num_experts idx, scatter_row num_experts idx (map cast w))) (map snd rs) (map fst rs) =
      map (λ r, (mask_row num_experts r.2, scatter_row num_experts r.2 (map cast r.1))) rs) as ->
      by (clear; induction rs as [|r rs IH]; [done|]; cbn; by f_equal).
    by rewrite (dispatch_rows flat casted _ Hlc (scatter_routes rs Hok)).
  - intros logits Hk. unfold deepseek_moe_forward, prepare_expert_route, sglang_topk_softmax, mbind, res_mbind, mret, res_mret. cbn [fst snd].
    unfold gated_output. fold flat.
    assert (map (λ l, let '(w, idx) := kernel top_k true l in (mask_row num_experts idx, scatter_row num_experts idx (map cast w))) logits =
      map (λ r, (mask_row num_experts r.2, scatter_row num_experts r.2 (map cast r.1))) rs) as ->
      by (rewrite <- Hk, map_map; apply map_ext; intros l; by destruct (kernel top_k true l)).
    by rewrite (dispatch_rows flat casted _ Hlc (scatter_routes rs Hok)).
  - intros Hc. unfold v4_forward. destruct (v4_has_executor b); cbn [negb]; [|done].
    unfold compute_routing_masks. fold flat. rewrite Hc. unfold mbind, res_mbind, mret, res_mret, indices_weights_to_masks. cbn [fst snd].
    unfold plain, gated_output. cbn [add_shared]. fold flat. rewrite <- (dispatch_rows flat rs
      (map (λ r, (mask_row num_experts r.2, weight_row num_experts r.2 r.1)) rs) Hl).
    + rewrite !map_map. do 5 f_equal. clear. induction rs as [|r rs IH]; [done|]. cbn. by f_equal.
    + clear -Hok. induction Hok as [|r rs (H1 & H2 & H3) _ IH]; cbn [map]; constructor; [by apply scatter_add_route|exact IH].
  - intros He Hh. unfold v4_forward, compute_routing_masks, compute_routing. by rewrite He, Hh.
Qed.
End blocks.

(** GPT-OSS cannot run packed weights: the checkpoint has them packed along the output
    dimension ([[K, N//2]]), transposing gives [[N//2, K]], and the fused product asks for
    [[N, K//2]].  For every expert, input and tiling the call raises [AssertionError]. *)
Theorem gpt_oss_mxfp4_raises hidden sigmoid bf16 e T order (p : packed_expert) x :
  0 < hidden → t_dtype (gate_up_packed p) = uint8 → length (t_rows (gate_up_packed p)) = hidden →
  gpt_oss_expert hidden sigmoid bf16 e T order p x = Err AssertionError.
Proof.
  intros Hh Hd Hr. unfold gpt_oss_expert. rewrite bool_decide_true by done.
  unfold expert_forward_mxfp4, mxfp4_linear, fused_mxfp4_gemm. cbn [flatten_packed transpose2 t_cols t_dtype].
  rewrite Hr, (proj2 (Nat.eqb_neq hidden (hidden * 2))) by lia. done.
Qed.

(** ** Witnesses: three experts that multiply with one, two and three *)
Module Demo.
Definition id_q (q : Qc) : Qc := q.
Definition demo_fn (e : nat) (x : row) : row := vscale (qc (Z.of_nat e + 1) 1) x.
Definition demo_gate (x : row) : row := [qc 1 4; qc 1 4; qc 1 2].
Definition demo_softmax (l : row) : row := l.
Definition demo_topk (k : nat) (p : row) : list nat := take k [2; 0; 1].
Definition demo_hs : list (list row) := [[[qc 1 1]; [qc 2 1]]; [[qc 3 1]; [qc 4 1]]].
Definition demo_pure (e : nat) (rows : list row) : list row := map (demo_fn e) rows.
Lemma demo_laws k : k ≤ 3 → router_laws 3 demo_softmax demo_topk demo_gate k.
Proof.
  intros Hk. constructor; [done|done|]. intros p _. unfold demo_topk.
  destruct k as [|[|[|[|k]]]]; [..|lia]; cbn; (split_and!; [|done|repeat constructor; lia]); apply (bool_decide_unpack _); by vm_compute.
Qed.
Lemma demo_order (l : list nat) : reverse l ≡ₚ l.
Proof. apply reverse_Permutation. Qed.
Abbreviation demo_dispatch := (dispatcher_run demo_fn reverse 3 1).

(** Token [1]: two thirds of expert 2 and one third of expert 0 give [7/3]. *)
Example demo_jamba :
  jamba_forward id_q demo_softmax demo_topk 3 demo_dispatch demo_gate 2 2 demo_hs =
    Ok ([[[qc 7 3]; [qc 14 3]]; [[qc 7 1]; [qc 28 3]]], map demo_gate (concat demo_hs)).
Proof. vm_compute. reflexivity. Qed.

Lemma moe_blocks_exact_witness :
  qwen3_forward id_q demo_softmax demo_topk 3 demo_dispatch false demo_gate 2 2 demo_hs =
    Ok (map (map (token_output id_q demo_fn 1 demo_softmax demo_topk demo_gate 2 false)) demo_hs, map demo_gate (concat demo_hs)).
Proof.
  refine (proj1 (moe_blocks_exact id_q demo_fn reverse 3 1 demo_order demo_softmax demo_topk demo_gate 2 2 (demo_laws 2 _) false None
    (λ e r, Ok (demo_pure e r)) demo_pure demo_hs _)); [lia|repeat constructor].
Defined.
Lemma mixtral_uses_two_experts_witness :
  mixtral_forward id_q demo_softmax demo_topk 3 1 demo_dispatch false demo_pure demo_gate 1 2 demo_hs = Err IndexError.
Proof.
  refine (mixtral_uses_two_experts id_q demo_fn reverse 3 1 demo_order demo_softmax demo_topk demo_gate 1 2 (demo_laws 1 _) demo_pure demo_hs _ _);
    [lia|repeat constructor|discriminate].
Defined.
Lemma loops_agree_with_dispatch_witness :
  mixtral_forward id_q demo_softmax demo_topk 3 1 demo_dispatch true demo_pure demo_gate 2 2 demo_hs =
  mixtral_forward id_q demo_softmax demo_topk 3 1 demo_dispatch false demo_pure demo_gate 2 2 demo_hs.
Proof.
  destruct (loops_agree_with_dispatch id_q demo_fn reverse 3 1 demo_order demo_softmax demo_topk demo_gate 2 2 (demo_laws 2 ltac:(lia))
    (λ e r, Ok (demo_pure e r)) demo_pure demo_hs) as [_ H]; [repeat constructor|reflexivity|reflexivity|].
  exact (proj2 (H (λ v, eq_refl)) eq_refl).
Defined.
Definition demo_rs : list (row * list nat) := replicate 4 ([qc 1 2; qc 1 2], [1; 2]).
Definition demo_v4 : v4_block :=
  {| v4_is_hash := true; v4_gate_weight := Tensor2 bfloat16 1 []; v4_gate_bias := None; v4_tid2eid := []; v4_top_k := 2;
     v4_scaling := qc 1 1; v4_norm := true; v4_has_executor := true |}.
Lemma gated_blocks_exact_witness :
  deepseek_moe_forward id_q 3 demo_dispatch (λ _ _ _, ([], [])) (λ _, GateTuple 3 (map snd demo_rs) (map fst demo_rs)) None 2 2 demo_hs =
    Ok (gated_output id_q demo_fn 1 None 2 demo_hs (map (λ r : row * list nat, (map id_q r.1, r.2)) demo_rs)).
Proof.
  destruct (gated_blocks_exact id_q demo_fn reverse 3 1 demo_order demo_topk (λ _ _ _, ([], [])) None (λ q, q) demo_v4 2 2 demo_hs demo_rs None)
    as (_ & H & _); [reflexivity| |repeat constructor|exact (H 3)].
  repeat constructor; try lia; apply (bool_decide_unpack _); by vm_compute.
Defined.
Definition demo_packed : packed_expert :=
  {| gate_up_w := []; gate_up_b := [qc 0 1; qc 0 1]; down_w := []; down_b := [qc 0 1];
     gate_up_packed := Tensor2 uint8 1 [[34%Z]; [34%Z]]; gate_up_scales := Tensor2 uint8 1 [[127%Z]; [127%Z]];
     down_packed := Tensor2 uint8 1 [[34%Z]]; down_scales := Tensor2 uint8 1 [[127%Z]] |}.
Lemma gpt_oss_mxfp4_raises_witness :
  gpt_oss_expert 2 id_q id_q (Surroundings (λ _, qc 0 1) (λ _, 0%Z)) (Tile 64 64 32) [] demo_packed [[qc 1 1; qc 1 1]] = Err AssertionError.
Proof. apply gpt_oss_mxfp4_raises; [lia|reflexivity|reflexivity]. Defined.
End Demo.
