(* ===== verification/OffloadHooks.v ===== *)
(** * Forward hooks of the offloading runtime
    (runtime/model_offload.py: [setup_archer_hooks], [_register_hooks_recursively];
    utils/arguments.py)

    Every module gets a hook before and after its forward pass; they fetch and release the
    tensors that the archer engine manages.  A tensor is known to be managed by the address
    of its data, so the set of addresses has to follow every move.  The engine is an
    argument: where a tensor lies after a call.  [Arguments] moves nested values to a
    device, [Hooks] has the hooks and the runs of a model, [Setup] the registration of
    stages and experts. *)
From Stdlib Require Import String Ascii.
From S2P Require Import Prelude HfConfig.
Open Scope Z_scope.

Module Arguments.
Section arguments.
Context {T : Type}.
(** What passes through modules; a tensor is its device and contents. *)
#[warnings="-register-all"]
Inductive value :=
  | VTensor (device : string) (contents : T)
  | VList (l : list value)
  | VTuple (l : list value)
  | VDict (l : list (string * value))
  | VOther.

Definition is_dict (v : value) : bool := match v with VDict _ => true | _ => false end.
(** An entry of the arguments: [copy_args_to_device] on lists and tuples, which become tuples,
    [copy_kwargs_to_device] on dictionaries, which leaves dictionaries inside them alone *)
Fixpoint copy_item (d : string) (v : value) : value :=
  match v with
  | VTensor _ x => VTensor d x
  | VList l | VTuple l => VTuple (map (copy_item d) l)
  | VDict l => VDict (map (λ kv, (kv.1, if is_dict kv.2 then kv.2 else copy_item d kv.2)) l)
  | VOther => VOther
  end.
Definition copy_kwargs_to_device (d : string) (l : list (string * value)) : list (string * value) :=
  map (λ kv, (kv.1, if is_dict kv.2 then kv.2 else copy_item d kv.2)) l.
(** A dictionary would be indexed with integers. *)
Definition copy_args_to_device (d : string) (args : value) : res value :=
  match args with
  | VTensor _ x => Ok (VTensor d x)
  | VList l | VTuple l => Ok (VTuple (map (copy_item d) l))
  | VDict [] => Ok (VTuple [])
  | VDict (_ :: _) => Err KeyError
  | VOther => Err TypeError
  end.
(** [copy_args_to_device(target, *output)]: the function takes one argument after the device. *)
Definition copy_unpacked (d : string) (output : value) : res value :=
  match output with
  | VList [x] | VTuple [x] => copy_args_to_device d x
  | VDict [(key, _)] => Ok (VTuple (replicate (String.length key) VOther))   (** the characters of the key *)
  | _ => Err TypeError
  end.
End arguments.
Arguments value : clear implicits.
End Arguments.

Module Hooks.
Import Arguments.
Section hooks.
Context {T : Type}.

(** What the engine and the key-value hooks were asked for, and the bodies that ran *)
Inductive event :=
  | Begin (request : Z) (t : nat) | End_ (request : Z) (t : nat)
  | Reload (request : Z) | Capture (request : Z) (past : option (value T)) | Body (m : nat).
Record Runtime := {
  address : nat → Z;             (** [t.data.data_ptr()] *)
  place : nat → string;          (** [t.data.device] *)
  offload_set : gset Z;
  request_id : Z;
  kv_offload : bool;             (** [_enable_kv_cache_offload] and a cache manager *)
  log : list event }.
(** Where the engine puts a tensor on [begin] and [end], and where [.to(device)] puts one *)
Context (engine_address : Runtime → nat → Z) (engine_place : Runtime → nat → string) (copy_address : Runtime → nat → Z).
(** [get_device(torch.cuda.device_count() - 1)] *)
Context (last_device : string).

Definition relocate (t : nat) (a : Z) (d : string) (s : Runtime) : Runtime :=
  {| address := λ u, if decide (u = t) then a else address s u; place := λ u, if decide (u = t) then d else place s u;
     offload_set := offload_set s; request_id := request_id s; kv_offload := kv_offload s; log := log s |}.
Definition set_offload (o : gset Z) (s : Runtime) : Runtime :=
  {| address := address s; place := place s; offload_set := o; request_id := request_id s; kv_offload := kv_offload s; log := log s |}.
Definition record (e : event) : M Runtime unit :=
  modify (λ s, {| address := address s; place := place s; offload_set := offload_set s; request_id := request_id s;
                  kv_offload := kv_offload s; log := log s ++ [e] |}).
(** [self.offload_set.remove(ptr)] *)
Definition remove_address (a : Z) : M Runtime unit :=
  s ← get;
  if decide (a ∈ offload_set s) then modify (set_offload (offload_set s ∖ {[a]})) else raise KeyError.
Definition add_address (t : nat) : M Runtime unit := modify (λ s, set_offload ({[address s t]} ∪ offload_set s) s).

(** A managed tensor: its address leaves the set, the engine acts, its new address enters. *)
Definition engine_call (mk : Z → nat → event) (t : nat) : M Runtime string :=
  s ← get;
  remove_address (address s t);;
  s ← get;
  record (mk (request_id s) t);;
  modify (λ s', relocate t (engine_address s t) (engine_place s t) s');;
  add_address t;;
  s ← get;
  mret (place s t).
(** [param.data = param.data.to(last device)] *)
Definition move_to_last (t : nat) : M Runtime unit :=
  modify (λ s, if decide (place s t = last_device) then s else relocate t (copy_address s t) last_device s).

(** One parameter or buffer in the hook before the forward pass *)
Definition pre_tensor (t : nat) : M Runtime unit :=
  s ← get;
  if decide (address s t ∈ offload_set s) then engine_call Begin t;; mret tt else move_to_last t.
Definition pre_hook (params buffers : list nat) : M Runtime unit :=
  for_each params pre_tensor;;
  for_each buffers pre_tensor;;
  s ← get;
  when (kv_offload s) (record (Reload (request_id s))).

(** The loops of the hook after it: the devices of managed tensors, and whether a parameter
    is not managed *)
Fixpoint post_params (params : list nat) (devices : list string) (unmanaged : bool) : M Runtime (list string * bool) :=
  match params with
  | [] => mret (devices, unmanaged)
  | t :: params =>
      s ← get;
      if decide (address s t ∈ offload_set s)
      then d ← engine_call End_ t; post_params params (devices ++ [d]) unmanaged
      else post_params params devices true
  end.
Fixpoint post_buffers (buffers : list nat) (devices : list string) : M Runtime (list string) :=
  match buffers with
  | [] => mret devices
  | t :: buffers =>
      s ← get;
      if decide (address s t ∈ offload_set s)
      then d ← engine_call End_ t; post_buffers buffers (devices ++ [d])
      else post_buffers buffers devices
  end.
(** [output[1]] of a sequence, [output.past_key_values] of another object, which is an argument *)
Definition past_of (attr : option (value T)) (output : value T) : option (value T) :=
  match output with
  | VList l | VTuple l => l !! 1%nat
  | _ => attr
  end.
(** The result replaces the output when there is one. *)
Definition post_hook (params buffers : list nat) (attr : option (value T)) (output : value T) : M Runtime (option (value T)) :=
  du ← post_params params [] false;
  devices ← post_buffers buffers du.1;
  s ← get;
  when (kv_offload s) (record (Capture (request_id s) (past_of attr output)));;
  if (du.2 : bool)
  then
    let target := match devices with d :: _ => d | [] => last_device end in
    match (match output with VTensor _ x => Ok (VTensor target x) | _ => copy_unpacked target output end) with
    | Ok v => mret (Some v)
    | Err e => raise e
    end
  else mret None.

(** ** Runs of a model: a module's forward pass calls other modules *)
#[warnings="-register-all"]
Inductive call := Call (m : nat) (sub : list call).
Context (params buffers : nat → list nat) (output_of : nat → value T).
Fixpoint run (c : call) : M Runtime (value T) :=
  match c with
  | Call m sub =>
      pre_hook (params m) (buffers m);;
      record (Body m);;
      (fix run_all (l : list call) : M Runtime unit :=
         match l with [] => mret tt | c :: l => run c;; run_all l end) sub;;
      r ← post_hook (params m) (buffers m) None (output_of m);
      mret (default (output_of m) r)
  end.

(** ** [_register_hooks_recursively]: the numbers of the modules, counted in a list that is a
    default argument and so lives on between calls *)
#[warnings="-register-all"]
Inductive tree := Node (children : list tree).
Fixpoint register (m : tree) (count : nat) : list nat * nat :=
  match m with
  | Node children =>
      let '(ids, count') :=
        (fix go (l : list tree) (count : nat) : list nat * nat :=
           match l with
           | [] => ([], count)
           | c :: l => let '(ids, count) := register c (S count) in let '(ids', count) := go l count in ((ids ++ ids')%list, count)
           end) children count in
      (count :: ids, count')
  end.
End hooks.
End Hooks.

Module Setup.
(** ** The stages of the topology *)
(** [key.split(".")[0]] *)
Fixpoint first_part (s : string) : string :=
  match s with
  | EmptyString => EmptyString
  | String c s' => if Ascii.eqb c "."%char then EmptyString else String c (first_part s')
  end.
Record stage := { st_key : string; st_tensors : list (list Z) }.
Record registered := {
  rg_experts : list (Z * nat * list Z);                  (** layer, expert, tensors *)
  rg_hooks : list (string * Z * option Z * list Z);      (** module, input device, output device, tensors *)
  rg_layer : Z;
  rg_output_device : option Z }.
Section setup.
Context (node_default_device : list Z → Z) (model_type : string) (is_gptq : bool).
Definition setup_stage (st : stage) (r : registered) : res registered :=
  let outer := is_in "shared" (st_key st) || is_in "lm_head" (st_key st) in
  let key := if outer then first_part (st_key st) else st_key st in
  let out := if outer then Some 0 else rg_output_device r in
  if is_in "expert" key && negb (String.eqb model_type "gpt_oss")
  then Ok {| rg_experts := if is_gptq then rg_experts r
                           else (rg_experts r ++ imap (λ i ts, (rg_layer r, i, ts)) (st_tensors st))%list;
             rg_hooks := rg_hooks r; rg_layer := rg_layer r + 1; rg_output_device := out |}
  else match st_tensors st with
       | [] => Err IndexError
       | ts :: _ =>
           let dev := node_default_device ts in
           Ok {| rg_experts := rg_experts r; rg_hooks := (rg_hooks r ++ [(key, dev, out, ts)])%list; rg_layer := rg_layer r;
                 rg_output_device := Some dev |}
       end.
Fixpoint setup_stages (topo : list stage) (r : registered) : res registered :=
  match topo with
  | [] => Ok r
  | st :: topo => match setup_stage st r with Ok r => setup_stages topo r | Err e => Err e end
  end.
(** The loop of [setup_archer_hooks]; [first_k_dense_replace] is read for DeepSeek only. *)
Definition setup_archer_hooks (model_name : string) (first_k_dense_replace : Z) (topo : list stage) : res registered :=
  setup_stages topo {| rg_experts := []; rg_hooks := [];
                       rg_layer := if is_in "deepseek" model_name then first_k_dense_replace else 0; rg_output_device := None |}.
End setup.
End Setup.
