(* ===== verification/OffloadHooksProps.v ===== *)
(** * The hooks bracket every use of a managed tensor

    As long as different tensors lie at different addresses, the set of addresses follows
    every move: the engine is asked to fetch exactly the managed tensors of a module before
    its forward pass and to release them after it, whatever modules it calls in between.
    A module with an unmanaged parameter and a tuple as output raises. *)
From Stdlib Require Import String.
From S2P Require Import Prelude HfConfig OffloadHooks.
Open Scope Z_scope.

Module HooksProps.
Import Arguments Hooks.
Section hooks.
Context {T : Type}.
Abbreviation runtime := (@Runtime T).
Context (engine_address : runtime → nat → Z) (engine_place : runtime → nat → string) (copy_address : runtime → nat → Z) (last_device : string).
(** The tensors of the model, and those that the engine manages *)
Context (tensors managed : gset nat) (Hsub : managed ⊆ tensors).
(** Memory that the engine or torch hands out is not in use by another tensor of the model. *)
Record memory_laws : Prop := {
  ml_engine : ∀ s t u, u ∈ tensors → u ≠ t → engine_address s t ≠ address s u;
  ml_copy : ∀ s t u, u ∈ tensors → u ≠ t → copy_address s t ≠ address s u }.
Context (Hlaws : memory_laws).

(** The addresses in the set are those of the managed tensors, which lie apart from all others. *)
Record consistent (s : runtime) : Prop := {
  co_set : ∀ a, a ∈ offload_set s ↔ ∃ t, t ∈ managed ∧ address s t = a;
  co_apart : ∀ t u, t ∈ managed → u ∈ tensors → u ≠ t → address s u ≠ address s t }.
Lemma consistent_iff s t : t ∈ tensors → consistent s → (address s t ∈ offload_set s ↔ t ∈ managed).
Proof.
  intros Hk [H1 H2]. rewrite H1. split; [|by exists t]. intros (u & Hu & Ha).
  destruct (decide (t = u)) as [->|Hne]; [done|]. by destruct (H2 u t Hu Hk Hne).
Qed.

(** What a step leaves as it was *)
Definition same_flags (s s' : runtime) : Prop := request_id s' = request_id s ∧ kv_offload s' = kv_offload s.

Lemma engine_call_ok mk t s :
  consistent s → t ∈ managed →
  ∃ d s', engine_call engine_address engine_place mk t s = (Ok d, s') ∧ consistent s' ∧ same_flags s s' ∧
    log s' = log s ++ [mk (request_id s) t].
Proof.
  intros Hc Ht. assert (address s t ∈ offload_set s) as Hin by (apply consistent_iff; auto).
  unfold engine_call, remove_address, add_address, record. munfold. rewrite decide_True by done. do 2 eexists. split; [reflexivity|].
  split; [|split; [split|]; done]. cbn [set_offload relocate address offload_set].
  set (s1 := set_offload _ s). set (a := engine_address s1 t).
  assert (∀ u, u ∈ tensors → u ≠ t → a ≠ address s u) as Ha by (intros u Hk Hu; exact (ml_engine Hlaws s1 t u Hk Hu)).
  destruct Hc as [H1 H2]. constructor; cbn [address offload_set set_offload relocate].
  - intros b. rewrite decide_True by done. rewrite elem_of_union, elem_of_difference, !elem_of_singleton, H1. split.
    + intros [->|[(u & Hu & Hb) Hne]]; [exists t; by rewrite decide_True|]. exists u. split; [done|]. rewrite decide_False; [done|]. by intros ->; subst b.
    + intros (u & Hu & Hb). case_decide as Hd; [by left|]. right. split; [by exists u|]. subst b. apply H2; auto.
  - intros u v Hu Hkv Hne. destruct (decide (v = t)) as [Hv|Hv], (decide (u = t)) as [Hut|Hut].
    + congruence.
    + apply Ha; auto.
    + intros E. by apply (Ha v Hkv Hv).
    + by apply H2.
Qed.

Lemma move_ok t s :
  consistent s → t ∉ managed →
  ∃ s', move_to_last copy_address last_device t s = (Ok tt, s') ∧ consistent s' ∧ same_flags s s' ∧ log s' = log s.
Proof.
  intros Hc Ht. unfold move_to_last. munfold. case_decide; [by exists s|]. eexists. split; [reflexivity|]. split; [|by split].
  destruct Hc as [H1 H2]. assert (∀ u, u ∈ tensors → u ≠ t → copy_address s t ≠ address s u) as Ha by (intros; by apply (ml_copy Hlaws)).
  constructor; cbn [address offload_set relocate].
  - intros a. rewrite H1. split; intros (u & Hu & E); exists u; (split; [done|]); rewrite decide_False in *; done || by intros ->.
  - intros u v Hu Hkv Hne. rewrite (decide_False (P := u = t)) by (by intros ->). case_decide; [|by apply H2]. apply Ha; [auto|]. by intros ->.
Qed.

Local Abbreviation pre := (pre_tensor engine_address engine_place copy_address last_device).
Lemma pre_tensors_ok l s :
  Forall (λ t, t ∈ tensors) l → consistent s →
  ∃ s', for_each l pre s = (Ok tt, s') ∧ consistent s' ∧ same_flags s s' ∧
    log s' = log s ++ (Begin (request_id s) <$> filter (λ t, t ∈ managed) l).
Proof.
  intros Hl. revert s. induction Hl as [|t l Hin _ IH]; intros s Hc; cbn [for_each].
  { exists s. rewrite app_nil_r. by split_and!. }
  assert (∃ s1, pre t s = (Ok tt, s1) ∧ consistent s1 ∧ same_flags s s1 ∧
    log s1 = log s ++ if decide (t ∈ managed) then [Begin (request_id s) t] else []) as (s1 & Hp & Hc1 & [Hr Hk] & Hl).
  { unfold pre_tensor, mbind, M_bind, get. destruct (decide (t ∈ managed)) as [Ht|Ht].
    - rewrite decide_True by (apply consistent_iff; auto).
      destruct (engine_call_ok Begin t s Hc Ht) as (d & s1 & He & ?). rewrite He. by exists s1.
    - rewrite decide_False by (by rewrite consistent_iff). rewrite app_nil_r. by apply move_ok. }
  destruct (IH s1 Hc1) as (s2 & Hf & Hc2 & [Hr2 Hk2] & Hl2). exists s2.
  unfold mbind, M_bind. rewrite Hp, Hf. split_and!; [done|done|split; congruence|].
  rewrite Hl2, Hl, Hr, filter_cons, <- app_assoc. f_equal. by case_decide.
Qed.

Lemma post_params_ok l ds un s :
  Forall (λ t, t ∈ tensors) l → consistent s →
  ∃ ds' s', post_params engine_address engine_place l ds un s = (Ok (ds', un || existsb (λ t, bool_decide (t ∉ managed)) l), s') ∧
    consistent s' ∧ same_flags s s' ∧ log s' = log s ++ (End_ (request_id s) <$> filter (λ t, t ∈ managed) l).
Proof.
  intros Hl. revert ds un s. induction Hl as [|t l Hin _ IH]; intros ds un s Hc; cbn [post_params existsb].
  { exists ds, s. rewrite app_nil_r, orb_false_r. by split_and!. }
  unfold mbind, M_bind, get. destruct (decide (t ∈ managed)) as [Ht|Ht].
  - rewrite decide_True by (apply consistent_iff; auto). destruct (engine_call_ok End_ t s Hc Ht) as (d & s1 & He & Hc1 & [Hr Hk] & Hl). rewrite He.
    destruct (IH (ds ++ [d]) un s1 Hc1) as (ds' & s2 & Hp & Hc2 & [Hr2 Hk2] & Hl2). exists ds', s2. rewrite Hp.
    rewrite (bool_decide_false (t ∉ managed)) by tauto. split_and!; [done|done|split; congruence|].
    rewrite Hl2, Hl, Hr, filter_cons, decide_True, <- app_assoc by done. done.
  - rewrite decide_False by (by rewrite consistent_iff). destruct (IH ds true s Hc) as (ds' & s2 & Hp & Hc2 & Hf & Hl2). exists ds', s2. rewrite Hp.
    rewrite (bool_decide_true (t ∉ managed)) by done. split_and!; [by rewrite orb_true_r|done|done|]. by rewrite filter_cons, decide_False.
Qed.
Lemma post_buffers_ok l ds s :
  Forall (λ t, t ∈ tensors) l → consistent s →
  ∃ ds' s', post_buffers engine_address engine_place l ds s = (Ok ds', s') ∧ consistent s' ∧ same_flags s s' ∧
    log s' = log s ++ (End_ (request_id s) <$> filter (λ t, t ∈ managed) l).
Proof.
  intros Hl. revert ds s. induction Hl as [|t l Hin _ IH]; intros ds s Hc; cbn [post_buffers].
  { exists ds, s. rewrite app_nil_r. by split_and!. }
  unfold mbind, M_bind, get. destruct (decide (t ∈ managed)) as [Ht|Ht].
  - rewrite decide_True by (apply consistent_iff; auto). destruct (engine_call_ok End_ t s Hc Ht) as (d & s1 & He & Hc1 & [Hr Hk] & Hl). rewrite He.
    destruct (IH (ds ++ [d]) s1 Hc1) as (ds' & s2 & Hp & Hc2 & [Hr2 Hk2] & Hl2). exists ds', s2. rewrite Hp.
    split_and!; [done|done|split; congruence|]. rewrite Hl2, Hl, Hr, filter_cons, decide_True, <- app_assoc by done. done.
  - rewrite decide_False by (by rewrite consistent_iff). destruct (IH ds s Hc) as (ds' & s2 & Hp & Hc2 & Hf & Hl2). exists ds', s2. rewrite Hp.
    split_and!; [done|done|done|]. by rewrite filter_cons, decide_False.
Qed.

(** The managed tensors of a module *)
Definition own (ps bs : list nat) : list nat := filter (λ t, t ∈ managed) (ps ++ bs).

Lemma consistent_log s l : consistent s → consistent {| address := address s; place := place s; offload_set := offload_set s;
  request_id := request_id s; kv_offload := kv_offload s; log := l |}.
Proof. by intros [H1 H2]. Qed.

Lemma pre_hook_ok ps bs s :
  Forall (λ t, t ∈ tensors) ps → Forall (λ t, t ∈ tensors) bs → consistent s →
  ∃ s', pre_hook engine_address engine_place copy_address last_device ps bs s = (Ok tt, s') ∧ consistent s' ∧ same_flags s s' ∧
    log s' = log s ++ (Begin (request_id s) <$> own ps bs) ++ (if kv_offload s then [Reload (request_id s)] else []).
Proof.
  intros Hps Hbs Hc. destruct (pre_tensors_ok ps s Hps Hc) as (s1 & H1 & Hc1 & [Hr1 Hk1] & Hl1).
  destruct (pre_tensors_ok bs s1 Hbs Hc1) as (s2 & H2 & Hc2 & [Hr2 Hk2] & Hl2).
  unfold pre_hook, mbind, M_bind, get. rewrite H1, H2. unfold own. rewrite filter_app, fmap_app.
  rewrite <- Hk1, <- Hk2. destruct (kv_offload s2) eqn:Hk; cbn [when].
  - unfold record, modify. eexists. split; [reflexivity|]. split; [by apply consistent_log|]. split; [split; cbn; congruence|].
    cbn [log]. rewrite Hl2, Hl1, Hr2, Hr1, <- !app_assoc. done.
  - exists s2. split_and!; [done|done|split; congruence|]. rewrite Hl2, Hl1, Hr1, app_nil_r, <- !app_assoc. done.
Qed.

Lemma post_hook_ok ps bs attr output s :
  Forall (λ t, t ∈ tensors) ps → Forall (λ t, t ∈ tensors) bs → consistent s →
  ∃ target s',
    post_hook engine_address engine_place last_device ps bs attr output s =
      ((if existsb (λ t, bool_decide (t ∉ managed)) ps
        then match (match output with VTensor _ x => Ok (VTensor target x) | _ => copy_unpacked target output end) with
             | Ok v => Ok (Some v) | Err e => Err e end
        else Ok None), s') ∧
    consistent s' ∧ same_flags s s' ∧
    log s' = log s ++ (End_ (request_id s) <$> own ps bs) ++
      (if kv_offload s then [Capture (request_id s) (past_of attr output)] else []).
Proof.
  intros Hps Hbs Hc. destruct (post_params_ok ps [] false s Hps Hc) as (ds & s1 & H1 & Hc1 & [Hr1 Hk1] & Hl1).
  destruct (post_buffers_ok bs ds s1 Hbs Hc1) as (ds' & s2 & H2 & Hc2 & [Hr2 Hk2] & Hl2).
  unfold post_hook, mbind, M_bind, get. rewrite H1. cbn [fst snd orb]. rewrite H2.
  exists (match ds' with d :: _ => d | [] => last_device end).
  assert (∃ s3, when (kv_offload s2) (record (Capture (request_id s2) (past_of attr output))) s2 = (Ok tt, s3) ∧ consistent s3 ∧ same_flags s s3 ∧
    log s3 = log s ++ (End_ (request_id s) <$> own ps bs) ++ (if kv_offload s then [Capture (request_id s) (past_of attr output)] else []))
    as (s3 & Hw & Hc3 & Hf3 & Hl3).
  { unfold own. rewrite filter_app, fmap_app, <- Hk1, <- Hk2. destruct (kv_offload s2) eqn:Hk; cbn [when].
    - unfold record, modify. eexists. split; [reflexivity|]. split; [by apply consistent_log|]. split; [split; cbn; congruence|].
      cbn [log]. rewrite Hl2, Hl1, Hr2, Hr1, <- !app_assoc. done.
    - exists s2. split_and!; [done|done|split; congruence|]. rewrite Hl2, Hl1, Hr1, app_nil_r, <- !app_assoc. done. }
  exists s3. rewrite Hw. split; [|done]. destruct (existsb _ ps); [|done]. by destruct (match output with VTensor _ _ => _ | _ => _ end).
Qed.

(** ** Runs *)
Section runs.
Context (params buffers : nat → list nat) (output_of : nat → value T) (rid : Z) (kv : bool).
Context (Hparams : ∀ m, Forall (λ t, t ∈ tensors) (params m)) (Hbuffers : ∀ m, Forall (λ t, t ∈ tensors) (buffers m)).
Local Abbreviation run_ := (run engine_address engine_place copy_address last_device params buffers output_of).
Definition own_of (m : nat) : list nat := own (params m) (buffers m).

(** What a forward pass should ask of the engine *)
Fixpoint events (c : call) : list (@event T) :=
  match c with
  | Call m sub =>
      (Begin rid <$> own_of m) ++ (if kv then [Reload rid] else []) ++ Body m :: concat (map events sub) ++
      (End_ rid <$> own_of m) ++ (if kv then [Capture rid (past_of None (output_of m))] else [])
  end.
(** The post hook of a module has nothing to move, or a tensor. *)
Definition quiet (m : nat) : Prop := Forall (λ t, t ∈ managed) (params m) ∨ ∃ d x, output_of m = VTensor d x.
Fixpoint all_calls (P : nat → Prop) (c : call) : Prop :=
  match c with Call m sub => P m ∧ fold_right and True (map (all_calls P) sub) end.

Section call_ind.
Context (P : call → Prop) (H : ∀ m sub, Forall P sub → P (Call m sub)).
Fixpoint call_nested_ind (c : call) : P c :=
  match c with
  | Call m sub => H m sub ((fix go (l : list call) : Forall P l :=
      match l with [] => Forall_nil_2 _ | c :: l => Forall_cons_2 _ _ _ (call_nested_ind c) (go l) end) sub)
  end.
End call_ind.

Lemma run_events c s :
  consistent s → request_id s = rid → kv_offload s = kv → all_calls quiet c →
  ∃ v s', run_ c s = (Ok v, s') ∧ consistent s' ∧ same_flags s s' ∧ log s' = log s ++ events c.
Proof.
  revert s. induction c as [m sub IH] using call_nested_ind. intros s Hc Hr Hk [Hq Hcalls]. cbn [run].
  destruct (pre_hook_ok (params m) (buffers m) s (Hparams m) (Hbuffers m) Hc) as (s1 & H1 & Hc1 & [Hr1 Hk1] & Hl1).
  unfold mbind at 1, M_bind at 1. rewrite H1. unfold mbind at 1, M_bind at 1. unfold record at 1, modify at 1.
  set (s2 := {| address := address s1; place := _; offload_set := _; request_id := _; kv_offload := _; log := _ |}).
  assert (∃ s3, (fix run_all (l : list call) : M runtime unit := match l with [] => mret tt | c :: l => run_ c;; run_all l end) sub s2 = (Ok tt, s3) ∧
    consistent s3 ∧ same_flags s2 s3 ∧ log s3 = log s2 ++ concat (map events sub)) as (s3 & H3 & Hc3 & [Hr3 Hk3] & Hl3).
  { assert (consistent s2 ∧ request_id s2 = rid ∧ kv_offload s2 = kv) as (Ha & Hb & Hd).
    { split; [by apply consistent_log|]. cbn. by rewrite Hr1, Hk1. }
    clearbody s2. clear -IH Hcalls Ha Hb Hd. revert s2 Ha Hb Hd. induction IH as [|c l Hcall _ IHl]; intros s2 Ha Hb Hd.
    - exists s2. cbn. rewrite app_nil_r. by split_and!.
    - cbn in Hcalls. destruct Hcalls as [Hq1 Hq2]. destruct (Hcall s2 Ha Hb Hd Hq1) as (v & s3 & Hrun & Hc3 & [Hr3 Hk3] & Hl3).
      destruct (IHl Hq2 s3 Hc3) as (s4 & Hrun4 & Hc4 & [Hr4 Hk4] & Hl4); [congruence|congruence|]. exists s4.
      unfold mbind at 1, M_bind at 1. rewrite Hrun. split_and!; [exact Hrun4|done|split; congruence|].
      rewrite Hl4, Hl3. cbn [map concat]. by rewrite app_assoc. }
  unfold mbind at 1, M_bind at 1. rewrite H3.
  destruct (post_hook_ok (params m) (buffers m) None (output_of m) s3 (Hparams m) (Hbuffers m) Hc3) as (target & s4 & H4 & Hc4 & [Hr4 Hk4] & Hl4).
  unfold mbind at 1, M_bind at 1. rewrite H4.
  assert (∃ o, (if existsb (λ t, bool_decide (t ∉ managed)) (params m)
    then match (match output_of m with VTensor _ x => Ok (VTensor target x) | _ => copy_unpacked target (output_of m) end) with
         | Ok v => Ok (Some v) | Err e => Err e end
    else Ok None) = Ok o) as [o Ho].
  { destruct Hq as [Hq|(d & x & ->)]; [|destruct (existsb _ _); eauto]. assert (existsb (λ t, bool_decide (t ∉ managed)) (params m) = false) as ->; [|eauto].
    apply not_true_is_false. intros (t & Ht & Hn%bool_decide_eq_true)%existsb_exists. rewrite Forall_forall in Hq. apply Hn, Hq. by apply list_elem_of_In. }
  rewrite Ho. do 2 eexists. split; [reflexivity|]. split; [done|]. cbn in Hr3, Hk3. split; [split; congruence|].
  rewrite Hl4, Hl3. cbn [log s2]. unfold s2. cbn [log]. rewrite Hl1, Hr4 || rewrite Hl1. cbn [events]. unfold own_of.
  replace (request_id s3) with rid by congruence. replace (kv_offload s3) with kv by congruence. rewrite Hr, Hk.
  rewrite <- !app_assoc. done.
Qed.

(** How often the engine has fetched a tensor without releasing it again *)
Fixpoint opened (t : nat) (l : list (@event T)) : Z :=
  match l with
  | [] => 0
  | Begin _ u :: l => (if decide (u = t) then 1 else 0) + opened t l
  | End_ _ u :: l => (if decide (u = t) then -1 else 0) + opened t l
  | _ :: l => opened t l
  end.
(** Every body runs while the managed tensors of its module are fetched; [d] counts what was
    fetched before. *)
Fixpoint covered (d : nat → Z) (l : list (@event T)) : Prop :=
  match l with
  | [] => True
  | Begin _ u :: l => covered (λ t, d t + if decide (u = t) then 1 else 0) l
  | End_ _ u :: l => covered (λ t, d t + if decide (u = t) then -1 else 0) l
  | Body m :: l => (∀ t, t ∈ own_of m → 0 < d t) ∧ covered d l
  | _ :: l => covered d l
  end.
Lemma opened_app t l1 l2 : opened t (l1 ++ l2) = opened t l1 + opened t l2.
Proof. induction l1 as [|[] l1 IH]; cbn; rewrite ?IH; lia || done. Qed.
Lemma covered_ext d d' l : (∀ t, d t ≤ d' t) → covered d l → covered d' l.
Proof.
  revert d d'. induction l as [|[] l IH]; intros d d' Hd; cbn; [done|..].
  - apply IH. intros u. specialize (Hd u). lia.
  - apply IH. intros u. specialize (Hd u). lia.
  - by apply IH.
  - by apply IH.
  - intros [H1 H2]. split; [intros u Hu; specialize (H1 u Hu); specialize (Hd u); lia|by eapply IH].
Qed.
Lemma covered_app d l1 l2 : covered d l1 → covered (λ t, d t + opened t l1) l2 → covered d (l1 ++ l2).
Proof.
  revert d. induction l1 as [|[] l1 IH]; intros d; cbn; intros H1 H2.
  1: revert H2; apply covered_ext; intros u; lia.
  5: destruct H1 as [Ha Hb]; split; [exact Ha|].
  all: apply IH; [done|]; revert H2; apply covered_ext; intros u; lia.
Qed.
Lemma opened_begins t l : opened t (Begin rid <$> l) = Z.of_nat (length (filter (λ u, u = t) l)).
Proof. induction l as [|u l IH]; [done|]. cbn [fmap list_fmap opened]. rewrite IH, filter_cons. case_decide; cbn [length]; lia. Qed.
Lemma opened_ends t l : opened t (End_ rid <$> l) = - Z.of_nat (length (filter (λ u, u = t) l)).
Proof. induction l as [|u l IH]; [done|]. cbn [fmap list_fmap opened]. rewrite IH, filter_cons. case_decide; cbn [length]; lia. Qed.
Lemma covered_begins d l : covered d (Begin rid <$> l).
Proof. revert d. induction l; cbn; auto. Qed.
Lemma covered_ends d l : covered d (End_ rid <$> l).
Proof. revert d. induction l; cbn; auto. Qed.

Lemma events_balanced c : (∀ t, opened t (events c) = 0) ∧ ∀ d, (∀ t, 0 ≤ d t) → covered d (events c).
Proof.
  induction c as [m sub IH] using call_nested_ind. cbn [events].
  assert ((∀ t, opened t (concat (map events sub)) = 0) ∧ ∀ d, (∀ t, 0 ≤ d t) → covered d (concat (map events sub))) as [Ho Hc].
  { induction IH as [|c l [H1 H2] _ [IH1 IH2]]; cbn [map concat]; [done|]. split.
    - intros t. by rewrite opened_app, H1, IH1.
    - intros d Hd. apply covered_app; [by apply H2|]. apply IH2. intros t. rewrite H1. specialize (Hd t). lia. }
  split.
  - intros t. rewrite !opened_app. cbn [opened]. rewrite !opened_app, Ho, opened_begins, opened_ends. destruct kv; cbn; lia.
  - intros d Hd. apply covered_app; [apply covered_begins|]. apply covered_app; [by destruct kv|]. cbn [covered]. split.
    + intros t Ht. rewrite opened_begins. assert (t ∈ filter (λ u, u = t) (own_of m)) as Hin by (by apply list_elem_of_filter).
      specialize (Hd t). destruct (filter _ (own_of m)); [by apply elem_of_nil in Hin|]. cbn. destruct kv; cbn; lia.
    + apply covered_app.
      * apply Hc. intros t. specialize (Hd t). rewrite opened_begins. destruct kv; cbn; lia.
      * apply covered_app; [apply covered_ends|by destruct kv].
Qed.

(** C22: the hooks bracket every use of a managed tensor.  When the engine's memory is its own and
    no module has something to move that it cannot, a forward pass of any nesting of modules
    returns, the set of addresses still names exactly the managed tensors, every body ran
    while all managed tensors of its module were fetched, and every tensor was released as
    often as it was fetched. *)
Theorem hooks_bracket c s :
  consistent s → request_id s = rid → kv_offload s = kv → all_calls quiet c →
  ∃ v s' l, run_ c s = (Ok v, s') ∧ consistent s' ∧ log s' = log s ++ l ∧ covered (λ _, 0) l ∧ ∀ t, opened t l = 0.
Proof.
  intros Hc Hr Hk Hq. destruct (run_events c s Hc Hr Hk Hq) as (v & s' & Hrun & Hc' & _ & Hl). exists v, s', (events c).
  destruct (events_balanced c) as [Hb Hcov]. split_and!; [done|done|done|by apply Hcov|done].
Qed.
End runs.

(** A module with a parameter that the engine does not manage cannot return several values:
    the post hook unpacks them into the arguments of a function with two parameters. *)
Theorem post_hook_raises ps bs attr l s :
  Forall (λ t, t ∈ tensors) ps → Forall (λ t, t ∈ tensors) bs → consistent s → (∃ t, t ∈ ps ∧ t ∉ managed) → length l ≠ 1%nat →
  (post_hook engine_address engine_place last_device ps bs attr (VTuple l) s).1 = Err TypeError.
Proof.
  intros Hps Hbs Hc (t & Ht & Hn) Hl. destruct (post_hook_ok ps bs attr (VTuple l) s Hps Hbs Hc) as (target & s' & -> & _). cbn [fst].
  assert (existsb (λ t, bool_decide (t ∉ managed)) ps = true) as ->.
  { apply existsb_exists. exists t. split; [by apply list_elem_of_In|by apply bool_decide_true]. }
  destruct l as [|x [|y l]]; done.
Qed.
End hooks.
End HooksProps.

(** ** Numbering of modules *)
Module NumberingProps.
Import Hooks.
Fixpoint tree_size (m : tree) : nat := match m with Node ch => S (fold_right (λ c n, (tree_size c + n)%nat) O ch) end.
Section tree_ind.
Context (P : tree → Prop) (H : ∀ ch, Forall P ch → P (Node ch)).
Fixpoint tree_nested_ind (m : tree) : P m :=
  match m with
  | Node ch => H ch ((fix go (l : list tree) : Forall P l :=
      match l with [] => Forall_nil_2 _ | c :: l => Forall_cons_2 _ _ _ (tree_nested_ind c) (go l) end) ch)
  end.
End tree_ind.
Lemma register_ids m count : register m count = (seq count (tree_size m), (count + tree_size m - 1)%nat).
Proof.
  revert count. induction m as [ch IH] using tree_nested_ind. intros count. cbn [register tree_size].
  assert (∀ count, (fix go (l : list tree) (count : nat) : list nat * nat :=
     match l with
     | [] => ([], count)
     | c :: l => let '(ids, count) := register c (S count) in let '(ids', count) := go l count in (ids ++ ids', count)
     end) ch count = (seq (S count) (fold_right (λ c n, (tree_size c + n)%nat) O ch), (count + fold_right (λ c n, (tree_size c + n)%nat) O ch)%nat)) as Hgo.
  { induction IH as [|c l Hc _ IHl]; intros n; [cbn; by rewrite Nat.add_0_r|]. rewrite Hc.
    assert (0 < tree_size c)%nat by (destruct c; cbn; lia). rewrite IHl. cbn [fold_right].
    rewrite seq_app. f_equal; [do 2 f_equal; lia|lia]. }
  rewrite Hgo. cbn [seq]. f_equal. lia.
Qed.

(** The modules of a model are numbered in the order in which they are met, without gaps.
    But the counter is a default argument: registering a second model goes on where the
    first one ended, so that its root gets the number of the first model's last module. *)
Theorem module_numbers m m' :
  let '(ids, count) := register m 0 in
  let '(ids', _) := register m' count in
  ids = seq 0 (tree_size m) ∧ ids' = seq (tree_size m - 1) (tree_size m') ∧ last ids = head ids' ∧ is_Some (head ids').
Proof.
  rewrite !register_ids. cbn [Nat.add]. assert (0 < tree_size m)%nat by (destruct m; cbn; lia). assert (0 < tree_size m')%nat by (destruct m'; cbn; lia).
  destruct (tree_size m) as [|n]; [lia|]. destruct (tree_size m') as [|n']; [lia|]. rewrite Nat.sub_succ, Nat.sub_0_r.
  rewrite seq_S. split_and!; [done|done| |by eexists]. by rewrite last_snoc.
Qed.
End NumberingProps.

(** ** Moving arguments *)
Module ArgumentsProps.
Import Arguments.
Section arguments.
Context {T : Type}.
Implicit Types v : value T.
(** The tensors of a value in order, with their devices *)
Fixpoint tensors v : list (string * T) :=
  match v with
  | VTensor d x => [(d, x)]
  | VList l | VTuple l => concat (map tensors l)
  | VDict l => concat (map (λ kv, tensors kv.2) l)
  | VOther => []
  end.
(** No dictionary lies directly in another. *)
Fixpoint flat_dicts v : Prop :=
  match v with
  | VList l | VTuple l => fold_right and True (map flat_dicts l)
  | VDict l => fold_right and True (map (λ kv, is_dict kv.2 = false ∧ flat_dicts kv.2) l)
  | _ => True
  end.
Section value_ind.
Context (P : value T → Prop) (Ht : ∀ d x, P (VTensor d x)) (Hl : ∀ l, Forall P l → P (VList l)) (Hu : ∀ l, Forall P l → P (VTuple l))
        (Hd : ∀ l, Forall (λ kv, P kv.2) l → P (VDict l)) (Ho : P VOther).
Fixpoint value_nested_ind v : P v :=
  let fix go (l : list (value T)) : Forall P l :=
    match l with [] => Forall_nil_2 _ | v :: l => Forall_cons_2 _ _ _ (value_nested_ind v) (go l) end in
  match v with
  | VTensor d x => Ht d x
  | VList l => Hl l (go l)
  | VTuple l => Hu l (go l)
  | VDict l => Hd l ((fix god (l : list (string * value T)) : Forall (λ kv, P kv.2) l :=
      match l with [] => Forall_nil_2 _ | kv :: l => Forall_cons_2 _ _ _ (value_nested_ind kv.2) (god l) end) l)
  | VOther => Ho
  end.
End value_ind.

(** Everything is moved, contents and order stay. *)
Definition moved_to (d : string) v' v : Prop :=
  (tensors v').*2 = (tensors v).*2 ∧ (flat_dicts v → Forall (λ p, p.1 = d) (tensors v')).
Lemma moved_list d l : Forall (λ v, moved_to d (copy_item d v) v) l →
  (concat (map tensors (map (copy_item d) l))).*2 = (concat (map tensors l)).*2 ∧
  (fold_right and True (map flat_dicts l) → Forall (λ p, p.1 = d) (concat (map tensors (map (copy_item d) l)))).
Proof.
  induction 1 as [|v l [H1 H2] _ [IH1 IH2]]; cbn [map concat fold_right]; [done|]. rewrite !fmap_app, H1, IH1. split; [done|].
  intros [Hv Hf]. apply Forall_app. auto.
Qed.
Lemma copy_item_moves d v : moved_to d (copy_item d v) v.
Proof.
  induction v as [|l IH|l IH|l IH|] using value_nested_ind; cbn [copy_item].
  - split; [done|]. intros _. by constructor.
  - by apply moved_list.
  - by apply moved_list.
  - unfold moved_to. cbn [tensors flat_dicts]. induction IH as [|[k v] l [H1 H2] _ [IH1 IH2]]; [done|]. cbn [map concat fold_right fst snd] in *.
    rewrite !fmap_app, IH1. split.
    + f_equal. by destruct (is_dict v).
    + intros [[Hd Hf] Hl]. rewrite Hd. apply Forall_app. auto.
  - done.
Qed.

(** [copy_args_to_device] loses and reorders nothing, and puts every tensor on the device
    unless it lies in a dictionary within a dictionary. *)
Theorem copy_args_exact d v v' :
  copy_args_to_device d v = Ok v' → (tensors v').*2 = (tensors v).*2 ∧ (flat_dicts v → Forall (λ p, p.1 = d) (tensors v')).
Proof.
  destruct v as [|l|l|[|kv l]|]; cbn [copy_args_to_device]; intros [= <-].
  - split; [done|]. intros _. by constructor.
  - apply moved_list, Forall_forall. intros; apply copy_item_moves.
  - apply moved_list, Forall_forall. intros; apply copy_item_moves.
  - done.
Qed.
End arguments.

(** A tensor two dictionaries deep stays where it was. *)
Example nested_dict_stays :
  tensors (copy_item "cuda:0" (VDict [("a", VDict [("b", VTensor "cpu" tt)])])%string) = [("cpu"%string, tt)].
Proof. reflexivity. Qed.
Lemma copy_args_exact_witness :
  ∃ v', copy_args_to_device "cuda:0" (VList [VTensor "cpu" 1; VDict [("k", VTensor "cpu" 2)]; VOther])%string = Ok v' ∧ (tensors v').*2 = [1; 2].
Proof.
  eexists. split; [reflexivity|].
  exact (proj1 (copy_args_exact "cuda:0" (VList [VTensor "cpu" 1; VDict [("k", VTensor "cpu" 2)]; VOther])%string _ eq_refl)).
Defined.
End ArgumentsProps.

(** ** Stages *)
Module SetupProps.
Import Setup.
Section setup.
Context (node_default_device : list Z → Z) (model_type : string).
(** A stage of experts: its (possibly shortened) name contains "expert". *)
Definition expert_stage (st : stage) : bool :=
  is_in "expert" (if is_in "shared" (st_key st) || is_in "lm_head" (st_key st) then first_part (st_key st) else st_key st)
  && negb (String.eqb model_type "gpt_oss").
Lemma setup_stages_experts topo r r' :
  setup_stages node_default_device model_type false topo r = Ok r' →
  rg_experts r' = rg_experts r ++ concat (imap (λ i st, imap (λ j ts, (rg_layer r + Z.of_nat i, j, ts)) (st_tensors st)) (filter (λ st, expert_stage st = true) topo)).
Proof.
  revert r. induction topo as [|st topo IH]; intros r; cbn [setup_stages]; [intros [= <-]; by rewrite app_nil_r|].
  destruct (setup_stage _ _ _ st r) as [r1|] eqn:Hs; [|done]. intros Hr. rewrite (IH r1 Hr), filter_cons. clear IH Hr. revert Hs.
  unfold setup_stage. cbv zeta. fold (expert_stage st). destruct (expert_stage st) eqn:He.
  - intros [= <-]. rewrite decide_True by done. cbn [rg_experts rg_layer imap concat]. rewrite <- app_assoc. f_equal. f_equal.
    + apply imap_ext. intros j ts _. do 2 f_equal. lia.
    + f_equal. apply imap_ext. intros i st' _. apply imap_ext. intros j ts _. cbn. do 2 f_equal. lia.
  - rewrite decide_False by done. destruct (st_tensors st); [done|]. by intros [= <-].
Qed.

(** The experts are registered once each: stage by stage in the order of the topology, with
    consecutive layer numbers that begin at [first_k_dense_replace] for DeepSeek models and at
    zero for others, and within a stage with consecutive expert numbers and their tensors. *)
Theorem experts_registered model_name first topo r :
  setup_archer_hooks node_default_device model_type false model_name first topo = Ok r →
  let start := if is_in "deepseek" model_name then first else 0 in
  let stages := filter (λ st, expert_stage st = true) topo in
  rg_experts r = concat (imap (λ i st, imap (λ j ts, (start + Z.of_nat i, j, ts)) (st_tensors st)) stages) ∧
  NoDup (rg_experts r).*1.
Proof.
  intros Hs start stages. apply setup_stages_experts in Hs. cbn [rg_experts rg_layer app] in Hs. fold start in Hs. fold stages in Hs.
  rewrite Hs. split; [done|]. clear. clearbody stages start. revert start. induction stages as [|st l IH]; intros start; cbn [imap concat]; [constructor|].
  rewrite fmap_app. apply NoDup_app. split_and!.
  - rewrite fmap_imap, (imap_ext _ (λ j _, (start + Z.of_nat 0, j))) by done. rewrite imap_seq_0. apply NoDup_fmap_2_strong; [|apply NoDup_seq]. intros ?? _ _ [=]. done.
  - intros [i j] H1 H2. apply list_elem_of_fmap in H1 as ([[i1 j1] ts] & E1 & H1). apply elem_of_lookup_imap_1 in H1 as (k & x & E2 & _).
    apply list_elem_of_fmap in H2 as ([[i2 j2] ts2] & E3 & H2). apply list_elem_of_In, in_concat in H2 as (row & Hrow & Hin).
    apply list_elem_of_In, elem_of_lookup_imap_1 in Hrow as (k2 & st2 & -> & _). apply list_elem_of_In, elem_of_lookup_imap_1 in Hin as (k3 & x3 & E4 & _).
    cbn [fst] in E1, E3. assert (i = start + Z.of_nat 0) by congruence. assert (i = start + Z.of_nat (S k2)) by congruence. lia.
  - specialize (IH (start + 1)). erewrite imap_ext; [exact IH|]. intros i st' _. apply imap_ext. intros j ts _. cbn. do 2 f_equal. lia.
Qed.
End setup.
End SetupProps.

(** ** A model of two modules: tensors 0 and 1 are managed, tensor 2 is not *)
Module HooksDemo.
Import Arguments Hooks HooksProps.
Abbreviation runtime := (@Runtime Z).
Definition fresh (s : runtime) (t : nat) : Z := Z.max (address s 0%nat) (Z.max (address s 1%nat) (address s 2%nat)) + 1.
Definition gpu (s : runtime) (t : nat) : string := "cuda:0".
Definition all : gset nat := {[0; 1; 2]}%nat.
Definition mine : gset nat := {[0; 1]}%nat.
Lemma laws : memory_laws fresh fresh all.
Proof.
  split; unfold fresh; intros s t u Hu _; apply elem_of_union in Hu as [[Hu|Hu]%elem_of_union|Hu];
    apply elem_of_singleton in Hu as ->; lia.
Qed.
Definition start : runtime :=
  {| address := λ t, 100 * Z.of_nat t; place := λ _, "cpu"%string; offload_set := {[0; 100]}; request_id := 7; kv_offload := true; log := [] |}.
Lemma start_consistent : consistent all mine start.
Proof.
  split; cbn.
  - intros a. unfold mine. split; [|intros (t & Ht & <-); set_unfold in Ht; destruct Ht as [-> | ->]; set_solver].
    intros Ha. set_unfold in Ha. destruct Ha as [-> | ->]; [exists 0%nat|exists 1%nat]; split; set_solver || lia.
  - intros t u _ _ Hne. lia.
Qed.
Definition params (m : nat) : list nat := if decide (m = 0%nat) then [0; 2]%nat else [1]%nat.
Definition buffers (m : nat) : list nat := [].
Definition output_of (m : nat) : value Z := if decide (m = 0%nat) then VTensor "cpu" 5 else VTuple [VTensor "cpu" 1; VTensor "cpu" 2].
Lemma params_known m : Forall (λ t, t ∈ all) (params m).
Proof. unfold params. case_decide; repeat constructor; unfold all; set_solver. Qed.

Lemma hooks_bracket_witness :
  ∃ v s' l, run fresh gpu fresh "cuda:1" params buffers output_of (Call 0 [Call 1 []; Call 1 []]) start = (Ok v, s') ∧
    log s' = l ∧ l ≠ [] ∧ (∀ t, opened t l = 0).
Proof.
  destruct (hooks_bracket fresh gpu fresh "cuda:1" all mine ltac:(unfold all, mine; set_solver) laws params buffers output_of 7 true
    params_known ltac:(intros; apply Forall_nil_2) (Call 0 [Call 1 []; Call 1 []]) start start_consistent eq_refl eq_refl) as (v & s' & l & Hr & _ & Hl & _ & Ho).
  - cbn. unfold quiet, params, output_of, mine. split; [right; by eexists _, _|]. split_and!; try done; left; repeat constructor; set_solver.
  - exists v, s', l. split_and!; [exact Hr|exact Hl| |exact Ho]. intros ->. vm_compute in Hr. injection Hr as <- <-. vm_compute in Hl. discriminate Hl.
Defined.
Lemma post_hook_raises_witness :
  (post_hook fresh gpu "cuda:1" [0; 2]%nat [] None (VTuple [VTensor "cpu" 1; VTensor "cpu" 2])%string start).1 = Err TypeError.
Proof.
  apply (post_hook_raises fresh gpu fresh "cuda:1" all mine ltac:(unfold all, mine; set_solver) laws [0; 2]%nat [] None
    [VTensor "cpu" 1; VTensor "cpu" 2]%string start).
  - repeat constructor; unfold all; set_solver.
  - constructor.
  - exact start_consistent.
  - exists 2%nat. split; [set_solver|unfold mine; set_solver].
  - done.
Defined.
End HooksDemo.
Module SetupDemo.
Import Setup SetupProps.
Definition topology : list stage :=
  [{| st_key := "model.embed_tokens"; st_tensors := [[0]] |}; {| st_key := "model.layers.1.mlp.experts"; st_tensors := [[1; 2]; [3; 4]] |};
   {| st_key := "model.layers.2.mlp.experts"; st_tensors := [[5; 6]] |}; {| st_key := "lm_head.weight"; st_tensors := [[7]] |}].
Lemma experts_registered_witness :
  ∃ r, setup_archer_hooks (λ _, 0) "qwen3" false "deepseek-v2" 1 topology = Ok r ∧
    rg_experts r = [(1, 0%nat, [1; 2]); (1, 1%nat, [3; 4]); (2, 0%nat, [5; 6])].
Proof. eexists. split; [reflexivity|]. exact (proj1 (experts_registered (λ _, 0) "qwen3" "deepseek-v2" 1 topology _ eq_refl)). Defined.
End SetupDemo.
