(* ===== verification/BigModeling.v ===== *)
(** * The [MoE] entry point (entrypoints/big_modeling.py)

    [Loading] follows [MoE.__init__]: the checks in their order, the architecture, the
    native components that [_build_native_components] derives from the attributes of a
    model's configuration.  [Running] has the forward function that the generation loop
    is given, with the cached past key values and the paged contexts that it sets and
    clears, and [generate], [serve] and [forward] around it.

    The model, its loading and transformers' own [generate] are arguments, as is what
    torch reports of the devices.  Moving tensors between devices is not represented. *)
From Stdlib Require Import QArith String.
From S2P Require Import Prelude Json HfConfig Quantization PagedAttention ModelRunner LoadingSupport.
From S2P Require Import BlockPool KVCacheManager Sampler EngineTypes EngineScheduler TransferScheduler.
From S2P Require Import MemoryManager ExpertTracing GenerationLoop.
Open Scope Z_scope.
Local Open Scope string_scope.

Module Loading.
(** ** Attributes of a configuration *)
#[warnings="-register-all"]
Inductive pyval :=
  | PyNone | PyInt (z : Z) | PyBool (b : bool) | PyStr (s : string) | PyDtype (d : kv_dtype)
  | PyList (l : list pyval) | PyOther.
Abbreviation config := (gmap string pyval).
Definition getattr (c : config) (name : string) (dflt : pyval) : pyval := default dflt (c !! name).
(** [isinstance(value, int)]: a [bool] is one *)
Definition as_int (v : pyval) : option Z :=
  match v with PyInt z => Some z | PyBool b => Some (Z.b2z b) | _ => None end.

Fixpoint resolve_model_int_attr (c : config) (names : list string) : option Z :=
  match names with
  | [] => None
  | name :: names =>
      match as_int (getattr c name PyNone) with Some z => Some z | None => resolve_model_int_attr c names end
  end.

(** [s.replace(old, "")] for an [old] that is not empty *)
Fixpoint remove_all (fuel : nat) (old s : string) : string :=
  match fuel, s with
  | S fuel, String c s' =>
      match strip_prefix old s with Some rest => remove_all fuel old rest | None => String c (remove_all fuel old s') end
  | _, _ => s
  end.
Definition dtype_mapping : list (string * kv_dtype) :=
  [("float16", PagedAttention.Float16); ("half", PagedAttention.Float16); ("float32", PagedAttention.Float32);
   ("float", PagedAttention.Float32); ("bfloat16", Bfloat16)].
Definition resolve_torch_dtype (c : config) : kv_dtype :=
  match getattr c "torch_dtype" PyNone with
  | PyDtype d => d
  | PyStr s =>
      match List.find (λ p, String.eqb p.1 (remove_all (String.length s) "torch." s)) dtype_mapping with
      | Some (_, d) => d
      | None => PagedAttention.Float16
      end
  | _ => PagedAttention.Float16
  end.

(** ** The native components *)
Record EngineConfig := {
  use_native_engine : bool;
  device_memory_ratio : Q;
  kv_cache_memory_ratio : Q;
  enable_kv_cache_offload : bool }.
Definition set_kv_ratio (q : Q) (e : EngineConfig) : EngineConfig :=
  {| use_native_engine := use_native_engine e; device_memory_ratio := device_memory_ratio e;
     kv_cache_memory_ratio := q; enable_kv_cache_offload := enable_kv_cache_offload e |}.

Section components.
(** [cuda.device_count()] and the memory of each device; whether FlashInfer is there and can
    be set up *)
Context (num_gpu_devices : Z) (device_total : Z → option Z) (flashinfer : option (res unit)).
Context {V : Type} (zero : V).

Record NativeComponents := {
  memory_coordinator : Coordinator.MemoryCoordinator;
  kv_cache_manager : KVCacheManager;
  attention_backend : option (@PagedAttentionBackend V);
  transfer_scheduler : TransferScheduler;
  kv_offload_registered : bool;      (** a coordinator exists and has registered its handlers *)
  scheduler : Scheduler;
  (** the fields of the [GenerationEngine] *)
  ge_num_kv_heads : Z; ge_head_dim : Z; ge_dtype : kv_dtype; ge_block_size : Z;
  ge_num_layers : Z; ge_vocab_size : Z; ge_eos_token_id : Z; ge_max_seq_length : Z;
  (** what else was assigned *)
  nc_engine_config : EngineConfig;
  nc_max_seq_length : Z }.

Definition resolve_heads (c : config) : Z :=
  default 1 (resolve_model_int_attr c ["num_attention_heads"; "n_head"]).
Definition resolve_kv_heads (c : config) : Z :=
  default (resolve_heads c) (resolve_model_int_attr c ["num_key_value_heads"; "num_kv_heads"; "n_head_kv"]).
Definition resolve_head_dim (c : config) : Z :=
  match resolve_model_int_attr c ["head_dim"] with
  | Some d => d
  | None =>
      let hidden_size := default (Z.max 1 (resolve_heads c * 128)) (resolve_model_int_attr c ["hidden_size"; "n_embd"]) in
      Z.max 1 (hidden_size / Z.max 1 (resolve_heads c))
  end.
Definition resolve_eos (c : config) : Z :=
  let v := match getattr c "eos_token_id" (PyInt 2) with PyList l => default (PyInt 2) (head l) | v => v end in
  default 2 (as_int v).
(** [KVCacheSpec.page_size_bytes] at the given sizes *)
Definition page_bytes (heads dim : Z) (d : kv_dtype) : res Z :=
  match d with
  | PagedAttention.Float16 | Bfloat16 => Ok (16 * heads * dim * 2 * 2)
  | PagedAttention.Float32 => Ok (16 * heads * dim * 4 * 2)
  | PagedAttention.OtherDtype => Err KeyError
  end.
(** [PagedAttentionBackend(...)], [None] when it raises; [torch.zeros] raises on a negative size *)
Definition make_backend (heads dim : Z) (d : kv_dtype) (blocks : Z) : option (@PagedAttentionBackend V) :=
  if (heads <? 0)%Z || (dim <? 0)%Z then None
  else match PagedAttention.init zero {| num_kv_heads := Z.to_nat heads; head_dim := Z.to_nat dim; kv_type := d; PagedAttention.block_size := 16 |}
               (Z.to_nat blocks) flashinfer with
       | Ok b => Some b
       | Err _ => None
       end.

(** [_build_native_components]; [max_seq_length] is [self.max_seq_length] before the call *)
Definition build_native_components (c : config) (e : EngineConfig) (max_seq_length : Z) : res (option NativeComponents) :=
  if negb (use_native_engine e) then Ok None
  else
    let num_layers := default 1 (resolve_model_int_attr c ["num_hidden_layers"; "num_layers"; "n_layer"]) in
    let kv_heads := resolve_kv_heads c in
    let dim := resolve_head_dim c in
    let vocab_size := default 32000 (resolve_model_int_attr c ["vocab_size"]) in
    let e := if Qeq_bool (kv_cache_memory_ratio e) 0 then set_kv_ratio (15 # 100) e else e in
    match Coordinator.from_config (Some (device_memory_ratio e)) (Some (kv_cache_memory_ratio e)) (Some true) with
    | Err x => Err x
    | Ok coordinator =>
        let dtype := resolve_torch_dtype c in
        match page_bytes kv_heads dim dtype with
        | Err x => Err x
        | Ok page =>
            let num_gpu_blocks := Z.max 1 (Coordinator.compute_num_kv_blocks num_gpu_devices device_total coordinator
                                             (page * Z.max 1 num_layers)) in
            let num_cpu_blocks := Z.max 32 (num_gpu_blocks * 2) in
            let manager := mgr_init num_gpu_blocks num_cpu_blocks 16 in
            let length_ := default max_seq_length
              (resolve_model_int_attr c ["max_position_embeddings"; "n_positions"; "max_sequence_length"; "seq_length"]) in
            Ok (Some {| memory_coordinator := coordinator; kv_cache_manager := manager;
                        attention_backend := make_backend kv_heads dim dtype num_gpu_blocks;
                        transfer_scheduler := ts_init; kv_offload_registered := enable_kv_cache_offload e;
                        scheduler := sched_init manager 256 4096;
                        ge_num_kv_heads := kv_heads; ge_head_dim := dim; ge_dtype := dtype; ge_block_size := 16;
                        ge_num_layers := num_layers; ge_vocab_size := vocab_size; ge_eos_token_id := resolve_eos c;
                        ge_max_seq_length := length_; nc_engine_config := e; nc_max_seq_length := length_ |})
        end
    end.
End components.

(** ** [MoE.__init__] *)

(** The first name of the registry that occurs in the class name *)
Definition resolve_arch (has_v4 : bool) (architectures : list string) : res string :=
  match architectures with
  | [] => Err RuntimeError
  | a :: _ =>
      match List.find (λ kv, is_in kv.1 (lower a)) (registry has_v4) with
      | Some (arch, _) => Ok arch
      | None => Err RuntimeError
      end
  end.

(** Whether flash attention is used: it is installed and the architecture allows it *)
Definition flash_attention (installed : bool) (arch : string) : bool :=
  installed && negb (existsb (String.eqb arch) ["deepseek"; "deepseek_v3"; "nllb"; "gptoss"]).

(** Detect and validate the quantisation of a checkpoint *)
Definition check_quantization (q : quant_attr) (path : string) (c : Checkpoint) : res unit :=
  match detect_quantization q path c with
  | Err e => Err e
  | Ok None => Ok tt
  | Ok (Some info) => validate_quantization_support info
  end.

(** What the environment answers *)
Record environment := {
  env_torch_version_ok : option bool;        (** [None]: accelerate is not installed *)
  env_hub_available : bool;
  env_default_config_exists : bool;
  env_model_config : res config;             (** [AutoConfig.from_pretrained] *)
  env_architectures : list string;           (** [architectures]; empty when absent or no list *)
  env_quant : quant_attr;
  env_has_v4 : bool;
  env_path_exists : bool;
  env_snapshot : res (option string);        (** [snapshot_download] *)
  env_checkpoint : Checkpoint;               (** the files under the resolved path *)
  env_files : string → option Checkpoints.node;   (** the file system *)
  env_engine_config : res EngineConfig;      (** [ArcherConfig.load_from_json] or [_file] *)
  env_flash_installed : bool;
  env_load : string → bool → res unit }.     (** [OffloadEngine.init] and [from_pretrained] *)

Record loaded := {
  ld_arch : string;
  ld_use_native : bool;
  ld_max_seq_length : Z;
  ld_checkpoint_paths : list string;
  ld_attention_offload : bool;
  ld_kv_cache_offload : bool;
  ld_flash_attention : bool }.

#[local] Instance init_ret : MRet res := λ _ a, Ok a.
#[local] Instance init_bind : MBind res := λ _ _ k r, match r with Ok a => k a | Err e => Err e end.
Definition check (b : bool) (e : exn) : res unit := if b then Ok tt else Err e.

Section init.
Context (num_gpu_devices : Z) (device_total : Z → option Z) (flashinfer : option (res unit)).
Context {V : Type} (zero : V).
Definition moe_init (name : string) (config_given : bool) (env : environment)
    : res (loaded * option (@NativeComponents V)) :=
  _ ← check (env_hub_available env) RuntimeError;
  _ ← check (default true (env_torch_version_ok env)) RuntimeError;
  _ ← check (config_given || env_default_config_exists env) RuntimeError;
  c ← env_model_config env;
  _ ← check_quantization (env_quant env) "" (env_checkpoint env);
  arch ← resolve_arch (env_has_v4 env) (env_architectures env);
  path ← (if env_path_exists env then Ok name
          else p ← env_snapshot env; match p with Some p => Ok p | None => Err RuntimeError end);
  _ ← check_quantization (env_quant env) path (env_checkpoint env);
  paths ← Checkpoints.get_checkpoint_paths (env_files env) path;
  e ← env_engine_config env;
  let max_seq_length := default 4096 (as_int (getattr c "max_position_embeddings" PyNone)) in
  nc ← build_native_components num_gpu_devices device_total flashinfer zero c e max_seq_length;
  let flash := flash_attention (env_flash_installed env) arch in
  _ ← env_load env arch flash;
  mret ({| ld_arch := arch; ld_use_native := use_native_engine e;
           ld_max_seq_length := default max_seq_length (nc_max_seq_length <$> nc);
           ld_checkpoint_paths := paths;
           ld_attention_offload := bool_decide (is_Some (nc ≫= attention_backend));
           ld_kv_cache_offload := enable_kv_cache_offload e && bool_decide (is_Some nc);
           ld_flash_attention := flash |}, nc).
End init.
End Loading.

Module Running.
(** The metadata that attention classes hold as class attributes *)
Abbreviation contexts := (list (ModuleClass * AttentionMetadata)).

(** ** The object *)
Section running.
(** Past key values of transformers; the model with its modules *)
Context {KV : Type} (modules : option (list ModuleClass)).

(** A value where logits are expected; [NotTensor] is an object that is no tensor. *)
Inductive logits_value := Tensor (l : Logits) | NotTensor.
(** What the model returns: an object with attributes, or a tuple *)
Inductive outputs :=
  | OutputObject (logits : option logits_value) (past_key_values : option KV)
  | OutputTuple (l : list (option logits_value)).

(** [self.model(input_ids, past_key_values=..., position_ids=...)] with the paged contexts
    that the attention classes hold *)
Context (model : list Z → option KV → option Z → contexts → res outputs).

Record MoE := {
  arch : string;
  use_native_engine : bool;
  max_seq_length : Z;
  generation_engine : option KVCacheManager;   (** [_native_generation_engine] *)
  has_attention_backend : bool;                (** [_native_attention_backend] *)
  cached_past_key_values : option KV;
  paged_contexts : contexts;                   (** attributes of the classes, latest first *)
  tracer : ExpertTracer;
  moe_seq_id_list : list string;
  expert_layer_seq_ids : list (list string);   (** [seq_id_list] of each expert layer module *)
  eval_mode : bool }.
Definition set_cached (o : option KV) (m : MoE) : MoE :=
  {| arch := arch m; use_native_engine := use_native_engine m; max_seq_length := max_seq_length m;
     generation_engine := generation_engine m; has_attention_backend := has_attention_backend m;
     cached_past_key_values := o; paged_contexts := paged_contexts m; tracer := tracer m;
     moe_seq_id_list := moe_seq_id_list m; expert_layer_seq_ids := expert_layer_seq_ids m; eval_mode := eval_mode m |}.
Definition set_contexts (c : contexts) (m : MoE) : MoE :=
  {| arch := arch m; use_native_engine := use_native_engine m; max_seq_length := max_seq_length m;
     generation_engine := generation_engine m; has_attention_backend := has_attention_backend m;
     cached_past_key_values := cached_past_key_values m; paged_contexts := c; tracer := tracer m;
     moe_seq_id_list := moe_seq_id_list m; expert_layer_seq_ids := expert_layer_seq_ids m; eval_mode := eval_mode m |}.
Definition set_manager (k : KVCacheManager) (m : MoE) : MoE :=
  {| arch := arch m; use_native_engine := use_native_engine m; max_seq_length := max_seq_length m;
     generation_engine := Some k; has_attention_backend := has_attention_backend m;
     cached_past_key_values := cached_past_key_values m; paged_contexts := paged_contexts m; tracer := tracer m;
     moe_seq_id_list := moe_seq_id_list m; expert_layer_seq_ids := expert_layer_seq_ids m; eval_mode := eval_mode m |}.
Definition set_tracing (t : ExpertTracer) (ids : list string) (m : MoE) : MoE :=
  {| arch := arch m; use_native_engine := use_native_engine m; max_seq_length := max_seq_length m;
     generation_engine := generation_engine m; has_attention_backend := has_attention_backend m;
     cached_past_key_values := cached_past_key_values m; paged_contexts := paged_contexts m; tracer := t;
     moe_seq_id_list := ids; expert_layer_seq_ids := (λ _, ids) <$> expert_layer_seq_ids m; eval_mode := eval_mode m |}.
Definition set_eval (m : MoE) : MoE :=
  {| arch := arch m; use_native_engine := use_native_engine m; max_seq_length := max_seq_length m;
     generation_engine := generation_engine m; has_attention_backend := has_attention_backend m;
     cached_past_key_values := cached_past_key_values m; paged_contexts := paged_contexts m; tracer := tracer m;
     moe_seq_id_list := moe_seq_id_list m; expert_layer_seq_ids := expert_layer_seq_ids m; eval_mode := true |}.

(** ** [_native_model_forward] *)
(** [_get_paged_attention_classes] *)
Definition moe_paged_classes : list ModuleClass := get_paged_attention_classes modules.
Definition use_paged_context (meta : option AttentionMetadata) (m : MoE) : bool :=
  negb (bool_decide (moe_paged_classes = [])) && bool_decide (is_Some meta) && has_attention_backend m.
(** [getattr(_attention_metadata, "is_prefill", True)] *)
Definition is_prefill_call (meta : option AttentionMetadata) : bool :=
  match meta with Some md => is_prefill md | None => true end.
(** [extra_kwargs["past_key_values"]] and [extra_kwargs["position_ids"]] *)
Definition past_argument (meta : option AttentionMetadata) (m : MoE) : option KV :=
  if use_paged_context meta m || is_prefill_call meta then None else cached_past_key_values m.
Definition position_argument (meta : option AttentionMetadata) (m : MoE) : option Z :=
  if use_paged_context meta m && negb (is_prefill_call meta)
  then match meta with Some md => (λ n, n - 1) <$> head (seq_lens md) | None => None end
  else None.

Definition set_paged_context (md : AttentionMetadata) (cls : ModuleClass) : M MoE unit :=
  modify (λ m, set_contexts ((cls, md) :: filter (λ p, p.1 ≠ cls) (paged_contexts m)) m).
Definition clear_paged_context (cls : ModuleClass) : M MoE unit :=
  modify (λ m, set_contexts (filter (λ p, p.1 ≠ cls) (paged_contexts m)) m).
Definition call_model (tokens : list Z) (past : option KV) (position : option Z) : M MoE outputs := λ m,
  (model tokens past position (paged_contexts m), m).
Definition answer {A} (r : res A) : M MoE A := λ m, (r, m).
(** [try: body / finally: cleanup] *)
Definition finally {A} (body : M MoE A) (cleanup : M MoE unit) : M MoE A := λ m,
  let '(r, m) := body m in
  match cleanup m with
  | (Ok _, m) => (r, m)
  | (Err e, m) => (Err e, m)
  end.

(** [l[-n:]] *)
Definition last_rows {A} (n : nat) (l : list A) : list A :=
  if (n =? 0)%nat then l else drop (length l - n) l.
Definition select_logits (n : nat) (o : outputs) : res (list Row) :=
  let found := match o with OutputObject l _ => l | OutputTuple l => match l with v :: _ => v | [] => None end end in
  match found with
  | None => Err RuntimeError
  | Some NotTensor => Err RuntimeError
  | Some (Tensor (Rank3 [])) => Err IndexError
  | Some (Tensor (Rank3 (rows :: _))) => Ok (last_rows n rows)
  | Some (Tensor (Rank2 rows)) => Ok rows
  | Some (Tensor RankOther) => Err RuntimeError
  end.
(** Capture the cache for the next decode step, on the path without paged contexts *)
Definition capture_cache (paged : bool) (o : outputs) : M MoE unit :=
  match o with
  | OutputObject _ (Some kv) => when (negb paged) (modify (set_cached (Some kv)))
  | _ => mret tt
  end.
Definition native_model_forward (tokens : list Z) (meta : option AttentionMetadata) : M MoE (list Row) :=
  m ← get;
  let paged := use_paged_context meta m in
  let past := past_argument meta m in
  let position := position_argument meta m in
  o ← match meta with
      | Some md =>
          if paged
          then for_each moe_paged_classes (set_paged_context md);;
               finally (call_model tokens past position) (for_each moe_paged_classes clear_paged_context)
          else call_model tokens past position
      | None => call_model tokens past position
      end;
  capture_cache paged o;;
  answer (select_logits (length tokens) o).

(** ** [generate], [forward] and [serve] *)
(** The [input_ids] tensor: the rows of a matrix, or the shape of another rank *)
Inductive input_tensor := Matrix (rows : list (list Z)) | OtherRank (shape : list nat).
(** [input_ids.shape[0]] *)
Definition shape0 (t : input_tensor) : res nat :=
  match t with
  | Matrix rows => Ok (length rows)
  | OtherRank (n :: _) => Ok n
  | OtherRank [] => Err IndexError
  end.

Fixpoint create_entries (ids : list string) : M ExpertTracer unit :=
  match ids with [] => mret tt | i :: ids => create_entry i;; create_entries ids end.
(** [_configure_hook]; [fresh] supplies the uuids of the new entries. *)
Definition configure_hook (fresh : nat → string) (input : input_tensor) : M MoE unit := λ m,
  match shape0 input with
  | Err e => (Err e, m)
  | Ok n =>
      let ids := fresh <$> seq 0 n in
      (Ok tt, set_tracing (create_entries ids (tracer m)).2 ids m)
  end.

(** The keyword arguments that are read; [Some None] is an explicit [None]. *)
Record kwargs := {
  kw_max_new_tokens : option (option Z);
  kw_max_tokens : option (option Z);
  kw_do_sample : option bool;
  kw_temperature : option Q;
  kw_top_p : option Q;
  kw_top_k : option Z }.
Definition sampling_of (k : kwargs) : SamplingParams :=
  let max_tokens := default (default (Some 256) (kw_max_tokens k)) (kw_max_new_tokens k) in
  mkSampling (if bool_decide (kw_do_sample k = Some false) then 0%Q else default 1%Q (kw_temperature k))
    (default 1%Q (kw_top_p k)) (default 0 (kw_top_k k)) (default 256 max_tokens) [].

Section generate.
Context (argmax : Row → nat) (topk : Row → nat → list nat) (sort_desc_indices : Row → list nat)
        (softmax : Row → list Q) (multinomial : nat → list Q → nat).
Context (block_size eos_token_id : Z).
(** transformers' own [generate] *)
Context (hf_generate : input_tensor → kwargs → MoE → res (list (list Z))).

(** The object after a sequence of forward calls, and what the next one answers *)
Definition after_calls (m : MoE) (calls : list (list Z * AttentionMetadata)) : MoE :=
  foldl (λ m c, (native_model_forward c.1 (Some c.2) m).2) m calls.
Definition engine_forward (m : MoE) (calls : list (list Z * AttentionMetadata)) (tokens : list Z)
    (md : AttentionMetadata) : res (list Row) := (native_model_forward tokens (Some md) (after_calls m calls)).1.
(** [self._native_generation_engine.generate(...)], whose forward function is
    [_native_model_forward] *)
Definition engine_generate (mgr : KVCacheManager) (prompt : list Z) (sp : SamplingParams) (uuid : string)
    : M MoE GenerationResult := λ m,
  let '(r, g) := GenerationLoop.generate argmax topk sort_desc_indices softmax multinomial (engine_forward m)
                   block_size eos_token_id (Some (max_seq_length m)) prompt (Some sp) None uuid (mkGS mgr []) in
  (r, set_manager (g_mgr g) (after_calls m (g_calls g))).

Definition generate (fresh : nat → string) (uuid : string) (input : input_tensor) (k : kwargs) : M MoE (list (list Z)) :=
  m ← get;
  match use_native_engine m, generation_engine m, input with
  | true, Some mgr, Matrix [prompt] =>
      configure_hook fresh input;;
      modify (set_cached None);;
      modify set_eval;;
      raise_if (max_seq_length m <? zlen prompt)%Z ValueError;;
      result ← finally (engine_generate mgr prompt (sampling_of k) uuid) (modify (set_cached None));
      mret [prompt ++ output_token_ids result]%list
  | _, _, _ =>
      configure_hook fresh input;;
      modify set_eval;;
      m ← get;
      answer (hf_generate input k m)
  end.
End generate.

(** [forward] and [__call__]: a plain call of the model; [run] is what the model answers. *)
Definition forward {A} (run : input_tensor → contexts → res A) (fresh : nat → string) (input : input_tensor) : M MoE A :=
  configure_hook fresh input;;
  m ← get;
  answer (run input (paged_contexts m)).

(** What [serve] hands to [initialize_with_model] before it starts the server *)
Record serve_arguments := {
  sv_max_seq_length : Z; sv_device_memory_ratio : Q; sv_kv_cache_ratio : Q; sv_max_batch_size : Z;
  sv_enable_prefix_caching : bool; sv_host : string; sv_port : Z }.
Definition serve (host : string) (port : Z) (device_memory_ratio kv_cache_ratio : Q) (max_batch_size : Z)
    (enable_prefix_caching : bool) (offload_dir : option string) : M MoE serve_arguments :=
  m ← get;
  match offload_dir with
  | None => raise ValueError
  | Some _ =>
      mret {| sv_max_seq_length := max_seq_length m; sv_device_memory_ratio := device_memory_ratio;
              sv_kv_cache_ratio := kv_cache_ratio; sv_max_batch_size := max_batch_size;
              sv_enable_prefix_caching := enable_prefix_caching; sv_host := host; sv_port := port |}
  end.
End running.
End Running.
