(* ===== verification/BigModelingProps.v ===== *)
(** * Theorems about the [MoE] entry point

    Generation through [_native_model_forward] and the cached past key values samples
    every token from the model's answer on the whole text before it; the paged contexts
    are set for exactly one call; the native components are sized within the memory they
    are given. *)
From Stdlib Require Import QArith String.
From S2P Require Import Prelude HfConfig Quantization PagedAttention ModelRunner ModelRunnerProps.
From S2P Require Import BlockPool BlockPoolProps KVCacheManager KVCacheManagerProps Sampler EngineTypes EngineScheduler.
From S2P Require Import TransferScheduler MemoryManager ExpertTracing GenerationLoop BigModeling.
Open Scope Z_scope.

Module RunningProps.
Import Running.
Section exact.
Context {KV : Type} (modules : option (list ModuleClass)).
Context (model : list Z → option KV → option Z → contexts → res (@outputs KV)).
Context (argmax : Row → nat) (topk : Row → nat → list nat) (sort_desc_indices : Row → list nat)
        (softmax : Row → list Q) (multinomial : nat → list Q → nat).
Context (block_size eos_token_id : Z).

(** What transformers documents of a causal model with a cache: [full text] has one row of
    logits for each token of a text; past key values stand for the text they were made of
    ([kv_for]), and a call with past key values answers the rows of the new tokens and past
    key values for the longer text. *)
Record cached_model (full : list Z → list Row) (kv_for : KV → list Z → Prop) : Prop := {
  cm_rows : ∀ text, length (full text) = length text;
  cm_prefill : ∀ tokens, tokens ≠ [] → ∃ kv, kv_for kv tokens ∧
    model tokens None None [] = Ok (OutputObject (Some (Tensor (Rank3 [full tokens]))) (Some kv));
  cm_decode : ∀ tokens kv text, tokens ≠ [] → kv_for kv text → ∃ kv', kv_for kv' (text ++ tokens) ∧
    model tokens (Some kv) None [] =
      Ok (OutputObject (Some (Tensor (Rank3 [drop (length text) (full (text ++ tokens))]))) (Some kv')) }.
Context (full : list Z → list Row) (kv_for : KV → list Z → Prop) (Hmodel : cached_model full kv_for).

(** No paged contexts are used, and none is set. *)
Definition unpaged (m : @MoE KV) : Prop :=
  (moe_paged_classes modules = [] ∨ has_attention_backend m = false) ∧ paged_contexts m = [].
Lemma unpaged_use meta m : unpaged m → use_paged_context modules meta m = false.
Proof.
  intros [[H|H] _]; unfold use_paged_context; rewrite H.
  - done.
  - by rewrite andb_false_r.
Qed.

Local Abbreviation native := (native_model_forward modules model).
Local Abbreviation sample n rows sp := (sample_token argmax topk sort_desc_indices softmax multinomial n rows sp).

Lemma last_rows_all {A} (l : list A) : last_rows (length l) l = l.
Proof. unfold last_rows. destruct (length l =? 0)%nat; [done|]. by rewrite Nat.sub_diag. Qed.

Lemma native_prefill m tokens md :
  unpaged m → is_prefill md = true → tokens ≠ [] →
  ∃ kv, kv_for kv tokens ∧ native tokens (Some md) m = (Ok (full tokens), set_cached (Some kv) m).
Proof.
  intros Hu Hp Ht. destruct (cm_prefill _ _ Hmodel tokens Ht) as (kv & Hkv & Hm). exists kv. split; [done|].
  unfold native_model_forward, past_argument, position_argument, call_model. munfold.
  rewrite !(unpaged_use _ _ Hu). cbn [is_prefill_call orb andb]. rewrite Hp, (proj2 Hu), Hm.
  cbn [capture_cache negb answer]. unfold answer. cbn [select_logits].
  pose proof (last_rows_all (full tokens)) as Hr. rewrite (cm_rows _ _ Hmodel tokens) in Hr. by rewrite Hr.
Qed.

Lemma native_decode m tokens md kv text :
  unpaged m → is_prefill md = false → tokens ≠ [] → cached_past_key_values m = Some kv → kv_for kv text →
  ∃ kv', kv_for kv' (text ++ tokens) ∧
    native tokens (Some md) m = (Ok (drop (length text) (full (text ++ tokens))), set_cached (Some kv') m).
Proof.
  intros Hu Hp Ht Hc Hkv. destruct (cm_decode _ _ Hmodel tokens kv text Ht Hkv) as (kv' & Hkv' & Hm). exists kv'. split; [done|].
  unfold native_model_forward, past_argument, position_argument, call_model. munfold.
  rewrite !(unpaged_use _ _ Hu). cbn [is_prefill_call orb andb]. rewrite Hp, Hc, (proj2 Hu), Hm.
  cbn [capture_cache negb]. unfold answer. cbn [select_logits].
  assert (length (drop (length text) (full (text ++ tokens))) = length tokens) as Hl
    by (rewrite length_drop, (cm_rows _ _ Hmodel), length_app; lia).
  pose proof (last_rows_all (drop (length text) (full (text ++ tokens)))) as Hr. rewrite Hl in Hr. by rewrite Hr.
Qed.

Lemma sample_last n rows rows' sp : last rows = last rows' → sample n rows sp = sample n rows' sp.
Proof. unfold sample_token. by intros ->. Qed.
Lemma last_drop {A} k (l : list A) : (k < length l)%nat → last (drop k l) = last l.
Proof. intros Hk. rewrite last_lookup, last_lookup, lookup_drop, length_drop. f_equal. lia. Qed.

Lemma sample_ok n rows sp : rows ≠ [] → (0 <= temperature sp)%Q → ∃ y, sample n rows sp = Ok y.
Proof.
  intros Hr Ht. unfold sample_token. destruct (last rows) as [r|] eqn:E; [|by apply last_None in E].
  rewrite (proj2 (Qle_bool_iff _ _) Ht). cbn [negb]. destruct (Qeq_bool (temperature sp) 0); eauto.
Qed.
(** ** A run of the generation loop *)
Section run.
Context (m0 : @MoE KV) (prompt : list Z) (sp : SamplingParams).
Context (Hu : unpaged m0) (Hprompt : prompt ≠ []) (Htemp : (0 <= temperature sp)%Q).
Local Abbreviation after := (after_calls modules model m0).
Local Abbreviation ef := (engine_forward modules model m0).
Local Abbreviation steps := (decode_steps argmax topk sort_desc_indices softmax multinomial ef block_size eos_token_id).

(** Every token was sampled from the last row of the model's answer on the text before it. *)
Definition sampled (out : list Z) : Prop :=
  ∀ i y, out !! i = Some y → sample (S i) (full (prompt ++ take i out)) sp = Ok y.
(** After [calls] only the cached past key values have changed: they stand for [text]. *)
Definition caught_up (calls : list (list Z * AttentionMetadata)) (text : list Z) : Prop :=
  ∃ kv, kv_for kv text ∧ after calls = set_cached (Some kv) m0.

Lemma sampled_snoc out y :
  sampled out → sample (S (length out)) (full (prompt ++ out)) sp = Ok y → sampled (out ++ [y]).
Proof.
  intros Hs Hy i z. destruct (decide (i < length out)%nat) as [Hi|Hi].
  - rewrite lookup_app_l, take_app_le by lia. apply Hs.
  - rewrite lookup_app_r by lia. destruct (i - length out)%nat eqn:E; [|done]. intros [= <-].
    assert (i = length out) as -> by lia. by rewrite take_app_length.
Qed.

Lemma run_forward_caught_up g tokens md text :
  caught_up (g_calls g) text → is_prefill md = false → tokens ≠ [] →
  ∃ g1, run_forward ef tokens md g = (Ok (drop (length text) (full (text ++ tokens))), g1) ∧ g_mgr g1 = g_mgr g ∧
    length (g_calls g1) = S (length (g_calls g)) ∧ caught_up (g_calls g1) (text ++ tokens).
Proof.
  intros (kv & Hkv & Ha) Hp Ht.
  assert (unpaged (set_cached (Some kv) m0)) as Hu' by exact Hu.
  destruct (native_decode (set_cached (Some kv) m0) tokens md kv text Hu' Hp Ht eq_refl Hkv) as (kv' & Hkv' & Hn).
  eexists. split; [|split; [|split]].
  - unfold run_forward, engine_forward. rewrite Ha, Hn. reflexivity.
  - done.
  - cbn [g_calls]. rewrite length_app. cbn. lia.
  - exists kv'. split; [done|]. cbn [g_calls]. unfold after_calls. rewrite foldl_app. cbn [foldl fst snd].
    change (foldl _ m0 (g_calls g)) with (after (g_calls g)). by rewrite Ha, Hn.
Qed.

Lemma append_total rid g :
  ∃ ok g1, with_mgr (append_token_block rid) g = (Ok ok, g1) ∧ g_calls g1 = g_calls g.
Proof.
  unfold with_mgr, append_token_block, allocate_gpu_block. munfold.
  destruct (allocate_block (gpu_pool (g_mgr g))) as [[id|] p]; eauto.
Qed.

Lemma decode_exact k rid np table l t g :
  caught_up (g_calls g) (prompt ++ l) → length (g_calls g) = S (length l) → sampled (l ++ [t]) →
  ∃ o g', steps k rid sp np table (l ++ [t]) g = (Ok o, g') ∧ sampled o ∧ ∃ text, caught_up (g_calls g') text.
Proof.
  revert table l t g. induction k as [|k IH]; intros table l t g Hc Hn Hs; cbn [decode_steps]; [by eauto 7|].
  case_bool_decide as Heos; [by eauto 7|].
  assert (∀ tb g1 md, g_calls g1 = g_calls g → is_prefill md = false →
    ∃ o g', (logits ← run_forward ef (drop (length (l ++ [t]) - 1) (l ++ [t])) md;
             next ← sample_next argmax topk sort_desc_indices softmax multinomial logits sp;
             steps k rid sp np tb ((l ++ [t]) ++ [next])) g1 = (Ok o, g') ∧ sampled o ∧
            ∃ text, caught_up (g_calls g') text) as Hbody.
  { intros tb g1 md Hg1 Hmd.
    assert (drop (length (l ++ [t]) - 1) (l ++ [t]) = [t]) as -> by (rewrite length_app; cbn; rewrite Nat.add_sub; apply drop_app_length).
    destruct (run_forward_caught_up g1 [t] md (prompt ++ l)) as (g2 & Hrun & _ & Hlen & Hc2); [by rewrite Hg1|done|done|].
    unfold mbind, M_bind. rewrite Hrun. unfold sample_next. rewrite Hlen, Hg1, Hn. rewrite <- app_assoc in *.
    set (rows := drop _ _).
    assert (0 < length prompt)%nat by (destruct prompt; [done|cbn; lia]).
    assert (last rows = last (full (prompt ++ l ++ [t]))) as Hlast
      by (apply last_drop; rewrite (cm_rows _ _ Hmodel), !length_app; cbn; lia).
    assert (rows ≠ []) as Hne by (intros He; apply (f_equal length) in He; unfold rows in He; rewrite length_drop, (cm_rows _ _ Hmodel), !length_app in He; cbn in He; lia).
    destruct (sample_ok (S (S (length l))) rows sp Hne Htemp) as [y Hy]. rewrite Hy.
    apply IH; [done|rewrite Hlen, Hg1, Hn, length_app; cbn; lia|].
    apply sampled_snoc; [done|]. rewrite length_app. cbn [length]. rewrite Nat.add_1_r, <- Hy. by apply sample_last. }
  destruct (zlen table * block_size <? np + zlen (l ++ [t])).
  - destruct (append_total rid g) as (ok & g1 & Ha & Hg1). unfold mbind at 1, M_bind at 1.
    unfold mbind at 1, M_bind at 1. rewrite Ha. destruct ok; cbn; [|rewrite <- Hg1 in Hc; eauto 7].
    by apply Hbody.
  - by apply Hbody.
Qed.
Lemma generate_body_exact rid g :
  g_calls g = [] →
  ∃ o g', generate_body argmax topk sort_desc_indices softmax multinomial ef block_size eos_token_id rid prompt sp g = (Ok o, g') ∧
    sampled o ∧ ∃ text, caught_up (g_calls g') text.
Proof.
  intros Hg. unfold generate_body.
  unfold mbind at 1, M_bind at 1, get at 1. set (md := λ g : GenState, mkMeta [get_block_table rid (g_mgr g)] [zlen prompt]
    (zlen prompt) (zlen prompt) 0 (compute_slot_mapping block_size (get_block_table rid (g_mgr g)) (zlen prompt)) true).
  change (mkMeta _ _ _ _ _ _ _) with (md g).
  destruct (native_prefill m0 prompt (md g) Hu eq_refl Hprompt) as (kv & Hkv & Hn).
  unfold mbind at 1, M_bind at 1, run_forward at 1, engine_forward at 1. rewrite Hg.
  change (after_calls modules model m0 []) with m0. rewrite Hn. cbn [fst app].
  assert (caught_up [(prompt, md g)] prompt) as Hc.
  { exists kv. split; [done|]. unfold after_calls. cbn [foldl fst snd]. by rewrite Hn. }
  destruct (max_tokens sp <=? 0).
  { exists [], (mkGS (g_mgr g) [(prompt, md g)]). split; [done|]. split; [intros i y; by rewrite lookup_nil|]. by exists prompt. }
  set (rows := drop _ _). assert (0 < length prompt)%nat by (destruct prompt; [done|cbn; lia]).
  assert (last rows = last (full prompt)) as Hlast by (apply last_drop; rewrite (cm_rows _ _ Hmodel); lia).
  assert (rows ≠ []) as Hne by (intros He; apply (f_equal length) in He; unfold rows in He; rewrite length_drop, (cm_rows _ _ Hmodel) in He; cbn in He; lia).
  unfold mbind, M_bind, sample_next. cbn [g_calls length].
  destruct (sample_ok 1 rows sp Hne Htemp) as [y Hy]. rewrite Hy.
  apply (decode_exact (Z.to_nat (max_tokens sp - 1)) rid (zlen prompt) _ [] y); [by rewrite app_nil_r|done|].
  apply (sampled_snoc []); [intros i z; by rewrite lookup_nil|]. rewrite app_nil_r, <- Hy. by apply sample_last.
Qed.

Lemma engine_generate_exact mgr uuid (limit : option Z) ng nc :
  0 < block_size → mgr_inv ng nc mgr [] → mgr_block_size mgr = block_size → seq_to_gpu_blocks mgr !! uuid = None →
  match limit with Some n => zlen prompt ≤ n | None => True end →
  - ((- zlen prompt) / block_size) ≤ num_free_gpu_blocks mgr →
  ∃ res g', GenerationLoop.generate argmax topk sort_desc_indices softmax multinomial ef block_size eos_token_id limit
      prompt (Some sp) None uuid (mkGS mgr []) = (Ok res, g') ∧
    sampled (output_token_ids res) ∧ ∃ text, caught_up (g_calls g') text.
Proof.
  intros Hb Hi Hbs Hf Hlim Hfree. unfold GenerationLoop.generate. cbn [default].
  rewrite bool_decide_false by done. unfold mbind at 1, M_bind at 1, raise_if at 1. munfold.
  assert (match limit with Some n => n <? zlen prompt | None => false end = false) as ->
    by (destruct limit; [by apply Z.ltb_ge|done]).
  assert (0 ≤ zlen prompt) as Hp by (unfold zlen; lia). rewrite <- Hbs in Hb, Hfree.
  destruct (allocate_blocks_all_or_nothing ng nc mgr uuid (zlen prompt) Hi Hf Hp Hb) as (r & m1 & Ha & Hi1 & Hr & Ht).
  rewrite bool_decide_true in Hr by done. subst r. destruct Ht as (ids & Ht1 & _ & Hlen).
  unfold with_mgr at 1. munfold. cbn [g_mgr]. rewrite Ha. cbn [negb].
  destruct (generate_body_exact uuid (set_g_mgr m1 (mkGS mgr [])) eq_refl) as (o & g' & Hbody & Ho & Hc).
  assert (get_block_table uuid m1 = ids) as Hg1 by (unfold get_block_table; by rewrite Ht1, lookup_insert_eq).
  assert (mgr_block_size m1 = block_size) as Hsz by (rewrite <- Hbs; by eapply allocate_keeps_size).
  assert (gen_inv block_size ng nc (seq_to_gpu_blocks mgr) uuid (set_g_mgr m1 (mkGS mgr []))) as Hgi
    by (constructor; simpl; [done|done|by rewrite Hg1|done]).
  pose proof (generate_body_spec argmax topk sort_desc_indices softmax multinomial ef block_size eos_token_id ng nc
    ltac:(lia) _ uuid prompt sp _ Hgi Hprompt) as Hspec.
  change (id sp) with sp. unfold try_finally. rewrite Hbody in Hspec |- *. destruct Hspec as [Hg' _].
  { simpl. rewrite Hg1, Hlen, Hbs. pose proof (Z.mul_div_le (- zlen prompt) block_size). lia. }
  destruct (free_sequence_inv ng nc (g_mgr g') [] uuid (gv_mgr _ _ _ _ _ _ Hg')) as (m3 & Hfr & _).
  unfold with_mgr, zoom. rewrite Hfr. eauto 7.
Qed.
End run.

(** C6: [generate] for one prompt on the native engine: when the model keeps its documented
    cache contract, the prompt is neither empty nor too long, and its blocks are free,
    the call returns the prompt followed by tokens each of which was sampled from the
    last row of the model's answer on the whole text before it, although the model was
    given one token at a time.  There are at most [max_tokens] of them, at least one when
    that is positive, and the end-of-sequence token can only be the last.  Afterwards no
    past key values are cached, no paged context is set, and the block tables and free
    blocks are as before. *)
Theorem native_generate_exact hf fresh uuid prompt k (m : @MoE KV) mgr ng nc :
  unpaged m → use_native_engine m = true → generation_engine m = Some mgr →
  0 < block_size → mgr_inv ng nc mgr [] → mgr_block_size mgr = block_size → seq_to_gpu_blocks mgr !! uuid = None →
  prompt ≠ [] → zlen prompt ≤ max_seq_length m → - ((- zlen prompt) / block_size) ≤ num_free_gpu_blocks mgr →
  (0 <= temperature (sampling_of k))%Q →
  ∃ out m' mgr',
    generate modules model argmax topk sort_desc_indices softmax multinomial block_size eos_token_id hf
      fresh uuid (Matrix [prompt]) k m = (Ok [prompt ++ out], m') ∧
    (∀ i y, out !! i = Some y → sample (S i) (full (prompt ++ take i out)) (sampling_of k) = Ok y) ∧
    zlen out ≤ Z.max 0 (max_tokens (sampling_of k)) ∧ (0 < max_tokens (sampling_of k) → out ≠ []) ∧
    (∀ l x, out = l ++ [x] → eos_token_id ∉ l) ∧
    cached_past_key_values m' = None ∧ paged_contexts m' = [] ∧ generation_engine m' = Some mgr' ∧
    seq_to_gpu_blocks mgr' = seq_to_gpu_blocks mgr ∧ num_free_gpu_blocks mgr' = num_free_gpu_blocks mgr.
Proof.
  intros Hu Hnat Hgen Hb Hi Hbs Hf Hp Hlen Hfree Ht.
  unfold generate. unfold mbind at 1, M_bind at 1, get. rewrite Hnat, Hgen.
  set (m1 := set_eval (set_cached None (set_tracing (create_entries (fresh <$> seq 0 1) (tracer m)).2 (fresh <$> seq 0 1) m))).
  assert (unpaged m1) as Hu1 by exact Hu.
  destruct (engine_generate_exact m1 prompt (sampling_of k) Hu1 Hp Ht mgr uuid (Some (max_seq_length m)) ng nc Hb Hi Hbs Hf Hlen Hfree)
    as (r & g' & Hrun & Hs & text & kv & Hkv & Hafter).
  pose proof (generate_restores argmax topk sort_desc_indices softmax multinomial (engine_forward modules model m1) block_size
    eos_token_id (Some (max_seq_length m)) ng nc Hb prompt (Some (sampling_of k)) None uuid mgr Hi Hbs Hf) as Hrest.
  rewrite Hrun in Hrest. destruct Hrest as (_ & Htab & Hnf & _ & Ho & Hne & Heos & _).
  exists (output_token_ids r), (set_cached None (set_manager (g_mgr g') (after_calls modules model m1 (g_calls g')))), (g_mgr g').
  split; [|rewrite Hafter; split_and!; try done; exact (proj2 Hu)].
  munfold. unfold configure_hook. cbn [shape0 length]. rewrite (proj2 (Z.ltb_ge _ _) Hlen).
  unfold finally, engine_generate. change (max_seq_length (set_eval _)) with (max_seq_length m).
  change (set_eval _) with m1. rewrite Hrun. done.
Qed.
End exact.
(** ** The paged contexts *)
Lemma paged_classes_nodup seen ms : NoDup (paged_classes seen ms) ∧ ∀ c, c ∈ paged_classes seen ms → c ∉ seen.
Proof.
  revert seen. induction ms as [|c ms IH]; intros seen; cbn [paged_classes]; [split; [constructor|set_solver]|].
  case_bool_decide as H1; [apply IH|]. case_bool_decide; cbn [negb]; [|apply IH].
  destruct (has_paged_hooks c); cbn [negb]; [|apply IH]. destruct (IH (c :: seen)) as [Hn Hi]. split.
  - constructor; [|done]. intros Hc. apply Hi in Hc. set_solver.
  - intros d [->|Hd]%elem_of_cons; [done|]. apply Hi in Hd. set_solver.
Qed.
Lemma moe_classes_nodup modules : NoDup (moe_paged_classes modules).
Proof. unfold moe_paged_classes, get_paged_attention_classes. destruct modules; [apply paged_classes_nodup|constructor]. Qed.

Lemma set_contexts_twice {KV} c c' (m : @MoE KV) : set_contexts c (set_contexts c' m) = set_contexts c m.
Proof. done. Qed.
Lemma set_contexts_same {KV} (m : @MoE KV) : set_contexts (paged_contexts m) m = m.
Proof. by destruct m. Qed.

Lemma set_all {KV} md classes (m : @MoE KV) :
  NoDup classes → (∀ c, c ∈ classes → c ∉ (paged_contexts m).*1) →
  for_each classes (set_paged_context md) m = (Ok tt, set_contexts (reverse ((λ c, (c, md)) <$> classes) ++ paged_contexts m) m).
Proof.
  revert m. induction classes as [|c cs IH]; intros m Hnd Hfresh; cbn [for_each].
  { cbn. by rewrite set_contexts_same. }
  apply NoDup_cons in Hnd as [Hc Hnd]. unfold mbind, M_bind.
  change (set_paged_context md c m) with (@Ok unit tt, set_contexts ((c, md) :: filter (λ p, p.1 ≠ c) (paged_contexts m)) m).
  cbv iota beta.
  assert (filter (λ p : ModuleClass * AttentionMetadata, p.1 ≠ c) (paged_contexts m) = paged_contexts m) as ->.
  { apply filter_keep. intros [d md'] Hd Hdc. cbn in Hdc. subst d. destruct (Hfresh c); [set_solver|].
    apply list_elem_of_fmap. by exists (c, md'). }
  rewrite IH.
  - rewrite set_contexts_twice. cbn [fmap list_fmap paged_contexts set_contexts]. by rewrite reverse_cons, <- app_assoc.
  - done.
  - intros d Hd. cbn [paged_contexts set_contexts fmap list_fmap]. specialize (Hfresh d). set_solver.
Qed.

Lemma clear_all {KV} classes (m : @MoE KV) :
  for_each classes clear_paged_context m =
    (Ok tt, set_contexts (filter (λ p, p.1 ∉ classes) (paged_contexts m)) m).
Proof.
  revert m. induction classes as [|c cs IH]; intros m; cbn [for_each].
  { rewrite filter_keep by (intros; apply not_elem_of_nil). by rewrite set_contexts_same. }
  unfold mbind, M_bind. change (clear_paged_context c m) with (@Ok unit tt, set_contexts (filter (λ p, p.1 ≠ c) (paged_contexts m)) m).
  cbv iota beta. rewrite IH, set_contexts_twice. cbn [paged_contexts set_contexts].
  f_equal. f_equal. rewrite list_filter_filter. apply list_filter_iff. intros p. rewrite not_elem_of_cons. tauto.
Qed.

(** The paged contexts live for one call.  Whatever the model does, also when it raises, no
    class holds a context after [_native_model_forward] if none did before; and on the paged
    path the model is called exactly while every paged class holds the metadata of this
    call, with the position of the last token and no past key values. *)
Theorem native_forward_scopes_contexts {KV} modules model tokens meta (m : @MoE KV) :
  paged_contexts m = [] →
  let '(r, m') := native_model_forward modules model tokens meta m in
  paged_contexts m' = [] ∧
  ∀ md, meta = Some md → use_paged_context modules meta m = true →
    m' = m ∧
    r = match model tokens None (position_argument modules meta m)
                (reverse ((λ c, (c, md)) <$> moe_paged_classes modules)) with
        | Ok o => select_logits (length tokens) o
        | Err e => Err e
        end.
Proof.
  intros Hm. unfold native_model_forward, mbind, M_bind, get.
  assert (∀ past pos, let '(r, m') := match call_model model tokens past pos m with
      | (Ok a, s') => match capture_cache false a s' with
                      | (Ok _, s'0) => answer (select_logits (length tokens) a) s'0 | (Err e, s'0) => (Err e, s'0) end
      | (Err e, s') => (Err e, s') end in paged_contexts m' = []) as Hplain.
  { intros past pos. unfold call_model. destruct (model _ _ _ _) as [[l [kv|]|l]|]; done. }
  destruct meta as [md|]; [|specialize (Hplain (past_argument modules None m) (position_argument modules None m));
    assert (use_paged_context modules None m = false) as -> by (unfold use_paged_context; by rewrite andb_false_r);
    match type of Hplain with let (_, _) := ?x in _ => destruct x end; split; [done|congruence]].
  destruct (use_paged_context modules (Some md) m) eqn:Hp.
  - rewrite set_all; [|apply moe_classes_nodup|rewrite Hm; set_solver]. rewrite Hm, app_nil_r.
    unfold finally, call_model. rewrite clear_all. cbn [paged_contexts set_contexts].
    rewrite (filter_drop (λ p : ModuleClass * AttentionMetadata, p.1 ∉ moe_paged_classes modules)), set_contexts_twice.
    2:{ intros [c md'] Hc Hn. apply Hn. cbn. rewrite elem_of_reverse in Hc. apply list_elem_of_fmap in Hc as (c' & [= -> _] & Hin). done. }
    assert (past_argument modules (Some md) m = None) as -> by (unfold past_argument; by rewrite Hp).
    assert (set_contexts [] m = m) as Hsame by (rewrite <- Hm; apply set_contexts_same).
    destruct (model _ _ _ _) as [o|e] eqn:Ho; rewrite Hsame.
    + destruct o as [l [kv|]|l]; cbn [capture_cache negb]; munfold; unfold answer; (split; [done|]); intros ? [= <-] _; by rewrite Ho.
    + split; [done|]. intros ? [= <-] _. by rewrite Ho.
  - specialize (Hplain (past_argument modules (Some md) m) (position_argument modules (Some md) m)).
    match type of Hplain with let (_, _) := ?x in _ => destruct x end. split; [done|]. intros ? _ [=].
Qed.
(** ** Positions *)
Section positions.
Context (argmax : Row → nat) (topk : Row → nat → list nat) (sort_desc_indices : Row → list nat)
        (softmax : Row → list Q) (multinomial : nat → list Q → nat).
Context (fwd : list (list Z * AttentionMetadata) → list Z → AttentionMetadata → res (list Row)) (block_size eos : Z).

(** A decode call for the token number [i] of the output [o] *)
Definition call_at (np : Z) (o : list Z) (c : list Z * AttentionMetadata) : Prop :=
  is_prefill c.2 = false ∧ ∃ t i, c.1 = [t] ∧ seq_lens c.2 = [np + Z.of_nat i + 1] ∧ o !! i = Some t.
Lemma call_at_prefix np o o' c : o `prefix_of` o' → call_at np o c → call_at np o' c.
Proof. intros Hp (H1 & t & i & H2 & H3 & H4). split; [done|]. exists t, i. split_and!; [done|done|]. by eapply prefix_lookup_Some. Qed.

Lemma decode_calls k rid sp np table l t g o g' :
  decode_steps argmax topk sort_desc_indices softmax multinomial fwd block_size eos k rid sp np table (l ++ [t]) g = (Ok o, g') →
  (l ++ [t]) `prefix_of` o ∧ ∃ cs, g_calls g' = g_calls g ++ cs ∧ Forall (call_at np o) cs.
Proof.
  revert table l t g. induction k as [|k IH]; intros table l t g; cbn [decode_steps].
  { intros [= <- <-]. split; [done|]. exists []. by rewrite app_nil_r. }
  case_bool_decide. { intros [= <- <-]. split; [done|]. exists []. by rewrite app_nil_r. }
  assert (∀ tb g1 md, g_calls g1 = g_calls g → is_prefill md = false → seq_lens md = [np + zlen (l ++ [t])] →
    (logits ← run_forward fwd (drop (length (l ++ [t]) - 1) (l ++ [t])) md;
     next ← sample_next argmax topk sort_desc_indices softmax multinomial logits sp;
     decode_steps argmax topk sort_desc_indices softmax multinomial fwd block_size eos k rid sp np tb ((l ++ [t]) ++ [next])) g1 = (Ok o, g') →
    (l ++ [t]) `prefix_of` o ∧ ∃ cs, g_calls g' = g_calls g ++ cs ∧ Forall (call_at np o) cs) as Hbody.
  { intros tb g1 md Hg1 Hmd Hsl.
    assert (drop (length (l ++ [t]) - 1) (l ++ [t]) = [t]) as -> by (rewrite length_app; cbn; rewrite Nat.add_sub; apply drop_app_length).
    unfold mbind, M_bind, run_forward. destruct (fwd _ _ _) as [rows|]; [|done].
    unfold sample_next. destruct (sample_token _ _ _ _ _ _ _ _) as [y|]; [|done].
    intros Hrun. apply IH in Hrun as (Hp & cs & Hcs & Hall). cbn [g_calls] in Hcs. rewrite Hg1 in Hcs.
    assert ((l ++ [t]) `prefix_of` o) as Hpre by (etrans; [|exact Hp]; by eexists).
    split; [done|]. exists (([t], md) :: cs). split; [rewrite Hcs, <- app_assoc; done|]. constructor; [|done].
    apply (call_at_prefix np (l ++ [t])); [done|]. split; [done|]. exists t, (length l). split_and!; [done| |].
    - cbn [snd]. rewrite Hsl. unfold zlen. rewrite length_app. cbn [length]. f_equal. lia.
    - apply list_lookup_middle. done. }
  destruct (zlen table * block_size <? np + zlen (l ++ [t])).
  - destruct (append_total rid g) as (ok & g1 & Ha & Hg1). unfold mbind at 1, M_bind at 1. unfold mbind at 1, M_bind at 1.
    rewrite Ha. destruct ok; cbn; [by apply Hbody|].
    intros [= <- <-]. split; [done|]. exists []. by rewrite Hg1, app_nil_r.
  - by apply Hbody.
Qed.

(** On the paged path every decode step gives the model the position of its token: whatever
    the model answers, the calls of a generation are the prompt, then single tokens, each
    with a [position_ids] that is the index of that token in the prompt followed by the
    output. *)
Theorem decode_positions_exact {KV} modules (m : @MoE KV) limit prompt sp uuid mgr r g :
  GenerationLoop.generate argmax topk sort_desc_indices softmax multinomial fwd block_size eos limit prompt sp None uuid
    (mkGS mgr []) = (Ok r, g) →
  ∃ md cs, g_calls g = (prompt, md) :: cs ∧ is_prefill md = true ∧
    ∀ c, c ∈ cs → use_paged_context modules (Some c.2) m = true →
      ∃ t p, c.1 = [t] ∧ position_argument modules (Some c.2) m = Some p ∧ (prompt ++ output_token_ids r) !! Z.to_nat p = Some t.
Proof.
  unfold GenerationLoop.generate. unfold mbind at 1, M_bind at 1, raise_if at 1.
  case_bool_decide as Hp; [done|]. unfold mret at 1, M_ret at 1. unfold mbind at 1, M_bind at 1, raise_if at 1.
  destruct (match limit with Some n => n <? zlen prompt | None => false end); [done|]. unfold mret at 1, M_ret at 1.
  unfold mbind at 1, M_bind at 1. unfold with_mgr at 1, zoom at 1. destruct (allocate_blocks_for_sequence _ _ _) as [[ok|] m1]; [|done].
  unfold mbind at 1, M_bind at 1, raise_if. destruct ok; [|done]. cbn [negb]. unfold mret at 1, M_ret at 1.
  unfold mbind at 1, M_bind at 1, try_finally. destruct (generate_body _ _ _ _ _ _ _ _ _ _ _ _) as [rb g1] eqn:Hb.
  unfold with_mgr, zoom. destruct (free_sequence uuid (g_mgr g1)) as [[]]; [|done]. destruct rb as [o|]; [|done].
  intros [= <- <-]. cbn [output_token_ids g_calls set_g_mgr]. revert Hb. unfold generate_body, mbind, M_bind, get, run_forward.
  cbn [g_calls set_g_mgr app]. destruct (fwd _ _ _) as [rows|]; [|done]. destruct (_ <=? 0).
  { intros [= <- <-]. do 2 eexists. split_and!; [done|done|]. intros c Hc. by apply not_elem_of_nil in Hc. }
  unfold sample_next. destruct (sample_token _ _ _ _ _ _ _ _) as [y|]; [|done].
  intros Hd. apply (decode_calls _ _ _ _ _ []) in Hd as (_ & cs & Hcs & Hall). cbn [g_calls app] in Hcs.
  do 2 eexists. split_and!; [done|done|]. intros c Hc Hu. rewrite Forall_forall in Hall.
  destruct (Hall c Hc) as (Hpre & t & i & Ht & Hs & Ho). exists t, (zlen prompt + Z.of_nat i). split_and!; [done| |].
  - unfold position_argument. rewrite Hu. cbn [is_prefill_call]. rewrite Hpre, Hs. cbn. f_equal. lia.
  - rewrite lookup_app_r by (unfold zlen; lia). unfold zlen. rewrite <- Ho. f_equal. lia.
Qed.
End positions.

(** The block tables that the generation loop computes are not used by any attention class
    of this package: unless the model has a module of a class named
    [DeepseekV2PagedAttention] or [DeepseekV3PagedAttention], a forward call depends on the
    metadata only through [is_prefill]. *)
Theorem block_tables_unused {KV} modules model tokens md md' (m : @MoE KV) :
  (∀ c, c ∈ default [] modules → class_name c ∉ paged_class_names) → is_prefill md = is_prefill md' →
  native_model_forward modules model tokens (Some md) m = native_model_forward modules model tokens (Some md') m.
Proof.
  intros Hc Hp.
  assert (moe_paged_classes modules = []) as Hn.
  { unfold moe_paged_classes, get_paged_attention_classes. destruct modules as [ms|]; [|done]. cbn in Hc.
    assert (∀ seen, paged_classes seen ms = []) as H; [|apply H]. induction ms as [|c ms IH]; intros seen; [done|]. cbn [paged_classes].
    rewrite (bool_decide_false (class_name c ∈ _)) by (apply Hc; set_solver). cbn [negb].
    case_bool_decide; apply IH; intros; apply Hc; set_solver. }
  assert (∀ md, use_paged_context modules (Some md) m = false) as Hu by (intros; unfold use_paged_context; by rewrite Hn).
  unfold native_model_forward, mbind, M_bind, get, past_argument, position_argument. rewrite !Hu. cbn [orb andb is_prefill_call].
  by rewrite Hp.
Qed.
End RunningProps.

(** ** A run *)
Module RunningDemo.
Import Running RunningProps.
(** A model whose next token is the sum of the text modulo three; its past key values are
    the text itself. *)
Definition demo_row (text : list Z) : Row :=
  (λ t, Some (if decide (zsum text mod 3 = t) then 1%Q else 0%Q)) <$> [0; 1; 2].
Definition demo_full (text : list Z) : list Row := (λ i, demo_row (take (S i) text)) <$> seq 0 (length text).
Definition demo_model (tokens : list Z) (past : option (list Z)) (position : option Z) (c : contexts) : res (@outputs (list Z)) :=
  let text := default [] past in
  Ok (OutputObject (Some (Tensor (Rank3 [drop (length text) (demo_full (text ++ tokens))]))) (Some (text ++ tokens))).
Lemma demo_contract : cached_model demo_model demo_full eq.
Proof.
  constructor.
  - intros text. unfold demo_full. by rewrite length_fmap, length_seq.
  - intros tokens _. by exists tokens.
  - intros tokens kv text _ ->. by exists (text ++ tokens).
Qed.

Definition demo_moe : @MoE (list Z) :=
  {| arch := "mixtral"; use_native_engine := true; max_seq_length := 64; generation_engine := Some (mgr_init 4 4 4);
     has_attention_backend := true; cached_past_key_values := Some [7]; paged_contexts := [];
     tracer := tracer_init 1 1 0 1; moe_seq_id_list := []; expert_layer_seq_ids := [[]; []]; eval_mode := false |}.
Definition demo_kwargs : kwargs :=
  {| kw_max_new_tokens := Some (Some 5); kw_max_tokens := None; kw_do_sample := Some false; kw_temperature := None;
     kw_top_p := None; kw_top_k := None |}.
Definition demo_modules : option (list ModuleClass) := Some [mkClass "Linear" false; mkClass "Qwen3PagedAttention" true].
Definition demo_generate :=
  generate demo_modules demo_model ref_argmax ref_topk ref_sort ref_softmax ref_multinomial 4 0
    (λ _ _ _, Err RuntimeError) (λ _, "s")%string "u"%string (Matrix [[5; 6; 6; 2; 1; 2]]) demo_kwargs.
Example demo_generates : (demo_generate demo_moe).1 = Ok [[5; 6; 6; 2; 1; 2; 1; 2; 1; 2; 1]].
Proof. vm_compute. reflexivity. Qed.

Lemma native_generate_exact_witness :
  ∃ out m', demo_generate demo_moe = (Ok [[5; 6; 6; 2; 1; 2] ++ out], m') ∧ cached_past_key_values m' = None.
Proof.
  destruct (native_generate_exact demo_modules demo_model ref_argmax ref_topk ref_sort ref_softmax ref_multinomial 4 0
    demo_full eq demo_contract (λ _ _ _, Err RuntimeError) (λ _, "s")%string "u"%string [5; 6; 6; 2; 1; 2] demo_kwargs demo_moe
    (mgr_init 4 4 4) 4 4) as (out & m' & mgr' & H & _ & _ & _ & _ & Hc & _).
  - split; [left; reflexivity|reflexivity].
  - reflexivity.
  - reflexivity.
  - lia.
  - apply mgr_init_inv.
  - reflexivity.
  - reflexivity.
  - discriminate.
  - vm_compute. discriminate.
  - vm_compute. discriminate.
  - vm_compute. discriminate.
  - exists out, m'. split; [exact H|exact Hc].
Defined.
Definition demo_deepseek : option (list ModuleClass) := Some [mkClass "DeepseekV3PagedAttention" true; mkClass "Linear" false].
Lemma native_forward_scopes_contexts_witness :
  paged_contexts (native_model_forward demo_deepseek (λ _ _ _ _, @Err (@outputs (list Z)) RuntimeError) [1]
    (Some (mkMeta [[0]] [3] 3 0 1 [2] false)) demo_moe).2 = [].
Proof.
  pose proof (native_forward_scopes_contexts demo_deepseek (λ _ _ _ _, @Err (@outputs (list Z)) RuntimeError) [1]
    (Some (mkMeta [[0]] [3] 3 0 1 [2] false)) demo_moe eq_refl) as H.
  destruct (native_model_forward demo_deepseek (λ _ _ _ _, @Err (@outputs (list Z)) RuntimeError) [1]
    (Some (mkMeta [[0]] [3] 3 0 1 [2] false)) demo_moe) as [r m']. exact (proj1 H).
Defined.

(** The prompt and two decode steps, with their positions *)
Lemma decode_positions_exact_witness :
  ∃ md cs, g_calls (toy_generate (mkGS toy_mgr [])).2 = ([5; 6; 7; 8], md) :: cs ∧
    ∀ c, c ∈ cs → use_paged_context demo_deepseek (Some c.2) demo_moe = true →
      ∃ t p, c.1 = [t] ∧ position_argument demo_deepseek (Some c.2) demo_moe = Some p ∧ [5; 6; 7; 8; 2; 1] !! Z.to_nat p = Some t.
Proof.
  destruct (decode_positions_exact ref_argmax ref_topk ref_sort ref_softmax ref_multinomial toy_forward 4 1 demo_deepseek demo_moe
    None [5; 6; 7; 8] (Some (mkSampling 0 1 0 5 [])) "r"%string toy_mgr (mkGen "r" [5; 6; 7; 8] [2; 1] FINISHED_STOPPED)
    (toy_generate (mkGS toy_mgr [])).2) as (md & cs & H1 & _ & H3); [vm_compute; reflexivity|].
  exists md, cs. split; [exact H1|exact H3].
Defined.

Lemma block_tables_unused_witness :
  native_model_forward demo_modules demo_model [1] (Some (mkMeta [[0]] [3] 3 0 1 [2] false)) demo_moe =
  native_model_forward demo_modules demo_model [1] (Some (mkMeta [] [] 0 0 0 [] false)) demo_moe.
Proof.
  apply block_tables_unused; [|reflexivity]. intros c Hc. apply (bool_decide_unpack _).
  apply elem_of_cons in Hc as [->|Hc]; [by vm_compute|]. apply elem_of_cons in Hc as [->|Hc]; [by vm_compute|].
  by apply not_elem_of_nil in Hc.
Defined.
End RunningDemo.

(** ** Loading *)
Module LoadingProps.
Import Loading.

Lemma kv_bytes_nonneg n totals c : (∀ i z, totals i = Some z → 0 ≤ z) → (0 <= Coordinator.kv_cache_memory_ratio c)%Q →
  0 ≤ Coordinator.mc_kv_cache_bytes n totals c 0.
Proof.
  intros Ht Hr. apply Coordinator.truncate_le. apply Qmult_le_0_compat; [|done]. change 0%Q with (inject_Z 0). rewrite <- Zle_Qle.
  unfold Coordinator.total_gpu_memory_bytes. destruct (_ && _); [|by vm_compute]. destruct (totals 0) eqn:E; cbn; [by eapply Ht|by vm_compute].
Qed.

Lemma make_backend_sizes {V} fi (zero : V) heads dim d blocks :
  (make_backend fi zero heads dim d blocks = None ↔ heads < 0 ∨ dim < 0 ∨ dim mod 8 ≠ 0) ∧
  ∀ b, make_backend fi zero heads dim d blocks = Some b →
    length (k_cache b) = Z.to_nat blocks ∧ length (v_cache b) = Z.to_nat blocks.
Proof.
  unfold make_backend. destruct (Z.ltb_spec heads 0), (Z.ltb_spec dim 0); cbn [orb]; try (split; [split; [lia|done]|done]).
  unfold PagedAttention.init. cbn [PagedAttention.head_dim].
  assert ((Z.to_nat dim mod 8 =? 0)%nat = (dim mod 8 =? 0)) as ->.
  { rewrite <- (Z2Nat.id dim) at 2 by done. change 8 with (Z.of_nat 8). rewrite <- Nat2Z.inj_mod.
    destruct (Nat.eqb_spec (Z.to_nat dim mod 8) 0), (Z.eqb_spec (Z.of_nat (Z.to_nat dim mod 8)) 0); lia. }
  destruct (Z.eqb_spec (dim mod 8) 0) as [Hd|Hd]; cbn [negb]; [|split; [split; [lia|done]|done]].
  split; [split; [by destruct fi as [[]|]|lia]|].
  intros b. destruct fi as [[]|]; intros [= <-]; cbn; by rewrite !length_replicate.
Qed.

(** The native components are sized for the memory they are given.  Whenever
    [_build_native_components] succeeds, the cache manager has at least one block and at
    least 32 and twice as many blocks on the CPU; the number of blocks is the largest that
    the memory coordinator's KV budget holds, or one when not even one fits; the scheduler
    works on that very manager; the ratios leave room for each other, and the paged backend
    exists exactly when its shapes do, with as many blocks as the manager hands out. *)
Theorem native_components_sized {V} n totals fi (zero : V) c e len nc :
  (∀ i z, totals i = Some z → 0 ≤ z) → (0 <= kv_cache_memory_ratio e)%Q →
  build_native_components n totals fi zero c e len = Ok (Some nc) →
  let mc := memory_coordinator nc in
  ∃ blocks page,
    1 ≤ blocks ∧ kv_cache_manager nc = mgr_init blocks (Z.max 32 (blocks * 2)) 16 ∧ kv_mgr (scheduler nc) = kv_cache_manager nc ∧
    page_bytes (ge_num_kv_heads nc) (ge_head_dim nc) (ge_dtype nc) = Ok page ∧
    (0 < page → let block := page * Z.max 1 (ge_num_layers nc) in
       (Coordinator.can_allocate_kv_blocks n totals mc blocks block = true ∨ blocks = 1) ∧
       Coordinator.can_allocate_kv_blocks n totals mc (blocks + 1) block = false) ∧
    (Coordinator.device_memory_ratio mc + Coordinator.kv_cache_memory_ratio mc <= 1)%Q ∧
    (attention_backend nc = None ↔ ge_num_kv_heads nc < 0 ∨ ge_head_dim nc < 0 ∨ ge_head_dim nc mod 8 ≠ 0) ∧
    (∀ b, attention_backend nc = Some b → length (k_cache b) = Z.to_nat blocks ∧ length (v_cache b) = Z.to_nat blocks).
Proof.
  intros Ht Hkv. unfold build_native_components. destruct (use_native_engine e); cbn [negb]; [|done].
  set (e1 := if Qeq_bool _ _ then _ else _).
  assert (Qeq_bool (kv_cache_memory_ratio e1) 0 = false ∧ (0 <= kv_cache_memory_ratio e1)%Q) as [Hz Hpos]
    by (unfold e1; destruct (Qeq_bool (kv_cache_memory_ratio e) 0) eqn:E; [by vm_compute|done]).
  unfold Coordinator.from_config. cbn [default from_option id]. unfold id. rewrite Hz. cbn [andb]. unfold Coordinator.mc_post_init.
  cbn [Coordinator.device_memory_ratio Coordinator.kv_cache_memory_ratio].
  destruct (Qlt_b 1 _) eqn:Hsum; [done|]. destruct (page_bytes _ _ _) as [page|] eqn:Hpage; [|done]. intros [= <-].
  cbn [memory_coordinator kv_cache_manager scheduler ge_num_kv_heads ge_head_dim ge_dtype ge_num_layers attention_backend].
  set (mc := Coordinator.mkMC _ _).
  set (blocks := Z.max 1 _). exists blocks, page. split_and!.
  - unfold blocks. lia.
  - done.
  - done.
  - done.
  - intros Hp. set (block := page * Z.max 1 _) in *. assert (0 < block) as Hb by (unfold block; nia).
    destruct (Coordinator.kv_blocks_fit n totals mc block Hb (kv_bytes_nonneg _ _ mc Ht Hpos)) as (H1 & H2 & H3).
    set (k := Coordinator.compute_num_kv_blocks n totals mc block) in *.
    destruct (Z.le_gt_cases 1 k) as [Hk|Hk].
    + assert (blocks = k) as -> by (unfold blocks; lia). auto.
    + assert (blocks = 1) as -> by (unfold blocks; lia). split; [by right|].
      unfold Coordinator.can_allocate_kv_blocks in *. rewrite Z.leb_gt in *. nia.
  - by apply Coordinator.Qlt_b_false.
  - apply make_backend_sizes.
  - apply make_backend_sizes.
Qed.
Lemma substring_start k n m s : String.substring 0 k (String.substring m (k + n) s) = String.substring m k s.
Proof.
  revert k n m. induction s as [|a s IH]; intros k n m.
  - destruct m, k; try done; destruct n; done.
  - destruct m as [|m].
    + destruct k as [|k]; [cbn; by destruct n, s|]. cbn. f_equal. apply (IH k n 0%nat).
    + cbn. apply IH.
Qed.
(** A text that contains [a ++ b] contains [a]. *)
Lemma is_in_prefix a b s : a ≠ ""%string → is_in (a ++ b) s = true → is_in a s = true.
Proof.
  intros Ha. unfold is_in. destruct (String.index 0 (a ++ b) s) as [m|] eqn:E; [|done]. intros _.
  destruct (String.index 0 a s) eqn:E2; [done|]. exfalso.
  refine (String.index_correct3 _ _ _ _ E2 Ha (Nat.le_0_l m) _).
  apply String.index_correct1 in E. assert (String.length (a ++ b) = (String.length a + String.length b)%nat) as El by (clear; induction a as [|x a IH]; [done|]; exact (f_equal S IH)).
  rewrite El in E.
  rewrite <- (substring_start _ (String.length b)), E. clear. induction a as [|x a IH]; [by destruct b|]. exact (f_equal (String x) IH).
Qed.

(** Two architectures of the registry are never chosen.  [deepseekv4] comes after
    [deepseek], which every class name that contains it contains as well, and
    [deepseek_v3] is not a part of the class name [DeepseekV3ForCausalLM]: both kinds of
    checkpoint are loaded with the class of DeepSeek-V2. *)
Theorem deepseek_shadowed has_v4 archs arch :
  resolve_arch has_v4 archs = Ok arch →
  arch ≠ "deepseekv4"%string ∧
  (archs = ["DeepseekV3ForCausalLM"]%string ∨ archs = ["DeepseekV4ForCausalLM"]%string → arch = "deepseek"%string).
Proof.
  intros H. split.
  - intros ->. destruct archs as [|a archs]; [done|]. cbn [resolve_arch] in H.
    destruct (List.find _ _) as [[x t]|] eqn:Hf; [|done]. injection H as ->.
    assert (is_in "deepseekv4" (lower a) = true) as H4 by (by apply List.find_some in Hf as [_ Hf]).
    assert (is_in "deepseek" (lower a) = true) as H2 by (by apply (is_in_prefix "deepseek" "v4")).
    unfold registry, MODEL_MAPPING_TYPES in Hf. cbn [app List.find fst] in Hf. rewrite H2 in Hf.
    repeat (case_match; [done|]). done.
  - intros [->| ->]; destruct has_v4; vm_compute in H; congruence.
Qed.
Lemma deepseek_shadowed_witness : "deepseek"%string ≠ "deepseekv4"%string ∧ resolve_arch true ["DeepseekV4ForCausalLM"%string] = Ok "deepseek"%string.
Proof.
  split; [|reflexivity].
  exact (proj1 (deepseek_shadowed true ["DeepseekV4ForCausalLM"%string] "deepseek"%string eq_refl)).
Defined.

Definition demo_config : config :=
  <["num_hidden_layers" := PyInt 2]> (<["num_attention_heads" := PyInt 4]> (<["hidden_size" := PyInt 256]>
    (<["torch_dtype" := PyStr "torch.bfloat16"]> ∅)))%string.
Definition demo_engine_config : EngineConfig :=
  {| use_native_engine := true; device_memory_ratio := 3 # 4; kv_cache_memory_ratio := 0; enable_kv_cache_offload := false |}.
Lemma native_components_sized_witness :
  ∃ nc, build_native_components 1 (λ _, Some (2 ^ 18)) None 0 demo_config demo_engine_config 4096 = Ok (Some nc) ∧
    ge_dtype nc = Bfloat16 ∧ ge_head_dim nc = 64 ∧
    ∃ blocks, 1 ≤ blocks ∧ kv_cache_manager nc = mgr_init blocks (Z.max 32 (blocks * 2)) 16.
Proof.
  destruct (build_native_components 1 (λ _, Some (2 ^ 18)) None 0 demo_config demo_engine_config 4096) as [[nc|]|] eqn:E;
    [|vm_compute in E; discriminate|vm_compute in E; discriminate].
  exists nc. split; [reflexivity|].
  pose proof (native_components_sized 1 (λ _, Some (2 ^ 18)) None 0 demo_config demo_engine_config 4096 nc) as H.
  destruct H as (blocks & page & H1 & H2 & _); [intros i z [= <-]; lia|vm_compute; discriminate|exact E|].
  split; [|split]; [vm_compute in E; injection E as <-; reflexivity..|]. by exists blocks.
Defined.
End LoadingProps.
